(* ===== verification/_CoqProject ===== *)
-Q . S2P
Prelude.v
Types.v
Params.v
Crypto.v
Transaction.v
Block.v
Utxo.v
Blockchain.v
Mempool.v
ChainSpec.v
ChainTree.v
ChainInv.v
ChainStep.v
ChainTheorems.v
ToyChain.v
ConsensusTheorems.v
BoardTypes.v
Exchange.v
ExchangeInv.v
ExchangeTheorems.v
Staging.v
Tasks.v
Board.v
Payouts.v
BoardInv.v
BoardStep.v
PayoutStep.v
BoardTheorems.v
ToyBoard.v
Payments.v
PaymentInv.v
PaymentTheorems.v
Auth.v
AuthRace.v
Spend.v
Peers.v
Wire.v
BlockStore.v
IpAddr.v
Node.v
NodeTheorems.v
NodeStart.v
ToyNode.v
Wallets.v
Settlement.v
SettleInv.v
SettleStep.v
SettleTheorems.v
Sweep.v
ToySettle.v
InFlight.v
InFlightInv.v
InFlightStep.v
InFlightTheorems.v
Desk.v
DeskInv.v
DeskTheorems.v
Reconcile.v
ReconcileInv.v
ReconcileTheorems.v
RateLimit.v
RouteMetrics.v
Faucet.v
Admin.v
FaucetTheorems.v
Tables.v
Names.v
EscrowKey.v
HubBoot.v
Relay.v
Views.v
Figures.v
NodeClient.v
NodeClientInv.v
NodeClientStep.v
NodeClientTheorems.v
Miner.v
WalletCore.v
WalletPay.v
ToyWallet.v
