(* ===== verification/Prelude.v ===== *)
(** * A verification development of itx

    itx is a proof-of-work chain with a task marketplace on top of it. The chain
    is the library of [src/lib], run by the nodes of [src/node] and fed by the
    miner of [src/miner]; the hub of [src/hub] keeps the marketplace and an
    exchange, holds deposits on the chain, and pays out through a node; the wallet
    of [src/wallet] pays from a terminal. This development models the chain and
    the node around it, the hub from its store and its boot to its requests, its
    sweep and its node client, the miner and the wallet, and proves what makes
    them correct.

    ** How the parts interact

    A node applies blocks and transactions from peers, miners and wallets to one
    [Blockchain] and keeps it in a block store. An agent's request reaches the hub
    through a rate limit in a signed envelope; the replay guard admits it once; a
    handler then calls operations of [TaskBoard] and writes the result to the
    store. Money leaves the hub as payments and payouts: a record is written with
    its effect, the transaction goes to the node, and the sweep confirms it when
    the chain shows its output, or sends it again. A start of the hub reads every
    table back and checks the board it gets. The miner asks nodes for templates
    and submits the ones it solves.

    ** Conventions

    - A fallible function returns [outcome E A]: [Ok], [Err], or [Panic] for a
      failed [expect], an index out of range or an arithmetic overflow, which the
      workspace's profiles check. A theorem that something never panics is a
      theorem about all of these.
    - A [u64] or [u128] is an [N] with its additions and subtractions checked at
      that width; a time is a [Z] of nanoseconds; an [f64] is a binary64 of the
      Standard Library ([Types]); a [HashMap] or [BTreeMap] is a [gmap], and where
      the code iterates one the order is the key order ([BTreeMap]) or an
      arbitrary permutation given by [ChainEnv] ([HashMap]).
    - [Utc::now()], [Uuid::new_v4()], the node's replies and whether a write to
      the store commits are arguments of the operation that uses them. Code that
      gives way to other code is a step relation that interleaves.
    - SHA-256, CBOR, ECDSA, HKDF, decimal arithmetic, hexadecimal and date formats
      are crates the sources only call: operations of the classes [Primitives],
      [ChainEnv], [EnvelopeEnv], [MessageCodec], [BlockCodec], [Cbor],
      [EscrowPrimitives] and [TextForm]. The classes of laws beside them state
      what the code relies on (sizes of digests, that a signature verifies under
      its key, that what was encoded decodes, that an iteration visits each entry
      once, that decimal scaling is exact where the quotient terminates within its
      precision). The [Toy...] files and modules instantiate the classes by concrete functions
      and run the witnesses on them.
    - Nothing assumes that hashes never collide. The theorems about block trees
      are about the blocks of a set [U] with [collision_free U], any set in which
      two blocks with one hash are equal and every block has transactions;
      [merkle_root_binds] exhibits the collision instead, and [AuthRace] the two
      envelopes that share a signature.

    ** The chain ([src/lib])

    - [Params]: [lib.rs], the constants, the reward schedule and its total, work.
    - [Types], [Crypto], [Transaction]: integer encodings, binary64; the structs of
      [types/transaction.rs] and [types/block.rs]; [sha256.rs], [crypto.rs]; what
      an input signs and that it determines the payments.
    - [Block]: [types/block.rs] and [util.rs]: mining, Merkle roots, validation.
    - [Utxo], [Blockchain], [Mempool]: [types/blockchain.rs]. [Blockchain] has the
      state and every operation; [Utxo] and [Mempool] the lemmas on the output set
      and on pending transactions.
    - [ChainSpec]: the consensus rules with no state, [valid_chain]. [ChainTree]:
      the block map as a tree of valid chains. [ChainInv], [ChainStep]: the
      invariant [follows] and its preservation by each path of [add_block].
    - [ChainTheorems]: the machine as a step relation over its public operations;
      every reachable state follows a valid chain, the heaviest of those stored and
      among equals the first seen, supply is capped, the derived state is recomputable, and [add_block] returns.
    - [ConsensusTheorems]: single operations: validation against its declarative
      rule, issuance per block, Merkle roots, retargeting, admission, templates;
      and two behaviours the code should not have.
    - [Spend]: [payment.rs], coin selection and signing.
    - [Wire]: [network.rs], frames and the handshake; frames read back what was
      sent, however the bytes arrive. [BlockStore]: [store.rs], the node's tables.

    ** The node ([src/node])

    - [Peers]: [ban.rs] and [time_sync.rs].
    - [Node], [NodeTheorems]: [handler.rs], [util.rs] and the startup of
      [main.rs]: the reaction to every message and to a whole connection, what is
      written when a block is accepted, when a restart comes up and what it recovers,
      that downloading a peer's chain ends with that chain; and that a block released
      from the orphans is not written, which stops the next start.
    - [NodeStart]: [populate_connections] of [util.rs], the whole of [main] up to the
      accept loop, and one turn of that; which peers a start keeps and what makes it
      fail, that it ends with the best of their chains, that a banned address is not
      served.

    ** The hub ([src/hub])

    - [BoardTypes], [Tasks], [Board], [Payouts]: [board.rs], the data, the pure
      functions of a task, the operations of the marketplace, and its payouts,
      attempts and faucet grants.
    - [BoardInv], [BoardStep], [PayoutStep], [BoardTheorems]: the
      well-formedness [task_wf] of a task and what one operation may do to it
      ([evolves]); each operation keeps both; over any history payouts stay within
      the bounty, are fixed once decided and are recorded once, statuses follow
      their edges, and an escrowed task has its deposit.
    - [Exchange], [ExchangeInv], [ExchangeTheorems], [Staging]: the order book.
      The ledger invariant says locks are what the open orders need and are
      covered; placing keeps it, settles each trade at the resting order's price with the
      taker's fee, and meets orders in price-time priority; the handler's staged copy ([handlers.rs]) is
      observationally the live board.
    - [Payments], [PaymentInv], [PaymentTheorems]: [payments.rs] and the write
      transaction of [store.rs]; live state and disk agree over any history with
      restarts, withdrawals conserve balances, an escrow and a faucet recipient
      have one payment each, confirmation needs evidence from the chain.
    - [Wallets]: [operator_wallet.rs], which outputs a payment
      spends and how the wallets are reshaped.
    - [Settlement], [SettleInv], [SettleStep], [SettleTheorems]: the
      settlement half of [handlers.rs]. The hub's life is a step relation over the
      live board and the disk, with crashes anywhere: a leg of a payout is only
      ever paid by one transaction, and a payout that is sent is concluded. The
      relation has no crash between two leg records of one escrow payout:
      [partial_record_pays_twice] shows what the code does there.
    - [InFlight], [InFlightInv], [InFlightStep], [InFlightTheorems]: the guards under
      which settlement handlers run side by side, interleaved at every await, with handlers cancelled
      anywhere; why a handler may be taken as one step.
    - [Sweep]: [run_sweep_once] of [main.rs], a pass of which is a
      run of that relation.
    - [Desk], [DeskInv], [DeskTheorems]: the task and exchange requests of
      [handlers.rs], each a run of the same relation; a staged change is made
      whole or not at all; a confirmation of an escrow whose write fails can fund a
      second task.
    - [Reconcile], [ReconcileInv], [ReconcileTheorems]: [reconcile.rs]; a hub that
      only ran its operations has nothing to report, and a crash forgets no
      payout.
    - [Tables], [HubBoot]: [store.rs] table by table and the
      second half of [main]; a start reads back exactly the board that was
      written. [EscrowKey]: [escrow_key.rs] and the key files of
      the first half of [main]. [Names]: [names.rs].
    - [Auth]: [lib/src/envelope.rs] and [auth.rs]; no envelope is
      accepted twice, across restarts and failed writes. [AuthRace]: the same requests
      interleaved between reading the clock, looking, charging, inserting and recording.
    - [IpAddr], [RateLimit]: [rate_limit.rs] and the addresses
      of [std::net]. [RouteMetrics]: the request counters of [metrics.rs], their feeding by
      the middleware and the routes of [build_router]; the counters are those of the log
      of requests, and the table is bounded. [Admin]: [admin.rs], the gauges and the
      sweep's timing of [main.rs]; what the operators are told follows from the board,
      and when an alert is raised. [Faucet], [FaucetTheorems]: [faucet_pow.rs] and the faucet's
      routes; a challenge buys one grant and grants stay within their budgets.
    - [Relay]: the wallet routes; a relayed spend is the owner's
      and the node takes it. [Views], [Figures]:
      the listings, the leaderboard and the figures of the board.
    - [NodeClient], [NodeClientInv], [NodeClientStep], [NodeClientTheorems]:
      [node_client.rs], calls that interleave over a pool of connections, with a program logic for their bodies;
      a reply reaches the call that asked.

    ** The miner and the wallet

    - [Miner]: [miner/src/main.rs], threads and loop interleaved.
    - [WalletCore]: [wallet/src/core.rs]; [WalletPay]: [wallet/src/pay.rs].

    The witnesses are in [ToyChain], [ToyBoard], [ToyNode], [ToySettle] and [ToyWallet],
    or at the end of the file of the theorem, in a [Module Toy...] of its own. The
    theorems in these files and modules are behaviours of the code on a concrete
    state. A file with definitions and theorems has the definitions first.

    ** Fuel

    The Merkle reduction gets the length of the layer, which halves. The ancestry
    walk of [trace_branch] gets one more than the size of the block map, and the
    retargets of a chain get its length. The recursion of [add_block] through
    [try_attach_orphans] gets one level per buffered orphan, since nested orphans
    have increasing timestamps ([add_block_returns] covers it). The matching loop
    gets one round per resting order, since every round fills the taker or closes
    one. The download of a chain gets a bound on its rounds that
    [download_completes] gives; a connection and a stream of frames get the number
    of bytes the peer sent, since every frame takes some; a printed octet gets three digits and a
    group of an IPv6 address four. [mine] takes the number of steps the code takes as its argument,
    and the wallet's polls are the list of what they saw.

    ** Not modelled

    The counters other components bump; the text of answers, alerts, pages, scrapes and
    log lines; command lines and configuration files; the SDK's HTTP
    bindings, the console, the load harness with its drills, the dashboard and the
    wallet's screens: they are input, output and rendering over what is modelled, or test
    tooling. Broadcasting a message to every peer is modelled as the message to send. A
    restart of the hub is taken to advance its clock.

    This file holds the shared vocabulary: outcomes and their notation, checked
    arithmetic, sums, and lemmas and tactics the other files use. *)

From stdpp Require Export base option list gmap sets strings sorting.
From Stdlib Require Export NArith ZArith Lia.

Open Scope N_scope.

(** ** Outcomes of a Rust call

    [Ok] and [Err] are the two sides of [Result]; [Panic] is an unwinding
    panic: a failed [expect], an index out of range, or an integer
    operation that overflows (the workspace builds its release profile with
    [overflow-checks = true], so overflow panics in every profile). *)
Inductive outcome (E A : Type) : Type :=
| Ok (a : A)
| Err (e : E)
| Panic.
Arguments Ok {E A} a.
Arguments Err {E A} e.
Arguments Panic {E A}.

#[global] Instance outcome_ret {E} : MRet (outcome E) := fun A a => Ok a.
#[global] Instance outcome_bind {E} : MBind (outcome E) := fun A B f m =>
  match m with
  | Ok a => f a
  | Err e => Err e
  | Panic => Panic
  end.

(** [Option::ok_or]. *)
Definition ok_or {E A} (o : option A) (e : E) : outcome E A :=
  match o with Some a => Ok a | None => Err e end.

(** [Option::expect]: the value, or a panic. *)
Definition expect {E A} (o : option A) : outcome E A :=
  match o with Some a => Ok a | None => Panic end.

(** Early return with an error unless the guard holds. *)
Definition guard_ok {E} (b : bool) (e : E) : outcome E unit :=
  if b then Ok tt else Err e.

(** A [for] loop over a list whose body may return early. *)
Fixpoint ofold {E A B} (f : A -> B -> outcome E A) (a : A) (l : list B)
    : outcome E A :=
  match l with
  | [] => Ok a
  | b :: l' => a' ← f a b; ofold f a' l'
  end.

Section outcome_lemmas.
Context {E : Type}.

Lemma bind_Ok {A B} (m : outcome E A) (f : A -> outcome E B) b :
  (m ≫= f) = Ok b -> exists a, m = Ok a /\ f a = Ok b.
Proof. destruct m; intros H; cbn in H; try discriminate; eauto. Qed.

Lemma Ok_inj {A} (a b : A) : Ok (E := E) a = Ok b -> a = b.
Proof. by intros [= ->]. Qed.

Lemma ok_or_Ok {A} (o : option A) (e : E) a : ok_or o e = Ok a -> o = Some a.
Proof. destruct o; cbn; congruence. Qed.

Lemma expect_Ok {A} (o : option A) a : expect (E := E) o = Ok a -> o = Some a.
Proof. destruct o; cbn; congruence. Qed.

Lemma guard_Ok b (e : E) : guard_ok b e = Ok tt -> b = true.
Proof. destruct b; cbn; congruence. Qed.

Lemma bind_not_Panic {A B} (m : outcome E A) (f : A -> outcome E B) :
  m <> Panic -> (forall a, m = Ok a -> f a <> Panic) -> (m ≫= f) <> Panic.
Proof. destruct m; cbn; auto. Qed.

Lemma ok_or_not_Panic {A} (o : option A) (e : E) : ok_or o e <> Panic.
Proof. by destruct o. Qed.

Lemma guard_not_Panic b (e : E) : guard_ok b e <> Panic.
Proof. by destruct b. Qed.

Lemma ofold_app {A B} (f : A -> B -> outcome E A) a l1 l2 :
  ofold f a (l1 ++ l2) = (ofold f a l1 ≫= fun a' => ofold f a' l2).
Proof.
  revert a. induction l1 as [|b l1 IH]; intros a; cbn; [done|].
  destruct (f a b); cbn; auto.
Qed.

(** Rule for a loop: an invariant that the body keeps holds at the end. *)
Lemma ofold_inv {A B} (f : A -> B -> outcome E A) (P : A -> list B -> Prop) l :
  forall a a' done_,
    P a done_ ->
    (forall a1 b a2 d, b ∈ l -> P a1 d -> f a1 b = Ok a2 -> P a2 (d ++ [b])) ->
    ofold f a l = Ok a' -> P a' (done_ ++ l).
Proof.
  induction l as [|b l IH]; intros a a' d HP Hstep Hf; cbn in Hf.
  - injection Hf as <-. by rewrite app_nil_r.
  - apply bind_Ok in Hf as (a1 & Hb & Hf).
    assert (HP1 : P a1 (d ++ [b])) by (eapply Hstep; eauto; by left).
    replace (d ++ b :: l) with ((d ++ [b]) ++ l) by (by rewrite <-(assoc_L (++))).
    apply (IH a1 a'); [done| |done]. intros. eapply Hstep; eauto. by right.
Qed.

Lemma ofold_not_Panic {A B} (f : A -> B -> outcome E A) l a :
  (forall a1 b, b ∈ l -> f a1 b <> Panic) -> ofold f a l <> Panic.
Proof.
  revert a. induction l as [|b l IH]; intros a Hf; cbn; [done|].
  apply bind_not_Panic; [apply Hf; by left|].
  intros a' _. apply IH. intros. apply Hf. by right.
Qed.
End outcome_lemmas.

(** Runs that cannot panic: [eauto with no_panic] chains the steps. *)
Create HintDb no_panic.
#[export] Hint Resolve ok_or_not_Panic guard_not_Panic bind_not_Panic ofold_not_Panic : no_panic.

(** An early return, [ensure!] of the source. *)
Declare Scope itx_scope.
Delimit Scope itx_scope with itx.
Notation "'ensure' b 'otherwise' e ; k" := (guard_ok b e ≫= fun _ => k)
  (at level 100, b at level 99, e at level 99, k at level 200, right associativity,
   format "'ensure'  b  'otherwise'  e ; '//' k") : itx_scope.
Open Scope itx_scope.

(** Case analysis on a successful run: every [x ← m; k] becomes the
    equation of [m] and the run of [k]. *)
Ltac inv_ok :=
  repeat match goal with
  | H : (_ ≫= _) = Ok _ |- _ =>
      let x := fresh "r" in let H1 := fresh "Hr" in
      apply bind_Ok in H as (x & H1 & H); cbn beta iota in H
  | H : ok_or _ _ = Ok _ |- _ => apply ok_or_Ok in H
  | H : expect _ = Ok _ |- _ => apply expect_Ok in H
  | H : guard_ok _ _ = Ok ?u |- _ => destruct u; apply guard_Ok in H
  | H : Ok _ = Ok _ |- _ => apply Ok_inj in H
  | H : Err _ = Ok _ |- _ => discriminate H
  | H : Panic = Ok _ |- _ => discriminate H
  end.

(** Destruct the scrutinee of a [match] or [if] in a hypothesis. *)
Ltac case_in H :=
  match type of H with
  | context [ match ?x with _ => _ end ] => let E := fresh "E" in destruct x eqn:E
  end.

(** ** Machine integers

    [u64], [u32], [usize] and [U256] values are [N]; the width is written
    out where the code can reach it. *)
Definition U64_MAX : N := 18446744073709551615.
Definition U256_MAX : N := 2 ^ 256 - 1.

(** [u64::checked_add], [u64::checked_mul]. *)
Definition checked_add (a b : N) : option N :=
  if a + b <=? U64_MAX then Some (a + b) else None.
Definition checked_mul (a b : N) : option N :=
  if a * b <=? U64_MAX then Some (a * b) else None.

(** [+], [*] and [-] on [u64] under [overflow-checks]: a panic on overflow. *)
Definition add64 {E} (a b : N) : outcome E N := expect (checked_add a b).
Definition mul64 {E} (a b : N) : outcome E N := expect (checked_mul a b).
Definition sub64 {E} (a b : N) : outcome E N :=
  if b <=? a then Ok (a - b) else Panic.

(** [u64::saturating_add], [U256::saturating_add]. *)
Definition saturating_add (width_max a b : N) : N := N.min (a + b) width_max.

(** [iter().try_fold(0u64, |acc, x| acc.checked_add(f(x)))]. *)
Fixpoint checked_sum_from (acc : N) (l : list N) : option N :=
  match l with
  | [] => Some acc
  | x :: l' => a ← checked_add acc x; checked_sum_from a l'
  end.
Definition checked_sum (l : list N) : option N := checked_sum_from 0 l.

(** The exact sum, with no width. *)
Definition sumN (l : list N) : N := foldr N.add 0 l.

Section integers.
Lemma checked_add_Some a b c : checked_add a b = Some c -> c = a + b /\ c <= U64_MAX.
Proof.
  unfold checked_add. destruct (N.leb_spec (a + b) U64_MAX); intros [= <-]; auto.
Qed.

Lemma checked_mul_Some a b c : checked_mul a b = Some c -> c = a * b /\ c <= U64_MAX.
Proof.
  unfold checked_mul. destruct (N.leb_spec (a * b) U64_MAX); intros [= <-]; auto.
Qed.

Lemma checked_add_fits a b : a + b <= U64_MAX -> checked_add a b = Some (a + b).
Proof. unfold checked_add. intros H. by apply N.leb_le in H as ->. Qed.

Lemma checked_mul_fits a b : a * b <= U64_MAX -> checked_mul a b = Some (a * b).
Proof. unfold checked_mul. intros H. by apply N.leb_le in H as ->. Qed.

Lemma add64_fits {E} a b : a + b <= U64_MAX -> add64 (E := E) a b = Ok (a + b).
Proof. intros H. unfold add64. by rewrite checked_add_fits. Qed.

Lemma mul64_fits {E} a b : a * b <= U64_MAX -> mul64 (E := E) a b = Ok (a * b).
Proof. intros H. unfold mul64. by rewrite checked_mul_fits. Qed.

Lemma sub64_fits {E} a b : b <= a -> sub64 (E := E) a b = Ok (a - b).
Proof. intros H. unfold sub64. by apply N.leb_le in H as ->. Qed.

Lemma add64_Ok {E} a b c : add64 (E := E) a b = Ok c -> c = a + b /\ c <= U64_MAX.
Proof. intros H. by apply expect_Ok, checked_add_Some in H. Qed.

Lemma mul64_Ok {E} a b c : mul64 (E := E) a b = Ok c -> c = a * b /\ c <= U64_MAX.
Proof. intros H. by apply expect_Ok, checked_mul_Some in H. Qed.

Lemma sub64_Ok {E} a b c : sub64 (E := E) a b = Ok c -> c = a - b /\ b <= a.
Proof. unfold sub64. destruct (N.leb_spec b a); intros [= <-]; auto. Qed.

Lemma sumN_cons x l : sumN (x :: l) = x + sumN l.
Proof. done. Qed.

Lemma sumN_app l1 l2 : sumN (l1 ++ l2) = sumN l1 + sumN l2.
Proof. induction l1 as [|x l1 IH]; [done|]. cbn [app]. rewrite !sumN_cons, IH. lia. Qed.

Lemma sumN_perm l1 l2 : l1 ≡ₚ l2 -> sumN l1 = sumN l2.
Proof.
  induction 1; rewrite ?sumN_cons in *; lia.
Qed.

#[global] Instance sumN_Proper : Proper ((≡ₚ) ==> (=)) sumN.
Proof. intros l1 l2. apply sumN_perm. Qed.

Lemma sumN_replicate n x : sumN (replicate n x) = N.of_nat n * x.
Proof. induction n as [|n IH]; [done|]. cbn [replicate]. rewrite sumN_cons, IH. lia. Qed.

Lemma sumN_le_elem x l : x ∈ l -> x <= sumN l.
Proof.
  induction 1 as [x l|x y l _ IH]; rewrite sumN_cons; lia.
Qed.

(** A checked sum that succeeds is the exact sum, and fits. *)
Lemma checked_sum_from_Some l acc s :
  checked_sum_from acc l = Some s -> s = acc + sumN l /\ (acc <= U64_MAX -> s <= U64_MAX).
Proof.
  revert acc. induction l as [|x l IH]; intros acc H; cbn in H.
  - injection H as <-. cbn. split; [lia|auto].
  - destruct (checked_add acc x) eqn:E; cbn in H; [|done].
    apply checked_add_Some in E as [-> Hle]. apply IH in H as [-> H2].
    rewrite sumN_cons. split; [lia|]. intros _. lia.
Qed.

Lemma checked_sum_Some l s : checked_sum l = Some s -> s = sumN l /\ s <= U64_MAX.
Proof.
  unfold checked_sum. intros H. apply checked_sum_from_Some in H as [-> H].
  rewrite N.add_0_l in *. split; [done|]. apply H. unfold U64_MAX. lia.
Qed.

Lemma checked_sum_from_fits l acc :
  acc + sumN l <= U64_MAX -> checked_sum_from acc l = Some (acc + sumN l).
Proof.
  revert acc. induction l as [|x l IH]; intros acc H; cbn [checked_sum_from].
  - f_equal. cbn. lia.
  - rewrite sumN_cons in *. rewrite checked_add_fits by lia. cbn.
    rewrite IH by lia. f_equal. lia.
Qed.

(** [checked_sum] is total exactly on the lists whose sum fits in a [u64]. *)
Lemma checked_sum_spec l :
  checked_sum l = if sumN l <=? U64_MAX then Some (sumN l) else None.
Proof.
  destruct (N.leb_spec (sumN l) U64_MAX) as [H|H].
  - unfold checked_sum. by rewrite checked_sum_from_fits, N.add_0_l by lia.
  - destruct (checked_sum l) eqn:E; [|done].
    apply checked_sum_Some in E as [-> ?]. lia.
Qed.
End integers.

(** ** Sums over finite maps *)
Section map_sum.
Context {K : Type} `{Countable K} {A : Type}.
Implicit Types (m : gmap K A) (f g : A -> N).

Definition map_sum f m : N := map_fold (fun _ a acc => f a + acc) 0 m.

Lemma map_sum_empty f : map_sum f ∅ = 0.
Proof. apply map_fold_empty. Qed.

Lemma map_sum_insert f m i x :
  m !! i = None -> map_sum f (<[i:=x]> m) = f x + map_sum f m.
Proof.
  intros Hi. unfold map_sum. rewrite map_fold_insert_L; [done| |done].
  intros. lia.
Qed.

Lemma map_sum_delete f m i x :
  m !! i = Some x -> map_sum f m = f x + map_sum f (delete i m).
Proof.
  intros Hi. rewrite <-(map_sum_insert f (delete i m) i x) by apply lookup_delete_eq.
  by rewrite insert_delete_id.
Qed.

Lemma map_sum_update f m i x y :
  m !! i = Some x -> map_sum f (<[i:=y]> m) + f x = map_sum f m + f y.
Proof.
  intros Hi. rewrite (map_sum_delete f m i x Hi).
  rewrite <-insert_delete_eq, map_sum_insert by apply lookup_delete_eq. lia.
Qed.

Lemma map_sum_insert_le f m i x : map_sum f (<[i:=x]> m) <= f x + map_sum f m.
Proof.
  destruct (m !! i) as [y|] eqn:Hi.
  - pose proof (map_sum_update f m i y x Hi). lia.
  - by rewrite map_sum_insert.
Qed.

Lemma map_sum_delete_le f m i : map_sum f (delete i m) <= map_sum f m.
Proof.
  destruct (m !! i) as [y|] eqn:Hi.
  - rewrite (map_sum_delete f m i y Hi). lia.
  - by rewrite delete_id.
Qed.

Lemma map_sum_lookup_le f m i x : m !! i = Some x -> f x <= map_sum f m.
Proof. intros Hi. rewrite (map_sum_delete f m i x Hi). lia. Qed.

Lemma map_sum_mono f g m :
  (forall i x, m !! i = Some x -> f x <= g x) -> map_sum f m <= map_sum g m.
Proof.
  induction m as [|i x m Hi IH] using map_ind; intros Hfg.
  - by rewrite !map_sum_empty.
  - rewrite !map_sum_insert by done.
    assert (f x <= g x) by (eapply Hfg, lookup_insert_eq).
    assert (map_sum f m <= map_sum g m); [|lia].
    apply IH. intros j y Hj. apply (Hfg j).
    rewrite lookup_insert_ne; [done|congruence].
Qed.

Lemma map_sum_ext f g m :
  (forall i x, m !! i = Some x -> f x = g x) -> map_sum f m = map_sum g m.
Proof.
  intros Hfg. apply N.le_antisymm; apply map_sum_mono; intros i x Hi;
    rewrite (Hfg i x Hi); lia.
Qed.

Lemma map_sum_to_list f m : map_sum f m = sumN (f <$> (map_to_list m).*2).
Proof.
  induction m as [|i x m Hi IH] using map_ind.
  - by rewrite map_sum_empty, map_to_list_empty.
  - rewrite map_sum_insert by done.
    rewrite (sumN_perm _ (f <$> ((i, x) :: map_to_list m).*2)).
    + cbn [fmap list_fmap]. by rewrite sumN_cons, IH.
    + by rewrite map_to_list_insert.
Qed.
End map_sum.

(** ** Lists *)

(** Consecutive pairs of a list satisfy a relation (the links of a chain). *)
Fixpoint linked {A} (R : A -> A -> Prop) (l : list A) : Prop :=
  match l with
  | x :: ((y :: _) as l') => R x y /\ linked R l'
  | _ => True
  end.

Section lists.
Context {A : Type}.

Lemma linked_snoc (R : A -> A -> Prop) l x y :
  linked R (l ++ [x; y]) <-> linked R (l ++ [x]) /\ R x y.
Proof.
  induction l as [|a l IH]; cbn; [tauto|].
  destruct l as [|b l]; cbn in *; tauto.
Qed.

Lemma linked_app_l (R : A -> A -> Prop) l1 l2 : linked R (l1 ++ l2) -> linked R l1.
Proof.
  induction l1 as [|a l1 IH]; cbn; [done|].
  destruct l1 as [|b l1]; cbn in *; tauto.
Qed.

Lemma linked_lookup (R : A -> A -> Prop) l i x y :
  linked R l -> l !! i = Some x -> l !! S i = Some y -> R x y.
Proof.
  revert i. induction l as [|a l IH]; intros i HL Hx Hy; [done|].
  destruct l as [|b l]; [destruct i; done|]. destruct HL as [HR HL].
  destruct i as [|i]; cbn in *; [congruence|]. eapply IH; eauto.
Qed.
End lists.

(** ** Stable sorting: [slice::sort_by]

    Insertion from the right: an element goes before the later ones it is
    not greater than, so equal elements keep their order. *)
Section sort_by.
Context {A : Type} (leb : A -> A -> bool).

Fixpoint insert_by (x : A) (l : list A) : list A :=
  match l with
  | [] => [x]
  | y :: l' => if leb x y then x :: y :: l' else y :: insert_by x l'
  end.
Definition sort_by (l : list A) : list A := foldr insert_by [] l.

Lemma insert_by_perm x l : insert_by x l ≡ₚ x :: l.
Proof.
  induction l as [|y l IH]; [done|]. cbn. destruct (leb x y); [done|].
  rewrite IH. apply Permutation_swap.
Qed.

Lemma sort_by_perm l : sort_by l ≡ₚ l.
Proof. induction l as [|x l IH]; [done|]. cbn. by rewrite insert_by_perm, IH. Qed.

Context (Htotal : forall x y, leb x y = false -> leb y x = true).
Context (Htrans : forall x y z, leb x y = true -> leb y z = true -> leb x z = true).

Lemma insert_by_sorted x l :
  StronglySorted (fun a b => leb a b = true) l ->
  StronglySorted (fun a b => leb a b = true) (insert_by x l).
Proof.
  induction 1 as [|y l Hl IH Hy]; cbn; [by repeat constructor|].
  destruct (leb x y) eqn:E.
  - constructor; [by constructor|]. constructor; [done|].
    eapply Forall_impl; [exact Hy|]. intros z Hz. by eapply Htrans.
  - constructor; [done|]. apply Htotal in E. rewrite insert_by_perm. by constructor.
Qed.

Lemma sort_by_sorted l : StronglySorted (fun a b => leb a b = true) (sort_by l).
Proof. induction l; cbn; [constructor|by apply insert_by_sorted]. Qed.

Lemma sort_by_head l x : head (sort_by l) = Some x -> x ∈ l /\ forall y, y ∈ l -> y = x \/ leb x y = true.
Proof.
  intros Hx. pose proof (sort_by_sorted l) as Hs. pose proof (sort_by_perm l) as Hp.
  destruct (sort_by l) as [|a l']; [done|]. injection Hx as ->. split.
  - rewrite <-Hp. by left.
  - intros y Hy. rewrite <-Hp in Hy. apply elem_of_cons in Hy as [->|Hy]; [by left|right].
    apply StronglySorted_inv in Hs as [_ Hf]. rewrite Forall_forall in Hf. by apply Hf.
Qed.

End sort_by.
