(* ===== verification/Types.v ===== *)
(** * F64: binary64 arithmetic

    The operations on [f64] the sources use, by the [SpecFloat] of the Standard
    Library at 53 bits of precision and an exponent range of 1024. [usize] is 64 bits
    wide. *)

From Stdlib Require Export SpecFloat.
From S2P Require Import Prelude.

(** [z as f64], the two operations, and [f as u64], which truncates and saturates. *)
Definition f64_of (z : Z) : spec_float := binary_normalize 53 1024 z 0 false.
Definition f64_div (a b : spec_float) : spec_float := SFdiv 53 1024 a b.
Definition f64_mul (a b : spec_float) : spec_float := SFmul 53 1024 a b.
Definition f64_as_u64 (f : spec_float) : N :=
  match f with
  | S754_finite false m e => N.min (Z.to_N (if (0 <=? e)%Z then Zpos m * 2 ^ e else Zpos m / 2 ^ (- e))%Z) U64_MAX
  | S754_infinity false => U64_MAX
  | _ => 0
  end.

Lemma f64_as_u64_bound f : f64_as_u64 f <= U64_MAX.
Proof. destruct f as [|[]| |[]]; cbn; lia. Qed.

(** * Bytes: fixed-width integer encodings

    [to_be_bytes], [to_le_bytes] and their inverses, as the sources use them
    for the spend preimage, the wire's length prefix, the store's schema
    version and the 32-byte form of a hash. A byte is an [N] below 256. *)

Definition byte_ok (b : N) : Prop := b < 256.

(** Little-endian: the [n] low bytes of [w], and the value of a byte string. *)
Fixpoint le_bytes (n : nat) (w : N) : list N :=
  match n with
  | O => []
  | S n' => w mod 256 :: le_bytes n' (w / 256)
  end.

Fixpoint le_val (l : list N) : N :=
  match l with
  | [] => 0
  | b :: l' => b + 256 * le_val l'
  end.

(** Big-endian. *)
Definition be_bytes (n : nat) (w : N) : list N := reverse (le_bytes n w).
Definition be_val (l : list N) : N := le_val (reverse l).

Section encodings.

Lemma length_le_bytes n w : length (le_bytes n w) = n.
Proof. revert w. induction n; intros; cbn; auto. Qed.

Lemma length_be_bytes n w : length (be_bytes n w) = n.
Proof. unfold be_bytes. by rewrite length_reverse, length_le_bytes. Qed.

Lemma le_bytes_ok n w : Forall byte_ok (le_bytes n w).
Proof.
  revert w. induction n as [|n IH]; intros w; cbn; constructor; auto.
  unfold byte_ok. apply N.mod_lt. lia.
Qed.

Lemma be_bytes_ok n w : Forall byte_ok (be_bytes n w).
Proof. unfold be_bytes. apply Forall_reverse, le_bytes_ok. Qed.

Lemma le_val_bytes n w : w < 256 ^ N.of_nat n -> le_val (le_bytes n w) = w.
Proof.
  revert w. induction n as [|n IH]; intros w Hw.
  - change (256 ^ N.of_nat 0) with 1 in Hw. cbn. lia.
  - cbn [le_bytes le_val]. rewrite IH.
    + pose proof (N.div_mod w 256). lia.
    + rewrite Nat2N.inj_succ, N.pow_succ_r' in Hw. apply N.Div0.div_lt_upper_bound. lia.
Qed.

Lemma be_val_bytes n w : w < 256 ^ N.of_nat n -> be_val (be_bytes n w) = w.
Proof. intros. unfold be_val, be_bytes. rewrite reverse_involutive. by apply le_val_bytes. Qed.

Lemma le_bytes_val l : Forall byte_ok l -> le_bytes (length l) (le_val l) = l.
Proof.
  induction 1 as [|b l Hb _ IH]; [done|]. cbn [length le_bytes le_val].
  unfold byte_ok in Hb.
  replace (b + 256 * le_val l) with (b + le_val l * 256) by lia.
  rewrite N.Div0.mod_add, N.mod_small by lia.
  rewrite N.div_add, N.div_small, N.add_0_l by lia. by rewrite IH.
Qed.

Lemma le_val_bound l : Forall byte_ok l -> le_val l < 256 ^ N.of_nat (length l).
Proof.
  induction 1 as [|b l Hb _ IH]; [done|]. cbn [length le_val].
  unfold byte_ok in Hb. rewrite Nat2N.inj_succ, N.pow_succ_r'. lia.
Qed.

(** Equal encodings of in-range integers are encodings of the same integer. *)
Lemma be_bytes_inj n a b :
  a < 256 ^ N.of_nat n -> b < 256 ^ N.of_nat n -> be_bytes n a = be_bytes n b -> a = b.
Proof. intros Ha Hb H. rewrite <-(be_val_bytes n a Ha), H. by apply be_val_bytes. Qed.

Lemma le_bytes_inj n a b :
  a < 256 ^ N.of_nat n -> b < 256 ^ N.of_nat n -> le_bytes n a = le_bytes n b -> a = b.
Proof. intros Ha Hb H. rewrite <-(le_val_bytes n a Ha), H. by apply le_val_bytes. Qed.

End encodings.

(** * Types: the chain's data

    The structs of [lib/src/types/transaction.rs] and
    [lib/src/types/block.rs] and the error enum of [lib/src/error.rs].

    A [U256], and so a [Hash] and a target, is an [N]; a [Uuid] is an [N];
    a [DateTime<Utc>] is a [Z], nanoseconds since the Unix epoch; a public
    key is its SEC1 byte string, which is what [crypto.rs] orders, prints
    and compares it by; a private key and a signature are their byte
    strings. *)

Abbreviation Hash := N.
Abbreviation Uuid := N.
Abbreviation DateTime := Z.
Abbreviation PublicKey := (list N).
Abbreviation PrivateKey := (list N).
Abbreviation Signature := (list N).

(** [chrono::Duration::seconds] and [minutes], in nanoseconds. *)
Definition seconds (s : Z) : Z := (s * 1000000000)%Z.
Definition minutes (m : Z) : Z := seconds (m * 60).

(** [chrono::Duration::num_seconds]: whole seconds, rounded toward zero. *)
Definition num_seconds (d : Z) : Z := Z.quot d 1000000000.

Inductive BtcError : Type :=
| InvalidTransaction
| InvalidBlock
| OrphanBlock
| InvalidBlockHeader
| InvalidTransactionInput
| InvalidTransactionOutput
| InvalidMerkleRoot
| InvalidHash
| InvalidSignature
| InvalidPublicKey
| InvalidPrivateKey.

Record TransactionInput := mkInput {
  prev_transaction_output_hash : Hash;
  signature : Signature
}.

Record TransactionOutput := mkOutput {
  value : N;
  unique_id : Uuid;
  pubkey : PublicKey
}.

Record Transaction := mkTransaction {
  inputs : list TransactionInput;
  outputs : list TransactionOutput
}.

Record BlockHeader := mkHeader {
  timestamp : DateTime;
  nonce : N;
  prev_block_hash : Hash;
  merkle_root : Hash;
  target : N
}.

Record Block := mkBlock {
  header : BlockHeader;
  transactions : list Transaction
}.

(** The UTXO set: each unspent output under its hash, with the bit that says
    a mempool transaction already spends it. *)
Abbreviation Utxos := (gmap Hash (bool * TransactionOutput)).

#[global] Instance BtcError_eq_dec : EqDecision BtcError.
Proof. solve_decision. Defined.
#[global] Instance TransactionInput_eq_dec : EqDecision TransactionInput.
Proof. solve_decision. Defined.
#[global] Instance TransactionOutput_eq_dec : EqDecision TransactionOutput.
Proof. solve_decision. Defined.
#[global] Instance Transaction_eq_dec : EqDecision Transaction.
Proof. solve_decision. Defined.
#[global] Instance BlockHeader_eq_dec : EqDecision BlockHeader.
Proof. solve_decision. Defined.
#[global] Instance Block_eq_dec : EqDecision Block.
Proof. solve_decision. Defined.

(** The hashes a transaction spends, in order. *)
Definition spends (tx : Transaction) : list Hash :=
  prev_transaction_output_hash <$> inputs tx.

(** The value a transaction pays, exactly. *)
Definition output_total (tx : Transaction) : N := sumN (value <$> outputs tx).
