(* ===== verification/Params.v ===== *)
(** * Params: protocol constants, issuance and proof-of-work accounting

    Models [lib/src/lib.rs]: the protocol constants, the coinbase reward
    schedule [block_reward_at_height] and the conversion of a target into
    expected work [work_from_target]. Amounts are in base units (10^-8
    coin). *)

From S2P Require Import Prelude.

(** ** Constants *)
Definition INITIAL_REWARD : N := 50.
Definition HALVING_INTERVAL : N := 7875.
Definition IDEAL_BLOCK_TIME : N := 16.
(** U256([2^64-1, 2^64-1, 2^64-1, 0x0000_FFFF_FFFF_FFFF]), little-endian words. *)
Definition MIN_TARGET : N := 2 ^ 240 - 1.
Definition DIFFICULTY_UPDATE_INTERVAL : N := 50.
Definition MAX_MEMPOOL_TRANSACTION_AGE : N := 600.
Definition BLOCK_BYTE_CAP : N := 1000000.
Definition PROTOCOL_MAGIC : N := 0x49545800.
Definition PROTOCOL_VERSION : N := 3.
Definition MAX_MESSAGE_SIZE : N := 10 * 1024 * 1024.
Definition BLOCKS_PER_FETCH_BATCH : N := 8.
Definition MAX_FETCH_BATCH_BYTES : N := 9 * 1024 * 1024.
Definition MAX_FUTURE_BLOCK_DRIFT_SECONDS : Z := 2 * 60 * 60.
Definition SIDE_BRANCH_PRUNE_DEPTH : N := 2 * DIFFICULTY_UPDATE_INTERVAL.

(** ** The reward schedule *)

(** [block_reward_at_height]: [INITIAL_REWARD * 10^8] shifted right once per
    halving, zero once the shift would reach the width of a [u64]. *)
Definition block_reward_at_height (height : N) : N :=
  let halvings := height / HALVING_INTERVAL in
  if 64 <=? halvings then 0
  else N.shiftr (INITIAL_REWARD * 10 ^ 8) halvings.

(** ** Work behind a target *)

(** [work_from_target]: [U256]'s [+] panics on overflow, which [target + 1]
    reaches at the largest target and the final [+ 1] at target zero. *)
Definition work_from_target {E} (target : N) : outcome E N :=
  if U256_MAX <? target + 1 then Panic
  else
    let w := (U256_MAX - target) / (target + 1) + 1 in
    if U256_MAX <? w then Panic else Ok w.

(** ** Issuance: the rewards of the first [n] blocks *)
Fixpoint issued (n : nat) : N :=
  match n with
  | O => 0
  | S n' => issued n' + block_reward_at_height (N.of_nat n')
  end.

(** The reward during the [k]-th halving epoch. *)
Definition epoch_reward (k : N) : N :=
  if 64 <=? k then 0 else N.shiftr (INITIAL_REWARD * 10 ^ 8) k.

(** What every epoch together issues. *)
Definition MAX_SUPPLY : N :=
  HALVING_INTERVAL * sumN (epoch_reward <$> (N.of_nat <$> seq 0 64)).

Section rewards.

Lemma block_reward_epoch h : block_reward_at_height h = epoch_reward (h / HALVING_INTERVAL).
Proof. done. Qed.

Lemma epoch_reward_div k : epoch_reward k = 5000000000 / 2 ^ k.
Proof.
  unfold epoch_reward. change (INITIAL_REWARD * 10 ^ 8) with 5000000000.
  destruct (N.leb_spec 64 k) as [Hk|Hk].
  - symmetry. apply N.div_small.
    assert (2 ^ 64 <= 2 ^ k) by (apply N.pow_le_mono_r; lia).
    change (2 ^ 64) with 18446744073709551616 in *. lia.
  - by rewrite N.shiftr_div_pow2.
Qed.

Lemma epoch_reward_anti j k : j <= k -> epoch_reward k <= epoch_reward j.
Proof.
  intros H. rewrite !epoch_reward_div.
  apply N.div_le_compat_l. split.
  - apply N.neq_0_lt_0, N.pow_nonzero; lia.
  - apply N.pow_le_mono_r; lia.
Qed.

(** Inside one epoch the issuance is linear. *)
Lemma issued_in_epoch m j :
  (j <= N.to_nat HALVING_INTERVAL)%nat ->
  issued (m * N.to_nat HALVING_INTERVAL + j)
  = issued (m * N.to_nat HALVING_INTERVAL) + N.of_nat j * epoch_reward (N.of_nat m).
Proof.
  induction j as [|j IH]; intros Hj.
  - rewrite Nat.add_0_r. lia.
  - rewrite Nat.add_succ_r. cbn [issued]. rewrite IH by lia.
    assert (E : block_reward_at_height (N.of_nat (m * N.to_nat HALVING_INTERVAL + j))
                = epoch_reward (N.of_nat m)).
    { rewrite block_reward_epoch. f_equal.
      symmetry. apply (N.div_unique _ _ _ (N.of_nat j)); unfold HALVING_INTERVAL in *; lia. }
    rewrite E. lia.
Qed.

Lemma issued_epochs m :
  issued (m * N.to_nat HALVING_INTERVAL)
  = HALVING_INTERVAL * sumN (epoch_reward <$> (N.of_nat <$> seq 0 m)).
Proof.
  induction m as [|m IH]; [done|].
  replace (S m * N.to_nat HALVING_INTERVAL)%nat
    with (m * N.to_nat HALVING_INTERVAL + N.to_nat HALVING_INTERVAL)%nat by lia.
  rewrite issued_in_epoch by lia. rewrite IH.
  rewrite seq_S, !fmap_app, sumN_app. cbn [fmap list_fmap Nat.add].
  rewrite sumN_cons. change (sumN []) with 0. rewrite N2Nat.id. lia.
Qed.

Lemma issued_mono n m : (n <= m)%nat -> issued n <= issued m.
Proof. induction 1; cbn [issued]; lia. Qed.

Lemma epoch_sum_tail m s :
  64 <= N.of_nat s -> sumN (epoch_reward <$> (N.of_nat <$> seq s m)) = 0.
Proof.
  revert s. induction m as [|m IH]; intros s Hs; [done|].
  cbn [seq fmap list_fmap]. rewrite sumN_cons, IH by lia.
  unfold epoch_reward. destruct (N.leb_spec 64 (N.of_nat s)); lia.
Qed.

Lemma epoch_sum_stable m :
  sumN (epoch_reward <$> (N.of_nat <$> seq 0 (64 + m)))
  = sumN (epoch_reward <$> (N.of_nat <$> seq 0 64)).
Proof. rewrite seq_app, !fmap_app, sumN_app, (epoch_sum_tail m) by lia. lia. Qed.

Lemma issued_le_max n : issued n <= MAX_SUPPLY.
Proof.
  etrans; [apply (issued_mono n ((64 + n) * N.to_nat HALVING_INTERVAL))|].
  - unfold HALVING_INTERVAL. lia.
  - rewrite issued_epochs, epoch_sum_stable. done.
Qed.

(** The cap, as a number: 787,499.99 coins. *)
Lemma MAX_SUPPLY_val : MAX_SUPPLY = 78749999913375.
Proof. reflexivity. Qed.

End rewards.

Section work.
Context {E : Type}.

Lemma work_from_target_Ok t w :
  work_from_target (E := E) t = Ok w -> 0 < t < U256_MAX /\ w = 2 ^ 256 / (t + 1).
Proof.
  unfold work_from_target. destruct (N.ltb_spec U256_MAX (t + 1)) as [|Ht]; [done|].
  destruct (N.ltb_spec U256_MAX ((U256_MAX - t) / (t + 1) + 1)) as [|Hw]; [done|].
  intros [= <-].
  assert (Hq : (U256_MAX - t) / (t + 1) + 1 = 2 ^ 256 / (t + 1)).
  { rewrite <-(N.div_add (U256_MAX - t) 1 (t + 1)) by lia.
    f_equal. unfold U256_MAX in *. lia. }
  split; [|done]. split; [|lia].
  destruct (N.eq_dec t 0) as [->|]; [|lia].
  exfalso. revert Hw. rewrite N.add_0_l, N.div_1_r. unfold U256_MAX. lia.
Qed.

Lemma work_from_target_total t :
  0 < t < U256_MAX -> work_from_target (E := E) t = Ok (2 ^ 256 / (t + 1)).
Proof.
  intros Ht.
  assert (Hq : (U256_MAX - t) / (t + 1) + 1 = 2 ^ 256 / (t + 1)).
  { rewrite <-(N.div_add (U256_MAX - t) 1 (t + 1)) by lia.
    f_equal. unfold U256_MAX in *. lia. }
  unfold work_from_target. destruct (N.ltb_spec U256_MAX (t + 1)); [lia|].
  rewrite Hq. destruct (N.ltb_spec U256_MAX (2 ^ 256 / (t + 1))) as [Hw|]; [|done].
  exfalso. assert (2 ^ 256 / (t + 1) <= 2 ^ 256 / 2) by (apply N.div_le_compat_l; lia).
  change (2 ^ 256 / 2) with (2 ^ 255) in *. unfold U256_MAX in *.
  assert (2 ^ 255 <= 2 ^ 256 - 1) by done. lia.
Qed.

End work.

(** ** Properties *)

(** The reward schedule never issues more than 78,749,999,913,375 base units, far below
    the width of a u64. *)
Theorem total_issuance_capped n :
  issued n <= 78749999913375 /\ 78749999913375 < U64_MAX.
Proof. split; [|done]. rewrite <-MAX_SUPPLY_val. apply issued_le_max. Qed.

(** Thirty-three halving periods issue exactly 78,749,999,913,375 base units,
    787,499.99913375 coins. *)
Theorem issuance_reaches_cap :
  issued (33 * N.to_nat HALVING_INTERVAL) = 78749999913375.
Proof. rewrite issued_epochs. reflexivity. Qed.

(** The work of a target is the number of hashes it takes on average; the code panics at
    the two ends of the range. *)
Theorem work_is_expected_hashes t :
  (0 < t < U256_MAX -> work_from_target (E := unit) t = Ok (2 ^ 256 / (t + 1))) /\
  (t = 0 \/ t = U256_MAX -> work_from_target (E := unit) t = Panic).
Proof.
  split; [apply work_from_target_total|]. intros [->| ->]; reflexivity.
Qed.
