(* ===== verification/Crypto.v ===== *)
(** * Crypto: hashing and signatures

    Models [lib/src/sha256.rs] and the signing half of
    [lib/src/crypto.rs]. SHA-256, the CBOR encoder and ECDSA over secp256k1
    are third-party crates: they are the operations of the class
    [Primitives], and [PrimitiveLaws] states the documented behaviour the
    code relies on. Nothing here assumes that hashes do not collide; the
    theorems that need it say so of the states they are about. *)

From S2P Require Import Prelude Types.

Class Primitives := {
  sha256 : list N -> list N;
  cbor_output : TransactionOutput -> list N;
  cbor_transaction : Transaction -> list N;
  cbor_header : BlockHeader -> list N;
  cbor_block : Block -> list N;
  cbor_hash_pair : Hash * Hash -> list N;
  ecdsa_sign : PrivateKey -> list N -> Signature;
  ecdsa_verify : PublicKey -> list N -> Signature -> bool;
  verifying_key : PrivateKey -> PublicKey
}.

(** A digest is 32 bytes, and a signature verifies under its own key. *)
Class PrimitiveLaws (P : Primitives) : Prop := {
  sha256_length m : length (sha256 m) = 32%nat;
  sha256_bytes m : Forall byte_ok (sha256 m);
  ecdsa_sound k m : ecdsa_verify (verifying_key k) m (ecdsa_sign k m) = true
}.

Section hashing.
Context `{Primitives}.

(** [Hash::hash_bytes]: the digest read as a little-endian [U256]. *)
Definition hash_bytes (bytes : list N) : Hash := le_val (sha256 bytes).

(** [Hash::hash] at the types the chain hashes. *)
Definition output_hash (o : TransactionOutput) : Hash := hash_bytes (cbor_output o).
Definition transaction_hash (tx : Transaction) : Hash := hash_bytes (cbor_transaction tx).
Definition header_hash (h : BlockHeader) : Hash := hash_bytes (cbor_header h).
Definition block_hash (b : Block) : Hash := hash_bytes (cbor_block b).
Definition pair_hash (l r : Hash) : Hash := hash_bytes (cbor_hash_pair (l, r)).

Definition matches_target (h : Hash) (target : N) : bool := h <=? target.
Definition zero_hash : Hash := 0.

(** [Hash::as_bytes] and [Hash::from_bytes]. *)
Definition as_bytes (h : Hash) : list N := le_bytes 32 h.
Definition from_bytes (bytes : list N) : Hash := le_val bytes.

(** [Signature::sign_output] and [Signature::verify]. *)
Definition sign_output (h : Hash) (k : PrivateKey) : Signature := ecdsa_sign k (as_bytes h).
Definition verify (s : Signature) (h : Hash) (pk : PublicKey) : bool :=
  ecdsa_verify pk (as_bytes h) s.

End hashing.

Section hash_lemmas.
Context `{P : Primitives} {PL : PrimitiveLaws P}.

Lemma hash_bytes_bound m : hash_bytes m <= U256_MAX.
Proof.
  unfold hash_bytes. pose proof (le_val_bound _ (sha256_bytes m)) as Hb.
  rewrite sha256_length in Hb. change (256 ^ N.of_nat 32) with (U256_MAX + 1) in Hb. lia.
Qed.

Lemma from_as_bytes (h : Hash) : h <= U256_MAX -> from_bytes (as_bytes h) = h.
Proof.
  intros Hh. apply le_val_bytes. change (256 ^ N.of_nat 32) with (U256_MAX + 1). lia.
Qed.

End hash_lemmas.

(** ** A concrete instance

    A toy digest (a base-257 polynomial modulo a 200-bit number, written on
    32 bytes), toy encoders and a toy signature. It satisfies the laws and
    lets the witnesses run the model on concrete inputs; every digest meets
    the easiest target. *)
Module Toy.

Definition poly (m : list N) : N :=
  foldl (fun acc b => (acc * 257 + b + 1) mod (2 ^ 200 - 75)) 1 m.
Definition enc_list (l : list N) : list N := N.of_nat (length l) :: l.
Definition enc_output (o : TransactionOutput) : list N :=
  value o :: unique_id o :: enc_list (pubkey o).
Definition enc_input (i : TransactionInput) : list N :=
  prev_transaction_output_hash i :: enc_list (signature i).
Definition enc_transaction (tx : Transaction) : list N :=
  N.of_nat (length (inputs tx)) :: concat (enc_input <$> inputs tx)
  ++ N.of_nat (length (outputs tx)) :: concat (enc_output <$> outputs tx).
Definition enc_header (h : BlockHeader) : list N :=
  [Z.to_N (timestamp h); nonce h; prev_block_hash h; merkle_root h; target h].
Definition enc_block (b : Block) : list N :=
  enc_header (header b) ++ concat (enc_transaction <$> transactions b).

#[export] Instance primitives : Primitives := {
  sha256 m := le_bytes 32 (poly m);
  cbor_output := enc_output;
  cbor_transaction := enc_transaction;
  cbor_header := enc_header;
  cbor_block := enc_block;
  cbor_hash_pair p := [p.1; p.2];
  ecdsa_sign k m := k ++ m;
  ecdsa_verify pk m s := bool_decide (s = pk ++ m);
  verifying_key k := k
}.

#[export] Instance laws : PrimitiveLaws primitives.
Proof.
  split.
  - intros m. apply length_le_bytes.
  - intros m. apply le_bytes_ok.
  - intros k m. cbn. by apply bool_decide_eq_true_2.
Qed.

End Toy.
