(* ===== verification/Transaction.v ===== *)
(** * Transaction: what a spend signs

    Models the operations of [lib/src/types/transaction.rs]: the hand-written
    preimage of [Transaction::spend_commitment], [TransactionInput::signed]
    and [TransactionInput::verifies], and the serialized size the block
    budget counts. *)

From S2P Require Import Prelude Types Crypto.

(** b"itx.spend.v1" *)
Definition spend_tag : list N :=
  [105; 116; 120; 46; 115; 112; 101; 110; 100; 46; 118; 49].

(** One output's part of the preimage: value, key length, key. *)
Definition output_preimage (o : TransactionOutput) : list N :=
  be_bytes 8 (value o) ++ N.of_nat (length (pubkey o)) mod 256 :: pubkey o.

(** The preimage [Transaction::spend_commitment] builds. *)
Definition spend_preimage (prev_output_hash : Hash) (outs : list TransactionOutput) : list N :=
  spend_tag ++ as_bytes prev_output_hash
  ++ be_bytes 4 (N.of_nat (length outs) mod 2 ^ 32)
  ++ concat (output_preimage <$> outs).

Section transaction.
Context `{Primitives}.

Definition spend_commitment (prev_output_hash : Hash) (outs : list TransactionOutput) : Hash :=
  hash_bytes (spend_preimage prev_output_hash outs).

(** [TransactionInput::signed] *)
Definition signed (prev_output_hash : Hash) (outs : list TransactionOutput)
    (signing_key : PrivateKey) : TransactionInput :=
  {| prev_transaction_output_hash := prev_output_hash;
     signature := sign_output (spend_commitment prev_output_hash outs) signing_key |}.

(** [TransactionInput::verifies] *)
Definition verifies (i : TransactionInput) (outs : list TransactionOutput)
    (pk : PublicKey) : bool :=
  verify (signature i) (spend_commitment (prev_transaction_output_hash i) outs) pk.

(** [Transaction::serialized_size] *)
Definition serialized_size (tx : Transaction) : N := N.of_nat (length (cbor_transaction tx)).

End transaction.

(** What a signature has to cover of an output: the value and the recipient. *)
Definition payment_of (o : TransactionOutput) : N * PublicKey := (value o, pubkey o).

(** The widths the Rust types give: a [u64] value and a key whose SEC1 form
    fits the one-byte length (33 or 65 bytes). *)
Definition output_fits (o : TransactionOutput) : Prop :=
  value o <= U64_MAX /\ N.of_nat (length (pubkey o)) < 256.

Section preimage.

Lemma output_preimage_inj o1 o2 r1 r2 :
  output_fits o1 -> output_fits o2 ->
  output_preimage o1 ++ r1 = output_preimage o2 ++ r2 ->
  payment_of o1 = payment_of o2 /\ r1 = r2.
Proof.
  intros [Hv1 Hp1] [Hv2 Hp2]. unfold output_preimage. rewrite <-!(assoc_L (++)).
  intros E. apply app_inj_1 in E as [Ev E]; [|by rewrite !length_be_bytes].
  cbn in E. injection E as El E. rewrite !N.mod_small in El by done.
  apply app_inj_1 in E as [Ep Er]; [|lia].
  apply be_bytes_inj in Ev; try (change (256 ^ N.of_nat 8) with (U64_MAX + 1); lia).
  unfold payment_of. by rewrite Ev, Ep.
Qed.

Lemma outputs_preimage_inj os1 os2 :
  length os1 = length os2 -> Forall output_fits os1 -> Forall output_fits os2 ->
  concat (output_preimage <$> os1) = concat (output_preimage <$> os2) ->
  payment_of <$> os1 = payment_of <$> os2.
Proof.
  revert os2. induction os1 as [|o1 os1 IH]; intros [|o2 os2] Hl H1 H2 E; try done.
  apply Forall_cons_1 in H1 as [H1 H1s]. apply Forall_cons_1 in H2 as [H2 H2s].
  cbn in E. apply output_preimage_inj in E as [Ep E]; [|done..].
  cbn. rewrite Ep. f_equal. apply IH; auto.
Qed.

(** The preimage depends on the outputs only through what they pay to whom. *)
Lemma spend_preimage_payments h outs outs' :
  payment_of <$> outs = payment_of <$> outs' -> spend_preimage h outs = spend_preimage h outs'.
Proof.
  intros E. unfold spend_preimage.
  replace (length outs') with (length outs)
    by (by rewrite <-(length_fmap payment_of outs), E, length_fmap).
  replace (output_preimage <$> outs') with (output_preimage <$> outs); [done|].
  revert outs' E. induction outs as [|o outs IH]; intros [|o' outs'] E; try done.
  injection E as Ev Ep E. rewrite !fmap_cons. f_equal; [|by apply IH].
  unfold output_preimage. by rewrite Ev, Ep.
Qed.

End preimage.

(** ** Properties *)

(** The bytes an input signs determine the spent output and every amount and recipient of
    the transaction, in order. *)
Theorem spend_preimage_injective p1 p2 os1 os2 :
  p1 <= U256_MAX -> p2 <= U256_MAX ->
  N.of_nat (length os1) < 2 ^ 32 -> N.of_nat (length os2) < 2 ^ 32 ->
  Forall output_fits os1 -> Forall output_fits os2 ->
  spend_preimage p1 os1 = spend_preimage p2 os2 ->
  p1 = p2 /\ payment_of <$> os1 = payment_of <$> os2.
Proof.
  intros Hp1 Hp2 Hl1 Hl2 Hf1 Hf2 E. unfold spend_preimage in E.
  apply app_inj_1 in E as [_ E]; [|done].
  apply app_inj_1 in E as [Ep E]; [|unfold as_bytes; by rewrite !length_le_bytes].
  apply app_inj_1 in E as [El E]; [|by rewrite !length_be_bytes].
  rewrite !N.mod_small in El by done.
  apply be_bytes_inj in El; [|done..]. apply Nat2N.inj in El.
  split.
  - apply le_bytes_inj in Ep; [done|..];
      change (256 ^ N.of_nat 32) with (U256_MAX + 1); lia.
  - by apply outputs_preimage_inj.
Qed.

Lemma spend_preimage_injective_witness :
  let o1 := mkOutput 5 1 [2; 7] in let o2 := mkOutput 5 9 [2; 7] in
  spend_preimage 3 [o1] = spend_preimage 3 [o2] /\ payment_of <$> [o1] = payment_of <$> [o2].
Proof.
  cbv zeta. split; [reflexivity|].
  apply (spend_preimage_injective 3 3); try done;
    repeat constructor; unfold output_fits; cbn; done.
Defined.

(** A signature made for one output list verifies for every list that pays the same
    amounts to the same keys: the unique ids are not covered. *)
Theorem signed_input_verifies {P : Primitives} {PL : PrimitiveLaws P} h outs outs' k :
  payment_of <$> outs = payment_of <$> outs' ->
  verifies (signed h outs k) outs' (verifying_key k) = true.
Proof.
  intros E.
  assert (Epre : spend_preimage h outs = spend_preimage h outs')
    by (by apply spend_preimage_payments).
  unfold verifies, signed, verify, sign_output, spend_commitment.
  cbn [signature prev_transaction_output_hash]. rewrite <-Epre.
  apply ecdsa_sound.
Qed.

Import Toy.

Lemma signed_input_verifies_witness :
  let outs := [mkOutput 5 1 [2; 7]] in let outs' := [mkOutput 5 4 [2; 7]] in
  verifies (signed 3 outs [9]) outs' (verifying_key [9]) = true.
Proof. apply (signed_input_verifies 3); reflexivity. Defined.
