(* ===== verification/Block.v ===== *)
(** * Block: mining, Merkle roots and transaction validation

    Models [lib/src/types/block.rs] (header mining, [verify_transactions],
    [verify_coinbase_transaction], miner fees) and the Merkle root of
    [lib/src/util.rs]. *)

From S2P Require Import Prelude Types Crypto Params Transaction.

(** ** Merkle roots *)
Module Merkle.
Section merkle.
Context `{Primitives}.

(** One pass of the [while] loop: pairs of neighbours, the last one paired
    with itself when the layer is odd. *)
Fixpoint next_layer (layer : list Hash) : list Hash :=
  match layer with
  | [] => []
  | [x] => [pair_hash x x]
  | x :: y :: layer' => pair_hash x y :: next_layer layer'
  end.

(** [while layer.len() > 1 { layer = new_layer }] *)
Fixpoint reduce (fuel : nat) (layer : list Hash) : list Hash :=
  match fuel with
  | O => layer
  | S fuel' =>
      match layer with
      | _ :: _ :: _ => reduce fuel' (next_layer layer)
      | _ => layer
      end
  end.

(** [MerkleRoot::calculate]: [layer\[0\]] panics on an empty list. *)
Definition calculate {E} (txs : list Transaction) : outcome E Hash :=
  let layer := transaction_hash <$> txs in
  expect (head (reduce (length layer) layer)).

Lemma length_next_layer l : (2 * length (next_layer l) <= S (length l))%nat.
Proof.
  cut (forall n l, (length l <= n)%nat -> (2 * length (next_layer l) <= S (length l))%nat).
  { eauto. }
  clear l. induction n as [|n IH]; intros [|x [|y l]] Hl; cbn in *; try lia.
  specialize (IH l). lia.
Qed.

Lemma next_layer_nonempty l : l <> [] -> next_layer l <> [].
Proof. destruct l as [|x [|y l]]; done. Qed.

Lemma reduce_singleton fuel l :
  l <> [] -> (length l <= S fuel)%nat -> exists r, reduce fuel l = [r].
Proof.
  revert l. induction fuel as [|fuel IH]; intros l Hl Hlen.
  - destruct l as [|x [|y l]]; cbn in *; try done; [eauto|lia].
  - destruct l as [|x [|y l]]; [done|cbn; eauto|].
    cbn [reduce]. apply IH; [by apply next_layer_nonempty|].
    pose proof (length_next_layer (x :: y :: l)). cbn [length] in *. lia.
Qed.

(** More fuel than the length changes nothing. *)
Lemma reduce_more fuel k l :
  (length l <= S fuel)%nat -> reduce (k + fuel) l = reduce fuel l.
Proof.
  revert l. induction fuel as [|fuel IH]; intros l Hlen.
  - destruct l as [|x [|y l]]; cbn in *; [destruct k; done|destruct k; done|lia].
  - rewrite Nat.add_succ_r. destruct l as [|x [|y l]]; [done|done|].
    cbn [reduce]. apply IH.
    pose proof (length_next_layer (x :: y :: l)). cbn [length] in *. lia.
Qed.

Lemma calculate_total {E} txs : txs <> [] -> exists r, calculate (E := E) txs = Ok r.
Proof.
  intros Hne. unfold calculate.
  destruct (reduce_singleton (length (transaction_hash <$> txs)) (transaction_hash <$> txs))
    as [r Hr]; [by destruct txs|lia|].
  exists r. by rewrite Hr.
Qed.

(** The pairs hashed while a root is computed, layer by layer. *)
Fixpoint layer_pairs (layer : list Hash) : list (Hash * Hash) :=
  match layer with
  | [] => []
  | [x] => [(x, x)]
  | x :: y :: layer' => (x, y) :: layer_pairs layer'
  end.
Fixpoint tree_pairs (fuel : nat) (layer : list Hash) : list (Hash * Hash) :=
  match fuel, layer with
  | S fuel', _ :: _ :: _ => layer_pairs layer ++ tree_pairs fuel' (next_layer layer)
  | _, _ => []
  end.

(** Two different pairs, one of each list, with one digest. *)
Definition collide (ps qs : list (Hash * Hash)) : Prop :=
  exists p q, p ∈ ps /\ q ∈ qs /\ p <> q /\ pair_hash p.1 p.2 = pair_hash q.1 q.2.

Lemma next_layer_pairs l : next_layer l = (fun p => pair_hash p.1 p.2) <$> layer_pairs l.
Proof.
  cut (forall n l, (length l <= n)%nat ->
         next_layer l = (fun p => pair_hash p.1 p.2) <$> layer_pairs l).
  { eauto. }
  clear l. induction n as [|n IH]; intros [|a [|b l]] Hl; cbn in *; try done; try lia.
  rewrite IH by lia. done.
Qed.

Lemma layer_pairs_inj l1 l2 :
  length l1 = length l2 -> layer_pairs l1 = layer_pairs l2 -> l1 = l2.
Proof.
  cut (forall n l1 l2, (length l1 <= n)%nat -> length l1 = length l2 ->
         layer_pairs l1 = layer_pairs l2 -> l1 = l2).
  { eauto. }
  clear l1 l2. induction n as [|n IH]; intros [|a [|b l1]] [|c [|d l2]] Hn Hl E;
    cbn in *; try lia; try done; [by injection E as ->|].
  injection E as -> -> E. f_equal. f_equal. apply IH; [lia|lia|done].
Qed.

Lemma pairs_inj_or_collide ps qs :
  (fun p => pair_hash p.1 p.2) <$> ps = (fun p => pair_hash p.1 p.2) <$> qs ->
  ps = qs \/ collide ps qs.
Proof.
  revert qs. induction ps as [|p ps IH]; intros [|q qs] E; try done; [by left|].
  injection E as E1 E2. destruct (decide (p = q)) as [->|Hne].
  - destruct (IH qs E2) as [->|(x & y & Hx & Hy & Hxy)]; [by left|right].
    exists x, y. split_and!; [by right..|apply Hxy|apply Hxy].
  - right. exists p, q. split_and!; [by left..|done|done].
Qed.

Lemma length_next_layer_eq l1 l2 :
  length l1 = length l2 -> length (next_layer l1) = length (next_layer l2).
Proof.
  cut (forall n l1 l2, (length l1 <= n)%nat -> length l1 = length l2 ->
         length (next_layer l1) = length (next_layer l2)).
  { eauto. }
  clear l1 l2. induction n as [|n IH]; intros [|a [|b l1]] [|c [|d l2]] Hn Hl;
    cbn in *; try lia.
  f_equal. apply IH; lia.
Qed.

Lemma collide_mono ps ps' qs qs' :
  ps ⊆ ps' -> qs ⊆ qs' -> collide ps qs -> collide ps' qs'.
Proof. intros Hp Hq (x & y & Hx & Hy & H2). exists x, y. split_and!; set_solver. Qed.

Lemma reduce_inj fuel l1 l2 :
  length l1 = length l2 -> reduce fuel l1 = reduce fuel l2 ->
  l1 = l2 \/ collide (tree_pairs fuel l1) (tree_pairs fuel l2).
Proof.
  revert l1 l2. induction fuel as [|fuel IH]; intros l1 l2 Hl E; [by left|].
  destruct l1 as [|a [|b l1]], l2 as [|c [|d l2]]; cbn [length] in *; try lia;
    try (by left).
  cbn [reduce] in E. cbn [tree_pairs].
  assert (Hlen : length (next_layer (a :: b :: l1)) = length (next_layer (c :: d :: l2))).
  { apply length_next_layer_eq. cbn. lia. }
  destruct (IH _ _ Hlen E) as [E'|Hc].
  2:{ right. eapply collide_mono; [..|exact Hc]; set_solver. }
  rewrite !next_layer_pairs in E'. destruct (pairs_inj_or_collide _ _ E') as [Ep|Hc].
  - left. apply layer_pairs_inj; [cbn; lia|done].
  - right. eapply collide_mono; [..|exact Hc]; set_solver.
Qed.

End merkle.
End Merkle.

(** ** Headers *)
Section header.
Context `{Primitives}.

(** [BlockHeader::work] *)
Definition header_work {E} (h : BlockHeader) : outcome E N := work_from_target (target h).

(** The loop body of [BlockHeader::mine]: the next nonce, or a restart of the
    nonces under a fresh timestamp when they are exhausted. *)
Definition next_nonce (now : DateTime) (h : BlockHeader) : BlockHeader :=
  match checked_add (nonce h) 1 with
  | Some n => mkHeader (timestamp h) n (prev_block_hash h) (merkle_root h) (target h)
  | None => mkHeader now 0 (prev_block_hash h) (merkle_root h) (target h)
  end.

Fixpoint mine_loop (now : DateTime) (steps : nat) (h : BlockHeader) : bool * BlockHeader :=
  match steps with
  | O => (false, h)
  | S steps' =>
      let h' := next_nonce now h in
      if matches_target (header_hash h') (target h') then (true, h')
      else mine_loop now steps' h'
  end.

(** [BlockHeader::mine] *)
Definition mine (now : DateTime) (steps : nat) (h : BlockHeader) : bool * BlockHeader :=
  if matches_target (header_hash h) (target h) then (true, h)
  else mine_loop now steps h.

End header.

(** ** Transactions of a block *)
Section verify.
Context `{Primitives}.

(** What an input spends, if it is in the UTXO set. *)
Definition spent_output (utxos : Utxos) (h : Hash) : option TransactionOutput :=
  snd <$> utxos !! h.

(** The input loop of [verify_transactions]; [seen] is its [inputs] map,
    which spans the whole block. *)
Definition verify_input (utxos : Utxos) (outs : list TransactionOutput)
    (acc : gmap Hash TransactionOutput * N) (i : TransactionInput)
    : outcome BtcError (gmap Hash TransactionOutput * N) :=
  let '(seen, input_value) := acc in
  let h := prev_transaction_output_hash i in
  match spent_output utxos h with
  | None => Err InvalidTransaction
  | Some prev_output =>
      match seen !! h with
      | Some _ => Err InvalidTransaction
      | None =>
          if negb (verifies i outs (pubkey prev_output)) then Err InvalidSignature
          else
            v ← ok_or (checked_add input_value (value prev_output)) InvalidTransaction;
            Ok (<[h := prev_output]> seen, v)
      end
  end.

(** The transaction loop's body. *)
Definition verify_transaction (utxos : Utxos) (seen : gmap Hash TransactionOutput)
    (tx : Transaction) : outcome BtcError (gmap Hash TransactionOutput) :=
  '(seen', input_value) ← ofold (verify_input utxos (outputs tx)) (seen, 0) (inputs tx);
  output_value ← ok_or (checked_sum (value <$> outputs tx)) InvalidTransaction;
  if input_value <? output_value then Err InvalidTransaction else Ok seen'.

(** The fee loop's body over one transaction. *)
Definition fee_input (utxos : Utxos) (input_value : N) (i : TransactionInput)
    : outcome BtcError N :=
  match spent_output utxos (prev_transaction_output_hash i) with
  | None => Err InvalidTransaction
  | Some prev_output =>
      ok_or (checked_add input_value (value prev_output)) InvalidTransaction
  end.

Definition add_fee (utxos : Utxos) (total_fees : N) (tx : Transaction) : outcome BtcError N :=
  input_value ← ofold (fee_input utxos) 0 (inputs tx);
  output_value ← ok_or (checked_sum (value <$> outputs tx)) InvalidTransaction;
  if input_value <? output_value then Err InvalidTransaction
  else ok_or (checked_add total_fees (input_value - output_value)) InvalidTransaction.

(** [calculate_miner_fees_for_transactions] *)
Definition calculate_miner_fees_for_transactions (txs : list Transaction) (utxos : Utxos)
    : outcome BtcError N :=
  ofold (add_fee utxos) 0 txs.

(** [Block::calculate_miner_fees]: slicing [\[1..\]] panics on an empty list. *)
Definition calculate_miner_fees (b : Block) (utxos : Utxos) : outcome BtcError N :=
  match transactions b with
  | [] => Panic
  | _ :: rest => calculate_miner_fees_for_transactions rest utxos
  end.

(** [Block::verify_coinbase_transaction] *)
Definition verify_coinbase_transaction (b : Block) (height : N) (utxos : Utxos)
    : outcome BtcError unit :=
  coinbase ← expect (head (transactions b));
  match inputs coinbase with
  | _ :: _ => Err InvalidTransaction
  | [] =>
      miner_fees ← calculate_miner_fees b utxos;
      let block_reward := block_reward_at_height height in
      total_coinbase_outputs ← ok_or (checked_sum (value <$> outputs coinbase)) InvalidTransaction;
      owed ← ok_or (checked_add block_reward miner_fees) InvalidTransaction;
      guard_ok (total_coinbase_outputs =? owed) InvalidTransaction
  end.

(** [Block::verify_transactions] *)
Definition verify_transactions (b : Block) (height : N) (utxos : Utxos)
    : outcome BtcError unit :=
  match transactions b with
  | [] => Err InvalidTransaction
  | _ :: rest =>
      _ ← verify_coinbase_transaction b height utxos;
      _ ← ofold (verify_transaction utxos) ∅ rest;
      Ok tt
  end.

End verify.

(** ** What validation establishes *)
Section verify_lemmas.
Context `{Primitives}.
Implicit Types (utxos : Utxos) (tx : Transaction).

(** The value an input brings, exactly. *)
Definition spent_value utxos (h : Hash) : N :=
  match spent_output utxos h with Some o => value o | None => 0 end.
Lemma spent_value_Some utxos h o : spent_output utxos h = Some o -> spent_value utxos h = value o.
Proof. unfold spent_value. by intros ->. Qed.

Definition input_total utxos tx : N := sumN (spent_value utxos <$> spends tx).

Lemma fee_inputs_Ok utxos ins acc v :
  ofold (fee_input utxos) acc ins = Ok v ->
  v = acc + sumN (spent_value utxos <$> (prev_transaction_output_hash <$> ins)) /\
  Forall (fun h => is_Some (spent_output utxos h)) (prev_transaction_output_hash <$> ins).
Proof.
  revert acc. induction ins as [|i ins IH]; intros acc Hf; cbn [ofold] in Hf.
  - injection Hf as <-. split; [cbn; lia|constructor].
  - inv_ok. unfold fee_input in Hr. case_in Hr; [|done]. inv_ok.
    apply checked_add_Some in Hr as [-> _]. apply IH in Hf as [-> Hall].
    rewrite !fmap_cons, sumN_cons. rewrite (spent_value_Some _ _ _ E).
    split; [lia|]. constructor; [by eexists|done].
Qed.

Lemma add_fee_Ok utxos acc tx v :
  add_fee utxos acc tx = Ok v ->
  output_total tx <= input_total utxos tx /\
  v = acc + (input_total utxos tx - output_total tx) /\
  Forall (fun h => is_Some (spent_output utxos h)) (spends tx).
Proof.
  intros Hf. unfold add_fee in Hf. inv_ok.
  destruct (N.ltb_spec r r0); [done|]. inv_ok.
  apply fee_inputs_Ok in Hr as [-> Hall]. apply checked_sum_Some in Hr0 as [-> _].
  apply checked_add_Some in Hf as [-> _]. unfold output_total, input_total, spends.
  rewrite N.add_0_l in *. auto.
Qed.

Lemma miner_fees_Ok utxos txs v :
  calculate_miner_fees_for_transactions txs utxos = Ok v ->
  v + sumN (output_total <$> txs) = sumN (input_total utxos <$> txs).
Proof.
  unfold calculate_miner_fees_for_transactions.
  cut (forall acc, ofold (add_fee utxos) acc txs = Ok v ->
         v + sumN (output_total <$> txs) = acc + sumN (input_total utxos <$> txs)).
  { intros Hc Hf. apply Hc in Hf. lia. }
  induction txs as [|tx txs IH]; intros acc Hf; cbn [ofold] in Hf.
  - injection Hf as <-. done.
  - inv_ok. apply add_fee_Ok in Hr as (Hle & -> & _). apply IH in Hf.
    rewrite !fmap_cons, !sumN_cons. lia.
Qed.

(** An accepted input list: present, never seen before in the block, signed. *)
Lemma verify_inputs_Ok utxos outs ins seen v seen' v' :
  ofold (verify_input utxos outs) (seen, v) ins = Ok (seen', v') ->
  let hs := prev_transaction_output_hash <$> ins in
  NoDup hs /\ (forall h, h ∈ hs -> seen !! h = None) /\
  dom seen' = dom seen ∪ list_to_set hs /\
  v' = v + sumN (spent_value utxos <$> hs) /\
  Forall (fun i => exists o, spent_output utxos (prev_transaction_output_hash i) = Some o /\
                             verifies i outs (pubkey o) = true) ins.
Proof.
  revert seen v. induction ins as [|i ins IH]; intros seen v Hf; cbn [ofold] in Hf.
  - injection Hf as <- <-. cbn. split_and!; try constructor; [set_solver|set_solver|lia].
  - inv_ok. destruct r as [seen1 v1]. unfold verify_input in Hr.
    destruct (spent_output utxos (prev_transaction_output_hash i)) as [o|] eqn:Eo; [|done].
    destruct (seen !! prev_transaction_output_hash i) eqn:Es; [done|].
    destruct (verifies i outs (pubkey o)) eqn:Ev; [|done]. cbn [negb] in Hr. inv_ok.
    apply checked_add_Some in Hr0 as [-> _]. injection Hr as <- <-.
    apply IH in Hf as (Hnd & Hfresh & Hdom & -> & Hall).
    cbn zeta. rewrite !fmap_cons. split_and!.
    + constructor; [|done]. intros Hin. apply Hfresh in Hin.
      by rewrite lookup_insert_eq in Hin.
    + intros h Hh. apply elem_of_cons in Hh as [->|Hh]; [done|].
      apply Hfresh in Hh. destruct (decide (h = prev_transaction_output_hash i)) as [->|];
        [done|]. by rewrite lookup_insert_ne in Hh.
    + rewrite Hdom, dom_insert_L. cbn [list_to_set]. set_solver.
    + rewrite sumN_cons. rewrite (spent_value_Some _ _ _ Eo). lia.
    + constructor; eauto.
Qed.

(** Every input of a transaction is consent by the owner of what it spends. *)
Definition tx_authorised utxos tx : Prop :=
  Forall (fun i => exists o, spent_output utxos (prev_transaction_output_hash i) = Some o /\
                             verifies i (outputs tx) (pubkey o) = true) (inputs tx).

Lemma verify_transaction_Ok utxos seen tx seen' :
  verify_transaction utxos seen tx = Ok seen' ->
  NoDup (spends tx) /\ (forall h, h ∈ spends tx -> seen !! h = None) /\
  dom seen' = dom seen ∪ list_to_set (spends tx) /\
  tx_authorised utxos tx /\ output_total tx <= input_total utxos tx.
Proof.
  intros Hf. unfold verify_transaction in Hf. inv_ok. destruct r as [s iv].
  inv_ok. destruct (N.ltb_spec iv r); [done|]. injection Hf as <-.
  apply verify_inputs_Ok in Hr as (Hnd & Hfresh & Hdom & -> & Hall).
  apply checked_sum_Some in Hr0 as [-> _].
  split_and!; auto.
Qed.

Lemma verify_block_loop_Ok utxos txs seen seen' :
  ofold (verify_transaction utxos) seen txs = Ok seen' ->
  NoDup (concat (spends <$> txs)) /\
  (forall h, h ∈ concat (spends <$> txs) -> seen !! h = None) /\
  Forall (tx_authorised utxos) txs /\
  Forall (fun tx => output_total tx <= input_total utxos tx) txs.
Proof.
  revert seen. induction txs as [|tx txs IH]; intros seen Hf; cbn [ofold] in Hf.
  - cbn. split_and!; try constructor. set_solver.
  - inv_ok. apply verify_transaction_Ok in Hr as (Hnd & Hfresh & Hdom & Hauth & Hle).
    apply IH in Hf as (Hnd' & Hfresh' & Hauth' & Hle').
    rewrite fmap_cons. cbn [concat]. split_and!; [| |by constructor..].
    + apply NoDup_app. split_and!; auto. intros h Hh Hh'.
      apply Hfresh' in Hh'. apply not_elem_of_dom in Hh'. set_solver.
    + intros h [Hh|Hh]%elem_of_app; [by apply Hfresh|].
      apply Hfresh' in Hh. apply not_elem_of_dom. apply not_elem_of_dom in Hh. set_solver.
Qed.

(** Validation never panics: the empty block is refused before it is indexed. *)
Lemma fees_no_panic utxos txs : calculate_miner_fees_for_transactions txs utxos <> Panic.
Proof.
  apply ofold_not_Panic. intros acc tx _. unfold add_fee. apply bind_not_Panic.
  - apply ofold_not_Panic. intros v i _. unfold fee_input.
    destruct (spent_output _ _); [apply ok_or_not_Panic|done].
  - intros iv _. apply bind_not_Panic; [apply ok_or_not_Panic|]. intros ov _.
    destruct (iv <? ov); [done|apply ok_or_not_Panic].
Qed.

Lemma verify_transactions_no_panic b h utxos : verify_transactions b h utxos <> Panic.
Proof.
  unfold verify_transactions. destruct (transactions b) as [|cb rest] eqn:Et; [done|].
  apply bind_not_Panic.
  - unfold verify_coinbase_transaction, calculate_miner_fees. rewrite Et.
    cbn [head expect mbind outcome_bind]. destruct (inputs cb); [|done].
    apply bind_not_Panic; [apply fees_no_panic|]. intros f _.
    apply bind_not_Panic; [apply ok_or_not_Panic|]. intros s _.
    apply bind_not_Panic; [apply ok_or_not_Panic|]. intros o _. apply guard_not_Panic.
  - intros [] _. apply bind_not_Panic; [|done]. apply ofold_not_Panic. intros seen tx _.
    unfold verify_transaction. apply bind_not_Panic.
    + apply ofold_not_Panic. intros [s v] i _. unfold verify_input.
      destruct (spent_output _ _) as [o|]; [|done]. destruct (s !! _); [done|].
      destruct (negb _); [done|]. apply bind_not_Panic; [apply ok_or_not_Panic|done].
    + intros [s v] _. apply bind_not_Panic; [apply ok_or_not_Panic|]. intros ov _.
      by destruct (v <? ov).
Qed.

End verify_lemmas.
