(* ===== verification/Utxo.v ===== *)
(** * Utxo: applying a block to the UTXO set, and conservation of value

    The part of [lib/src/types/blockchain.rs] that [replay_utxos] and
    [apply_block] share: removing what a transaction spends and inserting
    what it creates. The value held by the set never grows by more than the
    block's reward. *)

From S2P Require Import Prelude Types Crypto Params Transaction Block.

(** ** Operations *)
Section apply.
Context `{Primitives}.

(** [for input in &transaction.inputs { utxos.remove(..) }] *)
Definition remove_inputs (utxos : Utxos) (hs : list Hash) : Utxos :=
  foldl (fun m h => delete h m) utxos hs.

(** [for output in &transaction.outputs { utxos.insert(output.hash(), (false, output)) }] *)
Definition insert_outputs (utxos : Utxos) (outs : list TransactionOutput) : Utxos :=
  foldl (fun m o => <[output_hash o := (false, o)]> m) utxos outs.

Definition apply_transaction (utxos : Utxos) (tx : Transaction) : Utxos :=
  insert_outputs (remove_inputs utxos (spends tx)) (outputs tx).

Definition apply_transactions (utxos : Utxos) (txs : list Transaction) : Utxos :=
  foldl apply_transaction utxos txs.

End apply.

(** The value held by a UTXO set. *)
Definition entry_value (e : bool * TransactionOutput) : N := value e.2.
Definition total (utxos : Utxos) : N := map_sum entry_value utxos.

(** ** Value accounting *)
Section totals.
Context `{Primitives}.
Implicit Types (utxos m : Utxos) (txs : list Transaction).

Lemma remove_inputs_cons m h hs : remove_inputs m (h :: hs) = remove_inputs (delete h m) hs.
Proof. done. Qed.

Lemma insert_outputs_cons m o outs :
  insert_outputs m (o :: outs) = insert_outputs (<[output_hash o := (false, o)]> m) outs.
Proof. done. Qed.

Lemma apply_transactions_cons m tx txs :
  apply_transactions m (tx :: txs) = apply_transactions (apply_transaction m tx) txs.
Proof. done. Qed.

Lemma apply_transactions_app m txs1 txs2 :
  apply_transactions m (txs1 ++ txs2) = apply_transactions (apply_transactions m txs1) txs2.
Proof. apply foldl_app. Qed.

Lemma remove_inputs_app m hs1 hs2 :
  remove_inputs m (hs1 ++ hs2) = remove_inputs (remove_inputs m hs1) hs2.
Proof. apply foldl_app. Qed.

Lemma remove_inputs_insert m h e hs :
  total (remove_inputs (<[h := e]> m) hs) <= entry_value e + total (remove_inputs m hs).
Proof.
  revert m. induction hs as [|x hs IH]; intros m; rewrite ?remove_inputs_cons.
  - apply map_sum_insert_le.
  - destruct (decide (x = h)) as [->|Hne].
    + rewrite delete_insert_eq. lia.
    + rewrite delete_insert_ne by congruence. apply IH.
Qed.

Lemma insert_outputs_total m outs hs :
  total (remove_inputs (insert_outputs m outs) hs)
  <= total (remove_inputs m hs) + sumN (value <$> outs).
Proof.
  revert m. induction outs as [|o outs IH]; intros m.
  - change (sumN (value <$> [])) with 0. cbn [insert_outputs foldl]. lia.
  - rewrite insert_outputs_cons, fmap_cons, sumN_cons. etrans; [apply IH|].
    pose proof (remove_inputs_insert m (output_hash o) (false, o) hs) as Hi.
    unfold entry_value in Hi. cbn [snd] in Hi. lia.
Qed.

(** Removing what the later transactions spend first gives an upper bound. *)
Lemma apply_transactions_total m txs hs :
  total (remove_inputs (apply_transactions m txs) hs)
  <= total (remove_inputs m (concat (spends <$> txs) ++ hs)) + sumN (output_total <$> txs).
Proof.
  revert m. induction txs as [|tx txs IH]; intros m.
  { cbn [apply_transactions foldl fmap list_fmap concat app]. lia. }
  rewrite apply_transactions_cons. etrans; [apply IH|]. rewrite !fmap_cons. cbn [concat]. rewrite sumN_cons.
  unfold apply_transaction.
  pose proof (insert_outputs_total (remove_inputs m (spends tx)) (outputs tx)
    (concat (spends <$> txs) ++ hs)) as Hins.
  rewrite <-!(assoc_L (++)), (remove_inputs_app m (spends tx)).
  unfold output_total in *. lia.
Qed.

(** Spending distinct unspent outputs takes exactly their value. *)
Lemma remove_inputs_total m hs :
  NoDup hs -> Forall (fun h => is_Some (spent_output m h)) hs ->
  total m = total (remove_inputs m hs) + sumN (spent_value m <$> hs).
Proof.
  revert m. induction hs as [|h hs IH]; intros m Hnd Hall.
  { cbn [remove_inputs foldl fmap list_fmap]. change (sumN []) with 0. lia. }
  rewrite remove_inputs_cons.
  apply NoDup_cons in Hnd as [Hni Hnd]. apply Forall_cons in Hall as [[o Ho] Hall].
  unfold spent_output in Ho. destruct (m !! h) as [[b o']|] eqn:Em; [|done].
  cbn in Ho. injection Ho as <-.
  assert (Hsame : forall h', h' ∈ hs -> spent_output (delete h m) h' = spent_output m h').
  { intros h' Hh'. unfold spent_output. rewrite lookup_delete_ne; [done|].
    intros ->. done. }
  unfold total at 1. rewrite (map_sum_delete _ _ _ _ Em). fold (total (delete h m)).
  rewrite (IH (delete h m)); [|done|].
  - rewrite fmap_cons, sumN_cons. unfold spent_value at 2, spent_output. rewrite Em. cbn.
    rewrite (Forall_fmap_ext_1 (spent_value (delete h m)) (spent_value m) hs).
    + unfold entry_value. cbn [snd]. lia.
    + apply Forall_forall. intros h' Hh'. unfold spent_value. by rewrite Hsame.
  - rewrite Forall_forall in Hall |- *. intros h' Hh'. rewrite Hsame by done. auto.
Qed.

Lemma spent_value_le m hs :
  NoDup hs -> Forall (fun h => is_Some (spent_output m h)) hs ->
  sumN (spent_value m <$> hs) <= total m.
Proof. intros Hnd Hall. rewrite (remove_inputs_total m hs) by done. lia. Qed.

Lemma concat_spent_values m txs :
  sumN (spent_value m <$> concat (spends <$> txs)) = sumN (input_total m <$> txs).
Proof.
  induction txs as [|tx txs IH]; [done|].
  rewrite !fmap_cons. cbn [concat]. by rewrite fmap_app, sumN_app, sumN_cons, IH.
Qed.

Lemma authorised_present m tx :
  tx_authorised m tx -> Forall (fun h => is_Some (spent_output m h)) (spends tx).
Proof.
  unfold tx_authorised, spends. intros Ha. apply Forall_fmap. eapply Forall_impl; [done|].
  intros i (o & Ho & _). cbn. by rewrite Ho.
Qed.

Lemma authorised_present_all m txs :
  Forall (tx_authorised m) txs ->
  Forall (fun h => is_Some (spent_output m h)) (concat (spends <$> txs)).
Proof.
  induction 1 as [|tx txs Ha _ IH]; [constructor|]. rewrite fmap_cons. cbn [concat].
  apply Forall_app. split; [by apply authorised_present|done].
Qed.

End totals.

(** ** What a valid transaction list is

    The rule [verify_transactions] enforces, without the loops: a coinbase
    that spends nothing and pays exactly the reward and the fees, and other
    transactions that spend distinct unspent outputs under their owners'
    signatures and pay no more than they spend. *)
Record valid_transactions `{Primitives} (b : Block) (height : N) (utxos : Utxos)
    (coinbase : Transaction) (rest : list Transaction) : Prop := {
  vt_split : transactions b = coinbase :: rest;
  vt_coinbase : inputs coinbase = [];
  vt_distinct : NoDup (concat (spends <$> rest));
  vt_authorised : Forall (tx_authorised utxos) rest;
  vt_conserving : Forall (fun tx => output_total tx <= input_total utxos tx) rest;
  vt_owed : output_total coinbase + sumN (output_total <$> rest)
            = block_reward_at_height height + sumN (input_total utxos <$> rest)
}.

Section validity.
Context `{Primitives}.
Implicit Types (utxos : Utxos) (txs : list Transaction).

Lemma verify_transactions_sound b height utxos :
  verify_transactions b height utxos = Ok tt ->
  exists coinbase rest, valid_transactions b height utxos coinbase rest.
Proof.
  unfold verify_transactions. destruct (transactions b) as [|cb rest] eqn:Et; [done|].
  intros Hv. inv_ok. unfold verify_coinbase_transaction, calculate_miner_fees in Hr.
  rewrite Et in Hr. cbn [head] in Hr. inv_ok. injection Hr1 as <-.
  destruct (inputs cb) eqn:Ei; [|done]. inv_ok.
  apply miner_fees_Ok in Hr1. apply checked_sum_Some in Hr2 as [-> _].
  apply checked_add_Some in Hr3 as [-> _]. apply N.eqb_eq in Hr.
  apply verify_block_loop_Ok in Hr0 as (Hnd & _ & Hauth & Hle).
  exists cb, rest. split; auto. fold (output_total cb) in Hr. lia.
Qed.

Lemma fee_inputs_complete utxos ins acc :
  let hs := prev_transaction_output_hash <$> ins in
  Forall (fun h => is_Some (spent_output utxos h)) hs ->
  acc + sumN (spent_value utxos <$> hs) <= U64_MAX ->
  ofold (fee_input utxos) acc ins = Ok (acc + sumN (spent_value utxos <$> hs)).
Proof.
  cbn zeta. revert acc. induction ins as [|i ins IH]; intros acc Hall Hle.
  - cbn. f_equal. lia.
  - rewrite !fmap_cons, sumN_cons in *. apply Forall_cons in Hall as [[o Ho] Hall].
    rewrite (spent_value_Some _ _ _ Ho) in *.
    assert (E : fee_input utxos acc i = Ok (acc + value o)).
    { unfold fee_input. by rewrite Ho, checked_add_fits by lia. }
    cbn [ofold]. rewrite E. cbn.
    rewrite IH by (auto; lia). f_equal. lia.
Qed.

Lemma fees_complete utxos txs acc :
  Forall (fun tx => Forall (fun h => is_Some (spent_output utxos h)) (spends tx)) txs ->
  Forall (fun tx => output_total tx <= input_total utxos tx) txs ->
  acc + sumN (input_total utxos <$> txs) <= U64_MAX ->
  exists f, ofold (add_fee utxos) acc txs = Ok f /\
            f + sumN (output_total <$> txs) = acc + sumN (input_total utxos <$> txs).
Proof.
  revert acc. induction txs as [|tx txs IH]; intros acc Hp Hc Hle.
  - exists acc. split; [done|]. cbn. lia.
  - apply Forall_cons in Hp as [Hp Hps]. apply Forall_cons in Hc as [Hc Hcs].
    rewrite !fmap_cons, !sumN_cons in *.
    assert (E : add_fee utxos acc tx = Ok (acc + (input_total utxos tx - output_total tx))).
    { unfold add_fee. rewrite fee_inputs_complete by (unfold input_total, spends in *; auto; lia).
      cbn. rewrite checked_sum_spec. fold (output_total tx).
      destruct (N.leb_spec (output_total tx) U64_MAX); [|lia]. cbn.
      fold (spends tx). fold (input_total utxos tx). rewrite N.add_0_l.
      destruct (N.ltb_spec (input_total utxos tx) (output_total tx)); [lia|].
      by rewrite checked_add_fits by lia. }
    cbn [ofold]. rewrite E. cbn.
    destruct (IH (acc + (input_total utxos tx - output_total tx))) as (f & Hf & Hsum);
      [done|done|lia|]. exists f. split; [done|lia].
Qed.

Lemma verify_inputs_complete utxos outs ins seen v :
  let hs := prev_transaction_output_hash <$> ins in
  NoDup hs -> (forall h, h ∈ hs -> seen !! h = None) ->
  Forall (fun i => exists o, spent_output utxos (prev_transaction_output_hash i) = Some o /\
                             verifies i outs (pubkey o) = true) ins ->
  v + sumN (spent_value utxos <$> hs) <= U64_MAX ->
  exists seen', ofold (verify_input utxos outs) (seen, v) ins
                = Ok (seen', v + sumN (spent_value utxos <$> hs)).
Proof.
  cbn zeta. revert seen v. induction ins as [|i ins IH]; intros seen v Hnd Hf Ha Hle.
  - exists seen. cbn. do 2 f_equal. lia.
  - rewrite !fmap_cons, sumN_cons in *. apply NoDup_cons in Hnd as [Hni Hnd].
    apply Forall_cons in Ha as [(o & Ho & Hver) Ha].
    rewrite (spent_value_Some _ _ _ Ho) in *.
    assert (E1 : verify_input utxos outs (seen, v) i
                 = Ok (<[prev_transaction_output_hash i := o]> seen, v + value o)).
    { unfold verify_input. rewrite Ho, (Hf (prev_transaction_output_hash i)) by left.
      rewrite Hver. cbn [negb]. by rewrite checked_add_fits by lia. }
    cbn [ofold]. rewrite E1. cbn.
    destruct (IH (<[prev_transaction_output_hash i := o]> seen) (v + value o)) as [seen' E];
      [done| |done|lia|].
    + intros h Hh. rewrite lookup_insert_ne; [apply Hf; by right|]. by intros <-.
    + exists seen'. rewrite E. do 2 f_equal. lia.
Qed.

Lemma verify_loop_complete utxos txs seen :
  NoDup (concat (spends <$> txs)) ->
  (forall h, h ∈ concat (spends <$> txs) -> seen !! h = None) ->
  Forall (tx_authorised utxos) txs ->
  Forall (fun tx => output_total tx <= input_total utxos tx) txs ->
  sumN (input_total utxos <$> txs) <= U64_MAX ->
  exists seen', ofold (verify_transaction utxos) seen txs = Ok seen'.
Proof.
  revert seen. induction txs as [|tx txs IH]; intros seen Hnd Hf Ha Hc Hle; [eauto|].
  rewrite fmap_cons in Hnd, Hf. rewrite fmap_cons, sumN_cons in Hle. cbn [concat] in Hnd, Hf.
  apply NoDup_app in Hnd as (Hnd1 & Hdisj & Hnd2).
  apply Forall_cons in Ha as [Ha Has]. apply Forall_cons in Hc as [Hc Hcs].
  destruct (verify_inputs_complete utxos (outputs tx) (inputs tx) seen 0) as [seen1 E].
  { done. } { intros h Hh. apply Hf, elem_of_app. by left. } { done. }
  { unfold input_total, spends in *. lia. }
  assert (E1 : verify_transaction utxos seen tx = Ok seen1).
  { unfold verify_transaction. rewrite E. cbn. rewrite checked_sum_spec. fold (output_total tx).
    fold (spends tx). fold (input_total utxos tx). rewrite N.add_0_l.
    destruct (N.leb_spec (output_total tx) U64_MAX); [|lia]. cbn.
    destruct (N.ltb_spec (input_total utxos tx) (output_total tx)); [lia|done]. }
  cbn [ofold]. rewrite E1. cbn. apply IH; auto; [|lia].
  apply verify_transaction_Ok in E1 as (_ & _ & Hdom & _).
  intros h Hh. apply not_elem_of_dom. rewrite Hdom.
  assert (h ∉ dom seen) by (apply not_elem_of_dom, Hf, elem_of_app; by right).
  intros [?|Hin]%elem_of_union; [done|]. apply elem_of_list_to_set in Hin.
  by apply (Hdisj h).
Qed.

Lemma verify_transactions_complete b height utxos coinbase rest :
  valid_transactions b height utxos coinbase rest ->
  total utxos + block_reward_at_height height <= U64_MAX ->
  verify_transactions b height utxos = Ok tt.
Proof.
  intros [Hs Hcb Hnd Ha Hc Howed] Hcap.
  assert (Hp : Forall (fun h => is_Some (spent_output utxos h)) (concat (spends <$> rest)))
    by (by apply authorised_present_all).
  assert (Hin : sumN (input_total utxos <$> rest) <= total utxos).
  { rewrite <-concat_spent_values. by apply spent_value_le. }
  destruct (fees_complete utxos rest 0) as (f & Hf & Hsum);
    [eapply Forall_impl; [exact Ha|apply authorised_present]|done|lia|].
  destruct (verify_loop_complete utxos rest ∅) as [seen E]; auto; [lia|].
  unfold verify_transactions. rewrite Hs.
  unfold verify_coinbase_transaction, calculate_miner_fees,
    calculate_miner_fees_for_transactions. rewrite Hs. cbn [head expect mbind outcome_bind].
  rewrite Hcb, Hf. cbn. rewrite checked_sum_spec. fold (output_total coinbase).
  destruct (N.leb_spec (output_total coinbase) U64_MAX); [|lia]. cbn.
  rewrite checked_add_fits by lia. cbn.
  destruct (N.eqb_spec (output_total coinbase) (block_reward_at_height height + f)); [|lia].
  cbn. by rewrite E.
Qed.

(** Conservation: a valid block adds at most its reward to the set. *)
Lemma valid_transactions_total b height utxos coinbase rest :
  valid_transactions b height utxos coinbase rest ->
  total (apply_transactions utxos (transactions b))
  <= total utxos + block_reward_at_height height.
Proof.
  intros [Hs Hcb Hnd Ha _ Howed]. rewrite Hs.
  pose proof (apply_transactions_total utxos (coinbase :: rest) []) as Hle.
  rewrite !fmap_cons, sumN_cons in Hle. cbn [concat] in Hle.
  rewrite app_nil_r in Hle. unfold spends at 1 in Hle. rewrite Hcb in Hle.
  cbn [fmap list_fmap app] in Hle. cbn [remove_inputs foldl] in Hle.
  rewrite (remove_inputs_total utxos (concat (spends <$> rest)))
    by (done || by apply authorised_present_all).
  rewrite concat_spent_values. fold (remove_inputs utxos (concat (spends <$> rest))) in Hle. lia.
Qed.

End validity.
