(* ===== verification/Blockchain.v ===== *)
(** * Blockchain: the chain state machine

    Models [lib/src/types/blockchain.rs]: the state [Blockchain] and every
    operation on it. Definitions only; [ChainSpec], [ChainInv] and [Mempool]
    prove what they do.

    - A [&mut self] method whose error paths leave the state unchanged
      returns [outcome BtcError (result * Blockchain)]; one that can change
      the state and still return an error returns
      [Blockchain * outcome BtcError result].
    - A [HashMap] is a [gmap]. Where the code iterates one, the order is the
      environment's [hashmap_iter], any permutation of the entries.
    - [Utc::now()] is the argument [now]: every clock read inside one
      operation returns the same instant. [Uuid::new_v4()] is an argument.
    - The ancestry walk and the attachment of orphans are loops whose bound
      is the number of stored blocks and of buffered orphans: they carry
      fuel, and running out of it is a [Panic], which [ChainInv] excludes. *)

From S2P Require Import Prelude Types Crypto Params Transaction Block Utxo.

Definition MAX_ORPHAN_BLOCKS : nat := 50.

(** ** The environment of the chain

    [genesis_block] is the value of the [OnceLock]; [scale_target t a b] is the
    integer part of the decimal [t * (a / b)] that [adjust_target] computes
    with the bigdecimal crate. *)
Class ChainEnv `{Primitives} := {
  genesis_block : Block;
  hashmap_iter : gmap Hash Block -> list (Hash * Block);
  scale_target : N -> N -> N -> N
}.

Record Blockchain := mkChain {
  bc_utxos : Utxos;
  bc_target : N;
  bc_blocks : gmap Hash Block;
  bc_active : list Hash;
  bc_mempool : list (DateTime * Transaction);
  bc_orphans : gmap Hash Block;
  bc_pending_prunes : list Hash;
  bc_time_offset : Z
}.

(** Field assignments. *)
Definition with_utxos (bc : Blockchain) u : Blockchain :=
  mkChain u (bc_target bc) (bc_blocks bc) (bc_active bc) (bc_mempool bc) (bc_orphans bc)
    (bc_pending_prunes bc) (bc_time_offset bc).
Definition with_target (bc : Blockchain) t : Blockchain :=
  mkChain (bc_utxos bc) t (bc_blocks bc) (bc_active bc) (bc_mempool bc) (bc_orphans bc)
    (bc_pending_prunes bc) (bc_time_offset bc).
Definition with_blocks (bc : Blockchain) b : Blockchain :=
  mkChain (bc_utxos bc) (bc_target bc) b (bc_active bc) (bc_mempool bc) (bc_orphans bc)
    (bc_pending_prunes bc) (bc_time_offset bc).
Definition with_active (bc : Blockchain) a : Blockchain :=
  mkChain (bc_utxos bc) (bc_target bc) (bc_blocks bc) a (bc_mempool bc) (bc_orphans bc)
    (bc_pending_prunes bc) (bc_time_offset bc).
Definition with_mempool (bc : Blockchain) m : Blockchain :=
  mkChain (bc_utxos bc) (bc_target bc) (bc_blocks bc) (bc_active bc) m (bc_orphans bc)
    (bc_pending_prunes bc) (bc_time_offset bc).
Definition with_orphans (bc : Blockchain) o : Blockchain :=
  mkChain (bc_utxos bc) (bc_target bc) (bc_blocks bc) (bc_active bc) (bc_mempool bc) o
    (bc_pending_prunes bc) (bc_time_offset bc).
Definition with_pending_prunes (bc : Blockchain) p : Blockchain :=
  mkChain (bc_utxos bc) (bc_target bc) (bc_blocks bc) (bc_active bc) (bc_mempool bc)
    (bc_orphans bc) p (bc_time_offset bc).

(** [Blockchain::set_time_offset] *)
Definition set_time_offset (bc : Blockchain) (offset : Z) : Blockchain :=
  mkChain (bc_utxos bc) (bc_target bc) (bc_blocks bc) (bc_active bc) (bc_mempool bc)
    (bc_orphans bc) (bc_pending_prunes bc) offset.

(** [Blockchain::new] *)
Definition new_blockchain : Blockchain :=
  mkChain ∅ MIN_TARGET ∅ [] [] ∅ [] 0.

Definition block_height (bc : Blockchain) : N := N.of_nat (length (bc_active bc)).
Definition tip_hash (bc : Blockchain) : Hash := default zero_hash (last (bc_active bc)).

(** [Blockchain::calculate_block_reward] *)
Definition calculate_block_reward (bc : Blockchain) : N :=
  block_reward_at_height (block_height bc).

(** ** The genesis block *)
Section genesis.
Context `{Primitives}.

(** What [GENESIS.get_or_init] computes: [seed] is the hash of the fixed seed
    string, [now] the clock [mine] would read if it exhausted the nonces. *)
Definition make_genesis {E} (seed : Hash) (now : DateTime) : outcome E Block :=
  let coinbase := mkTransaction []
    [mkOutput (INITIAL_REWARD * 10 ^ 8) 0 (verifying_key (as_bytes seed))] in
  root ← Merkle.calculate [coinbase];
  let '(found, h) := mine now (N.to_nat 2000000) (mkHeader 0 0 zero_hash root MIN_TARGET) in
  if found then Ok (mkBlock h [coinbase]) else Panic.

End genesis.

(** What the code relies on in its environment: the genesis block is the
    computed one, iterating a map visits its entries once each in some order,
    and the decimal product of a target with a factor of at most four is exact
    when the quotient's expansion ends within the crate's default precision of
    100 digits. *)
Class ChainEnvLaws `(CE : ChainEnv) : Prop := {
  genesis_made : exists seed now, make_genesis (E := BtcError) seed now = Ok genesis_block;
  hashmap_iter_perm m : hashmap_iter m ≡ₚ map_to_list m;
  scale_target_exact t a b k :
    t <= MIN_TARGET -> 0 < b -> a <= 4 * b -> k <= 100 -> (a * 10 ^ k) mod b = 0 -> scale_target t a b = t * a / b
}.

(** ** Mempool *)

(** [mark_transaction_utxos] / [unmark_transaction_utxos] *)
Definition set_mark (m : bool) (u : Utxos) (h : Hash) : Utxos :=
  alter (fun e => (m, e.2)) h u.
Definition set_marks (m : bool) (u : Utxos) (hs : list Hash) : Utxos :=
  foldl (set_mark m) u hs.

Definition mark_transaction_utxos (bc : Blockchain) (tx : Transaction) : Blockchain :=
  with_utxos bc (set_marks true (bc_utxos bc) (spends tx)).
Definition unmark_transaction_utxos (bc : Blockchain) (tx : Transaction) : Blockchain :=
  with_utxos bc (set_marks false (bc_utxos bc) (spends tx)).

(** The [retain] test of [cleanup_mempool]. *)
Definition expired (now : DateTime) (e : DateTime * Transaction) : bool :=
  Z.ltb (seconds (Z.of_N MAX_MEMPOOL_TRANSACTION_AGE)) (now - e.1).

(** [Blockchain::cleanup_mempool] *)
Definition cleanup_mempool (now : DateTime) (bc : Blockchain) : Blockchain :=
  let dropped := base.filter (fun e => expired now e = true) (bc_mempool bc) in
  let kept := base.filter (fun e => expired now e = false) (bc_mempool bc) in
  with_utxos (with_mempool bc kept)
    (set_marks false (bc_utxos bc) (concat (spends <$> dropped.*2))).

(** [Blockchain::transaction_fee]: a missing input panics
    ([expect("BUG: impossible")]), a wrapped sum or a negative fee is an error. *)
Definition transaction_fee (u : Utxos) (tx : Transaction) : outcome BtcError N :=
  input_value ← ofold (fun acc i =>
      e ← expect (u !! prev_transaction_output_hash i);
      ok_or (checked_add acc (value (e : bool * TransactionOutput).2)) InvalidTransaction)
    0 (inputs tx);
  output_value ← ok_or (checked_sum (value <$> outputs tx)) InvalidTransaction;
  if input_value <? output_value then Err InvalidTransaction
  else Ok (input_value - output_value).

(** [Blockchain::find_mempool_index_spending] *)
Definition find_mempool_index_spending (bc : Blockchain) (h : Hash) : option nat :=
  fst <$> list_find (fun e : DateTime * Transaction => h ∈ spends e.2) (bc_mempool bc).

(** A stable sort, highest key first: [order.sort_by] over descending fees. *)
Fixpoint insert_desc {A} (x : N * A) (l : list (N * A)) : list (N * A) :=
  match l with
  | [] => [x]
  | y :: l' => if y.1 <? x.1 then x :: y :: l' else y :: insert_desc x l'
  end.
Definition stable_sort_desc {A} (l : list (N * A)) : list (N * A) :=
  foldl (fun acc x => insert_desc x acc) [] l.

(** [transaction_fee(..).unwrap_or(0)], the sort key. *)
Definition fee_key (u : Utxos) (e : DateTime * Transaction)
    : outcome BtcError (N * (DateTime * Transaction)) :=
  match transaction_fee u e.2 with
  | Ok f => Ok (f, e)
  | Err _ => Ok (0, e)
  | Panic => Panic
  end.

(** [iter().map(..).collect()] over a fallible function. *)
Fixpoint omapM {E A B} (f : A -> outcome E B) (l : list A) : outcome E (list B) :=
  match l with
  | [] => Ok []
  | x :: l' => y ← f x; ys ← omapM f l'; Ok (y :: ys)
  end.

Definition sort_mempool (bc : Blockchain) : outcome BtcError Blockchain :=
  keyed ← omapM (fee_key (bc_utxos bc)) (bc_mempool bc);
  Ok (with_mempool bc (stable_sort_desc keyed).*2).

Section mempool.
Context `{Primitives}.

(** The admission loop of [add_to_mempool]: inputs exist, are distinct, and
    are signed by their owners. *)
Definition admit_input (u : Utxos) (outs : list TransactionOutput)
    (known_inputs : gset Hash) (i : TransactionInput) : outcome BtcError (gset Hash) :=
  let h := prev_transaction_output_hash i in
  match u !! h with
  | None => Err InvalidTransaction
  | Some (_, prev_output) =>
      if decide (h ∈ known_inputs) then Err InvalidTransaction
      else if negb (verifies i outs (pubkey prev_output)) then Err InvalidSignature
      else Ok ({[h]} ∪ known_inputs)
  end.

(** The conflict loop: an input already marked belongs to a pending
    transaction, which must pay a strictly lower fee, or to none, and the
    stale mark is cleared. An error leaves the marks cleared so far. *)
Definition conflict_step (new_fee : N) (acc : Blockchain * outcome BtcError (gset nat))
    (i : TransactionInput) : Blockchain * outcome BtcError (gset nat) :=
  match acc with
  | (bc, Ok idxs) =>
      let h := prev_transaction_output_hash i in
      match bc_utxos bc !! h with
      | Some (true, _) =>
          match find_mempool_index_spending bc h with
          | Some idx =>
              (bc,
               e ← expect (bc_mempool bc !! idx);
               old_fee ← transaction_fee (bc_utxos bc) (e : DateTime * Transaction).2;
               if new_fee <=? old_fee then Err InvalidTransaction
               else Ok ({[idx]} ∪ idxs))
          | None => (with_utxos bc (set_mark false (bc_utxos bc) h), Ok idxs)
          end
      | _ => (bc, Ok idxs)
      end
  | _ => acc
  end.

(** [self.mempool.remove(idx)], highest index first, unmarking each removed
    transaction's inputs. *)
Definition evict_index (bc : Blockchain) (idx : nat) : Blockchain :=
  match bc_mempool bc !! idx with
  | Some e => unmark_transaction_utxos (with_mempool bc (delete idx (bc_mempool bc))) e.2
  | None => bc
  end.
Definition evict_indices (bc : Blockchain) (idxs : gset nat) : Blockchain :=
  foldl evict_index bc (reverse (merge_sort Nat.le (elements idxs))).

(** The second conservation check of [add_to_mempool]. *)
Definition conserves (u : Utxos) (tx : Transaction) : outcome BtcError unit :=
  _ ← transaction_fee u tx; Ok tt.

(** [Blockchain::add_to_mempool] *)
Definition add_to_mempool (now : DateTime) (bc0 : Blockchain) (tx : Transaction)
    : Blockchain * outcome BtcError unit :=
  let bc := cleanup_mempool now bc0 in
  match ofold (admit_input (bc_utxos bc) (outputs tx)) ∅ (inputs tx) with
  | Err e => (bc, Err e)
  | Panic => (bc, Panic)
  | Ok _ =>
    match transaction_fee (bc_utxos bc) tx with
    | Err e => (bc, Err e)
    | Panic => (bc, Panic)
    | Ok new_fee =>
      match foldl (conflict_step new_fee) (bc, Ok ∅) (inputs tx) with
      | (bc1, Err e) => (bc1, Err e)
      | (bc1, Panic) => (bc1, Panic)
      | (bc1, Ok idxs) =>
        let bc2 := evict_indices bc1 idxs in
        match conserves (bc_utxos bc2) tx with
        | Err e => (bc2, Err e)
        | Panic => (bc2, Panic)
        | Ok _ =>
          let bc3 := mark_transaction_utxos bc2 tx in
          let bc4 := with_mempool bc3 (bc_mempool bc3 ++ [(now, tx)]) in
          match sort_mempool bc4 with
          | Ok bc5 => (bc5, Ok tt)
          | Err e => (bc4, Err e)
          | Panic => (bc4, Panic)
          end
        end
      end
    end
  end.

(** [Blockchain::evict_stale_mempool_entries] *)
Definition evict_stale_mempool_entries (now : DateTime) (confirmed : gset Hash)
    (bc0 : Blockchain) : Blockchain :=
  let bc := cleanup_mempool now bc0 in
  with_mempool bc (base.filter (fun e : DateTime * Transaction =>
      transaction_hash e.2 ∉ confirmed /\
      Forall (fun h => h ∈ dom (bc_utxos bc)) (spends e.2)) (bc_mempool bc)).

End mempool.

(** ** Chains of stored blocks *)
Section chains.
Context `{Primitives}.
Context {CE : ChainEnv}.

(** [Blockchain::blocks]: the blocks of a list of hashes, in order. *)
Definition blocks_of (bs : gmap Hash Block) (chain : list Hash) : outcome BtcError (list Block) :=
  omapM (fun h => expect (bs !! h)) chain.

(** [Blockchain::work_of_chain], [chain_work] *)
Definition work_of_chain (bs : gmap Hash Block) (chain : list Hash) : outcome BtcError N :=
  ofold (fun acc h =>
    b ← expect (bs !! h);
    w ← header_work (header b);
    Ok (saturating_add U256_MAX acc w)) 0 chain.
Definition chain_work (bc : Blockchain) : outcome BtcError N :=
  work_of_chain (bc_blocks bc) (bc_active bc).

(** [Blockchain::replay_utxos], [rebuild_utxos] *)
Definition replay_utxos (bs : gmap Hash Block) (chain : list Hash) : outcome BtcError Utxos :=
  ofold (fun u h => b ← expect (bs !! h); Ok (apply_transactions u (transactions b))) ∅ chain.
Definition rebuild_utxos (bc : Blockchain) : outcome BtcError Blockchain :=
  u ← replay_utxos (bc_blocks bc) (bc_active bc); Ok (with_utxos bc u).

(** [Blockchain::adjust_target] *)
Definition adjust_target (current_target : N) (start_time end_time : DateTime)
    : outcome BtcError N :=
  let time_diff_seconds := Z.to_N (Z.max (num_seconds (end_time - start_time)) 1) in
  let target_seconds := IDEAL_BLOCK_TIME * DIFFICULTY_UPDATE_INTERVAL in
  let clamped := N.min (N.max time_diff_seconds (target_seconds / 4)) (target_seconds * 4) in
  let new_target := scale_target current_target clamped target_seconds in
  if U256_MAX <? new_target then Panic else Ok (N.min new_target MIN_TARGET).

(** The timestamp of the [i]-th block of a chain: indexing and the block
    lookup both panic when they fail. *)
Definition time_at (bs : gmap Hash Block) (chain : list Hash) (i : nat)
    : outcome BtcError DateTime :=
  h ← expect (chain !! i); b ← expect (bs !! h); Ok (timestamp (header b)).

(** The [while height <= chain.len()] loop of [recompute_target_for_chain]. *)
Fixpoint retarget_loop (get : nat -> outcome BtcError DateTime) (len : nat)
    (fuel height : nat) (target : N) : outcome BtcError N :=
  match fuel with
  | O => Ok target
  | S fuel' =>
      if (height <=? len)%nat then
        let interval := N.to_nat DIFFICULTY_UPDATE_INTERVAL in
        start_time ← get (height - interval)%nat;
        end_time ← get (height - 1)%nat;
        target' ← adjust_target target start_time end_time;
        retarget_loop get len fuel' (height + interval)%nat target'
      else Ok target
  end.

(** [Blockchain::recompute_target_for_chain] *)
Definition recompute_target_for_chain (bs : gmap Hash Block) (chain : list Hash)
    : outcome BtcError N :=
  retarget_loop (time_at bs chain) (length chain) (length chain)
    (N.to_nat DIFFICULTY_UPDATE_INTERVAL) MIN_TARGET.

(** [Blockchain::try_adjust_target] *)
Definition try_adjust_target (bc : Blockchain) : outcome BtcError Blockchain :=
  match bc_active bc with
  | [] => Ok bc
  | _ :: _ =>
      if negb (block_height bc mod DIFFICULTY_UPDATE_INTERVAL =? 0) then Ok bc
      else
        let interval := N.to_nat DIFFICULTY_UPDATE_INTERVAL in
        let height := length (bc_active bc) in
        start_time ← time_at (bc_blocks bc) (bc_active bc) (height - interval)%nat;
        end_time ← time_at (bc_blocks bc) (bc_active bc) (height - 1)%nat;
        t ← adjust_target (bc_target bc) start_time end_time;
        Ok (with_target bc t)
  end.

(** [Blockchain::active_chain_index]: a later position overwrites an earlier. *)
Definition active_chain_index (chain : list Hash) : gmap Hash nat :=
  list_to_map (reverse (imap (fun i h => (h, i)) chain)).

(** The loop of [trace_branch_with_index]; [branch] is kept reversed. *)
Fixpoint trace_loop (bs : gmap Hash Block) (index : gmap Hash nat) (fuel : nat)
    (current : Hash) (branch : list Hash) : outcome BtcError (nat * list Hash) :=
  match fuel with
  | O => Panic
  | S fuel' =>
      match index !! current with
      | Some idx => Ok (S idx, branch)
      | None =>
          b ← expect (bs !! current);
          if decide (prev_block_hash (header b) = zero_hash)
          then Ok (O, current :: branch)
          else trace_loop bs index fuel' (prev_block_hash (header b)) (current :: branch)
      end
  end.

(** [Blockchain::trace_branch_with_index], [trace_branch] *)
Definition trace_branch_with_index (bs : gmap Hash Block) (index : gmap Hash nat) (h : Hash)
    : option (outcome BtcError (nat * list Hash)) :=
  if decide (h = zero_hash) then None
  else Some (trace_loop bs index (S (size bs)) h []).
Definition trace_branch (bc : Blockchain) (h : Hash)
    : option (outcome BtcError (nat * list Hash)) :=
  trace_branch_with_index (bc_blocks bc) (active_chain_index (bc_active bc)) h.

(** [Blockchain::prunable_side_blocks]: the [filter]s and [filter_map] over
    the keys of [self.blocks]. *)
Definition prunable_step (bc : Blockchain) (keep_depth : N) (acc : list Hash) (h : Hash)
    : outcome BtcError (list Hash) :=
  let index := active_chain_index (bc_active bc) in
  match index !! h with
  | Some _ => Ok acc
  | None =>
      match trace_branch_with_index (bc_blocks bc) index h with
      | None => Ok acc
      | Some r =>
          '(fork_index, _) ← r;
          let depth := N.of_nat (length (bc_active bc) - fork_index) in
          if keep_depth <? depth then Ok (acc ++ [h]) else Ok acc
      end
  end.
Definition prunable_side_blocks (bc : Blockchain) (keep_depth : N)
    : outcome BtcError (list Hash) :=
  ofold (prunable_step bc keep_depth) [] (hashmap_iter (bc_blocks bc)).*1.

(** [Blockchain::prune_side_blocks] *)
Definition prune_side_blocks (bc : Blockchain) (keep_depth : N) : outcome BtcError Blockchain :=
  prunable ← prunable_side_blocks bc keep_depth;
  Ok (with_pending_prunes
        (with_blocks bc (foldl (fun m h => delete h m) (bc_blocks bc) prunable))
        (bc_pending_prunes bc ++ prunable)).

(** [Blockchain::take_pruned_hashes] *)
Definition take_pruned_hashes (bc : Blockchain) : list Hash * Blockchain :=
  (bc_pending_prunes bc, with_pending_prunes bc []).

(** ** Adding blocks *)

(** [Blockchain::check_block_size] *)
Definition check_block_size (b : Block) : outcome BtcError unit :=
  let tx_bytes := sumN (serialized_size <$> tail (transactions b)) in
  guard_ok (tx_bytes <=? BLOCK_BYTE_CAP) InvalidBlock.

(** [Blockchain::check_timestamp] *)
Definition check_timestamp (now : DateTime) (bc : Blockchain) (ts : DateTime)
    : outcome BtcError unit :=
  let max_allowed := (now + bc_time_offset bc + seconds MAX_FUTURE_BLOCK_DRIFT_SECONDS)%Z in
  guard_ok (Z.leb ts max_allowed) InvalidBlock.

(** [Blockchain::apply_block] *)
Definition apply_block (now : DateTime) (bc : Blockchain) (b : Block) : Blockchain :=
  let bc1 := with_utxos bc (apply_transactions (bc_utxos bc) (transactions b)) in
  evict_stale_mempool_entries now (list_to_set (transaction_hash <$> transactions b)) bc1.

(** The checks of [Blockchain::add_block_extending_tip], in order. *)
Definition check_extending_tip (now : DateTime) (bc : Blockchain) (b : Block)
    : outcome BtcError unit :=
  _ ← guard_ok (negb (bool_decide (bc_active bc = [])
                      && negb (block_hash b =? block_hash genesis_block))) InvalidBlock;
  _ ← guard_ok (target (header b) =? bc_target bc) InvalidBlock;
  _ ← guard_ok (matches_target (header_hash (header b)) (target (header b))) InvalidBlock;
  _ ← check_block_size b;
  _ ← check_timestamp now bc (timestamp (header b));
  root ← Merkle.calculate (transactions b);
  _ ← guard_ok (root =? merkle_root (header b)) InvalidMerkleRoot;
  _ ← match last (bc_active bc) with
      | Some tip =>
          last_block ← expect (bc_blocks bc !! tip);
          guard_ok (Z.ltb (timestamp (header last_block)) (timestamp (header b))) InvalidBlock
      | None => Ok tt
      end;
  verify_transactions b (block_height bc) (bc_utxos bc).

(** Its second half: apply, store, retarget, prune. *)
Definition commit_extending_tip (now : DateTime) (bc : Blockchain) (b : Block)
    : outcome BtcError (Hash * Blockchain) :=
  let bc1 := apply_block now bc b in
  let hash := block_hash b in
  let bc2 := with_active (with_blocks bc1 (<[hash := b]> (bc_blocks bc1)))
               (bc_active bc1 ++ [hash]) in
  bc3 ← try_adjust_target bc2;
  bc4 ← (if block_height bc3 mod DIFFICULTY_UPDATE_INTERVAL =? 0
         then prune_side_blocks bc3 SIDE_BRANCH_PRUNE_DEPTH else Ok bc3);
  Ok (hash, bc4).

(** [Blockchain::add_block_extending_tip] *)
Definition add_block_extending_tip (now : DateTime) (bc : Blockchain) (b : Block)
    : outcome BtcError (Hash * Blockchain) :=
  _ ← check_extending_tip now bc b; commit_extending_tip now bc b.

(** [Blockchain::buffer_orphan]: always the error [OrphanBlock]. *)
Definition buffer_orphan (bc : Blockchain) (b : Block) : Blockchain :=
  if (MAX_ORPHAN_BLOCKS <=? size (bc_orphans bc))%nat then bc
  else with_orphans bc (<[block_hash b := b]> (bc_orphans bc)).

(** [Blockchain::sync_mempool_with_active_chain] *)
Definition sync_mempool_with_active_chain (now : DateTime) (bc : Blockchain)
    : outcome BtcError Blockchain :=
  bl ← blocks_of (bc_blocks bc) (bc_active bc);
  let confirmed : gset Hash :=
    list_to_set (transaction_hash <$> concat (transactions <$> bl)) in
  bc1 ← rebuild_utxos bc;
  let bc2 := evict_stale_mempool_entries now confirmed bc1 in
  Ok (foldl mark_transaction_utxos bc2 (bc_mempool bc2).*2).

(** [let _ = self.add_to_mempool(tx)]: errors are dropped, panics are not. *)
Definition readmit (now : DateTime) (bc : Blockchain) (tx : Transaction)
    : outcome BtcError Blockchain :=
  match add_to_mempool now bc tx with
  | (_, Panic) => Panic
  | (bc', _) => Ok bc'
  end.

(** [Blockchain::reorg_to] *)
Definition reorg_to (now : DateTime) (bc : Blockchain) (fork_index : nat)
    (new_chain : list Hash) : outcome BtcError Blockchain :=
  displaced_blocks ← blocks_of (bc_blocks bc) (drop fork_index (bc_active bc));
  let displaced := concat ((fun b => tail (transactions b)) <$> displaced_blocks) in
  let bc1 := with_active bc new_chain in
  t ← recompute_target_for_chain (bc_blocks bc1) (bc_active bc1);
  bc2 ← sync_mempool_with_active_chain now (with_target bc1 t);
  ofold (readmit now) bc2 displaced.

(** The validation half of [Blockchain::add_block_off_tip], once the parent
    is known: the fork index and the parent's chain. *)
Definition check_off_tip (now : DateTime) (bc : Blockchain) (b : Block)
    : outcome BtcError (nat * list Hash) :=
  traced ← expect (trace_branch bc (prev_block_hash (header b)));
  '(fork_index, parent_branch) ← traced;
  let candidate_chain := take fork_index (bc_active bc) ++ parent_branch in
  expected_target ← recompute_target_for_chain (bc_blocks bc) candidate_chain;
  _ ← guard_ok (target (header b) =? expected_target) InvalidBlock;
  _ ← guard_ok (matches_target (header_hash (header b)) (target (header b))) InvalidBlock;
  _ ← check_block_size b;
  _ ← check_timestamp now bc (timestamp (header b));
  _ ← match last candidate_chain with
      | Some parent_hash =>
          parent_block ← expect (bc_blocks bc !! parent_hash);
          root ← Merkle.calculate (transactions b);
          _ ← guard_ok (root =? merkle_root (header b)) InvalidMerkleRoot;
          guard_ok (Z.ltb (timestamp (header parent_block)) (timestamp (header b))) InvalidBlock
      | None => Ok tt
      end;
  utxos_at_parent ← replay_utxos (bc_blocks bc) candidate_chain;
  _ ← verify_transactions b (N.of_nat (length candidate_chain)) utxos_at_parent;
  Ok (fork_index, candidate_chain).

(** The second half: store the block and follow the heavier chain. *)
Definition store_off_tip (now : DateTime) (bc : Blockchain) (b : Block) (fork_index : nat)
    (parent_chain : list Hash) : outcome BtcError (Hash * Blockchain) :=
  let hash := block_hash b in
  let bc1 := with_blocks bc (<[hash := b]> (bc_blocks bc)) in
  let candidate_chain := parent_chain ++ [hash] in
  w_new ← work_of_chain (bc_blocks bc1) candidate_chain;
  w_old ← chain_work bc1;
  bc2 ← (if w_old <? w_new then reorg_to now bc1 fork_index candidate_chain else Ok bc1);
  Ok (hash, bc2).

(** [Blockchain::add_block_off_tip] *)
Definition add_block_off_tip (now : DateTime) (bc : Blockchain) (b : Block)
    : Blockchain * outcome BtcError (Hash * Blockchain) :=
  let parent := prev_block_hash (header b) in
  if decide (parent = zero_hash) then (bc, Err InvalidBlock)
  else match bc_blocks bc !! parent with
  | None => (buffer_orphan bc b, Err OrphanBlock)
  | Some _ =>
      (bc, '(fork_index, parent_chain) ← check_off_tip now bc b;
           store_off_tip now bc b fork_index parent_chain)
  end.

(** [Blockchain::add_block], with [try_attach_orphans] inside it: the two are
    mutually recursive in the source. *)
Fixpoint add_block_fuel (fuel : nat) (now : DateTime) (bc : Blockchain) (b : Block)
    : Blockchain * outcome BtcError unit :=
  match fuel with
  | O => (bc, Panic)
  | S fuel' =>
      let '(bc0, r) :=
        if decide (prev_block_hash (header b) = tip_hash bc)
        then (bc, add_block_extending_tip now bc b)
        else add_block_off_tip now bc b in
      match r with
      | Err e => (bc0, Err e)
      | Panic => (bc0, Panic)
      | Ok (hash, bc1) =>
          let ready := base.filter (fun o => prev_block_hash (header o) = hash)
                         (hashmap_iter (bc_orphans bc1)).*2 in
          let attach bc o :=
            let bc' := with_orphans bc (delete (block_hash o) (bc_orphans bc)) in
            match add_block_fuel fuel' now bc' o with
            | (_, Panic) => Panic
            | (bc'', _) => Ok bc''
            end in
          match ofold (E := BtcError) attach bc1 ready with
          | Ok bc2 => (bc2, Ok tt)
          | Err e => (bc1, Err e)
          | Panic => (bc1, Panic)
          end
      end
  end.

(** [Blockchain::add_block]: a level of recursion per buffered orphan. *)
Definition add_block (now : DateTime) (bc : Blockchain) (b : Block)
    : Blockchain * outcome BtcError unit :=
  add_block_fuel (S (S (size (bc_orphans bc)))) now bc b.

(** [Blockchain::create_block_template] *)
Definition pick_step (acc : list Transaction * N) (e : DateTime * Transaction)
    : list Transaction * N :=
  let '(txs, total_bytes) := acc in
  let size := serialized_size e.2 in
  if BLOCK_BYTE_CAP <? total_bytes + size then acc
  else (txs ++ [e.2], total_bytes + size).
Definition create_block_template (now : DateTime) (fresh_id : Uuid) (bc : Blockchain)
    (pk : PublicKey) : outcome BtcError Block :=
  let '(picked, _) := foldl pick_step ([], 0) (bc_mempool bc) in
  miner_fees ← calculate_miner_fees_for_transactions picked (bc_utxos bc);
  reward_and_fees ← add64 (calculate_block_reward bc) miner_fees;
  let txs := mkTransaction [] [mkOutput reward_and_fees fresh_id pk] :: picked in
  root ← Merkle.calculate txs;
  Ok (mkBlock (mkHeader now 0 (tip_hash bc) root (bc_target bc)) txs).

End chains.
