(* ===== verification/Mempool.v ===== *)
(** * Mempool: admission, replacement and eviction of pending transactions

    Proofs about the mempool operations of [Blockchain]: they touch nothing
    but the mempool and the marks of the UTXO set, they never panic while
    every pending transaction's inputs exist, they keep that condition, and
    an admitted transaction sits in a pool ordered by fee. *)

From S2P Require Import Prelude Types Crypto Params Transaction Block Utxo Blockchain.

(** ** UTXO sets up to marks *)
Definition same_outputs (u u' : Utxos) : Prop := snd <$> u = (snd <$> u' : gmap Hash _).

#[export] Instance same_outputs_equiv : Equivalence same_outputs.
Proof. split; unfold same_outputs; repeat intro; congruence. Qed.

Section same_outputs.
Context `{Primitives}.
Implicit Types (u : Utxos).

Lemma same_outputs_spent u u' h : same_outputs u u' -> spent_output u h = spent_output u' h.
Proof. intros Hs. unfold spent_output. by rewrite <-!lookup_fmap, Hs. Qed.

Lemma same_outputs_dom u u' : same_outputs u u' -> dom u = dom u'.
Proof. intros Hs. by rewrite <-(dom_fmap_L snd u), Hs, dom_fmap_L. Qed.

#[export] Instance total_proper : Proper (same_outputs ==> eq) total.
Proof.
  intros u u' Hs. unfold total.
  assert (Ht : forall v : Utxos, map_sum entry_value v = map_sum value (snd <$> v)).
  { intros v. induction v as [|i x v Hi IH] using map_ind.
    - by rewrite fmap_empty, !map_sum_empty.
    - rewrite fmap_insert, !map_sum_insert by (rewrite ?lookup_fmap, ?Hi; done).
      by rewrite IH. }
  by rewrite !Ht, Hs.
Qed.

#[export] Instance remove_inputs_proper :
  Proper (same_outputs ==> eq ==> same_outputs) remove_inputs.
Proof.
  intros u u' Hs hs ? <-. revert u u' Hs. induction hs as [|h hs IH]; intros u u' Hs; [done|].
  rewrite !remove_inputs_cons. apply IH. unfold same_outputs in *.
  by rewrite !fmap_delete, Hs.
Qed.

#[export] Instance insert_outputs_proper :
  Proper (same_outputs ==> eq ==> same_outputs) insert_outputs.
Proof.
  intros u u' Hs os ? <-. revert u u' Hs. induction os as [|o os IH]; intros u u' Hs; [done|].
  rewrite !insert_outputs_cons. apply IH. unfold same_outputs in *.
  by rewrite !fmap_insert, Hs.
Qed.

#[export] Instance apply_transactions_proper :
  Proper (same_outputs ==> eq ==> same_outputs) apply_transactions.
Proof.
  intros u u' Hs txs ? <-. revert u u' Hs. induction txs as [|tx txs IH]; intros u u' Hs; [done|].
  rewrite !apply_transactions_cons. apply IH. unfold apply_transaction. by rewrite Hs.
Qed.

Lemma input_total_same u u' tx : same_outputs u u' -> input_total u tx = input_total u' tx.
Proof.
  intros Hs. unfold input_total. f_equal. apply list_fmap_ext. intros _ h _.
  unfold spent_value. by rewrite (same_outputs_spent u u').
Qed.

Lemma tx_authorised_same u u' tx : same_outputs u u' -> tx_authorised u tx -> tx_authorised u' tx.
Proof.
  intros Hs. unfold tx_authorised. intros Ha. eapply Forall_impl; [exact Ha|].
  intros i (o & Ho & Hv). exists o. by rewrite <-(same_outputs_spent u u').
Qed.

Lemma valid_transactions_same u u' b h cb rest :
  same_outputs u u' -> valid_transactions b h u cb rest -> valid_transactions b h u' cb rest.
Proof.
  intros Hs [H1 H2 H3 H4 H5 H6]. split; auto.
  - eapply Forall_impl; [exact H4|]. intros tx. by apply tx_authorised_same.
  - eapply Forall_impl; [exact H5|]. intros tx. cbn. by rewrite (input_total_same u u').
  - rewrite H6. do 2 f_equal. apply list_fmap_ext. intros _ tx _. by apply input_total_same.
Qed.

Lemma set_mark_same m u h : same_outputs (set_mark m u h) u.
Proof.
  unfold same_outputs, set_mark. apply map_eq. intros i. rewrite !lookup_fmap.
  destruct (decide (i = h)) as [->|].
  - rewrite lookup_alter_eq. by destruct (u !! h).
  - by rewrite lookup_alter_ne.
Qed.

Lemma set_marks_same m u hs : same_outputs (set_marks m u hs) u.
Proof.
  revert u. induction hs as [|h hs IH]; intros u; [done|]. cbn.
  etrans; [apply IH|apply set_mark_same].
Qed.

End same_outputs.

(** ** What the mempool operations leave alone *)
Record mem_only (bc bc' : Blockchain) : Prop := {
  mo_utxos : same_outputs (bc_utxos bc) (bc_utxos bc');
  mo_target : bc_target bc' = bc_target bc;
  mo_blocks : bc_blocks bc' = bc_blocks bc;
  mo_active : bc_active bc' = bc_active bc;
  mo_orphans : bc_orphans bc' = bc_orphans bc;
  mo_prunes : bc_pending_prunes bc' = bc_pending_prunes bc;
  mo_offset : bc_time_offset bc' = bc_time_offset bc
}.

#[export] Instance mem_only_preorder : PreOrder mem_only.
Proof.
  split.
  - intros bc. by split.
  - intros bc1 bc2 bc3 [] []. split; etrans; eauto.
Qed.

(** Every input of every pending transaction is in the UTXO set. *)
Definition tx_present (u : Utxos) (tx : Transaction) : Prop :=
  Forall (fun h => h ∈ dom u) (spends tx).
Definition mempool_ok (bc : Blockchain) : Prop :=
  Forall (fun e : DateTime * Transaction => tx_present (bc_utxos bc) e.2) (bc_mempool bc).

Section mempool_lemmas.
Context `{Primitives}.
Implicit Types (bc : Blockchain) (u : Utxos) (tx : Transaction).

Lemma tx_present_same u u' tx : same_outputs u u' -> tx_present u tx -> tx_present u' tx.
Proof. intros Hs. unfold tx_present. by rewrite (same_outputs_dom u u' Hs). Qed.

(** A smaller pool over the same outputs stays well-formed. *)
Lemma mempool_ok_incl bc bc' :
  same_outputs (bc_utxos bc) (bc_utxos bc') ->
  (forall e, e ∈ bc_mempool bc' -> e ∈ bc_mempool bc) ->
  mempool_ok bc -> mempool_ok bc'.
Proof.
  unfold mempool_ok. intros Hs Hin Hok. rewrite Forall_forall in Hok |- *. intros e He.
  eapply tx_present_same; [done|]. by apply Hok, Hin.
Qed.

Lemma cleanup_mem_only now bc : mem_only bc (cleanup_mempool now bc).
Proof. split; try done. cbn. symmetry. apply set_marks_same. Qed.

Lemma cleanup_ok now bc : mempool_ok bc -> mempool_ok (cleanup_mempool now bc).
Proof.
  apply mempool_ok_incl; [apply cleanup_mem_only|]. intros e He. cbn in He.
  by apply list_elem_of_filter in He as [_ He].
Qed.

(** The fee of a transaction whose inputs are present is a value or an
    error, and when it is a value it is what the transaction leaves. *)
Lemma transaction_fee_no_panic u tx : tx_present u tx -> transaction_fee u tx <> Panic.
Proof.
  intros Hp. unfold transaction_fee. apply bind_not_Panic.
  - apply ofold_not_Panic. intros acc i Hi. apply bind_not_Panic.
    + unfold tx_present in Hp. rewrite Forall_forall in Hp.
      assert (Hd : prev_transaction_output_hash i ∈ dom u)
        by (apply Hp, list_elem_of_fmap; eauto).
      apply elem_of_dom in Hd as [e ->]. done.
    + intros. apply ok_or_not_Panic.
  - intros iv _. apply bind_not_Panic; [apply ok_or_not_Panic|]. intros ov _.
    by destruct (iv <? ov).
Qed.

Lemma fee_fold_Ok u ins acc v :
  ofold (fun acc i => e ← expect (u !! prev_transaction_output_hash i);
      ok_or (checked_add acc (value (e : bool * TransactionOutput).2)) InvalidTransaction) acc ins
  = Ok v ->
  v = acc + sumN (spent_value u <$> (prev_transaction_output_hash <$> ins)).
Proof.
  revert acc. induction ins as [|i ins IH]; intros acc Hf; cbn [ofold] in Hf.
  - inv_ok. subst. cbn. lia.
  - inv_ok. apply checked_add_Some in Hr as [-> _]. apply IH in Hf as ->.
    rewrite !fmap_cons, sumN_cons.
    rewrite (spent_value_Some u _ r0.2); [lia|]. unfold spent_output. by rewrite Hr0.
Qed.

Lemma transaction_fee_Ok u tx f :
  transaction_fee u tx = Ok f ->
  output_total tx <= input_total u tx /\ f = input_total u tx - output_total tx.
Proof.
  intros Hf. unfold transaction_fee in Hf. inv_ok.
  destruct (N.ltb_spec r r0); [done|]. inv_ok.
  apply fee_fold_Ok in Hr. apply checked_sum_Some in Hr0 as [-> _].
  rewrite N.add_0_l in Hr. unfold output_total, input_total, spends. subst. auto.
Qed.

(** *** Sorting *)
Lemma insert_desc_perm {A} (x : N * A) l : insert_desc x l ≡ₚ x :: l.
Proof.
  induction l as [|y l IH]; [done|]. cbn. destruct (y.1 <? x.1); [done|].
  rewrite IH. apply Permutation_swap.
Qed.

Lemma stable_sort_perm {A} (l : list (N * A)) : stable_sort_desc l ≡ₚ l.
Proof.
  unfold stable_sort_desc.
  cut (forall acc, foldl (fun acc x => insert_desc x acc) acc l ≡ₚ acc ++ l).
  { intros Hc. apply (Hc []). }
  induction l as [|x l IH]; intros acc; cbn; [by rewrite app_nil_r|].
  rewrite IH, insert_desc_perm. by rewrite <-Permutation_middle.
Qed.

Definition desc {A} (x y : N * A) : Prop := y.1 <= x.1.

Lemma insert_desc_sorted {A} (x : N * A) l :
  Sorted desc l -> Sorted desc (insert_desc x l).
Proof.
  induction 1 as [|y l Hl IH Hd]; cbn; [by repeat constructor|].
  destruct (N.ltb_spec y.1 x.1).
  - constructor; [by constructor|]. constructor. unfold desc. lia.
  - constructor; [done|]. destruct l as [|z l]; cbn.
    + constructor. done.
    + inversion Hd; subst. destruct (z.1 <? x.1); constructor; done.
Qed.

Lemma stable_sort_sorted {A} (l : list (N * A)) : Sorted desc (stable_sort_desc l).
Proof.
  unfold stable_sort_desc.
  cut (forall acc, Sorted desc acc -> Sorted desc (foldl (fun acc x => insert_desc x acc) acc l)).
  { intros Hc. apply Hc. constructor. }
  induction l as [|x l IH]; intros acc Ha; cbn; [done|]. by apply IH, insert_desc_sorted.
Qed.

Lemma omapM_no_panic {A B} (f : A -> outcome BtcError B) l :
  (forall x, x ∈ l -> f x <> Panic) -> omapM f l <> Panic.
Proof.
  induction l as [|x l IH]; intros Hf; cbn; [done|].
  apply bind_not_Panic; [apply Hf; by left|]. intros y _.
  apply bind_not_Panic; [apply IH; intros; apply Hf; by right|]. done.
Qed.

Lemma omapM_Ok {A B} (f : A -> outcome BtcError B) l ys :
  omapM f l = Ok ys -> Forall2 (fun x y => f x = Ok y) l ys.
Proof.
  revert ys. induction l as [|x l IH]; intros ys Hf; cbn in Hf.
  - inv_ok. subst. constructor.
  - inv_ok. subst. constructor; auto.
Qed.

Lemma fee_keys_snd u l keyed : omapM (fee_key u) l = Ok keyed -> keyed.*2 = l.
Proof.
  intros Hk. apply omapM_Ok in Hk. induction Hk as [|x y l ys Hxy _ IH]; [done|].
  cbn. rewrite IH. unfold fee_key in Hxy. by destruct (transaction_fee u x.2); inv_ok; subst.
Qed.

(** The fee the pool is ordered by. *)
Definition sort_fee u (e : DateTime * Transaction) : N :=
  match transaction_fee u e.2 with Ok f => f | _ => 0 end.

Lemma fee_keys_fst u l keyed :
  omapM (fee_key u) l = Ok keyed -> Forall (fun k => k.1 = sort_fee u k.2) keyed.
Proof.
  intros Hk. apply omapM_Ok in Hk. induction Hk as [|x y l ys Hxy _ IH]; [done|].
  constructor; [|done]. unfold fee_key in Hxy. unfold sort_fee.
  destruct (transaction_fee u x.2) eqn:E; inv_ok; subst; cbn; by rewrite E.
Qed.

Lemma sort_mempool_Ok bc bc' :
  sort_mempool bc = Ok bc' ->
  mem_only bc bc' /\ bc_utxos bc' = bc_utxos bc /\ bc_mempool bc' ≡ₚ bc_mempool bc /\
  Sorted (fun e1 e2 => sort_fee (bc_utxos bc) e2 <= sort_fee (bc_utxos bc) e1) (bc_mempool bc').
Proof.
  unfold sort_mempool. intros Hs. inv_ok. subst.
  split_and!; [by split|done| |].
  - cbn. rewrite (stable_sort_perm r). by rewrite (fee_keys_snd _ _ _ Hr).
  - cbn. pose proof (stable_sort_sorted r) as Hsd.
    assert (Hk : Forall (fun k => k.1 = sort_fee (bc_utxos bc) k.2) (stable_sort_desc r)).
    { rewrite stable_sort_perm. by eapply fee_keys_fst. }
    clear Hr. induction Hsd as [|x l Hl IH Hd]; cbn; [constructor|].
    apply Forall_cons in Hk as [Hx Hk]. constructor; [by apply IH|].
    destruct Hd as [|y l Hxy]; cbn; constructor.
    apply Forall_cons in Hk as [Hy _]. unfold desc in Hxy. by rewrite <-Hx, <-Hy.
Qed.

Lemma sort_mempool_no_panic bc : mempool_ok bc -> sort_mempool bc <> Panic.
Proof.
  intros Hok. unfold sort_mempool. apply bind_not_Panic; [|done]. apply omapM_no_panic.
  intros e He. unfold mempool_ok in Hok. rewrite Forall_forall in Hok.
  pose proof (transaction_fee_no_panic _ _ (Hok e He)) as Hf. unfold fee_key.
  by destruct (transaction_fee _ _).
Qed.

Lemma sort_mempool_no_err bc e : sort_mempool bc <> Err e.
Proof.
  unfold sort_mempool. generalize (bc_mempool bc) at 1 as l. intros l.
  assert (Hn : forall e', omapM (fee_key (bc_utxos bc)) l <> Err e').
  { induction l as [|x l IH]; intros e'; cbn [omapM]; [done|].
    assert (Hx : forall e'', fee_key (bc_utxos bc) x <> Err e'')
      by (intros; unfold fee_key; by destruct (transaction_fee _ _)).
    specialize (Hx e'). specialize (IH e').
    destruct (fee_key _ x); cbn; [|congruence|done]. destruct (omapM _ l); cbn; congruence. }
  specialize (Hn e). destruct (omapM _ _); cbn; congruence.
Qed.

(** The fee depends only on the outputs, not on their marks. *)
Lemma transaction_fee_same u u' tx : same_outputs u u' -> transaction_fee u tx = transaction_fee u' tx.
Proof.
  intros Hs. unfold transaction_fee. f_equal. generalize 0 as acc.
  induction (inputs tx) as [|i l IH]; intros acc; cbn [ofold]; [done|].
  pose proof (same_outputs_spent u u' (prev_transaction_output_hash i) Hs) as E.
  unfold spent_output in E.
  destruct (u !! _) as [[m o]|], (u' !! _) as [[m' o']|]; cbn in *; try done.
  injection E as <-. destruct (ok_or _ _); cbn; [apply IH|done|done].
Qed.

(** *** The conflict loop *)

(** The entry at [idx] spends one of [hs] and pays less than [fee]. *)
Definition outbid (bc : Blockchain) (fee : N) (hs : list Hash) (idx : nat) : Prop :=
  exists e old, bc_mempool bc !! idx = Some e /\ (exists h, h ∈ hs /\ h ∈ spends e.2) /\
    transaction_fee (bc_utxos bc) e.2 = Ok old /\ old < fee.

Lemma outbid_mono bc bc' fee hs hs' idx :
  mem_only bc bc' -> bc_mempool bc' = bc_mempool bc -> hs ⊆ hs' -> outbid bc' fee hs idx -> outbid bc fee hs' idx.
Proof.
  intros Hm Hp Hi (e & old & He & (h & Hh & Hs) & Hf & Hlt). exists e, old. rewrite <-Hp.
  split_and!; [done|eauto| |done]. by rewrite (transaction_fee_same _ (bc_utxos bc')) by apply Hm.
Qed.

Lemma conflict_step_spec new_fee bc r i bc' r' :
  conflict_step new_fee (bc, r) i = (bc', r') ->
  mem_only bc bc' /\ bc_mempool bc' = bc_mempool bc /\
  (mempool_ok bc -> r <> Panic -> r' <> Panic).
Proof.
  unfold conflict_step. destruct r as [idxs|e|]; [|by intros [= <- <-]..].
  destruct (bc_utxos bc !! prev_transaction_output_hash i) as [[[] o]|] eqn:Eu;
    [|by intros [= <- <-]..].
  destruct (find_mempool_index_spending bc _) as [idx|] eqn:Ef.
  - intros [= <- <-]. split_and!; [done..|]. intros Hok _.
    unfold find_mempool_index_spending in Ef. apply fmap_Some in Ef as ([k e] & Ef & ->).
    apply list_find_Some in Ef as (Hk & _ & _). cbn [fst].
    apply bind_not_Panic; [by rewrite Hk|]. intros e' He'. inv_ok. rewrite Hk in He'.
    injection He' as <-. apply bind_not_Panic.
    + apply transaction_fee_no_panic. unfold mempool_ok in Hok. rewrite Forall_forall in Hok.
      apply Hok. by eapply list_elem_of_lookup_2.
    + intros old _. by destruct (new_fee <=? old).
  - intros [= <- <-]. split_and!; [|done..]. split; try done. cbn. symmetry. apply set_mark_same.
Qed.

Lemma conflict_step_outbid new_fee bc r i bc' idxs' :
  conflict_step new_fee (bc, r) i = (bc', Ok idxs') ->
  exists idxs, r = Ok idxs /\
    forall idx, idx ∈ idxs' -> idx ∈ idxs \/ outbid bc new_fee [prev_transaction_output_hash i] idx.
Proof.
  unfold conflict_step. destruct r as [idxs|e|]; [|done..]. intros Hc. exists idxs. split; [done|].
  destruct (bc_utxos bc !! prev_transaction_output_hash i) as [[[] o]|] eqn:Eu;
    [|injection Hc as <- <-; by left..].
  destruct (find_mempool_index_spending bc _) as [k|] eqn:Ef; [|injection Hc as <- <-; by left].
  unfold find_mempool_index_spending in Ef. apply fmap_Some in Ef as ([k' e] & Ef & ->).
  apply list_find_Some in Ef as (Hk & Hs & _). cbn [fst] in Hc. rewrite Hk in Hc. cbn in Hc.
  destruct (transaction_fee (bc_utxos bc) e.2) as [old| |] eqn:Efee; [|done..]. cbn in Hc.
  destruct (N.leb_spec new_fee old); [done|]. injection Hc as <- <-.
  intros idx [->%elem_of_singleton|]%elem_of_union; [right|by left].
  exists e, old. split_and!; try done. exists (prev_transaction_output_hash i). split; [by left|done].
Qed.

Lemma conflict_loop_outbid new_fee ins : forall bc r bc' idxs',
  foldl (conflict_step new_fee) (bc, r) ins = (bc', Ok idxs') ->
  exists idxs, r = Ok idxs /\
    forall idx, idx ∈ idxs' -> idx ∈ idxs \/ outbid bc new_fee (prev_transaction_output_hash <$> ins) idx.
Proof.
  induction ins as [|i ins IH]; intros bc r bc' idxs' Hf; cbn [foldl] in Hf.
  - injection Hf as <- ->. eauto.
  - destruct (conflict_step new_fee (bc, r) i) as [bc1 r1] eqn:E.
    destruct (IH _ _ _ _ Hf) as (idxs1 & -> & H1).
    pose proof (conflict_step_spec _ _ _ _ _ _ E) as (Hm & Hp & _).
    destruct (conflict_step_outbid _ _ _ _ _ _ E) as (idxs & -> & H0). exists idxs. split; [done|].
    intros idx [Hi|Hi]%H1; [apply H0 in Hi as [|Hi]; [by left|right]|right];
      (eapply outbid_mono; [| | |exact Hi]; [done|done|set_solver]).
Qed.

Lemma conflict_loop_spec new_fee ins bc r bc' r' :
  foldl (conflict_step new_fee) (bc, r) ins = (bc', r') ->
  mem_only bc bc' /\ bc_mempool bc' = bc_mempool bc /\
  (mempool_ok bc -> r <> Panic -> r' <> Panic).
Proof.
  revert bc r. induction ins as [|i ins IH]; intros bc r Hf; cbn [foldl] in Hf.
  - injection Hf as <- <-. done.
  - destruct (conflict_step new_fee (bc, r) i) as [bc1 r1] eqn:E.
    apply conflict_step_spec in E as (Hm & Hp & Hn). apply IH in Hf as (Hm' & Hp' & Hn').
    split_and!; [by etrans|congruence|]. intros Hok Hr. apply Hn'; [|by apply Hn].
    eapply mempool_ok_incl; [apply Hm| |done]. by rewrite Hp.
Qed.

(** *** Replacement *)
Lemma evict_index_spec bc idx :
  mem_only bc (evict_index bc idx) /\
  (forall e, e ∈ bc_mempool (evict_index bc idx) -> e ∈ bc_mempool bc).
Proof.
  unfold evict_index. destruct (bc_mempool bc !! idx) as [e|] eqn:E; [|done]. split.
  - split; try done. cbn. symmetry. apply set_marks_same.
  - cbn. intros e' He'. eapply elem_of_submseteq; [done|].
    apply sublist_submseteq, sublist_delete.
Qed.

Lemma evict_indices_spec bc idxs :
  mem_only bc (evict_indices bc idxs) /\
  (forall e, e ∈ bc_mempool (evict_indices bc idxs) -> e ∈ bc_mempool bc).
Proof.
  unfold evict_indices. generalize (reverse (merge_sort Nat.le (elements idxs))) as l.
  intros l. revert bc. induction l as [|i l IH]; intros bc; cbn; [done|].
  destruct (evict_index_spec bc i) as [Hm Hi]. destruct (IH (evict_index bc i)) as [Hm' Hi'].
  split; [by etrans|]. auto.
Qed.

(** Eviction goes from the highest index down, so an index that is not evicted
    keeps its entry. *)
Lemma evict_survivors l : forall bc k e,
  StronglySorted (fun a b => (b <= a)%nat) l -> NoDup l -> k ∉ l -> bc_mempool bc !! k = Some e ->
  e ∈ bc_mempool (foldl evict_index bc l).
Proof.
  induction l as [|i l IH]; intros bc k e Hs Hnd Hk He; cbn [foldl]; [by eapply list_elem_of_lookup_2|].
  apply not_elem_of_cons in Hk as [Hki Hkl]. apply NoDup_cons in Hnd as [Hil Hnd].
  apply StronglySorted_inv in Hs as [Hs Hall]. rewrite Forall_forall in Hall.
  unfold evict_index at 2. destruct (bc_mempool bc !! i) as [x|] eqn:Ei; [|by apply (IH _ k)].
  destruct (decide (k < i)%nat) as [Hlt|Hge].
  - apply (IH _ k); [done..|]. cbn. by rewrite list_lookup_delete_lt.
  - apply (IH _ (k - 1)%nat); [done|done| |].
    + intros Hin. pose proof (Hall _ Hin). assert (k - 1 = i)%nat as E by lia. by rewrite E in Hin.
    + cbn. rewrite list_lookup_delete_ge by lia. by replace (S (k - 1)) with k by lia.
Qed.

Lemma evict_indices_survivors bc idxs k e :
  k ∉ idxs -> bc_mempool bc !! k = Some e -> e ∈ bc_mempool (evict_indices bc idxs).
Proof.
  intros Hk He. unfold evict_indices. apply (evict_survivors _ _ k); [| | |done].
  - pose proof (StronglySorted_merge_sort Nat.le (elements idxs)) as Hs.
    induction Hs as [|x l Hs IH Hall]; [constructor|]. rewrite reverse_cons.
    apply StronglySorted_app_2; [|done|repeat constructor].
    intros a b Ha ->%list_elem_of_singleton. rewrite elem_of_reverse in Ha.
    rewrite Forall_forall in Hall. exact (Hall a Ha).
  - rewrite reverse_Permutation, merge_sort_Permutation. apply NoDup_elements.
  - by rewrite elem_of_reverse, merge_sort_Permutation, elem_of_elements.
Qed.

(** *** Admission *)
Lemma admit_inputs_Ok u outs ins known known' :
  ofold (admit_input u outs) known ins = Ok known' ->
  NoDup (prev_transaction_output_hash <$> ins) /\
  (forall h, h ∈ prev_transaction_output_hash <$> ins -> h ∉ known) /\
  Forall (fun i => exists o, spent_output u (prev_transaction_output_hash i) = Some o /\
                             verifies i outs (pubkey o) = true) ins.
Proof.
  revert known. induction ins as [|i ins IH]; intros known Hf; cbn [ofold] in Hf.
  - split_and!; [constructor|set_solver|constructor].
  - inv_ok. unfold admit_input in Hr.
    destruct (u !! prev_transaction_output_hash i) as [[mk o]|] eqn:Eu; [|done].
    case_decide; [done|]. destruct (verifies i outs (pubkey o)) eqn:Ev; [|done].
    cbn [negb] in Hr. inv_ok. subst r. apply IH in Hf as (Hnd & Hk & Hall).
    rewrite fmap_cons. split_and!.
    + constructor; [|done]. intros Hin. apply Hk in Hin. set_solver.
    + intros h [->|Hh]%elem_of_cons; [done|]. apply Hk in Hh. set_solver.
    + constructor; [|done]. exists o. unfold spent_output. by rewrite Eu.
Qed.

Lemma admit_no_panic u outs ins known : ofold (admit_input u outs) known ins <> Panic.
Proof.
  apply ofold_not_Panic. intros k i _. unfold admit_input.
  destruct (u !! _) as [[mk o]|]; [|done]. case_decide; [done|].
  by destruct (verifies i outs (pubkey o)).
Qed.

Lemma authorised_tx_present u tx : tx_authorised u tx -> tx_present u tx.
Proof.
  intros Ha%authorised_present. unfold tx_present. eapply Forall_impl; [exact Ha|].
  intros h [o Ho]. cbn. unfold spent_output in Ho.
  apply fmap_Some in Ho as (e & He & _). by apply elem_of_dom_2 in He.
Qed.

(** The last step of [add_to_mempool]: mark, push and sort. *)
Lemma enqueue_spec now bc tx :
  mempool_ok bc -> tx_present (bc_utxos bc) tx ->
  let bc1 := mark_transaction_utxos bc tx in
  exists bc', sort_mempool (with_mempool bc1 (bc_mempool bc1 ++ [(now, tx)])) = Ok bc' /\
    mem_only bc bc' /\ mempool_ok bc' /\ bc_mempool bc' ≡ₚ bc_mempool bc ++ [(now, tx)] /\
    Sorted (fun e1 e2 => sort_fee (bc_utxos bc') e2 <= sort_fee (bc_utxos bc') e1) (bc_mempool bc').
Proof.
  intros Hok Hp. cbv zeta. set (bc1 := with_mempool _ _).
  assert (Hm1 : mem_only bc bc1) by (split; try done; cbn; symmetry; apply set_marks_same).
  assert (Hok1 : mempool_ok bc1).
  { unfold mempool_ok. cbn [bc1 with_mempool bc_mempool]. apply Forall_app. split.
    - eapply Forall_impl; [exact Hok|]. intros e. by apply tx_present_same, Hm1.
    - constructor; [|constructor]. by eapply tx_present_same; [apply Hm1|]. }
  pose proof (sort_mempool_no_panic _ Hok1) as Hsp.
  destruct (sort_mempool bc1) as [bc2|e|] eqn:Es; [|by apply sort_mempool_no_err in Es|done].
  apply sort_mempool_Ok in Es as (Hm2 & Hu2 & Hp2 & Hs2). exists bc2. rewrite Hu2.
  split_and!; [done|by etrans| |done|done].
  eapply mempool_ok_incl; [apply Hm2| |exact Hok1]. intros e. by rewrite Hp2.
Qed.

(** What [add_to_mempool] does on every path. *)
Record admitted (now : DateTime) (bc bc' : Blockchain) (tx : Transaction) : Prop := {
  ad_distinct : NoDup (spends tx);
  ad_authorised : tx_authorised (bc_utxos bc) tx;
  ad_conserving : output_total tx <= input_total (bc_utxos bc) tx;
  ad_pending : (now, tx) ∈ bc_mempool bc';
  ad_origin : forall e, e ∈ bc_mempool bc' -> e = (now, tx) \/ e ∈ bc_mempool bc;
  ad_replaced : forall e, e ∈ bc_mempool bc -> expired now e = false -> e ∉ bc_mempool bc' ->
    (exists h, h ∈ spends tx /\ h ∈ spends e.2) /\
    exists old new, transaction_fee (bc_utxos bc) e.2 = Ok old /\
      transaction_fee (bc_utxos bc) tx = Ok new /\ old < new;
  ad_sorted : Sorted (fun e1 e2 => sort_fee (bc_utxos bc') e2 <= sort_fee (bc_utxos bc') e1)
                (bc_mempool bc')
}.

Lemma replaced_outbid now bc bc1 bc' tx fee idxs :
  transaction_fee (bc_utxos (cleanup_mempool now bc)) tx = Ok fee ->
  foldl (conflict_step fee) (cleanup_mempool now bc, Ok ∅) (inputs tx) = (bc1, Ok idxs) ->
  bc_mempool bc' ≡ₚ bc_mempool (evict_indices bc1 idxs) ++ [(now, tx)] ->
  forall e, e ∈ bc_mempool bc -> expired now e = false -> e ∉ bc_mempool bc' ->
    (exists h, h ∈ spends tx /\ h ∈ spends e.2) /\
    exists old new, transaction_fee (bc_utxos bc) e.2 = Ok old /\
      transaction_fee (bc_utxos bc) tx = Ok new /\ old < new.
Proof.
  intros Hfee Hc Hp e He Hx Hgone. pose proof (cleanup_mem_only now bc) as Hm.
  assert (He0 : e ∈ bc_mempool (cleanup_mempool now bc)) by (by apply list_elem_of_filter).
  destruct (conflict_loop_outbid _ _ _ _ _ _ Hc) as (? & [= <-] & Hbid).
  apply conflict_loop_spec in Hc as (_ & Hp1 & _).
  rewrite <-Hp1 in He0. apply list_elem_of_lookup in He0 as [k Hk].
  destruct (decide (k ∈ idxs)) as [Hin|Hout]; cycle 1.
  { destruct Hgone. rewrite Hp. apply elem_of_app. left. by eapply evict_indices_survivors. }
  destruct (Hbid k Hin) as [?|(e' & old & He' & Hs & Hf & Hlt)]; [set_solver|].
  rewrite Hp1 in Hk. rewrite Hk in He'. injection He' as <-. split; [exact Hs|]. exists old, fee.
  by rewrite !(transaction_fee_same (bc_utxos bc) (bc_utxos (cleanup_mempool now bc))) by apply Hm.
Qed.

Lemma add_to_mempool_spec now bc tx bc' r :
  mempool_ok bc -> add_to_mempool now bc tx = (bc', r) ->
  mem_only bc bc' /\ mempool_ok bc' /\ r <> Panic /\ (r = Ok tt -> admitted now bc bc' tx).
Proof.
  intros Hok0. unfold add_to_mempool.
  pose proof (cleanup_mem_only now bc) as Hm0. pose proof (cleanup_ok now bc Hok0) as Hok.
  set (bc0 := cleanup_mempool now bc) in *.
  destruct (ofold _ _ (inputs tx)) as [known|e|] eqn:Ea;
    [|by intros [= <- <-]|by apply admit_no_panic in Ea].
  apply admit_inputs_Ok in Ea as (Hnd & _ & Hauth). fold (tx_authorised (bc_utxos bc0) tx) in Hauth.
  pose proof (authorised_tx_present _ _ Hauth) as Hpres.
  pose proof (transaction_fee_no_panic _ _ Hpres) as Hfp.
  destruct (transaction_fee (bc_utxos bc0) tx) as [fee|e|] eqn:Efee; [|by intros [= <- <-]|done].
  destruct (foldl _ _ _) as [bc1 rc] eqn:Ec.
  pose proof (replaced_outbid now bc bc1) as Hbid.
  pose proof (conflict_loop_spec _ _ _ _ _ _ Ec) as (Hm1 & Hp1 & Hn1).
  assert (Hok1 : mempool_ok bc1)
    by (eapply mempool_ok_incl; [apply Hm1| |exact Hok]; by rewrite Hp1).
  destruct rc as [idxs|e|]; [|intros [= <- <-]; split_and!; [by etrans|done..]
                             |exfalso; by apply Hn1].
  destruct (evict_indices_spec bc1 idxs) as [Hm2 Hi2].
  assert (Hok2 : mempool_ok (evict_indices bc1 idxs))
    by (eapply mempool_ok_incl; [apply Hm2|exact Hi2|done]).
  set (bc2 := evict_indices bc1 idxs) in *.
  assert (Hm : mem_only bc0 bc2) by (by etrans).
  assert (Hpres2 : tx_present (bc_utxos bc2) tx)
    by (eapply tx_present_same; [apply Hm|done]).
  pose proof (transaction_fee_no_panic _ _ Hpres2) as Hfp2. unfold conserves.
  destruct (transaction_fee (bc_utxos bc2) tx) as [fee2|e|] eqn:Efee2; cbn [mbind outcome_bind];
    [|intros [= <- <-]; split_and!; [by etrans; [|etrans]|done..]|done].
  destruct (enqueue_spec now bc2 tx Hok2 Hpres2) as (bc5 & -> & Hm5 & Hok5 & Hp5 & Hs5).
  intros [= <- <-]. split_and!; [etrans; [exact Hm0|]; by etrans|done|done|].
  intros _. split.
  - done.
  - eapply tx_authorised_same; [|exact Hauth]. symmetry. apply Hm0.
  - rewrite (input_total_same _ (bc_utxos bc0)) by apply Hm0.
    by apply transaction_fee_Ok in Efee as [? _].
  - rewrite Hp5. apply elem_of_app. right. by left.
  - intros e He. rewrite Hp5 in He. apply elem_of_app in He as [He|He].
    + right. apply Hi2 in He. rewrite Hp1 in He. cbn in He.
      by apply list_elem_of_filter in He as [_ He].
    + left. by apply list_elem_of_singleton in He.
  - by eapply Hbid.
  - exact Hs5.
Qed.

(** *** Eviction after a block *)
Lemma evict_stale_mem_only now confirmed bc :
  mem_only bc (evict_stale_mempool_entries now confirmed bc).
Proof. etrans; [apply (cleanup_mem_only now)|]. by split. Qed.

Lemma evict_stale_ok now confirmed bc :
  mempool_ok (evict_stale_mempool_entries now confirmed bc).
Proof.
  unfold mempool_ok, evict_stale_mempool_entries. cbn [bc_mempool bc_utxos with_mempool].
  apply Forall_forall. intros e He. by apply list_elem_of_filter in He as [[_ He] _].
Qed.

End mempool_lemmas.
