(* ===== verification/ChainSpec.v ===== *)
(** * ChainSpec: the consensus rules, abstractly

    What a chain of blocks has to be, with no state, no block map and no
    incremental bookkeeping: [valid_chain]. The theorems on supply and
    difficulty are proved of valid chains here; [ChainInv] proves that the
    state machine of [Blockchain] only ever follows valid chains. *)

From S2P Require Import Prelude Types Crypto Params Transaction Block Utxo Blockchain.

Section spec.
Context `{Primitives}.
Context {CE : ChainEnv}.

(** The UTXO set a chain leaves, replayed from nothing. *)
Definition replay (l : list Block) : Utxos :=
  foldl (fun u b => apply_transactions u (transactions b)) ∅ l.

Definition block_time (l : list Block) (i : nat) : outcome BtcError DateTime :=
  expect (timestamp ∘ header <$> l !! i).

(** The target the block after a chain has to meet. *)
Definition target_for (l : list Block) : outcome BtcError N :=
  retarget_loop (block_time l) (length l) (length l)
    (N.to_nat DIFFICULTY_UPDATE_INTERVAL) MIN_TARGET.

(** A block may follow the chain [l], whose last block is [p]. *)
Record extends (l : list Block) (p b : Block) : Prop := {
  ext_tip : last l = Some p;
  ext_parent : prev_block_hash (header b) = block_hash p;
  ext_time : (timestamp (header p) < timestamp (header b))%Z;
  ext_target : target_for l = Ok (target (header b));
  ext_pow : matches_target (header_hash (header b)) (target (header b)) = true;
  ext_size : check_block_size b = Ok tt;
  ext_root : Merkle.calculate (E := BtcError) (transactions b) = Ok (merkle_root (header b));
  ext_txs : exists coinbase rest,
      valid_transactions b (N.of_nat (length l)) (replay l) coinbase rest
}.

Inductive valid_chain : list Block -> Prop :=
| vc_genesis : valid_chain [genesis_block]
| vc_extend l p b : valid_chain l -> extends l p b -> valid_chain (l ++ [b]).

End spec.

(** ** Difficulty *)
Section difficulty.
Context `{Primitives}.
Context {CE : ChainEnv}.

(** The retarget windows [k], ..., [k + n - 1], one after the other. *)
Fixpoint windows (get : nat -> outcome BtcError DateTime) (k n : nat) (t : N)
    : outcome BtcError N :=
  match n with
  | O => Ok t
  | S n' =>
      s ← get (k * 50)%nat; e ← get (k * 50 + 49)%nat;
      t' ← adjust_target t s e; windows get (S k) n' t'
  end.

Lemma retarget_windows get len fuel k t :
  (len / 50 <= k + fuel)%nat ->
  retarget_loop get len fuel (k * 50 + 50) t = windows get k (len / 50 - k) t.
Proof.
  revert k t. induction fuel as [|fuel IH]; intros k t Hf.
  - cbn [retarget_loop]. by replace (len / 50 - k)%nat with 0%nat by lia.
  - cbn [retarget_loop]. change (N.to_nat DIFFICULTY_UPDATE_INTERVAL) with 50%nat.
    destruct (Nat.leb_spec (k * 50 + 50) len) as [Hle|Hlt].
    + assert (Hk : (S k <= len / 50)%nat) by (apply Nat.div_le_lower_bound; lia).
      replace (len / 50 - k)%nat with (S (len / 50 - S k)) by lia. cbn [windows].
      replace (k * 50 + 50 - 50)%nat with (k * 50)%nat by lia.
      replace (k * 50 + 50 - 1)%nat with (k * 50 + 49)%nat by lia.
      destruct (get (k * 50)%nat); cbn; [|done..].
      destruct (get (k * 50 + 49)%nat); cbn; [|done..].
      destruct (adjust_target t a a0); cbn; [|done..].
      replace (k * 50 + 50 + 50)%nat with (S k * 50 + 50)%nat by lia.
      apply IH. lia.
    + replace (len / 50 - k)%nat with 0%nat; [done|].
      assert (len / 50 < S k)%nat; [|lia]. apply Nat.Div0.div_lt_upper_bound. lia.
Qed.

Lemma windows_S get k n t :
  windows get k (S n) t
  = (s ← get (k * 50)%nat; e ← get (k * 50 + 49)%nat;
     t' ← adjust_target t s e; windows get (S k) n t').
Proof. done. Qed.

Lemma windows_snoc get k n t :
  windows get k (S n) t
  = (t' ← windows get k n t; s ← get ((k + n) * 50)%nat; e ← get ((k + n) * 50 + 49)%nat;
     adjust_target t' s e).
Proof.
  revert k t. induction n as [|n IH]; intros k t.
  - cbn. replace ((k + 0) * 50)%nat with (k * 50)%nat by lia.
    destruct (get (k * 50)%nat); cbn; [|done..].
    destruct (get (k * 50 + 49)%nat); cbn; [|done..].
    by destruct (adjust_target t a a0).
  - rewrite (windows_S get k (S n) t), (windows_S get k n t).
    destruct (get (k * 50)%nat); cbn [mbind outcome_bind]; [|done..].
    destruct (get (k * 50 + 49)%nat); cbn [mbind outcome_bind]; [|done..].
    destruct (adjust_target t a a0) as [t'| |]; cbn [mbind outcome_bind]; [|done..].
    rewrite IH. by replace (S k + n)%nat with (k + S n)%nat by lia.
Qed.

Lemma windows_ext get get' k n t :
  (forall i, (i < (k + n) * 50)%nat -> get i = get' i) -> windows get k n t = windows get' k n t.
Proof.
  revert k t. induction n as [|n IH]; intros k t He; [done|].
  cbn [windows]. rewrite (He (k * 50)%nat), (He (k * 50 + 49)%nat) by lia.
  destruct (get' (k * 50)%nat); cbn; [|done..].
  destruct (get' (k * 50 + 49)%nat); cbn; [|done..].
  destruct (adjust_target t a a0); cbn; [|done..].
  apply IH. intros i Hi. apply He. lia.
Qed.

Lemma recompute_windows get len :
  retarget_loop get len len (N.to_nat DIFFICULTY_UPDATE_INTERVAL) MIN_TARGET
  = windows get 0 (len / 50) MIN_TARGET.
Proof.
  change (N.to_nat DIFFICULTY_UPDATE_INTERVAL) with (0 * 50 + 50)%nat.
  rewrite retarget_windows; [by rewrite Nat.sub_0_r|].
  apply Nat.div_le_upper_bound; lia.
Qed.

Lemma retarget_ext get get' len :
  (forall i, (i < len)%nat -> get i = get' i) ->
  retarget_loop get len len (N.to_nat DIFFICULTY_UPDATE_INTERVAL) MIN_TARGET
  = retarget_loop get' len len (N.to_nat DIFFICULTY_UPDATE_INTERVAL) MIN_TARGET.
Proof.
  intros He. rewrite !recompute_windows. apply windows_ext. intros i Hi. apply He.
  pose proof (Nat.Div0.mul_div_le len 50). lia.
Qed.

(** Appending one block: the target moves exactly when it completes a window,
    and then by the two timestamps that bound the window. *)
Lemma target_for_snoc l b :
  target_for (l ++ [b]) =
  if (S (length l) mod 50 =? 0)%nat
  then t ← target_for l; s ← block_time (l ++ [b]) (S (length l) - 50);
       e ← block_time (l ++ [b]) (length l); adjust_target t s e
  else target_for l.
Proof.
  unfold target_for. rewrite !recompute_windows, length_app. cbn [length].
  rewrite Nat.add_1_r.
  assert (Hext : forall n, (n * 50 <= length l)%nat ->
            windows (block_time (l ++ [b])) 0 n MIN_TARGET = windows (block_time l) 0 n MIN_TARGET).
  { intros n Hn. apply windows_ext. intros i Hi. unfold block_time.
    rewrite lookup_app_l by lia. done. }
  pose proof (Nat.div_mod_eq (S (length l)) 50) as Hdm.
  destruct (Nat.eqb_spec (S (length l) mod 50) 0) as [Hm|Hm].
  - set (q := (S (length l) / 50)%nat) in *.
    destruct q as [|q]; [lia|]. rewrite windows_snoc, Hext by lia.
    replace (length l / 50)%nat with q by (apply (Nat.div_unique _ _ _ 49); lia).
    cbn [Nat.add]. replace (S (length l) - 50)%nat with (q * 50)%nat by lia.
    by replace (length l) with (q * 50 + 49)%nat by lia.
  - pose proof (Nat.mod_upper_bound (S (length l)) 50).
    replace (S (length l) / 50)%nat with (length l / 50)%nat.
    + apply Hext. pose proof (Nat.Div0.mul_div_le (length l) 50). lia.
    + symmetry. apply (Nat.div_unique _ _ _ (S (length l) mod 50 - 1)); lia.
Qed.

End difficulty.

(** ** Bounds on targets *)
Section target_bounds.
Context `{Primitives}.
Context {CE : ChainEnv} {CL : ChainEnvLaws CE}.

Lemma clamp_bounds x :
  200 <= N.min (N.max x (IDEAL_BLOCK_TIME * DIFFICULTY_UPDATE_INTERVAL / 4))
               (IDEAL_BLOCK_TIME * DIFFICULTY_UPDATE_INTERVAL * 4) <= 3200.
Proof.
  change (IDEAL_BLOCK_TIME * DIFFICULTY_UPDATE_INTERVAL) with 800.
  change (800 / 4) with 200. change (800 * 4) with 3200. lia.
Qed.

Lemma scale_target_800 t a : t <= MIN_TARGET -> a <= 3200 -> scale_target t a 800 = t * a / 800.
Proof.
  intros Ht Ha. apply (scale_target_exact t a 800 5); [done|lia|lia|lia|].
  replace (a * 10 ^ 5) with (a * 125 * 800) by (change (10 ^ 5) with (125 * 800); lia).
  apply N.Div0.mod_mul.
Qed.

(** A retarget multiplies the target by the window's duration over the ideal
    one, clamped to [1/4, 4], rounds down, and never exceeds the easiest. *)
Lemma adjust_target_Ok t s e :
  t <= MIN_TARGET ->
  let secs := Z.to_N (Z.max (num_seconds (e - s)) 1) in
  adjust_target t s e = Ok (N.min (t * N.min (N.max secs 200) 3200 / 800) MIN_TARGET).
Proof.
  intros Ht secs. unfold adjust_target. fold secs.
  pose proof (clamp_bounds secs) as Hc. revert Hc.
  change (IDEAL_BLOCK_TIME * DIFFICULTY_UPDATE_INTERVAL) with 800.
  change (800 / 4) with 200. change (800 * 4) with 3200.
  generalize (N.min (N.max secs 200) 3200) as c. intros c Hc.
  rewrite scale_target_800 by lia.
  assert (Hle : t * c / 800 <= t * 4).
  { transitivity (t * 4 * 800 / 800).
    - apply N.Div0.div_le_mono. nia.
    - by rewrite N.div_mul. }
  destruct (N.ltb_spec U256_MAX (t * c / 800)) as [Hgt|]; [|done].
  exfalso. unfold MIN_TARGET, U256_MAX in *.
  assert ((2 ^ 240 - 1) * 4 <= 2 ^ 256 - 1) by done. lia.
Qed.

Lemma adjust_target_le t s e t' : adjust_target t s e = Ok t' -> t' <= MIN_TARGET.
Proof. unfold adjust_target. case_match; [done|]. intros [= <-]. lia. Qed.

Lemma block_time_total l i : (i < length l)%nat -> exists s, block_time l i = Ok s.
Proof.
  intros Hi. unfold block_time. destruct (lookup_lt_is_Some_2 l i Hi) as [b ->]. cbn. eauto.
Qed.

Lemma target_for_total l : exists t, target_for l = Ok t /\ t <= MIN_TARGET.
Proof.
  unfold target_for. rewrite recompute_windows.
  assert (Hn : (length l / 50 * 50 <= length l)%nat)
    by (pose proof (Nat.Div0.mul_div_le (length l) 50); lia).
  revert Hn. generalize (length l / 50)%nat as n. induction n as [|n IH]; intros Hn.
  - exists MIN_TARGET. split; [done|lia].
  - destruct IH as (t & Ht & Hle); [lia|]. rewrite windows_snoc, Ht. cbn [mbind outcome_bind].
    destruct (block_time_total l ((0 + n) * 50)) as [s ->]; [lia|].
    destruct (block_time_total l ((0 + n) * 50 + 49)) as [e ->]; [lia|]. cbn [mbind outcome_bind].
    rewrite adjust_target_Ok by done. eexists. split; [done|]. lia.
Qed.

End target_bounds.

(** ** Genesis and supply *)
Section supply.
Context `{Primitives}.
Context {CE : ChainEnv} {CL : ChainEnvLaws CE}.

Lemma mine_keeps now steps h ok h' :
  mine now steps h = (ok, h') ->
  prev_block_hash h' = prev_block_hash h /\ merkle_root h' = merkle_root h /\
  target h' = target h /\
  (ok = true -> matches_target (header_hash h') (target h') = true).
Proof.
  unfold mine. destruct (matches_target _ _) eqn:Em; [intros [= <- <-]; by split_and!|]. clear Em.
  revert h. induction steps as [|n IH]; intros h; cbn [mine_loop].
  - intros [= <- <-]. by split_and!.
  - assert (Hn : prev_block_hash (next_nonce now h) = prev_block_hash h /\
                 merkle_root (next_nonce now h) = merkle_root h /\
                 target (next_nonce now h) = target h)
      by (unfold next_nonce; by destruct (checked_add _ _)).
    destruct Hn as (Hp & Hm & Ht).
    destruct (matches_target (header_hash (next_nonce now h)) _) eqn:Em.
    + intros [= <- <-]. by rewrite <-Hp, <-Hm, <-Ht; split_and!.
    + intros Hl. apply IH in Hl. by rewrite Hp, Hm, Ht in Hl.
Qed.

Lemma genesis_facts :
  prev_block_hash (header genesis_block) = zero_hash /\
  target (header genesis_block) = MIN_TARGET /\
  matches_target (header_hash (header genesis_block)) MIN_TARGET = true /\
  exists o, transactions genesis_block = [mkTransaction [] [o]] /\
            value o = block_reward_at_height 0.
Proof.
  destruct genesis_made as (seed & now & Hg). unfold make_genesis in Hg. inv_ok.
  destruct (mine _ _ _) as [ok h] eqn:Em. destruct ok; [|done]. inv_ok.
  rewrite <-Hg. cbn [header transactions].
  apply mine_keeps in Em as (Hp & _ & Ht & Hok). cbn in Hp, Ht.
  rewrite Ht in Hok. split_and!; auto. eexists. split; [done|]. reflexivity.
Qed.

Lemma replay_snoc l b : replay (l ++ [b]) = apply_transactions (replay l) (transactions b).
Proof. unfold replay. by rewrite foldl_app. Qed.

Lemma valid_chain_nonempty l : valid_chain l -> l <> [].
Proof. destruct 1; [done|]. by destruct l. Qed.

Lemma valid_chain_supply l : valid_chain l -> total (replay l) <= issued (length l).
Proof.
  induction 1 as [|l p b Hl IH He].
  - destruct genesis_facts as (_ & _ & _ & o & Ht & Hv).
    change (replay [genesis_block]) with (apply_transactions ∅ (transactions genesis_block)).
    rewrite Ht. cbn [length issued]. change (N.of_nat 0) with 0. rewrite <-Hv.
    change (apply_transactions ∅ [mkTransaction [] [o]])
      with (<[output_hash o := (false, o)]> (∅ : Utxos)).
    unfold total. rewrite map_sum_insert by apply lookup_empty.
    rewrite map_sum_empty. unfold entry_value. cbn [snd]. lia.
  - rewrite replay_snoc, length_app, Nat.add_1_r. cbn [issued].
    destruct (ext_txs _ _ _ He) as (cb & rest & Hv).
    apply valid_transactions_total in Hv. lia.
Qed.

End supply.
