(* ===== verification/ChainTree.v ===== *)
(** * ChainTree: the block map as a tree of valid chains

    The block map holds the active chain and every side branch. Here: when
    each stored block comes with a stored valid ancestry, ancestries are
    unique, the lookups of [Blockchain] over a chain of hashes compute what
    [ChainSpec] computes over the blocks, and the ancestry walk
    [trace_branch] terminates and finds the fork point. *)

From S2P Require Import Prelude Types Crypto Params Transaction Block Utxo Blockchain ChainSpec.

(** ** Collision-freedom of the blocks in play

    Hash collisions are infeasible but not impossible, so the statements say
    which blocks must not collide: a set [U] of blocks with distinct hashes,
    none of them the zero hash that marks "no parent". The two other
    conditions are about degenerate blocks: one whose header hashes to zero
    (the only one that could meet target zero, whose work overflows) and one
    with no transactions (whose Merkle root panics). *)
Record collision_free `{CE : ChainEnv} (U : Block -> Prop) : Prop := {
  cf_genesis : U genesis_block;
  cf_inj b1 b2 : U b1 -> U b2 -> block_hash b1 = block_hash b2 -> b1 = b2;
  cf_nonzero b : U b -> block_hash b <> zero_hash;
  cf_header b : U b -> header_hash (header b) <> 0;
  cf_transactions b : U b -> transactions b <> []
}.

(** The blocks of a list are stored under their hashes. *)
Definition stored `{Primitives} (bs : gmap Hash Block) (l : list Block) : Prop :=
  Forall (fun b => bs !! block_hash b = Some b) l.

(** Every stored block is stored under its hash, is in play, and has a stored
    valid ancestry. *)
Definition tree `{CE : ChainEnv} (U : Block -> Prop) (bs : gmap Hash Block) : Prop :=
  forall h b, bs !! h = Some b ->
    h = block_hash b /\ U b /\ exists l, valid_chain (l ++ [b]) /\ stored bs (l ++ [b]).

(** A target whose work is defined: not zero, not easier than the easiest. *)
Definition target_ok (b : Block) : Prop := 0 < target (header b) <= MIN_TARGET.

Section valid_chains.
Context `{CE : ChainEnv} {CL : ChainEnvLaws CE}.

Lemma valid_chain_snoc_inv l b :
  valid_chain (l ++ [b]) ->
  (l = [] /\ b = genesis_block) \/ (valid_chain l /\ exists p, extends l p b).
Proof.
  inversion 1 as [E|l' p b' Hl He E].
  - left. destruct l as [|x l]; cbn in E; [by injection E|].
    injection E as _ E. by destruct l.
  - apply app_inj_tail in E as [-> ->]. right. eauto.
Qed.

Lemma valid_chain_head l : valid_chain l -> head l = Some genesis_block.
Proof.
  induction 1 as [|l p b Hl IH He]; [done|]. by destruct l.
Qed.

Lemma valid_chain_prefix l1 l2 : l1 <> [] -> valid_chain (l1 ++ l2) -> valid_chain l1.
Proof.
  intros Hne. induction l2 as [|b l2 IH] using rev_ind; [by rewrite app_nil_r|].
  rewrite (assoc_L (++)). intros Hv. apply valid_chain_snoc_inv in Hv as [[E _]|[Hv _]]; auto.
  destruct l1; done.
Qed.

(** Neighbours are parent and child, in time order. *)
Lemma valid_chain_link l i p b :
  valid_chain l -> l !! i = Some p -> l !! S i = Some b ->
  prev_block_hash (header b) = block_hash p /\ (timestamp (header p) < timestamp (header b))%Z.
Proof.
  intros Hv Hp Hb. induction Hv as [|l q c Hl IH He].
  - by destruct i.
  - pose proof (lookup_lt_Some _ _ _ Hb) as Hlt. rewrite length_app in Hlt. cbn in Hlt.
    rewrite lookup_app_l in Hp by lia.
    destruct (decide (S i < length l)%nat) as [Hi|Hi].
    + rewrite lookup_app_l in Hb by lia. auto.
    + assert (Hi' : S i = length l) by lia. rewrite Hi', list_lookup_middle in Hb by done.
      injection Hb as <-. pose proof (ext_tip _ _ _ He) as Hq. rewrite last_lookup in Hq.
      replace (Nat.pred (length l)) with i in Hq by lia. rewrite Hp in Hq. injection Hq as <-.
      split; [apply (ext_parent _ _ _ He)|apply (ext_time _ _ _ He)].
Qed.

(** Timestamps strictly increase along a chain. *)
Lemma valid_chain_times l i j bi bj :
  valid_chain l -> (i < j)%nat -> l !! i = Some bi -> l !! j = Some bj ->
  (timestamp (header bi) < timestamp (header bj))%Z.
Proof.
  intros Hv Hij Hi. revert bj. induction Hij as [|j Hij IH]; intros bj Hj.
  - by apply (valid_chain_link l i bi bj).
  - destruct (lookup_lt_is_Some_2 l j) as [bm Hm]; [apply lookup_lt_Some in Hj; lia|].
    specialize (IH bm Hm). destruct (valid_chain_link l j bm bj Hv Hm Hj) as [_ Ht]. lia.
Qed.

Lemma valid_chain_target l b :
  valid_chain (l ++ [b]) -> header_hash (header b) <> 0 -> target_ok b.
Proof.
  intros Hv Hh. unfold target_ok. apply valid_chain_snoc_inv in Hv as [[_ ->]|[_ [p He]]].
  - destruct genesis_facts as (_ & -> & _). done.
  - destruct (target_for_total l) as (t & Ht & Hle). rewrite (ext_target _ _ _ He) in Ht.
    injection Ht as Ht. subst t. split; [|done].
    pose proof (ext_pow _ _ _ He) as Hp. unfold matches_target in Hp. apply N.leb_le in Hp. lia.
Qed.

End valid_chains.

(** ** Lookups along a stored chain *)
Section lookups.
Context `{CE : ChainEnv}.
Implicit Types (bs : gmap Hash Block) (l : list Block).

Lemma stored_blocks_of bs l : stored bs l -> blocks_of bs (block_hash <$> l) = Ok l.
Proof.
  induction 1 as [|b l Hb _ IH]; [done|]. unfold blocks_of. rewrite fmap_cons.
  cbn [omapM]. rewrite Hb. cbn [expect mbind outcome_bind].
  unfold blocks_of in IH. by rewrite IH.
Qed.

Lemma stored_replay bs l : stored bs l -> replay_utxos bs (block_hash <$> l) = Ok (replay l).
Proof.
  unfold replay_utxos, replay. generalize (∅ : Utxos) as u. intros u Hs. revert u.
  induction Hs as [|b l Hb _ IH]; intros u; [done|].
  rewrite fmap_cons. cbn [ofold foldl]. rewrite Hb. cbn [expect mbind outcome_bind]. apply IH.
Qed.

Lemma stored_time bs l i :
  stored bs l -> (i < length l)%nat -> time_at bs (block_hash <$> l) i = block_time l i.
Proof.
  intros Hs Hi. unfold time_at, block_time. rewrite list_lookup_fmap.
  destruct (lookup_lt_is_Some_2 l i Hi) as [b Hb]. rewrite Hb. cbn.
  unfold stored in Hs. rewrite Forall_lookup in Hs. by rewrite (Hs i b Hb).
Qed.

Lemma stored_target bs l :
  stored bs l -> recompute_target_for_chain bs (block_hash <$> l) = target_for l.
Proof.
  intros Hs. unfold recompute_target_for_chain, target_for. rewrite length_fmap.
  apply retarget_ext. intros i Hi. by apply stored_time.
Qed.

(** The cumulative work of a chain of blocks, saturating at the width. *)
Definition work_of (l : list Block) : N :=
  foldl (fun acc b => saturating_add U256_MAX acc (2 ^ 256 / (target (header b) + 1))) 0 l.

Lemma work_of_bound l : work_of l <= U256_MAX.
Proof.
  destruct l as [|b l] using rev_ind; [done|]. unfold work_of. rewrite foldl_app.
  cbn [foldl]. unfold saturating_add. lia.
Qed.

Lemma work_of_snoc l b : work_of l <= work_of (l ++ [b]).
Proof.
  pose proof (work_of_bound l) as Hb. revert Hb. unfold work_of. rewrite foldl_app. cbn [foldl].
  generalize (foldl (fun acc x => saturating_add U256_MAX acc (2 ^ 256 / (target (header x) + 1))) 0 l).
  generalize (2 ^ 256 / (target (header b) + 1)) as x. intros x w.
  unfold saturating_add. generalize U256_MAX. lia.
Qed.

Lemma stored_work bs l :
  stored bs l -> Forall target_ok l ->
  work_of_chain bs (block_hash <$> l) = Ok (work_of l).
Proof.
  unfold work_of_chain, work_of. generalize 0 as acc. intros acc Hs Ht. revert acc.
  induction Hs as [|b l Hb _ IH]; intros acc; [done|].
  apply Forall_cons in Ht as [Ht Hts]. rewrite fmap_cons. cbn [ofold foldl]. rewrite Hb.
  cbn [expect mbind outcome_bind]. unfold header_work.
  rewrite work_from_target_total by (unfold target_ok, MIN_TARGET, U256_MAX in *; lia).
  cbn [mbind outcome_bind]. by apply IH.
Qed.

Lemma stored_mono bs bs' l : bs ⊆ bs' -> stored bs l -> stored bs' l.
Proof.
  intros Hsub Hs. eapply Forall_impl; [exact Hs|]. intros b Hb.
  exact (lookup_weaken bs bs' _ _ Hb Hsub).
Qed.

Lemma stored_app bs l1 l2 : stored bs (l1 ++ l2) <-> stored bs l1 /\ stored bs l2.
Proof. apply Forall_app. Qed.

End lookups.

(** ** Trees *)
Section trees.
Context `{CE : ChainEnv} {CL : ChainEnvLaws CE}.
Context (U : Block -> Prop) (HU : collision_free U).
Implicit Types (bs : gmap Hash Block) (l : list Block).

Lemma tree_in_play bs l : tree U bs -> stored bs l -> Forall U l.
Proof.
  intros Ht Hs. eapply Forall_impl; [exact Hs|]. intros b Hb. by apply Ht in Hb as (_ & ? & _).
Qed.

(** Ancestry is unique. *)
Lemma ancestry_unique bs l1 l2 b :
  tree U bs -> valid_chain (l1 ++ [b]) -> valid_chain (l2 ++ [b]) ->
  stored bs (l1 ++ [b]) -> stored bs (l2 ++ [b]) -> l1 = l2.
Proof.
  intros Ht. revert l2 b. induction l1 as [|p1 l1 IH] using rev_ind; intros l2 b Hv1 Hv2 Hs1 Hs2.
  - apply valid_chain_snoc_inv in Hv1 as [[_ ->]|[Hv1 _]];
      [|by apply valid_chain_nonempty in Hv1].
    destruct l2 as [|p2 l2] using rev_ind; [done|exfalso]. clear IHl2.
    apply valid_chain_snoc_inv in Hv2 as [[E _]|[_ [q He]]]; [by destruct l2|].
    destruct genesis_facts as (Hp & _). pose proof (ext_parent _ _ _ He) as Hq.
    pose proof (ext_tip _ _ _ He) as Hl. rewrite last_snoc in Hl. injection Hl as <-.
    apply stored_app in Hs2 as [Hs2 _]. apply tree_in_play in Hs2; [|done].
    apply Forall_app in Hs2 as [_ Hs2]. apply Forall_cons in Hs2 as [Hu _].
    apply (cf_nonzero U HU p2 Hu). congruence.
  - apply valid_chain_snoc_inv in Hv1 as [[E _]|[Hv1 [q1 He1]]]; [by destruct l1|].
    pose proof (ext_tip _ _ _ He1) as Hl1. rewrite last_snoc in Hl1. injection Hl1 as <-.
    apply stored_app in Hs1 as [Hs1 _].
    destruct l2 as [|p2 l2] using rev_ind.
    + exfalso. apply valid_chain_snoc_inv in Hv2 as [[_ ->]|[Hv2 _]];
        [|by apply valid_chain_nonempty in Hv2].
      destruct genesis_facts as (Hp & _). pose proof (ext_parent _ _ _ He1) as Hq.
      apply tree_in_play in Hs1; [|done]. apply Forall_app in Hs1 as [_ Hs1].
      apply Forall_cons in Hs1 as [Hu _]. apply (cf_nonzero U HU p1 Hu). congruence.
    + clear IHl2. apply valid_chain_snoc_inv in Hv2 as [[E _]|[Hv2 [q2 He2]]]; [by destruct l2|].
      pose proof (ext_tip _ _ _ He2) as Hl2. rewrite last_snoc in Hl2. injection Hl2 as <-.
      apply stored_app in Hs2 as [Hs2 _].
      assert (p1 = p2) as ->.
      { pose proof (ext_parent _ _ _ He1). pose proof (ext_parent _ _ _ He2).
        apply stored_app in Hs1 as [_ Hs1]. apply stored_app in Hs2 as [_ Hs2].
        apply Forall_cons in Hs1 as [Hs1 _]. apply Forall_cons in Hs2 as [Hs2 _].
        congruence. }
      f_equal. by apply (IH l2 p2).
Qed.

(** The hashes of a stored valid chain are distinct. *)
Lemma chain_hashes_nodup bs l : valid_chain l -> stored bs l -> NoDup (block_hash <$> l).
Proof.
  intros Hv Hs. apply NoDup_alt. intros i j h Hi Hj.
  rewrite list_lookup_fmap in Hi, Hj.
  destruct (l !! i) as [bi|] eqn:Ei; [|done]. destruct (l !! j) as [bj|] eqn:Ej; [|done].
  cbn in Hi, Hj. injection Hi as Hi. injection Hj as Hj.
  unfold stored in Hs. rewrite Forall_lookup in Hs.
  pose proof (Hs i bi Ei) as Hbi. pose proof (Hs j bj Ej) as Hbj.
  rewrite Hi in Hbi. rewrite Hj in Hbj. rewrite Hbi in Hbj. injection Hbj as <-.
  destruct (lt_eq_lt_dec i j) as [[Hlt|]|Hgt]; [|done|].
  - pose proof (valid_chain_times l i j bi bi Hv Hlt Ei Ej). lia.
  - pose proof (valid_chain_times l j i bi bi Hv Hgt Ej Ei). lia.
Qed.

(** Positions in the active chain. *)
Lemma active_index_Some chain h i :
  NoDup chain -> active_chain_index chain !! h = Some i <-> chain !! i = Some h.
Proof.
  intros Hnd. unfold active_chain_index.
  assert (Hk : (reverse (imap (fun i h => (h, i)) chain)).*1 = reverse chain).
  { rewrite fmap_reverse. f_equal. rewrite fmap_imap. apply list_eq. intros k.
    rewrite list_lookup_imap. by destruct (chain !! k). }
  rewrite <-elem_of_list_to_map by (rewrite Hk; by rewrite reverse_Permutation).
  rewrite elem_of_reverse, elem_of_lookup_imap. split.
  - intros (k & h' & [= <- <-] & Hk'). done.
  - intros Hi. eauto.
Qed.

Lemma stored_last bs l b : stored bs (l ++ [b]) -> bs !! block_hash b = Some b.
Proof. intros Hs. apply stored_app in Hs as [_ Hs]. by apply Forall_cons in Hs as [Hs _]. Qed.

(** The walk's last step: a block of the active chain is its own fork point. *)
Lemma trace_hit bs a l b i br :
  tree U bs -> valid_chain a -> stored bs a -> NoDup (block_hash <$> a) ->
  valid_chain (l ++ [b]) -> stored bs (l ++ [b]) ->
  active_chain_index (block_hash <$> a) !! block_hash b = Some i ->
  Ok (E := BtcError) (S i, br) = Ok (S i, (block_hash <$> drop (S i) (l ++ [b])) ++ br) /\
  (1 <= S i <= length (l ++ [b]))%nat /\ (S i <= length a)%nat /\
  take (S i) (l ++ [b]) = take (S i) a /\
  (forall c, c ∈ drop (S i) (l ++ [b]) -> block_hash c ∉ block_hash <$> a).
Proof.
  intros Ht Hva Hsa Hnd Hv Hs Ei. apply active_index_Some in Ei; [|done].
  rewrite list_lookup_fmap in Ei. destruct (a !! i) as [b'|] eqn:Ea; [|done].
  cbn in Ei. injection Ei as Ei.
  assert (b' = b) as ->.
  { unfold stored in Hsa. rewrite Forall_lookup in Hsa. specialize (Hsa i b' Ea).
    apply stored_last in Hs. congruence. }
  assert (Htk : take (S i) a = take i a ++ [b]) by (by apply take_S_r).
  assert (Hanc : take i a = l).
  { apply (ancestry_unique bs _ _ b Ht); [|done| |done]; rewrite <-Htk.
    - apply (valid_chain_prefix _ (drop (S i) a)); [|by rewrite take_drop].
      rewrite Htk. by destruct (take i a).
    - apply (stored_app bs _ (drop (S i) a)). by rewrite take_drop. }
  pose proof (lookup_lt_Some a i b Ea) as Hlt.
  assert (Hlen : length l = i) by (rewrite <-Hanc; apply length_take_le; lia).
  rewrite Hanc in Htk.
  rewrite drop_ge, take_ge by (rewrite length_app; cbn; lia).
  rewrite length_app. cbn [length]. split_and!; [done|lia|lia|lia|done|set_solver].
Qed.

(** The walk from a stored block back to the active chain: it ends within the
    length of the block's ancestry and returns the fork point and the branch. *)
Lemma trace_loop_spec bs a l b fuel br :
  tree U bs -> valid_chain a -> stored bs a ->
  valid_chain (l ++ [b]) -> stored bs (l ++ [b]) -> (length l < fuel)%nat ->
  exists k, trace_loop bs (active_chain_index (block_hash <$> a)) fuel (block_hash b) br
            = Ok (k, (block_hash <$> drop k (l ++ [b])) ++ br) /\
    (1 <= k <= length (l ++ [b]))%nat /\ (k <= length a)%nat /\
    take k (l ++ [b]) = take k a /\
    (forall c, c ∈ drop k (l ++ [b]) -> block_hash c ∉ block_hash <$> a).
Proof.
  intros Ht Hva Hsa. revert b fuel br.
  pose proof (chain_hashes_nodup bs a Hva Hsa) as Hnd.
  induction l as [|p l IH] using rev_ind; intros b fuel br Hv Hs Hf;
    (destruct fuel as [|fuel]; [lia|]); cbn [trace_loop];
    destruct (active_chain_index (block_hash <$> a) !! block_hash b) as [i|] eqn:Ei.
  1, 3: exists (S i); by apply (trace_hit bs a _ b i br Ht).
  - (* the genesis block is on every active chain *)
    exfalso. apply valid_chain_snoc_inv in Hv as [[_ ->]|[Hv _]];
      [|by apply valid_chain_nonempty in Hv].
    pose proof (valid_chain_head a Hva) as Hh. destruct a as [|g a]; [done|].
    injection Hh as ->.
    assert (E : active_chain_index (block_hash <$> genesis_block :: a) !! block_hash genesis_block
                = Some 0%nat) by (by apply active_index_Some).
    congruence.
  - pose proof (stored_last _ _ _ Hs) as Hb. rewrite Hb. cbn [expect mbind outcome_bind].
    apply valid_chain_snoc_inv in Hv as [[E _]|[Hv [q He]]]; [by destruct l|].
    pose proof (ext_tip _ _ _ He) as Hq. rewrite last_snoc in Hq. injection Hq as <-.
    rewrite (ext_parent _ _ _ He). apply stored_app in Hs as [Hs _].
    rewrite decide_False
      by (apply (cf_nonzero U HU); apply (tree_in_play bs (l ++ [p])) in Hs; [|done];
          apply Forall_app in Hs as [_ Hs]; by apply Forall_cons in Hs as [Hs _]).
    rewrite length_app in Hf. cbn in Hf.
    destruct (IH p fuel (block_hash b :: br) Hv Hs) as (k & Hk & Hle & Hle' & Htk & Hout); [lia|].
    exists k. rewrite Hk. rewrite (drop_app_le _ [b]) by lia. rewrite (take_app_le _ [b]) by lia.
    rewrite length_app. cbn [length]. split_and!; [|lia|lia|lia|done|].
    + by rewrite fmap_app, <-(assoc_L (++)).
    + intros c [Hc|Hc]%elem_of_app; [by apply Hout|].
      apply list_elem_of_singleton in Hc as ->. intros Hin.
      apply list_elem_of_lookup in Hin as [j Hj]. apply active_index_Some in Hj; [|done].
      congruence.
Qed.

End trees.
