(* ===== verification/ChainInv.v ===== *)
(** * ChainInv: the state machine follows valid chains

    The invariant of [Blockchain] and its preservation by every operation:
    the active chain is a valid chain of [ChainSpec], the running target and
    the UTXO set are the ones that chain determines, and every [expect] of
    the code is met. *)

From S2P Require Import Prelude Types Crypto Params Transaction Block Utxo Blockchain Mempool ChainSpec ChainTree.

(** The active chain [a] of a state, and what the state derives from it. *)
Record follows `{CE : ChainEnv} (bc : Blockchain) (a : list Block) : Prop := {
  fo_chain : (a = [] /\ bc_blocks bc = ∅) \/ valid_chain a;
  fo_stored : stored (bc_blocks bc) a;
  fo_active : bc_active bc = block_hash <$> a;
  fo_target : target_for a = Ok (bc_target bc);
  fo_utxos : same_outputs (bc_utxos bc) (replay a)
}.

Definition orphans_ok `{Primitives} (U : Block -> Prop) (orphans : gmap Hash Block) : Prop :=
  forall h o, orphans !! h = Some o -> h = block_hash o /\ U o.

(** Fork choice: no stored valid chain has more work than the active one. *)
Definition heaviest `{CE : ChainEnv} (bc : Blockchain) : Prop := exists w,
  chain_work bc = Ok w /\
  forall l, valid_chain l -> stored (bc_blocks bc) l -> work_of l <= w.

Record chain_inv `{CE : ChainEnv} (U : Block -> Prop) (bc : Blockchain) : Prop := {
  ci_tree : tree U (bc_blocks bc);
  ci_follows : exists a, follows bc a;
  ci_mempool : mempool_ok bc;
  ci_orphans : orphans_ok U (bc_orphans bc);
  ci_heaviest : heaviest bc
}.

Section prune.
Context `{CE : ChainEnv} {CL : ChainEnvLaws CE}.
Context (U : Block -> Prop) (HU : collision_free U).
Implicit Types (bs : gmap Hash Block) (bc : Blockchain).

(** The targets of a stored chain are in range, so its work is defined. *)
Lemma chain_targets_ok bs l : tree U bs -> valid_chain l -> stored bs l -> Forall target_ok l.
Proof.
  intros Ht Hv Hs. pose proof (tree_in_play U bs l Ht Hs) as Hu.
  apply Forall_lookup. intros i b Hb.
  apply (valid_chain_target (take i l)).
  - rewrite <-take_S_r by done. apply (valid_chain_prefix _ (drop (S i) l)).
    + rewrite (take_S_r l i b Hb). by destruct (take i l).
    + by rewrite take_drop.
  - apply (cf_header U HU). rewrite Forall_lookup in Hu. by apply (Hu i).
Qed.

Lemma follows_work bc a : tree U (bc_blocks bc) -> follows bc a -> chain_work bc = Ok (work_of a).
Proof.
  intros Ht Hf. unfold chain_work. rewrite (fo_active _ _ Hf).
  apply stored_work; [apply Hf|]. destruct (fo_chain _ _ Hf) as [[-> _]|Hv]; [constructor|].
  apply (chain_targets_ok (bc_blocks bc)); [done..|apply Hf].
Qed.

(** Fork choice, stated on the chain a state follows. *)
Lemma heaviest_intro bc a :
  tree U (bc_blocks bc) -> follows bc a ->
  (forall l, valid_chain l -> stored (bc_blocks bc) l -> work_of l <= work_of a) -> heaviest bc.
Proof. intros Ht Hf Hl. exists (work_of a). split; [by apply follows_work|done]. Qed.

Lemma heaviest_elim bc a l :
  chain_inv U bc -> follows bc a -> valid_chain l -> stored (bc_blocks bc) l ->
  work_of l <= work_of a.
Proof.
  intros Hci Hf Hv Hs. destruct (ci_heaviest _ _ Hci) as (w & Hw & Hl).
  rewrite (follows_work bc a (ci_tree _ _ Hci) Hf) in Hw. injection Hw as <-. by apply Hl.
Qed.

Lemma chain_length_le bs l : valid_chain l -> stored bs l -> (length l <= size bs)%nat.
Proof.
  intros Hv Hs. pose proof (chain_hashes_nodup bs l Hv Hs) as Hnd.
  rewrite <-(length_fmap block_hash l), <-(size_list_to_set (C := gset Hash)) by done.
  rewrite <-size_dom. apply subseteq_size. intros h Hh.
  apply elem_of_list_to_set, list_elem_of_fmap in Hh as (b & -> & Hb).
  unfold stored in Hs. rewrite Forall_forall in Hs. exact (elem_of_dom_2 _ _ _ (Hs b Hb)).
Qed.

(** The fork point of a stored block: the length of what its ancestry shares
    with the active chain. *)
Definition fork_at (a c : list Block) (k : nat) : Prop :=
  (1 <= k <= length c)%nat /\ (k <= length a)%nat /\ take k c = take k a /\
  (forall x, x ∈ drop k c -> block_hash x ∉ block_hash <$> a).

Lemma trace_stored bs a l b :
  tree U bs -> valid_chain a -> stored bs a ->
  valid_chain (l ++ [b]) -> stored bs (l ++ [b]) ->
  exists k, trace_branch_with_index bs (active_chain_index (block_hash <$> a)) (block_hash b)
            = Some (Ok (k, block_hash <$> drop k (l ++ [b]))) /\ fork_at a (l ++ [b]) k.
Proof.
  intros Ht Hva Hsa Hv Hs. unfold trace_branch_with_index.
  assert (Hu : U b).
  { apply (tree_in_play U bs) in Hs; [|done]. apply Forall_app in Hs as [_ Hs].
    by apply Forall_cons in Hs as [Hs _]. }
  rewrite decide_False by (by apply (cf_nonzero U HU)).
  pose proof (chain_length_le bs _ Hv Hs) as Hl. rewrite length_app in Hl. cbn in Hl.
  destruct (trace_loop_spec U HU bs a l b (S (size bs)) [] Ht Hva Hsa Hv Hs)
    as (k & Hk & H1 & H2 & H3 & H4); [lia|].
  exists k. rewrite Hk, app_nil_r. by split.
Qed.

Lemma fork_at_unique bs a c i k k' :
  stored bs a -> stored bs c -> fork_at a c k -> fork_at a (take (S i) c) k' ->
  (k <= i)%nat -> (i < length c)%nat -> k' = k.
Proof.
  intros Hsa Hsc ((Hk1 & _) & Hka & Htk & Hout) ((Hk1' & Hk2') & Hka' & Htk' & Hout') Hki Hi.
  assert (Hin : forall j, (j < k)%nat -> exists x, c !! j = Some x /\ block_hash x ∈ block_hash <$> a).
  { intros j Hj. destruct (lookup_lt_is_Some_2 a j) as [x Hx]; [lia|].
    exists x. split.
    - rewrite <-(lookup_take_lt c k) by done. by rewrite Htk, lookup_take_lt.
    - apply list_elem_of_fmap. exists x. split; [done|]. by eapply list_elem_of_lookup_2. }
  assert (Hin' : forall j, (j < k')%nat -> exists x, c !! j = Some x /\ block_hash x ∈ block_hash <$> a).
  { intros j Hj. destruct (lookup_lt_is_Some_2 a j) as [x Hx]; [lia|].
    rewrite length_take in Hk2'. exists x. split.
    - assert (Hjx : take k' (take (S i) c) !! j = Some x) by (by rewrite Htk', lookup_take_lt).
      rewrite lookup_take_lt in Hjx by lia. rewrite lookup_take_lt in Hjx by lia. done.
    - apply list_elem_of_fmap. exists x. split; [done|]. by eapply list_elem_of_lookup_2. }
  rewrite length_take in Hk2'.
  destruct (lt_eq_lt_dec k' k) as [[Hlt|]|Hgt]; [|done|].
  - destruct (Hin (k - 1)%nat) as (x & Hx & Hxa); [lia|]. exfalso. apply (Hout' x); [|done].
    apply (list_elem_of_lookup_2 _ (k - 1 - k')). rewrite lookup_drop.
    rewrite lookup_take_lt by lia. by replace (k' + (k - 1 - k'))%nat with (k - 1)%nat by lia.
  - destruct (Hin' (k' - 1)%nat) as (x & Hx & Hxa); [lia|]. exfalso. apply (Hout x); [|done].
    apply (list_elem_of_lookup_2 _ (k' - 1 - k)). rewrite lookup_drop.
    by replace (k + (k' - 1 - k))%nat with (k' - 1)%nat by lia.
Qed.

(** Which stored hashes a prune removes, as a test. *)
Definition is_prunable bc (keep_depth : N) (h : Hash) : bool :=
  let index := active_chain_index (bc_active bc) in
  match index !! h with
  | Some _ => false
  | None =>
      match trace_branch_with_index (bc_blocks bc) index h with
      | Some (Ok (k, _)) => keep_depth <? N.of_nat (length (bc_active bc) - k)
      | _ => false
      end
  end.

Lemma prunable_loop bc d keys acc :
  (forall h, h ∈ keys -> active_chain_index (bc_active bc) !! h = None ->
     exists k br, trace_branch_with_index (bc_blocks bc) (active_chain_index (bc_active bc)) h
                  = Some (Ok (k, br))) ->
  ofold (prunable_step bc d) acc keys
  = Ok (acc ++ base.filter (fun h => is_prunable bc d h = true) keys).
Proof.
  revert acc. induction keys as [|h keys IH]; intros acc Ht; cbn [ofold].
  - by rewrite filter_nil, app_nil_r.
  - assert (E : prunable_step bc d acc h = Ok (if is_prunable bc d h then acc ++ [h] else acc)).
    { unfold prunable_step, is_prunable.
      destruct (active_chain_index (bc_active bc) !! h) eqn:Ei; [done|].
      destruct (Ht h) as (k & br & ->); [by left|done|]. cbn [mbind outcome_bind].
      by destruct (d <? _). }
    rewrite E. cbn [mbind outcome_bind]. rewrite IH by (intros; apply Ht; [by right|done]).
    rewrite filter_cons. destruct (is_prunable bc d h) eqn:Ep.
    + rewrite decide_True by done. by rewrite <-(assoc_L (++)).
    + by rewrite decide_False by done.
Qed.

Lemma lookup_prune bs P h :
  foldl (fun m h => delete h m) bs P !! h = if decide (h ∈ P) then None else bs !! h.
Proof.
  revert bs. induction P as [|x P IH]; intros bs; cbn.
  - by rewrite decide_False by apply not_elem_of_nil.
  - rewrite IH. destruct (decide (h ∈ P)) as [Hin|Hin].
    + by rewrite decide_True by (by right).
    + destruct (decide (h = x)) as [->|Hne].
      * rewrite decide_True by left. apply lookup_delete_eq.
      * rewrite decide_False by (by intros [|]%elem_of_cons). by apply lookup_delete_ne.
Qed.

Lemma active_not_prunable bc a d b :
  follows bc a -> valid_chain a -> b ∈ a -> is_prunable bc d (block_hash b) = false.
Proof.
  intros Hf Hv Hb. unfold is_prunable. rewrite (fo_active _ _ Hf).
  apply list_elem_of_lookup in Hb as [i Hi].
  assert (E : active_chain_index (block_hash <$> a) !! block_hash b = Some i).
  { apply active_index_Some; [by eapply chain_hashes_nodup; [|apply Hf]|].
    by rewrite list_lookup_fmap, Hi. }
  by rewrite E.
Qed.

(** A branch is pruned as a whole: the ancestors of a kept block are kept. *)
Lemma kept_ancestors bc a l b d :
  tree U (bc_blocks bc) -> follows bc a -> valid_chain a ->
  valid_chain (l ++ [b]) -> stored (bc_blocks bc) (l ++ [b]) ->
  is_prunable bc d (block_hash b) = false ->
  Forall (fun c => is_prunable bc d (block_hash c) = false) (l ++ [b]).
Proof.
  intros Ht Hf Hva Hv Hs Hb. apply Forall_forall. intros c Hc.
  pose proof (fo_stored _ _ Hf) as Hsa.
  destruct (trace_stored _ a l b Ht Hva Hsa Hv Hs) as (k & Hk & Hfk).
  apply list_elem_of_lookup in Hc as [i Hi]. pose proof (lookup_lt_Some _ _ _ Hi) as Hlt.
  destruct (decide (i < k)%nat) as [Hik|Hik].
  - apply (active_not_prunable bc a); [done..|]. destruct Hfk as (_ & _ & Htk & _).
    rewrite <-(lookup_take_lt (l ++ [b]) k) in Hi by done. rewrite Htk in Hi.
    rewrite lookup_take_lt in Hi by done. by eapply list_elem_of_lookup_2.
  - assert (Htk : take (S i) (l ++ [b]) = take i (l ++ [b]) ++ [c]) by (by apply take_S_r).
    destruct (trace_stored _ a (take i (l ++ [b])) c Ht Hva Hsa) as (k' & Hk' & Hfk').
    { rewrite <-Htk. apply (valid_chain_prefix _ (drop (S i) (l ++ [b]))); [|by rewrite take_drop].
      rewrite Htk. by destruct (take i (l ++ [b])). }
    { rewrite <-Htk. apply (stored_app _ _ (drop (S i) (l ++ [b]))). by rewrite take_drop. }
    rewrite <-Htk in Hfk'.
    assert (k' = k) as -> by (eapply (fork_at_unique (bc_blocks bc) a (l ++ [b]) i); eauto; lia).
    unfold is_prunable in Hb |- *. rewrite (fo_active _ _ Hf) in Hb |- *.
    destruct (active_chain_index (block_hash <$> a) !! block_hash c) eqn:Ec; [done|].
    rewrite Hk'. rewrite Hk in Hb.
    destruct (active_chain_index (block_hash <$> a) !! block_hash b) as [j|] eqn:Ej; [|done].
    exfalso. apply active_index_Some in Ej; [|by eapply chain_hashes_nodup].
    destruct Hfk as (_ & _ & _ & Hout). apply (Hout b).
    + apply (list_elem_of_lookup_2 _ (length l - k)). rewrite lookup_drop.
      rewrite length_app in Hlt. cbn in Hlt.
      replace (k + (length l - k))%nat with (length l) by lia. by apply list_lookup_middle.
    + by eapply list_elem_of_lookup_2.
Qed.

(** What a prune leaves is a tree: every kept block keeps its ancestry. *)
Lemma pruned_tree bc a d :
  chain_inv U bc -> follows bc a -> valid_chain a ->
  let P := base.filter (fun h => is_prunable bc d h = true) (hashmap_iter (bc_blocks bc)).*1 in
  tree U (foldl (fun m h => delete h m) (bc_blocks bc) P).
Proof.
  intros Hci Hf Hva P.
  assert (HP : forall b, is_prunable bc d (block_hash b) = false -> block_hash b ∉ P).
  { intros b Hb Hin. apply list_elem_of_filter in Hin as [Hin _]. congruence. }
  intros h b Hb. cbn in Hb. rewrite lookup_prune in Hb.
  destruct (decide (h ∈ P)) as [|Hh]; [done|].
  destruct (ci_tree _ _ Hci h b Hb) as (-> & Hu & l & Hv & Hs).
  split_and!; [done..|]. exists l. split; [done|]. unfold stored in *.
  assert (Hn : Forall (fun c => is_prunable bc d (block_hash c) = false) (l ++ [b])).
  2:{ rewrite Forall_forall in Hn, Hs |- *. intros c Hc.
      rewrite lookup_prune, decide_False; [by apply Hs|]. by apply HP, Hn. }
  apply (kept_ancestors bc a); auto; [apply Hci|].
  destruct (is_prunable bc d (block_hash b)) eqn:Ep; [|done]. exfalso. apply Hh.
  apply list_elem_of_filter. split; [done|]. apply list_elem_of_fmap. exists (block_hash b, b).
  split; [done|]. rewrite hashmap_iter_perm. by apply elem_of_map_to_list.
Qed.

Lemma prune_ok bc a d :
  chain_inv U bc -> follows bc a -> valid_chain a ->
  exists bc', prune_side_blocks bc d = Ok bc' /\ chain_inv U bc' /\ follows bc' a /\
    bc_orphans bc' = bc_orphans bc.
Proof.
  intros Hci Hf Hva. unfold prune_side_blocks, prunable_side_blocks.
  rewrite prunable_loop.
  2:{ intros h Hh _. apply list_elem_of_fmap in Hh as ([h' b] & -> & Hb).
      rewrite hashmap_iter_perm in Hb. apply elem_of_map_to_list in Hb. cbn [fst].
      destruct (ci_tree _ _ Hci h' b Hb) as (-> & _ & l & Hv & Hs).
      rewrite (fo_active _ _ Hf).
      destruct (trace_stored _ a l b (ci_tree _ _ Hci) Hva (fo_stored _ _ Hf) Hv Hs)
        as (k & Hk & _). eauto. }
  cbn [mbind outcome_bind app]. eexists. split; [done|].
  set (P := base.filter _ _).
  assert (HP : forall b, is_prunable bc d (block_hash b) = false -> block_hash b ∉ P).
  { intros b Hb Hin. apply list_elem_of_filter in Hin as [Hin _]. congruence. }
  assert (Hkeep : forall l, Forall (fun c => is_prunable bc d (block_hash c) = false) l ->
            stored (bc_blocks bc) l ->
            stored (foldl (fun m h => delete h m) (bc_blocks bc) P) l).
  { intros l Hn Hs. unfold stored in *. rewrite Forall_forall in Hn, Hs |- *.
    intros c Hc. rewrite lookup_prune, decide_False; [by apply Hs|]. by apply HP, Hn. }
  assert (Hfol : follows (with_pending_prunes (with_blocks bc
            (foldl (fun m h => delete h m) (bc_blocks bc) P)) (bc_pending_prunes bc ++ P)) a).
  { split; [by right| |apply Hf..]. apply Hkeep; [|apply Hf].
    apply Forall_forall. intros c Hc. by apply (active_not_prunable bc a). }
  split_and!; [|done|done].
  assert (Htr : tree U (foldl (fun m h => delete h m) (bc_blocks bc) P)).
  { by apply (pruned_tree bc a d). }
  split; [done|by eexists|apply Hci|apply Hci|].
  eapply (heaviest_intro _ a); [|exact Hfol|]; [exact Htr|]. intros l Hv Hs. apply (heaviest_elim bc a); [done..|].
  eapply Forall_impl; [exact Hs|]. intros b Hb. cbn in Hb. rewrite lookup_prune in Hb.
  by case_decide.
Qed.

End prune.
