(* ===== verification/ChainStep.v ===== *)
(** * ChainStep: adding blocks preserves the invariant and never panics

    [add_block_extending_tip], [add_block_off_tip] with its reorganisation,
    and [add_block] with the orphans it attaches. *)

From S2P Require Import Prelude Types Crypto Params Transaction Block Utxo Blockchain Mempool ChainSpec ChainTree ChainInv.

Section step.
Context `{CE : ChainEnv} {CL : ChainEnvLaws CE}.
Context (U : Block -> Prop) (HU : collision_free U).
Implicit Types (bs : gmap Hash Block) (bc : Blockchain) (b : Block).

(** ** Transport along operations that leave the chain alone *)
Lemma mem_only_follows bc bc' a : mem_only bc bc' -> follows bc a -> follows bc' a.
Proof.
  intros [H1 H2 H3 H4 H5 H6 H7] [F1 F2 F3 F4 F5].
  split; rewrite ?H2, ?H3, ?H4; auto. by rewrite <-H1.
Qed.

Lemma mem_only_inv bc bc' :
  mem_only bc bc' -> mempool_ok bc' -> chain_inv U bc -> chain_inv U bc'.
Proof.
  intros Hm Hok [C1 [a C2] _ C4 C5]. split; [|exists a|done| |].
  - by rewrite (mo_blocks _ _ Hm).
  - by eapply mem_only_follows.
  - by rewrite (mo_orphans _ _ Hm).
  - unfold heaviest, chain_work in *. by rewrite (mo_blocks _ _ Hm), (mo_active _ _ Hm).
Qed.

(** Storing one more valid block. *)
Lemma blocks_insert_subseteq bs b :
  tree U bs -> U b -> bs ⊆ <[block_hash b := b]> bs.
Proof.
  intros Ht Hu. destruct (bs !! block_hash b) as [b'|] eqn:E.
  - destruct (Ht _ _ E) as (Hh & Hu' & _). assert (b' = b) as -> by (by apply (cf_inj U HU)).
    by rewrite insert_id.
  - by apply insert_subseteq.
Qed.

Lemma tree_insert bs l b :
  tree U bs -> U b -> valid_chain (l ++ [b]) -> stored bs l ->
  tree U (<[block_hash b := b]> bs) /\ stored (<[block_hash b := b]> bs) (l ++ [b]).
Proof.
  intros Ht Hu Hv Hs. pose proof (blocks_insert_subseteq bs b Ht Hu) as Hsub.
  assert (Hs' : stored (<[block_hash b := b]> bs) (l ++ [b])).
  { apply stored_app. split; [by eapply stored_mono|].
    constructor; [apply lookup_insert_eq|constructor]. }
  split; [|done]. intros h c Hc. destruct (decide (h = block_hash b)) as [->|Hne].
  - rewrite lookup_insert_eq in Hc. injection Hc as <-. split_and!; [done..|]. by exists l.
  - rewrite lookup_insert_ne in Hc by done. destruct (Ht h c Hc) as (-> & Huc & lc & Hvc & Hsc).
    split_and!; [done..|]. exists lc. split; [done|]. by eapply stored_mono.
Qed.

(** The chains a new block adds: its own and no other, since a stored child
    would have brought its parent along. *)
Lemma stored_insert_inv bs c b l :
  tree U bs -> U b -> valid_chain (c ++ [b]) -> stored bs c ->
  valid_chain l -> stored (<[block_hash b := b]> bs) l -> stored bs l \/ l = c ++ [b].
Proof.
  intros Ht Hu Hvc Hsc Hv Hs. destruct (tree_insert bs c b Ht Hu Hvc Hsc) as [Ht' Hs'].
  destruct l as [|x l _] using rev_ind; [by apply valid_chain_nonempty in Hv|].
  pose proof (stored_last _ _ _ Hs) as Hx. destruct (decide (block_hash x = block_hash b)) as [E|Hne].
  - rewrite E, lookup_insert_eq in Hx. injection Hx as <-. right. f_equal.
    by apply (ancestry_unique U HU _ l c b Ht').
  - rewrite lookup_insert_ne in Hx by done. left.
    destruct (Ht _ _ Hx) as (_ & _ & l' & Hv' & Hsl').
    assert (l' = l) as <-; [|done].
    apply (ancestry_unique U HU _ l' l x Ht'); [done..| |done].
    by eapply stored_mono; [apply blocks_insert_subseteq|].
Qed.

(** Storing one more block keeps the fork choice when the chain followed
    afterwards has the work of the old one and of the new block's. *)
Lemma insert_outweighed bc a c b w :
  chain_inv U bc -> follows bc a -> U b -> valid_chain (c ++ [b]) -> stored (bc_blocks bc) c ->
  work_of a <= w -> work_of (c ++ [b]) <= w ->
  forall l, valid_chain l -> stored (<[block_hash b := b]> (bc_blocks bc)) l -> work_of l <= w.
Proof.
  intros Hci Hf Hu Hv Hs Hle Hle' l Hvl Hsl.
  apply (stored_insert_inv _ c b) in Hsl as [Hsl| ->]; [|done|apply Hci|done..].
  etrans; [|exact Hle]. by apply (heaviest_elim U HU bc).
Qed.

Lemma heaviest_insert bc bc' a c a' b :
  chain_inv U bc -> follows bc a -> U b -> valid_chain (c ++ [b]) -> stored (bc_blocks bc) c ->
  bc_blocks bc' = <[block_hash b := b]> (bc_blocks bc) -> follows bc' a' ->
  work_of a <= work_of a' -> work_of (c ++ [b]) <= work_of a' -> heaviest bc'.
Proof.
  intros Hci Hf Hu Hv Hs Hb Hf' Hle Hle'. apply (heaviest_intro U HU _ a'); [|done|].
  - rewrite Hb. by apply (tree_insert _ c b); [apply Hci|..].
  - rewrite Hb. by apply (insert_outweighed bc a c b).
Qed.

(** ** The running target *)
Lemma try_adjust_follow bc a b :
  bc_active bc = block_hash <$> a ++ [b] -> stored (bc_blocks bc) (a ++ [b]) ->
  target_for a = Ok (bc_target bc) ->
  exists t, try_adjust_target bc = Ok (with_target bc t) /\ target_for (a ++ [b]) = Ok t.
Proof.
  intros Hact Hs Ht. unfold try_adjust_target.
  destruct (bc_active bc) as [|x act] eqn:Ea; [by destruct a|]. rewrite <-Ea in *. clear x act Ea.
  unfold block_height. rewrite Hact, length_fmap, length_app. cbn [length].
  rewrite Nat.add_1_r. rewrite target_for_snoc.
  assert (Hmod : (N.of_nat (S (length a)) mod DIFFICULTY_UPDATE_INTERVAL =? 0)
                 = (S (length a) mod 50 =? 0)%nat).
  { change DIFFICULTY_UPDATE_INTERVAL with (N.of_nat 50). rewrite <-Nat2N.inj_mod.
    apply eq_iff_eq_true. rewrite N.eqb_eq, Nat.eqb_eq. lia. }
  rewrite Hmod. destruct (Nat.eqb_spec (S (length a) mod 50) 0) as [Hm|Hm]; cbn [negb].
  - assert (Hge : (50 <= S (length a))%nat).
    { destruct (decide (50 <= S (length a))%nat); [done|]. rewrite Nat.mod_small in Hm by lia. done. }
    change (N.to_nat DIFFICULTY_UPDATE_INTERVAL) with 50%nat.
    rewrite !stored_time by (try done; rewrite length_app; cbn; lia).
    replace (S (length a) - 1)%nat with (length a) by lia.
    destruct (block_time_total (a ++ [b]) (S (length a) - 50)) as [s ->]; [rewrite length_app; cbn; lia|].
    destruct (block_time_total (a ++ [b]) (length a)) as [e ->]; [rewrite length_app; cbn; lia|].
    rewrite Ht. cbn [mbind outcome_bind]. destruct (target_for_total a) as (t & Ht' & Hle).
    rewrite Ht in Ht'. injection Ht' as <-. rewrite adjust_target_Ok by done.
    cbn [mbind outcome_bind]. eauto.
  - exists (bc_target bc). split; [|done]. by destruct bc.
Qed.

(** ** Extending the tip *)
Lemma follows_tip bc a p : follows bc a -> last a = Some p -> tip_hash bc = block_hash p.
Proof.
  intros Hf Hl. unfold tip_hash. rewrite (fo_active _ _ Hf), fmap_last, Hl. done.
Qed.

Lemma tip_parent_time bc a b last_block tip :
  follows bc a -> last (bc_active bc) = Some tip -> bc_blocks bc !! tip = Some last_block ->
  last a = Some last_block /\ tip = block_hash last_block.
Proof.
  intros Hf Hl Hb. rewrite (fo_active _ _ Hf), fmap_last in Hl.
  destruct (last a) as [p|] eqn:Ep; [|done]. cbn in Hl. injection Hl as <-.
  pose proof (fo_stored _ _ Hf) as Hs. unfold stored in Hs. rewrite Forall_forall in Hs.
  assert (Hp : p ∈ a) by (by apply last_Some_elem_of).
  rewrite (Hs p Hp) in Hb. by injection Hb as <-.
Qed.

(** The checks of [add_block_extending_tip] amount to a valid extension. *)
Lemma extending_tip_valid bc a b now :
  follows bc a -> U b -> prev_block_hash (header b) = tip_hash bc ->
  check_extending_tip now bc b = Ok tt -> valid_chain (a ++ [b]).
Proof.
  intros Hf Hu Hprev Hadd. unfold check_extending_tip in Hadd.
  apply bind_Ok in Hadd as ([] & H1 & Hadd). apply bind_Ok in Hadd as ([] & H2 & Hadd).
  apply bind_Ok in Hadd as ([] & H3 & Hadd). apply bind_Ok in Hadd as ([] & H4 & Hadd).
  apply bind_Ok in Hadd as ([] & H5 & Hadd). apply bind_Ok in Hadd as (root & H6 & Hadd).
  apply bind_Ok in Hadd as ([] & H7 & Hadd). apply bind_Ok in Hadd as ([] & H8 & H9).
  apply guard_Ok in H1, H2, H3, H7. apply N.eqb_eq in H2, H7. subst root.
  destruct (last (bc_active bc)) as [tip|] eqn:El.
  - inv_ok. destruct (tip_parent_time bc a b r tip Hf El Hr) as [Hp ->].
    apply Z.ltb_lt in H8. apply vc_extend with (p := r).
    + destruct (fo_chain _ _ Hf) as [[-> _]|]; [done|done].
    + apply verify_transactions_sound in H9 as (cb & rest & Hv).
      split; [done| |done| |done|done|done|].
      * by rewrite Hprev, (follows_tip bc a r).
      * by rewrite H2, (fo_target _ _ Hf).
      * exists cb, rest. eapply valid_transactions_same; [apply Hf|].
        unfold block_height in Hv. by rewrite (fo_active _ _ Hf), length_fmap in Hv.
  - apply last_None in El. pose proof El as El'. rewrite (fo_active _ _ Hf) in El'.
    apply fmap_nil_inv in El'. subst a.
    rewrite bool_decide_eq_true_2 in H1 by done.
    cbn in H1. rewrite negb_involutive in H1. apply N.eqb_eq in H1.
    assert (b = genesis_block) as -> by (apply (cf_inj U HU); auto; apply HU). constructor.
Qed.

Lemma check_extending_no_panic bc b now :
  chain_inv U bc -> U b -> check_extending_tip now bc b <> Panic.
Proof.
  intros Hci Hu. destruct (ci_follows _ _ Hci) as [a Hf]. unfold check_extending_tip.
  do 3 (apply bind_not_Panic; [apply guard_not_Panic|intros _ _]).
  do 2 (apply bind_not_Panic; [apply guard_not_Panic|intros _ _]).
  apply bind_not_Panic.
  { destruct (Merkle.calculate_total (E := BtcError) (transactions b)) as [r ->]; [|done].
    by apply (cf_transactions U HU). }
  intros root _. apply bind_not_Panic; [apply guard_not_Panic|intros _ _].
  apply bind_not_Panic; [|intros; apply verify_transactions_no_panic].
  destruct (last (bc_active bc)) as [tip|] eqn:El; [|done].
  rewrite (fo_active _ _ Hf), fmap_last in El. destruct (last a) as [p|] eqn:Ep; [|done].
  cbn in El. injection El as <-.
  pose proof (fo_stored _ _ Hf) as Hs. unfold stored in Hs. rewrite Forall_forall in Hs.
  rewrite (Hs p) by (by apply last_Some_elem_of). apply guard_not_Panic.
Qed.

(** After the checks: apply, store, retarget and prune succeed. *)
Lemma commit_extending_ok bc a b now :
  chain_inv U bc -> follows bc a -> U b -> valid_chain (a ++ [b]) ->
  exists bc', commit_extending_tip now bc b = Ok (block_hash b, bc') /\
    chain_inv U bc' /\ follows bc' (a ++ [b]) /\ bc_orphans bc' = bc_orphans bc.
Proof.
  intros Hci Hf Hu Hv. unfold commit_extending_tip. cbv zeta.
  set (bc1 := apply_block now bc b).
  assert (Hm : mem_only (with_utxos bc (apply_transactions (bc_utxos bc) (transactions b))) bc1)
    by (apply evict_stale_mem_only).
  assert (Hb1 : bc_blocks bc1 = bc_blocks bc) by (by rewrite (mo_blocks _ _ Hm)).
  assert (Ha1 : bc_active bc1 = bc_active bc) by (by rewrite (mo_active _ _ Hm)).
  assert (Ht1 : bc_target bc1 = bc_target bc) by (by rewrite (mo_target _ _ Hm)).
  assert (Ho1 : bc_orphans bc1 = bc_orphans bc) by (by rewrite (mo_orphans _ _ Hm)).
  assert (Hu1 : same_outputs (bc_utxos bc1) (replay (a ++ [b]))).
  { rewrite replay_snoc. etrans; [symmetry; apply Hm|]. cbn. by rewrite (fo_utxos _ _ Hf). }
  assert (Hok1 : mempool_ok bc1) by apply evict_stale_ok.
  clearbody bc1. clear Hm.
  destruct (tree_insert (bc_blocks bc) a b (ci_tree _ _ Hci) Hu Hv (fo_stored _ _ Hf)) as [Ht Hs].
  rewrite Hb1, Ha1.
  set (bc2 := with_active (with_blocks bc1 (<[block_hash b := b]> (bc_blocks bc)))
                (bc_active bc ++ [block_hash b])).
  assert (Hact2 : bc_active bc2 = block_hash <$> a ++ [b])
    by (cbn; by rewrite (fo_active _ _ Hf), fmap_app).
  destruct (try_adjust_follow bc2 a b Hact2 Hs) as (t & Hadj & Htar).
  { cbn. by rewrite Ht1, <-(fo_target _ _ Hf). }
  rewrite Hadj. cbn [mbind outcome_bind].
  assert (Hf3 : follows (with_target bc2 t) (a ++ [b])) by (split; [by right|done..]).
  assert (Hci3 : chain_inv U (with_target bc2 t)).
  { split; [done|by eexists|done|cbn; rewrite Ho1; apply Hci|].
    eapply (heaviest_insert bc _ a a); try done; [apply Hf|apply work_of_snoc]. }
  destruct (block_height _ mod _ =? 0).
  - destruct (prune_ok U HU _ (a ++ [b]) SIDE_BRANCH_PRUNE_DEPTH Hci3 Hf3 Hv)
      as (bc4 & Hp & Hci4 & Hf4 & Ho). rewrite Hp. cbn [mbind outcome_bind].
    exists bc4. split_and!; [done..|]. by rewrite Ho.
  - cbn [mbind outcome_bind]. eexists. by split_and!.
Qed.

(** ** Reorganisations *)
Lemma readmit_all now bc txs :
  mempool_ok bc ->
  exists bc', ofold (readmit now) bc txs = Ok bc' /\ mem_only bc bc' /\ mempool_ok bc'.
Proof.
  revert bc. induction txs as [|tx txs IH]; intros bc Hok; [by exists bc|].
  cbn [ofold]. unfold readmit at 2.
  destruct (add_to_mempool now bc tx) as [bc1 r] eqn:E.
  apply add_to_mempool_spec in E as (Hm & Hok1 & Hr & _); [|done].
  destruct (IH bc1 Hok1) as (bc' & Hf & Hm' & Hok').
  exists bc'. split_and!; [|by etrans|done]. by destruct r.
Qed.

Lemma mark_all_mem_only bc txs : mem_only bc (foldl mark_transaction_utxos bc txs) /\
  bc_mempool (foldl mark_transaction_utxos bc txs) = bc_mempool bc.
Proof.
  revert bc. induction txs as [|tx txs IH]; intros bc; [done|]. cbn [foldl].
  destruct (IH (mark_transaction_utxos bc tx)) as [Hm Hp]. split; [|done].
  etrans; [|exact Hm]. split; try done. cbn. symmetry. apply set_marks_same.
Qed.

(** Everything [reorg_to] needs of its target chain: it is valid and stored. *)
Lemma reorg_ok bc a c fork now :
  tree U (bc_blocks bc) -> orphans_ok U (bc_orphans bc) -> stored (bc_blocks bc) a ->
  bc_active bc = block_hash <$> a -> valid_chain c -> stored (bc_blocks bc) c ->
  (forall l, valid_chain l -> stored (bc_blocks bc) l -> work_of l <= work_of c) ->
  exists bc', reorg_to now bc fork (block_hash <$> c) = Ok bc' /\
    chain_inv U bc' /\ follows bc' c /\ bc_orphans bc' = bc_orphans bc.
Proof.
  intros Ht Ho Hsa Ha Hv Hs Hw. unfold reorg_to. rewrite Ha.
  rewrite <-fmap_drop, stored_blocks_of; cbn [mbind outcome_bind].
  2:{ rewrite <-(take_drop fork a) in Hsa. by apply stored_app in Hsa as [_ Hsa]. }
  cbn [with_active bc_blocks bc_active]. rewrite (stored_target _ _ Hs).
  destruct (target_for_total c) as (t & Htar & _). rewrite Htar. cbn [mbind outcome_bind].
  unfold sync_mempool_with_active_chain, rebuild_utxos.
  cbn [with_target with_active bc_blocks bc_active].
  rewrite (stored_blocks_of _ _ Hs), (stored_replay _ _ Hs). cbn [mbind outcome_bind].
  set (bc1 := with_utxos _ (replay c)).
  assert (Hf1 : follows bc1 c) by (split; [by right|done..]).
  pose proof (evict_stale_mem_only now (list_to_set (transaction_hash <$>
    concat (transactions <$> c))) bc1) as Hm2.
  pose proof (evict_stale_ok now (list_to_set (transaction_hash <$>
    concat (transactions <$> c))) bc1) as Hok2.
  set (bc2 := evict_stale_mempool_entries _ _ bc1) in *.
  destruct (mark_all_mem_only bc2 (bc_mempool bc2).*2) as [Hm3 Hp3].
  set (bc3 := foldl mark_transaction_utxos bc2 _) in *.
  assert (Hok3 : mempool_ok bc3)
    by (eapply mempool_ok_incl; [apply Hm3| |exact Hok2]; by rewrite Hp3).
  destruct (readmit_all now bc3 (concat ((fun b => tail (transactions b)) <$> drop fork a)) Hok3)
    as (bc4 & Hr & Hm4 & Hok4).
  rewrite Hr. exists bc4.
  assert (Hm : mem_only bc1 bc4) by (etrans; [exact Hm2|]; by etrans).
  assert (Hf4 : follows bc4 c) by (by eapply mem_only_follows).
  split_and!; [done| |done|by rewrite (mo_orphans _ _ Hm)].
  split; [by rewrite (mo_blocks _ _ Hm)|by eexists|done|by rewrite (mo_orphans _ _ Hm)|].
  apply (heaviest_intro U HU _ c); [by rewrite (mo_blocks _ _ Hm)|done|].
  intros l. rewrite (mo_blocks _ _ Hm). apply Hw.
Qed.

End step.

(** * ChainAdd: side branches, orphans, and the whole of [add_block]

    Preservation of the chain invariant by [add_block_off_tip] and by the
    mutual recursion of [add_block] and [try_attach_orphans], whose fuel is
    shown to be enough: attached orphans are nested by strictly increasing
    timestamps, so the nesting is no deeper than the orphan pool. *)

Section off_tip.
Context `{CE : ChainEnv} {CL : ChainEnvLaws CE}.
Context (U : Block -> Prop) (HU : collision_free U).
Implicit Types (bs : gmap Hash Block) (bc : Blockchain) (b : Block).

(** A state with a stored block has a non-empty active chain. *)
Lemma follows_valid bc a h b :
  follows bc a -> bc_blocks bc !! h = Some b -> valid_chain a.
Proof. intros Hf Hb. destruct (fo_chain _ _ Hf) as [[_ E]|]; [|done]. by rewrite E in Hb. Qed.

(** The traced parent chain is the parent's ancestry. *)
Lemma traced_parent bc a p h :
  chain_inv U bc -> follows bc a -> bc_blocks bc !! h = Some p ->
  exists c k, trace_branch bc h = Some (Ok (k, block_hash <$> drop k (c ++ [p]))) /\
    h = block_hash p /\ valid_chain (c ++ [p]) /\ stored (bc_blocks bc) (c ++ [p]) /\
    take k (bc_active bc) ++ (block_hash <$> drop k (c ++ [p])) = block_hash <$> c ++ [p].
Proof.
  intros Hci Hf Hp. pose proof (follows_valid _ _ _ _ Hf Hp) as Hva.
  destruct (ci_tree _ _ Hci h p Hp) as (-> & _ & c & Hv & Hs).
  destruct (trace_stored U HU _ a c p (ci_tree _ _ Hci) Hva (fo_stored _ _ Hf) Hv Hs)
    as (k & Hk & (_ & _ & Htk & _)).
  exists c, k. unfold trace_branch. rewrite (fo_active _ _ Hf), Hk. split_and!; [done..|].
  by rewrite <-fmap_take, <-Htk, <-fmap_app, take_drop.
Qed.

Lemma check_off_tip_ok bc a p b now :
  chain_inv U bc -> follows bc a -> U b ->
  bc_blocks bc !! prev_block_hash (header b) = Some p ->
  check_off_tip now bc b <> Panic /\
  forall k chain, check_off_tip now bc b = Ok (k, chain) ->
    exists c, chain = block_hash <$> c /\ stored (bc_blocks bc) c /\ valid_chain c /\ extends c p b.
Proof.
  intros Hci Hf Hu Hp. destruct (traced_parent bc a p _ Hci Hf Hp)
    as (c & k & Htr & Hh & Hv & Hs & Hcand).
  unfold check_off_tip. rewrite Htr. cbn [expect mbind outcome_bind].
  rewrite Hcand, (stored_target _ _ Hs).
  destruct (target_for_total (c ++ [p])) as (t & Ht & _). rewrite Ht. cbn [mbind outcome_bind].
  rewrite fmap_last, last_snoc, (stored_replay _ _ Hs). cbn [fmap option_fmap option_map].
  rewrite (stored_last _ _ _ Hs). cbn [expect mbind outcome_bind].
  destruct (Merkle.calculate_total (E := BtcError) (transactions b)) as [root Hroot];
    [by apply (cf_transactions U HU)|]. rewrite Hroot. cbn [mbind outcome_bind].
  rewrite length_fmap. split.
  - do 3 (apply bind_not_Panic; [apply guard_not_Panic|intros _ _]).
    apply bind_not_Panic; [apply guard_not_Panic|intros _ _].
    apply bind_not_Panic.
    { apply bind_not_Panic; [apply guard_not_Panic|intros _ _; apply guard_not_Panic]. }
    intros _ _. apply bind_not_Panic; [apply verify_transactions_no_panic|done].
  - intros k' chain Hc. apply bind_Ok in Hc as ([] & H1 & Hc). apply bind_Ok in Hc as ([] & H2 & Hc).
    apply bind_Ok in Hc as ([] & H3 & Hc). apply bind_Ok in Hc as ([] & _ & Hc).
    apply bind_Ok in Hc as ([] & H4 & Hc). apply bind_Ok in H4 as ([] & H4 & H5).
    apply bind_Ok in Hc as ([] & H6 & Hc). apply Ok_inj in Hc. injection Hc as <- <-.
    apply guard_Ok in H1, H2, H4, H5. apply N.eqb_eq in H1, H4. apply Z.ltb_lt in H5.
    exists (c ++ [p]). split_and!; [done..|].
    split; [by rewrite last_snoc|by rewrite Hh|done|by rewrite Ht, H1|done|done|by rewrite Hroot, H4|].
    by apply verify_transactions_sound in H6.
Qed.

Lemma store_off_tip_ok bc a c p b k now :
  chain_inv U bc -> follows bc a -> U b -> valid_chain a -> valid_chain c ->
  stored (bc_blocks bc) c -> extends c p b ->
  exists bc', store_off_tip now bc b k (block_hash <$> c) = Ok (block_hash b, bc') /\
    chain_inv U bc' /\ bc_orphans bc' = bc_orphans bc /\
    follows bc' (if work_of a <? work_of (c ++ [b]) then c ++ [b] else a).
Proof.
  intros Hci Hf Hu Hva Hvc Hsc He.
  assert (Hv : valid_chain (c ++ [b])) by (by eapply vc_extend).
  destruct (tree_insert U HU (bc_blocks bc) c b (ci_tree _ _ Hci) Hu Hv Hsc) as [Ht Hs].
  pose proof (stored_mono _ _ _ (blocks_insert_subseteq U HU _ b (ci_tree _ _ Hci) Hu)
    (fo_stored _ _ Hf)) as Hsa.
  unfold store_off_tip. cbv zeta. cbn [with_blocks bc_blocks].
  replace ((block_hash <$> c) ++ [block_hash b]) with (block_hash <$> c ++ [b])
    by (by rewrite fmap_app).
  rewrite (stored_work _ _ Hs) by (by eapply (chain_targets_ok U HU)).
  unfold chain_work. cbn [with_blocks bc_blocks bc_active mbind outcome_bind].
  rewrite (fo_active _ _ Hf), (stored_work _ _ Hsa) by (by eapply (chain_targets_ok U HU)).
  cbn [mbind outcome_bind]. destruct (N.ltb_spec (work_of a) (work_of (c ++ [b]))) as [Hlt|Hge].
  - destruct (reorg_ok U HU (with_blocks bc (<[block_hash b := b]> (bc_blocks bc))) a (c ++ [b]) k now)
      as (bc' & Hr & Hci' & Hf' & Ho'); try done; [apply Hci|apply Hf| |].
    { cbn. by apply (insert_outweighed U HU bc a c b); [..|lia|]. }
    rewrite Hr. cbn [mbind outcome_bind]. by exists bc'.
  - cbn [mbind outcome_bind]. eexists. split; [done|].
    assert (Hf' : follows (with_blocks bc (<[block_hash b := b]> (bc_blocks bc))) a)
      by (split; [by right|done|apply Hf..]).
    split_and!; [|done|done]. split; [done|by eexists|apply Hci|apply Hci|].
    by apply (heaviest_insert U HU bc _ a c a b).
Qed.

(** ** Fork choice: how a step may move the active chain *)
Definition advances bc bc' : Prop := exists w w',
  chain_work bc = Ok w /\ chain_work bc' = Ok w' /\ w <= w' /\
  (bc_active bc `prefix_of` bc_active bc' \/ w < w').

Lemma advances_trans bc1 bc2 bc3 : advances bc1 bc2 -> advances bc2 bc3 -> advances bc1 bc3.
Proof.
  intros (w1 & w2 & H1 & H2 & Hle & Hp) (w2' & w3 & H2' & H3 & Hle' & Hp').
  rewrite H2 in H2'. injection H2' as <-. exists w1, w3. split_and!; [done..|lia|].
  destruct Hp as [Hp|], Hp' as [Hp'|]; [|right; lia..]. left. by etrans.
Qed.

(** A step that leaves the stored blocks and the active chain alone. *)
Lemma advances_same bc bc' :
  chain_inv U bc -> bc_blocks bc' = bc_blocks bc -> bc_active bc' = bc_active bc ->
  advances bc bc'.
Proof.
  intros Hci Hb Ha. destruct (ci_follows _ _ Hci) as [a Hf].
  pose proof (follows_work U HU bc a (ci_tree _ _ Hci) Hf) as Hw. exists (work_of a), (work_of a).
  split_and!; [done| |lia|by left; rewrite Ha]. unfold chain_work in *. by rewrite Hb, Ha.
Qed.

Lemma advances_follows bc bc' a a' :
  chain_inv U bc -> chain_inv U bc' -> follows bc a -> follows bc' a' ->
  work_of a <= work_of a' -> (a `prefix_of` a' \/ work_of a < work_of a') -> advances bc bc'.
Proof.
  intros Hci Hci' Hf Hf' Hle Hp. exists (work_of a), (work_of a').
  split_and!; [apply (follows_work U HU); [apply Hci|done]|apply (follows_work U HU); [apply Hci'|done]|done|].
  destruct Hp as [Hp|]; [left|by right]. rewrite (fo_active _ _ Hf), (fo_active _ _ Hf').
  destruct Hp as [k ->]. rewrite fmap_app. by apply prefix_app_r.
Qed.

Lemma advances_extend bc bc' a b :
  chain_inv U bc -> chain_inv U bc' -> follows bc a -> follows bc' (a ++ [b]) -> advances bc bc'.
Proof.
  intros Hci Hci' Hf Hf'. eapply advances_follows; try done; [|left; by apply prefix_app_r].
  apply work_of_snoc.
Qed.

Lemma advances_fork bc bc' a c :
  chain_inv U bc -> chain_inv U bc' -> follows bc a ->
  follows bc' (if work_of a <? work_of c then c else a) -> advances bc bc'.
Proof.
  intros Hci Hci' Hf. destruct (N.ltb_spec (work_of a) (work_of c)); intros Hf';
    eapply advances_follows; eauto with lia.
Qed.

(** The active chain has at least the work of the chain a block ends, whose
    other blocks were stored before. *)
Definition outweighs bc b bc' : Prop := exists c w',
  chain_work bc' = Ok w' /\ valid_chain (c ++ [b]) /\ stored (bc_blocks bc) c /\
  work_of (c ++ [b]) <= w'.

Lemma outweighs_later bc b bc1 bc2 : outweighs bc b bc1 -> advances bc1 bc2 -> outweighs bc b bc2.
Proof.
  intros (c & w1 & Hw1 & Hv & Hs & Hle) (w & w2 & Hw & Hw2 & Hle' & _).
  rewrite Hw1 in Hw. injection Hw as <-. exists c, w2. split_and!; [done..|lia].
Qed.

Lemma outweighs_follows bc b bc' a' c :
  chain_inv U bc' -> follows bc' a' -> valid_chain (c ++ [b]) -> stored (bc_blocks bc) c ->
  work_of (c ++ [b]) <= work_of a' -> outweighs bc b bc'.
Proof.
  intros Hci' Hf' Hv Hs Hle. exists c, (work_of a').
  split_and!; [apply (follows_work U HU); [apply Hci'|done]|done..].
Qed.

(** ** One step of [add_block], before orphans *)
Definition add_one (now : DateTime) bc b : Blockchain * outcome BtcError (Hash * Blockchain) :=
  if decide (prev_block_hash (header b) = tip_hash bc)
  then (bc, add_block_extending_tip now bc b)
  else add_block_off_tip now bc b.

Lemma buffer_orphan_inv bc b : chain_inv U bc -> U b -> chain_inv U (buffer_orphan bc b).
Proof.
  intros [C1 [a C2] C3 C4 C5] Hu. unfold buffer_orphan. case_match; [split; eauto|].
  split; [done| |done| |done].
  - exists a. destruct C2. by split.
  - intros h o Ho. cbn in Ho. destruct (decide (h = block_hash b)) as [->|].
    + rewrite lookup_insert_eq in Ho. by injection Ho as <-.
    + rewrite lookup_insert_ne in Ho by done. by apply C4.
Qed.

(** What one step does: it never panics; on success the block is stored with
    an earlier parent and the new active chain is the extension, the old
    one, or the heavier branch; on failure the chain is as before, with at
    most one orphan more. *)
Lemma add_one_spec bc b now bc0 r :
  chain_inv U bc -> U b -> add_one now bc b = (bc0, r) ->
  r <> Panic /\ chain_inv U bc0 /\
  (bc0 = bc \/ bc0 = buffer_orphan bc b /\ r = Err OrphanBlock) /\
  forall hash bc1, r = Ok (hash, bc1) ->
    chain_inv U bc1 /\ hash = block_hash b /\ bc_orphans bc1 = bc_orphans bc /\
    advances bc bc1 /\ outweighs bc b bc1 /\
    (forall p, U p -> prev_block_hash (header b) = block_hash p ->
       (timestamp (header p) < timestamp (header b))%Z).
Proof.
  intros Hci Hu. destruct (ci_follows _ _ Hci) as [a Hf]. unfold add_one. case_decide as Hprev.
  - intros [= <- <-]. unfold add_block_extending_tip.
    pose proof (check_extending_no_panic U HU bc b now Hci Hu) as Hnp.
    destruct (check_extending_tip now bc b) as [[]|e|] eqn:Ec; [|by split_and!; auto|done].
    pose proof (extending_tip_valid U HU bc a b now Hf Hu Hprev Ec) as Hv.
    destruct (commit_extending_ok U HU bc a b now Hci Hf Hu Hv) as (bc' & Hc & Hci' & Hf' & Ho).
    cbn [mbind outcome_bind]. rewrite Hc. split_and!; [done|done|by left|].
    intros hash bc1 [= <- <-]. split_and!; [done..|by eapply advances_extend|by eapply (outweighs_follows _ _ _ _ a); [..|apply Hf|]|]. intros p Hp Hpp.
    apply valid_chain_snoc_inv in Hv as [[-> ->]|[_ [q He]]].
    + exfalso. apply (cf_nonzero U HU p Hp). rewrite <-Hpp. by destruct genesis_facts as (-> & _).
    + assert (p = q) as ->; [|apply He]. apply (cf_inj U HU); [done| |].
      * pose proof (tree_in_play U _ a (ci_tree _ _ Hci) (fo_stored _ _ Hf)) as Hall.
        rewrite Forall_forall in Hall. apply Hall, last_Some_elem_of, (ext_tip _ _ _ He).
      * by rewrite <-Hpp, (ext_parent _ _ _ He).
  - unfold add_block_off_tip. case_decide; [intros [= <- <-]; by split_and!; auto|].
    destruct (bc_blocks bc !! prev_block_hash (header b)) as [p|] eqn:Ep.
    2:{ intros [= <- <-]. split_and!; [done|by apply buffer_orphan_inv|by right|done]. }
    intros [= <- <-].
    destruct (check_off_tip_ok bc a p b now Hci Hf Hu Ep) as [Hnp Hok].
    destruct (check_off_tip now bc b) as [[k chain]|e|] eqn:Ec; [|by split_and!; auto|done].
    destruct (Hok k chain eq_refl) as (c & -> & Hs & Hv & He).
    destruct (store_off_tip_ok bc a c p b k now Hci Hf Hu (follows_valid _ _ _ _ Hf Ep) Hv Hs He)
      as (bc' & Hst & Hci' & Ho & Hf').
    cbn [mbind outcome_bind]. rewrite Hst. split_and!; [done|done|by left|].
    intros hash bc1 [= <- <-]. split_and!; [done..|by eapply advances_fork| |].
    { eapply (outweighs_follows _ _ _ _ c); [done|exact Hf'|by eapply vc_extend|done|].
      destruct (N.ltb_spec (work_of a) (work_of (c ++ [b]))); lia. }
    intros q Hq Hpq.
    assert (q = p) as ->; [|apply He]. apply (cf_inj U HU); [done| |].
    + by destruct (ci_tree _ _ Hci _ _ Ep) as (_ & ? & _).
    + rewrite <-Hpq. by destruct (ci_tree _ _ Hci _ _ Ep) as (-> & _).
Qed.

End off_tip.

(** ** Attaching orphans *)
Section attach.
Context `{CE : ChainEnv} {CL : ChainEnvLaws CE}.
Context (U : Block -> Prop) (HU : collision_free U).
Implicit Types (bc : Blockchain) (b : Block) (om : gmap Hash Block).

(** The orphans later than a timestamp: the bound on the nesting. *)
Definition later (ts : DateTime) om : gmap Hash Block :=
  base.filter (fun e => (ts < timestamp (header e.2))%Z) om.

Lemma later_subseteq ts om om' : om ⊆ om' -> later ts om ⊆ later ts om'.
Proof. intros Hs. unfold later. by apply map_filter_subseteq_mono. Qed.

Lemma later_strict ts om om' o :
  om ⊆ om' -> om' !! block_hash o = Some o -> (ts < timestamp (header o))%Z ->
  (size (later (timestamp (header o)) om) < size (later ts om'))%nat.
Proof.
  intros Hs Ho Hlt. apply map_subset_size. split.
  - apply map_subseteq_spec. intros h x Hx. apply map_lookup_filter_Some in Hx as [Hx Ht].
    cbn in Ht. apply map_lookup_filter_Some. split; [by eapply lookup_weaken|]. cbn. lia.
  - intros Hsub. assert (Hl : later ts om' !! block_hash o = Some o)
      by (by apply map_lookup_filter_Some).
    eapply lookup_weaken in Hl; [|exact Hsub].
    apply map_lookup_filter_Some in Hl as [_ Hl]. cbn in Hl. lia.
Qed.

(** The pool after an attempt: the old one, with the block itself at most. *)
Definition pool_after om b om' : Prop := om' ⊆ om \/ om' ⊆ <[block_hash b := b]> om.

Lemma buffer_orphan_pool bc b :
  orphans_ok U (bc_orphans bc) -> U b -> pool_after (bc_orphans bc) b (bc_orphans (buffer_orphan bc b)).
Proof. intros Ho Hu. unfold buffer_orphan. case_match; [by left|]. by right. Qed.

Lemma add_block_fuel_step fuel now bc b :
  add_block_fuel (S fuel) now bc b =
  match add_one now bc b with
  | (bc0, Err e) => (bc0, Err e)
  | (bc0, Panic) => (bc0, Panic)
  | (bc0, Ok (hash, bc1)) =>
      let ready := base.filter (fun o => prev_block_hash (header o) = hash)
                     (hashmap_iter (bc_orphans bc1)).*2 in
      match ofold (E := BtcError) (fun bc o =>
              match add_block_fuel fuel now
                      (with_orphans bc (delete (block_hash o) (bc_orphans bc))) o with
              | (_, Panic) => Panic
              | (bc'', _) => Ok bc''
              end) bc1 ready with
      | Ok bc2 => (bc2, Ok tt)
      | Err e => (bc1, Err e)
      | Panic => (bc1, Panic)
      end
  end.
Proof. cbn [add_block_fuel]. unfold add_one. by case_decide. Qed.

Lemma with_orphans_inv bc om :
  chain_inv U bc -> om ⊆ bc_orphans bc -> chain_inv U (with_orphans bc om).
Proof.
  intros [C1 [a C2] C3 C4 C5] Hs. split; [done| |done| |done].
  - exists a. destruct C2. by split.
  - intros h o Ho. apply C4. by eapply lookup_weaken.
Qed.

(** A rejected block leaves the active chain alone. *)
Lemma add_one_advances bc b bc0 (P : Prop) :
  chain_inv U bc -> (bc0 = bc \/ bc0 = buffer_orphan bc b /\ P) -> advances bc bc0.
Proof.
  intros Hci [->|[-> _]]; apply (advances_same U HU); try done;
    unfold buffer_orphan; by case_match.
Qed.

(** What one call with [fuel] units promises. *)
Definition add_block_good (fuel : nat) : Prop := forall now bc b bc' r,
  chain_inv U bc -> U b ->
  (S (size (later (timestamp (header b)) (bc_orphans bc))) < fuel)%nat ->
  add_block_fuel fuel now bc b = (bc', r) ->
  r <> Panic /\ chain_inv U bc' /\ advances bc bc' /\ (r = Ok tt -> outweighs bc b bc') /\
  pool_after (bc_orphans bc) b (bc_orphans bc').

(** One orphan of [try_attach_orphans]: attaching it, on a pool inside the one
    the search looked at, keeps the invariant and stays inside that pool. *)
Lemma attach_one fuel now bco om b o bco' ro :
  add_block_good fuel -> (0 < fuel)%nat -> (S (size (later (timestamp (header b)) om)) <= fuel)%nat ->
  chain_inv U bco -> bc_orphans bco ⊆ om -> om !! block_hash o = Some o ->
  U b -> U o -> prev_block_hash (header o) = block_hash b ->
  add_block_fuel fuel now bco o = (bco', ro) ->
  ro <> Panic /\ chain_inv U bco' /\ advances bco bco' /\ bc_orphans bco' ⊆ om.
Proof.
  intros IH Hpos Hfuel Hci Hsub Hin Hub Huo Hpo Eo.
  destruct (decide (timestamp (header b) < timestamp (header o))%Z) as [Hlt|Hge].
  - pose proof (later_strict _ _ _ o Hsub Hin Hlt) as Hm.
    destruct (IH now bco o bco' ro Hci Huo) as (H1 & H2 & H4 & _ & H3); [lia|done|].
    split_and!; [done..|]. destruct H3 as [H3|H3]; [by etrans|].
    etrans; [exact H3|]. by apply insert_subseteq_l.
  - destruct fuel as [|fuel']; [lia|]. rewrite add_block_fuel_step in Eo.
    destruct (add_one now bco o) as [bcx rx] eqn:Ex.
    destruct (add_one_spec U HU bco o now bcx rx Hci Huo Ex) as (Hnx & Hcix & Hstx & Hokx).
    destruct rx as [[h1 bcy]|ex|]; [|injection Eo as <- <-|done].
    + exfalso. destruct (Hokx h1 bcy eq_refl) as (_ & _ & _ & _ & _ & Ht).
      specialize (Ht b Hub Hpo). lia.
    + split_and!; [done..|by eapply (add_one_advances _ o)|]. destruct Hstx as [->|[-> _]]; [done|].
      unfold buffer_orphan. case_match; [done|]. cbn. by apply insert_subseteq_l.
Qed.

(** The loop of [try_attach_orphans] over the children found for [b]. *)
Lemma attach_loop fuel now om b l : forall bcl,
  add_block_good fuel -> (0 < fuel)%nat -> (S (size (later (timestamp (header b)) om)) <= fuel)%nat ->
  U b ->
  (forall o, o ∈ l -> prev_block_hash (header o) = block_hash b /\
                      om !! block_hash o = Some o /\ U o) ->
  chain_inv U bcl -> bc_orphans bcl ⊆ om ->
  exists bc2, ofold (E := BtcError) (fun bc o =>
      match add_block_fuel fuel now
              (with_orphans bc (delete (block_hash o) (bc_orphans bc))) o with
      | (_, Panic) => Panic
      | (bc'', _) => Ok bc''
      end) bcl l = Ok bc2 /\ chain_inv U bc2 /\ advances bcl bc2 /\ bc_orphans bc2 ⊆ om.
Proof.
  induction l as [|o l IHl]; intros bcl IH Hpos Hfuel Hub Hl Hci Hsub.
  { exists bcl. split_and!; [done..|by apply (advances_same U HU)|done]. }
  cbn [ofold]. destruct (Hl o) as (Hpo & Hin & Huo); [by left|].
  destruct (add_block_fuel fuel now _ o) as [bco' ro] eqn:Eo.
  eapply (attach_one fuel now _ om b o) in Eo as (Hro & Hcio & Hado & Hsubo); try done.
  - assert (Had : advances bcl bco')
      by (eapply advances_trans; [|exact Hado]; by apply (advances_same U HU)).
    destruct (IHl bco') as (bc2 & Hf2 & Hci2 & Had2 & Hsub2);
      [done..|intros; apply Hl; by right|done|done|].
    exists bc2. destruct ro; [| |done]; cbn [mbind outcome_bind];
      (split_and!; [done..|by eapply advances_trans|done]).
  - apply with_orphans_inv; [done|apply delete_subseteq].
  - etrans; [apply delete_subseteq|done].
Qed.

(** [add_block] keeps the invariant and does not panic, given one unit of fuel
    per orphan later than the block and two more. *)
Lemma add_block_fuel_ok fuel : add_block_good fuel.
Proof.
  induction fuel as [|fuel IH]; intros now bc b bc' r Hci Hu Hfuel; [lia|].
  rewrite add_block_fuel_step. destruct (add_one now bc b) as [bc0 r0] eqn:E1.
  destruct (add_one_spec U HU bc b now bc0 r0 Hci Hu E1) as (Hnp & Hci0 & Hst & Hok).
  destruct r0 as [[hash bc1]|e|]; [| |done].
  2:{ intros [= <- <-]. split_and!; [done..|by eapply (add_one_advances _ b)|done|].
      destruct Hst as [->|[-> _]]; [by left|]. apply buffer_orphan_pool; [apply Hci|done]. }
  destruct (Hok hash bc1 eq_refl) as (Hci1 & -> & Ho1 & Had1 & How & Htime). cbv zeta.
  set (ready := base.filter _ _).
  destruct (attach_loop fuel now (bc_orphans bc1) b ready bc1) as (bc2 & Hf & Hci2 & Had2 & Hsub2);
    [done|lia|rewrite Ho1; lia|done| |done|done|].
  { intros o Hin. apply list_elem_of_filter in Hin as [Hp Hin].
    apply list_elem_of_fmap in Hin as ([h o'] & -> & Hin). cbn [snd] in *.
    rewrite hashmap_iter_perm in Hin. apply elem_of_map_to_list in Hin.
    destruct (ci_orphans _ _ Hci1 h o' Hin) as [-> Huo]. auto. }
  rewrite Hf. intros [= <- <-]. split_and!; [done..|by eapply advances_trans|intros _; by eapply outweighs_later|].
  left. by rewrite <-Ho1.
Qed.

Lemma add_block_ok now bc b bc' r :
  chain_inv U bc -> U b -> add_block now bc b = (bc', r) ->
  r <> Panic /\ chain_inv U bc' /\ advances bc bc' /\ (r = Ok tt -> outweighs bc b bc').
Proof.
  intros Hci Hu E. unfold add_block in E.
  apply add_block_fuel_ok in E as (H1 & H2 & H3 & H4 & _); [done..|].
  assert (size (later (timestamp (header b)) (bc_orphans bc)) <= size (bc_orphans bc))%nat; [|lia].
  apply map_subseteq_size, map_filter_subseteq.
Qed.

End attach.
