(* ===== verification/ChainTheorems.v ===== *)
(** * ChainTheorems: what the chain state machine guarantees

    The machine of [Blockchain] as a step relation, its invariant by rule
    induction, and the theorems about every reachable state. *)

From S2P Require Import Prelude Types Crypto Params Transaction Block Utxo Blockchain Mempool ChainSpec ChainTree ChainInv ChainStep.

(** ** The machine

    A step is one call of a public operation: a block of the universe [U],
    good or bad, from a peer or a miner; any transaction; the periodic mempool
    cleanup; a clock correction; the store draining the prune list. *)
Section machine.
Context `{CE : ChainEnv}.
Context (U : Block -> Prop).

Inductive step : Blockchain -> Blockchain -> Prop :=
| step_block now bc b bc' r : U b -> add_block now bc b = (bc', r) -> step bc bc'
| step_transaction now bc tx bc' r : add_to_mempool now bc tx = (bc', r) -> step bc bc'
| step_cleanup now bc : step bc (cleanup_mempool now bc)
| step_offset bc offset : step bc (set_time_offset bc offset)
| step_prunes bc hs bc' : take_pruned_hashes bc = (hs, bc') -> step bc bc'.

Definition reachable (bc : Blockchain) : Prop := rtc step new_blockchain bc.

End machine.

Section invariant.
Context `{CE : ChainEnv} {CL : ChainEnvLaws CE}.
Context (U : Block -> Prop) (HU : collision_free U).
Implicit Types (bc : Blockchain).

Lemma new_blockchain_inv : chain_inv U new_blockchain.
Proof.
  split; [done| |constructor|done|].
  - exists []. split; try done; [by left|constructor].
  - exists 0. split; [done|]. intros l Hv Hs. destruct l as [|b l]; [done|].
    by apply Forall_cons in Hs as [Hs _].
Qed.

(** A step that only touches the clock offset or the prune list. *)
Lemma inert_inv bc bc' :
  bc_utxos bc' = bc_utxos bc -> bc_target bc' = bc_target bc -> bc_blocks bc' = bc_blocks bc ->
  bc_active bc' = bc_active bc -> bc_mempool bc' = bc_mempool bc ->
  bc_orphans bc' = bc_orphans bc -> chain_inv U bc -> chain_inv U bc'.
Proof.
  intros E1 E2 E3 E4 E5 E6 [C1 [a [F1 F2 F3 F4 F5]] C3 C4 C5]. split.
  - by rewrite E3.
  - exists a. split; by rewrite ?E1, ?E2, ?E3, ?E4.
  - unfold mempool_ok. by rewrite E1, E5.
  - by rewrite E6.
  - unfold heaviest, chain_work in *. by rewrite E3, E4.
Qed.

Lemma step_inv bc bc' : chain_inv U bc -> step U bc bc' -> chain_inv U bc' /\ advances bc bc'.
Proof.
  intros Hci. destruct 1 as [now bc b bc' r Hu E|now bc tx bc' r E|now bc|bc off|bc hs bc' E].
  - apply (add_block_ok U HU) in E as (_ & ? & ? & _); done.
  - apply add_to_mempool_spec in E as (Hm & Hok & _); [|apply Hci].
    split; [by eapply mem_only_inv|]. apply (advances_same U HU); [done|apply Hm|apply Hm].
  - pose proof (cleanup_mem_only now bc) as Hm.
    split; [eapply mem_only_inv; [done|apply cleanup_ok, Hci|done]|].
    apply (advances_same U HU); [done|apply Hm|apply Hm].
  - split; [by apply (inert_inv bc)|by apply (advances_same U HU)].
  - injection E as <- <-. split; [by apply (inert_inv bc)|by apply (advances_same U HU)].
Qed.

Lemma steps_inv bc bc' :
  chain_inv U bc -> rtc (step U) bc bc' -> chain_inv U bc' /\ advances bc bc'.
Proof.
  intros Hci Hr. revert Hci. induction Hr as [bc|bc1 bc2 bc3 H1 _ IH]; intros Hci.
  - split; [done|by apply (advances_same U HU)].
  - destruct (step_inv _ _ Hci H1) as [Hci2 Ha]. destruct (IH Hci2) as [Hci3 Ha'].
    split; [done|by eapply advances_trans].
Qed.

Lemma reachable_inv bc : reachable U bc -> chain_inv U bc.
Proof. intros Hr. by apply (steps_inv new_blockchain), Hr; apply new_blockchain_inv. Qed.

(** C1: In every state the node can reach by adding blocks (good, bad, out of order; each
    with transactions and no two with one hash), transactions, cleanups and clock
    corrections, the active chain is a valid chain from the canonical genesis block:
    its hashes name stored blocks, every block satisfies the consensus rules against
    its prefix, the stored target is the one the chain's retargets give, and the UTXO
    set is the replay of the chain up to mempool marks. *)
Theorem reachable_follows_valid_chain bc :
  reachable U bc ->
  exists a, (a = [] \/ valid_chain a) /\
    bc_active bc = block_hash <$> a /\
    blocks_of (bc_blocks bc) (bc_active bc) = Ok a /\
    target_for a = Ok (bc_target bc) /\
    same_outputs (bc_utxos bc) (replay a).
Proof.
  intros Hr. destruct (ci_follows _ _ (reachable_inv bc Hr)) as [a Hf]. exists a.
  split_and!; [|apply Hf| |apply Hf..].
  - destruct (fo_chain _ _ Hf) as [[-> _]|]; auto.
  - rewrite (fo_active _ _ Hf). apply stored_blocks_of, Hf.
Qed.

(** In every reachable state recomputing the target over the stored chain gives the stored
    target, and rebuilding the UTXO set gives the same outputs. *)
Theorem reachable_state_is_recomputable bc :
  reachable U bc ->
  recompute_target_for_chain (bc_blocks bc) (bc_active bc) = Ok (bc_target bc) /\
  exists bc', rebuild_utxos bc = Ok bc' /\ same_outputs (bc_utxos bc') (bc_utxos bc).
Proof.
  intros Hr. destruct (ci_follows _ _ (reachable_inv bc Hr)) as [a Hf].
  rewrite (fo_active _ _ Hf), stored_target by apply Hf. split; [apply Hf|].
  unfold rebuild_utxos. rewrite (fo_active _ _ Hf), stored_replay by apply Hf.
  eexists. split; [done|]. cbn. symmetry. apply Hf.
Qed.

(** C3: In every state reachable with blocks that have transactions and do not collide,
    the value of all unspent outputs is at most what the reward schedule has issued up
    to the chain's height, and at most MAX_SUPPLY, which fits a u64. *)
Theorem reachable_supply_capped bc :
  reachable U bc ->
  total (bc_utxos bc) <= issued (length (bc_active bc)) /\ total (bc_utxos bc) <= MAX_SUPPLY.
Proof.
  intros Hr. destruct (ci_follows _ _ (reachable_inv bc Hr)) as [a Hf].
  rewrite (fo_utxos _ _ Hf), (fo_active _ _ Hf), length_fmap.
  assert (Hle : total (replay a) <= issued (length a)).
  { destruct (fo_chain _ _ Hf) as [[-> _]|Hv]; [done|by apply valid_chain_supply]. }
  split; [done|]. etrans; [exact Hle|apply issued_le_max].
Qed.

(** C33: Adding any non-empty block to a reachable state returns, however many buffered
    orphans it releases: no expectation, index or arithmetic of the block path panics. *)
Theorem add_block_returns now bc b :
  reachable U bc -> U b -> (add_block now bc b).2 <> Panic.
Proof.
  intros Hr Hu. destruct (add_block now bc b) as [bc' r] eqn:E.
  by apply (add_block_ok U HU) in E as (? & _); [|apply reachable_inv|].
Qed.

(** C2: Along any history of blocks in play (which have transactions and do not collide)
    the active chain has at least the work of every valid chain whose blocks are
    stored; a block that is accepted leaves the active chain with at least the work of
    the chain it ends, side branch or not; the work never decreases, and a history
    that leaves it equal only extends the chain: the node switches to a heavier branch
    and, among equals, keeps the one it saw first. *)
Theorem fork_choice_heaviest_first_seen bc bc' :
  reachable U bc -> rtc (step U) bc bc' ->
  exists w w', chain_work bc = Ok w /\ chain_work bc' = Ok w' /\ w <= w' /\
    (w = w' -> bc_active bc `prefix_of` bc_active bc') /\
    (forall l, valid_chain l -> stored (bc_blocks bc') l -> work_of l <= w') /\
    (forall now b bc'', U b -> add_block now bc' b = (bc'', Ok tt) -> outweighs bc' b bc'').
Proof.
  intros Hr Hs. destruct (steps_inv bc bc' (reachable_inv bc Hr) Hs)
    as (Hci & w & w' & Hw & Hw' & Hle & Hp).
  exists w, w'. split_and!; [done..| | |].
  - intros ->. destruct Hp as [|]; [done|lia].
  - destruct (ci_heaviest _ _ Hci) as (w1 & Hw1 & Hl). rewrite Hw' in Hw1. by injection Hw1 as <-.
  - intros now b bc'' Hu E. by apply (add_block_ok U HU) in E as (_ & _ & _ & Ho); [apply Ho|..].
Qed.

(** In every reachable state each pending transaction's inputs are unspent outputs, so
    admission and the fee sort never panic. *)
Theorem mempool_inputs_exist now bc tx :
  reachable U bc ->
  Forall (fun e : DateTime * Transaction =>
            Forall (fun h => h ∈ dom (bc_utxos bc)) (spends e.2)) (bc_mempool bc) /\
  (add_to_mempool now bc tx).2 <> Panic /\ sort_mempool bc <> Panic.
Proof.
  intros Hr. pose proof (ci_mempool _ _ (reachable_inv bc Hr)) as Hok. split_and!; [done| |].
  - destruct (add_to_mempool now bc tx) as [bc' r] eqn:E.
    by apply add_to_mempool_spec in E as (_ & _ & ? & _).
  - by apply sort_mempool_no_panic.
Qed.

End invariant.
