(* ===== verification/ToyChain.v ===== *)
(** * ToyChain: a concrete environment and chain

    An instance of [ChainEnv] over the toy primitives of [Crypto.Toy] that
    satisfies every law, and three blocks on it: the genesis block, a child
    and a heavier branch. The witnesses run the model on them. *)

From S2P Require Import Prelude Types Crypto Params Transaction Block Utxo Blockchain Mempool ChainSpec ChainTree ChainInv ChainStep ChainTheorems.
Import Toy.

Definition seed : Hash := 7.
Definition genesis_coinbase : Transaction :=
  mkTransaction [] [mkOutput (INITIAL_REWARD * 10 ^ 8) 0 (as_bytes seed)].
Definition root_of (txs : list Transaction) : Hash :=
  match Merkle.calculate (E := BtcError) txs with Ok r => r | _ => 0 end.
Definition genesis : Block := Eval vm_compute in
  mkBlock (mkHeader 0 0 zero_hash (root_of [genesis_coinbase]) MIN_TARGET) [genesis_coinbase].

#[export] Instance env : ChainEnv := {
  genesis_block := genesis;
  hashmap_iter := map_to_list;
  scale_target t a b := t * a / b
}.

Lemma mine_at_once now steps h :
  matches_target (header_hash h) (target h) = true -> mine now steps h = (true, h).
Proof. intros E. unfold mine. by rewrite E. Qed.

#[export] Instance env_laws : ChainEnvLaws env.
Proof.
  split; [|done|done]. exists seed, 0%Z. unfold make_genesis.
  assert (E : Merkle.calculate (E := BtcError)
      [mkTransaction [] [mkOutput (INITIAL_REWARD * 10 ^ 8) 0 (verifying_key (as_bytes seed))]]
      = Ok (merkle_root (header genesis))) by (vm_compute; reflexivity).
  rewrite E. cbn [mbind outcome_bind]. rewrite mine_at_once; [reflexivity|].
  vm_compute; reflexivity.
Qed.

(** A block on a parent, whose coinbase pays [k] and which holds [txs]. *)
Definition pays (amount : N) (k : PrivateKey) : Transaction := mkTransaction [] [mkOutput amount 1 k].
Definition block_on (parent : Block) (ts : DateTime) (k : PrivateKey) (txs : list Transaction) : Block :=
  let all := pays 5000000000 k :: txs in
  mkBlock (mkHeader ts 0 (block_hash parent) (root_of all) MIN_TARGET) all.

Definition block_a : Block := Eval vm_compute in block_on genesis (seconds 16) [1] [].
Definition block_b : Block := Eval vm_compute in block_on genesis (seconds 17) [2] [].
Definition block_c : Block := Eval vm_compute in block_on block_b (seconds 33) [2] [].

Definition in_play (b : Block) : Prop := b ∈ [genesis; block_a; block_b; block_c].

Lemma in_play_collision_free : collision_free in_play.
Proof.
  assert (Hd : NoDup (block_hash <$> [genesis; block_a; block_b; block_c]))
    by (apply (bool_decide_unpack _); vm_compute; exact I).
  split.
  - by left.
  - intros b1 b2 H1 H2 E. unfold in_play in *.
    apply list_elem_of_lookup in H1 as [i H1], H2 as [j H2].
    assert (i = j) as ->; [|congruence].
    eapply (NoDup_lookup _ i j (block_hash b1) Hd); rewrite list_lookup_fmap.
    + by rewrite H1.
    + by rewrite H2, E.
  - intros b Hb. unfold in_play in Hb. rewrite !elem_of_cons, elem_of_nil in Hb.
    destruct Hb as [->|[->|[->|[->|[]]]]]; vm_compute; discriminate.
  - intros b Hb. unfold in_play in Hb. rewrite !elem_of_cons, elem_of_nil in Hb.
    destruct Hb as [->|[->|[->|[->|[]]]]]; vm_compute; discriminate.
  - intros b Hb. unfold in_play in Hb. rewrite !elem_of_cons, elem_of_nil in Hb.
    by destruct Hb as [->|[->|[->|[->|[]]]]].
Qed.

(** The states after the genesis block, its child, the orphan [block_c] and
    then its parent [block_b]: the last one is a reorganisation. *)
Definition run (bc : Blockchain) (b : Block) : Blockchain := (add_block (seconds 100) bc b).1.
Definition chain1 : Blockchain := Eval vm_compute in run new_blockchain genesis.
Definition chain2 : Blockchain := Eval vm_compute in run chain1 block_a.
Definition chain3 : Blockchain := Eval vm_compute in run chain2 block_c.
Definition chain4 : Blockchain := Eval vm_compute in run chain3 block_b.

Lemma run_step bc b : in_play b -> step in_play bc (run bc b).
Proof.
  intros Hb. unfold run. destruct (add_block (seconds 100) bc b) as [bc' r] eqn:E.
  by eapply step_block.
Qed.

Lemma in_play_all : in_play genesis /\ in_play block_a /\ in_play block_b /\ in_play block_c.
Proof. unfold in_play. rewrite !elem_of_cons. auto 10. Qed.

Lemma chain1_eq : run new_blockchain genesis = chain1.
Proof. vm_compute. reflexivity. Qed.
Lemma chain2_eq : run chain1 block_a = chain2.
Proof. vm_compute. reflexivity. Qed.
Lemma chain3_eq : run chain2 block_c = chain3.
Proof. vm_compute. reflexivity. Qed.
Lemma chain4_eq : run chain3 block_b = chain4.
Proof. vm_compute. reflexivity. Qed.

Lemma chain2_reachable : reachable in_play chain2.
Proof.
  destruct in_play_all as (Hg & Ha & _).
  eapply rtc_l; [apply (run_step _ genesis Hg)|]. rewrite chain1_eq.
  apply rtc_once. rewrite <-chain2_eq. by apply run_step.
Qed.

Lemma chain2_chain4 : rtc (step in_play) chain2 chain4.
Proof.
  destruct in_play_all as (_ & _ & Hb & Hc).
  eapply rtc_l; [apply (run_step _ block_c Hc)|]. rewrite chain3_eq.
  apply rtc_once. rewrite <-chain4_eq. by apply run_step.
Qed.

Lemma chain4_reachable : reachable in_play chain4.
Proof. unfold reachable. transitivity chain2; [apply chain2_reachable|apply chain2_chain4]. Qed.

(** The child first seen leads until the orphan's parent arrives. *)
Example chain2_active : bc_active chain2 = block_hash <$> [genesis; block_a].
Proof. vm_compute. reflexivity. Qed.
Example chain3_buffers : bc_active chain3 = bc_active chain2 /\ size (bc_orphans chain3) = 1%nat.
Proof. split; vm_compute; reflexivity. Qed.
Example chain4_reorganised : bc_active chain4 = block_hash <$> [genesis; block_b; block_c].
Proof. vm_compute. reflexivity. Qed.

(** ** Witnesses of [ChainTheorems] *)
Lemma reachable_follows_valid_chain_witness :
  reachable in_play chain4 /\
  exists a, (a = [] \/ valid_chain a) /\ bc_active chain4 = block_hash <$> a /\
    blocks_of (bc_blocks chain4) (bc_active chain4) = Ok a /\
    target_for a = Ok (bc_target chain4) /\ same_outputs (bc_utxos chain4) (replay a).
Proof.
  split; [exact chain4_reachable|].
  exact (reachable_follows_valid_chain in_play in_play_collision_free chain4 chain4_reachable).
Defined.

Lemma reachable_state_is_recomputable_witness :
  recompute_target_for_chain (bc_blocks chain4) (bc_active chain4) = Ok (bc_target chain4) /\
  exists bc', rebuild_utxos chain4 = Ok bc' /\ same_outputs (bc_utxos bc') (bc_utxos chain4).
Proof.
  exact (reachable_state_is_recomputable in_play in_play_collision_free chain4 chain4_reachable).
Defined.

Lemma reachable_supply_capped_witness :
  total (bc_utxos chain4) <= issued 3 /\ total (bc_utxos chain4) <= MAX_SUPPLY.
Proof.
  exact (reachable_supply_capped in_play in_play_collision_free chain4 chain4_reachable).
Defined.

Lemma add_block_returns_witness : (add_block (seconds 100) chain4 block_a).2 <> Panic.
Proof.
  refine (add_block_returns in_play in_play_collision_free (seconds 100) chain4 block_a
    chain4_reachable _). apply in_play_all.
Defined.

Lemma fork_choice_heaviest_first_seen_witness :
  exists w w', chain_work chain2 = Ok w /\ chain_work chain4 = Ok w' /\ w <= w' /\
    (w = w' -> bc_active chain2 `prefix_of` bc_active chain4) /\
    (forall l, valid_chain l -> stored (bc_blocks chain4) l -> work_of l <= w') /\
    (forall now b bc'', in_play b -> add_block now chain4 b = (bc'', Ok tt) -> outweighs chain4 b bc'').
Proof.
  exact (fork_choice_heaviest_first_seen in_play in_play_collision_free chain2 chain4
    chain2_reachable chain2_chain4).
Defined.

Lemma mempool_inputs_exist_witness :
  Forall (fun e : DateTime * Transaction =>
            Forall (fun h => h ∈ dom (bc_utxos chain4)) (spends e.2)) (bc_mempool chain4) /\
  (add_to_mempool (seconds 100) chain4 genesis_coinbase).2 <> Panic /\
  sort_mempool chain4 <> Panic.
Proof.
  exact (mempool_inputs_exist in_play in_play_collision_free (seconds 100) chain4 genesis_coinbase
    chain4_reachable).
Defined.
