(* ===== verification/ConsensusTheorems.v ===== *)
(** * ConsensusTheorems: the rules a block and a transaction are held to

    Theorems about single operations of the chain: transaction validation
    against its declarative rule, conservation of value, Merkle roots,
    difficulty, admission to the mempool, block templates and the orphan
    pool, with their witnesses on [ToyChain]. *)

From S2P Require Import Prelude Types Crypto Params Transaction Block Utxo Blockchain Mempool ChainSpec ChainTree ChainInv ChainStep ChainTheorems ToyChain.

(** ** Validation *)
Section validation.
Context `{Primitives}.

(** C25: Block transaction validation accepts exactly the blocks that satisfy the
    declarative rule: a first coinbase with no inputs paying reward plus fees, every
    other input present, spent once in the block and signed by its owner, and no
    transaction creating value (for outputs that with the block's reward fit a u64, as
    those of every reachable state do). *)
Theorem verify_transactions_exact b height utxos :
  total utxos + block_reward_at_height height <= U64_MAX ->
  verify_transactions b height utxos = Ok tt <->
  exists coinbase rest, valid_transactions b height utxos coinbase rest.
Proof.
  intros Hcap. split; [apply verify_transactions_sound|].
  intros (cb & rest & Hv). by eapply verify_transactions_complete.
Qed.

(** Applying a block whose transactions verify raises the total of unspent outputs by at
    most the reward of its height. *)
Theorem verified_block_mints_at_most_reward b height utxos :
  verify_transactions b height utxos = Ok tt ->
  total (apply_transactions utxos (transactions b)) <= total utxos + block_reward_at_height height.
Proof. intros (cb & rest & Hv)%verify_transactions_sound. by eapply valid_transactions_total. Qed.

End validation.

(** ** Merkle roots *)
Section merkle.
Context `{Primitives}.

(** Two transaction lists of one length with one Merkle root have the same transaction
    hashes, or a hash collision appears among the pairs hashed. *)
Theorem merkle_root_binds txs1 txs2 r :
  length txs1 = length txs2 ->
  Merkle.calculate (E := BtcError) txs1 = Ok r -> Merkle.calculate (E := BtcError) txs2 = Ok r ->
  transaction_hash <$> txs1 = transaction_hash <$> txs2 \/
  Merkle.collide (Merkle.tree_pairs (length txs1) (transaction_hash <$> txs1))
                 (Merkle.tree_pairs (length txs2) (transaction_hash <$> txs2)).
Proof.
  intros Hl H1 H2. unfold Merkle.calculate in *. inv_ok. rewrite !length_fmap in *.
  assert (Hred : forall txs, length txs = length txs1 -> head (Merkle.reduce (length txs)
      (transaction_hash <$> txs)) = Some r ->
      Merkle.reduce (length txs1) (transaction_hash <$> txs) = [r]).
  { intros txs E Hh. destruct (Merkle.reduce_singleton (length txs1) (transaction_hash <$> txs))
      as [x Hx]; [by destruct txs|rewrite length_fmap; lia|].
    rewrite E, Hx in Hh. rewrite Hx. cbn in Hh. congruence. }
  rewrite <-Hl. apply Merkle.reduce_inj; [by rewrite !length_fmap|].
  by rewrite (Hred txs1), (Hred txs2).
Qed.

Lemma next_layer_app_even l l' k :
  length l = (2 * k)%nat -> Merkle.next_layer (l ++ l') = Merkle.next_layer l ++ Merkle.next_layer l'.
Proof.
  revert l. induction k as [|k IH]; intros [|x [|y l]] Hl; cbn in *; try lia; [done|].
  rewrite IH by lia. done.
Qed.

(** Repeating the last transaction of an odd list keeps the Merkle root. *)
Theorem merkle_root_duplicate_last txs tx k :
  length txs = (2 * S k)%nat ->
  Merkle.calculate (E := BtcError) (txs ++ [tx]) = Merkle.calculate (txs ++ [tx; tx]).
Proof.
  intros Hl. unfold Merkle.calculate. rewrite !length_fmap, !fmap_app, !length_app. cbn [fmap list_fmap length].
  rewrite Hl. set (l := transaction_hash <$> txs). set (h := transaction_hash tx).
  assert (Hll : length l = (2 * S k)%nat) by (unfold l; by rewrite length_fmap).
  assert (Hn : Merkle.next_layer (l ++ [h]) = Merkle.next_layer (l ++ [h; h]))
    by (by rewrite !(next_layer_app_even l _ (S k))).
  assert (Hr : forall fuel x y, Merkle.reduce (S fuel) (l ++ x :: y)
                 = Merkle.reduce fuel (Merkle.next_layer (l ++ x :: y))).
  { intros fuel x y. destruct l as [|a [|b l']]; cbn in Hll; [lia|lia|done]. }
  replace (2 * S k + 1)%nat with (S (2 * S k)) by lia.
  replace (2 * S k + 2)%nat with (S (1 + 2 * S k)) by lia.
  rewrite !Hr, <-Hn, Merkle.reduce_more; [done|].
  pose proof (Merkle.length_next_layer (l ++ [h])) as Hb. rewrite length_app in Hb. cbn in Hb. lia.
Qed.

End merkle.

(** ** Difficulty *)
Section difficulty.
Context `{CE : ChainEnv} {CL : ChainEnvLaws CE}.

(** A retarget of any window never overflows and moves the target by at most a factor of
    four in either direction, never above the minimum difficulty. *)
Theorem retarget_within_factor_four t s e :
  t <= MIN_TARGET ->
  exists t', adjust_target t s e = Ok t' /\ t / 4 <= t' /\ t' <= 4 * t /\ t' <= MIN_TARGET.
Proof.
  intros Ht. rewrite adjust_target_Ok by done. cbv zeta. eexists. split; [done|].
  generalize (Z.to_N (Z.max (num_seconds (e - s)) 1)) as x. intros x.
  assert (Hc : 200 <= N.min (N.max x 200) 3200 <= 3200) by lia.
  revert Hc. generalize (N.min (N.max x 200) 3200) as c. intros c [Hlo Hhi].
  assert (H1 : t / 4 <= t * c / 800).
  { replace (t / 4) with (t * 200 / 800); [apply N.Div0.div_le_mono, N.mul_le_mono_l; lia|].
    replace 800 with (4 * 200) by lia. by rewrite N.Div0.div_mul_cancel_r by lia. }
  assert (H2 : t * c / 800 <= 4 * t).
  { apply N.Div0.div_le_upper_bound. nia. }
  assert (t / 4 <= t) by (apply N.Div0.div_le_upper_bound; lia).
  split_and!; lia.
Qed.

End difficulty.

(** ** Admission and templates *)
Section admission.
Context `{CE : ChainEnv} {CL : ChainEnvLaws CE}.
Context (U : Block -> Prop) (HU : collision_free U).

(** A transaction admitted to the mempool has distinct existing inputs signed by their
    owners, does not create value, pays more than every transaction it replaces, and
    is the only change besides the evictions. *)
Theorem add_to_mempool_admits now bc tx bc' :
  reachable U bc -> add_to_mempool now bc tx = (bc', Ok tt) -> admitted now bc bc' tx.
Proof.
  intros Hr E. apply add_to_mempool_spec in E as (_ & _ & _ & Had); [by apply Had|].
  apply (ci_mempool U), reachable_inv; done.
Qed.

(** C36: A block with no transactions that extends the tip and passes the target, proof-
    of-work and timestamp checks makes add_block panic instead of returning an error:
    the Merkle root is computed before the list is checked for being empty. *)
Theorem empty_block_panics now bc b :
  bc_active bc <> [] -> prev_block_hash (header b) = tip_hash bc ->
  target (header b) = bc_target bc ->
  matches_target (header_hash (header b)) (target (header b)) = true ->
  check_timestamp now bc (timestamp (header b)) = Ok tt ->
  transactions b = [] ->
  (add_block now bc b).2 = Panic.
Proof.
  intros Hne Hp Ht Hm Hts He. unfold add_block. rewrite add_block_fuel_step. unfold add_one.
  rewrite decide_True by done. unfold add_block_extending_tip, check_extending_tip.
  rewrite bool_decide_eq_false_2 by done. cbn [andb negb guard_ok mbind outcome_bind].
  rewrite Ht, N.eqb_refl. rewrite <-Ht, Hm, Hts.
  unfold check_block_size. rewrite He. cbn. done.
Qed.

(** *** Block templates *)
Lemma pick_loop pool acc : forall txs total_bytes,
  total_bytes = sumN (serialized_size <$> txs) -> total_bytes <= BLOCK_BYTE_CAP ->
  acc = (txs, total_bytes) ->
  exists picked, (foldl pick_step acc pool).1 = txs ++ picked /\ sublist picked pool.*2 /\
    sumN (serialized_size <$> txs ++ picked) <= BLOCK_BYTE_CAP.
Proof.
  revert acc. induction pool as [|e pool IH]; intros acc txs n Hn Hle ->.
  { exists []. rewrite app_nil_r. cbn. split_and!; [done..|lia]. }
  cbn [foldl]. unfold pick_step at 2. cbn zeta.
  destruct (N.ltb_spec BLOCK_BYTE_CAP (n + serialized_size e.2)) as [Hbig|Hfit].
  - destruct (IH (txs, n) txs n) as (picked & E & Hs & Hb); [done..|].
    exists picked. split_and!; [done|by apply sublist_cons|done].
  - destruct (IH (txs ++ [e.2], n + serialized_size e.2) (txs ++ [e.2])
      (n + serialized_size e.2)) as (picked & E & Hs & Hb);
      [rewrite fmap_app, sumN_app, Hn; cbn; lia|lia|done|].
    rewrite <-(assoc_L (++)) in E, Hb. exists (e.2 :: picked).
    split_and!; [done|by apply sublist_skip|done].
Qed.

Lemma sublist_spends l1 l2 :
  sublist l1 l2 -> sublist (concat (spends <$> l1)) (concat (spends <$> l2)).
Proof.
  induction 1 as [|tx l1 l2 _ IH|tx l1 l2 _ IH]; [done| |]; rewrite ?fmap_cons; cbn [concat].
  - by apply sublist_app.
  - etrans; [exact IH|]. by apply sublist_inserts_l.
Qed.

(** The value on chain and the next reward fit the width together. *)
Lemma height_supply bc :
  reachable U bc -> total (bc_utxos bc) + block_reward_at_height (block_height bc) <= U64_MAX.
Proof.
  intros Hr. destruct (ci_follows _ _ (reachable_inv U HU bc Hr)) as [a Hf].
  unfold block_height. rewrite (fo_utxos _ _ Hf), (fo_active _ _ Hf), length_fmap.
  assert (Hle : total (replay a) <= issued (length a)).
  { destruct (fo_chain _ _ Hf) as [[-> _]|Hv]; [done|by apply valid_chain_supply]. }
  pose proof (issued_le_max (S (length a))) as Hm. cbn [issued] in Hm.
  assert (MAX_SUPPLY <= U64_MAX) by (vm_compute; discriminate). lia.
Qed.

Lemma fees_of_valid utxos txs reward :
  NoDup (concat (spends <$> txs)) -> Forall (tx_authorised utxos) txs ->
  Forall (fun tx => output_total tx <= input_total utxos tx) txs ->
  total utxos + reward <= U64_MAX ->
  exists f, calculate_miner_fees_for_transactions txs utxos = Ok f /\
    f + sumN (output_total <$> txs) = sumN (input_total utxos <$> txs) /\
    checked_add reward f = Some (reward + f).
Proof.
  intros Hnd Ha Hc Hcap.
  assert (Hin : sumN (input_total utxos <$> txs) <= total utxos).
  { rewrite <-concat_spent_values. apply spent_value_le; [done|by apply authorised_present_all]. }
  destruct (fees_complete utxos txs 0) as (f & Hf & Hsum);
    [eapply Forall_impl; [exact Ha|apply authorised_present]|done|lia|].
  exists f. split_and!; [done|lia|]. apply checked_add_fits. lia.
Qed.

Lemma Forall_sub {A} (P : A -> Prop) l1 l2 : sublist l1 l2 -> Forall P l2 -> Forall P l1.
Proof.
  intros Hs. rewrite !Forall_forall. intros HP x Hx. apply HP.
  by eapply elem_of_submseteq; [|apply sublist_submseteq].
Qed.

(** The template of a state whose pending transactions are in order. *)
Lemma template_valid now fresh_id bc pk :
  reachable U bc ->
  NoDup (concat (spends <$> (bc_mempool bc).*2)) ->
  Forall (tx_authorised (bc_utxos bc)) (bc_mempool bc).*2 ->
  Forall (fun tx => output_total tx <= input_total (bc_utxos bc) tx) (bc_mempool bc).*2 ->
  exists b, create_block_template now fresh_id bc pk = Ok b /\
    verify_transactions b (block_height bc) (bc_utxos bc) = Ok tt /\
    check_block_size b = Ok tt /\
    Merkle.calculate (E := BtcError) (transactions b) = Ok (merkle_root (header b)) /\
    prev_block_hash (header b) = tip_hash bc /\ target (header b) = bc_target bc.
Proof.
  intros Hr Hnd Hauth Hcons. unfold create_block_template.
  destruct (pick_loop (bc_mempool bc) ([], 0) [] 0) as (picked & E & Hsub & Hsize);
    [done|vm_compute; discriminate|done|].
  destruct (foldl pick_step ([], 0) (bc_mempool bc)) as [txs n]. cbn [fst app] in E, Hsize. subst txs.
  assert (Hin : forall P : Transaction -> Prop, Forall P (bc_mempool bc).*2 -> Forall P picked)
    by (intros P HP; by eapply Forall_sub).
  apply Hin in Hauth as Hauth', Hcons as Hcons'.
  assert (Hnd' : NoDup (concat (spends <$> picked)))
    by (eapply sublist_NoDup; [exact Hnd|by apply sublist_spends]).
  pose proof (height_supply bc Hr) as Hcap.
  destruct (fees_of_valid (bc_utxos bc) picked (calculate_block_reward bc)) as (f & Hf & Hsum & Hadd);
    [done..|].
  rewrite Hf. cbn [mbind outcome_bind]. unfold add64. rewrite Hadd. cbn [expect mbind outcome_bind].
  destruct (Merkle.calculate_total (E := BtcError)
    (mkTransaction [] [mkOutput (calculate_block_reward bc + f) fresh_id pk] :: picked)) as [root Hroot];
    [done|].
  rewrite Hroot. cbn [mbind outcome_bind]. eexists. split; [done|]. cbn [header transactions
    merkle_root prev_block_hash target]. split_and!; try done.
  - eapply verify_transactions_complete; [|exact Hcap].
    split; [done|done|exact Hnd'|done|done|]. rewrite <-Hsum.
    change (output_total (mkTransaction [] [mkOutput (calculate_block_reward bc + f) fresh_id pk]))
      with (calculate_block_reward bc + f + 0). unfold calculate_block_reward. lia.
  - unfold check_block_size. cbn [transactions tail]. apply N.leb_le in Hsize. by rewrite Hsize.
Qed.

(** From a reachable state whose pending transactions are authorised, conserve value and
    do not conflict, the block template exists, passes transaction validation and the
    size limit, and carries the right Merkle root, parent and target. *)
Theorem block_template_is_valid now fresh_id bc pk :
  reachable U bc ->
  NoDup (concat (spends <$> (bc_mempool bc).*2)) ->
  Forall (tx_authorised (bc_utxos bc)) (bc_mempool bc).*2 ->
  Forall (fun tx => output_total tx <= input_total (bc_utxos bc) tx) (bc_mempool bc).*2 ->
  exists b, create_block_template now fresh_id bc pk = Ok b /\
    verify_transactions b (block_height bc) (bc_utxos bc) = Ok tt /\
    check_block_size b = Ok tt /\
    Merkle.calculate (E := BtcError) (transactions b) = Ok (merkle_root (header b)) /\
    prev_block_hash (header b) = tip_hash bc /\ target (header b) = bc_target bc.
Proof. apply template_valid. Qed.

End admission.

(** ** Witnesses *)
Import Toy.

(** A payment of [block_a]'s coinbase, admitted after [chain2]. *)
Definition coin_a : TransactionOutput := mkOutput 5000000000 1 [1].
Definition pay_outs : list TransactionOutput := [mkOutput 4000000000 9 [3]].
Definition payment : Transaction := Eval vm_compute in
  mkTransaction [signed (output_hash coin_a) pay_outs [1]] pay_outs.
Definition chain2p : Blockchain := Eval vm_compute in
  (add_to_mempool (seconds 100) chain2 payment).1.
Definition block_d : Block := Eval vm_compute in
  mkBlock (mkHeader (seconds 40) 0 (block_hash block_a)
             (root_of [pays 6000000000 [4]; payment]) MIN_TARGET) [pays 6000000000 [4]; payment].

Lemma chain2p_eq : add_to_mempool (seconds 100) chain2 payment = (chain2p, Ok tt).
Proof. vm_compute. reflexivity. Qed.

Lemma chain2p_reachable : reachable in_play chain2p.
Proof.
  unfold reachable. transitivity chain2; [apply chain2_reachable|].
  apply rtc_once. eapply step_transaction, chain2p_eq.
Qed.

Lemma verify_transactions_exact_witness :
  total (bc_utxos chain2) + block_reward_at_height 2 <= U64_MAX /\
  exists coinbase rest, valid_transactions block_d 2 (bc_utxos chain2) coinbase rest.
Proof.
  assert (Hc : total (bc_utxos chain2) + block_reward_at_height 2 <= U64_MAX)
    by (vm_compute; discriminate).
  split; [exact Hc|]. apply (verify_transactions_exact block_d 2 (bc_utxos chain2) Hc).
  vm_compute. reflexivity.
Defined.

Lemma verified_block_mints_at_most_reward_witness :
  total (apply_transactions (bc_utxos chain2) (transactions block_d))
  <= total (bc_utxos chain2) + block_reward_at_height 2.
Proof.
  apply (verified_block_mints_at_most_reward block_d 2 (bc_utxos chain2)).
  vm_compute. reflexivity.
Defined.

Lemma merkle_root_binds_witness :
  let txs := transactions block_d in
  transaction_hash <$> txs = transaction_hash <$> txs \/
  Merkle.collide (Merkle.tree_pairs 2 (transaction_hash <$> txs))
                 (Merkle.tree_pairs 2 (transaction_hash <$> txs)).
Proof.
  cbv zeta. apply (merkle_root_binds (transactions block_d) (transactions block_d)
    (merkle_root (header block_d))); vm_compute; reflexivity.
Defined.

Lemma merkle_root_duplicate_last_witness :
  let txs := transactions block_d in
  Merkle.calculate (E := BtcError) (txs ++ [payment]) = Merkle.calculate (txs ++ [payment; payment]).
Proof. cbv zeta. apply (merkle_root_duplicate_last _ payment 0). reflexivity. Defined.

Lemma retarget_within_factor_four_witness :
  exists t', adjust_target (2 ^ 230) 0 (seconds 100) = Ok t' /\
    2 ^ 230 / 4 <= t' /\ t' <= 4 * 2 ^ 230 /\ t' <= MIN_TARGET.
Proof. apply (retarget_within_factor_four (2 ^ 230)). vm_compute. discriminate. Defined.

Lemma add_to_mempool_admits_witness : admitted (seconds 100) chain2 chain2p payment.
Proof.
  exact (add_to_mempool_admits in_play in_play_collision_free (seconds 100) chain2 payment chain2p
    chain2_reachable chain2p_eq).
Defined.

Lemma empty_block_panics_witness :
  let b := mkBlock (mkHeader (seconds 40) 0 (block_hash block_a) 0 MIN_TARGET) [] in
  (add_block (seconds 100) chain2 b).2 = Panic.
Proof.
  cbv zeta. apply empty_block_panics; try (vm_compute; reflexivity). vm_compute. discriminate.
Defined.

Lemma block_template_is_valid_witness :
  exists b, create_block_template (seconds 100) 77 chain2p [5] = Ok b /\
    verify_transactions b (block_height chain2p) (bc_utxos chain2p) = Ok tt /\
    check_block_size b = Ok tt /\
    Merkle.calculate (E := BtcError) (transactions b) = Ok (merkle_root (header b)) /\
    prev_block_hash (header b) = tip_hash chain2p /\ target (header b) = bc_target chain2p.
Proof.
  apply (block_template_is_valid in_play in_play_collision_free (seconds 100) 77 chain2p [5]
    chain2p_reachable).
  - apply (bool_decide_unpack _). vm_compute. exact I.
  - repeat constructor. exists coin_a. split; vm_compute; reflexivity.
  - repeat constructor. vm_compute. discriminate.
Defined.

(** ** A pool that holds a double spend

    A block may recreate an output that a pending transaction spends: an
    identical coinbase output has the same hash. [apply_block] then inserts it
    unmarked while the pending transaction stays, and a second spend of it is
    admitted without the fee comparison. *)
Definition block_e : Block := Eval vm_compute in block_on block_a (seconds 40) [1] [].
Definition second_outs : list TransactionOutput := [mkOutput 4900000000 10 [6]].
Definition second_spend : Transaction := Eval vm_compute in
  mkTransaction [signed (output_hash coin_a) second_outs [1]] second_outs.
Definition chain5 : Blockchain := Eval vm_compute in
  (add_to_mempool (seconds 101) (add_block (seconds 100) chain2p block_e).1 second_spend).1.

Definition template5 : Block := Eval vm_compute in
  match create_block_template (seconds 102) 78 chain5 [5] with Ok b => b | _ => genesis end.

(** A reachable state admits a second transaction that spends an output a pending
    transaction spends, without the fee comparison, after a block recreates that
    output; the template built then fails validation. *)
Theorem mempool_admits_double_spend :
  exists bc bc', reachable (fun _ => True) bc /\
    add_to_mempool (seconds 101) bc second_spend = (bc', Ok tt) /\
    (exists h, h ∈ spends payment /\ h ∈ spends second_spend) /\
    payment ∈ (bc_mempool bc').*2 /\ second_spend ∈ (bc_mempool bc').*2 /\
    exists b, create_block_template (seconds 102) 78 bc' [5] = Ok b /\
              verify_transactions b (block_height bc') (bc_utxos bc') = Err InvalidTransaction.
Proof.
  exists (add_block (seconds 100) chain2p block_e).1, chain5. split_and!.
  - assert (Hmono : forall bc bc', step in_play bc bc' -> step (fun _ => True) bc bc')
      by (destruct 1; by econstructor).
    unfold reachable. transitivity chain2p.
    + pose proof chain2p_reachable as Hr. unfold reachable in Hr.
      clear -Hr Hmono. induction Hr as [|x y z H1 _ IH]; [done|].
      eapply rtc_l; [by apply Hmono|exact IH].
    + apply rtc_once. destruct (add_block (seconds 100) chain2p block_e) as [bc' r] eqn:E.
      by eapply step_block.
  - vm_compute. reflexivity.
  - exists (output_hash coin_a). split; apply list_elem_of_singleton; vm_compute; reflexivity.
  - apply (bool_decide_unpack _). vm_compute. exact I.
  - apply (bool_decide_unpack _). vm_compute. exact I.
  - exists template5. split; vm_compute; reflexivity.
Qed.
