(* ===== verification/BoardTypes.v ===== *)
(** * BoardTypes: the data of the hub's task board

    The enums and structs of [hub/src/board.rs] and the payment record of
    [hub/src/payments.rs], the state [TaskBoard], and the ordered iteration
    of its [BTreeMap]s. A task kind's struct variant is a constructor over a
    record of its fields. *)

From S2P Require Import Prelude Types.

(** ** Errors: [BoardError] *)
Inductive BoardError : Type :=
| NotFound
| NotOpen
| NotClaimed
| NotClaimant
| NotVerified
| AlreadyClaimed
| AlreadyJoined
| JoinWindowExpired
| SubmissionWindowExpired
| WrongTaskKind
| AlreadySubmitted
| InsufficientReputation (required have : N)
| AlreadyTerminal
| EscrowNotFound
| EscrowNotReserved
| EscrowExpired
| EscrowUnderfunded (required have : N)
| PosterCannotClaimOwnTask
| WrongEscrowPurpose
| DisputeWindowClosed
| AssigneeCannotDisputeOwnSubmission
| AlreadyDisputed
| NotDisputed
| CannotCancelWhileDisputed
| OrderNotFound
| NotOrderOwner
| OrderNotOpen
| InvalidOrder
| OrderNotionalOverflow
| ZeroWithdrawal
| InsufficientBalance (available required : N)
| NotPoster
| PosterCannotAnswerOwnTask
| ContestTakesNoClaim
| SubmissionsClosed
| ContestFull
| NotAwaitingPick
| PickWindowClosed
| NotAnAnswer.

(** ** Tasks *)
Inductive TaskStatus : Type :=
| Open | Claimed | AwaitingDispute | Disputed | AwaitingPick | Verified | Submitted | Paid
| PayoutFailed | Closed.

Inductive CloseReason : Type :=
| NoMajority | Understaffed | CancelledByOperator | NoAnswers | NeverClosed.

Record ConsensusAssignment := mkAssignment {
  a_answer : option string;
  a_paid : bool;
  a_share : option N
}.

Definition MAX_CONTEST_ANSWERS : nat := 10.

Record ContestAnswer := mkContestAnswer {
  ca_pubkey : PublicKey;
  ca_answer : string;
  ca_submitted_at : DateTime;
  ca_share : option N;
  ca_paid : bool
}.

Inductive DisputeResolution : Type := ChallengerWins | AssigneeWins.

Record Dispute := mkDispute {
  d_challenger : PublicKey;
  d_reason : string;
  d_bond_escrow_id : Uuid;
  d_bond_amount : N;
  d_filed_at : DateTime;
  d_resolution : option DisputeResolution
}.

(** The fields of [TaskKind::Consensus]. *)
Record ConsensusFields := mkConsensus {
  num_assignees : N;
  join_deadline : DateTime;
  submission_window_minutes : Z;
  c_submission_deadline : option DateTime;
  assignees : gmap PublicKey ConsensusAssignment
}.

(** The fields of [TaskKind::Disputable]. *)
Record DisputableFields := mkDisputable {
  df_answer : option string;
  dispute_window_minutes : Z;
  dispute_deadline : option DateTime;
  dispute : option Dispute;
  answers : list ContestAnswer;
  pick_deadline : option DateTime;
  picked : option PublicKey
}.

Inductive TaskKind : Type :=
| HashMatch (expected_output_hash : Hash)
| Consensus (c : ConsensusFields)
| Disputable (d : DisputableFields).

Record Task := mkTask {
  t_id : Uuid;
  description : string;
  bounty : N;
  kind : TaskKind;
  poster : PublicKey;
  status : TaskStatus;
  claimant : option PublicKey;
  claim_deadline : option DateTime;
  failed_attempts : N;
  t_created_at : DateTime;
  min_reputation : N;
  close_reason : option CloseReason;
  escrow_id : option Uuid;
  capabilities : gset string;
  settled_at : option DateTime
}.

Record Reputation := mkReputation {
  completed : N;
  failed : N;
  total_earned : N
}.
Definition Reputation_default : Reputation := mkReputation 0 0 0.

(** ** Escrow *)
Inductive EscrowStatus : Type := Disbursing | Reserved | Consumed | Refunded.

Record TaskIntent := mkTaskIntent {
  ti_description : string;
  ti_bounty : N;
  ti_expected_output_hash : Hash;
  ti_min_reputation : N;
  ti_capabilities : gset string
}.

Record ConsensusTaskIntent := mkConsensusIntent {
  ci_description : string;
  ci_bounty : N;
  ci_num_assignees : N;
  ci_join_window_minutes : Z;
  ci_submission_window_minutes : Z;
  ci_min_reputation : N;
  ci_capabilities : gset string
}.

Record DisputableTaskIntent := mkDisputableIntent {
  di_description : string;
  di_bounty : N;
  di_dispute_window_minutes : Z;
  di_min_reputation : N;
  di_capabilities : gset string
}.

Inductive EscrowPurpose : Type :=
| FundHashMatchTask (i : TaskIntent)
| FundConsensusTask (i : ConsensusTaskIntent)
| FundDisputableTask (i : DisputableTaskIntent)
| DisputeBond (task_id : Uuid) (reason : string)
| FundExchangeAccount.

Record PendingDeposit := mkDeposit {
  pd_id : Uuid;
  depositor : PublicKey;
  deposit_pubkey : PublicKey;
  deposit_private_key : option PrivateKey;
  required_amount : N;
  purpose : EscrowPurpose;
  pd_status : EscrowStatus;
  pd_created_at : DateTime;
  expires_at : DateTime
}.

(** ** Payouts *)
Definition MAX_PAYOUT_SUBMISSIONS : N := 4.

Record PayoutAttempt := mkAttempt {
  pa_task_id : Uuid;
  pa_recipient : PublicKey;
  pa_amount : N;
  pa_output_hash : Hash;
  pa_spent_inputs : list Hash;
  pa_source : PublicKey;
  pa_submitted_at : DateTime;
  pa_submissions : N;
  pa_transaction : option Transaction
}.

Inductive PayoutOutcome : Type := Confirmed | NeverLanded | HeldInMempool | Ambiguous.

(** ** The exchange *)
Record ExchangeAccount := mkAccount {
  base_balance : N;
  locked_base : N;
  compute_balance : N;
  locked_compute : N
}.
Definition ExchangeAccount_default : ExchangeAccount := mkAccount 0 0 0 0.

Inductive Side : Type := Buy | Sell.
Inductive OrderStatus : Type := OrderOpen | Filled | Cancelled.

Record Order := mkOrder {
  o_id : Uuid;
  o_owner : PublicKey;
  o_side : Side;
  o_price : N;
  o_quantity : N;
  o_filled : N;
  o_status : OrderStatus;
  o_created_at : DateTime
}.

Definition TAKER_FEE_BPS : N := 10.

Record Trade := mkTrade {
  tr_id : Uuid;
  buy_order_id : Uuid;
  sell_order_id : Uuid;
  buyer : PublicKey;
  seller : PublicKey;
  tr_price : N;
  tr_quantity : N;
  executed_at : DateTime;
  taker_side : Side;
  taker_fee : N
}.

(** ** Payments: [payments.rs] *)
Inductive PaymentStatus : Type := PaymentPending | PaymentConfirmed | PaymentNeedsReview.

Inductive Purpose : Type :=
| Faucet
| Withdrawal (debited : N)
| Escrow (deposit_id : Uuid) (forfeited_bond : bool) (previous_status : EscrowStatus).

Record Payment := mkPayment {
  p_id : Uuid;
  p_purpose : Purpose;
  p_source : PublicKey;
  p_recipient : PublicKey;
  p_amount : N;
  p_fee : N;
  p_transaction : option Transaction;
  p_output_hash : option Hash;
  p_spent_inputs : list Hash;
  p_created_at : DateTime;
  p_submitted_at : DateTime;
  p_submissions : N;
  p_status : PaymentStatus;
  p_scanned_through : N
}.

(** ** The board *)
Record TaskBoard := mkBoard {
  tb_payments : gmap Uuid Payment;
  tb_tasks : gmap Uuid Task;
  tb_reputation : gmap PublicKey Reputation;
  tb_faucet_grants : gmap PublicKey Z;
  tb_faucet_prefixes : gmap PublicKey string;
  tb_deposits : gmap Uuid PendingDeposit;
  tb_accounts : gmap PublicKey ExchangeAccount;
  tb_orders : gmap Uuid Order;
  tb_trades : gmap Uuid Trade;
  tb_attempts : gmap (Uuid * PublicKey) PayoutAttempt
}.

(** [TaskBoard::new] *)
Definition new_board : TaskBoard := mkBoard ∅ ∅ ∅ ∅ ∅ ∅ ∅ ∅ ∅ ∅.

(** Field assignments. *)
Definition with_payments (tb : TaskBoard) x : TaskBoard :=
  mkBoard x (tb_tasks tb) (tb_reputation tb) (tb_faucet_grants tb) (tb_faucet_prefixes tb)
    (tb_deposits tb) (tb_accounts tb) (tb_orders tb) (tb_trades tb) (tb_attempts tb).
Definition with_tasks (tb : TaskBoard) x : TaskBoard :=
  mkBoard (tb_payments tb) x (tb_reputation tb) (tb_faucet_grants tb) (tb_faucet_prefixes tb)
    (tb_deposits tb) (tb_accounts tb) (tb_orders tb) (tb_trades tb) (tb_attempts tb).
Definition with_reputation (tb : TaskBoard) x : TaskBoard :=
  mkBoard (tb_payments tb) (tb_tasks tb) x (tb_faucet_grants tb) (tb_faucet_prefixes tb)
    (tb_deposits tb) (tb_accounts tb) (tb_orders tb) (tb_trades tb) (tb_attempts tb).
Definition with_faucet_grants (tb : TaskBoard) x : TaskBoard :=
  mkBoard (tb_payments tb) (tb_tasks tb) (tb_reputation tb) x (tb_faucet_prefixes tb)
    (tb_deposits tb) (tb_accounts tb) (tb_orders tb) (tb_trades tb) (tb_attempts tb).
Definition with_faucet_prefixes (tb : TaskBoard) x : TaskBoard :=
  mkBoard (tb_payments tb) (tb_tasks tb) (tb_reputation tb) (tb_faucet_grants tb) x
    (tb_deposits tb) (tb_accounts tb) (tb_orders tb) (tb_trades tb) (tb_attempts tb).
Definition with_deposits (tb : TaskBoard) x : TaskBoard :=
  mkBoard (tb_payments tb) (tb_tasks tb) (tb_reputation tb) (tb_faucet_grants tb)
    (tb_faucet_prefixes tb) x (tb_accounts tb) (tb_orders tb) (tb_trades tb) (tb_attempts tb).
Definition with_accounts (tb : TaskBoard) x : TaskBoard :=
  mkBoard (tb_payments tb) (tb_tasks tb) (tb_reputation tb) (tb_faucet_grants tb)
    (tb_faucet_prefixes tb) (tb_deposits tb) x (tb_orders tb) (tb_trades tb) (tb_attempts tb).
Definition with_orders (tb : TaskBoard) x : TaskBoard :=
  mkBoard (tb_payments tb) (tb_tasks tb) (tb_reputation tb) (tb_faucet_grants tb)
    (tb_faucet_prefixes tb) (tb_deposits tb) (tb_accounts tb) x (tb_trades tb) (tb_attempts tb).
Definition with_trades (tb : TaskBoard) x : TaskBoard :=
  mkBoard (tb_payments tb) (tb_tasks tb) (tb_reputation tb) (tb_faucet_grants tb)
    (tb_faucet_prefixes tb) (tb_deposits tb) (tb_accounts tb) (tb_orders tb) x (tb_attempts tb).
Definition with_attempts (tb : TaskBoard) x : TaskBoard :=
  mkBoard (tb_payments tb) (tb_tasks tb) (tb_reputation tb) (tb_faucet_grants tb)
    (tb_faucet_prefixes tb) (tb_deposits tb) (tb_accounts tb) (tb_orders tb) (tb_trades tb) x.

(** ** Decidable equality *)
#[global] Instance BoardError_eq_dec : EqDecision BoardError.
Proof. solve_decision. Defined.
#[global] Instance TaskStatus_eq_dec : EqDecision TaskStatus.
Proof. solve_decision. Defined.
#[global] Instance CloseReason_eq_dec : EqDecision CloseReason.
Proof. solve_decision. Defined.
#[global] Instance DisputeResolution_eq_dec : EqDecision DisputeResolution.
Proof. solve_decision. Defined.
#[global] Instance EscrowStatus_eq_dec : EqDecision EscrowStatus.
Proof. solve_decision. Defined.
#[global] Instance PayoutOutcome_eq_dec : EqDecision PayoutOutcome.
Proof. solve_decision. Defined.
#[global] Instance Side_eq_dec : EqDecision Side.
Proof. solve_decision. Defined.
#[global] Instance OrderStatus_eq_dec : EqDecision OrderStatus.
Proof. solve_decision. Defined.
#[global] Instance PaymentStatus_eq_dec : EqDecision PaymentStatus.
Proof. solve_decision. Defined.
#[global] Instance ExchangeAccount_eq_dec : EqDecision ExchangeAccount.
Proof. solve_decision. Defined.
#[global] Instance Order_eq_dec : EqDecision Order.
Proof. solve_decision. Defined.
#[global] Instance Trade_eq_dec : EqDecision Trade.
Proof. solve_decision. Defined.
#[global] Instance PayoutAttempt_eq_dec : EqDecision PayoutAttempt.
Proof. solve_decision. Defined.
#[global] Instance ContestAnswer_eq_dec : EqDecision ContestAnswer.
Proof. solve_decision. Defined.
#[global] Instance ConsensusAssignment_eq_dec : EqDecision ConsensusAssignment.
Proof. solve_decision. Defined.

(** ** Ordered maps

    A [BTreeMap] is a [gmap] whose iteration is by key: [Uuid] in numeric
    order, [PublicKey] by its SEC1 bytes ([impl Ord for PublicKey]), a pair
    by its first component and then its second. *)
Class BTreeKey (K : Type) := key_leb : K -> K -> bool.
#[export] Instance uuid_key : BTreeKey Uuid := N.leb.
Fixpoint bytes_leb (a b : list N) : bool :=
  match a, b with
  | [], _ => true
  | _ :: _, [] => false
  | x :: a', y :: b' => (x <? y) || ((x =? y) && bytes_leb a' b')
  end.
#[export] Instance pubkey_key : BTreeKey PublicKey := bytes_leb.
#[export] Instance pair_key {K L} `{EqDecision K} {B1 : BTreeKey K} {B2 : BTreeKey L}
    : BTreeKey (K * L) := fun a b =>
  if decide (a.1 = b.1) then key_leb a.2 b.2 else key_leb a.1 b.1.

Definition entry_le {K A} `{BTreeKey K} (a b : K * A) : Prop := key_leb a.1 b.1 = true.
#[export] Instance entry_le_dec {K A} `{BTreeKey K} (a b : K * A) : Decision (entry_le a b).
Proof. unfold entry_le. apply _. Defined.

(** [iter()] and [values()]. *)
Definition btree_iter {K A} `{Countable K} `{BTreeKey K} (m : gmap K A) : list (K * A) :=
  merge_sort entry_le (map_to_list m).
Definition btree_values {K A} `{Countable K} `{BTreeKey K} (m : gmap K A) : list A :=
  (btree_iter m).*2.

Section btree.
Context {K A : Type} `{Countable K} `{BTreeKey K}.

Lemma btree_iter_perm (m : gmap K A) : btree_iter m ≡ₚ map_to_list m.
Proof. apply merge_sort_Permutation. Qed.

Lemma elem_of_btree_iter (m : gmap K A) k a : (k, a) ∈ btree_iter m <-> m !! k = Some a.
Proof. by rewrite btree_iter_perm, elem_of_map_to_list. Qed.

Lemma elem_of_btree_values (m : gmap K A) a : a ∈ btree_values m <-> exists k, m !! k = Some a.
Proof.
  unfold btree_values. rewrite list_elem_of_fmap. split.
  - intros ([k x] & -> & Hx). exists k. by apply elem_of_btree_iter.
  - intros [k Hk]. exists (k, a). split; [done|]. by apply elem_of_btree_iter.
Qed.

(** Inserting the entries of a map one by one, in any order, rebuilds it. *)
Lemma foldl_insert_lookup (l : list (K * A)) : forall m : gmap K A,
  NoDup l.*1 -> forall k a,
  foldl (fun m e => <[e.1 := e.2]> m) m l !! k = Some a <-> (k, a) ∈ l \/ (m !! k = Some a /\ k ∉ l.*1).
Proof.
  induction l as [|[q x] l IH]; intros m Hnd k a; cbn [foldl].
  - rewrite fmap_nil. split; [intros Hm; right; split; [done|apply not_elem_of_nil]|].
    intros [Hm|[Hm _]]; [by apply not_elem_of_nil in Hm|done].
  - rewrite fmap_cons in Hnd. apply NoDup_cons in Hnd as [Hq Hnd]. rewrite IH by done.
    rewrite fmap_cons, elem_of_cons, not_elem_of_cons, lookup_insert_Some. cbn. split.
    + intros [Hin|[[[-> ->]|[Hne Hm]] Hk]]; [by left; right|by left; left|right; split; [done|by split]].
    + intros [[[= -> ->]|Hin]|[Hm [Hne Hk]]]; [|by left|].
      * right. split; [by left|]. by intros Hin.
      * right. split; [right; by split|done].
Qed.
Lemma foldl_insert_perm (m : gmap K A) l :
  l ≡ₚ map_to_list m -> foldl (fun m e => <[e.1 := e.2]> m) ∅ l = m.
Proof.
  intros Hl. apply map_eq. intros k. apply option_eq. intros a.
  rewrite foldl_insert_lookup by (rewrite Hl; apply NoDup_fst_map_to_list).
  rewrite Hl, elem_of_map_to_list, lookup_empty. naive_solver.
Qed.

End btree.

(** The key order is a total order. *)
Class BTreeKeyLaws (K : Type) `{BTreeKey K} : Prop := {
  key_total (a b : K) : key_leb a b = true \/ key_leb b a = true;
  key_trans (a b c : K) : key_leb a b = true -> key_leb b c = true -> key_leb a c = true;
  key_antisym (a b : K) : key_leb a b = true -> key_leb b a = true -> a = b
}.

#[export] Instance uuid_key_laws : BTreeKeyLaws Uuid.
Proof.
  split; unfold key_leb, uuid_key; intros *; rewrite ?N.leb_le; lia.
Qed.

#[export] Instance pubkey_key_laws : BTreeKeyLaws PublicKey.
Proof.
  split; unfold key_leb, pubkey_key.
  - induction a as [|x a IH]; intros [|y b]; cbn; auto.
    destruct (N.ltb_spec x y), (N.ltb_spec y x); cbn; auto; try lia.
    replace y with x by lia. rewrite N.eqb_refl. cbn. apply IH.
  - induction a as [|x a IH]; intros [|y b] [|z c]; cbn; try done.
    rewrite !orb_true_iff, !andb_true_iff, !N.ltb_lt, !N.eqb_eq.
    intros [H1|[-> H1]] [H2|[-> H2]]; [left; lia|by left|by left|right; eauto].
  - induction a as [|x a IH]; intros [|y b]; cbn; try done.
    rewrite !orb_true_iff, !andb_true_iff, !N.ltb_lt, !N.eqb_eq.
    intros [H1|[-> H1]] [H2|[H2 H3]]; try lia. f_equal. auto.
Qed.

Section btree_order.
Context {K A : Type} `{Countable K} {B : BTreeKey K} {L : BTreeKeyLaws K}.
Implicit Types (m : gmap K A).

#[local] Instance entry_le_total : Total (entry_le (K := K) (A := A)).
Proof. intros a b. apply key_total. Qed.
#[local] Instance entry_le_trans : Transitive (entry_le (K := K) (A := A)).
Proof. intros a b c. apply key_trans. Qed.

Lemma btree_iter_sorted m : StronglySorted entry_le (btree_iter m).
Proof. apply StronglySorted_merge_sort; apply _. Qed.

Lemma StronglySorted_filter (R : relation (K * A)) (P : K * A -> Prop) `{!forall x, Decision (P x)} l :
  StronglySorted R l -> StronglySorted R (base.filter P l).
Proof.
  induction 1 as [|x l _ IH Hx]; [constructor|]. rewrite filter_cons. case_decide; [|done].
  constructor; [done|]. apply Forall_forall. intros y Hy. apply list_elem_of_filter in Hy as [_ Hy].
  rewrite Forall_forall in Hx. by apply Hx.
Qed.

Lemma filter_snd (P : A -> Prop) `{!forall x, Decision (P x)} (l : list (K * A)) :
  base.filter P l.*2 = (base.filter (fun e => P e.2) l).*2.
Proof.
  induction l as [|x l IH]; [done|]. rewrite fmap_cons, !filter_cons. case_decide; [|done].
  by rewrite fmap_cons, IH.
Qed.

(** Two maps with the same entries satisfying [P] list them alike. *)
Lemma filter_btree_values (P : A -> Prop) `{!forall x, Decision (P x)} m1 m2 :
  (forall k a, P a -> m1 !! k = Some a <-> m2 !! k = Some a) ->
  base.filter P (btree_values m1) = base.filter P (btree_values m2).
Proof.
  intros Hsame. unfold btree_values. rewrite !filter_snd. f_equal.
  assert (Hnd : forall m, NoDup (btree_iter m))
    by (intros m; rewrite btree_iter_perm; apply NoDup_map_to_list).
  apply (StronglySorted_unique_strong entry_le).
  - intros [k1 a1] [k2 a2] H1 H2 Hle Hge. apply list_elem_of_filter in H1 as [HP1 H1], H2 as [HP2 H2].
    apply elem_of_btree_iter in H1, H2. pose proof (key_antisym _ _ Hle Hge) as E. cbn in *. subst k2.
    apply Hsame in H1; [|done]. by simplify_eq.
  - apply StronglySorted_filter, btree_iter_sorted.
  - apply StronglySorted_filter, btree_iter_sorted.
  - apply NoDup_Permutation; [by apply NoDup_filter..|]. intros [k a].
    rewrite !list_elem_of_filter, !elem_of_btree_iter. split; intros [HP Hl]; (split; [done|]);
      by apply Hsame.
Qed.

End btree_order.
