(* ===== verification/Exchange.v ===== *)
(** * Exchange: the order book of the task board

    Models the exchange half of [hub/src/board.rs]: accounts, deposits and
    withdrawals, limit orders, the matching loop of [place_order] and the
    staged copy the HTTP handler runs it on ([hub/src/handlers.rs]).

    [Uuid::new_v4()] is an argument: the id of the placed order, and the
    supply [trade_id] of the trades' ids. A method that changes the board
    and still returns an error returns the board beside its outcome. *)

From S2P Require Import Prelude Types BoardTypes.

(** ** Accounts *)

(** [TaskBoard::exchange_account] *)
Definition exchange_account (tb : TaskBoard) (pk : PublicKey) : ExchangeAccount :=
  default ExchangeAccount_default (tb_accounts tb !! pk).

(** [TaskBoard::restore_exchange_account] *)
Definition restore_exchange_account (tb : TaskBoard) (pk : PublicKey) (a : ExchangeAccount)
    : TaskBoard :=
  with_accounts tb (<[pk := a]> (tb_accounts tb)).

(** [self.exchange_accounts.entry(pk).or_default()] followed by an update of
    the entry; the entry exists afterwards whatever the update does. *)
Definition touch_account (tb : TaskBoard) (pk : PublicKey) : TaskBoard :=
  restore_exchange_account tb pk (exchange_account tb pk).
Definition update_account (tb : TaskBoard) (pk : PublicKey)
    (f : ExchangeAccount -> outcome BoardError ExchangeAccount) : outcome BoardError TaskBoard :=
  a ← f (exchange_account tb pk); Ok (restore_exchange_account tb pk a).

(** The [+=] and [-=] of the fields. *)
Definition add_base (n : N) (a : ExchangeAccount) : outcome BoardError ExchangeAccount :=
  v ← add64 (base_balance a) n;
  Ok (mkAccount v (locked_base a) (compute_balance a) (locked_compute a)).
Definition sub_base (n : N) (a : ExchangeAccount) : outcome BoardError ExchangeAccount :=
  v ← sub64 (base_balance a) n;
  Ok (mkAccount v (locked_base a) (compute_balance a) (locked_compute a)).
Definition lock_base (n : N) (a : ExchangeAccount) : outcome BoardError ExchangeAccount :=
  v ← add64 (locked_base a) n;
  Ok (mkAccount (base_balance a) v (compute_balance a) (locked_compute a)).
Definition unlock_base (n : N) (a : ExchangeAccount) : outcome BoardError ExchangeAccount :=
  v ← sub64 (locked_base a) n;
  Ok (mkAccount (base_balance a) v (compute_balance a) (locked_compute a)).
Definition add_compute (n : N) (a : ExchangeAccount) : outcome BoardError ExchangeAccount :=
  v ← add64 (compute_balance a) n;
  Ok (mkAccount (base_balance a) (locked_base a) v (locked_compute a)).
Definition sub_compute (n : N) (a : ExchangeAccount) : outcome BoardError ExchangeAccount :=
  v ← sub64 (compute_balance a) n;
  Ok (mkAccount (base_balance a) (locked_base a) v (locked_compute a)).
Definition lock_compute (n : N) (a : ExchangeAccount) : outcome BoardError ExchangeAccount :=
  v ← add64 (locked_compute a) n;
  Ok (mkAccount (base_balance a) (locked_base a) (compute_balance a) v).
Definition unlock_compute (n : N) (a : ExchangeAccount) : outcome BoardError ExchangeAccount :=
  v ← sub64 (locked_compute a) n;
  Ok (mkAccount (base_balance a) (locked_base a) (compute_balance a) v).

(** [TaskBoard::credit_compute], [credit_base], [credit_back_withdrawal] *)
Definition credit_compute (tb : TaskBoard) (recipient : PublicKey) (amount : N)
    : outcome BoardError TaskBoard := update_account tb recipient (add_compute amount).
Definition credit_base (tb : TaskBoard) (recipient : PublicKey) (amount : N)
    : outcome BoardError TaskBoard := update_account tb recipient (add_base amount).
Definition credit_back_withdrawal (tb : TaskBoard) (owner : PublicKey) (amount : N)
    : outcome BoardError TaskBoard := update_account tb owner (add_base amount).

(** [TaskBoard::debit_for_withdrawal] *)
Definition debit_for_withdrawal (tb : TaskBoard) (owner : PublicKey) (amount : N)
    : TaskBoard * outcome BoardError unit :=
  if amount =? 0 then (tb, Err ZeroWithdrawal)
  else
    let tb1 := touch_account tb owner in
    let account := exchange_account tb owner in
    let available := base_balance account - locked_base account in
    if available <? amount then (tb1, Err (InsufficientBalance available amount))
    else match update_account tb1 owner (sub_base amount) with
         | Ok tb2 => (tb2, Ok tt)
         | Err e => (tb1, Err e)
         | Panic => (tb1, Panic)
         end.

(** [TaskBoard::confirm_exchange_deposit] *)
Definition is_exchange_deposit (d : PendingDeposit) : bool :=
  match purpose d with FundExchangeAccount => true | _ => false end.
Definition set_deposit_status (s : EscrowStatus) (d : PendingDeposit) : PendingDeposit :=
  mkDeposit (pd_id d) (depositor d) (deposit_pubkey d) (deposit_private_key d)
    (required_amount d) (purpose d) s (pd_created_at d) (expires_at d).
Definition confirm_exchange_deposit (tb : TaskBoard) (id : Uuid) (observed_amount network_fee : N)
    (now : DateTime) : outcome BoardError (TaskBoard * (PublicKey * N)) :=
  deposit ← ok_or (tb_deposits tb !! id) EscrowNotFound;
  _ ← guard_ok (is_exchange_deposit deposit)
        WrongEscrowPurpose;
  _ ← guard_ok (bool_decide (pd_status deposit = Reserved)) EscrowNotReserved;
  _ ← guard_ok (negb (Z.ltb (expires_at deposit) now)) EscrowExpired;
  _ ← guard_ok (negb (observed_amount <? required_amount deposit))
        (EscrowUnderfunded (required_amount deposit) observed_amount);
  let credited := observed_amount - network_fee in
  let tb1 := with_deposits tb (<[id := set_deposit_status Consumed deposit]> (tb_deposits tb)) in
  tb2 ← update_account tb1 (depositor deposit) (add_base credited);
  Ok (tb2, (depositor deposit, credited)).

(** [TaskBoard::unswept_exchange_deposits] *)
Definition unswept_exchange_deposits (tb : TaskBoard) : list Uuid :=
  pd_id <$> base.filter (fun d => pd_status d = Consumed /\
      is_exchange_deposit d = true)
    (btree_values (tb_deposits tb)).

(** [TaskBoard::exchange_liabilities] *)
Definition is_withdrawal (p : Payment) : bool :=
  match p_purpose p with Withdrawal _ => true | _ => false end.
Definition exchange_liabilities (tb : TaskBoard) : N :=
  foldl (saturating_add U64_MAX) 0
    ((base_balance <$> btree_values (tb_accounts tb)) ++
     (p_amount <$> base.filter (fun p => p_status p <> PaymentConfirmed /\
         is_withdrawal p = true)
       (btree_values (tb_payments tb)))).

(** ** Orders *)
Definition restore_order (tb : TaskBoard) (o : Order) : TaskBoard :=
  with_orders tb (<[o_id o := o]> (tb_orders tb)).
Definition restore_trade (tb : TaskBoard) (t : Trade) : TaskBoard :=
  with_trades tb (<[tr_id t := t]> (tb_trades tb)).
Definition get_order (tb : TaskBoard) (id : Uuid) : option Order := tb_orders tb !! id.

Definition set_filled (o : Order) (filled : N) (st : OrderStatus) : Order :=
  mkOrder (o_id o) (o_owner o) (o_side o) (o_price o) (o_quantity o) filled st (o_created_at o).

Definition opposite (s : Side) : Side := match s with Buy => Sell | Sell => Buy end.
(** Does a resting price cross a taker's? *)
Definition crosses (taker_side : Side) (resting_price taker_price : N) : bool :=
  match taker_side with
  | Buy => resting_price <=? taker_price
  | Sell => taker_price <=? resting_price
  end.
(** Price-time priority on the book the taker looks at: the best price first
    (lowest ask for a buyer, highest bid for a seller), then the earliest. *)
Definition priority_leb (taker_side : Side) (a b : Order) : bool :=
  match taker_side with
  | Buy => (o_price a <? o_price b) ||
           ((o_price a =? o_price b) && Z.leb (o_created_at a) (o_created_at b))
  | Sell => (o_price b <? o_price a) ||
            ((o_price a =? o_price b) && Z.leb (o_created_at a) (o_created_at b))
  end.

(** The [filter] of [best_resting_match]. *)
Definition matchable (taker o : Order) : Prop :=
  o_status o = OrderOpen /\ o_side o = opposite (o_side taker) /\ o_owner o <> o_owner taker /\
  crosses (o_side taker) (o_price o) (o_price taker) = true.
#[export] Instance matchable_dec taker o : Decision (matchable taker o).
Proof. unfold matchable. apply _. Defined.

(** [TaskBoard::best_resting_match] *)
Definition best_resting_match (tb : TaskBoard) (taker : Order) : option Uuid :=
  o_id <$> head (sort_by (priority_leb (o_side taker))
                   (base.filter (matchable taker) (btree_values (tb_orders tb)))).

(** *** Placing an order *)

(** The lock taken before matching. *)
Definition lock_for_order (tb : TaskBoard) (owner : PublicKey) (side : Side) (notional quantity : N)
    : TaskBoard * outcome BoardError unit :=
  let tb1 := touch_account tb owner in
  let account := exchange_account tb owner in
  let '(available, required, lock) :=
    match side with
    | Buy => (base_balance account - locked_base account, notional, lock_base notional)
    | Sell => (compute_balance account - locked_compute account, quantity, lock_compute quantity)
    end in
  if available <? required then (tb1, Err (InsufficientBalance available required))
  else match update_account tb1 owner lock with
       | Ok tb2 => (tb2, Ok tt)
       | Err e => (tb1, Err e)
       | Panic => (tb1, Panic)
       end.

(** The taker's fee on a fill, in what the taker receives. *)
Definition fill_fee (side : Side) (fill_qty notional : N) : outcome BoardError N :=
  match side with
  | Buy => x ← mul64 fill_qty TAKER_FEE_BPS; Ok (x / 10000)
  | Sell => x ← mul64 notional TAKER_FEE_BPS; Ok (x / 10000)
  end.

(** The body of the [while] loop, for the resting order it found. *)
Definition fill (now : DateTime) (trade_id : Uuid) (tb : TaskBoard) (taker resting : Order)
    : outcome BoardError (TaskBoard * Order * Trade) :=
  taker_rest ← sub64 (o_quantity taker) (o_filled taker);
  resting_rest ← sub64 (o_quantity resting) (o_filled resting);
  let fill_qty := N.min taker_rest resting_rest in
  let execution_price := o_price resting in
  r_filled ← add64 (o_filled resting) fill_qty;
  let resting' := set_filled resting r_filled
                    (if o_quantity resting <=? r_filled then Filled else o_status resting) in
  let tb1 := with_orders tb (<[o_id resting := resting']> (tb_orders tb)) in
  t_filled ← add64 (o_filled taker) fill_qty;
  let taker' := set_filled taker t_filled (o_status taker) in
  let '(buy_owner, buy_price, sell_owner) :=
    match o_side taker with
    | Buy => (o_owner taker, o_price taker, o_owner resting)
    | Sell => (o_owner resting, o_price resting, o_owner taker)
    end in
  notional ← mul64 execution_price fill_qty;
  fee ← fill_fee (o_side taker) fill_qty notional;
  release ← mul64 buy_price fill_qty;
  compute_credit ← (match o_side taker with Buy => sub64 fill_qty fee | Sell => Ok fill_qty end);
  tb2 ← update_account tb1 buy_owner (fun a =>
          a ← unlock_base release a; a ← sub_base notional a; add_compute compute_credit a);
  base_credit ← (match o_side taker with Sell => sub64 notional fee | Buy => Ok notional end);
  tb3 ← update_account tb2 sell_owner (fun a =>
          a ← unlock_compute fill_qty a; a ← sub_compute fill_qty a; add_base base_credit a);
  let '(buy_id, sell_id) :=
    match o_side taker with
    | Buy => (o_id taker, o_id resting)
    | Sell => (o_id resting, o_id taker)
    end in
  Ok (tb3, taker', mkTrade trade_id buy_id sell_id buy_owner sell_owner execution_price fill_qty
                     now (o_side taker) fee).

(** [while taker.filled < taker.quantity { .. }] *)
Fixpoint match_loop (fuel : nat) (now : DateTime) (trade_id : nat -> Uuid) (tb : TaskBoard)
    (taker : Order) (trades : list Trade) : outcome BoardError (TaskBoard * Order * list Trade) :=
  match fuel with
  | O => Panic
  | S fuel' =>
      if o_filled taker <? o_quantity taker then
        match best_resting_match tb taker with
        | None => Ok (tb, taker, trades)
        | Some resting_id =>
            resting ← expect (tb_orders tb !! resting_id);
            '(tb', taker', trade) ← fill now (trade_id (length trades)) tb taker resting;
            match_loop fuel' now trade_id tb' taker' (trades ++ [trade])
        end
      else Ok (tb, taker, trades)
  end.

(** [TaskBoard::place_order] *)
Definition place_order (tb : TaskBoard) (order_id : Uuid) (trade_id : nat -> Uuid)
    (owner : PublicKey) (side : Side) (price quantity : N) (now : DateTime)
    : TaskBoard * outcome BoardError (Order * list Trade) :=
  if (price =? 0) || (quantity =? 0) then (tb, Err InvalidOrder)
  else match checked_mul price quantity with
  | None => (tb, Err OrderNotionalOverflow)
  | Some notional =>
      match lock_for_order tb owner side notional quantity with
      | (tb1, Err e) => (tb1, Err e)
      | (tb1, Panic) => (tb1, Panic)
      | (tb1, Ok _) =>
          let taker := mkOrder order_id owner side price quantity 0 OrderOpen now in
          match match_loop (S (size (tb_orders tb1))) now trade_id tb1 taker [] with
          | Err e => (tb1, Err e)
          | Panic => (tb1, Panic)
          | Ok (tb2, taker', trades) =>
              let taker'' := set_filled taker' (o_filled taker')
                (if o_quantity taker' <=? o_filled taker' then Filled else o_status taker') in
              (foldl restore_trade (restore_order tb2 taker'') trades, Ok (taker'', trades))
          end
      end
  end.

(** [TaskBoard::cancel_order] *)
Definition cancel_order (tb : TaskBoard) (order_id : Uuid) (caller : PublicKey)
    : outcome BoardError (TaskBoard * Order) :=
  order ← ok_or (tb_orders tb !! order_id) OrderNotFound;
  _ ← guard_ok (bool_decide (o_owner order = caller)) NotOrderOwner;
  _ ← guard_ok (bool_decide (o_status order = OrderOpen)) OrderNotOpen;
  remaining ← sub64 (o_quantity order) (o_filled order);
  let cancelled := set_filled order (o_filled order) Cancelled in
  let tb1 := with_orders tb (<[order_id := cancelled]> (tb_orders tb)) in
  tb2 ← (match o_side order with
         | Buy => release ← mul64 (o_price order) remaining;
                  update_account tb1 (o_owner order) (unlock_base release)
         | Sell => update_account tb1 (o_owner order) (unlock_compute remaining)
         end);
  Ok (tb2, cancelled).

(** [TaskBoard::order_book]: bids best first, asks best first. *)
Definition book_side (tb : TaskBoard) (side : Side) : list Order :=
  sort_by (priority_leb (opposite side))
    (base.filter (fun o => o_status o = OrderOpen /\ o_side o = side) (btree_values (tb_orders tb))).
Definition order_book (tb : TaskBoard) : list Order * list Order :=
  (book_side tb Buy, book_side tb Sell).

(** ** The handler's staged copy *)

(** The [filter] of [stage_order]. *)
Definition stageable (owner : PublicKey) (side : Side) (price : N) (o : Order) : Prop :=
  o_status o = OrderOpen /\ o_owner o <> owner /\ o_side o <> side /\
  crosses side (o_price o) price = true.
#[export] Instance stageable_dec owner side price o : Decision (stageable owner side price o).
Proof. unfold stageable. apply _. Defined.

(** [TaskBoard::stage_order] *)
Definition stage_order (tb : TaskBoard) (owner : PublicKey) (side : Side) (price : N)
    (fee_sink : PublicKey) : TaskBoard :=
  let staged := restore_exchange_account new_board owner (exchange_account tb owner) in
  let staged := restore_exchange_account staged fee_sink (exchange_account tb fee_sink) in
  foldl (fun st o => restore_order
           (restore_exchange_account st (o_owner o) (exchange_account tb (o_owner o))) o)
    staged (base.filter (stageable owner side price) (btree_values (tb_orders tb))).

(** [handlers::taker_fee_totals] *)
Definition taker_fee_totals (trades : list Trade) : outcome BoardError (N * N) :=
  ofold (fun '(compute, base) t =>
    match taker_side t with
    | Buy => c ← add64 compute (taker_fee t); Ok (c, base)
    | Sell => b ← add64 base (taker_fee t); Ok (compute, b)
    end) (0, 0) trades.

(** Crediting the fees of a batch of trades to the sink. *)
Definition credit_fees (tb : TaskBoard) (fee_sink : PublicKey) (trades : list Trade)
    : outcome BoardError (TaskBoard * bool) :=
  '(compute_fees, base_fees) ← taker_fee_totals trades;
  tb ← (if 0 <? compute_fees then credit_compute tb fee_sink compute_fees else Ok tb);
  tb ← (if 0 <? base_fees then credit_base tb fee_sink base_fees else Ok tb);
  Ok (tb, (0 <? compute_fees) || (0 <? base_fees)).

(** The records the handler reads back from the staged board. *)
Definition touched_orders (order : Order) (trades : list Trade) : gset Uuid :=
  list_to_set (concat ((fun t => [buy_order_id t; sell_order_id t]) <$> trades)) ∖ {[o_id order]}.
Definition touched_accounts (order : Order) (trades : list Trade) (fee_sink : PublicKey)
    (fees : bool) : gset PublicKey :=
  list_to_set (concat ((fun t => [buyer t; seller t]) <$> trades)) ∪ {[o_owner order]}
  ∪ (if fees then {[fee_sink]} else ∅).

(** [handlers::place_order], once the envelope is verified: the order runs on
    the staged copy, the store commits (its failure is a 500 and publishes
    nothing), and the records it touched are published. *)
Definition handle_place_order (live : TaskBoard) (fee_sink : PublicKey) (order_id : Uuid)
    (trade_id : nat -> Uuid) (pubkey : PublicKey) (side : Side) (price quantity : N)
    (now : DateTime) : outcome BoardError (TaskBoard * Order) :=
  match place_order (stage_order live pubkey side price fee_sink) order_id trade_id pubkey side
          price quantity now with
  | (_, Err e) => Err e
  | (_, Panic) => Panic
  | (staged, Ok (order, trades)) =>
      '(staged, fees) ← credit_fees staged fee_sink trades;
      let orders := order :: omap (get_order staged) (elements (touched_orders order trades)) in
      let accounts := (fun pk => (pk, exchange_account staged pk)) <$>
                        elements (touched_accounts order trades fee_sink fees) in
      let live := foldl restore_order live orders in
      let live := foldl restore_trade live trades in
      Ok (foldl (fun tb e => restore_exchange_account tb e.1 e.2) live accounts, order)
  end.

(** [handlers::cancel_order], on a staged copy of the order and the account. *)
Definition handle_cancel_order (live : TaskBoard) (order_id : Uuid) (pubkey : PublicKey)
    : outcome BoardError (TaskBoard * Order) :=
  o ← ok_or (get_order live order_id) OrderNotFound;
  let staged := restore_exchange_account (restore_order new_board o) pubkey
                  (exchange_account live pubkey) in
  '(staged, order) ← cancel_order staged order_id pubkey;
  Ok (restore_exchange_account (restore_order live order) pubkey (exchange_account staged pubkey),
      order).
