(* ===== verification/ExchangeInv.v ===== *)
(** * ExchangeInv: the ledger invariant of the exchange

    An account's locked balances are exactly what its open orders still need,
    and are covered by its balances; the totals of each asset leave room for
    the fee arithmetic. Under it a fill moves value between two accounts and
    into the fee, and no checked operation of the matching loop fails. *)

From S2P Require Import Prelude Types BoardTypes Exchange.

(** ** The ledger *)
Definition acct (accts : gmap PublicKey ExchangeAccount) (pk : PublicKey) : ExchangeAccount :=
  default ExchangeAccount_default (accts !! pk).

(** What an order keeps locked of its owner's base and compute balance. *)
Definition base_need (o : Order) : N :=
  match o_side o, o_status o with
  | Buy, OrderOpen => o_price o * (o_quantity o - o_filled o)
  | _, _ => 0
  end.
Definition compute_need (o : Order) : N :=
  match o_side o, o_status o with
  | Sell, OrderOpen => o_quantity o - o_filled o
  | _, _ => 0
  end.
Definition need_of (need : Order -> N) (pk : PublicKey) (o : Order) : N :=
  if decide (o_owner o = pk) then need o else 0.

Definition base_total (accts : gmap PublicKey ExchangeAccount) : N := map_sum base_balance accts.
Definition compute_total (accts : gmap PublicKey ExchangeAccount) : N :=
  map_sum compute_balance accts.

Record order_ok (id : Uuid) (o : Order) : Prop := {
  ok_id : o_id o = id;
  ok_filled : o_filled o <= o_quantity o;
  ok_notional : o_price o * o_quantity o <= U64_MAX;
  ok_quantity : o_quantity o <= U64_MAX
}.

(** The room the fee arithmetic needs: ten times a total still fits. *)
Definition roomy (t : N) : Prop := t * TAKER_FEE_BPS <= U64_MAX.

Record ledger_ok (accts : gmap PublicKey ExchangeAccount) (orders : gmap Uuid Order) : Prop := {
  lo_orders : map_Forall order_ok orders;
  lo_base pk : locked_base (acct accts pk) = map_sum (need_of base_need pk) orders;
  lo_compute pk : locked_compute (acct accts pk) = map_sum (need_of compute_need pk) orders;
  lo_base_backed pk : locked_base (acct accts pk) <= base_balance (acct accts pk);
  lo_compute_backed pk : locked_compute (acct accts pk) <= compute_balance (acct accts pk);
  lo_base_room : roomy (base_total accts);
  lo_compute_room : roomy (compute_total accts)
}.

(** A board at rest: besides, an open order has something left to fill. *)
Record book_ok (tb : TaskBoard) : Prop := {
  bo_ledger : ledger_ok (tb_accounts tb) (tb_orders tb);
  bo_open : map_Forall (fun _ o => o_status o = OrderOpen -> o_filled o < o_quantity o)
              (tb_orders tb)
}.

Section accounts.
Implicit Types (accts : gmap PublicKey ExchangeAccount) (pk : PublicKey) (a : ExchangeAccount).

Lemma acct_insert_eq accts pk a : acct (<[pk := a]> accts) pk = a.
Proof. unfold acct. by rewrite lookup_insert_eq. Qed.
Lemma acct_insert_ne accts pk pk' a : pk <> pk' -> acct (<[pk := a]> accts) pk' = acct accts pk'.
Proof. intros Hne. unfold acct. by rewrite lookup_insert_ne. Qed.

Lemma acct_insert_case accts pk pk' a :
  acct (<[pk := a]> accts) pk' = if decide (pk = pk') then a else acct accts pk'.
Proof. case_decide as E; [subst; apply acct_insert_eq|by apply acct_insert_ne]. Qed.

(** Replacing an account moves a total by the difference. *)
Lemma acct_sum_insert (f : ExchangeAccount -> N) accts pk a :
  f ExchangeAccount_default = 0 ->
  map_sum f (<[pk := a]> accts) + f (acct accts pk) = map_sum f accts + f a.
Proof.
  intros H0. unfold acct. destruct (accts !! pk) as [x|] eqn:E; cbn [default].
  - by apply map_sum_update.
  - rewrite map_sum_insert by done. unfold ExchangeAccount_default in *. lia.
Qed.

Lemma acct_sum_le (f : ExchangeAccount -> N) accts pk :
  f ExchangeAccount_default = 0 -> f (acct accts pk) <= map_sum f accts.
Proof.
  intros H0. unfold acct. destruct (accts !! pk) as [x|] eqn:E; cbn [default].
  - by eapply map_sum_lookup_le.
  - unfold ExchangeAccount_default in *. lia.
Qed.

Lemma acct_sum_le2 (f : ExchangeAccount -> N) accts pk1 pk2 :
  f ExchangeAccount_default = 0 -> pk1 <> pk2 ->
  f (acct accts pk1) + f (acct accts pk2) <= map_sum f accts.
Proof.
  intros H0 Hne. pose proof (acct_sum_insert f accts pk1 ExchangeAccount_default H0) as H1.
  pose proof (acct_sum_le f (<[pk1 := ExchangeAccount_default]> accts) pk2 H0) as H2.
  rewrite acct_insert_ne in H2 by done. lia.
Qed.

Lemma acct_sum_insert2 (f : ExchangeAccount -> N) accts pk1 pk2 a1 a2 :
  f ExchangeAccount_default = 0 -> pk1 <> pk2 ->
  map_sum f (<[pk2 := a2]> (<[pk1 := a1]> accts)) + f (acct accts pk1) + f (acct accts pk2)
  = map_sum f accts + f a1 + f a2.
Proof.
  intros H0 Hne. pose proof (acct_sum_insert f accts pk1 a1 H0) as H1.
  pose proof (acct_sum_insert f (<[pk1 := a1]> accts) pk2 a2 H0) as H2.
  rewrite acct_insert_ne in H2 by done. lia.
Qed.

Lemma exchange_account_acct tb pk : exchange_account tb pk = acct (tb_accounts tb) pk.
Proof. done. Qed.

End accounts.

(** ** Orders and their needs *)
Section needs.
Implicit Types (o : Order) (orders : gmap Uuid Order).

(** A fill of [q] takes exactly the filled part off an open order's need; the
    status it ends with does not matter once nothing is left. *)
Lemma base_need_fill o q st :
  o_status o = OrderOpen -> o_filled o + q <= o_quantity o ->
  st = OrderOpen \/ (st = Filled /\ o_quantity o <= o_filled o + q) ->
  base_need (set_filled o (o_filled o + q) st)
  + (match o_side o with Buy => o_price o * q | Sell => 0 end) = base_need o.
Proof.
  intros Ho Hq Hst. unfold base_need. cbn. rewrite Ho. destruct (o_side o); [|lia].
  destruct Hst as [->|[-> Hfull]]; nia.
Qed.

Lemma compute_need_fill o q st :
  o_status o = OrderOpen -> o_filled o + q <= o_quantity o ->
  st = OrderOpen \/ (st = Filled /\ o_quantity o <= o_filled o + q) ->
  compute_need (set_filled o (o_filled o + q) st)
  + (match o_side o with Sell => q | Buy => 0 end) = compute_need o.
Proof.
  intros Ho Hq Hst. unfold compute_need. cbn. rewrite Ho. destruct (o_side o); [lia|].
  destruct Hst as [->|[-> Hfull]]; lia.
Qed.

Lemma need_sum_update need orders id o o' pk d :
  orders !! id = Some o -> o_owner o' = o_owner o -> need o' + d = need o ->
  map_sum (need_of need pk) (<[id := o']> orders) + (if decide (o_owner o = pk) then d else 0)
  = map_sum (need_of need pk) orders.
Proof.
  intros Ho Hown Hd. pose proof (map_sum_update (need_of need pk) orders id o o' Ho) as Hu.
  unfold need_of at 2 4 in Hu. rewrite Hown in Hu. case_decide; lia.
Qed.

Lemma need_sum_update2 need orders id1 id2 o1 o2 o1' o2' pk d1 d2 :
  id1 <> id2 -> orders !! id1 = Some o1 -> orders !! id2 = Some o2 ->
  o_owner o1' = o_owner o1 -> o_owner o2' = o_owner o2 ->
  need o1' + d1 = need o1 -> need o2' + d2 = need o2 ->
  map_sum (need_of need pk) (<[id2 := o2']> (<[id1 := o1']> orders))
  + (if decide (o_owner o1 = pk) then d1 else 0) + (if decide (o_owner o2 = pk) then d2 else 0)
  = map_sum (need_of need pk) orders.
Proof.
  intros Hne H1 H2 E1 E2 D1 D2.
  pose proof (need_sum_update need orders id1 o1 o1' pk d1 H1 E1 D1).
  pose proof (need_sum_update need (<[id1 := o1']> orders) id2 o2 o2' pk d2) as Hu.
  rewrite lookup_insert_ne in Hu by done. specialize (Hu H2 E2 D2). lia.
Qed.

Lemma order_ok_fill id o q st :
  order_ok id o -> o_filled o + q <= o_quantity o -> order_ok id (set_filled o (o_filled o + q) st).
Proof. intros [H1 H2 H3 H4] Hq. by split. Qed.

(** An open order's need is part of what its owner has locked. *)
Lemma need_locked accts orders id o :
  ledger_ok accts orders -> orders !! id = Some o ->
  base_need o <= locked_base (acct accts (o_owner o)) /\
  compute_need o <= locked_compute (acct accts (o_owner o)).
Proof.
  intros L Ho. rewrite (lo_base _ _ L), (lo_compute _ _ L).
  pose proof (map_sum_lookup_le (need_of base_need (o_owner o)) orders id o Ho) as H1.
  pose proof (map_sum_lookup_le (need_of compute_need (o_owner o)) orders id o Ho) as H2.
  unfold need_of in H1 at 1. unfold need_of in H2 at 1. by rewrite decide_True in H1, H2 by done.
Qed.

End needs.

(** ** One fill *)
Section fill.
Implicit Types (accts : gmap PublicKey ExchangeAccount) (orders : gmap Uuid Order).

(** A fill of [q] between an open buy [b] and an open sell [s] of two owners,
    at a notional [n] within the buyer's limit, with fees out of what each
    side receives. *)
Record fillable accts orders (bid sid : Uuid) (b s : Order) (q n cfee bfee : N) : Prop := {
  fi_ledger : ledger_ok accts orders;
  fi_buy : orders !! bid = Some b;
  fi_sell : orders !! sid = Some s;
  fi_buy_open : o_status b = OrderOpen /\ o_side b = Buy;
  fi_sell_open : o_status s = OrderOpen /\ o_side s = Sell;
  fi_owners : o_owner b <> o_owner s;
  fi_buy_left : o_filled b + q <= o_quantity b;
  fi_sell_left : o_filled s + q <= o_quantity s;
  fi_limit : n <= o_price b * q;
  fi_cfee : cfee <= q;
  fi_bfee : bfee <= n
}.

Definition buyer_after (a : ExchangeAccount) (release n credit : N) : ExchangeAccount :=
  mkAccount (base_balance a - n) (locked_base a - release) (compute_balance a + credit)
    (locked_compute a).
Definition seller_after (a : ExchangeAccount) (q credit : N) : ExchangeAccount :=
  mkAccount (base_balance a + credit) (locked_base a) (compute_balance a - q)
    (locked_compute a - q).

(** What the two accounts hold before it. *)
Lemma fillable_funds accts orders bid sid b s q n cfee bfee :
  fillable accts orders bid sid b s q n cfee bfee ->
  let A := acct accts (o_owner b) in let S := acct accts (o_owner s) in
  o_price b * q <= locked_base A /\ locked_base A <= base_balance A /\
  q <= locked_compute S /\ locked_compute S <= compute_balance S /\
  base_balance A + base_balance S <= base_total accts /\
  compute_balance A + compute_balance S <= compute_total accts /\
  o_price b * q <= U64_MAX.
Proof.
  intros F A S. destruct F as [L Hb Hs [Hbo Hbs] [Hso Hss] Hne Hbl Hsl _ _ _].
  destruct (need_locked accts orders bid b L Hb) as [H1 _].
  destruct (need_locked accts orders sid s L Hs) as [_ H2].
  unfold base_need in H1. unfold compute_need in H2. rewrite Hbo, Hbs in H1. rewrite Hso, Hss in H2.
  pose proof (lo_base_backed _ _ L (o_owner b)). pose proof (lo_compute_backed _ _ L (o_owner s)).
  pose proof (ok_notional _ _ (lo_orders _ _ L bid b Hb)) as Hn.
  split_and!; [subst A; nia|done|subst S; lia|done|..|nia].
  - by apply acct_sum_le2.
  - by apply acct_sum_le2.
Qed.

Section after.
Context accts orders (bid sid : Uuid) (b s : Order) (q n cfee bfee : N) (st1 st2 : OrderStatus).
Context (F : fillable accts orders bid sid b s q n cfee bfee).
Context (Hst1 : st1 = OrderOpen \/ (st1 = Filled /\ o_quantity b <= o_filled b + q)).
Context (Hst2 : st2 = OrderOpen \/ (st2 = Filled /\ o_quantity s <= o_filled s + q)).

Let A := acct accts (o_owner b).
Let S := acct accts (o_owner s).
Let accts' := <[o_owner s := seller_after S q (n - bfee)]>
                (<[o_owner b := buyer_after A (o_price b * q) n (q - cfee)]> accts).
Let orders' := <[sid := set_filled s (o_filled s + q) st2]>
                 (<[bid := set_filled b (o_filled b + q) st1]> orders).

Lemma fill_totals :
  base_total accts' + bfee = base_total accts /\ compute_total accts' + cfee = compute_total accts.
Proof.
  clear orders' Hst1 Hst2 st1 st2.
  pose proof (fillable_funds _ _ _ _ _ _ _ _ _ _ F) as Hf. cbv zeta in Hf. fold A S in Hf.
  pose proof (fi_owners _ _ _ _ _ _ _ _ _ _ F) as Hne.
  pose proof (fi_limit _ _ _ _ _ _ _ _ _ _ F). pose proof (fi_cfee _ _ _ _ _ _ _ _ _ _ F).
  pose proof (fi_bfee _ _ _ _ _ _ _ _ _ _ F).
  split; [pose proof (acct_sum_insert2 base_balance accts _ _
            (buyer_after A (o_price b * q) n (q - cfee)) (seller_after S q (n - bfee)) eq_refl Hne) as E
         |pose proof (acct_sum_insert2 compute_balance accts _ _
            (buyer_after A (o_price b * q) n (q - cfee)) (seller_after S q (n - bfee)) eq_refl Hne) as E];
    fold A S in E; cbn in E; unfold base_total, compute_total, accts' in *; lia.
Qed.

Lemma fill_needs pk :
  map_sum (need_of base_need pk) orders' + (if decide (o_owner b = pk) then o_price b * q else 0)
  = map_sum (need_of base_need pk) orders /\
  map_sum (need_of compute_need pk) orders' + (if decide (o_owner s = pk) then q else 0)
  = map_sum (need_of compute_need pk) orders.
Proof.
  destruct F as [L Hb Hs [Hbo Hbs] [Hso Hss] Hne Hbl Hsl _ _ _].
  assert (Hids : bid <> sid) by (intros ->; congruence).
  pose proof (base_need_fill b q st1 Hbo Hbl Hst1) as Nb. rewrite Hbs in Nb.
  pose proof (base_need_fill s q st2 Hso Hsl Hst2) as Ns. rewrite Hss in Ns.
  pose proof (compute_need_fill b q st1 Hbo Hbl Hst1) as Cb. rewrite Hbs in Cb.
  pose proof (compute_need_fill s q st2 Hso Hsl Hst2) as Cs. rewrite Hss in Cs.
  pose proof (need_sum_update2 base_need orders bid sid b s (set_filled b (o_filled b + q) st1)
    (set_filled s (o_filled s + q) st2) pk _ _ Hids Hb Hs
    eq_refl eq_refl Nb Ns) as E1.
  pose proof (need_sum_update2 compute_need orders bid sid b s (set_filled b (o_filled b + q) st1)
    (set_filled s (o_filled s + q) st2) pk _ _ Hids Hb Hs
    eq_refl eq_refl Cb Cs) as E2.
  unfold orders'. split; repeat case_decide; lia.
Qed.

Lemma fill_accts pk : acct accts' pk =
  if decide (o_owner s = pk) then seller_after S q (n - bfee)
  else if decide (o_owner b = pk) then buyer_after A (o_price b * q) n (q - cfee)
  else acct accts pk.
Proof. unfold accts'. by rewrite !acct_insert_case. Qed.

Lemma ledger_fill : ledger_ok accts' orders'.
Proof.
  pose proof (fillable_funds _ _ _ _ _ _ _ _ _ _ F) as Hf. cbv zeta in Hf. fold A S in Hf.
  destruct Hf as (F1 & F2 & F3 & F4 & F5 & F6 & _). destruct fill_totals as [Tb Tc].
  pose proof F as [L Hb Hs _ _ Hne Hbl Hsl Hn Hc Hbf].
  split; [| | | | | |].
  - unfold orders'. apply map_Forall_insert_2; [by apply order_ok_fill; [apply (lo_orders _ _ L)|]|].
    apply map_Forall_insert_2; [by apply order_ok_fill; [apply (lo_orders _ _ L)|]|apply L].
  - intros pk. destruct (fill_needs pk) as [Hnb _]. rewrite fill_accts. revert Hnb.
    pose proof (lo_base _ _ L pk) as Hl.
    destruct (decide (o_owner s = pk)) as [<-|]; [rewrite decide_False by done; cbn; fold S in Hl; lia|].
    destruct (decide (o_owner b = pk)) as [<-|]; cbn; [fold A in Hl; lia|lia].
  - intros pk. destruct (fill_needs pk) as [_ Hnc]. rewrite fill_accts. revert Hnc.
    pose proof (lo_compute _ _ L pk) as Hl.
    destruct (decide (o_owner s = pk)) as [<-|]; [cbn; fold S in Hl; lia|].
    destruct (decide (o_owner b = pk)) as [<-|]; cbn; [fold A in Hl; lia|lia].
  - intros pk. rewrite fill_accts. pose proof (lo_base_backed _ _ L pk) as Hl.
    destruct (decide (o_owner s = pk)) as [<-|]; [cbn; fold S in Hl; lia|].
    destruct (decide (o_owner b = pk)) as [<-|]; cbn; lia.
  - intros pk. rewrite fill_accts. pose proof (lo_compute_backed _ _ L pk) as Hl.
    destruct (decide (o_owner s = pk)) as [<-|]; [cbn; lia|].
    destruct (decide (o_owner b = pk)) as [<-|]; cbn; [fold A in Hl; lia|lia].
  - pose proof (lo_base_room _ _ L) as Hr. unfold roomy, TAKER_FEE_BPS in *. lia.
  - pose proof (lo_compute_room _ _ L) as Hr. unfold roomy, TAKER_FEE_BPS in *. lia.
Qed.

End after.
End fill.

(** ** The loop body *)
Section body.
Implicit Types (tb : TaskBoard) (taker resting : Order).

Lemma buyer_update a release n c :
  release <= locked_base a -> n <= base_balance a -> compute_balance a + c <= U64_MAX ->
  (a1 ← unlock_base release a; a2 ← sub_base n a1; add_compute c a2)
  = Ok (buyer_after a release n c).
Proof.
  intros H1 H2 H3. unfold unlock_base, sub_base, add_compute. rewrite sub64_fits by done. cbn.
  rewrite sub64_fits by done. cbn. by rewrite add64_fits.
Qed.

Lemma seller_update a q c :
  q <= locked_compute a -> q <= compute_balance a -> base_balance a + c <= U64_MAX ->
  (a1 ← unlock_compute q a; a2 ← sub_compute q a1; add_base c a2) = Ok (seller_after a q c).
Proof.
  intros H1 H2 H3. unfold unlock_compute, sub_compute, add_base. rewrite sub64_fits by done. cbn.
  rewrite sub64_fits by done. cbn. by rewrite add64_fits.
Qed.

Lemma update_account_Ok tb pk f a :
  f (exchange_account tb pk) = Ok a -> update_account tb pk f = Ok (restore_exchange_account tb pk a).
Proof. intros E. unfold update_account. by rewrite E. Qed.

(** A tenth of a percent, rounded down, of an amount that leaves room for the
    product. *)
Definition fee_of (x : N) : N := x * TAKER_FEE_BPS / 10000.
Lemma fee_of_le x : fee_of x <= x.
Proof. unfold fee_of, TAKER_FEE_BPS. apply N.Div0.div_le_upper_bound. lia. Qed.

(** The fees of a trade by asset. *)
Definition compute_fee (t : Trade) : N :=
  match taker_side t with Buy => taker_fee t | Sell => 0 end.
Definition base_fee (t : Trade) : N :=
  match taker_side t with Sell => taker_fee t | Buy => 0 end.

Definition fill_qty taker resting : N :=
  N.min (o_quantity taker - o_filled taker) (o_quantity resting - o_filled resting).
Definition resting_after taker resting : Order :=
  let filled := o_filled resting + fill_qty taker resting in
  set_filled resting filled (if o_quantity resting <=? filled then Filled else o_status resting).
Definition taker_after taker resting : Order :=
  set_filled taker (o_filled taker + fill_qty taker resting) (o_status taker).
Definition trade_of now tid taker resting : Trade :=
  let q := fill_qty taker resting in
  match o_side taker with
  | Buy => mkTrade tid (o_id taker) (o_id resting) (o_owner taker) (o_owner resting)
             (o_price resting) q now Buy (fee_of q)
  | Sell => mkTrade tid (o_id resting) (o_id taker) (o_owner resting) (o_owner taker)
              (o_price resting) q now Sell (fee_of (o_price resting * q))
  end.

(** A trade of a taker: it names an order that was open on the other side, executes at
    that order's price, and its fee is the taker's rate of what the taker receives. *)
Definition executed (orders : gmap Uuid Order) taker (now : DateTime) (t : Trade) : Prop :=
  exists resting, orders !! o_id resting = Some resting /\ matchable taker resting /\
    tr_price t = o_price resting /\ executed_at t = now /\ taker_side t = o_side taker /\
    match o_side taker with
    | Buy => buy_order_id t = o_id taker /\ sell_order_id t = o_id resting /\
        buyer t = o_owner taker /\ seller t = o_owner resting /\
        taker_fee t = tr_quantity t * TAKER_FEE_BPS / 10000
    | Sell => buy_order_id t = o_id resting /\ sell_order_id t = o_id taker /\
        buyer t = o_owner resting /\ seller t = o_owner taker /\
        taker_fee t = tr_price t * tr_quantity t * TAKER_FEE_BPS / 10000
    end.

(** What a trade takes from and gives to an account. *)
Definition base_paid pk (t : Trade) : N := if decide (buyer t = pk) then tr_price t * tr_quantity t else 0.
Definition base_got pk (t : Trade) : N := if decide (seller t = pk) then tr_price t * tr_quantity t - base_fee t else 0.
Definition compute_paid pk (t : Trade) : N := if decide (seller t = pk) then tr_quantity t else 0.
Definition compute_got pk (t : Trade) : N := if decide (buyer t = pk) then tr_quantity t - compute_fee t else 0.
Definition settled_by (accts accts' : gmap PublicKey ExchangeAccount) (trades : list Trade) : Prop := forall pk,
  base_balance (acct accts' pk) + sumN (base_paid pk <$> trades) = base_balance (acct accts pk) + sumN (base_got pk <$> trades) /\
  compute_balance (acct accts' pk) + sumN (compute_paid pk <$> trades) = compute_balance (acct accts pk) + sumN (compute_got pk <$> trades).

(** What the loop relies on at each turn: the ledger balances once the taker
    counts as an order. *)
Record matching tb taker : Prop := {
  ma_fresh : tb_orders tb !! o_id taker = None;
  ma_open : o_status taker = OrderOpen;
  ma_ledger : ledger_ok (tb_accounts tb) (<[o_id taker := taker]> (tb_orders tb));
  ma_resting : map_Forall (fun _ o => o_status o = OrderOpen -> o_filled o < o_quantity o)
                 (tb_orders tb)
}.

Section turn.
Context tb taker resting (M : matching tb taker).
Context (Hr : tb_orders tb !! o_id resting = Some resting) (Hm : matchable taker resting).
Context (Hleft : o_filled taker < o_quantity taker).

Let q := fill_qty taker resting.
Let n := o_price resting * q.

Lemma turn_ids : o_id taker <> o_id resting.
Proof. intros E. pose proof (ma_fresh _ _ M) as Hf. rewrite E, Hr in Hf. done. Qed.

Lemma turn_resting_left : o_filled resting < o_quantity resting.
Proof. apply (ma_resting _ _ M _ _ Hr), Hm. Qed.

(** The two orders as the buy and the sell of a fill. *)
Lemma turn_fillable :
  match o_side taker with
  | Buy => fillable (tb_accounts tb) (<[o_id taker := taker]> (tb_orders tb)) (o_id taker)
             (o_id resting) taker resting q n (fee_of q) 0
  | Sell => fillable (tb_accounts tb) (<[o_id taker := taker]> (tb_orders tb)) (o_id resting)
              (o_id taker) resting taker q n 0 (fee_of n)
  end.
Proof.
  pose proof turn_ids as Hid. pose proof turn_resting_left as Hrl.
  destruct Hm as (Ho & Hs & Hw & Hc). pose proof (ma_open _ _ M) as Hto.
  pose proof (ma_ledger _ _ M) as L. pose proof (fee_of_le q). pose proof (fee_of_le n).
  assert (q <= o_quantity taker - o_filled taker /\ q <= o_quantity resting - o_filled resting)
    by (unfold q, fill_qty; lia).
  destruct (o_side taker) eqn:Es; cbn [opposite crosses] in Hs, Hc; apply N.leb_le in Hc.
  - split; [done|apply lookup_insert_eq|by rewrite lookup_insert_ne|done|done|congruence|lia|lia| |lia|lia].
    unfold n. by apply N.mul_le_mono_r.
  - split; [done|by rewrite lookup_insert_ne|apply lookup_insert_eq|done|done|congruence|lia|lia|..]; lia.
Qed.

Lemma turn_checks :
  mul64 (E := BoardError) (o_price resting) q = Ok n /\
  fill_fee (o_side taker) q n = Ok (fee_of (match o_side taker with Buy => q | Sell => n end)) /\
  add64 (E := BoardError) (o_filled resting) q = Ok (o_filled resting + q) /\
  add64 (E := BoardError) (o_filled taker) q = Ok (o_filled taker + q).
Proof.
  pose proof turn_fillable as F. pose proof (ma_ledger _ _ M) as L.
  pose proof (lo_base_room _ _ L) as Rb. pose proof (lo_compute_room _ _ L) as Rc.
  unfold roomy, TAKER_FEE_BPS in Rb, Rc.
  pose proof (ok_quantity _ _ (lo_orders _ _ L _ _ (lookup_insert_eq _ _ _))) as Hq1.
  assert (Hq2 : o_quantity resting <= U64_MAX).
  { eapply (ok_quantity (o_id resting)), (lo_orders _ _ L).
    rewrite lookup_insert_ne by apply turn_ids. done. }
  assert (q <= o_quantity taker - o_filled taker /\ q <= o_quantity resting - o_filled resting)
    by (unfold q, fill_qty; lia).
  pose proof turn_resting_left.
  destruct (o_side taker); apply fillable_funds in F as Hf; cbv zeta in Hf;
    pose proof (fi_limit _ _ _ _ _ _ _ _ _ _ F);
    (split_and!; [apply mul64_fits; fold n; lia| |apply add64_fits; lia|apply add64_fits; lia]);
    unfold fill_fee, TAKER_FEE_BPS; (rewrite mul64_fits by lia); done.
Qed.

Lemma resting_after_status :
  o_status (resting_after taker resting) = OrderOpen \/
  (o_status (resting_after taker resting) = Filled /\ o_quantity resting <= o_filled resting + q).
Proof.
  unfold resting_after. cbn. fold q. destruct (N.leb_spec (o_quantity resting) (o_filled resting + q));
    [by right|left; apply Hm].
Qed.

(** The accounts after the turn. *)
Definition accts_after : gmap PublicKey ExchangeAccount :=
  let accts := tb_accounts tb in
  match o_side taker with
  | Buy => <[o_owner resting := seller_after (acct accts (o_owner resting)) q n]>
             (<[o_owner taker :=
                 buyer_after (acct accts (o_owner taker)) (o_price taker * q) n (q - fee_of q)]> accts)
  | Sell => <[o_owner taker := seller_after (acct accts (o_owner taker)) q (n - fee_of n)]>
              (<[o_owner resting :=
                  buyer_after (acct accts (o_owner resting)) (o_price resting * q) n q]> accts)
  end.
Definition board_after : TaskBoard :=
  with_accounts (with_orders tb (<[o_id resting := resting_after taker resting]> (tb_orders tb)))
    accts_after.

Lemma fill_runs now tid :
  fill now tid tb taker resting
  = Ok (board_after, taker_after taker resting, trade_of now tid taker resting).
Proof.
  pose proof turn_fillable as F. destruct turn_checks as (C1 & C2 & C3 & C4).
  pose proof turn_resting_left as Hrl. pose proof (ma_ledger _ _ M) as L.
  pose proof (lo_base_room _ _ L) as Rb. pose proof (lo_compute_room _ _ L) as Rc.
  pose proof (fee_of_le q). pose proof (fee_of_le n). unfold roomy, TAKER_FEE_BPS in Rb, Rc.
  unfold fill. rewrite !sub64_fits by lia. cbn [mbind outcome_bind].
  fold (fill_qty taker resting). fold q. rewrite C3. cbn [mbind outcome_bind]. rewrite C4.
  cbn [mbind outcome_bind]. unfold board_after, accts_after, trade_of. fold q n.
  destruct (o_side taker) eqn:Es; apply fillable_funds in F as Hf; cbv zeta in Hf;
    pose proof (fi_limit _ _ _ _ _ _ _ _ _ _ F); pose proof (fi_owners _ _ _ _ _ _ _ _ _ _ F) as Hne;
    rewrite C1; cbn [mbind outcome_bind]; rewrite C2; cbn [mbind outcome_bind];
    rewrite ?mul64_fits by lia; cbn [mbind outcome_bind];
    rewrite ?sub64_fits by lia; cbn [mbind outcome_bind].
  - erewrite update_account_Ok; [|apply buyer_update; rewrite exchange_account_acct; cbn; lia].
    cbn [mbind outcome_bind]. erewrite update_account_Ok;
      [|apply seller_update; rewrite exchange_account_acct; cbn; rewrite acct_insert_ne by done; lia].
    cbn [mbind outcome_bind]. rewrite !exchange_account_acct. cbn. rewrite acct_insert_ne by done.
    done.
  - erewrite update_account_Ok; [|apply buyer_update; rewrite exchange_account_acct; cbn; lia].
    cbn [mbind outcome_bind]. erewrite update_account_Ok;
      [|apply seller_update; rewrite exchange_account_acct; cbn; rewrite acct_insert_ne by done; lia].
    cbn [mbind outcome_bind]. rewrite !exchange_account_acct. cbn. rewrite acct_insert_ne by done.
    done.
Qed.

(** The turn keeps what the loop relies on, and moves value only into the
    fee. *)
Lemma turn_ledger now tid :
  ledger_ok accts_after
    (<[o_id taker := taker_after taker resting]>
       (<[o_id resting := resting_after taker resting]> (tb_orders tb))) /\
  base_total accts_after + base_fee (trade_of now tid taker resting) = base_total (tb_accounts tb) /\
  compute_total accts_after + compute_fee (trade_of now tid taker resting)
  = compute_total (tb_accounts tb).
Proof.
  pose proof turn_fillable as F. pose proof turn_ids as Hid. pose proof resting_after_status as Hst.
  pose proof (ma_open _ _ M) as Hto.
  unfold accts_after, trade_of, base_fee, compute_fee. fold q n.
  destruct (o_side taker) eqn:Es; cbn [taker_side taker_fee].
  - destruct (fill_totals _ _ _ _ _ _ _ _ _ _ F) as [T1 T2]. rewrite N.sub_0_r in T1, T2.
    split_and!; [|lia|lia].
    pose proof (ledger_fill _ _ _ _ _ _ _ _ _ _ (o_status taker) _ F (or_introl Hto) Hst) as Hl.
    rewrite N.sub_0_r in Hl. rewrite insert_insert_eq, (insert_insert_ne (tb_orders tb)) in Hl by done. exact Hl.
  - destruct (fill_totals _ _ _ _ _ _ _ _ _ _ F) as [T1 T2]. rewrite N.sub_0_r in T1, T2.
    fold n in T1, T2. split_and!; [|lia|lia].
    pose proof (ledger_fill _ _ _ _ _ _ _ _ _ _ _ (o_status taker) F Hst (or_introl Hto)) as Hl.
    rewrite N.sub_0_r in Hl. fold n in Hl.
    rewrite (insert_insert_ne (tb_orders tb) (o_id resting)), insert_insert_eq in Hl by done. exact Hl.
Qed.

(** The turn's trade, and what it does to every account. *)
Lemma turn_executed now tid : executed (tb_orders tb) taker now (trade_of now tid taker resting).
Proof. exists resting. split; [done|]. split; [done|]. unfold trade_of. by destruct (o_side taker). Qed.
Lemma turn_settled now tid : settled_by (tb_accounts tb) accts_after [trade_of now tid taker resting].
Proof.
  pose proof turn_fillable as F. pose proof (fee_of_le q). pose proof (fee_of_le n). intros pk.
  unfold accts_after, trade_of, base_paid, base_got, compute_paid, compute_got, base_fee, compute_fee. fold q n.
  destruct (o_side taker) eqn:Es; cbn [fmap list_fmap buyer seller tr_price tr_quantity taker_side taker_fee]; fold n;
    pose proof (fi_owners _ _ _ _ _ _ _ _ _ _ F) as Hne; pose proof (fi_limit _ _ _ _ _ _ _ _ _ _ F);
    apply fillable_funds in F; cbv zeta in F; rewrite !sumN_cons, !acct_insert_case; repeat case_decide; subst; try congruence; cbn; lia.
Qed.

Lemma turn_matching : matching board_after (taker_after taker resting).
Proof.
  destruct (turn_ledger 0 0) as [L _]. split.
  - cbn. rewrite lookup_insert_ne by (symmetry; apply turn_ids). apply M.
  - apply M.
  - exact L.
  - cbn. apply map_Forall_insert_2; [|apply M].
    unfold resting_after. cbn. fold q. destruct (N.leb_spec (o_quantity resting) (o_filled resting + q)); done.
Qed.

(** Either the taker is done, or the resting order is. *)
Lemma turn_progress :
  o_filled (taker_after taker resting) < o_quantity taker ->
  o_status (resting_after taker resting) = Filled.
Proof.
  pose proof turn_resting_left. unfold taker_after, resting_after. cbn. unfold fill_qty. intros Hl.
  destruct (N.leb_spec (o_quantity resting) (o_filled resting +
    N.min (o_quantity taker - o_filled taker) (o_quantity resting - o_filled resting))); [done|lia].
Qed.

End turn.

(** ** The loop *)
Definition open_in (orders : gmap Uuid Order) : gmap Uuid Order :=
  base.filter (fun e => o_status e.2 = OrderOpen) orders.
Definition open_orders tb : gmap Uuid Order := open_in (tb_orders tb).

Lemma open_in_less (orders : gmap Uuid Order) id o o' :
  orders !! id = Some o -> o_status o = OrderOpen -> o_status o' <> OrderOpen ->
  (size (open_in (<[id := o']> orders)) < size (open_in orders))%nat.
Proof.
  intros Hr Ho Hf. unfold open_in. apply map_subset_size. split.
  - apply map_subseteq_spec. intros k x Hk. apply map_lookup_filter_Some in Hk as [Hk Hop].
    cbn in Hop. apply map_lookup_filter_Some. split; [|done].
    destruct (decide (k = id)) as [->|Hne].
    + rewrite lookup_insert_eq in Hk. congruence.
    + by rewrite lookup_insert_ne in Hk.
  - intros Hsub. assert (Hin : base.filter (fun e : Uuid * Order => o_status e.2 = OrderOpen) orders
      !! id = Some o) by (by apply map_lookup_filter_Some).
    eapply lookup_weaken in Hin; [|exact Hsub]. apply map_lookup_filter_Some in Hin as [Hin _].
    rewrite lookup_insert_eq in Hin. congruence.
Qed.

Lemma open_in_pos (orders : gmap Uuid Order) id o :
  orders !! id = Some o -> o_status o = OrderOpen -> (0 < size (open_in orders))%nat.
Proof.
  intros Hr Ho. apply Nat.neq_0_lt_0. intros E. apply map_size_empty_iff in E.
  assert (Hin : open_in orders !! id = Some o) by (by apply map_lookup_filter_Some).
  by rewrite E in Hin.
Qed.

Lemma best_match_Some tb taker id :
  matching tb taker -> best_resting_match tb taker = Some id ->
  exists resting, id = o_id resting /\ tb_orders tb !! o_id resting = Some resting /\
                  matchable taker resting.
Proof.
  intros M Hb. unfold best_resting_match in Hb. apply fmap_Some in Hb as (o & Ho & ->).
  assert (Hin : o ∈ base.filter (matchable taker) (btree_values (tb_orders tb))).
  { rewrite <-sort_by_perm. apply head_Some in Ho as [l' ->]. by left. }
  apply list_elem_of_filter in Hin as [Hm Hin]. apply elem_of_btree_values in Hin as [k Hk].
  exists o. split_and!; [done| |done].
  assert (Hne : k <> o_id taker) by (intros ->; by rewrite (ma_fresh _ _ M) in Hk).
  rewrite <-(lookup_insert_ne _ (o_id taker) k taker) in Hk by done.
  pose proof (ok_id _ _ (lo_orders _ _ (ma_ledger _ _ M) _ _ Hk)) as ->.
  by rewrite lookup_insert_ne in Hk by done.
Qed.

(** What a run of the loop leaves behind. *)
Record matched now tb taker tb' taker' (trades : list Trade) : Prop := {
  md_matching : matching tb' taker';
  md_base : base_total (tb_accounts tb') + sumN (base_fee <$> trades) = base_total (tb_accounts tb);
  md_compute : compute_total (tb_accounts tb') + sumN (compute_fee <$> trades)
               = compute_total (tb_accounts tb);
  md_taker : taker' = set_filled taker (o_filled taker + sumN (tr_quantity <$> trades)) (o_status taker);
  md_limit : Forall (fun t => crosses (o_side taker) (tr_price t) (o_price taker) = true) trades;
  md_elsewhere : tb' = with_orders (with_accounts tb (tb_accounts tb')) (tb_orders tb');
  md_done : o_filled taker' = o_quantity taker \/ best_resting_match tb' taker' = None;
  md_executed : Forall (executed (tb_orders tb) taker now) trades;
  md_settled : settled_by (tb_accounts tb) (tb_accounts tb') trades
}.

Lemma set_filled_same o : set_filled o (o_filled o) (o_status o) = o.
Proof. by destruct o. Qed.

Lemma matching_filled tb taker : matching tb taker -> o_filled taker <= o_quantity taker.
Proof.
  intros M. eapply (ok_filled (o_id taker)), (lo_orders _ _ (ma_ledger _ _ M)), lookup_insert_eq.
Qed.

Lemma settled_by_app accts accts1 accts2 l l' :
  settled_by accts accts1 l -> settled_by accts1 accts2 l' -> settled_by accts accts2 (l ++ l').
Proof. intros H1 H2 pk. destruct (H1 pk), (H2 pk). rewrite !fmap_app, !sumN_app. lia. Qed.
Lemma executed_before now tb taker resting t :
  tb_orders tb !! o_id resting = Some resting -> matchable taker resting ->
  executed (tb_orders (board_after tb taker resting)) (taker_after taker resting) now t -> executed (tb_orders tb) taker now t.
Proof.
  intros Hr Hm (o & Ho & Hmo & He). cbn in Ho. apply lookup_insert_Some in Ho as [[Hid Ho]|[_ Ho]]; [|by exists o].
  subst o. by exists resting.
Qed.

Lemma matched_refl now tb taker :
  matching tb taker -> (o_filled taker = o_quantity taker \/ best_resting_match tb taker = None) ->
  matched now tb taker tb taker [].
Proof.
  intros M Hd. split; try done; try (cbn; lia); [|by destruct tb].
  cbn. rewrite N.add_0_r. by rewrite set_filled_same.
Qed.

Lemma matched_turn now tid tb taker resting tb' taker' trades :
  matching tb taker -> tb_orders tb !! o_id resting = Some resting -> matchable taker resting ->
  o_filled taker < o_quantity taker ->
  matched now (board_after tb taker resting) (taker_after taker resting) tb' taker' trades ->
  matched now tb taker tb' taker' (trade_of now tid taker resting :: trades).
Proof.
  intros M Hr Hm Hl [M' B C T Li El Dn Ex St].
  destruct (turn_ledger tb taker resting M Hr Hm Hl now tid) as (_ & B1 & C1).
  assert (Hq : tr_quantity (trade_of now tid taker resting) = fill_qty taker resting /\
               tr_price (trade_of now tid taker resting) = o_price resting)
    by (unfold trade_of; by destruct (o_side taker)).
  destruct Hq as [Hq Hp]. split; [done|..].
  - rewrite fmap_cons, sumN_cons. cbn [board_after with_accounts with_orders tb_accounts] in B. lia.
  - rewrite fmap_cons, sumN_cons. cbn [board_after with_accounts with_orders tb_accounts] in C. lia.
  - rewrite T, fmap_cons, sumN_cons, Hq. unfold taker_after. cbn. f_equal. lia.
  - constructor; [by rewrite Hp; apply Hm|exact Li].
  - rewrite El. by destruct tb.
  - exact Dn.
  - constructor; [by apply turn_executed|]. eapply Forall_impl; [exact Ex|]. intros t. by apply executed_before.
  - eapply (settled_by_app _ _ _ [_]); [by apply turn_settled|exact St].
Qed.

Lemma match_loop_ok now tids fuel : forall tb taker trades,
  matching tb taker -> (0 < fuel)%nat ->
  (o_filled taker < o_quantity taker -> (size (open_orders tb) < fuel)%nat) ->
  exists tb' taker' new,
    match_loop fuel now tids tb taker trades = Ok (tb', taker', trades ++ new) /\
    matched now tb taker tb' taker' new.
Proof.
  induction fuel as [|fuel IH]; intros tb taker trades M Hpos Hf; [lia|]. cbn [match_loop].
  destruct (N.ltb_spec (o_filled taker) (o_quantity taker)) as [Hl|Hge].
  2:{ exists tb, taker, []. rewrite app_nil_r. split; [done|]. apply matched_refl; [done|].
      left. apply matching_filled in M. lia. }
  destruct (best_resting_match tb taker) as [id|] eqn:Eb.
  2:{ exists tb, taker, []. rewrite app_nil_r. split; [done|]. apply matched_refl; auto. }
  destruct (best_match_Some tb taker id M Eb) as (resting & -> & Hr & Hm).
  rewrite Hr. cbn [expect mbind outcome_bind]. rewrite (fill_runs tb taker resting M Hr Hm Hl).
  cbn [mbind outcome_bind].
  pose proof (open_in_pos _ _ _ Hr (proj1 Hm)) as Hop. specialize (Hf Hl).
  destruct (IH _ _ (trades ++ [trade_of now (tids (length trades)) taker resting])
    (turn_matching tb taker resting M Hr Hm Hl)) as (tb' & taker' & new & E & Hd).
  - unfold open_orders in Hf. lia.
  - intros Hl'. pose proof (turn_progress tb taker resting M Hr Hm Hl Hl') as Hfil.
    pose proof (open_in_less _ _ _ (resting_after taker resting) Hr (proj1 Hm)) as Hlt.
    rewrite Hfil in Hlt. specialize (Hlt ltac:(done)). unfold open_orders in *. cbn in *. lia.
  - rewrite <-(assoc_L (++)) in E. eexists _, _, _. split; [exact E|]. by apply matched_turn.
Qed.

End body.
