(* ===== verification/ExchangeTheorems.v ===== *)
(** * ExchangeTheorems: what the exchange guarantees

    Every operation keeps the ledger invariant and never panics, the matching
    loop ends, value is conserved up to the taker's fee, and orders meet in
    price-time priority. *)

From S2P Require Import Prelude Types BoardTypes Exchange ExchangeInv.

(** ** Placing *)
Section place.
Implicit Types (tb : TaskBoard) (o : Order) (accts : gmap PublicKey ExchangeAccount).

Lemma touch_acct tb owner pk :
  acct (tb_accounts (touch_account tb owner)) pk = acct (tb_accounts tb) pk.
Proof.
  unfold touch_account, restore_exchange_account. cbn [with_accounts tb_accounts].
  rewrite acct_insert_case. case_decide; [by subst|done].
Qed.

Lemma touch_totals tb owner (f : ExchangeAccount -> N) :
  f ExchangeAccount_default = 0 ->
  map_sum f (tb_accounts (touch_account tb owner)) = map_sum f (tb_accounts tb).
Proof.
  intros H0. pose proof (acct_sum_insert f (tb_accounts tb) owner
    (exchange_account tb owner) H0) as E. rewrite <-exchange_account_acct in E.
  unfold touch_account, restore_exchange_account. cbn [with_accounts tb_accounts]. lia.
Qed.

(** The invariant sees accounts only through [acct] and the totals. *)
Lemma ledger_ok_accts accts accts' orders :
  (forall pk, acct accts' pk = acct accts pk) -> base_total accts' = base_total accts ->
  compute_total accts' = compute_total accts ->
  ledger_ok accts orders -> ledger_ok accts' orders.
Proof.
  intros Ha Hb Hc [L1 L2 L3 L4 L5 L6 L7].
  split; try (intros pk; rewrite Ha); auto; [by rewrite Hb|by rewrite Hc].
Qed.

Lemma touch_book_ok tb owner : book_ok tb -> book_ok (touch_account tb owner).
Proof.
  intros [L O]. split; [|done]. eapply ledger_ok_accts; [..|exact L].
  - intros pk. apply touch_acct.
  - by apply touch_totals.
  - by apply touch_totals.
Qed.

Lemma need_sum_fresh need (orders : gmap Uuid Order) id o pk :
  orders !! id = None ->
  map_sum (need_of need pk) (<[id := o]> orders)
  = (if decide (o_owner o = pk) then need o else 0) + map_sum (need_of need pk) orders.
Proof. intros Hf. by rewrite map_sum_insert. Qed.

(** Two forms of an order with the same owner and needs are the same to the
    ledger. *)
Lemma ledger_ok_reorder accts orders id o o' :
  orders !! id = None -> o_owner o' = o_owner o -> base_need o' = base_need o ->
  compute_need o' = compute_need o -> order_ok id o' ->
  ledger_ok accts (<[id := o]> orders) -> ledger_ok accts (<[id := o']> orders).
Proof.
  intros Hf Hw Hb Hc Ho [L1 L2 L3 L4 L5 L6 L7]. split; auto.
  - apply map_Forall_insert in L1 as [_ L1]; [|done]. by apply map_Forall_insert_2.
  - intros pk. by rewrite L2, !need_sum_fresh, Hw, Hb.
  - intros pk. by rewrite L3, !need_sum_fresh, Hw, Hc.
Qed.

(** The lock makes the ledger balance with the taker as an order. *)
Lemma ledger_lock accts orders id o a :
  orders !! id = None -> order_ok id o ->
  let b := acct accts (o_owner o) in
  a = mkAccount (base_balance b) (locked_base b + base_need o) (compute_balance b)
        (locked_compute b + compute_need o) ->
  base_need o <= base_balance b - locked_base b ->
  compute_need o <= compute_balance b - locked_compute b ->
  ledger_ok accts orders -> ledger_ok (<[o_owner o := a]> accts) (<[id := o]> orders).
Proof.
  intros Hf Ho b -> Hb Hc [L1 L2 L3 L4 L5 L6 L7].
  pose proof (acct_sum_insert base_balance accts (o_owner o) (mkAccount (base_balance b)
    (locked_base b + base_need o) (compute_balance b) (locked_compute b + compute_need o)) eq_refl) as Tb.
  pose proof (acct_sum_insert compute_balance accts (o_owner o) (mkAccount (base_balance b)
    (locked_base b + base_need o) (compute_balance b) (locked_compute b + compute_need o)) eq_refl) as Tc.
  fold b in Tb, Tc. cbn in Tb, Tc.
  pose proof (L4 (o_owner o)) as B4. pose proof (L5 (o_owner o)) as B5. fold b in B4, B5.
  split; [by apply map_Forall_insert_2|..].
  - intros pk. rewrite acct_insert_case, need_sum_fresh by done.
    case_decide as E; [subst pk; cbn; rewrite <-L2; fold b; lia|rewrite L2; lia].
  - intros pk. rewrite acct_insert_case, need_sum_fresh by done.
    case_decide as E; [subst pk; cbn; rewrite <-L3; fold b; lia|rewrite L3; lia].
  - intros pk. rewrite acct_insert_case. case_decide; [cbn; lia|apply L4].
  - intros pk. rewrite acct_insert_case. case_decide; [cbn; lia|apply L5].
  - unfold base_total. replace (map_sum _ _) with (base_total accts) by (unfold base_total; lia). done.
  - unfold compute_total. replace (map_sum _ _) with (compute_total accts) by (unfold compute_total; lia). done.
Qed.

Lemma lock_base_Ok n a :
  locked_base a + n <= U64_MAX ->
  lock_base n a = Ok (mkAccount (base_balance a) (locked_base a + n) (compute_balance a) (locked_compute a)).
Proof. intros H. unfold lock_base. by rewrite add64_fits. Qed.
Lemma lock_compute_Ok n a :
  locked_compute a + n <= U64_MAX ->
  lock_compute n a = Ok (mkAccount (base_balance a) (locked_base a) (compute_balance a) (locked_compute a + n)).
Proof. intros H. unfold lock_compute. by rewrite add64_fits. Qed.

Lemma roomy_fits t x : roomy t -> x <= t -> x <= U64_MAX.
Proof. unfold roomy, TAKER_FEE_BPS. lia. Qed.

(** What an order of a side locks. *)
Definition base_part (side : Side) (n : N) : N := match side with Buy => n | Sell => 0 end.
Definition compute_part (side : Side) (n : N) : N := match side with Sell => n | Buy => 0 end.
Definition locked_account (a : ExchangeAccount) (side : Side) (notional quantity : N) : ExchangeAccount :=
  mkAccount (base_balance a) (locked_base a + base_part side notional) (compute_balance a)
    (locked_compute a + compute_part side quantity).

(** The lock either refuses for want of balance or books the lock. *)
Lemma lock_for_order_cases tb owner side notional quantity :
  book_ok tb ->
  let a := exchange_account tb owner in
  (exists avail req, lock_for_order tb owner side notional quantity
     = (touch_account tb owner, Err (InsufficientBalance avail req))) \/
  (lock_for_order tb owner side notional quantity
   = (restore_exchange_account (touch_account tb owner) owner
        (locked_account a side notional quantity), Ok tt) /\
   base_part side notional <= base_balance a - locked_base a /\
   compute_part side quantity <= compute_balance a - locked_compute a).
Proof.
  intros [L O] a. unfold lock_for_order. fold a. unfold a. rewrite exchange_account_acct. fold a.
  set (b := acct (tb_accounts tb) owner).
  pose proof (lo_base_backed _ _ L owner) as Bb. pose proof (lo_compute_backed _ _ L owner) as Bc.
  pose proof (roomy_fits _ _ (lo_base_room _ _ L) (acct_sum_le base_balance _ owner eq_refl)) as Rb.
  pose proof (roomy_fits _ _ (lo_compute_room _ _ L) (acct_sum_le compute_balance _ owner eq_refl)) as Rc.
  fold b in Bb, Bc, Rb, Rc. unfold locked_account.
  destruct side; (match goal with |- context [?x <? ?y] => destruct (N.ltb_spec x y) end;
    [left; eauto|right]); cbn [base_part compute_part];
    (erewrite update_account_Ok; [|rewrite exchange_account_acct, touch_acct; fold b;
       (apply lock_base_Ok || apply lock_compute_Ok); lia]); rewrite N.add_0_r; split_and!; lia || done.
Qed.

Lemma locked_matching tb id owner side price quantity now :
  book_ok tb -> tb_orders tb !! id = None -> quantity <= U64_MAX -> price * quantity <= U64_MAX ->
  let a := exchange_account tb owner in
  base_part side (price * quantity) <= base_balance a - locked_base a ->
  compute_part side quantity <= compute_balance a - locked_compute a ->
  matching (restore_exchange_account (touch_account tb owner) owner
              (locked_account a side (price * quantity) quantity))
    (mkOrder id owner side price quantity 0 OrderOpen now).
Proof.
  intros Hb Hf Hq Hn a H1 H2. set (taker := mkOrder _ _ _ _ _ _ _ _).
  assert (Hneed : base_need taker = base_part side (price * quantity) /\
                  compute_need taker = compute_part side quantity)
    by (unfold base_need, compute_need; cbn; destruct side; by rewrite ?N.sub_0_r).
  destruct Hneed as [Nb Nc]. split; [done|done| |apply Hb].
  apply (ledger_lock (tb_accounts (touch_account tb owner)) (tb_orders tb) id taker); [done|..].
  - split; cbn; [done|lia|done|done].
  - cbn [taker o_owner]. rewrite touch_acct, Nb, Nc. done.
  - cbn [taker o_owner]. by rewrite touch_acct, Nb.
  - cbn [taker o_owner]. by rewrite touch_acct, Nc.
  - apply touch_book_ok, Hb.
Qed.

Lemma locked_totals tb owner a :
  base_balance a = base_balance (exchange_account tb owner) ->
  compute_balance a = compute_balance (exchange_account tb owner) ->
  let tb1 := restore_exchange_account (touch_account tb owner) owner a in
  base_total (tb_accounts tb1) = base_total (tb_accounts tb) /\
  compute_total (tb_accounts tb1) = compute_total (tb_accounts tb).
Proof.
  intros Hb Hc tb1. rewrite exchange_account_acct in Hb, Hc.
  pose proof (acct_sum_insert base_balance (tb_accounts (touch_account tb owner)) owner a eq_refl) as E1.
  pose proof (acct_sum_insert compute_balance (tb_accounts (touch_account tb owner)) owner a eq_refl) as E2.
  rewrite touch_acct, touch_totals in E1, E2 by done.
  unfold base_total, compute_total, tb1. cbn [restore_exchange_account with_accounts tb_accounts]. lia.
Qed.

(** The whole of [place_order] on a board that keeps the ledger. *)
Record placed tb tb' (id : Uuid) owner side price quantity now (order : Order) (trades : list Trade)
    : Prop := {
  pl_order : order = mkOrder id owner side price quantity (sumN (tr_quantity <$> trades))
               (if quantity <=? sumN (tr_quantity <$> trades) then Filled else OrderOpen) now;
  pl_stored : tb_orders tb' !! id = Some order;
  pl_base : base_total (tb_accounts tb') + sumN (base_fee <$> trades) = base_total (tb_accounts tb);
  pl_compute : compute_total (tb_accounts tb') + sumN (compute_fee <$> trades)
               = compute_total (tb_accounts tb);
  pl_limit : Forall (fun t => crosses side (tr_price t) price = true) trades;
  pl_rests : o_status order = OrderOpen -> best_resting_match tb' order = None;
  pl_executed : Forall (executed (tb_orders tb) order now) trades;
  pl_settled : settled_by (tb_accounts tb) (tb_accounts tb') trades
}.

Lemma restore_trades_only tb trades :
  foldl restore_trade tb trades = with_trades tb (tb_trades (foldl restore_trade tb trades)).
Proof.
  revert tb. induction trades as [|t trades IH]; intros tb; cbn; [by destruct tb|].
  rewrite IH. by destruct tb.
Qed.

(** The matching loop's result, closed and stored. *)
Definition closed_order (o : Order) : Order :=
  set_filled o (o_filled o) (if o_quantity o <=? o_filled o then Filled else o_status o).

Lemma close_ledger tb taker :
  matching tb taker -> book_ok (restore_order tb (closed_order taker)).
Proof.
  intros M. pose proof (matching_filled _ _ M) as Hle. pose proof (ma_open _ _ M) as Ho.
  unfold closed_order. split; cbn [restore_order with_orders tb_orders tb_accounts set_filled o_id].
  - eapply ledger_ok_reorder; [apply M|..|apply M]; [done| | |].
    + unfold base_need. cbn. rewrite Ho. destruct (N.leb_spec (o_quantity taker) (o_filled taker)); [|done].
      destruct (o_side taker); [|done]. replace (o_quantity taker - o_filled taker) with 0 by lia. lia.
    + unfold compute_need. cbn. rewrite Ho. destruct (N.leb_spec (o_quantity taker) (o_filled taker)); [|done].
      destruct (o_side taker); [done|]. lia.
    + pose proof (lo_orders _ _ (ma_ledger _ _ M) _ _ (lookup_insert_eq _ _ _)) as [? ? ? ?]. by split.
  - apply map_Forall_insert_2; [|apply M]. cbn.
    destruct (N.leb_spec (o_quantity taker) (o_filled taker)); [done|lia].
Qed.

Lemma best_match_None tb taker :
  best_resting_match tb taker = None <->
  forall id o, tb_orders tb !! id = Some o -> ~ matchable taker o.
Proof.
  unfold best_resting_match. rewrite fmap_None. split.
  - intros Hn id o Ho Hm.
    assert (Hin : o ∈ sort_by (priority_leb (o_side taker))
                        (base.filter (matchable taker) (btree_values (tb_orders tb)))).
    { rewrite sort_by_perm. apply list_elem_of_filter. split; [done|].
      apply elem_of_btree_values. eauto. }
    destruct (sort_by _ _); [by apply not_elem_of_nil in Hin|done].
  - intros Hn. destruct (sort_by _ _) as [|o l] eqn:Es; [done|exfalso].
    assert (Hin : o ∈ base.filter (matchable taker) (btree_values (tb_orders tb)))
      by (rewrite <-(sort_by_perm (priority_leb (o_side taker))), Es; by left).
    apply list_elem_of_filter in Hin as [Hm Hin]. apply elem_of_btree_values in Hin as [id Hid].
    by apply (Hn id o).
Qed.

Lemma open_orders_size tb : (size (open_orders tb) <= size (tb_orders tb))%nat.
Proof. apply map_subseteq_size, map_filter_subseteq. Qed.

Lemma book_ok_trades tb x : book_ok tb -> book_ok (with_trades tb x).
Proof. intros [L O]. by split. Qed.

Lemma place_order_spec tb id tids owner side price quantity now tb' r :
  book_ok tb -> tb_orders tb !! id = None -> quantity <= U64_MAX ->
  place_order tb id tids owner side price quantity now = (tb', r) ->
  r <> Panic /\ book_ok tb' /\
  (forall order trades, r = Ok (order, trades) ->
     placed tb tb' id owner side price quantity now order trades) /\
  (forall e, r = Err e -> tb_orders tb' = tb_orders tb /\
     forall pk, exchange_account tb' pk = exchange_account tb pk).
Proof.
  intros Hb Hf Hq. unfold place_order.
  destruct ((price =? 0) || (quantity =? 0)); [by intros [= <- <-]|].
  destruct (checked_mul price quantity) as [notional|] eqn:Em; [|by intros [= <- <-]].
  apply checked_mul_Some in Em as [-> Hn].
  destruct (lock_for_order_cases tb owner side (price * quantity) quantity Hb)
    as [(av & rq & ->)|(-> & H1 & H2)].
  { intros [= <- <-]. split_and!; [done|by apply touch_book_ok|done|].
    intros e _. split; [done|]. intros pk. rewrite !exchange_account_acct. apply touch_acct. }
  pose proof (locked_matching tb id owner side price quantity now Hb Hf Hq Hn H1 H2) as M.
  destruct (locked_totals tb owner (locked_account (exchange_account tb owner) side
    (price * quantity) quantity) eq_refl eq_refl) as [T1 T2]. revert M T1 T2.
  set (tb1 := restore_exchange_account _ _ _). intros M T1 T2.
  destruct (match_loop_ok now tids (S (size (tb_orders tb1))) tb1 _ [] M)
    as (tb2 & taker' & trades & -> & [M' B C T Li El Dn Ex St]);
    [lia|pose proof (open_orders_size tb1); lia|].
  cbn [app]. fold (closed_order taker'). intros [= <- <-].
  rewrite restore_trades_only. split_and!; [done|by apply book_ok_trades, close_ledger| |done].
  intros order trades' [= <- <-]. cbn [o_side o_price o_filled o_quantity o_status] in *.
  rewrite N.add_0_l in T. split.
  - unfold closed_order. rewrite T. done.
  - cbn [with_trades tb_orders restore_order with_orders]. rewrite T. cbn. apply lookup_insert_eq.
  - cbn. lia.
  - cbn. lia.
  - done.
  - intros Hop. apply best_match_None.
    cbn [with_trades tb_orders restore_order with_orders]. intros id' o Ho Hm.
    destruct (decide (id' = o_id (closed_order taker'))) as [->|Hne].
    + rewrite lookup_insert_eq in Ho. injection Ho as <-. destruct Hm as (_ & Hs & _).
      cbn in Hs. by destruct (o_side taker').
    + rewrite lookup_insert_ne in Ho by done. destruct Dn as [Dn|Dn].
      * unfold closed_order in Hop. cbn in Hop. rewrite T in Hop, Dn. cbn in Hop, Dn.
        rewrite Dn, N.leb_refl in Hop. done.
      * eapply (proj1 (best_match_None _ _) Dn); [exact Ho|]. exact Hm.
  - rewrite T. exact Ex.
  - intros pk. destruct (St pk) as [S1 S2]. cbn [with_trades tb_accounts restore_order with_orders]. rewrite S1, S2.
    unfold tb1. cbn [restore_exchange_account with_accounts tb_accounts]. rewrite acct_insert_case. case_decide as Ep; [|by rewrite touch_acct].
    subst pk. cbn. by rewrite !exchange_account_acct.
Qed.

End place.

(** ** Cancelling, depositing, withdrawing *)
Section ledger_ops.
Implicit Types (tb : TaskBoard) (pk : PublicKey).

(** An update of one account that keeps its locks and leaves them covered. *)
Lemma book_ok_account tb pk a :
  book_ok tb -> locked_base a = locked_base (exchange_account tb pk) ->
  locked_compute a = locked_compute (exchange_account tb pk) ->
  locked_base a <= base_balance a -> locked_compute a <= compute_balance a ->
  roomy (base_total (tb_accounts (restore_exchange_account tb pk a))) ->
  roomy (compute_total (tb_accounts (restore_exchange_account tb pk a))) ->
  book_ok (restore_exchange_account tb pk a).
Proof.
  intros [[L1 L2 L3 L4 L5 L6 L7] O] Hb Hc H1 H2 R1 R2. rewrite exchange_account_acct in Hb, Hc.
  split; [|done]. split; auto; intros pk'; cbn [restore_exchange_account with_accounts tb_accounts];
    rewrite acct_insert_case; case_decide; subst; rewrite ?Hb, ?Hc; auto; congruence.
Qed.

Lemma account_total tb pk a (f : ExchangeAccount -> N) :
  f ExchangeAccount_default = 0 ->
  map_sum f (tb_accounts (restore_exchange_account tb pk a)) + f (exchange_account tb pk)
  = map_sum f (tb_accounts tb) + f a.
Proof. intros H0. rewrite exchange_account_acct. by apply acct_sum_insert. Qed.

(** The release of a cancelled order. *)
Definition released (o : Order) (a : ExchangeAccount) : ExchangeAccount :=
  mkAccount (base_balance a) (locked_base a - base_need o) (compute_balance a)
    (locked_compute a - compute_need o).

Lemma cancel_ledger accts orders id o :
  ledger_ok accts orders -> orders !! id = Some o -> o_status o = OrderOpen ->
  ledger_ok (<[o_owner o := released o (acct accts (o_owner o))]> accts)
    (<[id := set_filled o (o_filled o) Cancelled]> orders).
Proof.
  intros L Ho Hop. destruct (need_locked accts orders id o L Ho) as [N1 N2].
  pose proof L as [L1 L2 L3 L4 L5 L6 L7].
  set (o' := set_filled o (o_filled o) Cancelled).
  assert (Z : base_need o' = 0 /\ compute_need o' = 0)
    by (unfold base_need, compute_need; cbn; by destruct (o_side o)).
  destruct Z as [Zb Zc].
  pose proof (acct_sum_insert base_balance accts (o_owner o)
    (released o (acct accts (o_owner o))) eq_refl) as Tb.
  pose proof (acct_sum_insert compute_balance accts (o_owner o)
    (released o (acct accts (o_owner o))) eq_refl) as Tc. cbn in Tb, Tc.
  split.
  - apply map_Forall_insert_2; [|done]. destruct (L1 _ _ Ho) as [? ? ? ?]. by split.
  - intros pk. rewrite acct_insert_case.
    pose proof (need_sum_update base_need orders id o o' pk (base_need o) Ho eq_refl) as E.
    rewrite Zb in E. specialize (E eq_refl). specialize (L2 pk).
    case_decide as Ep; [subst pk; cbn; lia|lia].
  - intros pk. rewrite acct_insert_case.
    pose proof (need_sum_update compute_need orders id o o' pk (compute_need o) Ho eq_refl) as E.
    rewrite Zc in E. specialize (E eq_refl). specialize (L3 pk).
    case_decide as Ep; [subst pk; cbn; lia|lia].
  - intros pk. rewrite acct_insert_case. specialize (L4 pk). case_decide; [subst; cbn; lia|done].
  - intros pk. rewrite acct_insert_case. specialize (L5 pk). case_decide; [subst; cbn; lia|done].
  - unfold roomy, base_total in *. by replace (map_sum base_balance _) with (map_sum base_balance accts) by lia.
  - unfold roomy, compute_total in *.
    by replace (map_sum compute_balance _) with (map_sum compute_balance accts) by lia.
Qed.

Lemma cancel_order_runs tb id o :
  book_ok tb -> tb_orders tb !! id = Some o -> o_status o = OrderOpen ->
  cancel_order tb id (o_owner o) =
  Ok (restore_exchange_account
        (with_orders tb (<[id := set_filled o (o_filled o) Cancelled]> (tb_orders tb)))
        (o_owner o) (released o (exchange_account tb (o_owner o))),
      set_filled o (o_filled o) Cancelled).
Proof.
  intros [L O] Ho Hop. unfold cancel_order. rewrite Ho. cbn [ok_or mbind outcome_bind].
  rewrite !bool_decide_eq_true_2 by done. cbn [guard_ok mbind outcome_bind].
  destruct (need_locked _ _ id o L Ho) as [N1 N2]. pose proof (lo_orders _ _ L _ _ Ho) as [_ Hfl Hnt _].
  rewrite sub64_fits by done. cbn [mbind outcome_bind].
  unfold base_need, compute_need in N1, N2. rewrite Hop in N1, N2. unfold released, base_need, compute_need.
  rewrite Hop, <-exchange_account_acct in *.
  destruct (o_side o).
  - rewrite mul64_fits by nia. cbn [mbind outcome_bind].
    erewrite update_account_Ok; [by rewrite N.sub_0_r|].
    unfold unlock_base. cbn. by rewrite sub64_fits by exact N1.
  - erewrite update_account_Ok; [by rewrite N.sub_0_r|].
    unfold unlock_compute. cbn. by rewrite sub64_fits by exact N2.
Qed.

End ledger_ops.

(** ** Properties *)

(** C18: Placing any order on a consistent book never panics and leaves the book
    consistent: every lock is backed by a balance, locks equal what the open orders
    need, and balances stay in range. *)
Theorem place_order_keeps_ledger tb id tids owner side price quantity now :
  book_ok tb -> tb_orders tb !! id = None -> quantity <= U64_MAX ->
  (place_order tb id tids owner side price quantity now).2 <> Panic /\
  book_ok (place_order tb id tids owner side price quantity now).1.
Proof.
  intros Hb Hf Hq. destruct (place_order _ _ _ _ _ _ _ _) as [tb' r] eqn:E.
  by destruct (place_order_spec _ _ _ _ _ _ _ _ _ _ Hb Hf Hq E) as (? & ? & _).
Qed.

(** C30: Placing an order on a consistent book settles exactly its trades: each is with an
    order of another owner that was open on the opposite side and crosses the limit,
    executes at that resting order's price, and carries the taker's fee, TAKER_FEE_BPS
    of what the taker receives rounded down (compute for a buyer, base for a seller);
    every account's balances change by what its trades pay and receive, the fee taken
    from the taker alone, so the totals fall by exactly the fees; and the order is
    stored with the filled quantity, open only when nothing left on the book matches
    it. *)
Theorem place_order_settles tb id tids owner side price quantity now tb' order trades :
  book_ok tb -> tb_orders tb !! id = None -> quantity <= U64_MAX ->
  place_order tb id tids owner side price quantity now = (tb', Ok (order, trades)) ->
  placed tb tb' id owner side price quantity now order trades.
Proof.
  intros Hb Hf Hq E. by destruct (place_order_spec _ _ _ _ _ _ _ _ _ _ Hb Hf Hq E) as (_ & _ & ? & _); auto.
Qed.

(** Cancelling an order succeeds exactly for its owner while it is open, releases exactly
    what it still locked, keeps the totals, and otherwise reports the right error. *)
Theorem cancel_order_releases tb id caller :
  book_ok tb ->
  match cancel_order tb id caller with
  | Ok (tb', o) =>
      book_ok tb' /\ o_status o = Cancelled /\ tb_orders tb' !! id = Some o /\
      exists before, tb_orders tb !! id = Some before /\ o_owner before = caller /\
        o_status before = OrderOpen /\
        exchange_account tb' caller = released before (exchange_account tb caller) /\
        base_total (tb_accounts tb') = base_total (tb_accounts tb) /\
        compute_total (tb_accounts tb') = compute_total (tb_accounts tb)
  | Err OrderNotFound => tb_orders tb !! id = None
  | Err NotOrderOwner => exists o, tb_orders tb !! id = Some o /\ o_owner o <> caller
  | Err OrderNotOpen => exists o, tb_orders tb !! id = Some o /\ o_status o <> OrderOpen
  | _ => False
  end.
Proof.
  intros Hb. destruct (tb_orders tb !! id) as [o|] eqn:Ho.
  2:{ unfold cancel_order. by rewrite Ho. }
  destruct (decide (o_owner o = caller)) as [<-|Hw].
  2:{ unfold cancel_order. rewrite Ho. cbn [ok_or mbind outcome_bind].
      rewrite (bool_decide_eq_false_2 (o_owner o = caller)) by done. cbn. eauto. }
  destruct (decide (o_status o = OrderOpen)) as [Hop|Hop].
  2:{ unfold cancel_order. rewrite Ho. cbn [ok_or mbind outcome_bind].
      rewrite (bool_decide_eq_true_2 (o_owner o = o_owner o)) by done.
      cbn [guard_ok mbind outcome_bind].
      rewrite (bool_decide_eq_false_2 (o_status o = OrderOpen)) by done. cbn. eauto. }
  rewrite (cancel_order_runs tb id o Hb Ho Hop). split_and!; [|done|apply lookup_insert_eq|].
  - split; [by apply cancel_ledger; [apply Hb|..]|].
    cbn. apply map_Forall_insert_2; [done|apply Hb].
  - exists o. split_and!; [done..| | |].
    + rewrite exchange_account_acct. cbn. by rewrite acct_insert_eq.
    + pose proof (account_total tb (o_owner o) (released o (exchange_account tb (o_owner o)))
        base_balance eq_refl) as E. cbn in E. unfold base_total. cbn. lia.
    + pose proof (account_total tb (o_owner o) (released o (exchange_account tb (o_owner o)))
        compute_balance eq_refl) as E. cbn in E. unfold compute_total. cbn. lia.
Qed.

Lemma priority_total side a b : priority_leb side a b = false -> priority_leb side b a = true.
Proof.
  unfold priority_leb. destruct side; intros Hf; apply orb_false_iff in Hf as [H1 H2];
    apply N.ltb_ge in H1; apply orb_true_iff; apply andb_false_iff in H2 as [H2|H2];
    first [apply N.eqb_neq in H2; left; apply N.ltb_lt; lia
          |apply Z.leb_gt in H2; destruct (N.eqb_spec (o_price b) (o_price a));
             [right; cbn; apply Z.leb_le; lia|left; apply N.ltb_lt; lia]].
Qed.

Lemma priority_trans side a b c :
  priority_leb side a b = true -> priority_leb side b c = true -> priority_leb side a c = true.
Proof.
  unfold priority_leb. destruct side; rewrite !orb_true_iff, !andb_true_iff, !N.ltb_lt, !N.eqb_eq, !Z.leb_le;
    intros [?|[? ?]] [?|[? ?]]; first [left; lia|right; split; lia].
Qed.

(** The order a taker matches is one it can match, and no other matchable order has a
    better price, or the same price and an earlier time. *)
Theorem best_match_has_price_time_priority tb taker id :
  map_Forall (fun k o => o_id o = k) (tb_orders tb) ->
  best_resting_match tb taker = Some id ->
  exists best, tb_orders tb !! id = Some best /\ matchable taker best /\
    forall k o, tb_orders tb !! k = Some o -> matchable taker o ->
      o = best \/ priority_leb (o_side taker) best o = true.
Proof.
  intros Hk Hb. unfold best_resting_match in Hb. apply fmap_Some in Hb as (o & Ho & ->).
  apply sort_by_head in Ho as [Hin Hmin];
    [|intros; by apply priority_total|intros ? ? ?; by apply priority_trans].
  apply list_elem_of_filter in Hin as [Hm Hin]. apply elem_of_btree_values in Hin as [k Hko].
  pose proof (Hk k o Hko) as Hid. cbn in Hid. subst k. exists o. split_and!; [done..|].
  intros k o' Hko' Hm'. apply Hmin, list_elem_of_filter. split; [done|].
  apply elem_of_btree_values. eauto.
Qed.

(** A withdrawal debit succeeds exactly for a positive amount within the unlocked balance,
    takes exactly it, and otherwise changes no balance. *)
Theorem withdrawal_debits_only_free_balance tb owner amount :
  book_ok tb ->
  let a := exchange_account tb owner in
  let '(tb', r) := debit_for_withdrawal tb owner amount in
  book_ok tb' /\ r <> Panic /\
  (r = Ok tt <-> 0 < amount /\ amount <= base_balance a - locked_base a) /\
  (r = Ok tt -> base_total (tb_accounts tb') + amount = base_total (tb_accounts tb) /\
     exchange_account tb' owner = mkAccount (base_balance a - amount) (locked_base a)
                                    (compute_balance a) (locked_compute a)) /\
  (r <> Ok tt -> forall pk, exchange_account tb' pk = exchange_account tb pk).
Proof.
  intros Hb a. unfold debit_for_withdrawal. fold a.
  destruct (N.eqb_spec amount 0) as [->|Hz]; [split_and!; try done; split; [done|lia]|].
  pose proof (touch_book_ok tb owner Hb) as Hbt.
  assert (Hta : forall pk, exchange_account (touch_account tb owner) pk = exchange_account tb pk)
    by (intros pk; rewrite !exchange_account_acct; apply touch_acct).
  destruct (N.ltb_spec (base_balance a - locked_base a) amount) as [Hlt|Hge].
  { split_and!; try done. split; [done|lia]. }
  pose proof (lo_base_backed _ _ (bo_ledger _ Hb) owner) as Bb.
  pose proof (lo_compute_backed _ _ (bo_ledger _ Hb) owner) as Bc.
  rewrite <-exchange_account_acct in Bb, Bc. fold a in Bb, Bc.
  erewrite update_account_Ok.
  2:{ rewrite Hta. fold a. unfold sub_base. by rewrite sub64_fits by lia. }
  set (a' := mkAccount _ _ _ _).
  pose proof (account_total (touch_account tb owner) owner a' base_balance eq_refl) as Tb.
  pose proof (account_total (touch_account tb owner) owner a' compute_balance eq_refl) as Tc.
  rewrite Hta, touch_totals in Tb, Tc by done. fold a in Tb, Tc. cbn in Tb, Tc.
  pose proof (lo_base_room _ _ (bo_ledger _ Hb)) as Rb.
  pose proof (lo_compute_room _ _ (bo_ledger _ Hb)) as Rc.
  unfold roomy, TAKER_FEE_BPS, base_total, compute_total in *. split_and!; try done.
  - apply book_ok_account; rewrite ?Hta; try done; cbn; [lia|..];
      unfold roomy, TAKER_FEE_BPS, base_total, compute_total; cbn; lia.
  - split; [lia|done].
  - intros _. split; [cbn; lia|]. rewrite exchange_account_acct. cbn. by rewrite acct_insert_eq.
Qed.

(** Confirming an exchange deposit credits its depositor the observed amount net of the
    fee, and the same deposit can never be credited again. *)
Theorem exchange_deposit_credits_once tb id observed fee now tb' who credited :
  book_ok tb -> roomy (base_total (tb_accounts tb) + observed) ->
  confirm_exchange_deposit tb id observed fee now = Ok (tb', (who, credited)) ->
  book_ok tb' /\ credited = observed - fee /\
  base_total (tb_accounts tb') = base_total (tb_accounts tb) + credited /\
  (exists d, tb_deposits tb !! id = Some d /\ who = depositor d /\ required_amount d <= observed /\
             purpose d = FundExchangeAccount) /\
  forall observed' fee' now',
    confirm_exchange_deposit tb' id observed' fee' now' = Err EscrowNotReserved.
Proof.
  intros Hb Hr Hc. unfold confirm_exchange_deposit in Hc.
  apply bind_Ok in Hc as (d & Hd & Hc). apply ok_or_Ok in Hd.
  apply bind_Ok in Hc as ([] & Hp & Hc). apply guard_Ok in Hp.
  apply bind_Ok in Hc as ([] & _ & Hc). apply bind_Ok in Hc as ([] & _ & Hc).
  apply bind_Ok in Hc as ([] & Hu & Hc). apply guard_Ok, negb_true_iff, N.ltb_ge in Hu.
  apply bind_Ok in Hc as (tb2 & Ht & Hc). apply Ok_inj in Hc. injection Hc as -> <- <-.
  unfold update_account in Ht. apply bind_Ok in Ht as (a' & Ha & Ht). apply Ok_inj in Ht.
  unfold add_base in Ha. apply bind_Ok in Ha as (v & Hv & Ha). apply Ok_inj in Ha.
  apply add64_Ok in Hv as [-> _].
  set (tb1 := with_deposits tb (<[id := set_deposit_status Consumed d]> (tb_deposits tb))) in *.
  assert (Hb1 : book_ok tb1) by (destruct Hb as [? ?]; by split).
  pose proof (account_total tb1 (depositor d) a' base_balance eq_refl) as Tb.
  pose proof (account_total tb1 (depositor d) a' compute_balance eq_refl) as Tc.
  pose proof (lo_base_backed _ _ (bo_ledger _ Hb1) (depositor d)) as Bb.
  pose proof (lo_compute_backed _ _ (bo_ledger _ Hb1) (depositor d)) as Bc.
  pose proof (lo_compute_room _ _ (bo_ledger _ Hb1)) as Rc. rewrite <-exchange_account_acct in Bb, Bc.
  change (map_sum base_balance (tb_accounts tb1)) with (base_total (tb_accounts tb)) in Tb.
  rewrite Ht in Tb, Tc. rewrite <-Ha in Tb, Tc. cbn [base_balance compute_balance] in Tb, Tc.
  assert (Hbase : base_total (tb_accounts tb') = base_total (tb_accounts tb) + (observed - fee))
    by (unfold base_total in *; lia).
  split_and!; [|done|done| |].
  - rewrite <-Ht. apply book_ok_account; [exact Hb1|..]; rewrite ?Ht; try (rewrite <-Ha; cbn; lia || done).
    + rewrite Hbase. unfold roomy, TAKER_FEE_BPS in *. lia.
    + unfold roomy, compute_total in *. replace (map_sum compute_balance (tb_accounts tb'))
        with (map_sum compute_balance (tb_accounts tb1)) by lia. done.
  - exists d. split_and!; try done. unfold is_exchange_deposit in Hp. by destruct (purpose d).
  - intros observed' fee' now'. unfold confirm_exchange_deposit. rewrite <-Ht. cbn.
    rewrite lookup_insert_eq. cbn. unfold is_exchange_deposit in *. cbn. by destruct (purpose d).
Qed.
