(* ===== verification/Staging.v ===== *)
(** * Staging: the handler's working copy is transparent

    [handlers::place_order] runs the matching on [stage_order]'s bounded copy
    and publishes the records it touched. The copy and the live board run in
    lockstep, so what is published is what the live board would have become
    had the order been placed on it directly. *)

From S2P Require Import Prelude Types BoardTypes Exchange ExchangeInv ExchangeTheorems.

Section lockstep.
Implicit Types (S L : TaskBoard) (taker o : Order) (X : gset PublicKey).

(** Accounts of [X] agree; the copy holds every order the taker can meet. *)
Record sim X S L taker : Prop := {
  sm_orders : tb_orders S ⊆ tb_orders L;
  sm_match id o : tb_orders L !! id = Some o -> matchable taker o -> tb_orders S !! id = Some o;
  sm_agree pk : pk ∈ X -> exchange_account S pk = exchange_account L pk;
  sm_owners id o : tb_orders S !! id = Some o -> o_owner o ∈ X;
  sm_taker : o_owner taker ∈ X
}.

Lemma sim_best X S L taker : sim X S L taker -> best_resting_match S taker = best_resting_match L taker.
Proof.
  intros Hs. unfold best_resting_match. do 3 f_equal. apply filter_btree_values.
  intros k o Hm. split; intros Hk; [|by eapply sm_match].
  exact (lookup_weaken _ _ _ _ Hk (sm_orders _ _ _ _ Hs)).
Qed.

Lemma exchange_account_restore tb pk a pk' :
  exchange_account (restore_exchange_account tb pk a) pk'
  = if decide (pk = pk') then a else exchange_account tb pk'.
Proof. rewrite !exchange_account_acct. apply acct_insert_case. Qed.

(** An account update on both sides. *)
Lemma sim_update X S L taker pk f L' :
  sim X S L taker -> pk ∈ X -> update_account L pk f = Ok L' ->
  exists S', update_account S pk f = Ok S' /\ sim X S' L' taker /\
    tb_orders S' = tb_orders S /\ tb_orders L' = tb_orders L /\
    (forall pk', pk' <> pk -> exchange_account L' pk' = exchange_account L pk') /\
    L' = with_accounts L (tb_accounts L').
Proof.
  intros Hs Hpk Hu. unfold update_account in *. rewrite (sm_agree _ _ _ _ Hs pk Hpk).
  apply bind_Ok in Hu as (a & -> & Hu). apply Ok_inj in Hu. subst L'. cbn [mbind outcome_bind].
  eexists. split; [done|]. split_and!; try done.
  - destruct Hs as [S1 S2 S3 S4 S5]. split; try done. intros pk' Hpk'.
    rewrite !exchange_account_restore. case_decide; auto.
  - intros pk' Hne. rewrite exchange_account_restore. by rewrite decide_False.
Qed.

(** An order inserted on both sides. *)
Lemma sim_insert X S L taker o o' :
  sim X S L taker -> tb_orders S !! o_id o = Some o ->
  o_owner o' = o_owner o ->
  sim X (with_orders S (<[o_id o := o']> (tb_orders S))) (with_orders L (<[o_id o := o']> (tb_orders L)))
    taker.
Proof.
  intros [S1 S2 S3 S4 S5] Ho Hw. split; cbn [with_orders tb_orders]; try done.
  - by apply insert_mono.
  - intros id x Hx Hm. destruct (decide (id = o_id o)) as [->|Hne].
    + rewrite lookup_insert_eq in Hx |- *. done.
    + rewrite lookup_insert_ne in Hx |- * by done. eauto.
  - intros id x Hx. destruct (decide (id = o_id o)) as [->|Hne].
    + rewrite lookup_insert_eq in Hx. injection Hx as <-. rewrite Hw. eauto.
    + rewrite lookup_insert_ne in Hx by done. eauto.
Qed.

(** A taker that differs only in what is filled meets the same orders. *)
Lemma sim_taker X S L taker filled st :
  sim X S L taker -> sim X S L (set_filled taker filled st).
Proof. by intros [S1 S2 S3 S4 S5]. Qed.

(** What a batch of trades touches. *)
Definition trade_ids (trades : list Trade) : list Uuid :=
  concat ((fun t => [buy_order_id t; sell_order_id t]) <$> trades).
Definition trade_pks (trades : list Trade) : list PublicKey :=
  concat ((fun t => [buyer t; seller t]) <$> trades).

(** Outside the trades' orders and accounts, nothing moves. *)
Record frame (trades : list Trade) L L' : Prop := {
  fr_orders id : id ∉ trade_ids trades -> tb_orders L' !! id = tb_orders L !! id;
  fr_accounts pk : pk ∉ trade_pks trades -> exchange_account L' pk = exchange_account L pk;
  fr_rest : L' = with_orders (with_accounts L (tb_accounts L')) (tb_orders L')
}.

Lemma frame_refl L : frame [] L L.
Proof. split; try done. by destruct L. Qed.

Lemma frame_cons t trades L1 L2 L3 :
  frame [t] L1 L2 -> frame trades L2 L3 -> frame (t :: trades) L1 L3.
Proof.
  intros [A1 A2 A3] [B1 B2 B3]. split.
  - intros id Hid. unfold trade_ids in *. cbn in *. rewrite !not_elem_of_cons in Hid.
    rewrite B1 by tauto. apply A1. set_solver.
  - intros pk Hpk. unfold trade_pks in *. cbn in *. rewrite !not_elem_of_cons in Hpk.
    rewrite B2 by tauto. apply A2. set_solver.
  - rewrite B3, A3. by destruct L1.
Qed.

(** A step both sides take alike. *)
Ltac run_ok e x := destruct e as [x| |]; try done; cbn [mbind outcome_bind] in *.

(** A fill touches the resting order and the two owners. *)
Lemma fill_frame L L' t o resting' :
  tb_orders L' = <[o_id o := resting']> (tb_orders L) -> o_id o ∈ trade_ids [t] ->
  (forall pk, pk ∉ trade_pks [t] -> exchange_account L' pk = exchange_account L pk) ->
  L' = with_orders (with_accounts L (tb_accounts L')) (tb_orders L') -> frame [t] L L'.
Proof.
  intros Ho Hin Ha Hr. split; [|done|done].
  intros id Hid. rewrite Ho. apply lookup_insert_ne. intros <-. done.
Qed.

(** One turn of the loop on both sides. *)
Lemma sim_fill X S L taker resting now tid L' taker' t :
  sim X S L taker -> tb_orders S !! o_id resting = Some resting ->
  fill now tid L taker resting = Ok (L', taker', t) ->
  exists S', fill now tid S taker resting = Ok (S', taker', t) /\ sim X S' L' taker' /\
    frame [t] L L' /\ dom (tb_orders S') = dom (tb_orders S) /\
    (exists o', tb_orders S' = <[o_id resting := o']> (tb_orders S) /\
                tb_orders L' = <[o_id resting := o']> (tb_orders L)) /\
    (forall id, id ∈ trade_ids [t] -> id = o_id taker \/ id ∈ dom (tb_orders S)) /\
    (forall pk, pk ∈ trade_pks [t] -> pk ∈ X) /\ o_id taker' = o_id taker.
Proof.
  intros Hs Hr Hf. unfold fill in *.
  run_ok (sub64 (E := BoardError) (o_quantity taker) (o_filled taker)) x1.
  run_ok (sub64 (E := BoardError) (o_quantity resting) (o_filled resting)) x2.
  run_ok (add64 (E := BoardError) (o_filled resting) (N.min x1 x2)) x3.
  run_ok (add64 (E := BoardError) (o_filled taker) (N.min x1 x2)) x4.
  set (resting' := set_filled resting x3 _) in *.
  pose proof (sim_insert X S L taker resting resting' Hs Hr eq_refl) as Hs1.
  assert (Hrx : o_owner resting ∈ X) by (exact (sm_owners _ _ _ _ Hs _ _ Hr)).
  pose proof (sm_taker _ _ _ _ Hs) as Htx.
  destruct (match o_side taker with Buy => (o_owner taker, o_price taker, o_owner resting)
            | Sell => (o_owner resting, o_price resting, o_owner taker) end) as [[bo bp] so] eqn:Eo.
  assert (Hbx : bo ∈ X /\ so ∈ X) by (destruct (o_side taker); injection Eo as <- <- <-; done).
  destruct Hbx as [Hbx Hsx].
  run_ok (mul64 (E := BoardError) (o_price resting) (N.min x1 x2)) n. run_ok (fill_fee (o_side taker) (N.min x1 x2) n) fee.
  run_ok (mul64 (E := BoardError) bp (N.min x1 x2)) rel.
  destruct (match o_side taker with Buy => sub64 _ _ | Sell => Ok _ end) as [cc| |]; try done.
  cbn [mbind outcome_bind] in *.
  destruct (update_account (with_orders L _) bo _) as [L2| |] eqn:EL2; try done. cbn [mbind outcome_bind] in *.
  destruct (sim_update _ _ _ _ _ _ _ Hs1 Hbx EL2) as (S2 & -> & Hs2 & O1 & O2 & A1 & R1).
  cbn [mbind outcome_bind].
  destruct (match o_side taker with Sell => sub64 _ _ | Buy => Ok _ end) as [bc| |]; try done.
  cbn [mbind outcome_bind] in *.
  destruct (update_account L2 so _) as [L3| |] eqn:EL3; try done. cbn [mbind outcome_bind] in *.
  destruct (sim_update _ _ _ _ _ _ _ Hs2 Hsx EL3) as (S3 & -> & Hs3 & O3 & O4 & A2 & R2).
  cbn [mbind outcome_bind].
  destruct (match o_side taker with Buy => (o_id taker, o_id resting)
            | Sell => (o_id resting, o_id taker) end) as [bi si] eqn:Ei.
  apply Ok_inj in Hf. injection Hf as <- <- <-. exists S3.
  assert (Hids : (bi = o_id taker /\ si = o_id resting) \/ (bi = o_id resting /\ si = o_id taker))
    by (destruct (o_side taker); injection Ei as <- <-; auto).
  split_and!; [done|by apply sim_taker| | |exists resting'; by rewrite O3, O1, O4, O2| | |done].
  - apply (fill_frame _ _ _ resting resting'); [by rewrite O4, O2|unfold trade_ids; set_solver| |].
    + intros pk Hpk. unfold trade_pks in Hpk. cbn in Hpk. rewrite !not_elem_of_cons in Hpk. by rewrite A2, A1 by tauto.
    + rewrite R2, R1. by destruct L.
  - rewrite O3, O1. cbn [with_orders tb_orders]. apply dom_insert_lookup_L. eauto.
  - intros id Hid. unfold trade_ids in Hid. cbn in Hid. rewrite !elem_of_cons, elem_of_nil in Hid.
    assert (o_id resting ∈ dom (tb_orders S)) by (by eapply elem_of_dom_2).
    destruct Hids as [[-> ->]|[-> ->]], Hid as [->|[->|[]]]; auto.
  - intros pk Hpk. unfold trade_pks in Hpk. cbn in Hpk. rewrite !elem_of_cons, elem_of_nil in Hpk.
    by destruct Hpk as [->|[->|[]]].
Qed.

(** The whole loop on both sides; the copy has its own fuel. *)
Lemma sim_loop now tids X fS : forall fL S L taker trades L' taker' trades',
  sim X S L taker -> matching L taker -> (0 < fS)%nat ->
  (o_filled taker < o_quantity taker -> (size (open_orders S) < fS)%nat) ->
  match_loop fL now tids L taker trades = Ok (L', taker', trades') ->
  exists S' new, match_loop fS now tids S taker trades = Ok (S', taker', trades') /\
    trades' = trades ++ new /\ sim X S' L' taker' /\ frame new L L' /\
    dom (tb_orders S') = dom (tb_orders S) /\
    (forall id, id ∈ trade_ids new -> id = o_id taker \/ id ∈ dom (tb_orders S)) /\
    (forall pk, pk ∈ trade_pks new -> pk ∈ X) /\ o_id taker' = o_id taker.
Proof.
  induction fS as [|fS IH]; intros fL S L taker trades L' taker' trades' Hs M Hpos Hf Hl; [lia|].
  destruct fL as [|fL]; [done|]. cbn [match_loop] in Hl |- *.
  assert (Hstop : Ok (L, taker, trades) = Ok (E := BoardError) (L', taker', trades') ->
    exists S' new, Ok (E := BoardError) (S, taker, trades) = Ok (S', taker', trades') /\
      trades' = trades ++ new /\ sim X S' L' taker' /\ frame new L L' /\
      dom (tb_orders S') = dom (tb_orders S) /\
      (forall id, id ∈ trade_ids new -> id = o_id taker \/ id ∈ dom (tb_orders S)) /\
      (forall pk, pk ∈ trade_pks new -> pk ∈ X) /\ o_id taker' = o_id taker).
  { intros [= <- <- <-]. exists S, []. rewrite app_nil_r.
    split_and!; try done; [apply frame_refl|..]; intros ? Hx; by apply not_elem_of_nil in Hx. }
  destruct (N.ltb_spec (o_filled taker) (o_quantity taker)) as [Hlt|Hge]; [|by apply Hstop].
  rewrite (sim_best _ _ _ _ Hs). destruct (best_resting_match L taker) as [id|] eqn:Eb; [|by apply Hstop].
  clear Hstop. destruct (best_match_Some L taker id M Eb) as (resting & -> & Hr & Hm).
  rewrite Hr in Hl. pose proof (sm_match _ _ _ _ Hs _ _ Hr Hm) as HrS. rewrite HrS.
  cbn [expect mbind outcome_bind] in Hl |- *.
  pose proof (fill_runs L taker resting M Hr Hm Hlt now (tids (length trades))) as Hfill.
  rewrite Hfill in Hl. cbn [mbind outcome_bind] in Hl.
  destruct (sim_fill X S L taker resting now _ _ _ _ Hs HrS Hfill)
    as (S1 & -> & Hs1 & Fr1 & D1 & (o' & OS & OL) & I1 & P1 & _). cbn [mbind outcome_bind].
  assert (o' = resting_after taker resting) as ->.
  { cbn in OL. apply (f_equal (lookup (o_id resting))) in OL. rewrite !lookup_insert_eq in OL.
    by injection OL as <-. }
  pose proof (open_in_pos _ _ _ HrS (proj1 Hm)) as Hop. specialize (Hf Hlt). unfold open_orders in Hf.
  assert (Hnext : o_filled (taker_after taker resting) < o_quantity (taker_after taker resting) ->
            (size (open_orders S1) < fS)%nat).
  { intros Hl'. pose proof (turn_progress L taker resting M Hr Hm Hlt Hl') as Hfil.
    pose proof (open_in_less _ _ _ (resting_after taker resting) HrS (proj1 Hm)) as Hless.
    rewrite Hfil in Hless. specialize (Hless ltac:(done)). unfold open_orders. rewrite OS. lia. }
  destruct (IH fL S1 _ _ _ _ _ _ Hs1 (turn_matching L taker resting M Hr Hm Hlt) ltac:(lia) Hnext Hl)
    as (S' & new & E & -> & Hs' & Fr & D & I' & P' & Hid).
  exists S', (trade_of now (tids (length trades)) taker resting :: new).
  split_and!; [exact E|by rewrite <-(assoc_L (++))|done|by eapply frame_cons|by rewrite D|..|by rewrite Hid].
  - intros id. unfold trade_ids. rewrite fmap_cons. cbn [concat]. rewrite elem_of_app. intros [Hx|Hx].
    + apply I1. unfold trade_ids. cbn. exact Hx.
    + rewrite D1 in I'. by apply I'.
  - intros pk. unfold trade_pks. rewrite fmap_cons. cbn [concat]. rewrite elem_of_app. intros [Hx|Hx]; [|auto].
    apply P1. unfold trade_pks. cbn. exact Hx.
Qed.

End lockstep.

(** ** The staged copy *)
Section stage.
Implicit Types (S L : TaskBoard) (o : Order).

(** The copy's accounts are the live ones, and it holds only live orders of
    owners whose account it holds. *)
Record copy_of L S : Prop := {
  cp_orders : tb_orders S ⊆ tb_orders L;
  cp_accounts pk : pk ∈ dom (tb_accounts S) -> exchange_account S pk = exchange_account L pk;
  cp_owners id o : tb_orders S !! id = Some o -> o_owner o ∈ dom (tb_accounts S)
}.

Lemma copy_account L S pk : copy_of L S -> copy_of L (restore_exchange_account S pk (exchange_account L pk)).
Proof.
  intros [C1 C2 C3]. split; [done|..].
  - intros pk' Hpk. rewrite exchange_account_restore. case_decide; [by subst|].
    apply C2. cbn in Hpk. set_solver.
  - intros id o Ho. apply C3 in Ho. cbn. set_solver.
Qed.

Lemma copy_order L S o :
  copy_of L S -> tb_orders L !! o_id o = Some o -> o_owner o ∈ dom (tb_accounts S) ->
  copy_of L (restore_order S o).
Proof.
  intros [C1 C2 C3] Ho Hw. split; [|done|].
  - cbn. by apply insert_subseteq_l.
  - intros id o' Ho'. cbn in *. destruct (decide (id = o_id o)) as [->|Hne].
    + rewrite lookup_insert_eq in Ho'. by injection Ho' as <-.
    + rewrite lookup_insert_ne in Ho' by done. by eapply C3.
Qed.

Lemma stage_fold L l : forall S,
  copy_of L S -> (forall o, o ∈ l -> tb_orders L !! o_id o = Some o) ->
  let S' := foldl (fun st o => restore_order
              (restore_exchange_account st (o_owner o) (exchange_account L (o_owner o))) o) S l in
  copy_of L S' /\ dom (tb_accounts S) ⊆ dom (tb_accounts S') /\
  (forall o, o ∈ l -> tb_orders S' !! o_id o = Some o) /\
  (forall id o, tb_orders S !! id = Some o -> tb_orders L !! id = Some o ->
     tb_orders S' !! id = Some o).
Proof.
  induction l as [|o l IH]; intros S HC Hl; cbn [foldl].
  { split_and!; try done. intros o Ho. by apply not_elem_of_nil in Ho. }
  destruct (IH (restore_order (restore_exchange_account S (o_owner o) (exchange_account L (o_owner o))) o))
    as (H1 & H2 & H3 & H4).
  - apply copy_order; [by apply copy_account|apply Hl; by left|cbn; set_solver].
  - intros x Hx. apply Hl. by right.
  - split_and!; [done| | |].
    + etrans; [|exact H2]. cbn. set_solver.
    + intros x Hx. apply elem_of_cons in Hx as [->|Hx]; [|by apply H3].
      apply H4; [cbn; apply lookup_insert_eq|apply Hl; by left].
    + intros id x Hx HLx. apply H4; [|done]. cbn. destruct (decide (id = o_id o)) as [->|Hne].
      * rewrite lookup_insert_eq. rewrite (Hl o) in HLx by (by left). by injection HLx as ->.
      * by rewrite lookup_insert_ne.
Qed.

Lemma stageable_matchable id owner side price quantity filled st now o :
  stageable owner side price o <-> matchable (mkOrder id owner side price quantity filled st now) o.
Proof.
  unfold stageable, matchable. cbn.
  assert (Hs : o_side o <> side <-> o_side o = opposite side)
    by (destruct (o_side o), side; cbn; split; congruence).
  rewrite Hs. tauto.
Qed.

Lemma stage_sim L id owner side price quantity sink now :
  map_Forall (fun k o => o_id o = k) (tb_orders L) ->
  let S := stage_order L owner side price sink in
  sim (dom (tb_accounts S)) S L (mkOrder id owner side price quantity 0 OrderOpen now) /\
  sink ∈ dom (tb_accounts S).
Proof.
  intros Hk. unfold stage_order.
  set (S0 := restore_exchange_account (restore_exchange_account new_board owner _) sink _).
  destruct (stage_fold L (base.filter (stageable owner side price) (btree_values (tb_orders L))) S0)
    as (HC & HD & HI & _).
  - unfold S0. do 2 apply copy_account. split; [apply map_empty_subseteq|..].
    + intros pk Hpk. cbn in Hpk. set_solver.
    + intros k o Ho. cbn in Ho. by rewrite lookup_empty in Ho.
  - intros o Ho. apply list_elem_of_filter in Ho as [_ Ho].
    apply elem_of_btree_values in Ho as [k Hko]. by rewrite (Hk k o Hko).
  - cbv zeta. set (S := foldl _ _ _) in *. assert (Hd0 : owner ∈ dom (tb_accounts S) /\ sink ∈ dom (tb_accounts S)).
    { split; apply HD; unfold S0; cbn; set_solver. }
    split; [|apply Hd0]. split; [apply HC| |apply HC|apply HC|apply Hd0].
    intros k o Hko Hm. rewrite <-(Hk k o Hko). apply HI, list_elem_of_filter.
    split; [by eapply stageable_matchable|]. apply elem_of_btree_values. eauto.
Qed.

End stage.

(** ** The placement on both boards *)
Section placement.
Implicit Types (S L : TaskBoard) (X : gset PublicKey).

Lemma sim_touch X S L taker pk :
  sim X S L taker -> sim X (touch_account S pk) (touch_account L pk) taker.
Proof.
  intros [S1 S2 S3 S4 S5]. split; try done. intros pk' Hpk.
  rewrite !exchange_account_acct, !touch_acct, <-!exchange_account_acct. by apply S3.
Qed.

(** What a successful placement leaves on both boards. *)
Record placed_pair X S L S' L' (id : Uuid) owner order (trades : list Trade) : Prop := {
  pp_agree pk : pk ∈ X -> exchange_account S' pk = exchange_account L' pk;
  pp_pks pk : pk ∈ trade_pks trades -> pk ∈ X;
  pp_owner : o_owner order = owner /\ o_id order = id;
  pp_accounts pk : pk ∉ trade_pks trades -> pk <> owner -> exchange_account L' pk = exchange_account L pk;
  pp_orders i : i ∉ trade_ids trades -> i <> id -> tb_orders L' !! i = tb_orders L !! i;
  pp_order : tb_orders L' !! id = Some order;
  pp_matched i : i ∈ trade_ids trades -> i <> id ->
    exists o, o_id o = i /\ tb_orders S' !! i = Some o /\ tb_orders L' !! i = Some o;
  pp_trades : tb_trades L' = tb_trades (foldl restore_trade L trades);
  pp_rest : L' = with_trades (with_orders (with_accounts L (tb_accounts L')) (tb_orders L')) (tb_trades L')
}.

Lemma restore_trades_map tb trades :
  tb_trades (foldl restore_trade tb trades)
  = foldl (fun m t => <[tr_id t := t]> m) (tb_trades tb) trades.
Proof. revert tb. induction trades as [|t trades IH]; intros tb; cbn; [done|]. by rewrite IH. Qed.

(** The loop's end, closed and stored, on both boards. *)
Lemma close_pair X S L S1 L1 S2 L2 taker taker' new :
  sim X S2 L2 taker' -> frame new L1 L2 -> dom (tb_orders S2) = dom (tb_orders S1) ->
  tb_orders S1 = tb_orders S ->
  (forall i, i ∈ trade_ids new -> i = o_id taker \/ i ∈ dom (tb_orders S1)) ->
  (forall pk, pk ∈ trade_pks new -> pk ∈ X) -> o_id taker' = o_id taker ->
  o_owner taker' = o_owner taker ->
  L1 = with_accounts L (tb_accounts L1) ->
  (forall pk, pk <> o_owner taker -> exchange_account L1 pk = exchange_account L pk) ->
  map_Forall (fun k o => o_id o = k) (tb_orders L2) ->
  placed_pair X S L
    (foldl restore_trade (restore_order S2 (closed_order taker')) new)
    (foldl restore_trade (restore_order L2 (closed_order taker')) new)
    (o_id taker) (o_owner taker) (closed_order taker') new.
Proof.
  intros Hs Fr D O1 I P Hid Hw R1 A1 Hk.
  rewrite (restore_trades_only (restore_order S2 _)), (restore_trades_only (restore_order L2 _)).
  set (L' := with_trades (restore_order L2 _) _). set (S' := with_trades (restore_order S2 _) _).
  assert (EL : tb_orders L' = <[o_id taker := closed_order taker']> (tb_orders L2))
    by (cbn; by rewrite Hid).
  assert (ES : tb_orders S' = <[o_id taker := closed_order taker']> (tb_orders S2))
    by (cbn; by rewrite Hid).
  assert (AL : tb_accounts L' = tb_accounts L2) by done.
  assert (AS : tb_accounts S' = tb_accounts S2) by done. clearbody S'.
  split.
  - intros pk Hpk. rewrite !exchange_account_acct, AL, AS, <-!exchange_account_acct.
    by apply (sm_agree _ _ _ _ Hs).
  - done.
  - cbn. by rewrite Hid, Hw.
  - intros pk Hpk Hne. rewrite exchange_account_acct, AL, <-exchange_account_acct.
    rewrite (fr_accounts _ _ _ Fr pk Hpk). by apply A1.
  - intros i Hi Hne. rewrite EL, lookup_insert_ne by done. rewrite (fr_orders _ _ _ Fr i Hi).
    by rewrite R1.
  - rewrite EL. apply lookup_insert_eq.
  - intros i Hi Hne. destruct (I i Hi) as [->|Hd]; [done|]. rewrite <-D in Hd.
    apply elem_of_dom in Hd as [o Ho]. exists o.
    pose proof (lookup_weaken _ _ _ _ Ho (sm_orders _ _ _ _ Hs)) as HoL.
    rewrite EL, ES, !lookup_insert_ne by done. split_and!; [exact (Hk i o HoL)|done|done].
  - unfold L'. cbn [with_trades tb_trades]. rewrite !restore_trades_map. f_equal. cbn.
    rewrite (fr_rest _ _ _ Fr), R1. done.
  - unfold L'. cbn. rewrite (fr_rest _ _ _ Fr), R1. by destruct L.
Qed.

(** The lock depends on the board only through the owner's account. *)
Definition lock_decide (a : ExchangeAccount) (side : Side) (notional quantity : N)
    : outcome BoardError ExchangeAccount :=
  let '(available, required, lock) :=
    match side with
    | Buy => (base_balance a - locked_base a, notional, lock_base notional)
    | Sell => (compute_balance a - locked_compute a, quantity, lock_compute quantity)
    end in
  if available <? required then Err (InsufficientBalance available required) else lock a.

Lemma lock_for_order_pure tb owner side notional quantity :
  lock_for_order tb owner side notional quantity =
  match lock_decide (exchange_account tb owner) side notional quantity with
  | Ok a => (restore_exchange_account (touch_account tb owner) owner a, Ok tt)
  | Err e => (touch_account tb owner, Err e)
  | Panic => (touch_account tb owner, Panic)
  end.
Proof.
  unfold lock_for_order, lock_decide, update_account.
  rewrite (exchange_account_acct (touch_account tb owner)), touch_acct, <-exchange_account_acct.
  destruct side.
  - destruct (_ <? notional); [done|]. by destruct (lock_base _ _).
  - destruct (_ <? quantity); [done|]. by destruct (lock_compute _ _).
Qed.

Lemma sim_restore X S L taker pk a :
  sim X S L taker -> sim X (restore_exchange_account S pk a) (restore_exchange_account L pk a) taker.
Proof.
  intros [S1 S2 S3 S4 S5]. split; try done. intros pk' Hpk.
  rewrite !exchange_account_restore. case_decide; auto.
Qed.

Lemma matching_keys tb taker :
  matching tb taker -> map_Forall (fun k o => o_id o = k) (tb_orders tb).
Proof.
  intros M k o Ho. assert (Hne : k <> o_id taker) by (intros ->; by rewrite (ma_fresh _ _ M) in Ho).
  apply (ok_id _ _ (lo_orders _ _ (ma_ledger _ _ M) k o ltac:(by rewrite lookup_insert_ne))).
Qed.

Lemma place_pair X S L id tids owner side price quantity now :
  sim X S L (mkOrder id owner side price quantity 0 OrderOpen now) ->
  book_ok L -> tb_orders L !! id = None -> quantity <= U64_MAX ->
  match place_order L id tids owner side price quantity now with
  | (_, Err e) => exists S', place_order S id tids owner side price quantity now = (S', Err e)
  | (_, Panic) => False
  | (L', Ok (order, trades)) => exists S',
      place_order S id tids owner side price quantity now = (S', Ok (order, trades)) /\
      placed_pair X S L S' L' id owner order trades
  end.
Proof.
  intros Hs Hb Hf Hq. unfold place_order.
  destruct ((price =? 0) || (quantity =? 0)); [by eexists|].
  destruct (checked_mul price quantity) as [notional|] eqn:Em; [|by eexists].
  apply checked_mul_Some in Em as [-> Hn].
  destruct (lock_for_order_cases L owner side (price * quantity) quantity Hb)
    as [(av & rq & EL)|(EL & H1 & H2)].
  - rewrite EL. rewrite !lock_for_order_pure in EL |- *.
    rewrite (sm_agree _ _ _ _ Hs owner (sm_taker _ _ _ _ Hs)).
    destruct (lock_decide _ _ _ _); [done|injection EL as ->; by eexists|done].
  - rewrite EL. pose proof EL as EL'. rewrite lock_for_order_pure in EL'.
    rewrite (lock_for_order_pure S), (sm_agree _ _ _ _ Hs owner (sm_taker _ _ _ _ Hs)).
    destruct (lock_decide _ _ _ _) as [a| |]; [|done|done]. apply (f_equal fst) in EL'. cbn [fst] in EL'.
    pose proof (locked_matching L id owner side price quantity now Hb Hf Hq Hn H1 H2) as M.
    rewrite <-EL' in M |- *.
    pose proof (sim_restore _ _ _ _ owner a (sim_touch _ _ _ _ owner Hs)) as Hs1.
    set (L1 := restore_exchange_account (touch_account L owner) owner a) in *.
    set (S1 := restore_exchange_account (touch_account S owner) owner a) in *.
    set (taker := mkOrder id owner side price quantity 0 OrderOpen now) in *.
    destruct (match_loop_ok now tids (Datatypes.S (size (tb_orders L1))) L1 taker [] M)
      as (L2 & taker' & new & Hl & Hd); [lia|pose proof (open_orders_size L1); lia|].
    rewrite Hl. cbn [app] in Hl |- *.
    assert (HfS : o_filled taker < o_quantity taker ->
              (size (open_orders S1) < Datatypes.S (size (tb_orders S1)))%nat)
      by (pose proof (open_orders_size S1); lia).
    destruct (sim_loop now tids X (Datatypes.S (size (tb_orders S1))) _ _ _ _ _ _ _ _ Hs1 M
      ltac:(lia) HfS Hl) as (S2 & new' & HS & E & Hs2 & Fr & D & I & P & Hid).
    cbn [app] in E. subst new'.
    rewrite HS. fold (closed_order taker'). eexists. split; [done|].
    apply (close_pair X S L S1 L1 S2 L2 taker taker' new); try done.
    + by rewrite (md_taker _ _ _ _ _ _ Hd).
    + intros pk Hne. unfold L1. rewrite exchange_account_restore, decide_False by (by intros <-).
      by rewrite !exchange_account_acct, touch_acct.
    + eapply matching_keys, Hd.
Qed.

End placement.

(** ** Fees and publication *)
Section publish.
Implicit Types (S L tb : TaskBoard).

Lemma fee_totals_from trades c b :
  c + sumN (compute_fee <$> trades) <= U64_MAX -> b + sumN (base_fee <$> trades) <= U64_MAX ->
  ofold (fun '(compute, base) t =>
    match taker_side t with
    | Buy => c ← add64 compute (taker_fee t); Ok (c, base)
    | Sell => b ← add64 base (taker_fee t); Ok (compute, b)
    end) (c, b) trades
  = Ok (E := BoardError) (c + sumN (compute_fee <$> trades), b + sumN (base_fee <$> trades)).
Proof.
  revert c b. induction trades as [|t trades IH]; intros c b; rewrite ?fmap_cons, ?sumN_cons; intros Hc Hb.
  - cbn. by rewrite !N.add_0_r.
  - unfold compute_fee at 1 in Hc. unfold base_fee at 1 in Hb. unfold compute_fee at 1, base_fee at 1.
    cbn [ofold]. destruct (taker_side t); rewrite add64_fits by lia; cbn [mbind outcome_bind];
      rewrite IH by lia; do 2 f_equal; lia.
Qed.

Definition credited (a : ExchangeAccount) (trades : list Trade) : ExchangeAccount :=
  mkAccount (base_balance a + sumN (base_fee <$> trades)) (locked_base a)
    (compute_balance a + sumN (compute_fee <$> trades)) (locked_compute a).

Lemma account_eta a :
  mkAccount (base_balance a) (locked_base a) (compute_balance a) (locked_compute a) = a.
Proof. by destruct a. Qed.

(** A conditional credit of one asset. *)
Lemma credit_if tb pk n (f : ExchangeAccount -> outcome BoardError ExchangeAccount) a' :
  f (exchange_account tb pk) = Ok a' -> (n = 0 -> a' = exchange_account tb pk) ->
  exists tb', (if 0 <? n then update_account tb pk f else Ok tb) = Ok tb' /\
    exchange_account tb' pk = a' /\
    (forall pk', pk' <> pk -> exchange_account tb' pk' = exchange_account tb pk') /\
    (n = 0 -> tb' = tb) /\ tb' = with_accounts tb (tb_accounts tb').
Proof.
  intros Hf H0. destruct (N.ltb_spec 0 n) as [Hn|Hn].
  - eexists. split; [by apply update_account_Ok|]. split_and!; [|..|lia|done].
    + by rewrite exchange_account_restore, decide_True.
    + intros pk' Hne. by rewrite exchange_account_restore, decide_False by congruence.
  - exists tb. split_and!; try done; [symmetry; apply H0; lia|by destruct tb].
Qed.

(** Crediting fees that fit: the sink's account grows by them, nothing else
    moves. *)
Lemma credit_fees_ok tb sink trades :
  base_balance (exchange_account tb sink) + sumN (base_fee <$> trades) <= U64_MAX ->
  compute_balance (exchange_account tb sink) + sumN (compute_fee <$> trades) <= U64_MAX ->
  exists tb' fees, credit_fees tb sink trades = Ok (tb', fees) /\
    exchange_account tb' sink = credited (exchange_account tb sink) trades /\
    (forall pk, pk <> sink -> exchange_account tb' pk = exchange_account tb pk) /\
    (fees = false -> tb' = tb) /\ tb' = with_accounts tb (tb_accounts tb') /\
    fees = (0 <? sumN (compute_fee <$> trades)) || (0 <? sumN (base_fee <$> trades)).
Proof.
  intros Hb Hc. unfold credit_fees, taker_fee_totals. rewrite fee_totals_from by lia.
  cbn [mbind outcome_bind]. rewrite !N.add_0_l. unfold credited.
  set (c := sumN (compute_fee <$> trades)) in *. set (b := sumN (base_fee <$> trades)) in *.
  set (a := exchange_account tb sink) in *. unfold credit_compute, credit_base.
  destruct (credit_if tb sink c (add_compute c)
    (mkAccount (base_balance a) (locked_base a) (compute_balance a + c) (locked_compute a)))
    as (tb1 & -> & A1 & O1 & Z1 & R1).
  { unfold add_compute. fold a. by rewrite add64_fits. }
  { intros Hz. rewrite Hz, N.add_0_r. apply account_eta. }
  cbn [mbind outcome_bind].
  destruct (credit_if tb1 sink b (add_base b)
    (mkAccount (base_balance a + b) (locked_base a) (compute_balance a + c) (locked_compute a)))
    as (tb2 & -> & A2 & O2 & Z2 & R2).
  { unfold add_base. rewrite A1. cbn. by rewrite add64_fits. }
  { intros Hz. by rewrite A1, Hz, N.add_0_r. }
  eexists _, _. split; [reflexivity|]. split_and!; [done| | |rewrite R2, R1; by destruct tb|done].
  - intros pk Hne. rewrite O2, O1 by done. done.
  - intros Hf. apply orb_false_iff in Hf as [Hf1 Hf2]. apply N.ltb_ge in Hf1, Hf2.
    rewrite Z2 by lia. apply Z1. lia.
Qed.

Lemma restore_orders_lookup (M : gmap Uuid Order) l : forall tb i,
  Forall (fun o => M !! o_id o = Some o) l ->
  tb_orders (foldl restore_order tb l) !! i
  = if decide (i ∈ o_id <$> l) then M !! i else tb_orders tb !! i.
Proof.
  induction l as [|o l IH]; intros tb i Hl; [done|]. apply Forall_cons in Hl as [Ho Hl].
  cbn [foldl]. rewrite IH by done. rewrite fmap_cons. cbn [restore_order with_orders tb_orders].
  destruct (decide (i ∈ o_id <$> l)) as [Hi|Hi]; [by rewrite decide_True by (by right)|].
  destruct (decide (i = o_id o)) as [->|Hne].
  - by rewrite lookup_insert_eq, decide_True by (by left).
  - rewrite lookup_insert_ne, decide_False; [done| |done]. by rewrite not_elem_of_cons.
Qed.

Lemma restore_accounts_lookup S (l : list PublicKey) : forall tb pk,
  exchange_account (foldl (fun tb e => restore_exchange_account tb e.1 e.2) tb
    ((fun pk => (pk, exchange_account S pk)) <$> l)) pk
  = if decide (pk ∈ l) then exchange_account S pk else exchange_account tb pk.
Proof.
  induction l as [|x l IH]; intros tb pk; [done|]. rewrite fmap_cons. cbn [foldl fst snd].
  rewrite IH, exchange_account_restore. destruct (decide (pk ∈ l)) as [Hi|Hi].
  - by rewrite decide_True by (by right).
  - destruct (decide (x = pk)) as [->|Hne].
    + by rewrite decide_True by (by left).
    + rewrite decide_False; [done|]. by rewrite not_elem_of_cons.
Qed.

Lemma restore_orders_only tb l :
  foldl restore_order tb l = with_orders tb (tb_orders (foldl restore_order tb l)).
Proof.
  revert tb. induction l as [|o l IH]; intros tb; cbn; [by destruct tb|]. rewrite IH. by destruct tb.
Qed.
Lemma restore_accounts_only tb (l : list (PublicKey * ExchangeAccount)) :
  foldl (fun tb e => restore_exchange_account tb e.1 e.2) tb l
  = with_accounts tb (tb_accounts (foldl (fun tb e => restore_exchange_account tb e.1 e.2) tb l)).
Proof.
  revert tb. induction l as [|o l IH]; intros tb; cbn; [by destruct tb|]. rewrite IH. by destruct tb.
Qed.

End publish.

(** ** Equal boards

    Two boards a caller of the exchange cannot tell apart: a missing account
    reads as an empty one. *)
Record board_equiv (tb tb' : TaskBoard) : Prop := {
  be_orders : tb_orders tb = tb_orders tb';
  be_trades : tb_trades tb = tb_trades tb';
  be_accounts pk : exchange_account tb pk = exchange_account tb' pk;
  be_rest : with_trades (with_orders (with_accounts tb ∅) ∅) ∅
            = with_trades (with_orders (with_accounts tb' ∅) ∅) ∅
}.

#[export] Instance board_equiv_equiv : Equivalence board_equiv.
Proof.
  split.
  - intros tb. by split.
  - intros tb tb' [H1 H2 H3 H4]. by split.
  - intros t1 t2 t3 [A1 A2 A3 A4] [B1 B2 B3 B4]. split; [congruence|congruence| |congruence].
    intros pk. by rewrite A3.
Qed.

Lemma acct_sum_ext (f : ExchangeAccount -> N) m : forall m',
  f ExchangeAccount_default = 0 -> (forall pk, acct m pk = acct m' pk) -> map_sum f m = map_sum f m'.
Proof.
  induction m as [|i x m Hi IH] using map_ind; intros m' H0 Ha.
  - rewrite map_sum_empty. symmetry.
    rewrite (map_sum_ext f (fun _ => 0)); [induction m' as [|j y m'' Hj IH] using map_ind|].
    + apply map_sum_empty.
    + rewrite map_sum_insert by done. rewrite IH; [done|]. intros pk.
      specialize (Ha pk). unfold acct in *. destruct (decide (pk = j)) as [->|Hne].
      * by rewrite Hj, lookup_empty.
      * by rewrite lookup_insert_ne in Ha by done.
    + intros j y Hj. specialize (Ha j). unfold acct in Ha. rewrite Hj, lookup_empty in Ha. cbn in Ha.
      by rewrite <-Ha.
  - pose proof (acct_sum_insert f m' i ExchangeAccount_default H0) as E.
    rewrite (map_sum_insert f m i x Hi).
    rewrite (IH (<[i := ExchangeAccount_default]> m') H0).
    + specialize (Ha i). unfold acct at 1 in Ha. rewrite lookup_insert_eq in Ha. cbn in Ha.
      rewrite <-Ha in E. lia.
    + intros pk. rewrite acct_insert_case. specialize (Ha pk). case_decide as Ep.
      * subst pk. unfold acct. by rewrite Hi.
      * rewrite <-Ha. symmetry. by apply acct_insert_ne.
Qed.

#[export] Instance base_total_proper : Proper (board_equiv ==> eq) (fun tb => base_total (tb_accounts tb)).
Proof. intros tb tb' E. apply acct_sum_ext; [done|]. apply E. Qed.
#[export] Instance compute_total_proper :
  Proper (board_equiv ==> eq) (fun tb => compute_total (tb_accounts tb)).
Proof. intros tb tb' E. apply acct_sum_ext; [done|]. apply E. Qed.
#[export] Instance book_ok_proper : Proper (board_equiv ==> impl) book_ok.
Proof.
  intros tb tb' E [L O]. split; [|by rewrite <-(be_orders _ _ E)]. rewrite <-(be_orders _ _ E).
  eapply ledger_ok_accts; [| | |exact L].
  - intros pk. symmetry. apply (be_accounts _ _ E).
  - symmetry. exact (base_total_proper _ _ E).
  - symmetry. exact (compute_total_proper _ _ E).
Qed.

Section transparent.
Implicit Types (L : TaskBoard).

(** Publishing what the placement and the fees touched. *)
Lemma publish_equiv X S L S1 L1 S2 L2 id owner sink order trades fees :
  placed_pair X S L S1 L1 id owner order trades -> sink ∈ X -> owner ∈ X ->
  tb_orders L !! id = None ->
  tb_orders S2 = tb_orders S1 -> L2 = with_accounts L1 (tb_accounts L2) ->
  (forall pk, pk ∈ X -> exchange_account S2 pk = exchange_account L2 pk) ->
  (forall pk, pk <> sink \/ fees = false -> exchange_account L2 pk = exchange_account L1 pk) ->
  board_equiv
    (foldl (fun tb e => restore_exchange_account tb e.1 e.2)
       (foldl restore_trade
          (foldl restore_order L
             (order :: omap (get_order S2) (elements (touched_orders order trades)))) trades)
       ((fun pk => (pk, exchange_account S2 pk)) <$>
          elements (touched_accounts order trades sink fees)))
    L2.
Proof.
  intros PP Hsx Hox Hfr OS R2 AG A2. destruct (pp_owner _ _ _ _ _ _ _ _ _ PP) as [Hw Hid].
  set (touched := omap (get_order S2) (elements (touched_orders order trades))).
  assert (OL : tb_orders L2 = tb_orders L1) by (by rewrite R2).
  assert (Hel : forall i, i ∈ touched_orders order trades <-> i ∈ trade_ids trades /\ i <> id).
  { intros i. unfold touched_orders, trade_ids. rewrite Hid. set_solver. }
  assert (Htouch : forall o, o ∈ touched <->
            exists i, i ∈ trade_ids trades /\ i <> id /\ tb_orders S1 !! i = Some o).
  { intros o. unfold touched. rewrite list_elem_of_omap. unfold get_order. rewrite OS.
    split; intros (i & Hi & Ho); [rewrite elem_of_elements, Hel in Hi; exists i; tauto|].
    exists i. rewrite elem_of_elements, Hel. tauto. }
  assert (Hall : Forall (fun o => tb_orders L1 !! o_id o = Some o) (order :: touched)).
  { constructor; [rewrite Hid; apply PP|]. apply Forall_forall. intros o Ho.
    apply Htouch in Ho as (i & Hi & Hne & Ho).
    destruct (pp_matched _ _ _ _ _ _ _ _ _ PP i Hi Hne) as (o' & <- & HS & HL).
    rewrite HS in Ho. injection Ho as <-. exact HL. }
  rewrite restore_accounts_only, (restore_trades_only (foldl restore_order _ _)), restore_orders_only.
  split.
  - cbn [with_accounts with_trades with_orders tb_orders]. rewrite OL. apply map_eq. intros i.
    rewrite (restore_orders_lookup (tb_orders L1)) by done. case_decide as Hi; [done|].
    rewrite fmap_cons, not_elem_of_cons, Hid in Hi. destruct Hi as [Hne Hi].
    symmetry. apply (pp_orders _ _ _ _ _ _ _ _ _ PP); [|done]. intros Ht. apply Hi.
    destruct (pp_matched _ _ _ _ _ _ _ _ _ PP i Ht Hne) as (o & <- & HS & HL).
    apply list_elem_of_fmap_2. apply Htouch. eauto.
  - cbn [with_accounts with_trades with_orders tb_trades]. rewrite !restore_trades_map.
    rewrite R2. cbn [with_accounts tb_trades]. rewrite (pp_trades _ _ _ _ _ _ _ _ _ PP), restore_trades_map.
    done.
  - intros pk. rewrite <-restore_accounts_only, restore_accounts_lookup.
    case_decide as Hpk; rewrite elem_of_elements in Hpk; unfold touched_accounts in Hpk;
      fold (trade_pks trades) in Hpk; rewrite Hw in Hpk.
    + apply AG. pose proof (pp_pks _ _ _ _ _ _ _ _ _ PP pk).
      destruct fees; set_solver.
    + assert (Hno : pk ∉ trade_pks trades /\ pk <> owner /\ (pk <> sink \/ fees = false))
        by (destruct fees; set_solver).
      destruct Hno as (N1 & N2 & N3). rewrite A2 by done.
      rewrite (pp_accounts _ _ _ _ _ _ _ _ _ PP) by done.
      by rewrite <-(restore_trades_only (foldl restore_order L _)) || done.
  - rewrite R2, (pp_rest _ _ _ _ _ _ _ _ _ PP). cbn. by destruct L.
Qed.

Lemma fees_fit tb tb' sink id owner side price quantity now order trades :
  book_ok tb -> placed tb tb' id owner side price quantity now order trades ->
  base_balance (exchange_account tb' sink) + sumN (base_fee <$> trades) <= U64_MAX /\
  compute_balance (exchange_account tb' sink) + sumN (compute_fee <$> trades) <= U64_MAX.
Proof.
  intros Hb Hp. pose proof (pl_base _ _ _ _ _ _ _ _ _ _ Hp). pose proof (pl_compute _ _ _ _ _ _ _ _ _ _ Hp).
  pose proof (lo_base_room _ _ (bo_ledger _ Hb)) as Rb.
  pose proof (lo_compute_room _ _ (bo_ledger _ Hb)) as Rc.
  pose proof (acct_sum_le base_balance (tb_accounts tb') sink eq_refl).
  pose proof (acct_sum_le compute_balance (tb_accounts tb') sink eq_refl).
  rewrite !exchange_account_acct. unfold roomy, TAKER_FEE_BPS, base_total, compute_total in *. lia.
Qed.

(** Crediting the fees restores the totals, and the ledger stays sound. *)
Lemma credited_ledger tb tb1 tb2 sink id owner side price quantity now order trades :
  book_ok tb -> book_ok tb1 -> placed tb tb1 id owner side price quantity now order trades ->
  exchange_account tb2 sink = credited (exchange_account tb1 sink) trades ->
  (forall pk, pk <> sink -> exchange_account tb2 pk = exchange_account tb1 pk) ->
  tb2 = with_accounts tb1 (tb_accounts tb2) ->
  book_ok tb2 /\ base_total (tb_accounts tb2) = base_total (tb_accounts tb) /\
  compute_total (tb_accounts tb2) = compute_total (tb_accounts tb).
Proof.
  intros Hb Hb1 Hp As Ao R.
  set (a := credited (exchange_account tb1 sink) trades) in *.
  assert (Heq : board_equiv (restore_exchange_account tb1 sink a) tb2).
  { split; try (by rewrite R). intros pk. rewrite exchange_account_restore.
    case_decide as E; [by subst|]. symmetry. apply Ao. congruence. }
  pose proof (account_total tb1 sink a base_balance eq_refl) as Tb.
  pose proof (account_total tb1 sink a compute_balance eq_refl) as Tc. cbn in Tb, Tc.
  pose proof (pl_base _ _ _ _ _ _ _ _ _ _ Hp). pose proof (pl_compute _ _ _ _ _ _ _ _ _ _ Hp).
  assert (Eb : base_total (tb_accounts (restore_exchange_account tb1 sink a)) = base_total (tb_accounts tb))
    by (unfold base_total in *; cbn; lia).
  assert (Ec : compute_total (tb_accounts (restore_exchange_account tb1 sink a)) = compute_total (tb_accounts tb))
    by (unfold compute_total in *; cbn; lia).
  pose proof (base_total_proper _ _ Heq) as E1. pose proof (compute_total_proper _ _ Heq) as E2.
  cbn beta in E1, E2. split_and!; [|by rewrite <-E1|by rewrite <-E2].
  eapply (book_ok_proper _ _ Heq). apply book_ok_account; [done|done|done|..].
  - pose proof (lo_base_backed _ _ (bo_ledger _ Hb1) sink). rewrite <-exchange_account_acct in *. cbn. lia.
  - pose proof (lo_compute_backed _ _ (bo_ledger _ Hb1) sink). rewrite <-exchange_account_acct in *. cbn. lia.
  - rewrite Eb. apply Hb.
  - rewrite Ec. apply Hb.
Qed.

Lemma staged_placement_spec live sink id tids pk side price quantity now :
  book_ok live -> tb_orders live !! id = None -> quantity <= U64_MAX ->
  match place_order live id tids pk side price quantity now with
  | (_, Panic) => False
  | (_, Err e) =>
      handle_place_order live sink id tids pk side price quantity now = Err e
  | (direct, Ok (order, trades)) =>
      exists live' direct' fees,
        handle_place_order live sink id tids pk side price quantity now = Ok (live', order) /\
        credit_fees direct sink trades = Ok (direct', fees) /\
        board_equiv live' direct' /\ book_ok live' /\
        base_total (tb_accounts live') = base_total (tb_accounts live) /\
        compute_total (tb_accounts live') = compute_total (tb_accounts live)
  end.
Proof.
  intros Hb Hf Hq. unfold handle_place_order.
  assert (Hk : map_Forall (fun k o => o_id o = k) (tb_orders live))
    by (intros k o Ho; apply (ok_id _ _ (lo_orders _ _ (bo_ledger _ Hb) k o Ho))).
  destruct (stage_sim live id pk side price quantity sink now Hk) as [Hs Hsx].
  set (S := stage_order live pk side price sink) in *.
  pose proof (place_pair _ _ _ id tids pk side price quantity now Hs Hb Hf Hq) as HP.
  destruct (place_order live id tids pk side price quantity now) as [direct [[order trades]|e|]] eqn:E;
    [|by destruct HP as [S' ->]|done].
  destruct HP as (S1 & -> & PP).
  destruct (place_order_spec _ _ _ _ _ _ _ _ _ _ Hb Hf Hq E) as (_ & Hb1 & Hp & _).
  specialize (Hp order trades eq_refl).
  destruct (fees_fit _ _ sink _ _ _ _ _ _ _ _ Hb Hp) as [F1 F2].
  destruct (credit_fees_ok direct sink trades F1 F2) as (D & fees & HD & As & Ao & Az & R & Ef).
  pose proof (pp_agree _ _ _ _ _ _ _ _ _ PP sink Hsx) as Hag.
  destruct (credit_fees_ok S1 sink trades) as (S2 & fees' & HS & As' & Ao' & _ & R' & Ef');
    [by rewrite Hag..|].
  rewrite HS. cbn [mbind outcome_bind]. assert (fees' = fees) as -> by congruence.
  eexists _, D, fees. split; [reflexivity|]. split; [done|].
  assert (Heq : board_equiv (foldl (fun tb e => restore_exchange_account tb e.1 e.2)
       (foldl restore_trade (foldl restore_order live
             (order :: omap (get_order S2) (elements (touched_orders order trades)))) trades)
       ((fun pk => (pk, exchange_account S2 pk)) <$>
          elements (touched_accounts order trades sink fees))) D).
  { eapply publish_equiv; [exact PP|done|apply Hs|done|by rewrite R'|done|..].
    - intros x Hx. destruct (decide (x = sink)) as [->|Hne]; [by rewrite As, As', Hag|].
      rewrite Ao, Ao' by done. by apply PP.
    - intros x [Hne|Hz]; [by apply Ao|by rewrite Az]. }
  destruct (credited_ledger _ _ _ _ _ _ _ _ _ _ _ _ Hb Hb1 Hp As Ao R) as (B & T1 & T2).
  split_and!; [exact Heq|by eapply book_ok_proper; [symmetry|]| |].
  - rewrite <-T1. exact (base_total_proper _ _ Heq).
  - rewrite <-T2. exact (compute_total_proper _ _ Heq).
Qed.

(** The handler's placement on a staged copy of part of the board gives the same result,
    the same order and an equivalent board as placing it on the live board and
    crediting the fees, and keeps both totals. *)
Theorem staged_placement_is_transparent live sink id tids pk side price quantity now :
  book_ok live -> tb_orders live !! id = None -> quantity <= U64_MAX ->
  match place_order live id tids pk side price quantity now with
  | (_, Panic) => False
  | (_, Err e) =>
      handle_place_order live sink id tids pk side price quantity now = Err e
  | (direct, Ok (order, trades)) =>
      exists live' direct' fees,
        handle_place_order live sink id tids pk side price quantity now = Ok (live', order) /\
        credit_fees direct sink trades = Ok (direct', fees) /\
        board_equiv live' direct' /\ book_ok live' /\
        base_total (tb_accounts live') = base_total (tb_accounts live) /\
        compute_total (tb_accounts live') = compute_total (tb_accounts live)
  end.
Proof. apply staged_placement_spec. Qed.

End transparent.

(** * ToyExchange: a concrete market

    A buyer, a seller and the fee sink; a resting ask, a crossing bid, a
    cancellation, a deposit and a withdrawal, run on the model, and the
    witnesses of the exchange theorems at them. *)

Module ToyExchange.
Definition alice : PublicKey := [1].
Definition bob : PublicKey := [2].
Definition sink : PublicKey := [9].

Definition market0 : TaskBoard :=
  with_accounts new_board
    (<[alice := mkAccount 100000000 0 0 0]> (<[bob := mkAccount 0 0 5000000 0]> ∅)).

Lemma market0_ok : book_ok market0.
Proof.
  split; [|intros ? ? H; cbn in H; by rewrite lookup_empty in H].
  assert (Ha : forall pk, acct (tb_accounts market0) pk =
    if decide (alice = pk) then mkAccount 100000000 0 0 0
    else if decide (bob = pk) then mkAccount 0 0 5000000 0 else ExchangeAccount_default)
    by (intros pk; cbn; by rewrite !acct_insert_case).
  split; try (intros pk; rewrite Ha; cbn [market0 with_accounts tb_orders new_board];
              rewrite ?map_sum_empty; repeat case_decide; cbn; lia).
  - intros ? ? H. cbn in H. by rewrite lookup_empty in H.
  - vm_compute. discriminate.
  - vm_compute. discriminate.
Qed.

(** Bob offers 3,000,000 units of compute at 5; Alice bids 6 for 2,000,000. *)
Definition market1 : TaskBoard := Eval vm_compute in
  (place_order market0 10 (fun n => 100 + N.of_nat n) bob Sell 5 3000000 0).1.
Definition market2 : TaskBoard := Eval vm_compute in
  (place_order market1 11 (fun n => 200 + N.of_nat n) alice Buy 6 2000000 1).1.

Lemma market1_ok : book_ok market1.
Proof.
  assert (E : place_order market0 10 (fun n => 100 + N.of_nat n) bob Sell 5 3000000 0
    = (market1, Ok (mkOrder 10 bob Sell 5 3000000 0 OrderOpen 0, []))) by (vm_compute; reflexivity).
  apply place_order_spec in E as (_ & ? & _); [done|apply market0_ok|done|vm_compute; discriminate].
Qed.

(** The bid fills at the resting price, pays the fee in compute, and the
    difference to its limit is free again. *)
Example market2_settled :
  exchange_account market2 alice = mkAccount 90000000 0 1998000 0 /\
  exchange_account market2 bob = mkAccount 10000000 0 3000000 1000000.
Proof. split; vm_compute; reflexivity. Qed.

Lemma place_order_keeps_ledger_witness :
  (place_order market1 11 (fun n => 200 + N.of_nat n) alice Buy 6 2000000 1).2 <> Panic /\
  book_ok (place_order market1 11 (fun n => 200 + N.of_nat n) alice Buy 6 2000000 1).1.
Proof.
  apply place_order_keeps_ledger; [exact market1_ok|vm_compute; reflexivity|vm_compute; discriminate].
Defined.

Definition fill1 : Trade := mkTrade 200 11 10 alice bob 5 2000000 1 Buy 2000.

Lemma place_order_settles_witness :
  placed market1 market2 11 alice Buy 6 2000000 1
    (mkOrder 11 alice Buy 6 2000000 2000000 Filled 1) [fill1].
Proof.
  apply (place_order_settles market1 11 (fun n => 200 + N.of_nat n) alice Buy 6 2000000 1);
    [exact market1_ok|vm_compute; reflexivity|vm_compute; discriminate|vm_compute; reflexivity].
Defined.

Lemma cancel_order_releases_witness :
  match cancel_order market1 10 bob with
  | Ok (tb', o) =>
      book_ok tb' /\ o_status o = Cancelled /\ tb_orders tb' !! 10 = Some o /\
      exists before, tb_orders market1 !! 10 = Some before /\ o_owner before = bob /\
        o_status before = OrderOpen /\
        exchange_account tb' bob = released before (exchange_account market1 bob) /\
        base_total (tb_accounts tb') = base_total (tb_accounts market1) /\
        compute_total (tb_accounts tb') = compute_total (tb_accounts market1)
  | Err OrderNotFound => tb_orders market1 !! 10 = None
  | Err NotOrderOwner => exists o, tb_orders market1 !! 10 = Some o /\ o_owner o <> bob
  | Err OrderNotOpen => exists o, tb_orders market1 !! 10 = Some o /\ o_status o <> OrderOpen
  | _ => False
  end.
Proof. exact (cancel_order_releases market1 10 bob market1_ok). Defined.

Lemma best_match_has_price_time_priority_witness :
  let taker := mkOrder 11 alice Buy 6 2000000 0 OrderOpen 1 in
  exists best, tb_orders market1 !! 10 = Some best /\ matchable taker best /\
    forall k o, tb_orders market1 !! k = Some o -> matchable taker o ->
      o = best \/ priority_leb Buy best o = true.
Proof.
  cbv zeta. apply (best_match_has_price_time_priority market1
    (mkOrder 11 alice Buy 6 2000000 0 OrderOpen 1)); [|vm_compute; reflexivity].
  intros k o Ho. apply (ok_id _ _ (lo_orders _ _ (bo_ledger _ market1_ok) k o Ho)).
Defined.

Lemma withdrawal_debits_only_free_balance_witness :
  let a := exchange_account market1 alice in
  let '(tb', r) := debit_for_withdrawal market1 alice 500 in
  book_ok tb' /\ r <> Panic /\
  (r = Ok tt <-> 0 < 500 /\ 500 <= base_balance a - locked_base a) /\
  (r = Ok tt -> base_total (tb_accounts tb') + 500 = base_total (tb_accounts market1) /\
     exchange_account tb' alice = mkAccount (base_balance a - 500) (locked_base a)
                                    (compute_balance a) (locked_compute a)) /\
  (r <> Ok tt -> forall pk, exchange_account tb' pk = exchange_account market1 pk).
Proof. exact (withdrawal_debits_only_free_balance market1 alice 500 market1_ok). Defined.

(** A funding deposit of Alice's, seen with 70,000 units. *)
Definition deposit1 : PendingDeposit :=
  mkDeposit 31 alice [7; 7] None 50000 FundExchangeAccount Reserved 0 (seconds 3600).
Definition market3 : TaskBoard := Eval vm_compute in with_deposits market1 (<[31 := deposit1]> ∅).
Definition market4 : TaskBoard := Eval vm_compute in
  match confirm_exchange_deposit market3 31 70000 1000 0 with Ok (tb, _) => tb | _ => market3 end.

Lemma exchange_deposit_credits_once_witness :
  book_ok market4 /\ 69000 = 70000 - 1000 /\
  base_total (tb_accounts market4) = base_total (tb_accounts market3) + 69000 /\
  (exists d, tb_deposits market3 !! 31 = Some d /\ alice = depositor d /\ required_amount d <= 70000 /\
             purpose d = FundExchangeAccount) /\
  forall observed' fee' now',
    confirm_exchange_deposit market4 31 observed' fee' now' = Err EscrowNotReserved.
Proof.
  apply (exchange_deposit_credits_once market3 31 70000 1000 0).
  - pose proof market1_ok as [L O]. split; [exact L|exact O].
  - vm_compute. discriminate.
  - vm_compute. reflexivity.
Defined.

Lemma staged_placement_is_transparent_witness :
  exists direct order trades live' direct' fees,
    place_order market1 11 (fun n => 200 + N.of_nat n) alice Buy 6 2000000 1
      = (direct, Ok (order, trades)) /\
    handle_place_order market1 sink 11 (fun n => 200 + N.of_nat n) alice Buy 6 2000000 1
      = Ok (live', order) /\
    credit_fees direct sink trades = Ok (direct', fees) /\
    board_equiv live' direct' /\ book_ok live' /\
    base_total (tb_accounts live') = base_total (tb_accounts market1) /\
    compute_total (tb_accounts live') = compute_total (tb_accounts market1).
Proof.
  pose proof (staged_placement_is_transparent market1 sink 11 (fun n => 200 + N.of_nat n) alice Buy
    6 2000000 1 market1_ok ltac:(vm_compute; reflexivity) ltac:(vm_compute; discriminate)) as H.
  assert (E : place_order market1 11 (fun n => 200 + N.of_nat n) alice Buy 6 2000000 1
    = (market2, Ok (mkOrder 11 alice Buy 6 2000000 2000000 Filled 1, [fill1])))
    by (vm_compute; reflexivity).
  rewrite E in H. destruct H as (live' & direct' & fees & H). eexists _, _, _, live', direct', fees.
  split; [exact E|exact H].
Defined.
End ToyExchange.
