(* ===== verification/Tasks.v ===== *)
(** * Tasks: what a task owes

    Models [impl Task], [majority_answer] and the payout resolution rule of
    [hub/src/board.rs]: the recipients of a task and what each is paid, which
    of them has been, the strict majority of a consensus task, and what the
    node's view of two addresses says became of a payment. *)

From S2P Require Import Prelude Types Crypto BoardTypes.

(** ** Payouts of a task *)

(** The winner of the bounty leg of a legacy disputable task. *)
Definition dispute_winner (t : Task) (d : option Dispute) : option PublicKey :=
  match d with
  | None => claimant t
  | Some d =>
      match d_resolution d with
      | None => None
      | Some ChallengerWins => Some (d_challenger d)
      | Some AssigneeWins => claimant t
      end
  end.

(** [Task::allocated_payouts] *)
Definition allocated_payouts (t : Task) : list (PublicKey * N) :=
  match kind t with
  | HashMatch _ => match claimant t with Some c => [(c, bounty t)] | None => [] end
  | Consensus c =>
      omap (fun e => (fun share => (e.1, share)) <$> a_share e.2) (btree_iter (assignees c))
  | Disputable d =>
      match answers d with
      | _ :: _ => omap (fun a => (fun share => (ca_pubkey a, share)) <$> ca_share a) (answers d)
      | [] => match dispute_winner t (dispute d) with Some w => [(w, bounty t)] | None => [] end
      end
  end.

(** [Task::pending_payouts_recipient_hint] *)
Definition pending_payouts_recipient_hint (t : Task) : option PublicKey :=
  match kind t with
  | Disputable d =>
      match dispute d with
      | None => claimant t
      | Some x => match d_resolution x with
                  | Some ChallengerWins => Some (d_challenger x)
                  | _ => claimant t
                  end
      end
  | _ => None
  end.

(** [Task::is_recipient_paid] *)
Definition is_recipient_paid (t : Task) (recipient : PublicKey) : bool :=
  match kind t with
  | HashMatch _ => bool_decide (status t = Paid) && bool_decide (claimant t = Some recipient)
  | Consensus c =>
      match assignees c !! recipient with Some a => a_paid a | None => false end
  | Disputable d =>
      match answers d with
      | _ :: _ => existsb (fun a => bool_decide (ca_pubkey a = recipient) && ca_paid a) (answers d)
      | [] => bool_decide (status t = Paid) &&
              bool_decide (pending_payouts_recipient_hint t = Some recipient)
      end
  end.

(** [Task::owed_payouts], [paid_payouts], [pending_payouts] *)
Definition owed_payouts (t : Task) : list (PublicKey * N) :=
  base.filter (fun p => is_recipient_paid t p.1 = false) (allocated_payouts t).
Definition paid_payouts (t : Task) : list (PublicKey * N) :=
  base.filter (fun p => is_recipient_paid t p.1 = true) (allocated_payouts t).
Definition is_settling (s : TaskStatus) : bool :=
  match s with Verified | Submitted => true | _ => false end.
Definition pending_payouts (t : Task) : list (PublicKey * N) :=
  if is_settling (status t) then owed_payouts t else [].

(** [Task::confirmed_payout_total], [unconfirmed_payout_total]: [sum] panics
    on overflow. *)
Definition confirmed_payout_total (t : Task) : outcome BoardError N :=
  expect (checked_sum (paid_payouts t).*2).
Definition unconfirmed_payout_total (t : Task) : outcome BoardError N :=
  expect (checked_sum (owed_payouts t).*2).

(** [Task::consensus_assignees] *)
Definition consensus_assignees (t : Task) : list PublicKey :=
  match kind t with Consensus c => (btree_iter (assignees c)).*1 | _ => [] end.

(** [Task::submission_deadline] *)
Definition submission_deadline (t : Task) : option DateTime :=
  match kind t with
  | Disputable d => Some (t_created_at t + minutes (dispute_window_minutes d))%Z
  | _ => None
  end.

(** ** Majority *)

(** How many assignees gave an answer. *)
Definition votes_for (answer : string) (m : gmap PublicKey ConsensusAssignment) : nat :=
  length (base.filter (fun a => a_answer a = Some answer) (btree_values m)).

(** The [counts] loop of [majority_answer]. *)
Definition count_answer (counts : gmap string nat) (a : ConsensusAssignment) : gmap string nat :=
  match a_answer a with
  | Some s => <[s := S (default O (counts !! s))]> counts
  | None => counts
  end.
Definition count_answers (l : list ConsensusAssignment) : gmap string nat :=
  foldl count_answer ∅ l.

(** [majority_answer]: the top answer, when it is alone at the top and has
    strictly more than half of the assignees. *)
Definition majority_answer (m : gmap PublicKey ConsensusAssignment) : option string :=
  let counts := count_answers (btree_values m) in
  match (map_to_list counts).*2 with
  | [] => None
  | c :: cs =>
      let max_count := foldr Nat.max c cs in
      match base.filter (fun e => e.2 = max_count) (map_to_list counts) with
      | [(answer, _)] =>
          if (size m / 2 <? max_count)%nat then Some answer else None
      | _ => None
      end
  end.

(** ** What became of a payment *)
Section resolve.
Context `{Primitives}.

(** The [for wanted in spent_inputs] loop of [resolve_against]. *)
Definition input_state (source_utxos : list (bool * TransactionOutput)) (wanted : Hash)
    : option bool :=
  (fun e : nat * (bool * TransactionOutput) => e.2.1) <$>
    list_find (fun e : bool * TransactionOutput => output_hash e.2 = wanted) source_utxos.
Definition scan_inputs (source_utxos : list (bool * TransactionOutput)) (spent_inputs : list Hash)
    : bool * bool :=
  foldl (fun '(any_vanished, any_marked) wanted =>
    match input_state source_utxos wanted with
    | None => (true, any_marked)
    | Some marked => (any_vanished, any_marked || marked)
    end) (false, false) spent_inputs.

(** [resolve_against] *)
Definition resolve_against (out_hash : Hash) (spent_inputs : list Hash)
    (recipient_utxos source_utxos : list (bool * TransactionOutput)) : PayoutOutcome :=
  if existsb (fun e => output_hash e.2 =? out_hash) recipient_utxos then Confirmed
  else match spent_inputs with
  | [] => Ambiguous
  | _ :: _ =>
      let '(any_vanished, any_marked) := scan_inputs source_utxos spent_inputs in
      if any_vanished then Ambiguous else if any_marked then HeldInMempool else NeverLanded
  end.

(** [PayoutAttempt::resolve] *)
Definition attempt_resolve (a : PayoutAttempt)
    (recipient_utxos source_utxos : list (bool * TransactionOutput)) : PayoutOutcome :=
  resolve_against (pa_output_hash a) (pa_spent_inputs a) recipient_utxos source_utxos.

End resolve.

(** ** Lemmas *)

(** *** Majority *)
Section majority.
Implicit Types (l : list ConsensusAssignment) (m : gmap PublicKey ConsensusAssignment).

Definition votes_in (s : string) l : nat :=
  length (base.filter (fun a => a_answer a = Some s) l).

Lemma votes_in_cons s a l :
  votes_in s (a :: l) = ((if decide (a_answer a = Some s) then 1 else 0) + votes_in s l)%nat.
Proof. unfold votes_in. rewrite filter_cons. by case_decide. Qed.

Lemma count_answers_from l : forall c s,
  default O (foldl count_answer c l !! s) = (default O (c !! s) + votes_in s l)%nat.
Proof.
  induction l as [|a l IH]; intros c s; cbn [foldl]; [by rewrite Nat.add_0_r|].
  rewrite IH, votes_in_cons. unfold count_answer. destruct (a_answer a) as [s'|] eqn:Ea.
  - destruct (decide (s = s')) as [->|Hne].
    + rewrite lookup_insert_eq, decide_True by done. cbn. lia.
    + rewrite lookup_insert_ne, decide_False by congruence. lia.
  - rewrite decide_False by done. lia.
Qed.

Lemma count_answers_votes l s : default O (count_answers l !! s) = votes_in s l.
Proof. unfold count_answers. rewrite count_answers_from, lookup_empty. done. Qed.

(** Every counted answer was given. *)
Lemma count_answers_pos l s n : count_answers l !! s = Some n -> n = votes_in s l /\ (0 < n)%nat.
Proof.
  intros Hn. pose proof (count_answers_votes l s) as Hv. rewrite Hn in Hv. cbn in Hv.
  split; [done|].
  assert (Hp : map_Forall (fun _ n => (0 < n)%nat) (count_answers l)); [|by apply (Hp s)].
  unfold count_answers. clear. assert (H0 : map_Forall (fun _ n => (0 < n)%nat) (∅ : gmap string nat))
    by apply map_Forall_empty.
  revert H0. generalize (∅ : gmap string nat) as c. induction l as [|a l IH]; intros c Hc; [done|].
  cbn [foldl]. apply IH. unfold count_answer. destruct (a_answer a) as [s|]; [|done].
  apply map_Forall_insert_2; [lia|done].
Qed.

(** Two different answers together have at most all the votes. *)
Lemma votes_disjoint l s1 s2 : s1 <> s2 -> (votes_in s1 l + votes_in s2 l <= length l)%nat.
Proof.
  intros Hne. induction l as [|a l IH]; [cbn; lia|]. rewrite !votes_in_cons. cbn [length].
  repeat case_decide; try congruence; lia.
Qed.

Lemma btree_values_length {K A} `{Countable K} `{BTreeKey K} (mm : gmap K A) :
  length (btree_values mm) = size mm.
Proof.
  unfold btree_values. rewrite length_fmap.
  rewrite (Permutation_length (btree_iter_perm mm)). by rewrite length_map_to_list.
Qed.

Lemma votes_for_in m s : votes_for s m = votes_in s (btree_values m).
Proof. done. Qed.

Lemma foldr_max_spec (c : nat) cs :
  foldr Nat.max c cs ∈ c :: cs /\ forall x, x ∈ c :: cs -> (x <= foldr Nat.max c cs)%nat.
Proof.
  induction cs as [|y cs [IH1 IH2]]; cbn.
  - split; [by left|]. intros x Hx. apply list_elem_of_singleton in Hx. lia.
  - split.
    + destruct (Nat.max_spec y (foldr Nat.max c cs)) as [[_ ->]|[_ ->]]; set_solver.
    + intros x Hx. assert (x = y \/ x ∈ c :: cs) as [->|Hx'] by set_solver; [lia|].
      specialize (IH2 x Hx'). lia.
Qed.

Lemma NoDup_singleton_list {A} (l : list A) a : NoDup l -> (forall x, x ∈ l <-> x = a) -> l = [a].
Proof.
  intros Hnd Hl. apply Permutation_singleton_r. apply NoDup_Permutation; [done|apply NoDup_singleton|].
  intros x. rewrite Hl, list_elem_of_singleton. done.
Qed.

(** The code's answer is the strict majority, when there is one. *)
Lemma majority_answer_spec m s :
  majority_answer m = Some s <-> (size m < 2 * votes_for s m)%nat.
Proof.
  unfold majority_answer. rewrite votes_for_in, <-(btree_values_length m).
  set (l := btree_values m). set (counts := count_answers l).
  assert (Hin : forall k n, (k, n) ∈ map_to_list counts <-> counts !! k = Some n)
    by (intros; apply elem_of_map_to_list).
  assert (Hval : forall x, x ∈ (map_to_list counts).*2 <-> exists k, counts !! k = Some x).
  { intros x. rewrite list_elem_of_fmap. split.
    - intros ([k n] & -> & Hk). exists k. by apply Hin.
    - intros [k Hk]. exists (k, x). split; [done|by apply Hin]. }
  destruct (map_to_list counts).*2 as [|c cs] eqn:Ev.
  { split; [done|]. intros Hs. exfalso. pose proof (count_answers_votes l s) as Hv. fold counts in Hv.
    destruct (counts !! s) as [n|] eqn:En; [|cbn in Hv; lia].
    assert (Hn : n ∈ @nil nat) by (apply Hval; eauto). by apply not_elem_of_nil in Hn. }
  destruct (foldr_max_spec c cs) as [Hmax Hle]. set (mx := foldr Nat.max c cs) in *.
  set (top := base.filter (fun e : string * nat => e.2 = mx) (map_to_list counts)).
  assert (Htop : forall k n, (k, n) ∈ top <-> n = mx /\ counts !! k = Some n)
    by (intros k n; unfold top; by rewrite list_elem_of_filter, Hin).
  assert (Hhalf : (length l / 2 <? mx)%nat = true <-> (length l < 2 * mx)%nat).
  { rewrite Nat.ltb_lt. pose proof (Nat.div_mod_eq (length l) 2) as Hd.
    pose proof (Nat.mod_upper_bound (length l) 2). lia. }
  split.
  - destruct top as [|[k n] [|e rest]]; try done. destruct (length l / 2 <? mx)%nat eqn:Eh; [|done].
    intros [= ->]. destruct (Htop s n) as [Ht _]. destruct Ht as [-> Hc]; [by left|].
    apply count_answers_pos in Hc as [<- _]. by apply Hhalf.
  - intros Hs. pose proof (count_answers_votes l s) as Hv. fold counts in Hv.
    destruct (counts !! s) as [n|] eqn:En; cbn in Hv; [subst n|lia].
    assert (Hmx : mx = votes_in s l).
    { apply Hval in Hmax as [k Hk]. assert (Hn : (votes_in s l <= mx)%nat) by (apply Hle, Hval; eauto).
      pose proof (count_answers_pos _ _ _ Hk) as [Hkm _].
      destruct (decide (k = s)) as [->|Hne]; [done|].
      pose proof (votes_disjoint l k s Hne). lia. }
    assert (top = [(s, mx)]) as ->.
    { apply NoDup_singleton_list; [apply NoDup_filter, NoDup_map_to_list|]. intros [k n].
      rewrite Htop. split; [|intros [= -> ->]; split; [done|]; by rewrite En, Hmx].
      intros [-> Hk]. pose proof (count_answers_pos _ _ _ Hk) as [Hkm _].
      destruct (decide (k = s)) as [->|Hne]; [done|].
      pose proof (votes_disjoint l k s Hne). lia. }
    rewrite (proj2 Hhalf) by lia. done.
Qed.

End majority.

(** *** Resolution *)
Section resolution.
Context `{Primitives}.
Implicit Types (us : list (bool * TransactionOutput)).

Lemma scan_inputs_from us l : forall v k,
  foldl (fun '(any_vanished, any_marked) wanted =>
    match input_state us wanted with
    | None => (true, any_marked)
    | Some marked => (any_vanished, any_marked || marked)
    end) (v, k) l
  = (v || existsb (fun h => bool_decide (input_state us h = None)) l,
     k || existsb (fun h => bool_decide (input_state us h = Some true)) l).
Proof.
  induction l as [|h l IH]; intros v k; cbn [foldl existsb]; [by rewrite !orb_false_r|].
  destruct (input_state us h) as [[]|] eqn:E; rewrite IH.
  - rewrite bool_decide_eq_false_2, bool_decide_eq_true_2 by done. by destruct v, k.
  - rewrite !bool_decide_eq_false_2 by done. by destruct v, k.
  - rewrite bool_decide_eq_true_2, bool_decide_eq_false_2 by done. by destruct v, k.
Qed.

Lemma existsb_elem {A} (f : A -> bool) l : existsb f l = true <-> exists x, x ∈ l /\ f x = true.
Proof.
  rewrite existsb_exists. setoid_rewrite <-list_elem_of_In. done.
Qed.

Lemma scan_vanished us l :
  (scan_inputs us l).1 = true <-> exists h, h ∈ l /\ input_state us h = None.
Proof.
  unfold scan_inputs. rewrite scan_inputs_from. cbn [fst orb]. rewrite existsb_elem.
  by setoid_rewrite bool_decide_eq_true.
Qed.

Lemma scan_marked us l :
  (scan_inputs us l).2 = true <-> exists h, h ∈ l /\ input_state us h = Some true.
Proof.
  unfold scan_inputs. rewrite scan_inputs_from. cbn [snd orb]. rewrite existsb_elem.
  by setoid_rewrite bool_decide_eq_true.
Qed.

End resolution.
