(* ===== verification/Board.v ===== *)
(** * Board: the task marketplace

    Models the task half of [impl TaskBoard] in [hub/src/board.rs]: creation
    and escrow, claiming, joining, answering, picking, disputing, resolving,
    the periodic sweeps, payouts and their attempts, reputation and faucet
    grants. Definitions only.

    [Utc::now()] and [Uuid::new_v4()] are arguments. A counter's [+=] panics
    on overflow at its width. A sweep over [self.tasks.values_mut()] is a
    function of one task applied to all of them. *)

From S2P Require Import Prelude Types BoardTypes Exchange Tasks.

(** ** Field assignments of a task *)
Definition set_status (t : Task) (s : TaskStatus) : Task :=
  mkTask (t_id t) (description t) (bounty t) (kind t) (poster t) s (claimant t) (claim_deadline t)
    (failed_attempts t) (t_created_at t) (min_reputation t) (close_reason t) (escrow_id t)
    (capabilities t) (settled_at t).
Definition set_kind (t : Task) (k : TaskKind) : Task :=
  mkTask (t_id t) (description t) (bounty t) k (poster t) (status t) (claimant t) (claim_deadline t)
    (failed_attempts t) (t_created_at t) (min_reputation t) (close_reason t) (escrow_id t)
    (capabilities t) (settled_at t).
Definition set_claim (t : Task) (c : option PublicKey) (d : option DateTime) : Task :=
  mkTask (t_id t) (description t) (bounty t) (kind t) (poster t) (status t) c d
    (failed_attempts t) (t_created_at t) (min_reputation t) (close_reason t) (escrow_id t)
    (capabilities t) (settled_at t).
Definition set_failed_attempts (t : Task) (n : N) : Task :=
  mkTask (t_id t) (description t) (bounty t) (kind t) (poster t) (status t) (claimant t)
    (claim_deadline t) n (t_created_at t) (min_reputation t) (close_reason t) (escrow_id t)
    (capabilities t) (settled_at t).
Definition set_min_rep (t : Task) (n : N) : Task :=
  mkTask (t_id t) (description t) (bounty t) (kind t) (poster t) (status t) (claimant t)
    (claim_deadline t) (failed_attempts t) (t_created_at t) n (close_reason t) (escrow_id t)
    (capabilities t) (settled_at t).
Definition set_close (t : Task) (r : CloseReason) : Task :=
  mkTask (t_id t) (description t) (bounty t) (kind t) (poster t) Closed (claimant t)
    (claim_deadline t) (failed_attempts t) (t_created_at t) (min_reputation t) (Some r) (escrow_id t)
    (capabilities t) (settled_at t).
Definition set_escrow (t : Task) (e : Uuid) : Task :=
  mkTask (t_id t) (description t) (bounty t) (kind t) (poster t) (status t) (claimant t)
    (claim_deadline t) (failed_attempts t) (t_created_at t) (min_reputation t) (close_reason t)
    (Some e) (capabilities t) (settled_at t).
Definition set_caps (t : Task) (c : gset string) : Task :=
  mkTask (t_id t) (description t) (bounty t) (kind t) (poster t) (status t) (claimant t)
    (claim_deadline t) (failed_attempts t) (t_created_at t) (min_reputation t) (close_reason t)
    (escrow_id t) c (settled_at t).
Definition set_settled (t : Task) (d : option DateTime) : Task :=
  mkTask (t_id t) (description t) (bounty t) (kind t) (poster t) (status t) (claimant t)
    (claim_deadline t) (failed_attempts t) (t_created_at t) (min_reputation t) (close_reason t)
    (escrow_id t) (capabilities t) d.

Definition put_task (tb : TaskBoard) (id : Uuid) (t : Task) : TaskBoard :=
  with_tasks tb (<[id := t]> (tb_tasks tb)).

(** ** Totals *)

(** Neither paid nor closed. *)
Definition unsettled (t : Task) : bool :=
  match status t with Paid | Closed => false | _ => true end.

(** [TaskBoard::allocated_bounty], [consensus_exposure] *)
Definition allocated_bounty (tb : TaskBoard) : outcome BoardError N :=
  expect (checked_sum (bounty <$> base.filter
    (fun t => unsettled t = true /\ escrow_id t = None) (btree_values (tb_tasks tb)))).
Definition is_consensus (t : Task) : bool := match kind t with Consensus _ => true | _ => false end.
Definition consensus_exposure (tb : TaskBoard) : N :=
  foldl (saturating_add U64_MAX) 0 (bounty <$> base.filter
    (fun t => is_consensus t = true /\ unsettled t = true) (btree_values (tb_tasks tb))).

(** ** Creation *)
Definition new_task (id : Uuid) (now : DateTime) (who : PublicKey) (desc : string) (amount : N)
    (k : TaskKind) : Task :=
  mkTask id desc amount k who Open None None 0 now 0 None None ∅ None.

(** [TaskBoard::create_task], [create_consensus_task], [create_disputable_task] *)
Definition create_task (tb : TaskBoard) (id : Uuid) (now : DateTime) (who : PublicKey)
    (desc : string) (amount : N) (expected : Hash) : TaskBoard * Task :=
  let t := new_task id now who desc amount (HashMatch expected) in (put_task tb id t, t).
Definition create_consensus_task (tb : TaskBoard) (id : Uuid) (now : DateTime) (who : PublicKey)
    (desc : string) (amount num : N) (join_by : DateTime) (window : Z) : TaskBoard * Task :=
  let t := new_task id now who desc amount (Consensus (mkConsensus num join_by window None ∅)) in
  (put_task tb id t, t).
Definition create_disputable_task (tb : TaskBoard) (id : Uuid) (now : DateTime) (who : PublicKey)
    (desc : string) (amount : N) (window : Z) : TaskBoard * Task :=
  let t := new_task id now who desc amount
             (Disputable (mkDisputable None window None None [] None None)) in
  (put_task tb id t, t).

(** [TaskBoard::set_min_reputation], [set_capabilities] *)
Definition set_min_reputation (tb : TaskBoard) (id : Uuid) (n : N) : outcome BoardError TaskBoard :=
  t ← ok_or (tb_tasks tb !! id) NotFound; Ok (put_task tb id (set_min_rep t n)).
Definition set_capabilities (tb : TaskBoard) (id : Uuid) (c : gset string)
    : outcome BoardError TaskBoard :=
  t ← ok_or (tb_tasks tb !! id) NotFound; Ok (put_task tb id (set_caps t c)).

(** [TaskBoard::cancel_task] *)
Definition is_terminal_for_cancel (s : TaskStatus) : bool :=
  match s with Verified | Submitted | PayoutFailed | Paid | Closed => true | _ => false end.
Definition cancel_task (tb : TaskBoard) (id : Uuid) : outcome BoardError TaskBoard :=
  t ← ok_or (tb_tasks tb !! id) NotFound;
  _ ← guard_ok (negb (is_terminal_for_cancel (status t))) AlreadyTerminal;
  _ ← guard_ok (negb (bool_decide (status t = Disputed))) CannotCancelWhileDisputed;
  Ok (put_task tb id (set_close t CancelledByOperator)).

(** ** Escrow *)
Definition put_deposit (tb : TaskBoard) (d : PendingDeposit) : TaskBoard :=
  with_deposits tb (<[pd_id d := d]> (tb_deposits tb)).

(** [TaskBoard::reserve_escrow]; [derive] is [EscrowSecret::derive] followed by
    [public_key]. *)
Definition reserve_escrow (derive : Uuid -> PublicKey) (tb : TaskBoard) (id : Uuid) (now : DateTime)
    (who : PublicKey) (amount : N) (for_ : EscrowPurpose) (expires : DateTime)
    : TaskBoard * PendingDeposit :=
  let d := mkDeposit id who (derive id) None amount for_ Reserved now expires in
  (put_deposit tb d, d).

(** The checks every confirmation makes on the deposit, after its purpose. *)
Definition check_deposit (d : PendingDeposit) (observed_amount : N) (now : DateTime)
    : outcome BoardError unit :=
  _ ← guard_ok (bool_decide (pd_status d = Reserved)) EscrowNotReserved;
  _ ← guard_ok (negb (Z.ltb (expires_at d) now)) EscrowExpired;
  guard_ok (negb (observed_amount <? required_amount d))
    (EscrowUnderfunded (required_amount d) observed_amount).

(** The optional settings [confirm_escrow] applies to the task it created. *)
Definition apply_settings (tb : TaskBoard) (id : Uuid) (min_rep : N) (caps : gset string)
    : outcome BoardError TaskBoard :=
  tb ← (if 0 <? min_rep
        then match set_min_reputation tb id min_rep with Ok tb' => Ok tb' | _ => Panic end
        else Ok tb);
  if decide (caps = ∅) then Ok tb
  else match set_capabilities tb id caps with Ok tb' => Ok tb' | _ => Panic end.

(** [TaskBoard::confirm_escrow]; [created] is the clock the new task reads. *)
Definition confirm_escrow (tb : TaskBoard) (id : Uuid) (task_id : Uuid) (observed_amount : N)
    (now created : DateTime) : outcome BoardError (TaskBoard * Task) :=
  deposit ← ok_or (tb_deposits tb !! id) EscrowNotFound;
  _ ← guard_ok (match purpose deposit with
                | DisputeBond _ _ | FundExchangeAccount => false
                | _ => true
                end) WrongEscrowPurpose;
  _ ← check_deposit deposit observed_amount now;
  let who := depositor deposit in
  let tb1 := with_deposits tb (<[id := set_deposit_status Consumed deposit]> (tb_deposits tb)) in
  tb2 ← (match purpose deposit with
         | FundHashMatchTask i =>
             let '(tb2, t) := create_task tb1 task_id created who (ti_description i) (ti_bounty i)
                                (ti_expected_output_hash i) in
             apply_settings tb2 task_id (ti_min_reputation i) (ti_capabilities i)
         | FundConsensusTask i =>
             let join_by := (now + minutes (ci_join_window_minutes i))%Z in
             let '(tb2, t) := create_consensus_task tb1 task_id created who (ci_description i)
                                (ci_bounty i) (ci_num_assignees i) join_by
                                (ci_submission_window_minutes i) in
             apply_settings tb2 task_id (ci_min_reputation i) (ci_capabilities i)
         | FundDisputableTask i =>
             let '(tb2, t) := create_disputable_task tb1 task_id created who (di_description i)
                                (di_bounty i) (di_dispute_window_minutes i) in
             apply_settings tb2 task_id (di_min_reputation i) (di_capabilities i)
         | DisputeBond _ _ | FundExchangeAccount => Panic
         end);
  t ← expect (tb_tasks tb2 !! task_id);
  let t' := set_escrow t id in
  Ok (put_task tb2 task_id t', t').

(** [TaskBoard::confirm_dispute_bond] *)
Definition with_dispute (d : DisputableFields) (x : Dispute) : DisputableFields :=
  mkDisputable (df_answer d) (dispute_window_minutes d) (dispute_deadline d) (Some x) (answers d)
    (pick_deadline d) (picked d).
Definition confirm_dispute_bond (tb : TaskBoard) (eid : Uuid) (observed_amount : N) (now : DateTime)
    : outcome BoardError (TaskBoard * Task) :=
  deposit ← ok_or (tb_deposits tb !! eid) EscrowNotFound;
  '(task_id, reason) ← (match purpose deposit with
                        | DisputeBond tid r => Ok (tid, r)
                        | _ => Err WrongEscrowPurpose
                        end);
  _ ← check_deposit deposit observed_amount now;
  let challenger := depositor deposit in
  t ← ok_or (tb_tasks tb !! task_id) NotFound;
  d ← (match kind t with Disputable d => Ok d | _ => Err WrongTaskKind end);
  _ ← guard_ok (bool_decide (status t = AwaitingDispute)) DisputeWindowClosed;
  deadline ← expect (dispute_deadline d);
  _ ← guard_ok (negb (Z.ltb deadline now)) DisputeWindowClosed;
  _ ← guard_ok (match dispute d with None => true | Some _ => false end) AlreadyDisputed;
  _ ← guard_ok (negb (bool_decide (claimant t = Some challenger))) AssigneeCannotDisputeOwnSubmission;
  let x := mkDispute challenger reason eid (required_amount deposit) now None in
  let t' := set_status (set_kind t (Disputable (with_dispute d x))) Disputed in
  let tb1 := put_task tb task_id t' in
  Ok (with_deposits tb1 (<[eid := set_deposit_status Consumed deposit]> (tb_deposits tb1)), t').

(** [TaskBoard::overdue_reserved_escrows], [escrow_for_task],
    [closed_tasks_with_unrefunded_escrow], [mark_escrow_refunded] *)
Definition overdue_reserved_escrows (tb : TaskBoard) (now : DateTime) : list PendingDeposit :=
  base.filter (fun d => pd_status d = Reserved /\ Z.ltb (expires_at d) now = true)
    (btree_values (tb_deposits tb)).
Definition escrow_for_task (tb : TaskBoard) (task_id : Uuid) : option PendingDeposit :=
  t ← tb_tasks tb !! task_id; e ← escrow_id t; tb_deposits tb !! e.
Definition closed_tasks_with_unrefunded_escrow (tb : TaskBoard) : list Uuid :=
  t_id <$> base.filter (fun t => status t = Closed /\
      pd_status <$> escrow_for_task tb (t_id t) = Some Consumed) (btree_values (tb_tasks tb)).
Definition mark_escrow_refunded (tb : TaskBoard) (id : Uuid) : outcome BoardError TaskBoard :=
  d ← ok_or (tb_deposits tb !! id) EscrowNotFound;
  Ok (with_deposits tb (<[id := set_deposit_status Refunded d]> (tb_deposits tb))).

(** ** Reputation *)
Definition reputation (tb : TaskBoard) (pk : PublicKey) : Reputation :=
  default Reputation_default (tb_reputation tb !! pk).
Definition put_reputation (tb : TaskBoard) (pk : PublicKey) (r : Reputation) : TaskBoard :=
  with_reputation tb (<[pk := r]> (tb_reputation tb)).

(** [self.reputation.entry(pk).or_default().failed += 1] *)
Definition add_failure (tb : TaskBoard) (pk : PublicKey) : outcome BoardError TaskBoard :=
  let r := reputation tb pk in
  n ← add64 (failed r) 1;
  Ok (put_reputation tb pk (mkReputation (completed r) n (total_earned r))).

(** The credit at the end of [mark_recipient_paid]. *)
Definition add_earning (tb : TaskBoard) (pk : PublicKey) (amount : N) (credited : bool)
    : outcome BoardError TaskBoard :=
  let r := reputation tb pk in
  c ← (if credited then add64 (completed r) 1 else Ok (completed r));
  e ← add64 (total_earned r) amount;
  Ok (put_reputation tb pk (mkReputation c (failed r) e)).

(** [TaskBoard::credit_forfeited_bond] *)
Definition credit_forfeited_bond (tb : TaskBoard) (pk : PublicKey) (amount : N)
    : outcome BoardError TaskBoard := add_earning tb pk amount false.

(** [TaskBoard::check_min_reputation] *)
Definition check_min_reputation (tb : TaskBoard) (t : Task) (agent : PublicKey)
    : outcome BoardError unit :=
  let have := completed (reputation tb agent) in
  guard_ok (negb (have <? min_reputation t)) (InsufficientReputation (min_reputation t) have).

(** [TaskBoard::leaderboard] *)
Definition leaderboard (tb : TaskBoard) (top_n : nat) : list (PublicKey * Reputation) :=
  take top_n (sort_by (fun a b => total_earned b.2 <=? total_earned a.2)
                (btree_iter (tb_reputation tb))).

(** ** Claiming and answering *)

(** [TaskBoard::claim_task] *)
Definition claim_task (tb : TaskBoard) (id : Uuid) (who : PublicKey) (deadline : DateTime)
    : outcome BoardError TaskBoard :=
  t ← ok_or (tb_tasks tb !! id) NotFound;
  _ ← (match kind t with
       | HashMatch _ => Ok tt
       | Disputable _ => Err ContestTakesNoClaim
       | Consensus _ => Err WrongTaskKind
       end);
  _ ← guard_ok (bool_decide (status t = Open)) NotOpen;
  _ ← guard_ok (negb (bool_decide (poster t = who))) PosterCannotClaimOwnTask;
  _ ← check_min_reputation tb t who;
  Ok (put_task tb id (set_claim (set_status t Claimed) (Some who) (Some deadline))).

(** [TaskBoard::join_consensus_task] *)
Definition with_assignees (c : ConsensusFields) (deadline : option DateTime)
    (m : gmap PublicKey ConsensusAssignment) : ConsensusFields :=
  mkConsensus (num_assignees c) (join_deadline c) (submission_window_minutes c) deadline m.
Definition join_consensus_task (tb : TaskBoard) (id : Uuid) (agent : PublicKey) (now : DateTime)
    : outcome BoardError TaskBoard :=
  t ← ok_or (tb_tasks tb !! id) NotFound;
  c ← (match kind t with Consensus c => Ok c | _ => Err WrongTaskKind end);
  _ ← guard_ok (bool_decide (status t = Open)) NotOpen;
  _ ← guard_ok (negb (Z.ltb (join_deadline c) now)) JoinWindowExpired;
  _ ← guard_ok (negb (bool_decide (poster t = agent))) PosterCannotClaimOwnTask;
  _ ← check_min_reputation tb t agent;
  _ ← guard_ok (match assignees c !! agent with None => true | Some _ => false end) AlreadyJoined;
  let m := <[agent := mkAssignment None false None]> (assignees c) in
  let just_filled := num_assignees c <=? (N.of_nat (size m) mod 2 ^ 32) in
  let deadline := if just_filled then Some (now + minutes (submission_window_minutes c))%Z
                  else c_submission_deadline c in
  let t1 := set_kind t (Consensus (with_assignees c deadline m)) in
  Ok (put_task tb id (if just_filled then set_status t1 Claimed else t1)).

(** [TaskBoard::submit] *)
Definition submit (tb : TaskBoard) (id : Uuid) (submitter : PublicKey) (out_hash : Hash)
    : outcome BoardError (TaskBoard * bool) :=
  t ← ok_or (tb_tasks tb !! id) NotFound;
  expected ← (match kind t with HashMatch h => Ok h | _ => Err WrongTaskKind end);
  _ ← guard_ok (bool_decide (status t = Claimed)) NotClaimed;
  _ ← guard_ok (bool_decide (claimant t = Some submitter)) NotClaimant;
  if out_hash =? expected then Ok (put_task tb id (set_status t Verified), true)
  else
    n ← (if failed_attempts t <? 2 ^ 32 - 1 then Ok (failed_attempts t + 1) else Panic);
    tb1 ← add_failure (put_task tb id
            (set_failed_attempts (set_claim (set_status t Open) None None) n)) submitter;
    Ok (tb1, false).

(** [TaskBoard::submit_contest_answer] *)
Definition past (deadline : option DateTime) (now : DateTime) : bool :=
  match deadline with Some d => Z.ltb d now | None => false end.
Definition with_answers (d : DisputableFields) (l : list ContestAnswer) : DisputableFields :=
  mkDisputable (df_answer d) (dispute_window_minutes d) (dispute_deadline d) (dispute d) l
    (pick_deadline d) (picked d).
Definition submit_contest_answer (tb : TaskBoard) (id : Uuid) (submitter : PublicKey)
    (answer : string) (now : DateTime) : outcome BoardError TaskBoard :=
  t ← ok_or (tb_tasks tb !! id) NotFound;
  d ← (match kind t with Disputable d => Ok d | _ => Err WrongTaskKind end);
  _ ← guard_ok (bool_decide (status t = Open)) SubmissionsClosed;
  _ ← guard_ok (negb (past (submission_deadline t) now)) SubmissionWindowExpired;
  _ ← guard_ok (negb (bool_decide (poster t = submitter))) PosterCannotAnswerOwnTask;
  _ ← check_min_reputation tb t submitter;
  _ ← guard_ok (negb (existsb (fun a => bool_decide (ca_pubkey a = submitter)) (answers d)))
        AlreadySubmitted;
  _ ← guard_ok (negb (MAX_CONTEST_ANSWERS <=? length (answers d))%nat) ContestFull;
  let a := mkContestAnswer submitter answer now None false in
  Ok (put_task tb id (set_kind t (Disputable (with_answers d (answers d ++ [a]))))).

(** [TaskBoard::close_contest] *)
Definition with_pick_deadline (d : DisputableFields) (x : option DateTime) : DisputableFields :=
  mkDisputable (df_answer d) (dispute_window_minutes d) (dispute_deadline d) (dispute d) (answers d)
    x (picked d).
Definition close_contest (tb : TaskBoard) (id : Uuid) (caller : PublicKey) (now : DateTime)
    : outcome BoardError TaskBoard :=
  t ← ok_or (tb_tasks tb !! id) NotFound;
  d ← (match kind t with Disputable d => Ok d | _ => Err WrongTaskKind end);
  _ ← guard_ok (bool_decide (poster t = caller)) NotPoster;
  _ ← guard_ok (bool_decide (status t = Open)) NotOpen;
  _ ← guard_ok (negb (past (submission_deadline t) now)) SubmissionWindowExpired;
  match answers d with
  | [] => Ok (put_task tb id (set_close t NoAnswers))
  | _ :: _ =>
      let deadline := (now + minutes (dispute_window_minutes d))%Z in
      Ok (put_task tb id (set_status
            (set_kind t (Disputable (with_pick_deadline d (Some deadline)))) AwaitingPick))
  end.

(** [TaskBoard::pick_answer]: [find] is the first answer of that key. *)
Definition set_answer_share (a : ContestAnswer) (s : option N) : ContestAnswer :=
  mkContestAnswer (ca_pubkey a) (ca_answer a) (ca_submitted_at a) s (ca_paid a).
Definition find_answer (l : list ContestAnswer) (pk : PublicKey) : option (nat * ContestAnswer) :=
  list_find (fun a => ca_pubkey a = pk) l.
Definition with_picked (d : DisputableFields) (x : option PublicKey) : DisputableFields :=
  mkDisputable (df_answer d) (dispute_window_minutes d) (dispute_deadline d) (dispute d) (answers d)
    (pick_deadline d) x.
Definition pick_answer (tb : TaskBoard) (id : Uuid) (caller answerer : PublicKey) (now : DateTime)
    : outcome BoardError TaskBoard :=
  t ← ok_or (tb_tasks tb !! id) NotFound;
  d ← (match kind t with Disputable d => Ok d | _ => Err WrongTaskKind end);
  _ ← guard_ok (bool_decide (poster t = caller)) NotPoster;
  _ ← guard_ok (bool_decide (status t = AwaitingPick)) NotAwaitingPick;
  _ ← guard_ok (negb (past (pick_deadline d) now)) PickWindowClosed;
  '(i, a) ← ok_or (find_answer (answers d) answerer) NotAnAnswer;
  let l := <[i := set_answer_share a (Some (bounty t))]> (answers d) in
  Ok (put_task tb id (set_status
        (set_kind t (Disputable (with_picked (with_answers d l) (Some answerer)))) Verified)).

(** ** Consensus resolution *)

(** The winners' shares. *)
Definition share_winners (winning : string) (share : N) (m : gmap PublicKey ConsensusAssignment)
    : gmap PublicKey ConsensusAssignment :=
  (fun a => if decide (a_answer a = Some winning)
            then mkAssignment (a_answer a) (a_paid a) (Some share) else a) <$> m.
Definition losers_of (winning : string) (m : gmap PublicKey ConsensusAssignment) : list PublicKey :=
  (base.filter (fun e => a_answer e.2 <> Some winning) (btree_iter m)).*1.

(** [TaskBoard::resolve_consensus] *)
Definition resolve_consensus (tb : TaskBoard) (id : Uuid) : outcome BoardError TaskBoard :=
  match tb_tasks tb !! id with
  | None => Ok tb
  | Some t =>
      match kind t with
      | Consensus c =>
          match majority_answer (assignees c) with
          | Some winning =>
              let winner_count := N.of_nat (votes_for winning (assignees c)) in
              let share := bounty t / N.max winner_count 1 in
              tb1 ← ofold add_failure tb (losers_of winning (assignees c));
              let m := share_winners winning share (assignees c) in
              Ok (put_task tb1 id (set_status
                    (set_kind t (Consensus (with_assignees c (c_submission_deadline c) m))) Verified))
          | None => Ok (put_task tb id (set_close t NoMajority))
          end
      | _ => Ok tb
      end
  end.

(** [TaskBoard::submit_consensus_answer] *)
Definition submit_consensus_answer (tb : TaskBoard) (id : Uuid) (agent : PublicKey) (answer : string)
    (now : DateTime) : outcome BoardError (TaskBoard * bool) :=
  t ← ok_or (tb_tasks tb !! id) NotFound;
  c ← (match kind t with Consensus c => Ok c | _ => Err WrongTaskKind end);
  _ ← guard_ok (bool_decide (status t = Claimed)) NotClaimed;
  deadline ← expect (c_submission_deadline c);
  _ ← guard_ok (negb (Z.ltb deadline now)) SubmissionWindowExpired;
  a ← ok_or (assignees c !! agent) NotClaimant;
  _ ← guard_ok (match a_answer a with None => true | Some _ => false end) AlreadySubmitted;
  let m := <[agent := mkAssignment (Some answer) (a_paid a) (a_share a)]> (assignees c) in
  let tb1 := put_task tb id (set_kind t (Consensus (with_assignees c (c_submission_deadline c) m))) in
  if forallb (fun a => bool_decide (is_Some (a_answer a))) (btree_values m)
  then tb2 ← resolve_consensus tb1 id; Ok (tb2, true)
  else Ok (tb1, false).

(** ** Disputes *)

(** [TaskBoard::resolve_dispute] *)
Definition resolve_dispute (tb : TaskBoard) (task_id : Uuid) (result : DisputeResolution)
    : outcome BoardError (TaskBoard * (PublicKey * PublicKey)) :=
  t ← ok_or (tb_tasks tb !! task_id) NotFound;
  _ ← guard_ok (bool_decide (status t = Disputed)) NotDisputed;
  who ← expect (claimant t);
  d ← (match kind t with Disputable d => Ok d | _ => Err WrongTaskKind end);
  x ← expect (dispute d);
  let x' := mkDispute (d_challenger x) (d_reason x) (d_bond_escrow_id x) (d_bond_amount x)
              (d_filed_at x) (Some result) in
  let '(winner, loser) := match result with
                          | ChallengerWins => (d_challenger x, who)
                          | AssigneeWins => (who, d_challenger x)
                          end in
  tb1 ← add_failure tb loser;
  Ok (put_task tb1 task_id (set_status (set_kind t (Disputable (with_dispute d x'))) Verified),
      (winner, loser)).

(** [TaskBoard::tasks_with_unsettled_dispute_bonds] *)
Definition has_unsettled_bond (tb : TaskBoard) (t : Task) : bool :=
  match kind t with
  | Disputable d =>
      match dispute d with
      | Some x =>
          bool_decide (is_Some (d_resolution x)) &&
          bool_decide (pd_status <$> tb_deposits tb !! d_bond_escrow_id x = Some Consumed)
      | None => false
      end
  | _ => false
  end.
Definition tasks_with_unsettled_dispute_bonds (tb : TaskBoard) : list Uuid :=
  t_id <$> base.filter (fun t => has_unsettled_bond tb t = true) (btree_values (tb_tasks tb)).

(** ** Sweeps *)

(** [for task in self.tasks.values_mut()]: a task is changed or skipped, and
    the ids of the changed ones are returned. *)
Definition sweep (f : Task -> option Task) (tb : TaskBoard) : TaskBoard * list Uuid :=
  (with_tasks tb ((fun t => default t (f t)) <$> tb_tasks tb),
   t_id <$> base.filter (fun t => is_Some (f t)) (btree_values (tb_tasks tb))).

(** [TaskBoard::close_unclosed_contests] *)
Definition close_unclosed (now : DateTime) (t : Task) : option Task :=
  if bool_decide (status t = Open) && past (submission_deadline t) now
  then Some (set_close t NeverClosed) else None.
Definition close_unclosed_contests (tb : TaskBoard) (now : DateTime) : TaskBoard * list Uuid :=
  sweep (close_unclosed now) tb.

(** [TaskBoard::split_unpicked_contests] *)
Definition split_unpicked (now : DateTime) (t : Task) : option Task :=
  if negb (bool_decide (status t = AwaitingPick)) then None
  else match kind t with
  | Disputable d =>
      if negb (past (pick_deadline d) now) then None
      else
        let share := bounty t / N.max (N.of_nat (length (answers d))) 1 in
        let l := (fun a => set_answer_share a (Some share)) <$> answers d in
        Some (set_status (set_kind t (Disputable (with_answers d l))) Verified)
  | _ => None
  end.
Definition split_unpicked_contests (tb : TaskBoard) (now : DateTime) : TaskBoard * list Uuid :=
  sweep (split_unpicked now) tb.

(** [TaskBoard::finalize_unchallenged_disputable_tasks] *)
Definition finalize_unchallenged (now : DateTime) (t : Task) : option Task :=
  if negb (bool_decide (status t = AwaitingDispute)) then None
  else match kind t with
  | Disputable d =>
      match dispute d with
      | Some _ => None
      | None => if past (dispute_deadline d) now then Some (set_status t Verified) else None
      end
  | _ => None
  end.
Definition finalize_unchallenged_disputable_tasks (tb : TaskBoard) (now : DateTime)
    : TaskBoard * list Uuid := sweep (finalize_unchallenged now) tb.

(** [TaskBoard::cancel_understaffed_consensus_tasks] *)
Definition cancel_understaffed (now : DateTime) (t : Task) : option Task :=
  match kind t with
  | Consensus c =>
      if bool_decide (status t = Open) && Z.ltb (join_deadline c) now
      then Some (set_close t Understaffed) else None
  | _ => None
  end.
Definition cancel_understaffed_consensus_tasks (tb : TaskBoard) (now : DateTime)
    : TaskBoard * list Uuid := sweep (cancel_understaffed now) tb.

(** [TaskBoard::expire_claims] *)
Definition expire_claim (now : DateTime) (t : Task) : option Task :=
  if bool_decide (status t = Claimed) && past (claim_deadline t) now
  then Some (set_claim (set_status t Open) None None) else None.
Definition expire_claims (tb : TaskBoard) (now : DateTime) : TaskBoard * list Uuid :=
  sweep (expire_claim now) tb.

(** [TaskBoard::resolve_expired_consensus_tasks] *)
Definition consensus_due (now : DateTime) (t : Task) : bool :=
  bool_decide (status t = Claimed) &&
  match kind t with Consensus c => past (c_submission_deadline c) now | _ => false end.
Definition resolve_expired_consensus_tasks (tb : TaskBoard) (now : DateTime)
    : outcome BoardError (TaskBoard * list Uuid) :=
  let due := t_id <$> base.filter (fun t => consensus_due now t = true) (btree_values (tb_tasks tb)) in
  tb' ← ofold resolve_consensus tb due; Ok (tb', due).
