(* ===== verification/Payouts.v ===== *)
(** * Payouts: paying a task and granting from the faucet

    The rest of [impl TaskBoard] in [hub/src/board.rs]: recording that a
    recipient was paid, the payout attempts in flight, giving up on a payout,
    and the faucet's grants. Definitions only. *)

From S2P Require Import Prelude Types BoardTypes Exchange Tasks Board.

(** ** Listings: [TaskBoard::list_open_tasks], [verified_unpaid_tasks] *)
Definition list_open_tasks (tb : TaskBoard) : list Task :=
  base.filter (fun t => status t = Open) (btree_values (tb_tasks tb)).
Definition verified_unpaid_tasks (tb : TaskBoard) : list Task :=
  base.filter (fun t => status t = Verified) (btree_values (tb_tasks tb)).

(** [TaskBoard::restore_task] *)
Definition restore_task (tb : TaskBoard) (t : Task) : TaskBoard :=
  with_tasks tb (<[t_id t := t]> (tb_tasks tb)).

(** ** Recording a payment: [TaskBoard::mark_recipient_paid] *)
Definition set_paid (a : ConsensusAssignment) : ConsensusAssignment :=
  mkAssignment (a_answer a) true (a_share a).
Definition set_answer_paid (a : ContestAnswer) : ContestAnswer :=
  mkContestAnswer (ca_pubkey a) (ca_answer a) (ca_submitted_at a) (ca_share a) true.

(** Every share of a kind is paid. *)
Definition shares_paid (l : list (option N * bool)) : bool :=
  forallb (fun e => bool_decide (e.1 = None) || e.2) l.

(** The outcome of the [match &mut task.kind]: an early return of [Ok(false)],
    or the new kind, whether the task is now fully paid and whether the payment
    counts as a completed task. *)
Inductive paid_leg : Type :=
| LegAlreadyPaid
| LegPaid (k : TaskKind) (now_fully_paid credited : bool).

Definition pay_leg (t : Task) (recipient : PublicKey) : outcome BoardError paid_leg :=
  match kind t with
  | HashMatch h =>
      _ ← guard_ok (bool_decide (claimant t = Some recipient)) NotClaimant;
      Ok (LegPaid (HashMatch h) true true)
  | Consensus c =>
      a ← ok_or (assignees c !! recipient) NotClaimant;
      _ ← guard_ok (bool_decide (is_Some (a_share a))) NotClaimant;
      if a_paid a then Ok LegAlreadyPaid
      else
        let m := <[recipient := set_paid a]> (assignees c) in
        Ok (LegPaid (Consensus (with_assignees c (c_submission_deadline c) m))
              (shares_paid ((fun a => (a_share a, a_paid a)) <$> btree_values m)) true)
  | Disputable d =>
      match answers d with
      | _ :: _ =>
          '(i, a) ← ok_or (find_answer (answers d) recipient) NotClaimant;
          _ ← guard_ok (bool_decide (is_Some (ca_share a))) NotClaimant;
          if ca_paid a then Ok LegAlreadyPaid
          else
            let l := <[i := set_answer_paid a]> (answers d) in
            Ok (LegPaid (Disputable (with_answers d l))
                  (shares_paid ((fun a => (ca_share a, ca_paid a)) <$> l))
                  (bool_decide (is_Some (picked d))))
      | [] =>
          let expected := match dispute d with
                          | None => claimant t
                          | Some x =>
                              match d_resolution x with
                              | Some ChallengerWins => Some (d_challenger x)
                              | Some AssigneeWins | None => claimant t
                              end
                          end in
          _ ← guard_ok (bool_decide (expected = Some recipient)) NotClaimant;
          Ok (LegPaid (Disputable d) true true)
      end
  end.

Definition mark_recipient_paid (tb : TaskBoard) (id : Uuid) (recipient : PublicKey) (amount : N)
    (now : DateTime) : outcome BoardError (TaskBoard * bool) :=
  t ← ok_or (tb_tasks tb !! id) NotFound;
  _ ← guard_ok (is_settling (status t)) NotVerified;
  leg ← pay_leg t recipient;
  match leg with
  | LegAlreadyPaid => Ok (tb, false)
  | LegPaid k now_fully_paid credited =>
      let t1 := set_kind t k in
      let t2 := if now_fully_paid
                then set_settled (set_status t1 Paid) (Some (default now (settled_at t)))
                else t1 in
      tb' ← add_earning (put_task tb id t2) recipient amount credited;
      Ok (tb', now_fully_paid)
  end.

(** ** Payout attempts *)

(** [TaskBoard::restore_payout_attempt], [payout_attempt], [clear_payout_attempt] *)
Definition restore_payout_attempt (tb : TaskBoard) (a : PayoutAttempt) : TaskBoard :=
  with_attempts tb (<[(pa_task_id a, pa_recipient a) := a]> (tb_attempts tb)).
Definition payout_attempt (tb : TaskBoard) (task_id : Uuid) (recipient : PublicKey)
    : option PayoutAttempt := tb_attempts tb !! (task_id, recipient).
Definition clear_payout_attempt (tb : TaskBoard) (task_id : Uuid) (recipient : PublicKey)
    : TaskBoard * option PayoutAttempt :=
  (with_attempts tb (delete (task_id, recipient) (tb_attempts tb)),
   payout_attempt tb task_id recipient).

(** [TaskBoard::outstanding_payout_attempts], [payout_attempts_for_task] *)
Definition outstanding_payout_attempts (tb : TaskBoard) : list PayoutAttempt :=
  sort_by (fun a b => Z.leb (pa_submitted_at a) (pa_submitted_at b)) (btree_values (tb_attempts tb)).
Definition payout_attempts_for_task (tb : TaskBoard) (task_id : Uuid) : list PayoutAttempt :=
  (base.filter (fun e : (Uuid * PublicKey) * PayoutAttempt => e.1.1 = task_id)
     (btree_iter (tb_attempts tb))).*2.

(** [TaskBoard::unsubmitted_payouts] *)
Definition unsubmitted_payouts (tb : TaskBoard) (task_id : Uuid) : list (PublicKey * N) :=
  match tb_tasks tb !! task_id with
  | None => []
  | Some t => base.filter (fun p : PublicKey * N => tb_attempts tb !! (task_id, p.1) = None)
                (pending_payouts t)
  end.

(** [TaskBoard::record_payout_attempt] *)
Definition record_payout_attempt (tb : TaskBoard) (a : PayoutAttempt) : TaskBoard :=
  let task_id := pa_task_id a in
  let tb1 := restore_payout_attempt tb a in
  match unsubmitted_payouts tb1 task_id with
  | _ :: _ => tb1
  | [] =>
      match tb_tasks tb1 !! task_id with
      | Some t => if decide (status t = Verified)
                  then put_task tb1 task_id (set_status t Submitted) else tb1
      | None => tb1
      end
  end.

(** The [filter_map] of [mark_payout_failed]: remove a key and keep what it held. *)
Definition drop_attempt (acc : TaskBoard * list PayoutAttempt) (k : Uuid * PublicKey)
    : TaskBoard * list PayoutAttempt :=
  let '(tb, dropped) := acc in
  let '(tb', a) := clear_payout_attempt tb k.1 k.2 in (tb', dropped ++ option_list a).

(** [TaskBoard::mark_payout_failed] *)
Definition mark_payout_failed (tb : TaskBoard) (task_id : Uuid)
    : outcome BoardError (TaskBoard * list PayoutAttempt) :=
  t ← ok_or (tb_tasks tb !! task_id) NotFound;
  _ ← guard_ok (is_settling (status t)) NotVerified;
  let tb1 := put_task tb task_id (set_status t PayoutFailed) in
  let keys := base.filter (fun k : Uuid * PublicKey => k.1 = task_id) (btree_iter (tb_attempts tb1)).*1 in
  Ok (foldl drop_attempt (tb1, []) keys).

(** ** The faucet's grants *)

(** [TaskBoard::can_claim_faucet], [record_faucet_grant], [restore_faucet_grant],
    [revoke_faucet_grant]. [insert] stores the new time before its previous
    value is looked at. *)
Definition can_claim_faucet (tb : TaskBoard) (pk : PublicKey) : bool :=
  match tb_faucet_grants tb !! pk with None => true | Some _ => false end.
Definition restore_faucet_grant (tb : TaskBoard) (pk : PublicKey) (granted_at : Z) : TaskBoard :=
  with_faucet_grants tb (<[pk := granted_at]> (tb_faucet_grants tb)).
Definition record_faucet_grant (tb : TaskBoard) (pk : PublicKey) (granted_at : Z)
    : TaskBoard * outcome BoardError unit :=
  (restore_faucet_grant tb pk granted_at, guard_ok (can_claim_faucet tb pk) AlreadyClaimed).
Definition revoke_faucet_grant (tb : TaskBoard) (pk : PublicKey) : TaskBoard :=
  with_faucet_grants tb (delete pk (tb_faucet_grants tb)).

(** [TaskBoard::record_faucet_grant_prefix], [restore_faucet_grant_prefix] *)
Definition record_faucet_grant_prefix (tb : TaskBoard) (pk : PublicKey) (prefix : string)
    : TaskBoard := with_faucet_prefixes tb (<[pk := prefix]> (tb_faucet_prefixes tb)).
Definition restore_faucet_grant_prefix (tb : TaskBoard) (pk : PublicKey) (prefix : string)
    : TaskBoard := with_faucet_prefixes tb (<[pk := prefix]> (tb_faucet_prefixes tb)).

(** Granted at or after the cutoff. *)
Definition granted_since (tb : TaskBoard) (cutoff : Z) (pk : PublicKey) : bool :=
  match tb_faucet_grants tb !! pk with Some at_ => Z.leb cutoff at_ | None => false end.

(** [TaskBoard::faucet_granted_since], [faucet_granted_from_prefix_since],
    [faucet_granted_from_wide_prefix_since]; [widen] is
    [rate_limit::widen_prefix]. *)
Definition faucet_granted_since (tb : TaskBoard) (cutoff : Z) : N :=
  N.of_nat (length (base.filter (fun at_ => Z.leb cutoff at_ = true)
    (btree_values (tb_faucet_grants tb)))).
Definition faucet_granted_from_prefix_since (tb : TaskBoard) (prefix : string) (cutoff : Z) : N :=
  N.of_nat (length (base.filter (fun e : PublicKey * string =>
    e.2 = prefix /\ granted_since tb cutoff e.1 = true) (btree_iter (tb_faucet_prefixes tb)))).
Definition faucet_granted_from_wide_prefix_since (widen : string -> option string) (tb : TaskBoard)
    (wide : string) (cutoff : Z) : N :=
  N.of_nat (length (base.filter (fun e : PublicKey * string =>
    widen e.2 = Some wide /\ granted_since tb cutoff e.1 = true) (btree_iter (tb_faucet_prefixes tb)))).

(** [TaskBoard::faucet_grants_by_prefix]: the rows as a map. *)
Definition faucet_grants_by_prefix (tb : TaskBoard) (cutoff : Z) : gmap string (N * N) :=
  foldl (fun rows '(pk, prefix) =>
    let '(recent, total) := default (0, 0) (rows !! prefix) in
    <[prefix := ((if granted_since tb cutoff pk then recent + 1 else recent), total + 1)]> rows)
    ∅ (btree_iter (tb_faucet_prefixes tb)).
