(* ===== verification/BoardInv.v ===== *)
(** * BoardInv: well-formed tasks and how they may change

    A task that pays by shares (a consensus task, a contest) is seen as a list
    of [slot]s. [task_wf] is the well-formedness of one task, [evolves] what one
    operation may do to it. The lemmas of this file show both for each change an
    operation of the board makes to a task. *)

From S2P Require Import Prelude Types BoardTypes Exchange Tasks Board Payouts.

(** ** Slots: who may be paid, how much, and whether they were *)
Record slot := mkSlot { s_key : PublicKey; s_share : option N; s_paid : bool }.

Definition assignee_slot (e : PublicKey * ConsensusAssignment) : slot :=
  mkSlot e.1 (a_share e.2) (a_paid e.2).
Definition answer_slot (a : ContestAnswer) : slot :=
  mkSlot (ca_pubkey a) (ca_share a) (ca_paid a).

Definition kind_slots (k : TaskKind) : list slot :=
  match k with
  | HashMatch _ => []
  | Consensus c => assignee_slot <$> btree_iter (assignees c)
  | Disputable d => answer_slot <$> answers d
  end.
Abbreviation slots t := (kind_slots (kind t)).

(** Whether the kind pays by shares. *)
Definition by_shares (k : TaskKind) : bool :=
  match k with
  | HashMatch _ => false
  | Consensus _ => true
  | Disputable d => match answers d with [] => false | _ => true end
  end.

(** The one recipient of a task that does not. *)
Definition winner (t : Task) : option PublicKey :=
  match kind t with
  | HashMatch _ => claimant t
  | Consensus _ => None
  | Disputable d => dispute_winner t (dispute d)
  end.

Definition slot_payout (s : slot) : option (PublicKey * N) := (fun x => (s_key s, x)) <$> s_share s.
Definition slot_amount (s : slot) : N := default 0 (s_share s).
Definition pay_slot (s : slot) : slot := mkSlot (s_key s) (s_share s) true.
Definition slot_owed (s : slot) : Prop := is_Some (s_share s) /\ s_paid s = false.
#[global] Instance slot_owed_dec s : Decision (slot_owed s) := _.

(** ** Statuses *)

(** The payouts are fixed. *)
Definition settled (s : TaskStatus) : bool :=
  match s with Verified | Submitted | Paid | PayoutFailed => true | _ => false end.
Definition owes (s : TaskStatus) : bool :=
  match s with Verified | Submitted | PayoutFailed => true | _ => false end.

(** The edges of a task's life. *)
Inductive status_step : TaskStatus -> TaskStatus -> Prop :=
| step_claim : status_step Open Claimed
| step_reopen : status_step Claimed Open
| step_close_contest : status_step Open AwaitingPick
| step_verify : status_step Claimed Verified
| step_pick : status_step AwaitingPick Verified
| step_unchallenged : status_step AwaitingDispute Verified
| step_dispute : status_step AwaitingDispute Disputed
| step_resolve : status_step Disputed Verified
| step_close s : s ∈ [Open; Claimed; AwaitingPick; AwaitingDispute] -> status_step s Closed
| step_submit : status_step Verified Submitted
| step_paid s : s ∈ [Verified; Submitted] -> status_step s Paid
| step_failed s : s ∈ [Verified; Submitted] -> status_step s PayoutFailed.

Definition status_move (s s' : TaskStatus) : Prop := s = s' \/ status_step s s'.

(** ** Well-formed tasks *)
Definition kind_shape (t : Task) : Prop :=
  match kind t with
  | HashMatch _ =>
      (status t = Claimed -> is_Some (claimant t)) /\
      status t ∉ [AwaitingDispute; Disputed; AwaitingPick]
  | Consensus c =>
      (status t = Claimed -> is_Some (c_submission_deadline c)) /\
      claim_deadline t = None /\
      status t ∉ [AwaitingDispute; Disputed; AwaitingPick]
  | Disputable d =>
      (length (answers d) <= MAX_CONTEST_ANSWERS)%nat /\
      (status t = AwaitingPick -> answers d <> []) /\
      (answers d <> [] -> status t ∉ [Claimed; AwaitingDispute; Disputed]) /\
      (status t = AwaitingDispute ->
         is_Some (dispute_deadline d) /\ is_Some (claimant t) /\ dispute d = None) /\
      (status t = Disputed -> is_Some (claimant t) /\ is_Some (dispute d))
  end.

Record task_wf (id : Uuid) (t : Task) : Prop := {
  wf_id : t_id t = id;
  wf_keys : NoDup (s_key <$> slots t);
  wf_sum : sumN (slot_amount <$> slots t) <= bounty t;
  wf_paid_share : Forall (fun s => s_share s = None -> s_paid s = false) (slots t);
  wf_unsettled : settled (status t) = false -> Forall (fun s => s_share s = None) (slots t);
  wf_owes : by_shares (kind t) = true -> owes (status t) = true -> Exists slot_owed (slots t);
  wf_paid : by_shares (kind t) = true -> status t = Paid ->
    Forall (fun s => ~ slot_owed s) (slots t) /\ Exists (fun s => is_Some (s_share s)) (slots t);
  wf_single : by_shares (kind t) = false -> settled (status t) = true -> is_Some (winner t);
  wf_shape : kind_shape t
}.

Definition board_wf (tb : TaskBoard) : Prop := map_Forall task_wf (tb_tasks tb).

(** ** What one operation may do to a task *)
Record evolves (t t' : Task) : Prop := {
  ev_id : t_id t' = t_id t;
  ev_bounty : bounty t' = bounty t;
  ev_poster : poster t' = poster t;
  ev_escrow : escrow_id t' = escrow_id t;
  ev_status : status_move (status t) (status t');
  ev_alloc : settled (status t) = true -> allocated_payouts t' ≡ₚ allocated_payouts t;
  ev_paid : forall r, is_recipient_paid t r = true -> is_recipient_paid t' r = true
}.

(** Every task survives, and evolves. *)
Definition board_evolves (tb tb' : TaskBoard) : Prop :=
  forall id t, tb_tasks tb !! id = Some t -> exists t', tb_tasks tb' !! id = Some t' /\ evolves t t'.

(** ** Payouts in terms of slots *)
Section slots.
Implicit Types (t : Task) (s : slot) (l : list slot).

Lemma omap_fmap {A B C} (f : A -> B) (g : B -> option C) (k : list A) :
  omap g (f <$> k) = omap (g ∘ f) k.
Proof. induction k as [|x k IH]; [done|]. cbn. by rewrite <-IH. Qed.

Lemma allocated_by_shares t :
  by_shares (kind t) = true -> allocated_payouts t = omap slot_payout (slots t).
Proof.
  unfold allocated_payouts, by_shares. destruct (kind t) as [h|c|d]; [done| |]; cbn.
  - intros _. by rewrite omap_fmap.
  - destruct (answers d) as [|a l]; [done|]. intros _. by rewrite omap_fmap.
Qed.

Lemma allocated_single t :
  by_shares (kind t) = false ->
  allocated_payouts t = match winner t with Some w => [(w, bounty t)] | None => [] end.
Proof.
  unfold allocated_payouts, by_shares, winner. destruct (kind t) as [h|c|d]; [done..|].
  by destruct (answers d).
Qed.

Lemma slot_exists l r :
  existsb (fun s => bool_decide (s_key s = r) && s_paid s) l = true <->
  exists s, s ∈ l /\ s_key s = r /\ s_paid s = true.
Proof.
  rewrite existsb_elem. setoid_rewrite andb_true_iff. by setoid_rewrite bool_decide_eq_true.
Qed.

Lemma paid_by_shares t r :
  by_shares (kind t) = true ->
  is_recipient_paid t r = true <-> exists s, s ∈ slots t /\ s_key s = r /\ s_paid s = true.
Proof.
  unfold is_recipient_paid, by_shares. destruct (kind t) as [h|c|d]; [done| |]; cbn; intros Hb.
  - split.
    + destruct (assignees c !! r) as [a|] eqn:E; [|done]. intros Hp. exists (assignee_slot (r, a)).
      split; [|done]. apply list_elem_of_fmap. exists (r, a). split; [done|].
      by apply elem_of_btree_iter.
    + intros (s & Hs & <- & Hp). apply list_elem_of_fmap in Hs as ([k a] & -> & Hk).
      apply elem_of_btree_iter in Hk. cbn in *. by rewrite Hk.
  - destruct (answers d) as [|a0 l0]; [done|]. clear Hb. revert l0. intros l0.
    rewrite existsb_elem. split.
    + intros (a & Ha & Hp). apply andb_true_iff in Hp as [Hk Hp]. apply bool_decide_eq_true in Hk.
      exists (answer_slot a). split; [by apply list_elem_of_fmap; exists a|done].
    + intros (s & Hs & Hk & Hp). apply list_elem_of_fmap in Hs as (a & -> & Ha).
      exists a. split; [done|]. cbn in *. by rewrite bool_decide_eq_true_2, Hp.
Qed.

Lemma paid_single t r :
  by_shares (kind t) = false ->
  is_recipient_paid t r = bool_decide (status t = Paid) &&
    match kind t with
    | HashMatch _ => bool_decide (claimant t = Some r)
    | _ => bool_decide (pending_payouts_recipient_hint t = Some r)
    end.
Proof.
  unfold is_recipient_paid, by_shares. destruct (kind t) as [h|c|d]; [done..|].
  by destruct (answers d).
Qed.

(** A task that does not pay by shares has paid its winner once it is [Paid]. *)
Lemma hint_winner t w :
  by_shares (kind t) = false -> winner t = Some w ->
  match kind t with
  | HashMatch _ => claimant t = Some w
  | _ => pending_payouts_recipient_hint t = Some w
  end.
Proof.
  unfold winner, pending_payouts_recipient_hint, dispute_winner.
  destruct (kind t) as [h|c|d]; try done. intros _. destruct (dispute d) as [x|]; [|done].
  by destruct (d_resolution x) as [[]|].
Qed.

Lemma elem_of_slot_payouts l k n :
  (k, n) ∈ omap slot_payout l <-> exists s, s ∈ l /\ s_key s = k /\ s_share s = Some n.
Proof.
  rewrite list_elem_of_omap. unfold slot_payout. split.
  - intros (s & Hs & Hp). destruct (s_share s) eqn:E; cbn in Hp; [|done]. injection Hp as <- <-. eauto.
  - intros (s & Hs & <- & Hn). exists s. split; [done|]. by rewrite Hn.
Qed.

Lemma slot_payouts_cons s l :
  omap slot_payout (s :: l) =
  match s_share s with Some n => (s_key s, n) :: omap slot_payout l | None => omap slot_payout l end.
Proof. cbn. unfold slot_payout at 1. by destruct (s_share s). Qed.

Lemma slot_payouts_sum l : sumN (omap slot_payout l).*2 = sumN (slot_amount <$> l).
Proof.
  induction l as [|s l IH]; [done|]. rewrite slot_payouts_cons, fmap_cons, sumN_cons.
  unfold slot_amount at 1. destruct (s_share s); [rewrite fmap_cons, sumN_cons|]; rewrite IH; cbn; lia.
Qed.

Lemma slot_payouts_keys l : NoDup (s_key <$> l) -> NoDup (omap slot_payout l).*1.
Proof.
  induction l as [|s l IH]; [by constructor|]. rewrite slot_payouts_cons, fmap_cons.
  intros [Hs Hl]%NoDup_cons. destruct (s_share s) as [n|]; [|by apply IH].
  rewrite fmap_cons. apply NoDup_cons. split; [|by apply IH]. intros Hin. apply Hs.
  apply list_elem_of_fmap in Hin as ([k m] & Hk & Hin). cbn in Hk. subst k.
  apply elem_of_slot_payouts in Hin as (s' & Hs' & Hk & _). rewrite <-Hk.
  apply list_elem_of_fmap. eauto.
Qed.

Lemma slot_payouts_pay l1 l2 s rest :
  l1 ≡ₚ s :: rest -> l2 ≡ₚ pay_slot s :: rest ->
  omap slot_payout l2 ≡ₚ omap slot_payout l1.
Proof.
  intros H1 H2. rewrite H1, H2, !slot_payouts_cons. done.
Qed.

Lemma slot_key_unique l s1 s2 :
  NoDup (s_key <$> l) -> s1 ∈ l -> s2 ∈ l -> s_key s1 = s_key s2 -> s1 = s2.
Proof.
  intros Hnd H1 H2 Hk. apply list_elem_of_lookup in H1 as [i Hi]. apply list_elem_of_lookup in H2 as [j Hj].
  assert (i = j) as ->; [|congruence].
  apply (NoDup_lookup (s_key <$> l) i j (s_key s1) Hnd); rewrite list_lookup_fmap.
  - by rewrite Hi.
  - rewrite Hj. cbn. by rewrite Hk.
Qed.

End slots.

(** ** What well-formedness gives *)
Section wf_facts.
Context {id : Uuid} {t : Task} (Hwf : task_wf id t).

(** The allocated payouts stay within the bounty and name nobody twice. *)
Lemma wf_allocated_sum : sumN (allocated_payouts t).*2 <= bounty t.
Proof.
  destruct (by_shares (kind t)) eqn:Hb.
  - rewrite allocated_by_shares, slot_payouts_sum by done. apply Hwf.
  - rewrite allocated_single by done. destruct (winner t); cbn; lia.
Qed.

Lemma wf_allocated_nodup : NoDup (allocated_payouts t).*1.
Proof.
  destruct (by_shares (kind t)) eqn:Hb.
  - rewrite allocated_by_shares by done. apply slot_payouts_keys, Hwf.
  - rewrite allocated_single by done. destruct (winner t); cbn; [apply NoDup_singleton|constructor].
Qed.

Lemma unsettled_unpaid r : settled (status t) = false -> is_recipient_paid t r = false.
Proof.
  intros Hs. apply not_true_is_false. destruct (by_shares (kind t)) eqn:Hb.
  - rewrite paid_by_shares by done. intros (s & Hin & _ & Hp).
    pose proof (wf_unsettled _ _ Hwf Hs) as H1. pose proof (wf_paid_share _ _ Hwf) as H2.
    rewrite Forall_forall in H1, H2. specialize (H1 s Hin). rewrite (H2 s Hin H1) in Hp. done.
  - rewrite paid_single by done. rewrite bool_decide_eq_false_2; [done|]. intros E. by rewrite E in Hs.
Qed.

(** Paid slots and owed payouts. *)
Lemma slot_paid_exact s :
  by_shares (kind t) = true -> s ∈ slots t -> is_recipient_paid t (s_key s) = s_paid s.
Proof.
  intros Hb Hin. apply eq_true_iff_eq. rewrite paid_by_shares by done. split; [|eauto].
  intros (s' & Hin' & Hk & Hp).
  by rewrite <-(slot_key_unique _ _ _ (wf_keys _ _ Hwf) Hin' Hin Hk).
Qed.

Lemma elem_of_owed_by_shares k n :
  by_shares (kind t) = true ->
  (k, n) ∈ owed_payouts t <->
  exists s, s ∈ slots t /\ s_key s = k /\ s_share s = Some n /\ s_paid s = false.
Proof.
  intros Hb. unfold owed_payouts. rewrite list_elem_of_filter, allocated_by_shares by done.
  rewrite elem_of_slot_payouts. cbn. split.
  - intros [Hp (s & Hin & <- & Hs)]. rewrite slot_paid_exact in Hp by done. eauto.
  - intros (s & Hin & <- & Hs & Hp). rewrite slot_paid_exact by done. eauto.
Qed.

(** A settled task owes something exactly while it is not [Paid]. *)
Lemma wf_owes_something : owes (status t) = true -> owed_payouts t <> [].
Proof.
  intros Ho Hnil. assert (Hset : settled (status t) = true) by (by destruct (status t)).
  destruct (by_shares (kind t)) eqn:Hb.
  - pose proof (wf_owes _ _ Hwf Hb Ho) as He. apply Exists_exists in He as (s & Hin & [n Hn] & Hp).
    assert ((s_key s, n) ∈ owed_payouts t) as Hel by (apply elem_of_owed_by_shares; eauto).
    rewrite Hnil in Hel. by apply not_elem_of_nil in Hel.
  - destruct (wf_single _ _ Hwf Hb Hset) as [w Hw].
    assert ((w, bounty t) ∈ owed_payouts t) as Hel; [|rewrite Hnil in Hel; by apply not_elem_of_nil in Hel].
    unfold owed_payouts. rewrite list_elem_of_filter, allocated_single, Hw by done.
    split; [|by left]. cbn. rewrite paid_single by done.
    rewrite bool_decide_eq_false_2; [done|]. intros E. by rewrite E in Ho.
Qed.

Lemma wf_paid_owes_nothing : status t = Paid -> owed_payouts t = [].
Proof.
  intros Hp. destruct (owed_payouts t) as [|[k n] l] eqn:E; [done|]. exfalso.
  assert ((k, n) ∈ owed_payouts t) as Hel by (rewrite E; by left). clear E.
  destruct (by_shares (kind t)) eqn:Hb.
  - destruct (wf_paid _ _ Hwf Hb Hp) as [Hall _]. apply elem_of_owed_by_shares in Hel as (s & Hin & _ & Hn & Hq);
      [|done]. rewrite Forall_forall in Hall. apply (Hall s Hin). by split; [eexists|].
  - assert (Hset : settled (status t) = true) by (by rewrite Hp).
    destruct (wf_single _ _ Hwf Hb Hset) as [w Hw]. unfold owed_payouts in Hel.
    rewrite list_elem_of_filter, allocated_single, Hw in Hel by done. destruct Hel as [Hq Hel].
    apply list_elem_of_singleton in Hel as [= -> ->]. cbn in Hq. rewrite paid_single in Hq by done.
    rewrite bool_decide_eq_true_2 in Hq by done. pose proof (hint_winner t w Hb Hw) as Hh.
    destruct (kind t); rewrite bool_decide_eq_true_2 in Hq by done; done.
Qed.

(** A slot nobody was given a share of. *)
Definition blank (s : slot) : Prop := s_share s = None /\ s_paid s = false.

Lemma wf_blank : settled (status t) = false -> Forall blank (slots t).
Proof.
  intros Hs. pose proof (wf_unsettled _ _ Hwf Hs) as H1. pose proof (wf_paid_share _ _ Hwf) as H2.
  rewrite !Forall_forall in *. intros s Hin. split; auto.
Qed.

Lemma unsettled_evolves t' :
  settled (status t) = false -> t_id t' = t_id t -> bounty t' = bounty t -> poster t' = poster t ->
  escrow_id t' = escrow_id t -> status_move (status t) (status t') -> evolves t t'.
Proof.
  intros Hs Hi Hb Hp He Hm. split; try done.
  - congruence.
  - intros r Hr. by rewrite unsettled_unpaid in Hr.
Qed.

End wf_facts.

(** ** Building well-formed tasks *)

(** Before the payouts are fixed. *)
Lemma wf_intro_blank id t :
  t_id t = id -> settled (status t) = false -> NoDup (s_key <$> slots t) -> Forall blank (slots t) ->
  kind_shape t -> task_wf id t.
Proof.
  intros Hid Hs Hk Hb Hsh. rewrite Forall_forall in Hb. split; try done.
  - rewrite <-slot_payouts_sum. replace (omap slot_payout (slots t)) with (@nil (PublicKey * N)); [cbn; lia|].
    symmetry. apply elem_of_nil_inv. intros [k n] Hin. apply elem_of_slot_payouts in Hin as (s & Hin & _ & Hn).
    destruct (Hb s Hin). congruence.
  - apply Forall_forall. intros s Hin _. by destruct (Hb s Hin).
  - intros _. apply Forall_forall. intros s Hin. by destruct (Hb s Hin).
  - intros _ Ho. by destruct (status t).
  - intros _ E. by rewrite E in Hs.
  - congruence.
Qed.

(** When they are. *)
Lemma wf_intro_verified id t :
  t_id t = id -> status t = Verified -> NoDup (s_key <$> slots t) ->
  Forall (fun s => s_paid s = false) (slots t) -> sumN (slot_amount <$> slots t) <= bounty t ->
  (if by_shares (kind t) then Exists (fun s => is_Some (s_share s)) (slots t) else is_Some (winner t)) ->
  kind_shape t -> task_wf id t.
Proof.
  intros Hid Hs Hk Hp Hsum Hw Hsh. rewrite Forall_forall in Hp. split; try done.
  - apply Forall_forall. intros s Hin _. by apply Hp.
  - by rewrite Hs.
  - intros Hb _. rewrite Hb in Hw. apply Exists_exists in Hw as (s & Hin & Hn).
    apply Exists_exists. exists s. repeat split; auto.
  - intros _ E. congruence.
  - intros Hb _. by rewrite Hb in Hw.
Qed.

(** A change of status within the settled ones, short of [Paid]. *)
Lemma wf_set_status id t s :
  task_wf id t -> owes (status t) = true -> owes s = true -> task_wf id (set_status t s).
Proof.
  intros Hwf Ho Hs. assert (Hset : settled (status t) = true) by (by destruct (status t)).
  destruct Hwf as [H1 H2 H3 H4 H5 H6 H7 H8 H9]. split; cbn; try done.
  - by destruct s.
  - intros Hb _. by apply H6.
  - intros _ ->. done.
  - intros Hb _. by apply H8.
  - revert H9. unfold kind_shape. cbn. destruct (kind t) as [h|c|d].
    + intros [_ _]. split; [|set_solver by (by destruct s)]. by intros ->.
    + intros (_ & Hc & _). split; [by intros ->|]. split; [done|]. destruct s; set_solver.
    + intros (Hl & _ & _ & _ & _). repeat split; try done; try (intros ->; done); destruct s; set_solver.
Qed.
