(* ===== verification/BoardStep.v ===== *)
(** * BoardStep: every operation of the board keeps its tasks well formed

    One lemma [<operation>_keeps] per operation that changes a task: from a
    well-formed board it leads to a well-formed board whose tasks evolved from
    the old ones. *)

From S2P Require Import Prelude Types BoardTypes Exchange Tasks Board Payouts BoardInv.

Definition keeps (tb tb' : TaskBoard) : Prop :=
  board_wf tb -> board_wf tb' /\ board_evolves tb tb'.

(** One task's change. *)
Definition task_ok (id : Uuid) (t t' : Task) : Prop := task_wf id t -> task_wf id t' /\ evolves t t'.

Section generic.
Implicit Types (tb : TaskBoard).

Lemma evolves_refl t : evolves t t.
Proof. split; try done. by left. Qed.

Lemma keeps_tasks tb tb' : tb_tasks tb' = tb_tasks tb -> keeps tb tb'.
Proof.
  intros E Hwf. unfold board_wf, board_evolves. rewrite E. split; [done|].
  intros id t Ht. exists t. split; [done|apply evolves_refl].
Qed.

Lemma keeps_put tb tb' id t t' :
  tb_tasks tb !! id = Some t -> task_ok id t t' -> tb_tasks tb' = <[id := t']> (tb_tasks tb) ->
  keeps tb tb'.
Proof.
  intros Ht Hok E Hwf. destruct (Hok (Hwf id t Ht)) as [Hwf' Hev]. unfold board_wf, board_evolves.
  rewrite E. split; [by apply map_Forall_insert_2|]. intros i u Hu.
  destruct (decide (i = id)) as [->|Hne].
  - rewrite lookup_insert_eq. exists t'. by replace u with t by congruence.
  - rewrite lookup_insert_ne by done. exists u. split; [done|apply evolves_refl].
Qed.

Lemma keeps_new tb tb' id t' :
  tb_tasks tb !! id = None -> task_wf id t' -> tb_tasks tb' = <[id := t']> (tb_tasks tb) ->
  keeps tb tb'.
Proof.
  intros Hn Hok E Hwf. unfold board_wf, board_evolves. rewrite E.
  split; [by apply map_Forall_insert_2|]. intros i u Hu. exists u.
  rewrite lookup_insert_ne by congruence. split; [done|apply evolves_refl].
Qed.

Lemma keeps_sweep f tb :
  (forall id t t', f t = Some t' -> task_ok id t t') -> keeps tb (sweep f tb).1.
Proof.
  intros Hf Hwf. split.
  - intros id t Ht. cbn in Ht. rewrite lookup_fmap in Ht.
    destruct (tb_tasks tb !! id) as [u|] eqn:Eu; cbn in Ht; [|done]. injection Ht as <-.
    destruct (f u) as [u'|] eqn:Ef; [|by apply Hwf]. by apply (Hf id u u' Ef), Hwf.
  - intros id t Ht. exists (default t (f t)). cbn. rewrite lookup_fmap, Ht. split; [done|].
    destruct (f t) as [u'|] eqn:Ef; [|apply evolves_refl]. by apply (Hf id t u' Ef), Hwf.
Qed.

End generic.

(** Turn the guards of a run into propositions. *)
Ltac guards :=
  repeat match goal with
  | H : negb _ = true |- _ => apply negb_true_iff in H
  | H : bool_decide _ = true |- _ => apply bool_decide_eq_true in H
  | H : bool_decide _ = false |- _ => apply bool_decide_eq_false in H
  | H : _ && _ = true |- _ => apply andb_true_iff in H as [? ?]
  end.

(** Close a [kind_shape] goal once the kind and the status are known. *)
Ltac shape := unfold kind_shape in *; cbn in *; repeat case_match; simplify_eq/=;
  try done; naive_solver (try set_solver; eauto).

(** A change made before the payouts are fixed that leaves the slots alone. *)
Lemma task_ok_blank id t t' :
  settled (status t) = false -> settled (status t') = false ->
  t_id t' = t_id t -> bounty t' = bounty t -> poster t' = poster t -> escrow_id t' = escrow_id t ->
  status_move (status t) (status t') ->
  (task_wf id t -> NoDup (s_key <$> slots t') /\ Forall blank (slots t') /\ kind_shape t') ->
  task_ok id t t'.
Proof.
  intros Hs Hs' Hi Hb Hp He Hm Hrest Hwf. destruct (Hrest Hwf) as (Hk & Hbl & Hsh). split.
  - apply wf_intro_blank; try done. rewrite Hi. apply Hwf.
  - by eapply unsettled_evolves.
Qed.

(** The same, with the slots unchanged. *)
Lemma task_ok_same_kind id t t' :
  settled (status t) = false -> settled (status t') = false ->
  t_id t' = t_id t -> bounty t' = bounty t -> poster t' = poster t -> escrow_id t' = escrow_id t ->
  kind t' = kind t -> status_move (status t) (status t') -> (task_wf id t -> kind_shape t') ->
  task_ok id t t'.
Proof.
  intros Hs Hs' Hi Hb Hp He Hk Hm Hsh. apply task_ok_blank; try done. intros Hwf. rewrite Hk.
  split; [apply Hwf|]. split; [by eapply wf_blank|by apply Hsh].
Qed.

(** ** Creation and settings *)
Lemma new_task_wf id now who desc amount k :
  kind_slots k = [] -> task_wf id (new_task id now who desc amount k).
Proof.
  intros Hk. apply wf_intro_blank; cbn; try done; rewrite ?Hk; [constructor..|].
  unfold kind_shape. cbn. destruct k as [h|c|d].
  - split; [done|set_solver].
  - split; [done|]. split; [done|set_solver].
  - apply fmap_nil_inv in Hk. rewrite Hk. cbn. split; [lia|]. repeat split; done.
Qed.

(** Settings that leave everything [task_wf] and [evolves] mention alone. *)
Lemma set_min_rep_ok id t n : task_ok id t (set_min_rep t n).
Proof. intros [H1 H2 H3 H4 H5 H6 H7 H8 H9]. split; [split; done|split; try done; by left]. Qed.
Lemma set_caps_ok id t c : task_ok id t (set_caps t c).
Proof. intros [H1 H2 H3 H4 H5 H6 H7 H8 H9]. split; [split; done|split; try done; by left]. Qed.
Lemma set_escrow_wf id t e : task_wf id t -> task_wf id (set_escrow t e).
Proof. intros [H1 H2 H3 H4 H5 H6 H7 H8 H9]. split; done. Qed.

Lemma set_min_reputation_keeps tb id n tb' : set_min_reputation tb id n = Ok tb' -> keeps tb tb'.
Proof.
  unfold set_min_reputation. intros H. inv_ok. subst tb'.
  eapply keeps_put; [done|apply set_min_rep_ok|done].
Qed.
Lemma set_capabilities_keeps tb id c tb' : set_capabilities tb id c = Ok tb' -> keeps tb tb'.
Proof.
  unfold set_capabilities. intros H. inv_ok. subst tb'.
  eapply keeps_put; [done|apply set_caps_ok|done].
Qed.

(** [apply_settings] on the task just created cannot fail, and changes it only
    in its settings. *)
Lemma apply_settings_spec tb id t min_rep caps :
  tb_tasks tb !! id = Some t ->
  exists t', apply_settings tb id min_rep caps = Ok (put_task tb id t') /\
    (task_wf id t -> task_wf id t') /\
    (t_id t', description t', bounty t', kind t', poster t', status t') =
    (t_id t, description t, bounty t, kind t, poster t, status t) /\
    min_reputation t' = (if 0 <? min_rep then min_rep else min_reputation t) /\
    capabilities t' = (if decide (caps = ∅) then capabilities t else caps).
Proof.
  intros Ht. unfold apply_settings, set_min_reputation, set_capabilities.
  assert (Hid : put_task tb id t = tb).
  { unfold put_task. rewrite insert_id by done. by destruct tb. }
  destruct (0 <? min_rep).
  - rewrite Ht. cbn. case_decide as Hc.
    + exists (set_min_rep t min_rep). split; [done|]. split; [|done].
      intros Hwf. by apply set_min_rep_ok.
    + rewrite lookup_insert_eq. cbn. exists (set_caps (set_min_rep t min_rep) caps).
      split; [unfold put_task; cbn; by rewrite insert_insert_eq|]. split; [|done].
      intros Hwf. by apply set_caps_ok, set_min_rep_ok.
  - cbn. case_decide as Hc.
    + exists t. rewrite Hid. done.
    + rewrite Ht. cbn. exists (set_caps t caps). split; [done|]. split; [|done].
      intros Hwf. by apply set_caps_ok.
Qed.

(** ** Escrow *)

(** The task a deposit's purpose creates, before its settings. *)
Definition intended_task (d : PendingDeposit) (task_id : Uuid) (now created : DateTime) : option Task :=
  match purpose d with
  | FundHashMatchTask i =>
      Some (new_task task_id created (depositor d) (ti_description i) (ti_bounty i)
              (HashMatch (ti_expected_output_hash i)))
  | FundConsensusTask i =>
      Some (new_task task_id created (depositor d) (ci_description i) (ci_bounty i)
              (Consensus (mkConsensus (ci_num_assignees i)
                 (now + minutes (ci_join_window_minutes i))%Z (ci_submission_window_minutes i) None ∅)))
  | FundDisputableTask i =>
      Some (new_task task_id created (depositor d) (di_description i) (di_bounty i)
              (Disputable (mkDisputable None (di_dispute_window_minutes i) None None [] None None)))
  | DisputeBond _ _ | FundExchangeAccount => None
  end.

Lemma confirm_escrow_shape tb id task_id amount now created :
  match confirm_escrow tb id task_id amount now created with
  | Ok (tb', t') =>
      exists d t0, tb_deposits tb !! id = Some d /\ pd_status d = Reserved /\
        required_amount d <= amount /\ (now <= expires_at d)%Z /\
        intended_task d task_id now created = Some t0 /\
        tb_deposits tb' = <[id := set_deposit_status Consumed d]> (tb_deposits tb) /\
        tb_tasks tb' = <[task_id := t']> (tb_tasks tb) /\ task_wf task_id t' /\
        escrow_id t' = Some id /\
        (t_id t', description t', bounty t', kind t', poster t', status t') =
        (t_id t0, description t0, bounty t0, kind t0, poster t0, status t0)
  | Err _ => True
  | Panic => False
  end.
Proof.
  unfold confirm_escrow. destruct (tb_deposits tb !! id) as [d|] eqn:Hd; [|done]. cbn.
  destruct (guard_ok _ WrongEscrowPurpose) as [[]| |] eqn:Hg; [|done|by case_match].
  apply guard_Ok in Hg. cbn. unfold check_deposit.
  destruct (bool_decide (pd_status d = Reserved)) eqn:Hst; [|done]. cbn.
  destruct (Z.ltb_spec (expires_at d) now); [done|]. cbn.
  destruct (N.ltb_spec amount (required_amount d)); [done|]. cbn. guards.
  assert (Hfin : forall t0 m c, intended_task d task_id now created = Some t0 -> task_wf task_id t0 ->
    let tb1 := with_deposits tb (<[id := set_deposit_status Consumed d]> (tb_deposits tb)) in
    exists t', (apply_settings (put_task tb1 task_id t0) task_id m c ≫= fun tb2 =>
       t ← expect (E := BoardError) (tb_tasks tb2 !! task_id);
       Ok (put_task tb2 task_id (set_escrow t id), set_escrow t id))
      = Ok (put_task tb1 task_id (set_escrow t' id), set_escrow t' id) /\
      task_wf task_id (set_escrow t' id) /\
      (t_id t', description t', bounty t', kind t', poster t', status t') =
      (t_id t0, description t0, bounty t0, kind t0, poster t0, status t0)).
  { intros t0 m c Ht0 Hwf tb1. destruct (apply_settings_spec (put_task tb1 task_id t0) task_id t0 m c)
      as (t' & -> & Hw & Hf & _); [apply lookup_insert_eq|]. exists t'. cbn.
    rewrite lookup_insert_eq. cbn. split; [by unfold put_task; cbn; rewrite !insert_insert_eq|].
    split; [|done]. by apply set_escrow_wf, Hw. }
  unfold intended_task in Hfin. destruct (purpose d) eqn:Hpu; try done; cbn in *.
  all: unfold create_task, create_consensus_task, create_disputable_task.
  all: edestruct Hfin as (t' & E & Hw & Hf); [reflexivity|by apply new_task_wf|].
  all: rewrite E; exists d; eexists; unfold intended_task; rewrite Hpu;
    split_and!; first [done | exact Hf | exact Hw].
Qed.

Lemma confirm_escrow_keeps tb id task_id amount now created tb' t' :
  tb_tasks tb !! task_id = None -> confirm_escrow tb id task_id amount now created = Ok (tb', t') ->
  keeps tb tb'.
Proof.
  intros Hn H. pose proof (confirm_escrow_shape tb id task_id amount now created) as Hs. rewrite H in Hs.
  destruct Hs as (d & t0 & _ & _ & _ & _ & _ & _ & Ht & Hw & _). by eapply keeps_new.
Qed.

(** ** Closing *)
Lemma set_close_ok id t r :
  status t ∈ [Open; Claimed; AwaitingPick; AwaitingDispute] -> task_ok id t (set_close t r).
Proof.
  intros Hs. apply task_ok_same_kind; cbn; try done.
  - destruct (status t); try done; set_solver.
  - right. by constructor.
  - intros Hwf. pose proof (wf_shape _ _ Hwf) as Hsh. revert Hsh. unfold kind_shape. cbn.
    destruct (kind t) as [h|c|d].
    + intros _. split; [done|set_solver].
    + intros (_ & ? & _). split; [done|]. split; [done|set_solver].
    + intros (? & _). repeat split; try done. set_solver.
Qed.

Lemma cancel_task_keeps tb id tb' : cancel_task tb id = Ok tb' -> keeps tb tb'.
Proof.
  unfold cancel_task. intros H. inv_ok. guards. subst tb'. eapply keeps_put; [done| |done].
  apply set_close_ok. destruct (status r); try done; set_solver.
Qed.

(** ** Claiming *)
Lemma claim_task_keeps tb id who deadline tb' : claim_task tb id who deadline = Ok tb' -> keeps tb tb'.
Proof.
  unfold claim_task. intros H. inv_ok. guards. case_match; try done. subst tb'.
  eapply keeps_put; [done| |done]. apply task_ok_same_kind; cbn; rewrite ?Hr1; try done.
  - right. constructor.
  - intros _. unfold kind_shape. cbn. case_match; [|done..]. split; [done|set_solver].
Qed.

Lemma reopen_ok id t :
  status t = Claimed -> (task_wf id t -> is_consensus t = false) ->
  task_ok id t (set_claim (set_status t Open) None None).
Proof.
  intros Hs Hc. apply task_ok_same_kind; cbn; rewrite ?Hs; try done.
  - right. constructor.
  - intros Hwf. specialize (Hc Hwf). pose proof (wf_shape _ _ Hwf) as Hsh. revert Hsh.
    unfold kind_shape, is_consensus in *. cbn. destruct (kind t) as [h|c|d]; [|done|].
    + intros _. split; [done|set_solver].
    + intros (? & _). repeat split; try done. set_solver.
Qed.

Lemma expire_claims_keeps tb now : keeps tb (expire_claims tb now).1.
Proof.
  apply keeps_sweep. intros id t t'. unfold expire_claim.
  destruct (_ && _) eqn:E; [|done]. intros [= <-]. guards. apply reopen_ok; [done|].
  intros Hwf. pose proof (wf_shape _ _ Hwf) as Hsh. unfold kind_shape, is_consensus in *.
  destruct (kind t) as [h|c|d]; try done. destruct Hsh as (_ & Hd & _).
  rewrite Hd in *. done.
Qed.

(** A failure leaves the tasks alone. *)
Lemma add_failure_tasks tb pk tb' : add_failure tb pk = Ok tb' -> tb_tasks tb' = tb_tasks tb.
Proof. unfold add_failure. intros H. inv_ok. by subst tb'. Qed.

Lemma add_failures_tasks l tb tb' : ofold add_failure tb l = Ok tb' -> tb_tasks tb' = tb_tasks tb.
Proof.
  revert tb. induction l as [|pk l IH]; intros tb H; cbn in H; inv_ok; [by subst|].
  rewrite (IH _ H). by eapply add_failure_tasks.
Qed.

Lemma submit_keeps tb id who h tb' b : submit tb id who h = Ok (tb', b) -> keeps tb tb'.
Proof.
  unfold submit. intros H. inv_ok. guards. destruct (kind r) eqn:Hk; inv_ok. subst.
  destruct (h =? r0).
  - inv_ok. simplify_eq. eapply keeps_put; [done| |done]. intros Hwf. split.
    + apply wf_intro_verified; cbn; rewrite ?Hk; cbn; try done; [apply Hwf|constructor..|lia| |].
      * unfold winner. cbn. rewrite Hk. by eexists.
      * unfold kind_shape. cbn. rewrite Hk. split; [done|set_solver].
    + eapply unsettled_evolves; cbn; try done; [by rewrite Hr1|]. right. rewrite Hr1. constructor.
  - inv_ok. simplify_eq. match goal with F : add_failure _ _ = Ok _ |- _ => apply add_failure_tasks in F; rename F into Ht end.
    eapply keeps_put; [done| |exact Ht].
    intros Hwf. destruct (reopen_ok id r Hr1 (fun _ => ltac:(unfold is_consensus; by rewrite Hk)) Hwf) as [Hw Hev].
    destruct Hw as [H1 H2 H3 H4 H5 H6 H7 H8 H9], Hev as [E1 E2 E3 E4 E5 E6].
    split; split; done.
Qed.

(** ** Joining and answering *)

(** Slots after an insertion of an assignee. *)
Lemma assignee_slots_insert_new c dl k a :
  assignees c !! k = None ->
  kind_slots (Consensus (with_assignees c dl (<[k := a]> (assignees c)))) ≡ₚ
  assignee_slot (k, a) :: kind_slots (Consensus c).
Proof.
  intros Hn. cbn. rewrite !btree_iter_perm, map_to_list_insert by done. done.
Qed.

Lemma assignee_slots_split c k a :
  assignees c !! k = Some a ->
  kind_slots (Consensus c) ≡ₚ assignee_slot (k, a) :: (assignee_slot <$> map_to_list (delete k (assignees c))).
Proof.
  intros Hk. cbn. rewrite btree_iter_perm.
  rewrite <-(insert_delete_id (assignees c) k a) at 1 by done.
  rewrite map_to_list_insert by apply lookup_delete_eq. done.
Qed.

Lemma assignee_slots_update c dl k a a' :
  assignees c !! k = Some a ->
  kind_slots (Consensus (with_assignees c dl (<[k := a']> (assignees c)))) ≡ₚ
  assignee_slot (k, a') :: (assignee_slot <$> map_to_list (delete k (assignees c))).
Proof.
  intros Hk. cbn. rewrite btree_iter_perm, <-insert_delete_eq.
  rewrite map_to_list_insert by apply lookup_delete_eq. done.
Qed.

Lemma assignee_slots_keys c : NoDup (s_key <$> kind_slots (Consensus c)).
Proof.
  cbn. rewrite <-list_fmap_compose. rewrite btree_iter_perm. apply NoDup_fst_map_to_list.
Qed.

Lemma join_consensus_task_keeps tb id who now tb' :
  join_consensus_task tb id who now = Ok tb' -> keeps tb tb'.
Proof.
  unfold join_consensus_task. intros H. inv_ok. guards. destruct (kind r) as [|c|] eqn:Hk; inv_ok. subst r0.
  destruct (assignees c !! who) eqn:Hwho; [done|].
  assert (Hok : forall full dl, (full = true -> is_Some dl) ->
    let t1 := set_kind r (Consensus (with_assignees c dl
                (<[who := mkAssignment None false None]> (assignees c)))) in
    task_ok id r (if full then set_status t1 Claimed else t1)).
  { intros full dl Hdl t1. apply task_ok_blank; try (by destruct full); [by rewrite Hr1|..].
    - destruct full; cbn; rewrite ?Hr1; done.
    - destruct full; cbn; rewrite Hr1; [right; constructor|by left].
    - intros Hwf. assert (Hb : Forall blank (slots r)) by (eapply wf_blank; [done|by rewrite Hr1]).
      replace (kind (if full then set_status t1 Claimed else t1)) with (kind t1) by (by destruct full).
      split; [apply assignee_slots_keys|]. split.
      + unfold t1. cbn [kind set_kind]. rewrite assignee_slots_insert_new by done.
        rewrite Hk in Hb. by constructor.
      + pose proof (wf_shape _ _ Hwf) as Hsh. unfold kind_shape in *. rewrite Hk in Hsh.
        destruct Hsh as (_ & Hd & Hns). destruct full; cbn.
        * split; [auto|]. split; [done|set_solver].
        * split; [by rewrite Hr1|]. split; [done|done]. }
  subst tb'. match goal with |- keeps _ (put_task _ _ (if ?f then _ else _)) => specialize (Hok f) end.
  eapply keeps_put; [done|apply Hok|done]. intros ->. by eexists.
Qed.

(** *** Contests *)
Lemma submit_contest_answer_keeps tb id who ans now tb' :
  submit_contest_answer tb id who ans now = Ok tb' -> keeps tb tb'.
Proof.
  unfold submit_contest_answer. intros H. inv_ok. guards. destruct (kind r) as [| |d] eqn:Hk; inv_ok. subst r0 tb'.
  match goal with F : existsb _ _ = false |- _ => rename F into Hfresh end.
  match goal with F : Nat.leb _ _ = false |- _ => apply Nat.leb_gt in F; rename F into Hlen end.
  eapply keeps_put; [done| |done]. apply task_ok_blank; cbn; rewrite ?Hr1; try done; [by left|].
  intros Hwf. assert (Hb : Forall blank (slots r)) by (eapply wf_blank; [done|by rewrite Hr1]).
  pose proof (wf_keys _ _ Hwf) as Hnd. rewrite Hk in Hb, Hnd. cbn in Hb, Hnd.
  rewrite !fmap_app. split; [|split].
  - apply NoDup_app. split; [done|]. split; [|apply NoDup_singleton].
    intros k Hin Hin2. apply list_elem_of_singleton in Hin2. cbn in Hin2. subst k.
    apply list_elem_of_fmap in Hin as (s & Hs & Hin). apply list_elem_of_fmap in Hin as (a & -> & Ha).
    assert (existsb (fun a => bool_decide (ca_pubkey a = who)) (answers d) = true) as Hx; [|congruence].
    apply existsb_elem. exists a. split; [done|]. by apply bool_decide_eq_true.
  - apply Forall_app. split; [done|]. by repeat constructor.
  - unfold kind_shape. cbn. rewrite length_app. cbn. split; [unfold MAX_CONTEST_ANSWERS in *; lia|].
    repeat split; try done. set_solver.
Qed.

Lemma close_contest_keeps tb id who now tb' : close_contest tb id who now = Ok tb' -> keeps tb tb'.
Proof.
  unfold close_contest. intros H. inv_ok. guards. destruct (kind r) as [| |d] eqn:Hk; inv_ok. subst r0.
  destruct (answers d) as [|a l] eqn:Ha; inv_ok; subst tb'; (eapply keeps_put; [done| |done]).
  - apply set_close_ok. match goal with F : status r = _ |- _ => rewrite F end. set_solver.
  - match goal with F : status r = _ |- _ => rename F into Hst end.
    apply task_ok_blank; cbn; rewrite ?Hst; try done; [right; constructor|].
    intros Hwf. assert (Hb : Forall blank (slots r)) by (eapply wf_blank; [done|by rewrite Hst]).
    pose proof (wf_keys _ _ Hwf) as Hnd. rewrite Hk in Hb, Hnd. cbn in Hb, Hnd.
    split; [done|]. split; [done|]. pose proof (wf_shape _ _ Hwf) as Hsh. unfold kind_shape in *.
    rewrite Hk in Hsh. cbn. destruct Hsh as (Hl & _). split; [done|]. rewrite Ha. repeat split; try done. set_solver.
Qed.

Lemma answer_slots_split (l : list ContestAnswer) i a a' :
  l !! i = Some a ->
  exists rest, answer_slot <$> l ≡ₚ answer_slot a :: rest /\
    answer_slot <$> <[i := a']> l ≡ₚ answer_slot a' :: rest.
Proof.
  intros Hi. pose proof (lookup_lt_Some _ _ _ Hi). exists (answer_slot <$> (take i l ++ drop (S i) l)).
  rewrite insert_take_drop by done. rewrite <-(take_drop_middle l i a Hi) at 1.
  rewrite !fmap_app, !fmap_cons. split; by rewrite <-Permutation_middle.
Qed.

Lemma find_answer_Some l pk i a :
  find_answer l pk = Some (i, a) -> l !! i = Some a /\ ca_pubkey a = pk.
Proof. intros Hf. apply list_find_Some in Hf as (Hl & Hk & _). done. Qed.

(** The sum of the shares of blank slots. *)
Lemma blank_sum l : Forall blank l -> sumN (slot_amount <$> l) = 0.
Proof.
  induction 1 as [|s l [Hs _] _ IH]; [done|]. rewrite fmap_cons, sumN_cons, IH. unfold slot_amount.
  by rewrite Hs.
Qed.

Lemma pick_answer_keeps tb id caller who now tb' :
  pick_answer tb id caller who now = Ok tb' -> keeps tb tb'.
Proof.
  unfold pick_answer. intros H. inv_ok. guards. destruct (kind r) as [| |d] eqn:Hk; inv_ok. subst r0.
  match goal with F : find_answer _ _ = Some ?p |- _ => destruct p as [i a]; rename F into Hf end.
  inv_ok. subst tb'. match goal with F : status r = _ |- _ => rename F into Hst end.
  apply find_answer_Some in Hf as [Hi Hpk]. eapply keeps_put; [done| |done]. intros Hwf.
  destruct (answer_slots_split (answers d) i a (set_answer_share a (Some (bounty r))) Hi) as (rest & H1 & H2).
  assert (Hb : Forall blank (slots r)) by (eapply wf_blank; [done|by rewrite Hst]).
  pose proof (wf_keys _ _ Hwf) as Hnd. pose proof (wf_shape _ _ Hwf) as Hsh. unfold kind_shape in Hsh.
  rewrite Hk in Hb, Hnd, Hsh. cbn in Hb, Hnd. rewrite H1 in Hb, Hnd. inversion Hb as [|? ? [Hn Hu] Hrest]; subst.
  split; [|eapply unsettled_evolves; cbn; rewrite ?Hst; try done; right; constructor].
  apply wf_intro_verified; cbn; try done; [apply Hwf|..]; rewrite ?H2.
  - done.
  - constructor; [done|]. eapply Forall_impl; [exact Hrest|]. by intros s [].
  - cbn [fmap list_fmap]. rewrite sumN_cons. fold (slot_amount <$> rest). rewrite blank_sum by done. cbn. lia.
  - destruct (<[i:=_]> (answers d)) as [|a0 l0] eqn:E.
    + cbn in H2. by apply Permutation_nil_cons in H2.
    + rewrite H2. left. by eexists.
  - unfold kind_shape. cbn. rewrite length_insert. destruct Hsh as (Hl & _). repeat split; try done. set_solver.
Qed.

(** ** Sweeps *)
Lemma close_unclosed_contests_keeps tb now : keeps tb (close_unclosed_contests tb now).1.
Proof.
  apply keeps_sweep. intros id t t'. unfold close_unclosed.
  destruct (_ && _) eqn:E; [|done]. intros [= <-]. guards. apply set_close_ok.
  match goal with F : status t = _ |- _ => rewrite F end. set_solver.
Qed.

Lemma cancel_understaffed_consensus_tasks_keeps tb now :
  keeps tb (cancel_understaffed_consensus_tasks tb now).1.
Proof.
  apply keeps_sweep. intros id t t'. unfold cancel_understaffed. destruct (kind t); try done.
  destruct (_ && _) eqn:E; [|done]. intros [= <-]. guards. apply set_close_ok.
  match goal with F : status t = _ |- _ => rewrite F end. set_solver.
Qed.

(** An even split stays within the whole. *)
Lemma even_split b n : N.of_nat n * (b / N.max (N.of_nat n) 1) <= b.
Proof.
  destruct n as [|n]; [lia|]. rewrite N.max_l by lia.
  apply N.Div0.mul_div_le.
Qed.

Lemma sumN_const {A} (f : A -> N) (l : list A) x :
  (forall a, a ∈ l -> f a = x) -> sumN (f <$> l) = N.of_nat (length l) * x.
Proof.
  induction l as [|a l IH]; intros Hf; [done|]. rewrite fmap_cons, sumN_cons, IH.
  - rewrite Hf by (by left). cbn [length]. lia.
  - intros b Hb. apply Hf. by right.
Qed.

Lemma split_slots (l : list ContestAnswer) x :
  answer_slot <$> ((fun a => set_answer_share a (Some x)) <$> l) =
  (fun s => mkSlot (s_key s) (Some x) (s_paid s)) <$> (answer_slot <$> l).
Proof. by rewrite <-!list_fmap_compose. Qed.

Lemma split_unpicked_ok now id t t' : split_unpicked now t = Some t' -> task_ok id t t'.
Proof.
  unfold split_unpicked. destruct (negb (bool_decide (status t = AwaitingPick))) eqn:Hst; [done|].
  apply negb_false_iff, bool_decide_eq_true in Hst. destruct (kind t) as [| |d] eqn:Hk; try done.
  destruct (negb _); [done|]. intros [= <-] Hwf.
  split; [|eapply unsettled_evolves; cbn; rewrite ?Hst; try done; right; constructor].
  assert (Hb : Forall blank (slots t)) by (eapply wf_blank; [done|by rewrite Hst]).
  pose proof (wf_keys _ _ Hwf) as Hnd. pose proof (wf_shape _ _ Hwf) as Hsh. unfold kind_shape in Hsh.
  rewrite Hk in Hb, Hnd, Hsh. cbn in Hb, Hnd. destruct Hsh as (Hl & Hne & _). specialize (Hne Hst).
  apply wf_intro_verified; cbn; try done; [apply Hwf|rewrite ?split_slots..|].
  - rewrite <-list_fmap_compose. exact Hnd.
  - apply Forall_fmap. eapply Forall_impl; [exact Hb|]. by intros s [].
  - rewrite <-!list_fmap_compose.
    rewrite (sumN_const _ _ (bounty t / N.max (N.of_nat (length (answers d))) 1)) by done. apply even_split.
  - destruct (answers d) as [|a l]; [done|]. cbn. left. by eexists.
  - unfold kind_shape. cbn. rewrite length_fmap. repeat split; try done. set_solver.
Qed.

Lemma split_unpicked_contests_keeps tb now : keeps tb (split_unpicked_contests tb now).1.
Proof. apply keeps_sweep. intros id t t'. apply split_unpicked_ok. Qed.

(** ** Disputes *)
Lemma finalize_unchallenged_disputable_tasks_keeps tb now :
  keeps tb (finalize_unchallenged_disputable_tasks tb now).1.
Proof.
  apply keeps_sweep. intros id t t'. unfold finalize_unchallenged.
  destruct (negb (bool_decide (status t = AwaitingDispute))) eqn:Hst; [done|].
  apply negb_false_iff, bool_decide_eq_true in Hst. destruct (kind t) as [| |d] eqn:Hk; try done.
  destruct (dispute d) eqn:Hdis; [done|]. destruct (past _ _); [|done]. intros [= <-] Hwf.
  split; [|eapply unsettled_evolves; cbn; rewrite ?Hst; try done; right; constructor].
  pose proof (wf_shape _ _ Hwf) as Hsh. unfold kind_shape in Hsh. rewrite Hk in Hsh.
  destruct Hsh as (Hl & _ & Ha & Hd & _). destruct (Hd Hst) as (_ & Hc & _).
  assert (Hnil : answers d = []).
  { destruct (answers d) eqn:E; [done|]. destruct Ha; [done|rewrite Hst; set_solver]. }
  apply wf_intro_verified; cbn; rewrite ?Hk; cbn; rewrite ?Hnil; try done;
    [apply Hwf|constructor..|cbn; lia| |].
  - unfold winner. cbn. rewrite Hk, Hdis. done.
  - unfold kind_shape. cbn. rewrite Hk, Hnil. cbn. repeat split; try done. lia.
Qed.

Lemma confirm_dispute_bond_keeps tb eid amount now tb' t' :
  confirm_dispute_bond tb eid amount now = Ok (tb', t') -> keeps tb tb'.
Proof.
  unfold confirm_dispute_bond. intros H. inv_ok. destruct (purpose r); try done. inv_ok. subst.
  inv_ok. guards. match goal with F : match kind ?t with _ => _ end = Ok _ |- _ =>
    destruct (kind t) as [| |d] eqn:Hk; inv_ok; subst; rename t into u end.
  match goal with F : status u = _ |- _ => rename F into Hst end. simplify_eq.
  eapply keeps_put; [done| |done].
  apply task_ok_blank; cbn; rewrite ?Hst; try done; [right; constructor|].
  intros Hwf. assert (Hb : Forall blank (slots u)) by (eapply wf_blank; [done|by rewrite Hst]).
  pose proof (wf_keys _ _ Hwf) as Hnd. pose proof (wf_shape _ _ Hwf) as Hsh. unfold kind_shape in Hsh.
  rewrite Hk in Hb, Hnd, Hsh. cbn in Hb, Hnd. split; [done|]. split; [done|].
  destruct Hsh as (Hl & _ & Ha & Hd & _). destruct (Hd Hst) as (_ & Hc & _).
  unfold kind_shape. cbn. split; [done|]. split; [done|]. split; [|split; [done|]].
  - intros Hne. destruct Ha; [done|]. rewrite Hst. set_solver.
  - intros _. split; [done|]. by eexists.
Qed.

Lemma resolve_dispute_keeps tb id res tb' wl : resolve_dispute tb id res = Ok (tb', wl) -> keeps tb tb'.
Proof.
  unfold resolve_dispute. intros H. inv_ok. guards.
  destruct (kind r) as [| |d] eqn:Hk; inv_ok. subst.
  match goal with F : dispute _ = Some ?x |- _ => rename x into dx; rename F into Hdis end.
  match goal with F : claimant r = Some ?x |- _ => rename x into who; rename F into Hcl end.
  match goal with F : status r = _ |- _ => rename F into Hst end.
  match goal with F : kind r = Disputable ?x |- _ => rename x into df end.
  assert (Ht : tb_tasks tb' = <[id := set_status (set_kind r (Disputable (with_dispute df (mkDispute
     (d_challenger dx) (d_reason dx) (d_bond_escrow_id dx) (d_bond_amount dx) (d_filed_at dx)
     (Some res))))) Verified]> (tb_tasks tb)).
  { destruct res; inv_ok; simplify_eq; cbn;
      match goal with F : add_failure _ _ = Ok _ |- _ => apply add_failure_tasks in F; by rewrite F end. }
  eapply keeps_put; [done| |exact Ht]. intros Hwf.
  split; [|eapply unsettled_evolves; cbn; rewrite ?Hst; try done; right; constructor].
  assert (Hb : Forall blank (slots r)) by (eapply wf_blank; [done|by rewrite Hst]).
  pose proof (wf_shape _ _ Hwf) as Hsh. unfold kind_shape in Hsh. rewrite Hk in Hb, Hsh.
  destruct Hsh as (Hl & _ & Ha & _ & Hd).
  assert (Hnil : answers df = []).
  { destruct (answers df) eqn:E; [done|]. destruct Ha; [done|rewrite Hst; set_solver]. }
  apply wf_intro_verified; cbn; rewrite ?Hnil; try done; [apply Hwf|constructor..|cbn; lia| |].
  - unfold winner. cbn. destruct res; [by eexists|done].
  - unfold kind_shape. cbn. repeat split; try done. lia.
Qed.

(** ** Consensus *)
Section consensus.
Implicit Types (m : gmap PublicKey ConsensusAssignment).

(** Counting over the entries of a map. *)
Lemma share_winners_sum w x m :
  map_Forall (fun _ a => a_share a = None) m ->
  sumN (slot_amount <$> (assignee_slot <$> map_to_list (share_winners w x m)))
  = N.of_nat (length (base.filter (fun a => a_answer a = Some w) (map_to_list m).*2)) * x.
Proof.
  induction m as [|k a m Hk IH] using map_ind; intros Hb; [by unfold share_winners; rewrite fmap_empty, map_to_list_empty|].
  apply map_Forall_insert in Hb as [Ha Hb]; [|done]. unfold share_winners. rewrite fmap_insert.
  rewrite !map_to_list_insert by (rewrite ?lookup_fmap, ?Hk; done).
  rewrite !fmap_cons, sumN_cons, filter_cons. fold (share_winners w x m). rewrite IH by done.
  case_decide; cbn [snd]; repeat case_decide; try done; cbn [length]; unfold slot_amount; cbn; rewrite ?Ha; cbn; lia.
Qed.

Lemma share_winners_keys w x m : (map_to_list (share_winners w x m)).*1 ≡ₚ (map_to_list m).*1.
Proof.
  unfold share_winners. rewrite map_to_list_fmap. by rewrite <-list_fmap_compose.
Qed.

Lemma votes_for_pos_elem w m :
  (0 < votes_for w m)%nat -> exists k a, m !! k = Some a /\ a_answer a = Some w.
Proof.
  unfold votes_for. intros Hp. destruct (base.filter _ _) as [|a l] eqn:E; [cbn in Hp; lia|].
  assert (Ha : a ∈ base.filter (fun a => a_answer a = Some w) (btree_values m)) by (rewrite E; by left).
  apply list_elem_of_filter in Ha as [Hw Ha]. apply elem_of_btree_values in Ha as [k Hk]. eauto.
Qed.

Lemma votes_for_map w m :
  votes_for w m = length (base.filter (fun a => a_answer a = Some w) (map_to_list m).*2).
Proof. unfold votes_for, btree_values. by rewrite btree_iter_perm. Qed.

End consensus.

(** A consensus task resolved by a majority. *)
Lemma resolved_ok id t c w :
  status t = Claimed -> kind t = Consensus c -> majority_answer (assignees c) = Some w ->
  let x := bounty t / N.max (N.of_nat (votes_for w (assignees c))) 1 in
  task_ok id t (set_status (set_kind t (Consensus (with_assignees c (c_submission_deadline c)
                  (share_winners w x (assignees c))))) Verified).
Proof.
  intros Hst Hk Hm x Hwf. apply majority_answer_spec in Hm.
  split; [|eapply unsettled_evolves; cbn; rewrite ?Hst; try done; right; constructor].
  assert (Hb : Forall blank (slots t)) by (eapply wf_blank; [done|by rewrite Hst]).
  pose proof (wf_shape _ _ Hwf) as Hsh. unfold kind_shape in Hsh. rewrite Hk in Hb, Hsh.
  destruct Hsh as (_ & Hcd & _). cbn in Hb. rewrite Forall_fmap, Forall_forall in Hb.
  assert (Hblank : map_Forall (fun _ a => a_share a = None /\ a_paid a = false) (assignees c)).
  { intros k a Ha. apply (Hb (k, a)). by apply elem_of_btree_iter. }
  apply wf_intro_verified; try done; [apply Hwf|apply assignee_slots_keys| | | |].
  - cbn. apply Forall_fmap, Forall_forall. intros [k a] Ha. apply elem_of_btree_iter in Ha.
    unfold share_winners in Ha. rewrite lookup_fmap in Ha.
    destruct (assignees c !! k) as [a0|] eqn:E; [|done]. cbn in Ha. injection Ha as <-.
    destruct (Hblank k a0 E). by case_decide.
  - cbn. rewrite btree_iter_perm, share_winners_sum by (by intros k a Ha; apply (Hblank k a Ha)).
    rewrite <-votes_for_map. apply even_split.
  - cbn. destruct (votes_for_pos_elem w (assignees c)) as (k & a & Ha & Hw); [lia|].
    apply Exists_exists. exists (assignee_slot (k, mkAssignment (a_answer a) (a_paid a) (Some x))).
    split; [|by eexists]. apply list_elem_of_fmap. eexists. split; [reflexivity|].
    apply elem_of_btree_iter. unfold share_winners. rewrite lookup_fmap, Ha. cbn.
    by rewrite decide_True.
  - unfold kind_shape. cbn. repeat split; try done. set_solver.
Qed.

Lemma resolve_consensus_keeps tb id tb' t :
  tb_tasks tb !! id = Some t -> status t = Claimed -> resolve_consensus tb id = Ok tb' -> keeps tb tb'.
Proof.
  intros Ht Hst. unfold resolve_consensus. rewrite Ht. destruct (kind t) as [|c|] eqn:Hk;
    [intros H; inv_ok; subst; by apply keeps_tasks| |intros H; inv_ok; subst; by apply keeps_tasks].
  destruct (majority_answer (assignees c)) as [w|] eqn:Hm; intros H; inv_ok; subst tb'.
  - eapply keeps_put; [done|by apply (resolved_ok id t c w)|]. cbn.
    match goal with F : ofold _ _ _ = Ok _ |- _ => apply add_failures_tasks in F; by rewrite F end.
  - eapply keeps_put; [done| |done]. apply set_close_ok. rewrite Hst. set_solver.
Qed.

(** Two changes in a row, the first of which leaves every status alone. *)
Lemma evolves_trans_same t t1 t2 :
  evolves t t1 -> status t1 = status t -> evolves t1 t2 -> evolves t t2.
Proof.
  intros [A1 A2 A3 A4 A5 A6 A7] Hs [B1 B2 B3 B4 B5 B6 B7]. rewrite Hs in *. split; try congruence.
  - intros H. by rewrite B6, A6.
  - auto.
Qed.

Lemma keeps_trans_same tb tb1 tb2 :
  (forall id t t1, tb_tasks tb !! id = Some t -> tb_tasks tb1 !! id = Some t1 -> status t1 = status t) ->
  keeps tb tb1 -> keeps tb1 tb2 -> keeps tb tb2.
Proof.
  intros Hs H1 H2 Hwf. destruct (H1 Hwf) as [W1 E1]. destruct (H2 W1) as [W2 E2]. split; [done|].
  intros id t Ht. destruct (E1 id t Ht) as (t1 & Ht1 & V1). destruct (E2 id t1 Ht1) as (t2 & Ht2 & V2).
  exists t2. split; [done|]. by eapply evolves_trans_same; eauto.
Qed.

Lemma submit_consensus_answer_keeps tb id who ans now tb' b :
  submit_consensus_answer tb id who ans now = Ok (tb', b) -> keeps tb tb'.
Proof.
  unfold submit_consensus_answer. intros H. inv_ok. guards. destruct (kind r) as [|c|] eqn:Hk; inv_ok. subst r0.
  match goal with F : assignees c !! who = Some ?x |- _ => rename x into a; rename F into Ha end.
  match goal with F : status r = _ |- _ => rename F into Hst end.
  set (m := <[who := mkAssignment (Some ans) (a_paid a) (a_share a)]> (assignees c)) in *.
  set (t1 := set_kind r (Consensus (with_assignees c (c_submission_deadline c) m))) in *.
  assert (H1 : keeps tb (put_task tb id t1)).
  { eapply keeps_put; [done| |done]. apply task_ok_blank; try done; cbn; rewrite ?Hst; try done; [by left|].
    intros Hwf. assert (Hb : Forall blank (slots r)) by (eapply wf_blank; [done|by rewrite Hst]).
    pose proof (wf_shape _ _ Hwf) as Hsh. unfold kind_shape in Hsh. rewrite Hk in Hb, Hsh.
    split; [apply (assignee_slots_keys (with_assignees c (c_submission_deadline c) m))|]. split.
    - pose proof (assignee_slots_update c (c_submission_deadline c) who a
                    (mkAssignment (Some ans) (a_paid a) (a_share a)) Ha) as Hp. cbn in Hp. fold m in Hp.
      rewrite Hp. rewrite (assignee_slots_split c who a Ha) in Hb. by inversion Hb; constructor.
    - unfold kind_shape. cbn. rewrite Hst in *. done. }
  destruct (forallb _ _); inv_ok; simplify_eq; [|done].
  eapply keeps_trans_same; [|exact H1|].
  - intros i t t' Ht Ht'. cbn in Ht'. destruct (decide (i = id)) as [->|Hne].
    + rewrite lookup_insert_eq in Ht'. by simplify_eq.
    + rewrite lookup_insert_ne in Ht' by done. by simplify_eq.
  - eapply (resolve_consensus_keeps _ id _ t1); [apply lookup_insert_eq|done|done].
Qed.

Lemma resolve_consensus_frame tb id tb' i :
  resolve_consensus tb id = Ok tb' -> i <> id -> tb_tasks tb' !! i = tb_tasks tb !! i.
Proof.
  unfold resolve_consensus. intros H Hne. destruct (tb_tasks tb !! id) as [t|]; [|inv_ok; by subst].
  destruct (kind t) as [|c|]; [inv_ok; by subst| |inv_ok; by subst].
  destruct (majority_answer _); inv_ok; subst tb'; cbn; rewrite lookup_insert_ne by done; [|done].
  match goal with F : ofold _ _ _ = Ok _ |- _ => apply add_failures_tasks in F; by rewrite F end.
Qed.

Lemma resolve_all_keeps l : forall tb tb',
  NoDup l -> (forall i, i ∈ l -> exists t, tb_tasks tb !! i = Some t /\ status t = Claimed) ->
  ofold resolve_consensus tb l = Ok tb' ->
  keeps tb tb' /\ (forall i, i ∉ l -> tb_tasks tb' !! i = tb_tasks tb !! i).
Proof.
  induction l as [|j l IH]; intros tb tb' Hnd Hcl H; cbn in H; inv_ok.
  { subst. split; [by apply keeps_tasks|done]. }
  match goal with F : resolve_consensus _ _ = Ok ?x |- _ => rename F into Hr; rename x into tb1 end.
  apply NoDup_cons in Hnd as [Hj Hnd]. destruct (Hcl j) as (t & Ht & Hst); [by left|].
  pose proof (resolve_consensus_keeps _ _ _ _ Ht Hst Hr) as K1.
  destruct (IH tb1 tb' Hnd) as [K2 F2]; [|done|].
  { intros i Hi. rewrite (resolve_consensus_frame _ _ _ _ Hr) by congruence. apply Hcl. by right. }
  split.
  - intros Hwf. destruct (K1 Hwf) as [W1 E1]. destruct (K2 W1) as [W2 E2]. split; [done|].
    intros i u Hu. destruct (decide (i = j)) as [->|Hne].
    + destruct (E1 j u Hu) as (u' & Hu' & Hev). exists u'. by rewrite F2.
    + apply E2. by rewrite (resolve_consensus_frame _ _ _ _ Hr).
  - intros i Hi. apply not_elem_of_cons in Hi as [Hij Hil].
    rewrite F2, (resolve_consensus_frame _ _ _ _ Hr) by done. done.
Qed.

(** Under well-formedness a sweep's ids are the keys of the tasks it selects. *)
Lemma filtered_ids tb (P : Task -> Prop) `{!forall t, Decision (P t)} :
  board_wf tb ->
  NoDup (t_id <$> base.filter P (btree_values (tb_tasks tb))) /\
  forall i, i ∈ t_id <$> base.filter P (btree_values (tb_tasks tb)) <->
            exists t, tb_tasks tb !! i = Some t /\ P t.
Proof.
  intros Hwf. split.
  - assert (Hk : t_id <$> btree_values (tb_tasks tb) = (btree_iter (tb_tasks tb)).*1).
    { unfold btree_values. rewrite <-list_fmap_compose. apply list_fmap_ext. intros i [k t] Hi.
      apply list_elem_of_lookup_2, elem_of_btree_iter in Hi. cbn. by apply Hwf in Hi as []. }
    eapply sublist_NoDup; [|apply fmap_sublist, sublist_filter]. rewrite Hk, btree_iter_perm.
    apply NoDup_fst_map_to_list.
  - intros i. rewrite list_elem_of_fmap. setoid_rewrite list_elem_of_filter.
    setoid_rewrite elem_of_btree_values. split.
    + intros (t & -> & HP & k & Hk). exists t. split; [|done]. by rewrite (wf_id _ _ (Hwf k t Hk)).
    + intros (t & Ht & HP). exists t. split; [|eauto]. by rewrite (wf_id _ _ (Hwf i t Ht)).
Qed.

Lemma resolve_expired_consensus_tasks_keeps tb now tb' ids :
  resolve_expired_consensus_tasks tb now = Ok (tb', ids) -> keeps tb tb'.
Proof.
  unfold resolve_expired_consensus_tasks. intros H Hwf. inv_ok. simplify_eq.
  destruct (filtered_ids tb (fun t => consensus_due now t = true) Hwf) as [Hnd Hin].
  eapply resolve_all_keeps; [exact Hnd| |done|done]. intros i Hi. apply Hin in Hi as (t & Ht & Hd).
  exists t. split; [done|]. unfold consensus_due in Hd. by guards.
Qed.
