(* ===== verification/PayoutStep.v ===== *)
(** * PayoutStep: recording a payment moves exactly one payout

    [mark_recipient_paid] in terms of slots: the leg it finds, the task it
    leaves, and the payouts that were owed and are now paid; and the operations
    on payout attempts. *)

From S2P Require Import Prelude Types BoardTypes Exchange Tasks Board Payouts BoardInv BoardStep.

(** ** Owed and paid payouts in terms of slots *)
Section owed.
Context {id : Uuid} {t : Task} (Hwf : task_wf id t) (Hb : by_shares (kind t) = true).

Lemma filter_slot_payouts b l :
  l ⊆ slots t ->
  base.filter (fun p => is_recipient_paid t p.1 = b) (omap slot_payout l)
  = omap slot_payout (base.filter (fun s => s_paid s = b) l).
Proof.
  induction l as [|s l IH]; intros Hsub; [done|].
  assert (Hs : is_recipient_paid t (s_key s) = s_paid s)
    by (apply (slot_paid_exact Hwf); [done|apply Hsub; by left]).
  rewrite slot_payouts_cons, filter_cons. specialize (IH ltac:(intros x Hx; apply Hsub; by right)).
  destruct (s_share s) as [n|] eqn:En.
  - rewrite filter_cons. cbn [fst]. rewrite Hs. case_decide; rewrite ?slot_payouts_cons, ?En, IH; done.
  - case_decide; rewrite ?slot_payouts_cons, ?En; done.
Qed.

Lemma owed_by_shares : owed_payouts t = omap slot_payout (base.filter (fun s => s_paid s = false) (slots t)).
Proof. unfold owed_payouts. rewrite allocated_by_shares by done. by apply filter_slot_payouts. Qed.
Lemma paid_payouts_by_shares :
  paid_payouts t = omap slot_payout (base.filter (fun s => s_paid s = true) (slots t)).
Proof. unfold paid_payouts. rewrite allocated_by_shares by done. by apply filter_slot_payouts. Qed.

End owed.

(** ** The leg [pay_leg] finds *)
Definition settled_shape (t : Task) (k : TaskKind) : Prop :=
  forall t', kind t' = k -> claim_deadline t' = claim_deadline t -> settled (status t') = true -> kind_shape t'.

Lemma settled_shape_same id t : task_wf id t -> settled (status t) = true -> settled_shape t (kind t).
Proof.
  intros Hwf Hs t' Hk Hc Hs'. pose proof (wf_shape _ _ Hwf) as Hsh. unfold kind_shape in *. rewrite Hk, Hc in *.
  destruct (kind t) as [h|c|d].
  - split; [by intros E; rewrite E in Hs'|]. destruct (status t'); try done; set_solver.
  - destruct Hsh as (_ & ? & _). split; [by intros E; rewrite E in Hs'|]. split; [done|].
    destruct (status t'); try done; set_solver.
  - destruct Hsh as (? & _). split; [done|].
    split; [by intros E; rewrite E in Hs'|]. split; [destruct (status t'); try done; set_solver|].
    split; by intros E; rewrite E in Hs'.
Qed.

(** Whether every share is paid, on slots. *)
Lemma shares_paid_slots l :
  shares_paid ((fun s => (s_share s, s_paid s)) <$> l) = true <-> Forall (fun s => ~ slot_owed s) l.
Proof.
  induction l as [|s l IH]; [done|]. cbn. rewrite andb_true_iff, Forall_cons, <-IH, orb_true_iff.
  rewrite bool_decide_eq_true. unfold slot_owed. apply and_iff_compat_r.
  destruct (s_share s), (s_paid s); naive_solver.
Qed.

Record leg_paid (t : Task) (s : slot) (rest : list slot) (k : TaskKind) (full : bool) : Prop := {
  lp_unpaid : s_paid s = false;
  lp_slots : kind_slots k ≡ₚ pay_slot s :: rest;
  lp_shares : by_shares k = true;
  lp_full : full = true <-> Forall (fun s => ~ slot_owed s) (kind_slots k);
  lp_shape : settled_shape t k
}.

Lemma pay_leg_by_shares id t r leg :
  task_wf id t -> settled (status t) = true -> by_shares (kind t) = true -> pay_leg t r = Ok leg ->
  exists s rest, slots t ≡ₚ s :: rest /\ s_key s = r /\ is_Some (s_share s) /\
    match leg with
    | LegAlreadyPaid => s_paid s = true
    | LegPaid k full _ => leg_paid t s rest k full
    end.
Proof.
  intros Hwf Hst Hb. pose proof (settled_shape_same _ _ Hwf Hst) as Hsh. unfold pay_leg.
  destruct (kind t) as [h|c|d] eqn:Hk; [done| |].
  - intros H. inv_ok. guards. match goal with F : assignees c !! r = Some ?x |- _ => rename x into a; rename F into Ha end.
    exists (assignee_slot (r, a)), (assignee_slot <$> map_to_list (delete r (assignees c))).
    split; [by apply assignee_slots_split|]. split; [done|]. split; [done|].
    destruct (a_paid a) eqn:Hp; inv_ok; subst leg; [done|]. split; try done.
    + by apply (assignee_slots_update c (c_submission_deadline c) r a (set_paid a)).
    + cbn. rewrite <-shares_paid_slots. unfold btree_values. rewrite <-!list_fmap_compose. done.
    + intros t' Hk' Hc Hs'. pose proof (Hsh (set_kind t' (Consensus c)) eq_refl Hc Hs') as Hold.
      revert Hold. unfold kind_shape. rewrite Hk'. cbn. done.
  - destruct (answers d) as [|a0 l0] eqn:Ean; [by cbn in Hb; rewrite Ean in Hb|].
    intros H. inv_ok. match goal with F : find_answer _ _ = Some ?p |- _ => destruct p as [i a]; rename F into Hf end.
    inv_ok. guards. apply find_answer_Some in Hf as [Hi Hpk].
    destruct (answer_slots_split _ i a (set_answer_paid a) Hi) as (rest & H1 & H2).
    exists (answer_slot a), rest. cbn [kind_slots]. rewrite Ean. split; [done|]. split; [done|]. split; [done|].
    destruct (ca_paid a) eqn:Hp; inv_ok; subst leg; [done|]. split; try done.
    + cbn. destruct (<[i:=_]> (a0 :: l0)) eqn:E; [|done]. cbn in H2. by apply Permutation_nil_cons in H2.
    + cbn. rewrite <-shares_paid_slots. rewrite <-!list_fmap_compose. done.
    + intros t' Hk' Hc Hs'. pose proof (Hsh (set_kind t' (Disputable d)) eq_refl Hc Hs') as Hold.
      revert Hold. unfold kind_shape. rewrite Hk'. cbn. rewrite length_insert, Ean.
      intros (? & _). split; [done|]. split; [by intros E; rewrite E in Hs'|].
      split; [intros _; destruct (status t'); try done; set_solver|]. split; by intros E; rewrite E in Hs'.
Qed.

Lemma pay_leg_single id t r leg :
  task_wf id t -> settled (status t) = true -> by_shares (kind t) = false -> pay_leg t r = Ok leg ->
  winner t = Some r /\ exists credited, leg = LegPaid (kind t) true credited.
Proof.
  intros Hwf Hst Hb. destruct (wf_single _ _ Hwf Hb Hst) as [w Hw]. pose proof (hint_winner t w Hb Hw) as Hh.
  revert Hh Hw. unfold pay_leg, winner, pending_payouts_recipient_hint.
  destruct (kind t) as [h|c|d]; [|done|].
  - intros _ _ H. inv_ok. guards. eauto.
  - cbn in Hb. destruct (answers d) as [|a0 l0]; [|done]. intros Hh Hw H. inv_ok. guards. subst leg.
    split; [|eauto]. rewrite Hw. rewrite <-Hh.
    match goal with F : _ = Some r |- _ => rewrite <-F end.
    destruct (dispute d) as [x|]; [|done]. by destruct (d_resolution x) as [[]|].
Qed.

(** ** The task [mark_recipient_paid] leaves *)
Definition paid_task (t : Task) (k : TaskKind) (full : bool) (now : DateTime) : Task :=
  if full then set_settled (set_status (set_kind t k) Paid) (Some (default now (settled_at t)))
  else set_kind t k.

Record recorded (id : Uuid) (t : Task) (r : PublicKey) (t' : Task) (full : bool) : Prop := {
  rec_wf : task_wf id t';
  rec_evolves : evolves t t';
  rec_moves : exists x, owed_payouts t ≡ₚ (r, x) :: owed_payouts t' /\
                        paid_payouts t' ≡ₚ (r, x) :: paid_payouts t;
  rec_full : full = true <-> owed_payouts t' = [];
  rec_status : status t' = if full then Paid else status t
}.

Section paid_task.
Context {id : Uuid} {t : Task} (Hwf : task_wf id t) (Hset : is_settling (status t) = true).

Lemma settling_settled : settled (status t) = true.
Proof. by destruct (status t). Qed.
Lemma settling_owes : owes (status t) = true.
Proof. by destruct (status t). Qed.

Lemma pay_move (full : bool) : status_move (status t) (if full then Paid else status t).
Proof. destruct full; [|by left]. right. constructor. destruct (status t); try done; set_solver. Qed.

Lemma paid_task_fields k full now :
  t_id (paid_task t k full now) = t_id t /\ bounty (paid_task t k full now) = bounty t /\
  poster (paid_task t k full now) = poster t /\ escrow_id (paid_task t k full now) = escrow_id t /\
  kind (paid_task t k full now) = k /\
  claim_deadline (paid_task t k full now) = claim_deadline t /\
  status (paid_task t k full now) = (if full then Paid else status t).
Proof. by destruct full. Qed.

Lemma paid_task_shares_wf s rest k full now :
  by_shares (kind t) = true -> slots t ≡ₚ s :: rest -> is_Some (s_share s) ->
  leg_paid t s rest k full -> task_wf id (paid_task t k full now).
Proof.
  intros Hb Hsl Hsh [L1 L2 L3 L4 L5]. pose proof (paid_task_fields k full now) as (F1 & F2 & F3 & FE & F4 & F5 & F6).
  assert (Hs' : settled (status (paid_task t k full now)) = true)
    by (rewrite F6; destruct full; [done|apply settling_settled]).
  split; rewrite ?F1, ?F2, ?F4.
  - apply Hwf.
  - rewrite L2. pose proof (wf_keys _ _ Hwf) as Hk. by rewrite Hsl in Hk.
  - rewrite L2. pose proof (wf_sum _ _ Hwf) as Hk. by rewrite Hsl in Hk.
  - rewrite L2. pose proof (wf_paid_share _ _ Hwf) as Hk. rewrite Hsl in Hk. inversion Hk. subst.
    constructor; [|done]. intros E. cbn in E. rewrite E in Hsh. by destruct Hsh.
  - by rewrite Hs'.
  - intros _ Ho. rewrite F6 in Ho. destruct full; [done|].
    destruct (decide (Exists slot_owed (kind_slots k))) as [He|He]; [done|].
    rewrite <-Forall_Exists_neg in He. apply L4 in He. done.
  - intros _ E. rewrite F6 in E. destruct full.
    + split; [by apply L4|]. rewrite L2. by left.
    + by rewrite E in Hset.
  - congruence.
  - by apply L5.
Qed.

Lemma paid_task_shares s rest k full now :
  by_shares (kind t) = true -> slots t ≡ₚ s :: rest -> is_Some (s_share s) ->
  leg_paid t s rest k full -> recorded id t (s_key s) (paid_task t k full now) full.
Proof.
  intros Hb Hsl Hsh Hleg. pose proof (paid_task_shares_wf s rest k full now Hb Hsl Hsh Hleg) as Hwf'.
  destruct Hleg as [L1 L2 L3 L4 L5]. pose proof (paid_task_fields k full now) as (F1 & F2 & F3 & FE & F4 & F5 & F6).
  assert (Hb' : by_shares (kind (paid_task t k full now)) = true) by (by rewrite F4).
  assert (Hpaid : paid_payouts (paid_task t k full now) ≡ₚ (s_key s, default 0 (s_share s)) :: paid_payouts t).
  { rewrite (paid_payouts_by_shares Hwf' Hb'), (paid_payouts_by_shares Hwf Hb), F4, L2, Hsl.
    rewrite !filter_cons. cbn [s_paid pay_slot]. rewrite decide_True, decide_False by congruence.
    rewrite slot_payouts_cons. cbn. by destruct (s_share s); [|destruct Hsh]. }
  assert (Howed : owed_payouts t ≡ₚ (s_key s, default 0 (s_share s)) :: owed_payouts (paid_task t k full now)).
  { rewrite (owed_by_shares Hwf' Hb'), (owed_by_shares Hwf Hb), F4, L2, Hsl.
    rewrite !filter_cons. cbn [s_paid pay_slot]. rewrite decide_True, decide_False by congruence.
    rewrite slot_payouts_cons. by destruct (s_share s); [|destruct Hsh]. }
  split; [done| |by eexists| |done].
  - split; try done; [rewrite F6; apply pay_move| |].
    + intros _. rewrite !allocated_by_shares by done. rewrite F4. by eapply slot_payouts_pay.
    + intros r. rewrite !paid_by_shares by done. rewrite F4. intros (s' & Hin & Hk & Hp).
      rewrite Hsl in Hin. apply elem_of_cons in Hin as [->|Hin]; [congruence|].
      exists s'. split; [|done]. rewrite L2. by right.
  - rewrite L4. destruct full.
    + split; [|by rewrite <-L4]. intros _. by apply (wf_paid_owes_nothing Hwf').
    + split; [by rewrite <-L4|]. intros E. exfalso. eapply (wf_owes_something Hwf'); [|exact E].
      rewrite F6. apply settling_owes.
Qed.

Lemma paid_task_single r now :
  by_shares (kind t) = false -> winner t = Some r ->
  recorded id t r (paid_task t (kind t) true now) true.
Proof.
  intros Hb Hw. assert (Hsome : is_Some (winner t)) by (by rewrite Hw).
  set (t' := paid_task t (kind t) true now).
  assert (Hw' : winner t' = winner t) by done.
  assert (Hwf' : task_wf id t').
  { destruct Hwf as [H1 H2 H3 H4 H5 H6 H7 H8 H9]. split; try done; cbn; try congruence.
    by apply (settled_shape_same id t Hwf settling_settled). }
  assert (Ha : allocated_payouts t = [(r, bounty t)]) by (by rewrite allocated_single, Hw).
  assert (Ha' : allocated_payouts t' = [(r, bounty t)]) by (by rewrite allocated_single, Hw', Hw).
  assert (Hno : forall x, is_recipient_paid t x = false).
  { intros x. rewrite paid_single by done. rewrite bool_decide_eq_false_2; [done|].
    intros E. by rewrite E in Hset. }
  assert (Hyes : is_recipient_paid t' r = true).
  { rewrite paid_single by done. rewrite bool_decide_eq_true_2 by done. pose proof (hint_winner t' r Hb) as Hh.
    specialize (Hh ltac:(by rewrite Hw')). destruct (kind t'); by rewrite bool_decide_eq_true_2. }
  assert (Ho : owed_payouts t' = []) by (by apply (wf_paid_owes_nothing Hwf')).
  split; [done| | |done|done].
  - split; try done; [apply (pay_move true)|]. intros x Hx. by rewrite Hno in Hx.
  - exists (bounty t). rewrite Ho. unfold owed_payouts, paid_payouts. rewrite Ha, Ha', !filter_cons, !filter_nil.
    cbn [fst]. rewrite Hyes, Hno. done.
Qed.

End paid_task.

(** ** [mark_recipient_paid] *)
Lemma add_earning_tasks tb pk amount credited tb' :
  add_earning tb pk amount credited = Ok tb' -> tb_tasks tb' = tb_tasks tb.
Proof. unfold add_earning. intros H. inv_ok. by subst tb'. Qed.

Lemma reputation_put tb pk r q :
  reputation (put_reputation tb pk r) q = if decide (q = pk) then r else reputation tb q.
Proof.
  unfold reputation, put_reputation. cbn. case_decide as E; [subst; by rewrite lookup_insert_eq|].
  by rewrite lookup_insert_ne by congruence.
Qed.

Lemma add_earning_reputation tb pk amount credited tb' :
  add_earning tb pk amount credited = Ok tb' ->
  reputation tb' pk = mkReputation (completed (reputation tb pk) + (if credited then 1 else 0))
                        (failed (reputation tb pk)) (total_earned (reputation tb pk) + amount) /\
  forall q, q <> pk -> reputation tb' q = reputation tb q.
Proof.
  unfold add_earning. intros H. inv_ok. subst tb'. split.
  - rewrite reputation_put, decide_True by done.
    match goal with F : add64 (total_earned _) _ = Ok _ |- _ => apply add64_Ok in F as [-> _] end.
    destruct credited; inv_ok; [|by subst; rewrite N.add_0_r].
    match goal with F : add64 _ _ = Ok _ |- _ => by apply add64_Ok in F as [-> _] end.
  - intros q Hq. by rewrite reputation_put, decide_False.
Qed.

(** Every successful run: nothing changed because the leg was already paid, or
    exactly one owed payout became a paid one. *)
Lemma mark_recipient_paid_spec tb id r amount now tb' full :
  board_wf tb -> mark_recipient_paid tb id r amount now = Ok (tb', full) ->
  exists t, tb_tasks tb !! id = Some t /\ is_settling (status t) = true /\
    ((tb' = tb /\ full = false /\ is_recipient_paid t r = true) \/
     (exists t', recorded id t r t' full /\ tb_tasks tb' = <[id := t']> (tb_tasks tb) /\
        total_earned (reputation tb' r) = total_earned (reputation tb r) + amount /\
        (forall q, q <> r -> reputation tb' q = reputation tb q))).
Proof.
  intros Hwf. unfold mark_recipient_paid. intros H. inv_ok.
  match goal with F : tb_tasks tb !! id = Some ?x |- _ => rename x into t; rename F into Ht end.
  match goal with F : pay_leg t r = Ok ?x |- _ => rename x into leg; rename F into Hleg end.
  match goal with F : is_settling _ = true |- _ => rename F into Hs end.
  exists t. split; [done|]. split; [done|]. pose proof (Hwf id t Ht) as Htw.
  destruct leg as [|k f credited]; inv_ok.
  - left. simplify_eq. split; [done|]. split; [done|]. destruct (by_shares (kind t)) eqn:Hb.
    + destruct (pay_leg_by_shares id t r _ Htw (settling_settled Hs) Hb Hleg) as (s & rest & Hsl & Hk & _ & Hp).
      apply paid_by_shares; [done|]. exists s. split; [|done]. rewrite Hsl. by left.
    + by destruct (pay_leg_single id t r _ Htw (settling_settled Hs) Hb Hleg) as (_ & c & ?).
  - right. match goal with F : (_, _) = (_, _) |- _ => injection F as -> -> end.
    exists (paid_task t k full now).
    match goal with F : add_earning _ _ _ _ = Ok _ |- _ => rename F into Hadd end.
    split; [|split].
    + clear Hadd. destruct (by_shares (kind t)) eqn:Hb.
      * destruct (pay_leg_by_shares id t r _ Htw (settling_settled Hs) Hb Hleg) as (s & rest & Hsl & <- & Hsh & Hp).
        by eapply paid_task_shares.
      * destruct (pay_leg_single id t r _ Htw (settling_settled Hs) Hb Hleg) as (Hw & c & E).
        injection E as -> -> ->. by apply paid_task_single.
    + apply add_earning_tasks in Hadd. rewrite Hadd. done.
    + apply add_earning_reputation in Hadd as [-> Hq]. done.
Qed.

Lemma elem_of_paid_payouts t r x : (r, x) ∈ paid_payouts t -> is_recipient_paid t r = true.
Proof. unfold paid_payouts. rewrite list_elem_of_filter. by intros [? _]. Qed.

(** A leg that is paid is found paid. *)
Lemma pay_leg_repaid id t r :
  task_wf id t -> is_settling (status t) = true -> is_recipient_paid t r = true ->
  pay_leg t r = Ok LegAlreadyPaid.
Proof.
  intros Hwf Hs Hp. destruct (by_shares (kind t)) eqn:Hb.
  2: { rewrite paid_single in Hp by done. rewrite bool_decide_eq_false_2 in Hp; [done|].
       intros E. by rewrite E in Hs. }
  apply paid_by_shares in Hp as (s & Hin & <- & Hp); [|done].
  pose proof (wf_paid_share _ _ Hwf) as Hsh. rewrite Forall_forall in Hsh. specialize (Hsh s Hin).
  assert (Hsome : is_Some (s_share s)) by (destruct (s_share s); [by eexists|by rewrite Hsh in Hp]).
  pose proof (wf_keys _ _ Hwf) as Hnd. unfold pay_leg. destruct (kind t) as [h|c|d]; [done| |]; cbn in *.
  - apply list_elem_of_fmap in Hin as ([k a] & -> & Hk). apply elem_of_btree_iter in Hk. cbn in *.
    rewrite Hk. cbn. rewrite bool_decide_eq_true_2 by done. cbn. by rewrite Hp.
  - apply list_elem_of_fmap in Hin as (a & -> & Ha). destruct (answers d) as [|a0 l0] eqn:Ean; [done|].
    destruct (list_find_elem_of (fun b => ca_pubkey b = s_key (answer_slot a)) (a0 :: l0) a Ha eq_refl)
      as ([i b] & Hf). unfold find_answer. rewrite Hf. cbn.
    apply list_find_Some in Hf as (Hi & Hk & _). apply list_elem_of_lookup_2 in Hi.
    assert (E : answer_slot b = answer_slot a).
    { eapply slot_key_unique; [exact Hnd|..|exact Hk]; apply list_elem_of_fmap; eauto. }
    injection E as Ek Es Ep. cbn in Hsome, Hp. rewrite Es, Ep, (bool_decide_eq_true_2 _ Hsome).
    cbn. by rewrite Hp.
Qed.

Lemma mark_repaid tb id t r amount now :
  tb_tasks tb !! id = Some t -> task_wf id t -> is_settling (status t) = true ->
  is_recipient_paid t r = true -> mark_recipient_paid tb id r amount now = Ok (tb, false).
Proof.
  intros Ht Hwf Hs Hp. unfold mark_recipient_paid. rewrite Ht. cbn. rewrite Hs. cbn.
  by rewrite (pay_leg_repaid id).
Qed.

Lemma mark_recipient_paid_keeps tb id r amount now tb' full :
  mark_recipient_paid tb id r amount now = Ok (tb', full) -> keeps tb tb'.
Proof.
  intros H Hwf. destruct (mark_recipient_paid_spec _ _ _ _ _ _ _ Hwf H)
    as (t & Ht & _ & [(-> & _)|(t' & [Hw Hev _ _ _] & E & _)]); [by apply keeps_tasks|].
  by apply (keeps_put tb tb' id t t').
Qed.

(** ** Payout attempts *)
Lemma record_payout_attempt_keeps tb a : keeps tb (record_payout_attempt tb a).
Proof.
  unfold record_payout_attempt. case_match; [|by apply keeps_tasks].
  destruct (tb_tasks (restore_payout_attempt tb a) !! pa_task_id a) as [t|] eqn:Ht; [|by apply keeps_tasks].
  case_decide as Hs; [|by apply keeps_tasks]. eapply keeps_put; [exact Ht| |done]. intros Hwf. split.
  - apply wf_set_status; [done|by rewrite Hs|done].
  - split; try done; cbn; [rewrite Hs; right; constructor|]. intros r. unfold is_recipient_paid. cbn. rewrite Hs.
    by destruct (kind t) as [h|c|d].
Qed.

Lemma drop_attempts_tasks keys : forall tb l,
  tb_tasks (foldl drop_attempt (tb, l) keys).1 = tb_tasks tb.
Proof. induction keys as [|k keys IH]; intros tb l; [done|]. cbn. by rewrite IH. Qed.

Lemma drop_attempts_lookup keys : forall tb l k,
  tb_attempts (foldl drop_attempt (tb, l) keys).1 !! k =
  if decide (k ∈ keys) then None else tb_attempts tb !! k.
Proof.
  induction keys as [|j keys IH]; intros tb l k; cbn [foldl]; [by rewrite decide_False by set_solver|].
  cbn. rewrite IH. cbn. repeat case_decide; try set_solver.
  - assert (k = j) as -> by set_solver. by rewrite <-surjective_pairing, lookup_delete_eq.
  - rewrite lookup_delete_ne; [done|]. rewrite <-surjective_pairing. set_solver.
Qed.

Lemma mark_payout_failed_shape tb id tb' dropped :
  mark_payout_failed tb id = Ok (tb', dropped) ->
  exists t, tb_tasks tb !! id = Some t /\ is_settling (status t) = true /\
    tb_tasks tb' = <[id := set_status t PayoutFailed]> (tb_tasks tb) /\
    forall k, tb_attempts tb' !! k = if decide (k.1 = id) then None else tb_attempts tb !! k.
Proof.
  unfold mark_payout_failed. intros H. inv_ok.
  match goal with F : tb_tasks tb !! id = Some ?x |- _ => rename x into t end. exists t.
  split; [done|]. split; [done|].
  set (keys := base.filter _ _) in H.
  pose proof (drop_attempts_tasks keys (put_task tb id (set_status t PayoutFailed)) []) as Htasks.
  pose proof (drop_attempts_lookup keys (put_task tb id (set_status t PayoutFailed)) []) as Hatt.
  rewrite H in Htasks, Hatt. cbn in Htasks, Hatt. split; [done|]. intros k. rewrite Hatt.
  destruct (decide (k.1 = id)) as [Hk|Hk].
  - case_decide as Hin; [done|]. destruct (tb_attempts tb !! k) as [a|] eqn:Ea; [|done]. destruct Hin.
    unfold keys. rewrite list_elem_of_filter. split; [done|]. apply list_elem_of_fmap. exists (k, a).
    split; [done|]. by apply elem_of_btree_iter.
  - rewrite decide_False; [done|]. unfold keys. rewrite list_elem_of_filter. naive_solver.
Qed.

Lemma mark_payout_failed_keeps tb id tb' dropped :
  mark_payout_failed tb id = Ok (tb', dropped) -> keeps tb tb'.
Proof.
  intros H. destruct (mark_payout_failed_shape _ _ _ _ H) as (t & Ht & Hs & E & _).
  eapply keeps_put; [done| |exact E]. intros Hwf. split.
  - apply wf_set_status; [done|by apply settling_owes|done].
  - split; try done; cbn; [right; constructor; destruct (status t); try done; set_solver|].
    intros r. unfold is_recipient_paid. cbn.
    assert (status t <> Paid) by (by intros E'; rewrite E' in Hs).
    destruct (kind t) as [h|c|d]; try done; [|destruct (answers d); [|done]]; rewrite bool_decide_eq_false_2 by done; done.
Qed.
