(* ===== verification/BoardTheorems.v ===== *)
(** * BoardTheorems: what the marketplace promises

    The operations of the board as a step relation, and its properties: a
    task's payouts stay within its bounty, are fixed once they are decided and
    are each recorded once; its status follows the edges of [status_step];
    consensus is paid by exact majority; an escrow funds one task; what the
    payout rules conclude from the node's answers. *)

From S2P Require Import Prelude Types Crypto BoardTypes Exchange Tasks Board Payouts BoardInv BoardStep PayoutStep.

(** ** One operation of the board *)
Inductive board_step (tb : TaskBoard) : TaskBoard -> Prop :=
| bs_create id now who desc amount h :
    tb_tasks tb !! id = None -> board_step tb (create_task tb id now who desc amount h).1
| bs_create_consensus id now who desc amount num join_by window :
    tb_tasks tb !! id = None ->
    board_step tb (create_consensus_task tb id now who desc amount num join_by window).1
| bs_create_disputable id now who desc amount window :
    tb_tasks tb !! id = None ->
    board_step tb (create_disputable_task tb id now who desc amount window).1
| bs_min_reputation id n tb' : set_min_reputation tb id n = Ok tb' -> board_step tb tb'
| bs_capabilities id c tb' : set_capabilities tb id c = Ok tb' -> board_step tb tb'
| bs_cancel id tb' : cancel_task tb id = Ok tb' -> board_step tb tb'
| bs_reserve derive id now who amount for_ expires :
    board_step tb (reserve_escrow derive tb id now who amount for_ expires).1
| bs_confirm_escrow id task_id amount now created tb' t :
    tb_tasks tb !! task_id = None ->
    confirm_escrow tb id task_id amount now created = Ok (tb', t) -> board_step tb tb'
| bs_confirm_bond eid amount now tb' t :
    confirm_dispute_bond tb eid amount now = Ok (tb', t) -> board_step tb tb'
| bs_refunded id tb' : mark_escrow_refunded tb id = Ok tb' -> board_step tb tb'
| bs_claim id who deadline tb' : claim_task tb id who deadline = Ok tb' -> board_step tb tb'
| bs_join id who now tb' : join_consensus_task tb id who now = Ok tb' -> board_step tb tb'
| bs_submit id who h tb' b : submit tb id who h = Ok (tb', b) -> board_step tb tb'
| bs_contest_answer id who ans now tb' :
    submit_contest_answer tb id who ans now = Ok tb' -> board_step tb tb'
| bs_close_contest id who now tb' : close_contest tb id who now = Ok tb' -> board_step tb tb'
| bs_pick id caller who now tb' : pick_answer tb id caller who now = Ok tb' -> board_step tb tb'
| bs_consensus_answer id who ans now tb' b :
    submit_consensus_answer tb id who ans now = Ok (tb', b) -> board_step tb tb'
| bs_resolve_dispute id res tb' wl : resolve_dispute tb id res = Ok (tb', wl) -> board_step tb tb'
| bs_credit_bond pk amount tb' : credit_forfeited_bond tb pk amount = Ok tb' -> board_step tb tb'
| bs_close_unclosed now : board_step tb (close_unclosed_contests tb now).1
| bs_split now : board_step tb (split_unpicked_contests tb now).1
| bs_finalize now : board_step tb (finalize_unchallenged_disputable_tasks tb now).1
| bs_understaffed now : board_step tb (cancel_understaffed_consensus_tasks tb now).1
| bs_expire now : board_step tb (expire_claims tb now).1
| bs_expired_consensus now tb' ids :
    resolve_expired_consensus_tasks tb now = Ok (tb', ids) -> board_step tb tb'
| bs_paid id r amount now tb' full :
    mark_recipient_paid tb id r amount now = Ok (tb', full) -> board_step tb tb'
| bs_attempt a : board_step tb (record_payout_attempt tb a)
| bs_clear id r : board_step tb (clear_payout_attempt tb id r).1
| bs_failed id tb' dropped : mark_payout_failed tb id = Ok (tb', dropped) -> board_step tb tb'
| bs_grant pk at_ : board_step tb (record_faucet_grant tb pk at_).1
| bs_revoke pk : board_step tb (revoke_faucet_grant tb pk)
| bs_prefix pk p : board_step tb (record_faucet_grant_prefix tb pk p).

Create HintDb board.
#[export] Hint Resolve set_min_reputation_keeps set_capabilities_keeps cancel_task_keeps
  confirm_escrow_keeps confirm_dispute_bond_keeps claim_task_keeps join_consensus_task_keeps submit_keeps
  submit_contest_answer_keeps close_contest_keeps pick_answer_keeps submit_consensus_answer_keeps
  resolve_dispute_keeps close_unclosed_contests_keeps split_unpicked_contests_keeps
  finalize_unchallenged_disputable_tasks_keeps cancel_understaffed_consensus_tasks_keeps
  expire_claims_keeps resolve_expired_consensus_tasks_keeps mark_recipient_paid_keeps
  record_payout_attempt_keeps mark_payout_failed_keeps : board.

Lemma board_step_keeps tb tb' : board_step tb tb' -> keeps tb tb'.
Proof.
  destruct 1; eauto with board; try (by apply keeps_tasks).
  1-3: eapply keeps_new; [done| |reflexivity]; by apply new_task_wf.
  - apply keeps_tasks. unfold mark_escrow_refunded in H. inv_ok. by subst.
  - apply keeps_tasks. unfold credit_forfeited_bond in H. by apply add_earning_tasks in H.
Qed.

Lemma new_board_wf : board_wf new_board.
Proof. apply map_Forall_empty. Qed.

Lemma board_steps_wf tb tb' : rtc board_step tb tb' -> board_wf tb -> board_wf tb'.
Proof. induction 1 as [|tb tb1 tb' Hs _ IH]; [done|]. intros Hwf. apply IH. by apply board_step_keeps in Hs as []. Qed.

(** What a history does to a task. *)
Record history (t t' : Task) : Prop := {
  h_bounty : bounty t' = bounty t;
  h_poster : poster t' = poster t;
  h_escrow : escrow_id t' = escrow_id t;
  h_status : rtc status_step (status t) (status t');
  h_alloc : settled (status t) = true -> allocated_payouts t' ≡ₚ allocated_payouts t;
  h_paid : forall r, is_recipient_paid t r = true -> is_recipient_paid t' r = true
}.

Lemma terminal_no_step s s' : s ∈ [Paid; PayoutFailed; Closed] -> ~ status_step s s'.
Proof. intros Hs Hst. destruct Hst; set_solver. Qed.

Lemma settled_step s s' : status_step s s' -> settled s = true -> settled s' = true.
Proof. destruct 1; try done; set_solver. Qed.

Lemma settled_steps s s' : rtc status_step s s' -> settled s = true -> settled s' = true.
Proof. induction 1; eauto using settled_step. Qed.

Lemma evolves_history t t1 t' : evolves t t1 -> history t1 t' -> history t t'.
Proof.
  intros [A1 A2 A3 A4 A5 A6 A7] [B1 B2 B3 B4 B5 B6].
  assert (Hst : rtc status_step (status t) (status t1)).
  { destruct A5 as [->|A5]; [done|by apply rtc_once]. }
  split; try congruence; [by etrans| |auto].
  intros Hs. rewrite B5; [by apply A6|by eapply settled_steps].
Qed.

Lemma board_steps_history tb tb' id t :
  rtc board_step tb tb' -> board_wf tb -> tb_tasks tb !! id = Some t ->
  exists t', tb_tasks tb' !! id = Some t' /\ history t t'.
Proof.
  intros Hs. revert t. induction Hs as [tb|tb tb1 tb' Hs _ IH]; intros t Hwf Ht.
  - exists t. split; [done|]. by split.
  - apply board_step_keeps in Hs. destruct (Hs Hwf) as [Hwf1 Hev].
    destruct (Hev id t Ht) as (t1 & Ht1 & Hev1). destruct (IH t1 Hwf1 Ht1) as (t' & Ht' & Hh).
    exists t'. split; [done|]. by eapply evolves_history.
Qed.

(** ** Payouts stay within the bounty *)

(** C6: In every board reachable from the empty one, or from any well-formed one restored
    from disk (which may hold disputes from before contests), a task's allocated
    payouts sum to at most its bounty and name nobody twice; they are exactly the paid
    and the owed ones; nobody is paid before the payouts are fixed, nothing is owed
    once the task is Paid, and something is owed while it is Verified, Submitted or
    PayoutFailed. *)
Theorem reachable_payouts_within_bounty tb0 tb id t :
  (tb0 = new_board \/ board_wf tb0) -> rtc board_step tb0 tb -> tb_tasks tb !! id = Some t ->
  sumN (allocated_payouts t).*2 <= bounty t /\
  NoDup (allocated_payouts t).*1 /\
  paid_payouts t ++ owed_payouts t ≡ₚ allocated_payouts t /\
  (settled (status t) = false -> paid_payouts t = []) /\
  (status t = Paid -> owed_payouts t = []) /\
  (owes (status t) = true -> owed_payouts t <> []).
Proof.
  intros Hz Hr Ht. assert (Hwf0 : board_wf tb0) by (destruct Hz as [->|]; [apply new_board_wf|done]).
  assert (Hwf : task_wf id t) by (eapply board_steps_wf; eauto).
  split; [by eapply wf_allocated_sum|]. split; [by eapply wf_allocated_nodup|].
  split; [|split; [|split; [by eapply wf_paid_owes_nothing|by eapply wf_owes_something]]].
  - unfold paid_payouts, owed_payouts. induction (allocated_payouts t) as [|p l IH]; [done|].
    rewrite !filter_cons. destruct (is_recipient_paid t p.1).
    + rewrite decide_True, decide_False by done. by constructor.
    + rewrite decide_False, decide_True by done. rewrite <-Permutation_middle. by constructor.
  - intros Hs. apply elem_of_nil_inv. intros p Hp. apply list_elem_of_filter in Hp as [Hp _].
    by rewrite (unsettled_unpaid Hwf) in Hp.
Qed.

(** C29: Every operation of the board takes a board of well-formed tasks to one: a task is
    filed under its own id, its answers and assignees have distinct keys, shares sum
    to at most the bounty, only an allocated share is paid, and a settled task of one
    winner has a winner. *)
Theorem operations_preserve_task_type tb tb' :
  board_wf tb -> board_step tb tb' ->
  forall id t, tb_tasks tb' !! id = Some t ->
    t_id t = id /\ NoDup (s_key <$> slots t) /\ sumN (slot_amount <$> slots t) <= bounty t /\
    Forall (fun s => s_paid s = true -> is_Some (s_share s)) (slots t) /\
    (by_shares (kind t) = false -> settled (status t) = true -> is_Some (winner t)).
Proof.
  intros Hwf Hs id t Ht. destruct (board_step_keeps _ _ Hs Hwf) as [Hwf' _]. specialize (Hwf' _ _ Ht).
  split_and!; [apply Hwf'..| |apply Hwf']. eapply Forall_impl; [apply Hwf'|]. cbn. intros s Hp Hpaid.
  destruct (s_share s); [done|]. rewrite Hp in Hpaid by done. discriminate.
Qed.

(** Over any history a task keeps its bounty and poster, its status follows the edges of
    its life cycle, Paid, PayoutFailed and Closed are final, and once its payouts are
    fixed they never change, never revert, and paid recipients stay paid. *)
Theorem task_lifecycle tb tb' id t :
  board_wf tb -> rtc board_step tb tb' -> tb_tasks tb !! id = Some t ->
  exists t', tb_tasks tb' !! id = Some t' /\ bounty t' = bounty t /\ poster t' = poster t /\
    rtc status_step (status t) (status t') /\
    (status t ∈ [Paid; PayoutFailed; Closed] -> status t' = status t) /\
    (settled (status t) = true ->
       settled (status t') = true /\ allocated_payouts t' ≡ₚ allocated_payouts t /\
       forall r, is_recipient_paid t r = true -> is_recipient_paid t' r = true).
Proof.
  intros Hwf Hs Ht. destruct (board_steps_history _ _ _ _ Hs Hwf Ht) as (t' & Ht' & [H1 H2 He H3 H4 H5]).
  exists t'. split; [done|]. split; [done|]. split; [done|]. split; [done|]. split.
  - intros Hterm. destruct (rtc_inv _ _ H3) as [E|(s & Hst & _)]; [done|].
    destruct (terminal_no_step _ _ Hterm Hst).
  - intros Hset. split; [by eapply settled_steps|]. auto.
Qed.

(** A successful mark_recipient_paid moves exactly one payout from owed to paid and
    credits the recipient once, or changes nothing because that leg was already paid;
    it reports full payment exactly when nothing is owed; and repeating it for the
    same recipient is refused (task Paid) or changes nothing. *)
Theorem payment_is_recorded_once tb id r amount now tb' full :
  board_wf tb -> mark_recipient_paid tb id r amount now = Ok (tb', full) ->
  exists t t', tb_tasks tb !! id = Some t /\ tb_tasks tb' !! id = Some t' /\
    ((tb' = tb /\ full = false /\ is_recipient_paid t r = true) \/
     (exists x, owed_payouts t ≡ₚ (r, x) :: owed_payouts t' /\ paid_payouts t' ≡ₚ (r, x) :: paid_payouts t /\
        (full = true <-> owed_payouts t' = []) /\
        status t' = (if full then Paid else status t) /\
        total_earned (reputation tb' r) = total_earned (reputation tb r) + amount)) /\
    forall amount2 now2,
      mark_recipient_paid tb' id r amount2 now2 = if full then Err NotVerified else Ok (tb', false).
Proof.
  intros Hwf Hm. destruct (mark_recipient_paid_spec _ _ _ _ _ _ _ Hwf Hm) as (t & Ht & Hs & Hcase).
  destruct Hcase as [(-> & -> & Hp)|(t' & [R1 R2 (x & R3a & R3b) R4 R5] & E & Hrep & _)].
  - exists t, t. split; [done|]. split; [done|]. split; [by left|]. intros a2 n2.
    apply (mark_repaid tb id t); eauto.
  - assert (Ht' : tb_tasks tb' !! id = Some t') by (rewrite E; apply lookup_insert_eq).
    exists t, t'. split; [done|]. split; [done|]. split; [right; by exists x|]. intros a2 n2.
    destruct full.
    + unfold mark_recipient_paid. rewrite Ht'. cbn. by rewrite R5.
    + apply (mark_repaid tb' id t'); [done|done|by rewrite R5|].
      apply (elem_of_paid_payouts t' r x). rewrite R3b. by left.
Qed.

(** ** Consensus *)
Lemma reputation_with_tasks tb x pk : reputation (with_tasks tb x) pk = reputation tb pk.
Proof. done. Qed.

Lemma add_failure_reputation tb pk tb' :
  add_failure tb pk = Ok tb' ->
  forall q, reputation tb' q = if decide (q = pk)
    then mkReputation (completed (reputation tb pk)) (failed (reputation tb pk) + 1) (total_earned (reputation tb pk))
    else reputation tb q.
Proof.
  unfold add_failure. intros H. inv_ok. subst tb'. intros q. rewrite reputation_put.
  match goal with F : add64 _ _ = Ok _ |- _ => by apply add64_Ok in F as [-> _] end.
Qed.

Lemma add_failures_reputation l : forall tb tb',
  NoDup l -> ofold add_failure tb l = Ok tb' ->
  forall q, reputation tb' q = if decide (q ∈ l)
    then mkReputation (completed (reputation tb q)) (failed (reputation tb q) + 1) (total_earned (reputation tb q))
    else reputation tb q.
Proof.
  induction l as [|pk l IH]; intros tb tb' Hnd H q; cbn in H; inv_ok.
  { subst. by rewrite decide_False by set_solver. }
  apply NoDup_cons in Hnd as [Hpk Hnd]. rewrite (IH _ _ Hnd H q).
  match goal with F : add_failure _ _ = Ok _ |- _ => rewrite (add_failure_reputation _ _ _ F q) end.
  repeat case_decide; subst; try done; set_solver.
Qed.

Lemma losers_of_spec w m : NoDup (losers_of w m) /\
  forall k, k ∈ losers_of w m <-> exists a, m !! k = Some a /\ a_answer a <> Some w.
Proof.
  unfold losers_of. split.
  - eapply sublist_NoDup; [|apply fmap_sublist, sublist_filter]. rewrite btree_iter_perm.
    apply NoDup_fst_map_to_list.
  - intros k. rewrite list_elem_of_fmap. setoid_rewrite list_elem_of_filter. split.
    + intros ([k' a] & -> & Hn & Hin). apply elem_of_btree_iter in Hin. eauto.
    + intros (a & Ha & Hn). exists (k, a). split; [done|]. split; [done|]. by apply elem_of_btree_iter.
Qed.

(** C17: resolve_consensus pays the answer held by strictly more than half of all
    assignees, each winner the bounty divided by the winners, and records one failure
    for every other assignee; without such an answer the task closes with NoMajority
    and no reputation changes. *)
Theorem consensus_pays_exact_majority tb id t c tb' :
  tb_tasks tb !! id = Some t -> kind t = Consensus c -> resolve_consensus tb id = Ok tb' ->
  exists t', tb_tasks tb' !! id = Some t' /\
    ((exists w c', let n := votes_for w (assignees c) in
        (size (assignees c) < 2 * n)%nat /\ status t' = Verified /\ kind t' = Consensus c' /\
        (forall k a, assignees c !! k = Some a -> assignees c' !! k =
           Some (if decide (a_answer a = Some w)
                 then mkAssignment (a_answer a) (a_paid a) (Some (bounty t / N.of_nat n)) else a)) /\
        (forall k, failed (reputation tb' k) = failed (reputation tb k) +
           match assignees c !! k with
           | Some a => if decide (a_answer a = Some w) then 0 else 1
           | None => 0
           end)) \/
     ((forall w, (2 * votes_for w (assignees c) <= size (assignees c))%nat) /\
        status t' = Closed /\ close_reason t' = Some NoMajority /\ kind t' = kind t /\
        forall k, reputation tb' k = reputation tb k)).
Proof.
  intros Ht Hk. unfold resolve_consensus. rewrite Ht, Hk.
  destruct (majority_answer (assignees c)) as [w|] eqn:Hm; intros H; inv_ok; subst tb'.
  - apply majority_answer_spec in Hm. eexists. split; [apply lookup_insert_eq|]. left.
    exists w. eexists. split; [done|]. split; [done|]. split; [done|]. split.
    + intros k a Ha. cbn. unfold share_winners. rewrite lookup_fmap, Ha. cbn.
      by rewrite N.max_l by lia.
    + intros k. match goal with F : ofold _ _ _ = Ok _ |- _ => rename F into Hf end.
      destruct (losers_of_spec w (assignees c)) as [Hnd Hin]. unfold put_task. rewrite reputation_with_tasks.
      rewrite (add_failures_reputation _ _ _ Hnd Hf k). specialize (Hin k).
      destruct (assignees c !! k) as [a|]; repeat case_decide; cbn; try lia; naive_solver.
  - eexists. split; [apply lookup_insert_eq|]. right. split; [|done]. intros w.
    destruct (Nat.le_gt_cases (2 * votes_for w (assignees c)) (size (assignees c))) as [Hle|Hgt]; [done|].
    apply majority_answer_spec in Hgt. congruence.
Qed.

(** ** No panics *)
Section no_panic.
Context (tb : TaskBoard) (Hroom : forall pk, failed (reputation tb pk) < U64_MAX).

Lemma add_failure_runs tb0 pk :
  failed (reputation tb0 pk) < U64_MAX -> exists tb', add_failure tb0 pk = Ok tb'.
Proof. intros Hr. unfold add_failure. rewrite add64_fits by lia. eauto. Qed.

Lemma add_failures_run l : forall tb0,
  NoDup l -> (forall pk, pk ∈ l -> failed (reputation tb0 pk) < U64_MAX) ->
  ofold add_failure tb0 l <> Panic.
Proof.
  induction l as [|pk l IH]; intros tb0 Hnd Hr; [done|]. apply NoDup_cons in Hnd as [Hpk Hnd].
  destruct (add_failure_runs tb0 pk) as [tb1 E]; [apply Hr; by left|]. cbn. rewrite E. cbn. apply IH; [done|].
  intros q Hq. rewrite (add_failure_reputation _ _ _ E), decide_False by congruence. apply Hr. by right.
Qed.

Lemma resolve_consensus_runs tb0 id :
  (forall pk, failed (reputation tb0 pk) < U64_MAX) -> resolve_consensus tb0 id <> Panic.
Proof.
  intros Hr. unfold resolve_consensus. repeat case_match; try done.
  apply bind_not_Panic; [|done]. apply add_failures_run; [apply losers_of_spec|auto].
Qed.

Lemma check_deposit_runs d amount now : check_deposit d amount now <> Panic.
Proof. unfold check_deposit. eauto with no_panic. Qed.

(** On a well-formed board whose failure counters have room, resolving a dispute,
    confirming a bond, answering a consensus task and confirming an escrow never
    panic: the expectations of the code hold. *)
Theorem expectations_hold (Hwf : board_wf tb) :
  (forall id res, resolve_dispute tb id res <> Panic) /\
  (forall eid amount now, confirm_dispute_bond tb eid amount now <> Panic) /\
  (forall id who ans now, submit_consensus_answer tb id who ans now <> Panic) /\
  (forall id task_id amount now created, confirm_escrow tb id task_id amount now created <> Panic).
Proof.
  split_and!.
  - intros id res. unfold resolve_dispute. apply bind_not_Panic; [apply ok_or_not_Panic|].
    intros t Ht. apply ok_or_Ok in Ht. apply bind_not_Panic; [apply guard_not_Panic|].
    intros [] Hst. apply guard_Ok in Hst. guards. pose proof (wf_shape _ _ (Hwf id t Ht)) as Hsh.
    unfold kind_shape in Hsh. destruct (kind t) as [h|c|d]; [set_solver..|].
    destruct Hsh as (_ & _ & _ & _ & Hd). destruct (Hd Hst) as [[who Hw] [x Hx]]. rewrite Hw. cbn. rewrite Hx. cbn.
    destruct res; match goal with |- context [add_failure tb ?l] =>
      destruct (add_failure_runs tb l (Hroom l)) as [tb' ->] end; done.
  - intros eid amount now. unfold confirm_dispute_bond. apply bind_not_Panic; [apply ok_or_not_Panic|].
    intros d Hd. destruct (purpose d); try done. cbn. apply bind_not_Panic; [apply check_deposit_runs|].
    intros _ _. apply bind_not_Panic; [apply ok_or_not_Panic|]. intros t Ht. apply ok_or_Ok in Ht.
    pose proof (wf_shape _ _ (Hwf _ t Ht)) as Hsh. unfold kind_shape in Hsh.
    destruct (kind t) as [h|c|df]; [done..|]. cbn. apply bind_not_Panic; [apply guard_not_Panic|].
    intros [] Hst. apply guard_Ok in Hst. guards. destruct Hsh as (_ & _ & _ & Hdl & _).
    destruct (Hdl Hst) as [[dl ->] _]. cbn. eauto with no_panic.
  - intros id who ans now. unfold submit_consensus_answer. apply bind_not_Panic; [apply ok_or_not_Panic|].
    intros t Ht. apply ok_or_Ok in Ht. pose proof (wf_shape _ _ (Hwf _ t Ht)) as Hsh. unfold kind_shape in Hsh.
    destruct (kind t) as [h|c|df]; [done| |done]. cbn. apply bind_not_Panic; [apply guard_not_Panic|].
    intros [] Hst. apply guard_Ok in Hst. guards. destruct Hsh as (Hdl & _). destruct (Hdl Hst) as [dl ->]. cbn.
    apply bind_not_Panic; [apply guard_not_Panic|intros _ _]. apply bind_not_Panic; [apply ok_or_not_Panic|].
    intros a Ha. apply bind_not_Panic; [apply guard_not_Panic|intros _ _]. case_match; [|done].
    apply bind_not_Panic; [|done]. by apply resolve_consensus_runs.
  - intros id task_id amount now created. pose proof (confirm_escrow_shape tb id task_id amount now created) as Hs.
    by destruct (confirm_escrow tb id task_id amount now created).
Qed.

End no_panic.

(** ** Contests *)

Lemma blank_payouts l : Forall blank l -> omap slot_payout l = [].
Proof. induction 1 as [|s l [Hs _] _ IH]; [done|]. by rewrite slot_payouts_cons, Hs. Qed.

Lemma picked_payouts t d i a x :
  Forall blank (answer_slot <$> answers d) -> answers d !! i = Some a ->
  allocated_payouts (set_status (set_kind t (Disputable (with_picked (with_answers d
    (<[i := set_answer_share a (Some x)]> (answers d))) (Some (ca_pubkey a))))) Verified) = [(ca_pubkey a, x)].
Proof.
  intros Hb Hi. pose proof (lookup_lt_Some _ _ _ Hi). rewrite allocated_by_shares.
  - cbn. rewrite insert_take_drop by done. rewrite <-(take_drop_middle _ i a Hi) in Hb.
    rewrite !fmap_app, !fmap_cons in *. apply Forall_app in Hb as [H1 H2]. inversion H2; subst.
    rewrite omap_app, slot_payouts_cons, !blank_payouts by done. done.
  - cbn. destruct (<[i:=_]> (answers d)) eqn:E; [|done]. apply (f_equal length) in E.
    rewrite length_insert in E. cbn in E. lia.
Qed.

Lemma split_payouts t d x :
  answers d <> [] -> x = bounty t / N.of_nat (length (answers d)) ->
  let t' := set_status (set_kind t (Disputable (with_answers d
              ((fun a => set_answer_share a (Some x)) <$> answers d)))) Verified in
  allocated_payouts t' = (fun a => (ca_pubkey a, x)) <$> answers d /\
  bounty t < sumN (allocated_payouts t').*2 + N.of_nat (length (answers d)).
Proof.
  intros Hne Hx t'. assert (Ha : allocated_payouts t' = (fun a => (ca_pubkey a, x)) <$> answers d).
  { rewrite allocated_by_shares; [|cbn; by destruct (answers d)]. cbn. rewrite !omap_fmap.
    clear. induction (answers d) as [|a l IH]; [done|]. cbn. by f_equal. }
  split; [done|]. rewrite Ha, <-list_fmap_compose.
  rewrite (sumN_const _ _ x) by done. subst x.
  pose proof (N.div_mod (bounty t) (N.of_nat (length (answers d)))) as Hd.
  pose proof (N.mod_lt (bounty t) (N.of_nat (length (answers d)))) as Hm.
  destruct (answers d); [done|]. cbn [length] in *. lia.
Qed.

(** A contest awaiting its pick pays the whole bounty to the answer its poster picks in
    time; past the deadline every answer gets the bounty divided by the answers,
    leaving less than one unit per answer. *)
Theorem contest_pays_the_pick_or_splits_evenly tb id t d now :
  tb_tasks tb !! id = Some t -> task_wf id t -> kind t = Disputable d -> status t = AwaitingPick ->
  (forall caller who tb', pick_answer tb id caller who now = Ok tb' ->
     exists t', tb_tasks tb' !! id = Some t' /\ status t' = Verified /\ caller = poster t /\
       (now <= default now (pick_deadline d))%Z /\ allocated_payouts t' = [(who, bounty t)]) /\
  (past (pick_deadline d) now = true ->
     exists t', tb_tasks (split_unpicked_contests tb now).1 !! id = Some t' /\ status t' = Verified /\
       allocated_payouts t' =
         (fun a => (ca_pubkey a, bounty t / N.of_nat (length (answers d)))) <$> answers d /\
       bounty t < sumN (allocated_payouts t').*2 + N.of_nat (length (answers d))).
Proof.
  intros Ht Hwf Hk Hst. assert (Hb : Forall blank (slots t)) by (eapply wf_blank; [done|by rewrite Hst]).
  rewrite Hk in Hb. split.
  - intros caller who tb'. unfold pick_answer. rewrite Ht. cbn. rewrite Hk. cbn. intros H. inv_ok. guards.
    match goal with F : find_answer _ _ = Some ?p |- _ => destruct p as [i a]; rename F into Hf end.
    apply find_answer_Some in Hf as [Hi <-]. inv_ok. subst tb'. eexists. split; [apply lookup_insert_eq|].
    split; [done|]. split; [done|]. split; [|by apply picked_payouts].
    match goal with F : past _ _ = false |- _ => revert F end. unfold past.
    destruct (pick_deadline d); cbn; [|lia]. by intros ?%Z.ltb_ge.
  - intros Hp. assert (Hne : answers d <> []).
    { pose proof (wf_shape _ _ Hwf) as Hsh. unfold kind_shape in Hsh. rewrite Hk in Hsh. by apply Hsh. }
    assert (Hlen : N.max (N.of_nat (length (answers d))) 1 = N.of_nat (length (answers d)))
      by (destruct (answers d); [done|cbn [length]; lia]).
    cbn. rewrite lookup_fmap, Ht. cbn. unfold split_unpicked. rewrite Hst, Hk, Hp. cbn. rewrite Hlen.
    eexists. split; [done|]. split; [done|]. apply split_payouts; done.
Qed.

(** ** Escrow *)

(** Confirming an escrow needs a reserved, unexpired deposit with at least the required
    amount, creates the intended task for its depositor tied to the deposit, consumes
    the deposit, and can never succeed again for it. *)
Theorem escrow_funds_one_task tb id task_id amount now created tb' t' :
  confirm_escrow tb id task_id amount now created = Ok (tb', t') ->
  exists d t0, tb_deposits tb !! id = Some d /\ pd_status d = Reserved /\ required_amount d <= amount /\
    (now <= expires_at d)%Z /\ intended_task d task_id now created = Some t0 /\
    tb_tasks tb' = <[task_id := t']> (tb_tasks tb) /\ escrow_id t' = Some id /\
    (bounty t', kind t', poster t', status t') = (bounty t0, kind t0, depositor d, Open) /\
    escrow_for_task tb' task_id = Some (set_deposit_status Consumed d) /\
    forall task_id2 amount2 now2 created2, confirm_escrow tb' id task_id2 amount2 now2 created2 = Err EscrowNotReserved.
Proof.
  intros H. pose proof (confirm_escrow_shape tb id task_id amount now created) as Hs. rewrite H in Hs.
  destruct Hs as (d & t0 & Hd & Hst & Ham & Hex & Hint & Hdep & Htask & _ & Hesc & Hf).
  exists d, t0. injection Hf as F1 F2 F3 F4 F5 F6.
  assert (Hp : poster t0 = depositor d /\ status t0 = Open /\ match purpose d with
            | DisputeBond _ _ | FundExchangeAccount => False | _ => True end).
  { unfold intended_task in Hint. destruct (purpose d); simplify_eq; done. }
  destruct Hp as (Hp1 & Hp2 & Hp3). split_and!; try done.
  - by rewrite F3, F4, F5, F6, Hp1, Hp2.
  - unfold escrow_for_task. rewrite Htask, lookup_insert_eq. cbn. rewrite Hesc. cbn.
    by rewrite Hdep, lookup_insert_eq.
  - intros i2 a2 n2 c2. unfold confirm_escrow. rewrite Hdep, lookup_insert_eq. cbn.
    destruct (purpose d); done.
Qed.

(** ** Cancelling *)

(** What cancel_task answers in each status: refused once money is owed or a dispute is
    open. *)
Theorem cancel_task_exact tb id :
  cancel_task tb id =
  match tb_tasks tb !! id with
  | None => Err NotFound
  | Some t =>
      match status t with
      | Open | Claimed | AwaitingDispute | AwaitingPick => Ok (put_task tb id (set_close t CancelledByOperator))
      | Disputed => Err CannotCancelWhileDisputed
      | Verified | Submitted | Paid | PayoutFailed | Closed => Err AlreadyTerminal
      end
  end.
Proof. unfold cancel_task. destruct (tb_tasks tb !! id) as [t|]; [|done]. cbn. by destruct (status t). Qed.

(** ** Payout attempts *)

Lemma submitted_pending t :
  status t = Verified -> pending_payouts (set_status t Submitted) = pending_payouts t.
Proof.
  intros Hs. unfold pending_payouts. cbn. rewrite Hs. cbn. unfold owed_payouts.
  replace (allocated_payouts (set_status t Submitted)) with (allocated_payouts t) by done.
  apply list_filter_iff. intros p. unfold is_recipient_paid. cbn. by rewrite Hs.
Qed.

(** After a payout attempt is recorded, what is left to send never includes a recipient
    with an attempt in flight, and a Verified task becomes Submitted exactly when
    nothing is left to send. *)
Theorem attempts_guard_resending tb a :
  let tb' := record_payout_attempt tb a in
  (forall id p, p ∈ unsubmitted_payouts tb' id -> payout_attempt tb' id p.1 = None) /\
  (forall n, (pa_recipient a, n) ∉ unsubmitted_payouts tb' (pa_task_id a)) /\
  (forall t, tb_tasks tb !! pa_task_id a = Some t -> status t = Verified ->
     exists t', tb_tasks tb' !! pa_task_id a = Some t' /\ pending_payouts t' = pending_payouts t /\
       (status t' = Submitted <-> unsubmitted_payouts tb' (pa_task_id a) = [])).
Proof.
  intros tb'. assert (Hatt : tb_attempts tb' = <[(pa_task_id a, pa_recipient a) := a]> (tb_attempts tb)).
  { unfold tb', record_payout_attempt. repeat case_match; done. }
  assert (Hun : forall id p, p ∈ unsubmitted_payouts tb' id -> payout_attempt tb' id p.1 = None).
  { intros id p. unfold unsubmitted_payouts. destruct (tb_tasks tb' !! id); [|set_solver].
    by intros [? _]%list_elem_of_filter. }
  split; [done|]. split.
  - intros n Hn. apply Hun in Hn. unfold payout_attempt in Hn. cbn in Hn.
    by rewrite Hatt, lookup_insert_eq in Hn.
  - intros t Ht Hst. unfold tb', record_payout_attempt.
    destruct (unsubmitted_payouts (restore_payout_attempt tb a) (pa_task_id a)) as [|p l] eqn:E.
    + cbn. rewrite Ht, decide_True by done. exists (set_status t Submitted).
      assert (Hp : pending_payouts (set_status t Submitted) = pending_payouts t) by (by apply submitted_pending).
      split; [apply lookup_insert_eq|]. split; [done|]. split; [|done]. intros _.
      unfold unsubmitted_payouts, put_task in *. cbn [with_tasks with_attempts restore_payout_attempt tb_tasks tb_attempts] in *.
      rewrite lookup_insert_eq. rewrite Ht in E. by rewrite Hp.
    + exists t. split; [done|]. split; [done|]. rewrite E, Hst. done.
Qed.

Section resolution.
Context `{Primitives}.

(** A payout attempt resolves to Confirmed, NeverLanded, HeldInMempool or Ambiguous
    exactly by whether its output is at the recipient, whether it has inputs, and
    whether each of them is missing, marked or free at the source. *)
Theorem resolution_exact a recipient_utxos source_utxos :
  let landed := exists e, e ∈ recipient_utxos /\ output_hash e.2 = pa_output_hash a in
  let missing := exists h, h ∈ pa_spent_inputs a /\ input_state source_utxos h = None in
  let marked := exists h, h ∈ pa_spent_inputs a /\ input_state source_utxos h = Some true in
  let o := attempt_resolve a recipient_utxos source_utxos in
  (o = Confirmed <-> landed) /\
  (o = NeverLanded <-> ~ landed /\ pa_spent_inputs a <> [] /\
     forall h, h ∈ pa_spent_inputs a -> input_state source_utxos h = Some false) /\
  (o = HeldInMempool <-> ~ landed /\ ~ missing /\ marked) /\
  (o = Ambiguous <-> ~ landed /\ (pa_spent_inputs a = [] \/ missing)).
Proof.
  intros landed missing marked o.
  assert (Hl : existsb (fun e => output_hash e.2 =? pa_output_hash a) recipient_utxos = true <-> landed).
  { rewrite existsb_elem. by setoid_rewrite N.eqb_eq. }
  pose proof (scan_vanished source_utxos (pa_spent_inputs a)) as Hv. fold missing in Hv.
  pose proof (scan_marked source_utxos (pa_spent_inputs a)) as Hm. fold marked in Hm.
  assert (Hfree : ~ missing /\ ~ marked <->
    forall h, h ∈ pa_spent_inputs a -> input_state source_utxos h = Some false).
  { unfold missing, marked. split.
    - intros [H1 H2] h Hh. destruct (input_state source_utxos h) as [[]|] eqn:E; [|done|]; naive_solver.
    - intros Hf. split; intros (h & Hh & E); rewrite (Hf h Hh) in E; done. }
  unfold o, attempt_resolve, resolve_against. destruct (existsb _ recipient_utxos).
  { assert landed by (by apply Hl). naive_solver. }
  assert (~ landed) by (rewrite <-Hl; done). clear Hl.
  destruct (pa_spent_inputs a) as [|h0 l0] eqn:El.
  { assert (~ missing) by (unfold missing; set_solver). assert (~ marked) by (unfold marked; set_solver).
    naive_solver. }
  destruct (scan_inputs source_utxos (h0 :: l0)) as [[] []]; cbn in Hv, Hm; rewrite <-Hfree; naive_solver.
Qed.

End resolution.

(** * BoardFunding: deposits stay, and every escrowed task has one

    Which operations of the board keep its deposits and its set of tasks
    ([calm]), and that a task created from an escrow always finds its deposit
    ([funded]). *)

(** ** Board operations keep the deposits, and fund the tasks they create *)

(** No deposit is lost and no task is created. *)
Definition calm (tb tb' : TaskBoard) : Prop :=
  (forall e, is_Some (tb_deposits tb !! e) -> is_Some (tb_deposits tb' !! e)) /\
  forall i, tb_tasks tb' !! i = None <-> tb_tasks tb !! i = None.

Lemma calm_refl tb : calm tb tb.
Proof. by split. Qed.
Lemma calm_trans tb1 tb2 tb3 : calm tb1 tb2 -> calm tb2 tb3 -> calm tb1 tb3.
Proof. intros [E1 T1] [E2 T2]. split; [auto|]. intros i. by rewrite T2, T1. Qed.
Lemma calm_put tb tb' id t t' :
  tb_tasks tb !! id = Some t -> tb_deposits tb' = tb_deposits tb -> tb_tasks tb' = <[id := t']> (tb_tasks tb) -> calm tb tb'.
Proof.
  intros Ht Ed Et. split; [by rewrite Ed|]. intros i. rewrite Et, lookup_insert_None. split; [by intros [? _]|].
  intros Hn. split; [done|]. intros <-. congruence.
Qed.
Lemma calm_sweep f tb : calm tb (sweep f tb).1.
Proof. split; [done|]. intros i. cbn. by rewrite lookup_fmap, fmap_None. Qed.
Lemma calm_put_task tb tb1 id t t' : calm tb tb1 -> tb_tasks tb !! id = Some t -> calm tb (put_task tb1 id t').
Proof.
  intros Hc Ht. eapply calm_trans; [exact Hc|]. destruct (tb_tasks tb1 !! id) as [u|] eqn:Eu; [by eapply calm_put|].
  apply Hc in Eu. congruence.
Qed.
Lemma calm_failure tb tb1 pk tb' : add_failure tb1 pk = Ok tb' -> calm tb tb1 -> calm tb tb'.
Proof. unfold add_failure. intros Ha. inv_ok. subst. intros Hc. by eapply calm_trans. Qed.
Lemma calm_earning tb tb1 pk amount b tb' : add_earning tb1 pk amount b = Ok tb' -> calm tb tb1 -> calm tb tb'.
Proof. unfold add_earning. intros Ha. inv_ok. subst. intros Hc. by eapply calm_trans. Qed.
Lemma calm_fold {B} (f : TaskBoard -> B -> outcome BoardError TaskBoard) l :
  (forall tb tb1 b tb', f tb1 b = Ok tb' -> calm tb tb1 -> calm tb tb') ->
  forall tb tb1 tb', ofold f tb1 l = Ok tb' -> calm tb tb1 -> calm tb tb'.
Proof.
  intros Hf. induction l as [|b l IH]; intros tb tb1 tb' Ho Hc; cbn in Ho; inv_ok; [by subst|]. eauto.
Qed.
Lemma calm_resolve_consensus tb tb1 id tb' : resolve_consensus tb1 id = Ok tb' -> calm tb tb1 -> calm tb tb'.
Proof.
  unfold resolve_consensus. intros Hr Hc. eapply calm_trans; [exact Hc|].
  repeat case_match; inv_ok; subst; try apply calm_refl; (eapply calm_put_task; [|done]); [|apply calm_refl].
  eapply calm_fold; [apply calm_failure|done|apply calm_refl].
Qed.

Lemma calm_put_deposit tb tb1 e d : calm tb tb1 -> calm tb (with_deposits tb1 (<[e := d]> (tb_deposits tb1))).
Proof.
  intros Hc. eapply calm_trans; [exact Hc|]. split; [|done]. intros e' He. cbn. destruct (decide (e' = e)) as [->|Hne].
  - rewrite lookup_insert_eq. eauto.
  - by rewrite lookup_insert_ne.
Qed.

Create HintDb calm.
#[export] Hint Resolve calm_refl calm_sweep calm_failure calm_earning calm_resolve_consensus calm_put_task
  calm_put_deposit : calm.

(** Open the runs of an operation [f] that updates tasks. *)
Ltac calm_run f := unfold f; intros; inv_ok; repeat (case_match; inv_ok); simplify_eq; eauto with calm.

Lemma set_min_reputation_calm tb id n tb' : set_min_reputation tb id n = Ok tb' -> calm tb tb'.
Proof. calm_run set_min_reputation. Qed.
Lemma set_capabilities_calm tb id c tb' : set_capabilities tb id c = Ok tb' -> calm tb tb'.
Proof. calm_run set_capabilities. Qed.
Lemma cancel_task_calm tb id tb' : cancel_task tb id = Ok tb' -> calm tb tb'.
Proof. calm_run cancel_task. Qed.
Lemma claim_task_calm tb id who deadline tb' : claim_task tb id who deadline = Ok tb' -> calm tb tb'.
Proof. calm_run claim_task. Qed.
Lemma join_consensus_task_calm tb id who now tb' : join_consensus_task tb id who now = Ok tb' -> calm tb tb'.
Proof. calm_run join_consensus_task. Qed.
Lemma submit_calm tb id who h tb' b : submit tb id who h = Ok (tb', b) -> calm tb tb'.
Proof. calm_run submit. Qed.
Lemma submit_contest_answer_calm tb id who ans now tb' : submit_contest_answer tb id who ans now = Ok tb' -> calm tb tb'.
Proof. calm_run submit_contest_answer. Qed.
Lemma close_contest_calm tb id who now tb' : close_contest tb id who now = Ok tb' -> calm tb tb'.
Proof. calm_run close_contest. Qed.
Lemma pick_answer_calm tb id caller who now tb' : pick_answer tb id caller who now = Ok tb' -> calm tb tb'.
Proof. calm_run pick_answer. Qed.
Lemma submit_consensus_answer_calm tb id who ans now tb' b : submit_consensus_answer tb id who ans now = Ok (tb', b) -> calm tb tb'.
Proof. calm_run submit_consensus_answer. Qed.
Lemma resolve_dispute_calm tb id res tb' wl : resolve_dispute tb id res = Ok (tb', wl) -> calm tb tb'.
Proof. calm_run resolve_dispute. Qed.
Lemma mark_recipient_paid_calm tb id r amount now tb' full : mark_recipient_paid tb id r amount now = Ok (tb', full) -> calm tb tb'.
Proof. calm_run mark_recipient_paid. Qed.

Lemma confirm_dispute_bond_calm tb eid amount now tb' t :
  confirm_dispute_bond tb eid amount now = Ok (tb', t) -> calm tb tb'.
Proof. calm_run confirm_dispute_bond. Qed.
Lemma mark_escrow_refunded_calm tb id tb' : mark_escrow_refunded tb id = Ok tb' -> calm tb tb'.
Proof. calm_run mark_escrow_refunded. Qed.
Lemma credit_forfeited_bond_calm tb pk amount tb' : credit_forfeited_bond tb pk amount = Ok tb' -> calm tb tb'.
Proof. calm_run credit_forfeited_bond. Qed.
Lemma reserve_escrow_calm derive tb id now who amount for_ expires :
  calm tb (reserve_escrow derive tb id now who amount for_ expires).1.
Proof. unfold reserve_escrow, put_deposit. cbn. eauto with calm. Qed.
Lemma resolve_expired_consensus_tasks_calm tb now tb' ids :
  resolve_expired_consensus_tasks tb now = Ok (tb', ids) -> calm tb tb'.
Proof.
  unfold resolve_expired_consensus_tasks. intros Hr. inv_ok. simplify_eq.
  eapply calm_fold; [apply calm_resolve_consensus|done|apply calm_refl].
Qed.
Lemma record_payout_attempt_calm tb a : calm tb (record_payout_attempt tb a).
Proof.
  unfold record_payout_attempt. repeat case_match; try (by split); by eapply calm_put.
Qed.
Lemma drop_attempts_deposits ks : forall tb l, tb_deposits (foldl drop_attempt (tb, l) ks).1 = tb_deposits tb.
Proof. induction ks as [|k ks IH]; intros tb l; [done|]. cbn. by rewrite IH. Qed.
Lemma mark_payout_failed_calm tb id tb' dropped : mark_payout_failed tb id = Ok (tb', dropped) -> calm tb tb'.
Proof.
  intros Hm. destruct (mark_payout_failed_shape _ _ _ _ Hm) as (t & Ht & _ & Et & _).
  unfold mark_payout_failed in Hm. inv_ok. eapply calm_put; [done| |exact Et].
  match type of Hm with ?r = _ => change tb' with ((tb', dropped).1); rewrite <-Hm end.
  by rewrite drop_attempts_deposits.
Qed.

#[export] Hint Resolve set_min_reputation_calm set_capabilities_calm cancel_task_calm claim_task_calm
  join_consensus_task_calm submit_calm submit_contest_answer_calm close_contest_calm pick_answer_calm
  submit_consensus_answer_calm resolve_dispute_calm mark_recipient_paid_calm confirm_dispute_bond_calm
  mark_escrow_refunded_calm credit_forfeited_bond_calm reserve_escrow_calm
  resolve_expired_consensus_tasks_calm record_payout_attempt_calm mark_payout_failed_calm : calm.

(** ** Every escrowed task has its deposit *)
Definition funded (tb : TaskBoard) : Prop :=
  forall id t e, tb_tasks tb !! id = Some t -> escrow_id t = Some e -> is_Some (tb_deposits tb !! e).

Lemma funded_evolves tb tb' :
  board_evolves tb tb' -> (forall e, is_Some (tb_deposits tb !! e) -> is_Some (tb_deposits tb' !! e)) ->
  (forall i t' e, tb_tasks tb' !! i = Some t' -> tb_tasks tb !! i = None -> escrow_id t' = Some e ->
     is_Some (tb_deposits tb' !! e)) ->
  funded tb -> funded tb'.
Proof.
  intros Hev Hd Hnew Hf i t' e Hi He. destruct (tb_tasks tb !! i) as [t|] eqn:Et; [|by eapply Hnew].
  destruct (Hev i t Et) as (u & Hu & Hue). replace u with t' in * by congruence.
  eapply Hd, Hf; [exact Et|]. by rewrite <-(ev_escrow _ _ Hue).
Qed.

Lemma board_step_funded tb tb' : board_step tb tb' -> board_wf tb -> funded tb -> funded tb'.
Proof.
  intros Hs Hwf. pose proof (board_step_keeps _ _ Hs Hwf) as [_ Hev].
  assert (Hcalm : calm tb tb' -> funded tb -> funded tb').
  { intros [Hd Ht]. apply funded_evolves; [done..|]. intros i t' e Hi Hn. apply Ht in Hn. congruence. }
  assert (Hnew : forall id t, tb_tasks tb !! id = None -> tb_deposits tb' = tb_deposits tb ->
    tb_tasks tb' = <[id := t]> (tb_tasks tb) -> escrow_id t = None -> funded tb -> funded tb').
  { intros id t Hn Ed Et He. apply funded_evolves; [done|by rewrite Ed|]. intros i t' e Hi Hin. rewrite Et in Hi.
    destruct (decide (i = id)) as [->|Hne]; [rewrite lookup_insert_eq in Hi; congruence|].
    rewrite lookup_insert_ne in Hi by done. congruence. }
  destruct Hs; try (by apply Hcalm; eauto with calm); try (by eapply Hnew).
  pose proof (confirm_escrow_shape tb id task_id amount now created) as Hsh. rewrite H0 in Hsh.
  destruct Hsh as (d & t0 & _ & _ & _ & _ & _ & Ed & Et & _ & He & _). apply funded_evolves; [done| |].
  - intros e Hin. rewrite Ed. destruct (decide (e = id)) as [->|Hne]; [rewrite lookup_insert_eq; eauto|].
    by rewrite lookup_insert_ne.
  - intros i t' e Hi Hn He'. rewrite Et in Hi. destruct (decide (i = task_id)) as [->|Hne].
    + rewrite lookup_insert_eq in Hi. replace e with id by congruence. rewrite Ed, lookup_insert_eq. eauto.
    + rewrite lookup_insert_ne in Hi by done. congruence.
Qed.
