(* ===== verification/ToyBoard.v ===== *)
(** * ToyBoard: a concrete marketplace

    A consensus task answered by three agents, a contest with two answers and
    an escrowed task, run on the model, and the witnesses of the board
    theorems at them. *)

From S2P Require Import Prelude Types Crypto BoardTypes Exchange Tasks Board Payouts BoardInv BoardStep PayoutStep BoardTheorems.

Definition asker : PublicKey := [1].
Definition ann : PublicKey := [2].
Definition ben : PublicKey := [3].
Definition cat : PublicKey := [4].

Definition board_of {A} (f : A -> TaskBoard) (o : outcome BoardError A) : TaskBoard :=
  match o with Ok a => f a | _ => new_board end.

(** ** A consensus task: 100 units, three agents, one of whom disagrees *)
Definition cons0 : TaskBoard := Eval vm_compute in
  (create_consensus_task new_board 8 0 asker "q" 101 3 1000 60).1.
Definition cons1 : TaskBoard := Eval vm_compute in board_of id (join_consensus_task cons0 8 ann 0).
Definition cons2 : TaskBoard := Eval vm_compute in board_of id (join_consensus_task cons1 8 ben 0).
Definition cons3 : TaskBoard := Eval vm_compute in board_of id (join_consensus_task cons2 8 cat 0).
Definition cons4 : TaskBoard := Eval vm_compute in
  board_of fst (submit_consensus_answer cons3 8 ann "yes" 1).
Definition cons5 : TaskBoard := Eval vm_compute in
  board_of fst (submit_consensus_answer cons4 8 ben "yes" 2).
Definition cons6 : TaskBoard := Eval vm_compute in
  board_of fst (submit_consensus_answer cons5 8 cat "no" 3).
Definition cons7 : TaskBoard := Eval vm_compute in
  board_of fst (mark_recipient_paid cons6 8 ann 50 4).

Definition task_of (tb : TaskBoard) (id : Uuid) : Task :=
  default (new_task 0 0 [] "" 0 (HashMatch 0)) (tb_tasks tb !! id).

Ltac by_run := vm_compute; reflexivity.

Lemma cons6_reachable : rtc board_step new_board cons6.
Proof.
  eapply rtc_l; [apply (bs_create_consensus new_board 8 0 asker "q" 101 3 1000 60); by_run|].
  eapply rtc_l; [apply (bs_join cons0 8 ann 0 cons1); by_run|].
  eapply rtc_l; [apply (bs_join cons1 8 ben 0 cons2); by_run|].
  eapply rtc_l; [apply (bs_join cons2 8 cat 0 cons3); by_run|].
  eapply rtc_l; [apply (bs_consensus_answer cons3 8 ann "yes" 1 cons4 false); by_run|].
  eapply rtc_l; [apply (bs_consensus_answer cons4 8 ben "yes" 2 cons5 false); by_run|].
  eapply rtc_l; [apply (bs_consensus_answer cons5 8 cat "no" 3 cons6 true); by_run|].
  reflexivity.
Qed.

Lemma cons6_wf : board_wf cons6.
Proof. eapply board_steps_wf; [apply cons6_reachable|apply new_board_wf]. Qed.

Lemma cons6_cons7 : rtc board_step cons6 cons7.
Proof. apply rtc_once. apply (bs_paid cons6 8 ann 50 4 cons7 false). by_run. Qed.

(** Two of three is a majority: 50 each, and one unit stays undistributed. *)
Example cons6_payouts :
  allocated_payouts (task_of cons6 8) = [(ann, 50); (ben, 50)] /\
  owed_payouts (task_of cons7 8) = [(ben, 50)] /\ failed (reputation cons7 cat) = 1.
Proof. split_and!; by_run. Qed.

Lemma reachable_payouts_within_bounty_witness :
  sumN (allocated_payouts (task_of cons6 8)).*2 <= bounty (task_of cons6 8) /\
  owed_payouts (task_of cons6 8) <> [].
Proof.
  destruct (reachable_payouts_within_bounty new_board cons6 8 (task_of cons6 8) (or_introl eq_refl)
              cons6_reachable ltac:(by_run))
    as (H1 & _ & _ & _ & _ & H2).
  split; [exact H1|]. apply H2. by_run.
Defined.

Lemma operations_preserve_task_type_witness :
  t_id (task_of cons7 8) = 8 /\ sumN (slot_amount <$> slots (task_of cons7 8)) <= bounty (task_of cons7 8).
Proof.
  destruct (operations_preserve_task_type cons6 cons7 cons6_wf
              (bs_paid cons6 8 ann 50 4 cons7 false ltac:(by_run)) 8 (task_of cons7 8) ltac:(by_run))
    as (H1 & _ & H2 & _).
  split; [exact H1|exact H2].
Defined.

Lemma task_lifecycle_witness :
  exists t', tb_tasks cons7 !! 8 = Some t' /\ rtc status_step Verified (status t') /\
    allocated_payouts t' ≡ₚ allocated_payouts (task_of cons6 8).
Proof.
  destruct (task_lifecycle cons6 cons7 8 (task_of cons6 8) cons6_wf cons6_cons7 ltac:(by_run))
    as (t' & H1 & _ & _ & H2 & _ & H3).
  exists t'. split; [exact H1|]. split; [exact H2|]. apply H3. by_run.
Defined.

Lemma payment_is_recorded_once_witness :
  mark_recipient_paid cons7 8 ann 50 9 = Ok (cons7, false).
Proof.
  destruct (payment_is_recorded_once cons6 8 ann 50 4 cons7 false cons6_wf ltac:(by_run))
    as (t & t' & _ & _ & _ & H). exact (H 50 9%Z).
Defined.

(** Resolution of the task as it stood before its last answer was in: with the
    submission window over, [cat] counts as disagreeing. *)
Definition cons5_fields : ConsensusFields := Eval vm_compute in
  match kind (task_of cons5 8) with Consensus c => c | _ => mkConsensus 0 0 0 None ∅ end.
Definition cons5_resolved : TaskBoard := Eval vm_compute in board_of id (resolve_consensus cons5 8).

Lemma consensus_pays_exact_majority_witness :
  exists t', tb_tasks cons5_resolved !! 8 = Some t' /\ status t' <> Open.
Proof.
  destruct (consensus_pays_exact_majority cons5 8 (task_of cons5 8) cons5_fields cons5_resolved
    ltac:(by_run) ltac:(by_run) ltac:(by_run)) as (t' & H1 & H2).
  exists t'. split; [exact H1|].
  destruct H2 as [(w & c' & _ & H & _)|(_ & H & _)]; rewrite H; discriminate.
Defined.

Lemma expectations_hold_witness :
  confirm_escrow cons6 1 2 3 4 4 <> Panic /\ resolve_dispute cons6 8 ChallengerWins <> Panic.
Proof.
  assert (Hroom : forall pk, failed (reputation cons6 pk) < U64_MAX).
  { assert (Hall : map_Forall (fun _ r => failed r < U64_MAX) (tb_reputation cons6))
      by (apply (bool_decide_unpack _); vm_compute; exact I).
    intros pk. unfold reputation. destruct (tb_reputation cons6 !! pk) as [r|] eqn:E; [|done].
    exact (Hall pk r E). }
  destruct (expectations_hold cons6 Hroom cons6_wf) as (H1 & _ & _ & H2). split; [apply H2|apply H1].
Defined.

(** ** A contest: two answers, 11 units *)
Definition cont0 : TaskBoard := Eval vm_compute in
  (create_disputable_task new_board 5 0 asker "d" 11 60).1.
Definition cont1 : TaskBoard := Eval vm_compute in board_of id (submit_contest_answer cont0 5 ann "x" 1).
Definition cont2 : TaskBoard := Eval vm_compute in board_of id (submit_contest_answer cont1 5 ben "y" 2).
Definition cont3 : TaskBoard := Eval vm_compute in board_of id (close_contest cont2 5 asker 3).
Definition cont3_fields : DisputableFields := Eval vm_compute in
  match kind (task_of cont3 5) with
  | Disputable d => d | _ => mkDisputable None 0 None None [] None None end.

Lemma cont3_reachable : rtc board_step new_board cont3.
Proof.
  eapply rtc_l; [apply (bs_create_disputable new_board 5 0 asker "d" 11 60); by_run|].
  eapply rtc_l; [apply (bs_contest_answer cont0 5 ann "x" 1 cont1); by_run|].
  eapply rtc_l; [apply (bs_contest_answer cont1 5 ben "y" 2 cont2); by_run|].
  eapply rtc_l; [apply (bs_close_contest cont2 5 asker 3 cont3); by_run|].
  reflexivity.
Qed.

Lemma cont3_wf : task_wf 5 (task_of cont3 5).
Proof. apply (board_steps_wf _ _ cont3_reachable new_board_wf). by_run. Qed.

Lemma contest_pays_the_pick_or_splits_evenly_witness :
  exists t', tb_tasks (split_unpicked_contests cont3 (minutes 100)).1 !! 5 = Some t' /\
    status t' = Verified /\ allocated_payouts t' = [(ann, 5); (ben, 5)].
Proof.
  destruct (contest_pays_the_pick_or_splits_evenly cont3 5 (task_of cont3 5) cont3_fields (minutes 100)
    ltac:(by_run) cont3_wf ltac:(by_run) ltac:(by_run)) as [_ H].
  destruct (H ltac:(by_run)) as (t' & H1 & H2 & H3 & _). exists t'. split; [exact H1|]. split; [exact H2|].
  rewrite H3. by_run.
Defined.

(** ** An escrowed task *)
Definition esc0 : TaskBoard := Eval vm_compute in
  (reserve_escrow (fun id => [id]) new_board 20 0 asker 110
     (FundHashMatchTask (mkTaskIntent "h" 100 77 2 {["gpu"]})) 1000).1.
Definition esc1 : TaskBoard := Eval vm_compute in board_of fst (confirm_escrow esc0 20 21 110 5 5).

Lemma escrow_funds_one_task_witness :
  confirm_escrow esc1 20 22 500 6 6 = Err EscrowNotReserved /\ bounty (task_of esc1 21) = 100.
Proof.
  destruct (escrow_funds_one_task esc0 20 21 110 5 5 esc1 (task_of esc1 21) ltac:(by_run))
    as (d & t0 & _ & _ & _ & _ & _ & _ & _ & _ & _ & H).
  split; [exact (H 22 500 6%Z 6%Z)|by_run].
Defined.

(** ** A payout attempt *)
Definition pay_ann : PayoutAttempt := mkAttempt 8 ann 50 500 [600] asker 10 1 None.
Definition pay_ben : PayoutAttempt := mkAttempt 8 ben 50 501 [600] asker 10 1 None.
Definition sent1 : TaskBoard := Eval vm_compute in record_payout_attempt cons6 pay_ann.
Definition sent2 : TaskBoard := Eval vm_compute in record_payout_attempt sent1 pay_ben.

Example sent_in_full :
  unsubmitted_payouts sent1 8 = [(ben, 50)] /\ status (task_of sent1 8) = Verified /\
  unsubmitted_payouts sent2 8 = [] /\ status (task_of sent2 8) = Submitted.
Proof. split_and!; by_run. Qed.

Lemma attempts_guard_resending_witness :
  exists t', tb_tasks (record_payout_attempt sent1 pay_ben) !! 8 = Some t' /\ status t' = Submitted.
Proof.
  destruct (attempts_guard_resending sent1 pay_ben) as (_ & _ & H).
  destruct (H (task_of sent1 8) ltac:(by_run) ltac:(by_run)) as (t' & H1 & _ & H2).
  exists t'. split; [exact H1|]. apply H2. by_run.
Defined.

Import Crypto.Toy.

Definition coin (n : N) : TransactionOutput := mkOutput n n asker.
Definition pay_coin : PayoutAttempt := mkAttempt 8 ann 50 (output_hash (coin 50)) [output_hash (coin 60)] asker 10 1 None.

Lemma resolution_exact_witness : attempt_resolve pay_coin [] [(false, coin 60)] = NeverLanded.
Proof.
  destruct (resolution_exact pay_coin [] [(false, coin 60)]) as (_ & [_ H] & _). apply H. split_and!.
  - intros (e & He & _). by apply not_elem_of_nil in He.
  - discriminate.
  - intros h Hh. apply list_elem_of_singleton in Hh as ->. by_run.
Defined.
