(* ===== verification/Payments.v ===== *)
(** * Payments: durable settlement

    Models [hub/src/payments.rs]: faucet grants, withdrawals, refunds and
    deposit sweeps, each a [Payment] in a journal that is written together with
    its effect on the ledger before anything is sent, and
    [HubStore::save_payment_effects] of [hub/src/store.rs], the one write
    transaction that does it. Definitions only.

    [Hub] holds the live board, the tables on disk (the same record, one map per
    table), the chain height gauge and the transactions handed to the node. Whether a write transaction commits is
    an argument; so are the node's replies, where [None] is a failed request. *)

From S2P Require Import Prelude Types Crypto BoardTypes Exchange Tasks Board Payouts.

(** The [anyhow] errors of the file. *)
Inductive PaymentError : Type :=
| OutputMismatch
| MissingTransaction
| FaucetReserved
| InsufficientAvailable
| EscrowHasPayment
| EscrowMissing
| EscrowChanged
| EscrowDisbursed
| EarnedOverflow
| StoreFailed
| NodeFailed.

Record Hub := mkHub {
  live : TaskBoard;
  disk : TaskBoard;
  chain_height : N;
  outbox : list Transaction
}.
Definition with_boards (h : Hub) (l d : TaskBoard) : Hub := mkHub l d (chain_height h) (outbox h).
Definition submitted (h : Hub) (tx : Transaction) : Hub :=
  mkHub (live h) (disk h) (chain_height h) (outbox h ++ [tx]).

Definition HUB_TRANSACTION_FEE : N := 1000.
Definition PAYOUT_RESOLUTION_GRACE_SECONDS : Z := 30.
Definition EVIDENCE_SCAN_BLOCKS_PER_PASS : nat := 64.
Definition EVIDENCE_SCAN_LOOKBACK : N := 4.

(** [DateTime::timestamp]: whole seconds since the epoch. *)
Definition timestamp_of (t : DateTime) : Z := (t / 1000000000)%Z.

(** [TaskBoard::restore_reputation] *)
Definition restore_reputation (tb : TaskBoard) (pk : PublicKey) (r : Reputation) : TaskBoard :=
  put_reputation tb pk r.
Definition put_payment (tb : TaskBoard) (p : Payment) : TaskBoard :=
  with_payments tb (<[p_id p := p]> (tb_payments tb)).

(** Field assignments of a payment. *)
Definition set_payment_status (p : Payment) (s : PaymentStatus) : Payment :=
  mkPayment (p_id p) (p_purpose p) (p_source p) (p_recipient p) (p_amount p) (p_fee p) (p_transaction p)
    (p_output_hash p) (p_spent_inputs p) (p_created_at p) (p_submitted_at p) (p_submissions p) s
    (p_scanned_through p).
Definition set_scanned (p : Payment) (n : N) : Payment :=
  mkPayment (p_id p) (p_purpose p) (p_source p) (p_recipient p) (p_amount p) (p_fee p) (p_transaction p)
    (p_output_hash p) (p_spent_inputs p) (p_created_at p) (p_submitted_at p) (p_submissions p) (p_status p) n.
Definition set_resubmitted (p : Payment) (n : N) (at_ : DateTime) : Payment :=
  mkPayment (p_id p) (p_purpose p) (p_source p) (p_recipient p) (p_amount p) (p_fee p) (p_transaction p)
    (p_output_hash p) (p_spent_inputs p) (p_created_at p) at_ n (p_status p) (p_scanned_through p).

Definition is_faucet (p : Payment) : bool := match p_purpose p with Faucet => true | _ => false end.
Definition is_escrow (p : Payment) : bool := match p_purpose p with Escrow _ _ _ => true | _ => false end.
Definition escrow_of (p : Payment) : option Uuid :=
  match p_purpose p with Escrow id _ _ => Some id | _ => None end.
Definition debit_of (p : Payment) : N := match p_purpose p with Withdrawal n => n | _ => 0 end.
Definition with_base (a : ExchangeAccount) (n : N) : ExchangeAccount :=
  mkAccount n (locked_base a) (compute_balance a) (locked_compute a).

(** ** The write transaction: [HubStore::save_payment_effects] *)
Definition apply_effects (tb : TaskBoard) (p : Payment) (account : option ExchangeAccount)
    (deposit : option PendingDeposit) (rep : option Reputation) (faucet : bool) : TaskBoard :=
  let tb := put_payment tb p in
  let tb := match account with Some a => restore_exchange_account tb (p_recipient p) a | None => tb end in
  let tb := match deposit with Some d => put_deposit tb d | None => tb end in
  let tb := match rep with Some r => restore_reputation tb (p_recipient p) r | None => tb end in
  if faucet then restore_faucet_grant tb (p_recipient p) (timestamp_of (p_created_at p)) else tb.
Definition save_payment_effects (commits : bool) (d : TaskBoard) (p : Payment)
    (account : option ExchangeAccount) (deposit : option PendingDeposit) (rep : option Reputation)
    (faucet : bool) : outcome PaymentError TaskBoard :=
  if commits then Ok (apply_effects d p account deposit rep faucet) else Err StoreFailed.

Section payments.
Context `{Primitives}.

(** [Payment::new]; [now1] and [now2] are its two readings of the clock. *)
Definition payment_new (id : Uuid) (now1 now2 : DateTime) (for_ : Purpose) (source recipient : PublicKey)
    (amount : N) (tx : option Transaction) : Payment :=
  mkPayment id for_ source recipient amount
    (match tx with Some _ => HUB_TRANSACTION_FEE | None => 0 end) tx
    (tx ≫= fun tx => output_hash <$> head (outputs tx))
    (match tx with Some tx => spends tx | None => [] end)
    now1 now2 1 PaymentPending 0.

(** ** [reserve_inputs] *)
Definition mark_spent (spent : list Hash) (utxos : list (bool * TransactionOutput))
    : list (bool * TransactionOutput) :=
  (fun e : bool * TransactionOutput =>
     if existsb (N.eqb (output_hash e.2)) spent then (true, e.2) else e) <$> utxos.
Definition replacing (rebuilding : list (Uuid * PublicKey)) (a : PayoutAttempt) : bool :=
  existsb (fun r : Uuid * PublicKey =>
    (r.1 =? pa_task_id a) && bool_decide (r.2 = pa_recipient a)) rebuilding.
Definition reserve_inputs (tb : TaskBoard) (source : PublicKey)
    (utxos : list (bool * TransactionOutput)) (rebuilding : list (Uuid * PublicKey))
    : list (bool * TransactionOutput) :=
  let utxos := foldl (fun us p => mark_spent (p_spent_inputs p) us) utxos
    (base.filter (fun p => p_source p = source /\ p_status p <> PaymentConfirmed)
       (btree_values (tb_payments tb))) in
  foldl (fun us a => mark_spent (pa_spent_inputs a) us) utxos
    (base.filter (fun a => pa_source a = source /\ replacing rebuilding a = false)
       (outstanding_payout_attempts tb)).

(** ** [prepare] *)

(** The checks of the receipt against the transaction. *)
Definition check_receipt (p : Payment) : outcome PaymentError unit :=
  match p_transaction p with
  | Some tx =>
      guard_ok (match head (outputs tx) with
                | Some o => bool_decide (pubkey o = p_recipient p) && (value o =? p_amount p)
                | None => false
                end) OutputMismatch
  | None => guard_ok ((p_amount p =? 0) && is_escrow p) MissingTransaction
  end.

(** The [match payment.purpose]: the account or the deposit to write. *)
Definition reservation (tb : TaskBoard) (p : Payment)
    : outcome PaymentError (option ExchangeAccount * option PendingDeposit) :=
  match p_purpose p with
  | Faucet =>
      ensure can_claim_faucet tb (p_recipient p) otherwise FaucetReserved;
      Ok (None, None)
  | Withdrawal debited =>
      let a := exchange_account tb (p_recipient p) in
      ensure debited <=? base_balance a - locked_base a otherwise InsufficientAvailable;
      b ← sub64 (base_balance a) debited;
      Ok (Some (with_base a b), None)
  | Escrow deposit_id _ previous_status =>
      ensure negb (existsb (fun q => bool_decide (escrow_of q = Some deposit_id))
                     (btree_values (tb_payments tb))) otherwise EscrowHasPayment;
      d ← ok_or (tb_deposits tb !! deposit_id) EscrowMissing;
      ensure bool_decide (pd_status d = previous_status) otherwise EscrowChanged;
      ensure negb (bool_decide (pd_status d = Refunded)) && negb (bool_decide (pd_status d = Disbursing))
        otherwise EscrowDisbursed;
      Ok (None, Some (set_deposit_status Disbursing d))
  end.

Definition prepare (commits : bool) (h : Hub) (p : Payment) : outcome PaymentError (Hub * Payment) :=
  let p := set_scanned p (chain_height h - EVIDENCE_SCAN_LOOKBACK) in
  _ ← check_receipt p;
  '(account, deposit) ← reservation (live h) p;
  d ← save_payment_effects commits (disk h) p account deposit None (is_faucet p);
  let tb := match account with
            | Some a => restore_exchange_account (live h) (p_recipient p) a | None => live h end in
  let tb := match deposit with Some x => put_deposit tb x | None => tb end in
  let tb := if is_faucet p then restore_faucet_grant tb (p_recipient p) (timestamp_of (p_created_at p))
            else tb in
  Ok (with_boards h (put_payment tb p) d, p).

(** ** [confirm] *)
Definition confirmation (tb : TaskBoard) (p : Payment)
    : outcome PaymentError (option PendingDeposit * option Reputation) :=
  match p_purpose p with
  | Escrow deposit_id forfeited_bond _ =>
      d ← ok_or (tb_deposits tb !! deposit_id) EscrowMissing;
      rep ← (if forfeited_bond then
               let r := reputation tb (p_recipient p) in
               e ← ok_or (checked_add (total_earned r) (p_amount p)) EarnedOverflow;
               Ok (Some (mkReputation (completed r) (failed r) e))
             else Ok None);
      Ok (Some (set_deposit_status Refunded d), rep)
  | _ => Ok (None, None)
  end.

Definition confirm (commits : bool) (h : Hub) (p : Payment) : outcome PaymentError Hub :=
  match tb_payments (live h) !! p_id p with
  | None => Ok h
  | Some current =>
      if decide (p_status current = PaymentConfirmed) then Ok h
      else
        let done_ := set_payment_status current PaymentConfirmed in
        '(deposit, rep) ← confirmation (live h) done_;
        d ← save_payment_effects commits (disk h) done_ None deposit rep false;
        let tb := match deposit with Some x => put_deposit (live h) x | None => live h end in
        let tb := match rep with Some r => restore_reputation tb (p_recipient done_) r | None => tb end in
        Ok (with_boards h (put_payment tb done_) d)
  end.

(** ** [send]: the failure of a submission or of an empty escrow's confirmation
    is only logged. *)
Definition send (commits : bool) (h : Hub) (p : Payment) : outcome PaymentError Hub :=
  match p_transaction p with
  | Some tx => Ok (submitted h tx)
  | None => match confirm commits h p with Ok h' => Ok h' | Err _ => Ok h | Panic => Panic end
  end.

(** ** [scan_for_evidence] *)
Inductive Evidence : Type := Mined | AbsentFromChain | Inconclusive.

(** The blocks carry the wanted output. *)
Definition creates (wanted : Hash) (b : Block) : bool :=
  existsb (fun tx => existsb (fun o => output_hash o =? wanted) (outputs tx)) (transactions b).

Fixpoint scan_passes (passes : nat) (fetch : N -> nat -> option (list Block)) (wanted : Hash) (p : Payment)
    : Payment * Evidence :=
  match passes with
  | O => (p, Inconclusive)
  | S passes' =>
      match fetch (p_scanned_through p) EVIDENCE_SCAN_BLOCKS_PER_PASS with
      | None => (p, Inconclusive)
      | Some [] => (p, AbsentFromChain)
      | Some blocks =>
          let p' := set_scanned p
            (saturating_add U64_MAX (p_scanned_through p) (N.of_nat (length blocks))) in
          if existsb (creates wanted) blocks then (p', Mined)
          else scan_passes passes' fetch wanted p'
      end
  end.
Definition scan_for_evidence (fetch : N -> nat -> option (list Block)) (p : Payment) : Payment * Evidence :=
  match p_output_hash p with
  | None => (p, Inconclusive)
  | Some wanted => scan_passes 2 fetch wanted p
  end.

(** ** [save_progress]: compare, then write. *)
Definition unmoved (current previous : Payment) : bool :=
  (p_submissions current =? p_submissions previous) &&
  bool_decide (p_status current = p_status previous) &&
  Z.eqb (p_submitted_at current) (p_submitted_at previous).
Definition save_progress (commits : bool) (h : Hub) (previous next : Payment) : outcome PaymentError Hub :=
  match tb_payments (live h) !! p_id next with
  | None => Ok h
  | Some current =>
      if negb (unmoved current previous) then Ok h
      else
        d ← save_payment_effects commits (disk h) next None None None false;
        Ok (with_boards h (put_payment (live h) next) d)
  end.

(** ** [resolve] *)

(** The write of the [NeverLanded] arm and the send after it. *)
Definition resend (commits : bool) (h : Hub) (previous next : Payment) : outcome PaymentError Hub :=
  match tb_payments (live h) !! p_id next with
  | None => Ok h
  | Some current =>
      if negb (unmoved current previous) then Ok h
      else
        d ← save_payment_effects commits (disk h) next None None None false;
        let h' := with_boards h (put_payment (live h) next) d in
        if decide (p_status next = PaymentPending) then send commits h' next else Ok h'
  end.

(** What the node answers: the two addresses' outputs, and its blocks. *)
Record NodeView := mkView {
  nv_recipient : option (list (bool * TransactionOutput));
  nv_source : option (list (bool * TransactionOutput));
  nv_blocks : N -> nat -> option (list Block)
}.

Definition payment_outcome (nv : NodeView) (p : Payment) : outcome PaymentError PayoutOutcome :=
  match p_output_hash p with
  | Some hash =>
      recipient ← ok_or (nv_recipient nv) NodeFailed;
      source ← ok_or (nv_source nv) NodeFailed;
      Ok (resolve_against hash (p_spent_inputs p) recipient source)
  | None => Ok Confirmed
  end.

(** The [NeverLanded] arm: another submission, or a person's decision. *)
Definition after_never_landed (p : Payment) (now : DateTime) : Payment :=
  if (MAX_PAYOUT_SUBMISSIONS <=? p_submissions p) || bool_decide (p_transaction p = None)
  then set_payment_status p PaymentNeedsReview
  else set_resubmitted p (p_submissions p + 1) now.

Definition resolve (commits : bool) (nv : NodeView) (h : Hub) (p : Payment) (now : DateTime)
    : outcome PaymentError Hub :=
  if (num_seconds (now - p_submitted_at p) <? PAYOUT_RESOLUTION_GRACE_SECONDS)%Z then Ok h
  else
    o ← payment_outcome nv p;
    let by_chain :=
      let '(scanned, e) := scan_for_evidence (nv_blocks nv) p in
      match e with
      | Mined => confirm commits h p
      | AbsentFromChain => save_progress commits h p (set_payment_status scanned PaymentNeedsReview)
      | Inconclusive => save_progress commits h p scanned
      end in
    match o with
    | Confirmed => confirm commits h p
    | NeverLanded =>
        if decide (p_status p = PaymentPending) then resend commits h p (after_never_landed p now)
        else by_chain
    | HeldInMempool => Ok h
    | Ambiguous => by_chain
    end.

(** ** [resolve_all]: an error is logged and the payment stays as it was. *)
Definition resolve_all (commits : bool) (nv : Payment -> NodeView) (h : Hub) (now : DateTime)
    : outcome PaymentError Hub :=
  ofold (fun h p => match resolve commits (nv p) h p now with
                    | Ok h' => Ok h' | Err _ => Ok h | Panic => Panic end)
    h (base.filter (fun p => p_status p <> PaymentConfirmed) (btree_values (tb_payments (live h)))).

End payments.
