(* ===== verification/PaymentInv.v ===== *)
(** * PaymentInv: the journal's invariant

    Every operation of [Payments] as one change [journalled] of the journal and
    the ledger, the invariant of the journal, and that such a change keeps it. *)

From S2P Require Import Prelude Types Crypto BoardTypes Exchange Tasks Board Payouts Payments.

(** The fields no operation changes. *)
Definition receipt_of (p : Payment) :=
  (p_id p, p_purpose p, p_source p, p_recipient p, p_amount p, p_fee p, p_transaction p,
   p_output_hash p, p_spent_inputs p, p_created_at p).
Abbreviation same_payment p q := (receipt_of p = receipt_of q).

(** The status of a deposit whose payment is in the journal. *)
Definition deposit_phase (p : Payment) : EscrowStatus :=
  if decide (p_status p = PaymentConfirmed) then Refunded else Disbursing.

Record journal_ok (tb : TaskBoard) : Prop := {
  jo_keys : map_Forall (fun id p => p_id p = id) (tb_payments tb);
  jo_deposit_keys : map_Forall (fun id d => pd_id d = id) (tb_deposits tb);
  jo_submissions : map_Forall (fun _ p => p_submissions p <= MAX_PAYOUT_SUBMISSIONS) (tb_payments tb);
  jo_escrow : forall i p d, tb_payments tb !! i = Some p -> escrow_of p = Some d ->
    (exists x, tb_deposits tb !! d = Some x /\ pd_status x = deposit_phase p) /\
    forall j q, tb_payments tb !! j = Some q -> escrow_of q = Some d -> j = i;
  jo_faucet : forall i p, tb_payments tb !! i = Some p -> is_faucet p = true ->
    is_Some (tb_faucet_grants tb !! p_recipient p) /\
    forall j q, tb_payments tb !! j = Some q -> is_faucet q = true -> p_recipient q = p_recipient p -> j = i
}.

Record hub_ok (h : Hub) : Prop := {
  ho_durable : live h = disk h;
  ho_journal : journal_ok (live h);
  ho_outbox : Forall (fun tx => exists i p, tb_payments (disk h) !! i = Some p /\ p_transaction p = Some tx)
                (outbox h)
}.

(** What is left of a payment once it is in the journal: a new version of it,
    and for a confirmation the last move of its deposit. *)
Definition progresses (p p' : Payment) : Prop :=
  same_payment p p' /\ p_submissions p <= p_submissions p' <= MAX_PAYOUT_SUBMISSIONS /\
  (p_status p = PaymentConfirmed -> p' = p).

Definition base_total (tb : TaskBoard) : N := map_sum base_balance (tb_accounts tb).
Definition debit_total (tb : TaskBoard) : N := map_sum debit_of (tb_payments tb).

(** ** Effects on disk and on the live board agree *)
Section durable.
Context `{Primitives}.
Implicit Types (h : Hub) (p : Payment).

Lemma save_Ok c d p a x r f d' :
  save_payment_effects c d p a x r f = Ok d' -> d' = apply_effects d p a x r f.
Proof. unfold save_payment_effects. destruct c; intros E; by simplify_eq. Qed.

(** The shape of a successful [prepare]. *)
Lemma prepare_shape c h p h' p' :
  prepare c h p = Ok (h', p') ->
  p' = set_scanned p (chain_height h - EVIDENCE_SCAN_LOOKBACK) /\ check_receipt p' = Ok tt /\
  exists a x, reservation (live h) p' = Ok (a, x) /\
    h' = with_boards h (apply_effects (live h) p' a x None (is_faucet p'))
                       (apply_effects (disk h) p' a x None (is_faucet p')).
Proof.
  unfold prepare. set (p1 := set_scanned p _). cbn zeta. intros Hp. inv_ok.
  match goal with F : reservation _ _ = Ok ?r |- _ => destruct r as [a x]; rename F into Hres end.
  inv_ok. match goal with F : save_payment_effects _ _ _ _ _ _ _ = Ok _ |- _ => apply save_Ok in F; subst end.
  injection Hp as <- <-. split; [done|].
  match goal with F : check_receipt _ = Ok ?u |- _ => destruct u; split; [exact F|] end.
  exists a, x. split; [done|]. unfold apply_effects. by destruct a, x, (is_faucet p1).
Qed.

Lemma confirm_shape c h p h' :
  confirm c h p = Ok h' ->
  h' = h \/
  exists q x r, tb_payments (live h) !! p_id p = Some q /\ p_status q <> PaymentConfirmed /\
    confirmation (live h) (set_payment_status q PaymentConfirmed) = Ok (x, r) /\
    h' = with_boards h (apply_effects (live h) (set_payment_status q PaymentConfirmed) None x r false)
                       (apply_effects (disk h) (set_payment_status q PaymentConfirmed) None x r false).
Proof.
  unfold confirm. destruct (tb_payments (live h) !! p_id p) as [q|] eqn:Eq; intros Hc; [|inv_ok; by left].
  case_decide as Hs; [inv_ok; by left|]. inv_ok.
  match goal with F : confirmation _ _ = Ok ?r |- _ => destruct r as [x r0]; rename F into Hres end.
  inv_ok. match goal with F : save_payment_effects _ _ _ _ _ _ _ = Ok _ |- _ => apply save_Ok in F; subst end.
  right. exists q, x, r0. split; [done|]. split; [done|]. split; [done|].
  unfold apply_effects. by destruct x, r0.
Qed.

Lemma save_progress_shape c h p next h' :
  save_progress c h p next = Ok h' ->
  h' = h \/
  exists q, tb_payments (live h) !! p_id next = Some q /\ unmoved q p = true /\
    h' = with_boards h (put_payment (live h) next) (put_payment (disk h) next).
Proof.
  unfold save_progress. destruct (tb_payments (live h) !! p_id next) as [q|] eqn:Eq; intros Hc; [|inv_ok; by left].
  destruct (unmoved q p) eqn:Hu; cbn in Hc; [|inv_ok; by left]. inv_ok.
  match goal with F : save_payment_effects _ _ _ _ _ _ _ = Ok _ |- _ => apply save_Ok in F; subst end.
  right. eauto.
Qed.

Lemma send_shape c h p h' :
  send c h p = Ok h' ->
  match p_transaction p with Some tx => h' = submitted h tx | None => h' = h \/ confirm c h p = Ok h' end.
Proof.
  unfold send. destruct (p_transaction p); [by intros [= <-]|].
  destruct (confirm c h p); intros E; simplify_eq; auto.
Qed.

Lemma resend_shape c h p next h' :
  resend c h p next = Ok h' ->
  h' = h \/
  exists q h1, tb_payments (live h) !! p_id next = Some q /\ unmoved q p = true /\
    h1 = with_boards h (put_payment (live h) next) (put_payment (disk h) next) /\
    (p_status next <> PaymentPending /\ h' = h1 \/
     p_status next = PaymentPending /\ send c h1 next = Ok h').
Proof.
  unfold resend. destruct (tb_payments (live h) !! p_id next) as [q|] eqn:Eq; intros Hc; [|inv_ok; by left].
  destruct (unmoved q p) eqn:Hu; cbn in Hc; [|inv_ok; by left]. inv_ok.
  match goal with F : save_payment_effects _ _ _ _ _ _ _ = Ok _ |- _ => apply save_Ok in F; subst end.
  right. exists q. eexists. split; [done|]. split; [done|]. split; [done|].
  case_decide; inv_ok; [right|left]; done.
Qed.

End durable.

(** ** One change of the journal at a time *)
Section journal.
Implicit Types (tb : TaskBoard) (p q : Payment).

Lemma same_payment_facts p q :
  same_payment p q -> p_id p = p_id q /\ escrow_of p = escrow_of q /\ is_faucet p = is_faucet q /\
    p_recipient p = p_recipient q /\ debit_of p = debit_of q /\ p_transaction p = p_transaction q.
Proof.
  unfold receipt_of. intros E. injection E as E1 E2 E3 E4 E5 E6 E7 E8 E9 E10.
  unfold escrow_of, is_faucet, debit_of. by rewrite E2.
Qed.

(** A payment moves on, its deposit with it. *)
Lemma journal_progress tb tb' p p' :
  journal_ok tb -> tb_payments tb !! p_id p' = Some p -> progresses p p' ->
  tb_payments tb' = <[p_id p' := p']> (tb_payments tb) ->
  map_Forall (fun id d => pd_id d = id) (tb_deposits tb') ->
  (forall k, Some k <> escrow_of p -> tb_deposits tb' !! k = tb_deposits tb !! k) ->
  (forall d, escrow_of p = Some d -> exists x, tb_deposits tb' !! d = Some x /\ pd_status x = deposit_phase p') ->
  tb_faucet_grants tb' = tb_faucet_grants tb ->
  journal_ok tb'.
Proof.
  intros [J1 J2 J3 J4 J5] Hp (Hs & Hsub & _) Ep Hk Hoth Hdep Ef.
  destruct (same_payment_facts _ _ Hs) as (F1 & F2 & F3 & F4 & _).
  assert (Hlk : forall i u, tb_payments tb' !! i = Some u ->
    exists v, tb_payments tb !! i = Some v /\ escrow_of u = escrow_of v /\ is_faucet u = is_faucet v /\
      p_recipient u = p_recipient v /\ ((i = p_id p' /\ u = p' /\ v = p) \/ (i <> p_id p' /\ u = v))).
  { intros i u. rewrite Ep. intros [[<- <-]|[Hne Hu]]%lookup_insert_Some.
    - exists p. split_and!; try done. by left.
    - exists u. split_and!; try done. by right. }
  split; try done.
  - rewrite Ep. by apply map_Forall_insert_2.
  - rewrite Ep. apply map_Forall_insert_2; [lia|done].
  - intros i u d Hu Hd. destruct (Hlk i u Hu) as (v & Hv & E1 & _ & _ & Hor).
    destruct (J4 i v d Hv ltac:(congruence)) as [(x & Hx & Hph) Huq]. split.
    + destruct Hor as [(-> & -> & ->)|[Hne ->]]; [apply Hdep; congruence|].
      exists x. split; [|done]. rewrite Hoth; [done|]. intros Heq. apply Hne.
      destruct (J4 (p_id p') p d Hp ltac:(congruence)) as [_ Hu2]. by apply (Hu2 i v Hv).
    + intros j w Hw Hwd. destruct (Hlk j w Hw) as (w' & Hw' & E2 & _). apply (Huq j w' Hw'). congruence.
  - intros i u Hu Hf. destruct (Hlk i u Hu) as (v & Hv & _ & E2 & E3 & _).
    destruct (J5 i v Hv ltac:(congruence)) as [Hg Huq]. rewrite Ef, E3. split; [done|].
    intros j w Hw Hwf Hr. destruct (Hlk j w Hw) as (w' & Hw' & _ & E4 & E5 & _).
    apply (Huq j w' Hw'); congruence.
Qed.

Lemma put_progress tb p p' :
  journal_ok tb -> tb_payments tb !! p_id p' = Some p -> progresses p p' ->
  deposit_phase p' = deposit_phase p -> journal_ok (put_payment tb p').
Proof.
  intros Hj Hp Hs Hd. apply (journal_progress tb _ p p'); try done; [apply Hj|].
  intros d Hed. destruct (jo_escrow _ Hj _ _ _ Hp Hed) as [(x & Hx & Hph) _]. exists x.
  split; [done|]. congruence.
Qed.

Lemma confirmed_progress tb q x r :
  journal_ok tb -> tb_payments tb !! p_id q = Some q -> p_status q <> PaymentConfirmed ->
  confirmation tb (set_payment_status q PaymentConfirmed) = Ok (x, r) ->
  progresses q (set_payment_status q PaymentConfirmed) /\
  journal_ok (apply_effects tb (set_payment_status q PaymentConfirmed) None x r false).
Proof.
  intros Hj Hq Hs Hc. set (q' := set_payment_status q PaymentConfirmed) in *.
  assert (Hpr : progresses q q').
  { split; [done|]. split; [|done]. pose proof (jo_submissions _ Hj _ _ Hq). cbn in *. lia. }
  split; [done|]. unfold confirmation in Hc. cbn in Hc.
  destruct (p_purpose q) as [|n|d bond prev] eqn:Hpu.
  1-2: inv_ok; simplify_eq; apply (journal_progress tb _ q q'); try done; [apply Hj|];
       unfold escrow_of; rewrite Hpu; done.
  inv_ok. match goal with F : tb_deposits tb !! d = Some ?y |- _ => rename y into dep; rename F into Hdep end.
  match goal with F : (_, ?v) = (_, _) |- _ => injection F as <- <-; rename v into rep end.
  assert (Hid : pd_id dep = d) by (by apply (jo_deposit_keys _ Hj)).
  apply (journal_progress tb _ q q'); try done.
  - by destruct rep.
  - destruct rep; cbn; (apply map_Forall_insert_2; [done|apply Hj]).
  - intros k Hk. unfold escrow_of in Hk. rewrite Hpu in Hk.
    destruct rep; cbn; rewrite Hid, lookup_insert_ne by congruence; done.
  - unfold escrow_of. rewrite Hpu. intros d' [= <-]. exists (set_deposit_status Refunded dep).
    split; [destruct rep; cbn; rewrite Hid; apply lookup_insert_eq|done].
  - by destruct rep.
Qed.

Lemma existsb_false_elem {A} (f : A -> bool) l x : existsb f l = false -> x ∈ l -> f x = false.
Proof.
  intros Hf Hx. destruct (f x) eqn:E; [|done]. rewrite <-Hf. symmetry. apply existsb_elem. eauto.
Qed.

(** A new payment, with what it reserves. *)
Lemma journal_new tb tb' p :
  journal_ok tb -> tb_payments tb !! p_id p = None -> p_status p = PaymentPending ->
  p_submissions p <= MAX_PAYOUT_SUBMISSIONS ->
  tb_payments tb' = <[p_id p := p]> (tb_payments tb) ->
  map_Forall (fun id d => pd_id d = id) (tb_deposits tb') ->
  (forall k, Some k <> escrow_of p -> tb_deposits tb' !! k = tb_deposits tb !! k) ->
  (forall d, escrow_of p = Some d ->
     (exists x, tb_deposits tb' !! d = Some x /\ pd_status x = Disbursing) /\
     forall j q, tb_payments tb !! j = Some q -> escrow_of q <> Some d) ->
  (forall k, is_Some (tb_faucet_grants tb !! k) -> is_Some (tb_faucet_grants tb' !! k)) ->
  (is_faucet p = true -> is_Some (tb_faucet_grants tb' !! p_recipient p) /\
                         tb_faucet_grants tb !! p_recipient p = None) ->
  journal_ok tb'.
Proof.
  intros [J1 J2 J3 J4 J5] Hn Hs Hsub Ep Hk Hoth Hdep Hg Hf.
  split; try done; try (rewrite Ep; by apply map_Forall_insert_2).
  - intros i u d. rewrite Ep. intros [[<- <-]|[Hne Hu]]%lookup_insert_Some Hd.
    + destruct (Hdep d Hd) as [(x & Hx & Hph) Hno]. split.
      * exists x. split; [done|]. unfold deposit_phase. by rewrite Hs.
      * intros j q [[<- <-]|[Hne Hq]]%lookup_insert_Some Hqd; [done|]. by destruct (Hno j q Hq).
    + destruct (J4 i u d Hu Hd) as [(x & Hx & Hph) Huq]. split.
      * exists x. split; [|done]. rewrite Hoth; [done|]. intros E. by apply (Hdep d (eq_sym E)) in Hu.
      * intros j q [[<- <-]|[Hne2 Hq]]%lookup_insert_Some Hqd; [|by apply (Huq j q)].
        by apply (Hdep d Hqd) in Hu.
  - intros i u. rewrite Ep. intros [[<- <-]|[Hne Hu]]%lookup_insert_Some Hfu.
    + destruct (Hf Hfu) as [H1 H2]. split; [done|].
      intros j q [[<- <-]|[Hne Hq]]%lookup_insert_Some Hqf Hr; [done|].
      destruct (J5 j q Hq Hqf) as [[g Hg'] _]. rewrite Hr, H2 in Hg'. done.
    + destruct (J5 i u Hu Hfu) as [H1 Huq]. split; [by apply Hg|].
      intros j q [[<- <-]|[Hne2 Hq]]%lookup_insert_Some Hqf Hr; [|by apply (Huq j q)].
      destruct (Hf Hqf) as [_ H2]. rewrite Hr in H2. rewrite H2 in H1. by destruct H1.
Qed.

Lemma reserved_journal tb p a x :
  journal_ok tb -> tb_payments tb !! p_id p = None -> p_status p = PaymentPending ->
  p_submissions p <= MAX_PAYOUT_SUBMISSIONS -> reservation tb p = Ok (a, x) ->
  journal_ok (apply_effects tb p a x None (is_faucet p)).
Proof.
  intros Hj Hn Hs Hsub. unfold reservation. destruct (p_purpose p) as [|n|d bond prev] eqn:Hpu; intros Hr; inv_ok.
  - simplify_eq. assert (Hf : is_faucet p = true) by (unfold is_faucet; by rewrite Hpu).
    rewrite Hf. unfold can_claim_faucet in *.
    apply (journal_new tb _ p); try done; [apply Hj|by unfold escrow_of; rewrite Hpu| |].
    + intros k Hk. cbn. destruct (decide (k = p_recipient p)) as [->|Hne].
      * rewrite lookup_insert_eq. by eexists.
      * by rewrite lookup_insert_ne by congruence.
    + intros _. cbn. rewrite lookup_insert_eq. split; [by eexists|]. by destruct (tb_faucet_grants tb !! _).
  - simplify_eq. assert (Hf : is_faucet p = false) by (unfold is_faucet; by rewrite Hpu). rewrite Hf.
    apply (journal_new tb _ p); try done; [apply Hj|by unfold escrow_of; rewrite Hpu|by rewrite Hf].
  - match goal with F : tb_deposits tb !! d = Some ?y |- _ => rename y into dep; rename F into Hdep end.
    simplify_eq. assert (Hf : is_faucet p = false) by (unfold is_faucet; by rewrite Hpu). rewrite Hf.
    match goal with F : negb (existsb _ _) = true |- _ => apply negb_true_iff in F; rename F into Hfree end.
    assert (Hid : pd_id dep = d) by (by apply (jo_deposit_keys _ Hj)).
    assert (He : escrow_of p = Some d) by (unfold escrow_of; by rewrite Hpu).
    apply (journal_new tb _ p); try done; cbn.
    + apply map_Forall_insert_2; [done|apply Hj].
    + intros k Hk. rewrite Hid, lookup_insert_ne by congruence. done.
    + intros d' Hd'. replace d' with d by congruence. split.
      * exists (set_deposit_status Disbursing dep). split; [rewrite Hid; apply lookup_insert_eq|done].
      * intros j q Hq Heq. assert (Hb : q ∈ btree_values (tb_payments tb)) by (apply elem_of_btree_values; eauto).
        apply (existsb_false_elem _ _ _ Hfree) in Hb. by rewrite bool_decide_eq_true_2 in Hb.
    + by rewrite Hf.
Qed.

(** *** Money: a withdrawal's debit moves from its account to the journal. *)
Lemma debit_progress tb p p' :
  tb_payments tb !! p_id p' = Some p -> same_payment p p' ->
  map_sum debit_of (<[p_id p' := p']> (tb_payments tb)) = map_sum debit_of (tb_payments tb).
Proof.
  intros Hp Hs. destruct (same_payment_facts _ _ Hs) as (_ & _ & _ & _ & Hd & _).
  pose proof (map_sum_update debit_of (tb_payments tb) (p_id p') p p' Hp). lia.
Qed.

Lemma reserved_money tb p a x :
  tb_payments tb !! p_id p = None -> reservation tb p = Ok (a, x) ->
  let tb' := apply_effects tb p a x None (is_faucet p) in
  base_total tb' + debit_total tb' = base_total tb + debit_total tb.
Proof.
  intros Hn Hr tb'. assert (Hd : debit_total tb' = debit_of p + debit_total tb).
  { unfold debit_total, tb', apply_effects. rewrite <-(map_sum_insert debit_of _ _ p Hn).
    by destruct a, x, (is_faucet p). }
  assert (Ha : tb_accounts tb' = match a with Some y => <[p_recipient p := y]> (tb_accounts tb)
                                 | None => tb_accounts tb end)
    by (unfold tb', apply_effects; by destruct a, x, (is_faucet p)).
  unfold base_total. rewrite Hd, Ha. revert Hr. unfold reservation, debit_of.
  destruct (p_purpose p) as [|n|d bond prev]; intros Hr; inv_ok; simplify_eq; [lia| |lia].
  match goal with F : sub64 _ _ = Ok _ |- _ => apply sub64_Ok in F as [-> Hle] end.
  unfold exchange_account in *. destruct (tb_accounts tb !! p_recipient p) as [y|] eqn:Ey; cbn in *.
  - pose proof (map_sum_update base_balance (tb_accounts tb) (p_recipient p) y
      (with_base y (base_balance y - n)) Ey) as Hm. cbn in Hm. lia.
  - rewrite map_sum_insert by done. cbn. lia.
Qed.

End journal.

(** ** The operations on the hub *)
Definition snapshot (h : Hub) (p : Payment) : Prop :=
  exists q, tb_payments (live h) !! p_id p = Some q /\ same_payment q p.

Record hub_moves (h h' : Hub) : Prop := {
  hm_ok : hub_ok h';
  hm_money : base_total (live h') + debit_total (live h') = base_total (live h) + debit_total (live h);
  hm_progress : forall i p, tb_payments (live h) !! i = Some p ->
    exists p', tb_payments (live h') !! i = Some p' /\ progresses p p'
}.

Section moves.
Context `{Primitives}.
Implicit Types (h : Hub) (p q : Payment).

Lemma progresses_refl p : p_submissions p <= MAX_PAYOUT_SUBMISSIONS -> progresses p p.
Proof. intros Hs. split; [done|]. split; [lia|done]. Qed.

Lemma hub_moves_refl h : hub_ok h -> hub_moves h h.
Proof.
  intros Hok. split; [done..|]. intros i p Hp. exists p. split; [done|]. apply progresses_refl.
  by apply (jo_submissions _ (ho_journal _ Hok) i p).
Qed.

Lemma progresses_trans p q r : progresses p q -> progresses q r -> progresses p r.
Proof.
  intros (A1 & A2 & A3) (B1 & B2 & B3). split; [congruence|]. split; [lia|].
  intros E. specialize (A3 E). subst q. by apply B3.
Qed.

Lemma hub_moves_trans h1 h2 h3 : hub_moves h1 h2 -> hub_moves h2 h3 -> hub_moves h1 h3.
Proof.
  intros [A1 A2 A3] [B1 B2 B3]. split; [done|lia|]. intros i p Hp.
  destruct (A3 i p Hp) as (p1 & Hp1 & P1). destruct (B3 i p1 Hp1) as (p2 & Hp2 & P2).
  exists p2. split; [done|]. by eapply progresses_trans.
Qed.

(** A write of a payment already in the journal. *)
Lemma hub_moves_write h q q' tb :
  hub_ok h -> tb_payments (live h) !! p_id q' = Some q -> progresses q q' -> journal_ok tb ->
  tb_payments tb = <[p_id q' := q']> (tb_payments (live h)) -> tb_accounts tb = tb_accounts (live h) ->
  hub_moves h (with_boards h tb tb).
Proof.
  intros [Hd Hj Ho] Hq Hpr Hj' Ep Ea. pose proof Hpr as (Hs & _ & _).
  destruct (same_payment_facts _ _ Hs) as (_ & _ & _ & _ & Hdb & Htx). split.
  - split; [done|done|]. cbn. eapply Forall_impl; [exact Ho|]. cbn. intros tx (i & p & Hp & Et).
    rewrite <-Hd in Hp. destruct (decide (i = p_id q')) as [->|Hne].
    + exists (p_id q'), q'. rewrite Ep, lookup_insert_eq. split; [done|]. congruence.
    + exists i, p. rewrite Ep, lookup_insert_ne by done. done.
  - unfold base_total, debit_total. cbn. rewrite Ea, Ep. f_equal. by apply (debit_progress _ q q').
  - intros i p Hp. cbn. rewrite Ep. destruct (decide (i = p_id q')) as [->|Hne].
    + exists q'. rewrite lookup_insert_eq. split; [done|]. by replace p with q by congruence.
    + exists p. rewrite lookup_insert_ne by done. split; [done|]. apply progresses_refl.
      by apply (jo_submissions _ Hj i p).
Qed.

Lemma scan_passes_fields n f w p :
  let sc := (scan_passes n f w p).1 in
  same_payment p sc /\ p_submissions sc = p_submissions p /\ p_status sc = p_status p /\
  p_submitted_at sc = p_submitted_at p.
Proof.
  revert p. induction n as [|n IH]; intros p; cbn; [done|]. destruct (f _ _) as [[|b bs]|]; [done| |done].
  case_match; [done|]. specialize (IH (set_scanned p
    (saturating_add U64_MAX (p_scanned_through p) (N.of_nat (length (b :: bs)))))). done.
Qed.

Lemma scan_fields f p :
  let sc := (scan_for_evidence f p).1 in
  same_payment p sc /\ p_submissions sc = p_submissions p /\ p_status sc = p_status p /\
  p_submitted_at sc = p_submitted_at p.
Proof. unfold scan_for_evidence. destruct (p_output_hash p); [apply scan_passes_fields|done]. Qed.

Lemma after_never_landed_fields p now :
  let next := after_never_landed p now in
  same_payment p next /\ p_submissions p <= p_submissions next /\
  (p_submissions p <= MAX_PAYOUT_SUBMISSIONS -> p_submissions next <= MAX_PAYOUT_SUBMISSIONS) /\
  (p_status next = PaymentNeedsReview \/ p_status next = p_status p).
Proof.
  unfold after_never_landed. destruct (MAX_PAYOUT_SUBMISSIONS <=? p_submissions p) eqn:E; cbn.
  - repeat split; try lia. by left.
  - apply N.leb_gt in E. destruct (bool_decide _); cbn; repeat split; try lia; [by left|by right].
Qed.

Lemma confirm_moves c h p h' : hub_ok h -> confirm c h p = Ok h' -> hub_moves h h'.
Proof.
  intros Hok Hc. apply confirm_shape in Hc as [->|(q & x & r & Hq & Hs & Hcf & ->)]; [by apply hub_moves_refl|].
  pose proof Hok as [Hd Hj Ho]. assert (Hid : p_id q = p_id p) by (by apply (jo_keys _ Hj)).
  rewrite <-Hid in Hq. destruct (confirmed_progress _ _ _ _ Hj Hq Hs Hcf) as [Hpr Hj']. rewrite <-Hd.
  eapply (hub_moves_write h q (set_payment_status q PaymentConfirmed)); try done.
  - unfold apply_effects. by destruct x, r.
  - unfold apply_effects. by destruct x, r.
Qed.

Lemma write_moves h p next :
  hub_ok h -> p_status p <> PaymentConfirmed -> p_status next <> PaymentConfirmed ->
  same_payment p next -> snapshot h p ->
  p_submissions p <= p_submissions next /\
    (p_submissions p <= MAX_PAYOUT_SUBMISSIONS -> p_submissions next <= MAX_PAYOUT_SUBMISSIONS) ->
  forall q, tb_payments (live h) !! p_id next = Some q -> unmoved q p = true ->
  hub_moves h (with_boards h (put_payment (live h) next) (put_payment (disk h) next)).
Proof.
  intros Hok Hs Hs' Hsame (q0 & Hq0 & Hsame0) Hsub q Hq Hu. pose proof Hok as [Hd Hj Ho].
  destruct (same_payment_facts _ _ Hsame) as (Hid & _). rewrite Hid in Hq0. rewrite Hq0 in Hq. injection Hq as ->.
  unfold unmoved in Hu. apply andb_true_iff in Hu as [Hu _]. apply andb_true_iff in Hu as [Hu1 Hu2].
  apply N.eqb_eq in Hu1. apply bool_decide_eq_true in Hu2. rewrite <-Hd.
  assert (Hpr : progresses q next).
  { pose proof (jo_submissions _ Hj _ _ Hq0) as Hmax. cbn in Hmax. split; [congruence|].
    rewrite Hu1 in *. split; [lia|]. rewrite Hu2. by intros E. }
  eapply (hub_moves_write h q next); try done. apply (put_progress _ q); try done.
  unfold deposit_phase. rewrite !decide_False by congruence. done.
Qed.

Lemma send_moves c h p h' : hub_ok h -> snapshot h p -> send c h p = Ok h' -> hub_moves h h'.
Proof.
  intros Hok (q & Hq & Hsame) Hs. apply send_shape in Hs. destruct (p_transaction p) as [tx|] eqn:Et.
  - subst h'. destruct (hub_moves_refl h Hok) as [_ _ Hpr]. split; [|done|done].
    destruct Hok as [Hd Hj Ho]. split; [done|done|]. cbn. apply Forall_app. split; [done|].
    constructor; [|constructor]. exists (p_id p), q. rewrite <-Hd. split; [done|].
    destruct (same_payment_facts _ _ Hsame) as (_ & _ & _ & _ & _ & E). congruence.
  - destruct Hs as [->|Hc]; [by apply hub_moves_refl|by eapply confirm_moves].
Qed.

Lemma resolve_moves c nv h p now h' :
  hub_ok h -> snapshot h p -> p_status p <> PaymentConfirmed -> resolve c nv h p now = Ok h' -> hub_moves h h'.
Proof.
  intros Hok Hsnap Hs. unfold resolve. destruct (_ <? _)%Z; [intros E; inv_ok; subst; by apply hub_moves_refl|].
  intros E. inv_ok. match type of E with context [scan_for_evidence ?f p] =>
    pose proof (scan_fields f p) as Hscan; destruct (scan_for_evidence f p) as [sc ev] end.
  cbn in Hscan. destruct Hscan as (S1 & S2 & S3 & S4).
  assert (Hw : forall next q, p_status next <> PaymentConfirmed -> same_payment p next ->
    p_submissions next = p_submissions p ->
    tb_payments (live h) !! p_id next = Some q -> unmoved q p = true ->
    hub_moves h (with_boards h (put_payment (live h) next) (put_payment (disk h) next))).
  { intros next q H1 H2 H3 H4 H5. eapply (write_moves h p next); try done. rewrite H3. lia. }
  assert (Hchain : match ev with
      | Mined => confirm c h p
      | AbsentFromChain => save_progress c h p (set_payment_status sc PaymentNeedsReview)
      | Inconclusive => save_progress c h p sc end = Ok h' -> hub_moves h h').
  { destruct ev; [by apply confirm_moves|..]; intros Hp;
      apply save_progress_shape in Hp as [->|(q & Hq & Hu & ->)]; try (by apply hub_moves_refl);
      (eapply Hw; [| | |exact Hq|exact Hu]); try done; congruence. }
  match goal with F : payment_outcome nv p = Ok ?o |- _ => destruct o; [by eapply confirm_moves| |inv_ok; subst; by apply hub_moves_refl|by apply Hchain] end.
  case_decide as Hp; [|by apply Hchain].
  pose proof (after_never_landed_fields p now) as (A1 & A2 & A3 & A4). rewrite Hp in A4.
  apply resend_shape in E as [->|(q & h1 & Hq & Hu & -> & Hend)]; [by apply hub_moves_refl|].
  assert (Hm : hub_moves h (with_boards h (put_payment (live h) (after_never_landed p now))
                                           (put_payment (disk h) (after_never_landed p now)))).
  { eapply (write_moves h p); try done. by destruct A4 as [->| ->]. }
  destruct Hend as [[_ ->]|[_ Hsend]]; [done|]. eapply hub_moves_trans; [exact Hm|].
  eapply send_moves; [apply Hm| |exact Hsend]. exists (after_never_landed p now). cbn.
  split; [apply lookup_insert_eq|done].
Qed.

Lemma prepare_moves c h id now1 now2 for_ source recipient amount tx h' p' :
  hub_ok h -> tb_payments (live h) !! id = None ->
  prepare c h (payment_new id now1 now2 for_ source recipient amount tx) = Ok (h', p') ->
  hub_moves h h' /\ snapshot h' p'.
Proof.
  intros Hok Hn Hp. apply prepare_shape in Hp as (-> & _ & a & x & Hr & ->). set (p := set_scanned _ _) in *.
  destruct Hok as [Hd Hj Ho]. rewrite <-Hd.
  assert (Hj' : journal_ok (apply_effects (live h) p a x None (is_faucet p))) by (by apply reserved_journal).
  assert (Ep : tb_payments (apply_effects (live h) p a x None (is_faucet p)) = <[id := p]> (tb_payments (live h)))
    by (unfold apply_effects; by destruct a, x, (is_faucet p)).
  split; [split|].
  - split; [done|done|]. cbn. rewrite Ep. eapply Forall_impl; [exact Ho|]. cbn. intros t (i & q & Hq & Et).
    exists i, q. rewrite <-Hd in Hq. rewrite lookup_insert_ne by congruence. done.
  - cbn. by apply reserved_money.
  - intros i q Hq. cbn. rewrite Ep. exists q. rewrite lookup_insert_ne by congruence. split; [done|].
    apply progresses_refl. by apply (jo_submissions _ Hj i q).
  - exists p. cbn. rewrite Ep. split; [apply lookup_insert_eq|done].
Qed.

End moves.
