(* ===== verification/PaymentTheorems.v ===== *)
(** * PaymentTheorems: what the payment journal promises

    The operations of [payments.rs] as a step relation over the hub, with a
    restart from disk between any two of them, and the properties of its
    histories; what it takes to confirm a payment; what a scan of the chain
    concludes; which outputs are kept from being spent again. *)

From S2P Require Import Prelude Types Crypto BoardTypes Exchange Tasks Board Payouts Payments PaymentInv.

Section steps.
Context `{Primitives}.

(** [ps_send] and [ps_resolve] act on a copy of the payment read earlier. *)
Inductive pay_step (h : Hub) : Hub -> Prop :=
| ps_prepare commits id now1 now2 for_ source recipient amount tx h' p' :
    tb_payments (live h) !! id = None ->
    prepare commits h (payment_new id now1 now2 for_ source recipient amount tx) = Ok (h', p') ->
    pay_step h h'
| ps_send commits p h' : snapshot h p -> send commits h p = Ok h' -> pay_step h h'
| ps_resolve commits nv p now h' :
    snapshot h p -> p_status p <> PaymentConfirmed -> resolve commits nv h p now = Ok h' -> pay_step h h'
| ps_height n : pay_step h (mkHub (live h) (disk h) n (outbox h))
| ps_restart : pay_step h (mkHub (disk h) (disk h) (chain_height h) (outbox h)).

Lemma pay_step_moves h h' : pay_step h h' -> hub_ok h -> hub_moves h h'.
Proof.
  intros Hs Hok. destruct Hs; [by eapply prepare_moves|by eapply send_moves|by eapply resolve_moves|..];
    destruct (hub_moves_refl h Hok) as [[Hd Hj Ho] Hm Hp]; cbn in *.
  - by split.
  - split; cbn; rewrite <-?Hd; [|done|done]. split; cbn; rewrite <-?Hd; [done|done|]. by rewrite Hd.
Qed.

Lemma pay_steps_moves h h' : rtc pay_step h h' -> hub_ok h -> hub_moves h h'.
Proof.
  induction 1 as [h|h h1 h' Hs _ IH]; intros Hok; [by apply hub_moves_refl|].
  pose proof (pay_step_moves _ _ Hs Hok) as Hm. eapply hub_moves_trans; [exact Hm|]. apply IH, Hm.
Qed.

(** C26: Live state and disk agree after any history of the payment journal, every
    transaction handed to the node belongs to a payment on disk, and every payment
    survives with its receipt unchanged, its submissions within the limit, and
    unchanged once confirmed. *)
Theorem payments_survive_restart h h' :
  hub_ok h -> rtc pay_step h h' ->
  live h' = disk h' /\
  Forall (fun tx => exists i p, tb_payments (disk h') !! i = Some p /\ p_transaction p = Some tx) (outbox h') /\
  forall i p, tb_payments (live h) !! i = Some p ->
    exists p', tb_payments (disk h') !! i = Some p' /\ same_payment p p' /\
      p_submissions p <= p_submissions p' <= MAX_PAYOUT_SUBMISSIONS /\
      (p_status p = PaymentConfirmed -> p' = p).
Proof.
  intros Hok Hs. destruct (pay_steps_moves _ _ Hs Hok) as [[Hd Hj Ho] _ Hp].
  split; [done|]. split; [done|]. intros i p Hi. rewrite <-Hd. by apply Hp.
Qed.

(** C19: Over any history of preparing, sending, resolving and restarting, the exchange
    balances plus the debits of the withdrawals in the journal stay constant, and no
    debit is ever released. *)
Theorem withdrawals_conserve_base h h' :
  hub_ok h -> rtc pay_step h h' ->
  base_total (live h') + debit_total (live h') = base_total (live h) + debit_total (live h) /\
  debit_total (live h) <= debit_total (live h').
Proof.
  intros Hok Hs. destruct (pay_steps_moves _ _ Hs Hok) as [_ Hm Hp]. split; [done|].
  assert (Hsub : forall (m m' : gmap Uuid Payment),
    (forall i p, m !! i = Some p -> exists p', m' !! i = Some p' /\ progresses p p') ->
    map_sum debit_of m <= map_sum debit_of m'); [|by apply Hsub].
  clear. induction m as [|i p m Hi IH] using map_ind; intros m' Hm; [rewrite map_sum_empty; lia|].
  destruct (Hm i p) as (p' & Hp' & (Hsame & _)); [apply lookup_insert_eq|].
  rewrite map_sum_insert by done. rewrite (map_sum_delete debit_of m' i p' Hp').
  destruct (same_payment_facts _ _ Hsame) as (_ & _ & _ & _ & -> & _).
  assert (map_sum debit_of m <= map_sum debit_of (delete i m')); [|lia].
  apply IH. intros j q Hq. destruct (Hm j q) as (q' & Hq' & Hpr).
  - rewrite lookup_insert_ne by congruence. done.
  - exists q'. rewrite lookup_delete_ne by congruence. done.
Qed.

(** C28: In every reachable journal each escrow has at most one payment, its deposit is
    Disbursing until that payment confirms and Refunded after, and each faucet
    recipient has at most one grant payment and is marked as having claimed. *)
Theorem one_payment_per_escrow_and_grant h h' :
  hub_ok h -> rtc pay_step h h' ->
  forall i p, tb_payments (live h') !! i = Some p ->
    p_id p = i /\
    (forall d, escrow_of p = Some d ->
       (exists x, tb_deposits (live h') !! d = Some x /\
          pd_status x = (if decide (p_status p = PaymentConfirmed) then Refunded else Disbursing)) /\
       forall j q, tb_payments (live h') !! j = Some q -> escrow_of q = Some d -> j = i) /\
    (is_faucet p = true ->
       can_claim_faucet (live h') (p_recipient p) = false /\
       forall j q, tb_payments (live h') !! j = Some q -> is_faucet q = true ->
         p_recipient q = p_recipient p -> j = i).
Proof.
  intros Hok Hs i p Hp. destruct (pay_steps_moves _ _ Hs Hok) as [[_ [J1 J2 J3 J4 J5] _] _ _].
  split; [by apply J1|]. split.
  - intros d Hd. by apply (J4 i p d).
  - intros Hf. destruct (J5 i p Hp Hf) as [[g Hg] Huq]. split; [|done].
    unfold can_claim_faucet. by rewrite Hg.
Qed.

(** ** Evidence *)

(** Blocks the node serves: from the height asked for, at least one while there
    are any. *)
Definition serves (chain : list Block) (fetch : N -> nat -> option (list Block)) : Prop :=
  forall start blocks, fetch start EVIDENCE_SCAN_BLOCKS_PER_PASS = Some blocks ->
    exists n, blocks = take n (drop (N.to_nat start) chain) /\
      (blocks = [] -> (length chain <= N.to_nat start)%nat).

(** What a verdict says of the blocks from where the payment's scan stood. *)
Definition verdict (chain : list Block) (w : Hash) (from to_ : N) (e : Evidence) : Prop :=
  from <= to_ /\
  match e with
  | Mined => exists b, b ∈ drop (N.to_nat from) chain /\ creates w b = true
  | AbsentFromChain => forall b, b ∈ drop (N.to_nat from) chain -> creates w b = false
  | Inconclusive => forall b, b ∈ take (N.to_nat to_ - N.to_nat from) (drop (N.to_nat from) chain) ->
                      creates w b = false
  end.

Lemma verdict_after chain w from blocks to_ e :
  drop (N.to_nat from) chain = blocks ++ drop (N.to_nat (from + N.of_nat (length blocks))) chain ->
  (forall b, b ∈ blocks -> creates w b = false) ->
  verdict chain w (from + N.of_nat (length blocks)) to_ e -> verdict chain w from to_ e.
Proof.
  intros Hd Hno [Hle Hv]. split; [lia|]. rewrite Hd. destruct e.
  - destruct Hv as (b & Hb & Hc). exists b. split; [|done]. apply elem_of_app. by right.
  - intros b [Hb|Hb]%elem_of_app; [by apply Hno|by apply Hv].
  - intros b. rewrite take_app_ge by lia. intros [Hb|Hb]%elem_of_app; [by apply Hno|].
    apply Hv. by replace (N.to_nat to_ - N.to_nat (from + N.of_nat (length blocks)))%nat
      with (N.to_nat to_ - N.to_nat from - length blocks)%nat by lia.
Qed.

Lemma scan_passes_sound chain fetch w :
  serves chain fetch -> N.of_nat (length chain) <= U64_MAX -> forall n p,
  let '(sc, e) := scan_passes n fetch w p in
  verdict chain w (p_scanned_through p) (p_scanned_through sc) e /\
  ((0 < n)%nat -> fetch (p_scanned_through p) EVIDENCE_SCAN_BLOCKS_PER_PASS <> None -> e = Inconclusive ->
   p_scanned_through p < p_scanned_through sc).
Proof.
  intros Hserve Hlen. induction n as [|n IH]; intros p; cbn [scan_passes].
  { split; [|lia]. split; [lia|]. rewrite Nat.sub_diag. cbn. set_solver. }
  destruct (fetch (p_scanned_through p) _) as [blocks|] eqn:Ef.
  2: { split; [|done]. split; [lia|]. rewrite Nat.sub_diag. cbn. set_solver. }
  destruct (Hserve _ _ Ef) as (k & Hbl & Hnil). set (start := p_scanned_through p) in *.
  destruct blocks as [|b0 bs].
  { split; [|done]. split; [lia|]. intros b. rewrite drop_ge by (by apply Hnil). set_solver. }
  set (blocks := b0 :: bs) in *.
  assert (Hl : (length blocks = k `min` (length chain - N.to_nat start))%nat)
    by (by rewrite Hbl, length_take, length_drop).
  assert (Hpos : (0 < length blocks)%nat) by (cbn; lia).
  assert (Hd : drop (N.to_nat start) chain = blocks ++ drop (N.to_nat (start + N.of_nat (length blocks))) chain).
  { rewrite <-(take_drop k (drop (N.to_nat start) chain)) at 1. rewrite <-Hbl, drop_drop. f_equal.
    destruct (decide (k <= length chain - N.to_nat start)%nat); [f_equal; lia|].
    rewrite !drop_ge by lia. done. }
  assert (Hsat : saturating_add U64_MAX start (N.of_nat (length blocks)) = start + N.of_nat (length blocks))
    by (unfold saturating_add; lia).
  rewrite Hsat. destruct (existsb (creates w) blocks) eqn:Ex.
  - apply existsb_elem in Ex as (b & Hb & Hc). split; [|done]. split; [cbn; lia|].
    exists b. split; [|done]. rewrite Hd. apply elem_of_app. by left.
  - specialize (IH (set_scanned p (start + N.of_nat (length blocks)))). cbn [p_scanned_through set_scanned] in IH.
    destruct (scan_passes n fetch w _) as [sc e]. destruct IH as [Hv _]. split.
    + eapply verdict_after; [exact Hd| |exact Hv]. intros b Hb. by apply (existsb_false_elem _ blocks).
    + intros _ _ _. destruct Hv as [Hle _]. lia.
Qed.

(** Against a node that serves blocks from the height asked, a scan that says Mined found
    the output in the chain, one that says absent has read every block from its start,
    an inconclusive one has read a block-free stretch and moved forward. *)
Theorem evidence_is_sound chain fetch p w sc e :
  serves chain fetch -> N.of_nat (length chain) <= U64_MAX ->
  p_output_hash p = Some w -> scan_for_evidence fetch p = (sc, e) ->
  verdict chain w (p_scanned_through p) (p_scanned_through sc) e /\
  (fetch (p_scanned_through p) EVIDENCE_SCAN_BLOCKS_PER_PASS <> None -> e = Inconclusive ->
   p_scanned_through p < p_scanned_through sc).
Proof.
  intros Hserve Hlen Hw. unfold scan_for_evidence. rewrite Hw. intros Hs.
  pose proof (scan_passes_sound chain fetch w Hserve Hlen 2 p) as Hv. rewrite Hs in Hv.
  destruct Hv as [H1 H2]. split; [done|]. intros Hf. apply H2; [lia|done].
Qed.

(** ** Confirming *)

Lemma scan_passes_mined fetch w n : forall p sc,
  scan_passes n fetch w p = (sc, Mined) ->
  exists from blocks b, fetch from EVIDENCE_SCAN_BLOCKS_PER_PASS = Some blocks /\ b ∈ blocks /\ creates w b = true.
Proof.
  induction n as [|n IH]; intros p sc; cbn [scan_passes]; [done|].
  destruct (fetch _ _) as [[|b0 bs]|] eqn:Ef; [done| |done].
  destruct (existsb (creates w) (b0 :: bs)) eqn:Ex; [|by apply IH]. intros _. apply existsb_elem in Ex as (b & Hb & Hc). eauto 6.
Qed.

Lemma scan_mined fetch p sc :
  scan_for_evidence fetch p = (sc, Mined) ->
  exists w from blocks b, p_output_hash p = Some w /\
    fetch from EVIDENCE_SCAN_BLOCKS_PER_PASS = Some blocks /\ b ∈ blocks /\ creates w b = true.
Proof.
  unfold scan_for_evidence. destruct (p_output_hash p) as [w|]; [|done]. intros Hs.
  apply scan_passes_mined in Hs as (from & blocks & b & ? & ? & ?). exists w, from, blocks, b. done.
Qed.

Lemma resolve_landed w spent us us' :
  resolve_against w spent us us' = Confirmed -> exists e, e ∈ us /\ output_hash e.2 = w.
Proof.
  unfold resolve_against. destruct (existsb _ us) eqn:Ex.
  - intros _. apply existsb_elem in Ex as (e & He & Hw). apply N.eqb_eq in Hw. eauto.
  - destruct spent; [done|]. by destruct (scan_inputs us' _) as [[] []].
Qed.

Lemma resend_never_confirms commits h p now h' q q' :
  p_status p = PaymentPending -> tb_payments (live h) !! p_id p = Some q -> p_status q <> PaymentConfirmed ->
  tb_payments (live h') !! p_id p = Some q' -> p_status q' = PaymentConfirmed ->
  resend commits h p (after_never_landed p now) <> Ok h'.
Proof.
  intros Hp Hq Hsq Hq' Hs' Hr. pose proof (after_never_landed_fields p now) as (A1 & _ & _ & A4).
  apply same_payment_facts in A1 as (Hid & _ & _ & _ & _ & Htx).
  assert (Hwritten : tb_payments (live h') !! p_id p = Some (after_never_landed p now) -> False).
  { intros E. rewrite Hq' in E. injection E as ->. destruct A4; congruence. }
  apply resend_shape in Hr as [->|(u & h1 & _ & _ & -> & [[_ ->]|[Hpend Hsend]])]; [congruence|..].
  - apply Hwritten. cbn. rewrite Hid. apply lookup_insert_eq.
  - apply send_shape in Hsend. rewrite <-Htx in Hsend. destruct (p_transaction p) eqn:Et.
    + subst h'. apply Hwritten. cbn. rewrite Hid. apply lookup_insert_eq.
    + revert Hpend. unfold after_never_landed. rewrite Et, bool_decide_eq_true_2, orb_true_r by done. done.
Qed.

(** Resolution turns a payment into a confirmed one only when its output is at the
    recipient or in a block the node served, or when there was nothing to send. *)
Theorem confirmation_needs_evidence commits nv h p now h' q q' :
  hub_ok h -> snapshot h p -> p_status p <> PaymentConfirmed ->
  resolve commits nv h p now = Ok h' ->
  tb_payments (live h) !! p_id p = Some q -> p_status q <> PaymentConfirmed ->
  tb_payments (live h') !! p_id p = Some q' -> p_status q' = PaymentConfirmed ->
  p_output_hash p = None \/
  (exists us e w, nv_recipient nv = Some us /\ e ∈ us /\ p_output_hash p = Some w /\ output_hash e.2 = w) \/
  (exists w from blocks b, p_output_hash p = Some w /\
     nv_blocks nv from EVIDENCE_SCAN_BLOCKS_PER_PASS = Some blocks /\ b ∈ blocks /\ creates w b = true).
Proof.
  intros Hok Hsnap Hs Hr Hq Hsq Hq' Hs'. unfold resolve in Hr.
  destruct (_ <? _)%Z; [inv_ok; subst; congruence|]. inv_ok.
  match goal with F : payment_outcome nv p = Ok _ |- _ => rename F into Ho end.
  match type of Hr with context [scan_for_evidence ?f p] =>
    pose proof (scan_fields f p) as (S1 & _ & S3 & _); pose proof (scan_mined f p) as Sm;
    destruct (scan_for_evidence f p) as [sc ev] end. cbn [fst] in S1, S3.
  assert (Hid : p_id sc = p_id p) by (symmetry; by apply same_payment_facts in S1 as [? _]).
  assert (Hchain : match ev with
      | Mined => confirm commits h p
      | AbsentFromChain => save_progress commits h p (set_payment_status sc PaymentNeedsReview)
      | Inconclusive => save_progress commits h p sc end = Ok h' -> ev = Mined).
  { destruct ev; [done|..]; intros Hp; exfalso;
      apply save_progress_shape in Hp as [->|(u & Hu & _ & ->)]; try congruence; cbn in Hq';
      rewrite Hid, lookup_insert_eq in Hq'; injection Hq' as <-; cbn in Hs'; congruence. }
  unfold payment_outcome in Ho. destruct (p_output_hash p) as [w|]; [right|by left]. inv_ok. subst.
  match type of Hr with match resolve_against _ _ ?us ?us' with _ => _ end = _ =>
    pose proof (resolve_landed w (p_spent_inputs p) us us') as Hl end.
  destruct (resolve_against w (p_spent_inputs p) _ _).
  - left. destruct (Hl eq_refl) as (e & He & Hw). eexists _, e, w. done.
  - right. case_decide as Hp; [|apply Hchain in Hr; subst ev; by apply (Sm sc)].
    exfalso. revert Hr. apply resend_never_confirms with (q := q) (q' := q'); congruence.
  - inv_ok. subst. congruence.
  - right. apply Hchain in Hr. subst ev. by apply (Sm sc).
Qed.

(** ** Inputs already committed *)

(** An output that an unresolved payment or payout of this address spends. *)
Definition committed (tb : TaskBoard) (source : PublicKey) (rebuilding : list (Uuid * PublicKey)) (h : Hash)
    : Prop :=
  (exists i p, tb_payments tb !! i = Some p /\ p_source p = source /\ p_status p <> PaymentConfirmed /\
     h ∈ p_spent_inputs p) \/
  (exists k a, tb_attempts tb !! k = Some a /\ pa_source a = source /\
     (pa_task_id a, pa_recipient a) ∉ rebuilding /\ h ∈ pa_spent_inputs a).

(** Spent by one of a list of transactions. *)
Definition spent_by {A} (g : A -> list Hash) (l : list A) (h : Hash) : bool :=
  existsb (fun a => existsb (N.eqb h) (g a)) l.

Lemma spent_by_spec {A} (g : A -> list Hash) l h :
  spent_by g l h = true <-> exists a, a ∈ l /\ h ∈ g a.
Proof.
  unfold spent_by. rewrite existsb_elem. setoid_rewrite existsb_elem. setoid_rewrite N.eqb_eq. naive_solver.
Qed.

Lemma mark_fold {A} (g : A -> list Hash) l us :
  foldl (fun us a => mark_spent (g a) us) us l =
  (fun e : bool * TransactionOutput => (e.1 || spent_by g l (output_hash e.2), e.2)) <$> us.
Proof.
  revert us. induction l as [|a l IH]; intros us; cbn [foldl].
  - rewrite <-(list_fmap_id us) at 1. apply list_fmap_ext. intros i [m o] _. cbn. by rewrite orb_false_r.
  - rewrite IH. unfold mark_spent. rewrite <-list_fmap_compose. apply list_fmap_ext. intros i [m o] _. cbn.
    case_match eqn:E; cbn; rewrite ?E; [by rewrite orb_true_r|done].
Qed.

Lemma replacing_false rebuilding a :
  replacing rebuilding a = false <-> (pa_task_id a, pa_recipient a) ∉ rebuilding.
Proof.
  rewrite <-not_true_iff_false. unfold replacing. rewrite existsb_elem. apply not_iff_compat. split.
  - intros ([t r] & Hin & E). apply andb_true_iff in E as [E1%N.eqb_eq E2%bool_decide_eq_true]. cbn in *. by subst.
  - intros Hin. exists (pa_task_id a, pa_recipient a). split; [done|]. cbn.
    by rewrite N.eqb_refl, bool_decide_eq_true_2.
Qed.

(** reserve_inputs changes only the marks, and marks an output exactly when it was marked
    or an unconfirmed payment, or a payout attempt not being rebuilt, of the same
    address spends it. *)
Theorem committed_inputs_are_masked tb source utxos rebuilding :
  (reserve_inputs tb source utxos rebuilding).*2 = utxos.*2 /\
  forall i marked o, utxos !! i = Some (marked, o) ->
    exists marked', reserve_inputs tb source utxos rebuilding !! i = Some (marked', o) /\
      (marked' = true <-> marked = true \/ committed tb source rebuilding (output_hash o)).
Proof.
  unfold reserve_inputs. rewrite !mark_fold, <-!list_fmap_compose.
  set (ps := base.filter _ (btree_values (tb_payments tb))). set (as_ := base.filter _ (outstanding_payout_attempts tb)).
  split.
  - apply list_fmap_ext. intros i [m o] _. cbn. by repeat case_match.
  - intros i m o Hi. eexists. rewrite list_lookup_fmap, Hi. cbn. split; [done|]. 
    rewrite !orb_true_iff, !spent_by_spec. unfold committed.
    assert (Hps : forall p, p ∈ ps <-> exists k, tb_payments tb !! k = Some p /\ p_source p = source /\
                     p_status p <> PaymentConfirmed).
    { intros p. unfold ps. rewrite list_elem_of_filter, elem_of_btree_values. naive_solver. }
    assert (Has : forall a, a ∈ as_ <-> exists k, tb_attempts tb !! k = Some a /\ pa_source a = source /\
                     (pa_task_id a, pa_recipient a) ∉ rebuilding).
    { intros a. unfold as_, outstanding_payout_attempts.
      rewrite list_elem_of_filter, sort_by_perm, elem_of_btree_values, replacing_false. naive_solver. }
    setoid_rewrite Hps. setoid_rewrite Has. naive_solver.
Qed.

End steps.

(** * ToyPayments: a concrete journal

    A withdrawal that confirms, a faucet grant that is resent, the clean-up of
    an empty escrow and a scan of a two-block chain, run on the model, and the
    witnesses of the payment theorems at them. *)

Module ToyPayments.
Import Crypto.Toy.

Definition custody : PublicKey := [9].
Definition dora : PublicKey := [5].

Definition coin_in : TransactionOutput := mkOutput 5000 1 custody.
Definition paid_out : TransactionOutput := mkOutput 1500 2 dora.
Definition withdraw_tx : Transaction := mkTransaction [mkInput (output_hash coin_in) []] [paid_out].

Definition ledger0 : TaskBoard :=
  with_deposits (with_accounts new_board {[dora := mkAccount 4000 1000 0 0]})
    {[20 := mkDeposit 20 dora [20] None 100 FundExchangeAccount Consumed 0 1000]}.
Definition hub0 : Hub := mkHub ledger0 ledger0 10 [].

Lemma hub0_ok : hub_ok hub0.
Proof.
  split; [done| |constructor]. split; cbn.
  - apply map_Forall_empty.
  - by apply map_Forall_singleton.
  - apply map_Forall_empty.
  - intros i p d Hp. by rewrite lookup_empty in Hp.
  - intros i p Hp. by rewrite lookup_empty in Hp.
Qed.

Definition result (o : outcome PaymentError Hub) : Hub := match o with Ok h => h | _ => hub0 end.
Definition prepared (o : outcome PaymentError (Hub * Payment)) : Hub := result ('(h, _) ← o; Ok h).

(** The withdrawal: reserved, sent, seen at its recipient. *)
Definition withdrawal : Payment :=
  payment_new 1 0 0 (Withdrawal 2500) custody dora 1500 (Some withdraw_tx).
Definition withdrawal' : Payment := set_scanned withdrawal 6.
Definition hub1 : Hub := Eval vm_compute in prepared (prepare true hub0 withdrawal).
Definition hub2 : Hub := Eval vm_compute in result (send true hub1 withdrawal').
Definition seen : NodeView := mkView (Some [(false, paid_out)]) (Some []) (fun _ _ => None).
Definition hub3 : Hub := Eval vm_compute in result (resolve true seen hub2 withdrawal' (seconds 31)).

(** The empty escrow: settled without a transaction. *)
Definition escrow_sweep : Payment := payment_new 2 0 0 (Escrow 20 false Consumed) [20] dora 0 None.
Definition hub4 : Hub := Eval vm_compute in prepared (prepare true hub3 escrow_sweep).
Definition hub5 : Hub := Eval vm_compute in result (send true hub4 (set_scanned escrow_sweep 6)).

Example journal_end :
  p_status <$> tb_payments (live hub5) !! 1 = Some PaymentConfirmed /\
  p_status <$> tb_payments (live hub5) !! 2 = Some PaymentConfirmed /\
  pd_status <$> tb_deposits (live hub5) !! 20 = Some Refunded /\
  exchange_account (live hub5) dora = mkAccount 1500 1000 0 0 /\ length (outbox hub5) = 1%nat.
Proof. split_and!; vm_compute; reflexivity. Qed.

Lemma snapshot_of h p q :
  tb_payments (live h) !! p_id p = Some q -> receipt_of q = receipt_of p -> snapshot h p.
Proof. intros H1 H2. by exists q. Qed.

Lemma withdrawal_in_hub2 : snapshot hub2 withdrawal'.
Proof. apply (snapshot_of _ _ withdrawal'); vm_compute; reflexivity. Qed.

Lemma hub0_hub2 : rtc pay_step hub0 hub2.
Proof.
  eapply rtc_l; [eapply (ps_prepare hub0 true 1 0 0 (Withdrawal 2500) custody dora 1500 (Some withdraw_tx) hub1 withdrawal');
    vm_compute; reflexivity|].
  eapply rtc_l; [eapply (ps_send hub1 true withdrawal' hub2)|reflexivity];
    [apply (snapshot_of _ _ withdrawal'); vm_compute; reflexivity|vm_compute; reflexivity].
Qed.

Lemma hub0_hub5 : rtc pay_step hub0 hub5.
Proof.
  etrans; [apply hub0_hub2|].
  eapply rtc_l; [eapply (ps_resolve hub2 true seen withdrawal' (seconds 31) hub3);
    [apply withdrawal_in_hub2|done|vm_compute; reflexivity]|].
  eapply rtc_l; [apply ps_restart|].
  eapply rtc_l; [eapply (ps_prepare hub3 true 2 0 0 (Escrow 20 false Consumed) [20] dora 0 None hub4
    (set_scanned escrow_sweep 6)); vm_compute; reflexivity|].
  eapply rtc_l; [eapply (ps_send hub4 true (set_scanned escrow_sweep 6) hub5)|reflexivity];
    [apply (snapshot_of _ _ (set_scanned escrow_sweep 6)); vm_compute; reflexivity|vm_compute; reflexivity].
Qed.

Lemma hub2_ok : hub_ok hub2.
Proof. apply (pay_steps_moves _ _ hub0_hub2 hub0_ok). Qed.

(** ** Witnesses *)
Lemma payments_survive_restart_witness : live hub5 = disk hub5.
Proof. exact (proj1 (payments_survive_restart hub0 hub5 hub0_ok hub0_hub5)). Defined.

Lemma withdrawals_conserve_base_witness :
  base_total (live hub5) + debit_total (live hub5) = base_total (live hub0) + debit_total (live hub0).
Proof. exact (proj1 (withdrawals_conserve_base hub0 hub5 hub0_ok hub0_hub5)). Defined.

Lemma one_payment_per_escrow_and_grant_witness :
  exists x, tb_deposits (live hub5) !! 20 = Some x /\ pd_status x = Refunded.
Proof.
  destruct (one_payment_per_escrow_and_grant hub0 hub5 hub0_ok hub0_hub5 2
    (set_payment_status (set_scanned escrow_sweep 6) PaymentConfirmed) ltac:(vm_compute; reflexivity)) as (_ & H & _).
  exact (proj1 (H 20 eq_refl)).
Defined.

Lemma confirmation_needs_evidence_witness :
  exists us e w, nv_recipient seen = Some us /\ e ∈ us /\ p_output_hash withdrawal' = Some w /\ output_hash e.2 = w.
Proof.
  destruct (confirmation_needs_evidence true seen hub2 withdrawal' (seconds 31) hub3 withdrawal'
    (set_payment_status withdrawal' PaymentConfirmed) hub2_ok withdrawal_in_hub2 ltac:(discriminate)
    ltac:(vm_compute; reflexivity) ltac:(vm_compute; reflexivity) ltac:(discriminate)
    ltac:(vm_compute; reflexivity) ltac:(reflexivity)) as [H|[H|(w & from & bs & b & _ & H & _)]].
  - discriminate H.
  - exact H.
  - discriminate H.
Defined.

(** *** A scan *)
Definition mined_block : Block := mkBlock (mkHeader 0 0 0 0 0) [withdraw_tx].
Definition empty_block : Block := mkBlock (mkHeader 0 0 0 0 0) [].
Definition little_chain : list Block := [empty_block; mined_block].
Definition serve_one (start : N) (cap : nat) : option (list Block) :=
  Some (take (Nat.min 1 cap) (drop (N.to_nat start) little_chain)).

Lemma serve_one_serves : serves little_chain serve_one.
Proof.
  intros start blocks E. unfold serve_one in E. injection E as <-. exists 1%nat.
  split; [done|]. intros Hnil. destruct (drop (N.to_nat start) little_chain) eqn:Ed; [|done].
  apply (f_equal length) in Ed. rewrite length_drop in Ed. cbn in *. lia.
Qed.

Lemma evidence_is_sound_witness :
  exists b, b ∈ little_chain /\ creates (output_hash paid_out) b = true.
Proof.
  destruct (evidence_is_sound little_chain serve_one withdrawal (output_hash paid_out)
    (set_scanned withdrawal 2) Mined serve_one_serves ltac:(vm_compute; discriminate)
    ltac:(vm_compute; reflexivity) ltac:(vm_compute; reflexivity)) as [[_ H] _].
  exact H.
Defined.
End ToyPayments.
