(* ===== verification/Auth.v ===== *)
(** * Auth: signed requests and the replay guard

    Models [SignedEnvelope::verify_signature] of [lib/src/envelope.rs],
    [ReplayGuard] and [verify_charging] of [hub/src/auth.rs], and the replay
    table of [hub/src/store.rs]. The hexadecimal, key, signature and time
    formats are arguments: [EnvelopeEnv].

    The clock reading of a request is an argument of [verify_charging], which is
    one step of the guard ([AuthRace] cuts it). Whether a write to the store succeeds, and whether
    the key's quota allows the request, are arguments too. *)

From S2P Require Import Prelude Types Crypto.

Definition MAX_REQUEST_DRIFT_SECONDS : Z := 120.
Definition REPLAY_MEMORY_SECONDS : Z := 2 * MAX_REQUEST_DRIFT_SECONDS.

Inductive EnvelopeError : Type :=
| ClockDrift
| Replayed
| GuardWarmingUp
| GuardUnavailable
| BadSignature
| BadPublicKey
| BadSignatureEncoding.

Inductive VerifyError : Type := Auth (e : EnvelopeError) | Quota.

(** The payload is what [serde_json::to_string] makes of it. *)
Record SignedEnvelope := mkEnvelope {
  e_pubkey : string;
  e_timestamp : DateTime;
  e_payload : string;
  e_signature : string
}.

(** The formats: [hex::decode], the SEC1 and the signature decoders,
    [DateTime::to_rfc3339], and the bytes of a string. *)
Class EnvelopeEnv := {
  hex_decode : string -> option (list N);
  from_sec1_bytes : list N -> option PublicKey;
  signature_from_bytes : list N -> option Signature;
  to_rfc3339 : DateTime -> string;
  string_bytes : string -> list N
}.

Section auth.
Context `{Primitives, EnvelopeEnv}.

(** [SignedEnvelope::signing_string] *)
Definition signing_string (e : SignedEnvelope) (method path hub : string) : string :=
  (e_pubkey e +:+ ":" +:+ to_rfc3339 (e_timestamp e) +:+ ":" +:+ method +:+ " " +:+ path +:+ ":" +:+ hub
   +:+ ":" +:+ e_payload e)%string.

(** [SignedEnvelope::verify_signature] *)
Definition verify_signature (e : SignedEnvelope) (now : DateTime) (method path hub : string)
    : outcome EnvelopeError PublicKey :=
  ensure (Z.abs (now - e_timestamp e) <=? seconds MAX_REQUEST_DRIFT_SECONDS)%Z otherwise ClockDrift;
  pk_bytes ← ok_or (hex_decode (e_pubkey e)) BadPublicKey;
  pk ← ok_or (from_sec1_bytes pk_bytes) BadPublicKey;
  sig_bytes ← ok_or (hex_decode (e_signature e)) BadSignatureEncoding;
  sig ← ok_or (signature_from_bytes sig_bytes) BadSignatureEncoding;
  ensure verify sig (hash_bytes (string_bytes (signing_string e method path hub))) pk
    otherwise BadSignature;
  Ok pk.

(** ** The guard *)

(** [seen] in memory, [table] on disk (whole seconds), and the end of the
    restart window. *)
Record ReplayGuard := mkGuard {
  seen : gmap (list N) DateTime;
  table : gmap (list N) Z;
  accepting_from : option DateTime
}.

Definition whole_seconds (t : DateTime) : Z := (t / 1000000000)%Z.

(** [forget_before] *)
Definition forget_before (now : DateTime) : DateTime := (now - seconds (REPLAY_MEMORY_SECONDS + 1))%Z.

(** [ReplayGuard::restore] with [HubStore::load_recent_signatures] *)
Definition restore (table : gmap (list N) Z) (now : DateTime) : ReplayGuard :=
  let recent := filter (fun e : list N * Z => (whole_seconds (forget_before now) < e.2)%Z) table in
  mkGuard (seconds <$> recent) table None.

(** [ReplayGuard::booting] *)
Definition booting (table : gmap (list N) Z) (started_at : DateTime) : ReplayGuard :=
  mkGuard ∅ table (Some (started_at + seconds REPLAY_MEMORY_SECONDS)%Z).

(** [ReplayGuard::refuses_at], [already_seen] *)
Definition refuses_at (g : ReplayGuard) (now : DateTime) : bool :=
  match accepting_from g with Some from => (now <? from)%Z | None => false end.
Definition already_seen (g : ReplayGuard) (sig : list N) : bool :=
  match seen g !! sig with Some _ => true | None => false end.

(** [ReplayGuard::claim] with [HubStore::record_seen_signature] *)
Definition claim (commits : bool) (g : ReplayGuard) (sig : list N) (now : DateTime)
    : ReplayGuard * outcome EnvelopeError unit :=
  let g1 := mkGuard (<[sig := now]> (seen g)) (table g) (accepting_from g) in
  if already_seen g sig then (g1, Err Replayed)
  else if commits
       then (mkGuard (seen g1) (<[sig := whole_seconds now]> (table g1)) (accepting_from g1), Ok tt)
       else (g1, Err GuardUnavailable).

(** [ReplayGuard::cleanup] with [HubStore::prune_seen_signatures] *)
Definition cleanup (commits : bool) (g : ReplayGuard) (now : DateTime) : ReplayGuard :=
  let cutoff := forget_before now in
  mkGuard (filter (fun e : list N * DateTime => (cutoff < e.2)%Z) (seen g))
    (if commits then filter (fun e : list N * Z => (whole_seconds cutoff < e.2)%Z) (table g) else table g)
    (accepting_from g).

(** [VerifyEnvelope::verify_charging]; [expect] on the signature's hexadecimal
    form, which [verify_signature] has decoded. *)
Definition verify_charging (commits quota_ok : bool) (g : ReplayGuard) (e : SignedEnvelope) (now : DateTime)
    (method path hub : string) : ReplayGuard * outcome VerifyError PublicKey :=
  if refuses_at g now then (g, Err (Auth GuardWarmingUp))
  else
    match verify_signature e now method path hub with
    | Err x => (g, Err (Auth x))
    | Panic => (g, Panic)
    | Ok pk =>
        match hex_decode (e_signature e) with
        | None => (g, Panic)
        | Some sig =>
            if already_seen g sig then (g, Err (Auth Replayed))
            else if negb quota_ok then (g, Err Quota)
            else
              match claim commits g sig now with
              | (g', Ok _) => (g', Ok pk)
              | (g', Err x) => (g', Err (Auth x))
              | (g', Panic) => (g', Panic)
              end
        end
    end.

End auth.

(** * AuthTheorems: no request is accepted twice

    The guard's life as a step relation: requests, sweeps, and restarts that
    could or could not read the replay table, on a clock that does not run
    backwards. [replay_impossible] holds of every such life. *)

Section replay.
Context `{Primitives, EnvelopeEnv}.

(** The guard, the last clock reading, and the requests accepted so far: the
    timestamp and the signature each carried, and when it was accepted. *)
Record Life := mkLife {
  guard : ReplayGuard;
  clock : DateTime;
  log : list (DateTime * list N * DateTime)
}.

Definition drift : Z := seconds MAX_REQUEST_DRIFT_SECONDS.

Inductive life_step (s : Life) : Life -> Prop :=
| ls_accepted commits quota_ok e sig now method path hub g' pk :
    (clock s <= now)%Z -> hex_decode (e_signature e) = Some sig ->
    verify_charging commits quota_ok (guard s) e now method path hub = (g', Ok pk) ->
    life_step s (mkLife g' now (log s ++ [(e_timestamp e, sig, now)]))
| ls_refused commits quota_ok e now method path hub g' x :
    (clock s <= now)%Z ->
    verify_charging commits quota_ok (guard s) e now method path hub = (g', Err x) ->
    life_step s (mkLife g' now (log s))
| ls_cleanup commits now :
    (clock s <= now)%Z -> life_step s (mkLife (cleanup commits (guard s) now) now (log s))
| ls_restored now :
    (clock s < now)%Z -> life_step s (mkLife (restore (table (guard s)) now) now (log s))
| ls_booted now :
    (clock s < now)%Z -> life_step s (mkLife (booting (table (guard s)) now) now (log s)).

Definition born (now : DateTime) : Life := mkLife (restore ∅ now) now [].

(** An accepted request cannot verify any more, or is remembered on disk, and
    in memory or by the restart window. *)
Definition covered (g : ReplayGuard) (now : DateTime) (a : DateTime * list N * DateTime) : Prop :=
  let '(ts, sig, at_) := a in
  (ts <= at_ + drift)%Z /\ (at_ <= now)%Z /\
  ((ts + drift < now)%Z \/
   (exists v, table g !! sig = Some v /\ (whole_seconds at_ <= v)%Z) /\
   ((exists u, seen g !! sig = Some u /\ (seconds (whole_seconds at_) <= u)%Z) \/
    (exists from, accepting_from g = Some from /\ (ts + drift < from)%Z))).

Definition guarded (s : Life) : Prop :=
  Forall (covered (guard s) (clock s)) (log s) /\ NoDup ((fun a : DateTime * list N * DateTime => a.1) <$> log s).

(** ** Arithmetic of the window *)
Lemma whole_seconds_bounds t : (seconds (whole_seconds t) <= t < seconds (whole_seconds t) + seconds 1)%Z.
Proof. unfold seconds, whole_seconds. pose proof (Z.div_mod t 1000000000). pose proof (Z.mod_pos_bound t 1000000000). lia. Qed.

Lemma forgotten_expired ts at_ now :
  (ts <= at_ + drift)%Z -> (seconds (whole_seconds at_) <= forget_before now)%Z -> (ts + drift < now)%Z.
Proof.
  pose proof (whole_seconds_bounds at_). unfold forget_before, drift, REPLAY_MEMORY_SECONDS, MAX_REQUEST_DRIFT_SECONDS, seconds in *. lia.
Qed.

Lemma forgotten_expired_disk ts at_ now v :
  (ts <= at_ + drift)%Z -> (whole_seconds at_ <= v)%Z -> (v <= whole_seconds (forget_before now))%Z ->
  (ts + drift < now)%Z.
Proof.
  intros H1 H2 H3. pose proof (whole_seconds_bounds at_). pose proof (whole_seconds_bounds (forget_before now)).
  assert (seconds (whole_seconds at_) <= seconds (whole_seconds (forget_before now)))%Z by (unfold seconds; lia).
  apply (forgotten_expired ts at_ now); [done|]. lia.
Qed.

(** ** Each operation keeps what was accepted covered *)
Lemma covered_later g now now' a : (now <= now')%Z -> covered g now a -> covered g now' a.
Proof. destruct a as [[ts sig] at_]. cbn. intros Hle (H1 & H2 & H3). split; [done|]. split; [lia|]. destruct H3; [left; lia|by right]. Qed.

Lemma covered_claim c g sig now now0 a :
  (now0 <= now)%Z -> covered g now0 a -> covered (claim c g sig now).1 now a.
Proof.
  intros Hle Hc. apply (covered_later _ _ now) in Hc; [|done]. destruct a as [[ts s] at_]. cbn in Hc.
  destruct Hc as (H1 & H2 & H3). assert (Hw := whole_seconds_bounds at_).
  assert (Hmono : (whole_seconds at_ <= whole_seconds now)%Z) by (apply Z.div_le_mono; lia).
  assert (Hseen : forall t, (exists u, seen g !! s = Some u /\ (seconds (whole_seconds at_) <= u)%Z) ->
    exists u, seen (mkGuard (<[sig := now]> (seen g)) t (accepting_from g)) !! s = Some u /\
      (seconds (whole_seconds at_) <= u)%Z).
  { intros t (u & Hu & Hge). cbn. destruct (decide (s = sig)) as [->|Hne].
    - exists now. rewrite lookup_insert_eq. split; [done|]. lia.
    - exists u. by rewrite lookup_insert_ne. }
  unfold claim. destruct (already_seen g sig); [|destruct c]; cbn; (split; [done|]); (split; [done|]);
    (destruct H3 as [H3|[Ht Hm]]; [by left|right]).
  - split; [done|]. destruct Hm; [left; by apply (Hseen (table g))|by right].
  - split.
    + destruct Ht as (v & Hv & Hge). destruct (decide (s = sig)) as [->|Hne].
      * exists (whole_seconds now). by rewrite lookup_insert_eq.
      * exists v. by rewrite lookup_insert_ne.
    + destruct Hm; [left; by apply (Hseen (table g))|by right].
  - split; [done|]. destruct Hm; [left; by apply (Hseen (table g))|by right].
Qed.

Lemma covered_cleanup c g now now0 a :
  (now0 <= now)%Z -> covered g now0 a -> covered (cleanup c g now) now a.
Proof.
  intros Hle Hc. apply (covered_later _ _ now) in Hc; [|done]. destruct a as [[ts s] at_]. cbn in *.
  destruct Hc as (H1 & H2 & H3). split; [done|]. split; [done|].
  destruct (decide (ts + drift < now)%Z) as [Hx|Hx]; [by left|right].
  destruct H3 as [H3|[(v & Hv & Hge) Hm]]; [done|]. split.
  - exists v. split; [|done]. destruct c; [|done]. apply map_lookup_filter_Some. split; [done|]. cbn.
    destruct (decide (whole_seconds (forget_before now) < v)%Z) as [Hlt|Hlt]; [done|].
    destruct Hx. apply (forgotten_expired_disk ts at_ now v); [done|done|lia].
  - destruct Hm as [(u & Hu & Huge)|Hf]; [left|by right]. exists u. split; [|done].
    apply map_lookup_filter_Some. split; [done|]. cbn.
    destruct (decide (forget_before now < u)%Z) as [Hlt|Hlt]; [done|].
    destruct Hx. apply (forgotten_expired ts at_ now); [done|lia].
Qed.

Lemma covered_restore g now now0 a : (now0 <= now)%Z -> covered g now0 a -> covered (restore (table g) now) now a.
Proof.
  intros Hle Hc. apply (covered_later _ _ now) in Hc; [|done]. destruct a as [[ts s] at_]. cbn in *.
  destruct Hc as (H1 & H2 & H3). split; [done|]. split; [done|].
  destruct (decide (ts + drift < now)%Z) as [Hx|Hx]; [by left|right].
  destruct H3 as [H3|[(v & Hv & Hge) _]]; [done|]. split; [by exists v|]. left. exists (seconds v). split.
  - rewrite lookup_fmap. replace (filter _ (table g) !! s) with (Some v); [done|]. symmetry.
    apply map_lookup_filter_Some. split; [done|]. cbn.
    destruct (decide (whole_seconds (forget_before now) < v)%Z) as [Hlt|Hlt]; [done|].
    destruct Hx. apply (forgotten_expired_disk ts at_ now v); [done|done|lia].
  - unfold seconds. lia.
Qed.

Lemma covered_booting g now now0 a : (now0 < now)%Z -> covered g now0 a -> covered (booting (table g) now) now a.
Proof.
  intros Hlt Hc. destruct a as [[ts s] at_]. cbn in *. destruct Hc as (H1 & H2 & H3).
  split; [done|]. split; [lia|]. destruct H3 as [H3|[Ht _]]; [left; lia|right]. split; [done|]. right.
  eexists. split; [done|]. unfold drift, REPLAY_MEMORY_SECONDS, seconds in *. lia.
Qed.

Lemma verify_accepts c q g e sig now method path hub g' pk :
  hex_decode (e_signature e) = Some sig ->
  verify_charging c q g e now method path hub = (g', Ok pk) ->
  refuses_at g now = false /\ (Z.abs (now - e_timestamp e) <= drift)%Z /\ seen g !! sig = None /\
  g' = (claim c g sig now).1 /\ seen g' !! sig = Some now /\ table g' !! sig = Some (whole_seconds now).
Proof.
  intros Hhex. unfold verify_charging. destruct (refuses_at g now); [done|].
  destruct (verify_signature e now method path hub) as [pk0| |] eqn:Hv; [|done|done]. rewrite Hhex.
  destruct (already_seen g sig) eqn:Hs; [done|]. destruct q; [|done]. cbn.
  destruct (claim c g sig now) as [g1 o] eqn:Hc. destruct o; intros E; simplify_eq/=.
  unfold verify_signature in Hv. inv_ok. split; [done|].
  split; [match goal with F : (_ <=? _)%Z = true |- _ => by apply Z.leb_le in F end|].
  unfold claim in Hc. rewrite Hs in Hc. destruct c; [|done]. injection Hc as <-. unfold already_seen in Hs.
  split; [by destruct (seen g !! sig)|]. split; [unfold claim, already_seen; cbn; by destruct (seen g !! sig)|].
  cbn. by rewrite !lookup_insert_eq.
Qed.

Lemma verify_refuses c q g e now method path hub g' x :
  verify_charging c q g e now method path hub = (g', Err x) ->
  g' = g \/ exists sig, g' = (claim c g sig now).1.
Proof.
  unfold verify_charging. intros Hv. repeat case_match; simplify_eq; auto; right;
    match goal with F : claim _ _ ?sig _ = _ |- _ => exists sig; by rewrite F end.
Qed.

Lemma covered_refuses g now ts sig at_ :
  covered g now (ts, sig, at_) -> refuses_at g now = false -> (Z.abs (now - ts) <= drift)%Z ->
  seen g !! sig <> None.
Proof.
  cbn. intros (H1 & H2 & H3) Hr Hd Hn. destruct H3 as [H3|[_ [(u & Hu & _)|(from & Hf & Hlt)]]].
  - lia.
  - congruence.
  - unfold refuses_at in Hr. rewrite Hf in Hr. apply Z.ltb_ge in Hr. lia.
Qed.

Lemma life_step_guarded s s' : life_step s s' -> guarded s -> guarded s'.
Proof.
  intros Hs [Hc Hnd]. destruct Hs as [c q e sig now method path hub g' pk Hle Hhex Hv
    |c q e now method path hub g' x Hle Hv|c now Hle|now Hlt|now Hlt]; unfold guarded; cbn.
  - destruct (verify_accepts _ _ _ _ _ _ _ _ _ _ _ Hhex Hv) as (Hr & Hd & Hn & -> & Hseen & Htab).
    assert (Hnow : Forall (covered (guard s) now) (log s)).
    { eapply Forall_impl; [exact Hc|]. intros a. by apply covered_later. }
    split.
    + apply Forall_app. split.
      * eapply Forall_impl; [exact Hc|]. intros a. by apply covered_claim.
      * constructor; [|constructor]. cbn. split; [lia|]. split; [lia|]. right. split.
        -- exists (whole_seconds now). split; [done|lia].
        -- left. exists now. split; [done|]. pose proof (whole_seconds_bounds now). lia.
    + rewrite fmap_app. apply NoDup_app. split; [done|]. split; [|apply NoDup_singleton].
      intros a Ha Ha2. apply list_elem_of_singleton in Ha2. cbn in Ha2. subst a.
      apply list_elem_of_fmap in Ha as ([[ts s0] at_] & E & Hin). cbn in E. injection E as <- <-.
      rewrite Forall_forall in Hnow. by apply (covered_refuses _ _ _ _ _ (Hnow _ Hin)).
  - split; [|done]. eapply Forall_impl; [exact Hc|]. intros a.
    destruct (verify_refuses _ _ _ _ _ _ _ _ _ _ Hv) as [->|[sig ->]]; [by apply covered_later|by apply covered_claim].
  - split; [|done]. eapply Forall_impl; [exact Hc|]. intros a. by apply covered_cleanup.
  - split; [|done]. eapply Forall_impl; [exact Hc|]. intros a. apply covered_restore. lia.
  - split; [|done]. eapply Forall_impl; [exact Hc|]. intros a. by apply covered_booting.
Qed.

Lemma lives_guarded s s' : rtc life_step s s' -> guarded s -> guarded s'.
Proof. induction 1; eauto using life_step_guarded. Qed.

(** A request is accepted exactly when the guard is open, the envelope verifies, its
    signature was not seen, the quota allows it and the durable write succeeds. *)
Theorem request_accepted_iff c q g e now method path hub pk :
  (verify_charging c q g e now method path hub).2 = Ok pk <->
  refuses_at g now = false /\ verify_signature e now method path hub = Ok pk /\
  (forall sig, hex_decode (e_signature e) = Some sig -> seen g !! sig = None) /\ q = true /\ c = true.
Proof.
  unfold verify_charging. destruct (refuses_at g now) eqn:Hr; [naive_solver|].
  destruct (verify_signature e now method path hub) as [pk0| |] eqn:Hv; [|naive_solver..].
  assert (Hhex : exists sig, hex_decode (e_signature e) = Some sig).
  { unfold verify_signature in Hv. inv_ok. eauto. }
  destruct Hhex as [sig Hhex]. rewrite Hhex. unfold claim, already_seen.
  destruct (seen g !! sig) eqn:Hs; cbn; [split; [done|]; intros (_ & _ & Hn & _); by rewrite (Hn sig eq_refl) in Hs|].
  destruct q; cbn; [|naive_solver]. destruct c; cbn; [|naive_solver].
  split; [intros [= ->]; naive_solver|naive_solver].
Qed.

(** C20: Over any life of the hub (requests, sweeps, restarts that could or could not read
    the replay table, failed durable writes) on a clock that does not run backwards,
    no two accepted requests carry the same timestamp and signature. *)
Theorem replay_impossible start s :
  rtc life_step (born start) s -> NoDup ((fun a : DateTime * list N * DateTime => a.1) <$> log s).
Proof. intros Hs. destruct (lives_guarded _ _ Hs) as [_ Hnd]; [split; constructor|done]. Qed.

End replay.

(** ** A life *)
Module ToyAuth.
Import Crypto.Toy.

#[local] Instance env : EnvelopeEnv := {
  hex_decode s := Some ((fun c => Ascii.N_of_ascii c) <$> String.list_ascii_of_string s);
  from_sec1_bytes b := Some b;
  signature_from_bytes b := Some b;
  to_rfc3339 t := "";
  string_bytes s := (fun c => Ascii.N_of_ascii c) <$> String.list_ascii_of_string s
}.

(** The toy scheme's signature of the message is the key followed by it; the
    empty key makes it the 32 bytes of the digest. *)
Definition digest_of (e : SignedEnvelope) : list N :=
  as_bytes (hash_bytes (string_bytes (signing_string e "POST" "/faucet" "hub"))).
Definition unsigned (payload sig : string) : SignedEnvelope := mkEnvelope "" 0 payload sig.
Definition signed_request (payload : string) : SignedEnvelope :=
  unsigned payload (String.string_of_list_ascii (Ascii.ascii_of_N <$> digest_of (unsigned payload ""))).
Definition request : SignedEnvelope := Eval vm_compute in signed_request "{}".
Definition request_sig : list N := Eval vm_compute in digest_of (unsigned "{}" "").
Definition request2 : SignedEnvelope := Eval vm_compute in signed_request "{1}".
Definition request2_sig : list N := Eval vm_compute in digest_of (unsigned "{1}" "").

(** A request, a restart that reads the table, and another request. *)
Definition guard1 : ReplayGuard := Eval vm_compute in
  (verify_charging true true (restore ∅ 0) request 5 "POST" "/faucet" "hub").1.
Definition guard2 : ReplayGuard := Eval vm_compute in restore (table guard1) 9.
Definition guard3 : ReplayGuard := Eval vm_compute in
  (verify_charging true true guard2 request2 10 "POST" "/faucet" "hub").1.
Definition life3 : Life := mkLife guard3 10 [(0%Z, request_sig, 5%Z); (0%Z, request2_sig, 10%Z)].

Lemma life3_lived : rtc life_step (born 0) life3.
Proof.
  eapply rtc_l.
  { apply (ls_accepted (born 0) true true request request_sig 5 "POST" "/faucet" "hub" guard1 []);
      [vm_compute; discriminate|vm_compute; reflexivity..]. }
  eapply rtc_l; [apply (ls_restored _ 9); vm_compute; reflexivity|].
  apply rtc_once.
  apply (ls_accepted (mkLife guard2 9 [(0%Z, request_sig, 5%Z)])
           true true request2 request2_sig 10 "POST" "/faucet" "hub" guard3 []);
    [vm_compute; discriminate|vm_compute; reflexivity..].
Qed.

(** The first request again, after the restart. *)
Example replay_refused :
  (verify_charging true true guard2 request 9 "POST" "/faucet" "hub").2 = Err (Auth Replayed).
Proof. vm_compute. reflexivity. Qed.

Lemma replay_impossible_witness : NoDup [(0%Z, request_sig); (0%Z, request2_sig)].
Proof. exact (replay_impossible 0 life3 life3_lived). Defined.

End ToyAuth.
