(* ===== verification/AuthRace.v ===== *)
(** * AuthRace: requests racing for one signature

    [verify_charging] of [hub/src/auth.rs] cut at what requests share: it reads the clock
    and checks the envelope, looks for the signature, charges the key, inserts the
    signature, and records it on disk. Any number of requests are at any of these places
    at once, beside the sweep's clean-up and restarts, which drop them all.

    The insert decides between copies of one envelope. What it does not decide is a copy
    that has read the clock before a clean-up and inserts after it. *)

From Stdlib Require Import DecimalString.
From S2P Require Import Prelude Types Crypto Auth.

(** Where a request is. *)
Inductive Place : Type := Looking | Charging | Inserting | Recording.
Record Racer := mkRacer {
  r_timestamp : DateTime;
  r_signature : list N;
  r_now : DateTime;
  r_pubkey : PublicKey;
  r_place : Place
}.

Section race.
Context `{Primitives, EnvelopeEnv}.

(** The clock, the restart window, the signature and its bytes. *)
Definition arrive (g : ReplayGuard) (e : SignedEnvelope) (now : DateTime) (method path hub : string)
    : outcome VerifyError Racer :=
  if refuses_at g now then Err (Auth GuardWarmingUp)
  else
    match verify_signature e now method path hub with
    | Err x => Err (Auth x)
    | Panic => Panic
    | Ok pk =>
        match hex_decode (e_signature e) with
        | None => Panic
        | Some sig => Ok (mkRacer (e_timestamp e) sig now pk Looking)
        end
    end.
Definition moved (r : Racer) (p : Place) : Racer :=
  mkRacer (r_timestamp r) (r_signature r) (r_now r) (r_pubkey r) p.

(** The next thing a request does: the guard after it, and whether it goes on, is
    accepted ([Ok None]) or turned away. *)
Definition advance (commits quota_ok : bool) (g : ReplayGuard) (r : Racer)
    : ReplayGuard * outcome VerifyError (option Racer) :=
  match r_place r with
  | Looking => (g, if already_seen g (r_signature r) then Err (Auth Replayed) else Ok (Some (moved r Charging)))
  | Charging => (g, if quota_ok then Ok (Some (moved r Inserting)) else Err Quota)
  | Inserting =>
      (mkGuard (<[r_signature r := r_now r]> (seen g)) (table g) (accepting_from g),
       if already_seen g (r_signature r) then Err (Auth Replayed) else Ok (Some (moved r Recording)))
  | Recording =>
      if commits
      then (mkGuard (seen g) (<[r_signature r := whole_seconds (r_now r)]> (table g)) (accepting_from g), Ok None)
      else (g, Err (Auth GuardUnavailable))
  end.

(** A request nothing interrupts. *)
Fixpoint proceed (commits quota_ok : bool) (n : nat) (g : ReplayGuard) (r : Racer) : ReplayGuard * outcome VerifyError PublicKey :=
  match n with
  | O => (g, Panic)
  | S n =>
      match advance commits quota_ok g r with
      | (g, Ok (Some r')) => proceed commits quota_ok n g r'
      | (g, Ok None) => (g, Ok (r_pubkey r))
      | (g, Err x) => (g, Err x)
      | (g, Panic) => (g, Panic)
      end
  end.
(** A request that nothing interrupts does to the guard, and answers, exactly what
    verify_charging does in one step. *)
Theorem uninterrupted_request_is_verify_charging commits quota_ok g e now method path hub :
  verify_charging commits quota_ok g e now method path hub =
  match arrive g e now method path hub with
  | Ok r => proceed commits quota_ok 4 g r
  | Err x => (g, Err x)
  | Panic => (g, Panic)
  end.
Proof.
  unfold verify_charging, arrive. destruct (refuses_at g now); [done|]. destruct (verify_signature _ _ _ _ _) as [pk|x|]; [|done..].
  destruct (hex_decode (e_signature e)) as [sig|]; [|done]. cbn. destruct (already_seen g sig) eqn:Es; [done|].
  destruct quota_ok; [|done]. cbn. unfold claim. rewrite Es. by destruct commits.
Qed.

(** ** Requests, clean-ups and restarts

    [d_arrived] is what has arrived so far, for the statements; nothing reads it. *)
Record Door := mkDoor {
  d_guard : ReplayGuard;
  d_clock : DateTime;
  d_flight : gmap nat Racer;
  d_accepted : list Racer;
  d_arrived : list Racer
}.
Definition uninserted (p : Place) : bool := match p with Recording => false | _ => true end.

(** A request that has yet to insert and read an earlier clock than [now]. *)
Definition overtaken (s : Door) (now : DateTime) : Prop :=
  exists i r, d_flight s !! i = Some r /\ uninserted (r_place r) = true /\ (r_now r < now)%Z.

(** [in_order]: no clean-up overtakes a request. A clean-up uses a clock it has read
    some time ago. *)
Inductive door_step (in_order : Prop) (s : Door) : Door -> Prop :=
| ds_tick now :
    (d_clock s <= now)%Z -> door_step in_order s (mkDoor (d_guard s) now (d_flight s) (d_accepted s) (d_arrived s))
| ds_arrive i e method path hub r :
    d_flight s !! i = None -> arrive (d_guard s) e (d_clock s) method path hub = Ok r ->
    door_step in_order s (mkDoor (d_guard s) (d_clock s) (<[i := r]> (d_flight s)) (d_accepted s) (d_arrived s ++ [r]))
| ds_goes_on commits quota_ok i r g' r' :
    d_flight s !! i = Some r -> advance commits quota_ok (d_guard s) r = (g', Ok (Some r')) ->
    door_step in_order s (mkDoor g' (d_clock s) (<[i := r']> (d_flight s)) (d_accepted s) (d_arrived s))
| ds_accepted commits quota_ok i r g' :
    d_flight s !! i = Some r -> advance commits quota_ok (d_guard s) r = (g', Ok None) ->
    door_step in_order s (mkDoor g' (d_clock s) (delete i (d_flight s)) (d_accepted s ++ [r]) (d_arrived s))
| ds_refused commits quota_ok i r g' x :
    d_flight s !! i = Some r -> advance commits quota_ok (d_guard s) r = (g', Err x) ->
    door_step in_order s (mkDoor g' (d_clock s) (delete i (d_flight s)) (d_accepted s) (d_arrived s))
| ds_cleanup commits now :
    (now <= d_clock s)%Z -> (in_order -> ~ overtaken s now) ->
    door_step in_order s (mkDoor (cleanup commits (d_guard s) now) (d_clock s) (d_flight s) (d_accepted s) (d_arrived s))
| ds_restored now :
    (d_clock s < now)%Z -> door_step in_order s (mkDoor (restore (table (d_guard s)) now) now ∅ (d_accepted s) (d_arrived s))
| ds_booted now :
    (d_clock s < now)%Z -> door_step in_order s (mkDoor (booting (table (d_guard s)) now) now ∅ (d_accepted s) (d_arrived s)).

Definition opened (now : DateTime) : Door := mkDoor (restore ∅ now) now ∅ [] [].

(** ** One signature, one timestamp *)

(** A request whose envelope verified when it read the clock. *)
Definition genuine (r : Racer) : Prop :=
  exists e method path hub, verify_signature e (r_now r) method path hub = Ok (r_pubkey r) /\
    hex_decode (e_signature e) = Some (r_signature r) /\ e_timestamp e = r_timestamp r.

Lemma arrive_genuine g e now method path hub r :
  arrive g e now method path hub = Ok r -> genuine r /\ r_now r = now /\ r_place r = Looking /\ refuses_at g now = false.
Proof.
  unfold arrive. destruct (refuses_at g now); [done|]. destruct (verify_signature _ _ _ _ _) as [pk|x|] eqn:Hv; [|done..].
  destruct (hex_decode (e_signature e)) as [sig|] eqn:Hs; [|done]. intros [= <-]. split; [|done]. by exists e, method, path, hub.
Qed.
Lemma genuine_near r : genuine r -> (Z.abs (r_now r - r_timestamp r) <= drift)%Z.
Proof.
  intros (e & m & p & h & Hv & _ & <-). unfold verify_signature in Hv. inv_ok.
  match goal with F : (_ <=? _)%Z = true |- _ => by apply Z.leb_le in F end.
Qed.

(** Two envelopes that verified under one signature at different timestamps: the
    timestamp is in the signed bytes, so one of them was not made by signing. *)
Definition forged (r r' : Racer) : Prop :=
  genuine r /\ genuine r' /\ r_signature r = r_signature r' /\ r_timestamp r <> r_timestamp r'.
(** No such pair among [l]. *)
Definition bound (l : list Racer) : Prop :=
  Forall (fun r => Forall (fun r' => r_signature r = r_signature r' -> r_timestamp r = r_timestamp r') l) l.
(** A request that verified and is among those that arrived. *)
Definition known (l : list Racer) (r : Racer) : Prop :=
  genuine r /\ exists r0, r0 ∈ l /\ r_signature r0 = r_signature r /\ r_timestamp r0 = r_timestamp r.
#[local] Instance bound_dec l : Decision (bound l).
Proof. unfold bound. apply _. Defined.
Lemma known_bound l r r' : bound l -> known l r -> known l r' -> r_signature r = r_signature r' -> r_timestamp r = r_timestamp r'.
Proof.
  intros Hb (_ & r0 & Hr & S0 & T0) (_ & r1 & Hr' & S1 & T1) Heq. unfold bound in Hb. rewrite Forall_forall in Hb.
  specialize (Hb r0 Hr). rewrite Forall_forall in Hb. specialize (Hb r1 Hr'). rewrite <-T0, <-T1. apply Hb. congruence.
Qed.
Lemma known_app l x r : known l r -> known (l ++ [x]) r.
Proof. intros (Hg & r0 & Hin & Heq). split; [done|]. exists r0. split; [|done]. apply elem_of_app. by left. Qed.
Lemma unbound l : ~ bound l -> exists r r', r ∈ l /\ r' ∈ l /\ r_signature r = r_signature r' /\ r_timestamp r <> r_timestamp r'.
Proof.
  intros Hn. apply not_Forall_Exists in Hn; [|apply _]. apply Exists_exists in Hn as (r & Hr & Hn).
  apply not_Forall_Exists in Hn; [|apply _]. apply Exists_exists in Hn as (r' & Hr' & Hn). exists r, r'.
  destruct (decide (r_signature r = r_signature r')); [|destruct Hn; done]. destruct (decide (r_timestamp r = r_timestamp r')); [destruct Hn|]; done.
Qed.

(** ** The invariant *)

(** The signatures that have been won: of the accepted, and of those being recorded. *)
Definition claims (s : Door) (c : Racer) : Prop :=
  c ∈ d_accepted s \/ exists i, d_flight s !! i = Some c /\ r_place c = Recording.
Definition oldest (c : Racer) : Z := whole_seconds (r_timestamp c - drift).
Definition over (g : ReplayGuard) (now : DateTime) (c : Racer) : Prop :=
  (r_timestamp c + drift < now)%Z \/ exists from, accepting_from g = Some from /\ (r_timestamp c + drift < from)%Z.
Definition unrivalled (s : Door) (c : Racer) : Prop :=
  forall i r, d_flight s !! i = Some r -> uninserted (r_place r) = true -> r_signature r <> r_signature c.
(** A won signature is remembered, or has no copy that could still insert it. *)
Definition blocks (s : Door) (c : Racer) : Prop :=
  (exists u, seen (d_guard s) !! r_signature c = Some u /\ (seconds (oldest c) <= u)%Z) \/
  over (d_guard s) (d_clock s) c /\ unrivalled s c.
Definition kept (s : Door) (c : Racer) : Prop :=
  (r_timestamp c + drift < d_clock s)%Z \/
  exists v, table (d_guard s) !! r_signature c = Some v /\ (oldest c <= v)%Z.

Record orderly (s : Door) : Prop := {
  o_genuine i r : d_flight s !! i = Some r -> known (d_arrived s) r /\ (r_now r <= d_clock s)%Z;
  o_accepted c : c ∈ d_accepted s -> known (d_arrived s) c /\ (r_now c <= d_clock s)%Z /\ kept s c;
  o_blocks c : claims s c -> blocks s c;
  o_recording i j r r' : d_flight s !! i = Some r -> d_flight s !! j = Some r' -> r_place r = Recording ->
    r_place r' = Recording -> r_signature r = r_signature r' -> i = j;
  o_fresh i r c : d_flight s !! i = Some r -> r_place r = Recording -> c ∈ d_accepted s -> r_signature r <> r_signature c;
  o_nodup : NoDup (r_signature <$> d_accepted s)
}.

Lemma near_oldest r c :
  genuine r -> r_timestamp r = r_timestamp c -> (seconds (oldest c) <= r_now r)%Z /\ (oldest c <= whole_seconds (r_now r))%Z.
Proof.
  intros Hg Ht. pose proof (genuine_near r Hg). pose proof (whole_seconds_bounds (r_timestamp c - drift)). unfold oldest.
  split; [lia|]. apply Z.div_le_mono; lia.
Qed.
Lemma forgotten_over c now u :
  (seconds (oldest c) <= u)%Z -> (u <= forget_before now)%Z -> (r_timestamp c + drift < now)%Z.
Proof. intros H1 H2. apply (forgotten_expired _ (r_timestamp c - drift) now); [lia|]. unfold oldest in H1. lia. Qed.
Lemma forgotten_over_disk c now v :
  (oldest c <= v)%Z -> (v <= whole_seconds (forget_before now))%Z -> (r_timestamp c + drift < now)%Z.
Proof. intros H1 H2. by apply (forgotten_expired_disk _ (r_timestamp c - drift) now v); [lia|..]. Qed.

(** What is over for a clock and a guard admits no new copy. *)
Lemma over_refused g now c r :
  over g now c -> refuses_at g now = false -> genuine r -> r_now r = now -> r_timestamp r <> r_timestamp c.
Proof.
  intros Ho Hr Hg <- Ht. pose proof (genuine_near r Hg). destruct Ho as [Ho|(from & Hf & Ho)]; [lia|].
  unfold refuses_at in Hr. rewrite Hf in Hr. apply Z.ltb_ge in Hr. lia.
Qed.
Lemma over_later g g' now now' c : accepting_from g' = accepting_from g -> (now <= now')%Z -> over g now c -> over g' now' c.
Proof. unfold over. intros -> Hle [Ho|Ho]; [left; lia|by right]. Qed.
Lemma kept_later s s' c : table (d_guard s') = table (d_guard s) -> (d_clock s <= d_clock s')%Z -> kept s c -> kept s' c.
Proof. unfold kept. intros -> Hle [Hk|Hk]; [left; lia|by right]. Qed.
Lemma blocks_later s s' c :
  seen (d_guard s') !! r_signature c = seen (d_guard s) !! r_signature c ->
  accepting_from (d_guard s') = accepting_from (d_guard s) -> (d_clock s <= d_clock s')%Z ->
  (over (d_guard s) (d_clock s) c -> unrivalled s c -> unrivalled s' c) -> blocks s c -> blocks s' c.
Proof.
  intros Hs Ha Hle Hu [Hb|[Ho Hb]]; [left; by rewrite Hs|right]. split; [by apply (over_later (d_guard s) _ (d_clock s))|by apply Hu].
Qed.
Lemma claim_genuine s c : orderly s -> claims s c -> known (d_arrived s) c /\ (r_now c <= d_clock s)%Z.
Proof. intros Ho [Hc|(i & Hc & _)]; [by apply (o_accepted s Ho) in Hc as (? & ? & _)|by apply (o_genuine s Ho i)]. Qed.

(** ** Every step keeps it *)
Section steps.

Lemma orderly_tick s now : orderly s -> (d_clock s <= now)%Z -> orderly (mkDoor (d_guard s) now (d_flight s) (d_accepted s) (d_arrived s)).
Proof.
  intros Ho Hle. split; cbn.
  - intros i r Hi. apply (o_genuine s Ho) in Hi as [Hg Hn]. split; [done|lia].
  - intros c Hc. apply (o_accepted s Ho) in Hc as (Hg & Hn & Hk). split; [done|]. split; [lia|]. by apply (kept_later s).
  - intros c Hc. apply (blocks_later s); [done|done|done|done|]. by apply (o_blocks s Ho).
  - exact (o_recording s Ho).
  - exact (o_fresh s Ho).
  - exact (o_nodup s Ho).
Qed.

Lemma orderly_arrive s i e method path hub r :
  orderly s -> d_flight s !! i = None -> arrive (d_guard s) e (d_clock s) method path hub = Ok r ->
  bound (d_arrived s ++ [r]) ->
  orderly (mkDoor (d_guard s) (d_clock s) (<[i := r]> (d_flight s)) (d_accepted s) (d_arrived s ++ [r])).
Proof.
  intros Ho Hi Ha Hbd. apply arrive_genuine in Ha as (Hg & Hn & Hp & Hr).
  assert (Hkn : known (d_arrived s ++ [r]) r).
  { split; [done|]. exists r. split; [|done]. apply elem_of_app. right. by left. }
  assert (Hrec : forall j r', <[i := r]> (d_flight s) !! j = Some r' -> r_place r' = Recording -> d_flight s !! j = Some r').
  { intros j r' Hj Hp'. apply lookup_insert_Some in Hj as [[-> ->]|[_ Hj]]; [congruence|done]. }
  split; cbn.
  - intros j r' Hj. apply lookup_insert_Some in Hj as [[-> <-]|[_ Hj]]; [split; [done|lia]|].
    destruct (o_genuine s Ho j r' Hj). split; [by apply known_app|done].
  - intros c Hc. destruct (o_accepted s Ho c Hc) as (? & ? & ?). split; [by apply known_app|]. by split.
  - intros c Hc. assert (Hc' : claims s c). { destruct Hc as [Hc|(j & Hj & Hp')]; [by left|right]. cbn in Hj. exists j. split; [by apply Hrec|done]. }
    apply (blocks_later s); [done..| |by apply (o_blocks s Ho)]. intros Hov Hu j r' Hj Hp'. cbn in Hj.
    apply lookup_insert_Some in Hj as [[-> <-]|[_ Hj]]; [|by apply (Hu j)]. intros Heq.
    destruct (over_refused _ _ _ _ Hov Hr Hg Hn). apply (known_bound _ _ _ Hbd Hkn); [|done]. by apply known_app, (claim_genuine s).
  - intros j k r1 r2 Hj Hk Hp1 Hp2. apply (o_recording s Ho); auto.
  - intros j r1 c Hj Hp1. apply (o_fresh s Ho j); auto.
  - exact (o_nodup s Ho).
Qed.

(** A request that goes, refused before it has inserted or while being recorded, leaves
    nothing behind; the one refused as it inserts overwrites the time of its copy. *)
Lemma orderly_gone s i r g' :
  bound (d_arrived s) -> orderly s -> d_flight s !! i = Some r -> table g' = table (d_guard s) -> accepting_from g' = accepting_from (d_guard s) ->
  seen g' = seen (d_guard s) \/ seen g' = <[r_signature r := r_now r]> (seen (d_guard s)) ->
  orderly (mkDoor g' (d_clock s) (delete i (d_flight s)) (d_accepted s) (d_arrived s)).
Proof.
  intros Hbd Ho Hi Ht Ha Hs. assert (Hg := proj1 (o_genuine s Ho i r Hi)). split; cbn.
  - intros j r' Hj. apply lookup_delete_Some in Hj as [_ Hj]. by apply (o_genuine s Ho j).
  - intros c Hc. apply (o_accepted s Ho) in Hc as (Hc & Hn & Hk). split; [done|]. split; [done|]. by apply (kept_later s).
  - intros c Hc. assert (Hc' : claims s c).
    { destruct Hc as [Hc|(j & Hj & Hp')]; [by left|right]. cbn in Hj. exists j. by apply lookup_delete_Some in Hj as [_ Hj]. }
    destruct Hs as [Hs|Hs]; [|destruct (decide (r_signature r = r_signature c)) as [Heq|Hne]].
    2: { left. exists (r_now r). cbn. rewrite Hs, <-Heq, lookup_insert_eq. split; [done|]. apply near_oldest; [apply Hg|].
         apply (known_bound _ _ _ Hbd Hg); [|done]. by apply (claim_genuine s). }
    all: apply (blocks_later s); [cbn; rewrite Hs; by rewrite ?lookup_insert_ne|done|done| |by apply (o_blocks s Ho)];
      intros _ Hu j r' Hj; cbn in Hj; apply lookup_delete_Some in Hj as [_ Hj]; by apply (Hu j).
  - intros j k r1 r2 Hj Hk. apply lookup_delete_Some in Hj as [_ Hj], Hk as [_ Hk]. by apply (o_recording s Ho).
  - intros j r1 c Hj. apply lookup_delete_Some in Hj as [_ Hj]. by apply (o_fresh s Ho j).
  - exact (o_nodup s Ho).
Qed.

Lemma orderly_moves s i r p :
  orderly s -> d_flight s !! i = Some r -> uninserted (r_place r) = true -> uninserted p = true ->
  orderly (mkDoor (d_guard s) (d_clock s) (<[i := moved r p]> (d_flight s)) (d_accepted s) (d_arrived s)).
Proof.
  intros Ho Hi He Hp. assert (Hrec : forall j r', <[i := moved r p]> (d_flight s) !! j = Some r' -> r_place r' = Recording -> d_flight s !! j = Some r').
  { intros j r' Hj Hp'. apply lookup_insert_Some in Hj as [[-> <-]|[_ Hj]]; [cbn in Hp'; by subst p|done]. }
  split; cbn.
  - intros j r' Hj. apply lookup_insert_Some in Hj as [[-> <-]|[_ Hj]]; [exact (o_genuine s Ho _ _ Hi)|by apply (o_genuine s Ho j)].
  - exact (o_accepted s Ho).
  - intros c Hc. apply (blocks_later s); [done..| |apply (o_blocks s Ho)].
    + intros _ Hu j r' Hj Hp'. cbn in Hj. apply lookup_insert_Some in Hj as [[-> <-]|[_ Hj]]; [exact (Hu _ _ Hi He)|by apply (Hu j)].
    + destruct Hc as [Hc|(j & Hj & Hp')]; [by left|right]. exists j. split; [by apply Hrec|done].
  - intros j k r1 r2 Hj Hk Hp1 Hp2. apply (o_recording s Ho); auto.
  - intros j r1 c Hj Hp1. apply (o_fresh s Ho j); auto.
  - exact (o_nodup s Ho).
Qed.

(** The insert that finds nothing: no one else has won the signature. *)
Lemma unseen_unclaimed s i r c :
  orderly s -> d_flight s !! i = Some r -> uninserted (r_place r) = true -> seen (d_guard s) !! r_signature r = None ->
  claims s c -> r_signature r <> r_signature c.
Proof.
  intros Ho Hi He Hn Hc Heq. destruct (o_blocks s Ho c Hc) as [(u & Hu & _)|[_ Hu]]; [congruence|]. by apply (Hu i r).
Qed.

Lemma orderly_wins s i r :
  orderly s -> d_flight s !! i = Some r -> uninserted (r_place r) = true -> seen (d_guard s) !! r_signature r = None ->
  orderly (mkDoor (mkGuard (<[r_signature r := r_now r]> (seen (d_guard s))) (table (d_guard s)) (accepting_from (d_guard s)))
    (d_clock s) (<[i := moved r Recording]> (d_flight s)) (d_accepted s) (d_arrived s)).
Proof.
  intros Ho Hi He Hn. assert (Hnew := unseen_unclaimed s i r). destruct (o_genuine s Ho i r Hi) as [Hg Hle]. split; cbn.
  - intros j r' Hj. apply lookup_insert_Some in Hj as [[-> <-]|[_ Hj]]; [done|by apply (o_genuine s Ho j)].
  - intros c Hc. apply (o_accepted s Ho) in Hc as (? & ? & Hk). split; [done|]. split; [done|]. by apply (kept_later s).
  - intros c Hc. assert (Hc' : c = moved r Recording \/ claims s c).
    { destruct Hc as [Hc|(j & Hj & Hp')]; [right; by left|]. cbn in Hj. apply lookup_insert_Some in Hj as [[_ Hj]|[_ Hj]]; [by left|right; right; by exists j]. }
    destruct Hc' as [->|Hc'].
    + left. exists (r_now r). cbn. rewrite lookup_insert_eq. split; [done|]. by apply near_oldest; [apply Hg|].
    + apply (blocks_later s); [cbn; rewrite lookup_insert_ne; [done|by apply Hnew]|done|done| |by apply (o_blocks s Ho)].
      intros _ Hu j r' Hj Hp'. cbn in Hj. apply lookup_insert_Some in Hj as [[-> <-]|[_ Hj]]; [done|by apply (Hu j)].
  - intros j k r1 r2 Hj Hk Hp1 Hp2 Heq.
    apply lookup_insert_Some in Hj as [[-> <-]|[Hji Hj]], Hk as [[-> <-]|[Hki Hk]]; [done|..|by apply (o_recording s Ho j k r1 r2)].
    + destruct (Hnew r2); [done..|right; by exists k|done].
    + destruct (Hnew r1); [done..|right; by exists j|done].
  - intros j r1 c Hj Hp1 Hc. apply lookup_insert_Some in Hj as [[-> <-]|[_ Hj]]; [apply Hnew; [done..|by left]|by apply (o_fresh s Ho j)].
  - exact (o_nodup s Ho).
Qed.

Lemma orderly_recorded s i r :
  orderly s -> d_flight s !! i = Some r -> r_place r = Recording ->
  orderly (mkDoor (mkGuard (seen (d_guard s)) (<[r_signature r := whole_seconds (r_now r)]> (table (d_guard s))) (accepting_from (d_guard s)))
    (d_clock s) (delete i (d_flight s)) (d_accepted s ++ [r]) (d_arrived s)).
Proof.
  intros Ho Hi Hp. destruct (o_genuine s Ho i r Hi) as [Hg Hle]. assert (Hfresh := o_fresh s Ho i r). split; cbn.
  - intros j r' Hj. apply lookup_delete_Some in Hj as [_ Hj]. by apply (o_genuine s Ho j).
  - intros c Hc. apply elem_of_app in Hc as [Hc|Hc%list_elem_of_singleton].
    + assert (Hne := Hfresh c Hi Hp Hc). apply (o_accepted s Ho) in Hc as (? & ? & Hk). split; [done|]. split; [done|].
      destruct Hk as [Hk|Hk]; [by left|right]. cbn. by rewrite lookup_insert_ne.
    + subst c. split; [done|]. split; [done|]. right. eexists. cbn. rewrite lookup_insert_eq. split; [done|]. by apply near_oldest; [apply Hg|].
  - intros c Hc. assert (Hc' : claims s c).
    { destruct Hc as [Hc|(j & Hj & Hp')].
      - cbn in Hc. apply elem_of_app in Hc as [Hc|Hc%list_elem_of_singleton]; [by left|right]. exists i. by subst c.
      - cbn in Hj. apply lookup_delete_Some in Hj as [_ Hj]. right. by exists j. }
    apply (blocks_later s); [done..| |by apply (o_blocks s Ho)].
    intros _ Hu j r' Hj. cbn in Hj. apply lookup_delete_Some in Hj as [_ Hj]. by apply (Hu j).
  - intros j k r1 r2 Hj Hk. apply lookup_delete_Some in Hj as [_ Hj], Hk as [_ Hk]. by apply (o_recording s Ho).
  - intros j r1 c Hj Hp1 Hc Heq. apply lookup_delete_Some in Hj as [Hij Hj].
    apply elem_of_app in Hc as [Hc|Hc%list_elem_of_singleton]; [by apply (o_fresh s Ho j r1 c)|]. subst c.
    destruct Hij. by apply (o_recording s Ho i j r r1).
  - rewrite fmap_app. apply NoDup_app. split; [exact (o_nodup s Ho)|]. split; [|apply NoDup_singleton].
    intros x (c & -> & Hc)%list_elem_of_fmap Hx%list_elem_of_singleton. by apply (Hfresh c).
Qed.

(** A clean-up that overtakes no request forgets a signature only when every copy still
    to insert it has been refused. *)
Lemma orderly_cleanup s commits now :
  bound (d_arrived s) -> orderly s -> (now <= d_clock s)%Z -> ~ overtaken s now ->
  orderly (mkDoor (cleanup commits (d_guard s) now) (d_clock s) (d_flight s) (d_accepted s) (d_arrived s)).
Proof.
  intros Hbd Ho Hle Hot. split; cbn.
  - exact (o_genuine s Ho).
  - intros c Hc. apply (o_accepted s Ho) in Hc as (Hg & Hn & Hk). split; [done|]. split; [done|].
    destruct Hk as [Hk|(v & Hv & Hge)]; [by left|].
    destruct (decide (whole_seconds (forget_before now) < v)%Z) as [Hlt|Hlt].
    + right. exists v. cbn. split; [|done]. destruct commits; [|done]. by apply map_lookup_filter_Some.
    + left. cbn. pose proof (forgotten_over_disk c now v Hge). lia.
  - intros c Hc. assert (Hgc := proj1 (claim_genuine s c Ho Hc)). destruct (o_blocks s Ho c Hc) as [(u & Hu & Hge)|Hb]; [|by right].
    destruct (decide (forget_before now < u)%Z) as [Hlt|Hlt].
    + left. exists u. cbn. split; [|done]. by apply map_lookup_filter_Some.
    + assert (Hx : (r_timestamp c + drift < now)%Z) by (apply (forgotten_over c now u); [done|lia]).
      right. split; [left; cbn; lia|]. intros i r Hi He Heq. cbn in Hi. destruct (o_genuine s Ho i r Hi) as [Hg _].
      pose proof (genuine_near r (proj1 Hg)). pose proof (known_bound _ _ _ Hbd Hg Hgc Heq).
      destruct Hot. exists i, r. split; [done|]. split; [done|]. lia.
  - exact (o_recording s Ho).
  - exact (o_fresh s Ho).
  - exact (o_nodup s Ho).
Qed.

(** A restart drops every request, so what was accepted is all there is to block. *)
Lemma orderly_restart s g' now :
  orderly s -> (d_clock s < now)%Z -> table g' = table (d_guard s) ->
  (forall c, c ∈ d_accepted s -> blocks (mkDoor g' now ∅ (d_accepted s) (d_arrived s)) c) ->
  orderly (mkDoor g' now ∅ (d_accepted s) (d_arrived s)).
Proof.
  intros Ho Hlt Ht Hb. split; cbn; [done| | |done|done|exact (o_nodup s Ho)].
  - intros c Hc. apply (o_accepted s Ho) in Hc as (Hg & Hn & Hk). split; [done|]. split; [lia|]. apply (kept_later s); [done|cbn; lia|done].
  - intros c [Hc|(i & Hi & _)]; [by apply Hb|done].
Qed.
Lemma orderly_restored s now :
  orderly s -> (d_clock s < now)%Z -> orderly (mkDoor (restore (table (d_guard s)) now) now ∅ (d_accepted s) (d_arrived s)).
Proof.
  intros Ho Hlt. apply orderly_restart; [done..|]. intros c Hc. apply (o_accepted s Ho) in Hc as (Hg & Hn & Hk).
  assert (Hover : (r_timestamp c + drift < now)%Z -> blocks (mkDoor (restore (table (d_guard s)) now) now ∅ (d_accepted s) (d_arrived s)) c)
    by (intros Hx; right; split; [by left|done]).
  destruct Hk as [Hk|(v & Hv & Hge)]; [apply Hover; lia|].
  destruct (decide (whole_seconds (forget_before now) < v)%Z) as [Hx|Hx]; [|apply Hover, (forgotten_over_disk c now v); [done|lia]].
  left. exists (seconds v). cbn. split; [|unfold seconds; lia]. rewrite lookup_fmap.
  replace (filter _ (table (d_guard s)) !! r_signature c) with (Some v); [done|]. symmetry. by apply map_lookup_filter_Some.
Qed.
Lemma orderly_booted s now :
  orderly s -> (d_clock s < now)%Z -> orderly (mkDoor (booting (table (d_guard s)) now) now ∅ (d_accepted s) (d_arrived s)).
Proof.
  intros Ho Hlt. apply orderly_restart; [done..|]. intros c Hc. apply (o_accepted s Ho) in Hc as (Hg & Hn & _).
  pose proof (genuine_near c (proj1 Hg)). right. split; [|done]. right. eexists. split; [done|].
  unfold drift, REPLAY_MEMORY_SECONDS, seconds in *. lia.
Qed.

Lemma orderly_step s s' : door_step True s s' -> bound (d_arrived s') -> orderly s -> orderly s'.
Proof.
  intros Hs Hbd Ho. destruct Hs as [now Hle|i e method path hub r Hi Ha|c q i r g' r' Hi Ha|c q i r g' Hi Ha|c q i r g' x Hi Ha|c now Hle Hot|now Hlt|now Hlt].
  - by apply orderly_tick.
  - by eapply orderly_arrive.
  - unfold advance, already_seen in Ha. destruct (r_place r) eqn:Hp.
    + destruct (seen (d_guard s) !! r_signature r); [done|]. injection Ha as <- <-. apply orderly_moves; [done|done|by rewrite Hp|done].
    + destruct q; [|done]. injection Ha as <- <-. apply orderly_moves; [done|done|by rewrite Hp|done].
    + destruct (seen (d_guard s) !! r_signature r) eqn:Hs; [done|]. injection Ha as <- <-. apply orderly_wins; [done|done|by rewrite Hp|done].
    + by destruct c.
  - unfold advance, already_seen in Ha. destruct (r_place r) eqn:Hp.
    1-3: repeat case_match; done.
    destruct c; [|done]. injection Ha as <-. by apply orderly_recorded.
  - unfold advance in Ha. apply (orderly_gone s i r); [done|done|done|..]; repeat case_match; simplify_eq/=; auto.
  - apply orderly_cleanup; [done|done|done|by apply Hot].
  - by apply orderly_restored.
  - by apply orderly_booted.
Qed.
Lemma opened_orderly now : orderly (opened now).
Proof.
  split; cbn; [done| | |done|done|constructor].
  - by intros c Hc%not_elem_of_nil.
  - intros c [Hc|(i & Hi & _)]; [by apply not_elem_of_nil in Hc|done].
Qed.
End steps.

(** What has arrived stays, and verified when it did. *)
Lemma arrivals_grow P s s' : door_step P s s' -> d_arrived s `prefix_of` d_arrived s' /\ (Forall genuine (d_arrived s) -> Forall genuine (d_arrived s')).
Proof.
  destruct 1; cbn; try done. split; [by apply prefix_app_r|]. intros Hf. apply Forall_app. split; [done|].
  match goal with F : arrive _ _ _ _ _ _ = Ok _ |- _ => apply arrive_genuine in F as (? & _) end. by constructor.
Qed.
Lemma bound_prefix l l' : l `prefix_of` l' -> bound l' -> bound l.
Proof.
  intros [k ->]. unfold bound. rewrite !Forall_forall. intros Hb r Hr. rewrite Forall_forall. intros r' Hr'.
  assert (Hin : r ∈ l ++ k) by (apply elem_of_app; by left). specialize (Hb r Hin). rewrite Forall_forall in Hb.
  apply Hb, elem_of_app. by left.
Qed.
Lemma arrivals_genuine P start s : rtc (door_step P) (opened start) s -> Forall genuine (d_arrived s).
Proof. revert s. apply (rtc_ind_r (fun s => Forall genuine (d_arrived s))); [constructor|]. intros s1 s2 _ H12. by eapply arrivals_grow. Qed.
Lemma bound_orderly start s : rtc (door_step True) (opened start) s -> bound (d_arrived s) -> orderly s.
Proof.
  revert s. apply (rtc_ind_r (fun s => bound (d_arrived s) -> orderly s)); [intros _; apply opened_orderly|]. intros s1 s2 _ H12 IH Hb.
  apply (orderly_step s1); [done|done|]. apply IH. eapply bound_prefix; [by eapply arrivals_grow|done].
Qed.

(** C21: However requests interleave between reading the clock, looking for the signature,
    charging the quota, inserting the signature and recording it, beside clean-ups,
    failed writes and restarts that drop them all: no two accepted requests carry the
    same signature, unless two envelopes among those that arrived verified under one
    signature at different timestamps, although the timestamp is part of what is
    signed. A clean-up is taken not to read a later clock than a request that has yet
    to insert, and a restart to find a later clock than the stop. *)
Theorem racing_requests_are_accepted_once start s :
  rtc (door_step True) (opened start) s ->
  NoDup (r_signature <$> d_accepted s) \/ exists r r', r ∈ d_arrived s /\ r' ∈ d_arrived s /\ forged r r'.
Proof.
  intros Hs. destruct (decide (bound (d_arrived s))) as [Hb|Hn]; [left; by apply o_nodup, (bound_orderly start)|right].
  destruct (unbound _ Hn) as (r & r' & Hr & Hr' & Heq & Hne). exists r, r'.
  pose proof (arrivals_genuine _ _ _ Hs) as Hg. rewrite Forall_forall in Hg. unfold forged. auto 10.
Qed.
End race.

(** * ToyRace: signed envelopes, and two races *)
Module ToyRace.
Import Crypto.Toy.

(** Timestamps print as their number of nanoseconds; the rest is the scheme of [ToyAuth]:
    with the empty key the signature of a message is its digest. *)
#[local] Instance race_env : EnvelopeEnv := {
  hex_decode s := Some ((fun c => Ascii.N_of_ascii c) <$> String.list_ascii_of_string s);
  from_sec1_bytes b := Some b;
  signature_from_bytes b := Some b;
  to_rfc3339 t := DecimalString.NilEmpty.string_of_int (Z.to_int t);
  string_bytes s := (fun c => Ascii.N_of_ascii c) <$> String.list_ascii_of_string s
}.
(** A nanosecond before the end of a second. *)
Definition race_stamp : DateTime := 999999999.
Definition digest_of (payload : string) : list N :=
  as_bytes (hash_bytes (string_bytes (signing_string (mkEnvelope "" race_stamp payload "") "POST" "/faucet" "hub"))).
Definition signed_request (payload : string) : SignedEnvelope :=
  mkEnvelope "" race_stamp payload (String.string_of_list_ascii (Ascii.ascii_of_N <$> digest_of payload)).
Definition sig : list N := Eval vm_compute in digest_of "{}".
Definition sig2 : list N := Eval vm_compute in digest_of "{1}".
Definition envelope1 : SignedEnvelope := Eval vm_compute in signed_request "{}".
Definition envelope2 : SignedEnvelope := Eval vm_compute in signed_request "{1}".
Definition racer (e : SignedEnvelope) (now : DateTime) : Racer :=
  match arrive (restore ∅ 0) e now "POST" "/faucet" "hub" with Ok r => r | _ => mkRacer 0 [] 0 [] Looking end.

(** One turn of request [i]. *)
Definition turn (s : Door) (i : nat) : option Door :=
  r ← d_flight s !! i;
  match advance true true (d_guard s) r with
  | (g', Ok (Some r')) => Some (mkDoor g' (d_clock s) (<[i := r']> (d_flight s)) (d_accepted s) (d_arrived s))
  | (g', Ok None) => Some (mkDoor g' (d_clock s) (delete i (d_flight s)) (d_accepted s ++ [r]) (d_arrived s))
  | (g', Err _) => Some (mkDoor g' (d_clock s) (delete i (d_flight s)) (d_accepted s) (d_arrived s))
  | _ => None
  end.
Definition turns (s : Door) (l : list nat) : option Door := foldl (fun o i => o ≫= fun s => turn s i) (Some s) l.
Lemma turn_steps P s i s' : turn s i = Some s' -> door_step P s s'.
Proof.
  unfold turn. destruct (d_flight s !! i) as [r|] eqn:Hi; [|done]. cbn.
  destruct (advance true true (d_guard s) r) as [g' [[r'|]|x|]] eqn:Ha; intros [= <-];
    [by eapply ds_goes_on|by eapply ds_accepted|by eapply ds_refused].
Qed.
Lemma turns_steps P l s s' : turns s l = Some s' -> rtc (door_step P) s s'.
Proof.
  unfold turns. revert s. induction l as [|i l IH]; intros s; cbn; [intros [= <-]; apply rtc_refl|].
  destruct (turn s i) as [s1|] eqn:Hs.
  - intros Hl. eapply rtc_l; [by apply (turn_steps _ _ i)|by apply IH].
  - intros Hl. exfalso. clear -Hl. induction l; cbn in Hl; auto; done.
Qed.

(** Two copies of one envelope side by side, and a request of its own. *)
Definition crowd : Door :=
  mkDoor (restore ∅ 0) 5 (<[2%nat := racer envelope2 5]> (<[1%nat := racer envelope1 5]> (<[0%nat := racer envelope1 5]> ∅))) []
    [racer envelope1 5; racer envelope1 5; racer envelope2 5].
Definition served : list nat := [0; 1; 2; 0; 1; 1; 0; 2; 1; 2; 2]%nat.
Lemma arrives_steps P s e i r :
  d_flight s !! i = None -> arrive (d_guard s) e (d_clock s) "POST" "/faucet" "hub" = Ok r ->
  door_step P s (mkDoor (d_guard s) (d_clock s) (<[i := r]> (d_flight s)) (d_accepted s) (d_arrived s ++ [r])).
Proof. intros Hi Ha. by eapply ds_arrive. Qed.
Lemma crowd_comes P : rtc (door_step P) (opened 0) crowd.
Proof.
  eapply rtc_l; [apply (ds_tick P _ 5); vm_compute; discriminate|].
  eapply rtc_l; [apply (arrives_steps P _ envelope1 0%nat); vm_compute; reflexivity|].
  eapply rtc_l; [apply (arrives_steps P _ envelope1 1%nat); vm_compute; reflexivity|].
  eapply rtc_l; [apply (arrives_steps P _ envelope2 2%nat); vm_compute; reflexivity|]. vm_compute. apply rtc_refl.
Qed.
Definition crowd_served : Door := Eval vm_compute in default crowd (turns crowd served).

(** The copy that inserted first is accepted, the other is not: every envelope that
    arrived carries one timestamp, so no two of them are [forged]. *)
Lemma racing_requests_are_accepted_once_witness : NoDup [sig; sig2].
Proof.
  destruct (racing_requests_are_accepted_once 0 crowd_served) as [Hd|(r & r' & Hr & Hr' & _ & _ & _ & Hne)]; [|exact Hd|].
  - etransitivity; [apply crowd_comes|]. apply (turns_steps True served). vm_compute. reflexivity.
  - assert (Hone : Forall (fun r => r_timestamp r = race_stamp) (d_arrived crowd_served)) by (repeat constructor).
    rewrite Forall_forall in Hone. destruct Hne. by rewrite (Hone r Hr), (Hone r' Hr').
Defined.

(** The request is accepted as early as its timestamp allows; the hub restarts and reads
    the time back in whole seconds; a copy arrives at the last nanosecond; and a clean-up
    one nanosecond later runs before the copy looks. *)
Definition first_clock : DateTime := (race_stamp - drift)%Z.
Definition copy_clock : DateTime := (race_stamp + drift)%Z.
Definition first_served : Door := Eval vm_compute in
  default crowd (turns (mkDoor (restore ∅ first_clock) first_clock (<[0%nat := racer envelope1 first_clock]> ∅) [] [racer envelope1 first_clock]) [0; 0; 0; 0]%nat).
Definition reopened : Door := Eval vm_compute in
  mkDoor (restore (table (d_guard first_served)) (copy_clock - 1)) copy_clock (<[1%nat := racer envelope1 copy_clock]> ∅) (d_accepted first_served)
    (d_arrived first_served ++ [racer envelope1 copy_clock]).
Definition cleaned : Door := Eval vm_compute in
  mkDoor (cleanup true (d_guard reopened) (copy_clock + 1)) (copy_clock + 1) (d_flight reopened) (d_accepted reopened) (d_arrived reopened).
Definition served_twice : Door := Eval vm_compute in default crowd (turns cleaned [1; 1; 1; 1]%nat).
Lemma served_twice_reached : rtc (door_step False) (opened first_clock) served_twice.
Proof.
  eapply rtc_l; [apply (arrives_steps _ _ envelope1 0%nat); vm_compute; reflexivity|].
  etransitivity; [apply (turns_steps False [0; 0; 0; 0]%nat _ first_served); vm_compute; reflexivity|].
  eapply rtc_l; [apply (ds_restored False _ (copy_clock - 1)); vm_compute; reflexivity|].
  eapply rtc_l; [apply (ds_tick False _ copy_clock); vm_compute; discriminate|].
  eapply rtc_l; [apply (arrives_steps _ _ envelope1 1%nat); vm_compute; reflexivity|].
  eapply rtc_l; [apply (ds_tick False _ (copy_clock + 1)); vm_compute; discriminate|].
  eapply rtc_l; [apply (ds_cleanup False _ true (copy_clock + 1)); [vm_compute; discriminate|done]|].
  apply (turns_steps False [1; 1; 1; 1]%nat). vm_compute. reflexivity.
Qed.

(** Without the order of clean-ups and requests a signature can be accepted twice: the hub
    restarts and reads the time of an accepted signature back in whole seconds, a copy
    reads the clock in the last nanosecond its timestamp allows, and a clean-up that
    reads it one nanosecond later forgets the signature before the copy looks for it. *)
Theorem overtaking_cleanup_accepts_a_replay :
  exists start s, rtc (door_step False) (opened start) s /\ r_signature <$> d_accepted s = [sig; sig].
Proof. exists first_clock, served_twice. split; [apply served_twice_reached|vm_compute; reflexivity]. Qed.
End ToyRace.
