(* ===== verification/Spend.v ===== *)
(** * Spend: building a payment

    Models [build_multi_payment] and [build_payment] of [lib/src/payment.rs]:
    greedy selection of unmarked outputs, one output per recipient, the rest
    back as change, every input signed over the whole output list. *)

From S2P Require Import Prelude Types Crypto Transaction.

Inductive SpendError : Type := InsufficientFunds (available needed : N).

Section spend.
Context `{Primitives}.

(** The selection loop: [input_sum += utxo.value] panics on overflow. *)
Fixpoint select (needed : N) (selected : list Hash) (input_sum : N) (utxos : list (bool * TransactionOutput))
    : outcome SpendError (list Hash * N) :=
  match utxos with
  | [] => Ok (selected, input_sum)
  | (marked, utxo) :: rest =>
      if needed <=? input_sum then Ok (selected, input_sum)
      else if marked : bool then select needed selected input_sum rest
      else
        s ← add64 input_sum (value utxo);
        select needed (selected ++ [output_hash utxo]) s rest
  end.

(** [build_multi_payment]; [fresh i] is the [i]-th [Uuid::new_v4()]. *)
Definition recipient_outputs (fresh : nat -> Uuid) (recipients : list (PublicKey * N))
    : list TransactionOutput :=
  imap (fun i r => mkOutput r.2 (fresh i) r.1) recipients.
Definition build_multi_payment (fresh : nat -> Uuid) (available : list (bool * TransactionOutput))
    (key : PrivateKey) (recipients : list (PublicKey * N)) (fee : N) (change : PublicKey)
    : outcome SpendError Transaction :=
  recipients_total ← expect (checked_sum recipients.*2);
  total_needed ← add64 recipients_total fee;
  '(selected, input_sum) ← select total_needed [] 0 available;
  ensure negb (input_sum <? total_needed) otherwise InsufficientFunds input_sum total_needed;
  let outs := recipient_outputs fresh recipients in
  let outs := if total_needed <? input_sum
              then outs ++ [mkOutput (input_sum - total_needed) (fresh (length recipients)) change]
              else outs in
  Ok (mkTransaction ((fun h => signed h outs key) <$> selected) outs).

(** [build_payment] *)
Definition build_payment (fresh : nat -> Uuid) (available : list (bool * TransactionOutput))
    (key : PrivateKey) (recipient : PublicKey) (amount fee : N) (change : PublicKey)
    : outcome SpendError Transaction :=
  build_multi_payment fresh available key [(recipient, amount)] fee change.

(** ** Lemmas *)

(** The outputs nothing has spoken for. *)
Definition free_outputs (utxos : list (bool * TransactionOutput)) : list TransactionOutput :=
  omap (fun e : bool * TransactionOutput => if e.1 then None else Some e.2) utxos.

Lemma free_cons m o us :
  free_outputs ((m, o) :: us) = if m then free_outputs us else o :: free_outputs us.
Proof. by destruct m. Qed.

(** The loop takes a prefix of the free outputs; if it stops short of the need,
    it has taken all of them. *)
Lemma select_spec needed us : forall sel sum sel' sum',
  select needed sel sum us = Ok (sel', sum') ->
  exists taken rest, free_outputs us = taken ++ rest /\ sel' = sel ++ (output_hash <$> taken) /\
    sum' = sum + sumN (value <$> taken) /\ (sum' < needed -> rest = []).
Proof.
  induction us as [|[m o] us IH]; intros sel sum sel' sum' Hs; cbn in Hs.
  { inv_ok. simplify_eq. exists [], []. split_and!; [done|by rewrite app_nil_r|symmetry; apply N.add_0_r|done]. }
  rewrite free_cons. destruct (N.leb_spec needed sum).
  { inv_ok. simplify_eq. exists []. eexists. split_and!; [done|by rewrite app_nil_r|symmetry; apply N.add_0_r|lia]. }
  destruct m; [by apply IH|]. inv_ok.
  match goal with F : add64 _ _ = Ok _ |- _ => apply add64_Ok in F as [-> _] end.
  apply IH in Hs as (taken & rest & -> & -> & -> & Hr). exists (o :: taken), rest.
  rewrite <-(assoc_L (++)), !fmap_cons, sumN_cons. split_and!; [done..|lia|].
  intros Hlt. apply Hr. lia.
Qed.

Lemma select_fits needed us : forall sel sum,
  sum + sumN (value <$> free_outputs us) <= U64_MAX -> exists r, select needed sel sum us = Ok r.
Proof.
  induction us as [|[m o] us IH]; intros sel sum Hf; cbn [select]; [eauto|]. rewrite free_cons in Hf.
  destruct (needed <=? sum); [eauto|]. destruct m; [by apply IH|].
  rewrite fmap_cons, sumN_cons in Hf. rewrite add64_fits by lia. cbn. apply IH. lia.
Qed.

Lemma recipient_outputs_payments fresh rs :
  ((fun o => (pubkey o, value o)) <$> recipient_outputs fresh rs) = rs.
Proof.
  apply list_eq. intros i. unfold recipient_outputs. rewrite list_lookup_fmap, list_lookup_imap.
  by destruct (rs !! i) as [[]|].
Qed.

Lemma outputs_total fresh rs : sumN (value <$> recipient_outputs fresh rs) = sumN rs.*2.
Proof.
  rewrite <-(recipient_outputs_payments fresh rs) at 2. by rewrite <-list_fmap_compose.
Qed.

End spend.

(** ** Properties *)

(** C34: A built payment spends a prefix of the unmarked outputs whose value is exactly
    the outputs plus the fee, pays each recipient its amount in order with any rest as
    change, and every input verifies under the signing key over the whole output list. *)
Theorem payment_is_exact_and_signed {P : Primitives} {PL : PrimitiveLaws P} fresh available key rs fee change tx :
  build_multi_payment fresh available key rs fee change = Ok tx ->
  exists taken rest, free_outputs available = taken ++ rest /\ spends tx = output_hash <$> taken /\
    sumN (value <$> taken) = output_total tx + fee /\
    ((fun o => (pubkey o, value o)) <$> outputs tx) =
      rs ++ (if sumN rs.*2 + fee <? sumN (value <$> taken)
             then [(change, sumN (value <$> taken) - (sumN rs.*2 + fee))] else []) /\
    Forall (fun i => verifies i (outputs tx) (verifying_key key) = true) (inputs tx).
Proof.
  unfold build_multi_payment. intros Hb. inv_ok.
  match goal with F : checked_sum _ = Some _ |- _ => apply checked_sum_Some in F as [-> _] end.
  match goal with F : add64 _ _ = Ok _ |- _ => apply add64_Ok in F as [-> _] end.
  match goal with F : select _ _ _ _ = Ok ?r |- _ => destruct r as [sel sum]; rename F into Hs end.
  inv_ok. match goal with F : negb _ = true |- _ => apply negb_true_iff, N.ltb_ge in F; rename F into Hge end.
  apply select_spec in Hs as (taken & rest & Hfree & -> & -> & _). rewrite N.add_0_l in *. subst tx.
  exists taken, rest. split; [done|]. cbn [inputs outputs spends output_total app]. unfold spends, output_total. cbn.
  split; [by rewrite <-!list_fmap_compose|]. split; [|split].
  - case_match eqn:E; rewrite ?fmap_app, ?sumN_app, outputs_total; cbn.
    + apply N.ltb_lt in E. lia.
    + apply N.ltb_ge in E. lia.
  - case_match; rewrite ?fmap_app, recipient_outputs_payments; [done|by rewrite app_nil_r].
  - apply Forall_fmap, Forall_true. intros h. apply ecdsa_sound.
Qed.

(** Building a payment fails exactly when the unmarked outputs do not cover it, and
    reports both amounts. *)
Theorem payment_fails_only_for_want_of_funds {P : Primitives} fresh available key rs fee change :
  sumN (value <$> free_outputs available) <= U64_MAX -> sumN rs.*2 + fee <= U64_MAX ->
  build_multi_payment fresh available key rs fee change <> Panic /\
  (forall e, build_multi_payment fresh available key rs fee change = Err e <->
     sumN (value <$> free_outputs available) < sumN rs.*2 + fee /\
     e = InsufficientFunds (sumN (value <$> free_outputs available)) (sumN rs.*2 + fee)).
Proof.
  intros Hfit Hneed. unfold build_multi_payment. rewrite checked_sum_spec.
  rewrite (proj2 (N.leb_le _ _)) by lia. cbn [expect mbind outcome_bind]. rewrite add64_fits by done. cbn [mbind outcome_bind].
  destruct (select_fits (sumN rs.*2 + fee) available [] 0 ltac:(lia)) as ([sel sum] & Hs). rewrite Hs.
  cbn [mbind outcome_bind]. apply select_spec in Hs as (taken & rest & Hfree & _ & -> & Hshort). rewrite N.add_0_l in *.
  rewrite Hfree, fmap_app, sumN_app in *.
  destruct (N.ltb_spec (sumN (value <$> taken)) (sumN rs.*2 + fee)) as [Hlt|Hge]; cbn.
  - rewrite (Hshort Hlt), app_nil_r in *. cbn. rewrite N.add_0_r in *. split; [done|].
    intros e. split; [by intros [= <-]|by intros [_ ->]].
  - split; [done|]. intros e. split; [done|]. intros [Hx _]. lia.
Qed.

Module ToySpend.
Import Toy.

Definition purse : list (bool * TransactionOutput) :=
  [(true, mkOutput 1000 1 [7]); (false, mkOutput 60 2 [7]); (false, mkOutput 70 3 [7]); (false, mkOutput 9 4 [7])].
Definition paid : Transaction := Eval vm_compute in
  match build_multi_payment (fun n => N.of_nat n) purse [7] [([1], 50); ([2], 30)] 5 [7] with
  | Ok tx => tx | _ => mkTransaction [] [] end.

Lemma payment_is_exact_and_signed_witness :
  exists taken, spends paid = output_hash <$> taken /\ sumN (value <$> taken) = output_total paid + 5.
Proof.
  assert (E : build_multi_payment (fun n => N.of_nat n) purse [7] [([1], 50); ([2], 30)] 5 [7] = Ok paid)
    by (vm_compute; reflexivity).
  destruct (payment_is_exact_and_signed _ _ _ _ _ _ _ E) as (taken & rest & _ & H1 & H2 & _). exists taken. split; [exact H1|exact H2].
Defined.

Lemma payment_fails_only_for_want_of_funds_witness :
  build_multi_payment (fun n => N.of_nat n) purse [7] [([1], 500)] 5 [7] = Err (InsufficientFunds 139 505).
Proof.
  destruct (payment_fails_only_for_want_of_funds (fun n => N.of_nat n) purse [7] [([1], 500)] 5 [7]
    ltac:(vm_compute; discriminate) ltac:(vm_compute; discriminate)) as [_ H].
  apply H. split; vm_compute; reflexivity.
Defined.

End ToySpend.
