(* ===== verification/Peers.v ===== *)
(** * Peers: bans and network time

    Models [node/src/ban.rs] (strikes, bans and their persistence) and
    [node/src/time_sync.rs] (the clock offset taken from peers). An [IpAddr] is
    a number. [Utc::now()] is an argument at each call the source makes, and so
    is whether a write to the block store succeeds. *)

From S2P Require Import Prelude Types Blockchain.

Abbreviation IpAddr := N.

(** ** Bans *)
Definition BAN_DURATION_HOURS : Z := 1.
Definition MAX_STRIKES : N := 3.
Definition STRIKE_WINDOW_MINUTES : Z := 10.

Record Bans := mkBans {
  banned : gmap IpAddr DateTime;
  strikes : gmap IpAddr (N * DateTime);
  saved_bans : gmap IpAddr Z
}.

(** [ban_now] with [BlockStore::save_ban] *)
Definition ban_now (commits : bool) (b : Bans) (ip : IpAddr) (now : DateTime) : Bans :=
  let until := (now + minutes (BAN_DURATION_HOURS * 60))%Z in
  mkBans (<[ip := until]> (banned b)) (strikes b)
    (if commits then <[ip := (until / 1000000000)%Z]> (saved_bans b) else saved_bans b).

(** [is_banned] *)
Definition is_banned (b : Bans) (ip : IpAddr) (now : DateTime) : Bans * bool :=
  match banned b !! ip with
  | Some until => if (now <? until)%Z then (b, true)
                  else (mkBans (delete ip (banned b)) (strikes b) (saved_bans b), false)
  | None => (b, false)
  end.

(** [strike]: [now2] is the reading [ban_now] makes. *)
Definition strike (commits : bool) (b : Bans) (ip : IpAddr) (severe : bool) (now now2 : DateTime) : Bans :=
  if severe then ban_now commits b ip now2
  else
    let '(n, since) := default (0, now) (strikes b !! ip) in
    let '(n, since) := if (minutes STRIKE_WINDOW_MINUTES <? now - since)%Z then (0, now) else (n, since) in
    let count := n + 1 in
    if MAX_STRIKES <=? count
    then ban_now commits (mkBans (banned b) (delete ip (strikes b)) (saved_bans b)) ip now2
    else mkBans (banned b) (<[ip := (count, since)]> (strikes b)) (saved_bans b).

(** [load_persisted], at startup: the bans that have not ended. *)
Definition load_persisted (saved : gmap IpAddr Z) (now : DateTime) : Bans :=
  mkBans (filter (fun e : IpAddr * DateTime => (now < e.2)%Z) (seconds <$> saved)) ∅ saved.

(** ** Network time *)
Definition MAX_SAMPLES : nat := 50.
Definition MIN_SAMPLES_TO_ADJUST : nat := 5.
Definition MAX_TIME_ADJUSTMENT_MINUTES : Z := 70.

(** [chrono::Duration::num_minutes] *)
Definition num_minutes (d : Z) : Z := Z.quot (num_seconds d) 60.

(** [median_of_seconds] *)
Definition median_of_seconds (secs : list Z) : option Z :=
  if (length secs <? MIN_SAMPLES_TO_ADJUST)%nat then None
  else seconds <$> (sort_by Z.leb secs !! (length secs / 2)%nat).

(** [median_offset] *)
Definition median_offset (samples : gmap IpAddr Z) : option Z :=
  median_of_seconds (num_seconds <$> (map_to_list samples).*2).

(** The offset [record_sample] applies. *)
Definition applied_offset (samples : gmap IpAddr Z) : Z :=
  match median_offset samples with
  | None => 0
  | Some median =>
      if (MAX_TIME_ADJUSTMENT_MINUTES <? Z.abs (num_minutes median))%Z then 0 else median
  end.

(** [record_sample]: the samples, and the chain with its offset set. *)
Definition record_sample `{ChainEnv} (samples : gmap IpAddr Z) (bc : Blockchain) (ip : IpAddr) (offset : Z)
    : gmap IpAddr Z * Blockchain :=
  if (MAX_SAMPLES <=? size samples)%nat && bool_decide (samples !! ip = None) then (samples, bc)
  else
    let samples := <[ip := offset]> samples in
    (samples, set_time_offset bc (applied_offset samples)).

(** ** Lemmas *)
Section median.
Implicit Types (l : list Z).

Definition within (lo hi : Z) (l : list Z) : nat := length (base.filter (fun x => lo <= x <= hi)%Z l).

Lemma sorted_Z l : StronglySorted (fun a b => Z.leb a b = true) (sort_by Z.leb l).
Proof. apply sort_by_sorted; intros *; lia. Qed.

Lemma within_perm lo hi l l' : l ≡ₚ l' -> within lo hi l = within lo hi l'.
Proof. intros E. unfold within. by rewrite E. Qed.

Lemma within_app lo hi l l' : within lo hi (l ++ l') = (within lo hi l + within lo hi l')%nat.
Proof. unfold within. by rewrite filter_app, length_app. Qed.

Lemma within_le lo hi l : (within lo hi l <= length l)%nat.
Proof. apply length_filter. Qed.

Lemma within_none lo hi l : Forall (fun x => ~ (lo <= x <= hi)%Z) l -> within lo hi l = O.
Proof.
  intros Hn. unfold within. rewrite Forall_forall in Hn.
  rewrite (elem_of_nil_inv (base.filter _ l)); [done|]. intros x Hx.
  apply list_elem_of_filter in Hx as [Hx Hin]. by apply (Hn x).
Qed.

(** In a sorted list, what precedes an element is no greater, what follows no
    less. *)
Lemma sorted_split l i m :
  StronglySorted (fun a b => Z.leb a b = true) l -> l !! i = Some m ->
  Forall (fun x => x <= m)%Z (take (S i) l) /\ Forall (fun x => m <= x)%Z (drop i l).
Proof.
  intros Hs. revert i. induction Hs as [|x l Hs IH Hx]; intros i Hi; [done|]. destruct i as [|i]; cbn in Hi.
  - injection Hi as ->. cbn. rewrite take_0. split; [by repeat constructor|]. constructor; [lia|].
    eapply Forall_impl; [exact Hx|]. cbn. intros y Hy. by apply Z.leb_le in Hy.
  - destruct (IH i Hi) as [H1 H2]. split; [|done]. rewrite firstn_cons. constructor; [|done].
    rewrite Forall_forall in Hx. apply list_elem_of_lookup_2 in Hi. specialize (Hx m Hi). lia.
Qed.

(** The median lies wherever more than half of the samples do. *)
Lemma median_within lo hi l m :
  sort_by Z.leb l !! (length l / 2)%nat = Some m -> (length l < 2 * within lo hi l)%nat ->
  (lo <= m <= hi)%Z.
Proof.
  intros Hm Hmaj. pose proof (sorted_split _ _ _ (sorted_Z l) Hm) as [H1 H2].
  rewrite <-(within_perm lo hi _ _ (sort_by_perm Z.leb l)) in Hmaj.
  assert (Hlen : length (sort_by Z.leb l) = length l) by (apply Permutation_length, sort_by_perm).
  set (s := sort_by Z.leb l) in *. set (n := length l) in *.
  pose proof (Nat.div_mod_eq n 2) as Hd. pose proof (Nat.mod_upper_bound n 2 ltac:(lia)).
  split.
  - destruct (Z_le_gt_dec lo m) as [|Hgt]; [done|]. exfalso.
    rewrite <-(take_drop (S (n / 2)) s), within_app in Hmaj.
    rewrite (within_none lo hi (take _ s)) in Hmaj.
    + pose proof (within_le lo hi (drop (S (n / 2)) s)) as Hw. rewrite length_drop in Hw. lia.
    + eapply Forall_impl; [exact H1|]. cbn. lia.
  - destruct (Z_le_gt_dec m hi) as [|Hgt]; [done|]. exfalso.
    rewrite <-(take_drop (n / 2) s), within_app in Hmaj.
    rewrite (within_none lo hi (drop _ s)) in Hmaj.
    + pose proof (within_le lo hi (take (n / 2) s)) as Hw. rewrite length_take in Hw. lia.
    + eapply Forall_impl; [exact H2|]. cbn. lia.
Qed.

End median.

(** ** Properties *)

(** The clock offset taken from peers stays below 71 minutes, and when more than half of
    the samples lie in a range the offset lies in that range or between it and zero. *)
Theorem network_time_is_bounded samples lo hi :
  (Z.abs (applied_offset samples) < minutes (MAX_TIME_ADJUSTMENT_MINUTES + 1))%Z /\
  ((size samples < 2 * within lo hi (num_seconds <$> (map_to_list samples).*2))%nat ->
   (Z.min (seconds lo) 0 <= applied_offset samples <= Z.max (seconds hi) 0)%Z).
Proof.
  unfold applied_offset, median_offset, median_of_seconds.
  destruct (_ <? _)%nat; [split; [vm_compute; done|lia]|].
  set (l := num_seconds <$> (map_to_list samples).*2).
  assert (Hl : length l = size samples) by (unfold l; by rewrite !length_fmap, length_map_to_list).
  destruct (sort_by Z.leb l !! (length l / 2)%nat) as [m|] eqn:Hm; cbn [fmap option_fmap option_map];
    [|split; [vm_compute; done|lia]].
  destruct (Z.ltb_spec MAX_TIME_ADJUSTMENT_MINUTES (Z.abs (num_minutes (seconds m)))) as [Hb|Hb];
    [split; [vm_compute; done|lia]|]. split.
  - unfold num_minutes, num_seconds, minutes, seconds, MAX_TIME_ADJUSTMENT_MINUTES in *.
    rewrite Z.quot_mul in Hb by lia. pose proof (Z.quot_rem' m 60). pose proof (Z.rem_bound_abs m 60 ltac:(lia)). lia.
  - intros Hmaj. rewrite <-Hl in Hmaj. pose proof (median_within lo hi l m Hm Hmaj). unfold seconds. lia.
Qed.

Lemma lookup_ban_now c b ip now :
  banned (ban_now c b ip now) !! ip = Some (now + minutes (BAN_DURATION_HOURS * 60))%Z.
Proof. apply lookup_insert_eq. Qed.

Lemma banned_until b ip until now :
  banned b !! ip = Some until -> (is_banned b ip now).2 = (now <? until)%Z.
Proof. intros E. unfold is_banned. rewrite E. by destruct (now <? until)%Z. Qed.

Lemma strike_window c b ip n since now now2 :
  default (0, now) (strikes b !! ip) = (n, since) -> (now - since <= minutes STRIKE_WINDOW_MINUTES)%Z ->
  strike c b ip false now now2 =
  if MAX_STRIKES <=? n + 1
  then ban_now c (mkBans (banned b) (delete ip (strikes b)) (saved_bans b)) ip now2
  else mkBans (banned b) (<[ip := (n + 1, since)]> (strikes b)) (saved_bans b).
Proof. intros E Hw. unfold strike. rewrite E. by rewrite (proj2 (Z.ltb_ge _ _) Hw). Qed.

(** The third ordinary strike within the window bans the peer for an hour, two do not, and
    a restart keeps the ban to the second. *)
Theorem three_strikes_ban_across_restarts b ip t1 t2 t3 t :
  strikes b !! ip = None -> (t1 <= t2 <= t3)%Z -> (t3 - t1 <= minutes STRIKE_WINDOW_MINUTES)%Z ->
  let b2 := strike true (strike true b ip false t1 t1) ip false t2 t2 in
  let b3 := strike true b2 ip false t3 t3 in
  let until := (t3 + minutes (BAN_DURATION_HOURS * 60))%Z in
  banned b2 !! ip = banned b !! ip /\
  (is_banned b3 ip t).2 = (t <? until)%Z /\
  (is_banned (load_persisted (saved_bans b3) t) ip t).2 = (t <? seconds (until / 1000000000))%Z.
Proof.
  intros Hn Hle Hw b2 b3 until.
  assert (E1 : strike true b ip false t1 t1 = mkBans (banned b) (<[ip := (1, t1)]> (strikes b)) (saved_bans b)).
  { apply (strike_window true b ip 0 t1); [by rewrite Hn|]. unfold minutes, seconds, STRIKE_WINDOW_MINUTES. lia. }
  assert (E2 : b2 = mkBans (banned b) (<[ip := (2, t1)]> (strikes b)) (saved_bans b)).
  { unfold b2. rewrite E1. rewrite (strike_window true _ ip 1 t1); [|cbn; by rewrite lookup_insert_eq|lia].
    cbn. by rewrite insert_insert_eq. }
  assert (E3 : b3 = ban_now true (mkBans (banned b) (delete ip (strikes b2)) (saved_bans b)) ip t3).
  { unfold b3. rewrite E2. rewrite (strike_window true _ ip 2 t1); [done|cbn; by rewrite lookup_insert_eq|lia]. }
  split; [by rewrite E2|]. rewrite E3. split; [by apply banned_until, lookup_ban_now|].
  unfold is_banned, load_persisted. cbn.
  destruct (filter _ (seconds <$> <[ip:=_]> (saved_bans b)) !! ip) as [v|] eqn:E.
  - apply map_lookup_filter_Some in E as [E Hv]. rewrite lookup_fmap, lookup_insert_eq in E. injection E as <-.
    cbn in Hv. fold until in Hv |- *. by rewrite (proj2 (Z.ltb_lt _ _) Hv).
  - symmetry. apply Z.ltb_ge. apply map_lookup_filter_None in E as [E|E].
    + by rewrite lookup_fmap, lookup_insert_eq in E.
    + specialize (E (seconds (until / 1000000000))). rewrite lookup_fmap, lookup_insert_eq in E.
      specialize (E eq_refl). cbn in E. lia.
Qed.

(** Three honest peers, two that lie by a year. *)
Definition five_samples : gmap IpAddr Z :=
  <[1 := seconds 2]> (<[2 := seconds 3]> (<[3 := seconds 4]>
    (<[4 := seconds 31536000]> (<[5 := seconds 31536000]> ∅)))).

Lemma network_time_is_bounded_witness :
  (Z.min (seconds 2) 0 <= applied_offset five_samples <= Z.max (seconds 4) 0)%Z.
Proof. apply (network_time_is_bounded five_samples 2 4). vm_compute. lia. Defined.

Definition no_bans : Bans := mkBans ∅ ∅ ∅.

Lemma three_strikes_ban_across_restarts_witness :
  (is_banned (strike true (strike true (strike true no_bans 7 false 1 1) 7 false 2 2) 7 false 3 3) 7 100).2 = true.
Proof.
  destruct (three_strikes_ban_across_restarts no_bans 7 1 2 3 100 ltac:(vm_compute; reflexivity) ltac:(lia) ltac:(vm_compute; discriminate))
    as (_ & H & _). exact H.
Defined.
