(* ===== verification/Wire.v ===== *)
(** * Wire: framing and handshake

    Models [lib/src/network.rs]: the messages peers exchange, their
    length-prefixed frames, and the two sides of the handshake. The CBOR codec
    of a message is the ciborium crate's: the operations of [MessageCodec],
    with the round trip it documents in [CodecLaws].

    What a peer has sent before it closes the connection is a list of bytes;
    reading past its end is [UnexpectedEof]. [send] and [recieve] have the
    bodies of [send_async] and [receive_async]. *)

From S2P Require Import Prelude Types Crypto Params.

Inductive Message : Type :=
| Hello (magic version : N) (timestamp : DateTime)
| HelloAck (magic version : N) (accepted : bool) (timestamp : DateTime)
| FetchUTXOs (key : PublicKey)
| UTXOs (utxos : list (TransactionOutput * bool))
| SubmitTransaction (tx : Transaction)
| NewTransaction (tx : Transaction)
| FetchTemplate (key : PublicKey)
| Template (b : Block)
| ValidateTemplate (b : Block)
| TemplateValidity (valid : bool)
| SubmitTemplate (b : Block)
| DiscoverNodes
| NodeList (nodes : list string)
| AskChainTip
| ChainTip (height work : N)
| FetchBlocks (start count : N)
| Blocks (blocks : list Block)
| NewBlock (b : Block).

#[global] Instance Message_eq_dec : EqDecision Message.
Proof. solve_decision. Defined.

Class MessageCodec := {
  encode : Message -> list N;
  decode : list N -> option Message
}.
Class CodecLaws (C : MessageCodec) : Prop := {
  decode_encode m : decode (encode m) = Some m
}.

(** ** Frames *)
Inductive IoErrorKind : Type :=
| UnexpectedEof | ConnectionReset | ConnectionAborted | BrokenPipe | InvalidData | OtherIo.
(** [ciborium::de::Error]: of the stream, or of the bytes. *)
Inductive DeError : Type := DeIo (kind : IoErrorKind) | DeMalformed.

(** [is_benign_disconnect] *)
Definition is_benign_disconnect (e : DeError) : bool :=
  match e with
  | DeIo (UnexpectedEof | ConnectionReset | ConnectionAborted | BrokenPipe) => true
  | _ => false
  end.
Definition oversized_message_error : DeError := DeIo InvalidData.

(** [Read::read_exact] of [n] bytes. *)
Definition read_exact (n : N) (stream : list N) : outcome DeError (list N * list N) :=
  if N.of_nat (length stream) <? n then Err (DeIo UnexpectedEof)
  else Ok (take (N.to_nat n) stream, drop (N.to_nat n) stream).

Section frames.
Context {C : MessageCodec}.

(** [Message::send], [Message::recieve] *)
Definition send (m : Message) : list N :=
  let bytes := encode m in
  be_bytes 8 (N.of_nat (length bytes)) ++ bytes.
Definition recieve (stream : list N) : outcome DeError (Message * list N) :=
  '(len_bytes, stream) ← read_exact 8 stream;
  let len := be_val len_bytes in
  if MAX_MESSAGE_SIZE <? len then Err oversized_message_error
  else
    '(data, stream) ← read_exact len stream;
    match decode data with
    | Some m => Ok (m, stream)
    | None => Err DeMalformed
    end.

(** ** Handshake *)
Inductive HandshakeError : Type := Network | Incompatible (magic version : N) | UnexpectedMessage.

(** [perform_handshake_initiator] from its first message on: [received_at] is
    read after the [Hello] is sent and before the reply is awaited. *)
Definition hello (now : DateTime) : Message := Hello PROTOCOL_MAGIC PROTOCOL_VERSION now.
Definition perform_handshake_initiator (received_at : DateTime) (stream : list N)
    : outcome HandshakeError (Z * list N) :=
  match recieve stream with
  | Ok (HelloAck magic version accepted timestamp, rest) =>
      if negb accepted || negb (magic =? PROTOCOL_MAGIC) || negb (version =? PROTOCOL_VERSION)
      then Err (Incompatible magic version)
      else Ok ((timestamp - received_at)%Z, rest)
  | Ok _ => Err UnexpectedMessage
  | _ => Err Network
  end.

(** [perform_handshake_acceptor]: what it sends, if anything, and its result. *)
Definition perform_handshake_acceptor (received_at now : DateTime) (stream : list N)
    : option Message * outcome HandshakeError (Z * list N) :=
  match recieve stream with
  | Ok (Hello magic version timestamp, rest) =>
      let accepted := (magic =? PROTOCOL_MAGIC) && (version =? PROTOCOL_VERSION) in
      (Some (HelloAck PROTOCOL_MAGIC PROTOCOL_VERSION accepted now),
       if accepted then Ok ((timestamp - received_at)%Z, rest) else Err (Incompatible magic version))
  | Ok _ => (None, Err UnexpectedMessage)
  | _ => (None, Err Network)
  end.
End frames.

(** ** Frames arrive as they were sent *)
Lemma read_exact_app n (l r : list N) : N.of_nat (length l) = n -> read_exact n (l ++ r) = Ok (l, r).
Proof.
  intros <-. unfold read_exact. rewrite length_app. destruct (N.ltb_spec (N.of_nat (length l + length r)) (N.of_nat (length l))); [lia|].
  by rewrite Nat2N.id, take_app_length, drop_app_length.
Qed.
Lemma read_exact_short n (l : list N) : N.of_nat (length l) < n -> read_exact n l = Err (DeIo UnexpectedEof).
Proof. intros Hl. unfold read_exact. by destruct (N.ltb_spec (N.of_nat (length l)) n); [|lia]. Qed.

Section round_trip.
Context {C : MessageCodec} {L : CodecLaws C}.

(** A message a peer accepts. *)
Definition fits (m : Message) : Prop := N.of_nat (length (encode m)) <= MAX_MESSAGE_SIZE.

Lemma len_prefix m : fits m -> be_val (be_bytes 8 (N.of_nat (length (encode m)))) = N.of_nat (length (encode m)).
Proof.
  intros Hf. unfold fits, MAX_MESSAGE_SIZE in Hf. apply be_val_bytes.
  change (256 ^ N.of_nat 8) with (2 ^ 64). lia.
Qed.

Lemma recieve_send m rest : fits m -> recieve (send m ++ rest) = Ok (m, rest).
Proof.
  intros Hf. unfold recieve, send. rewrite <-app_assoc, read_exact_app by (by rewrite length_be_bytes).
  cbn [mbind outcome_bind]. rewrite len_prefix by done. destruct (N.ltb_spec MAX_MESSAGE_SIZE (N.of_nat (length (encode m)))); [unfold fits in Hf; lia|].
  rewrite read_exact_app by done. cbn. by rewrite decode_encode.
Qed.

(** A peer that stops inside a frame. *)
Lemma recieve_cut m k : fits m -> (k < length (send m))%nat -> recieve (take k (send m)) = Err (DeIo UnexpectedEof).
Proof.
  intros Hf Hk. unfold recieve, send in *. rewrite length_app, length_be_bytes in Hk.
  destruct (decide (k < 8)%nat) as [Hlt|Hge].
  - rewrite read_exact_short; [done|]. rewrite length_take, length_app, length_be_bytes. lia.
  - rewrite take_app_ge, length_be_bytes by (rewrite length_be_bytes; lia).
    rewrite read_exact_app by (by rewrite length_be_bytes). cbn [mbind outcome_bind]. rewrite len_prefix by done.
    destruct (N.ltb_spec MAX_MESSAGE_SIZE (N.of_nat (length (encode m)))); [unfold fits in Hf; lia|].
    rewrite read_exact_short; [done|]. rewrite length_take. lia.
Qed.

(** Reading frame after frame, until the connection ends. *)
Fixpoint recieve_all (fuel : nat) (stream : list N) : list Message * DeError :=
  match fuel with
  | O => ([], DeMalformed)
  | S fuel =>
      match recieve stream with
      | Ok (m, rest) => let '(ms, e) := recieve_all fuel rest in (m :: ms, e)
      | Err e => ([], e)
      | Panic => ([], DeMalformed)
      end
  end.

(** Messages that fit the size limit arrive as they were sent and in order, and a
    connection that ends between two frames or inside one is an end of file. *)
Theorem frames_round_trip ms m k fuel :
  Forall fits ms -> fits m -> (k < length (send m))%nat -> (length ms < fuel)%nat ->
  recieve_all fuel (concat (send <$> ms) ++ take k (send m)) = (ms, DeIo UnexpectedEof).
Proof.
  intros Hms Hm Hk. revert fuel. induction Hms as [|x ms Hx _ IH]; intros fuel Hf; (destruct fuel; [cbn in Hf; lia|]); cbn [concat fmap list_fmap app recieve_all].
  - rewrite recieve_cut by done. done.
  - rewrite <-app_assoc, recieve_send by done. rewrite IH by (cbn in Hf; lia). done.
Qed.

Lemma recieve_oversized len rest : MAX_MESSAGE_SIZE < len < 2 ^ 64 -> recieve (be_bytes 8 len ++ rest) = Err (DeIo InvalidData).
Proof.
  intros [H1 H2]. unfold recieve. rewrite read_exact_app by (by rewrite length_be_bytes). cbn [mbind outcome_bind].
  rewrite be_val_bytes by done. by destruct (N.ltb_spec MAX_MESSAGE_SIZE len); [|lia].
Qed.

(** A length prefix over the limit is refused before any of the message is read, and is no
    benign disconnect. *)
Theorem oversized_frame_is_refused len rest :
  MAX_MESSAGE_SIZE < len -> len < 2 ^ 64 ->
  recieve (be_bytes 8 len ++ rest) = Err (DeIo InvalidData) /\ is_benign_disconnect (DeIo InvalidData) = false.
Proof.
  intros H1 H2. split; [|done]. by apply recieve_oversized.
Qed.

(** ** Both sides of a handshake agree *)

(** The two sides of a handshake agree: both succeed exactly when the peer's magic and
    version are this build's, with the clock offset each computes from the other's
    timestamp, and otherwise both report the incompatibility. *)
Theorem handshake_agrees magic version t received now sent rest :
  fits (Hello magic version t) ->
  (forall ack, fits (HelloAck PROTOCOL_MAGIC PROTOCOL_VERSION ack now)) ->
  let '(reply, result) := perform_handshake_acceptor received now (send (Hello magic version t) ++ rest) in
  let compatible := bool_decide ((magic, version) = (PROTOCOL_MAGIC, PROTOCOL_VERSION)) in
  exists ack, reply = Some ack /\
    result = (if compatible then Ok ((t - received)%Z, rest) else Err (Incompatible magic version)) /\
    perform_handshake_initiator sent (send ack) =
      (if compatible then Ok ((now - sent)%Z, []) else Err (Incompatible PROTOCOL_MAGIC PROTOCOL_VERSION)).
Proof.
  intros Hf Ha. unfold perform_handshake_acceptor. rewrite recieve_send by done. cbv zeta.
  assert (Hd : ((magic =? PROTOCOL_MAGIC) && (version =? PROTOCOL_VERSION)) = bool_decide ((magic, version) = (PROTOCOL_MAGIC, PROTOCOL_VERSION))).
  { destruct (N.eqb_spec magic PROTOCOL_MAGIC), (N.eqb_spec version PROTOCOL_VERSION); cbn [andb]; symmetry;
      [by apply bool_decide_eq_true_2; subst|apply bool_decide_eq_false_2; congruence..]. }
  rewrite Hd. eexists. split; [done|]. split; [done|]. unfold perform_handshake_initiator.
  rewrite <-(app_nil_r (send _)), recieve_send by done. rewrite !N.eqb_refl. by destruct (bool_decide _).
Qed.

End round_trip.

(** ** A concrete codec

    Messages through the countable encoding of stdpp, on bytes. *)
Module ToyCodec.

#[export] Instance input_countable : Countable TransactionInput :=
  inj_countable' (fun i => (prev_transaction_output_hash i, signature i)) (fun p => mkInput p.1 p.2) ltac:(by intros []).
#[export] Instance output_countable : Countable TransactionOutput :=
  inj_countable' (fun o => (value o, unique_id o, pubkey o)) (fun p => mkOutput p.1.1 p.1.2 p.2) ltac:(by intros []).
#[export] Instance transaction_countable : Countable Transaction :=
  inj_countable' (fun t => (inputs t, outputs t)) (fun p => mkTransaction p.1 p.2) ltac:(by intros []).
#[export] Instance header_countable : Countable BlockHeader :=
  inj_countable' (fun h => (timestamp h, nonce h, prev_block_hash h, merkle_root h, target h))
    (fun p => mkHeader p.1.1.1.1 p.1.1.1.2 p.1.1.2 p.1.2 p.2) ltac:(by intros []).
#[export] Instance block_countable : Countable Block :=
  inj_countable' (fun b => (header b, transactions b)) (fun p => mkBlock p.1 p.2) ltac:(by intros []).

Abbreviation payload :=
  (((N * N * Z + N * N * bool * Z) + ((PublicKey + list (TransactionOutput * bool)) + (Transaction + Transaction))) +
   (((PublicKey + Block) + (Block + bool)) + ((Block + unit) + ((list string + unit) + ((N * N + N * N) + (list Block + Block))))))%type.
Definition to_payload (m : Message) : payload :=
  match m with
  | Hello a b t => inl (inl (inl (a, b, t)))
  | HelloAck a b c t => inl (inl (inr (a, b, c, t)))
  | FetchUTXOs k => inl (inr (inl (inl k)))
  | UTXOs l => inl (inr (inl (inr l)))
  | SubmitTransaction t => inl (inr (inr (inl t)))
  | NewTransaction t => inl (inr (inr (inr t)))
  | FetchTemplate k => inr (inl (inl (inl k)))
  | Template b => inr (inl (inl (inr b)))
  | ValidateTemplate b => inr (inl (inr (inl b)))
  | TemplateValidity b => inr (inl (inr (inr b)))
  | SubmitTemplate b => inr (inr (inl (inl b)))
  | DiscoverNodes => inr (inr (inl (inr tt)))
  | NodeList l => inr (inr (inr (inl (inl l))))
  | AskChainTip => inr (inr (inr (inl (inr tt))))
  | ChainTip a b => inr (inr (inr (inr (inl (inl (a, b))))))
  | FetchBlocks a b => inr (inr (inr (inr (inl (inr (a, b))))))
  | Blocks l => inr (inr (inr (inr (inr (inl l)))))
  | NewBlock b => inr (inr (inr (inr (inr (inr b)))))
  end.
Definition of_payload (p : payload) : Message :=
  match p with
  | inl (inl (inl (a, b, t))) => Hello a b t
  | inl (inl (inr (a, b, c, t))) => HelloAck a b c t
  | inl (inr (inl (inl k))) => FetchUTXOs k
  | inl (inr (inl (inr l))) => UTXOs l
  | inl (inr (inr (inl t))) => SubmitTransaction t
  | inl (inr (inr (inr t))) => NewTransaction t
  | inr (inl (inl (inl k))) => FetchTemplate k
  | inr (inl (inl (inr b))) => Template b
  | inr (inl (inr (inl b))) => ValidateTemplate b
  | inr (inl (inr (inr b))) => TemplateValidity b
  | inr (inr (inl (inl b))) => SubmitTemplate b
  | inr (inr (inl (inr _))) => DiscoverNodes
  | inr (inr (inr (inl (inl l)))) => NodeList l
  | inr (inr (inr (inl (inr _)))) => AskChainTip
  | inr (inr (inr (inr (inl (inl (a, b)))))) => ChainTip a b
  | inr (inr (inr (inr (inl (inr (a, b)))))) => FetchBlocks a b
  | inr (inr (inr (inr (inr (inl l))))) => Blocks l
  | inr (inr (inr (inr (inr (inr b))))) => NewBlock b
  end.
#[export] Instance message_countable : Countable Message :=
  inj_countable' to_payload of_payload ltac:(by intros []).

(** The bytes of a number, and back. *)
Definition to_bytes (p : positive) : list N := le_bytes (N.to_nat (N.size (Npos p))) (Npos p).
Definition of_bytes (l : list N) : option positive := match le_val l with N0 => None | Npos p => Some p end.
Lemma of_to_bytes p : of_bytes (to_bytes p) = Some p.
Proof.
  unfold of_bytes, to_bytes. rewrite le_val_bytes; [done|]. rewrite N2Nat.id.
  eapply N.lt_le_trans; [apply N.size_gt|]. apply N.pow_le_mono_l. lia.
Qed.

#[export] Instance codec : MessageCodec := {
  encode m := to_bytes (countable.encode m);
  decode l := of_bytes l ≫= countable.decode
}.
#[export] Instance codec_laws : CodecLaws codec.
Proof. split. intros m. cbn -[to_bytes of_bytes countable.encode countable.decode]. rewrite of_to_bytes. cbn. apply countable.decode_encode. Qed.

Lemma frames_round_trip_witness :
  recieve_all 3 (send AskChainTip ++ send (FetchBlocks 4 8) ++ take 9 (send (Hello 1 2 3))) =
    ([AskChainTip; FetchBlocks 4 8], DeIo UnexpectedEof).
Proof.
  refine (frames_round_trip [AskChainTip; FetchBlocks 4 8] (Hello 1 2 3) 9 3 _ _ _ _).
  - repeat (constructor; [vm_compute; discriminate|]). constructor.
  - vm_compute. discriminate.
  - vm_compute. lia.
  - vm_compute. lia.
Defined.
End ToyCodec.
