(* ===== verification/BlockStore.v ===== *)
(** * BlockStore: the node's durable store

    Models [lib/src/store.rs]: the blocks by hash, the record of the active
    chain and the schema version, the bans, and the opening of a store of any
    version. A redb write transaction commits whole or not at all; whether it
    does is an argument. The CBOR of a block is [cbor_block], and reading it back
    the operation of [BlockCodec], ciborium's. *)

From S2P Require Import Prelude Types Crypto.

Definition SCHEMA_VERSION : N := 2.
Definition ACTIVE_CHAIN_KEY : string := "active_chain".
Definition SCHEMA_VERSION_KEY : string := "schema_version".

Inductive StoreError : Type :=
| Redb
| MissingTable
| Serialization
| CorruptActiveChain (len : N)
| UnsupportedSchemaVersion (found expected : N)
| CorruptSchemaVersion.

(** The tables; [bans_table] is absent from a version 1 store. *)
Record Store := mkStore {
  blocks_table : gmap (list N) (list N);
  meta_table : gmap string (list N);
  bans_table : option (gmap string Z)
}.
Definition with_blocks_table (s : Store) b : Store := mkStore b (meta_table s) (bans_table s).
Definition with_meta (s : Store) m : Store := mkStore (blocks_table s) m (bans_table s).
Definition with_bans (s : Store) b : Store := mkStore (blocks_table s) (meta_table s) b.
(** The file [Database::create] makes when there is none. *)
Definition empty_store : Store := mkStore ∅ ∅ None.

Definition commit {A} (commits : bool) (a : A) : outcome StoreError A := if commits then Ok a else Err Redb.

(** ** Opening *)

(** [txn.open_table(BANS_TABLE)] in a write transaction creates the table. *)
Definition migrate_v1_to_v2 (s : Store) : Store := with_bans s (Some (default ∅ (bans_table s))).
Definition MIGRATIONS : list (N * (Store -> Store)) := [(2, migrate_v1_to_v2)].

Definition stored_version (s : Store) : outcome StoreError (option N) :=
  match meta_table s !! SCHEMA_VERSION_KEY with
  | None => Ok None
  | Some bytes => if (length bytes =? 4)%nat then Ok (Some (be_val bytes)) else Err CorruptSchemaVersion
  end.
Definition migrate (found : N) (s : Store) : Store :=
  foldl (fun s m => if found <? m.1 then m.2 s else s) s MIGRATIONS.

(** [BlockStore::open_or_create] *)
Definition open_or_create (commits : bool) (s : Store) : outcome StoreError Store :=
  v ← stored_version s;
  s ← (match v with
       | None => Ok (migrate_v1_to_v2 s)
       | Some found =>
           if SCHEMA_VERSION <? found then Err (UnsupportedSchemaVersion found SCHEMA_VERSION)
           else if found <? SCHEMA_VERSION then Ok (migrate found s)
           else Ok s
       end);
  commit commits (with_meta s (<[SCHEMA_VERSION_KEY := be_bytes 4 SCHEMA_VERSION]> (meta_table s))).

(** ** Blocks *)
Class BlockCodec `{Primitives} := { parse_block : list N -> option Block }.
(** The round trip, for the blocks in play. *)
Class BlockCodecLaws (U : Block -> Prop) `(BC : BlockCodec) : Prop := {
  parse_cbor b : U b -> parse_block (cbor_block b) = Some b
}.

Section store.
Context `{BC : BlockCodec}.

(** [BlockStore::put_block], [delete_blocks], [get_block] *)
Definition put_block (commits : bool) (s : Store) (b : Block) : outcome StoreError Store :=
  commit commits (with_blocks_table s (<[as_bytes (block_hash b) := cbor_block b]> (blocks_table s))).
Definition delete_blocks (commits : bool) (s : Store) (hashes : list Hash) : outcome StoreError Store :=
  match hashes with
  | [] => Ok s
  | _ => commit commits (with_blocks_table s (foldl (fun t h => delete (as_bytes h) t) (blocks_table s) hashes))
  end.
Definition get_block (s : Store) (h : Hash) : outcome StoreError (option Block) :=
  match blocks_table s !! as_bytes h with
  | None => Ok None
  | Some bytes => b ← ok_or (parse_block bytes) Serialization; Ok (Some b)
  end.

(** ** The active chain: [BlockStore::set_active_chain], [get_active_chain] *)
Definition set_active_chain (commits : bool) (s : Store) (chain : list Hash) : outcome StoreError Store :=
  commit commits (with_meta s (<[ACTIVE_CHAIN_KEY := concat (as_bytes <$> chain)]> (meta_table s))).
(** [bytes.chunks_exact(32)] *)
Definition chunks_exact (n : nat) (bytes : list N) : list (list N) := reshape (replicate (length bytes / n) n) bytes.
Definition get_active_chain (s : Store) : outcome StoreError (list Hash) :=
  match meta_table s !! ACTIVE_CHAIN_KEY with
  | None => Ok []
  | Some bytes =>
      if negb (length bytes mod 32 =? 0)%nat then Err (CorruptActiveChain (N.of_nat (length bytes)))
      else Ok (from_bytes <$> chunks_exact 32 bytes)
  end.

(** ** Bans: [BlockStore::save_ban], [load_bans] *)
Definition save_ban (commits : bool) (s : Store) (ip : string) (until_unix : Z) : outcome StoreError Store :=
  commit commits (with_bans s (Some (<[ip := until_unix]> (default ∅ (bans_table s))))).
Definition load_bans (s : Store) : outcome StoreError (list (string * Z)) :=
  bans ← ok_or (bans_table s) MissingTable; Ok (map_to_list bans).
End store.

(** ** What is written is read back *)
Section store_lemmas.
Context `{P : Primitives} {PL : PrimitiveLaws P} {BC : BlockCodec} {U : Block -> Prop} {BL : BlockCodecLaws U BC}.

Definition hash_ok (h : Hash) : Prop := h <= U256_MAX.
Lemma block_hash_ok b : hash_ok (block_hash b).
Proof. apply hash_bytes_bound. Qed.
Lemma as_bytes_inj h h' : hash_ok h -> hash_ok h' -> as_bytes h = as_bytes h' -> h = h'.
Proof. intros Hh Hh' E. rewrite <-(from_as_bytes h), <-(from_as_bytes h') by done. by rewrite E. Qed.

Lemma get_put s b h :
  U b -> hash_ok h ->
  get_block (with_blocks_table s (<[as_bytes (block_hash b) := cbor_block b]> (blocks_table s))) h =
  if decide (h = block_hash b) then Ok (Some b) else get_block s h.
Proof.
  intros Hu Hh. unfold get_block. cbn. case_decide as E.
  - subst. rewrite lookup_insert_eq, parse_cbor by done. done.
  - rewrite lookup_insert_ne; [done|]. intros F. apply as_bytes_inj in F; [done|apply block_hash_ok|done].
Qed.

Lemma deleted_lookup hs : forall (t : gmap (list N) (list N)) h, Forall hash_ok hs -> hash_ok h ->
  foldl (fun t h => delete (as_bytes h) t) t hs !! as_bytes h = if decide (h ∈ hs) then None else t !! as_bytes h.
Proof.
  induction hs as [|x hs IH]; intros t h Hhs Hh; [done|]. apply Forall_cons in Hhs as [Hx Hhs]. cbn [foldl]. rewrite IH by done.
  destruct (decide (h ∈ hs)) as [Hin|Hni]; [by rewrite decide_True by set_solver|].
  destruct (decide (h = x)) as [->|Hne]; [rewrite lookup_delete_eq, decide_True by set_solver; done|].
  rewrite lookup_delete_ne by (intros E; apply as_bytes_inj in E; congruence). by rewrite decide_False by set_solver.
Qed.

Lemma get_deleted s hs h :
  Forall hash_ok hs -> hash_ok h ->
  get_block (with_blocks_table s (foldl (fun t h => delete (as_bytes h) t) (blocks_table s) hs)) h =
  if decide (h ∈ hs) then Ok None else get_block s h.
Proof. intros Hhs Hh. unfold get_block. cbn [blocks_table with_blocks_table]. rewrite deleted_lookup by done. by case_decide. Qed.

Lemma chain_bytes_read chain :
  Forall hash_ok chain ->
  (length (concat (as_bytes <$> chain)) mod 32 = 0)%nat /\
  from_bytes <$> chunks_exact 32 (concat (as_bytes <$> chain)) = chain.
Proof.
  intros Hc. assert (Hl : (length (concat (as_bytes <$> chain)) = length chain * 32)%nat).
  { clear Hc. induction chain as [|h l IH]; [done|]. cbn [fmap list_fmap concat length]. rewrite length_app, IH.
    unfold as_bytes. rewrite length_le_bytes. lia. }
  split; [rewrite Hl; apply Nat.Div0.mod_mul|]. unfold chunks_exact. rewrite Hl, Nat.div_mul by done. clear Hl.
  induction Hc as [|h l Hh _ IH]; [done|]. cbn [fmap list_fmap concat length replicate reshape].
  rewrite take_app_length', drop_app_length' by (symmetry; apply length_le_bytes). f_equal; [by apply from_as_bytes|exact IH].
Qed.

Lemma active_chain_read s chain s' :
  Forall hash_ok chain -> set_active_chain true s chain = Ok s' ->
  get_active_chain s' = Ok chain /\ forall h, get_block s' h = get_block s h.
Proof.
  intros Hc [= <-]. split; [|done]. unfold get_active_chain. cbn [meta_table with_meta]. rewrite lookup_insert_eq.
  destruct (chain_bytes_read chain Hc) as [-> ->]. done.
Qed.

(** A store this build or an earlier one made: a current one has every table. *)
Definition schema_ok (s : Store) : Prop := stored_version s = Ok (Some SCHEMA_VERSION) -> is_Some (bans_table s).

Lemma open_shape s s' :
  schema_ok s -> open_or_create true s = Ok s' ->
  is_Some (bans_table s') /\ blocks_table s' = blocks_table s /\
  meta_table s' = <[SCHEMA_VERSION_KEY := be_bytes 4 SCHEMA_VERSION]> (meta_table s).
Proof.
  intros Hs Ho. unfold open_or_create in Ho. apply bind_Ok in Ho as (v & Hv & Ho). apply bind_Ok in Ho as (s1 & H1 & [= <-]).
  enough (is_Some (bans_table s1) /\ blocks_table s1 = blocks_table s /\ meta_table s1 = meta_table s) as (? & ? & Hm)
    by (cbn; rewrite Hm; done).
  destruct v as [found|]; [|by injection H1 as <-]. destruct (N.ltb_spec SCHEMA_VERSION found) as [|Hle]; [done|].
  destruct (N.ltb_spec found SCHEMA_VERSION) as [Hlt|Hge]; injection H1 as <-.
  - unfold migrate. cbn. destruct (N.ltb_spec found 2) as [|Hg]; [done|]. unfold SCHEMA_VERSION in Hlt. lia.
  - split; [|done]. apply Hs. rewrite Hv. do 2 f_equal. lia.
Qed.

(** Opening a store of any earlier version brings it to the current one, keeps its chain
    and its blocks, and does nothing the second time. *)
Theorem open_upgrades s s' :
  schema_ok s -> open_or_create true s = Ok s' ->
  stored_version s' = Ok (Some SCHEMA_VERSION) /\ schema_ok s' /\ open_or_create true s' = Ok s' /\
  load_bans s' <> Err MissingTable /\
  get_active_chain s' = get_active_chain s /\ forall h, get_block s' h = get_block s h.
Proof.
  intros Hs Ho. destruct (open_shape _ _ Hs Ho) as ([bans Hb] & Eb & Em).
  assert (Hv : stored_version s' = Ok (Some SCHEMA_VERSION)).
  { unfold stored_version. rewrite Em, lookup_insert_eq. done. }
  split_and!; [done|by intros _; rewrite Hb| | | |].
  - unfold open_or_create. rewrite Hv. cbn -[be_bytes insert]. f_equal. destruct s' as [b' m' n']. cbn in *.
    unfold with_meta. cbn. rewrite Em. by rewrite insert_insert_eq.
  - unfold load_bans. by rewrite Hb.
  - unfold get_active_chain. rewrite Em, lookup_insert_ne by done. done.
  - intros h. unfold get_block. by rewrite Eb.
Qed.
End store_lemmas.

(** A store that a newer build made is not touched. *)
Lemma open_refuses_newer commits s found :
  stored_version s = Ok (Some found) -> SCHEMA_VERSION < found ->
  open_or_create commits s = Err (UnsupportedSchemaVersion found SCHEMA_VERSION).
Proof. intros Hv Hl. unfold open_or_create. rewrite Hv. cbn [mbind outcome_bind]. by destruct (N.ltb_spec SCHEMA_VERSION found); [|lia]. Qed.
