(* ===== verification/IpAddr.v ===== *)
(** * IpAddr: addresses and their text

    The parts of Rust's [std::net] the hub uses: addresses, [to_canonical], the
    parser behind [str::parse::<IpAddr>] and the formats of octets and
    segments; with the lemmas that printed addresses parse back. *)

From S2P Require Import Prelude.
From Stdlib Require Import Ascii.

Open Scope N_scope.

(** [IpAddr]; a V6 address is its eight 16-bit segments. *)
Inductive IpAddr : Type :=
| V4 (a b c d : N)
| V6 (segments : list N).

#[global] Instance IpAddr_eq_dec : EqDecision IpAddr.
Proof. solve_decision. Defined.

Definition ip_wf (ip : IpAddr) : Prop :=
  match ip with
  | V4 a b c d => a < 256 /\ b < 256 /\ c < 256 /\ d < 256
  | V6 s => length s = 8%nat /\ Forall (fun x => x < 65536) s
  end.

(** [IpAddr::to_canonical]: an IPv4-mapped address is the IPv4 address. *)
Definition to_canonical (ip : IpAddr) : IpAddr :=
  match ip with
  | V6 [0; 0; 0; 0; 0; 65535; x; y] => V4 (x / 256) (x mod 256) (y / 256) (y mod 256)
  | _ => ip
  end.

(** ** Text *)
Abbreviation text := (list ascii).
Definition of_string : string -> text := String.list_ascii_of_string.
Definition to_string : text -> string := String.string_of_list_ascii.

(** [char::to_digit] *)
Definition to_digit (radix : N) (c : ascii) : option N :=
  let n := N_of_ascii c in
  let d := if (48 <=? n) && (n <=? 57) then Some (n - 48)
           else if (97 <=? n) && (n <=? 122) then Some (n - 87)
           else if (65 <=? n) && (n <=? 90) then Some (n - 55)
           else None in
  match d with Some d => if d <? radix then Some d else None | None => None end.

(** A digit and a number as [{}] and [{:x}] print them; [fuel] digits suffice. *)
Definition digit_char (d : N) : ascii := ascii_of_N (if d <? 10 then 48 + d else 87 + d).
Fixpoint digits (radix : N) (fuel : nat) (n : N) : text :=
  match fuel with
  | O => []
  | S fuel => if n <? radix then [digit_char n] else digits radix fuel (n / radix) ++ [digit_char (n mod radix)]
  end.
Definition dec (n : N) : text := digits 10 3 n.
Definition hex (n : N) : text := digits 16 4 n.

(** ** The parser: each reader gives its value and the rest, or nothing read *)
Definition read_given_char (c : ascii) (l : text) : option text :=
  match l with x :: l' => if Ascii.eqb x c then Some l' else None | [] => None end.

(** The digit loop: more than [max_digits] fails. *)
Fixpoint read_digits (radix : N) (max_digits : nat) (l : text) (acc : N) (count : nat) : option (N * nat * text) :=
  match l with
  | c :: l' =>
      match to_digit radix c with
      | Some d => if (max_digits <? S count)%nat then None
                  else read_digits radix max_digits l' (acc * radix + d) (S count)
      | None => Some (acc, count, l)
      end
  | [] => Some (acc, count, [])
  end.
Definition read_number (radix : N) (max_digits : nat) (allow_zero_prefix : bool) (limit : N) (l : text)
    : option (N * text) :=
  match read_digits radix max_digits l 0 0 with
  | Some (n, count, rest) =>
      if (count =? 0)%nat then None
      else if negb allow_zero_prefix && bool_decide (head l = Some "0"%char) && (1 <? count)%nat then None
      else if n <? limit then Some (n, rest) else None
  | None => None
  end.

Definition read_separator {A} (sep : ascii) (index : nat) (inner : text -> option (A * text)) (l : text)
    : option (A * text) :=
  match index with
  | O => inner l
  | _ => l' ← read_given_char sep l; inner l'
  end.

Definition read_octet : text -> option (N * text) := read_number 10 3 false 256.
Definition read_ipv4_addr (l : text) : option ((N * N * N * N) * text) :=
  '(a, l) ← read_separator "."%char 0 read_octet l;
  '(b, l) ← read_separator "."%char 1 read_octet l;
  '(c, l) ← read_separator "."%char 2 read_octet l;
  '(d, l) ← read_separator "."%char 3 read_octet l;
  Some ((a, b, c, d), l).

(** [read_groups] for the slots from [i] up to [limit]: the groups, whether the
    last two are an IPv4 address, and the rest. *)
Fixpoint read_groups (slots : nat) (i limit : nat) (l : text) : list N * bool * text :=
  match slots with
  | O => ([], false, l)
  | S slots' =>
      match (if (S i <? limit)%nat then read_separator ":"%char i read_ipv4_addr l else None) with
      | Some ((a, b, c, d), l') => ([a * 256 + b; c * 256 + d], true, l')
      | None =>
          match read_separator ":"%char i (read_number 16 4 true 65536) l with
          | Some (g, l') => let '(gs, v4, rest) := read_groups slots' (S i) limit l' in (g :: gs, v4, rest)
          | None => ([], false, l)
          end
      end
  end.
Definition read_ipv6_addr (l : text) : option (list N * text) :=
  let '(head_, head_ipv4, l1) := read_groups 8 0 8 l in
  if (length head_ =? 8)%nat then Some (head_, l1)
  else if head_ipv4 : bool then None
  else
    l2 ← read_given_char ":"%char l1;
    l3 ← read_given_char ":"%char l2;
    let limit := (8 - S (length head_))%nat in
    let '(tail_, _, l4) := read_groups limit 0 limit l3 in
    Some (head_ ++ repeat 0 (8 - length head_ - length tail_) ++ tail_, l4).

(** [str::parse::<IpAddr>] *)
Definition read_ip_addr (l : text) : option (IpAddr * text) :=
  match read_ipv4_addr l with
  | Some ((a, b, c, d), rest) => Some (V4 a b c d, rest)
  | None => '(s, rest) ← read_ipv6_addr l; Some (V6 s, rest)
  end.
Definition parse_ip (l : text) : option IpAddr :=
  match read_ip_addr l with
  | Some (ip, []) => Some ip
  | _ => None
  end.

(** ** [str] operations *)
Definition is_white (c : ascii) : bool := let n := N_of_ascii c in ((9 <=? n) && (n <=? 13)) || (n =? 32).
Fixpoint trim_start (l : text) : text :=
  match l with c :: l' => if is_white c then trim_start l' else l | [] => [] end.
Definition trim (l : text) : text := rev (trim_start (rev (trim_start l))).

(** [split_once]: the parts before and after the first [c]. *)
Fixpoint split_once (c : ascii) (l : text) : option (text * text) :=
  match l with
  | [] => None
  | x :: l' => if Ascii.eqb x c then Some ([], l')
               else '(a, b) ← split_once c l'; Some (x :: a, b)
  end.
(** [split]: the parts between the [c]s. *)
Fixpoint split (c : ascii) (l : text) : list text :=
  match l with
  | [] => [[]]
  | x :: l' => if Ascii.eqb x c then [] :: split c l'
               else match split c l' with p :: ps => (x :: p) :: ps | [] => [[x]] end
  end.
Definition contains (c : ascii) (l : text) : bool := existsb (Ascii.eqb c) l.

(** [str::parse::<SocketAddr>]: an address and a port, of any number of digits. *)
Definition read_port (l : text) : option (N * text) :=
  l ← read_given_char ":"%char l; read_number 10 (length l) true 65536 l.
Definition read_socket_addr_v4 (l : text) : option ((IpAddr * N) * text) :=
  '((a, b, c, d), l) ← read_ipv4_addr l;
  '(port, l) ← read_port l;
  Some ((V4 a b c d, port), l).
(** A scope id is read and does not count. *)
Definition read_scope_id (l : text) : text :=
  match (l ← read_given_char "%"%char l; read_number 10 (length l) true (2 ^ 32) l) with
  | Some (_, l') => l'
  | None => l
  end.
Definition read_socket_addr_v6 (l : text) : option ((IpAddr * N) * text) :=
  l ← read_given_char "["%char l;
  '(groups, l) ← read_ipv6_addr l;
  l ← read_given_char "]"%char (read_scope_id l);
  '(port, l) ← read_port l;
  Some ((V6 groups, port), l).
Definition parse_socket_addr (l : text) : option (IpAddr * N) :=
  match (match read_socket_addr_v4 l with Some r => Some r | None => read_socket_addr_v6 l end) with
  | Some (addr, []) => Some addr
  | _ => None
  end.

Example parse_examples :
  parse_ip (of_string "203.0.113.9") = Some (V4 203 0 113 9) /\
  parse_ip (of_string "203.0.113.09") = None /\ parse_ip (of_string "1.2.3.4:80") = None /\
  parse_ip (of_string "2001:db8::1") = Some (V6 [8193; 3512; 0; 0; 0; 0; 0; 1]) /\
  parse_ip (of_string "::ffff:127.0.0.1") = Some (V6 [0; 0; 0; 0; 0; 65535; 32512; 1]) /\
  parse_ip (of_string "1:2:3:4:5:6:7::") = Some (V6 [1; 2; 3; 4; 5; 6; 7; 0]) /\
  parse_ip (of_string "1::2::3") = None /\ parse_ip (of_string "::") = Some (V6 [0; 0; 0; 0; 0; 0; 0; 0]).
Proof. split_and!; vm_compute; reflexivity. Qed.

(** ** Printed numbers read back *)
Definition is_digit (radix : N) (c : ascii) : bool := match to_digit radix c with Some _ => true | None => false end.

(** The text stops a number of the radix. *)
Definition stops (radix : N) (l : text) : Prop := match l with c :: _ => to_digit radix c = None | [] => True end.

(** A property of the numbers below a bound, by evaluation. *)
Lemma below_all (P : N -> bool) n d : forallb (fun i => P (N.of_nat i)) (seq 0 n) = true -> d < N.of_nat n -> P d = true.
Proof.
  intros Hf Hd. rewrite forallb_forall in Hf. rewrite <-(N2Nat.id d). apply Hf, in_seq. lia.
Qed.

Lemma to_digit_char radix d : radix <= 16 -> d < radix -> to_digit radix (digit_char d) = Some d.
Proof.
  intros Hr Hd. pose (P := fun d => match to_digit 16 (digit_char d) with Some x => x =? d | None => false end).
  assert (H16 : P d = true) by (apply (below_all P 16); [vm_compute; reflexivity|lia]).
  unfold P, to_digit in *. match goal with |- match ?o with _ => _ end = _ => destruct o as [x|] end; [|done].
  destruct (x <? 16); [|done]. apply N.eqb_eq in H16 as ->. by rewrite (proj2 (N.ltb_lt _ _) Hd).
Qed.

Lemma digit_char_zero radix d : radix <= 16 -> d < radix -> digit_char d = "0"%char -> d = 0.
Proof.
  intros Hr Hd E. pose proof (to_digit_char radix d Hr Hd) as H1. rewrite E in H1.
  change (to_digit radix "0"%char) with (if 0 <? radix then Some 0 else None) in H1.
  destruct (0 <? radix); congruence.
Qed.

Section numbers.
Context (radix : N) (Hradix : 2 <= radix <= 16).

(** The digits of [n] are read on top of [acc]. *)
Lemma read_digits_digits fuel : forall n max rest acc count,
  n < radix ^ N.of_nat fuel -> (count + length (digits radix fuel n) <= max)%nat ->
  read_digits radix max (digits radix fuel n ++ rest) acc count =
  read_digits radix max rest (acc * radix ^ N.of_nat (length (digits radix fuel n)) + n)
    (count + length (digits radix fuel n)).
Proof.
  induction fuel as [|fuel IH]; intros n max rest acc count Hn Hmax.
  - cbn in Hn |- *. replace n with 0 by lia. f_equal; lia.
  - cbn [digits] in *. destruct (n <? radix) eqn:E.
    + apply N.ltb_lt in E. cbn [app length read_digits] in *. rewrite to_digit_char by lia.
      destruct (Nat.ltb_spec max (S count)); [lia|]. f_equal; [|lia]. cbn. lia.
    + apply N.ltb_ge in E. rewrite length_app in *. cbn [length] in *. rewrite <-app_assoc.
      assert (Hdiv : n / radix < radix ^ N.of_nat fuel).
      { apply N.Div0.div_lt_upper_bound. rewrite <-N.pow_succ_r', <-Nat2N.inj_succ. exact Hn. }
      rewrite IH by (done || lia). cbn [app read_digits].
      rewrite to_digit_char by (try apply N.mod_lt; lia).
      destruct (Nat.ltb_spec max (S (count + length (digits radix fuel (n / radix))))); [lia|]. f_equal; [|lia].
      rewrite Nat.add_1_r, Nat2N.inj_succ, N.pow_succ_r'. pose proof (N.div_mod n radix). nia.
Qed.

Lemma digits_nonempty fuel n : (0 < fuel)%nat -> (0 < length (digits radix fuel n))%nat.
Proof. destruct fuel; [lia|]. intros _. cbn. case_match; [cbn; lia|]. rewrite length_app. cbn. lia. Qed.

Lemma digits_length fuel n : (length (digits radix fuel n) <= fuel)%nat.
Proof.
  revert n. induction fuel as [|fuel IH]; intros n; [done|]. cbn. case_match; [cbn; lia|].
  rewrite length_app. cbn. specialize (IH (n / radix)). lia.
Qed.

(** No leading zero, but for zero itself. *)
Lemma digits_head fuel n :
  n < radix ^ N.of_nat fuel -> head (digits radix fuel n) = Some "0"%char -> (length (digits radix fuel n) <= 1)%nat.
Proof.
  revert n. induction fuel as [|fuel IH]; intros n Hn Hh; [cbn; lia|]. cbn [digits] in *.
  destruct (n <? radix) eqn:E; [cbn; lia|]. apply N.ltb_ge in E.
  assert (Hdiv : n / radix < radix ^ N.of_nat fuel).
  { apply N.Div0.div_lt_upper_bound. rewrite <-N.pow_succ_r', <-Nat2N.inj_succ. exact Hn. }
  assert (Hpos : 0 < n / radix) by (apply N.div_str_pos; lia).
  destruct fuel as [|fuel]; [cbn in Hdiv; lia|]. destruct (digits radix (S fuel) (n / radix)) as [|c l] eqn:Ed.
  - pose proof (digits_nonempty (S fuel) (n / radix) ltac:(lia)) as Hl. rewrite Ed in Hl. cbn in Hl. lia.
  - cbn in Hh. injection Hh as ->. exfalso. specialize (IH (n / radix) Hdiv). rewrite Ed in IH. specialize (IH eq_refl).
    cbn in IH. destruct l; [|cbn in IH; lia]. cbn [digits] in Ed. destruct (n / radix <? radix) eqn:E2.
    + injection Ed as Ed. apply N.ltb_lt in E2. apply (digit_char_zero radix) in Ed; lia.
    + apply (f_equal length) in Ed. rewrite length_app in Ed. cbn in Ed.
      assert (Hf : (0 < length (digits radix fuel (n / radix / radix)))%nat); [|lia].
      apply digits_nonempty. destruct fuel; [|lia]. apply N.ltb_ge in E2. cbn in Hdiv. lia.
Qed.

Lemma read_number_digits fuel max allow limit n rest :
  n < radix ^ N.of_nat fuel -> (0 < fuel <= max)%nat -> n < limit -> stops radix rest ->
  read_number radix max allow limit (digits radix fuel n ++ rest) = Some (n, rest).
Proof.
  intros Hn Hf Hlim Hs. unfold read_number. pose proof (digits_length fuel n). pose proof (digits_nonempty fuel n ltac:(lia)) as Hpos.
  rewrite read_digits_digits by (done || lia). rewrite Nat.add_0_l, N.mul_0_l, N.add_0_l.
  assert (Hrest : forall acc count, read_digits radix max rest acc count = Some (acc, count, rest)).
  { intros acc count. destruct rest as [|c l]; [done|]. cbn in Hs |- *. by rewrite Hs. }
  rewrite Hrest. destruct (Nat.eqb_spec (length (digits radix fuel n)) 0); [lia|].
  assert (Hlead : negb allow && bool_decide (head (digits radix fuel n ++ rest) = Some "0"%char) &&
                  (1 <? length (digits radix fuel n))%nat = false).
  { destruct (Nat.ltb_spec 1 (length (digits radix fuel n))) as [Hl|Hl]; [|by rewrite andb_false_r].
    rewrite bool_decide_eq_false_2; [by rewrite andb_false_r|]. intros Hh.
    assert (head (digits radix fuel n) = Some "0"%char) as Hh' by (destruct (digits radix fuel n); [cbn in Hl; lia|done]).
    apply digits_head in Hh'; [lia|done]. }
  rewrite Hlead. by rewrite (proj2 (N.ltb_lt _ _) Hlim).
Qed.
End numbers.

(** ** Printed addresses parse back *)
#[local] Arguments dec : simpl never.
#[local] Arguments hex : simpl never.
#[local] Arguments read_octet : simpl never.
#[local] Arguments read_number : simpl never.
#[local] Arguments read_ipv4_addr : simpl never.

Lemma stops_char radix c l : to_digit radix c = None -> stops radix (c :: l).
Proof. done. Qed.

Lemma read_octet_dec n rest : n < 256 -> stops 10 rest -> read_octet (dec n ++ rest) = Some (n, rest).
Proof. intros Hn Hs. apply read_number_digits; [lia| |lia|done|done]. cbn. lia. Qed.
Lemma read_segment_hex n rest : n < 65536 -> stops 16 rest -> read_number 16 4 true 65536 (hex n ++ rest) = Some (n, rest).
Proof. intros Hn Hs. apply read_number_digits; [lia| |lia|done|done]. cbn. lia. Qed.

Lemma parse_dotted a b c d :
  a < 256 -> b < 256 -> c < 256 -> d < 256 ->
  parse_ip (dec a ++ "."%char :: dec b ++ "."%char :: dec c ++ "."%char :: dec d) = Some (V4 a b c d).
Proof.
  intros Ha Hb Hc Hd. unfold parse_ip, read_ip_addr, read_ipv4_addr, read_separator.
  rewrite read_octet_dec by done. cbn. rewrite read_octet_dec by done. cbn. rewrite read_octet_dec by done. cbn.
  pose proof (read_octet_dec d [] Hd I) as E. rewrite app_nil_r in E. by rewrite E.
Qed.

(** Text without a dot holds no IPv4 address. *)
Lemma read_digits_suffix radix max l : forall acc count n k rest,
  read_digits radix max l acc count = Some (n, k, rest) -> exists l0, l = l0 ++ rest.
Proof.
  induction l as [|c l IH]; intros acc count n k rest; cbn; [intros [= _ _ <-]; by exists []|].
  destruct (to_digit radix c); [|intros [= _ _ <-]; by exists []]. case_match; [done|].
  intros Hr. apply IH in Hr as [l0 ->]. by exists (c :: l0).
Qed.
Lemma read_number_suffix radix max allow limit l n rest :
  read_number radix max allow limit l = Some (n, rest) -> exists l0, l = l0 ++ rest.
Proof.
  unfold read_number. destruct (read_digits _ _ _ _ _) as [[[m k] r]|] eqn:E; [|done].
  repeat case_match; try done. intros [= _ <-]. by eapply read_digits_suffix.
Qed.

Definition no_dot (l : text) : Prop := "."%char ∉ l.
Lemma no_dot_ipv4 l : no_dot l -> read_ipv4_addr l = None.
Proof.
  intros Hn. unfold read_ipv4_addr, read_separator. destruct (read_octet l) as [[a r]|] eqn:E; [|done]. cbn.
  apply read_number_suffix in E as [l0 ->]. destruct r as [|c r]; [done|]. cbn.
  destruct (Ascii.eqb_spec c "."%char) as [->|]; [|done]. destruct Hn. apply elem_of_app. right. by left.
Qed.
Lemma digit_not_dot radix d : radix <= 16 -> d < radix -> digit_char d <> "."%char.
Proof.
  intros Hr Hd E. pose proof (to_digit_char radix d Hr Hd) as H1. rewrite E in H1. discriminate H1.
Qed.
Lemma digits_no_dot radix fuel n : 2 <= radix <= 16 -> no_dot (digits radix fuel n).
Proof.
  intros Hr. revert n. induction fuel as [|fuel IH]; intros n; cbn; [apply not_elem_of_nil|].
  destruct (n <? radix) eqn:E.
  - apply N.ltb_lt in E. unfold no_dot. rewrite list_elem_of_singleton. intros Hd. by apply (digit_not_dot radix n); [lia..|].
  - unfold no_dot. rewrite elem_of_app, list_elem_of_singleton. intros [Hd|Hd]; [by apply (IH (n / radix))|].
    apply (digit_not_dot radix (n mod radix)); [lia|apply N.mod_lt; lia|done].
Qed.
Lemma no_dot_app l1 l2 : no_dot l1 -> no_dot l2 -> no_dot (l1 ++ l2).
Proof. unfold no_dot. rewrite elem_of_app. tauto. Qed.
Lemma no_dot_cons c l : c <> "."%char -> no_dot l -> no_dot (c :: l).
Proof. unfold no_dot. rewrite elem_of_cons. intros Hc Hl [E|E]; [by apply Hc|done]. Qed.

Create HintDb no_dot.
#[export] Hint Resolve no_dot_app no_dot_cons digits_no_dot no_dot_ipv4 : no_dot.

Lemma read_groups_step slots i limit g rest :
  g < 65536 -> stops 16 rest -> no_dot rest ->
  read_groups (S slots) i limit (match i with O => [] | _ => [":"%char] end ++ hex g ++ rest) =
  let '(gs, v4, r) := read_groups slots (S i) limit rest in (g :: gs, v4, r).
Proof.
  intros Hg Hs Hn. assert (Hd : no_dot (hex g ++ rest)) by (apply no_dot_app; [apply digits_no_dot; lia|done]).
  cbn [read_groups]. destruct i as [|i]; cbn [app].
  - unfold read_separator. rewrite (no_dot_ipv4 _ Hd), read_segment_hex by done. by destruct (1 <? limit)%nat.
  - unfold read_separator. cbn [read_given_char mbind option_bind]. rewrite Ascii.eqb_refl. cbn.
    rewrite (no_dot_ipv4 _ Hd), read_segment_hex by done.
    match goal with |- match (if ?b then _ else _) with _ => _ end = _ => by destruct b end.
Qed.

(** Four segments and the elision of the rest. *)
Lemma parse_elided a b c d :
  a < 65536 -> b < 65536 -> c < 65536 -> d < 65536 ->
  parse_ip (hex a ++ ":"%char :: hex b ++ ":"%char :: hex c ++ ":"%char :: hex d ++ [":"%char; ":"%char]) =
  Some (V6 [a; b; c; d; 0; 0; 0; 0]).
Proof.
  intros Ha Hb Hc Hd.
  assert (Hh : forall n, no_dot (hex n)) by (intros n; apply digits_no_dot; lia).
  assert (Hc1 : no_dot [":"%char; ":"%char]) by (repeat (apply no_dot_cons; [done|]); apply not_elem_of_nil).
  set (l4 := [":"%char; ":"%char]) in *.
  set (l3 := ":"%char :: hex d ++ l4). set (l2 := ":"%char :: hex c ++ l3). set (l1 := ":"%char :: hex b ++ l2).
  assert (N3 : no_dot l3) by (apply no_dot_cons; [done|]; by apply no_dot_app).
  assert (N2 : no_dot l2) by (apply no_dot_cons; [done|]; by apply no_dot_app).
  assert (N1 : no_dot l1) by (apply no_dot_cons; [done|]; by apply no_dot_app).
  unfold parse_ip, read_ip_addr. rewrite no_dot_ipv4 by (by apply no_dot_app). unfold read_ipv6_addr.
  pose proof (read_groups_step 7 0 8 a l1 Ha eq_refl N1) as E1.
  pose proof (read_groups_step 6 1 8 b l2 Hb eq_refl N2) as E2.
  pose proof (read_groups_step 5 2 8 c l3 Hc eq_refl N3) as E3.
  pose proof (read_groups_step 4 3 8 d l4 Hd eq_refl Hc1) as E4.
  cbn [app] in E1, E2, E3, E4. fold l1 in E2. fold l2 in E3. fold l3 in E4.
  rewrite E1, E2, E3, E4. reflexivity.
Qed.
