(* ===== verification/Node.v ===== *)
(** * Node: persistence, startup, peers and synchronisation

    Models [node/src/util.rs], [node/src/handler.rs] and the startup of
    [node/src/main.rs] around the chain of [Blockchain] and the store of
    [BlockStore]: what is written when a block is accepted, how a node comes
    back from its store, what each message of a peer makes it do and answer, and
    how it downloads a chain. Definitions only.

    [BLOCKCHAIN] is a [Blockchain] that is passed along. Each write to the store
    is told whether it commits. A message that cannot be sent panics its
    connection's task ([unwrap]); sending is assumed to work. *)

From S2P Require Import Prelude Types Crypto Params Transaction Block Utxo Blockchain Wire BlockStore Peers.

Record Node := mkNode { nd_chain : Blockchain; nd_store : Store }.

Section node.
Context `{CE : ChainEnv} {BC : BlockCodec}.

(** ** [util::persist_chain_state]: three transactions, in this order *)
Record PersistEnv := mkPersist { put_commits : bool; chain_commits : bool; delete_commits : bool }.
Definition persist_chain_state (env : PersistEnv) (n : Node) (b : Block) : Node * outcome StoreError unit :=
  match put_block (put_commits env) (nd_store n) b with
  | Ok s1 =>
      let chain := bc_active (nd_chain n) in
      let '(pruned, bc) := take_pruned_hashes (nd_chain n) in
      match set_active_chain (chain_commits env) s1 chain with
      | Ok s2 =>
          match delete_blocks (delete_commits env) s2 pruned with
          | Ok s3 => (mkNode bc s3, Ok tt)
          | Err e => (mkNode bc s2, Err e)
          | Panic => (mkNode bc s2, Panic)
          end
      | Err e => (mkNode bc s1, Err e)
      | Panic => (mkNode bc s1, Panic)
      end
  | Err e => (n, Err e)
  | Panic => (n, Panic)
  end.

(** ** Startup *)
Inductive BootError : Type :=
| GenesisMismatch | MissingBlock (i : nat) | BootStore (e : StoreError) | Rejected (e : BtcError).
Definition of_store {A} (o : outcome StoreError A) : outcome BootError A :=
  match o with Ok a => Ok a | Err e => Err (BootStore e) | Panic => Panic end.

(** One block of [util::load_from_store]. *)
Definition load_block (now : DateTime) (s : Store) (acc : nat * Blockchain) (h : Hash)
    : outcome BootError (nat * Blockchain) :=
  let '(i, bc) := acc in
  found ← of_store (get_block s h);
  b ← ok_or found (MissingBlock i);
  match add_block now bc b with
  | (bc', Ok _) => Ok (S i, bc')
  | (_, Err e) => Err (Rejected e)
  | (_, Panic) => Panic
  end.
Definition load_from_store (commits : bool) (now : DateTime) (s : Store) (chain : list Hash)
    : outcome BootError Node :=
  ensure negb (bool_decide (chain <> [])) || bool_decide (head chain = Some (block_hash genesis_block))
    otherwise GenesisMismatch;
  '(_, bc) ← ofold (load_block now s) (0%nat, new_blockchain) chain;
  let '(pruned, bc) := take_pruned_hashes bc in
  s ← of_store (delete_blocks commits s pruned);
  Ok (mkNode bc s).

(** The local part of [main]: open the store, then load it or begin a new chain. *)
Definition boot (open_commits load_commits : bool) (env : PersistEnv) (now : DateTime) (file : Store)
    : outcome BootError Node :=
  s ← of_store (open_or_create open_commits file);
  existing_chain ← of_store (get_active_chain s);
  match existing_chain with
  | _ :: _ => load_from_store load_commits now s existing_chain
  | [] =>
      match add_block now new_blockchain genesis_block with
      | (bc, Ok _) =>
          match persist_chain_state env (mkNode bc s) genesis_block with
          | (n, Ok _) => Ok n
          | (_, Err e) => Err (BootStore e)
          | (_, Panic) => Panic
          end
      | _ => Panic
      end
  end.

(** ** Serving blocks: the loop of [FetchBlocks] *)
Definition block_size (b : Block) : N := N.of_nat (length (cbor_block b)).
Fixpoint fill_batch (blocks : list Block) (total_bytes : N) (bl : list Block) : list Block :=
  match bl with
  | [] => blocks
  | b :: bl =>
      let size := block_size b in
      if (MAX_FETCH_BATCH_BYTES <? total_bytes + size) && negb (bool_decide (blocks = [])) then blocks
      else fill_batch (blocks ++ [b]) (total_bytes + size) bl
  end.
Definition fetch_blocks (start count : N) (chain : list Block) : list Block :=
  let max_count := N.min count BLOCKS_PER_FETCH_BATCH in
  fill_batch [] 0 (take (N.to_nat max_count) (drop (N.to_nat start) chain)).

(** ** One message: the body of the loop of [handle_connection] *)
Inductive Reaction : Type :=
| Answer (m : Message)
| Continue (broadcast : option Message)
| Close (strike : option bool).

(** [NewBlock] and [SubmitTemplate]: a persistence error is only logged. The code gives up
    the chain's lock between [add_block] and [persist_chain_state]; here the two are one
    step, so another connection's block is added before or after both. *)
Definition accept_block (env : PersistEnv) (now : DateTime) (n : Node) (b : Block) : Node * outcome BtcError unit :=
  let '(bc, r) := add_block now (nd_chain n) b in
  let n := mkNode bc (nd_store n) in
  match r with
  | Ok _ => ((persist_chain_state env n b).1, Ok tt)
  | Err e => (n, Err e)
  | Panic => (n, Panic)
  end.

(** [iter] is the order in which the UTXO map is visited. *)
Definition handle_message (env : PersistEnv) (now : DateTime) (fresh_id : Uuid)
    (iter : Utxos -> list (Hash * (bool * TransactionOutput))) (nodes : list string)
    (n : Node) (m : Message) : Node * outcome BtcError Reaction :=
  let bc := nd_chain n in
  match m with
  | UTXOs _ | Template _ | ChainTip _ _ | TemplateValidity _ | NodeList _ | Blocks _ | Hello _ _ _
  | HelloAck _ _ _ _ => (n, Ok (Close (Some true)))
  | FetchBlocks start count =>
      (n, bl ← blocks_of (bc_blocks bc) (bc_active bc); Ok (Answer (Blocks (fetch_blocks start count bl))))
  | DiscoverNodes => (n, Ok (Answer (NodeList nodes)))
  | AskChainTip => (n, w ← chain_work bc; Ok (Answer (ChainTip (block_height bc mod 2 ^ 32) w)))
  | FetchUTXOs key =>
      (n, Ok (Answer (UTXOs ((fun e => (e.2.2, e.2.1)) <$>
                base.filter (fun e : Hash * (bool * TransactionOutput) => pubkey e.2.2 = key) (iter (bc_utxos bc))))))
  | NewBlock b =>
      match accept_block env now n b with
      | (n', Ok _) | (n', Err OrphanBlock) => (n', Ok (Continue None))
      | (n', Err _) => (n', Ok (Close (Some false)))
      | (n', Panic) => (n', Panic)
      end
  | NewTransaction tx =>
      match add_to_mempool now bc tx with
      | (bc', Panic) => (mkNode bc' (nd_store n), Panic)
      | (bc', _) => (mkNode bc' (nd_store n), Ok (Continue None))
      end
  | ValidateTemplate t =>
      (n, bl ← blocks_of (bc_blocks bc) (bc_active bc);
          let tip := from_option block_hash zero_hash (last bl) in
          Ok (Answer (TemplateValidity ((prev_block_hash (header t) =? tip) && (target (header t) =? bc_target bc)))))
  | SubmitTemplate b =>
      match accept_block env now n b with
      | (n', Ok _) => (n', Ok (Continue (Some (NewBlock b))))
      | (n', Err OrphanBlock) => (n', Ok (Continue None))
      | (n', Err _) => (n', Ok (Close (Some false)))
      | (n', Panic) => (n', Panic)
      end
  | SubmitTransaction tx =>
      match add_to_mempool now bc tx with
      | (bc', Ok _) => (mkNode bc' (nd_store n), Ok (Continue (Some (NewTransaction tx))))
      | (bc', Err _) => (mkNode bc' (nd_store n), Ok (Close (Some false)))
      | (bc', Panic) => (mkNode bc' (nd_store n), Panic)
      end
  | FetchTemplate pk =>
      (n, match create_block_template now fresh_id bc pk with
          | Ok b => Ok (Answer (Template b))
          | Err _ => Ok (Close None)
          | Panic => Panic
          end)
  end.

(** ** Synchronising *)

(** [util::find_best_chain_node]: a reply that is not received ([Err]) ends the search
    with an error, a question that cannot be sent ([Panic]) is unwrapped. *)
Fixpoint best_tip (best : string * N * N) (replies : list (string * outcome unit Message)) : outcome unit (string * N) :=
  let '(best_name, best_height, best_work) := best in
  match replies with
  | [] => Ok (best_name, best_height)
  | (_, Err e) :: _ => Err e
  | (_, Panic) :: _ => Panic
  | (node, Ok (ChainTip height work)) :: rest =>
      best_tip (if best_work <? work then (node, height, work) else best) rest
  | (_, Ok _) :: rest => best_tip best rest
  end.
Definition find_best_chain_node (replies : list (string * outcome unit Message)) : outcome unit (string * N) :=
  best_tip (EmptyString, 0, 0) replies.

(** The blocks of one [Blocks] reply in [util::download_blockchain]. *)
Inductive SyncError : Type := SyncNetwork | Disconnected | SyncInvalid (e : BtcError) | SyncStore (e : StoreError).
Fixpoint apply_batch (env : PersistEnv) (now : DateTime) (n : Node) (bl : list Block)
    : Node * outcome SyncError unit :=
  match bl with
  | [] => (n, Ok tt)
  | b :: bl =>
      let '(bc, r) := add_block now (nd_chain n) b in
      let n := mkNode bc (nd_store n) in
      match r with
      | Ok _ =>
          match persist_chain_state env n b with
          | (n, Ok _) => apply_batch env now n bl
          | (n, Err e) => (n, Err (SyncStore e))
          | (n, Panic) => (n, Panic)
          end
      | Err OrphanBlock => (n, Err Disconnected)
      | Err e => (n, Err (SyncInvalid e))
      | Panic => (n, Panic)
      end
  end.

(** [util::download_blockchain]: [reply i start count] is what the peer answers to
    the [i]-th request, [None] when the exchange fails. *)
Fixpoint download_blockchain (fuel : nat) (env : PersistEnv) (now : DateTime)
    (reply : nat -> N -> N -> option Message) (i : nat) (n : Node) (target_height : N)
    : Node * outcome SyncError unit :=
  match fuel with
  | O => (n, Panic)
  | S fuel =>
      let start := block_height (nd_chain n) in
      if target_height <=? start mod 2 ^ 32 then (n, Ok tt)
      else
        let count := N.min (target_height - start mod 2 ^ 32) BLOCKS_PER_FETCH_BATCH in
        match reply i start count with
        | None => (n, Err SyncNetwork)
        | Some (Blocks []) => (n, Ok tt)
        | Some (Blocks bl) =>
            match apply_batch env now n bl with
            | (n, Ok _) => download_blockchain fuel env now reply (S i) n target_height
            | (n, Err e) => (n, Err e)
            | (n, Panic) => (n, Panic)
            end
        | Some _ => (n, Ok tt)
        end
  end.

(** ** A connection: handshake, then message after message *)
Record Visit := mkVisit { vs_out : list Message; vs_broadcast : list Message; vs_strike : option bool }.
Definition say (m : option Message) (v : Visit) : Visit :=
  mkVisit (match m with Some m => m :: vs_out v | None => vs_out v end) (vs_broadcast v) (vs_strike v).
Definition pass_on (m : option Message) (v : Visit) : Visit :=
  mkVisit (vs_out v) (match m with Some m => m :: vs_broadcast v | None => vs_broadcast v end) (vs_strike v).

Context {C : MessageCodec}.

(** The loop; [env i] is the environment of the [i]-th message. *)
Record MessageEnv := mkMessageEnv {
  me_persist : PersistEnv; me_now : DateTime; me_id : Uuid;
  me_iter : Utxos -> list (Hash * (bool * TransactionOutput)); me_nodes : list string
}.
Fixpoint serve_loop (fuel : nat) (env : nat -> MessageEnv) (i : nat) (n : Node) (stream : list N)
    : outcome BtcError (Node * Visit) :=
  match fuel with
  | O => Panic
  | S fuel =>
      match recieve stream with
      | Err e => Ok (n, mkVisit [] [] (if is_benign_disconnect e then None else Some true))
      | Panic => Panic
      | Ok (m, rest) =>
          match handle_message (me_persist (env i)) (me_now (env i)) (me_id (env i)) (me_iter (env i))
                  (me_nodes (env i)) n m with
          | (n, Ok (Close s)) => Ok (n, mkVisit [] [] s)
          | (n, Ok (Answer a)) => '(n, v) ← serve_loop fuel env (S i) n rest; Ok (n, say (Some a) v)
          | (n, Ok (Continue b)) => '(n, v) ← serve_loop fuel env (S i) n rest; Ok (n, pass_on b v)
          | (_, Err e) => Err e
          | (_, Panic) => Panic
          end
      end
  end.

(** [handler::handle_connection]: the acceptor's handshake, its clock sample, the
    loop, and the strike that ends it. *)
Definition handle_connection (fuel : nat) (env : nat -> MessageEnv) (received_at now : DateTime) (ip : option IpAddr)
    (samples : gmap IpAddr Z) (n : Node) (stream : list N) : outcome BtcError (Node * gmap IpAddr Z * Visit) :=
  match perform_handshake_acceptor received_at now stream with
  | (reply, Ok (offset, rest)) =>
      let '(samples, bc) :=
        match ip with Some ip => record_sample samples (nd_chain n) ip offset | None => (samples, nd_chain n) end in
      '(n, v) ← serve_loop fuel env 0 (mkNode bc (nd_store n)) rest;
      Ok (n, samples, say reply v)
  | (reply, _) => Ok (n, samples, say reply (mkVisit [] [] (Some true)))
  end.
End node.
