(* ===== verification/NodeTheorems.v ===== *)
(** * NodeInv: what one block changes of the stored blocks

    The block map, the prune list and the clock offset across one accepted
    block; and the converse of the checks: the next block of a valid chain is
    accepted. *)

From S2P Require Import Prelude Types Crypto Params Transaction Block Utxo Blockchain Mempool ChainSpec ChainTree ChainInv ChainStep.

(** The block is in the map, less what was pruned. *)
Definition block_frame `{Primitives} (bc : Blockchain) (b : Block) (bc' : Blockchain) : Prop :=
  bc_time_offset bc' = bc_time_offset bc /\
  exists P, bc_pending_prunes bc' = bc_pending_prunes bc ++ P /\
    bc_blocks bc' = foldl (fun m h => delete h m) (<[block_hash b := b]> (bc_blocks bc)) P /\
    Forall (fun h => h ∈ dom (<[block_hash b := b]> (bc_blocks bc))) P.

Section frames.
Context `{CE : ChainEnv} {CL : ChainEnvLaws CE}.
Implicit Types (bc : Blockchain) (b : Block).

Lemma prunable_keys bc d keys : forall acc P,
  ofold (prunable_step bc d) acc keys = Ok P -> forall h, h ∈ P -> h ∈ acc \/ h ∈ keys.
Proof.
  induction keys as [|k keys IH]; intros acc P Ho h Hh; cbn [ofold] in Ho; [injection Ho as <-; by left|].
  apply bind_Ok in Ho as (acc1 & Hs & Ho). destruct (IH _ _ Ho h Hh) as [Hin|Hin]; [|right; by right].
  unfold prunable_step in Hs. repeat (case_match; inv_ok; simplify_eq); try (by left).
  all: try (apply elem_of_app in Hin as [Hin|Hin%list_elem_of_singleton]; [by left|subst; right; by left]).
Qed.

Lemma try_adjust_frame bc bc' : try_adjust_target bc = Ok bc' -> exists t, bc' = with_target bc t.
Proof.
  unfold try_adjust_target. assert (Hb : exists t, bc = with_target bc t) by (exists (bc_target bc); by destruct bc).
  case_match; [by intros [= <-]|]. case_match; [by intros [= <-]|]. intros Ht. inv_ok. eauto.
Qed.

Lemma commit_frame now bc b hash bc' : commit_extending_tip now bc b = Ok (hash, bc') -> block_frame bc b bc'.
Proof.
  unfold commit_extending_tip. cbv zeta. intros Hc. apply bind_Ok in Hc as (bc3 & Ha & Hc). apply bind_Ok in Hc as (bc4 & Hp & [= <- <-]).
  apply try_adjust_frame in Ha as [t ->]. destruct (block_height _ mod _ =? 0).
  - unfold prune_side_blocks in Hp. apply bind_Ok in Hp as (P & HP & [= <-]). split; [done|]. exists P. cbn.
    split; [done|]. split; [done|]. apply Forall_forall. intros h Hh.
    unfold prunable_side_blocks in HP. destruct (prunable_keys _ _ _ _ _ HP h Hh) as [Hin|Hin]; [by apply not_elem_of_nil in Hin|].
    apply list_elem_of_fmap in Hin as ([h' x] & -> & Hin). rewrite hashmap_iter_perm in Hin. apply elem_of_map_to_list in Hin.
    cbn in Hin |- *. by apply elem_of_dom_2 in Hin.
  - injection Hp as <-. split; [done|]. exists []. cbn. by rewrite app_nil_r.
Qed.

Lemma reorg_frame now bc k chain bc' :
  reorg_to now bc k chain = Ok bc' ->
  bc_blocks bc' = bc_blocks bc /\ bc_pending_prunes bc' = bc_pending_prunes bc /\ bc_time_offset bc' = bc_time_offset bc.
Proof.
  unfold reorg_to. intros Hr. apply bind_Ok in Hr as (db & _ & Hr). apply bind_Ok in Hr as (t & _ & Hr).
  apply bind_Ok in Hr as (bc2 & Hs & Hr). unfold sync_mempool_with_active_chain in Hs.
  apply bind_Ok in Hs as (bl & _ & Hs). apply bind_Ok in Hs as (bc1 & Hu & [= <-]).
  unfold rebuild_utxos in Hu. apply bind_Ok in Hu as (u & _ & [= <-]).
  match type of Hr with ofold _ (foldl _ (evict_stale_mempool_entries ?n ?c ?x) _) _ = _ =>
    pose proof (evict_stale_mem_only n c x) as Hm1; pose proof (evict_stale_ok n c x) as Hok1;
    set (bc2 := evict_stale_mempool_entries n c x) in * end.
  destruct (mark_all_mem_only bc2 (bc_mempool bc2).*2) as [Hm2 Hp2].
  set (bc3 := foldl mark_transaction_utxos bc2 _) in *.
  assert (Hok2 : mempool_ok bc3) by (eapply mempool_ok_incl; [apply Hm2| |exact Hok1]; by rewrite Hp2).
  match type of Hr with ofold _ _ ?l = _ => destruct (readmit_all now bc3 l Hok2) as (bc4 & Hr' & Hm3 & _) end.
  rewrite Hr' in Hr. injection Hr as <-. destruct Hm1, Hm2, Hm3. cbn in *. split_and!; congruence.
Qed.

Lemma store_frame now bc b k chain hash bc' : store_off_tip now bc b k chain = Ok (hash, bc') -> block_frame bc b bc'.
Proof.
  unfold store_off_tip. cbv zeta. intros Hs. apply bind_Ok in Hs as (w1 & _ & Hs). apply bind_Ok in Hs as (w2 & _ & Hs).
  apply bind_Ok in Hs as (bc2 & Hr & [= <- <-]). destruct (w2 <? w1).
  - apply reorg_frame in Hr as (Hb & Hp & Ho). split; [done|]. exists []. rewrite app_nil_r. by split_and!.
  - injection Hr as <-. split; [done|]. exists []. rewrite app_nil_r. by split_and!.
Qed.

Lemma add_one_frame now bc b bc0 hash bc1 : add_one now bc b = (bc0, Ok (hash, bc1)) -> block_frame bc b bc1.
Proof.
  unfold add_one. case_decide.
  - intros [= <- Hc]. unfold add_block_extending_tip in Hc. apply bind_Ok in Hc as ([] & _ & Hc). by eapply commit_frame.
  - unfold add_block_off_tip. case_decide; [done|]. case_match; [|done]. intros [= <- Hc].
    apply bind_Ok in Hc as ([k c] & _ & Hc). by eapply store_frame.
Qed.
End frames.

(** ** The next block of a valid chain is accepted *)
Section next.
Context `{CE : ChainEnv} {CL : ChainEnvLaws CE}.
Context (U : Block -> Prop) (HU : collision_free U).
Implicit Types (bc : Blockchain) (b : Block) (a : list Block).

(** The clock allows the block. *)
Definition in_time (now : DateTime) bc b : Prop :=
  (timestamp (header b) <= now + bc_time_offset bc + seconds MAX_FUTURE_BLOCK_DRIFT_SECONDS)%Z.

Lemma genesis_root : Merkle.calculate (E := BtcError) (transactions genesis_block) = Ok (merkle_root (header genesis_block)).
Proof.
  destruct genesis_made as (seed & now & Hg). unfold make_genesis in Hg. apply bind_Ok in Hg as (root & Hr & Hg).
  destruct (mine _ _ _) as [ok h] eqn:Em. destruct ok; [|done]. injection Hg as Hg. rewrite <-Hg. cbn [header transactions].
  apply mine_keeps in Em as (_ & -> & _). cbn. exact Hr.
Qed.

Lemma genesis_transactions : valid_transactions genesis_block 0 ∅ (default (mkTransaction [] []) (head (transactions genesis_block))) [].
Proof.
  destruct genesis_facts as (_ & _ & _ & o & Ht & Hv). rewrite Ht. cbn. split; try done; [constructor|].
  unfold output_total. cbn. lia.
Qed.

Lemma check_genesis now bc :
  bc_active bc = [] -> bc_target bc = MIN_TARGET -> bc_utxos bc = ∅ -> in_time now bc genesis_block ->
  check_extending_tip now bc genesis_block = Ok tt.
Proof.
  intros Ea Et Eu Hin. destruct genesis_facts as (Hp & Htar & Hpow & o & Htx & Hv). unfold check_extending_tip.
  rewrite N.eqb_refl, andb_false_r, Et, Htar, N.eqb_refl, Hpow, genesis_root. cbn [negb guard_ok mbind outcome_bind].
  unfold check_block_size. rewrite Htx. cbn [tail fmap list_fmap sumN foldr]. change (sumN [] <=? BLOCK_BYTE_CAP) with true.
  unfold check_timestamp. rewrite (proj2 (Z.leb_le _ _) Hin). cbn [guard_ok mbind outcome_bind].
  rewrite N.eqb_refl, Ea. cbn [guard_ok mbind outcome_bind last]. rewrite Eu. unfold block_height. rewrite Ea.
  eapply verify_transactions_complete; [apply genesis_transactions|]. vm_compute. discriminate.
Qed.

Lemma check_next now bc a b :
  follows bc a -> valid_chain a -> valid_chain (a ++ [b]) -> in_time now bc b ->
  prev_block_hash (header b) = tip_hash bc /\ check_extending_tip now bc b = Ok tt.
Proof.
  intros Hf Hva Hv Hin. apply valid_chain_snoc_inv in Hv as [[-> _]|[_ [p He]]]; [by apply valid_chain_nonempty in Hva|].
  assert (Htip : tip_hash bc = block_hash p) by (by eapply follows_tip; [|apply He]). split; [by rewrite Htip, (ext_parent _ _ _ He)|].
  assert (Hact : bc_active bc <> []).
  { rewrite (fo_active _ _ Hf). destruct a; [|done]. by apply valid_chain_nonempty in Hva. }
  unfold check_extending_tip. rewrite bool_decide_eq_false_2 by done. cbn [negb andb guard_ok mbind outcome_bind].
  pose proof (ext_target _ _ _ He) as Htar. rewrite (fo_target _ _ Hf) in Htar. injection Htar as Htar. rewrite Htar, N.eqb_refl. cbn [guard_ok mbind outcome_bind].
  rewrite (ext_pow _ _ _ He), (ext_size _ _ _ He). cbn [guard_ok mbind outcome_bind]. unfold check_timestamp.
  rewrite (proj2 (Z.leb_le _ _) Hin). cbn [guard_ok mbind outcome_bind].
  rewrite (ext_root _ _ _ He). cbn [guard_ok mbind outcome_bind]. rewrite N.eqb_refl. cbn [guard_ok mbind outcome_bind].
  rewrite (fo_active _ _ Hf), fmap_last, (ext_tip _ _ _ He). cbn [fmap option_fmap option_map].
  pose proof (fo_stored _ _ Hf) as Hs. unfold stored in Hs. rewrite Forall_forall in Hs.
  rewrite (Hs p) by (apply last_Some_elem_of, (ext_tip _ _ _ He)). cbn [expect mbind outcome_bind].
  rewrite (proj2 (Z.ltb_lt _ _) (ext_time _ _ _ He)). cbn [guard_ok mbind outcome_bind].
  destruct (ext_txs _ _ _ He) as (cb & rest & Hvt).
  eapply verify_transactions_complete.
  - eapply valid_transactions_same; [symmetry; apply Hf|]. unfold block_height. by rewrite (fo_active _ _ Hf), length_fmap.
  - unfold block_height. rewrite (fo_utxos _ _ Hf), (fo_active _ _ Hf), length_fmap.
    pose proof (valid_chain_supply a Hva) as Hle. pose proof (issued_le_max (S (length a))) as Hm. cbn [issued] in Hm.
    assert (MAX_SUPPLY <= U64_MAX) by (vm_compute; discriminate). lia.
Qed.

(** No buffered orphan waits for the block. *)
Definition unawaited bc b : Prop := forall h o, bc_orphans bc !! h = Some o -> prev_block_hash (header o) <> block_hash b.

Lemma add_fuel_one fuel now bc b :
  chain_inv U bc -> U b -> unawaited bc b ->
  add_block_fuel (S fuel) now bc b =
  match add_one now bc b with
  | (bc0, Err e) => (bc0, Err e)
  | (bc0, Panic) => (bc0, Panic)
  | (bc0, Ok (hash, bc1)) => (bc1, Ok tt)
  end.
Proof.
  intros Hci Hu Hun. rewrite add_block_fuel_step. destruct (add_one now bc b) as [bc0 r] eqn:E1.
  destruct (add_one_spec U HU bc b now bc0 r Hci Hu E1) as (Hnp & Hci0 & Hst & Hok).
  destruct r as [[hash bc1]|e|]; [|done..]. destruct (Hok hash bc1 eq_refl) as (Hci1 & -> & Ho1 & _).
  replace (base.filter (fun o => prev_block_hash (header o) = block_hash b) (hashmap_iter (bc_orphans bc1)).*2) with (@nil Block); [done|].
  symmetry. apply elem_of_nil_inv. intros o Ho. apply list_elem_of_filter in Ho as [Hp Ho].
  apply list_elem_of_fmap in Ho as ([h o'] & -> & Ho). rewrite hashmap_iter_perm, Ho1 in Ho. apply elem_of_map_to_list in Ho.
  by apply (Hun h o').
Qed.

Lemma add_block_one now bc b :
  chain_inv U bc -> U b -> unawaited bc b ->
  add_block now bc b =
  match add_one now bc b with
  | (bc0, Err e) => (bc0, Err e)
  | (bc0, Panic) => (bc0, Panic)
  | (bc0, Ok (hash, bc1)) => (bc1, Ok tt)
  end.
Proof. apply add_fuel_one. Qed.

(** The next block of a valid chain extends the tip and fails no check but
    the one against the clock. *)
Lemma check_follower now bc a b :
  follows bc a -> valid_chain (a ++ [b]) -> in_time now bc b ->
  prev_block_hash (header b) = tip_hash bc /\ check_extending_tip now bc b = Ok tt.
Proof.
  intros Hf Hv Hin. destruct (fo_chain _ _ Hf) as [[-> Hbs]|Hva]; [|by eapply check_next].
  apply valid_chain_snoc_inv in Hv as [[_ ->]|[Hv _]]; [|by apply valid_chain_nonempty in Hv].
  pose proof (fo_active _ _ Hf) as Ha. cbn in Ha.
  split; [destruct genesis_facts as (-> & _); unfold tip_hash; by rewrite Ha|].
  apply check_genesis; [done| | |done].
  - pose proof (fo_target _ _ Hf) as Ht. by injection Ht.
  - pose proof (fo_utxos _ _ Hf) as Hs. unfold same_outputs in Hs. cbn in Hs. rewrite fmap_empty in Hs.
    by apply fmap_empty_inv in Hs.
Qed.

(** Ahead of the clock it is refused. *)
Lemma check_late now bc a b :
  follows bc a -> valid_chain (a ++ [b]) -> ~ in_time now bc b ->
  prev_block_hash (header b) = tip_hash bc /\ check_extending_tip now bc b = Err InvalidBlock.
Proof.
  intros Hf Hv Hin.
  set (later := (timestamp (header b) - bc_time_offset bc - seconds MAX_FUTURE_BLOCK_DRIFT_SECONDS)%Z).
  destruct (check_follower later bc a b Hf Hv) as [Hp Hc]; [unfold in_time, later; lia|]. split; [done|].
  unfold check_extending_tip in Hc |- *. apply bind_Ok in Hc as ([] & -> & Hc). apply bind_Ok in Hc as ([] & -> & Hc).
  apply bind_Ok in Hc as ([] & -> & Hc). apply bind_Ok in Hc as ([] & -> & _). cbn [mbind outcome_bind].
  unfold check_timestamp. unfold in_time in Hin. by rewrite (proj2 (Z.leb_gt _ _)) by lia.
Qed.

Lemma add_late now bc a b :
  follows bc a -> valid_chain (a ++ [b]) -> ~ in_time now bc b -> add_block now bc b = (bc, Err InvalidBlock).
Proof.
  intros Hf Hv Hin. destruct (check_late now bc a b Hf Hv Hin) as [Hp Hc].
  unfold add_block. rewrite add_block_fuel_step. unfold add_one. rewrite decide_True by done.
  unfold add_block_extending_tip. by rewrite Hc.
Qed.

(** The step before the orphans. *)
Lemma add_one_next now bc a b :
  chain_inv U bc -> follows bc a -> U b -> valid_chain (a ++ [b]) -> in_time now bc b ->
  exists bc', add_one now bc b = (bc, Ok (block_hash b, bc')) /\ chain_inv U bc' /\ follows bc' (a ++ [b]) /\
    bc_orphans bc' = bc_orphans bc /\ block_frame bc b bc'.
Proof.
  intros Hci Hf Hu Hv Hin.
  destruct (check_follower now bc a b Hf Hv Hin) as [Hp Hc]. destruct (commit_extending_ok U HU bc a b now Hci Hf Hu Hv) as (bc' & Hcm & Hci' & Hf' & Ho).
  assert (E : add_one now bc b = (bc, Ok (block_hash b, bc'))).
  { unfold add_one. rewrite decide_True by done. unfold add_block_extending_tip. rewrite Hc. cbn [mbind outcome_bind]. by rewrite Hcm. }
  exists bc'. split_and!; try done. by eapply add_one_frame.
Qed.

(** The chain grows by the next block of a valid chain. *)
Lemma add_next now bc a b :
  chain_inv U bc -> follows bc a -> U b -> valid_chain (a ++ [b]) -> in_time now bc b -> unawaited bc b ->
  exists bc', add_block now bc b = (bc', Ok tt) /\ chain_inv U bc' /\ follows bc' (a ++ [b]) /\
    bc_orphans bc' = bc_orphans bc /\ block_frame bc b bc'.
Proof.
  intros Hci Hf Hu Hv Hin Hun. destruct (add_one_next now bc a b Hci Hf Hu Hv Hin) as (bc' & E & H1).
  exists bc'. by rewrite add_block_one, E.
Qed.

(** One buffered orphan, and no other, waits for the block; none waits for it. *)
Record awaited_by bc b o : Prop := {
  aw_buffered : bc_orphans bc !! block_hash o = Some o;
  aw_parent : prev_block_hash (header o) = block_hash b;
  aw_alone : forall h x, bc_orphans bc !! h = Some x -> prev_block_hash (header x) = block_hash b -> x = o;
  aw_last : unawaited bc o
}.

Lemma awaited_ready bc b o :
  orphans_ok U (bc_orphans bc) -> awaited_by bc b o ->
  base.filter (fun o => prev_block_hash (header o) = block_hash b) (hashmap_iter (bc_orphans bc)).*2 = [o].
Proof.
  intros Hok [Hb Hp Ha _].
  set (m := base.filter (fun p : Hash * Block => prev_block_hash (header p.2) = block_hash b) (bc_orphans bc)).
  assert (Hm : m = {[block_hash o := o]}).
  { apply map_eq. intros h. apply option_eq. intros x. unfold m. rewrite map_lookup_filter_Some, lookup_singleton_Some.
    split; [|by intros [<- <-]]. intros [Hx Hpx]. cbn in Hpx. pose proof (Ha h x Hx Hpx) as ->. by destruct (Hok h o Hx). }
  apply Permutation_singleton_r. rewrite (hashmap_iter_perm (bc_orphans bc)).
  transitivity ((map_to_list m).*2); [|by rewrite Hm, map_to_list_singleton].
  unfold m. rewrite map_filter_alt. set (l := map_to_list (bc_orphans bc)).
  rewrite map_to_list_to_map.
  - induction l as [|[h x] l IH]; [done|]. rewrite fmap_cons, !filter_cons. cbn [snd].
    destruct (decide (prev_block_hash (header x) = block_hash b)); cbn; [by f_equiv|done].
  - apply (sublist_NoDup _ (l.*1)); [apply NoDup_fst_map_to_list|].
    apply fmap_sublist, sublist_filter.
Qed.

(** The block brings the orphan along. *)
Lemma add_next_awaited now bc a b o :
  chain_inv U bc -> follows bc a -> U b -> valid_chain (a ++ [b; o]) ->
  in_time now bc b -> in_time now bc o -> awaited_by bc b o ->
  exists bc', add_block now bc b = (bc', Ok tt) /\ follows bc' (a ++ [b; o]).
Proof.
  intros Hci Hf Hu Hv Hin Hino Haw. replace (a ++ [b; o]) with ((a ++ [b]) ++ [o]) in * by (by rewrite <-app_assoc).
  destruct (add_one_next now bc a b Hci Hf Hu) as (bc1 & E1 & Hci1 & Hf1 & Ho1 & Hfr1); [|done|].
  { eapply valid_chain_prefix; [|exact Hv]. by destruct a. }
  unfold add_block. rewrite add_block_fuel_step, E1, Ho1.
  rewrite (awaited_ready bc b o) by (done || apply Hci). cbn [ofold].
  set (bc2 := with_orphans bc1 (delete (block_hash o) (bc_orphans bc1))).
  assert (Hf2 : follows bc2 (a ++ [b])) by (by destruct Hf1).
  assert (Hci2 : chain_inv U bc2) by (apply with_orphans_inv; [done|apply delete_subseteq]).
  assert (Huo : U o) by (by destruct (ci_orphans _ _ Hci _ _ (aw_buffered _ _ _ Haw))).
  destruct (add_one_next now bc2 (a ++ [b]) o Hci2 Hf2 Huo Hv) as (bc3 & E3 & _ & Hf3 & _).
  { unfold in_time, bc2 in *. cbn. by rewrite (proj1 Hfr1). }
  rewrite add_fuel_one, E3; [|done|done|].
  - cbn [mbind outcome_bind]. by exists bc3.
  - intros h x Hx. cbn in Hx. rewrite Ho1 in Hx. apply lookup_delete_Some in Hx as [_ Hx]. by apply (aw_last _ _ _ Haw h).
Qed.
End next.

(** * NodeTheorems: the node and its store

    What is on disk is enough to come back: the invariant [backed] of a node
    with its store, kept by every message and every restart; what a restart
    recovers; the blocks served to a peer; and the download of a peer's chain. *)

From S2P Require Import ChainTheorems Wire BlockStore Peers Node.

Section backed.
Context `{P : Primitives} {PL : PrimitiveLaws P} {CE : ChainEnv} {CL : ChainEnvLaws CE} {BC : BlockCodec}.
Context (U : Block -> Prop) (HU : collision_free U) {BL : BlockCodecLaws U BC}.
Implicit Types (bc : Blockchain) (b : Block) (s : Store) (n : Node).

(** A block that the store has. *)
Definition on_disk s b : Prop := get_block s (block_hash b) = Ok (Some b).

(** What the store says is the active chain: valid, and all on disk. *)
Definition recorded s (c : list Block) : Prop :=
  get_active_chain s = Ok (block_hash <$> c) /\ (c = [] \/ valid_chain c) /\ Forall U c /\ Forall (on_disk s) c.

Record backed (n : Node) : Prop := {
  bk_chain : chain_inv U (nd_chain n);
  bk_prunes : bc_pending_prunes (nd_chain n) = [];
  bk_blocks : forall h b, bc_blocks (nd_chain n) !! h = Some b -> on_disk (nd_store n) b;
  bk_record : exists c, recorded (nd_store n) c;
  bk_schema : stored_version (nd_store n) = Ok (Some SCHEMA_VERSION) /\ is_Some (bans_table (nd_store n))
}.

Lemma stored_hash bc h b : chain_inv U bc -> bc_blocks bc !! h = Some b -> h = block_hash b /\ U b.
Proof. intros Hci Hb. by destruct (ci_tree _ _ Hci h b Hb) as (? & ? & _). Qed.

(** *** Writing a block and the chain *)
Lemma follows_recorded bc s s' :
  chain_inv U bc -> (forall h b, bc_blocks bc !! h = Some b -> on_disk s b) ->
  set_active_chain true s (bc_active bc) = Ok s' -> exists c, recorded s' c /\ bc_active bc = block_hash <$> c /\ stored (bc_blocks bc) c.
Proof.
  intros Hci Hb Hs. destruct (ci_follows _ _ Hci) as [a Hf]. exists a. split; [|split; apply Hf].
  assert (Hok : Forall hash_ok (bc_active bc)).
  { rewrite (fo_active _ _ Hf). apply Forall_fmap, Forall_forall. intros x _. apply block_hash_ok. }
  destruct (active_chain_read s (bc_active bc) s' Hok Hs) as [Hg Hsame].
  split; [by rewrite Hg, (fo_active _ _ Hf)|]. pose proof (fo_stored _ _ Hf) as Hst. split; [|split].
  - destruct (fo_chain _ _ Hf) as [[-> _]|]; auto.
  - eapply tree_in_play; [apply Hci|done].
  - eapply Forall_impl; [exact Hst|]. intros x Hx. unfold on_disk. rewrite Hsame. by apply (Hb _ _ Hx).
Qed.

(** The state between [add_block] and the end of [persist_chain_state]. *)
Record written (n : Node) (b : Block) : Prop := {
  wr_chain : chain_inv U (nd_chain n);
  wr_blocks : forall h x, bc_blocks (nd_chain n) !! h = Some x -> x = b \/ on_disk (nd_store n) x;
  wr_prunes : Forall (fun h => hash_ok h /\ bc_blocks (nd_chain n) !! h = None) (bc_pending_prunes (nd_chain n));
  wr_record : exists c, recorded (nd_store n) c;
  wr_schema : stored_version (nd_store n) = Ok (Some SCHEMA_VERSION) /\ is_Some (bans_table (nd_store n))
}.

Lemma on_disk_put s b x : U b -> x = b \/ on_disk s x ->
  on_disk (with_blocks_table s (<[as_bytes (block_hash b) := cbor_block b]> (blocks_table s))) x \/ block_hash x = block_hash b.
Proof.
  intros Hub Hx. destruct (decide (block_hash x = block_hash b)) as [|Hne]; [by right|left].
  unfold on_disk. rewrite get_put, decide_False by (done || apply block_hash_ok). by destruct Hx as [->|].
Qed.

Lemma put_keeps n b s1 :
  U b -> written n b -> put_block true (nd_store n) b = Ok s1 ->
  (forall h x, bc_blocks (nd_chain n) !! h = Some x -> on_disk s1 x) /\ (exists c, recorded s1 c) /\
  stored_version s1 = Ok (Some SCHEMA_VERSION) /\ is_Some (bans_table s1).
Proof.
  intros Hub [Hci Hb Hp [c (Hg & Hv & Hu & Hd)] Hsch] [= <-].
  assert (Hput : forall x, U x -> x = b \/ on_disk (nd_store n) x ->
    on_disk (with_blocks_table (nd_store n) (<[as_bytes (block_hash b) := cbor_block b]> (blocks_table (nd_store n)))) x).
  { intros x Hux Hx. destruct (on_disk_put _ b x Hub Hx) as [|E]; [done|]. apply (cf_inj U HU) in E; [|done..]. subst x.
    unfold on_disk. by rewrite get_put, decide_True by (done || apply block_hash_ok). }
  split; [|split].
  - intros h x Hx. apply Hput; [by eapply stored_hash|by eapply Hb].
  - exists c. split; [done|]. split; [done|]. split; [done|]. rewrite Forall_forall in Hu, Hd |- *. intros x Hx. apply Hput; auto.
  - done.
Qed.

Lemma persist_keeps env n b n' r :
  U b -> put_commits env = true -> written n b -> persist_chain_state env n b = (n', r) ->
  backed n' /\ (chain_commits env = true -> get_active_chain (nd_store n') = Ok (bc_active (nd_chain n'))) /\
  (forall h, bc_blocks (nd_chain n') !! h = bc_blocks (nd_chain n) !! h) /\ bc_active (nd_chain n') = bc_active (nd_chain n).
Proof.
  intros Hub Hpc Hw. unfold persist_chain_state. rewrite Hpc. destruct (put_block true (nd_store n) b) as [s1| |] eqn:Ep; [|done..].
  destruct (put_keeps n b s1 Hub Hw Ep) as (Hb1 & Hr1 & Hs1). cbn [take_pruned_hashes]. destruct Hw as [Hci _ Hp _ _].
  assert (Hci' : chain_inv U (with_pending_prunes (nd_chain n) [])).
  { destruct Hci as [C1 [a [F1 F2 F3 F4 F5]] C3 C4]. split; try done. exists a. by split. }
  assert (Hmk : forall s, (forall h x, bc_blocks (nd_chain n) !! h = Some x -> on_disk s x) -> (exists c, recorded s c) ->
    stored_version s = Ok (Some SCHEMA_VERSION) /\ is_Some (bans_table s) -> backed (mkNode (with_pending_prunes (nd_chain n) []) s)).
  { intros s H1 H2 H3. by split. }
  destruct (chain_commits env); [|intros [= <- <-]; split_and!; [by apply Hmk|done..]].
  destruct (set_active_chain true s1 (bc_active (nd_chain n))) as [s2| |] eqn:Es; [|done..].
  destruct (follows_recorded _ _ _ Hci Hb1 Es) as (c & Hr2 & Hc & Hst).
  injection Es as Es. assert (Hb2 : forall h x, bc_blocks (nd_chain n) !! h = Some x -> on_disk s2 x) by (subst s2; exact Hb1).
  assert (Hs2 : stored_version s2 = Ok (Some SCHEMA_VERSION) /\ is_Some (bans_table s2)).
  { subst s2. destruct Hs1 as [Hv Hb]. split; [|done]. unfold stored_version in *. cbn. by rewrite lookup_insert_ne by done. }
  assert (Hg2 : get_active_chain s2 = Ok (bc_active (nd_chain n))) by (rewrite Hc; apply Hr2).
  unfold delete_blocks. destruct (bc_pending_prunes (nd_chain n)) as [|h0 hs] eqn:Epr; [intros [= <- <-]; split_and!; [apply Hmk; eauto|done..]|].
  rewrite <-Epr in *. destruct (delete_commits env); cbn [commit]; [|intros [= <- <-]; split_and!; [apply Hmk; eauto|done..]].
  assert (Hoks : Forall hash_ok (bc_pending_prunes (nd_chain n))) by (eapply Forall_impl; [exact Hp|by intros ? []]).
  assert (Hkeep : forall x, bc_blocks (nd_chain n) !! block_hash x = Some x -> on_disk s2 x ->
    on_disk (with_blocks_table s2 (foldl (fun t h => delete (as_bytes h) t) (blocks_table s2) (bc_pending_prunes (nd_chain n)))) x).
  { intros x Hx Hd. unfold on_disk. rewrite get_deleted by (done || apply block_hash_ok). rewrite decide_False; [done|].
    intros Hin. rewrite Forall_forall in Hp. destruct (Hp _ Hin). congruence. }
  intros [= <- <-]. split_and!; [apply Hmk|done..].
  - intros h x Hx. destruct (stored_hash _ h x Hci Hx) as [-> _]. by apply Hkeep, (Hb2 (block_hash x)).
  - exists c. destruct Hr2 as (R1 & R2 & R3 & R4). split_and!; try done.
    unfold stored in Hst. rewrite Forall_forall in Hst, R4 |- *. intros x Hx. by apply Hkeep; [apply Hst|apply R4].
  - done.
Qed.

(** *** Accepting a block *)
Lemma added_written n b now bc' :
  backed n -> U b -> unawaited (nd_chain n) b -> add_block now (nd_chain n) b = (bc', Ok tt) ->
  written (mkNode bc' (nd_store n)) b.
Proof.
  intros [Hci Hp Hb Hr Hs] Hu Hun E. pose proof (add_block_ok U HU now _ b bc' (Ok tt) Hci Hu E) as (_ & Hci' & _).
  rewrite (add_block_one U HU) in E by done. destruct (add_one now (nd_chain n) b) as [bc0 [[hash bc1]| |]] eqn:E1; [|done..].
  injection E as ->. apply add_one_frame in E1 as (_ & Pr & Hpr & Hbl & Hdom). rewrite Hp in Hpr. cbn in Hpr.
  split; cbn; [done| | |done|done].
  - intros h x. rewrite Hbl, lookup_prune. case_decide; [done|]. destruct (decide (h = block_hash b)) as [->|Hne].
    + rewrite lookup_insert_eq. intros [= <-]. by left.
    + rewrite lookup_insert_ne by done. intros Hx. right. by eapply Hb.
  - rewrite Hpr. rewrite Forall_forall in Hdom |- *. intros h Hh. rewrite Hbl, lookup_prune, decide_True by done. split; [|done].
    specialize (Hdom h Hh). apply elem_of_dom in Hdom as [x Hx]. destruct (decide (h = block_hash b)) as [->|Hne]; [apply block_hash_ok|].
    rewrite lookup_insert_ne in Hx by done. apply (stored_hash _ _ _ Hci) in Hx as [-> _]. apply block_hash_ok.
Qed.

Lemma rejected_backed n b now bc' e :
  backed n -> U b -> add_block now (nd_chain n) b = (bc', Err e) -> backed (mkNode bc' (nd_store n)).
Proof.
  intros [Hci Hp Hb Hr Hs] Hu E. pose proof (add_block_ok U HU now _ b bc' (Err e) Hci Hu E) as (_ & Hci' & _).
  unfold add_block in E. rewrite add_block_fuel_step in E. destruct (add_one now (nd_chain n) b) as [bc0 r0] eqn:E1.
  destruct (add_one_spec U HU _ b now bc0 r0 Hci Hu E1) as (_ & _ & Hst & _).
  assert (Hsame : bc' = bc0 -> backed (mkNode bc' (nd_store n))).
  { intros ->. assert (Hf : bc_blocks bc0 = bc_blocks (nd_chain n) /\ bc_pending_prunes bc0 = bc_pending_prunes (nd_chain n)).
    { destruct Hst as [->|[-> _]]; [done|]. unfold buffer_orphan. by destruct (MAX_ORPHAN_BLOCKS <=? _)%nat. }
    destruct Hf as [F1 F2]. split; cbn; [done|by rewrite F2|rewrite F1; apply Hb|done|done]. }
  destruct r0 as [[hash bc1]|e0|]; [|injection E as <- <-; by apply Hsame|done]. exfalso.
  cbv zeta in E. destruct (ofold _ bc1 _) as [bc2|e2|] eqn:Eo; [done| |done].
  revert Eo. generalize bc1 at 1 as x. induction (base.filter _ _) as [|o l IH]; intros x; cbn [ofold]; [done|].
  destruct (add_block_fuel _ _ _ o) as [y [[]| |]]; cbn [mbind outcome_bind]; [apply IH|apply IH|done].
Qed.

Lemma accept_block_keeps env now n b n' r :
  backed n -> U b -> unawaited (nd_chain n) b -> put_commits env = true ->
  accept_block env now n b = (n', r) -> r <> Panic /\ backed n' /\
  (r = Ok tt -> chain_commits env = true -> get_active_chain (nd_store n') = Ok (bc_active (nd_chain n'))).
Proof.
  intros Hb Hu Hun Hp. unfold accept_block. destruct (add_block now (nd_chain n) b) as [bc' [[]|e|]] eqn:E.
  - pose proof (added_written _ _ _ _ Hb Hu Hun E) as Hw.
    destruct (persist_chain_state env (mkNode bc' (nd_store n)) b) as [n1 r1] eqn:Ep. intros [= <- <-]. split; [done|].
    destruct (persist_keeps _ _ _ _ _ Hu Hp Hw Ep) as (? & Hg & _). split; [done|]. by intros _.
  - intros [= <- <-]. split; [done|]. split; [by eapply rejected_backed|done].
  - by apply (add_block_ok U HU) in E as (? & _); [|apply Hb|].
Qed.

(** *** Loading *)

(** A block within the tolerance of a clock that no peer has corrected: the
    offset is not on disk, so a start measures with its own clock. *)
Definition dated (now : DateTime) b : Prop :=
  (timestamp (header b) <= now + seconds MAX_FUTURE_BLOCK_DRIFT_SECONDS)%Z.
#[export] Instance dated_dec now b : Decision (dated now b).
Proof. unfold dated. apply _. Defined.

(** A chain as [load_from_store] builds it: nothing but its own blocks. *)
Record loaded (bc : Blockchain) (a : list Block) : Prop := {
  ld_inv : chain_inv U bc;
  ld_follows : follows bc a;
  ld_orphans : bc_orphans bc = ∅;
  ld_offset : bc_time_offset bc = 0%Z;
  ld_prunes : bc_pending_prunes bc = [];
  ld_only : forall h b, bc_blocks bc !! h = Some b -> b ∈ a
}.

Lemma loaded_new : loaded new_blockchain [].
Proof.
  split; [apply new_blockchain_inv| |done..]. split; try done; [by left|constructor].
Qed.

Lemma loaded_next now bc a b :
  loaded bc a -> U b -> valid_chain (a ++ [b]) -> dated now b ->
  exists bc', add_block now bc b = (bc', Ok tt) /\ loaded bc' (a ++ [b]).
Proof.
  intros [Hci Hf Ho Hof Hp Hon] Hu Hv Ht. destruct (add_next U HU now bc a b) as (bc' & E & Hci' & Hf' & Ho' & Hfr); try done.
  - unfold in_time, dated in *. rewrite Hof. lia.
  - intros h o. by rewrite Ho, lookup_empty.
  - exists bc'. split; [done|]. destruct Hfr as (Hoff & Pr & Hpr & Hbl & Hdom).
    assert (Hlk : forall h x, <[block_hash b := b]> (bc_blocks bc) !! h = Some x -> h = block_hash x /\ x ∈ a ++ [b]).
    { intros h x. destruct (decide (h = block_hash b)) as [->|Hne].
      - rewrite lookup_insert_eq. intros [= <-]. split; [done|]. apply elem_of_app. right. by left.
      - rewrite lookup_insert_ne by done. intros Hx. split; [exact (proj1 (stored_hash bc h x Hci Hx))|]. apply elem_of_app. left. by eapply Hon. }
    assert (Hnil : Pr = []).
    { destruct Pr as [|h Pr]; [done|]. exfalso. apply Forall_cons in Hdom as [Hd _]. apply elem_of_dom in Hd as [x Hx].
      destruct (Hlk h x Hx) as [-> Hin]. pose proof (fo_stored _ _ Hf') as Hs. unfold stored in Hs. rewrite Forall_forall in Hs.
      specialize (Hs x Hin). rewrite Hbl, lookup_prune, decide_True in Hs by (by left). done. }
    subst Pr. split; [done|done|congruence|congruence|by rewrite Hpr, Hp|]. intros h x. rewrite Hbl. cbn. by intros [_ ?]%Hlk.
Qed.

Lemma load_blocks now s l : forall i bc a,
  loaded bc a -> Forall U l -> Forall (on_disk s) l -> (l = [] \/ valid_chain (a ++ l)) ->
  match ofold (load_block now s) (i, bc) (block_hash <$> l) with
  | Ok (_, bc') => Forall (dated now) l /\ loaded bc' (a ++ l)
  | Err e => ~ Forall (dated now) l /\ e = Rejected InvalidBlock
  | Panic => False
  end.
Proof.
  induction l as [|b l IH]; intros i bc a Hl Hu Hd Hv; [cbn; rewrite app_nil_r; by split; [constructor|]|].
  apply Forall_cons in Hu as [Hub Hu], Hd as [Hdb Hd]. destruct Hv as [|Hv]; [done|].
  replace (a ++ b :: l) with ((a ++ [b]) ++ l) in * by (by rewrite <-app_assoc).
  assert (Hvb : valid_chain (a ++ [b])) by (eapply valid_chain_prefix; [|exact Hv]; by destruct a).
  cbn [fmap list_fmap ofold]. unfold load_block at 2. rewrite Hdb. cbn [of_store mbind outcome_bind ok_or].
  destruct (decide (dated now b)) as [Htb|Htb].
  - destruct (loaded_next now bc a b Hl Hub Hvb Htb) as (bc1 & -> & Hl1). cbn [mbind outcome_bind].
    specialize (IH (S i) bc1 (a ++ [b]) Hl1 Hu Hd (or_intror Hv)). fold (fmap block_hash l).
    destruct (ofold (load_block now s) (S i, bc1) (block_hash <$> l)) as [[j bc']|e|]; [|destruct IH as [Hn ->]|done].
    + destruct IH as [Ht Hl']. split; [by constructor|done].
    + split; [|done]. by intros [_ ?]%Forall_cons.
  - rewrite (add_late now bc a b (ld_follows _ _ Hl) Hvb); [|by unfold in_time, dated in *; rewrite (ld_offset _ _ Hl), Z.add_0_r].
    cbn [mbind outcome_bind]. split; [|done]. by intros [? _]%Forall_cons.
Qed.

Lemma loaded_backed bc a s :
  loaded bc a -> recorded s a -> stored_version s = Ok (Some SCHEMA_VERSION) /\ is_Some (bans_table s) -> backed (mkNode bc s).
Proof.
  intros [Hci Hf Ho Hof Hp Hon] (Hg & Hv & Hu & Hd) Hs. split; try done; [|by exists a].
  intros h x Hx. apply Hon in Hx. rewrite Forall_forall in Hd. by apply Hd.
Qed.

Lemma load_recorded now s c commits :
  c <> [] -> recorded s c ->
  match load_from_store commits now s (block_hash <$> c) with
  | Ok n' => Forall (dated now) c /\ exists bc, n' = mkNode bc s /\ loaded bc c
  | Err e => ~ Forall (dated now) c /\ e = Rejected InvalidBlock
  | Panic => False
  end.
Proof.
  intros Hne Hr. pose proof Hr as (Hg & Hv & Hu & Hd). destruct Hv as [|Hv]; [done|].
  unfold load_from_store. rewrite (bool_decide_eq_true_2 (head _ = _)), orb_true_r.
  2: { destruct c as [|b c]; [done|]. cbn. pose proof (valid_chain_head _ Hv) as Hh. by injection Hh as ->. }
  cbn [guard_ok mbind outcome_bind].
  pose proof (load_blocks now s c 0 new_blockchain [] loaded_new Hu Hd (or_intror Hv)) as Hl.
  destruct (ofold _ _ _) as [[j bc]|e|]; [|done..]. destruct Hl as [Ht [L1 L2 L3 L4 L5 L6]].
  cbn [mbind outcome_bind take_pruned_hashes]. rewrite L5. cbn. split; [done|].
  exists (with_pending_prunes bc []). split; [done|]. split; try done; [|by destruct L2].
  destruct L1 as [C1 [a [F1 F2 F3 F4 F5]] C3 C4 C5]. split; try done. exists a. by split.
Qed.

(** *** Starting again *)
Lemma open_current s :
  stored_version s = Ok (Some SCHEMA_VERSION) ->
  open_or_create true s = Ok (with_meta s (<[SCHEMA_VERSION_KEY := be_bytes 4 SCHEMA_VERSION]> (meta_table s))).
Proof. intros Hv. unfold open_or_create. by rewrite Hv. Qed.

Lemma recorded_same s s' c :
  get_active_chain s' = get_active_chain s -> (forall h, get_block s' h = get_block s h) -> recorded s c -> recorded s' c.
Proof.
  intros Eg Eb (Hg & Hv & Hu & Hd). split; [by rewrite Eg|]. split_and!; try done.
  eapply Forall_impl; [exact Hd|]. intros b. unfold on_disk. by rewrite Eb.
Qed.

Lemma hashes_inj (a c : list Block) : Forall U a -> Forall U c -> block_hash <$> a = block_hash <$> c -> a = c.
Proof.
  intros Ha. revert c. induction Ha as [|x a Hx _ IH]; intros [|y c] Hc E; try done. apply Forall_cons in Hc as [Hy Hc].
  injection E as E1 E2. f_equal; [by apply (cf_inj U HU)|by apply IH].
Qed.

(** A first start, or a start from a store with no chain yet. *)
Lemma begin_backed env now s :
  recorded s [] -> stored_version s = Ok (Some SCHEMA_VERSION) /\ is_Some (bans_table s) -> dated now genesis_block ->
  exists bc, add_block now new_blockchain genesis_block = (bc, Ok tt) /\
    match persist_chain_state env (mkNode bc s) genesis_block with
    | (n, Ok _) => backed n /\ follows (nd_chain n) [genesis_block]
    | (_, Err _) => put_commits env = true -> chain_commits env = false
    | (_, Panic) => False
    end.
Proof.
  intros Hr Hs Ht. destruct (loaded_next now new_blockchain [] genesis_block loaded_new) as (bc & E & Hl);
    [apply HU|constructor|done|]. exists bc. split; [done|]. destruct Hl as [L1 L2 L3 L4 L5 L6].
  assert (Hw : written (mkNode bc s) genesis_block).
  { split; cbn; [done| |by rewrite L5; constructor|by exists []|done]. intros h x Hx. apply L6 in Hx. left. by apply list_elem_of_singleton in Hx. }
  destruct (persist_chain_state env (mkNode bc s) genesis_block) as [n r] eqn:Er.
  destruct (put_commits env) eqn:Hp; [|unfold persist_chain_state in Er; cbn in Er; rewrite Hp in Er; by injection Er as <- <-].
  destruct (persist_keeps env _ _ _ _ (cf_genesis _ HU) Hp Hw Er) as (Hb & _ & _ & Ha). destruct r as [[]|e|].
  - split; [done|]. destruct (ci_follows _ _ (bk_chain _ Hb)) as [a Hf]. replace [genesis_block] with a; [done|].
    apply hashes_inj; [eapply tree_in_play; [apply Hb|apply Hf]|by constructor; [apply HU|]|].
    rewrite <-(fo_active _ _ Hf), Ha. exact (fo_active _ _ L2).
  - intros _. destruct (chain_commits env) eqn:Hc; [|done]. unfold persist_chain_state in Er. cbn in Er. by rewrite Hp, L5, Hc in Er.
  - unfold persist_chain_state in Er. cbn in Er. rewrite Hp, L5 in Er. by destruct (chain_commits env).
Qed.

(** What a start does with the store of a node: it comes up on the recorded
    chain, or that chain has a block too far ahead of the clock, or a write
    of the start's own failed. *)
Lemma boot_outcome n now oc lc env :
  backed n -> exists c, recorded (nd_store n) c /\
  match boot oc lc env now (nd_store n) with
  | Ok n' => Forall (dated now) c /\ backed n' /\ follows (nd_chain n') (if decide (c = []) then [genesis_block] else c)
  | Err e => oc = true -> put_commits env = true -> chain_commits env = true ->
             ~ Forall (dated now) c /\ e = Rejected InvalidBlock
  | Panic => c = [] /\ ~ dated now genesis_block
  end.
Proof.
  intros [Hci Hp Hb [c Hr] Hs]. exists c. split; [done|]. destruct Hs as [Hv Hbans].
  set (s' := with_meta (nd_store n) (<[SCHEMA_VERSION_KEY := be_bytes 4 SCHEMA_VERSION]> (meta_table (nd_store n)))).
  assert (Hr' : recorded s' c).
  { eapply recorded_same; [| |exact Hr]; [|done]. unfold get_active_chain, s'. cbn [meta_table with_meta]. by rewrite lookup_insert_ne by done. }
  assert (Hs' : stored_version s' = Ok (Some SCHEMA_VERSION) /\ is_Some (bans_table s')).
  { split; [|done]. unfold stored_version, s'. cbn [meta_table with_meta]. by rewrite lookup_insert_eq. }
  unfold boot. destruct oc; [|unfold open_or_create; rewrite Hv; done].
  rewrite open_current by done. cbn [of_store mbind outcome_bind]. fold s'. rewrite (proj1 Hr'). cbn [of_store mbind outcome_bind].
  destruct (decide (c = [])) as [->|Hne].
  - cbn [fmap list_fmap]. destruct (decide (dated now genesis_block)) as [Htg|Htg].
    + destruct (begin_backed env now s' Hr' Hs' Htg) as (bc & -> & Hper).
      destruct (persist_chain_state env (mkNode bc s') genesis_block) as [n1 [[]|e|]]; [|by intros _ H1%Hper H2; congruence|done].
      destruct Hper. split_and!; [constructor|done..].
    + rewrite (add_late now new_blockchain [] genesis_block (ld_follows _ _ loaded_new)); [done|constructor|].
      by unfold in_time, dated in *; rewrite Z.add_0_r.
  - assert (Hn : exists h t, block_hash <$> c = h :: t) by (destruct c; [done|eauto]). destruct Hn as (h & t & Hn).
    pose proof (load_recorded now s' c lc Hne Hr') as Hload. rewrite Hn in *.
    destruct (load_from_store lc now s' (h :: t)) as [n'|e|]; [|done..]. destruct Hload as (Ht & bc & -> & Hl).
    split_and!; [done|by eapply loaded_backed|apply Hl].
Qed.

(** *** Messages *)
Definition sound_message (env : PersistEnv) n (m : Message) : Prop :=
  match m with
  | NewBlock b | SubmitTemplate b => U b /\ unawaited (nd_chain n) b /\ put_commits env = true
  | _ => True
  end.

Lemma mempool_backed n now tx bc' r :
  backed n -> add_to_mempool now (nd_chain n) tx = (bc', r) -> r <> Panic /\ backed (mkNode bc' (nd_store n)).
Proof.
  intros [Hci Hp Hb Hr Hs] E. apply add_to_mempool_spec in E as (Hm & Hok & Hnp & _); [|apply Hci]. split; [done|].
  split; cbn; [by eapply mem_only_inv|by rewrite (mo_prunes _ _ Hm)|by rewrite (mo_blocks _ _ Hm)|done|done].
Qed.

Lemma message_keeps env now id iter nodes n m n' r :
  backed n -> sound_message env n m -> handle_message env now id iter nodes n m = (n', r) ->
  backed n' /\ (r = Panic -> exists pk, m = FetchTemplate pk).
Proof.
  intros Hb Hs. destruct (ci_follows _ _ (bk_chain _ Hb)) as [a Hf].
  assert (Hbl : blocks_of (bc_blocks (nd_chain n)) (bc_active (nd_chain n)) = Ok a)
    by (rewrite (fo_active _ _ Hf); apply stored_blocks_of, Hf).
  destruct m; cbn [handle_message]; try (intros [= <- <-]; done).
  - destruct (add_to_mempool now (nd_chain n) tx) as [bc' o] eqn:E. destruct (mempool_backed _ _ _ _ _ Hb E) as [Hnp Hb'].
    destruct o; intros [= <- <-]; done.
  - destruct (add_to_mempool now (nd_chain n) tx) as [bc' o] eqn:E. destruct (mempool_backed _ _ _ _ _ Hb E) as [Hnp Hb'].
    destruct o; intros [= <- <-]; done.
  - intros [= <- <-]. split; [done|eauto].
  - intros [= <- <-]. rewrite Hbl. done.
  - destruct Hs as (Hu & Hun & Hp). destruct (accept_block env now n b) as [n1 o] eqn:E.
    destruct (accept_block_keeps _ _ _ _ _ _ Hb Hu Hun Hp E) as (Hnp & Hb1 & _).
    destruct o as [[]|[]|]; intros [= <- <-]; done.
  - intros [= <- <-]. rewrite (follows_work U HU _ a) by (done || apply Hb). done.
  - intros [= <- <-]. rewrite Hbl. done.
  - destruct Hs as (Hu & Hun & Hp). destruct (accept_block env now n b) as [n1 o] eqn:E.
    destruct (accept_block_keeps _ _ _ _ _ _ Hb Hu Hun Hp E) as (Hnp & Hb1 & _).
    destruct o as [[]|[]|]; intros [= <- <-]; done.
Qed.

(** *** The life of a node *)
Inductive node_step (n : Node) : Node -> Prop :=
| ns_message env now id iter nodes m n' r :
    sound_message env n m -> handle_message env now id iter nodes n m = (n', r) -> node_step n n'
| ns_cleanup now : node_step n (mkNode (cleanup_mempool now (nd_chain n)) (nd_store n))
| ns_clock offset : node_step n (mkNode (set_time_offset (nd_chain n) offset) (nd_store n))
| ns_restart now oc lc env n' : boot oc lc env now (nd_store n) = Ok n' -> node_step n n'.

Lemma node_step_keeps n n' : backed n -> node_step n n' -> backed n'.
Proof.
  intros Hb [env now id iter nodes m n1 r Hs E|now|offset|now oc lc env n1 E].
  - by eapply message_keeps.
  - destruct Hb as [Hci Hp Hbl Hr Hs]. pose proof (cleanup_mem_only now (nd_chain n)) as Hm.
    split; cbn -[cleanup_mempool]; [eapply mem_only_inv; [done|apply cleanup_ok, Hci|done]|by rewrite (mo_prunes _ _ Hm)|by rewrite (mo_blocks _ _ Hm)|done|done].
  - destruct Hb as [Hci Hp Hbl Hr Hs]. split; try done. by apply (inert_inv U (nd_chain n)).
  - destruct (boot_outcome n now oc lc env Hb) as (c & _ & Ho). rewrite E in Ho. apply Ho.
Qed.
Lemma node_steps_keep n n' : rtc node_step n n' -> backed n -> backed n'.
Proof. induction 1 as [|n n1 n' Hs _ IH]; [done|]. intros Hb. apply IH. by eapply node_step_keeps. Qed.

(** The first start, on a new file. *)
Lemma first_start oc lc env now n : boot oc lc env now empty_store = Ok n -> backed n.
Proof.
  unfold boot. intros E. apply bind_Ok in E as (s & Ho & E). destruct oc; [|done]. injection Ho as <-.
  apply bind_Ok in E as (ch & Hg & E). cbn in Hg. injection Hg as <-.
  destruct (add_block now new_blockchain genesis_block) as [bc [[]|e|]] eqn:Ea; [|done..].
  match type of E with context [persist_chain_state env (mkNode bc ?x)] => set (s := x) in * end.
  assert (Hb : backed (mkNode new_blockchain s)).
  { split; cbn; [apply new_blockchain_inv|done|done| |by split]. exists []. split_and!; [done|by left|constructor|constructor]. }
  destruct (persist_chain_state env (mkNode bc s) genesis_block) as [n1 [[]|e|]] eqn:Ep; [|done..]. injection E as <-.
  assert (Hp : put_commits env = true) by (unfold persist_chain_state in Ep; by destruct (put_commits env)).
  eapply (persist_keeps env); [apply HU|done| |exact Ep]. eapply (added_written (mkNode new_blockchain s)); [done|apply HU| |exact Ea].
  intros h o. cbn. by rewrite lookup_empty.
Qed.

(** C4: From its first start on an empty file, over any history of messages, cleanups,
    clock corrections, failed writes of the chain record and restarts in which every
    accepted block is written and no orphan was waiting for it, starting a node again
    on its store (at a clock not before genesis, the start's own writes committing)
    comes up exactly when every recorded block is within the two-hour drift of that
    clock: the correction learnt from peers is not on disk. It then follows exactly
    the recorded chain and, when that is the chain it followed, has the same target
    and the same outputs; otherwise the start fails with InvalidBlock, and it never
    panics. *)
Theorem node_recovers oc0 lc0 env0 now0 n0 n now lc env :
  boot oc0 lc0 env0 now0 empty_store = Ok n0 -> rtc node_step n0 n ->
  put_commits env = true -> chain_commits env = true -> dated now genesis_block ->
  exists c, get_active_chain (nd_store n) = Ok (block_hash <$> c) /\ Forall (on_disk (nd_store n)) c /\
    match boot true lc env now (nd_store n) with
    | Ok n' => Forall (dated now) c /\ backed n' /\ (c = [] \/ bc_active (nd_chain n') = block_hash <$> c) /\
        (c <> [] -> bc_active (nd_chain n) = block_hash <$> c ->
           bc_target (nd_chain n') = bc_target (nd_chain n) /\ same_outputs (bc_utxos (nd_chain n')) (bc_utxos (nd_chain n)))
    | Err e => ~ Forall (dated now) c /\ e = Rejected InvalidBlock
    | Panic => False
    end.
Proof.
  intros Hb0%first_start Hrun Hp Hc Hg. pose proof (node_steps_keep _ _ Hrun Hb0) as Hb.
  destruct (boot_outcome n now true lc env Hb) as (c & Hr & Ho). exists c. split_and!; [apply Hr|apply Hr|].
  destruct (boot true lc env now (nd_store n)) as [n'|e|]; [|by apply Ho|by destruct Ho].
  destruct Ho as (Ht & Hb' & Hf). split_and!; [done..| |].
  - destruct (decide (c = [])) as [->|]; [by left|right; apply Hf].
  - intros Hne Ha. rewrite decide_False in Hf by done. destruct (ci_follows _ _ (bk_chain _ Hb)) as [a Hfa].
    assert (a = c) as ->.
    { apply hashes_inj; [eapply tree_in_play; [apply Hb|apply Hfa]|apply Hr|]. by rewrite <-Ha, (fo_active _ _ Hfa). }
    split; [|etrans; [apply Hf|symmetry; apply Hfa]].
    pose proof (fo_target _ _ Hf) as T1. pose proof (fo_target _ _ Hfa) as T2. congruence.
Qed.

(** When the writes of an accepted block commit, the recorded chain is the chain the node
    follows. *)
Theorem acknowledged_block_is_recorded env now n b n' :
  backed n -> U b -> unawaited (nd_chain n) b -> put_commits env = true -> chain_commits env = true ->
  accept_block env now n b = (n', Ok tt) ->
  backed n' /\ get_active_chain (nd_store n') = Ok (bc_active (nd_chain n')).
Proof. intros Hb Hu Hun Hp Hc E. destruct (accept_block_keeps _ _ _ _ _ _ Hb Hu Hun Hp E) as (_ & ? & ?). auto. Qed.

(** *** A block that is in the chain and not on disk *)
Lemma lost_table s h : get_block s h = Ok None <-> blocks_table s !! as_bytes h = None.
Proof.
  unfold get_block. destruct (blocks_table s !! as_bytes h) as [bytes|]; [|done].
  destruct (parse_block bytes); cbn; split; done.
Qed.

Lemma deleted_stay_lost hs : forall (t : gmap (list N) (list N)) k, t !! k = None -> foldl (fun t h => delete (as_bytes h) t) t hs !! k = None.
Proof. induction hs as [|h hs IH]; intros t k Hk; [done|]. cbn. apply IH. apply lookup_delete_None. by right. Qed.

Lemma load_lost now s h chain : forall acc, h ∈ chain -> get_block s h = Ok None -> forall x, ofold (load_block now s) acc chain <> Ok x.
Proof.
  induction chain as [|c chain IH]; intros [i bc] Hin Hl x; [by apply not_elem_of_nil in Hin|]. cbn [ofold].
  intros E. apply bind_Ok in E as (acc1 & E1 & E2). apply elem_of_cons in Hin as [<-|Hin]; [|by eapply IH].
  unfold load_block in E1. by rewrite Hl in E1.
Qed.

Lemma lost_block_stops_boot oc lc env now s chain h n :
  schema_ok s -> get_active_chain s = Ok chain -> h ∈ chain -> get_block s h = Ok None -> boot oc lc env now s <> Ok n.
Proof.
  intros Hs Hg Hin Hl E. unfold boot in E. apply bind_Ok in E as (s1 & Ho & E).
  assert (oc = true) as ->.
  { destruct oc; [done|]. unfold open_or_create in Ho. destruct (stored_version s) as [v| |]; [cbn in Ho|done..].
    by match type of Ho with of_store (mbind _ ?x) = _ => destruct x end. }
  destruct (open_or_create true s) as [s2| |] eqn:Eo; [injection Ho as ->|done..].
  destruct (open_shape _ _ Hs Eo) as (_ & Eb & Em).
  assert (Hg1 : get_active_chain s1 = Ok chain).
  { rewrite <-Hg. unfold get_active_chain. by rewrite Em, lookup_insert_ne by done. }
  assert (Hl1 : get_block s1 h = Ok None) by (rewrite lost_table in Hl |- *; by rewrite Eb).
  rewrite Hg1 in E. cbn [of_store mbind outcome_bind] in E. destruct chain as [|c chain]; [by apply not_elem_of_nil in Hin|].
  unfold load_from_store in E. apply bind_Ok in E as ([] & _ & E). apply bind_Ok in E as (x & E & _).
  by eapply load_lost in E.
Qed.

Lemma persist_writes_one env n b h :
  Forall hash_ok (bc_active (nd_chain n)) -> put_commits env = true -> chain_commits env = true ->
  h <> block_hash b -> hash_ok h -> get_block (nd_store n) h = Ok None ->
  let n' := (persist_chain_state env n b).1 in
  bc_active (nd_chain n') = bc_active (nd_chain n) /\ get_active_chain (nd_store n') = Ok (bc_active (nd_chain n)) /\
  get_block (nd_store n') h = Ok None /\
  (forall k, k <> ACTIVE_CHAIN_KEY -> meta_table (nd_store n') !! k = meta_table (nd_store n) !! k) /\
  bans_table (nd_store n') = bans_table (nd_store n).
Proof.
  intros Hok Hp Hc Hne Hh Hl. unfold persist_chain_state. rewrite Hp, Hc. cbn [put_block commit take_pruned_hashes].
  unfold set_active_chain. cbn [commit]. set (s2 := with_meta _ _).
  assert (Hg : get_active_chain s2 = Ok (bc_active (nd_chain n))) by (by eapply active_chain_read).
  assert (Hl2 : get_block s2 h = Ok None).
  { rewrite lost_table in Hl |- *. cbn. rewrite lookup_insert_ne; [done|]. intros E. apply Hne. symmetry. apply as_bytes_inj; [apply block_hash_ok|done..]. }
  assert (Hm : forall k, k <> ACTIVE_CHAIN_KEY -> meta_table s2 !! k = meta_table (nd_store n) !! k) by (intros k Hk; cbn; by rewrite lookup_insert_ne).
  assert (Hbs : bans_table s2 = bans_table (nd_store n)) by done.
  clearbody s2. cbn zeta. unfold delete_blocks. destruct (bc_pending_prunes (nd_chain n)); [by split_and!|].
  destruct (delete_commits env); cbn [commit]; (split_and!; try done).
  rewrite lost_table in Hl2 |- *. by apply deleted_stay_lost.
Qed.

(** C39: When the next block of the chain arrives and exactly one buffered orphan, itself
    the block after it and not on disk, waits for it, both join the active chain and
    the chain record names both, but only the arriving block is written, whatever the
    deletion of pruned blocks does: no later start on that store, at any clock, comes
    up. *)
Theorem released_orphan_is_not_stored env now n a b o :
  backed n -> follows (nd_chain n) a -> U b -> valid_chain (a ++ [b; o]) ->
  in_time now (nd_chain n) b -> in_time now (nd_chain n) o -> awaited_by (nd_chain n) b o ->
  get_block (nd_store n) (block_hash o) = Ok None -> put_commits env = true -> chain_commits env = true ->
  exists n', accept_block env now n b = (n', Ok tt) /\
    bc_active (nd_chain n') = block_hash <$> a ++ [b; o] /\
    get_active_chain (nd_store n') = Ok (bc_active (nd_chain n')) /\
    get_block (nd_store n') (block_hash o) = Ok None /\
    forall oc lc env' now' n2, boot oc lc env' now' (nd_store n') <> Ok n2.
Proof.
  intros [Hci Hp Hb Hr [Hsv Hbt]] Hf Hu Hv Hin Hino Haw Hl Hpc Hcc.
  destruct (add_next_awaited U HU now _ a b o Hci Hf Hu Hv Hin Hino Haw) as (bc' & E & Hf').
  unfold accept_block. rewrite E. eexists. split; [done|].
  assert (Hne : block_hash o <> block_hash b).
  { intros He. assert (o = b) as -> by (apply (cf_inj U HU); [by destruct (ci_orphans _ _ Hci _ _ (aw_buffered _ _ _ Haw))|done|done]).
    pose proof (valid_chain_link (a ++ [b; b]) (length a) b b Hv) as Hlk. destruct Hlk as [_ Ht]; [by apply list_lookup_middle| |lia].
    rewrite lookup_app_r by lia. by replace (S (length a) - length a)%nat with 1%nat by lia. }
  destruct (persist_writes_one env (mkNode bc' (nd_store n)) b (block_hash o)) as (Ha & Hg & Hl' & Hm & Hbans); try done.
  { cbn. rewrite (fo_active _ _ Hf'). apply Forall_fmap, Forall_forall. intros x _. apply block_hash_ok. }
  { apply block_hash_ok. }
  cbn [nd_chain] in Ha, Hg. rewrite Ha. split_and!; [apply Hf'|done|done|].
  intros oc lc env' now' n2. eapply lost_block_stops_boot; [|exact Hg| |exact Hl'].
  - intros _. rewrite Hbans. exact Hbt.
  - rewrite (fo_active _ _ Hf'). apply list_elem_of_fmap. exists o. split; [done|]. apply elem_of_app. right. by right; left.
Qed.

(** ** Serving and downloading *)
Lemma fill_batch_spec l : forall acc total,
  (total <= MAX_FETCH_BATCH_BYTES \/ (length acc <= 1)%nat) -> total = sumN (block_size <$> acc) ->
  exists k, fill_batch acc total l = acc ++ take k l /\ (acc = [] -> l <> [] -> (1 <= k)%nat) /\
    (sumN (block_size <$> acc ++ take k l) <= MAX_FETCH_BATCH_BYTES \/ (length (acc ++ take k l) <= 1)%nat).
Proof.
  induction l as [|b l IH]; intros acc total Hb Ht; cbn [fill_batch].
  - exists 0%nat. cbn [take]. rewrite app_nil_r. split_and!; try done. by rewrite <-Ht.
  - destruct (N.ltb_spec MAX_FETCH_BATCH_BYTES (total + block_size b)) as [Hbig|Hfit]; cbn [andb].
    + case_bool_decide as Hn; cbn [negb].
      * subst acc. destruct (IH [b] (total + block_size b)) as (k & E & _ & Hs); [right; cbn; lia|cbn; subst; cbn; lia|].
        exists (S k). cbn [app take]. cbn in E. rewrite E. split_and!; [done|lia|exact Hs].
      * exists 0%nat. cbn [take]. rewrite app_nil_r. split_and!; try done. by rewrite <-Ht.
    + destruct (IH (acc ++ [b]) (total + block_size b)) as (k & E & _ & Hs).
      * by left.
      * rewrite fmap_app, sumN_app. cbn. lia.
      * exists (S k). rewrite <-app_assoc in *. cbn in E, Hs |- *. split_and!; [done|lia|exact Hs].
Qed.

(** A reply to FetchBlocks is a contiguous run from the requested height, of at most eight
    blocks and nine megabytes unless it is a single block, and empty only past the tip
    or when nothing was asked for. *)
Theorem fetch_blocks_is_bounded start count (c : list Block) :
  let r := fetch_blocks start count c in
  r `prefix_of` drop (N.to_nat start) c /\ N.of_nat (length r) <= N.min count BLOCKS_PER_FETCH_BATCH /\
  (r = [] <-> count = 0 \/ N.of_nat (length c) <= start) /\
  (sumN (block_size <$> r) <= MAX_FETCH_BATCH_BYTES \/ length r = 1%nat).
Proof.
  cbv zeta. unfold fetch_blocks. set (l := take _ _).
  destruct (fill_batch_spec l [] 0) as (k & -> & Hk & Hs); [left; vm_compute; discriminate|done|]. cbn [app] in *.
  assert (Hl : l = [] <-> count = 0 \/ N.of_nat (length c) <= start).
  { unfold l. rewrite <-length_zero_iff_nil, length_take, length_drop. unfold BLOCKS_PER_FETCH_BATCH. lia. }
  assert (Hr : take k l = [] <-> l = []).
  { split; [|intros ->; by destruct k]. intros E. destruct l; [done|]. specialize (Hk eq_refl). destruct k; [|done]. exfalso. by assert (1 <= 0)%nat by (by apply Hk); lia. }
  split_and!.
  - etrans; [apply prefix_take|]. unfold l. apply prefix_take.
  - rewrite length_take. unfold l. rewrite length_take. lia.
  - by rewrite Hr.
  - destruct Hs as [|Hs]; [by left|]. destruct (take k l) as [|x [|]] eqn:E; [left; vm_compute; discriminate|by right|cbn in Hs; lia].
Qed.

(** Every write of the download commits. *)
Definition durable_env (env : PersistEnv) : Prop :=
  put_commits env = true /\ chain_commits env = true /\ delete_commits env = true.

(** The node can take the blocks of [c]: in time, and no orphan waits for them. *)
Definition takes (now : DateTime) n (c : list Block) : Prop :=
  Forall (fun b => U b /\ in_time now (nd_chain n) b /\ unawaited (nd_chain n) b) c.

Lemma apply_batch_ok env now l : durable_env env -> forall n a,
  backed n -> follows (nd_chain n) a -> valid_chain (a ++ l) -> takes now n l ->
  exists n', apply_batch env now n l = (n', Ok tt) /\ backed n' /\ follows (nd_chain n') (a ++ l) /\
    bc_orphans (nd_chain n') = bc_orphans (nd_chain n) /\ bc_time_offset (nd_chain n') = bc_time_offset (nd_chain n) /\
    (l <> [] -> get_active_chain (nd_store n') = Ok (bc_active (nd_chain n'))).
Proof.
  intros (Hpc & Hcc & Hdc). induction l as [|b l IH]; intros n a Hb Hf Hv Ht; [exists n; by rewrite app_nil_r|].
  apply Forall_cons in Ht as [(Hu & Hin & Hun) Ht].
  replace (a ++ b :: l) with ((a ++ [b]) ++ l) in * by (by rewrite <-app_assoc).
  destruct (add_next U HU now (nd_chain n) a b) as (bc1 & E & Hci1 & Hf1 & Ho1 & Hfr); try done; [apply Hb| |].
  { eapply valid_chain_prefix; [|exact Hv]. by destruct a. }
  pose proof (added_written n b now bc1 Hb Hu Hun E) as Hw.
  destruct (persist_chain_state env (mkNode bc1 (nd_store n)) b) as [n1 r1] eqn:Ep.
  destruct (persist_keeps env _ b n1 r1 Hu Hpc Hw Ep) as (Hb1 & Hrec & Hbl & Hact).
  assert (Hok : r1 = Ok tt /\ nd_chain n1 = with_pending_prunes bc1 []).
  { revert Ep. unfold persist_chain_state, delete_blocks. cbn. rewrite Hpc, Hcc, Hdc. cbn. by destruct (bc_pending_prunes bc1); intros [= <- <-]. }
  destruct Hok as [-> Hn1].
  destruct (IH n1 (a ++ [b])) as (n' & Ha & Hb' & Hf' & Ho' & Hoff' & Hrec'); try done.
  - rewrite Hn1. by destruct Hf1.
  - eapply Forall_impl; [exact Ht|]. intros x (Hux & Hix & Hwx). split; [done|]. unfold in_time, unawaited in *. rewrite Hn1. cbn.
    destruct Hfr as [-> _]. rewrite Ho1. done.
  - exists n'. cbn [apply_batch]. rewrite E, Ep. split; [exact Ha|]. split; [done|]. split; [done|]. rewrite Ho', Hoff', Hn1. cbn.
    split; [done|]. split; [apply Hfr|]. intros _. destruct l; [|by apply Hrec']. cbn in Ha. injection Ha as <-. by apply Hrec.
Qed.

(** A peer that serves the chain [c], as [handle_message] does. *)
Definition honest (c : list Block) : nat -> N -> N -> option Message :=
  fun _ start count => Some (Blocks (fetch_blocks start count c)).

Lemma download_follows env now (c : list Block) target fuel i n a :
  durable_env env -> backed n -> follows (nd_chain n) a -> a <> [] -> a `prefix_of` c ->
  valid_chain c -> takes now n c -> N.of_nat (length c) < 2 ^ 32 ->
  (0 < fuel)%nat -> (N.to_nat target < fuel + length a)%nat ->
  exists n', download_blockchain fuel env now (honest c) i n target = (n', Ok tt) /\ backed n' /\
    follows (nd_chain n') (take (N.to_nat target `max` length a) c).
Proof.
  intros Henv. revert i n a. induction fuel as [|fuel IH]; intros i n a Hb Hf Hne [r Hc] Hv Ht Hlen Hpos Hfuel; [lia|].
  assert (Hh : block_height (nd_chain n) = N.of_nat (length a)) by (unfold block_height; by rewrite (fo_active _ _ Hf), length_fmap).
  assert (Hlc : length c = (length a + length r)%nat) by (by rewrite Hc, length_app).
  cbn [download_blockchain]. rewrite Hh, (N.mod_small (N.of_nat (length a))) by lia.
  destruct (N.leb_spec target (N.of_nat (length a))) as [Hle|Hgt].
  { exists n. split; [done|]. split; [done|]. rewrite Nat.max_r by lia. by rewrite Hc, take_app_length. }
  cbn [honest]. set (count := N.min _ _).
  destruct (fetch_blocks_is_bounded (N.of_nat (length a)) count c) as ((tl & Hd) & Hl & Hnil & _).
  rewrite Nat2N.id, Hc, drop_app_length, <-Hc in Hd.
  destruct (fetch_blocks (N.of_nat (length a)) count c) as [|b l] eqn:Eb.
  - exists n. split; [done|]. split; [done|]. destruct (proj1 Hnil eq_refl) as [Hz|Hz].
    + unfold count, BLOCKS_PER_FETCH_BATCH in Hz. lia.
    + assert (r = []) as -> by (apply length_zero_iff_nil; lia). rewrite app_nil_r in Hc. subst c. by rewrite take_ge by lia.
  - assert (Hc' : c = (a ++ b :: l) ++ tl) by (by rewrite <-(assoc_L (++)), <-Hd).
    assert (Htb : takes now n (b :: l)).
    { unfold takes in Ht |- *. rewrite Hc' in Ht. apply Forall_app in Ht as [[_ Ht]%Forall_app _]. exact Ht. }
    assert (Hvb : valid_chain (a ++ b :: l)) by (eapply valid_chain_prefix; [by destruct a|by rewrite <-Hc']).
    destruct (apply_batch_ok env now (b :: l) Henv n a Hb Hf Hvb Htb) as (n1 & E & Hb1 & Hf1 & Ho1 & Hoff1 & _).
    rewrite E. cbn [length] in Hl.
    assert (Hmax : (N.to_nat target `max` length (a ++ b :: l) = N.to_nat target `max` length a)%nat).
    { rewrite length_app. cbn. unfold count in Hl. lia. }
    rewrite <-Hmax. apply IH; try done.
    + by destruct a.
    + by exists tl.
    + eapply Forall_impl; [exact Ht|]. intros x (Hux & Hix & Hwx). split; [done|]. unfold in_time, unawaited in *. by rewrite Hoff1, Ho1.
    + lia.
    + rewrite length_app. cbn. lia.
Qed.

(** Downloading from a peer that serves a valid chain extending ours returns, within one
    round per missing block, with that chain followed up to the requested height and
    every block of it written. *)
Theorem download_completes env now (c : list Block) target fuel i n a :
  durable_env env -> backed n -> follows (nd_chain n) a -> a <> [] -> a `prefix_of` c ->
  valid_chain c -> takes now n c -> N.of_nat (length c) < 2 ^ 32 ->
  (0 < fuel)%nat -> (N.to_nat target < fuel + length a)%nat ->
  exists n', download_blockchain fuel env now (honest c) i n target = (n', Ok tt) /\ backed n' /\
    follows (nd_chain n') (take (N.to_nat target `max` length a) c).
Proof. apply download_follows. Qed.
End backed.

(** ** What a connection does *)
Section connection.
Context `{P : Primitives} {CE : ChainEnv} {BC : BlockCodec} {C : MessageCodec} {L : CodecLaws C}.

(** The messages one by one, and how the connection ends when none of them ends it. *)
Fixpoint respond (last_strike : option bool) (env : nat -> MessageEnv) (i : nat) (n : Node) (ms : list Message)
    : outcome BtcError (Node * Visit) :=
  match ms with
  | [] => Ok (n, mkVisit [] [] last_strike)
  | m :: ms =>
      match handle_message (me_persist (env i)) (me_now (env i)) (me_id (env i)) (me_iter (env i)) (me_nodes (env i)) n m with
      | (n, Ok (Close s)) => Ok (n, mkVisit [] [] s)
      | (n, Ok (Answer a)) => '(n, v) ← respond last_strike env (S i) n ms; Ok (n, say (Some a) v)
      | (n, Ok (Continue b)) => '(n, v) ← respond last_strike env (S i) n ms; Ok (n, pass_on b v)
      | (_, Err e) => Err e
      | (_, Panic) => Panic
      end
  end.
(** What the handshake with a compatible peer leaves. *)
Definition greeted (ip : option IpAddr) (samples : gmap IpAddr Z) (n : Node) (offset : Z) : gmap IpAddr Z * Node :=
  match ip with
  | Some ip => let '(samples, bc) := record_sample samples (nd_chain n) ip offset in (samples, mkNode bc (nd_store n))
  | None => (samples, n)
  end.

Lemma serve_loop_respond env e ms : forall fuel i n tail,
  Forall fits ms -> recieve tail = Err e -> (length ms < fuel)%nat ->
  serve_loop fuel env i n (concat (send <$> ms) ++ tail) =
  respond (if is_benign_disconnect e then None else Some true) env i n ms.
Proof.
  induction ms as [|m ms IH]; intros fuel i n tail Hms He Hf; (destruct fuel as [|fuel]; [cbn in Hf; lia|]); cbn [serve_loop respond fmap list_fmap concat].
  - rewrite app_nil_l. by rewrite He.
  - apply Forall_cons in Hms as [Hm Hms]. rewrite <-app_assoc, recieve_send by done.
    destruct (handle_message _ _ _ _ _ n m) as [n' [[a|b|s]|x|]]; [..|done|done|done]; (rewrite IH; [done|done|done|cbn in Hf; lia]).
Qed.
Lemma handle_connection_greeted fuel env received now ip samples n t rest :
  fits (Hello PROTOCOL_MAGIC PROTOCOL_VERSION t) ->
  handle_connection fuel env received now ip samples n (send (Hello PROTOCOL_MAGIC PROTOCOL_VERSION t) ++ rest) =
  (let '(samples, n) := greeted ip samples n (t - received) in
   '(n, v) ← serve_loop fuel env 0 n rest;
   Ok (n, samples, say (Some (HelloAck PROTOCOL_MAGIC PROTOCOL_VERSION true now)) v)).
Proof.
  intros Ht. unfold handle_connection, perform_handshake_acceptor, greeted. rewrite recieve_send by done. rewrite !N.eqb_refl. cbn [andb].
  destruct ip as [ip|]; [by destruct (record_sample _ _ _ _)|]. by destruct n.
Qed.

(** C27: A node's side of a connection over the bytes a peer sent: after the greeting of a
    compatible peer, messages that fit the size limit are handled one by one as they
    were sent and in order, until one of them closes the connection. A stream that
    then ends, between two frames or inside one, is not held against the peer; a frame
    that announces more than the limit is a severe strike, after the messages before
    it were handled; and so is a stream that ends inside the greeting, which changes
    nothing else. *)
Theorem connection_hears_what_was_sent fuel env received now ip samples n t ms m k len rest :
  fits (Hello PROTOCOL_MAGIC PROTOCOL_VERSION t) -> Forall fits ms -> (length ms < fuel)%nat ->
  fits m -> (k < length (send m))%nat -> MAX_MESSAGE_SIZE < len < 2 ^ 64 ->
  let '(samples', n') := greeted ip samples n (t - received) in
  let served last_strike :=
    '(n'', v) ← respond last_strike env 0 n' ms;
    Ok (n'', samples', say (Some (HelloAck PROTOCOL_MAGIC PROTOCOL_VERSION true now)) v) in
  let connection sent := handle_connection fuel env received now ip samples n sent in
  let greeting := send (Hello PROTOCOL_MAGIC PROTOCOL_VERSION t) in
  connection (greeting ++ concat (send <$> ms) ++ take k (send m)) = served None /\
  connection (greeting ++ concat (send <$> ms) ++ be_bytes 8 len ++ rest) = served (Some true) /\
  connection (take k (send m)) = Ok (n, samples, mkVisit [] [] (Some true)).
Proof.
  intros Ht Hms Hf Hm Hk Hlen. destruct (greeted ip samples n (t - received)) as [samples' n'] eqn:Hg. cbv zeta.
  rewrite !handle_connection_greeted, Hg by done. split; [|split].
  - by rewrite (serve_loop_respond env (DeIo UnexpectedEof)) by (try done; by apply recieve_cut).
  - by rewrite (serve_loop_respond env (DeIo InvalidData)) by (try done; by apply recieve_oversized).
  - unfold handle_connection, perform_handshake_acceptor. by rewrite recieve_cut.
Qed.
End connection.
