(* ===== verification/NodeStart.v ===== *)
(** * NodeStart: dialling peers, starting and listening

    Models [populate_connections] of [node/src/util.rs], the composition of [main] in
    [node/src/main.rs], and its accept loop. [NODES] maps a name to the number of the
    dial that made its connection; what the network does with dial [k] is [world k].
    An address is the number [ip_number] gives it. *)

From S2P Require Import Prelude Types Crypto Params Transaction Block Utxo Blockchain Wire BlockStore IpAddr Peers Node ChainSpec ChainTree ChainInv ChainStep NodeTheorems.

(** ** [addr_ip] *)
Fixpoint join_segments (l : list N) : N := match l with [] => 0 | x :: l => x + 65536 * join_segments l end.
Definition ip_number (ip : IpAddr.IpAddr) : IpAddr :=
  match ip with V4 a b c d => le_val [a; b; c; d] | V6 l => 2 ^ 32 + join_segments l end.
Definition addr_ip (addr : string) : option IpAddr := (fun p : IpAddr.IpAddr * N => ip_number p.1) <$> parse_socket_addr (of_string addr).

(** One dial: the clock the ban check reads, whether the connection opens and takes the
    [Hello], the clock of the handshake, all the peer says, and whether it takes the
    [DiscoverNodes]. *)
Record PeerDial := mkPeerDial {
  dl_ban_clock : DateTime; dl_connects : bool; dl_hello_sent : bool; dl_received_at : DateTime;
  dl_says : list N; dl_discover_sent : bool
}.
Record Peering := mkPeering {
  pg_node : Node; pg_bans : Bans; pg_samples : gmap IpAddr Z; pg_nodes : gmap string nat; pg_dials : nat
}.
Inductive PopulateError : Type := ConnectFailed | HandshakeFailed (e : HandshakeError) | SendFailed | ReceiveFailed.

Section start.
Context `{CE : ChainEnv} {BC : BlockCodec} {C : MessageCodec}.

Definition banned_addr (b : Bans) (addr : string) (now : DateTime) : Bans * bool :=
  match addr_ip addr with Some ip => is_banned b ip now | None => (b, false) end.
Definition handshake (d : PeerDial) : outcome HandshakeError (Z * list N) :=
  if dl_hello_sent d then perform_handshake_initiator (dl_received_at d) (dl_says d) else Err Network.
Definition with_sample (st : Peering) (addr : string) (offset : Z) : Peering :=
  match addr_ip addr with
  | Some ip =>
      let '(samples, bc) := record_sample (pg_samples st) (nd_chain (pg_node st)) ip offset in
      mkPeering (mkNode bc (nd_store (pg_node st))) (pg_bans st) samples (pg_nodes st) (pg_dials st)
  | None => st
  end.
Definition with_node (st : Peering) (addr : string) (k : nat) : Peering :=
  mkPeering (pg_node st) (pg_bans st) (pg_samples st) (<[addr := k]> (pg_nodes st)) (pg_dials st).
Definition counted (st : Peering) (bans : Bans) : Peering :=
  mkPeering (pg_node st) bans (pg_samples st) (pg_nodes st) (S (pg_dials st)).

(** [util::populate_connections]: a discovered node, *)
Definition dial_child (world : nat -> PeerDial) (st : Peering) (child_node : string) : Peering :=
  let k := pg_dials st in
  let '(bans, skip) := banned_addr (pg_bans st) child_node (dl_ban_clock (world k)) in
  let st := counted st bans in
  if skip then st
  else if negb (dl_connects (world k)) then st
  else match handshake (world k) with
       | Ok (offset, _) => with_node (with_sample st child_node offset) child_node k
       | _ => st
       end.
(** a configured one, *)
Definition dial_node (world : nat -> PeerDial) (st : Peering) (node : string) : Peering * outcome PopulateError unit :=
  let k := pg_dials st in
  let '(bans, skip) := banned_addr (pg_bans st) node (dl_ban_clock (world k)) in
  let st := counted st bans in
  if skip then (st, Ok tt)
  else if negb (dl_connects (world k)) then (st, Err ConnectFailed)
  else match handshake (world k) with
       | Ok (offset, rest) =>
           let st := with_sample st node offset in
           if negb (dl_discover_sent (world k)) then (st, Err SendFailed)
           else match recieve rest with
                | Ok (NodeList child_nodes, _) => (with_node (foldl (dial_child world) st child_nodes) node k, Ok tt)
                | Ok _ => (with_node st node k, Ok tt)
                | _ => (st, Err ReceiveFailed)
                end
       | Err e => (st, Err (HandshakeFailed e))
       | Panic => (st, Panic)
       end.
(** and all of them, up to the first failure. *)
Fixpoint populate_connections (world : nat -> PeerDial) (st : Peering) (nodes : list string) : Peering * outcome PopulateError unit :=
  match nodes with
  | [] => (st, Ok tt)
  | node :: nodes =>
      match dial_node world st node with
      | (st, Ok _) => populate_connections world st nodes
      | (st, r) => (st, r)
      end
  end.

(** ** [main] *)
Inductive StartError : Type := StartBoot (e : BootError) | StartPeers (e : PopulateError) | StartTips | StartSync (e : SyncError).
Record StartEnv := mkStartEnv {
  sv_open_commits : bool; sv_load_commits : bool; sv_persist : PersistEnv; sv_now : DateTime;
  sv_dials : nat -> PeerDial;
  sv_order : gmap string nat -> list (string * nat);
  sv_tip : nat -> outcome unit Message;
  sv_fuel : nat; sv_sync_persist : PersistEnv; sv_sync_now : DateTime;
  sv_blocks : nat -> nat -> N -> N -> option Message;
  sv_strike_clocks : DateTime * DateTime; sv_strike_commits : bool
}.

(** The strike of [download_blockchain] on a block that does not validate. *)
Definition blame (env : StartEnv) (bans : Bans) (node : string) (r : outcome SyncError unit) : Bans :=
  match r, addr_ip node with
  | Err (SyncInvalid _), Some ip =>
      strike (sv_strike_commits env) bans ip false (sv_strike_clocks env).1 (sv_strike_clocks env).2
  | _, _ => bans
  end.
(** Asking every node for its tip and downloading the best chain. *)
Definition catch_up (env : StartEnv) (st : Peering) : Peering * outcome StartError unit :=
  match find_best_chain_node (prod_map id (sv_tip env) <$> sv_order env (pg_nodes st)) with
  | Err _ => (st, Err StartTips)
  | Panic => (st, Panic)
  | Ok (best_name, best_height) =>
      if bool_decide (best_name = EmptyString) then (st, Ok tt)
      else match pg_nodes st !! best_name with
           | None => (st, Err (StartSync SyncNetwork))
           | Some k =>
               let '(n, r) := download_blockchain (sv_fuel env) (sv_sync_persist env) (sv_sync_now env)
                                (sv_blocks env k) 0 (pg_node st) best_height in
               (mkPeering n (blame env (pg_bans st) best_name r) (pg_samples st) (pg_nodes st) (pg_dials st),
                match r with Ok _ => Ok tt | Err e => Err (StartSync e) | Panic => Panic end)
           end
  end.
Definition start_node (env : StartEnv) (saved_bans : gmap IpAddr Z) (file : Store) (nodes : list string) : outcome StartError Peering :=
  match boot (sv_open_commits env) (sv_load_commits env) (sv_persist env) (sv_now env) file with
  | Ok n =>
      let st := mkPeering n (load_persisted saved_bans (sv_now env)) ∅ ∅ 0 in
      match populate_connections (sv_dials env) st nodes with
      | (st, Ok _) =>
          if bool_decide (nodes = []) then Ok st
          else match catch_up env st with
               | (st, Ok _) => Ok st
               | (_, Err e) => Err e
               | (_, Panic) => Panic
               end
      | (_, Err e) => Err (StartPeers e)
      | (_, Panic) => Panic
      end
  | Err e => Err (StartBoot e)
  | Panic => Panic
  end.

(** ** The accept loop *)

(** One connection from [ip]: refused when banned, served otherwise; what it did wrong
    is held against the address. [clocks] are the readings of the ban check and of the strike. *)
Record Served := mkServed { sd_node : Node; sd_bans : Bans; sd_samples : gmap IpAddr Z }.
Definition accept (fuel : nat) (env : nat -> MessageEnv) (ban_clock received_at now : DateTime) (strike_clocks : DateTime * DateTime)
    (commits : bool) (ip : IpAddr) (s : Served) (stream : list N) : outcome BtcError (Served * option Visit) :=
  let '(bans, refused) := is_banned (sd_bans s) ip ban_clock in
  if refused then Ok (mkServed (sd_node s) bans (sd_samples s), None)
  else
    '(n, samples, v) ← handle_connection fuel env received_at now (Some ip) (sd_samples s) (sd_node s) stream;
    Ok (mkServed n (match vs_strike v with
                    | Some severe => strike commits bans ip severe strike_clocks.1 strike_clocks.2
                    | None => bans
                    end) samples, Some v).

(** ** Whom a start knows *)

(** Distinct addresses have distinct numbers. *)
Lemma join_segments_inj l l' :
  length l = length l' -> Forall (fun x => x < 65536) l -> Forall (fun x => x < 65536) l' -> join_segments l = join_segments l' -> l = l'.
Proof.
  revert l'. induction l as [|x l IH]; intros [|y l'] Hl Hx Hy E; try done. apply Forall_cons in Hx as [Hx Hl1], Hy as [Hy Hl2].
  cbn in E. assert (x = y /\ join_segments l = join_segments l') as [-> E'] by lia. f_equal. by apply IH; [injection Hl|..].
Qed.
Lemma ip_number_inj ip ip' : ip_wf ip -> ip_wf ip' -> ip_number ip = ip_number ip' -> ip = ip'.
Proof.
  assert (Hb : forall a b c d, ip_wf (V4 a b c d) -> Forall byte_ok [a; b; c; d] /\ le_val [a; b; c; d] < 2 ^ 32).
  { intros a b c d (? & ? & ? & ?). assert (Hf : Forall byte_ok [a; b; c; d]) by (unfold byte_ok; repeat constructor; done).
    split; [done|]. apply (le_val_bound _ Hf). }
  destruct ip as [a b c d|l], ip' as [a' b' c' d'|l']; intros H1 H2 E; unfold ip_number in E.
  - apply Hb in H1 as [H1 _], H2 as [H2 _]. apply le_bytes_val in H1, H2. cbn [length] in H1, H2. rewrite E in H1. rewrite H1 in H2. by injection H2 as -> -> -> ->.
  - apply Hb in H1 as [_ H1]. lia.
  - apply Hb in H2 as [_ H2]. lia.
  - destruct H1 as [L1 F1], H2 as [L2 F2]. f_equal. apply join_segments_inj; [congruence|done|done|lia].
Qed.

Section known.
Variable world : nat -> PeerDial.
Variable bans0 : Bans.

(** PeerDial [k] found a compatible node. *)
Definition greeted (k : nat) : Prop :=
  dl_connects (world k) = true /\
  exists timestamp rest, recieve (dl_says (world k)) = Ok (HelloAck PROTOCOL_MAGIC PROTOCOL_VERSION true timestamp, rest).
(** Every ban of the address had ended at a reading up to dial [k]. *)
Definition let_in (name : string) (k : nat) : Prop :=
  forall ip until, addr_ip name = Some ip -> banned bans0 !! ip = Some until ->
    exists j, (j <= k)%nat /\ (until <= dl_ban_clock (world j))%Z.
(** PeerDial [k] was told of the name. *)
Definition listed (name : string) (k : nat) : Prop :=
  exists offset rest names rest', handshake (world k) = Ok (offset, rest) /\ recieve rest = Ok (NodeList names, rest') /\ name ∈ names.
Definition known (origin : string -> Prop) (st : Peering) : Prop :=
  forall name k, pg_nodes st !! name = Some k ->
    (k < pg_dials st)%nat /\ greeted k /\ let_in name k /\ origin name.
(** A ban is still in force or had ended. *)
Definition bans_run (st : Peering) : Prop :=
  forall ip until, banned bans0 !! ip = Some until ->
    banned (pg_bans st) !! ip = Some until \/ exists j, (j < pg_dials st)%nat /\ (until <= dl_ban_clock (world j))%Z.

Lemma handshake_greets k offset rest :
  dl_connects (world k) = true -> handshake (world k) = Ok (offset, rest) -> greeted k.
Proof.
  intros Hc. unfold handshake, perform_handshake_initiator. destruct (dl_hello_sent (world k)); [|done].
  destruct (recieve (dl_says (world k))) as [[m r]| |] eqn:E; [|done..]. destruct m; try done.
  destruct accepted; [|done]. cbn. destruct (N.eqb_spec magic PROTOCOL_MAGIC), (N.eqb_spec version PROTOCOL_VERSION); try done. subst.
  intros _. split; [done|]. by eexists _, _.
Qed.
Lemma handshake_not_panic d : handshake d <> Panic.
Proof. unfold handshake, perform_handshake_initiator. repeat case_match; done. Qed.
Lemma counted_runs st name b skip :
  bans_run st -> banned_addr (pg_bans st) name (dl_ban_clock (world (pg_dials st))) = (b, skip) ->
  bans_run (counted st b) /\ (skip = false -> let_in name (pg_dials st)).
Proof.
  intros Hr E. unfold banned_addr, is_banned in E. split.
  - intros ip until Hu. destruct (Hr ip until Hu) as [Hl|(j & Hj & Hle)]; [|right; exists j; cbn; split; [lia|done]].
    destruct (addr_ip name) as [x|]; [|injection E as <- <-; by left].
    destruct (banned (pg_bans st) !! x) as [u|] eqn:Ex; [|injection E as <- <-; by left].
    destruct (Z.ltb_spec (dl_ban_clock (world (pg_dials st))) u) as [Hlt|Hge]; injection E as <- <-; [by left|]. cbn.
    destruct (decide (x = ip)) as [->|Hne]; [|left; by rewrite lookup_delete_ne]. right. exists (pg_dials st). split; [lia|]. congruence.
  - intros -> ip until Ha Hu. rewrite Ha in E. destruct (Hr ip until Hu) as [Hl|(j & Hj & Hle)]; [|exists j; split; [lia|done]].
    rewrite Hl in E. destruct (Z.ltb_spec (dl_ban_clock (world (pg_dials st))) until) as [Hlt|Hge]; [done|]. by exists (pg_dials st).
Qed.
Lemma with_sample_same st name offset :
  pg_bans (with_sample st name offset) = pg_bans st /\ pg_nodes (with_sample st name offset) = pg_nodes st /\
  pg_dials (with_sample st name offset) = pg_dials st.
Proof. unfold with_sample. destruct (addr_ip name); [|done]. by destruct (record_sample _ _ _ _). Qed.

Lemma known_insert origin st name k :
  known origin st -> (k < pg_dials st)%nat -> greeted k -> let_in name k -> origin name -> known origin (with_node st name k).
Proof. intros Hk H1 H2 H3 H4 x j Hx. cbn in Hx. apply lookup_insert_Some in Hx as [[<- <-]|[_ Hx]]; [done|by apply Hk]. Qed.
Lemma known_counted origin st b : known origin st -> known origin (counted st b).
Proof. intros Hk x j Hx. cbn in *. destruct (Hk x j Hx) as (? & ?). split; [lia|done]. Qed.
Lemma known_sample origin st name offset : known origin st -> known origin (with_sample st name offset).
Proof. destruct (with_sample_same st name offset) as (_ & E1 & E2). unfold known. by rewrite E1, E2. Qed.
Lemma runs_sample st name offset : bans_run st -> bans_run (with_sample st name offset).
Proof. destruct (with_sample_same st name offset) as (E1 & _ & E2). unfold bans_run. by rewrite E1, E2. Qed.

Lemma dial_child_known origin st name :
  known origin st -> bans_run st -> origin name ->
  known origin (dial_child world st name) /\ bans_run (dial_child world st name) /\ (pg_dials st < pg_dials (dial_child world st name))%nat.
Proof.
  intros Hk Hr Ho. unfold dial_child. destruct (banned_addr _ _ _) as [b skip] eqn:Eb.
  destruct (counted_runs st name b skip Hr Eb) as [Hr' Hl]. apply (known_counted _ _ b) in Hk.
  assert (Hdone : known origin (counted st b) /\ bans_run (counted st b) /\ (pg_dials st < pg_dials (counted st b))%nat) by (cbn; auto with lia).
  destruct skip; [done|]. destruct (dl_connects (world (pg_dials st))) eqn:Ec; [|done]. cbn [negb].
  destruct (handshake (world (pg_dials st))) as [[offset rest]| |] eqn:Eh; [|done..].
  destruct (with_sample_same (counted st b) name offset) as (_ & _ & Ed). split; [|split].
  - apply known_insert; [by apply known_sample|rewrite Ed; cbn; lia|by eapply handshake_greets|by apply Hl|done].
  - by apply runs_sample.
  - cbn. rewrite Ed. cbn. lia.
Qed.
Lemma dial_children_known origin names st :
  known origin st -> bans_run st -> Forall origin names ->
  known origin (foldl (dial_child world) st names) /\ bans_run (foldl (dial_child world) st names) /\
  (pg_dials st <= pg_dials (foldl (dial_child world) st names))%nat.
Proof.
  revert st. induction names as [|x names IH]; intros st Hk Hr Ho; [done|]. apply Forall_cons in Ho as [Hx Ho].
  destruct (dial_child_known origin st x Hk Hr Hx) as (Hk1 & Hr1 & Hd). cbn. destruct (IH _ Hk1 Hr1 Ho) as (? & ? & ?). split; [done|]. split; [done|lia].
Qed.

(** PeerDial [k] is the one of a configured node, all before it having gone well. *)
Definition configured_dial (st0 : Peering) (nodes : list string) (node : string) (k : nat) : Prop :=
  exists pre post st1, nodes = pre ++ node :: post /\ populate_connections world st0 pre = (st1, Ok tt) /\ k = pg_dials st1.
Definition origin (st0 : Peering) (nodes : list string) (name : string) : Prop :=
  name ∈ nodes \/ exists node k, configured_dial st0 nodes node k /\ listed name k.
(** What makes the dial of a configured node fail. *)
Definition dial_fails (d : PeerDial) : option PopulateError :=
  if negb (dl_connects d) then Some ConnectFailed
  else match handshake d with
       | Ok (_, rest) =>
           if negb (dl_discover_sent d) then Some SendFailed
           else match recieve rest with Ok _ => None | _ => Some ReceiveFailed end
       | Err e => Some (HandshakeFailed e)
       | Panic => None
       end.

Lemma populate_app st l l' :
  populate_connections world st (l ++ l') =
  match populate_connections world st l with
  | (st, Ok _) => populate_connections world st l'
  | (st, r) => (st, r)
  end.
Proof.
  revert st. induction l as [|x l IH]; intros st; [done|]. cbn. destruct (dial_node world st x) as [st1 [[]|e|]]; [apply IH|done..].
Qed.

Lemma dial_node_known st0 nodes st node :
  known (origin st0 nodes) st -> bans_run st -> node ∈ nodes ->
  (forall name, listed name (pg_dials st) -> origin st0 nodes name) ->
  let '(st', r) := dial_node world st node in
  known (origin st0 nodes) st' /\ bans_run st' /\ (r = Ok tt \/ exists e, r = Err e /\ dial_fails (world (pg_dials st)) = Some e).
Proof.
  intros Hk Hr Ho Hlist. unfold dial_node, dial_fails. destruct (banned_addr _ _ _) as [b skip] eqn:Eb.
  destruct (counted_runs st node b skip Hr Eb) as [Hr' Hl]. apply (known_counted _ _ b) in Hk.
  destruct skip; [by auto|]. destruct (dl_connects (world (pg_dials st))) eqn:Ec; cbn [negb]; [|eauto 10].
  destruct (handshake (world (pg_dials st))) as [[offset rest]|e|] eqn:Eh; [|eauto 10|by destruct (handshake_not_panic _ Eh)].
  destruct (with_sample_same (counted st b) node offset) as (_ & _ & Ed).
  apply (known_sample _ _ node offset) in Hk. apply (runs_sample _ node offset) in Hr'.
  assert (Hg : greeted (pg_dials st)) by (by eapply handshake_greets).
  assert (Ho' : origin st0 nodes node) by (by left).
  destruct (dl_discover_sent (world (pg_dials st))) eqn:Es; cbn [negb]; [|eauto 10].
  destruct (recieve rest) as [[m rest']|e|] eqn:Em; [|eauto 10..].
  assert (Hwith : known (origin st0 nodes) (with_node (with_sample (counted st b) node offset) node (pg_dials st))).
  { apply known_insert; [done|rewrite Ed; cbn; lia|done|by apply Hl|done]. }
  destruct m; try by auto. rename nodes0 into names.
  destruct (dial_children_known (origin st0 nodes) names (with_sample (counted st b) node offset)) as (Hk2 & Hr2 & Hd2); [done|done| |].
  { apply Forall_forall. intros x Hx. apply Hlist. by exists offset, rest, names, rest'. }
  split; [|auto]. apply known_insert; [done|rewrite Ed in Hd2; cbn in Hd2; lia|done|by apply Hl|done].
Qed.

Lemma populate_known nodes st0 :
  forall post pre st, nodes = pre ++ post -> populate_connections world st0 pre = (st, Ok tt) ->
    known (origin st0 nodes) st -> bans_run st ->
    let '(st', r) := populate_connections world st post in
    known (origin st0 nodes) st' /\
    (r = Ok tt \/ exists node k e, configured_dial st0 nodes node k /\ r = Err e /\ dial_fails (world k) = Some e).
Proof.
  induction post as [|node post IH]; intros pre st En Ep Hk Hr; [split; [done|by left]|]. cbn [populate_connections].
  assert (Hc : configured_dial st0 nodes node (pg_dials st)) by (by exists pre, post, st).
  pose proof (dial_node_known st0 nodes st node Hk Hr) as Hd.
  destruct (dial_node world st node) as [st1 r] eqn:E.
  destruct Hd as (Hk1 & Hr1 & Hres); [rewrite En; set_solver|intros name Hl; right; by exists node, (pg_dials st)|].
  destruct Hres as [->|(e & -> & Hf)]; [|split; [done|right; by exists node, (pg_dials st), e]].
  apply (IH (pre ++ [node])); [by rewrite <-app_assoc|by rewrite populate_app, Ep; cbn; rewrite E|done|done].
Qed.
End known.

(** Every connection the start keeps is to a node that was configured or that a configured
    one named, that answered the handshake as a compatible node, and whose address had
    no ban left when it was dialled; and the start only fails over a configured node,
    never over a discovered one. *)
Theorem known_peers_were_checked world n bans samples nodes st r :
  let st0 := mkPeering n bans samples ∅ 0 in
  populate_connections world st0 nodes = (st, r) ->
  (forall name k, pg_nodes st !! name = Some k ->
     greeted world k /\ let_in world bans name k /\ origin world st0 nodes name) /\
  (r = Ok tt \/ exists node k e, configured_dial world st0 nodes node k /\ r = Err e /\ dial_fails (world k) = Some e).
Proof.
  intros st0 E. assert (Hk : known world bans (origin world st0 nodes) st0) by done.
  assert (Hr : bans_run world bans st0) by (by left).
  pose proof (populate_known world bans nodes st0 nodes [] st0 eq_refl eq_refl Hk Hr) as Hp. rewrite E in Hp.
  destruct Hp as [H1 H2]. split; [|done]. intros name k Hn. by destruct (H1 name k Hn) as (_ & ?).
Qed.

(** ** Only the clock of the chain moves *)
Definition reclocked (n n' : Node) : Prop :=
  nd_store n' = nd_store n /\ exists offset, nd_chain n' = nd_chain n \/ nd_chain n' = set_time_offset (nd_chain n) offset.
Lemma reclocked_refl n : reclocked n n.
Proof. split; [done|]. exists 0%Z. by left. Qed.
Lemma reclocked_trans n n' n'' : reclocked n n' -> reclocked n' n'' -> reclocked n n''.
Proof.
  intros [E1 [o1 H1]] [E2 [o2 H2]]. split; [congruence|]. destruct H2 as [->| ->]; [by exists o1|]. exists o2. right. by destruct H1 as [->| ->].
Qed.
Lemma with_sample_clock st name offset : reclocked (pg_node st) (pg_node (with_sample st name offset)).
Proof.
  unfold with_sample. destruct (addr_ip name) as [ip|]; [|apply reclocked_refl]. unfold record_sample.
  destruct (_ && _); cbn; [by destruct (pg_node st); apply reclocked_refl|]. split; [done|]. eexists. by right.
Qed.
Lemma dial_child_clock world st name : reclocked (pg_node st) (pg_node (dial_child world st name)).
Proof.
  unfold dial_child. destruct (banned_addr _ _ _) as [b []]; [apply reclocked_refl|]. destruct (dl_connects _); [|apply reclocked_refl].
  cbn [negb]. destruct (handshake _) as [[offset rest]| |]; [|apply reclocked_refl..]. apply (with_sample_clock (counted st b) name).
Qed.
Lemma dial_children_clock world names st : reclocked (pg_node st) (pg_node (foldl (dial_child world) st names)).
Proof.
  revert st. induction names as [|x names IH]; intros st; [apply reclocked_refl|]. cbn. eapply reclocked_trans; [apply dial_child_clock|apply IH].
Qed.
Lemma dial_node_clock world st name : reclocked (pg_node st) (pg_node (dial_node world st name).1).
Proof.
  unfold dial_node. destruct (banned_addr _ _ _) as [b []]; [apply reclocked_refl|]. destruct (dl_connects _); [|apply reclocked_refl].
  cbn [negb]. destruct (handshake _) as [[offset rest]| |]; [|apply reclocked_refl..].
  pose proof (with_sample_clock (counted st b) name offset) as Hs. destruct (dl_discover_sent _); [|done]. cbn [negb].
  destruct (recieve rest) as [[m rest']| |]; [|done..]. destruct m; try done.
  cbn [fst pg_node with_node]. eapply reclocked_trans; [exact Hs|apply dial_children_clock].
Qed.
Lemma populate_clock world nodes st : reclocked (pg_node st) (pg_node (populate_connections world st nodes).1).
Proof.
  revert st. induction nodes as [|x nodes IH]; intros st; [apply reclocked_refl|]. cbn. pose proof (dial_node_clock world st x) as Hd.
  destruct (dial_node world st x) as [st1 [[]|e|]]; [|done..]. eapply reclocked_trans; [exact Hd|apply IH].
Qed.

(** ** The best chain *)
Lemma best_tip_spec replies : forall best name height,
  best_tip best replies = Ok (name, height) ->
  exists work, ((name, height, work) = best \/ (name, Ok (ChainTip height work)) ∈ replies) /\ best.2 <= work /\
    (forall x h w, (x, Ok (ChainTip h w)) ∈ replies -> w <= work).
Proof.
  induction replies as [|[x [m|e|]] replies IH]; intros [[bn bh] bw] name height E; cbn in E; [|destruct m|done|done].
  1: { injection E as <- <-. exists bw. split; [by left|]. split; [done|]. by intros ? ? ? ?%not_elem_of_nil. }
  all: lazymatch goal with E : context [?bw <? ?work] |- _ => destruct (N.ltb_spec bw work) as [Hlt|Hge]; destruct (IH _ _ _ E) as (w & Hin & Hle & Hall); cbn in Hle; exists w;
        (split; [destruct Hin as [Hin|Hin]; [simplify_eq/=; first [by left|right; by left]|right; by right]|]);
        (split; [cbn; lia|intros y h w' [Hy|Hy]%elem_of_cons; [simplify_eq; lia|by eapply Hall]])
      | _ => idtac end.
  all: destruct (IH _ _ _ E) as (w & Hin & Hle & Hall); exists w; (split; [|split; [done|]]);
    [destruct Hin as [Hin|Hin]; [by left|right; by right]|intros y h w' [[=]|Hy]%elem_of_cons; by eapply Hall].
Qed.
Definition answers (r : outcome unit Message) : bool := match r with Ok _ => true | _ => false end.
Lemma best_tip_returns replies best :
  Forall (fun r => answers r.2 = true) replies <-> exists name height, best_tip best replies = Ok (name, height).
Proof.
  revert best. induction replies as [|[x [m|e|]] replies IH]; intros [[bn bh] bw]; cbn.
  - split; [by eauto|constructor].
  - rewrite Forall_cons. destruct m; rewrite <-IH; by intuition.
  - split; [by intros [? _]%Forall_cons|by intros (? & ? & ?)].
  - split; [by intros [? _]%Forall_cons|by intros (? & ? & ?)].
Qed.

(** One peer that was connected, even a discovered one, and does not answer for its tip
    makes the whole start fail, with an error or, when the question cannot be sent, a
    panic. *)
Theorem silent_peer_stops_the_start env saved file nodes n st name k :
  boot (sv_open_commits env) (sv_load_commits env) (sv_persist env) (sv_now env) file = Ok n ->
  populate_connections (sv_dials env) (mkPeering n (load_persisted saved (sv_now env)) ∅ ∅ 0) nodes = (st, Ok tt) ->
  nodes <> [] -> (name, k) ∈ sv_order env (pg_nodes st) -> answers (sv_tip env k) = false ->
  start_node env saved file nodes = Err StartTips \/ start_node env saved file nodes = Panic.
Proof.
  intros Eb Ep Hne Hin Ht. unfold start_node. rewrite Eb, Ep, bool_decide_eq_false_2 by done. unfold catch_up.
  destruct (find_best_chain_node _) as [[bn bh]|e|] eqn:E; [|by left|by right]. exfalso.
  assert (Hall := proj2 (best_tip_returns _ _) (ex_intro _ bn (ex_intro _ bh E))). rewrite Forall_fmap, Forall_forall in Hall.
  specialize (Hall _ Hin). cbn in Hall. congruence.
Qed.

(** An address whose connection ended in a severe strike is turned away for an hour: every
    connection it makes until then is refused, and changes nothing. *)
Theorem banned_address_is_not_served fuel env c1 r1 n1 clocks commits ip s stream s' v fuel' env' c2 r2 n2 clocks' commits' stream' :
  accept fuel env c1 r1 n1 clocks commits ip s stream = Ok (s', Some v) -> vs_strike v = Some true ->
  (c2 < clocks.2 + minutes (BAN_DURATION_HOURS * 60))%Z ->
  accept fuel' env' c2 r2 n2 clocks' commits' ip s' stream' = Ok (s', None).
Proof.
  unfold accept. intros E Hv Hlt. destruct (is_banned (sd_bans s) ip c1) as [b []]; [done|].
  apply bind_Ok in E as ([[n samples] v'] & _ & E). injection E as <- <-. rewrite Hv. cbn [sd_bans strike sd_node sd_samples].
  unfold is_banned. rewrite lookup_ban_now. by rewrite (proj2 (Z.ltb_lt _ _) Hlt).
Qed.
End start.

(** ** Catching up *)
Section catching_up.
Context `{P : Primitives} {PL : PrimitiveLaws P} {CE : ChainEnv} {CL : ChainEnvLaws CE} {BC : BlockCodec} {C : MessageCodec}.
Context (U : Block -> Prop) (HU : collision_free U) {BL : BlockCodecLaws U BC}.

Lemma reclocked_backed n n' a : backed U n -> follows (nd_chain n) a -> reclocked n n' -> backed U n' /\ follows (nd_chain n') a.
Proof.
  intros Hb Hf [Hs [o Ho]]. destruct n as [bc s], n' as [bc' s']; cbn in *. subst s'. destruct Ho as [->| ->]; [done|]. split.
  - apply (node_step_keeps U HU (mkNode bc s)); [done|]. apply (ns_clock U (mkNode bc s)).
  - by destruct Hf.
Qed.

(** C5: A node that starts with peers returns with the best of their chains: when every
    peer it connected to, configured or discovered, answers for its tip and the one
    that claims the most work serves a valid chain extending what the store held, the
    start succeeds and the node follows that chain up to the claimed height, with
    every block of it written. *)
Theorem started_node_has_the_best_chain env saved file nodes n st a c name k height work :
  boot (sv_open_commits env) (sv_load_commits env) (sv_persist env) (sv_now env) file = Ok n ->
  backed U n -> follows (nd_chain n) a -> a <> [] ->
  populate_connections (sv_dials env) (mkPeering n (load_persisted saved (sv_now env)) ∅ ∅ 0) nodes = (st, Ok tt) ->
  nodes <> [] -> sv_order env (pg_nodes st) ≡ₚ map_to_list (pg_nodes st) ->
  (forall x j, pg_nodes st !! x = Some j -> answers (sv_tip env j) = true) ->
  pg_nodes st !! name = Some k -> name <> EmptyString -> sv_tip env k = Ok (ChainTip height work) -> 0 < work ->
  (forall x j h w, pg_nodes st !! x = Some j -> sv_tip env j = Ok (ChainTip h w) -> x <> name -> w < work) ->
  sv_blocks env k = honest c -> durable_env (sv_sync_persist env) -> a `prefix_of` c -> valid_chain c ->
  takes U (sv_sync_now env) (pg_node st) c -> N.of_nat (length c) < 2 ^ 32 ->
  (N.to_nat height < sv_fuel env + length a)%nat -> (0 < sv_fuel env)%nat ->
  exists st', start_node env saved file nodes = Ok st' /\ backed U (pg_node st') /\
    follows (nd_chain (pg_node st')) (take (N.to_nat height `max` length a) c).
Proof.
  intros Eb Hb Hf Ha Ep Hne Hord Htips Hk Hname Ht Hw Hbest Hh Hd Hpre Hv Htk Hlen Hfuel Hpos.
  pose proof (populate_clock (sv_dials env) nodes (mkPeering n (load_persisted saved (sv_now env)) ∅ ∅ 0)) as Hr.
  rewrite Ep in Hr. cbn in Hr. destruct (reclocked_backed n (pg_node st) a Hb Hf Hr) as [Hb' Hf'].
  assert (Hin : forall x m, (x, m) ∈ prod_map id (sv_tip env) <$> sv_order env (pg_nodes st) <-> exists j, pg_nodes st !! x = Some j /\ m = sv_tip env j).
  { intros x m. rewrite list_elem_of_fmap. split.
    - intros ([y j] & [= -> ->] & Hy). rewrite Hord in Hy. apply elem_of_map_to_list in Hy. by exists j.
    - intros (j & Hj & ->). exists (x, j). split; [done|]. rewrite Hord. by apply elem_of_map_to_list. }
  assert (Hfind : find_best_chain_node (prod_map id (sv_tip env) <$> sv_order env (pg_nodes st)) = Ok (name, height)).
  { unfold find_best_chain_node.
    destruct (proj1 (best_tip_returns (prod_map id (sv_tip env) <$> sv_order env (pg_nodes st)) (EmptyString, 0, 0))) as (bn & bh & E).
    { apply Forall_forall. intros [x m] (j & Hj & ->)%Hin. by apply (Htips x). }
    rewrite E. f_equal.
    destruct (best_tip_spec _ _ _ _ E) as (w & Hor & _ & Hall).
    assert (Hwle : work <= w) by (apply (Hall name height work), Hin; by exists k).
    destruct Hor as [[= -> -> ->]|Hor]; [lia|]. apply Hin in Hor as (j & Hj & Hjt).
    destruct (decide (bn = name)) as [->|Hnn]; [congruence|]. symmetry in Hjt. pose proof (Hbest bn j bh w Hj Hjt Hnn). lia. }
  destruct (download_follows U HU (sv_sync_persist env) (sv_sync_now env) c height (sv_fuel env) 0 (pg_node st) a)
    as (n' & Edl & Hbn & Hfn); [done..|].
  unfold start_node. rewrite Eb, Ep, bool_decide_eq_false_2 by done. unfold catch_up. rewrite Hfind, bool_decide_eq_false_2 by done.
  rewrite Hk, Hh, Edl. eexists. split; [done|]. done.
Qed.
End catching_up.
