(* ===== verification/ToyNode.v ===== *)
(** * ToyNode: a concrete node and its store

    The blocks of [ToyChain] on disk: a node that restarts, one that downloads a
    chain, and one that accepts a block some orphan was waiting for. *)

From S2P Require Import Prelude Types Crypto Params Transaction Block Utxo Blockchain Mempool ChainSpec ChainTree ChainInv ChainStep ChainTheorems NodeTheorems Wire BlockStore IpAddr Peers Node NodeStart ToyChain.
Import Crypto.Toy.

Definition all_blocks : list Block := [genesis; block_a; block_b; block_c].
#[export] Instance toy_blocks : BlockCodec := {
  parse_block bytes := snd <$> list_find (fun b => enc_block b = bytes) all_blocks
}.
#[export] Instance toy_blocks_laws : BlockCodecLaws in_play toy_blocks.
Proof.
  split. intros b Hb. unfold in_play in Hb. rewrite !elem_of_cons, elem_of_nil in Hb.
  destruct Hb as [->|[->|[->|[->|[]]]]]; vm_compute; reflexivity.
Qed.

Definition good : PersistEnv := mkPersist true true true.
Definition after_boot (file : Store) : Node :=
  match boot true true good (seconds 100) file with Ok n => n | _ => mkNode new_blockchain empty_store end.
Definition hears (n : Node) (b : Block) : Node :=
  (handle_message good (seconds 100) 0 map_to_list [] n (NewBlock b)).1.

Definition node0 : Node := Eval vm_compute in after_boot empty_store.
Definition node1 : Node := Eval vm_compute in hears node0 block_a.

Lemma node0_backed : backed in_play node0.
Proof. apply (first_start in_play in_play_collision_free true true good (seconds 100)). vm_compute. reflexivity. Qed.

Lemma node1_step : node_step in_play node0 node1.
Proof.
  apply (ns_message in_play node0 good (seconds 100) 0 map_to_list [] (NewBlock block_a) node1 (Ok (Continue None))); [|vm_compute; reflexivity].
  split; [apply in_play_all|]. split; [|reflexivity]. intros h o Ho. vm_compute in Ho. discriminate Ho.
Qed.

Lemma node_recovers_witness :
  exists n', boot true true good (seconds 100) (nd_store node1) = Ok n' /\
    bc_active (nd_chain n') = block_hash <$> [genesis; block_a].
Proof.
  destruct (node_recovers in_play in_play_collision_free true true good (seconds 100) node0 node1 (seconds 100) true good)
    as (c & Hg & _ & Ho).
  - vm_compute. reflexivity.
  - apply rtc_once. exact node1_step.
  - reflexivity.
  - reflexivity.
  - vm_compute. discriminate.
  - destruct (boot true true good (seconds 100) (nd_store node1)) as [n'|e|] eqn:E;
      [|vm_compute in E; discriminate E|destruct Ho].
    exists n'. split; [reflexivity|]. destruct Ho as (_ & _ & [->|Hc] & _); [vm_compute in Hg; discriminate Hg|].
    rewrite Hc. apply Ok_inj in Hg. rewrite <-Hg. vm_compute. reflexivity.
Defined.

Lemma node0_follows : follows (nd_chain node0) [genesis].
Proof.
  destruct (ci_follows _ _ (bk_chain _ _ node0_backed)) as [a Hf]. replace [genesis] with a; [exact Hf|].
  apply (hashes_inj in_play in_play_collision_free).
  - eapply tree_in_play; [apply node0_backed|apply Hf].
  - constructor; [apply in_play_all|constructor].
  - rewrite <-(fo_active _ _ Hf). vm_compute. reflexivity.
Qed.
Lemma chain_bc_valid : valid_chain [genesis; block_b; block_c].
Proof.
  pose proof (reachable_inv in_play in_play_collision_free chain4 chain4_reachable) as Hci. destruct (ci_follows _ _ Hci) as [a Hfa].
  replace [genesis; block_b; block_c] with a; [destruct (fo_chain _ _ Hfa) as [[-> Hbs]|Hv]; [|exact Hv]|].
  - apply (f_equal size) in Hbs. vm_compute in Hbs. discriminate Hbs.
  - apply (hashes_inj in_play in_play_collision_free).
    + eapply tree_in_play; [apply Hci|apply Hfa].
    + destruct in_play_all as (Hg & Ha & Hb & Hc). repeat (constructor; [assumption|]). constructor.
    + rewrite <-(fo_active _ _ Hfa). vm_compute. reflexivity.
Qed.
Lemma takes_chain_bc bc s : (forall b, unawaited bc b) -> (forall b, in_time (seconds 100) bc b <-> in_time (seconds 100) (nd_chain node0) b) ->
  takes in_play (seconds 100) (mkNode bc s) [genesis; block_b; block_c].
Proof.
  intros Hun Hit. destruct in_play_all as (Hg & Ha & Hb & Hc).
  repeat (constructor; [split; [assumption|split; [apply Hit; vm_compute; discriminate|apply Hun]]|]). constructor.
Qed.
Lemma node0_unawaited offset b : unawaited (set_time_offset (nd_chain node0) offset) b.
Proof. intros h o Ho. vm_compute in Ho. discriminate Ho. Qed.

Lemma download_completes_witness :
  exists n', download_blockchain 3 good (seconds 100) (honest [genesis; block_b; block_c]) 0 node0 3 = (n', Ok tt) /\
    follows (nd_chain n') [genesis; block_b; block_c].
Proof.
  destruct (download_completes in_play in_play_collision_free good (seconds 100) [genesis; block_b; block_c] 3 3 0 node0 [genesis])
    as (n' & Hd & _ & Hf').
  - repeat split.
  - exact node0_backed.
  - exact node0_follows.
  - discriminate.
  - exists [block_b; block_c]. reflexivity.
  - exact chain_bc_valid.
  - apply takes_chain_bc; [exact (node0_unawaited (bc_time_offset (nd_chain node0)))|reflexivity].
  - vm_compute. reflexivity.
  - lia.
  - vm_compute. lia.
  - exists n'. split; [exact Hd|exact Hf'].
Defined.

(** ** A released orphan is not written *)

Definition node2 : Node := Eval vm_compute in hears node0 block_c.
Definition node3 : Node := Eval vm_compute in hears node2 block_b.

Lemma node2_backed : backed in_play node2.
Proof.
  apply (node_step_keeps in_play in_play_collision_free node0); [exact node0_backed|].
  apply (ns_message in_play node0 good (seconds 100) 0 map_to_list [] (NewBlock block_c) node2 (Ok (Continue None))); [|vm_compute; reflexivity].
  split; [apply in_play_all|]. split; [|reflexivity]. intros h o Ho. vm_compute in Ho. discriminate Ho.
Qed.
Lemma node2_follows : follows (nd_chain node2) [genesis].
Proof.
  destruct (ci_follows _ _ (bk_chain _ _ node2_backed)) as [a Hf]. replace [genesis] with a; [exact Hf|].
  apply (hashes_inj in_play in_play_collision_free).
  - eapply tree_in_play; [apply node2_backed|apply Hf].
  - constructor; [apply in_play_all|constructor].
  - rewrite <-(fo_active _ _ Hf). vm_compute. reflexivity.
Qed.
Lemma node2_awaits : awaited_by (nd_chain node2) block_b block_c.
Proof.
  assert (Ho : bc_orphans (nd_chain node2) = {[block_hash block_c := block_c]}) by (vm_compute; reflexivity).
  split; rewrite ?Ho; [apply lookup_singleton_eq|vm_compute; reflexivity| |].
  - intros h x [_ <-]%lookup_singleton_Some _. reflexivity.
  - intros h x. rewrite Ho. intros [_ <-]%lookup_singleton_Some. vm_compute. discriminate.
Qed.

(** The run: the orphan is in the recorded chain, the file has no such block,
    and the start says which one is missing. *)
Example node3_is_stuck :
  bc_active (nd_chain node3) = block_hash <$> [genesis; block_b; block_c] /\
  boot true true good (seconds 100) (nd_store node3) = Err (MissingBlock 2).
Proof. split; vm_compute; reflexivity. Qed.

Lemma released_orphan_is_not_stored_witness :
  exists n', accept_block good (seconds 100) node2 block_b = (n', Ok tt) /\
    bc_active (nd_chain n') = block_hash <$> [genesis; block_b; block_c] /\
    get_block (nd_store n') (block_hash block_c) = Ok None /\
    forall now n2, boot true true good now (nd_store n') <> Ok n2.
Proof.
  destruct (released_orphan_is_not_stored in_play in_play_collision_free good (seconds 100) node2 [genesis] block_b block_c)
    as (n' & E & Ha & _ & Hl & Hb).
  - exact node2_backed.
  - exact node2_follows.
  - apply in_play_all.
  - exact chain_bc_valid.
  - vm_compute. discriminate.
  - vm_compute. discriminate.
  - exact node2_awaits.
  - vm_compute. reflexivity.
  - reflexivity.
  - reflexivity.
  - exists n'. split; [exact E|]. split; [exact Ha|]. split; [exact Hl|]. intros now n2. apply Hb.
Defined.

(** ** A start with two peers

    The configured peer has the longer chain and names another one. *)
Module ToyStart.
Import ToyCodec.

Definition peer : string := "127.0.0.1:9001".
Definition mentioned : string := "10.0.0.7:9000".
Definition ack : list N := send (HelloAck PROTOCOL_MAGIC PROTOCOL_VERSION true (seconds 100)).
Definition dials (k : nat) : PeerDial :=
  match k with
  | O => mkPeerDial (seconds 100) true true (seconds 100) (ack ++ send (NodeList [mentioned])) true
  | _ => mkPeerDial (seconds 100) true true (seconds 100) ack true
  end.
Definition start_env (tip : nat -> outcome unit Message) : StartEnv :=
  mkStartEnv true true good (seconds 100) dials map_to_list tip 3 good (seconds 100)
    (fun _ => honest [genesis; block_b; block_c]) (seconds 100, seconds 100) true.
Definition both_answer (k : nat) : outcome unit Message :=
  match k with O => Ok (ChainTip 3 1000) | _ => Ok (ChainTip 1 1) end.
Definition one_hangs_up (k : nat) : outcome unit Message :=
  match k with O => Ok (ChainTip 3 1000) | _ => Err tt end.

Definition peered : Peering :=
  (populate_connections dials (mkPeering node0 (load_persisted ∅ (seconds 100)) ∅ ∅ 0) [peer]).1.
Lemma peered_nodes : pg_nodes peered = <[peer := 0%nat]> (<[mentioned := 1%nat]> ∅).
Proof. vm_compute. reflexivity. Qed.
Lemma peered_chain : nd_chain (pg_node peered) = nd_chain node0.
Proof. vm_compute. reflexivity. Qed.

Lemma node0_boots : boot true true good (seconds 100) empty_store = Ok node0.
Proof. vm_compute. reflexivity. Qed.
Lemma peered_by_populate :
  populate_connections dials (mkPeering node0 (load_persisted ∅ (seconds 100)) ∅ ∅ 0) [peer] = (peered, Ok tt).
Proof. vm_compute. reflexivity. Qed.

Lemma started_node_has_the_best_chain_witness :
  exists st', start_node (start_env both_answer) ∅ empty_store [peer] = Ok st' /\
    follows (nd_chain (pg_node st')) [genesis; block_b; block_c].
Proof.
  destruct (started_node_has_the_best_chain in_play in_play_collision_free (start_env both_answer) ∅ empty_store [peer] node0 peered
              [genesis] [genesis; block_b; block_c] peer 0 3 1000) as (st' & Hs & _ & Hf).
  - exact node0_boots.
  - exact node0_backed.
  - exact node0_follows.
  - discriminate.
  - exact peered_by_populate.
  - discriminate.
  - reflexivity.
  - intros x [|j] _; reflexivity.
  - rewrite peered_nodes. reflexivity.
  - discriminate.
  - reflexivity.
  - reflexivity.
  - intros x j h w Hj Ht Hne. rewrite peered_nodes in Hj. apply lookup_insert_Some in Hj as [[<- _]|[_ Hj]]; [done|].
    apply lookup_insert_Some in Hj as [[_ <-]|[_ Hj]]; [|done]. injection Ht as <- <-. reflexivity.
  - reflexivity.
  - repeat split.
  - exists [block_b; block_c]. reflexivity.
  - exact chain_bc_valid.
  - cbn [sv_sync_now start_env]. destruct (pg_node peered) as [bc s] eqn:E. pose proof peered_chain as Hc. rewrite E in Hc. cbn in Hc. subst bc.
    apply takes_chain_bc; [exact (node0_unawaited (bc_time_offset (nd_chain node0)))|reflexivity].
  - vm_compute. reflexivity.
  - cbn. lia.
  - cbn. lia.
  - exists st'. split; [exact Hs|exact Hf].
Defined.

(** The configured peer names another one, which completes the handshake and hangs up: the
    start fails, although the configured peer would have served its chain; with an
    answer from the other one it succeeds. *)
Theorem mentioned_peer_stops_the_start :
  start_node (start_env one_hangs_up) ∅ empty_store [peer] = Err StartTips /\
  exists st', start_node (start_env both_answer) ∅ empty_store [peer] = Ok st'.
Proof.
  split; [vm_compute; reflexivity|]. eexists. vm_compute. reflexivity.
Qed.

(** A peer that asks for the tip, offers a block and hangs up inside a third message, one
    that then announces more than the limit, and one that hangs up inside its greeting. *)
Definition calm (i : nat) : MessageEnv := mkMessageEnv good (seconds 100) 0 map_to_list [].
Definition greeting : list N := send (Hello PROTOCOL_MAGIC PROTOCOL_VERSION (seconds 100)).
Definition talk : list Message := [AskChainTip; NewBlock block_b].
Definition welcome : Message := HelloAck PROTOCOL_MAGIC PROTOCOL_VERSION true (seconds 100).
Definition call (sent : list N) : outcome BtcError (Node * gmap IpAddr Z * Visit) :=
  handle_connection 3 calm (seconds 100) (seconds 100) None ∅ node0 sent.
Definition talked (last_strike : option bool) : outcome BtcError (Node * gmap IpAddr Z * Visit) :=
  '(n, v) ← respond last_strike calm 0 node0 talk; Ok (n, ∅, say (Some welcome) v).
Example talked_ends :
  match talked None, talked (Some true) with
  | Ok (n, _, v), Ok (_, _, v') =>
      block_height (nd_chain n) = 2 /\ length (vs_out v) = 2%nat /\ vs_strike v = None /\ vs_strike v' = Some true
  | _, _ => False
  end.
Proof. vm_compute. repeat split. Qed.
Lemma connection_hears_what_was_sent_witness :
  call (greeting ++ concat (send <$> talk) ++ take 9 (send DiscoverNodes)) = talked None /\
  call (greeting ++ concat (send <$> talk) ++ be_bytes 8 (2 ^ 40)) = talked (Some true) /\
  call (take 9 (send DiscoverNodes)) = Ok (node0, ∅, mkVisit [] [] (Some true)).
Proof.
  assert (Hf : (length talk < 3)%nat) by (cbn; lia).
  assert (Hk : (9 < length (send DiscoverNodes))%nat) by (vm_compute; lia).
  rewrite <-(app_nil_r (be_bytes 8 (2 ^ 40))).
  refine (connection_hears_what_was_sent 3 calm (seconds 100) (seconds 100) None ∅ node0 (seconds 100) talk DiscoverNodes 9 (2 ^ 40) []
            _ _ Hf _ Hk _).
  - vm_compute. discriminate.
  - repeat (constructor; [vm_compute; discriminate|]). constructor.
  - vm_compute. discriminate.
  - vm_compute. split; reflexivity.
Defined.
End ToyStart.
