(* ===== verification/Wallets.v ===== *)
(** * Wallets: which outputs the hub spends, and keeping them split

    Models [hub/src/operator_wallet.rs]: the order in which a payment walks the
    outputs of its source, and the plan that splits a large output or sweeps
    dust together when too few outputs can fund a payment on their own; and
    [maintain_wallet] of [hub/src/handlers.rs], which carries the plan out for
    the operator's and the exchange's custody address.

    An output is [(marked, output)] as the node reports it. The sums of values
    are [u64] sums, which panic on overflow. *)

From S2P Require Import Prelude Types Crypto Transaction Spend BoardTypes Exchange Tasks Board Payouts Payments.

Definition DEFAULT_WALLET_OUTPUTS : nat := 24.
Definition MIN_USEFUL_OUTPUT : N := 100000000.

Abbreviation Utxo := (bool * TransactionOutput)%type.

(** The sort key [(Reverse(value), unique_id)] and the key [(value, unique_id)]. *)
Definition larger_first (a b : Utxo) : bool :=
  (value b.2 <? value a.2) || ((value a.2 =? value b.2) && (unique_id a.2 <=? unique_id b.2)).
Definition smaller_first (a b : Utxo) : bool :=
  (value a.2 <? value b.2) || ((value a.2 =? value b.2) && (unique_id a.2 <=? unique_id b.2)).

(** [Iterator::min_by_key] keeps the first of the least, [max_by_key] the last
    of the greatest. *)
Definition min_by {A} (leb : A -> A -> bool) (l : list A) : option A :=
  foldl (fun acc x => match acc with
                      | None => Some x
                      | Some y => if leb y x then Some y else Some x
                      end) None l.
Definition max_by {A} (leb : A -> A -> bool) (l : list A) : option A :=
  foldl (fun acc x => match acc with
                      | None => Some x
                      | Some y => if leb y x then Some x else Some y
                      end) None l.

(** ** Choosing: [ordered_for_payment] *)
Definition covers (needed : N) (e : Utxo) : bool := negb e.1 && (needed <=? value e.2).
Definition best_fit (needed : N) (ordered : list Utxo) : option nat :=
  fst <$> min_by (fun a b : nat * Utxo => smaller_first a.2 b.2)
            (base.filter (fun e : nat * Utxo => covers needed e.2 = true) (imap pair ordered)).
Definition ordered_for_payment (utxos : list Utxo) (total_needed : N) : list Utxo :=
  let ordered := sort_by larger_first utxos in
  match best_fit total_needed ordered with
  | Some index =>
      match ordered !! index with Some chosen => chosen :: delete index ordered | None => ordered end
  | None => ordered
  end.

(** ** Refilling: [ready_outputs], [plan_reshape] *)
Definition useful (e : Utxo) : bool := negb e.1 && (MIN_USEFUL_OUTPUT <=? value e.2).
Definition too_small (e : Utxo) : bool := negb e.1 && (value e.2 <? MIN_USEFUL_OUTPUT).
Definition ready_outputs (utxos : list Utxo) : nat :=
  length (base.filter (fun e => useful e = true) utxos).

Record Reshape := mkReshape { r_inputs : list TransactionOutput; r_shares : list N }.

(** The closures [spendable] and [cut]. *)
Definition spendable {E} (fee : N) (outs : list TransactionOutput) : outcome E N :=
  s ← expect (checked_sum (value <$> outs)); Ok (s - fee).
Definition cut {E} (fee : N) (ins : list TransactionOutput) (pieces : nat) : outcome E Reshape :=
  total ← spendable fee ins;
  let share := total / N.of_nat pieces in
  Ok (mkReshape ins (replicate (pieces - 1) share ++ [total - share * (N.of_nat pieces - 1)])).

Definition dust_of (utxos : list Utxo) : list TransactionOutput :=
  (base.filter (fun e => too_small e = true) utxos).*2.
Definition largest_of (utxos : list Utxo) : option TransactionOutput :=
  snd <$> max_by smaller_first (base.filter (fun e => useful e = true) utxos).

Definition plan_reshape {E} (utxos : list Utxo) (fee : N) (floor : nat) : outcome E (option Reshape) :=
  let ready := ready_outputs utxos in
  if (floor <=? ready)%nat then Ok None
  else
    let wanted := (floor - ready)%nat in
    let dust := dust_of utxos in
    total_dust ← spendable fee dust;
    let from_dust := N.to_nat (total_dust / MIN_USEFUL_OUTPUT) in
    if (1 <=? from_dust)%nat then r ← cut fee dust (Nat.min wanted from_dust); Ok (Some r)
    else
      match largest_of utxos with
      | None => Ok None
      | Some largest =>
          let ins := largest :: dust in
          total ← spendable fee ins;
          let pieces := Nat.min (wanted + 1) (N.to_nat (total / MIN_USEFUL_OUTPUT)) in
          if (pieces <? 2)%nat then Ok None else r ← cut fee ins pieces; Ok (Some r)
      end.

(** ** [maintain_wallet] *)

(** What the exchange owes its customers: their balances, and the withdrawals
    that are debited and not confirmed. *)
Definition owed_to_customers (tb : TaskBoard) : N :=
  sumN (base_balance <$> btree_values (tb_accounts tb)) +
  sumN (debit_of <$> base.filter (fun p => p_status p <> PaymentConfirmed) (btree_values (tb_payments tb))).

Section maintain.
Context `{Primitives}.

(** [inflight] is the wallet's list of inputs of the last fan-out; the node's
    answer [None] is a failed read. The result is the hub and that list. *)
Definition maintain_wallet (custody : bool) (public_key : PublicKey) (private_key : PrivateKey)
    (fresh : nat -> Uuid) (fetched : option (list Utxo)) (floor : nat) (h : Hub) (inflight : list Hash)
    : outcome SpendError (Hub * list Hash) :=
  match fetched with
  | None => Ok (h, inflight)
  | Some utxos =>
      if custody && (sumN (value <$> utxos.*2) <? owed_to_customers (live h) + HUB_TRANSACTION_FEE)
      then Ok (h, inflight)
      else
        let utxos := reserve_inputs (live h) public_key utxos [] in
        if existsb (fun e : Utxo => e.1 && bool_decide (output_hash e.2 ∈ inflight)) utxos
        then Ok (h, inflight)
        else
          plan ← plan_reshape utxos HUB_TRANSACTION_FEE floor;
          match plan with
          | None => Ok (h, [])
          | Some plan =>
              match build_multi_payment fresh (pair false <$> r_inputs plan) private_key
                      (pair public_key <$> r_shares plan) HUB_TRANSACTION_FEE public_key with
              | Ok tx => Ok (submitted h tx, spends tx)
              | Err _ => Ok (h, [])
              | Panic => Panic
              end
          end
  end.

End maintain.

(** * WalletTheorems: what the wallet policy promises

    A payment that one output can fund spends the smallest such output and
    nothing else; a reshape spends free outputs only, pays the wallet back to
    the unit, and raises the number of outputs that can fund a payment without
    passing the floor; the custody wallet pays for its reshapes from surplus. *)

(** ** The least and the greatest of a list *)
Section extrema.
Context {A : Type} (leb : A -> A -> bool).
Context (Htotal : forall x y, leb x y = false -> leb y x = true).
Context (Htrans : forall x y z, leb x y = true -> leb y z = true -> leb x z = true).

Lemma leb_refl x : leb x x = true.
Proof using Htotal. destruct (leb x x) eqn:E; [done|]. by rewrite (Htotal _ _ E) in E. Qed.

Lemma min_by_from l : forall acc m,
  foldl (fun acc x => match acc with
                      | None => Some x
                      | Some y => if leb y x then Some y else Some x
                      end) (Some acc) l = Some m ->
  m ∈ acc :: l /\ forall y, y ∈ acc :: l -> leb m y = true.
Proof using Htotal Htrans.
  induction l as [|x l IH]; intros acc m Hm; cbn in Hm.
  { injection Hm as <-. split; [by left|]. intros y ->%list_elem_of_singleton. apply leb_refl. }
  destruct (leb acc x) eqn:E; apply IH in Hm as [Hin Hle].
  - split; [apply elem_of_cons in Hin as [->|Hin]; [left|by right; right]|].
    assert (Hacc : leb m acc = true) by (apply Hle; by left).
    intros y [->|[->|Hy]%elem_of_cons]%elem_of_cons; [done|by apply (Htrans m acc)|]. apply Hle. by right.
  - split; [by right|]. assert (Hx : leb m x = true) by (apply Hle; by left).
    intros y [->|Hy]%elem_of_cons; [|by apply Hle]. apply (Htrans m x); [done|by apply Htotal].
Qed.

Lemma min_by_spec l m : min_by leb l = Some m -> m ∈ l /\ forall y, y ∈ l -> leb m y = true.
Proof using Htotal Htrans. destruct l as [|x l]; [done|]. apply min_by_from. Qed.

Lemma min_by_none l : min_by leb l = None -> l = [].
Proof using.
  destruct l as [|x l]; [done|]. unfold min_by. cbn. intros Hn. exfalso. revert x Hn.
  induction l as [|y l IH]; intros x; cbn; [done|]. destruct (leb x y); apply IH.
Qed.

Lemma max_by_from l : forall acc m,
  foldl (fun acc x => match acc with
                      | None => Some x
                      | Some y => if leb y x then Some x else Some y
                      end) (Some acc) l = Some m -> m ∈ acc :: l.
Proof using.
  induction l as [|x l IH]; intros acc m Hm; cbn in Hm; [injection Hm as <-; by left|].
  destruct (leb acc x); apply IH in Hm; [by right|].
  apply elem_of_cons in Hm as [->|Hm]; [by left|by right; right].
Qed.

Lemma max_by_elem l m : max_by leb l = Some m -> m ∈ l.
Proof using. destruct l as [|x l]; [done|]. apply max_by_from. Qed.
End extrema.

Lemma smaller_true (a b : Utxo) :
  smaller_first a b = true <->
  value a.2 < value b.2 \/ value a.2 = value b.2 /\ unique_id a.2 <= unique_id b.2.
Proof. unfold smaller_first. by rewrite orb_true_iff, andb_true_iff, N.ltb_lt, N.eqb_eq, N.leb_le. Qed.
Lemma smaller_total (a b : Utxo) : smaller_first a b = false -> smaller_first b a = true.
Proof. rewrite <-not_true_iff_false, !smaller_true. lia. Qed.
Lemma smaller_trans (a b c : Utxo) :
  smaller_first a b = true -> smaller_first b c = true -> smaller_first a c = true.
Proof. rewrite !smaller_true. lia. Qed.
Lemma covers_true needed (e : Utxo) : covers needed e = true <-> e.1 = false /\ needed <= value e.2.
Proof. unfold covers. by rewrite andb_true_iff, negb_true_iff, N.leb_le. Qed.
Lemma useful_true (e : Utxo) : useful e = true <-> e.1 = false /\ MIN_USEFUL_OUTPUT <= value e.2.
Proof. apply covers_true. Qed.
Lemma too_small_true (e : Utxo) : too_small e = true <-> e.1 = false /\ value e.2 < MIN_USEFUL_OUTPUT.
Proof. unfold too_small. by rewrite andb_true_iff, negb_true_iff, N.ltb_lt. Qed.

(** ** Choosing *)
Lemma best_fit_spec needed l i :
  best_fit needed l = Some i ->
  exists e, l !! i = Some e /\ covers needed e = true /\
    forall e', e' ∈ l -> covers needed e' = true -> value e.2 <= value e'.2.
Proof.
  unfold best_fit. intros Hb. apply fmap_Some in Hb as ([i' e] & Hm & ->).
  apply min_by_spec in Hm as [Hin Hle].
  2:{ intros [? x] [? y]. apply smaller_total. }
  2:{ intros [? x] [? y] [? z]. apply smaller_trans. }
  apply list_elem_of_filter in Hin as [Hc Hin]. apply elem_of_lookup_imap in Hin as (k & x & [= -> ->] & Hk).
  exists x. split; [done|]. split; [done|]. intros e' He' Hc'.
  apply list_elem_of_lookup in He' as [j Hj].
  assert (Hs : smaller_first x e' = true).
  { apply (Hle (j, e')). apply list_elem_of_filter. split; [done|].
    apply elem_of_lookup_imap. by exists j, e'. }
  apply smaller_true in Hs. lia.
Qed.

Lemma best_fit_none needed l e : best_fit needed l = None -> e ∈ l -> covers needed e = false.
Proof.
  unfold best_fit. intros Hb He. apply fmap_None, min_by_none in Hb.
  destruct (covers needed e) eqn:Hc; [|done]. exfalso.
  apply list_elem_of_lookup in He as [j Hj].
  assert (Hin : (j, e) ∈ base.filter (fun e : nat * Utxo => covers needed e.2 = true) (imap pair l)).
  { apply list_elem_of_filter. split; [done|]. apply elem_of_lookup_imap. by exists j, e. }
  rewrite Hb in Hin. by apply elem_of_nil in Hin.
Qed.

Lemma ordered_perm utxos needed : ordered_for_payment utxos needed ≡ₚ utxos.
Proof.
  unfold ordered_for_payment. rewrite <-(sort_by_perm larger_first utxos) at 2.
  destruct (best_fit _ _) as [i|]; [|done].
  destruct (sort_by larger_first utxos !! i) as [e|] eqn:E; [|done]. by rewrite <-delete_Permutation.
Qed.

(** With an output that covers the need, the front of the list is the smallest
    such output. *)
Lemma ordered_front utxos needed e :
  e ∈ utxos -> covers needed e = true ->
  exists o rest, ordered_for_payment utxos needed = (false, o) :: rest /\ needed <= value o /\
    value o <= value e.2 /\ (false, o) ∈ utxos /\
    forall e', e' ∈ utxos -> covers needed e' = true -> value o <= value e'.2.
Proof.
  intros He Hc. assert (Hin : forall x, x ∈ utxos <-> x ∈ sort_by larger_first utxos)
    by (intros x; by rewrite sort_by_perm).
  unfold ordered_for_payment. destruct (best_fit needed _) as [i|] eqn:Hb.
  - apply best_fit_spec in Hb as ([m o] & Hi & Hco & Hmin). rewrite Hi.
    apply covers_true in Hco as [Hm Hco]. cbn in Hm, Hco. subst m.
    exists o. eexists. split; [reflexivity|]. split; [lia|]. split; [by apply (Hmin e); [apply Hin|]|].
    split; [apply Hin; by eapply list_elem_of_lookup_2|]. intros e' He'. apply Hmin. by apply Hin.
  - rewrite (best_fit_none _ _ e Hb) in Hc; [done|by apply Hin].
Qed.

(** ** Reshaping *)
Definition total (outs : list TransactionOutput) : N := sumN (value <$> outs).

Lemma filter_free (P : Utxo -> Prop) `{forall e, Decision (P e)} utxos :
  (forall e, P e -> e.1 = false) -> (base.filter P utxos).*2 ⊆+ free_outputs utxos.
Proof.
  intros Hp. induction utxos as [|[m o] l IH]; [done|]. rewrite free_cons, filter_cons.
  case_decide as Hd; [apply Hp in Hd; cbn in Hd; subst m; cbn; by apply submseteq_skip|].
  destruct m; [done|]. by apply submseteq_cons.
Qed.

Lemma dust_free utxos : dust_of utxos ⊆+ free_outputs utxos.
Proof. apply filter_free. by intros e [He _]%too_small_true. Qed.

(** The dust and the useful outputs are disjoint parts of the free ones. *)
Lemma dust_and_useful utxos :
  dust_of utxos ++ (base.filter (fun e => useful e = true) utxos).*2 ≡ₚ free_outputs utxos.
Proof.
  unfold dust_of. induction utxos as [|[m o] l IH]; [done|].
  rewrite free_cons, !filter_cons.
  destruct m; [by do 2 (rewrite decide_False by done)|].
  destruct (N.ltb_spec (value o) MIN_USEFUL_OUTPUT) as [Hlt|Hge].
  - rewrite decide_True by (by apply too_small_true).
    rewrite decide_False by (rewrite useful_true; cbn; lia). cbn. by rewrite IH.
  - rewrite decide_False by (rewrite too_small_true; cbn; lia).
    rewrite decide_True by (by apply useful_true). cbn. by rewrite <-Permutation_middle, IH.
Qed.

Lemma cut_spec {E} fee ins pieces r :
  cut (E := E) fee ins pieces = Ok r -> (0 < pieces)%nat ->
  (pieces <= N.to_nat ((total ins - fee) / MIN_USEFUL_OUTPUT))%nat ->
  r_inputs r = ins /\ length (r_shares r) = pieces /\ sumN (r_shares r) + fee = total ins /\
  Forall (fun s => MIN_USEFUL_OUTPUT <= s) (r_shares r).
Proof.
  unfold cut, spendable. intros Hc Hp Hle. inv_ok.
  match goal with F : checked_sum _ = Some _ |- _ => apply checked_sum_Some in F as [-> _] end. subst.
  fold (total ins) in *. set (t := total ins - fee) in *. cbn [r_inputs r_shares].
  assert (Hpp : N.of_nat pieces <> 0) by lia.
  assert (Ht : MIN_USEFUL_OUTPUT * N.of_nat pieces <= t).
  { pose proof (N.mul_div_le t MIN_USEFUL_OUTPUT). unfold MIN_USEFUL_OUTPUT in *. lia. }
  set (share := t / N.of_nat pieces).
  assert (Hsh : MIN_USEFUL_OUTPUT <= share) by (apply N.div_le_lower_bound; lia).
  assert (Hmul : N.of_nat pieces * share <= t) by (by apply N.mul_div_le).
  split; [done|]. split; [rewrite length_app, length_replicate; cbn; lia|].
  rewrite sumN_app, sumN_replicate. cbn. split; [unfold MIN_USEFUL_OUTPUT in *; nia|].
  apply Forall_app. split; [by apply Forall_replicate|]. constructor; [nia|done].
Qed.

Record reshape_ok (utxos : list Utxo) (fee : N) (floor : nat) (r : Reshape) : Prop := {
  ro_free : r_inputs r ⊆+ free_outputs utxos;
  ro_exact : sumN (r_shares r) + fee = total (r_inputs r);
  ro_useful : Forall (fun s => MIN_USEFUL_OUTPUT <= s) (r_shares r);
  ro_ready : exists used, (used <= 1)%nat /\
    length (base.filter (fun o => MIN_USEFUL_OUTPUT <= value o) (r_inputs r)) = used /\
    (ready_outputs utxos < ready_outputs utxos - used + length (r_shares r) <= floor)%nat
}.

Lemma dust_not_useful utxos :
  base.filter (fun o => MIN_USEFUL_OUTPUT <= value o) (dust_of utxos) = [].
Proof.
  apply elem_of_nil_inv. intros o [Hu Ho]%list_elem_of_filter.
  apply list_elem_of_fmap in Ho as ([m x] & -> & [Hs _]%list_elem_of_filter).
  apply too_small_true in Hs. cbn in *. lia.
Qed.

Lemma plan_reshape_ok {E} utxos fee floor r :
  plan_reshape (E := E) utxos fee floor = Ok (Some r) -> reshape_ok utxos fee floor r.
Proof.
  unfold plan_reshape. destruct (Nat.leb_spec floor (ready_outputs utxos)) as [|Hfl]; [done|]. intros Hp. inv_ok.
  match goal with F : spendable fee (dust_of utxos) = Ok _ |- _ => unfold spendable in F; inv_ok end.
  match goal with F : checked_sum _ = Some _ |- _ => apply checked_sum_Some in F as [-> _] end. subst.
  fold (total (dust_of utxos)) in *.
  destruct (Nat.leb_spec 1 (N.to_nat ((total (dust_of utxos) - fee) / MIN_USEFUL_OUTPUT))) as [Hd|Hd].
  - inv_ok. injection Hp as <-. match goal with F : cut _ _ _ = Ok _ |- _ => apply cut_spec in F as (E1 & E2 & E3 & E4); [|lia..] end.
    split; rewrite ?E1; [apply dust_free|done|done|]. exists O. rewrite dust_not_useful. cbn. rewrite E2. lia.
  - destruct (largest_of utxos) as [o|] eqn:Hl; [|by inv_ok].
    unfold largest_of in Hl. apply fmap_Some in Hl as ([m o'] & Hl & ->). apply max_by_elem in Hl.
    cbn [snd] in *. inv_ok.
    match goal with F : spendable fee (_ :: _) = Ok _ |- _ => unfold spendable in F; inv_ok end.
    match goal with F : checked_sum _ = Some _ |- _ => apply checked_sum_Some in F as [-> _] end. subst.
    fold (total (o' :: dust_of utxos)) in *.
    destruct (Nat.ltb_spec (Nat.min (floor - ready_outputs utxos + 1)
      (N.to_nat ((total (o' :: dust_of utxos) - fee) / MIN_USEFUL_OUTPUT))) 2) as [|Hge]; [done|].
    inv_ok. injection Hp as <-. match goal with F : cut _ _ _ = Ok _ |- _ => apply cut_spec in F as (E1 & E2 & E3 & E4); [|lia..] end.
    assert (Hu : MIN_USEFUL_OUTPUT <= value o')
      by (apply list_elem_of_filter in Hl as [[_ Hl]%useful_true _]; exact Hl).
    apply (list_elem_of_fmap_2 snd) in Hl. cbn in Hl. apply elem_of_Permutation in Hl as [k Hk].
    split; rewrite ?E1; [|done|done|].
    + rewrite <-dust_and_useful, Hk. rewrite <-Permutation_middle. apply submseteq_skip, submseteq_inserts_r. done.
    + exists 1%nat. rewrite filter_cons, decide_True, dust_not_useful by done. cbn [length].
      assert (0 < ready_outputs utxos)%nat; [|lia].
      unfold ready_outputs. apply Permutation_length in Hk. rewrite length_fmap in Hk. cbn in *. lia.
Qed.

Lemma plan_reshape_fits {E} utxos fee floor :
  total (free_outputs utxos) <= U64_MAX -> plan_reshape (E := E) utxos fee floor <> Panic.
Proof.
  intros Hfit.
  assert (Hsub : forall l, l ⊆+ free_outputs utxos -> exists n, spendable (E := E) fee l = Ok n).
  { intros l [k Hk]%submseteq_Permutation. unfold spendable. exists (total l - fee).
    unfold total in Hfit. rewrite Hk, fmap_app, sumN_app in Hfit.
    rewrite checked_sum_spec, (proj2 (N.leb_le _ _)) by lia. done. }
  assert (Hcut : forall l n, l ⊆+ free_outputs utxos -> exists r, cut (E := E) fee l n = Ok r).
  { intros l n [t Ht]%Hsub. unfold cut. rewrite Ht. cbn. eauto. }
  unfold plan_reshape. destruct (_ <=? _)%nat; [done|].
  destruct (Hsub _ (dust_free utxos)) as [t ->]. cbn [mbind outcome_bind].
  destruct (1 <=? _)%nat.
  { edestruct Hcut as [r ->]; [apply dust_free|done]. }
  destruct (largest_of utxos) as [o|] eqn:Hl; [|done].
  assert (Ho : o :: dust_of utxos ⊆+ free_outputs utxos).
  { unfold largest_of in Hl. apply fmap_Some in Hl as (x & Hl & ->). apply max_by_elem in Hl.
    apply (list_elem_of_fmap_2 snd) in Hl. apply elem_of_Permutation in Hl as [k Hk].
    rewrite <-dust_and_useful, Hk, <-Permutation_middle. by apply submseteq_skip, submseteq_inserts_r. }
  destruct (Hsub _ Ho) as [t' ->]. cbn [mbind outcome_bind]. destruct (_ <? 2)%nat; [done|].
  edestruct (Hcut _ (Nat.min (floor - ready_outputs utxos + 1) (N.to_nat (t' / MIN_USEFUL_OUTPUT))) Ho) as [r ->]. done.
Qed.

(** ** Properties *)

(** The order is a rearrangement of the outputs, and a payment that one free output can
    fund selects exactly one output, the smallest that covers it. *)
Theorem payment_spends_best_fit `{Primitives} utxos needed e :
  0 < needed -> e ∈ utxos -> covers needed e = true -> Forall (fun e : Utxo => value e.2 <= U64_MAX) utxos ->
  ordered_for_payment utxos needed ≡ₚ utxos /\
  exists o, (false, o) ∈ utxos /\ needed <= value o /\
    (forall e', e' ∈ utxos -> covers needed e' = true -> value o <= value e'.2) /\
    select needed [] 0 (ordered_for_payment utxos needed) = Ok ([output_hash o], value o).
Proof.
  intros Hn He Hc Hw. split; [apply ordered_perm|].
  destruct (ordered_front utxos needed e He Hc) as (o & rest & -> & Ho & _ & Hin & Hmin).
  exists o. split; [done|]. split; [done|]. split; [done|]. cbn [select].
  rewrite Forall_forall in Hw. specialize (Hw _ Hin). cbn in Hw.
  destruct (N.leb_spec needed 0); [lia|]. rewrite add64_fits by lia. cbn.
  destruct rest as [|[m x] rest]; cbn [select]; [done|]. by rewrite (proj2 (N.leb_le _ _)).
Qed.

(** A planned reshape spends free outputs only, gives the wallet back every unit but the
    fee, in shares that are each useful, and makes strictly more outputs ready without
    exceeding the floor; with values that fit, planning never panics. *)
Theorem reshape_refills utxos fee floor :
  (total (free_outputs utxos) <= U64_MAX -> plan_reshape (E := SpendError) utxos fee floor <> Panic) /\
  forall r, plan_reshape (E := SpendError) utxos fee floor = Ok (Some r) -> reshape_ok utxos fee floor r.
Proof. split; [apply plan_reshape_fits|]. intros r. apply plan_reshape_ok. Qed.

(** Reshaping the custody wallet spends only free outputs, pays all of it but the fee back
    to custody, touches no ledger, and leaves what the address holds at least what the
    exchange owes its customers. *)
Theorem custody_reshape_keeps_backing {P : Primitives} {PL : PrimitiveLaws P} pk key fresh utxos floor h inflight h' l tx :
  maintain_wallet true pk key fresh (Some utxos) floor h inflight = Ok (h', l) ->
  outbox h' = outbox h ++ [tx] ->
  live h' = live h /\ disk h' = disk h /\ l = spends tx /\
  exists spent, spends tx = output_hash <$> spent /\
    spent ⊆+ free_outputs (reserve_inputs (live h) pk utxos []) /\
    Forall (fun o => pubkey o = pk) (outputs tx) /\
    total spent = output_total tx + HUB_TRANSACTION_FEE /\
    owed_to_customers (live h) + total spent <= sumN (value <$> utxos.*2) + output_total tx.
Proof.
  intros Hm Hout. assert (Hne : outbox h' <> outbox h).
  { intros E. rewrite E in Hout. apply (f_equal length) in Hout. rewrite length_app in Hout. cbn in Hout. lia. }
  unfold maintain_wallet in Hm. cbn [andb] in Hm.
  destruct (N.ltb_spec (sumN (value <$> utxos.*2)) (owed_to_customers (live h) + HUB_TRANSACTION_FEE)) as [|Hback];
    [injection Hm as <- <-; done|].
  set (us := reserve_inputs (live h) pk utxos []) in *.
  destruct (existsb _ us); [injection Hm as <- <-; done|]. inv_ok.
  match goal with F : plan_reshape us _ _ = Ok ?p |- _ => destruct p as [plan|]; [apply plan_reshape_ok in F as [R1 R2 R3 R4]|injection Hm as <- <-; done] end.
  destruct (build_multi_payment _ _ _ _ _ _) as [tx0| |] eqn:Eb; [|injection Hm as <- <-; done|done].
  injection Hm as <- <-. cbn in Hout. apply app_inv_head in Hout as [= ->].
  split; [done|]. split; [done|]. split; [done|].
  apply payment_is_exact_and_signed in Eb as (taken & rest & Hfree & Hsp & Hex & Hpay & _).
  assert (Hf : free_outputs (pair false <$> r_inputs plan) = r_inputs plan)
    by (clear; induction (r_inputs plan) as [|o l IH]; [done|]; cbn [fmap list_fmap]; by rewrite free_cons, IH).
  rewrite Hf in Hfree. exists taken. split; [done|]. split; [|split; [|split; [done|]]].
  - etrans; [|exact R1]. rewrite Hfree. by apply submseteq_inserts_r.
  - apply Forall_forall. intros o Ho.
    apply (list_elem_of_fmap_2 (fun o => (pubkey o, value o))) in Ho. rewrite Hpay in Ho.
    apply elem_of_app in Ho as [(x & [= -> _] & _)%list_elem_of_fmap|Ho]; [done|].
    case_match; [apply list_elem_of_singleton in Ho; by injection Ho as ->|by apply elem_of_nil in Ho].
  - unfold total. rewrite Hex. lia.
Qed.

Module ToyWallet.
Import Toy.

(** Three coins free, one spoken for; a payment of 150 million base units. *)
Definition coin (v id : N) : TransactionOutput := mkOutput v id [7].
Definition wallet : list Utxo :=
  [(false, coin 500000000 1); (true, coin 160000000 2); (false, coin 200000000 3); (false, coin 40000000 4)].

Lemma payment_spends_best_fit_witness :
  exists o, value o = 200000000 /\
    select 150000000 [] 0 (ordered_for_payment wallet 150000000) = Ok ([output_hash o], value o).
Proof.
  destruct (payment_spends_best_fit wallet 150000000 (false, coin 500000000 1)
    ltac:(lia) ltac:(left) ltac:(reflexivity) ltac:(repeat constructor; vm_compute; discriminate))
    as (_ & o & Hin & Hlo & Hmin & Hs).
  exists o. split; [|exact Hs]. assert (Hv : value o <= 200000000) by
    (apply (Hmin (false, coin 200000000 3)); [by right; right; left|reflexivity]).
  unfold wallet in Hin. rewrite !elem_of_cons, elem_of_nil in Hin.
  destruct Hin as [[= ->]|[[=]|[[= ->]|[[= ->]|[]]]]]; cbn in *; [lia|reflexivity|lia].
Defined.

(** One useful output and two that are not: a floor of three splits it. *)
Definition big : list Utxo := [(false, coin 900000000 1); (false, coin 40000000 2); (false, coin 30000000 3)].
Definition hub : Hub := mkHub new_board new_board 0 [].
Definition fanned : Hub * list Hash := Eval vm_compute in
  match maintain_wallet true [7] [7] (fun n => N.of_nat n) (Some big) 3 hub [] with
  | Ok r => r | _ => (hub, []) end.
Definition fan_out : Transaction := Eval vm_compute in
  match outbox fanned.1 with [tx] => tx | _ => mkTransaction [] [] end.

Example fan_out_shares : value <$> outputs fan_out = [323333000; 323333000; 323333000].
Proof. vm_compute. reflexivity. Qed.

Lemma custody_reshape_keeps_backing_witness :
  exists spent, spends fan_out = output_hash <$> spent /\ total spent = output_total fan_out + HUB_TRANSACTION_FEE.
Proof.
  assert (E : maintain_wallet true [7] [7] (fun n => N.of_nat n) (Some big) 3 hub [] = Ok (fanned.1, fanned.2))
    by (vm_compute; reflexivity).
  destruct (custody_reshape_keeps_backing [7] [7] (fun n => N.of_nat n) big 3 hub [] fanned.1 fanned.2 fan_out E
    ltac:(vm_compute; reflexivity)) as (_ & _ & _ & spent & H1 & _ & _ & H2 & _).
  exists spent. split; [exact H1|exact H2].
Defined.

End ToyWallet.
