(* ===== verification/Settlement.v ===== *)
(** * Settlement: paying out tasks and escrows

    Models the settlement half of [hub/src/handlers.rs]: building a payment,
    recording and sending a task's payout, resolving what became of it, sending
    it again or giving up on it, and disbursing an escrow; with the writes of
    [hub/src/store.rs] they make. Definitions only.

    A handler is one step over the [Hub] of [Payments]. The in-flight guards
    ([PAYOUT_IN_FLIGHT], [ESCROW_SETTLEMENT_IN_FLIGHT], [payout_lock]) admit one
    handler at a time for the payout, the escrow or the operator's wallet it
    works on, so a handler finds them free; a copy of an attempt or a deposit
    read earlier is an argument, since the board may have moved on since.

    The node's replies, the clock, fresh ids and whether each write commits are
    arguments. A transaction handed to the node is in the [outbox] whether or
    not the node acknowledged it. *)

From S2P Require Import Prelude Types Crypto Transaction Spend BoardTypes Exchange Tasks Board Payouts Payments Wallets.

(** The hub's keys; [derive] is [EscrowSecret::derive], a third-party key
    derivation. *)
Class HubKeys := {
  operator_private_key : PrivateKey;
  operator_public_key : PublicKey;
  exchange_custody_public_key : PublicKey;
  derive : Uuid -> PrivateKey
}.

(** The [anyhow] errors of the path. *)
Inductive SettleError : Type :=
| NodeUnreachable
| CannotFund (e : SpendError)
| WrongOutput
| NotStored
| NotAcknowledged.

Definition U32_MAX : N := 4294967295.
Definition next32 {E} (n : N) : outcome E N := if n <? U32_MAX then Ok (n + 1) else Panic.

(** ** Writes of [HubStore], each one transaction *)
Definition save_task (commits : bool) (d : TaskBoard) (t : Task) : TaskBoard :=
  if commits then restore_task d t else d.
Definition save_payout_attempt (commits : bool) (d : TaskBoard) (a : PayoutAttempt) : option TaskBoard :=
  if commits then Some (restore_payout_attempt d a) else None.

(** The [for] loop of saves with its early return: the disk, and whether every
    write committed. *)
Fixpoint save_attempts (commits : nat -> bool) (i : nat) (d : TaskBoard) (l : list PayoutAttempt)
    : TaskBoard * bool :=
  match l with
  | [] => (d, true)
  | a :: l' =>
      match save_payout_attempt (commits i) d a with
      | Some d' => save_attempts commits (S i) d' l'
      | None => (d, false)
      end
  end.

Definition save_confirmed_payout (commits : bool) (d : TaskBoard) (t : Task) (recipient : PublicKey)
    (r : Reputation) : option TaskBoard :=
  if commits
  then Some (clear_payout_attempt (restore_reputation (restore_task d t) recipient r) (t_id t) recipient).1
  else None.
Definition save_task_and_drop_payout_attempts (commits : bool) (d : TaskBoard) (t : Task)
    (dropped : list (Uuid * PublicKey)) : option TaskBoard :=
  if commits
  then Some (foldl (fun d k => (clear_payout_attempt d k.1 k.2).1) (restore_task d t) dropped)
  else None.

Section settlement.
Context `{Primitives, HubKeys}.

(** [PendingDeposit::private_key] *)
Definition private_key (d : PendingDeposit) : PrivateKey :=
  match deposit_private_key d with Some stored => stored | None => derive (pd_id d) end.

(** ** Building: [build_payment_from], [build_payment_from_fresh] *)
Definition cannot_fund {A} (r : outcome SpendError A) : outcome SettleError A :=
  match r with Ok a => Ok a | Err e => Err (CannotFund e) | Panic => Panic end.

Definition build_payment_from (tb : TaskBoard) (fetched : option (list Utxo)) (fresh : nat -> Uuid)
    (signing_key : PrivateKey) (source : PublicKey) (recipients : list (PublicKey * N))
    (change : PublicKey) (rebuilding : list (Uuid * PublicKey)) : outcome SettleError Transaction :=
  utxos ← ok_or fetched NodeUnreachable;
  let utxos := reserve_inputs tb source utxos rebuilding in
  amounts ← expect (checked_sum recipients.*2);
  total_needed ← add64 amounts HUB_TRANSACTION_FEE;
  cannot_fund (build_multi_payment fresh (ordered_for_payment utxos total_needed) signing_key recipients
    HUB_TRANSACTION_FEE change).

Definition build_payment_from_fresh (tb : TaskBoard) (fetched : option (list Utxo)) (fresh : nat -> Uuid)
    (signing_key : PrivateKey) (source : PublicKey) (recipients : list (PublicKey * N))
    (change : PublicKey) : outcome SettleError Transaction :=
  build_payment_from tb fetched fresh signing_key source recipients change [].

(** ** Sending a task's payout: [submit_task_payout] *)
Record SubmitEnv := mkSubmitEnv {
  se_utxos : option (list Utxo);
  se_fresh : nat -> Uuid;
  se_now : DateTime;
  se_commits : nat -> bool;
  se_task_commits : bool;
  se_acknowledged : bool
}.

(** The loop over [recipients]: one attempt per leg of the transaction. *)
Definition plan_attempt (tb : TaskBoard) (task_id : Uuid) (source : PublicKey) (now : DateTime)
    (tx : Transaction) (e : nat * (PublicKey * N)) : outcome SettleError PayoutAttempt :=
  let '(index, (recipient, amount)) := e in
  output ← ok_or (o ← outputs tx !! index;
                  if bool_decide (pubkey o = recipient) && (value o =? amount) then Some o else None) WrongOutput;
  n ← next32 (match payout_attempt tb task_id recipient with Some a => pa_submissions a | None => 0 end);
  Ok (mkAttempt task_id recipient amount (output_hash output) (spends tx) source now n (Some tx)).

Fixpoint plan_attempts (tb : TaskBoard) (task_id : Uuid) (source : PublicKey) (now : DateTime)
    (tx : Transaction) (l : list (nat * (PublicKey * N))) : outcome SettleError (list PayoutAttempt) :=
  match l with
  | [] => Ok []
  | e :: l' =>
      a ← plan_attempt tb task_id source now tx e;
      rest ← plan_attempts tb task_id source now tx l';
      Ok (a :: rest)
  end.

(** What is worked out before anything is written. *)
Definition plan_task_payout (env : SubmitEnv) (tb : TaskBoard) (task_id : Uuid) (signing_key : PrivateKey)
    (source : PublicKey) (recipients : list (PublicKey * N)) (change : PublicKey)
    : outcome SettleError (Transaction * list PayoutAttempt) :=
  let rebuilding := (fun r : PublicKey * N => (task_id, r.1)) <$> recipients in
  tx ← build_payment_from tb (se_utxos env) (se_fresh env) signing_key source recipients change rebuilding;
  attempts ← plan_attempts tb task_id source (se_now env) tx (imap pair recipients);
  Ok (tx, attempts).

(** The writes and the send. *)
Definition carry_out (env : SubmitEnv) (h : Hub) (task_id : Uuid) (tx : Transaction)
    (attempts : list PayoutAttempt) : Hub * outcome SettleError unit :=
  let '(d, stored) := save_attempts (se_commits env) 0 (disk h) attempts in
  if negb stored then (with_boards h (live h) d, Err NotStored)
  else
    let l := foldl record_payout_attempt (live h) attempts in
    let d := match tb_tasks l !! task_id with
             | Some t => save_task (se_task_commits env) d t
             | None => d
             end in
    (submitted (with_boards h l d) tx, guard_ok (se_acknowledged env) NotAcknowledged).

Definition submit_task_payout (env : SubmitEnv) (h : Hub) (task_id : Uuid) (signing_key : PrivateKey)
    (source : PublicKey) (recipients : list (PublicKey * N)) (change : PublicKey)
    : Hub * outcome SettleError unit :=
  match plan_task_payout env (live h) task_id signing_key source recipients change with
  | Ok (tx, attempts) => carry_out env h task_id tx attempts
  | Err e => (h, Err e)
  | Panic => (h, Panic)
  end.

(** [submit_bounty_payout] *)
Definition submit_bounty_payout (env : SubmitEnv) (h : Hub) (task_id : Uuid) (recipient : PublicKey)
    (amount : N) : Hub * outcome SettleError unit :=
  submit_task_payout env h task_id operator_private_key operator_public_key [(recipient, amount)]
    operator_public_key.

(** A failure is logged and reported as [false]. *)
Definition reported (r : Hub * outcome SettleError unit) : outcome SettleError (Hub * bool) :=
  match r with
  | (h, Ok _) => Ok (h, true)
  | (h, Err _) => Ok (h, false)
  | (_, Panic) => Panic
  end.

(** [settle_one_payout] with [settle_one_payout_inner] *)
Definition settle_one_payout (env : SubmitEnv) (h : Hub) (task_id : Uuid) (recipient : PublicKey) (amount : N)
    : outcome SettleError (Hub * bool) :=
  match tb_tasks (live h) !! task_id with
  | None => Ok (h, false)
  | Some t =>
      if is_recipient_paid t recipient then Ok (h, true)
      else match payout_attempt (live h) task_id recipient with
           | Some _ => Ok (h, true)
           | None => reported (submit_bounty_payout env h task_id recipient amount)
           end
  end.

(** [settle_escrow_funded_task] *)
Definition settle_escrow_funded_task (env : SubmitEnv) (h : Hub) (task_id : Uuid) (deposit : PendingDeposit)
    : outcome SettleError (Hub * bool) :=
  match tb_tasks (live h) !! task_id with
  | None => Ok (h, false)
  | Some t =>
      match owed_payouts t with
      | [] => Ok (h, true)
      | still_owed =>
          reported (submit_task_payout env h task_id (private_key deposit) (deposit_pubkey deposit)
                      still_owed (depositor deposit))
      end
  end.

(** The escrow behind a task, if it has one on the board. *)
Definition funding (tb : TaskBoard) (t : Task) : option PendingDeposit :=
  e ← escrow_id t; tb_deposits tb !! e.

(** The loop over an operator-funded task's payouts; [env] gives each its own
    environment. *)
Definition settle_each (env : nat -> SubmitEnv) (task_id : Uuid) (acc : Hub * bool) (e : nat * (PublicKey * N))
    : outcome SettleError (Hub * bool) :=
  '(h, ok) ← settle_one_payout (env e.1) acc.1 task_id e.2.1 e.2.2;
  Ok (h, ok && acc.2).

(** [try_settle_verified_task] *)
Definition try_settle_verified_task (env : nat -> SubmitEnv) (h : Hub) (task_id : Uuid)
    : outcome SettleError (Hub * bool) :=
  match tb_tasks (live h) !! task_id with
  | None => Ok (h, false)
  | Some t =>
      if negb (is_settling (status t)) then Ok (h, false)
      else
        match unsubmitted_payouts (live h) task_id with
        | [] => Ok (h, false)
        | payouts =>
            if decide (status t = Submitted) then Ok (h, false)
            else match funding (live h) t with
                 | Some deposit => settle_escrow_funded_task (env 0%nat) h task_id deposit
                 | None => ofold (settle_each env task_id) (h, true) (imap pair payouts)
                 end
        end
  end.

(** ** Resolving a payout *)

(** [record_confirmed_payout] *)
Definition record_confirmed_payout (commits : bool) (now : DateTime) (h : Hub) (task_id : Uuid)
    (recipient : PublicKey) (amount : N) : outcome SettleError (Hub * bool) :=
  let tb := live h in
  match mark_recipient_paid tb task_id recipient amount now with
  | Panic => Panic
  | Err _ => Ok (h, false)
  | Ok (tb1, _) =>
      let tb2 := (clear_payout_attempt tb1 task_id recipient).1 in
      final_task ← expect (tb_tasks tb2 !! task_id);
      match save_confirmed_payout commits (disk h) final_task recipient (reputation tb2 recipient) with
      | Some d => Ok (with_boards h tb2 d, true)
      | None =>
          let tb3 := match tb_tasks tb !! task_id with Some t => restore_task tb2 t | None => tb2 end in
          let tb3 := restore_reputation tb3 recipient (reputation tb recipient) in
          let tb3 := restore_exchange_account tb3 recipient (exchange_account tb recipient) in
          let tb3 := match payout_attempt tb task_id recipient with
                     | Some a => restore_payout_attempt tb3 a | None => tb3 end in
          Ok (with_boards h tb3 (disk h), false)
      end
  end.

(** [abandon_payout] *)
Definition abandon_payout (commits : bool) (h : Hub) (a : PayoutAttempt) : outcome SettleError Hub :=
  let tb := live h in
  match mark_payout_failed tb (pa_task_id a) with
  | Panic => Panic
  | Err _ => Ok h
  | Ok (tb1, dropped) =>
      failed_task ← expect (tb_tasks tb1 !! pa_task_id a);
      let dropped_keys := (fun a => (pa_task_id a, pa_recipient a)) <$> dropped in
      match save_task_and_drop_payout_attempts commits (disk h) failed_task dropped_keys with
      | Some d => Ok (with_boards h tb1 d)
      | None =>
          let tb2 := match tb_tasks tb !! pa_task_id a with Some t => restore_task tb1 t | None => tb1 end in
          Ok (with_boards h (foldl restore_payout_attempt tb2 dropped) (disk h))
      end
  end.

(** The bump of a leg that is sent again. *)
Definition bump (now : DateTime) (a : PayoutAttempt) : outcome SettleError PayoutAttempt :=
  n ← next32 (pa_submissions a);
  Ok (mkAttempt (pa_task_id a) (pa_recipient a) (pa_amount a) (pa_output_hash a) (pa_spent_inputs a)
        (pa_source a) now n (pa_transaction a)).
Fixpoint bump_all (now : DateTime) (l : list PayoutAttempt) : outcome SettleError (list PayoutAttempt) :=
  match l with
  | [] => Ok []
  | a :: l' => b ← bump now a; rest ← bump_all now l'; Ok (b :: rest)
  end.

(** [resend_lost_payout] *)
Definition resend_lost_payout (env : SubmitEnv) (h : Hub) (a : PayoutAttempt) : outcome SettleError Hub :=
  match tb_tasks (live h) !! pa_task_id a with
  | None => Ok h
  | Some t =>
      if negb (bool_decide (payout_attempt (live h) (pa_task_id a) (pa_recipient a) = Some a)) then Ok h
      else
        match pa_transaction a with
        | Some tx =>
            let legs := base.filter (fun leg => pa_transaction leg = Some tx)
                          (payout_attempts_for_task (live h) (pa_task_id a)) in
            next ← bump_all (se_now env) legs;
            let '(d, stored) := save_attempts (se_commits env) 0 (disk h) next in
            if negb stored then Ok (with_boards h (live h) d)
            else Ok (submitted (with_boards h (foldl record_payout_attempt (live h) next) d) tx)
        | None =>
            '(h', _) ← match funding (live h) t with
                       | Some deposit => settle_escrow_funded_task env h (pa_task_id a) deposit
                       | None => reported (submit_bounty_payout env h (pa_task_id a) (pa_recipient a) (pa_amount a))
                       end;
            Ok h'
        end
  end.

(** [resolve_payout_attempt] of a copy [a] of an attempt. *)
Record ResolveEnv := mkResolveEnv {
  re_recipient : option (list Utxo);
  re_source : option (list Utxo);
  re_commits : bool;
  re_now : DateTime;
  re_submit : SubmitEnv
}.
Definition resolve_payout_attempt (env : ResolveEnv) (h : Hub) (a : PayoutAttempt)
    : outcome SettleError (Hub * bool) :=
  match re_recipient env, re_source env with
  | Some recipient_utxos, Some source_utxos =>
      match attempt_resolve a recipient_utxos source_utxos with
      | Confirmed =>
          if negb (bool_decide (payout_attempt (live h) (pa_task_id a) (pa_recipient a) = Some a))
          then Ok (h, false)
          else record_confirmed_payout (re_commits env) (re_now env) h (pa_task_id a) (pa_recipient a) (pa_amount a)
      | NeverLanded =>
          if MAX_PAYOUT_SUBMISSIONS <=? pa_submissions a
          then h' ← abandon_payout (re_commits env) h a; Ok (h', true)
          else h' ← resend_lost_payout (re_submit env) h a; Ok (h', false)
      | HeldInMempool | Ambiguous => Ok (h, false)
      end
  | _, _ => Ok (h, false)
  end.

(** ** Disbursing an escrow *)
Record DisburseEnv := mkDisburseEnv {
  de_balance : option N;
  de_utxos : option (list Utxo);
  de_fresh : nat -> Uuid;
  de_id : Uuid;
  de_now1 : DateTime;
  de_now2 : DateTime;
  de_commits : bool
}.

Definition confirmed_amount (p : Payment) : option N :=
  if decide (p_status p = PaymentConfirmed) then Some (p_amount p) else None.

(** [disburse_escrow] of a copy [deposit] of a deposit; [forfeited] is
    [EscrowCredit::ForfeitedBond]. *)
Definition disburse_escrow (env : DisburseEnv) (h : Hub) (deposit : PendingDeposit) (recipient : PublicKey)
    (forfeited : bool) : outcome SettleError (Hub * option N) :=
  match head (base.filter (fun p => escrow_of p = Some (pd_id deposit)) (btree_values (tb_payments (live h)))) with
  | Some p => Ok (h, confirmed_amount p)
  | None =>
      match tb_deposits (live h) !! pd_id deposit with
      | None => Ok (h, None)
      | Some current =>
          if decide (pd_status current = Refunded) then Ok (h, Some 0)
          else if negb (bool_decide (pd_status current = pd_status deposit)) then Ok (h, None)
          else
            match de_balance env with
            | None => Ok (h, None)
            | Some balance =>
                let amount := balance - HUB_TRANSACTION_FEE in
                let built := if 0 <? amount
                             then tx ← build_payment_from_fresh (live h) (de_utxos env) (de_fresh env)
                                         (private_key deposit) (deposit_pubkey deposit)
                                         [(recipient, amount)] recipient;
                                  Ok (Some tx)
                             else Ok None in
                match built with
                | Panic => Panic
                | Err _ => Ok (h, None)
                | Ok tx =>
                    let payment := payment_new (de_id env) (de_now1 env) (de_now2 env)
                      (Escrow (pd_id deposit) forfeited (pd_status deposit)) (deposit_pubkey deposit) recipient
                      amount tx in
                    match prepare (de_commits env) h payment with
                    | Panic => Panic
                    | Err _ => Ok (h, None)
                    | Ok (h1, payment) =>
                        h2 ← match send (de_commits env) h1 payment with
                             | Ok h2 => Ok h2 | Err _ => Ok h1 | Panic => Panic end;
                        p ← expect (tb_payments (live h2) !! p_id payment);
                        Ok (h2, if decide (p_status p = PaymentConfirmed) then Some (p_amount payment) else None)
                    end
                end
            end
      end
  end.

(** [refund_escrow], [refund_closed_task_escrow] *)
Definition refund_escrow (env : DisburseEnv) (h : Hub) (deposit : PendingDeposit) : outcome SettleError Hub :=
  '(h', _) ← disburse_escrow env h deposit (depositor deposit) false; Ok h'.
Definition refund_closed_task_escrow (env : DisburseEnv) (h : Hub) (task_id : Uuid) : outcome SettleError Hub :=
  match escrow_for_task (live h) task_id with
  | Some deposit => refund_escrow env h deposit
  | None => Ok h
  end.

(** [settle_dispute_bond] *)
Definition settle_dispute_bond (env : DisburseEnv) (h : Hub) (task_id : Uuid) : outcome SettleError (Hub * bool) :=
  match tb_tasks (live h) !! task_id with
  | None => Ok (h, true)
  | Some t =>
      match kind t with
      | Disputable f =>
          match dispute f with
          | Some d =>
              match d_resolution d with
              | None => Ok (h, true)
              | Some res =>
                  match tb_deposits (live h) !! d_bond_escrow_id d with
                  | None => Ok (h, true)
                  | Some bond =>
                      if negb (bool_decide (pd_status bond = Consumed)) then Ok (h, true)
                      else
                        match (match res with
                               | ChallengerWins => Some (d_challenger d)
                               | AssigneeWins => claimant t
                               end) with
                        | None => Ok (h, false)
                        | Some winner =>
                            '(h', paid) ← disburse_escrow env h bond winner
                                            (match res with AssigneeWins => true | ChallengerWins => false end);
                            Ok (h', match paid with Some _ => true | None => false end)
                        end
                  end
              end
          | None => Ok (h, true)
          end
      | _ => Ok (h, true)
      end
  end.

(** [sweep_exchange_deposit] *)
Definition sweep_exchange_deposit (env : DisburseEnv) (h : Hub) (deposit_id : Uuid)
    : outcome SettleError (Hub * bool) :=
  match tb_deposits (live h) !! deposit_id with
  | Some d =>
      if is_exchange_deposit d &&
         (bool_decide (pd_status d = Consumed) || bool_decide (pd_status d = Disbursing))
      then
        '(h', paid) ← disburse_escrow env h d exchange_custody_public_key false;
        Ok (h', match paid with Some _ => true | None => false end)
      else Ok (h, true)
  | None => Ok (h, true)
  end.

End settlement.
