(* ===== verification/SettleInv.v ===== *)
(** * SettleInv: what settlement keeps true of the live board and the disk

    The payout attempts on the live board and on disk name the same
    transactions ([settle_ok]); the lemmas of this file follow the writes of
    [Settlement] one by one. *)

From S2P Require Import Prelude Types Crypto Transaction Spend BoardTypes Exchange Tasks Board Payouts BoardInv BoardStep PayoutStep BoardTheorems Payments Wallets Settlement.

(** ** Histories *)
Lemma history_refl t : history t t.
Proof. by split. Qed.

Lemma evolves_to_history t t' : evolves t t' -> history t t'.
Proof. intros H. eapply evolves_history; [done|apply history_refl]. Qed.

Lemma history_settled t t' : history t t' -> settled (status t) = true -> settled (status t') = true.
Proof. intros H. apply settled_steps, H. Qed.

Lemma history_trans t1 t2 t3 : history t1 t2 -> history t2 t3 -> history t1 t3.
Proof.
  intros H1 H2. split.
  - by rewrite (h_bounty _ _ H2), (h_bounty _ _ H1).
  - by rewrite (h_poster _ _ H2), (h_poster _ _ H1).
  - by rewrite (h_escrow _ _ H2), (h_escrow _ _ H1).
  - etrans; [apply H1|apply H2].
  - intros Hs. rewrite (h_alloc _ _ H2), (h_alloc _ _ H1); [done..|by eapply history_settled].
  - intros r Hr. by apply H2, H1.
Qed.

Lemma history_failed t t' : history t t' -> status t = PayoutFailed -> status t' = PayoutFailed.
Proof.
  intros H Hs. pose proof (h_status _ _ H) as Hst. rewrite Hs in Hst.
  destruct (rtc_inv _ _ Hst) as [E|(s & Hn & _)]; [done|]. by apply terminal_no_step in Hn; [|set_solver].
Qed.

Lemma elem_of_owed t r x :
  (r, x) ∈ owed_payouts t <-> (r, x) ∈ allocated_payouts t /\ is_recipient_paid t r = false.
Proof. unfold owed_payouts. rewrite list_elem_of_filter. cbn. tauto. Qed.

(** Once the payouts are fixed, a history without a payment owes the same. *)
Lemma owed_same t t' r x :
  history t t' -> settled (status t) = true ->
  (forall q, is_recipient_paid t' q = true -> is_recipient_paid t q = true) ->
  (r, x) ∈ owed_payouts t <-> (r, x) ∈ owed_payouts t'.
Proof.
  intros Hh Hs Hp. rewrite !elem_of_owed, (h_alloc _ _ Hh Hs).
  assert (is_recipient_paid t' r = is_recipient_paid t r) as ->; [|done].
  apply eq_true_iff_eq. split; [apply Hp|apply Hh].
Qed.

(** ** Tables of attempts *)
Abbreviation leg_key a := (pa_task_id a, pa_recipient a).
Definition put_attempts (l : list PayoutAttempt) (m : gmap (Uuid * PublicKey) PayoutAttempt) :=
  foldl (fun m a => <[leg_key a := a]> m) m l.

(** The transaction recorded for a leg. *)
Definition sent_tx (tb : TaskBoard) (k : Uuid * PublicKey) : option (option Transaction) :=
  pa_transaction <$> tb_attempts tb !! k.

Definition attempts_ok (tb : TaskBoard) : Prop :=
  forall k a, tb_attempts tb !! k = Some a -> leg_key a = k /\ is_Some (pa_transaction a).

Lemma put_attempts_lookup l : forall m k,
  (put_attempts l m !! k = m !! k /\ k ∉ (fun a => leg_key a) <$> l) \/
  exists a, a ∈ l /\ leg_key a = k /\ put_attempts l m !! k = Some a.
Proof.
  induction l as [|b l IH]; intros m k; [left; split; [done|apply not_elem_of_nil]|].
  cbn [put_attempts foldl]. destruct (IH (<[leg_key b := b]> m) k) as [[E Hk]|(a & Ha & Hk & E)].
  - fold put_attempts in E. destruct (decide (leg_key b = k)) as [<-|Hne].
    + right. exists b. split; [by left|]. split; [done|]. unfold put_attempts in E. rewrite E. apply lookup_insert_eq.
    + left. unfold put_attempts in E. rewrite E, lookup_insert_ne by done. split; [done|].
      rewrite fmap_cons, not_elem_of_cons. done.
  - right. exists a. split; [by right|]. done.
Qed.

Lemma put_attempts_tx l tx m k :
  Forall (fun a => pa_transaction a = Some tx) l ->
  pa_transaction <$> put_attempts l m !! k =
  if decide (k ∈ (fun a => leg_key a) <$> l) then Some (Some tx) else pa_transaction <$> m !! k.
Proof.
  intros Hl. rewrite Forall_forall in Hl. destruct (put_attempts_lookup l m k) as [[E Hk]|(a & Ha & <- & E)].
  - by rewrite decide_False, E.
  - rewrite decide_True, E; [cbn; by rewrite (Hl a Ha)|]. apply list_elem_of_fmap. eauto.
Qed.

Lemma put_attempts_ok l tb tb' :
  tb_attempts tb' = put_attempts l (tb_attempts tb) ->
  Forall (fun a => is_Some (pa_transaction a)) l -> attempts_ok tb -> attempts_ok tb'.
Proof.
  intros E Hl Hok k a Ha. rewrite E in Ha. rewrite Forall_forall in Hl.
  destruct (put_attempts_lookup l (tb_attempts tb) k) as [[E' _]|(b & Hb & <- & E')]; rewrite E' in Ha; [auto|].
  injection Ha as <-. auto.
Qed.

(** ** The writes *)
Lemma save_attempts_spec commits l : forall i d d' b,
  save_attempts commits i d l = (d', b) ->
  exists n, tb_tasks d' = tb_tasks d /\ tb_deposits d' = tb_deposits d /\
    tb_attempts d' = put_attempts (take n l) (tb_attempts d) /\
    (b = true -> n = length l) /\ (b = false -> exists m, (m < length l)%nat /\ commits (i + m)%nat = false /\ n = m).
Proof.
  induction l as [|a l IH]; intros i d d' b; cbn; [intros [= <- <-]; exists 0%nat; done|].
  unfold save_payout_attempt. destruct (commits i) eqn:Ei.
  - intros Hs. destruct (IH _ _ _ _ Hs) as (n & E1 & E2 & E3 & E4 & E5). exists (S n). split; [done|].
    split; [done|]. split; [done|]. split; [intros Hb; by rewrite E4|].
    intros Hb. destruct (E5 Hb) as (m & Hm & Hc & ->). exists (S m). split; [lia|]. split; [|done].
    by rewrite Nat.add_succ_r.
  - intros [= <- <-]. exists 0%nat. do 3 (split; [done|]). split; [done|]. intros _. exists 0%nat.
    rewrite Nat.add_0_r. split; [lia|done].
Qed.

(** The writes of the legs commit together. *)
Definition together (commits : nat -> bool) (n : nat) : Prop :=
  forall i, (i < n)%nat -> commits i = commits 0%nat.

(** The same of any number of records: none of a payout's writes is torn. *)
Definition all_or_none (commits : nat -> bool) : Prop := forall i, commits i = commits 0%nat.
Lemma all_or_none_together commits n : all_or_none commits -> together commits n.
Proof. by intros Hc i _. Qed.

Lemma save_together commits l d d' b :
  together commits (length l) -> save_attempts commits 0 d l = (d', b) ->
  (b = false /\ d' = d) \/
  (b = true /\ tb_tasks d' = tb_tasks d /\ tb_deposits d' = tb_deposits d /\
     tb_attempts d' = put_attempts l (tb_attempts d)).
Proof.
  intros Ht Hs. destruct (save_attempts_spec _ _ _ _ _ _ Hs) as (n & E1 & E2 & E3 & E4 & E5). destruct b.
  - right. rewrite E4 in E3 by done. by rewrite firstn_all in E3.
  - left. split; [done|]. destruct (E5 eq_refl) as (m & Hm & Hc & ->). rewrite Ht in Hc by done.
    destruct l as [|a l]; [cbn in Hm; lia|]. cbn in Hs. unfold save_payout_attempt in Hs. rewrite Hc in Hs. congruence.
Qed.

Lemma record_attempt_paid tb a id t t' r :
  tb_tasks tb !! id = Some t -> tb_tasks (record_payout_attempt tb a) !! id = Some t' ->
  is_recipient_paid t' r = true -> is_recipient_paid t r = true.
Proof.
  unfold record_payout_attempt. intros Ht. case_match; [|cbn; congruence].
  cbn. destruct (tb_tasks tb !! pa_task_id a) as [u|] eqn:Eu; cbn; [|congruence].
  case_decide as Hs; [|cbn; congruence]. cbn. destruct (decide (pa_task_id a = id)) as [<-|Hne].
  - rewrite lookup_insert_eq. intros [= <-]. replace u with t in * by congruence.
    unfold is_recipient_paid. cbn. rewrite Hs. destruct (kind t) as [|c|d]; [done..|]. by destruct (answers d).
  - rewrite lookup_insert_ne by done. congruence.
Qed.

(** ** The invariant *)

(** An escrow is spent by one transaction: all its owed legs have an attempt, or
    none has. *)
Definition uniform (tb : TaskBoard) : Prop :=
  forall id t r x r' x', tb_tasks tb !! id = Some t -> is_Some (escrow_id t) -> settled (status t) = true ->
    (r, x) ∈ owed_payouts t -> (r', x') ∈ owed_payouts t ->
    is_Some (sent_tx tb (id, r)) -> is_Some (sent_tx tb (id, r')).

Record settle_ok (l d : TaskBoard) : Prop := {
  so_live : board_wf l;
  so_disk : board_wf d;
  so_history : forall id td, tb_tasks d !! id = Some td -> exists tl, tb_tasks l !! id = Some tl /\ history td tl;
  so_paid : forall id td tl r, tb_tasks d !! id = Some td -> tb_tasks l !! id = Some tl ->
    is_recipient_paid tl r = true -> is_recipient_paid td r = true;
  so_agree : forall k, sent_tx l k = sent_tx d k;
  so_live_attempts : attempts_ok l;
  so_disk_attempts : attempts_ok d;
  so_settled : forall k, is_Some (sent_tx d k) ->
    exists td, tb_tasks d !! k.1 = Some td /\ settled (status td) = true;
  so_live_funded : funded l;
  so_disk_funded : funded d;
  so_uniform : uniform l
}.

(** A board with nothing in flight, on disk as it is live. *)
Lemma settle_ok_start tb : board_wf tb -> funded tb -> tb_attempts tb = ∅ -> settle_ok tb tb.
Proof.
  intros Hwf Hf Ha. assert (Hn : forall k, sent_tx tb k = None) by (intros k; unfold sent_tx; by rewrite Ha).
  assert (Hok : attempts_ok tb) by (intros k a; rewrite Ha; done).
  assert (Hno : forall k, is_Some (sent_tx tb k) -> False) by (intros k; rewrite Hn; by intros [? ?]).
  split; try done.
  - intros id td Htd. exists td. split; [done|apply history_refl].
  - congruence.
  - intros k Hk. by apply Hno in Hk.
  - intros id t r x r' x' _ _ _ _ _ Hk. by apply Hno in Hk.
Qed.

(** A board that moved on without recording a payment. *)
Record quiet (l l' : TaskBoard) : Prop := {
  q_wf : board_wf l';
  q_tasks : forall id t, tb_tasks l !! id = Some t -> exists t', tb_tasks l' !! id = Some t' /\ history t t';
  q_paid : forall id t t' r, tb_tasks l !! id = Some t -> tb_tasks l' !! id = Some t' ->
    is_recipient_paid t' r = true -> is_recipient_paid t r = true
}.

Lemma quiet_same l l' : board_wf l -> tb_tasks l' = tb_tasks l -> quiet l l'.
Proof.
  intros Hwf E. split; [by unfold board_wf; rewrite E| |]; rewrite E; [|congruence].
  intros id t Ht. exists t. split; [done|apply history_refl].
Qed.

Lemma quiet_trans l1 l2 l3 : quiet l1 l2 -> quiet l2 l3 -> quiet l1 l3.
Proof.
  intros [W1 T1 P1] [W2 T2 P2]. split; [done| |].
  - intros id t Ht. destruct (T1 id t Ht) as (t' & Ht' & H1). destruct (T2 id t' Ht') as (t'' & Ht'' & H2).
    exists t''. split; [done|by eapply history_trans].
  - intros id t t3 r Ht Ht3 Hp. destruct (T1 id t Ht) as (t2 & Ht2 & _).
    eapply P1; [done|exact Ht2|]. by eapply P2.
Qed.

Lemma quiet_attempts l : forall tb, board_wf tb ->
  quiet tb (foldl record_payout_attempt tb l) /\
  tb_attempts (foldl record_payout_attempt tb l) = put_attempts l (tb_attempts tb) /\
  tb_deposits (foldl record_payout_attempt tb l) = tb_deposits tb.
Proof.
  induction l as [|a l IH]; intros tb Hwf; cbn [foldl]; [split; [by apply quiet_same|done]|].
  destruct (record_payout_attempt_keeps tb a Hwf) as [Hwf1 Hev].
  assert (Hq : quiet tb (record_payout_attempt tb a)).
  { split; [done| |].
    - intros id t Ht. destruct (Hev id t Ht) as (t' & Ht' & E). exists t'. split; [done|by apply evolves_to_history].
    - intros id t t' r Ht Ht'. by eapply record_attempt_paid. }
  assert (Ha : tb_attempts (record_payout_attempt tb a) = <[leg_key a := a]> (tb_attempts tb) /\
               tb_deposits (record_payout_attempt tb a) = tb_deposits tb).
  { unfold record_payout_attempt. repeat case_match; done. }
  destruct (IH _ Hwf1) as (Hq' & E1 & E2). split; [by eapply quiet_trans|].
  destruct Ha as [Ha Hd]. rewrite E1, E2, Ha, Hd. done.
Qed.

Section moves.
Context (l d l' d' : TaskBoard) (Hok : settle_ok l d).

(** The boards moved on and, for the task [id], the legs [rs] were recorded
    with [tx]. *)
Lemma settle_ok_move id tx rs :
  quiet l l' -> attempts_ok l' -> attempts_ok d' -> funded l' -> funded d' ->
  (forall i, tb_tasks d' !! i = tb_tasks d !! i \/ tb_tasks d' !! i = tb_tasks l' !! i) ->
  (forall k, sent_tx l' k = if decide (k.1 = id /\ k.2 ∈ rs) then Some (Some tx) else sent_tx l k) ->
  (forall k, sent_tx d' k = if decide (k.1 = id /\ k.2 ∈ rs) then Some (Some tx) else sent_tx d k) ->
  (rs = [] \/ exists td tl, tb_tasks d !! id = Some td /\ settled (status td) = true /\
     tb_tasks l !! id = Some tl /\
     (is_Some (escrow_id tl) -> forall r x, (r, x) ∈ owed_payouts tl -> r ∈ rs)) ->
  settle_ok l' d'.
Proof.
  intros Hq Hl' Hd' Hfl Hfd Htask Hsl Hsd Hlegs. destruct Hok as [K1 K2 K3 K4 K5 K6 K7 K8 K9 K10 K11].
  (* a task on the new disk is one of the old disk or the live one *)
  assert (Hmono : forall i td, tb_tasks d !! i = Some td ->
            exists td', tb_tasks d' !! i = Some td' /\ history td td').
  { intros i td Hi. destruct (Htask i) as [E|E]; rewrite E; [exists td; split; [done|apply history_refl]|].
    destruct (K3 i td Hi) as (tl & Htl & H1). destruct (q_tasks _ _ Hq i tl Htl) as (tl' & Htl' & H2).
    exists tl'. split; [done|by eapply history_trans]. }
  assert (Hset : forall k, is_Some (sent_tx d k) \/ (k.1 = id /\ k.2 ∈ rs) ->
            exists td, tb_tasks d !! k.1 = Some td /\ settled (status td) = true).
  { intros k [Hk|[Hk Hr]]; [by apply K8|]. destruct Hlegs as [->|(td & tl & Htd & Hs & _)]; [by apply not_elem_of_nil in Hr|].
    subst id. eauto. }
  split; try done.
  - apply Hq.
  - intros i t Hi. destruct (Htask i) as [E|E]; rewrite E in Hi; [by apply K2|by apply (q_wf _ _ Hq)].
  - intros i td Hi. destruct (Htask i) as [E|E]; rewrite E in Hi; [|exists td; split; [done|apply history_refl]].
    destruct (K3 i td Hi) as (tl & Htl & H1). destruct (q_tasks _ _ Hq i tl Htl) as (tl' & Htl' & H2).
    exists tl'. split; [done|by eapply history_trans].
  - intros i td tl r Hi Hl Hp. destruct (Htask i) as [E|E]; rewrite E in Hi; [|congruence].
    destruct (K3 i td Hi) as (t0 & Ht0 & _). eapply K4; [done..|]. by eapply (q_paid _ _ Hq).
  - intros k. rewrite Hsl, Hsd. case_decide; [done|apply K5].
  - intros k Hk. rewrite Hsd in Hk.
    destruct (Hset k) as (td & Htd & Hs); [case_decide; [by right|by left]|].
    destruct (Hmono _ _ Htd) as (td' & Htd' & Hh). exists td'. split; [done|by eapply history_settled].
  - (* uniform *)
    intros i t' r x r' x' Ht' Hesc Hst Hr Hr' Hs. rewrite Hsl in Hs |- *. cbn in *.
    destruct (Hset (i, r)) as (td & Htd & Hstd); [case_decide; [by right|left; by rewrite <-K5]|]. cbn in Htd.
    destruct (K3 i td Htd) as (tl & Htl & Hh). assert (Hstl : settled (status tl) = true) by (by eapply history_settled).
    destruct (q_tasks _ _ Hq i tl Htl) as (t2 & Ht2 & Hh2). replace t2 with t' in * by congruence.
    assert (Hp : forall q, is_recipient_paid t' q = true -> is_recipient_paid tl q = true) by (intros q; by apply (q_paid _ _ Hq i)).
    rewrite <-(owed_same tl t') in Hr, Hr' by done. rewrite (h_escrow _ _ Hh2) in Hesc.
    case_decide as C1; case_decide as C2; try done.
    + (* one of the recorded legs *)
      destruct C1 as [-> C1]. exfalso. apply C2. split; [done|]. destruct Hlegs as [->|(td2 & tl2 & _ & _ & Htl2 & Hall)].
      { by apply not_elem_of_nil in C1. }
      replace tl2 with tl in * by congruence. by eapply Hall.
    + eapply K11; [exact Htl|done|done|exact Hr|exact Hr'|done].
Qed.

End moves.

(** ** What is decided for a leg: one transaction, until it is paid or given up *)
Definition leg_fixed (d : TaskBoard) (k : Uuid * PublicKey) (tx : Transaction) : Prop :=
  sent_tx d k = Some (Some tx) \/
  (sent_tx d k = None /\ exists td, tb_tasks d !! k.1 = Some td /\
     (is_recipient_paid td k.2 = true \/ status td = PayoutFailed)).

Definition fixes (d d' : TaskBoard) : Prop := forall k tx, leg_fixed d k tx -> leg_fixed d' k tx.

Lemma fixes_refl d : fixes d d.
Proof. by intros k tx. Qed.

Lemma closed_history td td' r :
  history td td' -> is_recipient_paid td r = true \/ status td = PayoutFailed ->
  is_recipient_paid td' r = true \/ status td' = PayoutFailed.
Proof. intros Hh [Hp|Hf]; [left; by apply Hh|right; by eapply history_failed]. Qed.

Lemma move_fixes l d l' d' id tx (rs : list PublicKey) :
  settle_ok l d -> quiet l l' ->
  (forall i, tb_tasks d' !! i = tb_tasks d !! i \/ tb_tasks d' !! i = tb_tasks l' !! i) ->
  (forall k, sent_tx d' k = if decide (k.1 = id /\ k.2 ∈ rs) then Some (Some tx) else sent_tx d k) ->
  (forall r, r ∈ rs -> sent_tx l (id, r) = None /\
     exists tl x, tb_tasks l !! id = Some tl /\ is_settling (status tl) = true /\ (r, x) ∈ owed_payouts tl) ->
  fixes d d'.
Proof.
  intros Hok Hq Htask Hsd Hnew [i r] tx0. unfold leg_fixed. rewrite Hsd. cbn. intros Hf. case_decide as C.
  - destruct C as [-> C]. destruct (Hnew r C) as (Hn & tl & x & Htl & Hs & Ho).
    rewrite (so_agree _ _ Hok) in Hn. destruct Hf as [Hf|(_ & td & Htd & Hc)]; [congruence|].
    destruct (so_history _ _ Hok _ _ Htd) as (tl2 & Htl2 & Hh). replace tl2 with tl in * by congruence.
    apply elem_of_owed in Ho as [_ Ho]. apply (closed_history _ _ _ Hh) in Hc as [Hc|Hc]; [congruence|].
    by rewrite Hc in Hs.
  - destruct Hf as [Hf|(Hn & td & Htd & Hc)]; [by left|right]. split; [done|].
    destruct (Htask i) as [E|E]; rewrite E; [eauto|].
    destruct (so_history _ _ Hok _ _ Htd) as (tl & Htl & Hh). destruct (q_tasks _ _ Hq i tl Htl) as (tl' & Htl' & Hh2).
    exists tl'. split; [done|]. eapply closed_history; [|done]. by eapply history_trans.
Qed.

(** No leg was recorded. *)
Lemma settle_ok_quiet l d l' d' :
  settle_ok l d -> quiet l l' -> attempts_ok l' -> attempts_ok d' -> funded l' -> funded d' ->
  (forall i, tb_tasks d' !! i = tb_tasks d !! i \/ tb_tasks d' !! i = tb_tasks l' !! i) ->
  (forall k, sent_tx l' k = sent_tx l k) -> (forall k, sent_tx d' k = sent_tx d k) ->
  settle_ok l' d' /\ fixes d d'.
Proof.
  intros Hok Hq Al Ad Fl Fd Ht Sl Sd.
  assert (Hsl : forall tb tb' k, sent_tx tb' k = sent_tx tb k ->
    sent_tx tb' k = if decide (k.1 = 0 /\ k.2 ∈ @nil PublicKey) then Some (Some (mkTransaction [] [])) else sent_tx tb k).
  { intros tb tb' k ->. rewrite decide_False; [done|]. intros [_ Hn]. by apply not_elem_of_nil in Hn. }
  split.
  - eapply (settle_ok_move l d); eauto.
  - eapply (move_fixes l d); eauto. intros r Hr. by apply not_elem_of_nil in Hr.
Qed.

(** ** A restart *)
Lemma settle_ok_restart l d : settle_ok l d -> settle_ok d d.
Proof.
  intros [K1 K2 K3 K4 K5 K6 K7 K8 K9 K10 K11]. split; try done.
  - intros id td Htd. exists td. split; [done|apply history_refl].
  - congruence.
  - intros id td r x r' x' Htd He Hs Hr Hr' Ha. destruct (K3 id td Htd) as (tl & Htl & Hh).
    rewrite (owed_same td tl) in Hr, Hr' by eauto. rewrite <-K5 in Ha |- *.
    eapply K11; [exact Htl|by rewrite (h_escrow _ _ Hh)|by eapply history_settled|exact Hr|exact Hr'|done].
Qed.

(** ** A leg is paid, or a task given up *)

(** The live task becomes [t'] on both boards and legs of it are dropped. *)
Section drop.
Context (l d l' d' : TaskBoard) (id : Uuid) (t t' : Task) (P : PublicKey -> Prop) `{!forall r, Decision (P r)}.
Context (Hok : settle_ok l d) (Ht : tb_tasks l !! id = Some t) (Hs : is_settling (status t) = true).
Context (Hwf' : task_wf id t') (Hh : history t t').
Context (El : tb_tasks l' = <[id := t']> (tb_tasks l)) (Ed : tb_tasks d' = <[id := t']> (tb_tasks d)).
Context (Dl : tb_deposits l' = tb_deposits l) (Dd : tb_deposits d' = tb_deposits d).
Context (Al : forall k, tb_attempts l' !! k = if decide (k.1 = id /\ P k.2) then None else tb_attempts l !! k).
Context (Ad : forall k, tb_attempts d' !! k = if decide (k.1 = id /\ P k.2) then None else tb_attempts d !! k).

Lemma drop_tasks (m m' : TaskBoard) :
  tb_tasks m' = <[id := t']> (tb_tasks m) ->
  forall i u, tb_tasks m' !! i = Some u <-> (i = id /\ u = t') \/ (i <> id /\ tb_tasks m !! i = Some u).
Proof.
  intros E i u. rewrite E. destruct (decide (i = id)) as [->|Hne].
  - rewrite lookup_insert_eq. split; [intros [= <-]; by left|]. intros [[_ ->]|[? _]]; done.
  - rewrite lookup_insert_ne by done. split; [by right|]. intros [[? _]|[_ ?]]; done.
Qed.

Lemma drop_sent (m m' : TaskBoard) :
  (forall k, tb_attempts m' !! k = if decide (k.1 = id /\ P k.2) then None else tb_attempts m !! k) ->
  forall k, sent_tx m' k = if decide (k.1 = id /\ P k.2) then None else sent_tx m k.
Proof. intros A k. unfold sent_tx. rewrite A. by case_decide. Qed.

Lemma drop_attempts_ok (m m' : TaskBoard) :
  (forall k, tb_attempts m' !! k = if decide (k.1 = id /\ P k.2) then None else tb_attempts m !! k) ->
  attempts_ok m -> attempts_ok m'.
Proof. intros A Hm k a. rewrite A. case_decide; [done|]. apply Hm. Qed.

Lemma settle_ok_drop :
  (forall e, escrow_id t' = Some e -> is_Some (tb_deposits d !! e)) ->
  (forall r x, (r, x) ∈ owed_payouts t' -> (r, x) ∈ owed_payouts t /\ (P r -> forall q, P q)) ->
  settle_ok l' d'.
Proof.
  intros Hdep Howe. pose proof (drop_tasks _ _ El) as Tl. pose proof (drop_tasks _ _ Ed) as Td.
  pose proof (drop_sent _ _ Al) as Sl. pose proof (drop_sent _ _ Ad) as Sd.
  destruct Hok as [K1 K2 K3 K4 K5 K6 K7 K8 K9 K10 K11].
  assert (Hst' : settled (status t') = true) by (eapply history_settled; [done|by destruct (status t)]).
  split.
  - intros i u [[-> ->]|[_ Hi]]%Tl; auto.
  - intros i u [[-> ->]|[_ Hi]]%Td; auto.
  - intros i u [[-> ->]|[Hne Hi]]%Td.
    + exists t'. split; [apply Tl; by left|apply history_refl].
    + destruct (K3 i u Hi) as (tl & Htl & ?). exists tl. split; [apply Tl; by right|done].
  - intros i td tl r Hd Hl. apply Td in Hd as [[-> ->]|[Hne Hd]]; apply Tl in Hl as [[Hi ->]|[Hi Hl]]; try done. eauto.
  - intros k. rewrite Sl, Sd. case_decide; auto.
  - eauto using drop_attempts_ok.
  - eauto using drop_attempts_ok.
  - intros k. rewrite Sd. case_decide; [by intros [? ?]|]. intros Hk.
    destruct (decide (k.1 = id)) as [->|Hne]; [exists t'; split; [apply Td; by left|done]|].
    destruct (K8 k Hk) as (td & Htd & ?). exists td. split; [apply Td; by right|done].
  - intros i u e Hi He. rewrite Dl. apply Tl in Hi as [[-> ->]|[_ Hi]]; [|eauto].
    eapply K9; [done|]. by rewrite <-(h_escrow _ _ Hh).
  - intros i u e Hi He. rewrite Dd. apply Td in Hi as [[-> ->]|[_ Hi]]; eauto.
  - intros i u r x r' x' Hi He Hsu Hr Hr' Ha. rewrite Sl in Ha |- *. cbn in *. case_decide as C1; [by destruct Ha|].
    apply Tl in Hi as [[-> ->]|[Hne Hi]].
    + destruct (Howe r x Hr) as [Or _]. destruct (Howe r' x' Hr') as [Or' HP].
      rewrite decide_False; [|intros [_ Pr']; apply C1; split; [done|by apply HP]].
      eapply K11; [exact Ht|by rewrite <-(h_escrow _ _ Hh)|by destruct (status t)|exact Or|exact Or'|done].
    + rewrite decide_False by tauto. eapply K11; [exact Hi|done|done|exact Hr|exact Hr'|done].
Qed.

Lemma drop_fixes :
  (forall r, P r -> is_recipient_paid t' r = true \/ status t' = PayoutFailed) -> fixes d d'.
Proof.
  intros Hclosed. pose proof (drop_tasks _ _ Ed) as Td. pose proof (drop_sent _ _ Ad) as Sd.
  intros [i r] tx. unfold leg_fixed. rewrite Sd. cbn. intros Hf. case_decide as C.
  - right. split; [done|]. destruct C as [-> C]. exists t'. split; [apply Td; by left|auto].
  - destruct Hf as [Hf|(Hn & td & Htd & Hc)]; [by left|right]. split; [done|].
    destruct (decide (i = id)) as [->|Hne]; [|exists td; split; [apply Td; by right|done]].
    exists t'. split; [apply Td; by left|]. destruct (so_history _ _ Hok id td Htd) as (tl & Htl & Hhd).
    replace tl with t in * by congruence. eapply closed_history; [|done]. by eapply history_trans.
Qed.

End drop.
