(* ===== verification/SettleStep.v ===== *)
(** * SettleStep: every settlement handler keeps the invariant

    One lemma per handler of [Settlement]: from boards in [settle_ok] it leads
    to boards in [settle_ok], and what was decided for a leg stays decided
    ([fixes]). *)

From S2P Require Import Prelude Types Crypto Transaction Spend BoardTypes Exchange Tasks Board Payouts BoardInv BoardStep PayoutStep BoardTheorems Payments Wallets Settlement SettleInv.

(** Both at once, over the hub. *)
Definition legs_ok (h : Hub) : Prop := settle_ok (live h) (disk h).
Definition keeps_legs (h h' : Hub) : Prop := legs_ok h' /\ fixes (disk h) (disk h').

Lemma keeps_legs_refl h : legs_ok h -> keeps_legs h h.
Proof. intros Hok. split; [done|apply fixes_refl]. Qed.

Lemma quiet_refl l : board_wf l -> quiet l l.
Proof. intros Hwf. by apply quiet_same. Qed.

(** A board whose tasks, attempts and deposits are the same. *)
Definition same_legs (tb tb' : TaskBoard) : Prop :=
  tb_tasks tb' = tb_tasks tb /\ tb_attempts tb' = tb_attempts tb /\ tb_deposits tb' = tb_deposits tb.

Lemma same_legs_refl tb : same_legs tb tb.
Proof. by split_and!. Qed.

Lemma same_legs_facts tb tb' : same_legs tb tb' ->
  (attempts_ok tb -> attempts_ok tb') /\ (funded tb -> funded tb') /\ (forall k, sent_tx tb' k = sent_tx tb k).
Proof. intros (E1 & E2 & E3). unfold attempts_ok, funded, sent_tx. by rewrite E1, E2, E3. Qed.

Lemma keeps_legs_same h h' :
  legs_ok h -> same_legs (live h) (live h') -> same_legs (disk h) (disk h') -> keeps_legs h h'.
Proof.
  intros Hok Hl Hd. destruct (same_legs_facts _ _ Hl) as (A1 & F1 & S1).
  destruct (same_legs_facts _ _ Hd) as (A2 & F2 & S2).
  assert (Hq : quiet (live h) (live h')) by (apply quiet_same; [apply Hok|apply Hl]).
  assert (Ht : forall i, tb_tasks (disk h') !! i = tb_tasks (disk h) !! i \/ tb_tasks (disk h') !! i = tb_tasks (live h') !! i)
    by (intros i; left; by rewrite (proj1 Hd)).
  apply (settle_ok_quiet (live h) (disk h)); auto; try apply Hok.
  - apply A1, Hok.
  - apply A2, Hok.
  - apply F1, Hok.
  - apply F2, Hok.
Qed.

(** ** Sending *)
Lemma map_pair_legs (id : Uuid) (rs : list PublicKey) k :
  k ∈ pair id <$> rs <-> k.1 = id /\ k.2 ∈ rs.
Proof.
  rewrite list_elem_of_fmap. split; [by intros (r & -> & Hr)|]. destruct k as [i r]. cbn. intros [-> Hr]. eauto.
Qed.

(** A leg of the task that may be recorded. *)
Definition fresh_leg (h : Hub) (id : Uuid) (t : Task) (r : PublicKey) : Prop :=
  sent_tx (live h) (id, r) = None /\ exists x, (r, x) ∈ owed_payouts t.

(** Its task is on disk, with its payouts fixed. *)
Definition persisted (h : Hub) (id : Uuid) : Prop :=
  exists td, tb_tasks (disk h) !! id = Some td /\ settled (status td) = true.

Definition with_disk_task (d : TaskBoard) (commits : bool) (l : TaskBoard) (id : Uuid) : TaskBoard :=
  match tb_tasks l !! id with Some t => save_task commits d t | None => d end.

Lemma with_disk_task_spec d commits l id :
  board_wf l -> same_legs d (with_tasks (with_disk_task d commits l id) (tb_tasks d)) /\
  (forall i, tb_tasks (with_disk_task d commits l id) !! i = tb_tasks d !! i \/
             (i = id /\ tb_tasks (with_disk_task d commits l id) !! i = tb_tasks l !! i)).
Proof.
  intros Hwf. unfold with_disk_task. destruct (tb_tasks l !! id) as [t|] eqn:Ht; [|split; [done|by left]].
  unfold save_task. destruct commits; [|split; [done|by left]]. split; [done|]. intros i. cbn.
  rewrite (wf_id _ _ (Hwf id t Ht)). destruct (decide (i = id)) as [->|Hne].
  - right. by rewrite lookup_insert_eq.
  - left. by rewrite lookup_insert_ne.
Qed.

(** Recording attempts adds no task. *)
Lemma attempts_add_no_task i l : forall tb, tb_tasks tb !! i = None ->
  tb_tasks (foldl record_payout_attempt tb l) !! i = None.
Proof.
  induction l as [|a l IH]; intros tb Hn; [done|]. cbn. apply IH. unfold record_payout_attempt.
  repeat case_match; try done. cbn in *. apply lookup_insert_None. split; [done|]. intros <-. congruence.
Qed.

Lemma attempts_funded l tb : board_wf tb -> funded tb -> funded (foldl record_payout_attempt tb l).
Proof.
  intros Hwf Hf i u e Hi He. destruct (quiet_attempts l tb Hwf) as (Hq & _ & ->).
  destruct (tb_tasks tb !! i) as [v|] eqn:Ev; [|by rewrite attempts_add_no_task in Hi].
  destruct (q_tasks _ _ Hq i v Ev) as (u' & Hu' & Hh). apply (Hf i v e Ev).
  rewrite <-(h_escrow _ _ Hh). by replace u' with u by congruence.
Qed.

Section carry_out.
Context `{Primitives, HubKeys}.
Context (h : Hub) (Hok : legs_ok h) (id : Uuid) (t : Task) (rs : list PublicKey) (tx : Transaction).
Context (Ht : tb_tasks (live h) !! id = Some t) (Hs : is_settling (status t) = true) (Hdisk : persisted h id).
Context (Hfresh : forall r, r ∈ rs -> fresh_leg h id t r).
Context (Hall : is_Some (escrow_id t) -> forall r x, (r, x) ∈ owed_payouts t -> r ∈ rs).
Context (attempts : list PayoutAttempt).
Context (Hkeys : (fun a => leg_key a) <$> attempts = pair id <$> rs).
Context (Htx : Forall (fun a => pa_transaction a = Some tx) attempts).

Lemma recorded_sent tb tb' : tb_attempts tb' = put_attempts attempts (tb_attempts tb) ->
  forall k, sent_tx tb' k = if decide (k.1 = id /\ k.2 ∈ rs) then Some (Some tx) else sent_tx tb k.
Proof.
  intros E k. unfold sent_tx. rewrite E, (put_attempts_tx _ tx) by done. rewrite Hkeys.
  apply decide_ext, map_pair_legs.
Qed.

Lemma recorded_attempts_ok tb tb' :
  tb_attempts tb' = put_attempts attempts (tb_attempts tb) -> attempts_ok tb -> attempts_ok tb'.
Proof. intros E. eapply put_attempts_ok; [exact E|]. eapply Forall_impl; [done|]. intros a ->. eauto. Qed.

(** The attempts reached the disk, and the live board too. *)
Lemma recorded_ok d1 l1 d2 :
  l1 = foldl record_payout_attempt (live h) attempts ->
  tb_tasks d1 = tb_tasks (disk h) -> tb_deposits d1 = tb_deposits (disk h) ->
  tb_attempts d1 = put_attempts attempts (tb_attempts (disk h)) ->
  d2 = d1 \/ (exists c, d2 = with_disk_task d1 c l1 id) ->
  settle_ok l1 d2 /\ fixes (disk h) d2.
Proof.
  intros El Et Ed Ea Ed2. destruct (quiet_attempts attempts (live h) (so_live _ _ Hok)) as (Hq & Al & Dl).
  rewrite <-El in Hq, Al, Dl. destruct Hdisk as (td & Htd & Hstd).
  assert (Hd2 : tb_attempts d2 = tb_attempts d1 /\ tb_deposits d2 = tb_deposits d1 /\
            forall i, tb_tasks d2 !! i = tb_tasks (disk h) !! i \/ (i = id /\ tb_tasks d2 !! i = tb_tasks l1 !! i)).
  { destruct Ed2 as [->|[c ->]]; [split_and!; try done; left; by rewrite Et|].
    destruct (with_disk_task_spec d1 c l1 id (q_wf _ _ Hq)) as [(_ & E1 & E2) E3]. rewrite Et in E3. by split_and!. }
  destruct Hd2 as (Ad2 & Dd2 & Td2). rewrite Ea in Ad2. rewrite Ed in Dd2.
  assert (Hf1 : funded l1) by (subst l1; apply attempts_funded; apply Hok).
  assert (Hf2 : funded d2).
  { intros i u e Hi He. rewrite Dd2. destruct (Td2 i) as [E|[-> E]]; rewrite E in Hi; [by eapply (so_disk_funded _ _ Hok)|].
    destruct (so_history _ _ Hok id td Htd) as (w & Hw & H1). destruct (q_tasks _ _ Hq id w Hw) as (u' & Hu' & H2).
    replace u' with u in * by congruence. eapply (so_disk_funded _ _ Hok); [exact Htd|].
    by rewrite <-(h_escrow _ _ H1), <-(h_escrow _ _ H2). }
  assert (Td3 : forall i, tb_tasks d2 !! i = tb_tasks (disk h) !! i \/ tb_tasks d2 !! i = tb_tasks l1 !! i)
    by (intros i; destruct (Td2 i) as [|[_ ?]]; auto).
  split.
  - eapply (settle_ok_move _ _ _ _ Hok id tx rs); try done.
    + eapply recorded_attempts_ok; [exact Al|apply Hok].
    + eapply recorded_attempts_ok; [exact Ad2|apply Hok].
    + by apply recorded_sent.
    + by apply recorded_sent.
    + right. exists td, t. auto.
  - eapply (move_fixes _ _ _ _ id tx rs Hok Hq); [done|by apply recorded_sent|].
    intros r Hr. destruct (Hfresh r Hr) as (? & x & ?). eauto 10.
Qed.

Lemma carry_out_ok env h' o :
  together (se_commits env) (length rs) -> carry_out env h id tx attempts = (h', o) ->
  keeps_legs h h' /\
  ((h' = h /\ o = Err NotStored) \/
   (outbox h' = outbox h ++ [tx] /\ forall r, r ∈ rs -> sent_tx (disk h') (id, r) = Some (Some tx))).
Proof.
  assert (Hlen : length attempts = length rs) by (by rewrite <-(length_fmap (fun a => leg_key a)), Hkeys, length_fmap).
  rewrite <-Hlen. intros Htog. unfold carry_out. destruct (save_attempts _ _ _ _) as [d1 stored] eqn:Esave.
  destruct (save_together _ _ _ _ _ Htog Esave) as [[-> ->]|(-> & Et & Ed & Ea)]; cbn.
  - intros [= <- <-]. destruct h as [l0 d0 c0 o0]. cbn. split; [by apply keeps_legs_refl|by left].
  - intros [= <- <-]. cbn.
    destruct (recorded_ok d1 _ (with_disk_task d1 (se_task_commits env) (foldl record_payout_attempt (live h) attempts) id)
      eq_refl Et Ed Ea ltac:(eauto)) as [Hok' Hfix].
    split; [by split|]. right. split; [done|]. intros r Hr. cbn. fold (with_disk_task d1 (se_task_commits env) (foldl record_payout_attempt (live h) attempts) id).
    assert (sent_tx d1 (id, r) = Some (Some tx)) as <-
      by (rewrite (recorded_sent (disk h) d1 Ea); by rewrite decide_True).
    unfold sent_tx, with_disk_task, save_task. by repeat case_match.
Qed.

End carry_out.

Section handlers.
Context `{Primitives, HubKeys}.

Lemma plan_attempts_spec tb id source now tx l : forall attempts,
  plan_attempts tb id source now tx l = Ok attempts ->
  (fun a => leg_key a) <$> attempts = pair id <$> ((fun e : nat * (PublicKey * N) => e.2.1) <$> l) /\
  Forall (fun a => pa_transaction a = Some tx) attempts.
Proof.
  induction l as [|[i [r x]] l IH]; intros attempts; cbn [plan_attempts]; intros Hp; inv_ok; [by subst|].
  match goal with F : plan_attempts _ _ _ _ _ _ = Ok _ |- _ => destruct (IH _ F) as [E1 E2]; clear F end.
  match goal with F : plan_attempt _ _ _ _ _ _ = Ok _ |- _ => unfold plan_attempt in F; inv_ok end.
  subst. cbn. by rewrite E1, Forall_cons.
Qed.

Lemma imap_pair_legs (l : list (PublicKey * N)) :
  (fun e : nat * (PublicKey * N) => e.2.1) <$> imap pair l = l.*1.
Proof. rewrite fmap_imap. apply (list_eq_same_length _ _ (length l)); [by rewrite length_fmap|by rewrite length_imap|].
  intros i x y _ Hx Hy. rewrite list_lookup_imap in Hx. rewrite list_lookup_fmap in Hy.
  destruct (l !! i); cbn in *; congruence.
Qed.

Lemma elem_of_fst_owed t r : r ∈ (owed_payouts t).*1 <-> exists x, (r, x) ∈ owed_payouts t.
Proof.
  rewrite list_elem_of_fmap. split; [intros ([q x] & -> & Hq); by exists x|]. intros [x Hx]. by exists (r, x).
Qed.

(** [submit_task_payout] for fresh legs, all of them when an escrow pays. *)
Lemma submit_task_payout_ok env h id t key source recipients change h' o :
  legs_ok h -> tb_tasks (live h) !! id = Some t -> is_settling (status t) = true -> persisted h id ->
  (forall r, r ∈ recipients.*1 -> fresh_leg h id t r) ->
  (is_Some (escrow_id t) -> forall r x, (r, x) ∈ owed_payouts t -> r ∈ recipients.*1) ->
  together (se_commits env) (length recipients) ->
  submit_task_payout env h id key source recipients change = (h', o) ->
  keeps_legs h h' /\
  (h' = h \/ exists tx, outbox h' = outbox h ++ [tx] /\
     forall r, r ∈ recipients.*1 -> sent_tx (disk h') (id, r) = Some (Some tx)).
Proof.
  intros Hok Ht Hs Hd Hf Hall Htog. unfold submit_task_payout.
  destruct (plan_task_payout _ _ _ _ _ _ _) as [[tx attempts]|e|] eqn:Ep; [|intros [= <- <-]; split; [by apply keeps_legs_refl|by left]..].
  unfold plan_task_payout in Ep. inv_ok. injection Ep as -> ->.
  match goal with F : plan_attempts _ _ _ _ _ _ = Ok _ |- _ => apply plan_attempts_spec in F as [Hk Htx] end.
  rewrite imap_pair_legs in Hk. intros Hc.
  destruct (carry_out_ok h Hok id t recipients.*1 tx Ht Hs Hd Hf Hall attempts Hk Htx env h' o) as [Hkl Hcase];
    [by rewrite length_fmap|done|].
  clear Hc. rename Hcase into Hc. split; [done|]. destruct Hc as [[-> _]|Hc]; [by left|right; eauto].
Qed.

Lemma payout_attempt_sent tb id r : payout_attempt tb id r = None <-> sent_tx tb (id, r) = None.
Proof. unfold payout_attempt, sent_tx. by rewrite fmap_None. Qed.

Lemma reported_Ok h1 o h' b : reported (h1, o) = Ok (h', b) -> h' = h1.
Proof. destruct o; cbn; congruence. Qed.

(** [settle_one_payout] for a leg the operator owes. *)
Lemma settle_one_payout_ok env h id t r x h' b :
  legs_ok h -> tb_tasks (live h) !! id = Some t -> is_settling (status t) = true -> escrow_id t = None ->
  persisted h id -> (r, x) ∈ owed_payouts t ->
  settle_one_payout env h id r x = Ok (h', b) ->
  keeps_legs h h' /\ (h' = h \/ exists tx, outbox h' = outbox h ++ [tx] /\ sent_tx (disk h') (id, r) = Some (Some tx)).
Proof.
  intros Hok Ht Hs He Hd Ho. unfold settle_one_payout. rewrite Ht.
  assert (Hr : keeps_legs h h /\ (h = h \/ exists tx, outbox h = outbox h ++ [tx] /\ sent_tx (disk h) (id, r) = Some (Some tx)))
    by (split; [by apply keeps_legs_refl|by left]).
  case_match; [intros [= <- <-]; done|].
  destruct (payout_attempt (live h) id r) eqn:Ea; [intros [= <- <-]; done|].
  unfold submit_bounty_payout. destruct (submit_task_payout _ _ _ _ _ _ _) as [h1 o] eqn:Es.
  intros ->%reported_Ok. eapply submit_task_payout_ok in Es as [Hk Hc]; [|exact Hok|exact Ht|done|done|..].
  - split; [done|]. destruct Hc as [->|(tx & E & Hc)]; [by left|right]. exists tx. split; [done|]. apply Hc. by left.
  - intros q Hq. apply list_elem_of_singleton in Hq as ->. split; [by apply payout_attempt_sent|eauto].
  - rewrite He. by intros [? ?].
  - intros i Hi. cbn in Hi. by replace i with 0%nat by lia.
Qed.

(** [settle_escrow_funded_task] while some leg has no attempt. *)
Lemma settle_escrow_funded_task_ok env h id t e deposit h' b :
  legs_ok h -> tb_tasks (live h) !! id = Some t -> is_settling (status t) = true -> escrow_id t = Some e ->
  persisted h id -> unsubmitted_payouts (live h) id <> [] ->
  together (se_commits env) (length (owed_payouts t)) ->
  settle_escrow_funded_task env h id deposit = Ok (h', b) ->
  keeps_legs h h' /\
  (h' = h \/ exists tx, outbox h' = outbox h ++ [tx] /\
     forall r x, (r, x) ∈ owed_payouts t -> sent_tx (disk h') (id, r) = Some (Some tx)).
Proof.
  intros Hok Ht Hs He Hd Hun Htog. unfold settle_escrow_funded_task. rewrite Ht.
  (* no owed leg has an attempt *)
  assert (Hnone : forall r x, (r, x) ∈ owed_payouts t -> sent_tx (live h) (id, r) = None).
  { intros r x Hr. destruct (unsubmitted_payouts (live h) id) as [|[q y] l] eqn:Eu; [done|].
    assert (Hq : (q, y) ∈ unsubmitted_payouts (live h) id) by (rewrite Eu; by left).
    unfold unsubmitted_payouts, pending_payouts in Hq. rewrite Ht, Hs in Hq.
    apply list_elem_of_filter in Hq as [Hq Hqo]. apply eq_None_not_Some. intros Hsome.
    assert (is_Some (sent_tx (live h) (id, q))) as [z Hz].
    { apply (so_uniform _ _ Hok id t r x q y); [done|by rewrite He|by destruct (status t)|done..]. }
    unfold sent_tx in Hz. cbn in Hq. by rewrite Hq in Hz. }
  destruct (owed_payouts t) as [|p0 l0] eqn:Eo; [intros [= <- <-]; split; [by apply keeps_legs_refl|by left]|].
  destruct (submit_task_payout _ _ _ _ _ _ _) as [h1 o] eqn:Es. intros ->%reported_Ok.
  rewrite <-Eo in *. eapply submit_task_payout_ok in Es as [Hk Hc]; [|exact Hok|exact Ht|done|done|..].
  - split; [done|]. destruct Hc as [->|(tx & E & Hc)]; [by left|right]. exists tx. split; [done|].
    intros r x Hr. apply Hc, elem_of_fst_owed. eauto.
  - intros r [x Hr]%elem_of_fst_owed. split; eauto.
  - intros _ r x Hr. apply elem_of_fst_owed. eauto.
  - done.
Qed.

(** ** Resolving *)
Lemma mark_paid_facts tb id r amount now tb' full :
  board_wf tb -> mark_recipient_paid tb id r amount now = Ok (tb', full) ->
  exists t t', tb_tasks tb !! id = Some t /\ is_settling (status t) = true /\
    tb_tasks tb' = <[id := t']> (tb_tasks tb) /\ task_wf id t' /\ history t t' /\
    is_recipient_paid t' r = true /\
    (forall q x, (q, x) ∈ owed_payouts t' -> (q, x) ∈ owed_payouts t /\ q <> r) /\
    tb_attempts tb' = tb_attempts tb /\ tb_deposits tb' = tb_deposits tb.
Proof.
  intros Hwf Hm. assert (Hframe : tb_attempts tb' = tb_attempts tb /\ tb_deposits tb' = tb_deposits tb).
  { unfold mark_recipient_paid in Hm. inv_ok. case_match; inv_ok; [by simplify_eq|].
    match goal with F : add_earning _ _ _ _ = Ok _ |- _ => unfold add_earning in F; inv_ok end. by simplify_eq. }
  destruct (mark_recipient_paid_spec _ _ _ _ _ _ _ Hwf Hm) as (t & Ht & Hs & Hcase). exists t.
  destruct Hcase as [(-> & _ & Hp)|(t' & [R1 R2 (x & R3a & R3b) R4 R5] & E & _)].
  - exists t. rewrite insert_id by done. split_and!; try done; [apply (Hwf id t Ht)|].
    intros q y Hq. split; [done|]. intros ->. apply elem_of_owed in Hq as [_ Hq]. congruence.
  - exists t'. assert (Hpr : is_recipient_paid t' r = true) by (apply (elem_of_paid_payouts t' r x); rewrite R3b; by left).
    split_and!; try done; [by apply evolves_to_history| |apply Hframe..].
    + intros q y Hq. split; [rewrite R3a; by right|]. intros ->. apply elem_of_owed in Hq as [_ Hq]. congruence.
Qed.

(** The task behind an attempt is on disk, with its deposit. *)
Lemma attempt_escrow h id r t t' e :
  legs_ok h -> is_Some (payout_attempt (live h) id r) -> tb_tasks (live h) !! id = Some t ->
  history t t' -> escrow_id t' = Some e -> is_Some (tb_deposits (disk h) !! e).
Proof.
  intros Hok Ha Ht Hh He. destruct (so_settled _ _ Hok (id, r)) as (td & Htd & _).
  { rewrite <-(so_agree _ _ Hok). unfold sent_tx. by apply fmap_is_Some. }
  cbn in Htd. destruct (so_history _ _ Hok id td Htd) as (tl & Htl & Hd). replace tl with t in * by congruence.
  eapply (so_disk_funded _ _ Hok); [exact Htd|]. by rewrite <-(h_escrow _ _ Hd), <-(h_escrow _ _ Hh).
Qed.

Lemma delete_leg (m : gmap (Uuid * PublicKey) PayoutAttempt) id r k :
  delete (id, r) m !! k = if decide (k.1 = id /\ k.2 = r) then None else m !! k.
Proof.
  destruct k as [i q]. cbn. case_decide as C; [destruct C as [-> ->]; by rewrite lookup_delete_eq|].
  rewrite lookup_delete_ne; [done|]. intros [= <- <-]. by apply C.
Qed.

Lemma record_confirmed_payout_ok commits now h id r amount h' b :
  legs_ok h -> is_Some (payout_attempt (live h) id r) ->
  record_confirmed_payout commits now h id r amount = Ok (h', b) ->
  keeps_legs h h' /\ outbox h' = outbox h.
Proof.
  intros Hok Ha. unfold record_confirmed_payout.
  destruct (mark_recipient_paid _ _ _ _ _) as [[tb1 full]|e|] eqn:Em; [|intros [= <- <-]; split; [by apply keeps_legs_refl|done]|done].
  destruct (mark_paid_facts _ _ _ _ _ _ _ (so_live _ _ Hok) Em) as (t & t' & Ht & Hs & Et & Hwf' & Hh & Hp & Howe & Ea & Ed).
  cbn [clear_payout_attempt fst with_attempts tb_tasks]. rewrite Et, lookup_insert_eq. cbn.
  destruct commits; cbn [save_confirmed_payout]; intros [= <- <-]; (split; [|done]).
  - assert (Hdisk : forall e, escrow_id t' = Some e -> is_Some (tb_deposits (disk h) !! e)) by (intros e; by eapply attempt_escrow).
    split; cbn.
    + eapply (settle_ok_drop _ _ _ _ id t t' (fun q => q = r) Hok Ht Hs Hwf' Hh); cbn; try done.
      * by rewrite (wf_id _ _ Hwf').
      * intros k. rewrite Ea. apply delete_leg.
      * intros k. rewrite (wf_id _ _ Hwf'). apply delete_leg.
      * intros q x Hq. destruct (Howe q x Hq) as [? Hne]. by split.
    + eapply (drop_fixes _ _ _ id t t' (fun q => q = r) Hok Ht Hh); cbn.
      * by rewrite (wf_id _ _ Hwf').
      * intros k. rewrite (wf_id _ _ Hwf'). apply delete_leg.
      * intros q ->. by left.
  - destruct (payout_attempt (live h) id r) as [a|] eqn:Eat; [|by destruct Ha].
    destruct (so_live_attempts _ _ Hok (id, r) a Eat) as [Hkey _].
    apply keeps_legs_same; [done| |apply same_legs_refl]. cbn. rewrite Ht. unfold same_legs. cbn.
    rewrite Et, Ea, Ed. split_and!; [|rewrite Hkey; apply insert_delete_id, Eat|done].
    rewrite (wf_id _ _ (so_live _ _ Hok id t Ht)), insert_insert_eq. by apply insert_id.
Qed.

(** *** Giving up *)
Lemma drop_attempts_dropped keys : forall tb l,
  NoDup keys -> (foldl drop_attempt (tb, l) keys).2 = l ++ omap (fun k => tb_attempts tb !! k) keys.
Proof.
  induction keys as [|k keys IH]; intros tb l Hnd; cbn [foldl]; [by rewrite app_nil_r|].
  apply NoDup_cons in Hnd as [Hk Hnd]. cbn. rewrite IH by done. cbn. rewrite <-surjective_pairing.
  replace (omap (fun j => delete k (tb_attempts tb) !! j) keys) with (omap (fun j => tb_attempts tb !! j) keys).
  { unfold payout_attempt. rewrite <-surjective_pairing. destruct (tb_attempts tb !! k); cbn; [by rewrite <-app_assoc|by rewrite app_nil_r]. }
  clear IH Hnd. induction keys as [|j keys IH]; [done|]. cbn. apply not_elem_of_cons in Hk as [Hne Hk].
  rewrite lookup_delete_ne by done. by rewrite IH.
Qed.

Lemma mark_payout_failed_dropped tb id tb' dropped :
  mark_payout_failed tb id = Ok (tb', dropped) ->
  tb_deposits tb' = tb_deposits tb /\
  forall a, a ∈ dropped <-> exists k, k.1 = id /\ tb_attempts tb !! k = Some a.
Proof.
  unfold mark_payout_failed. intros Hm. inv_ok. set (keys := base.filter _ _) in Hm.
  match type of Hm with foldl _ (?x, _) _ = _ => set (tb1 := x) in * end.
  assert (Hnd : NoDup keys).
  { apply NoDup_filter. rewrite btree_iter_perm. apply NoDup_fst_map_to_list. }
  pose proof (drop_attempts_dropped keys tb1 [] Hnd) as Hd. rewrite Hm in Hd. cbn in Hd. split.
  - pose proof (drop_attempts_deposits keys tb1 []) as Hdep. by rewrite Hm in Hdep.
  - intros a. rewrite Hd, list_elem_of_omap. change (tb_attempts tb1) with (tb_attempts tb). split.
    + intros (k & Hk & Ha). apply list_elem_of_filter in Hk as [Hk _]. eauto.
    + intros (k & Hk & Ha). exists k. split; [|done]. apply list_elem_of_filter. split; [done|].
      apply list_elem_of_fmap. exists (k, a). split; [done|]. by apply elem_of_btree_iter.
Qed.

Lemma clear_legs_lookup ks : forall d k,
  tb_attempts (foldl (fun d k => (clear_payout_attempt d k.1 k.2).1) d ks) !! k =
  if decide (k ∈ ks) then None else tb_attempts d !! k.
Proof.
  induction ks as [|j ks IH]; intros d k; cbn [foldl]; [rewrite decide_False by apply not_elem_of_nil; done|].
  rewrite IH. cbn. rewrite <-surjective_pairing. destruct (decide (k = j)) as [->|Hne].
  - rewrite lookup_delete_eq, (decide_True (P := j ∈ j :: ks)) by (by left). by case_decide.
  - rewrite lookup_delete_ne by done. apply decide_ext. rewrite elem_of_cons. tauto.
Qed.

Lemma clear_legs_frame ks : forall d,
  tb_tasks (foldl (fun d k => (clear_payout_attempt d k.1 k.2).1) d ks) = tb_tasks d /\
  tb_deposits (foldl (fun d k => (clear_payout_attempt d k.1 k.2).1) d ks) = tb_deposits d.
Proof. induction ks as [|j ks IH]; intros d; [done|]. cbn [foldl]. destruct (IH (clear_payout_attempt d j.1 j.2).1) as [-> ->]. done. Qed.

Lemma restore_legs_frame l : forall tb,
  tb_tasks (foldl restore_payout_attempt tb l) = tb_tasks tb /\
  tb_deposits (foldl restore_payout_attempt tb l) = tb_deposits tb /\
  tb_attempts (foldl restore_payout_attempt tb l) = put_attempts l (tb_attempts tb).
Proof. induction l as [|a l IH]; intros tb; [done|]. cbn [foldl]. destruct (IH (restore_payout_attempt tb a)) as (-> & -> & ->). done. Qed.


Lemma restored_legs tb tb1 id dropped :
  attempts_ok tb -> (forall a, a ∈ dropped <-> exists k, k.1 = id /\ tb_attempts tb !! k = Some a) ->
  (forall k, tb_attempts tb1 !! k = if decide (k.1 = id) then None else tb_attempts tb !! k) ->
  put_attempts dropped (tb_attempts tb1) = tb_attempts tb.
Proof.
  intros Hok Hd H1. apply map_eq. intros k.
  destruct (put_attempts_lookup dropped (tb_attempts tb1) k) as [[E Hk]|(a & Ha & <- & E)].
  - rewrite E, H1. case_decide as C; [|done]. destruct (tb_attempts tb !! k) as [a|] eqn:Ea; [|done]. destruct Hk.
    apply list_elem_of_fmap. exists a. split; [by destruct (Hok k a Ea)|]. apply Hd. eauto.
  - rewrite E. apply Hd in Ha as (k & _ & Ha). by destruct (Hok k a Ha) as [-> _].
Qed.

Lemma dropped_on_disk h id dropped t' :
  legs_ok h -> (forall a, a ∈ dropped <-> exists k, k.1 = id /\ tb_attempts (live h) !! k = Some a) ->
  forall k, tb_attempts (foldl (fun d k => (clear_payout_attempt d k.1 k.2).1) (restore_task (disk h) t')
                           ((fun a => leg_key a) <$> dropped)) !! k =
    if decide (k.1 = id /\ True) then None else tb_attempts (disk h) !! k.
Proof.
  intros Hok Hdrop k. rewrite clear_legs_lookup. cbn. case_decide as C1; case_decide as C2; try done.
  - destruct C2. apply list_elem_of_fmap in C1 as (b & -> & Hb). apply Hdrop in Hb as (j & Hj & Hb).
    destruct (so_live_attempts _ _ Hok j b Hb) as [-> _]. done.
  - destruct (tb_attempts (disk h) !! k) as [b|] eqn:Eb; [|done]. destruct C1.
    assert (is_Some (sent_tx (live h) k)) as [y Hy] by (rewrite (so_agree _ _ Hok); unfold sent_tx; by rewrite Eb).
    unfold sent_tx in Hy. destruct (tb_attempts (live h) !! k) as [b'|] eqn:Eb'; [|done].
    apply list_elem_of_fmap. exists b'. destruct (so_live_attempts _ _ Hok k b' Eb') as [-> _]. split; [done|].
    apply Hdrop. exists k. by split; [apply C2|].
Qed.

Lemma abandon_payout_ok commits h a h' :
  legs_ok h -> persisted h (pa_task_id a) -> abandon_payout commits h a = Ok h' ->
  keeps_legs h h' /\ outbox h' = outbox h.
Proof.
  intros Hok (td & Htd & Hstd). unfold abandon_payout. set (id := pa_task_id a) in *.
  destruct (mark_payout_failed _ _) as [[tb1 dropped]|e|] eqn:Em; [|intros [= <-]; split; [by apply keeps_legs_refl|done]|done].
  destruct (mark_payout_failed_shape _ _ _ _ Em) as (t & Ht & Hs & Et & Hatt).
  destruct (mark_payout_failed_dropped _ _ _ _ Em) as [Ed Hdrop].
  destruct (mark_payout_failed_keeps _ _ _ _ Em (so_live _ _ Hok)) as [Hwf1 Hev].
  destruct (Hev id t Ht) as (t' & Ht' & Hev'). rewrite Ht'. cbn. apply evolves_to_history in Hev'.
  assert (t' = set_status t PayoutFailed) as E by (rewrite Et, lookup_insert_eq in Ht'; congruence).
  destruct commits; cbn [save_task_and_drop_payout_attempts]; intros [= <-]; (split; [|done]).
  - set (ks := _ <$> dropped). destruct (clear_legs_frame ks (restore_task (disk h) t')) as [F1 F2].
    assert (Hid : t_id t' = id) by (apply (wf_id _ _ (Hwf1 id t' Ht'))). cbn in F1, F2. rewrite Hid in F1.
    pose proof (dropped_on_disk h id dropped t' Hok Hdrop) as Ad. fold ks in Ad.
    assert (Al : forall k, tb_attempts tb1 !! k = if decide (k.1 = id /\ True) then None else tb_attempts (live h) !! k).
    { intros k. rewrite Hatt. apply decide_ext. tauto. }
    rewrite <-E in Et. split; cbn.
    + apply (settle_ok_drop _ _ _ _ id t t' (fun _ => True) Hok Ht Hs (Hwf1 id t' Ht') Hev'); try done.
      * intros e He. destruct (so_history _ _ Hok id td Htd) as (tl & Htl & Hd). replace tl with t in * by congruence.
        eapply (so_disk_funded _ _ Hok); [exact Htd|]. by rewrite <-(h_escrow _ _ Hd), <-(h_escrow _ _ Hev').
      * intros r x Hr. split; [|done]. rewrite elem_of_owed in Hr |- *. destruct Hr as [Hr Hp]. subst t'. split; [done|].
        apply not_true_is_false. intros Hp'. apply (h_paid _ _ Hev') in Hp'. congruence.
    + apply (drop_fixes _ _ _ id t t' (fun _ => True) Hok Ht Hev'); try done. intros r _. right. by rewrite E.
  - apply keeps_legs_same; [done| |apply same_legs_refl]. cbn. rewrite Ht. unfold same_legs.
    destruct (restore_legs_frame dropped (restore_task tb1 t)) as (-> & -> & ->). cbn. rewrite Et, Ed.
    split_and!; [|by eapply restored_legs; [apply Hok|..]|done].
    rewrite (wf_id _ _ (so_live _ _ Hok id t Ht)), insert_insert_eq. by apply insert_id.
Qed.

(** *** Sending again *)
Lemma bump_all_spec now l : forall next, bump_all now l = Ok next ->
  (fun a => leg_key a) <$> next = (fun a => leg_key a) <$> l /\
  pa_transaction <$> next = pa_transaction <$> l.
Proof.
  induction l as [|a l IH]; intros next; cbn; intros Hb; inv_ok; [by subst|].
  match goal with F : bump_all _ _ = Ok _ |- _ => destruct (IH _ F) as [E1 E2]; clear F end.
  match goal with F : bump _ _ = Ok _ |- _ => unfold bump in F; inv_ok end. subst. cbn. by rewrite E1, E2.
Qed.

(** The legs of a transaction, bumped. *)
Definition legs_of (tb : TaskBoard) (id : Uuid) (tx : Transaction) : list PayoutAttempt :=
  base.filter (fun leg => pa_transaction leg = Some tx) (payout_attempts_for_task tb id).

Lemma legs_of_sent tb id tx now next n a :
  attempts_ok tb -> bump_all now (legs_of tb id tx) = Ok next -> a ∈ take n next ->
  sent_tx tb (leg_key a) = Some (Some tx) /\ pa_transaction a = Some tx.
Proof.
  intros Hok Hb Ha. destruct (bump_all_spec _ _ _ Hb) as [E1 E2].
  apply (subseteq_take n next) in Ha. apply list_elem_of_lookup in Ha as [i Hi].
  assert (exists b, legs_of tb id tx !! i = Some b) as [b Hbi].
  { apply lookup_lt_is_Some. rewrite <-(length_fmap (fun a => leg_key a)), <-E1, length_fmap. by eapply lookup_lt_Some. }
  assert (leg_key a = leg_key b /\ pa_transaction a = pa_transaction b) as [-> ->].
  { assert (F1 : ((fun a => leg_key a) <$> next) !! i = ((fun a => leg_key a) <$> legs_of tb id tx) !! i) by (by rewrite E1).
    assert (F2 : (pa_transaction <$> next) !! i = (pa_transaction <$> legs_of tb id tx) !! i) by (by rewrite E2).
    rewrite !list_lookup_fmap, Hi, Hbi in F1. rewrite !list_lookup_fmap, Hi, Hbi in F2. cbn in F1, F2. split; congruence. }
  apply list_elem_of_lookup_2 in Hbi. apply list_elem_of_filter in Hbi as [Htx Hbi].
  unfold payout_attempts_for_task in Hbi. apply list_elem_of_fmap in Hbi as ([k c] & -> & Hk).
  apply list_elem_of_filter in Hk as [_ Hk]. apply elem_of_btree_iter in Hk. cbn in *.
  split; [|done]. destruct (Hok k c Hk) as [-> _]. unfold sent_tx. rewrite Hk. cbn. by rewrite Htx.
Qed.

(** Putting back legs that already name the transaction changes none. *)
Lemma same_sent tb tb' tx l :
  tb_attempts tb' = put_attempts l (tb_attempts tb) ->
  (forall a, a ∈ l -> sent_tx tb (leg_key a) = Some (Some tx) /\ pa_transaction a = Some tx) ->
  forall k, sent_tx tb' k = sent_tx tb k.
Proof.
  intros E Hl k. unfold sent_tx at 1. rewrite E, (put_attempts_tx l tx).
  - case_decide as C; [|done]. apply list_elem_of_fmap in C as (a & -> & Ha). by destruct (Hl a Ha) as [-> _].
  - apply Forall_forall. intros a Ha. by apply Hl.
Qed.

Lemma resend_lost_payout_ok env h a h' :
  legs_ok h -> resend_lost_payout env h a = Ok h' ->
  keeps_legs h h' /\ (outbox h' = outbox h \/ exists tx, pa_transaction a = Some tx /\ outbox h' = outbox h ++ [tx] /\
    sent_tx (disk h') (leg_key a) = Some (Some tx)).
Proof.
  intros Hok. unfold resend_lost_payout.
  assert (Hr : keeps_legs h h /\ (outbox h = outbox h \/ exists tx, pa_transaction a = Some tx /\
    outbox h = outbox h ++ [tx] /\ sent_tx (disk h) (leg_key a) = Some (Some tx))) by (split; [by apply keeps_legs_refl|by left]).
  destruct (tb_tasks (live h) !! pa_task_id a) as [t|] eqn:Ht; [|intros [= <-]; done].
  case_bool_decide as Ha; cbn [negb]; [|intros [= <-]; done].
  destruct (so_live_attempts _ _ Hok _ _ Ha) as [_ [tx Htx]]. rewrite Htx. clear Hr.
  fold (legs_of (live h) (pa_task_id a) tx). intros Hb. apply bind_Ok in Hb as (next & Hnext & Hb).
  destruct (save_attempts _ _ _ _) as [d1 stored] eqn:Es.
  destruct (save_attempts_spec _ _ _ _ _ _ Es) as (n & Et & Ed & Ea & Hn & _).
  assert (Hlegs : forall m b, b ∈ take m next -> sent_tx (live h) (leg_key b) = Some (Some tx) /\ pa_transaction b = Some tx).
  { intros m b. apply (legs_of_sent _ (pa_task_id a) tx (se_now env)); [apply Hok|done]. }
  assert (Sd : forall k, sent_tx d1 k = sent_tx (disk h) k).
  { eapply same_sent; [exact Ea|]. intros b Hb'. rewrite <-(so_agree _ _ Hok). by apply (Hlegs n). }
  assert (Hsome : forall m, Forall (fun b => is_Some (pa_transaction b)) (take m next)).
  { intros m. apply Forall_forall. intros b Hb'. destruct (Hlegs m b Hb') as [_ ->]. eauto. }
  assert (Hd1 : attempts_ok d1 /\ funded d1).
  { split; [eapply put_attempts_ok; [exact Ea|done|apply Hok]|]. unfold funded. rewrite Et, Ed. apply Hok. }
  assert (Htask : forall l' i, tb_tasks d1 !! i = tb_tasks (disk h) !! i \/ tb_tasks d1 !! i = tb_tasks l' !! i) by (intros l' i; left; by rewrite Et).
  destruct (quiet_attempts next (live h) (so_live _ _ Hok)) as (Hq & Al & _).
  pose proof (Hsome (length next)) as Hs'. pose proof (Hlegs (length next)) as Hl'. rewrite firstn_all in Hs', Hl'.
  destruct stored; cbn in Hb; injection Hb as <-; cbn.
  - split; [|right; exists tx; split; [done|]; split; [done|]].
    + apply (settle_ok_quiet _ _ _ _ Hok Hq); try done; try apply Hd1.
      * eapply put_attempts_ok; [exact Al|done|apply Hok].
      * apply attempts_funded; apply Hok.
      * by eapply same_sent.
    + rewrite Sd, <-(so_agree _ _ Hok). unfold sent_tx. unfold payout_attempt in Ha. rewrite Ha. cbn. by rewrite Htx.
  - split; [|by left]. apply (settle_ok_quiet _ _ _ _ Hok); try done; try apply Hd1; try apply Hok.
    apply quiet_refl, Hok.
Qed.

(** *** [resolve_payout_attempt] *)
Lemma resolve_payout_attempt_ok env h a h' b :
  legs_ok h -> persisted h (pa_task_id a) -> resolve_payout_attempt env h a = Ok (h', b) ->
  keeps_legs h h' /\ (outbox h' = outbox h \/ exists tx, pa_transaction a = Some tx /\ outbox h' = outbox h ++ [tx] /\
    sent_tx (disk h') (leg_key a) = Some (Some tx)).
Proof.
  intros Hok Hp. unfold resolve_payout_attempt.
  assert (Hr : forall x, x = h -> keeps_legs h x /\ (outbox x = outbox h \/ exists tx, pa_transaction a = Some tx /\
    outbox x = outbox h ++ [tx] /\ sent_tx (disk x) (leg_key a) = Some (Some tx)))
    by (intros x ->; split; [by apply keeps_legs_refl|by left]).
  destruct (re_recipient env), (re_source env); try (intros [= <- <-]; by apply Hr).
  destruct (attempt_resolve _ _ _); try (intros [= <- <-]; by apply Hr).
  - case_bool_decide as Ha; cbn [negb]; [|intros [= <- <-]; by apply Hr].
    intros Hc. apply record_confirmed_payout_ok in Hc as [? ?]; [by split; [|left]|done|by rewrite Ha].
  - case_match; intros Hc; apply bind_Ok in Hc as (h1 & Hc & [= <- <-]).
    + apply abandon_payout_ok in Hc as [? ?]; [by split; [|left]|done..].
    + by apply resend_lost_payout_ok in Hc.
Qed.

End handlers.
