(* ===== verification/SettleTheorems.v ===== *)
(** * SettleTheorems: a payout is sent as one transaction

    The hub's life as a step relation over the live board and the disk: the
    operations of the marketplace, writes, settling, resolving, crashes in the
    middle of a settlement and restarts; and what it keeps true of payouts. *)

From S2P Require Import Prelude Types Crypto Transaction Spend BoardTypes Exchange Tasks Board Payouts BoardInv BoardStep PayoutStep BoardTheorems Payments Wallets Settlement SettleInv SettleStep.

Section machine.
Context `{Primitives, HubKeys}.

(** ** The settlement handlers

    A task is settled once it is on disk with its payouts fixed. The writes of
    one escrow's legs commit together: they are separate transactions in the
    code, and a failure between two of them is outside this relation
    ([partial_record_pays_twice] is what it does). *)
Inductive works (h : Hub) : Hub -> Prop :=
| wk_operator env id t r x h' b :
    tb_tasks (live h) !! id = Some t -> is_settling (status t) = true -> escrow_id t = None ->
    persisted h id -> (r, x) ∈ owed_payouts t ->
    settle_one_payout env h id r x = Ok (h', b) -> works h h'
| wk_escrow env id t e deposit h' b :
    tb_tasks (live h) !! id = Some t -> is_settling (status t) = true -> escrow_id t = Some e ->
    tb_deposits (live h) !! e = Some deposit ->
    persisted h id -> unsubmitted_payouts (live h) id <> [] ->
    together (se_commits env) (length (owed_payouts t)) ->
    settle_escrow_funded_task env h id deposit = Ok (h', b) -> works h h'
| wk_resolve env a h' b :
    persisted h (pa_task_id a) -> resolve_payout_attempt env h a = Ok (h', b) -> works h h'.

(** The hub after a crash: what is on disk, and what the node was sent. *)
Definition rebooted (h : Hub) (sent : list Transaction) : Hub :=
  mkHub (disk h) (disk h) (chain_height h) sent.

Inductive hub_step (h : Hub) : Hub -> Prop :=
| hs_board l' :
    board_step (live h) l' -> tb_attempts l' = tb_attempts (live h) ->
    (forall id t t' r, tb_tasks (live h) !! id = Some t -> tb_tasks l' !! id = Some t' ->
       is_recipient_paid t' r = true -> is_recipient_paid t r = true) ->
    hub_step h (with_boards h l' (disk h))
| hs_write h' :
    tb_tasks (live h') = tb_tasks (live h) -> tb_attempts (live h') = tb_attempts (live h) ->
    tb_attempts (disk h') = tb_attempts (disk h) ->
    (forall i, tb_tasks (disk h') !! i = tb_tasks (disk h) !! i \/ tb_tasks (disk h') !! i = tb_tasks (live h) !! i) ->
    (forall e, is_Some (tb_deposits (live h) !! e) -> is_Some (tb_deposits (live h') !! e)) ->
    funded (disk h') -> hub_step h h'
| hs_work h' : works h h' -> hub_step h h'
| hs_crash h' : works h h' -> hub_step h (rebooted h' (outbox h))
| hs_restart : hub_step h (rebooted h (outbox h)).

Lemma works_keeps h h' : legs_ok h -> works h h' -> keeps_legs h h'.
Proof.
  intros Hok [env id t r x h1 b Ht Hs He Hd Ho Hr|env id t e deposit h1 b Ht Hs He Hdep Hd Hu Htog Hr|env a h1 b Hd Hr].
  - by eapply settle_one_payout_ok in Hr as [? _].
  - by eapply settle_escrow_funded_task_ok in Hr as [? _].
  - by eapply resolve_payout_attempt_ok in Hr as [? _].
Qed.

Lemma rebooted_keeps h sent : legs_ok h -> keeps_legs h (rebooted h sent).
Proof. intros Hok. split; [by eapply settle_ok_restart|apply fixes_refl]. Qed.

Lemma hub_step_keeps h h' : legs_ok h -> hub_step h h' -> keeps_legs h h'.
Proof.
  intros Hok [l' Hs Ha Hp|h1 El Al Ad Td Dl Hf|h1 Hw|h1 Hw|].
  - assert (Hwf : board_wf (live h)) by apply Hok. destruct (board_step_keeps _ _ Hs Hwf) as [Hwf' Hev].
    assert (Hq : quiet (live h) l').
    { split; [done| |done]. intros id t Ht. destruct (Hev id t Ht) as (t' & ? & ?). eauto using evolves_to_history. }
    apply (settle_ok_quiet _ _ _ _ Hok Hq); try done; try apply Hok; [| |by left|].
    + unfold attempts_ok. rewrite Ha. apply Hok.
    + apply (board_step_funded _ _ Hs Hwf), Hok.
    + intros k. unfold sent_tx. by rewrite Ha.
  - apply (settle_ok_quiet _ _ _ _ Hok); try done.
    + apply quiet_same; [apply Hok|done].
    + unfold attempts_ok. rewrite Al. apply Hok.
    + unfold attempts_ok. rewrite Ad. apply Hok.
    + intros i u e Hi He. rewrite El in Hi. eapply Dl, (so_live_funded _ _ Hok); [exact Hi|done].
    + rewrite El. exact Td.
    + intros k. unfold sent_tx. by rewrite Al.
    + intros k. unfold sent_tx. by rewrite Ad.
  - by apply works_keeps.
  - destruct (works_keeps h h1 Hok Hw) as [Hok1 Hfix]. split; [by eapply settle_ok_restart|exact Hfix].
  - by apply rebooted_keeps.
Qed.

Lemma hub_steps_keep h h' : rtc hub_step h h' -> legs_ok h -> keeps_legs h h'.
Proof.
  induction 1 as [h|h h1 h' Hs _ IH]; intros Hok; [by apply keeps_legs_refl|].
  destruct (hub_step_keeps _ _ Hok Hs) as [Hok1 Hf1]. destruct (IH Hok1) as [Hok' Hf'].
  split; [done|]. intros k tx Hk. by apply Hf', Hf1.
Qed.

(** What a settlement handler hands to the node is recorded on disk first. *)
Lemma works_sends_recorded h h' :
  legs_ok h -> works h h' ->
  outbox h' = outbox h \/
  exists id r tx, outbox h' = outbox h ++ [tx] /\ sent_tx (disk h') (id, r) = Some (Some tx).
Proof.
  intros Hok Hw. pose proof (works_keeps h h' Hok Hw) as [Hok' Hfix].
  destruct Hw as [env id t r x h1 b Ht Hs He Hd Ho Hr|env id t e deposit h1 b Ht Hs He Hdep Hd Hu Htog Hr|env a h1 b Hd Hr].
  - eapply settle_one_payout_ok in Hr as [_ [->|(tx & E & Hc)]]; eauto 10.
  - assert (Ho : owed_payouts t <> []).
    { eapply wf_owes_something; [by apply (so_live _ _ Hok id)|by destruct (status t)]. }
    destruct (owed_payouts t) as [|[r x] l] eqn:Eo; [done|].
    eapply settle_escrow_funded_task_ok in Hr as [_ [->|(tx & E & Hc)]]; eauto; [|by rewrite Eo].
    right. exists id, r, tx. split; [done|]. eapply (Hc r x). rewrite Eo. by left.
  - eapply resolve_payout_attempt_ok in Hr as [_ [->|(tx & Ht & E & Hc)]]; eauto 10.
Qed.

(** ** [try_settle_verified_task] is a sequence of such steps *)
Lemma attempts_settling l id : forall tb t,
  tb_tasks tb !! id = Some t -> is_settling (status t) = true ->
  exists t', tb_tasks (foldl record_payout_attempt tb l) !! id = Some t' /\ is_settling (status t') = true.
Proof.
  induction l as [|a l IH]; intros tb t Ht Hs; cbn [foldl]; [eauto|].
  assert (exists t1, tb_tasks (record_payout_attempt tb a) !! id = Some t1 /\ is_settling (status t1) = true)
    as (t1 & Ht1 & Hs1); [|by eapply IH].
  unfold record_payout_attempt. case_match; [|eauto]. cbn.
  destruct (tb_tasks tb !! pa_task_id a) as [u|] eqn:Eu; [|eauto]. case_decide; [|eauto]. cbn.
  destruct (decide (pa_task_id a = id)) as [->|Hne]; [rewrite lookup_insert_eq|rewrite lookup_insert_ne by done]; eauto.
Qed.

Lemma settle_one_payout_live env h id r x h' b :
  settle_one_payout env h id r x = Ok (h', b) ->
  exists l, live h' = foldl record_payout_attempt (live h) l.
Proof.
  unfold settle_one_payout. intros Hs. assert (Hn : exists l, live h = foldl record_payout_attempt (live h) l) by (by exists []).
  repeat (case_match; [|]); simplify_eq; try done. revert Hs. unfold submit_bounty_payout, submit_task_payout.
  destruct (plan_task_payout _ _ _ _ _ _ _) as [[tx l]|e|]; [|intros [= <- <-]; done|done].
  unfold carry_out. destruct (save_attempts _ _ _ _) as [d1 []]; cbn; [|intros [= <- <-]; done].
  destruct (se_acknowledged env); intros [= <- <-]; by exists l.
Qed.

(** What the loop over an operator-funded task's payouts relies on. *)
Definition settling_leg (id : Uuid) (payouts : list (PublicKey * N)) (h : Hub) : Prop :=
  legs_ok h /\ persisted h id /\
  exists t, tb_tasks (live h) !! id = Some t /\ is_settling (status t) = true /\ escrow_id t = None /\
    forall p, p ∈ payouts -> p ∈ owed_payouts t.

Lemma settle_one_payout_next env h id payouts r x h' b :
  settling_leg id payouts h -> (r, x) ∈ payouts -> settle_one_payout env h id r x = Ok (h', b) ->
  works h h' /\ settling_leg id payouts h'.
Proof.
  intros (Hok & Hp & t & Ht & Hs & He & Ho) Hin Hr. pose proof (Ho _ Hin) as Hrx. split.
  { by eapply wk_operator. }
  destruct (settle_one_payout_ok _ _ _ _ _ _ _ _ Hok Ht Hs He Hp Hrx Hr) as [[Hok' _] Hc].
  assert (Hp' : persisted h' id).
  { destruct Hc as [->|(tx & _ & Hc)]; [done|]. destruct (so_settled _ _ Hok' (id, r)) as (td & ? & ?); [by rewrite Hc|].
    by exists td. }
  split; [done|]. split; [done|]. destruct (settle_one_payout_live _ _ _ _ _ _ _ Hr) as [l El].
  destruct (attempts_settling l id _ _ Ht Hs) as (t' & Ht' & Hs'). rewrite <-El in Ht'. exists t'.
  destruct (quiet_attempts l (live h) (so_live _ _ Hok)) as (Hq & _). rewrite <-El in Hq.
  destruct (q_tasks _ _ Hq id t Ht) as (t2 & Ht2 & Hh). replace t2 with t' in * by congruence.
  split; [done|]. split; [done|]. split; [by rewrite (h_escrow _ _ Hh)|]. intros [q y] Hq'.
  rewrite <-(owed_same t t'); [by apply Ho|done|by destruct (status t)|]. intros z. by apply (q_paid _ _ Hq id).
Qed.

Lemma try_settle_works env h id h' b :
  legs_ok h -> persisted h id ->
  (forall t, tb_tasks (live h) !! id = Some t -> is_Some (escrow_id t) ->
     together (se_commits (env 0%nat)) (length (owed_payouts t))) ->
  try_settle_verified_task env h id = Ok (h', b) -> rtc works h h'.
Proof.
  intros Hok Hp Htog. unfold try_settle_verified_task.
  destruct (tb_tasks (live h) !! id) as [t|] eqn:Ht; [|by intros [= <- <-]].
  destruct (is_settling (status t)) eqn:Hs; cbn [negb]; [|by intros [= <- <-]].
  destruct (unsubmitted_payouts (live h) id) as [|p0 l0] eqn:Eu; [by intros [= <- <-]|].
  assert (Hne : unsubmitted_payouts (live h) id <> []) by (by rewrite Eu). rewrite <-Eu. clear p0 l0 Eu.
  set (payouts := unsubmitted_payouts (live h) id) in *.
  case_decide; [by intros [= <- <-]|]. unfold funding. destruct (escrow_id t) as [e|] eqn:He; cbn.
  - destruct (so_live_funded _ _ Hok id t e Ht He) as [deposit Hd]. rewrite Hd. intros Hr.
    apply rtc_once. eapply wk_escrow; [exact Ht|done|exact He|exact Hd|done|done| |exact Hr].
    apply Htog; [done|by rewrite He].
  - intros Hr.
    assert (Hleg : settling_leg id payouts h).
    { split; [done|]. split; [done|]. exists t. split_and!; try done. intros p Hin. unfold payouts, unsubmitted_payouts, pending_payouts in Hin.
      rewrite Ht, Hs in Hin. by apply list_elem_of_filter in Hin as [_ Hin]. }
    assert (Hinv : rtc works h (h', b).1 /\ settling_leg id payouts (h', b).1); [|by destruct Hinv].
    apply (ofold_inv (settle_each env id) (fun acc _ => rtc works h acc.1 /\ settling_leg id payouts acc.1) (imap pair payouts)
             (h, true) (h', b) []); [done| |exact Hr].
    intros [h1 b1] [i [r x]] acc d Hin [Hs1 Hl1] Hstep. unfold settle_each in Hstep. cbn in Hstep. inv_ok. destruct r0 as [h2 b2].
    inv_ok. subst acc. cbn in *. apply list_elem_of_lookup in Hin as [j Hj]. rewrite list_lookup_imap in Hj.
    destruct (payouts !! j) as [q|] eqn:Eq; cbn in Hj; [|done]. injection Hj as <- ->.
    apply list_elem_of_lookup_2 in Eq.
    match goal with F : settle_one_payout _ _ _ _ _ = Ok _ |- _ => destruct (settle_one_payout_next _ _ _ _ _ _ _ _ Hl1 Eq F) end.
    split; [by eapply rtc_r|done].
Qed.

(** A settlement handler sent [tx] for the leg [k]. *)
Definition sends (h h' : Hub) (k : Uuid * PublicKey) (tx : Transaction) : Prop :=
  works h h' /\ outbox h' = outbox h ++ [tx] /\ sent_tx (disk h') k = Some (Some tx).

(** ** One transaction per leg *)

(** C7: Once the hub has sent a transaction for a winner of a task, then over any history
    of board operations, sweeps, settlements, resends, confirmations, failed writes,
    crashes and restarts in which a task is settled only once it is on disk with its
    payouts fixed, and the leg records of one escrow payout are written all or none,
    every transaction it sends for that winner is the same one, and its record stays
    live and on disk until the winner is marked paid or the payout is abandoned as
    never landed. *)
Theorem leg_is_paid_by_one_transaction h0 h1 k tx1 :
  legs_ok h0 -> sends h0 h1 k tx1 ->
  (forall h2, rtc hub_step h1 h2 ->
     (sent_tx (live h2) k = Some (Some tx1) /\ sent_tx (disk h2) k = Some (Some tx1)) \/
     (sent_tx (live h2) k = None /\ sent_tx (disk h2) k = None /\
      exists t, tb_tasks (disk h2) !! k.1 = Some t /\ (is_recipient_paid t k.2 = true \/ status t = PayoutFailed))) /\
  (forall h2 h3 tx2, rtc hub_step h1 h2 -> sends h2 h3 k tx2 -> tx2 = tx1).
Proof.
  intros Hok (Hw & _ & Hk). destruct (works_keeps _ _ Hok Hw) as [Hok1 _].
  assert (Hfix : leg_fixed (disk h1) k tx1) by (by left). split.
  - intros h2 Hs. destruct (hub_steps_keep _ _ Hs Hok1) as [Hok2 Hf]. rewrite (so_agree _ _ Hok2).
    destruct (Hf _ _ Hfix) as [E|(E & Ht)]; [by left|right]. by split_and!.
  - intros h2 h3 tx2 Hs (Hw3 & _ & Hk3). destruct (hub_steps_keep _ _ Hs Hok1) as [Hok2 Hf].
    destruct (works_keeps _ _ Hok2 Hw3) as [_ Hf3]. destruct (Hf3 _ _ (Hf _ _ Hfix)) as [E|(E & _)]; congruence.
Qed.

End machine.

(** * SettleLive: a payout that is sent is concluded

    Each answer of the node that says whether the transaction landed brings a
    leg to its end: paid, or given up after [MAX_PAYOUT_SUBMISSIONS] sends. *)

Lemma pay_leg_owed id t r x :
  task_wf id t -> settled (status t) = true -> (r, x) ∈ owed_payouts t ->
  exists k full credited, pay_leg t r = Ok (LegPaid k full credited).
Proof.
  intros Hwf Hs Ho. pose proof Ho as Ho'. destruct (by_shares (kind t)) eqn:Hb.
  - apply (elem_of_owed_by_shares Hwf r x Hb) in Ho as (s & Hin & Hk & Hsh & Hp).
    pose proof (wf_keys _ _ Hwf) as Hnd. unfold pay_leg. destruct (kind t) as [hm|c|d]; [done| |]; cbn in *.
    + apply list_elem_of_fmap in Hin as ([k a] & -> & Hin). apply elem_of_btree_iter in Hin. cbn in *. subst k.
      rewrite Hin. cbn. rewrite Hsh. rewrite bool_decide_eq_true_2 by eauto. cbn. rewrite Hp. eauto.
    + destruct (answers d) as [|a0 l0] eqn:El; [done|]. rewrite <-El in *. clear Hb.
      destruct (find_answer (answers d) r) as [[i a]|] eqn:Ef.
      * apply find_answer_Some in Ef as [Hi Ha]. cbn.
        assert (answer_slot a = s) as <-.
        { apply (slot_key_unique _ _ _ Hnd); [|done|cbn; congruence]. apply list_elem_of_fmap. exists a. split; [done|].
          by eapply list_elem_of_lookup_2. }
        cbn in Hsh, Hp. rewrite (bool_decide_eq_true_2 (is_Some (ca_share a))) by (rewrite Hsh; eauto). cbn. rewrite Hp. eauto.
      * exfalso. unfold find_answer in Ef. apply list_find_None in Ef. rewrite Forall_forall in Ef.
        apply list_elem_of_fmap in Hin as (a & -> & Ha). by apply (Ef a Ha).
  - apply elem_of_owed in Ho as [Ho _]. rewrite allocated_single in Ho by done.
    destruct (winner t) as [w|] eqn:Hw; [|by apply not_elem_of_nil in Ho]. apply list_elem_of_singleton in Ho as [= <- _].
    unfold pay_leg, winner, by_shares, dispute_winner in *. destruct (kind t) as [hm|c|d]; [|done|].
    + rewrite Hw, bool_decide_eq_true_2 by done. cbn. eauto.
    + destruct (answers d); [|done]. destruct (dispute d) as [z|]; [destruct (d_resolution z) as [[]|]; [..|done]|];
        rewrite ?Hw; (rewrite bool_decide_eq_true_2 by congruence); cbn; eauto.
Qed.

Section live.
Context `{Primitives, HubKeys}.

(** The node says whether the attempt landed, and the writes commit. *)
Definition decisive (a : PayoutAttempt) (env : ResolveEnv) : Prop :=
  re_commits env = true /\ (forall i, se_commits (re_submit env) i = true) /\
  exists ru su, re_recipient env = Some ru /\ re_source env = Some su /\
    attempt_resolve a ru su ∈ [Confirmed; NeverLanded].

(** A leg in flight. *)
Record in_flight (h : Hub) (id : Uuid) (r : PublicKey) (a : PayoutAttempt) : Prop := {
  if_ok : legs_ok h;
  if_attempt : payout_attempt (live h) id r = Some a;
  if_task : exists t x, tb_tasks (live h) !! id = Some t /\ is_settling (status t) = true /\ (r, x) ∈ owed_payouts t;
  if_room : completed (reputation (live h) r) < U64_MAX /\ total_earned (reputation (live h) r) + pa_amount a <= U64_MAX
}.

(** Its end: recorded alike on the board and on disk, with no attempt left. *)
Definition concluded (h : Hub) (id : Uuid) (r : PublicKey) : Prop :=
  payout_attempt (live h) id r = None /\ payout_attempt (disk h) id r = None /\
  exists t, tb_tasks (live h) !! id = Some t /\ tb_tasks (disk h) !! id = Some t /\
    (is_recipient_paid t r = true \/ status t = PayoutFailed).

(** Every attempt can be counted [n] more times. *)
Definition countable (tb : TaskBoard) (n : N) : Prop :=
  forall k b, tb_attempts tb !! k = Some b -> pa_submissions b + n <= U32_MAX.

Lemma record_confirmed_progress now h id r a :
  in_flight h id r a ->
  exists h' b, record_confirmed_payout true now h id r (pa_amount a) = Ok (h', b) /\ concluded h' id r.
Proof.
  intros [Hok Ha (t & x & Ht & Hs & Ho) [Hc He]].
  assert (Hwf : task_wf id t) by (by apply (so_live _ _ Hok)).
  destruct (pay_leg_owed id t r x Hwf ltac:(by destruct (status t)) Ho) as (k & full & credited & Hl).
  assert (exists tb1 f, mark_recipient_paid (live h) id r (pa_amount a) now = Ok (tb1, f)) as (tb1 & f & Hm).
  { unfold mark_recipient_paid. rewrite Ht. cbn. rewrite Hs. cbn. rewrite Hl. cbn. unfold add_earning.
    unfold put_task. rewrite !reputation_with_tasks. destruct credited; cbn; rewrite ?add64_fits by (cbn; lia); cbn; rewrite ?add64_fits by (cbn; lia); eauto. }
  destruct (mark_paid_facts _ _ _ _ _ _ _ (so_live _ _ Hok) Hm) as (t0 & t' & Ht0 & _ & Et & Hwf' & _ & Hp & _).
  unfold record_confirmed_payout. rewrite Hm. cbn [clear_payout_attempt fst with_attempts tb_tasks].
  rewrite Et, lookup_insert_eq. cbn. eexists _, _. split; [done|]. unfold concluded, payout_attempt. cbn.
  rewrite (wf_id _ _ Hwf'), Et, !lookup_delete_eq, !lookup_insert_eq. split_and!; eauto.
Qed.

Lemma abandon_progress h id r a :
  in_flight h id r a -> leg_key a = (id, r) -> exists h', abandon_payout true h a = Ok h' /\ concluded h' id r.
Proof.
  intros [Hok Ha (t & x & Ht & Hs & Ho) _] Hk. injection Hk as Hid Hr.
  unfold abandon_payout. rewrite Hid.
  destruct (mark_payout_failed (live h) id) as [[tb1 dropped]|e|] eqn:Em;
    [|unfold mark_payout_failed in Em; rewrite Ht in Em; cbn in Em; rewrite Hs in Em; discriminate..].
  destruct (mark_payout_failed_shape _ _ _ _ Em) as (t0 & Ht0 & _ & Et & Hatt).
  destruct (mark_payout_failed_dropped _ _ _ _ Em) as [_ Hdrop]. replace t0 with t in * by congruence.
  rewrite Et, lookup_insert_eq. cbn [expect mbind outcome_bind save_task_and_drop_payout_attempts]. eexists. split; [done|].
  unfold concluded, payout_attempt. cbn [live disk with_boards].
  pose proof (dropped_on_disk h id dropped (set_status t PayoutFailed) Hok Hdrop (id, r)) as Hd. rewrite decide_True in Hd by done.
  destruct (clear_legs_frame ((fun a => leg_key a) <$> dropped) (restore_task (disk h) (set_status t PayoutFailed))) as [F1 _].
  split; [by rewrite Hatt, decide_True|]. split; [done|]. exists (set_status t PayoutFailed).
  split; [by rewrite Et, lookup_insert_eq|]. split; [|by right]. rewrite F1. cbn.
  by rewrite (wf_id _ _ (so_live _ _ Hok id t Ht)), lookup_insert_eq.
Qed.

(** *** Sending once more *)
Definition bumped (now : DateTime) (a : PayoutAttempt) : PayoutAttempt :=
  mkAttempt (pa_task_id a) (pa_recipient a) (pa_amount a) (pa_output_hash a) (pa_spent_inputs a)
    (pa_source a) now (pa_submissions a + 1) (pa_transaction a).

Lemma bump_all_runs now l :
  Forall (fun a => pa_submissions a < U32_MAX) l -> bump_all now l = Ok (bumped now <$> l).
Proof.
  induction 1 as [|a l Ha _ IH]; [done|]. cbn. unfold bump, next32. apply N.ltb_lt in Ha. rewrite Ha. cbn.
  by rewrite IH.
Qed.

Lemma save_attempts_all commits l : (forall i, commits i = true) ->
  forall i d, exists d', save_attempts commits i d l = (d', true).
Proof. intros Hc. induction l as [|a l IH]; intros i d; cbn; [eauto|]. unfold save_payout_attempt. rewrite Hc. apply IH. Qed.

Lemma attempts_reputation l r : forall tb, reputation (foldl record_payout_attempt tb l) r = reputation tb r.
Proof.
  induction l as [|a l IH]; intros tb; [done|]. cbn. rewrite IH. unfold record_payout_attempt. by repeat case_match.
Qed.

Lemma elem_of_legs tb id tx a :
  attempts_ok tb ->
  a ∈ legs_of tb id tx <-> pa_transaction a = Some tx /\ pa_task_id a = id /\ tb_attempts tb !! leg_key a = Some a.
Proof.
  intros Hok. unfold legs_of, payout_attempts_for_task. rewrite list_elem_of_filter, list_elem_of_fmap.
  setoid_rewrite list_elem_of_filter. split.
  - intros [Htx ([k b] & -> & Hk & Hin)]. apply elem_of_btree_iter in Hin. cbn in *.
    destruct (Hok k b Hin) as [E _]. by rewrite <-Hk, <-E in *.
  - intros (Htx & Hid & Hin). split; [done|]. exists (leg_key a, a). by rewrite elem_of_btree_iter.
Qed.

Lemma resend_progress env h id r a n :
  in_flight h id r a -> leg_key a = (id, r) -> (forall i, se_commits env i = true) -> countable (live h) (n + 1) ->
  exists h', resend_lost_payout env h a = Ok h' /\ in_flight h' id r (bumped (se_now env) a) /\ countable (live h') n.
Proof.
  intros Hfl Hk Hc Hn. pose proof Hfl as [Hok Ha (t & x & Ht & Hs & Ho) Hroom]. injection Hk as Hid Hr.
  destruct (so_live_attempts _ _ Hok _ _ Ha) as [_ [tx Htx]]. pose proof (so_live_attempts _ _ Hok) as Hatt.
  set (legs := legs_of (live h) id tx). set (next := bumped (se_now env) <$> legs).
  assert (Hb : bump_all (se_now env) legs = Ok next).
  { apply bump_all_runs, Forall_forall. intros b Hb. apply elem_of_legs in Hb as (_ & _ & Hb); [|done].
    specialize (Hn _ _ Hb). lia. }
  destruct (save_attempts_all (se_commits env) next Hc 0%nat (disk h)) as [d' Hsave].
  assert (Hrun : resend_lost_payout env h a =
    Ok (submitted (with_boards h (foldl record_payout_attempt (live h) next) d') tx)).
  { unfold resend_lost_payout. rewrite Hid, Hr, Ht, Ha, bool_decide_eq_true_2 by done. cbn [negb]. rewrite Htx.
    fold (legs_of (live h) id tx). fold legs. rewrite Hb. cbn. by rewrite Hsave. }
  eexists. split; [exact Hrun|].
  destruct (resend_lost_payout_ok _ _ _ _ Hok Hrun) as [[Hok' _] _].
  destruct (quiet_attempts next (live h) (so_live _ _ Hok)) as (Hq & Al & _).
  assert (Hin : forall b, b ∈ next -> exists c, b = bumped (se_now env) c /\ tb_attempts (live h) !! leg_key b = Some c).
  { intros b Hb'. apply list_elem_of_fmap in Hb' as (c & -> & Hc'). exists c. split; [done|].
    by apply elem_of_legs in Hc' as (_ & _ & ?). }
  split; [split|]; cbn [live submitted with_boards].
  - exact Hok'.
  - unfold payout_attempt. rewrite Al. destruct (put_attempts_lookup next (tb_attempts (live h)) (id, r)) as [[_ Hno]|(b & Hb' & E & ->)].
    + destruct Hno. apply list_elem_of_fmap. exists (bumped (se_now env) a). split; [by rewrite <-Hid, <-Hr|].
      apply list_elem_of_fmap. exists a. split; [done|]. apply elem_of_legs; [done|]. by rewrite Hid, Hr.
    + destruct (Hin b Hb') as (c & -> & Hc'). rewrite E in Hc'. unfold payout_attempt in Ha. congruence.
  - destruct (attempts_settling next id _ _ Ht Hs) as (t' & Ht' & Hs'). exists t', x. split; [done|]. split; [done|].
    destruct (q_tasks _ _ Hq id t Ht) as (t2 & Ht2 & Hh). replace t2 with t' in * by congruence.
    rewrite <-(owed_same t t'); [done|done|by destruct (status t)|]. intros q. by apply (q_paid _ _ Hq id).
  - by rewrite attempts_reputation.
  - intros k b. rewrite Al. destruct (put_attempts_lookup next (tb_attempts (live h)) k) as [[-> _]|(c & Hc' & <- & ->)].
    + intros Hb'. specialize (Hn _ _ Hb'). lia.
    + intros [= <-]. destruct (Hin c Hc') as (e & -> & He). specialize (Hn _ _ He). cbn. lia.
Qed.

Lemma resolve_progress env h id r a n :
  in_flight h id r a -> decisive a env -> countable (live h) (n + 1) ->
  exists h' b, resolve_payout_attempt env h a = Ok (h', b) /\
    (concluded h' id r \/
     (pa_submissions a < MAX_PAYOUT_SUBMISSIONS /\ in_flight h' id r (bumped (se_now (re_submit env)) a) /\ countable (live h') n)).
Proof.
  intros Hfl (Hc & Hcs & ru & su & Eru & Esu & Hout) Hn. unfold resolve_payout_attempt. rewrite Eru, Esu, Hc.
  destruct (so_live_attempts _ _ (if_ok _ _ _ _ Hfl) _ _ (if_attempt _ _ _ _ Hfl)) as [Hk _].
  injection Hk as Hid Hr. destruct (attempt_resolve a ru su); [| |set_solver..].
  - rewrite Hid, Hr, bool_decide_eq_true_2 by apply Hfl. cbn [negb].
    destruct (record_confirmed_progress (re_now env) h id r a Hfl) as (h' & b & -> & ?). eauto.
  - destruct (MAX_PAYOUT_SUBMISSIONS <=? pa_submissions a) eqn:Em.
    + destruct (abandon_progress h id r a Hfl ltac:(by rewrite Hid, Hr)) as (h' & -> & ?). cbn. eauto.
    + apply N.leb_gt in Em.
      destruct (resend_progress (re_submit env) h id r a n Hfl ltac:(by rewrite Hid, Hr) Hcs Hn) as (h' & -> & ? & ?).
      cbn. eauto 10.
Qed.

(** The sweep's visit to the leg. *)
Definition visit (id : Uuid) (r : PublicKey) (h : Hub) (env : ResolveEnv) : outcome SettleError Hub :=
  match payout_attempt (live h) id r with
  | Some a => '(h', _) ← resolve_payout_attempt env h a; Ok h'
  | None => Ok h
  end.

Lemma visits_after id r envs h : concluded h id r -> ofold (visit id r) h envs = Ok h.
Proof.
  intros Hc. induction envs as [|env envs IH]; [done|]. cbn. unfold visit at 2. destruct Hc as [Hn Hc].
  rewrite Hn. exact IH.
Qed.

Lemma visits_conclude id r envs : forall n h a,
  in_flight h id r a -> countable (live h) (n + 1) -> MAX_PAYOUT_SUBMISSIONS <= pa_submissions a + n ->
  Forall (decisive a) envs -> n < N.of_nat (length envs) ->
  exists h', ofold (visit id r) h envs = Ok h' /\ concluded h' id r.
Proof.
  induction envs as [|env envs IH]; intros n h a Hfl Hn Hmax Hdec Hlen; [cbn in Hlen; lia|].
  apply Forall_cons in Hdec as [Hd Hdec].
  destruct (resolve_progress env h id r a n Hfl Hd Hn) as (h1 & b & Hrun & Hcase).
  cbn. unfold visit at 2. rewrite (if_attempt _ _ _ _ Hfl), Hrun. cbn.
  destruct Hcase as [Hc|(Hlt & Hfl1 & Hn1)]; [exists h1; split; [by apply visits_after|done]|].
  apply (IH (n - 1) h1 (bumped (se_now (re_submit env)) a)); [done| |cbn; lia| |cbn [length] in Hlen; lia].
  - intros k c Hc. specialize (Hn1 k c Hc). lia.
  - exact Hdec.
Qed.

(** C9: A payout in flight concludes: when the node's answers about its transaction are
    decisive, every write commits and the winner's and the attempts' counters have
    room, at most one more visit of the sweep than the submission limit marks the
    winner paid or abandons the payout, and none of the visits panics. *)
Theorem payout_concludes h id r a envs :
  in_flight h id r a -> countable (live h) (MAX_PAYOUT_SUBMISSIONS + 1) ->
  Forall (decisive a) envs -> MAX_PAYOUT_SUBMISSIONS < N.of_nat (length envs) ->
  exists h', ofold (visit id r) h envs = Ok h' /\ concluded h' id r.
Proof. intros Hfl Hn Hd Hlen. apply (visits_conclude id r envs MAX_PAYOUT_SUBMISSIONS h a); try done. lia. Qed.

End live.

(** * SettleTorn: an escrow's payout recorded in part

    The leg records of one payout are written one after the other. A failure
    after the first leaves a record of a transaction that pays every winner,
    for one of them. *)

(** The transaction pays every leg, at the leg's position. *)
Definition pays_all (tx : Transaction) (l : list (PublicKey * N)) : Prop :=
  forall i r x, l !! i = Some (r, x) -> exists o, outputs tx !! i = Some o /\ pubkey o = r /\ value o = x.

Section torn.
Context `{Primitives, HubKeys}.

Lemma plan_attempts_pay tb id source now tx l : forall attempts,
  plan_attempts tb id source now tx l = Ok attempts ->
  forall i r x, (i, (r, x)) ∈ l -> exists o, outputs tx !! i = Some o /\ pubkey o = r /\ value o = x.
Proof.
  induction l as [|[i [r x]] l IH]; intros attempts Hp j q y Hin; [by apply not_elem_of_nil in Hin|].
  cbn [plan_attempts] in Hp. apply bind_Ok in Hp as (a & Ha & Hp). apply bind_Ok in Hp as (rest & Hr & _).
  apply elem_of_cons in Hin as [[= -> -> ->]|Hin]; [|by eapply IH].
  unfold plan_attempt in Ha. apply bind_Ok in Ha as (o & Ho & _). destruct (outputs tx !! i) as [o'|]; cbn in Ho; [|done].
  destruct (bool_decide (pubkey o' = r)) eqn:E1; [|done]. destruct (value o' =? x) eqn:E2; [|done]. cbn in Ho. injection Ho as <-.
  apply bool_decide_eq_true in E1. apply N.eqb_eq in E2. eauto.
Qed.

Lemma plan_pays_all env tb id sk pk l change tx attempts :
  plan_task_payout env tb id sk pk l change = Ok (tx, attempts) -> pays_all tx l.
Proof.
  unfold plan_task_payout. intros Hp. apply bind_Ok in Hp as (tx' & _ & Hp). apply bind_Ok in Hp as (l' & Hp & [= -> ->]).
  intros i r x Hi. eapply (plan_attempts_pay _ _ _ _ _ _ _ Hp). apply elem_of_lookup_imap. eauto.
Qed.

Lemma nodup_singleton {A} (l : list A) y : NoDup l -> (forall x, x ∈ l <-> x = y) -> l = [y].
Proof.
  intros Hnd Hl. destruct l as [|x l]; [destruct (Hl y) as [_ Hy]; by apply not_elem_of_nil in Hy; [|done]|].
  apply NoDup_cons in Hnd as [Hx _]. assert (x = y) as -> by (apply Hl; by left). destruct l as [|z l]; [done|].
  destruct Hx. assert (z = y) as -> by (apply Hl; by right; left). by left.
Qed.

(** A record that is alone for its task is the only leg of its transaction. *)
Lemma legs_of_alone tb id r a tx :
  (forall q, q <> r -> tb_attempts tb !! (id, q) = None) -> tb_attempts tb !! (id, r) = Some a ->
  pa_transaction a = Some tx -> legs_of tb id tx = [a].
Proof.
  intros Hn Ha Htx. unfold legs_of, payout_attempts_for_task.
  set (l := base.filter _ (btree_iter _)). assert (Hl : l = [((id, r), a)]).
  { apply nodup_singleton.
    - apply NoDup_filter. rewrite btree_iter_perm. apply NoDup_map_to_list.
    - intros [[i q] b]. unfold l. rewrite list_elem_of_filter, elem_of_btree_iter. cbn. split.
      + intros [-> Hb]. destruct (decide (q = r)) as [->|Hne]; [congruence|]. by rewrite Hn in Hb.
      + by intros [= -> -> ->]. }
  rewrite Hl. cbn. by rewrite decide_True.
Qed.

(** A task whose payout one transaction from its escrow will make, with two or
    more winners owed, nothing recorded yet, and the board on disk. *)
Record escrowed_pair (h : Hub) (id : Uuid) (t : Task) (d : PendingDeposit) (r : PublicKey) (x : N)
    (rest : list (PublicKey * N)) : Prop := {
  ep_wf : task_wf id t;
  ep_live : tb_tasks (live h) !! id = Some t;
  ep_disk : tb_tasks (disk h) !! id = Some t;
  ep_status : status t = Verified;
  ep_funding : exists e, escrow_id t = Some e /\ tb_deposits (live h) !! e = Some d /\ tb_deposits (disk h) !! e = Some d;
  ep_owed : owed_payouts t = (r, x) :: rest;
  ep_more : rest <> [];
  ep_fresh : forall q, tb_attempts (live h) !! (id, q) = None /\ tb_attempts (disk h) !! (id, q) = None
}.

(** The plan for the task's payout from its escrow. *)
Definition plan_escrow (env : SubmitEnv) (tb : TaskBoard) (id : Uuid) (t : Task) (d : PendingDeposit) :=
  plan_task_payout env tb id (private_key d) (deposit_pubkey d) (owed_payouts t) (depositor d).

Lemma owed_nodup id t : task_wf id t -> NoDup (owed_payouts t).*1.
Proof.
  intros Hwf. eapply sublist_NoDup; [by eapply wf_allocated_nodup|]. apply fmap_sublist, sublist_filter.
Qed.

Lemma filter_everything {A} (P : A -> Prop) `{forall x, Decision (P x)} l : Forall P l -> base.filter P l = l.
Proof. induction 1 as [|y l Hy _ IH]; [done|]. by rewrite filter_cons_True, IH. Qed.

(** The board with one leg's record: the others are still to be sent. *)
Lemma one_leg_unsubmitted tb id t r x rest a :
  task_wf id t -> tb_tasks tb !! id = Some t -> status t = Verified -> owed_payouts t = (r, x) :: rest ->
  (forall q, q <> r -> tb_attempts tb !! (id, q) = None) -> leg_key a = (id, r) ->
  unsubmitted_payouts (restore_payout_attempt tb a) id = rest.
Proof.
  intros Hwf Ht Hs Ho Hn Hk. unfold unsubmitted_payouts. cbn. rewrite Ht. unfold pending_payouts. rewrite Hs. cbn.
  pose proof (owed_nodup id t Hwf) as Hnd. rewrite Ho in Hnd |- *. apply NoDup_cons in Hnd as [Hr _].
  rewrite Hk. rewrite filter_cons_False by (cbn; rewrite lookup_insert_eq; done).
  apply filter_everything, Forall_forall. intros [q y] Hq.
  assert (q <> r) by (intros ->; apply Hr, list_elem_of_fmap; by exists (r, y)).
  cbn. rewrite lookup_insert_ne by congruence. by apply Hn.
Qed.

(** Sending again what a lone record says: its transaction goes to the node, and
    the legs without a record stay to be sent. *)
Lemma lone_leg_resent env h id t r x rest tx a :
  task_wf id t -> tb_tasks (live h) !! id = Some t -> status t = Verified -> owed_payouts t = (r, x) :: rest -> rest <> [] ->
  (forall q, q <> r -> tb_attempts (live h) !! (id, q) = None) -> tb_attempts (live h) !! (id, r) = Some a ->
  leg_key a = (id, r) -> pa_transaction a = Some tx -> pa_submissions a = 1 -> (forall i, se_commits env i = true) ->
  exists h3, resend_lost_payout env h a = Ok h3 /\ outbox h3 = outbox h ++ [tx] /\
    tb_tasks (live h3) !! id = Some t /\ tb_deposits (live h3) = tb_deposits (live h) /\ unsubmitted_payouts (live h3) id = rest.
Proof.
  intros Hwf Ht Hs Ho Hm Hn Ha Hk Htx Hsub Hc. pose proof Hk as Hk'. injection Hk as Hid Hr. unfold resend_lost_payout.
  rewrite Hid, Ht, Hr. unfold payout_attempt. rewrite Ha, bool_decide_eq_true_2 by done. cbn [negb]. rewrite Htx.
  fold (legs_of (live h) id tx). rewrite (legs_of_alone (live h) id r a tx) by done.
  unfold bump_all, bump. rewrite Hsub. cbn [next32 mbind outcome_bind]. change (next32 (E := SettleError) 1) with (Ok (E := SettleError) 2).
  cbn [mbind outcome_bind]. rewrite Hid, Hr, Htx. set (a' := mkAttempt _ _ _ _ _ _ _ _ _).
  destruct (save_attempts_all (se_commits env) [a'] Hc 0%nat (disk h)) as [d' ->]. cbn [negb foldl].
  assert (Hul : unsubmitted_payouts (restore_payout_attempt (live h) a') id = rest) by (by eapply one_leg_unsubmitted).
  assert (Hrec : record_payout_attempt (live h) a' = restore_payout_attempt (live h) a').
  { unfold record_payout_attempt. cbn [pa_task_id a']. rewrite Hul. by destruct rest. }
  rewrite Hrec. eexists. split; [done|]. by split_and!.
Qed.

(** Settling a task of an escrow that still has a leg to send. *)
Lemma try_settle_escrow env h id t e d tx attempts :
  tb_tasks (live h) !! id = Some t -> status t = Verified -> escrow_id t = Some e -> tb_deposits (live h) !! e = Some d ->
  unsubmitted_payouts (live h) id <> [] -> owed_payouts t <> [] ->
  plan_escrow (env 0%nat) (live h) id t d = Ok (tx, attempts) ->
  try_settle_verified_task env h id = reported (carry_out (env 0%nat) h id tx attempts).
Proof.
  intros Ht Hs He Hd Hu Ho Hp. unfold try_settle_verified_task. rewrite Ht, Hs. cbn [is_settling negb].
  destruct (unsubmitted_payouts (live h) id) as [|u us]; [done|]. rewrite decide_False by done.
  unfold funding. rewrite He. cbn. rewrite Hd. unfold settle_escrow_funded_task. rewrite Ht.
  destruct (owed_payouts t) as [|w ws] eqn:Eo; [done|]. unfold submit_task_payout. unfold plan_escrow in Hp. rewrite Eo in Hp. by rewrite Hp.
Qed.

(** C37: For any escrow-funded task with two or more winners owed and nothing recorded
    yet: when the record of the first leg is written and the next one fails, nothing
    is sent, but after a restart a sweep that finds the recorded transaction never
    landed sends it, and it pays every winner; the task still has legs without a
    record, so the next settlement that finds outputs to spend builds and sends
    another transaction that pays every winner again. *)
Theorem partial_record_pays_twice h id t d r x rest env tx attempts :
  escrowed_pair h id t d r x rest -> plan_escrow env (live h) id t d = Ok (tx, attempts) ->
  se_commits env 0%nat = true -> se_commits env 1%nat = false ->
  exists h1 a, try_settle_verified_task (fun _ => env) h id = Ok (h1, false) /\ outbox h1 = outbox h /\
    payout_attempt (disk h1) id r = Some a /\
    forall renv ru su, re_recipient renv = Some ru -> re_source renv = Some su -> attempt_resolve a ru su = NeverLanded ->
      (forall i, se_commits (re_submit renv) i = true) ->
      exists h3, resolve_payout_attempt renv (rebooted h1 (outbox h1)) a = Ok (h3, false) /\ outbox h3 = outbox h ++ [tx] /\
        forall env4 tx2 attempts2, plan_escrow (env4 0%nat) (live h3) id t d = Ok (tx2, attempts2) ->
          (forall i, se_commits (env4 0%nat) i = true) ->
          exists h4 b, try_settle_verified_task env4 h3 id = Ok (h4, b) /\ outbox h4 = outbox h ++ [tx; tx2] /\
            pays_all tx (owed_payouts t) /\ pays_all tx2 (owed_payouts t).
Proof.
  intros [Hwf Ht Htd Hs (e & He & Hd & Hdd) Ho Hm Hn] Hp Hc0 Hc1.
  pose proof (plan_pays_all _ _ _ _ _ _ _ _ _ Hp) as Hpay.
  assert (exists a a2 l, attempts = a :: a2 :: l /\ leg_key a = (id, r) /\ pa_transaction a = Some tx /\ pa_submissions a = 1)
    as (a & a2 & l & -> & Hk & Htx & Hsub).
  { destruct rest as [|[r2 x2] rest]; [done|]. unfold plan_escrow, plan_task_payout in Hp. rewrite Ho in Hp.
    apply bind_Ok in Hp as (tx' & _ & Hp). apply bind_Ok in Hp as (l' & Hp & [= -> ->]). cbn [imap plan_attempts] in Hp.
    apply bind_Ok in Hp as (a & Ha & Hp). apply bind_Ok in Hp as (l1 & Hp & [= <-]). cbn [imap plan_attempts] in Hp.
    apply bind_Ok in Hp as (a2 & _ & Hp). apply bind_Ok in Hp as (l2 & _ & [= <-]). exists a, a2, l2. split; [done|].
    unfold plan_attempt in Ha. apply bind_Ok in Ha as (o & _ & Ha). unfold payout_attempt in Ha. rewrite (proj1 (Hn r)) in Ha.
    cbn in Ha. by injection Ha as <-. }
  assert (Hund : unsubmitted_payouts (live h) id <> []).
  { unfold unsubmitted_payouts, pending_payouts. rewrite Ht, Hs. cbn. rewrite Ho, filter_cons_True by apply Hn. done. }
  set (h1 := with_boards h (live h) (restore_payout_attempt (disk h) a)). exists h1, a. split_and!; [|done| |].
  { rewrite (try_settle_escrow _ h id t e d tx (a :: a2 :: l)) by (done || by rewrite Ho). unfold carry_out. cbn [save_attempts].
    unfold save_payout_attempt. by rewrite Hc0, Hc1. }
  { unfold payout_attempt, h1. cbn. by rewrite Hk, lookup_insert_eq. }
  intros renv ru su Hru Hsu Hres Hcs. unfold resolve_payout_attempt. rewrite Hru, Hsu, Hres, Hsub. cbn [N.leb N.compare].
  change (MAX_PAYOUT_SUBMISSIONS <=? 1) with false. cbn iota.
  destruct (lone_leg_resent (re_submit renv) (rebooted h1 (outbox h1)) id t r x rest tx a) as (h3 & Hr & Hout & Htl & Hdl & Hul); try done.
  { intros q Hq. cbn. rewrite Hk, lookup_insert_ne by congruence. apply Hn. }
  { cbn. by rewrite Hk, lookup_insert_eq. }
  rewrite Hr. cbn [mbind outcome_bind]. exists h3. split_and!; [done|done|]. intros env4 tx2 attempts2 Hp4 Hc4.
  rewrite (try_settle_escrow _ h3 id t e d tx2 attempts2);
    [|done|done|done|by rewrite Hdl|by rewrite Hul|by rewrite Ho|done].
  unfold carry_out. destruct (save_attempts_all (se_commits (env4 0%nat)) attempts2 Hc4 0%nat (disk h3)) as [d4 ->]. cbn [negb].
  eexists _, (se_acknowledged (env4 0%nat)). split_and!; [by destruct (se_acknowledged (env4 0%nat))| |done|by eapply plan_pays_all].
  cbn. by rewrite Hout, <-app_assoc.
Qed.
End torn.
