(* ===== verification/Sweep.v ===== *)
(** * Sweep: the hub's periodic pass

    Models [run_sweep_once] and [persist_task_by_id] of [hub/src/main.rs]: the
    order in which a pass resolves payments, moves tasks past their deadlines,
    writes them, refunds, resolves and sends payouts, and reshapes the wallets.
    Definitions only.

    The clean-up of the replay guard, the faucet's challenges and the rate
    limits works on state of its own and is left out here, as are the gauges. *)

From S2P Require Import Prelude Types Crypto Transaction Spend BoardTypes Exchange Tasks Board Payouts Payments Wallets Settlement.

(** The loops of a pass, in order. *)
Inductive Stage : Type :=
| StageExpired | StageUnderstaffed | StageResolved | StageFinalized | StageUnclosed | StageSplit
| StageUnrefunded | StageOverdue | StageBonds | StageDeposits.

Record WalletEnv := mkWalletEnv {
  we_fresh : nat -> Uuid;
  we_utxos : option (list Utxo);
  we_inflight : list Hash
}.

(** What the outside answers during a pass. *)
Record SweepEnv := mkSweepEnv {
  sw_now : DateTime;
  sw_payment_commits : bool;
  sw_views : Payment -> NodeView;
  sw_commits : Stage -> Uuid -> bool;
  sw_disburse : Stage -> Uuid -> DisburseEnv;
  sw_resolve : PayoutAttempt -> ResolveEnv;
  sw_settle : Uuid -> nat -> SubmitEnv;
  sw_operator : WalletEnv;
  sw_custody : WalletEnv;
  sw_custody_key : PrivateKey;
  sw_wallet_outputs : nat
}.

(** [persist_task_by_id]: a failed write is logged. *)
Definition persist_task_by_id (commits : bool) (h : Hub) (task_id : Uuid) : Hub :=
  match tb_tasks (live h) !! task_id with
  | Some t => with_boards h (live h) (save_task commits (disk h) t)
  | None => h
  end.

(** [HubStore::save_task_and_reputation_batch] *)
Definition save_task_and_reputation_batch (commits : bool) (d : TaskBoard) (t : Task)
    (entries : list (PublicKey * Reputation)) : TaskBoard :=
  if commits then foldl (fun d e => restore_reputation d e.1 e.2) (restore_task d t) entries else d.

(** Another error type: only [Panic] is kept. *)
Definition absorb {E E' A} (a : A) (o : outcome E A) : outcome E' A :=
  match o with Ok b => Ok b | Err _ => Ok a | Panic => Panic end.

Section sweep.
Context `{Primitives, HubKeys}.
Implicit Types (env : SweepEnv) (h : Hub).

Definition with_live (h : Hub) (l : TaskBoard) : Hub := with_boards h l (disk h).

(** The bodies of the loops. *)
Definition sweep_persist env (s : Stage) h (task_id : Uuid) : outcome SettleError Hub :=
  Ok (persist_task_by_id (sw_commits env s task_id) h task_id).
Definition sweep_close env (s : Stage) h (task_id : Uuid) : outcome SettleError Hub :=
  refund_closed_task_escrow (sw_disburse env s task_id)
    (persist_task_by_id (sw_commits env s task_id) h task_id) task_id.
Definition sweep_resolved env h (task_id : Uuid) : outcome SettleError Hub :=
  match tb_tasks (live h) !! task_id with
  | None => Ok h
  | Some t =>
      let entries := (fun who => (who, reputation (live h) who)) <$> consensus_assignees t in
      let h1 := with_boards h (live h)
        (save_task_and_reputation_batch (sw_commits env StageResolved task_id) (disk h) t entries) in
      if decide (status t = Closed)
      then refund_closed_task_escrow (sw_disburse env StageResolved task_id) h1 task_id
      else Ok h1
  end.
Definition sweep_attempt env h (a : PayoutAttempt) : outcome SettleError Hub :=
  if Z.ltb (sw_now env - seconds PAYOUT_RESOLUTION_GRACE_SECONDS)%Z (pa_submitted_at a) then Ok h
  else '(h', _) ← resolve_payout_attempt (sw_resolve env a) h a; Ok h'.
Definition sweep_settle env h (task_id : Uuid) : outcome SettleError Hub :=
  '(h', _) ← try_settle_verified_task (sw_settle env task_id) h task_id; Ok h'.
Definition sweep_bond env h (task_id : Uuid) : outcome SettleError Hub :=
  '(h', _) ← settle_dispute_bond (sw_disburse env StageBonds task_id) h task_id; Ok h'.
Definition sweep_deposit env h (deposit_id : Uuid) : outcome SettleError Hub :=
  '(h', _) ← sweep_exchange_deposit (sw_disburse env StageDeposits deposit_id) h deposit_id; Ok h'.
Definition sweep_wallet (custody : bool) (public_key : PublicKey) (private_key : PrivateKey) (w : WalletEnv)
    (floor : nat) h : outcome SettleError Hub :=
  '(h', _) ← cannot_fund (maintain_wallet custody public_key private_key (we_fresh w) (we_utxos w) floor h
                            (we_inflight w));
  Ok h'.

(** The first half: payments, and the tasks whose deadlines passed. *)
Definition sweep_board env h : outcome SettleError Hub :=
  let now := sw_now env in
  h ← absorb h (resolve_all (sw_payment_commits env) (sw_views env) h now);
  let '(l, reopened) := expire_claims (live h) now in
  h ← ofold (sweep_persist env StageExpired) (with_live h l) reopened;
  let '(l, cancelled) := cancel_understaffed_consensus_tasks (live h) now in
  h ← ofold (sweep_close env StageUnderstaffed) (with_live h l) cancelled;
  '(l, resolved) ← absorb (live h, []) (resolve_expired_consensus_tasks (live h) now);
  h ← ofold (sweep_resolved env) (with_live h l) resolved;
  let '(l, finalized) := finalize_unchallenged_disputable_tasks (live h) now in
  h ← ofold (sweep_persist env StageFinalized) (with_live h l) finalized;
  let '(l, unclosed) := close_unclosed_contests (live h) now in
  h ← ofold (sweep_close env StageUnclosed) (with_live h l) unclosed;
  let '(l, split) := split_unpicked_contests (live h) now in
  ofold (sweep_persist env StageSplit) (with_live h l) split.

(** The second half: refunds, payouts, bonds, deposits and wallets. *)
Definition sweep_money env h : outcome SettleError Hub :=
  let now := sw_now env in
  h ← ofold (fun h id => refund_closed_task_escrow (sw_disburse env StageUnrefunded id) h id) h
        (closed_tasks_with_unrefunded_escrow (live h));
  h ← ofold (fun h d => refund_escrow (sw_disburse env StageOverdue (pd_id d)) h d) h
        (overdue_reserved_escrows (live h) now);
  h ← ofold (sweep_attempt env) h (outstanding_payout_attempts (live h));
  h ← ofold (sweep_settle env) h (t_id <$> verified_unpaid_tasks (live h));
  h ← ofold (sweep_bond env) h (tasks_with_unsettled_dispute_bonds (live h));
  h ← ofold (sweep_deposit env) h (unswept_exchange_deposits (live h));
  h ← sweep_wallet false operator_public_key operator_private_key (sw_operator env) (sw_wallet_outputs env) h;
  sweep_wallet true exchange_custody_public_key (sw_custody_key env) (sw_custody env) (sw_wallet_outputs env) h.

(** [run_sweep_once] *)
Definition run_sweep_once env h : outcome SettleError Hub := h ← sweep_board env h; sweep_money env h.

End sweep.

(** * SweepTheorems: a pass of the sweep is a run of the hub

    Everything the sweep does about money outside the payouts leaves tasks and
    attempts alone ([aside]); its board operations record no payment; and a
    whole pass whose writes commit is a sequence of [hub_step]s, so it keeps
    what [SettleTheorems] shows of payouts. *)

From S2P Require Import BoardInv BoardStep PayoutStep BoardTheorems PaymentInv SettleInv SettleStep SettleTheorems.

(** ** Money that is not a payout *)

(** Tasks and attempts are untouched and no deposit is lost. *)
Definition aside1 (tb tb' : TaskBoard) : Prop :=
  tb_tasks tb' = tb_tasks tb /\ tb_attempts tb' = tb_attempts tb /\
  forall e, is_Some (tb_deposits tb !! e) -> is_Some (tb_deposits tb' !! e).
(** Every deposit the live board knows is on disk. *)
Definition covered (h : Hub) : Prop :=
  forall e, is_Some (tb_deposits (live h) !! e) -> is_Some (tb_deposits (disk h) !! e).
Definition aside (h h' : Hub) : Prop :=
  aside1 (live h) (live h') /\ aside1 (disk h) (disk h') /\ (covered h -> covered h').

Lemma aside1_refl tb : aside1 tb tb.
Proof. by split_and!. Qed.
Lemma aside1_trans tb1 tb2 tb3 : aside1 tb1 tb2 -> aside1 tb2 tb3 -> aside1 tb1 tb3.
Proof. intros (A1 & A2 & A3) (B1 & B2 & B3). split_and!; [congruence..|auto]. Qed.
Lemma aside_refl h : aside h h.
Proof. split_and!; [apply aside1_refl..|done]. Qed.
Lemma aside_trans h1 h2 h3 : aside h1 h2 -> aside h2 h3 -> aside h1 h3.
Proof. intros (A1 & A2 & A3) (B1 & B2 & B3). split_and!; [by eapply aside1_trans..|auto]. Qed.
Lemma aside_submitted h tx : aside h (submitted h tx).
Proof. split_and!; [apply aside1_refl..|done]. Qed.
Lemma aside_fold {A E} (f : Hub -> A -> outcome E Hub) l :
  (forall h a h', f h a = Ok h' -> aside h h') -> forall h h', ofold f h l = Ok h' -> aside h h'.
Proof.
  intros Hf. induction l as [|a l IH]; intros h h' Ho; cbn in Ho; inv_ok; [subst; apply aside_refl|].
  eapply aside_trans; eauto.
Qed.

Lemma put_deposit_aside tb d : aside1 tb (put_deposit tb d).
Proof.
  split_and!; [done..|]. intros e He. cbn. destruct (decide (e = pd_id d)) as [->|Hne].
  - rewrite lookup_insert_eq. eauto.
  - by rewrite lookup_insert_ne.
Qed.

Lemma effects_aside tb p a x r f : aside1 tb (apply_effects tb p a x r f).
Proof.
  assert (Hx : aside1 tb (match x with Some d => put_deposit tb d | None => tb end))
    by (destruct x; [apply put_deposit_aside|apply aside1_refl]).
  destruct Hx as (_ & _ & Hx). unfold apply_effects. destruct a, x, r, f; split_and!; try done; exact Hx.
Qed.

Lemma effects_both h p a x r f :
  aside h (with_boards h (apply_effects (live h) p a x r f) (apply_effects (disk h) p a x r f)).
Proof.
  split_and!; [apply effects_aside..|]. unfold covered. intros Hc e. cbn.
  assert (Hd : forall tb, tb_deposits (apply_effects tb p a x r f) =
            match x with Some d => <[pd_id d := d]> (tb_deposits tb) | None => tb_deposits tb end).
  { intros tb. unfold apply_effects. by destruct a, x, r, f. }
  rewrite !Hd. destruct x as [d|]; [|apply Hc]. destruct (decide (pd_id d = e)) as [->|Hne].
  - rewrite !lookup_insert_eq. eauto.
  - rewrite !lookup_insert_ne by done. apply Hc.
Qed.

Section aside.
Context `{Primitives, HubKeys}.

Lemma confirm_aside c h p h' : confirm c h p = Ok h' -> aside h h'.
Proof.
  intros Hc. destruct (confirm_shape _ _ _ _ Hc) as [->|(q & x & r & _ & _ & _ & ->)]; [apply aside_refl|].
  apply effects_both.
Qed.
Lemma send_aside c h p h' : send c h p = Ok h' -> aside h h'.
Proof.
  intros Hs. apply send_shape in Hs. destruct (p_transaction p); [subst; apply aside_submitted|].
  destruct Hs as [->|Hc]; [apply aside_refl|by eapply confirm_aside].
Qed.
Lemma prepare_aside c h p h' p' : prepare c h p = Ok (h', p') -> aside h h'.
Proof. intros Hp. apply prepare_shape in Hp as (_ & _ & a & x & _ & ->). apply effects_both. Qed.
Lemma save_progress_aside c h p next h' : save_progress c h p next = Ok h' -> aside h h'.
Proof.
  intros Hs. apply save_progress_shape in Hs as [->|(q & _ & _ & ->)]; [apply aside_refl|]. by split_and!.
Qed.
Lemma resend_aside c h p next h' : resend c h p next = Ok h' -> aside h h'.
Proof.
  intros Hs. apply resend_shape in Hs as [->|(q & h1 & _ & _ & -> & Hc)]; [apply aside_refl|].
  assert (Ha : aside h (with_boards h (put_payment (live h) next) (put_payment (disk h) next))) by (by split_and!).
  destruct Hc as [[_ ->]|[_ Hc]]; [done|]. eapply aside_trans; [done|by eapply send_aside].
Qed.

Hint Resolve aside_refl confirm_aside send_aside prepare_aside save_progress_aside resend_aside aside_submitted : aside.

Lemma resolve_aside c nv h p now h' : resolve c nv h p now = Ok h' -> aside h h'.
Proof.
  unfold resolve. case_match; [intros Hr; inv_ok; subst; apply aside_refl|]. intros Hr. apply bind_Ok in Hr as (o & _ & Hr).
  destruct (scan_for_evidence (nv_blocks nv) p) as [sc e].
  destruct o; [|case_decide| |]; try destruct e; inv_ok; subst; eauto with aside.
Qed.
Lemma resolve_all_aside c nv h now h' : resolve_all c nv h now = Ok h' -> aside h h'.
Proof.
  apply aside_fold. intros h1 p h2. destruct (resolve c (nv p) h1 p now) eqn:E; intros Hr; inv_ok; subst;
    [by eapply resolve_aside|apply aside_refl].
Qed.

Lemma disburse_escrow_aside env h d r f h' o : disburse_escrow env h d r f = Ok (h', o) -> aside h h'.
Proof.
  unfold disburse_escrow. assert (Hr : aside h h) by apply aside_refl.
  destruct (head _); [by intros [= <- <-]|]. destruct (tb_deposits (live h) !! pd_id d) as [x|]; [|by intros [= <- <-]].
  case_decide; [by intros [= <- <-]|]. destruct (negb _); [by intros [= <- <-]|].
  destruct (de_balance env) as [b|]; [|by intros [= <- <-]]. cbv zeta. intros Hd.
  match type of Hd with match ?built with _ => _ end = _ => destruct built as [tx|e|] end;
    [|injection Hd as <- <-; done|discriminate Hd].
  match type of Hd with match ?p with _ => _ end = _ => destruct p as [[h1 p1]|e|] eqn:Ep end;
    [|injection Hd as <- <-; done|discriminate Hd].
  apply prepare_aside in Ep. apply bind_Ok in Hd as (h2 & Hs & Hd). inv_ok. injection Hd as <- _.
  eapply aside_trans; [exact Ep|]. destruct (send _ h1 p1) eqn:Es; inv_ok; subst; eauto with aside.
Qed.

Lemma refund_escrow_aside env h d h' : refund_escrow env h d = Ok h' -> aside h h'.
Proof. unfold refund_escrow. intros Hr. apply bind_Ok in Hr as ([h1 o] & Hd & [= <-]). by eapply disburse_escrow_aside. Qed.
Lemma refund_closed_aside env h id h' : refund_closed_task_escrow env h id = Ok h' -> aside h h'.
Proof. unfold refund_closed_task_escrow. case_match; [apply refund_escrow_aside|intros [= <-]; apply aside_refl]. Qed.
Lemma settle_dispute_bond_aside env h id h' b : settle_dispute_bond env h id = Ok (h', b) -> aside h h'.
Proof.
  unfold settle_dispute_bond. intros Hs.
  repeat (case_match; try (injection Hs as <- <-; apply aside_refl)).
  all: apply bind_Ok in Hs as ([h1 o] & Hd & [= <- _]); by eapply disburse_escrow_aside.
Qed.
Lemma sweep_exchange_deposit_aside env h id h' b : sweep_exchange_deposit env h id = Ok (h', b) -> aside h h'.
Proof.
  unfold sweep_exchange_deposit. repeat case_match; try (intros [= <- <-]; apply aside_refl).
  intros Hs. apply bind_Ok in Hs as ([h1 o] & Hd & [= <- _]). by eapply disburse_escrow_aside.
Qed.
Lemma maintain_wallet_aside c pk sk fresh us floor h inflight h' l :
  maintain_wallet c pk sk fresh us floor h inflight = Ok (h', l) -> aside h h'.
Proof.
  unfold maintain_wallet. intros Hm. repeat (case_match; inv_ok; simplify_eq; try apply aside_refl); apply aside_submitted.
Qed.
End aside.

(** ** What the settlement handlers leave of the tasks *)

(** The tasks of the live board, back to before. *)
Definition no_new_settled (l l' : TaskBoard) : Prop :=
  forall i t', tb_tasks l' !! i = Some t' ->
    exists t, tb_tasks l !! i = Some t /\ escrow_id t' = escrow_id t /\
      (settled (status t') = true -> settled (status t) = true).
Definition disk_grows (d d' : TaskBoard) : Prop :=
  tb_deposits d' = tb_deposits d /\
  forall i td, tb_tasks d !! i = Some td -> exists td', tb_tasks d' !! i = Some td' /\ history td td'.
Definition mild (h h' : Hub) : Prop :=
  no_new_settled (live h) (live h') /\ disk_grows (disk h) (disk h') /\ tb_deposits (live h') = tb_deposits (live h).

Lemma no_new_settled_refl l : no_new_settled l l.
Proof. intros i t Ht. eauto. Qed.
Lemma disk_grows_same d d' : tb_tasks d' = tb_tasks d -> tb_deposits d' = tb_deposits d -> disk_grows d d'.
Proof. intros E Ed. split; [done|]. intros i td Ht. rewrite E. exists td. split; [done|apply history_refl]. Qed.
Lemma mild_same h h' : tb_tasks (live h') = tb_tasks (live h) -> tb_tasks (disk h') = tb_tasks (disk h) ->
  tb_deposits (disk h') = tb_deposits (disk h) -> tb_deposits (live h') = tb_deposits (live h) -> mild h h'.
Proof. intros El Ed Dd Dl. split_and!; [|by apply disk_grows_same|done]. unfold no_new_settled. rewrite El. apply no_new_settled_refl. Qed.

Lemma no_new_settled_attempts l : forall tb, no_new_settled tb (foldl record_payout_attempt tb l).
Proof.
  induction l as [|a l IH]; intros tb i t' Ht'; cbn in Ht'; [eauto|]. apply IH in Ht' as (t1 & Ht1 & -> & Hs).
  unfold record_payout_attempt in Ht1. revert Ht1. case_match; [|cbn; intros; eauto]. cbn.
  destruct (tb_tasks tb !! pa_task_id a) as [u|] eqn:Eu; [|cbn; intros; eauto]. case_decide as Hv; [|cbn; intros; eauto]. cbn.
  destruct (decide (pa_task_id a = i)) as [<-|Hne].
  - rewrite lookup_insert_eq. intros [= <-]. exists u. split; [done|]. split; [done|]. by rewrite Hv.
  - rewrite lookup_insert_ne by done. eauto.
Qed.

Lemma grows_put l d d' id t t' :
  settle_ok l d -> tb_tasks l !! id = Some t -> history t t' -> tb_tasks d' = <[id := t']> (tb_tasks d) ->
  tb_deposits d' = tb_deposits d -> disk_grows d d'.
Proof.
  intros Hok Ht Hh E Ed. split; [done|]. intros i td Hi. rewrite E. destruct (decide (i = id)) as [->|Hne].
  - rewrite lookup_insert_eq. exists t'. split; [done|]. destruct (so_history _ _ Hok id td Hi) as (tl & Htl & Hd).
    replace tl with t in * by congruence. by eapply history_trans.
  - rewrite lookup_insert_ne by done. exists td. split; [done|apply history_refl].
Qed.

Lemma no_new_settled_put l l' id t t' :
  tb_tasks l !! id = Some t -> settled (status t) = true -> history t t' ->
  tb_tasks l' = <[id := t']> (tb_tasks l) -> no_new_settled l l'.
Proof.
  intros Ht Hs Hh E i u. rewrite E. destruct (decide (i = id)) as [->|Hne].
  - rewrite lookup_insert_eq. intros [= <-]. exists t. split; [done|]. split; [apply Hh|done].
  - rewrite lookup_insert_ne by done. eauto.
Qed.

Section mild.
Context `{Primitives, HubKeys}.

Lemma submit_task_payout_mild env h id key source recipients change h' o :
  legs_ok h -> submit_task_payout env h id key source recipients change = (h', o) -> mild h h'.
Proof.
  intros Hok. unfold submit_task_payout. assert (Hr : mild h h) by (by apply mild_same).
  destruct (plan_task_payout _ _ _ _ _ _ _) as [[tx l]|e|]; [|by intros [= <- <-]..].
  unfold carry_out. destruct (save_attempts _ _ _ _) as [d1 st] eqn:Es.
  destruct (save_attempts_spec _ _ _ _ _ _ Es) as (n & Et & Ed & _).
  destruct st; cbn; [|intros [= <- <-]; by apply mild_same]. intros [= <- <-]. cbn.
  destruct (quiet_attempts l (live h) (so_live _ _ Hok)) as (Hq & _ & Hdl).
  split_and!; [apply no_new_settled_attempts| |exact Hdl]. cbn. fold (with_disk_task d1 (se_task_commits env) (foldl record_payout_attempt (live h) l) id).
  destruct (with_disk_task_spec d1 (se_task_commits env) _ id (q_wf _ _ Hq)) as [(_ & _ & Hdep) Hd].
  split; [by rewrite <-Ed, <-Hdep|]. intros i td Hi.
  destruct (Hd i) as [->|[-> ->]]; [rewrite Et; exists td; split; [done|apply history_refl]|].
  destruct (so_history _ _ Hok id td Hi) as (tl & Htl & H1). destruct (q_tasks _ _ Hq id tl Htl) as (t' & Ht' & H2).
  exists t'. split; [done|by eapply history_trans].
Qed.

Lemma record_confirmed_mild c now h id r amount h' b :
  legs_ok h -> record_confirmed_payout c now h id r amount = Ok (h', b) -> mild h h'.
Proof.
  intros Hok. unfold record_confirmed_payout. assert (Hr : mild h h) by (by apply mild_same).
  destruct (mark_recipient_paid _ _ _ _ _) as [[tb1 full]|e|] eqn:Em; [|by intros [= <- <-]|done].
  destruct (mark_paid_facts _ _ _ _ _ _ _ (so_live _ _ Hok) Em) as (t & t' & Ht & Hs & Et & Hwf' & Hh & _ & _ & _ & Hdep).
  cbn [clear_payout_attempt fst with_attempts tb_tasks]. rewrite Et, lookup_insert_eq. cbn.
  destruct c; cbn [save_confirmed_payout]; intros [= <- <-].
  - split_and!; cbn; [eapply no_new_settled_put; [exact Ht|by apply settling_settled|exact Hh|exact Et]| |exact Hdep].
    eapply grows_put; [exact Hok|exact Ht|exact Hh| |done]. cbn. by rewrite (wf_id _ _ Hwf').
  - apply mild_same; [|done|done|cbn; rewrite Ht; by destruct (payout_attempt (live h) id r)]. cbn. rewrite Ht.
    assert (E : tb_tasks (restore_task (with_attempts tb1 (delete (id, r) (tb_attempts tb1))) t) = tb_tasks (live h)).
    { cbn. rewrite Et, (wf_id _ _ (so_live _ _ Hok id t Ht)), insert_insert_eq. by apply insert_id. }
    destruct (payout_attempt (live h) id r); exact E.
Qed.

Lemma abandon_mild c h a h' : legs_ok h -> abandon_payout c h a = Ok h' -> mild h h'.
Proof.
  intros Hok. unfold abandon_payout. assert (Hr : mild h h) by (by apply mild_same).
  destruct (mark_payout_failed _ _) as [[tb1 dropped]|e|] eqn:Em; [|by intros [= <-]|done].
  destruct (mark_payout_failed_shape _ _ _ _ Em) as (t & Ht & Hs & Et & _).
  destruct (mark_payout_failed_dropped _ _ _ _ Em) as [Hdep _].
  destruct (mark_payout_failed_keeps _ _ _ _ Em (so_live _ _ Hok)) as [Hwf1 Hev].
  destruct (Hev _ t Ht) as (t' & Ht' & Hev'). rewrite Ht'. cbn [expect mbind outcome_bind]. apply evolves_to_history in Hev'.
  assert (E : set_status t PayoutFailed = t') by (rewrite Et, lookup_insert_eq in Ht'; congruence). rewrite E in Et.
  destruct c; cbn [save_task_and_drop_payout_attempts]; intros [= <-].
  - split_and!; cbn [live disk with_boards]; [eapply no_new_settled_put; [exact Ht|by apply settling_settled|exact Hev'|exact Et]| |exact Hdep].
    destruct (clear_legs_frame ((fun a => leg_key a) <$> dropped) (restore_task (disk h) t')) as [F1 F2].
    eapply grows_put; [exact Hok|exact Ht|exact Hev'| |exact F2]. etrans; [exact F1|]. cbn. by rewrite (wf_id _ _ (Hwf1 _ t' Ht')).
  - apply mild_same; [|done|done|]; cbn; rewrite Ht; destruct (restore_legs_frame dropped (restore_task tb1 t)) as (Rt & Rd & _);
      [rewrite Rt|rewrite Rd]; cbn; [|exact Hdep]. rewrite Et, (wf_id _ _ (so_live _ _ Hok _ t Ht)), insert_insert_eq. by apply insert_id.
Qed.

Lemma resend_mild env h a h' : legs_ok h -> resend_lost_payout env h a = Ok h' -> mild h h'.
Proof.
  intros Hok. unfold resend_lost_payout. assert (Hr : mild h h) by (by apply mild_same).
  destruct (tb_tasks (live h) !! pa_task_id a) as [t|] eqn:Ht; [|by intros [= <-]].
  case_bool_decide as Ha; cbn [negb]; [|by intros [= <-]].
  destruct (so_live_attempts _ _ Hok _ _ Ha) as [_ [tx Htx]]. rewrite Htx. intros Hb.
  apply bind_Ok in Hb as (next & _ & Hb). destruct (save_attempts _ _ _ _) as [d1 st] eqn:Es.
  destruct (save_attempts_spec _ _ _ _ _ _ Es) as (n & Et & Ed & _). destruct st; cbn in Hb; injection Hb as <-.
  - split_and!; cbn; [apply no_new_settled_attempts|by apply disk_grows_same|].
    by destruct (quiet_attempts next (live h) (so_live _ _ Hok)) as (_ & _ & ->).
  - by apply mild_same.
Qed.

Lemma works_mild h h' : legs_ok h -> works h h' -> mild h h'.
Proof.
  intros Hok Hw. assert (Hr : mild h h) by (by apply mild_same).
  destruct Hw as [env id t r x h1 b Ht Hs He Hd Ho Hw|env id t e deposit h1 b Ht Hs He Hdep Hd Hu Htog Hw|env a h1 b Hd Hw]; revert Hw.
  - unfold settle_one_payout, submit_bounty_payout. rewrite Ht. repeat (case_match; [by intros [= <- <-]|]).
    destruct (submit_task_payout _ _ _ _ _ _ _) as [h2 o] eqn:Es. intros ->%reported_Ok. by eapply submit_task_payout_mild.
  - unfold settle_escrow_funded_task. rewrite Ht. case_match; [by intros [= <- <-]|].
    destruct (submit_task_payout _ _ _ _ _ _ _) as [h2 o] eqn:Es. intros ->%reported_Ok. by eapply submit_task_payout_mild.
  - unfold resolve_payout_attempt. repeat (case_match; try (by intros [= <- <-])); intros Hw.
    + by eapply record_confirmed_mild.
    + apply bind_Ok in Hw as (h2 & Hw & [= <- <-]). by eapply abandon_mild.
    + apply bind_Ok in Hw as (h2 & Hw & [= <- <-]). by eapply resend_mild.
Qed.

End mild.

(** ** A pass *)
Section pass.
Context `{Primitives, HubKeys}.

(** Deposits of escrowed tasks, and settled tasks other than [ids], are on disk. *)
Record ready_except (ids : list Uuid) (h : Hub) : Prop := {
  rd_ok : legs_ok h;
  rd_covered : covered h;
  rd_persisted : forall i t, tb_tasks (live h) !! i = Some t -> settled (status t) = true -> i ∉ ids -> persisted h i
}.

(** [h'] is reached by steps of the hub and is ready again. *)
Definition reaches (ids : list Uuid) (h h' : Hub) : Prop := rtc hub_step h h' /\ ready_except ids h'.

Lemma reaches_refl ids h : ready_except ids h -> reaches ids h h.
Proof. by split. Qed.
Lemma reaches_trans ids1 ids2 h1 h2 h3 : reaches ids1 h1 h2 -> (ready_except ids1 h2 -> reaches ids2 h2 h3) -> reaches ids2 h1 h3.
Proof. intros [S1 R1] Hn. destruct (Hn R1) as [S2 R2]. split; [by etrans|done]. Qed.
Lemma reaches_step ids h h' : legs_ok h -> hub_step h h' -> (legs_ok h' -> ready_except ids h') -> reaches ids h h'.
Proof. intros Hok Hs Hr. split; [by apply rtc_once|]. apply Hr. by destruct (hub_step_keeps _ _ Hok Hs). Qed.

(** A loop whose body reaches what is left to do. *)
Lemma reaches_fold (f : Hub -> Uuid -> outcome SettleError Hub) ids : forall h h',
  (forall i l h h', ready_except (i :: l) h -> f h i = Ok h' -> reaches l h h') ->
  ready_except ids h -> ofold f h ids = Ok h' -> reaches [] h h'.
Proof.
  induction ids as [|i ids IH]; intros h h' Hf Hr Ho; cbn in Ho; inv_ok; [subst; by apply reaches_refl|].
  eapply reaches_trans; [by eapply Hf|]. intros Hr'. by eapply IH.
Qed.

(** A loop that leaves nothing to do. *)
Lemma reaches_loop {A} (f : Hub -> A -> outcome SettleError Hub) l (P : Hub -> A -> Prop) : forall h h',
  (forall a h h', a ∈ l -> P h a -> ready_except [] h -> f h a = Ok h' ->
     reaches [] h h' /\ forall b, P h b -> P h' b) ->
  (forall a, a ∈ l -> P h a) -> ready_except [] h -> ofold f h l = Ok h' -> reaches [] h h'.
Proof.
  induction l as [|a l IH]; intros h h' Hf HP Hr Ho; cbn in Ho; inv_ok; [subst; by apply reaches_refl|].
  match goal with F : f h a = Ok ?x |- _ => rename x into h1; rename F into Hfa end.
  destruct (Hf a h h1) as [Hrc HP1]; [by left|apply HP; by left|done|done|].
  eapply reaches_trans; [exact Hrc|]. intros Hr1. eapply IH; [|intros b Hb; apply HP1, HP; by right|done|done].
  intros b h2 h3 Hb. apply Hf. by right.
Qed.

Lemma aside_reaches ids h h' : ready_except ids h -> aside h h' -> reaches ids h h'.
Proof.
  intros [Hok Hb Hp] ((El & Al & Dl) & (Ed & Ad & Dd) & Hcov).
  assert (Hf : funded (disk h')).
  { intros i t e Hi He. rewrite Ed in Hi. eapply Dd, (so_disk_funded _ _ Hok); [exact Hi|done]. }
  apply reaches_step; [done| |].
  - apply hs_write; try done. intros i. left. by rewrite Ed.
  - intros Hok'. split; [done|by apply Hcov|].
    + intros i t. rewrite El. intros Hi Hs Hn. destruct (Hp i t Hi Hs Hn) as (td & Htd & ?). exists td. by rewrite Ed.
Qed.

Lemma works_reaches h h' : ready_except [] h -> works h h' -> reaches [] h h' /\ (forall i, persisted h i -> persisted h' i).
Proof.
  intros Hr Hw. pose proof Hr as [Hok Hb Hp]. destruct (works_mild _ _ Hok Hw) as (Hl & [Ed Hd] & Dl).
  assert (Hpers : forall i, persisted h i -> persisted h' i).
  { intros i (td & Htd & Hs). destruct (Hd i td Htd) as (td' & Htd' & Hh). exists td'. split; [done|by eapply history_settled]. }
  split; [|done]. apply reaches_step; [done|by apply hs_work|]. intros Hok'. split; [done| |].
  - intros e. rewrite Ed, Dl. apply Hb.
  - intros i t' Ht' Hs _. destruct (Hl i t' Ht') as (t & Ht & _ & Hst). apply Hpers. eapply Hp; eauto. apply not_elem_of_nil.
Qed.

Lemma all_works_reach h h' : rtc works h h' -> ready_except [] h -> reaches [] h h' /\ (forall i, persisted h i -> persisted h' i).
Proof.
  induction 1 as [h|h h1 h' Hw _ IH]; intros Hr; [split; [by apply reaches_refl|done]|].
  destruct (works_reaches h h1 Hr Hw) as [Hr1 Hp1]. destruct (IH (proj2 Hr1)) as [Hr2 Hp2].
  split; [eapply reaches_trans; [exact Hr1|done]|auto].
Qed.

(** *** Writing a task *)
Lemma write_reaches ids id t h h' :
  ready_except (id :: ids) h -> tb_tasks (live h) !! id = Some t -> live h' = live h ->
  tb_tasks (disk h') = <[id := t]> (tb_tasks (disk h)) ->
  tb_attempts (disk h') = tb_attempts (disk h) ->
  (forall e, is_Some (tb_deposits (disk h) !! e) -> is_Some (tb_deposits (disk h') !! e)) ->
  reaches ids h h'.
Proof.
  intros [Hok Hb Hp] Ht El Ed Ad Dd.
  assert (Td : forall i, tb_tasks (disk h') !! i = tb_tasks (disk h) !! i \/ tb_tasks (disk h') !! i = tb_tasks (live h) !! i).
  { intros i. rewrite Ed. destruct (decide (i = id)) as [->|Hne]; [right; by rewrite lookup_insert_eq|left; by rewrite lookup_insert_ne]. }
  apply reaches_step; [done| |].
  - apply hs_write; try done; try (by rewrite El). intros i u e Hi He. apply Dd.
    destruct (Td i) as [E|E]; rewrite E in Hi; [by eapply (so_disk_funded _ _ Hok)|eapply Hb, (so_live_funded _ _ Hok); [exact Hi|done]].
  - intros Hok'. split; [done|intros e He; rewrite El in He; by apply Dd, Hb|]. rewrite El. intros i u Hi Hs Hn. destruct (decide (i = id)) as [->|Hne].
    + exists t. rewrite Ed, lookup_insert_eq. split; [done|]. by replace t with u by congruence.
    + destruct (Hp i u Hi Hs) as (td & Htd & ?); [by rewrite not_elem_of_cons|]. exists td.
      by rewrite Ed, lookup_insert_ne.
Qed.

Lemma ready_skip ids id h : ready_except (id :: ids) h -> tb_tasks (live h) !! id = None -> ready_except ids h.
Proof.
  intros [Hok Hb Hp] Hn. split; [done..|]. intros i t Hi Hs Hnot. eapply Hp; [exact Hi|done|].
  rewrite not_elem_of_cons. split; [congruence|done].
Qed.

Lemma persist_reaches ids id h : ready_except (id :: ids) h -> reaches ids h (persist_task_by_id true h id).
Proof.
  intros Hr. unfold persist_task_by_id. destruct (tb_tasks (live h) !! id) as [t|] eqn:Ht.
  - apply (write_reaches ids id t); try done. cbn. by rewrite (wf_id _ _ (so_live _ _ (rd_ok _ _ Hr) id t Ht)).
  - apply reaches_refl. by eapply ready_skip.
Qed.

Lemma batch_frame entries : forall d,
  tb_tasks (foldl (fun d (e : PublicKey * Reputation) => restore_reputation d e.1 e.2) d entries) = tb_tasks d /\
  tb_attempts (foldl (fun d (e : PublicKey * Reputation) => restore_reputation d e.1 e.2) d entries) = tb_attempts d /\
  tb_deposits (foldl (fun d (e : PublicKey * Reputation) => restore_reputation d e.1 e.2) d entries) = tb_deposits d.
Proof. induction entries as [|e l IH]; intros d; [done|]. cbn [foldl]. destruct (IH (restore_reputation d e.1 e.2)) as (-> & -> & ->). done. Qed.

(** *** An operation of the board *)
Lemma board_reaches ids h l' :
  ready_except [] h -> board_step (live h) l' -> tb_attempts l' = tb_attempts (live h) ->
  (forall i, tb_tasks l' !! i = None <-> tb_tasks (live h) !! i = None) ->
  (forall i, i ∉ ids -> tb_tasks l' !! i = tb_tasks (live h) !! i) ->
  (forall i t t' r, i ∈ ids -> tb_tasks (live h) !! i = Some t -> tb_tasks l' !! i = Some t' -> is_recipient_paid t' r = false) ->
  (forall e, is_Some (tb_deposits l' !! e) -> is_Some (tb_deposits (live h) !! e)) -> reaches ids h (with_live h l').
Proof.
  intros [Hok Hb Hp] Hs Ha Hdom Hout Hunp Hdep. apply reaches_step; [done| |].
  - apply hs_board; [done..|]. intros i t t' r Ht Ht' Hpaid. destruct (decide (i ∈ ids)) as [Hin|Hin].
    + by rewrite (Hunp i t t' r) in Hpaid.
    + rewrite Hout in Ht' by done. congruence.
  - intros Hok'. split; [done| |]; cbn.
    + intros e He. by apply Hb, Hdep.
    + intros i t Ht Hset Hn. rewrite Hout in Ht by done. eapply Hp; [exact Ht|done|apply not_elem_of_nil].
Qed.

Lemma sweep_reaches f h :
  ready_except [] h -> board_step (live h) (sweep f (live h)).1 ->
  (forall id t t' r, task_wf id t -> task_wf id t' -> f t = Some t' -> is_recipient_paid t' r = false) ->
  reaches (sweep f (live h)).2 h (with_live h (sweep f (live h)).1).
Proof.
  intros Hr Hs Hunp. pose proof (so_live _ _ (rd_ok _ _ Hr)) as Hwf.
  pose proof (board_step_keeps _ _ Hs Hwf) as [Hwf' _].
  destruct (filtered_ids (live h) (fun t => is_Some (f t)) Hwf) as [_ Hids].
  apply board_reaches; try done.
  - intros i. cbn. by rewrite lookup_fmap, fmap_None.
  - intros i Hi. cbn. rewrite lookup_fmap. destruct (tb_tasks (live h) !! i) as [t|] eqn:Ht; [|done]. cbn.
    destruct (f t) as [u|] eqn:Ef; [|done]. destruct Hi. apply Hids. eauto.
  - intros i t t' r Hi Ht Ht'. apply Hids in Hi as (u & Hu & [t2 Hf]). replace u with t in * by congruence.
    assert (t2 = t') as -> by (cbn in Ht'; rewrite lookup_fmap, Ht in Ht'; cbn in Ht'; rewrite Hf in Ht'; cbn in Ht'; congruence).
    by apply (Hunp i t); [apply Hwf|apply Hwf'|].
Qed.

(** *** Nobody is paid by a deadline *)
Lemma unpaid_slots t r : Forall (fun s => s_paid s = false) (slots t) -> status t <> Paid -> is_recipient_paid t r = false.
Proof.
  intros Hf Hs. apply not_true_is_false. destruct (by_shares (kind t)) eqn:Hb.
  - rewrite paid_by_shares by done. intros (s & Hin & _ & Hp). rewrite Forall_forall in Hf. by rewrite (Hf s Hin) in Hp.
  - rewrite paid_single by done. by rewrite bool_decide_eq_false_2.
Qed.

Lemma blank_unpaid id t : task_wf id t -> settled (status t) = false -> Forall (fun s => s_paid s = false) (slots t).
Proof. intros Hwf Hs. eapply Forall_impl; [by eapply wf_blank|]. by intros s [_ ?]. Qed.

Lemma expire_claim_unpaid now id t t' r : task_wf id t' -> expire_claim now t = Some t' -> is_recipient_paid t' r = false.
Proof. intros Hwf. unfold expire_claim. case_match; [|done]. intros [= <-]. by eapply unsettled_unpaid. Qed.
Lemma cancel_understaffed_unpaid now id t t' r :
  task_wf id t' -> cancel_understaffed now t = Some t' -> is_recipient_paid t' r = false.
Proof. intros Hwf. unfold cancel_understaffed. repeat case_match; try done. intros [= <-]. by eapply unsettled_unpaid. Qed.
Lemma close_unclosed_unpaid now id t t' r :
  task_wf id t' -> close_unclosed now t = Some t' -> is_recipient_paid t' r = false.
Proof. intros Hwf. unfold close_unclosed. case_match; [|done]. intros [= <-]. by eapply unsettled_unpaid. Qed.
Lemma finalize_unpaid now id t t' r :
  task_wf id t -> finalize_unchallenged now t = Some t' -> is_recipient_paid t' r = false.
Proof.
  intros Hwf. unfold finalize_unchallenged. case_bool_decide as Hs; cbn; [|done]. repeat case_match; try done.
  intros [= <-]. apply unpaid_slots; [|done]. cbn. eapply blank_unpaid; [done|by rewrite Hs].
Qed.
Lemma split_unpaid now id t t' r :
  task_wf id t -> split_unpicked now t = Some t' -> is_recipient_paid t' r = false.
Proof.
  intros Hwf. unfold split_unpicked. case_bool_decide as Hs; cbn; [|done].
  pose proof (blank_unpaid id t Hwf ltac:(by rewrite Hs)) as Hb. destruct (kind t) as [|c|d]; [done..|]. case_match; [done|].
  intros [= <-]. apply unpaid_slots; [|done]. cbn in *. rewrite Forall_fmap in Hb. rewrite !Forall_fmap. exact Hb.
Qed.
Lemma resolve_consensus_slots tb id t tb' t' :
  Forall (fun s => s_paid s = false) (slots t) -> settled (status t) = false -> tb_tasks tb !! id = Some t ->
  resolve_consensus tb id = Ok tb' -> tb_tasks tb' !! id = Some t' ->
  Forall (fun s => s_paid s = false) (slots t') /\ status t' <> Paid.
Proof.
  intros Hb Hs Ht. unfold resolve_consensus. rewrite Ht.
  assert (Hsame : status t <> Paid) by (intros E; by rewrite E in Hs).
  destruct (kind t) as [|c|] eqn:Ek.
  1,3: intros [= <-]; rewrite Ht; intros [= <-]; by rewrite Ek.
  destruct (majority_answer _); intros Hr; inv_ok; subst tb'; cbn; rewrite lookup_insert_eq; intros [= <-].
  - split; [|done]. cbn in *. rewrite Forall_fmap in Hb |- *. rewrite Forall_forall in Hb |- *.
    intros [k a] Hin. apply elem_of_btree_iter in Hin. unfold share_winners in Hin. rewrite lookup_fmap in Hin.
    destruct (assignees c !! k) as [a0|] eqn:Ea; cbn in Hin; [|done]. injection Hin as <-.
    specialize (Hb (k, a0)). cbn in Hb. rewrite <-Hb; [by case_decide || case_match|by apply elem_of_btree_iter].
  - split; [|done]. cbn. by rewrite Ek.
Qed.
Lemma resolve_consensus_unpaid tb id t tb' t' r :
  task_wf id t -> settled (status t) = false -> tb_tasks tb !! id = Some t -> resolve_consensus tb id = Ok tb' ->
  tb_tasks tb' !! id = Some t' -> is_recipient_paid t' r = false.
Proof.
  intros Hwf Hs Ht Hr Ht'. destruct (resolve_consensus_slots tb id t tb' t') as [? ?]; eauto using blank_unpaid.
  by apply unpaid_slots.
Qed.

Lemma resolve_all_unpaid l : forall tb tb',
  NoDup l -> (forall i, i ∈ l -> exists t, tb_tasks tb !! i = Some t /\ task_wf i t /\ settled (status t) = false) ->
  ofold resolve_consensus tb l = Ok tb' ->
  (forall i, i ∉ l -> tb_tasks tb' !! i = tb_tasks tb !! i) /\
  (forall i t' r, i ∈ l -> tb_tasks tb' !! i = Some t' -> is_recipient_paid t' r = false).
Proof.
  induction l as [|j l IH]; intros tb tb' Hnd Hl Ho; cbn in Ho; inv_ok.
  { subst. split; [done|]. intros i t' r Hi. by apply not_elem_of_nil in Hi. }
  match goal with F : resolve_consensus tb j = Ok ?x |- _ => rename x into tb1; rename F into Hj end.
  apply NoDup_cons in Hnd as [Hjl Hnd]. destruct (Hl j) as (t & Ht & Hwf & Hs); [by left|].
  assert (Hf : forall i, i <> j -> tb_tasks tb1 !! i = tb_tasks tb !! i) by (intros i; by eapply resolve_consensus_frame).
  destruct (IH tb1 tb' Hnd) as [H1 H2]; [|done|].
  { intros i Hi. rewrite Hf by congruence. apply Hl. by right. }
  split.
  - intros i Hi. apply not_elem_of_cons in Hi as [Hne Hi]. by rewrite H1, Hf.
  - intros i t' r Hi Ht'. apply elem_of_cons in Hi as [->|Hi]; [|by eapply H2].
    rewrite H1 in Ht' by done. by eapply resolve_consensus_unpaid.
Qed.

Lemma resolve_consensus_attempts tb id tb' :
  resolve_consensus tb id = Ok tb' -> tb_attempts tb' = tb_attempts tb /\ tb_deposits tb' = tb_deposits tb.
Proof.
  assert (Hf : forall l tb tb', ofold add_failure tb l = Ok tb' ->
            tb_attempts tb' = tb_attempts tb /\ tb_deposits tb' = tb_deposits tb).
  { induction l as [|pk l IH]; intros tb0 tb1 Ho; cbn in Ho; inv_ok; [by subst|].
    destruct (IH _ _ Ho) as [-> ->].
    match goal with F : add_failure _ _ = Ok _ |- _ => unfold add_failure in F; inv_ok; by subst end. }
  unfold resolve_consensus. intros Hr. repeat case_match; inv_ok; subst; try done. cbn. by eapply Hf.
Qed.

Lemma resolved_reaches now h l' due :
  ready_except [] h -> resolve_expired_consensus_tasks (live h) now = Ok (l', due) -> reaches due h (with_live h l').
Proof.
  intros Hr Hres. pose proof (so_live _ _ (rd_ok _ _ Hr)) as Hwf. pose proof Hres as Hrun.
  unfold resolve_expired_consensus_tasks in Hrun. inv_ok. injection Hrun as -> <-.
  destruct (filtered_ids (live h) (fun t => consensus_due now t = true) Hwf) as [Hnd Hids].
  match goal with F : ofold resolve_consensus _ ?ids = Ok _ |- _ => rename F into Hf; set (due := ids) in * end.
  destruct (resolve_all_unpaid due (live h) l' Hnd) as [H1 H2]; [|done|].
  { intros i Hi. apply Hids in Hi as (t & Ht & Hd). exists t. split; [done|]. split; [by apply Hwf|].
    unfold consensus_due in Hd. apply andb_true_iff in Hd as [Hd _]. by apply bool_decide_eq_true in Hd as ->. }
  assert (Hatt : forall l tb tb', ofold resolve_consensus tb l = Ok tb' ->
            tb_attempts tb' = tb_attempts tb /\ tb_deposits tb' = tb_deposits tb).
  { induction l as [|j l IH]; intros tb tb' Ho; cbn in Ho; inv_ok; [by subst|]. destruct (IH _ _ Ho) as [-> ->].
    by eapply resolve_consensus_attempts. }
  destruct (Hatt _ _ _ Hf) as [Ha Hd].
  apply board_reaches; try done.
  - by eapply bs_expired_consensus.
  - by apply (resolve_expired_consensus_tasks_calm _ _ _ _ Hres).
  - intros i t t' r Hi _ Ht'. by eapply H2.
  - by rewrite Hd.
Qed.

(** *** The two halves *)
Definition durable (env : SweepEnv) : Prop :=
  (forall s i, sw_commits env s i = true) /\ (forall id n, all_or_none (se_commits (sw_settle env id n))).

Context (env : SweepEnv) (Hdur : durable env).

Lemma sweep_persist_reaches s i l h h' : ready_except (i :: l) h -> sweep_persist env s h i = Ok h' -> reaches l h h'.
Proof. intros Hr [= <-]. rewrite (proj1 Hdur). by apply persist_reaches. Qed.
Lemma sweep_close_reaches s i l h h' : ready_except (i :: l) h -> sweep_close env s h i = Ok h' -> reaches l h h'.
Proof.
  intros Hr. unfold sweep_close. rewrite (proj1 Hdur). intros Hc. apply refund_closed_aside in Hc.
  eapply reaches_trans; [by apply persist_reaches|]. intros Hr'. by apply aside_reaches.
Qed.
Lemma sweep_resolved_reaches i l h h' : ready_except (i :: l) h -> sweep_resolved env h i = Ok h' -> reaches l h h'.
Proof.
  intros Hr. unfold sweep_resolved. destruct (tb_tasks (live h) !! i) as [t|] eqn:Ht;
    [|intros [= <-]; apply reaches_refl; by eapply ready_skip].
  rewrite (proj1 Hdur). set (h1 := with_boards h _ _).
  assert (Hw : reaches l h h1).
  { destruct (batch_frame ((fun who => (who, reputation (live h) who)) <$> consensus_assignees t) (restore_task (disk h) t)) as (E1 & E2 & E3).
    apply (write_reaches l i t h h1); [done..| | |]; [|exact E2|intros e; cbn; rewrite E3; done]. unfold h1. cbn. rewrite E1. cbn.
    by rewrite (wf_id _ _ (so_live _ _ (rd_ok _ _ Hr) i t Ht)). }
  case_decide; [|by intros [= <-]]. intros Hc. apply refund_closed_aside in Hc.
  eapply reaches_trans; [exact Hw|]. intros Hr'. by apply aside_reaches.
Qed.

(** One deadline: the operation, and the loop over the tasks it changed. *)
Lemma stage_reaches f (body : Hub -> Uuid -> outcome SettleError Hub) l ids h h' :
  ready_except [] h -> sweep f (live h) = (l, ids) -> board_step (live h) (sweep f (live h)).1 ->
  (forall id t t' r, task_wf id t -> task_wf id t' -> f t = Some t' -> is_recipient_paid t' r = false) ->
  (forall i l h h', ready_except (i :: l) h -> body h i = Ok h' -> reaches l h h') ->
  ofold body (with_live h l) ids = Ok h' -> reaches [] h h'.
Proof.
  intros Hr E Hs Hunp Hbody Hf. pose proof (sweep_reaches f h Hr Hs Hunp) as Hsw. rewrite E in Hsw.
  eapply reaches_trans; [exact Hsw|]. intros Hr0. by eapply reaches_fold.
Qed.

Lemma sweep_board_reaches h h' : ready_except [] h -> sweep_board env h = Ok h' -> reaches [] h h'.
Proof.
  intros Hr. unfold sweep_board. set (now := sw_now env). intros Hb. apply bind_Ok in Hb as (h0 & Hp & Hb).
  assert (Ha : aside h h0).
  { unfold absorb in Hp. destruct (resolve_all _ _ _ _) eqn:E; inv_ok; subst; [by eapply resolve_all_aside|apply aside_refl]. }
  eapply reaches_trans; [by apply aside_reaches|]. clear Hr. intros Hr.
  destruct (expire_claims (live h0) now) as [l0 i0] eqn:E0. apply bind_Ok in Hb as (h1 & Hf1 & Hb).
  eapply reaches_trans; [eapply stage_reaches; [exact Hr|exact E0|apply bs_expire|intros; eauto using expire_claim_unpaid|
    intros; eauto using sweep_persist_reaches|exact Hf1]|]. clear Hr. intros Hr.
  destruct (cancel_understaffed_consensus_tasks (live h1) now) as [l1 i1] eqn:E1. apply bind_Ok in Hb as (h2 & Hf2 & Hb).
  eapply reaches_trans; [eapply stage_reaches; [exact Hr|exact E1|apply bs_understaffed|intros; eauto using cancel_understaffed_unpaid|
    intros; eauto using sweep_close_reaches|exact Hf2]|]. clear Hr. intros Hr.
  apply bind_Ok in Hb as ([l2 i2] & Hres & Hb). apply bind_Ok in Hb as (h3 & Hf3 & Hb).
  assert (Hd : reaches i2 h2 (with_live h2 l2)).
  { unfold absorb in Hres. destruct (resolve_expired_consensus_tasks (live h2) now) as [[l' due]|e|] eqn:E; inv_ok.
    - injection Hres as -> ->. by eapply resolved_reaches.
    - injection Hres as <- <-. destruct h2. by apply reaches_refl. }
  eapply reaches_trans; [eapply reaches_trans; [exact Hd|]; intros Hr0;
    eapply reaches_fold; [intros; eauto using sweep_resolved_reaches|exact Hr0|exact Hf3]|]. clear Hr Hd. intros Hr.
  destruct (finalize_unchallenged_disputable_tasks (live h3) now) as [l3 i3] eqn:E3. apply bind_Ok in Hb as (h4 & Hf4 & Hb).
  eapply reaches_trans; [eapply stage_reaches; [exact Hr|exact E3|apply bs_finalize|intros; eauto using finalize_unpaid|
    intros; eauto using sweep_persist_reaches|exact Hf4]|]. clear Hr. intros Hr.
  destruct (close_unclosed_contests (live h4) now) as [l4 i4] eqn:E4. apply bind_Ok in Hb as (h5 & Hf5 & Hb).
  eapply reaches_trans; [eapply stage_reaches; [exact Hr|exact E4|apply bs_close_unclosed|intros; eauto using close_unclosed_unpaid|
    intros; eauto using sweep_close_reaches|exact Hf5]|]. clear Hr. intros Hr.
  destruct (split_unpicked_contests (live h5) now) as [l5 i5] eqn:E5.
  eapply stage_reaches; [exact Hr|exact E5|apply bs_split|intros; eauto using split_unpaid|
    intros; eauto using sweep_persist_reaches|exact Hb].
Qed.

(** A loop of refunds, or of bonds or deposits. *)
Lemma asides_reach {A} (f : Hub -> A -> outcome SettleError Hub) l h h' :
  (forall h a h', f h a = Ok h' -> aside h h') -> ready_except [] h -> ofold f h l = Ok h' -> reaches [] h h'.
Proof. intros Hf Hr Ho. apply aside_reaches; [done|]. by eapply aside_fold. Qed.

Lemma sweep_attempts_reach h h' :
  ready_except [] h -> ofold (sweep_attempt env) h (outstanding_payout_attempts (live h)) = Ok h' -> reaches [] h h'.
Proof.
  intros Hr. apply (reaches_loop _ _ (fun h a => persisted h (pa_task_id a))); [|clear h'|done].
  - intros a h1 h2 _ Hp Hr1. unfold sweep_attempt. case_match; [intros [= <-]; split; [by apply reaches_refl|done]|].
    intros Hs. apply bind_Ok in Hs as ([h3 b] & Hs & [= <-]).
    destruct (works_reaches h1 h3 Hr1) as [Hr3 Hp3]; [by eapply wk_resolve|]. split; [done|auto].
  - intros a Ha. unfold outstanding_payout_attempts in Ha. rewrite sort_by_perm in Ha.
    unfold btree_values in Ha. apply list_elem_of_fmap in Ha as ([k b] & -> & Hin). apply elem_of_btree_iter in Hin. cbn.
    pose proof (rd_ok _ _ Hr) as Hok. destruct (so_live_attempts _ _ Hok k b Hin) as [Hk _].
    destruct (so_settled _ _ Hok k) as (td & Htd & Hs).
    { rewrite <-(so_agree _ _ Hok). unfold sent_tx. by rewrite Hin. }
    exists td. by rewrite <-Hk in Htd.
Qed.

Lemma sweep_settles_reach h h' :
  ready_except [] h -> ofold (sweep_settle env) h (t_id <$> verified_unpaid_tasks (live h)) = Ok h' -> reaches [] h h'.
Proof.
  intros Hr. apply (reaches_loop _ _ persisted); [|clear h'|done].
  - intros id h1 h2 _ Hp Hr1. unfold sweep_settle. intros Hs. apply bind_Ok in Hs as ([h3 b] & Hs & [= <-]).
    apply all_works_reach; [|done]. eapply try_settle_works; [apply Hr1|exact Hp| |exact Hs].
    intros t _ _. apply all_or_none_together, Hdur.
  - intros id Hin. apply list_elem_of_fmap in Hin as (t & -> & Hin). apply list_elem_of_filter in Hin as [Hs Hin].
    unfold btree_values in Hin. apply list_elem_of_fmap in Hin as ([k u] & -> & Hin). apply elem_of_btree_iter in Hin. cbn in *.
    rewrite (wf_id _ _ (so_live _ _ (rd_ok _ _ Hr) k u Hin)). eapply (rd_persisted _ _ Hr); [exact Hin|by rewrite Hs|apply not_elem_of_nil].
Qed.

Lemma sweep_money_reaches h h' : ready_except [] h -> sweep_money env h = Ok h' -> reaches [] h h'.
Proof.
  intros Hr. unfold sweep_money. intros Hm.
  apply bind_Ok in Hm as (h1 & H1 & Hm). eapply reaches_trans; [eapply asides_reach; [|exact Hr|exact H1]|].
  { intros x i y Hx. eapply refund_closed_aside; exact Hx. } clear Hr. intros Hr.
  apply bind_Ok in Hm as (h2 & H2 & Hm). eapply reaches_trans; [eapply asides_reach; [|exact Hr|exact H2]|].
  { intros x d y Hx. eapply refund_escrow_aside; exact Hx. } clear Hr. intros Hr.
  apply bind_Ok in Hm as (h3 & H3 & Hm). eapply reaches_trans; [by apply sweep_attempts_reach|]. clear Hr. intros Hr.
  apply bind_Ok in Hm as (h4 & H4 & Hm). eapply reaches_trans; [by apply sweep_settles_reach|]. clear Hr. intros Hr.
  apply bind_Ok in Hm as (h5 & H5 & Hm). eapply reaches_trans; [eapply asides_reach; [|exact Hr|exact H5]|].
  { intros x i y Hx. apply bind_Ok in Hx as ([z b] & Hx & [= <-]). by eapply settle_dispute_bond_aside. } clear Hr. intros Hr.
  apply bind_Ok in Hm as (h6 & H6 & Hm). eapply reaches_trans; [eapply asides_reach; [|exact Hr|exact H6]|].
  { intros x i y Hx. apply bind_Ok in Hx as ([z b] & Hx & [= <-]). by eapply sweep_exchange_deposit_aside. } clear Hr. intros Hr.
  assert (Hw : forall c pk sk w n x y, sweep_wallet c pk sk w n x = Ok y -> aside x y).
  { intros c pk sk w n x y Hx. apply bind_Ok in Hx as ([z l] & Hx & [= <-]). unfold cannot_fund in Hx.
    destruct (maintain_wallet _ _ _ _ _ _ _ _) eqn:E; inv_ok. subst. by eapply maintain_wallet_aside. }
  apply bind_Ok in Hm as (h7 & H7 & Hm). eapply reaches_trans; [apply aside_reaches; [exact Hr|by eapply Hw]|].
  intros Hr7. apply aside_reaches; [done|by eapply Hw].
Qed.

(** A whole pass of the sweep whose task writes commit and whose leg records are written
    all or none, whatever the node answers, is a history of single settlement steps
    and keeps what they rely on: every transaction recorded for a winner before the
    pass is still the one recorded after it, or the winner is paid or the payout
    abandoned. *)
Theorem sweep_keeps_payouts h h' :
  ready_except [] h -> run_sweep_once env h = Ok h' ->
  rtc hub_step h h' /\ ready_except [] h' /\
  forall k tx, sent_tx (disk h) k = Some (Some tx) ->
    sent_tx (live h') k = Some (Some tx) \/
    (sent_tx (live h') k = None /\ exists t, tb_tasks (disk h') !! k.1 = Some t /\
       (is_recipient_paid t k.2 = true \/ status t = PayoutFailed)).
Proof.
  intros Hr Hrun. unfold run_sweep_once in Hrun. apply bind_Ok in Hrun as (h1 & Hb & Hm).
  assert (Hre : reaches [] h h').
  { eapply reaches_trans; [by eapply sweep_board_reaches|]. intros Hr1. by eapply sweep_money_reaches. }
  destruct Hre as [Hs Hr']. split; [done|]. split; [done|]. intros k tx Hk.
  destruct (hub_steps_keep _ _ Hs (rd_ok _ _ Hr)) as [Hok' Hf]. rewrite (so_agree _ _ Hok').
  destruct (Hf k tx (or_introl Hk)) as [E|(E & Ht)]; [by left|by right].
Qed.

End pass.
