(* ===== verification/ToySettle.v ===== *)
(** * ToySettle: payouts of a concrete hub

    The consensus task of [ToyBoard] settled by the operator, through a crash,
    a lost transaction and a confirmation; and an escrow's payout whose legs
    are recorded in part. *)

From S2P Require Import Prelude Types Crypto Transaction Spend BoardTypes Exchange Tasks Board Payouts BoardInv BoardStep PayoutStep BoardTheorems Payments Wallets Settlement SettleInv SettleStep SettleTheorems Sweep ToyBoard.
Import Crypto.Toy.

Definition operator : PublicKey := [77].
#[export] Instance keys : HubKeys := {
  operator_private_key := operator;
  operator_public_key := operator;
  exchange_custody_public_key := [78];
  derive id := [90; id]
}.

Definition operator_coin : TransactionOutput := mkOutput 9000 100 operator.
Definition submit_env (now : DateTime) (id0 : N) : SubmitEnv :=
  mkSubmitEnv (Some [(false, operator_coin)]) (fun i => id0 + N.of_nat i) now (fun _ => true) true true.

Definition hub_of (h : Hub) (o : outcome SettleError (Hub * bool)) : Hub :=
  match o with Ok (h', _) => h' | _ => h end.

(** ** The operator pays [ann] *)
Definition desk0 : Hub := mkHub cons6 cons6 10 [].
Definition desk1 : Hub := Eval vm_compute in hub_of desk0 (settle_one_payout (submit_env 20 200) desk0 8 ann 50).
Definition ann_attempt : PayoutAttempt := Eval vm_compute in
  default (mkAttempt 0 [] 0 0 [] [] 0 0 None) (payout_attempt (live desk1) 8 ann).
Definition ann_tx : Transaction := Eval vm_compute in default (mkTransaction [] []) (pa_transaction ann_attempt).

Lemma desk0_ok : legs_ok desk0.
Proof.
  apply settle_ok_start; [apply cons6_wf| |reflexivity]. intros id t e Ht He. exfalso.
  assert (Hall : map_Forall (fun _ t => escrow_id t = None) (tb_tasks cons6))
    by (apply (bool_decide_unpack _); vm_compute; exact I).
  specialize (Hall id t Ht). congruence.
Qed.

Lemma desk0_persisted : persisted desk0 8.
Proof. exists (task_of cons6 8). split; by_run. Qed.

Lemma desk1_sends : sends desk0 desk1 (8, ann) ann_tx.
Proof.
  split; [|split; by_run].
  apply (wk_operator desk0 (submit_env 20 200) 8 (task_of cons6 8) ann 50 desk1 true);
    [by_run|by_run|by_run|apply desk0_persisted| |by_run].
  apply (bool_decide_unpack _). vm_compute. exact I.
Qed.

(** The hub crashes after the record and comes back. *)
Definition desk2 : Hub := Eval vm_compute in rebooted desk1 (outbox desk1).

Lemma leg_is_paid_by_one_transaction_witness :
  sent_tx (live desk2) (8, ann) = Some (Some ann_tx) \/ payout_attempt (disk desk2) 8 ann = None.
Proof.
  destruct (leg_is_paid_by_one_transaction desk0 desk1 (8, ann) ann_tx desk0_ok desk1_sends) as [H _].
  assert (Hs : rtc hub_step desk1 desk2) by (apply rtc_once; exact (hs_restart desk1)).
  destruct (H desk2 Hs) as [[H1 _]|(_ & H2 & _)]; [left; exact H1|right].
  unfold sent_tx in H2. unfold payout_attempt. destruct (tb_attempts (disk desk2) !! (8, ann)); [discriminate H2|reflexivity].
Defined.

(** The node never heard of it, four times over, and then once more. *)
Definition lost (now : DateTime) : ResolveEnv :=
  mkResolveEnv (Some []) (Some [(false, operator_coin)]) true now (submit_env now 300).
Definition answers_lost : list ResolveEnv := [lost 100; lost 200; lost 300; lost 400; lost 500].

Lemma desk1_ok : legs_ok desk1.
Proof. apply (works_keeps desk0 desk1 desk0_ok (proj1 desk1_sends)). Qed.

Lemma desk1_in_flight : in_flight desk1 8 ann ann_attempt.
Proof.
  split; [apply desk1_ok|by_run| |split; [by_run|vm_compute; discriminate]].
  exists (task_of (live desk1) 8), 50. split; [by_run|]. split; [by_run|].
  apply (bool_decide_unpack _). vm_compute. exact I.
Qed.

Lemma lost_decisive now : decisive ann_attempt (lost now).
Proof.
  split; [reflexivity|]. split; [reflexivity|]. exists [], [(false, operator_coin)].
  split; [reflexivity|]. split; [reflexivity|]. apply (bool_decide_unpack _). vm_compute. exact I.
Qed.

Lemma payout_concludes_witness :
  exists h', ofold (visit 8 ann) desk1 answers_lost = Ok h' /\ concluded h' 8 ann.
Proof.
  apply (payout_concludes desk1 8 ann ann_attempt answers_lost desk1_in_flight).
  - intros k b Hb. assert (Hall : map_Forall (fun _ b => pa_submissions b + (MAX_PAYOUT_SUBMISSIONS + 1) <= U32_MAX) (tb_attempts (live desk1)))
      by (apply (bool_decide_unpack _); vm_compute; exact I). exact (Hall k b Hb).
  - unfold answers_lost. rewrite !Forall_cons. split_and!; try apply lost_decisive. constructor.
  - vm_compute. reflexivity.
Defined.

(** ** A pass of the sweep

    [ann]'s transaction is lost and [ben] has not been paid: the pass sends the
    first again and the second for the first time. *)
Definition no_disburse : DisburseEnv := mkDisburseEnv None None (fun _ => 0) 0 0 0 true.
Definition pass_env : SweepEnv :=
  mkSweepEnv (seconds 60) true (fun _ => mkView None None (fun _ _ => None)) (fun _ _ => true)
    (fun _ _ => no_disburse) (fun _ => lost (seconds 60))
    (fun _ _ => mkSubmitEnv (Some [(false, mkOutput 8000 101 operator)]) (fun i => 600 + N.of_nat i) (seconds 60)
       (fun _ => true) true true)
    (mkWalletEnv (fun _ => 0) None []) (mkWalletEnv (fun _ => 0) None []) [78] 4.
Definition desk3 : Hub := Eval vm_compute in
  match run_sweep_once pass_env desk1 with Ok h => h | _ => desk1 end.

Example pass_sends :
  (length (outbox desk3), pa_submissions <$> payout_attempt (disk desk3) 8 ann,
   pa_submissions <$> payout_attempt (disk desk3) 8 ben, status (task_of (disk desk3) 8)) = (3%nat, Some 2, Some 1, Submitted).
Proof. by_run. Qed.

Lemma desk1_ready : ready_except [] desk1.
Proof.
  split; [apply desk1_ok| |].
  - intros e. by replace (tb_deposits (live desk1)) with (tb_deposits (disk desk1)) by by_run.
  - intros i t Ht Hs _.
    assert (Hall : map_Forall (fun i _ => exists td, tb_tasks (disk desk1) !! i = Some td /\ settled (status td) = true)
              (tb_tasks (live desk1))).
    { apply map_Forall_to_list. vm_compute. constructor; [|constructor]. eexists. split; reflexivity. }
    exact (Hall i t Ht).
Qed.

Lemma sweep_keeps_payouts_witness : sent_tx (live desk3) (8, ann) = Some (Some ann_tx).
Proof.
  destruct (sweep_keeps_payouts pass_env ltac:(split; [reflexivity|intros ? ? ?; reflexivity]) desk1 desk3 desk1_ready ltac:(vm_compute; reflexivity))
    as (_ & _ & H). destruct (H (8, ann) ann_tx ltac:(vm_compute; reflexivity)) as [E|[E _]]; [exact E|].
  vm_compute in E. discriminate E.
Defined.

(** ** An escrow's payout recorded in part

    Two winners share one transaction from the task's escrow, whose address
    holds two outputs. The write of [ann]'s leg commits and the hub goes down
    before [ben]'s. *)
Definition pot0 : TaskBoard := Eval vm_compute in
  (reserve_escrow (fun id => [90; id]) new_board 30 0 asker 1101
     (FundConsensusTask (mkConsensusIntent "q" 101 2 1000 60 0 ∅)) 1000).1.
Definition pot1 : TaskBoard := Eval vm_compute in board_of fst (confirm_escrow pot0 30 31 1101 5 5).
Definition pot2 : TaskBoard := Eval vm_compute in board_of id (join_consensus_task pot1 31 ann 6).
Definition pot3 : TaskBoard := Eval vm_compute in board_of id (join_consensus_task pot2 31 ben 7).
Definition pot4 : TaskBoard := Eval vm_compute in board_of fst (submit_consensus_answer pot3 31 ann "yes" 8).
Definition pot5 : TaskBoard := Eval vm_compute in board_of fst (submit_consensus_answer pot4 31 ben "yes" 9).

Definition coin_a : TransactionOutput := mkOutput 1101 101 [90; 30].
Definition coin_b : TransactionOutput := mkOutput 1200 102 [90; 30].

(** The second write does not happen. *)
Definition half_env : SubmitEnv :=
  mkSubmitEnv (Some [(false, coin_a); (false, coin_b)]) (fun i => 400 + N.of_nat i) 50
    (fun i => (i <? 1)%nat) true true.
(** The sweep after the restart: the transaction is sent, and its input is
    marked when the task is settled. *)
Definition find_env : ResolveEnv :=
  mkResolveEnv (Some []) (Some [(false, coin_a); (false, coin_b)]) true 100
    (mkSubmitEnv None (fun i => 0) 100 (fun _ => true) true true).
Definition again_env : SubmitEnv :=
  mkSubmitEnv (Some [(true, coin_a); (false, coin_b)]) (fun i => 500 + N.of_nat i) 110 (fun _ => true) true true.

Definition partial_run : outcome SettleError Hub :=
  '(h1, _) ← try_settle_verified_task (fun _ => half_env) (mkHub pot5 pot5 10 []) 31;
  let h2 := rebooted h1 (outbox h1) in
  a ← expect (payout_attempt (live h2) 31 ann);
  '(h3, _) ← resolve_payout_attempt find_env h2 a;
  '(h4, _) ← try_settle_verified_task (fun _ => again_env) h3 31;
  Ok h4.
(** The run: two transactions, each paying both winners, that spend different
    outputs, so that both can land. *)
Example partial_run_sends :
  exists h tx1 tx2, partial_run = Ok h /\ outbox h = [tx1; tx2] /\
    Forall (fun i => i ∉ spends tx2) (spends tx1) /\
    (fun o => (pubkey o, value o)) <$> take 2 (outputs tx1) = [(ann, 50); (ben, 50)] /\
    (fun o => (pubkey o, value o)) <$> take 2 (outputs tx2) = [(ann, 50); (ben, 50)].
Proof.
  destruct partial_run as [h|e|] eqn:E; vm_compute in E; [|discriminate E..].
  injection E as <-. eexists _, _, _. split; [reflexivity|]. split; [reflexivity|]. split; [|split; by_run].
  apply (bool_decide_unpack _). vm_compute. exact I.
Qed.

Lemma pot5_wf : board_wf pot5.
Proof.
  eapply board_steps_wf; [|apply new_board_wf].
  apply (rtc_l _ _ pot0); [exact (bs_reserve new_board (fun id => [90; id]) 30 0 asker 1101
    (FundConsensusTask (mkConsensusIntent "q" 101 2 1000 60 0 ∅)) 1000)|].
  apply (rtc_l _ _ pot1); [eapply (bs_confirm_escrow pot0 30 31 1101 5 5); by_run|].
  apply (rtc_l _ _ pot2); [apply (bs_join pot1 31 ann 6); by_run|].
  apply (rtc_l _ _ pot3); [apply (bs_join pot2 31 ben 7); by_run|].
  apply (rtc_l _ _ pot4); [eapply (bs_consensus_answer pot3 31 ann "yes" 8); by_run|].
  apply rtc_once. eapply (bs_consensus_answer pot4 31 ben "yes" 9); by_run.
Qed.

Definition pot_hub : Hub := mkHub pot5 pot5 10 [].
Definition pot_task : Task := task_of pot5 31.
Definition pot_deposit : PendingDeposit := Eval vm_compute in
  default (mkDeposit 0 [] [] None 0 FundExchangeAccount Refunded 0 0) (tb_deposits pot5 !! 30).
Lemma pot_pair : escrowed_pair pot_hub 31 pot_task pot_deposit ann 50 [(ben, 50)].
Proof.
  split; [apply pot5_wf; by_run|by_run..| |by_run|done|].
  - exists 30. split_and!; by_run.
  - intros q. split; reflexivity.
Qed.
Definition half_plan : Transaction * list PayoutAttempt := Eval vm_compute in
  match plan_escrow half_env pot5 31 pot_task pot_deposit with Ok p => p | _ => (mkTransaction [] [], []) end.

Lemma half_plan_made : plan_escrow half_env (live pot_hub) 31 pot_task pot_deposit = Ok (half_plan.1, half_plan.2).
Proof. by_run. Qed.

(** The hub after the torn settlement, after the resend, and after the next pass. *)
Definition torn1 : Hub := Eval vm_compute in hub_of pot_hub (try_settle_verified_task (fun _ => half_env) pot_hub 31).
Definition torn_attempt : PayoutAttempt := Eval vm_compute in default ann_attempt (payout_attempt (disk torn1) 31 ann).
Definition torn3 : Hub := Eval vm_compute in
  hub_of torn1 (resolve_payout_attempt find_env (rebooted torn1 (outbox torn1)) torn_attempt).
Definition again_plan : Transaction * list PayoutAttempt := Eval vm_compute in
  match plan_escrow again_env (live torn3) 31 pot_task pot_deposit with Ok p => p | _ => (mkTransaction [] [], []) end.

Lemma torn1_eq : try_settle_verified_task (fun _ => half_env) pot_hub 31 = Ok (torn1, false).
Proof. by_run. Qed.
Lemma torn_attempt_eq : payout_attempt (disk torn1) 31 ann = Some torn_attempt.
Proof. by_run. Qed.
Lemma torn_never_landed : attempt_resolve torn_attempt [] [(false, coin_a); (false, coin_b)] = NeverLanded.
Proof. by_run. Qed.
Lemma torn3_eq : resolve_payout_attempt find_env (rebooted torn1 (outbox torn1)) torn_attempt = Ok (torn3, false).
Proof. by_run. Qed.
Lemma again_plan_made : plan_escrow again_env (live torn3) 31 pot_task pot_deposit = Ok (again_plan.1, again_plan.2).
Proof. by_run. Qed.

Lemma partial_record_pays_twice_witness :
  exists h4 b, try_settle_verified_task (fun _ => again_env) torn3 31 = Ok (h4, b) /\
    outbox h4 = [half_plan.1; again_plan.1] /\ half_plan.1 <> again_plan.1 /\
    pays_all half_plan.1 (owed_payouts pot_task) /\ pays_all again_plan.1 (owed_payouts pot_task).
Proof.
  destruct (partial_record_pays_twice pot_hub 31 pot_task pot_deposit ann 50 [(ben, 50)] half_env half_plan.1 half_plan.2
    pot_pair half_plan_made) as (h1 & a & E1 & _ & Ha & Hrest); [reflexivity|reflexivity|].
  rewrite torn1_eq in E1. assert (h1 = torn1) as -> by congruence. rewrite torn_attempt_eq in Ha.
  assert (a = torn_attempt) as -> by congruence.
  destruct (Hrest find_env [] [(false, coin_a); (false, coin_b)]) as (h3 & E3 & _ & Hagain);
    [reflexivity|reflexivity|exact torn_never_landed|reflexivity|].
  rewrite torn3_eq in E3. assert (h3 = torn3) as -> by congruence.
  destruct (Hagain (fun _ => again_env) _ _ again_plan_made) as (h4 & b & E4 & Hout & Hp1 & Hp2); [reflexivity|].
  exists h4, b. split; [exact E4|]. split; [exact Hout|]. split; [vm_compute; discriminate|]. split; [exact Hp1|exact Hp2].
Defined.
