(* ===== verification/InFlight.v ===== *)
(** * InFlight: settlements side by side

    Models how the settlement handlers of [hub/src/handlers.rs] run at the same time:
    the guards [PAYOUT_IN_FLIGHT] and [ESCROW_SETTLEMENT_IN_FLIGHT], the lock
    [payout_lock], and the handlers of [Settlement] cut at every access to something
    they share: a guard, the board, the store, the node. A caller of
    [try_settle_verified_task] is a [Caller]; any number of them run, and each may be
    dropped anywhere (a client that hangs up), which gives its guards back. The sweep
    resolves payouts beside them, one at a time. A step is one access; what it does
    depends on a [Choice]: the node's answer, the clock, fresh ids, and whether a write
    commits.

    An attempt with no stored transaction, which only earlier versions wrote, is sent
    again in [Settlement] and not here. A panic drops the caller like a client that
    hangs up. *)

From S2P Require Import Prelude Types Crypto Transaction Spend BoardTypes Exchange Tasks Board Payouts Payments Wallets Settlement.

(** An entry of [PAYOUT_IN_FLIGHT] or [ESCROW_SETTLEMENT_IN_FLIGHT], or [payout_lock]. *)
Inductive Guard : Type :=
| PayoutInFlight (k : Uuid * PublicKey)
| EscrowInFlight (escrow : Uuid)
| PayoutLock.
#[export] Instance guard_eq_dec : EqDecision Guard.
Proof. solve_decision. Defined.
#[export] Instance guard_countable : Countable Guard.
Proof.
  refine (inj_countable'
    (fun g => match g with PayoutInFlight k => inl k | EscrowInFlight e => inr (inl e) | PayoutLock => inr (inr tt) end)
    (fun s => match s with inl k => PayoutInFlight k | inr (inl e) => EscrowInFlight e | inr (inr _) => PayoutLock end) _).
  by intros [].
Defined.

(** ** Callers *)

(** What [try_settle_verified_task] found to do: the legs of an operator-funded task, one
    after the other, or the whole of an escrow-funded one. *)
Inductive Job : Type :=
| OperatorLegs (task_id : Uuid) (leg : PublicKey * N) (rest : list (PublicKey * N))
| EscrowTask (task_id : Uuid) (deposit : PendingDeposit).

(** Where a caller is, in [settle_one_payout] or [settle_escrow_funded_task] and the
    [submit_task_payout] they end in. *)
Inductive Pc : Type :=
| Acquire
| Recheck
| Lock
| Fetch (recipients : list (PublicKey * N))
| Build (recipients : list (PublicKey * N)) (utxos : list Utxo)
| Count (tx : Transaction) (now : DateTime) (todo : list (nat * (PublicKey * N))) (attempts : list PayoutAttempt)
| Save (tx : Transaction) (attempts todo : list PayoutAttempt)
| Record_ (tx : Transaction) (attempts : list PayoutAttempt)
| SaveTask (tx : Transaction) (attempts : list PayoutAttempt)
| Submit (tx : Transaction) (attempts : list PayoutAttempt).

Record Caller := mkCaller { c_job : Job; c_pc : Pc }.

(** ** The sweep, resolving one attempt *)
Inductive Sweeper : Type :=
| SweepIdle
| Confirming (a : PayoutAttempt)
| CheckStale (a : PayoutAttempt)
| Confirm (a : PayoutAttempt)
| CheckLive (a : PayoutAttempt)
| Collect (a : PayoutAttempt) (tx : Transaction)
| SaveLegs (tx : Transaction) (next todo : list PayoutAttempt)
| RecordLegs (tx : Transaction) (next : list PayoutAttempt)
| Resend (tx : Transaction) (next : list PayoutAttempt).

(** [elsewhere]: another payment from the operator's wallet has the lock. [sent_log] is
    every leg with every transaction that was handed to the node for it. *)
Record Floor := mkFloor {
  floor_hub : Hub;
  held : gset Guard;
  callers : gmap nat Caller;
  sweeper : Sweeper;
  elsewhere : bool;
  sent_log : list ((Uuid * PublicKey) * Transaction)
}.

Record Choice := mkChoice {
  ch_utxos : option (list Utxo);
  ch_fresh : nat -> Uuid;
  ch_now : DateTime;
  ch_commits : bool
}.

Definition job_task (j : Job) : Uuid := match j with OperatorLegs id _ _ => id | EscrowTask id _ => id end.
Definition guard_of (j : Job) : Guard :=
  match j with OperatorLegs id leg _ => PayoutInFlight (id, leg.1) | EscrowTask _ d => EscrowInFlight (pd_id d) end.

(** What a caller guards_held at each place. *)
Definition guards_held (c : Caller) : list Guard :=
  match c_pc c with
  | Acquire => []
  | Recheck | Lock => [guard_of (c_job c)]
  | _ => guard_of (c_job c) :: match c_job c with OperatorLegs _ _ _ => [PayoutLock] | EscrowTask _ _ => [] end
  end.
Definition sweeper_holds (s : Sweeper) : list Guard :=
  match s with
  | CheckStale a | Confirm a => [PayoutInFlight (pa_task_id a, pa_recipient a)]
  | _ => []
  end.

Definition with_hub (w : Floor) (h : Hub) : Floor := mkFloor h (held w) (callers w) (sweeper w) (elsewhere w) (sent_log w).
Definition with_held (w : Floor) (g : gset Guard) : Floor := mkFloor (floor_hub w) g (callers w) (sweeper w) (elsewhere w) (sent_log w).
Definition with_callers (w : Floor) (m : gmap nat Caller) : Floor := mkFloor (floor_hub w) (held w) m (sweeper w) (elsewhere w) (sent_log w).
Definition with_sweeper (w : Floor) (s : Sweeper) : Floor := mkFloor (floor_hub w) (held w) (callers w) s (elsewhere w) (sent_log w).
Definition log_send (w : Floor) (tx : Transaction) (attempts : list PayoutAttempt) : Floor :=
  mkFloor (submitted (floor_hub w) tx) (held w) (callers w) (sweeper w) (elsewhere w)
    (sent_log w ++ ((fun a => ((pa_task_id a, pa_recipient a), tx)) <$> attempts)).

Definition goto (w : Floor) (i : nat) (j : Job) (pc : Pc) : Floor := with_callers w (<[i := mkCaller j pc]> (callers w)).
(** [Drop] of the guards. *)
Definition give_back (w : Floor) (c : Caller) : Floor := with_held w (held w ∖ list_to_set (guards_held c)).
(** A leg is done with: the next one of the loop, or the end. *)
Definition finish (w : Floor) (i : nat) (c : Caller) : Floor :=
  let w := give_back w c in
  match c_job c with
  | OperatorLegs id _ (leg :: rest) => goto w i (OperatorLegs id leg rest) Acquire
  | _ => with_callers w (delete i (callers w))
  end.
Definition cancel (w : Floor) (i : nat) (c : Caller) : Floor :=
  let w := give_back w c in with_callers w (delete i (callers w)).

Section floor.
Context `{Primitives, HubKeys}.

Definition signing_key (j : Job) : PrivateKey :=
  match j with OperatorLegs _ _ _ => operator_private_key | EscrowTask _ d => private_key d end.
Definition source_of (j : Job) : PublicKey :=
  match j with OperatorLegs _ _ _ => operator_public_key | EscrowTask _ d => deposit_pubkey d end.
Definition change_of (j : Job) : PublicKey :=
  match j with OperatorLegs _ _ _ => operator_public_key | EscrowTask _ d => depositor d end.

(** [try_settle_verified_task], up to the first guard. *)
Definition start_settling (w : Floor) (i : nat) (task_id : Uuid) : option Floor :=
  match callers w !! i with
  | Some _ => None
  | None =>
      t ← tb_tasks (live (floor_hub w)) !! task_id;
      if negb (is_settling (status t)) then None
      else match unsubmitted_payouts (live (floor_hub w)) task_id with
           | [] => None
           | leg :: rest =>
               if decide (status t = Submitted) then None
               else Some (goto w i (match funding (live (floor_hub w)) t with
                                    | Some deposit => EscrowTask task_id deposit
                                    | None => OperatorLegs task_id leg rest
                                    end) Acquire)
           end
  end.

(** The check under the guard: what is left to pay, if anything. *)
Definition recheck (tb : TaskBoard) (j : Job) : option Pc :=
  t ← tb_tasks tb !! job_task j;
  match j with
  | OperatorLegs id leg _ =>
      if is_recipient_paid t leg.1 then None
      else match payout_attempt tb id leg.1 with Some _ => None | None => Some Lock end
  | EscrowTask _ _ => match owed_payouts t with [] => None | still_owed => Some (Fetch still_owed) end
  end.

(** One access of caller [i]; [None] while it waits for the lock. *)
Definition caller_step (ch : Choice) (w : Floor) (i : nat) (c : Caller) : option Floor :=
  let j := c_job c in
  let h := floor_hub w in
  match c_pc c with
  | Acquire => if decide (guard_of j ∈ held w) then Some (finish w i c)
               else Some (goto (with_held w ({[guard_of j]} ∪ held w)) i j Recheck)
  | Recheck => Some (match recheck (live h) j with Some pc => goto w i j pc | None => finish w i c end)
  | Lock => match j with
            | OperatorLegs _ leg _ => if decide (PayoutLock ∈ held w) then None
                                      else Some (goto (with_held w ({[PayoutLock]} ∪ held w)) i j (Fetch [leg]))
            | EscrowTask _ _ => None
            end
  | Fetch rs => Some (match ch_utxos ch with Some us => goto w i j (Build rs us) | None => finish w i c end)
  | Build rs us =>
      Some (match build_payment_from (live h) (Some us) (ch_fresh ch) (signing_key j) (source_of j) rs (change_of j)
                    ((fun r : PublicKey * N => (job_task j, r.1)) <$> rs) with
            | Ok tx => goto w i j (Count tx (ch_now ch) (imap pair rs) [])
            | _ => finish w i c
            end)
  | Count tx now [] attempts => Some (goto w i j (Save tx attempts attempts))
  | Count tx now (e :: todo) attempts =>
      Some (match plan_attempt (live h) (job_task j) (source_of j) now tx e with
            | Ok a => goto w i j (Count tx now todo (attempts ++ [a]))
            | _ => finish w i c
            end)
  | Save tx attempts [] => Some (goto w i j (Record_ tx attempts))
  | Save tx attempts (a :: todo) =>
      Some (match save_payout_attempt (ch_commits ch) (disk h) a with
            | Some d => goto (with_hub w (with_boards h (live h) d)) i j (Save tx attempts todo)
            | None => finish w i c
            end)
  | Record_ tx attempts =>
      Some (goto (with_hub w (with_boards h (foldl record_payout_attempt (live h) attempts) (disk h))) i j (SaveTask tx attempts))
  | SaveTask tx attempts =>
      let d := match tb_tasks (live h) !! job_task j with
               | Some t => save_task (ch_commits ch) (disk h) t
               | None => disk h
               end in
      Some (goto (with_hub w (with_boards h (live h) d)) i j (Submit tx attempts))
  | Submit tx attempts => Some (finish (log_send w tx attempts) i c)
  end.

(** [resolve_payout_attempt] of a copy of an attempt, up to the first access after the
    node's two answers. *)
Definition resolve_start (ch : Choice) (w : Floor) (a : PayoutAttempt) (recipient_utxos source_utxos : list Utxo) : option Floor :=
  match sweeper w with
  | SweepIdle =>
      match attempt_resolve a recipient_utxos source_utxos with
      | Confirmed => Some (with_sweeper w (Confirming a))
      | NeverLanded =>
          if MAX_PAYOUT_SUBMISSIONS <=? pa_submissions a
          then match abandon_payout (ch_commits ch) (floor_hub w) a with
               | Ok h => Some (with_hub w h)
               | _ => None
               end
          else Some (with_sweeper w (CheckLive a))
      | HeldInMempool | Ambiguous => Some w
      end
  | _ => None
  end.

Definition sweeper_step (ch : Choice) (w : Floor) : option Floor :=
  let h := floor_hub w in
  match sweeper w with
  | SweepIdle => None
  | Confirming a =>
      let g := PayoutInFlight (pa_task_id a, pa_recipient a) in
      if decide (g ∈ held w) then Some (with_sweeper w SweepIdle)
      else Some (with_sweeper (with_held w ({[g]} ∪ held w)) (CheckStale a))
  | CheckStale a =>
      if bool_decide (payout_attempt (live h) (pa_task_id a) (pa_recipient a) = Some a)
      then Some (with_sweeper w (Confirm a))
      else Some (with_sweeper (with_held w (held w ∖ list_to_set (sweeper_holds (sweeper w)))) SweepIdle)
  | Confirm a =>
      match record_confirmed_payout (ch_commits ch) (ch_now ch) h (pa_task_id a) (pa_recipient a) (pa_amount a) with
      | Ok (h', _) => Some (with_sweeper (with_held (with_hub w h') (held w ∖ list_to_set (sweeper_holds (sweeper w)))) SweepIdle)
      | _ => None
      end
  | CheckLive a =>
      Some (with_sweeper w
        (match tb_tasks (live h) !! pa_task_id a with
         | None => SweepIdle
         | Some _ =>
             if bool_decide (payout_attempt (live h) (pa_task_id a) (pa_recipient a) = Some a)
             then match pa_transaction a with Some tx => Collect a tx | None => SweepIdle end
             else SweepIdle
         end))
  | Collect a tx =>
      match bump_all (ch_now ch) (base.filter (fun leg => pa_transaction leg = Some tx)
                                    (payout_attempts_for_task (live h) (pa_task_id a))) with
      | Ok next => Some (with_sweeper w (SaveLegs tx next next))
      | _ => None
      end
  | SaveLegs tx next [] => Some (with_sweeper w (RecordLegs tx next))
  | SaveLegs tx next (a :: todo) =>
      Some (match save_payout_attempt (ch_commits ch) (disk h) a with
            | Some d => with_sweeper (with_hub w (with_boards h (live h) d)) (SaveLegs tx next todo)
            | None => with_sweeper w SweepIdle
            end)
  | RecordLegs tx next =>
      Some (with_sweeper (with_hub w (with_boards h (foldl record_payout_attempt (live h) next) (disk h))) (Resend tx next))
  | Resend tx next => Some (with_sweeper (log_send w tx next) SweepIdle)
  end.

(** A crash: the guards and everything running are gone; the hub is what is on disk. *)
Definition crash (w : Floor) : Floor :=
  mkFloor (with_boards (floor_hub w) (disk (floor_hub w)) (disk (floor_hub w))) ∅ ∅ SweepIdle false (sent_log w).
End floor.
