(* ===== verification/InFlightInv.v ===== *)
(** * InFlightInv: the invariant of settlements side by side

    The steps of [InFlight] interleaved, with cancellations, other operations and
    crashes; who owns a guard; what is recorded of a leg while callers work on it; and
    what a step that touches only some legs leaves alone. *)

From S2P Require Import Prelude Types Crypto Transaction Spend BoardTypes Exchange Tasks Board Payouts BoardInv BoardStep PayoutStep BoardTheorems Payments Wallets Settlement SettleInv SettleStep InFlight.

(** The boards of the hub. *)
Abbreviation lv w := (live (floor_hub w)).
Abbreviation dk w := (disk (floor_hub w)).

(** ** What else may happen to the boards: nothing about payouts *)
Record others (Op : Uuid -> Prop) (h h' : Hub) : Prop := {
  ot_quiet : quiet (live h) (live h');
  ot_live : tb_attempts (live h') = tb_attempts (live h);
  ot_disk : tb_attempts (disk h') = tb_attempts (disk h);
  ot_written : forall i, tb_tasks (disk h') !! i = tb_tasks (disk h) !! i \/ tb_tasks (disk h') !! i = tb_tasks (live h) !! i;
  ot_operator : forall id t, Op id -> tb_tasks (live h') !! id = Some t -> escrow_id t = None
}.

Inductive Who : Type := ACaller (i : nat) | TheSweep | Elsewhere.
#[export] Instance who_eq_dec : EqDecision Who.
Proof. solve_decision. Defined.

Section floor.
Context `{Primitives, HubKeys}.
(** The tasks the operator pays for: they have no escrow. *)
Context {Op : Uuid -> Prop}.
Implicit Types (w : Floor) (k : Uuid * PublicKey) (tx : Transaction).

Inductive floor_step w : Floor -> Prop :=
| fs_call i id w' : start_settling w i id = Some w' -> floor_step w w'
| fs_caller ch i c w' : callers w !! i = Some c -> caller_step ch w i c = Some w' -> floor_step w w'
| fs_cancel i c : callers w !! i = Some c -> floor_step w (cancel w i c)
| fs_resolve ch a ru su w' : resolve_start ch w a ru su = Some w' -> floor_step w w'
| fs_sweeper ch w' : sweeper_step ch w = Some w' -> floor_step w w'
| fs_others h' : others Op (floor_hub w) h' -> floor_step w (with_hub w h')
| fs_lock : PayoutLock ∉ held w ->
    floor_step w (mkFloor (floor_hub w) ({[PayoutLock]} ∪ held w) (callers w) (sweeper w) true (sent_log w))
| fs_unlock : elsewhere w = true ->
    floor_step w (mkFloor (floor_hub w) (held w ∖ {[PayoutLock]}) (callers w) (sweeper w) false (sent_log w))
| fs_crash : floor_step w (crash w).

(** ** Guards have one owner *)
Definition owned w (a : Who) : list Guard :=
  match a with
  | ACaller i => match callers w !! i with Some c => guards_held c | None => [] end
  | TheSweep => sweeper_holds (sweeper w)
  | Elsewhere => if elsewhere w then [PayoutLock] else []
  end.
Definition guards_ok w : Prop :=
  (forall g, g ∈ held w <-> exists a, g ∈ owned w a) /\
  (forall g a b, g ∈ owned w a -> g ∈ owned w b -> a = b).

Lemma guards_change a w w' :
  guards_ok w -> (forall b, b <> a -> owned w' b = owned w b) ->
  (forall g, g ∈ owned w' a -> g ∈ owned w a \/ g ∉ held w) ->
  (forall g, g ∈ held w' <-> g ∈ owned w' a \/ (g ∈ held w /\ g ∉ owned w a)) -> guards_ok w'.
Proof.
  intros [Hiff Huniq] Hb Hnew Hheld. split.
  - intros g. rewrite Hheld, Hiff. split.
    + intros [Hg|[[b Hg] Hn]]; [eauto|]. exists b. rewrite Hb; [done|]. by intros ->.
    + intros [b Hg]. destruct (decide (g ∈ owned w' a)) as [|Hn]; [by left|right].
      assert (b <> a) by (by intros ->). rewrite Hb in Hg by done. split; [eauto|]. intros Ha. by rewrite (Huniq g a b) in H1.
  - assert (Hone : forall g b, b <> a -> g ∈ owned w' a -> g ∉ owned w b).
    { intros g b Hne Ha Hg. destruct (Hnew g Ha) as [Ho|Hn]; [by rewrite (Huniq g b a) in Hne|]. apply Hn, Hiff. eauto. }
    intros g b c Hgb Hgc. destruct (decide (b = a)) as [->|Nb], (decide (c = a)) as [->|Nc]; [done|..].
    + rewrite Hb in Hgc by done. by destruct (Hone g c Nc Hgb).
    + rewrite Hb in Hgb by done. by destruct (Hone g b Nb Hgc).
    + rewrite Hb in Hgb, Hgc by done. by eapply Huniq.
Qed.

Lemma guards_of_caller w i c g : guards_ok w -> callers w !! i = Some c -> g ∈ guards_held c -> g ∈ held w.
Proof. intros [Hiff _] Hc Hg. apply Hiff. exists (ACaller i). cbn. by rewrite Hc. Qed.

(** A caller that goes on, possibly with one guard more. *)
Lemma guards_goto w i j pc (new : gset Guard) :
  guards_ok w -> (forall g, g ∈ new -> g ∉ held w) ->
  (forall g, g ∈ guards_held (mkCaller j pc) <-> g ∈ owned w (ACaller i) \/ g ∈ new) ->
  guards_ok (goto (with_held w (new ∪ held w)) i j pc).
Proof.
  intros Hok Hnew Hh. assert (Hown : forall g, g ∈ owned w (ACaller i) -> g ∈ held w) by (intros g Hg; apply Hok; eauto).
  apply (guards_change (ACaller i) w); [done|..]; cbn.
  - intros [k| |] Hne; cbn; [|done..]. by rewrite lookup_insert_ne by congruence.
  - intros g. rewrite lookup_insert_eq. intros [?|?]%Hh; eauto.
  - intros g. rewrite lookup_insert_eq, Hh. cbn in Hown. destruct (decide (g ∈ owned w (ACaller i))); set_solver.
Qed.
Lemma guards_stay w i c j pc :
  guards_ok w -> callers w !! i = Some c -> guards_held (mkCaller j pc) = guards_held c -> guards_ok (goto w i j pc).
Proof.
  intros Hok Hc Hh. pose proof (guards_goto w i j pc ∅ Hok ltac:(set_solver)) as Hg. rewrite union_empty_l_L in Hg.
  apply Hg. intros g. cbn. rewrite Hc, Hh. set_solver.
Qed.

(** A caller that gives its guards back. *)
Lemma guards_release w i c w' :
  guards_ok w -> callers w !! i = Some c -> held w' = held w ∖ list_to_set (guards_held c) -> owned w' (ACaller i) = [] ->
  (forall b, b <> ACaller i -> owned w' b = owned w b) -> guards_ok w'.
Proof.
  intros Hok Hc Hheld Ho Hb. apply (guards_change (ACaller i) w); [done|done|..]; rewrite Ho; [set_solver|].
  intros g. cbn. rewrite Hheld, Hc. set_solver.
Qed.
Lemma guards_cancel w i c : guards_ok w -> callers w !! i = Some c -> guards_ok (cancel w i c).
Proof.
  intros Hok Hc. apply (guards_release w i c); [done|done|done|..].
  - cbn. by rewrite lookup_delete_eq.
  - intros [k| |] Hne; cbn; [|done..]. by rewrite lookup_delete_ne by congruence.
Qed.
Lemma guards_finish w i c : guards_ok w -> callers w !! i = Some c -> guards_ok (finish w i c).
Proof.
  intros Hok Hc. unfold finish. destruct (c_job c) as [id leg [|leg' rest]|id d] eqn:Ej; [by apply guards_cancel| |by apply guards_cancel].
  apply (guards_release w i c); [done|done|done|..].
  - cbn. by rewrite lookup_insert_eq.
  - intros [k| |] Hne; cbn; [|done..]. by rewrite lookup_insert_ne by congruence.
Qed.

(** ** What is recorded of a leg *)
Definition given_up w (id : Uuid) : Prop := exists td, tb_tasks (dk w) !! id = Some td /\ status td = PayoutFailed.
(** Nothing has been recorded for it, and nothing sent. *)
Definition unsent w k : Prop := sent_tx (lv w) k = None /\ forall tx, (k, tx) ∈ sent_log w -> given_up w k.1.
Definition kept w k tx : Prop := sent_tx (lv w) k = Some (Some tx) \/ given_up w k.1.
(** What was sent is on record until it is paid or given up. *)
Definition on_record w k tx : Prop :=
  sent_tx (lv w) k = Some (Some tx) \/
  exists td, tb_tasks (dk w) !! k.1 = Some td /\ (is_recipient_paid td k.2 = true \/ status td = PayoutFailed).

Record leg_ok w k : Prop := {
  lo_sub : forall y, sent_tx (lv w) k = Some y -> sent_tx (dk w) k = Some y;
  lo_match : forall tx tx', sent_tx (dk w) k = Some (Some tx) -> (k, tx') ∈ sent_log w -> tx' = tx \/ given_up w k.1;
  lo_log : forall tx, (k, tx) ∈ sent_log w -> on_record w k tx;
  lo_one : forall tx tx', (k, tx) ∈ sent_log w -> (k, tx') ∈ sent_log w -> tx = tx' \/ given_up w k.1
}.

Record boards_ok w : Prop := {
  bo_live : board_wf (lv w);
  bo_disk : board_wf (dk w);
  bo_history : forall id td, tb_tasks (dk w) !! id = Some td -> exists tl, tb_tasks (lv w) !! id = Some tl /\ history td tl;
  bo_operator : forall id t, Op id -> tb_tasks (lv w) !! id = Some t -> escrow_id t = None;
  bo_live_attempts : attempts_ok (lv w);
  bo_disk_attempts : attempts_ok (dk w)
}.

(** ** Where each caller stands *)
Definition one_leg (j : Job) (l : list PayoutAttempt) : Prop :=
  match j with OperatorLegs _ _ _ => exists a, l = [a] | EscrowTask _ _ => True end.
Definition made (j : Job) tx (a : PayoutAttempt) : Prop :=
  pa_transaction a = Some tx /\ pa_task_id a = job_task j /\
  match j with OperatorLegs _ leg _ => pa_recipient a = leg.1 | EscrowTask _ _ => True end.
Definition shape (j : Job) (pc : Pc) : Prop :=
  match pc with
  | Acquire | Recheck => True
  | Lock => match j with OperatorLegs _ _ _ => True | EscrowTask _ _ => False end
  | Fetch rs | Build rs _ => match j with OperatorLegs _ leg _ => rs = [leg] | EscrowTask _ _ => True end
  | Count tx _ todo l => Forall (made j tx) l /\
      match j with OperatorLegs _ leg _ => (todo = [(0%nat, leg)] /\ l = []) \/ (todo = [] /\ one_leg j l) | EscrowTask _ _ => True end
  | Save tx l todo => Forall (made j tx) l /\ one_leg j l /\ exists saved, l = saved ++ todo
  | Record_ tx l | SaveTask tx l | Submit tx l => Forall (made j tx) l /\ one_leg j l
  end.
Definition progress w k (pc : Pc) : Prop :=
  match pc with
  | Acquire | Recheck => True
  | Lock | Fetch _ | Build _ _ | Count _ _ _ _ => unsent w k
  | Save tx l todo => unsent w k /\ (todo = [] -> sent_tx (dk w) k = Some (Some tx))
  | Record_ tx _ => unsent w k /\ sent_tx (dk w) k = Some (Some tx)
  | SaveTask tx _ | Submit tx _ => kept w k tx
  end.
Definition caller_ok w (c : Caller) : Prop :=
  shape (c_job c) (c_pc c) /\
  match c_job c with
  | EscrowTask id _ => ~ Op id
  | OperatorLegs id leg _ => Op id -> progress w (id, leg.1) (c_pc c)
  end.

Definition resent w tx (a : PayoutAttempt) : Prop :=
  pa_transaction a = Some tx /\ (Op (pa_task_id a) -> sent_tx (lv w) (leg_key a) = Some (Some tx)).
Definition sweep_ok w : Prop :=
  match sweeper w with
  | SaveLegs tx next todo => Forall (resent w tx) next /\ exists saved, next = saved ++ todo
  | RecordLegs tx next | Resend tx next => Forall (resent w tx) next
  | _ => True
  end.

Record floor_ok w : Prop := {
  fo_guards : guards_ok w;
  fo_boards : boards_ok w;
  fo_legs : forall k, Op k.1 -> leg_ok w k;
  fo_callers : forall i c, callers w !! i = Some c -> caller_ok w c;
  fo_sweep : sweep_ok w
}.

(** ** What a step leaves alone *)

(** The boards moved on, and nothing was recorded or sent for a leg outside [K]. *)
Record moves (K : list (Uuid * PublicKey)) w w' : Prop := {
  mv_tasks : forall id t, tb_tasks (lv w) !! id = Some t -> exists t', tb_tasks (lv w') !! id = Some t' /\ history t t';
  mv_disk : forall i, tb_tasks (dk w') !! i = tb_tasks (dk w) !! i \/ tb_tasks (dk w') !! i = tb_tasks (lv w') !! i;
  mv_live : forall k, Op k.1 -> k ∉ K -> sent_tx (lv w') k = sent_tx (lv w) k;
  mv_stored : forall k, Op k.1 -> k ∉ K -> sent_tx (dk w') k = sent_tx (dk w) k;
  mv_log : forall k tx, Op k.1 -> k ∉ K -> (k, tx) ∈ sent_log w' <-> (k, tx) ∈ sent_log w
}.

Section frame.
Context (K : list (Uuid * PublicKey)) (w w' : Floor) (Hb : boards_ok w) (Hm : moves K w w').

(** A task on the new disk continues the one on the old disk. *)
Lemma moves_disk id td : tb_tasks (dk w) !! id = Some td -> exists td', tb_tasks (dk w') !! id = Some td' /\ history td td'.
Proof.
  intros Htd. destruct (mv_disk _ _ _ Hm id) as [E|E]; rewrite E; [exists td; split; [done|apply history_refl]|].
  destruct (bo_history _ Hb _ _ Htd) as (tl & Htl & H1). destruct (mv_tasks _ _ _ Hm _ _ Htl) as (t' & Ht' & H2).
  exists t'. split; [done|by eapply history_trans].
Qed.
Lemma moves_given_up id : given_up w id -> given_up w' id.
Proof. intros (td & Htd & Hs). destruct (moves_disk _ _ Htd) as (t' & ? & Hh). exists t'. split; [done|by eapply history_failed]. Qed.

Lemma moves_progress k pc : Op k.1 -> k ∉ K -> progress w k pc -> progress w' k pc.
Proof.
  intros Ho Hk. assert (Hu : unsent w k -> unsent w' k).
  { intros [E Hl]. split; [by rewrite (mv_live _ _ _ Hm) by done|]. intros tx Htx. apply (mv_log _ _ _ Hm) in Htx; [|done..].
    by eapply moves_given_up, Hl. }
  assert (Hs : forall tx, kept w k tx -> kept w' k tx).
  { intros tx [E|E]; [left; by rewrite (mv_live _ _ _ Hm)|right; by apply moves_given_up]. }
  destruct pc; cbn; auto; rewrite (mv_stored _ _ _ Hm) by done; naive_solver.
Qed.
Lemma moves_leg k : Op k.1 -> k ∉ K -> leg_ok w k -> leg_ok w' k.
Proof.
  intros Ho Hk [L1 L2 L3 L4]. pose proof (mv_live _ _ _ Hm k Ho Hk) as El. pose proof (mv_stored _ _ _ Hm k Ho Hk) as Ed.
  pose proof (fun tx => mv_log _ _ _ Hm k tx Ho Hk) as Eg. split.
  - intros y. rewrite El, Ed. apply L1.
  - intros tx tx'. rewrite Ed, Eg. intros H1 H2. destruct (L2 _ _ H1 H2); [by left|right; by apply moves_given_up].
  - intros tx. rewrite Eg. intros [E|(td & Htd & Hc)]%L3; [left; by rewrite El|right].
    destruct (moves_disk _ _ Htd) as (t' & ? & Hh). exists t'. split; [done|]. by eapply closed_history.
  - intros tx tx'. rewrite !Eg. intros H1 H2. destruct (L4 _ _ H1 H2); [by left|right; by apply moves_given_up].
Qed.
Lemma moves_boards :
  board_wf (lv w') -> (forall id t, Op id -> tb_tasks (lv w') !! id = Some t -> escrow_id t = None) ->
  attempts_ok (lv w') -> attempts_ok (dk w') -> boards_ok w'.
Proof.
  intros Hl Hop Al Ad. split; try done.
  - intros i t Hi. destruct (mv_disk _ _ _ Hm i) as [E|E]; rewrite E in Hi; [by apply (bo_disk _ Hb)|by apply Hl].
  - intros i td Hi. destruct (mv_disk _ _ _ Hm i) as [E|E]; rewrite E in Hi; [|exists td; split; [done|apply history_refl]].
    destruct (bo_history _ Hb _ _ Hi) as (tl & Htl & H1). destruct (mv_tasks _ _ _ Hm _ _ Htl) as (t' & Ht' & H2).
    exists t'. split; [done|by eapply history_trans].
Qed.
End frame.

(** A step that records and sends only for legs of [K]. *)
Lemma keep_floor K w w' :
  floor_ok w -> moves K w w' -> guards_ok w' -> boards_ok w' -> sweep_ok w' ->
  (forall k, Op k.1 -> k ∈ K -> leg_ok w' k) ->
  (forall i c, callers w' !! i = Some c -> caller_ok w' c \/
     (callers w !! i = Some c /\
      forall id leg rest, c_job c = OperatorLegs id leg rest -> Op id -> (id, leg.1) ∈ K -> progress w' (id, leg.1) (c_pc c))) ->
  floor_ok w'.
Proof.
  intros Hok Hm Hg Hb Hs Hk Hc. split; [done|done| |intros i c Hi|done].
  - intros k Ho. destruct (decide (k ∈ K)) as [|Hn]; [by apply Hk|]. eapply moves_leg; [apply Hok|done|done|done|by apply Hok].
  - destruct (Hc i c Hi) as [|[Hi' Hp]]; [done|]. destruct (fo_callers _ Hok i c Hi') as [Hsh Hj]. split; [done|].
    destruct (c_job c) as [id leg rest|id d] eqn:Ej; [|done]. intros Ho.
    destruct (decide ((id, leg.1) ∈ K)) as [|Hn]; [by eapply Hp|]. eapply moves_progress; [apply Hok|done|done|done|auto].
Qed.

Lemma sweep_frame w w' :
  sweeper w' = sweeper w ->
  (forall k y, Op k.1 -> sent_tx (lv w) k = Some y -> sent_tx (lv w') k = Some y) -> sweep_ok w -> sweep_ok w'.
Proof.
  intros E Hl. assert (Hr : forall tx a, resent w tx a -> resent w' tx a) by (intros tx a [H1 H2]; split; [done|]; auto).
  unfold sweep_ok. rewrite E. destruct (sweeper w); try done; [intros [H1 H2]; split; [|done]|intros H1..]; (eapply Forall_impl; [exact H1|apply Hr]).
Qed.

(** Only the hands moved: the boards, the log and the other callers are as they were. *)
Lemma moves_same w w' : floor_hub w' = floor_hub w -> sent_log w' = sent_log w -> moves [] w w'.
Proof. intros E1 E2. split; rewrite ?E1, ?E2; try done; [|by left]. intros id t Ht. exists t. split; [done|apply history_refl]. Qed.
Lemma boards_same w w' : floor_hub w' = floor_hub w -> boards_ok w -> boards_ok w'.
Proof. intros E [B1 B2 B3 B4 B5 B6]. split; by rewrite E. Qed.

Lemma keep_hands w w' i :
  floor_ok w -> floor_hub w' = floor_hub w -> sent_log w' = sent_log w -> sweeper w' = sweeper w -> guards_ok w' ->
  (forall n, n <> i -> callers w' !! n = callers w !! n) ->
  (forall c, callers w' !! i = Some c -> caller_ok w' c) -> floor_ok w'.
Proof.
  intros Hok E1 E2 E3 Hg Ho Hi. apply (keep_floor [] w); [done|by apply moves_same|done|apply (boards_same w), Hok; done|..].
  - apply (sweep_frame w); [done| |apply Hok]. intros k y _. by rewrite E1.
  - intros k _ Hk. by apply not_elem_of_nil in Hk.
  - intros k c Hc. destruct (decide (k = i)) as [->|Hne]; [left; by apply Hi|]. rewrite Ho in Hc by done. right. split; [done|].
    intros id leg rest _ _ Hk. by apply not_elem_of_nil in Hk.
Qed.

(** A caller that is done, or gone. *)
Lemma keep_finish w i c : floor_ok w -> callers w !! i = Some c -> floor_ok (finish w i c).
Proof.
  intros Hok Hc. apply (keep_hands w _ i); [done|unfold finish; by repeat case_match..| | |].
  - apply guards_finish; [apply Hok|done].
  - intros k Hne. unfold finish. repeat case_match; cbn; first [by rewrite lookup_insert_ne|by rewrite lookup_delete_ne].
  - intros c'. unfold finish. repeat case_match; cbn; rewrite ?lookup_insert_eq, ?lookup_delete_eq; try done.
    intros [= <-]. by split.
Qed.
Lemma keep_cancel w i c : floor_ok w -> callers w !! i = Some c -> floor_ok (cancel w i c).
Proof.
  intros Hok Hc. apply (keep_hands w _ i); [done..| | |].
  - apply guards_cancel; [apply Hok|done].
  - intros k Hne. cbn. by rewrite lookup_delete_ne.
  - intros c'. cbn. by rewrite lookup_delete_eq.
Qed.
(** A caller that goes on, with the guards [new] besides. *)
Lemma keep_goto w i j pc (new : gset Guard) :
  floor_ok w -> (forall g, g ∈ new -> g ∉ held w) ->
  (forall g, g ∈ guards_held (mkCaller j pc) <-> g ∈ owned w (ACaller i) \/ g ∈ new) ->
  caller_ok w (mkCaller j pc) -> floor_ok (goto (with_held w (new ∪ held w)) i j pc).
Proof.
  intros Hok Hn Hh Hc. apply (keep_hands w _ i); [done..| | |].
  - apply guards_goto; [apply Hok|done|done].
  - intros k Hne. cbn. by rewrite lookup_insert_ne.
  - intros c'. cbn. rewrite lookup_insert_eq. by intros [= <-].
Qed.
Lemma keep_stay w i c j pc :
  floor_ok w -> callers w !! i = Some c -> guards_held (mkCaller j pc) = guards_held c -> caller_ok w (mkCaller j pc) -> floor_ok (goto w i j pc).
Proof.
  intros Hok Hc Hh Ho. apply (keep_hands w _ i); [done..| | |].
  - eapply guards_stay; [apply Hok|done|done].
  - intros k Hne. cbn. by rewrite lookup_insert_ne.
  - intros c'. cbn. rewrite lookup_insert_eq. by intros [= <-].
Qed.
End floor.
