(* ===== verification/InFlightStep.v ===== *)
(** * InFlightStep: every step keeps the invariant

    What callers record and send, paying, giving up and sending again, and everything
    that happens beside them. *)

From S2P Require Import Prelude Types Crypto Transaction Spend BoardTypes Exchange Tasks Board Payouts BoardInv BoardStep PayoutStep BoardTheorems Payments Wallets Settlement SettleInv SettleStep InFlight InFlightInv.

Section floor.
Context `{Primitives, HubKeys} {Op : Uuid -> Prop}.
Implicit Types (w : Floor) (k : Uuid * PublicKey) (tx : Transaction).
#[local] Abbreviation floor_ok := (@floor_ok Op).
#[local] Abbreviation boards_ok := (@boards_ok Op).
#[local] Abbreviation moves := (@moves Op).
#[local] Abbreviation sweep_ok := (@sweep_ok Op).
#[local] Abbreviation caller_ok := (@caller_ok Op).
#[local] Abbreviation resent := (@resent Op).
#[local] Abbreviation floor_step := (@floor_step _ _ Op).

(** ** What a caller records and sends *)
Definition keys_of (j : Job) : list (Uuid * PublicKey) :=
  match j with OperatorLegs id leg _ => [(id, leg.1)] | EscrowTask _ _ => [] end.

Lemma acquire_or_holds c : c_pc c = Acquire \/ guard_of (c_job c) ∈ guards_held c.
Proof. unfold guards_held. destruct (c_pc c); [by left|right; apply list_elem_of_here..]. Qed.

Lemma other_caller w i c n c' id leg rest :
  guards_ok w -> callers w !! i = Some c -> callers w !! n = Some c' -> n <> i ->
  PayoutInFlight (id, leg.1) ∈ guards_held c -> c_job c' = OperatorLegs id leg rest -> c_pc c' = Acquire.
Proof.
  intros [_ Hu] Hi Hn Hne Hg Hj. destruct (acquire_or_holds c') as [|Hg']; [done|]. rewrite Hj in Hg'. destruct Hne.
  assert (ACaller n = ACaller i) as [= ->]; [|done].
  apply (Hu (PayoutInFlight (id, leg.1))); cbn; [by rewrite Hn|by rewrite Hi].
Qed.

(** One access of caller [i], whose guard covers the legs it touches. *)
Lemma keep_work w w' i c pc :
  floor_ok w -> callers w !! i = Some c -> guard_of (c_job c) ∈ guards_held c ->
  moves (keys_of (c_job c)) w w' -> boards_ok w' -> sweeper w' = sweeper w -> guards_ok w' ->
  (forall k y, Op k.1 -> sent_tx (lv w) k = Some y -> sent_tx (lv w') k = Some y) ->
  (forall n, n <> i -> callers w' !! n = callers w !! n) -> callers w' !! i = Some (mkCaller (c_job c) pc) ->
  (forall k, Op k.1 -> k ∈ keys_of (c_job c) -> leg_ok w' k) -> caller_ok w' (mkCaller (c_job c) pc) -> floor_ok w'.
Proof.
  intros Hok Hi Hg Hm Hb Hs Hg' Hl Ho Hi' Hk Hc. apply (keep_floor (keys_of (c_job c)) w); try done.
  - apply (sweep_frame w); [done|done|apply Hok].
  - intros n c' Hn. destruct (decide (n = i)) as [->|Hne]; [left; by simplify_eq|]. rewrite Ho in Hn by done. right. split; [done|].
    intros id leg rest Hj _ Hin. destruct (c_job c) as [id' leg' rest'|id' d'] eqn:Ej; cbn in Hin; [|by apply not_elem_of_nil in Hin].
    apply list_elem_of_singleton in Hin as [= <- El]. cbn in Hg. rewrite <- El in Hg.
    by rewrite (other_caller w i c n c' id leg rest (fo_guards _ Hok) Hi Hn Hne Hg Hj).
Qed.

Lemma unsent_leg_ok w k : unsent w k -> leg_ok w k.
Proof.
  intros [E Hl]. split.
  - intros y. by rewrite E.
  - intros tx tx' _ Htx. right. by eapply Hl.
  - intros tx Htx. destruct (Hl tx Htx) as (td & ? & ?). right. eauto.
  - intros tx tx' Htx _. right. by eapply Hl.
Qed.
Lemma given_up_leg_ok w k : given_up w k.1 -> (forall y, sent_tx (lv w) k = Some y -> sent_tx (dk w) k = Some y) -> leg_ok w k.
Proof. intros Hg Hs. split; [done|by right| |by right]. intros tx _. destruct Hg as (td & ? & ?). right. eauto. Qed.

(** The attempts a job makes are for its own legs. *)
Lemma made_leg j tx a k : made j tx a -> (forall id d, j = EscrowTask id d -> ~ Op id) -> Op k.1 -> leg_key a = k -> k ∈ keys_of j.
Proof.
  intros (_ & Ht & Hr) He Ho <-. cbn in Ho. destruct j as [id leg rest|id d]; cbn in *; [|rewrite Ht in Ho; by destruct (He id d)].
  rewrite Ht, Hr. apply list_elem_of_here.
Qed.
Lemma put_made j tx l (tb tb' : TaskBoard) k :
  Forall (made j tx) l -> (forall id d, j = EscrowTask id d -> ~ Op id) -> Op k.1 -> k ∉ keys_of j ->
  tb_attempts tb' = put_attempts l (tb_attempts tb) -> sent_tx tb' k = sent_tx tb k.
Proof.
  intros Hl He Ho Hk E. unfold sent_tx. rewrite E. destruct (put_attempts_lookup l (tb_attempts tb) k) as [[-> _]|(a & Ha & Hka & _)]; [done|].
  destruct Hk. rewrite Forall_forall in Hl. by eapply made_leg; [apply Hl|..].
Qed.
Lemma put_one tx a l (tb tb' : TaskBoard) :
  Forall (fun a => pa_transaction a = Some tx) l -> a ∈ l ->
  tb_attempts tb' = put_attempts l (tb_attempts tb) -> sent_tx tb' (leg_key a) = Some (Some tx).
Proof. intros Hl Ha E. unfold sent_tx. rewrite E, (put_attempts_tx l tx) by done. rewrite decide_True; [done|]. apply list_elem_of_fmap. eauto. Qed.

Section work.
Context (w : Floor) (i : nat) (j : Job) (pc : Pc) (Hok : floor_ok w) (Hi : callers w !! i = Some (mkCaller j pc)).

Lemma escrow_not_op id d : j = EscrowTask id d -> ~ Op id.
Proof. intros ->. by destruct (fo_callers _ Hok i _ Hi) as [_ Hn]. Qed.

Lemma keep_save a tx l todo :
  pc = Save tx l (a :: todo) ->
  floor_ok (goto (with_hub w (with_boards (floor_hub w) (lv w) (restore_payout_attempt (dk w) a))) i j (Save tx l todo)).
Proof.
  pose proof escrow_not_op as Hesc. intros ->. destruct (fo_callers _ Hok i _ Hi) as [(Hmade & Hone & saved & El) Hj]. cbn [c_job c_pc] in *.
  assert (Ha : made j tx a) by (rewrite Forall_forall in Hmade; apply Hmade; rewrite El; set_solver).
  set (w' := goto _ _ _ _). pose proof (fo_boards _ Hok) as Hb.
  assert (Hst : forall k, Op k.1 -> k ∉ keys_of j -> sent_tx (dk w') k = sent_tx (dk w) k).
  { intros k Ho Hk. apply (put_made j tx [a]); [by apply Forall_singleton|exact Hesc|done|done|done]. }
  assert (Hm : moves (keys_of j) w w').
  { split; try done; [|by left]. intros id t Ht. exists t. split; [done|apply history_refl]. }
  assert (Hu : forall k, unsent w k -> unsent w' k) by (intros k Hk; exact Hk).
  apply (keep_work w w' i (mkCaller j (Save tx l (a :: todo))) (Save tx l todo)); try done.
  - cbn. apply list_elem_of_here.
  - apply (moves_boards _ w w' Hb Hm); try apply Hb. eapply (put_attempts_ok [a]); [done| |apply Hb].
    apply Forall_singleton. destruct Ha as (-> & _). eauto.
  - by eapply guards_stay; [apply Hok|exact Hi|].
  - intros n Hne. cbn. by rewrite lookup_insert_ne.
  - cbn. by rewrite lookup_insert_eq.
  - intros k Ho Hk. apply unsent_leg_ok, Hu. destruct j as [id leg rest|id d]; cbn in Hk; [|by apply not_elem_of_nil in Hk].
    apply list_elem_of_singleton in Hk as ->. by apply Hj.
  - split; [cbn; split; [done|]; split; [done|]; exists (saved ++ [a]); by rewrite <- app_assoc|].
    cbn [c_job c_pc]. destruct j as [id leg rest|id d]; [|done]. intros Ho. destruct (Hj Ho) as [Hun _]. split; [by apply Hu|].
    intros _. replace (id, leg.1) with (leg_key a) by (destruct Ha as (_ & Et & Er); cbn in *; by rewrite Et, Er).
    eapply (put_one tx a [a] (dk w)); [|apply list_elem_of_here|done]. apply Forall_singleton, Ha.
Qed.

Lemma recorded_operator l : (forall id t, Op id -> tb_tasks (foldl record_payout_attempt (lv w) l) !! id = Some t -> escrow_id t = None).
Proof.
  pose proof (fo_boards _ Hok) as Hb. intros id t Ho Ht. destruct (tb_tasks (lv w) !! id) as [u|] eqn:Eu; [|by rewrite attempts_add_no_task in Ht].
  destruct (quiet_attempts l (lv w) (bo_live _ Hb)) as (Hq & _). destruct (q_tasks _ _ Hq _ _ Eu) as (u' & Hu' & Hh).
  replace u' with t in * by congruence. rewrite (h_escrow _ _ Hh). by eapply bo_operator.
Qed.

Lemma keep_record tx l :
  pc = Record_ tx l ->
  floor_ok (goto (with_hub w (with_boards (floor_hub w) (foldl record_payout_attempt (lv w) l) (dk w))) i j (SaveTask tx l)).
Proof.
  pose proof escrow_not_op as Hesc. pose proof (recorded_operator l) as Hop.
  intros ->. destruct (fo_callers _ Hok i _ Hi) as [(Hmade & Hone) Hj]. cbn [c_job c_pc] in *.
  set (w' := goto _ _ _ _). pose proof (fo_boards _ Hok) as Hb.
  destruct (quiet_attempts l (lv w) (bo_live _ Hb)) as (Hq & Ea & _).
  assert (Hlv : forall k, Op k.1 -> k ∉ keys_of j -> sent_tx (lv w') k = sent_tx (lv w) k).
  { intros k Ho Hk. by apply (put_made j tx l). }
  assert (Hm : moves (keys_of j) w w') by (split; try done; [apply Hq|by left]).
  assert (Htxs : Forall (fun a => pa_transaction a = Some tx) l) by (eapply Forall_impl; [exact Hmade|]; by intros a (? & _)).
  assert (Hkey : forall k, Op k.1 -> k ∈ keys_of j -> unsent w k /\ sent_tx (dk w) k = Some (Some tx) /\ sent_tx (lv w') k = Some (Some tx)).
  { intros k Ho Hk. destruct j as [id leg rest|id d]; cbn in Hk; [|by apply not_elem_of_nil in Hk].
    apply list_elem_of_singleton in Hk as ->. destruct (Hj Ho) as [Hu Hd]. split; [done|]. split; [done|].
    destruct Hone as [a ->]. assert (Ha := Forall_inv Hmade). destruct Ha as (Htx & Et & Er). cbn in Et, Er.
    replace (id, leg.1) with (leg_key a) by (by rewrite Et, Er). by eapply (put_one tx a [a] (lv w)); [|apply list_elem_of_here|]. }
  apply (keep_work w w' i (mkCaller j (Record_ tx l)) (SaveTask tx l)); try done.
  - cbn. apply list_elem_of_here.
  - apply (moves_boards _ w w' Hb Hm); [apply Hq|exact Hop| |apply Hb].
    eapply put_attempts_ok; [exact Ea| |apply Hb]. eapply Forall_impl; [exact Htxs|]. intros a ->. eauto.
  - by eapply guards_stay; [apply Hok|exact Hi|].
  - intros k y Ho Hy. destruct (decide (k ∈ keys_of j)) as [Hk|Hk]; [|by rewrite Hlv].
    destruct (Hkey k Ho Hk) as ((Hn & _) & _). congruence.
  - intros n Hne. cbn. by rewrite lookup_insert_ne.
  - cbn. by rewrite lookup_insert_eq.
  - intros k Ho Hk. destruct (Hkey k Ho Hk) as ((_ & Hlog) & Hd & Hl). split.
    + intros y Hy. rewrite Hl in Hy. injection Hy as <-. exact Hd.
    + intros t1 t2 _ Ht. right. by eapply moves_given_up, Hlog.
    + intros t1 Ht. destruct (moves_given_up _ _ _ Hb Hm _ (Hlog _ Ht)) as (td & ? & ?). right. eauto.
    + intros t1 t2 Ht _. right. by eapply moves_given_up, Hlog.
  - split; [done|]. cbn [c_job c_pc]. destruct j as [id leg rest|id d]; [|done]. intros Ho. left.
    apply Hkey; [done|]. cbn. apply list_elem_of_here.
Qed.

Lemma keep_save_task commits tx l :
  pc = SaveTask tx l ->
  floor_ok (goto (with_hub w (with_boards (floor_hub w) (lv w) (with_disk_task (dk w) commits (lv w) (job_task j)))) i j (Submit tx l)).
Proof.
  intros ->. destruct (fo_callers _ Hok i _ Hi) as [Hsh Hj]. cbn [c_job c_pc] in *.
  set (w' := goto _ _ _ _). pose proof (fo_boards _ Hok) as Hb.
  destruct (with_disk_task_spec (dk w) commits (lv w) (job_task j) (bo_live _ Hb)) as [(_ & Ea & _) Et]. cbn in Ea.
  assert (Hm : forall K, moves K w w').
  { intros K. split; try done.
    - intros id t Ht. exists t. split; [done|apply history_refl].
    - intros n. destruct (Et n) as [|[_ ?]]; [by left|by right].
    - intros k _ _. unfold sent_tx. cbn. by rewrite Ea. }
  apply (keep_work w w' i (mkCaller j (SaveTask tx l)) (Submit tx l)); try done.
  - cbn. apply list_elem_of_here.
  - apply (moves_boards [] w w' Hb (Hm [])); try apply Hb. cbn. unfold attempts_ok. rewrite Ea. apply Hb.
  - by eapply guards_stay; [apply Hok|exact Hi|].
  - intros n Hne. cbn. by rewrite lookup_insert_ne.
  - cbn. by rewrite lookup_insert_eq.
  - intros k Ho _. eapply (moves_leg []); [exact Hb|apply Hm|done|apply not_elem_of_nil|by apply Hok].
  - split; [done|]. cbn [c_job c_pc]. destruct j as [id leg rest|id d]; [|done]. intros Ho.
    apply (moves_progress [] w w' Hb (Hm []) _ (Submit tx l)); [done|apply not_elem_of_nil|by apply Hj].
Qed.

Lemma keep_submit tx l : pc = Submit tx l -> floor_ok (log_send w tx l).
Proof.
  pose proof escrow_not_op as Hesc. intros ->. destruct (fo_callers _ Hok i _ Hi) as [(Hmade & Hone) Hj]. cbn [c_job c_pc] in *.
  set (w' := log_send _ _ _). pose proof (fo_boards _ Hok) as Hb.
  assert (Hlog : forall k t, Op k.1 -> (k, t) ∈ sent_log w' <-> (k, t) ∈ sent_log w \/ (t = tx /\ k ∈ (fun a => leg_key a) <$> l)).
  { intros k t _. unfold w'. cbn. rewrite elem_of_app, !list_elem_of_fmap. split; (intros [?|Hx]; [by left|right]).
    - destruct Hx as (a & [= -> ->] & Ha). eauto.
    - destruct Hx as (-> & a & -> & Ha). eauto. }
  assert (Hown : forall k, Op k.1 -> k ∈ (fun a => leg_key a) <$> l -> k ∈ keys_of j).
  { intros k Ho (a & -> & Ha)%list_elem_of_fmap. rewrite Forall_forall in Hmade. by eapply made_leg; [apply Hmade|..]. }
  assert (Hm : moves (keys_of j) w w').
  { split; try done; [|by left|].
    - intros id t Ht. exists t. split; [done|apply history_refl].
    - intros k t Ho Hk. rewrite Hlog by done. split; [intros [?|[_ ?]]; [done|]|by left]. by destruct Hk; apply Hown. }
  apply (keep_work w w' i (mkCaller j (Submit tx l)) (Submit tx l)); try done.
  - cbn. apply list_elem_of_here.
  - by apply (moves_boards _ w w' Hb Hm); apply Hb.
  - apply Hok.
  - intros k Ho Hk. destruct (fo_legs _ Hok k Ho) as [L1 L2 L3 L4]. destruct j as [id leg rest|id d]; cbn in Hk; [|by apply not_elem_of_nil in Hk].
    apply list_elem_of_singleton in Hk as ->. destruct (Hj Ho) as [El|Hg].
    + pose proof (L1 _ El) as Ed. assert (Hold : forall t, ((id, leg.1), t) ∈ sent_log w' -> t = tx \/ given_up w' id).
      { intros t [Ht|[-> _]]%Hlog; [by eapply L2|by left|done]. }
      split; [exact L1| | |].
      * intros t t'. cbn. rewrite Ed. intros [= <-] Ht. by apply Hold.
      * intros t [->|(td & ? & ?)]%Hold; [by left|right; eauto].
      * intros t t' [->|?]%Hold [->|?]%Hold; auto.
    + by apply given_up_leg_ok.
Qed.
End work.

(** ** Every step of a caller *)
Lemma plan_attempt_made j source now tx e tb a :
  plan_attempt tb (job_task j) source now tx e = Ok a -> (forall id leg rest, j = OperatorLegs id leg rest -> e.2 = leg) -> made j tx a.
Proof.
  destruct e as [n [r x]]. unfold plan_attempt. intros Hp He. inv_ok. subst a. split; [done|]. split; [done|].
  destruct j as [id leg rest|id d]; [|done]. by rewrite <- (He id leg rest).
Qed.

(** What the check under the guard leaves to do. *)
Lemma recheck_ok w j pc :
  floor_ok w -> (forall id d, j = EscrowTask id d -> ~ Op id) -> recheck (lv w) j = Some pc ->
  caller_ok w (mkCaller j pc) /\ guards_held (mkCaller j pc) = [guard_of j].
Proof.
  intros Hok He. unfold recheck. destruct (tb_tasks (lv w) !! job_task j) as [t|] eqn:Et; [|done]. cbn [mbind option_bind].
  destruct j as [id leg rest|id d]; cbn in Et.
  - destruct (is_recipient_paid t leg.1) eqn:Ep; [done|]. destruct (payout_attempt (lv w) id leg.1) eqn:Ea; [done|].
    intros [= <-]. split; [|done]. split; [done|]. cbn. intros Ho. split; [by apply payout_attempt_sent|].
    intros tx Htx. apply (fo_legs _ Hok (id, leg.1) Ho) in Htx as [E|(td & Htd & Hc)].
    + apply payout_attempt_sent in Ea. congruence.
    + exists td. split; [done|]. cbn in Htd, Hc. destruct Hc as [Hp|]; [|done].
      destruct (bo_history _ (fo_boards _ Hok) _ _ Htd) as (tl & Htl & Hh). apply Hh in Hp. congruence.
  - destruct (owed_payouts t) as [|p l]; [done|]. intros [= <-]. split; [|done]. split; [done|]. by eapply He.
Qed.

Lemma caller_step_ok ch w i c w' : floor_ok w -> callers w !! i = Some c -> caller_step ch w i c = Some w' -> floor_ok w'.
Proof.
  intros Hok Hi. destruct c as [j pc]. pose proof (escrow_not_op w i j pc Hok Hi) as Hesc.
  pose proof (fo_callers _ Hok i _ Hi) as [Hsh Hj]. cbn [c_job c_pc] in *.
  assert (Hfin : floor_ok (finish w i (mkCaller j pc))) by (by apply keep_finish).
  unfold caller_step. cbn [c_job c_pc]. destruct pc as [| | |rs|rs us|tx now [|e todo] l|tx l [|a todo]|tx l|tx l|tx l]; cbn in Hsh.
  - case_decide as Hg; intros [= <-]; [done|]. apply keep_goto; [done|set_solver|cbn; rewrite Hi; set_solver|].
    split; [done|]. destruct j; [done|by eapply Hesc].
  - intros [= <-]. destruct (recheck _ _) as [pc|] eqn:Er; [|done]. destruct (recheck_ok w j pc Hok Hesc Er) as [Hc Hh].
    by eapply keep_stay.
  - destruct j as [id leg rest|id d]; [|done]. case_decide as Hg; [done|]. intros [= <-].
    apply keep_goto; [done|set_solver|cbn; rewrite Hi; cbn; set_solver|]. by split.
  - intros [= <-]. destruct (ch_utxos ch); [|done]. eapply keep_stay; [done|done|done|]. by split.
  - intros [= <-]. destruct (build_payment_from _ _ _ _ _ _ _ _) as [tx|e|]; [|done..].
    eapply keep_stay; [done|done|done|]. split; [|done]. split; [done|]. destruct j as [id leg rest|id d]; [|done]. cbn in Hsh. subst rs. by left.
  - intros [= <-]. eapply keep_stay; [done|done|done|]. destruct Hsh as [Hmade Hshape]. split.
    + split; [done|]. split; [|by exists []]. destruct j; [|done]. by destruct Hshape as [[? _]|[_ ?]].
    + destruct j as [id leg rest|id d]; [|done]. intros Ho. split; [by apply Hj|]. cbn in Hshape. intros ->.
      by destruct Hshape as [[? _]|[_ [a ?]]].
  - intros [= <-]. destruct (plan_attempt _ _ _ _ _ _) as [a|x|] eqn:Ep; [|done..]. destruct Hsh as [Hmade Hshape].
    eapply keep_stay; [done|done|done|]. split; [|done]. cbn [c_job c_pc shape].
    assert (Ha : made j tx a).
    { eapply plan_attempt_made; [exact Ep|]. intros id leg rest ->. by destruct Hshape as [[[= -> _] _]|[? _]]. }
    split; [by apply Forall_app; split; [|apply Forall_singleton]|].
    destruct j; [|done]. destruct Hshape as [[[= -> ->] ->]|[? _]]; [|done]. right. split; [done|]. by exists a.
  - intros [= <-]. destruct Hsh as (Hmade & Hone & _). eapply keep_stay; [done|done|done|]. split; [done|].
    destruct j as [id leg rest|id d]; [|done]. intros Ho. destruct (Hj Ho) as [Hu Hd]. split; [done|by apply Hd].
  - intros [= <-]. unfold save_payout_attempt. destruct (ch_commits ch); [|done]. by eapply keep_save.
  - intros [= <-]. by eapply keep_record.
  - intros [= <-]. by apply (keep_save_task w i j (SaveTask tx l) Hok Hi (ch_commits ch)).
  - intros [= <-]. apply keep_finish; [by eapply keep_submit|done].
Qed.

Lemma call_ok w i id w' : floor_ok w -> start_settling w i id = Some w' -> floor_ok w'.
Proof.
  intros Hok. unfold start_settling. destruct (callers w !! i) as [c|] eqn:Ei; [done|].
  destruct (tb_tasks (lv w) !! id) as [t|] eqn:Et; [|done]. cbn [mbind option_bind]. destruct (negb _); [done|].
  destruct (unsubmitted_payouts _ _) as [|leg rest]; [done|]. case_decide; [done|]. intros [= <-].
  assert (Hg := keep_goto w i (match funding (lv w) t with Some deposit => EscrowTask id deposit | None => OperatorLegs id leg rest end) Acquire ∅ Hok).
  destruct w as [h g cs s e lg]. cbn in *. unfold with_held in Hg. cbn in Hg. rewrite union_empty_l_L in Hg. apply Hg; [set_solver|rewrite Ei; set_solver|].
  destruct (funding _ t) as [deposit|] eqn:Ef; [|by split]. split; [done|]. cbn. intros Ho.
  pose proof (bo_operator _ (fo_boards _ Hok) _ _ Ho Et) as He. unfold funding in Ef. by rewrite He in Ef.
Qed.

(** ** Paying and giving up *)
Lemma confirmed_cases commits now h id r amount h' b :
  board_wf (live h) -> attempts_ok (live h) -> record_confirmed_payout commits now h id r amount = Ok (h', b) ->
  (tb_tasks (live h') = tb_tasks (live h) /\ tb_attempts (live h') = tb_attempts (live h) /\ disk h' = disk h) \/
  exists t t', tb_tasks (live h) !! id = Some t /\ history t t' /\ task_wf id t' /\ is_recipient_paid t' r = true /\
    tb_tasks (live h') = <[id := t']> (tb_tasks (live h)) /\ tb_tasks (disk h') = <[id := t']> (tb_tasks (disk h)) /\
    tb_attempts (live h') = delete (id, r) (tb_attempts (live h)) /\ tb_attempts (disk h') = delete (id, r) (tb_attempts (disk h)).
Proof.
  intros Hwf Hat. unfold record_confirmed_payout.
  destruct (mark_recipient_paid _ _ _ _ _) as [[tb1 full]|e|] eqn:Em; [|intros [= <- <-]; by left|done].
  destruct (mark_paid_facts _ _ _ _ _ _ _ Hwf Em) as (t & t' & Ht & Hs & Et & Hwf' & Hh & Hp & Howe & Ea & Ed).
  cbn [clear_payout_attempt fst with_attempts tb_tasks]. rewrite Et, lookup_insert_eq. cbn.
  destruct commits; cbn [save_confirmed_payout]; intros [= <- <-].
  - right. exists t, t'. cbn. rewrite (wf_id _ _ Hwf'). split_and!; try done; by rewrite ?Ea, ?Et.
  - left. rewrite Ht. destruct (payout_attempt (live h) id r) as [a|] eqn:Eat; cbn; rewrite ?Et, ?Ea;
      (split_and!; [rewrite (wf_id _ _ (Hwf id t Ht)), insert_insert_eq; by apply insert_id| |done]).
    + destruct (Hat (id, r) a Eat) as [-> _]. apply insert_delete_id, Eat.
    + by apply delete_id.
Qed.

Lemma abandoned_cases commits h a h' :
  board_wf (live h) -> attempts_ok (live h) -> abandon_payout commits h a = Ok h' ->
  (tb_tasks (live h') = tb_tasks (live h) /\ tb_attempts (live h') = tb_attempts (live h) /\ disk h' = disk h) \/
  exists t t' (dropped : list (Uuid * PublicKey)), tb_tasks (live h) !! pa_task_id a = Some t /\ history t t' /\ task_wf (pa_task_id a) t' /\ status t' = PayoutFailed /\
    tb_tasks (live h') = <[pa_task_id a := t']> (tb_tasks (live h)) /\ tb_tasks (disk h') = <[pa_task_id a := t']> (tb_tasks (disk h)) /\
    (forall k, k ∈ dropped <-> k.1 = pa_task_id a /\ is_Some (sent_tx (live h) k)) /\
    (forall k, tb_attempts (live h') !! k = if decide (k ∈ dropped) then None else tb_attempts (live h) !! k) /\
    (forall k, tb_attempts (disk h') !! k = if decide (k ∈ dropped) then None else tb_attempts (disk h) !! k).
Proof.
  intros Hwf Hat. unfold abandon_payout. set (id := pa_task_id a) in *.
  destruct (mark_payout_failed _ _) as [[tb1 dropped]|e|] eqn:Em; [|intros [= <-]; by left|done].
  destruct (mark_payout_failed_shape _ _ _ _ Em) as (t & Ht & Hs & Et & Hatt).
  destruct (mark_payout_failed_dropped _ _ _ _ Em) as [Ed Hdrop].
  destruct (mark_payout_failed_keeps _ _ _ _ Em Hwf) as [Hwf1 Hev].
  destruct (Hev id t Ht) as (t' & Ht' & Hev'). rewrite Ht'. cbn. apply evolves_to_history in Hev'.
  assert (t' = set_status t PayoutFailed) as E by (rewrite Et, lookup_insert_eq in Ht'; congruence).
  assert (Hid : t_id t' = id) by (apply (wf_id _ _ (Hwf1 id t' Ht'))).
  destruct commits; cbn [save_task_and_drop_payout_attempts]; intros [= <-].
  - right. set (ks := _ <$> dropped). exists t, t', ks. destruct (clear_legs_frame ks (restore_task (disk h) t')) as [F1 _].
    assert (Hks : forall k, k ∈ ks <-> k.1 = id /\ is_Some (sent_tx (live h) k)).
    { intros k. unfold ks, sent_tx. rewrite list_elem_of_fmap, fmap_is_Some. split.
      - intros (b & -> & Hb). apply Hdrop in Hb as (k & Hk & Hb). destruct (Hat k b Hb) as [-> _]. by rewrite Hb.
      - intros [Hk [b Hb]]. exists b. destruct (Hat k b Hb) as [-> _]. split; [done|]. apply Hdrop. eauto. }
    split_and!; try done; [by apply Hwf1|by rewrite E|cbn; by rewrite E|cbn; cbn in F1; by rewrite F1, Hid| |].
    + intros k. cbn. rewrite Hatt. destruct (decide (k ∈ ks)) as [C|C]; [apply Hks in C as [-> _]; by rewrite decide_True|].
      case_decide as D; [|done]. destruct (tb_attempts (live h) !! k) eqn:Ek; [|done]. destruct C. apply Hks.
      unfold sent_tx. rewrite Ek. split; [done|by eexists].
    + intros k. cbn. by rewrite clear_legs_lookup.
  - left. cbn. rewrite Ht. destruct (restore_legs_frame dropped (restore_task tb1 t)) as (-> & _ & ->). cbn. rewrite Et.
    split_and!; [|by eapply restored_legs|done].
    rewrite (wf_id _ _ (Hwf id t Ht)), insert_insert_eq. by apply insert_id.
Qed.

(** The boards took back or never got a change: nothing is different. *)
Lemma moves_still w w' K :
  tb_tasks (lv w') = tb_tasks (lv w) -> tb_attempts (lv w') = tb_attempts (lv w) -> dk w' = dk w -> sent_log w' = sent_log w ->
  moves K w w'.
Proof.
  intros E1 E2 E3 E4. split; rewrite ?E1, ?E3, ?E4; try done; [|by left|].
  - intros id t Ht. exists t. split; [done|apply history_refl].
  - intros k _ _. unfold sent_tx. by rewrite E2.
Qed.
Lemma boards_still w w' :
  tb_tasks (lv w') = tb_tasks (lv w) -> tb_attempts (lv w') = tb_attempts (lv w) -> dk w' = dk w -> boards_ok w -> boards_ok w'.
Proof. intros E1 E2 E3 [B1 B2 B3 B4 B5 B6]. split; unfold board_wf, attempts_ok in *; rewrite ?E1, ?E2, ?E3; done. Qed.

(** The sweep moved, with the boards as they were. *)
Lemma keep_sweep w w' :
  floor_ok w -> tb_tasks (lv w') = tb_tasks (lv w) -> tb_attempts (lv w') = tb_attempts (lv w) -> dk w' = dk w ->
  sent_log w' = sent_log w -> callers w' = callers w -> guards_ok w' -> sweep_ok w' -> floor_ok w'.
Proof.
  intros Hok E1 E2 E3 E4 E5 Hg Hs. apply (keep_floor [] w); [done|by apply moves_still|done|by eapply boards_still; [..|apply Hok]|done|..].
  - intros k _ Hk. by apply not_elem_of_nil in Hk.
  - intros n c. rewrite E5. intros Hn. right. split; [done|]. intros id leg rest _ _ Hk. by apply not_elem_of_nil in Hk.
Qed.
Lemma guards_sweep w w' :
  guards_ok w -> callers w' = callers w -> elsewhere w' = elsewhere w ->
  (forall g, g ∈ sweeper_holds (sweeper w') -> g ∈ sweeper_holds (sweeper w) \/ g ∉ held w) ->
  (forall g, g ∈ held w' <-> g ∈ sweeper_holds (sweeper w') \/ (g ∈ held w /\ g ∉ sweeper_holds (sweeper w))) -> guards_ok w'.
Proof.
  intros Hok E1 E2 H1 H2. apply (guards_change TheSweep w); [done| |done|done].
  intros [n| |] Hne; cbn; [by rewrite E1|done|by rewrite E2].
Qed.
Lemma guards_sweep_stay w s :
  guards_ok w -> sweeper_holds s = sweeper_holds (sweeper w) -> guards_ok (with_sweeper w s).
Proof.
  intros Hok E. apply (guards_sweep w); [done..| |]; cbn; rewrite E; [by left|].
  intros g. destruct (decide (g ∈ sweeper_holds (sweeper w))) as [Hg|Hg]; [|tauto].
  split; [by left|]. intros _. apply Hok. by exists TheSweep.
Qed.
Lemma guards_sweep_release w w' :
  guards_ok w -> callers w' = callers w -> elsewhere w' = elsewhere w -> sweeper w' = SweepIdle ->
  held w' = held w ∖ list_to_set (sweeper_holds (sweeper w)) -> guards_ok w'.
Proof. intros Hok E1 E2 E3 E4. apply (guards_sweep w); [done..| |]; rewrite E3; cbn; [set_solver|]. intros g. rewrite E4. set_solver. Qed.

(** The task [id] becomes [t'] on both boards, and the attempts of [K] go. *)
Section closing.
Context (w w' : Floor) (K : list (Uuid * PublicKey)) (id : Uuid) (t t' : Task).
Context (Hok : floor_ok w) (Ht : tb_tasks (lv w) !! id = Some t) (Hh : history t t') (Hwf : task_wf id t').
Context (El : tb_tasks (lv w') = <[id := t']> (tb_tasks (lv w))) (Ed : tb_tasks (dk w') = <[id := t']> (tb_tasks (dk w))).
Context (Al : forall k, tb_attempts (lv w') !! k = if decide (k ∈ K) then None else tb_attempts (lv w) !! k).
Context (Ad : forall k, tb_attempts (dk w') !! k = if decide (k ∈ K) then None else tb_attempts (dk w) !! k).
Context (HK : forall k, k ∈ K -> k.1 = id /\ (is_recipient_paid t' k.2 = true \/ status t' = PayoutFailed)).
Context (Elog : sent_log w' = sent_log w) (Ec : callers w' = callers w) (Es : sweeper w' = SweepIdle) (Hg : guards_ok w').

Lemma closing_moves : moves K w w'.
Proof.
  split.
  - intros n u Hn. rewrite El. destruct (decide (n = id)) as [->|Hne]; [rewrite lookup_insert_eq; exists t'; split; [done|]; by simplify_eq|].
    rewrite lookup_insert_ne by done. exists u. split; [done|apply history_refl].
  - intros n. rewrite El, Ed. destruct (decide (n = id)) as [->|Hne]; [right; by rewrite !lookup_insert_eq|left; by rewrite lookup_insert_ne].
  - intros k _ Hk. unfold sent_tx. by rewrite Al, decide_False.
  - intros k _ Hk. unfold sent_tx. by rewrite Ad, decide_False.
  - intros k tx _ _. by rewrite Elog.
Qed.

Lemma keep_close :
  (forall n c n' leg rest, callers w !! n = Some c -> c_job c = OperatorLegs n' leg rest -> Op n' -> (n', leg.1) ∈ K ->
     progress w' (n', leg.1) (c_pc c)) -> floor_ok w'.
Proof.
  intros Hc. pose proof closing_moves as Hm. pose proof (fo_boards _ Hok) as Hb.
  assert (Hdisk : tb_tasks (dk w') !! id = Some t') by (by rewrite Ed, lookup_insert_eq).
  assert (Hdrop : forall (m m' : TaskBoard), (forall k, tb_attempts m' !! k = if decide (k ∈ K) then None else tb_attempts m !! k) ->
            attempts_ok m -> attempts_ok m').
  { intros m m' E Ho k a. rewrite E. case_decide; [done|]. apply Ho. }
  apply (keep_floor K w); [done|exact Hm|done| |by unfold sweep_ok; rewrite Es| |].
  - apply (moves_boards K w w' Hb Hm); [| |by eapply Hdrop; [exact Al|apply Hb]|by eapply Hdrop; [exact Ad|apply Hb]].
    + intros n u. rewrite El. destruct (decide (n = id)) as [->|Hne]; [rewrite lookup_insert_eq; by intros [= <-]|].
      rewrite lookup_insert_ne by done. apply (bo_live _ Hb).
    + intros n u Ho. rewrite El. destruct (decide (n = id)) as [->|Hne]; [|rewrite lookup_insert_ne by done; by apply (bo_operator _ Hb)].
      rewrite lookup_insert_eq. intros [= <-]. rewrite (h_escrow _ _ Hh). by eapply (bo_operator _ Hb).
  - intros k Ho Hk. destruct (fo_legs _ Hok k Ho) as [_ _ _ L4]. destruct (HK k Hk) as [Hid Hclosed]. split.
    + intros y. unfold sent_tx. by rewrite Al, decide_True.
    + intros tx tx'. unfold sent_tx. by rewrite Ad, decide_True.
    + intros tx _. right. exists t'. by rewrite Hid.
    + intros tx tx'. rewrite Elog. intros H1 H2. destruct (L4 _ _ H1 H2); [by left|right; by eapply moves_given_up].
  - intros n c. rewrite Ec. intros Hn. right. split; [done|]. intros. by eapply Hc.
Qed.
End closing.

Lemma resolve_ok ch w a ru su w' : floor_ok w -> resolve_start ch w a ru su = Some w' -> floor_ok w'.
Proof.
  intros Hok. pose proof (fo_boards _ Hok) as Hb. unfold resolve_start. destruct (sweeper w) eqn:Es; try done.
  assert (Hstay : forall s, sweeper_holds s = [] -> sweep_ok (with_sweeper w s) -> floor_ok (with_sweeper w s)).
  { intros s E Hs. apply (keep_sweep w); [done..| |done]. apply guards_sweep_stay; [apply Hok|]. by rewrite Es. }
  destruct (attempt_resolve a ru su); [intros [= <-]; by apply Hstay| |by intros [= <-]..].
  destruct (_ <=? _); [|intros [= <-]; by apply Hstay].
  destruct (abandon_payout _ _ _) as [h'|e|] eqn:Ea; [|done..]. intros [= <-].
  destruct (abandoned_cases _ _ _ _ (bo_live _ Hb) (bo_live_attempts _ Hb) Ea)
    as [(E1 & E2 & E3)|(t & t' & K & Ht & Hh & Hwf & Hst & El & Ed & HK & Al & Ad)].
  - apply (keep_sweep w); [done..|apply Hok|]. unfold sweep_ok. cbn. by rewrite Es.
  - apply (keep_close w _ K (pa_task_id a) t t'); try done; [intros k Hk; split; [by apply HK|by right]|apply Hok|].
    intros n c n' leg rest Hn Hj Ho Hk. destruct (fo_callers _ Hok n c Hn) as [_ Hp]. rewrite Hj in Hp. specialize (Hp Ho).
    apply HK in Hk as [Eid [y Hy]]. cbn in Eid. subst n'.
    assert (Hgu : given_up (with_hub w h') (pa_task_id a)) by (exists t'; cbn; by rewrite Ed, lookup_insert_eq).
    destruct (c_pc c); cbn in Hp |- *; try done; try (by right); exfalso; unfold unsent in Hp; naive_solver congruence.
Qed.

(** ** Sending again *)
Lemma resent_tx w tx l : Forall (resent w tx) l -> Forall (fun a => pa_transaction a = Some tx) l.
Proof. intros Hl. eapply Forall_impl; [exact Hl|]. by intros a [? _]. Qed.

(** Legs that already name the transaction name it still. *)
Lemma put_resent w tx l (tb tb' : TaskBoard) k :
  Forall (resent w tx) l -> Op k.1 -> (forall y, sent_tx (lv w) k = Some y -> sent_tx tb k = Some y) ->
  tb_attempts tb' = put_attempts l (tb_attempts tb) -> sent_tx tb' k = sent_tx tb k.
Proof.
  intros Hl Ho Hsub E. unfold sent_tx at 1. rewrite E, (put_attempts_tx l tx) by (by eapply resent_tx). case_decide as C; [|done].
  apply list_elem_of_fmap in C as (a & -> & Ha). rewrite Forall_forall in Hl. destruct (Hl a Ha) as [_ Hs]. symmetry. by apply Hsub, Hs.
Qed.

(** A step of the sweep that changes nothing recorded. *)
Lemma keep_resend w w' :
  floor_ok w -> moves [] w w' -> boards_ok w' -> callers w' = callers w -> guards_ok w' -> sweep_ok w' -> floor_ok w'.
Proof.
  intros Hok Hm Hb Ec Hg Hs. apply (keep_floor [] w); [done..|intros k _ Hk; by apply not_elem_of_nil in Hk|].
  intros n c. rewrite Ec. intros Hn. right. split; [done|]. intros id leg rest _ _ Hk. by apply not_elem_of_nil in Hk.
Qed.

Lemma keep_save_leg w tx next todo a :
  floor_ok w -> sweeper w = SaveLegs tx next (a :: todo) ->
  floor_ok (with_sweeper (with_hub w (with_boards (floor_hub w) (lv w) (restore_payout_attempt (dk w) a))) (SaveLegs tx next todo)).
Proof.
  intros Hok Es. pose proof (fo_sweep _ Hok) as Hs. unfold sweep_ok in Hs. rewrite Es in Hs. destruct Hs as [Hn [saved Hsv]].
  assert (Ha : Forall (resent w tx) [a]) by (apply Forall_singleton; rewrite Forall_forall in Hn; apply Hn; rewrite Hsv; set_solver).
  set (w' := with_sweeper _ _). pose proof (fo_boards _ Hok) as Hb.
  assert (Hm : moves [] w w').
  { split; try done; [|by left|].
    - intros id t Ht. exists t. split; [done|apply history_refl].
    - intros k Ho _. eapply (put_resent w tx [a]); [done|done|apply (fo_legs _ Hok k Ho)|done]. }
  apply (keep_resend w w'); try done.
  - apply (moves_boards [] w w' Hb Hm); try apply Hb. eapply (put_attempts_ok [a]); [done| |apply Hb].
    apply Forall_singleton. apply Forall_inv in Ha as [-> _]. eauto.
  - apply (guards_sweep_stay w); [apply Hok|by rewrite Es].
  - split; [exact Hn|]. exists (saved ++ [a]). by rewrite <- app_assoc.
Qed.

Lemma keep_record_legs w tx next :
  floor_ok w -> sweeper w = RecordLegs tx next ->
  floor_ok (with_sweeper (with_hub w (with_boards (floor_hub w) (foldl record_payout_attempt (lv w) next) (dk w))) (Resend tx next)).
Proof.
  intros Hok Es. pose proof (fo_sweep _ Hok) as Hn. unfold sweep_ok in Hn. rewrite Es in Hn.
  set (w' := with_sweeper _ _). pose proof (fo_boards _ Hok) as Hb.
  destruct (quiet_attempts next (lv w) (bo_live _ Hb)) as (Hq & Ea & _).
  assert (Hlv : forall k, Op k.1 -> sent_tx (lv w') k = sent_tx (lv w) k) by (intros k Ho; by eapply (put_resent w tx next)).
  assert (Hm : moves [] w w') by (split; try done; [apply Hq|by left|auto]).
  apply (keep_resend w w'); try done.
  - apply (moves_boards [] w w' Hb Hm); [apply Hq|by apply recorded_operator| |apply Hb].
    eapply put_attempts_ok; [exact Ea| |apply Hb]. eapply Forall_impl; [exact Hn|]. intros a [-> _]. eauto.
  - apply (guards_sweep_stay w); [apply Hok|by rewrite Es].
  - unfold sweep_ok. cbn. eapply Forall_impl; [exact Hn|]. intros a [H1 H2]. split; [done|]. intros Ho. rewrite Hlv by done. by apply H2.
Qed.

Lemma keep_send_again w tx next :
  floor_ok w -> sweeper w = Resend tx next -> floor_ok (with_sweeper (log_send w tx next) SweepIdle).
Proof.
  intros Hok Es. pose proof (fo_sweep _ Hok) as Hn. unfold sweep_ok in Hn. rewrite Es, Forall_forall in Hn.
  set (w' := with_sweeper _ _). pose proof (fo_boards _ Hok) as Hb. set (K := (fun a => leg_key a) <$> next).
  assert (Hlog : forall k t, (k, t) ∈ sent_log w' <-> (k, t) ∈ sent_log w \/ (t = tx /\ k ∈ K)).
  { intros k t. unfold w', K. cbn. rewrite elem_of_app, !list_elem_of_fmap. split; (intros [?|Hx]; [by left|right]).
    - destruct Hx as (a & [= -> ->] & Ha). eauto.
    - destruct Hx as (-> & a & -> & Ha). eauto. }
  assert (HK : forall k, Op k.1 -> k ∈ K -> sent_tx (lv w) k = Some (Some tx)).
  { intros k Ho (a & -> & Ha)%list_elem_of_fmap. by apply Hn. }
  assert (Hm : moves K w w').
  { split; try done; [|by left|].
    - intros id t Ht. exists t. split; [done|apply history_refl].
    - intros k t Ho Hk. rewrite Hlog. split; [intros [?|[_ ?]]; done|by left]. }
  apply (keep_floor K w); try done.
  - apply (guards_sweep_stay w); [apply Hok|by rewrite Es].
  - by apply (moves_boards K w w' Hb Hm); apply Hb.
  - intros k Ho Hk. destruct (fo_legs _ Hok k Ho) as [L1 L2 L3 L4]. pose proof (HK k Ho Hk) as El. pose proof (L1 _ El) as Ed.
    assert (Hold : forall t, (k, t) ∈ sent_log w' -> t = tx \/ given_up w' k.1) by (intros t [Ht|[-> _]]%Hlog; [by eapply L2|by left]).
    split; [exact L1| | |].
    + intros t t'. unfold w'. cbn. rewrite Ed. intros [= <-] Ht. by apply Hold.
    + intros t [->|(td & ? & ?)]%Hold; [by left|right; eauto].
    + intros t t' [->|?]%Hold [->|?]%Hold; auto.
  - intros n c Hc. right. split; [done|]. intros id leg rest Hj Ho Hk. destruct (fo_callers _ Hok n c Hc) as [_ Hp].
    rewrite Hj in Hp. specialize (Hp Ho). pose proof (HK (id, leg.1) Ho Hk) as El.
    destruct (c_pc c); cbn in Hp |- *; try done; exfalso; unfold unsent in Hp; naive_solver congruence.
Qed.

Lemma sweeper_step_ok ch w w' : floor_ok w -> sweeper_step ch w = Some w' -> floor_ok w'.
Proof.
  intros Hok. pose proof (fo_boards _ Hok) as Hb. pose proof (fo_guards _ Hok) as Hg.
  assert (Hidle : sweeper_holds (sweeper w) = [] -> floor_ok (with_sweeper w SweepIdle)).
  { intros E. apply (keep_sweep w); [done..| |done]. by apply guards_sweep_stay. }
  unfold sweeper_step. destruct (sweeper w) as [|a|a|a|a|a tx|tx next [|a todo]|tx next|tx next] eqn:Es; [done|..].
  - case_decide as C; intros [= <-]; [by apply Hidle|]. apply (keep_sweep w); [done..| |done].
    apply (guards_sweep w); [done..| |]; cbn; rewrite Es; set_solver.
  - case_bool_decide; intros [= <-]; (apply (keep_sweep w); [done..| |done]); [by apply guards_sweep_stay; [|rewrite Es]|].
    by apply (guards_sweep_release w); [..|rewrite Es].
  - destruct (record_confirmed_payout _ _ _ _ _ _) as [[h' b]|e|] eqn:Er; [|done..]. intros [= <-].
    set (w' := with_sweeper _ _). assert (Hg' : guards_ok w') by (by apply (guards_sweep_release w); [..|rewrite Es]).
    destruct (confirmed_cases _ _ _ _ _ _ _ _ (bo_live _ Hb) (bo_live_attempts _ Hb) Er)
      as [(E1 & E2 & E3)|(t & t' & Ht & Hh & Hwf & Hp & El & Ed & Al & Ad)]; [by apply (keep_sweep w)|].
    assert (Hdel : forall (m : gmap (Uuid * PublicKey) PayoutAttempt) k, delete (pa_task_id a, pa_recipient a) m !! k =
              if decide (k ∈ [(pa_task_id a, pa_recipient a)]) then None else m !! k).
    { intros m [n r]. rewrite delete_leg. apply decide_ext. rewrite list_elem_of_singleton. cbn. split; [by intros [-> ->]|by intros [= -> ->]]. }
    apply (keep_close w w' [(pa_task_id a, pa_recipient a)] (pa_task_id a) t t'); try done.
    + intros k. cbn. by rewrite Al, Hdel.
    + intros k. cbn. by rewrite Ad, Hdel.
    + intros k ->%list_elem_of_singleton. split; [done|by left].
    + intros n c n' leg rest Hn Hj Ho Hk. apply list_elem_of_singleton in Hk as [= -> Er'].
      destruct (acquire_or_holds c) as [->|Hh']; [done|exfalso]. rewrite Hj in Hh'. cbn in Hh'. rewrite Er' in Hh'. destruct Hg as [_ Hu].
      assert (ACaller n = TheSweep) as [=]. apply (Hu (PayoutInFlight (pa_task_id a, pa_recipient a))); cbn.
      * by rewrite Hn.
      * rewrite Es. apply list_elem_of_here.
  - intros [= <-]. destruct (tb_tasks _ !! _); [|by apply Hidle]. case_bool_decide; [|by apply Hidle].
    destruct (pa_transaction a); [|by apply Hidle]. apply (keep_sweep w); [done..| |done]. by apply guards_sweep_stay; [|rewrite Es].
  - destruct (bump_all _ _) as [next|e|] eqn:Eb; [|done..]. intros [= <-]. apply (keep_sweep w); [done..| |].
    + by apply guards_sweep_stay; [|rewrite Es].
    + split; [|by exists []]. apply Forall_forall. intros b Hbn.
      destruct (legs_of_sent (lv w) (pa_task_id a) tx (ch_now ch) next (length next) b) as [H1 H2];
        [apply Hb|exact Eb|by rewrite firstn_all|]. split; [done|]. intros _. exact H1.
  - intros [= <-]. pose proof (fo_sweep _ Hok) as Hs. unfold sweep_ok in Hs. rewrite Es in Hs.
    apply (keep_sweep w); [done..| |apply Hs]. by apply guards_sweep_stay; [|rewrite Es].
  - intros [= <-]. unfold save_payout_attempt. destruct (ch_commits ch); [by apply keep_save_leg|by apply Hidle].
  - intros [= <-]. by apply keep_record_legs.
  - intros [= <-]. by apply keep_send_again.
Qed.

(** ** Everything else *)
Lemma others_ok w h' : floor_ok w -> others Op (floor_hub w) h' -> floor_ok (with_hub w h').
Proof.
  intros Hok [Oq Ol Od Ow Oo]. set (w' := with_hub w h'). pose proof (fo_boards _ Hok) as Hb.
  assert (Hsent : forall k, sent_tx (lv w') k = sent_tx (lv w) k) by (intros k; unfold sent_tx; cbn; by rewrite Ol).
  (* a task written to disk is the live one of before: [moves] in two steps *)
  set (w1 := with_hub w (with_boards h' (lv w) (disk h'))).
  assert (Hm1 : moves [] w w1).
  { split; try done; [|intros k _ _; unfold sent_tx; cbn; by rewrite Od]. intros id t Ht. exists t. split; [done|apply history_refl]. }
  assert (Hb1 : boards_ok w1).
  { apply (moves_boards [] w w1 Hb Hm1); try apply Hb. cbn. unfold attempts_ok. rewrite Od. apply Hb. }
  assert (Hstep : forall w w', floor_ok w -> boards_ok w' -> moves [] w w' -> (forall k, sent_tx (lv w') k = sent_tx (lv w) k) ->
            guards_ok w' -> sweeper w' = sweeper w -> callers w' = callers w -> floor_ok w').
  { clear. intros w w' Hok Hb Hm Hl Hg Es Ec. apply (keep_floor [] w); [done..| | |].
    - apply (sweep_frame w); [done| |apply Hok]. intros k y _. by rewrite Hl.
    - intros k _ Hk. by apply not_elem_of_nil in Hk.
    - intros n c. rewrite Ec. intros Hn. right. split; [done|]. intros id leg rest _ _ Hk. by apply not_elem_of_nil in Hk. }
  assert (Hok1 : floor_ok w1) by (apply (Hstep w w1); try done; apply Hok).
  assert (Hm2 : moves [] w1 w') by (split; try done; [apply Oq|by left]).
  apply (Hstep w1 w'); try done; [|apply Hok].
  apply (moves_boards [] w1 w' Hb1 Hm2); [apply Oq|exact Oo| |apply Hb1]. cbn. unfold attempts_ok. rewrite Ol. apply Hb.
Qed.

Lemma lock_ok w g e :
  floor_ok w -> guards_ok (mkFloor (floor_hub w) g (callers w) (sweeper w) e (sent_log w)) ->
  floor_ok (mkFloor (floor_hub w) g (callers w) (sweeper w) e (sent_log w)).
Proof. intros Hok Hg. apply (keep_sweep w); [done..|]. apply (sweep_frame w); [done|done|apply Hok]. Qed.

Lemma crash_ok w : floor_ok w -> floor_ok (crash w).
Proof.
  intros Hok. pose proof (fo_boards _ Hok) as Hb. split; try done.
  - split; [|intros g [n| |] b; cbn; rewrite ?lookup_empty; set_solver].
    intros g. split; [set_solver|]. intros [[n| |] Hg]; cbn in Hg; rewrite ?lookup_empty in Hg; set_solver.
  - split; cbn; try apply Hb.
    + intros id td Htd. exists td. split; [done|apply history_refl].
    + intros id t Ho Ht. destruct (bo_history _ Hb _ _ Ht) as (tl & Htl & Hh). rewrite <- (h_escrow _ _ Hh). by eapply bo_operator.
  - intros k Ho. destruct (fo_legs _ Hok k Ho) as [L1 L2 L3 L4]. split; [done|exact L2| |exact L4].
    intros tx Htx. destruct (L3 tx Htx) as [El|Hc]; [left; by apply L1|by right].
Qed.

Lemma floor_step_ok w w' : floor_ok w -> floor_step w w' -> floor_ok w'.
Proof.
  intros Hok Hs. pose proof (fo_guards _ Hok) as Hg. destruct Hs as [i id w' Hc|ch i c w' Hi Hc|i c Hi|ch a ru su w' Hr|ch w' Hw|h' Ho|Hn|He|].
  - by eapply call_ok.
  - by eapply caller_step_ok.
  - by apply keep_cancel.
  - by eapply resolve_ok.
  - by eapply sweeper_step_ok.
  - by apply others_ok.
  - apply lock_ok; [done|]. apply (guards_change Elsewhere w); [done|by intros [n| |] Hne| |]; cbn.
    + intros g ->%list_elem_of_singleton. by right.
    + intros g. destruct (elsewhere w) eqn:Ee; [|set_solver]. exfalso. apply Hn, Hg. exists Elsewhere. cbn. rewrite Ee. apply list_elem_of_here.
  - apply lock_ok; [done|]. apply (guards_change Elsewhere w); [done|by intros [n| |] Hne| |]; cbn; rewrite ?He; set_solver.
  - by apply crash_ok.
Qed.
Lemma floor_steps_ok w w' : rtc floor_step w w' -> floor_ok w -> floor_ok w'.
Proof. induction 1; eauto using floor_step_ok. Qed.
End floor.
