(* ===== verification/InFlightTheorems.v ===== *)
(** * InFlightTheorems: one transaction per payout, whatever runs beside it

    Over every interleaving of callers, the sweep, cancellations, other operations and
    crashes: a guard has one owner and is given back when its owner is gone, and all that
    is ever sent for a leg of an operator-funded task is one transaction, until the payout
    is given up. The check under the guard does less for an escrow: [ToyInFlight]. *)

From S2P Require Import Prelude Types Crypto Transaction Spend BoardTypes Exchange Tasks Board Payouts BoardInv BoardStep PayoutStep BoardTheorems Payments Wallets Settlement SettleInv SettleStep InFlight InFlightInv InFlightStep.

Section floor.
Context `{Primitives, HubKeys} {Op : Uuid -> Prop}.
Implicit Types (w : Floor) (k : Uuid * PublicKey) (tx : Transaction).
#[local] Abbreviation floor_ok := (@floor_ok Op).
#[local] Abbreviation boards_ok := (@boards_ok Op).
#[local] Abbreviation moves := (@moves Op).
#[local] Abbreviation sweep_ok := (@sweep_ok Op).
#[local] Abbreviation caller_ok := (@caller_ok Op).
#[local] Abbreviation resent := (@resent Op).
#[local] Abbreviation floor_step := (@floor_step _ _ Op).

(** A hub with nothing running. *)
Record at_rest w : Prop := {
  ar_legs : legs_ok (floor_hub w);
  ar_operator : forall id t, Op id -> tb_tasks (lv w) !! id = Some t -> escrow_id t = None;
  ar_idle : held w = ∅ /\ callers w = ∅ /\ sweeper w = SweepIdle /\ elsewhere w = false /\ sent_log w = []
}.
Lemma at_rest_ok w : at_rest w -> floor_ok w.
Proof.
  intros [Hl Ho (Eh & Ec & Es & Ee & El)]. split.
  - split; [|intros g [n| |] b; cbn; rewrite ?Ec, ?Es, ?Ee, ?lookup_empty; set_solver].
    intros g. rewrite Eh. split; [set_solver|]. intros [[n| |] Hg]; cbn in Hg; rewrite ?Ec, ?Es, ?Ee, ?lookup_empty in Hg; set_solver.
  - split; try done; apply Hl.
  - intros k _. split; rewrite ?El; try set_solver. intros y. by rewrite (so_agree _ _ Hl).
  - intros n c. rewrite Ec. by rewrite lookup_empty.
  - unfold sweep_ok. by rewrite Es.
Qed.

(** C8: However the callers that settle a task, the sweep that resolves its payouts,
    callers that are dropped anywhere, other operations and crashes interleave at
    every access to a guard, the board, the store or the node: for a winner of an
    operator-funded task every transaction handed to the node is the same one, unless
    the payout was given up; and what was sent is on record live and on disk until the
    winner is marked paid or the payout given up. *)
Theorem callers_send_one_transaction w0 w k :
  at_rest w0 -> rtc floor_step w0 w -> Op k.1 ->
  (forall tx tx', (k, tx) ∈ sent_log w -> (k, tx') ∈ sent_log w -> tx = tx' \/ given_up w k.1) /\
  (forall tx, (k, tx) ∈ sent_log w ->
     (sent_tx (lv w) k = Some (Some tx) /\ sent_tx (dk w) k = Some (Some tx)) \/
     exists td, tb_tasks (dk w) !! k.1 = Some td /\ (is_recipient_paid td k.2 = true \/ status td = PayoutFailed)).
Proof.
  intros Hr Hs Ho. destruct (fo_legs _ (floor_steps_ok _ _ Hs (at_rest_ok _ Hr)) k Ho) as [L1 L2 L3 L4].
  split; [exact L4|]. intros tx [El|Hc]%L3; [left|by right]. split; [done|by apply L1].
Qed.

(** Under every interleaving a guard or the lock has one owner, so no two callers work on
    one leg, one escrow or the operator's wallet; and when nothing runs, nothing is
    held: a caller dropped anywhere gives everything back. *)
Theorem guards_have_one_owner w0 w :
  at_rest w0 -> rtc floor_step w0 w ->
  (forall n m c c' g, callers w !! n = Some c -> callers w !! m = Some c' -> g ∈ guards_held c -> g ∈ guards_held c' -> n = m) /\
  (callers w = ∅ -> sweeper w = SweepIdle -> elsewhere w = false -> held w = ∅).
Proof.
  intros Hr Hs. destruct (fo_guards _ (floor_steps_ok _ _ Hs (at_rest_ok _ Hr))) as [Hiff Hu]. split.
  - intros n m c c' g Hn Hm Hg Hg'. assert (ACaller n = ACaller m) as [= ->]; [|done].
    apply (Hu g); cbn; [by rewrite Hn|by rewrite Hm].
  - intros Ec Es Ee. apply elem_of_equiv_empty_L. intros g [[n| |] Hg]%Hiff; cbn in Hg; rewrite ?Ec, ?Es, ?Ee, ?lookup_empty in Hg; set_solver.
Qed.

(** ** Other operations *)
Lemma board_step_others w l' :
  boards_ok w -> board_step (lv w) l' -> tb_attempts l' = tb_attempts (lv w) ->
  (forall id t t' r, tb_tasks (lv w) !! id = Some t -> tb_tasks l' !! id = Some t' ->
     is_recipient_paid t' r = true -> is_recipient_paid t r = true) ->
  (forall id t, Op id -> tb_tasks (lv w) !! id = None -> tb_tasks l' !! id = Some t -> escrow_id t = None) ->
  others Op (floor_hub w) (with_boards (floor_hub w) l' (dk w)).
Proof.
  intros Hb Hs Ha Hp Ho. destruct (board_step_keeps _ _ Hs (bo_live _ Hb)) as [Hwf Hev]. split; try done; [|by left|].
  - split; [done| |done]. intros id t Ht. destruct (Hev id t Ht) as (t' & ? & ?). eauto using evolves_to_history.
  - cbn. intros id t Hop Ht. destruct (tb_tasks (lv w) !! id) as [u|] eqn:Eu; [|by eapply Ho].
    destruct (Hev id u Eu) as (t' & Ht' & Hh). replace t' with t in * by congruence.
    rewrite (ev_escrow _ _ Hh). by eapply (bo_operator _ Hb).
Qed.

(** ** A caller left alone *)
Section alone.
Context (w : Floor) (i : nat) (id : Uuid) (leg : PublicKey * N).
Context (Hi : callers w !! i = Some (mkCaller (OperatorLegs id leg []) Acquire)).
Context (Hguard : PayoutInFlight (id, leg.1) ∉ held w) (Hlock : PayoutLock ∉ held w).
Abbreviation job := (OperatorLegs id leg []).

(** [v] is [w] with the caller at [pc] and the hub [h]. *)
Definition at_pc (pc : Pc) (h : Hub) (v : Floor) : Prop :=
  callers v = <[i := mkCaller job pc]> (callers w) /\ held v = list_to_set (guards_held (mkCaller job pc)) ∪ held w /\ floor_hub v = h.
Definition ends_with (h : Hub) (v : Floor) : Prop :=
  exists w', rtc floor_step v w' /\ floor_hub w' = h /\ callers w' = delete i (callers w) /\ held w' = held w.

Lemma at_pc_step ch pc h v v' h' :
  at_pc pc h v -> caller_step ch v i (mkCaller job pc) = Some v' -> ends_with h' v' -> ends_with h' v.
Proof.
  intros (Ec & _) Hs (w' & Hr & ?). exists w'. split; [|done]. eapply rtc_l; [|exact Hr].
  eapply fs_caller; [|exact Hs]. by rewrite Ec, lookup_insert_eq.
Qed.
Lemma at_pc_goto pc pc' h h' v :
  at_pc pc h v -> guards_held (mkCaller job pc') = guards_held (mkCaller job pc) -> at_pc pc' h' (goto (with_hub v h') i job pc').
Proof. intros (Ec & Eh & _) E. unfold at_pc. cbn -[guards_held]. by rewrite Ec, insert_insert_eq, E. Qed.
Lemma at_pc_stay pc pc' h v :
  at_pc pc h v -> guards_held (mkCaller job pc') = guards_held (mkCaller job pc) -> at_pc pc' h (goto v i job pc').
Proof. intros (Ec & Eh & Ehub) E. unfold at_pc. cbn -[guards_held]. by rewrite Ec, insert_insert_eq, E. Qed.
Lemma at_pc_finish pc h v : at_pc pc h v -> ends_with h (finish v i (mkCaller job pc)).
Proof.
  intros (Ec & Eh & Ehub). eexists. split; [apply rtc_refl|]. cbn -[guards_held]. rewrite Ec, Eh, Ehub. split; [done|].
  rewrite delete_insert_eq. split; [done|]. apply set_eq. intros g.
  assert (Hd : g ∈ guards_held (mkCaller job pc) -> g ∉ held w).
  { destruct pc; cbn; rewrite ?elem_of_cons, ?list_elem_of_singleton; set_solver. }
  set_solver.
Qed.

Context (env : SubmitEnv).
Definition choice (commits : bool) : Choice := mkChoice (se_utxos env) (se_fresh env) (se_now env) commits.

Lemma alone_send tx l h v : at_pc (Submit tx l) h v -> ends_with (submitted h tx) v.
Proof.
  intros Hv. eapply (at_pc_step (choice true)); [exact Hv|reflexivity|]. apply (at_pc_finish (Submit tx l)).
  destruct Hv as (Ec & Eh & <-). by split.
Qed.

(** The writes and the send of [carry_out]. *)
Lemma alone_writes tx a h v h' o : at_pc (Save tx [a] [a]) h v -> carry_out env h id tx [a] = (h', o) -> ends_with h' v.
Proof.
  intros Hv. pose proof Hv as (_ & _ & Ehub). unfold carry_out, save_attempts.
  destruct (save_payout_attempt (se_commits env 0) (disk h) a) as [d|] eqn:Es; cbn [negb]; intros [= <- _].
  2:{ eapply (at_pc_step (choice (se_commits env 0))); [exact Hv|cbn -[save_payout_attempt finish]; rewrite Ehub, Es; reflexivity|].
      destruct h. by apply (at_pc_finish (Save tx [a] [a])). }
  eapply (at_pc_step (choice (se_commits env 0))); [exact Hv|cbn -[save_payout_attempt]; rewrite Ehub, Es; reflexivity|].
  pose proof (at_pc_goto _ (Save tx [a] []) _ (with_boards h (live h) d) _ Hv eq_refl) as H1.
  eapply (at_pc_step (choice true)); [exact H1|reflexivity|].
  pose proof (at_pc_stay _ (Record_ tx [a]) _ _ H1 eq_refl) as H2.
  eapply (at_pc_step (choice true)); [exact H2|reflexivity|].
  pose proof (at_pc_goto _ (SaveTask tx [a]) _ (with_boards h (foldl record_payout_attempt (live h) [a]) d) _ H2 eq_refl) as H3.
  eapply (at_pc_step (choice (se_task_commits env))); [exact H3|reflexivity|].
  eapply alone_send. exact (at_pc_goto _ (Submit tx [a]) _ _ _ H3 eq_refl).
Qed.

Lemma alone_submit v h' b :
  at_pc (Fetch [leg]) (floor_hub w) v -> reported (submit_bounty_payout env (floor_hub w) id leg.1 leg.2) = Ok (h', b) -> ends_with h' v.
Proof.
  set (h := floor_hub w). intros Hv Hr. unfold submit_bounty_payout, submit_task_payout, plan_task_payout in Hr.
  destruct (se_utxos env) as [us|] eqn:Eu.
  2:{ cbn in Hr. injection Hr as <- _. eapply (at_pc_step (choice true)); [exact Hv|cbn -[finish]; rewrite Eu; reflexivity|].
      by apply (at_pc_finish (Fetch [leg])). }
  eapply (at_pc_step (choice true)); [exact Hv|cbn -[finish]; rewrite Eu; reflexivity|].
  pose proof (at_pc_stay _ (Build [leg] us) _ _ Hv eq_refl) as H1. rewrite <- surjective_pairing in Hr.
  set (built := build_payment_from (live h) (Some us) (se_fresh env) operator_private_key operator_public_key [leg] operator_public_key
                  ((fun r : PublicKey * N => (id, r.1)) <$> [leg])) in Hr.
  assert (Hstep : forall v', (match built with
                     | Ok tx => goto (goto v i job (Build [leg] us)) i job (Count tx (se_now env) [(0%nat, leg)] [])
                     | _ => finish (goto v i job (Build [leg] us)) i (mkCaller job (Build [leg] us)) end) = v' -> ends_with h' v' ->
                   ends_with h' (goto v i job (Build [leg] us))).
  { intros v' E He. eapply (at_pc_step (choice true)); [exact H1| |exact He]. cbn -[finish build_payment_from]. destruct Hv as (_ & _ & ->).
    rewrite <- E. reflexivity. }
  eapply Hstep; [reflexivity|]. clear Hstep. destruct built as [tx|e|]; [|injection Hr as <- _; by apply (at_pc_finish (Build [leg] us))|discriminate].
  cbn [mbind outcome_bind] in Hr. pose proof (at_pc_stay _ (Count tx (se_now env) [(0%nat, leg)] []) _ _ H1 eq_refl) as H2.
  cbn [imap plan_attempts] in Hr. eapply (at_pc_step (choice true)); [exact H2|cbn -[finish plan_attempt]; destruct Hv as (_ & _ & ->); reflexivity|].
  destruct (plan_attempt _ _ _ _ _ _) as [a|e|]; cbn [mbind outcome_bind] in Hr;
    [|injection Hr as <- _; by apply (at_pc_finish (Count tx (se_now env) [(0%nat, leg)] []))|discriminate].
  pose proof (at_pc_stay _ (Count tx (se_now env) [] [a]) _ _ H2 eq_refl) as H3.
  eapply (at_pc_step (choice true)); [exact H3|reflexivity|].
  pose proof (at_pc_stay _ (Save tx [a] [a]) _ _ H3 eq_refl) as H4.
  destruct (carry_out env h id tx [a]) as [h1 o] eqn:Ec. apply reported_Ok in Hr as ->. by eapply alone_writes.
Qed.
End alone.

(** A caller that nothing interrupts does to the hub exactly what settle_one_payout does
    in one step. *)
Theorem uninterrupted_caller_settles w i id leg env h' b :
  callers w !! i = Some (mkCaller (OperatorLegs id leg []) Acquire) ->
  PayoutInFlight (id, leg.1) ∉ held w -> PayoutLock ∉ held w ->
  settle_one_payout env (floor_hub w) id leg.1 leg.2 = Ok (h', b) ->
  exists w', rtc floor_step w w' /\ floor_hub w' = h' /\ callers w' = delete i (callers w) /\ held w' = held w.
Proof.
  intros Hi Hg Hl Hs. set (j := OperatorLegs id leg []).
  assert (Hat : at_pc w i id leg Acquire (floor_hub w) w).
  { split; [|split; [cbn; by rewrite union_empty_l_L|done]]. symmetry. by apply insert_id. }
  eapply (at_pc_step w i id leg (choice env true)); [exact Hat|cbn; rewrite decide_False by done; reflexivity|].
  assert (H1 : at_pc w i id leg Recheck (floor_hub w) (goto (with_held w ({[PayoutInFlight (id, leg.1)]} ∪ held w)) i j Recheck)).
  { split; [done|]. split; [|done]. cbn. set_solver. }
  eapply (at_pc_step w i id leg (choice env true)); [exact H1|reflexivity|]. unfold settle_one_payout in Hs. cbn [floor_hub goto with_callers with_held].
  unfold recheck. cbn [job_task c_job]. destruct (tb_tasks (lv w) !! id) as [t|]; cbn [mbind option_bind];
    [|injection Hs as <- _; by apply (at_pc_finish w i id leg Hi Hg Hl Recheck)].
  destruct (is_recipient_paid t leg.1); [injection Hs as <- _; by apply (at_pc_finish w i id leg Hi Hg Hl Recheck)|].
  destruct (payout_attempt (lv w) id leg.1); [injection Hs as <- _; by apply (at_pc_finish w i id leg Hi Hg Hl Recheck)|].
  pose proof (at_pc_stay w i id leg _ Lock _ _ H1 eq_refl) as H2.
  eapply (at_pc_step w i id leg (choice env true)); [exact H2|cbn; rewrite decide_False by set_solver; reflexivity|].
  eapply (alone_submit w i id leg Hi Hg Hl env); [|exact Hs]. destruct H2 as (Ec & _ & _).
  split; [cbn; by rewrite !insert_insert_eq|]. split; [|done]. cbn. set_solver.
Qed.
End floor.

(** * ToyInFlight: concrete interleavings

    Two callers settle the operator's task of [ToySettle] and one leg is sent once; two
    callers settle an escrow's task one after the other, both having looked before the
    first recorded anything, and its winners get two transactions. *)

From S2P Require Import SettleTheorems ToyBoard ToySettle.

Module ToyInFlight.
Import Crypto.Toy.

(** [i] calls, or takes [n] steps with one choice. *)
Definition calls (i : nat) (id : Uuid) (w : option Floor) : option Floor := w ← w; start_settling w i id.
Fixpoint steps (ch : Choice) (i n : nat) (w : option Floor) : option Floor :=
  match n with
  | O => w
  | S n => w ← steps ch i n w; c ← callers w !! i; caller_step ch w i c
  end.

Definition floor_of (h : Hub) : Floor := mkFloor h ∅ ∅ SweepIdle false [].
Definition choose (id0 : N) (us : list Utxo) : Choice := mkChoice (Some us) (fun i => id0 + N.of_nat i) 20 true.


Lemma calls_run Op i id w w' : calls i id w = Some w' -> exists v, w = Some v /\ rtc (@floor_step _ _ Op) v w'.
Proof. destruct w as [v|]; [|done]. intros Hc. exists v. split; [done|]. apply rtc_once. by eapply fs_call. Qed.
Lemma steps_run Op ch i n : forall w w', steps ch i n w = Some w' -> exists v, w = Some v /\ rtc (@floor_step _ _ Op) v w'.
Proof.
  induction n as [|n IH]; intros w w'; cbn [steps]; [intros ->; by exists w'|]. intros Hs.
  destruct (steps ch i n w) as [u|] eqn:E; [|done]. cbn in Hs. destruct (callers u !! i) as [c|] eqn:Ec; [|done]. cbn in Hs.
  destruct (IH w u E) as (v & -> & Hr). exists v. split; [done|]. eapply rtc_r; [exact Hr|]. by eapply fs_caller.
Qed.

(** ** Two callers and the operator's task *)
Definition task_eight (id : Uuid) : Prop := id = 8.
Definition both_called : option Floor := calls 2 8 (calls 1 8 (Some (floor_of desk0))).
Definition desk_run : option Floor := steps (choose 900 []) 2 2 (steps (choose 200 [(false, operator_coin)]) 1 12 both_called).
Definition desk_floor : Floor := Eval vm_compute in default (floor_of desk0) desk_run.

Lemma desk_at_rest : @at_rest task_eight (floor_of desk0).
Proof.
  split; [exact desk0_ok| |by split_and!]. intros id t _ Ht.
  assert (Hall : map_Forall (fun _ t => escrow_id t = None) (tb_tasks cons6))
    by (apply (bool_decide_unpack _); vm_compute; exact I).
  exact (Hall id t Ht).
Qed.
Lemma desk_reached : rtc (@floor_step _ _ task_eight) (floor_of desk0) desk_floor.
Proof.
  assert (E : desk_run = Some desk_floor) by (vm_compute; reflexivity).
  destruct (steps_run task_eight _ _ _ _ _ E) as (v1 & E1 & R1). destruct (steps_run task_eight _ _ _ _ _ E1) as (v2 & E2 & R2).
  destruct (calls_run task_eight _ _ _ _ E2) as (v3 & E3 & R3). destruct (calls_run task_eight _ _ _ _ E3) as (v4 & [= <-] & R4).
  by do 3 (etransitivity; [eassumption|]).
Qed.

Lemma callers_send_one_transaction_witness :
  exists tx, ((8, ann), tx) ∈ sent_log desk_floor /\
    (sent_tx (live (floor_hub desk_floor)) (8, ann) = Some (Some tx) \/
     exists td, tb_tasks (disk (floor_hub desk_floor)) !! (8 : Uuid) = Some td).
Proof.
  destruct (callers_send_one_transaction (floor_of desk0) desk_floor (8, ann) desk_at_rest desk_reached eq_refl) as [_ H].
  exists ann_tx. assert (Hin : ((8, ann), ann_tx) ∈ sent_log desk_floor) by (apply list_elem_of_here).
  split; [exact Hin|]. destruct (H ann_tx Hin) as [[H1 _]|(td & Htd & _)]; [left; exact H1|right; exists td; exact Htd].
Defined.

Lemma guards_have_one_owner_witness :
  callers desk_floor = ∅ -> sweeper desk_floor = SweepIdle -> elsewhere desk_floor = false -> held desk_floor = ∅.
Proof. apply (guards_have_one_owner (floor_of desk0) desk_floor desk_at_rest desk_reached). Defined.

Definition single : Floor := mkFloor desk0 ∅ {[1%nat := mkCaller (OperatorLegs 8 (ann, 50) []) Acquire]} SweepIdle false [].
Lemma uninterrupted_caller_settles_witness : exists w', rtc (@floor_step _ _ task_eight) single w' /\ floor_hub w' = desk1.
Proof.
  destruct (uninterrupted_caller_settles (Op := task_eight) single 1 8 (ann, 50) (submit_env 20 200) desk1 true) as (w' & H1 & H2 & _).
  - reflexivity.
  - exact (not_elem_of_empty _).
  - exact (not_elem_of_empty _).
  - vm_compute. reflexivity.
  - exists w'. exact (conj H1 H2).
Defined.

(** ** Two callers and an escrow's task *)
Definition pot_run : option Floor :=
  steps (choose 700 [(true, coin_a); (false, coin_b)]) 2 13 (steps (choose 200 [(false, coin_a)]) 1 13
    (calls 2 31 (calls 1 31 (Some (floor_of (mkHub pot5 pot5 10 [])))))).
Definition pot_floor : Floor := Eval vm_compute in default (floor_of desk0) pot_run.

(** Two callers settle an escrow's task; both looked before the first recorded anything,
    and the second gets the guard once the first is done. Its check under the guard
    asks what is still owed and not what is on its way, so both winners get a second
    transaction, from another output of the escrow address. *)
Theorem escrow_callers_pay_twice :
  rtc (@floor_step _ _ (fun _ => False)) (floor_of (mkHub pot5 pot5 10 [])) pot_floor /\
  exists tx1 tx2, outbox (floor_hub pot_floor) = [tx1; tx2] /\ Forall (fun i => i ∉ spends tx2) (spends tx1) /\
    (fun o => (pubkey o, value o)) <$> take 2 (outputs tx1) = [(ann, 50); (ben, 50)] /\
    (fun o => (pubkey o, value o)) <$> take 2 (outputs tx2) = [(ann, 50); (ben, 50)].
Proof.
  split.
  - assert (E : pot_run = Some pot_floor) by (vm_compute; reflexivity).
    destruct (steps_run (fun _ => False) _ _ _ _ _ E) as (v1 & E1 & R1). destruct (steps_run (fun _ => False) _ _ _ _ _ E1) as (v2 & E2 & R2).
    destruct (calls_run (fun _ => False) _ _ _ _ E2) as (v3 & E3 & R3). destruct (calls_run (fun _ => False) _ _ _ _ E3) as (v4 & [= <-] & R4).
  by do 3 (etransitivity; [eassumption|]).
  - eexists _, _. split; [reflexivity|]. split; [|split; by_run]. apply (bool_decide_unpack _). vm_compute. exact I.
Qed.
End ToyInFlight.
