(* ===== verification/Desk.v ===== *)
(** * Desk: the task and exchange requests

    Models the state-changing task and exchange handlers of
    [hub/src/handlers.rs]: what they validate, what they do to the live board,
    what they write and in which order, and what they answer when a write
    fails. Definitions only.

    A handler starts after [SignedEnvelope::verify], with the key it gave, and
    gets the parsed payload. It is a computation over the [Hub] that may stop
    with an [ApiError] and leaves whatever it had changed: [desk]. The node's
    replies, the clock, fresh ids and whether each write commits are arguments;
    the message and the JSON of an answer are not modelled. *)

From S2P Require Import Prelude Types Crypto BoardTypes Exchange Tasks Board Payouts Payments Wallets Settlement Sweep.
From Stdlib Require Import Ascii.

(** ** Limits *)
Definition CLAIM_TTL_MINUTES : Z := 30.
Definition MAX_CONSENSUS_WINDOW_MINUTES : Z := 60 * 24 * 365.
Definition MAX_CONSENSUS_ASSIGNEES : N := 100.
Definition ESCROW_RESERVATION_TTL_MINUTES : Z := 60.
Definition MAX_CAPABILITY_TAGS : nat := 20.
Definition MAX_CAPABILITY_TAG_LENGTH : nat := 64.
Definition MIN_EXCHANGE_DEPOSIT : N := HUB_TRANSACTION_FEE + 1.
Definition MIN_EXCHANGE_WITHDRAWAL : N := HUB_TRANSACTION_FEE + 1.
Definition MAX_TEXT_FIELD_LENGTH : N := 20000.

(** ** Errors *)
Inductive ApiError : Type :=
| ApiNotFound | ApiConflict | ApiForbidden | ApiBadRequest | ApiUnavailable | ApiInternal.

(** [impl From<BoardError> for ApiError] *)
Definition api_error (e : BoardError) : ApiError :=
  match e with
  | NotFound | EscrowNotFound | OrderNotFound => ApiNotFound
  | NotClaimant | InsufficientReputation _ _ | PosterCannotClaimOwnTask | PosterCannotAnswerOwnTask
  | AssigneeCannotDisputeOwnSubmission | NotOrderOwner | NotPoster => ApiForbidden
  | InvalidOrder | OrderNotionalOverflow | ZeroWithdrawal => ApiBadRequest
  | _ => ApiConflict
  end.

(** ** Computations over the hub *)
Definition desk (A : Type) : Type := Hub -> Hub * outcome ApiError A.

Definition answer {A} (o : outcome ApiError A) : desk A := fun h => (h, o).
#[global] Instance desk_ret : MRet desk := fun A a => answer (Ok a).
#[global] Instance desk_bind : MBind desk := fun A B f m h =>
  match m h with
  | (h', Ok a) => f a h'
  | (h', Err e) => (h', Err e)
  | (h', Panic) => (h', Panic)
  end.

Definition of_board {A} (o : outcome BoardError A) : outcome ApiError A :=
  match o with Ok a => Ok a | Err e => Err (api_error e) | Panic => Panic end.

(** A look at the live board, an operation on it, and a write. *)
Definition look {A} (f : TaskBoard -> outcome ApiError A) : desk A := fun h => (h, f (live h)).
Definition operate {A} (f : TaskBoard -> outcome BoardError (TaskBoard * A)) : desk A := fun h =>
  match f (live h) with
  | Ok (l, a) => (with_live h l, Ok a)
  | Err e => (h, Err (api_error e))
  | Panic => (h, Panic)
  end.
Definition change (f : TaskBoard -> TaskBoard) : desk unit := fun h => (with_live h (f (live h)), Ok tt).
Definition write (commits : bool) (f : TaskBoard -> TaskBoard) : desk unit := fun h =>
  if commits then (with_boards h (live h) (f (disk h)), Ok tt) else (h, Err ApiInternal).

(** A settlement routine, which answers no error. *)
Definition call {A} (f : Hub -> outcome SettleError (Hub * A)) : desk A := fun h =>
  match f h with Ok (h', a) => (h', Ok a) | _ => (h, Panic) end.

Notation "'require' b 'otherwise' e ; k" := (answer (guard_ok b e) ≫= fun _ => k)
  (at level 100, b at level 99, e at level 99, k at level 200, right associativity) : itx_scope.

(** ** Validation *)

(** [str::chars().count()] of a UTF-8 string: the bytes that start a character. *)
Fixpoint chars_count (s : string) : N :=
  match s with
  | EmptyString => 0
  | String c s' => (if (128 <=? N_of_ascii c) && (N_of_ascii c <? 192) then 0 else 1) + chars_count s'
  end.
(** [tag.trim().to_lowercase()], over Unicode. *)
Class TagForm := { normalise : string -> string }.

Definition validate_text_field (value : string) : outcome ApiError unit :=
  guard_ok (chars_count value <=? MAX_TEXT_FIELD_LENGTH) ApiBadRequest.
Definition validate_positive_minutes (value : Z) : outcome ApiError unit :=
  ensure (0 <? value)%Z otherwise ApiBadRequest;
  guard_ok (value <=? MAX_CONSENSUS_WINDOW_MINUTES)%Z ApiBadRequest.
Definition validate_capabilities `{TagForm} (raw : gset string) : outcome ApiError (gset string) :=
  ensure (size raw <=? MAX_CAPABILITY_TAGS)%nat otherwise ApiBadRequest;
  let tags := base.filter (fun tag => tag <> ""%string) (normalise <$> elements raw) in
  ensure forallb (fun tag => chars_count tag <=? N.of_nat MAX_CAPABILITY_TAG_LENGTH) tags otherwise ApiBadRequest;
  Ok (list_to_set tags).
Definition escrow_amount_for (bounty : N) : outcome ApiError N :=
  ok_or (checked_add bounty HUB_TRANSACTION_FEE) ApiBadRequest.
Definition ensure_consensus_exposure_allows (consensus_max_exposure : N) (tb : TaskBoard) (bounty : N)
    : outcome ApiError unit :=
  guard_ok (negb (consensus_max_exposure <? saturating_add U64_MAX (consensus_exposure tb) bounty)) ApiUnavailable.
(** The node's answer [None] is a failed read. *)
Definition ensure_operator_can_fund (balance : option N) (tb : TaskBoard) (bounty : N) : outcome ApiError unit :=
  balance ← ok_or balance ApiInternal;
  allocated ← of_board (allocated_bounty tb);
  guard_ok (negb (balance - allocated <? bounty)) ApiBadRequest.
Definition validate_assignees (num_assignees : N) : outcome ApiError unit :=
  ensure negb (num_assignees <? 2) otherwise ApiBadRequest;
  guard_ok (negb (MAX_CONSENSUS_ASSIGNEES <? num_assignees)) ApiBadRequest.

(** [apply_min_reputation], [apply_capabilities]: on the board and on the local
    copy of the task. *)
Definition apply_min_reputation (tb : TaskBoard) (t : Task) (n : N) : outcome BoardError (TaskBoard * Task) :=
  if 0 <? n
  then match set_min_reputation tb (t_id t) n with Ok tb' => Ok (tb', set_min_rep t n) | _ => Panic end
  else Ok (tb, t).
Definition apply_capabilities (tb : TaskBoard) (t : Task) (c : gset string) : outcome BoardError (TaskBoard * Task) :=
  if bool_decide (c = ∅) then Ok (tb, t)
  else match set_capabilities tb (t_id t) c with Ok tb' => Ok (tb', set_caps t c) | _ => Panic end.

(** ** Writes of [HubStore], each one transaction *)
Definition save_pending_deposit (d : PendingDeposit) (disk : TaskBoard) : TaskBoard := put_deposit disk d.
Definition save_task_and_deposit (t : Task) (d : PendingDeposit) (disk : TaskBoard) : TaskBoard :=
  put_deposit (restore_task disk t) d.
Definition save_task_and_reputation (t : Task) (pk : PublicKey) (r : Reputation) (disk : TaskBoard) : TaskBoard :=
  restore_reputation (restore_task disk t) pk r.
Definition save_exchange_account_and_deposit (pk : PublicKey) (a : ExchangeAccount) (d : PendingDeposit)
    (disk : TaskBoard) : TaskBoard := put_deposit (restore_exchange_account disk pk a) d.

(** ** Payloads *)
Record CreateTaskPayload := mkCreateTask {
  ct_description : string;
  ct_bounty : N;
  ct_expected_output_hash : option Hash;
  ct_min_reputation : N;
  ct_capabilities : gset string
}.
Record CreateConsensusTaskPayload := mkCreateConsensus {
  cc_description : string;
  cc_bounty : N;
  cc_num_assignees : N;
  cc_join_window_minutes : Z;
  cc_submission_window_minutes : Z;
  cc_min_reputation : N;
  cc_capabilities : gset string
}.
Record EscrowDisputableTaskPayload := mkCreateDisputable {
  cd_description : string;
  cd_bounty : N;
  cd_dispute_window_minutes : Z;
  cd_min_reputation : N;
  cd_capabilities : gset string
}.

Section desk.
Context `{Primitives, HubKeys, TagForm}.

Definition require_operator (pk : PublicKey) : outcome ApiError unit :=
  guard_ok (bool_decide (pk = operator_public_key)) ApiForbidden.

(** ** Posting: [create_task], [create_consensus_task] *)
Definition handle_create_task (commits : bool) (balance : option N) (id : Uuid) (now : DateTime) (pk : PublicKey)
    (p : CreateTaskPayload) : desk Task :=
  _ ← answer (require_operator pk);
  _ ← answer (validate_text_field (ct_description p));
  expected ← answer (ok_or (ct_expected_output_hash p) ApiBadRequest);
  capabilities ← answer (validate_capabilities (ct_capabilities p));
  _ ← look (fun tb => ensure_operator_can_fund balance tb (ct_bounty p));
  task ← operate (fun tb =>
    let '(tb, t) := create_task tb id now pk (ct_description p) (ct_bounty p) expected in
    '(tb, t) ← apply_min_reputation tb t (ct_min_reputation p);
    apply_capabilities tb t capabilities);
  _ ← write commits (fun d => restore_task d task);
  mret task.

Definition handle_create_consensus_task (commits : bool) (consensus_max_exposure : N) (balance : option N)
    (id : Uuid) (now created : DateTime) (pk : PublicKey) (p : CreateConsensusTaskPayload) : desk Task :=
  _ ← answer (require_operator pk);
  _ ← answer (validate_text_field (cc_description p));
  _ ← answer (validate_assignees (cc_num_assignees p));
  _ ← answer (validate_positive_minutes (cc_join_window_minutes p));
  _ ← answer (validate_positive_minutes (cc_submission_window_minutes p));
  _ ← look (fun tb => ensure_consensus_exposure_allows consensus_max_exposure tb (cc_bounty p));
  capabilities ← answer (validate_capabilities (cc_capabilities p));
  _ ← look (fun tb => ensure_operator_can_fund balance tb (cc_bounty p));
  task ← operate (fun tb =>
    let '(tb, t) := create_consensus_task tb id created pk (cc_description p) (cc_bounty p) (cc_num_assignees p)
                      (now + minutes (cc_join_window_minutes p))%Z (cc_submission_window_minutes p) in
    '(tb, t) ← apply_min_reputation tb t (cc_min_reputation p);
    apply_capabilities tb t capabilities);
  _ ← write commits (fun d => restore_task d task);
  mret task.

(** ** Reserving: [create_task_escrow], [create_consensus_task_escrow],
    [create_disputable_task_escrow], [create_exchange_deposit] *)
Definition reserve (commits : bool) (id : Uuid) (now created : DateTime) (pk : PublicKey) (amount : N)
    (for_ : EscrowPurpose) : desk PendingDeposit :=
  deposit ← operate (fun tb => Ok (reserve_escrow (fun id => verifying_key (derive id)) tb id created pk amount for_
                                     (now + minutes ESCROW_RESERVATION_TTL_MINUTES)%Z));
  _ ← write commits (save_pending_deposit deposit);
  mret deposit.

Definition handle_create_task_escrow (commits : bool) (id : Uuid) (now created : DateTime) (pk : PublicKey)
    (p : CreateTaskPayload) : desk PendingDeposit :=
  _ ← answer (validate_text_field (ct_description p));
  expected ← answer (ok_or (ct_expected_output_hash p) ApiBadRequest);
  required ← answer (escrow_amount_for (ct_bounty p));
  capabilities ← answer (validate_capabilities (ct_capabilities p));
  reserve commits id now created pk required
    (FundHashMatchTask (mkTaskIntent (ct_description p) (ct_bounty p) expected (ct_min_reputation p) capabilities)).

Definition handle_create_consensus_task_escrow (commits : bool) (consensus_max_exposure : N) (id : Uuid)
    (now created : DateTime) (pk : PublicKey) (p : CreateConsensusTaskPayload) : desk PendingDeposit :=
  _ ← answer (validate_text_field (cc_description p));
  _ ← answer (validate_assignees (cc_num_assignees p));
  _ ← answer (validate_positive_minutes (cc_join_window_minutes p));
  _ ← answer (validate_positive_minutes (cc_submission_window_minutes p));
  _ ← look (fun tb => ensure_consensus_exposure_allows consensus_max_exposure tb (cc_bounty p));
  required ← answer (escrow_amount_for (cc_bounty p));
  capabilities ← answer (validate_capabilities (cc_capabilities p));
  reserve commits id now created pk required
    (FundConsensusTask (mkConsensusIntent (cc_description p) (cc_bounty p) (cc_num_assignees p)
       (cc_join_window_minutes p) (cc_submission_window_minutes p) (cc_min_reputation p) capabilities)).

Definition handle_create_disputable_task_escrow (commits : bool) (id : Uuid) (now created : DateTime) (pk : PublicKey)
    (p : EscrowDisputableTaskPayload) : desk PendingDeposit :=
  _ ← answer (validate_text_field (cd_description p));
  _ ← answer (validate_positive_minutes (cd_dispute_window_minutes p));
  required ← answer (escrow_amount_for (cd_bounty p));
  capabilities ← answer (validate_capabilities (cd_capabilities p));
  reserve commits id now created pk required
    (FundDisputableTask (mkDisputableIntent (cd_description p) (cd_bounty p) (cd_dispute_window_minutes p)
       (cd_min_reputation p) capabilities)).

Definition handle_create_exchange_deposit (commits : bool) (id : Uuid) (now created : DateTime) (pk : PublicKey)
    : desk PendingDeposit := reserve commits id now created pk MIN_EXCHANGE_DEPOSIT FundExchangeAccount.

(** ** Confirming: [confirm_task_escrow], [confirm_dispute_escrow],
    [confirm_exchange_deposit]; [balance] answers for the deposit's address. *)
Definition own_deposit (pk : PublicKey) (escrow_id : Uuid) (tb : TaskBoard) : outcome ApiError PublicKey :=
  deposit ← ok_or (tb_deposits tb !! escrow_id) (api_error EscrowNotFound);
  ensure bool_decide (depositor deposit = pk) otherwise ApiForbidden;
  Ok (deposit_pubkey deposit).

Definition handle_confirm_task_escrow (commits : bool) (balance : PublicKey -> option N) (task_id : Uuid)
    (now created : DateTime) (pk : PublicKey) (url_id escrow_id : Uuid) : desk Task :=
  require escrow_id =? url_id otherwise ApiBadRequest;
  deposit_pubkey ← look (own_deposit pk escrow_id);
  observed_amount ← answer (ok_or (balance deposit_pubkey) ApiInternal);
  '(task, deposit) ← operate (fun tb =>
    '(tb, task) ← confirm_escrow tb escrow_id task_id observed_amount now created;
    deposit ← expect (tb_deposits tb !! escrow_id);
    Ok (tb, (task, deposit)));
  _ ← write commits (save_task_and_deposit task deposit);
  mret task.

(** The rest of [confirm_dispute_escrow]: a window that closed meanwhile refunds
    the bond. *)
Definition attach_dispute (commits : bool) (refund : DisburseEnv) (now : DateTime) (escrow_id : Uuid)
    (observed_amount : N) : desk Task :=
  fun h =>
    match confirm_dispute_bond (live h) escrow_id observed_amount now with
    | Ok (l, task) =>
        (_ ← change (fun _ => l);
         deposit ← look (fun tb => expect (tb_deposits tb !! escrow_id));
         _ ← write commits (save_task_and_deposit task deposit);
         mret task) h
    | Err DisputeWindowClosed =>
        (deposit ← look (fun tb => Ok (tb_deposits tb !! escrow_id));
         _ ← match deposit with
             | Some deposit => call (fun h => h ← refund_escrow refund h deposit; Ok (h, tt))
             | None => mret tt
             end;
         answer (Err (api_error DisputeWindowClosed))) h
    | Err e => (h, Err (api_error e))
    | Panic => (h, Panic)
    end.

Definition handle_confirm_dispute_escrow (commits : bool) (balance : PublicKey -> option N) (refund : DisburseEnv)
    (now : DateTime) (pk : PublicKey) (url_id task_id escrow_id : Uuid) : desk Task :=
  require task_id =? url_id otherwise ApiBadRequest;
  deposit_pubkey ← look (own_deposit pk escrow_id);
  observed_amount ← answer (ok_or (balance deposit_pubkey) ApiInternal);
  attach_dispute commits refund now escrow_id observed_amount.

Definition handle_confirm_exchange_deposit (commits : bool) (balance : PublicKey -> option N) (sweep : DisburseEnv)
    (now : DateTime) (pk : PublicKey) (url_id escrow_id : Uuid) : desk ExchangeAccount :=
  require escrow_id =? url_id otherwise ApiBadRequest;
  deposit_pubkey ← look (own_deposit pk escrow_id);
  observed_amount ← answer (ok_or (balance deposit_pubkey) ApiInternal);
  '(depositor, (account, deposit)) ← look (fun tb =>
    d ← ok_or (tb_deposits tb !! escrow_id) (api_error EscrowNotFound);
    let staged := restore_exchange_account (put_deposit new_board d) pk (exchange_account tb pk) in
    '(staged, (depositor, _)) ← of_board (confirm_exchange_deposit staged escrow_id observed_amount HUB_TRANSACTION_FEE now);
    deposit ← expect (tb_deposits staged !! escrow_id);
    Ok (depositor, (exchange_account staged depositor, deposit)));
  _ ← write commits (save_exchange_account_and_deposit depositor account deposit);
  _ ← change (fun tb => put_deposit (restore_exchange_account tb depositor account) deposit);
  _ ← call (fun h => sweep_exchange_deposit sweep h escrow_id);
  mret account.

(** ** Working: [claim_task], [close_task], [pick_answer], [cancel_task] *)
Definition handle_claim_task (commits : bool) (now : DateTime) (pk : PublicKey) (url_id task_id : Uuid) : desk Task :=
  require task_id =? url_id otherwise ApiBadRequest;
  task ← operate (fun tb =>
    t ← ok_or (tb_tasks tb !! task_id) NotFound;
    tb ← (if is_consensus t then join_consensus_task tb task_id pk now
          else claim_task tb task_id pk (now + minutes CLAIM_TTL_MINUTES)%Z);
    t ← expect (tb_tasks tb !! task_id);
    Ok (tb, t));
  _ ← write commits (fun d => restore_task d task);
  mret task.

(** The operation on a fresh board that holds the task alone; the live board
    takes the result once it is on disk. *)
Definition stage_task (commits : bool) (task_id : Uuid) (f : TaskBoard -> outcome BoardError TaskBoard) : desk Task :=
  task ← look (fun tb => of_board (
    t ← ok_or (tb_tasks tb !! task_id) NotFound;
    staged ← f (restore_task new_board t);
    expect (tb_tasks staged !! task_id)));
  _ ← write commits (fun d => restore_task d task);
  _ ← change (fun tb => restore_task tb task);
  mret task.

Definition handle_close_task (commits : bool) (refund : DisburseEnv) (now : DateTime) (pk : PublicKey)
    (url_id task_id : Uuid) : desk Task :=
  require task_id =? url_id otherwise ApiBadRequest;
  task ← stage_task commits task_id (fun staged => close_contest staged task_id pk now);
  _ ← (if decide (status task = Closed)
       then call (fun h => h ← refund_closed_task_escrow refund h task_id; Ok (h, tt)) else mret tt);
  mret task.

(** The task as the live board has it when the answer is made. *)
Definition current_task (task_id : Uuid) : desk Task := look (fun tb => expect (tb_tasks tb !! task_id)).

Definition handle_pick_answer (commits : bool) (pay : nat -> SubmitEnv) (now : DateTime) (pk : PublicKey)
    (url_id task_id : Uuid) (answerer : option PublicKey) : desk Task :=
  require task_id =? url_id otherwise ApiBadRequest;
  answerer ← answer (ok_or answerer ApiBadRequest);
  _ ← stage_task commits task_id (fun staged => pick_answer staged task_id pk answerer now);
  _ ← call (fun h => try_settle_verified_task pay h task_id);
  current_task task_id.

Definition handle_cancel_task (commits : bool) (refund : DisburseEnv) (pk : PublicKey) (url_id task_id : Uuid)
    : desk Task :=
  require task_id =? url_id otherwise ApiBadRequest;
  _ ← answer (require_operator pk);
  task ← stage_task commits task_id (fun staged => cancel_task staged task_id);
  _ ← call (fun h => h ← refund_closed_task_escrow refund h task_id; Ok (h, tt));
  mret task.

(** ** Answering: [submit_task] and its three dispatches *)
Record SubmitResult := mkSubmitResult {
  sr_verified : bool; sr_paid : bool; sr_bounty : option N; sr_resolved : option bool
}.

Definition submit_disputable_task (commits : bool) (now : DateTime) (task_id : Uuid) (pk : PublicKey)
    (answer_ : string) : desk SubmitResult :=
  previous ← look (fun tb => Ok (tb_tasks tb !! task_id));
  _ ← operate (fun tb => tb ← submit_contest_answer tb task_id pk answer_ now; Ok (tb, tt));
  task ← look (fun tb => expect (tb_tasks tb !! task_id));
  _ ← (if commits then write true (fun d => restore_task d task)
       else _ ← match previous with Some p => change (fun tb => restore_task tb p) | None => mret tt end;
            answer (Err ApiInternal));
  mret (mkSubmitResult false false None (Some false)).

(** [persist_task_and_reputation], [persist_consensus_submission] *)
Definition persist_task_and_reputation (commits : bool) (t : Task) (submitter : PublicKey) : desk unit :=
  r ← look (fun tb => Ok (reputation tb submitter));
  write commits (save_task_and_reputation t submitter r).
Definition submission_entries (tb : TaskBoard) (t : Task) (submitter : PublicKey) (resolved : bool)
    : list (PublicKey * Reputation) :=
  (submitter, reputation tb submitter) ::
  (if resolved
   then (fun a => (a, reputation tb a)) <$> base.filter (fun a => a <> submitter) (consensus_assignees t)
   else []).
Definition persist_consensus_submission (commits : bool) (t : Task) (submitter : PublicKey) (resolved : bool)
    : desk unit :=
  entries ← look (fun tb => Ok (submission_entries tb t submitter resolved));
  write commits (fun d => save_task_and_reputation_batch true d t entries).

Definition submit_hash_match_task (commits : bool) (pay : nat -> SubmitEnv) (task_id : Uuid) (pk : PublicKey)
    (output_hash : Hash) : desk SubmitResult :=
  '(verified, task) ← operate (fun tb =>
    '(tb, verified) ← submit tb task_id pk output_hash;
    task ← expect (tb_tasks tb !! task_id);
    Ok (tb, (verified, task)));
  _ ← persist_task_and_reputation commits task pk;
  if verified : bool
  then paid ← call (fun h => try_settle_verified_task pay h task_id);
       mret (mkSubmitResult true paid (Some (bounty task)) None)
  else mret (mkSubmitResult false false None None).

Definition submit_consensus_task (commits : bool) (pay : nat -> SubmitEnv) (refund : DisburseEnv) (now : DateTime)
    (task_id : Uuid) (pk : PublicKey) (output : string) : desk SubmitResult :=
  '(resolved, task) ← operate (fun tb =>
    '(tb, resolved) ← submit_consensus_answer tb task_id pk output now;
    task ← expect (tb_tasks tb !! task_id);
    Ok (tb, (resolved, task)));
  _ ← persist_consensus_submission commits task pk resolved;
  if negb resolved then mret (mkSubmitResult false false None (Some false))
  else
    _ ← call (fun h => try_settle_verified_task pay h task_id);
    _ ← (if decide (status task = Closed)
         then call (fun h => h ← refund_closed_task_escrow refund h task_id; Ok (h, tt)) else mret tt);
    match list_find (fun e : PublicKey * N => e.1 = pk) (pending_payouts task) with
    | None => mret (mkSubmitResult false false None (Some true))
    | Some (_, (_, amount)) =>
        t ← current_task task_id;
        let paid := match kind t with
                    | Consensus c => match assignees c !! pk with Some a => a_paid a | None => false end
                    | _ => false
                    end in
        mret (mkSubmitResult true paid (Some amount) (Some true))
    end.

(** [hash] is [Hash::hash_bytes] of the output's bytes. *)
Definition handle_submit_task (commits : bool) (pay : nat -> SubmitEnv) (refund : DisburseEnv) (now : DateTime)
    (hash : string -> Hash) (pk : PublicKey) (url_id task_id : Uuid) (output : string) : desk SubmitResult :=
  require task_id =? url_id otherwise ApiBadRequest;
  _ ← answer (validate_text_field output);
  task ← look (fun tb => ok_or (tb_tasks tb !! task_id) ApiNotFound);
  match kind task with
  | Consensus _ => submit_consensus_task commits pay refund now task_id pk output
  | Disputable _ => submit_disputable_task commits now task_id pk output
  | HashMatch _ => submit_hash_match_task commits pay task_id pk (hash output)
  end.

(** ** [resolve_dispute] *)
Definition handle_resolve_dispute (commits : bool) (pay : nat -> SubmitEnv) (bond : DisburseEnv) (pk : PublicKey)
    (url_id task_id : Uuid) (result : DisputeResolution) : desk Task :=
  require task_id =? url_id otherwise ApiBadRequest;
  _ ← answer (require_operator pk);
  '(_, loser) ← operate (fun tb => resolve_dispute tb task_id result);
  '(task, loser_reputation) ← look (fun tb =>
    t ← expect (tb_tasks tb !! task_id); Ok (t, reputation tb loser));
  _ ← write commits (save_task_and_reputation task loser loser_reputation);
  _ ← call (fun h => try_settle_verified_task pay h task_id);
  _ ← call (fun h => settle_dispute_bond bond h task_id);
  current_task task_id.

(** ** [withdraw]: under [exchange_custody_payout_lock] *)
Record WithdrawEnv := mkWithdrawEnv {
  wd_utxos : option (list Utxo);
  wd_fresh : nat -> Uuid;
  wd_payment_id : Uuid;
  wd_created : DateTime;
  wd_submitted : DateTime;
  wd_commits : bool;
  wd_send_commits : bool
}.
Definition internal {E A} (o : outcome E A) : outcome ApiError A :=
  match o with Ok a => Ok a | Err _ => Err ApiInternal | Panic => Panic end.

(** [payments::prepare] and [payments::send] *)
Definition journal (commits : bool) (p : Payment) : desk Payment := fun h =>
  match prepare commits h p with Ok (h', p) => (h', Ok p) | Err _ => (h, Err ApiInternal) | Panic => (h, Panic) end.
Definition dispatch (commits : bool) (p : Payment) : desk unit := fun h =>
  match send commits h p with Ok h' => (h', Ok tt) | _ => (h, Panic) end.

Definition handle_withdraw (env : WithdrawEnv) (custody_key : PrivateKey) (pk : PublicKey) (debit : N)
    : desk (ExchangeAccount * Payment) :=
  require MIN_EXCHANGE_WITHDRAWAL <=? debit otherwise ApiBadRequest;
  _ ← look (fun tb =>
    let a := exchange_account tb pk in
    guard_ok (debit <=? base_balance a - locked_base a) (api_error (InsufficientBalance (base_balance a - locked_base a) debit)));
  net ← answer (sub64 debit HUB_TRANSACTION_FEE);
  tx ← look (fun tb => internal (build_payment_from_fresh tb (wd_utxos env) (wd_fresh env) custody_key
                                   exchange_custody_public_key [(pk, net)] exchange_custody_public_key));
  let p := payment_new (wd_payment_id env) (wd_created env) (wd_submitted env) (Withdrawal debit)
             exchange_custody_public_key pk net (Some tx) in
  p ← journal (wd_commits env) p;
  _ ← dispatch (wd_send_commits env) p;
  account ← look (fun tb => Ok (exchange_account tb pk));
  mret (account, p).

End desk.
