(* ===== verification/DeskInv.v ===== *)
(** * DeskInv: what a request does to one task

    Each task operation of a request changes one task that is not settled yet,
    pays nobody and keeps deposits and attempts ([single]); so a request is a
    run of the hub's steps. With a small program logic for [desk]: [safe]. *)

From S2P Require Import Prelude Types Crypto Transaction Spend BoardTypes Exchange Tasks Board Payouts BoardInv BoardStep PayoutStep BoardTheorems Payments PaymentInv Wallets Settlement SettleInv SettleStep SettleTheorems Sweep Desk.

(** ** One task changes *)
Record single (tb : TaskBoard) (id : Uuid) (t' : Task) (tb' : TaskBoard) : Prop := {
  sg_task : exists t, tb_tasks tb !! id = Some t /\ settled (status t) = false;
  sg_tasks : tb_tasks tb' = <[id := t']> (tb_tasks tb);
  sg_unpaid : settled (status t') = true -> Forall (fun s => s_paid s = false) (slots t') /\ status t' <> Paid;
  sg_attempts : tb_attempts tb' = tb_attempts tb;
  sg_deposits : forall e, is_Some (tb_deposits tb' !! e) -> is_Some (tb_deposits tb !! e)
}.

(** Open the run of an operation and state what it put. *)
Ltac single_run f :=
  unfold f; intros; inv_ok; repeat (case_match; inv_ok); simplify_eq;
  repeat match goal with H : bool_decide _ = true |- _ => apply bool_decide_eq_true in H end.
Ltac put_only := split;
  [eexists; split; [eassumption|congruence || (match goal with H : status _ = _ |- _ => by rewrite H end)]
  |reflexivity
  |try first [discriminate | cbn; match goal with H : status _ = _ |- _ => rewrite H end; discriminate]
  |reflexivity|try done].
Ltac put_one := econstructor; put_only.

Lemma claim_single tb id who deadline tb' : claim_task tb id who deadline = Ok tb' -> exists t', single tb id t' tb' /\ settled (status t') = false.
Proof. single_run claim_task; (eexists; split; [put_only|cbn; congruence || (match goal with H : status _ = _ |- _ => by rewrite H end) || done]). Qed.
Lemma join_single tb id who now tb' : join_consensus_task tb id who now = Ok tb' -> exists t', single tb id t' tb' /\ settled (status t') = false.
Proof. single_run join_consensus_task; (eexists; split; [put_only|cbn; congruence || (match goal with H : status _ = _ |- _ => by rewrite H end) || done]). Qed.
Lemma contest_answer_single tb id who ans now tb' :
  submit_contest_answer tb id who ans now = Ok tb' -> exists t', single tb id t' tb' /\ settled (status t') = false.
Proof. single_run submit_contest_answer; (eexists; split; [put_only|cbn; congruence || (match goal with H : status _ = _ |- _ => by rewrite H end) || done]). Qed.
Lemma close_single tb id who now tb' : close_contest tb id who now = Ok tb' -> exists t', single tb id t' tb'.
Proof. single_run close_contest; put_one. Qed.
Lemma cancel_single tb id tb' : cancel_task tb id = Ok tb' -> exists t', single tb id t' tb'.
Proof.
  single_run cancel_task. eexists. split; [eexists; split; [eassumption|]|reflexivity|discriminate|reflexivity|done].
  by destruct (status _).
Qed.

Lemma bond_single tb eid amount now tb' t' :
  board_wf tb -> confirm_dispute_bond tb eid amount now = Ok (tb', t') ->
  single tb (t_id t') t' tb' /\ settled (status t') = false.
Proof.
  intros Hwf. unfold confirm_dispute_bond. intros Hc. inv_ok. destruct r0 as [task_id reason]. inv_ok.
  repeat (case_match; inv_ok); simplify_eq.
  repeat match goal with H : bool_decide _ = true |- _ => apply bool_decide_eq_true in H end.
  match goal with H : tb_tasks tb !! task_id = Some ?t |- _ =>
    assert (t_id t = task_id) as <- by (by apply (Hwf task_id t)) end.
  split; [|done].
  split; [eexists; split; [eassumption|by match goal with H : status _ = _ |- _ => rewrite H end]|done|discriminate|done|].
  intros e. cbn. destruct (decide (e = eid)) as [->|Hne]; [eauto|by rewrite lookup_insert_ne].
Qed.

Lemma submit_single tb id who h tb' b : submit tb id who h = Ok (tb', b) -> exists t', single tb id t' tb'.
Proof.
  single_run submit.
  - put_one. intros _. cbn. match goal with H : kind _ = HashMatch _ |- _ => rewrite H end. split; [constructor|done].
  - match goal with F : add_failure _ _ = Ok _ |- _ => unfold add_failure in F; inv_ok; subst end. put_one.
Qed.

Lemma pick_single tb id caller who now tb' :
  board_wf tb -> pick_answer tb id caller who now = Ok tb' -> exists t', single tb id t' tb'.
Proof.
  intros Hwf. unfold pick_answer. intros Hp. inv_ok.
  match goal with F : find_answer _ _ = Some ?p |- _ => destruct p as [i a] end. inv_ok. repeat (case_match; inv_ok); simplify_eq.
  repeat match goal with H : bool_decide _ = true |- _ => apply bool_decide_eq_true in H end.
  put_one. intros _. split; [|done]. cbn.
  match goal with H : tb_tasks tb !! id = Some ?t |- _ => pose proof (blank_unpaid id t (Hwf _ _ H)) as Hb end.
  match goal with H : status _ = AwaitingPick, K : kind _ = _ |- _ => rewrite H in Hb; rewrite K in Hb end.
  specialize (Hb eq_refl). cbn in Hb.
  match goal with F : find_answer _ _ = Some (i, a) |- _ => apply list_find_Some in F as (Hi & _) end.
  rewrite list_fmap_insert. apply Forall_insert; [done|]. rewrite Forall_forall in Hb. apply (Hb (answer_slot a)).
  apply list_elem_of_fmap. exists a. split; [reflexivity|]. by eapply list_elem_of_lookup_2.
Qed.

Lemma resolve_consensus_one tb id t tb' :
  tb_tasks tb !! id = Some t -> resolve_consensus tb id = Ok tb' ->
  exists t', tb_tasks tb' = <[id := t']> (tb_tasks tb).
Proof.
  intros Ht. unfold resolve_consensus. rewrite Ht.
  destruct (kind t); [intros [= <-]; exists t; by rewrite insert_id| |intros [= <-]; exists t; by rewrite insert_id].
  destruct (majority_answer _); intros Hr; inv_ok; subst tb'; cbn; [|eauto].
  match goal with F : ofold _ _ _ = Ok _ |- _ => apply add_failures_tasks in F; rewrite F end. eauto.
Qed.

Lemma consensus_answer_single tb id who ans now tb' b :
  board_wf tb -> submit_consensus_answer tb id who ans now = Ok (tb', b) -> exists t', single tb id t' tb'.
Proof.
  intros Hwf. unfold submit_consensus_answer. intros Hs. inv_ok.
  match goal with F : tb_tasks tb !! id = Some ?x |- _ => rename x into t; rename F into Ht end.
  destruct (kind t) as [|c|] eqn:Hk; inv_ok. simplify_eq.
  match goal with F : bool_decide (status t = Claimed) = true |- _ => apply bool_decide_eq_true in F; rename F into Hst end.
  match goal with F : assignees _ !! who = Some ?x |- _ => rename x into a; rename F into Ha end.
  destruct (forallb _ _); inv_ok; simplify_eq.
  2: { eexists. split; [exists t; split; [done|by rewrite Hst]|done|cbn; by rewrite Hst|done|done]. }
  match goal with F : resolve_consensus (put_task tb id ?u) id = Ok ?x |- _ =>
    set (t1 := u) in *; rename F into Hres; rename x into tb2 end.
  destruct (resolve_consensus_one _ id t1 _ (lookup_insert_eq _ _ _) Hres) as [t' Et].
  destruct (resolve_consensus_attempts _ _ _ Hres) as [Ea Ed]. exists t'.
  split; [exists t; split; [done|by rewrite Hst]|by rewrite Et; cbn; rewrite insert_insert_eq| |done|by rewrite Ed].
  intros _. apply (resolve_consensus_slots _ id t1 _ t' ) with (4 := Hres).
  - pose proof (blank_unpaid id t (Hwf _ _ Ht)) as Hb. rewrite Hst, Hk in Hb. specialize (Hb eq_refl). cbn in Hb |- *.
    rewrite Forall_fmap in Hb |- *. rewrite Forall_forall in Hb |- *. intros [k x] Hin. apply elem_of_btree_iter in Hin.
    cbn in Hin. destruct (decide (k = who)) as [->|Hne].
    + rewrite lookup_insert_eq in Hin. injection Hin as <-. apply (Hb (who, a)). by apply elem_of_btree_iter.
    + rewrite lookup_insert_ne in Hin by done. apply (Hb (k, x)). by apply elem_of_btree_iter.
  - cbn. by rewrite Hst.
  - apply lookup_insert_eq.
  - by rewrite Et, lookup_insert_eq.
Qed.

Lemma resolve_dispute_single tb id res tb' wl :
  board_wf tb -> resolve_dispute tb id res = Ok (tb', wl) -> exists t', single tb id t' tb'.
Proof.
  intros Hwf. unfold resolve_dispute. intros Hs. inv_ok.
  match goal with F : tb_tasks tb !! id = Some ?x |- _ => rename x into t; rename F into Ht end.
  match goal with F : bool_decide (status t = _) = true |- _ => apply bool_decide_eq_true in F; rename F into Hst end.
  destruct (kind t) as [| |d] eqn:Hk; inv_ok. simplify_eq.
  match type of Hs with (let '(_, _) := ?p in _) = _ => destruct p as [w l] end. inv_ok. simplify_eq.
  match goal with F : add_failure _ _ = Ok _ |- _ => unfold add_failure in F; inv_ok; subst end.
  eexists. split; [exists t; split; [done|by rewrite Hst]|reflexivity| |done|done].
  intros _. split; [|done]. pose proof (blank_unpaid id t (Hwf _ _ Ht)) as Hb. rewrite Hst, Hk in Hb. by apply Hb.
Qed.

(** ** Runs of the hub *)
Section runs.
Context `{Primitives, HubKeys}.

Lemma ready_drop id t h :
  ready_except [id] h -> tb_tasks (live h) !! id = Some t -> settled (status t) = false -> ready_except [] h.
Proof.
  intros [Hok Hc Hp] Ht Hs. split; [done..|]. intros i u Hi Hu _. eapply Hp; [exact Hi|done|].
  rewrite list_elem_of_singleton. congruence.
Qed.

Lemma single_reaches h l' id t' :
  ready_except [] h -> board_step (live h) l' -> single (live h) id t' l' ->
  reaches [id] h (with_live h l') /\ (settled (status t') = false -> reaches [] h (with_live h l')).
Proof.
  intros Hr Hs [(t & Ht & Hu) Et Hp Ea Ed].
  destruct (board_step_keeps _ _ Hs (so_live _ _ (rd_ok _ _ Hr))) as [Hwf' _].
  assert (Ht' : tb_tasks l' !! id = Some t') by (by rewrite Et, lookup_insert_eq).
  assert (Hre : reaches [id] h (with_live h l')).
  { apply board_reaches; try done.
    - intros i. rewrite Et, lookup_insert_None. split; [by intros [? _]|]. intros Hn. split; [done|congruence].
    - intros i Hi. rewrite list_elem_of_singleton in Hi. by rewrite Et, lookup_insert_ne.
    - intros i u u' r Hi _ Hu'. apply list_elem_of_singleton in Hi as ->. rewrite Ht' in Hu'. injection Hu' as <-.
      destruct (settled (status t')) eqn:Es; [|eapply unsettled_unpaid; [by apply Hwf'|done]].
      destruct (Hp eq_refl). by apply unpaid_slots. }
  split; [done|]. intros Hs'. destruct Hre as [Hst Hre]. split; [done|]. by eapply ready_drop.
Qed.

(** A new task that is not settled. *)
Lemma fresh_reaches h l' id t' :
  ready_except [] h -> board_step (live h) l' -> tb_tasks (live h) !! id = None ->
  tb_tasks l' = <[id := t']> (tb_tasks (live h)) -> settled (status t') = false ->
  tb_attempts l' = tb_attempts (live h) ->
  (forall e, is_Some (tb_deposits l' !! e) -> is_Some (tb_deposits (live h) !! e)) ->
  reaches [] h (with_live h l').
Proof.
  intros [Hok Hc Hp] Hs Hn Et Hu Ea Ed. apply reaches_step; [done| |].
  - apply hs_board; [done..|]. intros i t t2 r Ht. rewrite Et, lookup_insert_ne by congruence. congruence.
  - intros Hok'. split; [done| |]; cbn.
    + intros e He. by apply Hc, Ed.
    + intros i t Ht Hset Hni. rewrite Et in Ht. destruct (decide (i = id)) as [->|Hne].
      * rewrite lookup_insert_eq in Ht. congruence.
      * rewrite lookup_insert_ne in Ht by done. by eapply Hp.
Qed.

(** A reservation and its write. *)
Lemma reserve_reaches h d :
  ready_except [] h -> board_step (live h) (put_deposit (live h) d) ->
  reaches [] h (with_boards h (put_deposit (live h) d) (put_deposit (disk h) d)).
Proof.
  intros [Hok Hc Hp] Hs. assert (Hmono : forall tb e, is_Some (tb_deposits tb !! e) -> is_Some (tb_deposits (put_deposit tb d) !! e)).
  { intros tb e He. by apply (put_deposit_aside tb d). }
  set (h1 := with_live h (put_deposit (live h) d)).
  assert (S1 : hub_step h h1) by (apply hs_board; [done..|cbn; congruence]).
  destruct (hub_step_keeps _ _ Hok S1) as [Hok1 _].
  assert (S2 : hub_step h1 (with_boards h (put_deposit (live h) d) (put_deposit (disk h) d))).
  { apply hs_write; try done; [by left|]. intros i t e Ht He. apply Hmono. by eapply (so_disk_funded _ _ Hok). }
  split; [eapply rtc_l; [exact S1|by apply rtc_once]|]. destruct (hub_step_keeps _ _ Hok1 S2) as [Hok2 _].
  split; [done| |exact Hp]. intros e. cbn. destruct (decide (pd_id d = e)) as [->|Hne].
  - rewrite !lookup_insert_eq. eauto.
  - rewrite !lookup_insert_ne by done. apply Hc.
Qed.

Lemma try_settle_reaches pay h id h' b :
  ready_except [] h -> all_or_none (se_commits (pay 0%nat)) ->
  try_settle_verified_task pay h id = Ok (h', b) -> reaches [] h h'.
Proof.
  intros Hr Hc Hs. destruct (tb_tasks (live h) !! id) as [t|] eqn:Ht.
  2: { unfold try_settle_verified_task in Hs. rewrite Ht in Hs. injection Hs as <- <-. by apply reaches_refl. }
  destruct (is_settling (status t)) eqn:Es.
  2: { unfold try_settle_verified_task in Hs. rewrite Ht, Es in Hs. injection Hs as <- <-. by apply reaches_refl. }
  apply all_works_reach; [|done]. eapply try_settle_works; [apply Hr| | |exact Hs].
  - eapply (rd_persisted _ _ Hr); [exact Ht|by apply settling_settled|apply not_elem_of_nil].
  - intros u _ _. by apply all_or_none_together.
Qed.

(** ** A logic of requests

    [h0] is the hub when the request arrives. Wherever the request stops, the hub
    is ready and was reached by the hub's steps. *)
Context (h0 : Hub).
Definition arrived (h : Hub) : Prop := reaches [] h0 h.
Definition safe {A} (P : Hub -> Prop) (m : desk A) (Q : A -> Hub -> Prop) : Prop :=
  forall h h' o, P h -> m h = (h', o) -> match o with Ok a => Q a h' | _ => arrived h' end.
Abbreviation serves m := (safe arrived m (fun _ => arrived)).

(** The task [id] is [t] in memory and possibly not yet on disk. *)
Definition touched (id : Uuid) (t : Task) (h : Hub) : Prop :=
  reaches [id] h0 h /\ tb_tasks (live h) !! id = Some t /\ t_id t = id /\
  (settled (status t) = false -> arrived h).

Lemma safe_ret {A} (P : Hub -> Prop) (a : A) (Q : A -> Hub -> Prop) : (forall h, P h -> Q a h) -> safe P (mret a) Q.
Proof. intros HQ h h' o HP [= <- <-]. auto. Qed.
Lemma safe_bind {A B} P (m : desk A) R (f : A -> desk B) Q :
  safe P m R -> (forall a, safe (R a) (f a) Q) -> safe P (m ≫= f) Q.
Proof.
  intros Hm Hf h h' o HP. unfold mbind, desk_bind. destruct (m h) as [h1 [a|e|]] eqn:E; intros Hb.
  - eapply Hf; [|exact Hb]. by apply (Hm h h1 (Ok a)).
  - injection Hb as <- <-. by apply (Hm h h1 (Err e)).
  - injection Hb as <- <-. by apply (Hm h h1 Panic).
Qed.
Lemma safe_answer {A} (P : Hub -> Prop) (o : outcome ApiError A) :
  (forall h, P h -> arrived h) -> safe P (answer o) (fun a h => P h /\ o = Ok a).
Proof. intros HA h h' o' HP [= <- <-]. destruct o; auto. Qed.
Lemma safe_look {A} (P : Hub -> Prop) (f : TaskBoard -> outcome ApiError A) :
  (forall h, P h -> arrived h) -> safe P (look f) (fun a h => P h /\ f (live h) = Ok a).
Proof. intros HA h h' o' HP [= <- <-]. destruct (f (live h)); auto. Qed.
Lemma safe_weaken {A} (P P' : Hub -> Prop) (m : desk A) (Q Q' : A -> Hub -> Prop) :
  (forall h, P' h -> P h) -> (forall a h, Q a h -> Q' a h) -> safe P m Q -> safe P' m Q'.
Proof. intros HP HQ Hm h h' o Hh E. specialize (Hm h h' o (HP h Hh) E). destruct o; auto. Qed.

(** A step that changes nothing. *)
Lemma safe_answered {A B} (P : Hub -> Prop) (o : outcome ApiError A) (f : A -> desk B) Q :
  (forall h, P h -> arrived h) -> (forall a, o = Ok a -> safe P (f a) Q) -> safe P (answer o ≫= f) Q.
Proof.
  intros HA Hf. eapply safe_bind; [by apply safe_answer|]. intros a h h' o' [HP E]. by apply Hf.
Qed.
Lemma safe_looked {A B} (P : Hub -> Prop) (g : TaskBoard -> outcome ApiError A) (f : A -> desk B) Q :
  (forall h, P h -> arrived h) -> (forall a, safe P (f a) Q) -> safe P (look g ≫= f) Q.
Proof.
  intros HA Hf. eapply safe_bind; [by apply safe_look|]. intros a. eapply safe_weaken; [by intros h [? _]|done|apply Hf].
Qed.
(** A step that leaves the hub ready. *)
Lemma safe_then {A B} (m : desk A) (f : A -> desk B) Q :
  serves m -> (forall a, safe arrived (f a) Q) -> safe arrived (m ≫= f) Q.
Proof. intros Hm Hf. by eapply safe_bind. Qed.

Lemma safe_call {A} (f : Hub -> outcome SettleError (Hub * A)) :
  (forall h h' a, ready_except [] h -> f h = Ok (h', a) -> reaches [] h h') -> serves (call f).
Proof.
  intros Hf h h' o [HS HR] E. unfold call in E. destruct (f h) as [[h1 a]|e|] eqn:Ef; injection E as <- <-; [|done..].
  destruct (Hf _ _ _ HR Ef) as [HS' HR']. split; [by etrans|done].
Qed.
Lemma safe_aside {A} (f : Hub -> outcome SettleError (Hub * A)) :
  (forall h h' a, f h = Ok (h', a) -> aside h h') -> serves (call f).
Proof. intros Hf. apply safe_call. intros h h' a Hr E. apply aside_reaches; [done|by eapply Hf]. Qed.

Lemma safe_operate {A} id (f : TaskBoard -> outcome BoardError (TaskBoard * A)) (R : A -> Task -> Prop) :
  (forall l l' a, board_wf l -> f l = Ok (l', a) -> board_step l l' /\ exists t', single l id t' l' /\ R a t') ->
  safe arrived (operate f) (fun a h => exists t', touched id t' h /\ R a t').
Proof.
  intros Hf h h' o [HS HR] E. unfold operate in E. destruct (f (live h)) as [[l' a]|e|] eqn:Ef; injection E as <- <-; [|done..].
  destruct (Hf _ _ _ (so_live _ _ (rd_ok _ _ HR)) Ef) as [Hs (t' & Hsg & HRt)]. exists t'. split; [|done].
  destruct (single_reaches _ _ _ _ HR Hs Hsg) as [[S1 R1] Hun]. split_and!.
  - split; [by etrans|done].
  - cbn. by rewrite (sg_tasks _ _ _ _ Hsg), lookup_insert_eq.
  - destruct (board_step_keeps _ _ Hs (so_live _ _ (rd_ok _ _ HR))) as [Hwf' _]. apply (Hwf' id t').
    by rewrite (sg_tasks _ _ _ _ Hsg), lookup_insert_eq.
  - intros Hset. destruct (Hun Hset) as [S2 R2]. split; [by etrans|done].
Qed.

(** The write of a task that changed: it has to commit once the task is settled. *)
Lemma safe_write id t commits f :
  (settled (status t) = true -> commits = true) ->
  (forall d, tb_tasks (f d) = <[t_id t := t]> (tb_tasks d) /\ tb_attempts (f d) = tb_attempts d /\
     forall e, is_Some (tb_deposits d !! e) -> is_Some (tb_deposits (f d) !! e)) ->
  safe (touched id t) (write commits f) (fun _ => arrived).
Proof.
  intros Hc Hf h h' o ((S1 & R1) & Ht & Hid & Hun) E. unfold write in E. destruct commits; injection E as <- <-.
  - destruct (Hf (disk h)) as (F1 & F2 & F3).
    destruct (write_reaches [] id t h (with_boards h (live h) (f (disk h)))) as [S2 R2]; try done.
    + cbn. by rewrite F1, Hid.
    + split; [by etrans|done].
  - apply Hun. destruct (settled (status t)); [by specialize (Hc eq_refl)|done].
Qed.
End runs.
