(* ===== verification/DeskTheorems.v ===== *)
(** * DeskTheorems: what requests do to the hub

    Posting, reserving, confirming, claiming, answering, closing, picking,
    cancelling, resolving and withdrawing, each from the request's arrival to
    wherever it stops: a staged change is the board's own operation, made whole
    or not at all; every request is a run of the hub's steps. *)

From S2P Require Import Prelude Types Crypto Transaction Spend BoardTypes Exchange Tasks Board Payouts BoardInv BoardStep PayoutStep BoardTheorems Payments PaymentInv Wallets Settlement SettleInv SettleStep SettleTheorems Sweep Desk DeskInv.

(** ** Staged operations look at one task *)
Definition local_to (id : Uuid) (f : TaskBoard -> outcome BoardError TaskBoard) : Prop :=
  exists g : Task -> outcome BoardError Task, forall tb,
    f tb = (t ← ok_or (tb_tasks tb !! id) NotFound; t' ← g t; Ok (put_task tb id t')).

Ltac local_run f :=
  intros tb; unfold f; destruct (tb_tasks tb !! _) as [?t|]; [cbn|done];
  repeat first [progress cbn | case_match | unfold guard_ok, ok_or]; simplify_eq; done.

Lemma cancel_local id : local_to id (fun tb => cancel_task tb id).
Proof.
  exists (fun t => _ ← guard_ok (negb (is_terminal_for_cancel (status t))) AlreadyTerminal;
             _ ← guard_ok (negb (bool_decide (status t = Disputed))) CannotCancelWhileDisputed;
             Ok (set_close t CancelledByOperator)).
  local_run cancel_task.
Qed.
Lemma close_local id pk now : local_to id (fun tb => close_contest tb id pk now).
Proof.
  exists (fun t => d ← (match kind t with Disputable d => Ok d | _ => Err WrongTaskKind end);
    _ ← guard_ok (bool_decide (poster t = pk)) NotPoster;
    _ ← guard_ok (bool_decide (status t = Open)) NotOpen;
    _ ← guard_ok (negb (past (submission_deadline t) now)) SubmissionWindowExpired;
    Ok (match answers d with
        | [] => set_close t NoAnswers
        | _ => set_status (set_kind t (Disputable (with_pick_deadline d
                 (Some (now + minutes (dispute_window_minutes d))%Z)))) AwaitingPick
        end)).
  local_run close_contest.
Qed.
Lemma pick_local id pk answerer now : local_to id (fun tb => pick_answer tb id pk answerer now).
Proof.
  exists (fun t => d ← (match kind t with Disputable d => Ok d | _ => Err WrongTaskKind end);
    _ ← guard_ok (bool_decide (poster t = pk)) NotPoster;
    _ ← guard_ok (bool_decide (status t = AwaitingPick)) NotAwaitingPick;
    _ ← guard_ok (negb (past (pick_deadline d) now)) PickWindowClosed;
    '(i, a) ← ok_or (find_answer (answers d) answerer) NotAnAnswer;
    Ok (set_status (set_kind t (Disputable (with_picked
          (with_answers d (<[i := set_answer_share a (Some (bounty t))]> (answers d))) (Some answerer)))) Verified)).
  local_run pick_answer.
Qed.

Lemma stage_task_eq commits id f h :
  stage_task commits id f h =
  match tb_tasks (live h) !! id with
  | None => (h, Err (api_error NotFound))
  | Some t =>
      match f (restore_task new_board t) with
      | Ok staged =>
          match tb_tasks staged !! id with
          | Some t' => if commits then (with_boards h (restore_task (live h) t') (restore_task (disk h) t'), Ok t')
                       else (h, Err ApiInternal)
          | None => (h, Panic)
          end
      | Err e => (h, Err (api_error e))
      | Panic => (h, Panic)
      end
  end.
Proof.
  unfold stage_task, mbind, desk_bind, outcome_bind, look, write, change.
  destruct (tb_tasks (live h) !! id) as [t|]; [cbn|done]. destruct (f _) as [l| |]; [cbn|done..].
  destruct (tb_tasks l !! id); [cbn|done]. by destruct commits.
Qed.

Lemma stage_task_spec commits id f h :
  local_to id f -> board_wf (live h) -> (forall l l', board_wf l -> f l = Ok l' -> board_wf l') ->
  match f (live h) with
  | Ok l' => exists t', l' = put_task (live h) id t' /\ t_id t' = id /\
      stage_task commits id f h =
        if commits then (with_boards h l' (put_task (disk h) id t'), Ok t') else (h, Err ApiInternal)
  | Err e => stage_task commits id f h = (h, Err (api_error e))
  | Panic => stage_task commits id f h = (h, Panic)
  end.
Proof.
  intros [g Hg] Hwf Hkeep. pose proof (fun l' => Hkeep (live h) l' Hwf) as Hk. rewrite Hg in Hk |- *. rewrite stage_task_eq.
  destruct (tb_tasks (live h) !! id) as [t|] eqn:Ht; [|done]. cbn in Hk |- *. rewrite Hg. cbn.
  pose proof (wf_id _ _ (Hwf _ _ Ht)) as Hid. rewrite Hid, lookup_insert_eq. cbn.
  destruct (g t) as [t'|e|]; [|done..]. cbn in Hk |- *. rewrite lookup_insert_eq.
  assert (Hid' : t_id t' = id) by (apply (wf_id id t'), (Hk _ eq_refl); apply lookup_insert_eq).
  exists t'. split; [done|]. split; [done|]. unfold restore_task, put_task. by rewrite Hid'.
Qed.

(** ** Each kind of request *)
Section serves.
Context `{Primitives, HubKeys, TagForm} (h0 : Hub).
Abbreviation arrived := (arrived h0).
Abbreviation safe := (safe h0).
Abbreviation touched := (touched h0).
Abbreviation serves m := (DeskInv.safe h0 (DeskInv.arrived h0) m (fun _ => DeskInv.arrived h0)).

Lemma serves_ret {A} (a : A) : serves (mret a).
Proof. by apply safe_ret. Qed.
Lemma safe_require {A} (P : Hub -> Prop) (b : bool) e (m : desk A) Q :
  (forall h, P h -> arrived h) -> safe P m Q -> safe P (require b otherwise e; m) Q.
Proof. intros HA Hm. by apply safe_answered. Qed.

(** *** Posting *)
Definition fresh_task (id : Uuid) (h : Hub) : Prop := arrived h /\ tb_tasks (live h) !! id = None.

Lemma fresh_arrived id h : fresh_task id h -> arrived h.
Proof. by intros []. Qed.

Lemma reset_reaches h l id t t' :
  ready_except [] (with_live h (put_task l id t)) -> settled (status t) = false -> settled (status t') = false ->
  board_step (put_task l id t) (put_task l id t') ->
  reaches [] (with_live h (put_task l id t)) (with_live h (put_task l id t')).
Proof.
  intros Hr Hs Hs' Hst. apply (single_reaches (with_live h (put_task l id t)) (put_task l id t') id t'); [done..| |done].
  split; [exists t; split; [apply lookup_insert_eq|done]|cbn; by rewrite insert_insert_eq|congruence|done|done].
Qed.

Lemma safe_post id n c (create : TaskBoard -> TaskBoard * Task) t0 :
  t_id t0 = id -> status t0 = Open -> (forall tb, create tb = (put_task tb id t0, t0)) ->
  (forall tb, tb_tasks tb !! id = None -> board_step tb (put_task tb id t0)) ->
  safe (fresh_task id)
    (operate (fun tb => let '(tb, t) := create tb in
                        '(tb, t) ← apply_min_reputation tb t n; apply_capabilities tb t c))
    (fun t h => touched id t h /\ settled (status t) = false).
Proof.
  intros Hid Hst Hcr Hstep h h' o [[HS HR] Hn] E.
  assert (Hr0 : reaches [] h0 (with_live h (put_task (live h) id t0))).
  { eapply reaches_trans; [by split|]. intros _. apply (fresh_reaches h (put_task (live h) id t0) id t0); try done; [by apply Hstep|by rewrite Hst]. }
  unfold operate in E. rewrite Hcr in E. cbv beta iota in E.
  set (t1 := if 0 <? n then set_min_rep t0 n else t0) in *.
  assert (E1 : apply_min_reputation (put_task (live h) id t0) t0 n = Ok (put_task (live h) id t1, t1)).
  { unfold apply_min_reputation, set_min_reputation, t1. rewrite Hid. cbn. rewrite lookup_insert_eq. cbn.
    destruct (0 <? n); [|done]. unfold put_task. cbn. by rewrite insert_insert_eq. }
  assert (Hst1 : status t1 = Open /\ t_id t1 = id) by (unfold t1; by destruct (0 <? n)). destruct Hst1 as [Hst1 Hid1].
  assert (Hr1 : reaches [] h0 (with_live h (put_task (live h) id t1))).
  { eapply reaches_trans; [exact Hr0|]. intros Hr. unfold t1. destruct (0 <? n); [|by apply reaches_refl].
    apply reset_reaches; [done|by rewrite Hst|cbn; by rewrite Hst|]. apply (bs_min_reputation _ id n). unfold set_min_reputation. cbn.
    rewrite lookup_insert_eq. cbn. unfold put_task. cbn. by rewrite insert_insert_eq. }
  rewrite E1 in E. cbn [mbind outcome_bind] in E. unfold apply_capabilities, set_capabilities in E. rewrite Hid1 in E. cbn in E.
  rewrite lookup_insert_eq in E. cbn in E.
  assert (Hdone : forall t, settled (status t) = false -> t_id t = id -> reaches [] h0 (with_live h (put_task (live h) id t)) ->
    touched id t (with_live h (put_task (live h) id t)) /\ settled (status t) = false).
  { intros t Hs Ht [S1 R1]. split; [|done]. split_and!; [|apply lookup_insert_eq|done|by split]. split; [done|].
    destruct R1 as [R1 R2 R3]. split; [done..|]. intros i u Hi Hu _. eapply R3; [exact Hi|done|apply not_elem_of_nil]. }
  case_bool_decide; injection E as <- <-; [apply Hdone; [by rewrite Hst1|done|done]|].
  replace (put_task (put_task (live h) id t1) id (set_caps t1 c)) with (put_task (live h) id (set_caps t1 c))
    by (unfold put_task; cbn; by rewrite insert_insert_eq).
  apply Hdone; [cbn; by rewrite Hst1|done|]. eapply reaches_trans; [exact Hr1|]. intros Hr.
  apply reset_reaches; [done|by rewrite Hst1|cbn; by rewrite Hst1|]. apply (bs_capabilities _ id c). unfold set_capabilities. cbn.
  rewrite lookup_insert_eq. cbn. unfold put_task. cbn. by rewrite insert_insert_eq.
Qed.

Lemma touched_fresh h l' id t' :
  arrived h -> board_step (live h) l' -> tb_tasks (live h) !! id = None -> tb_tasks l' = <[id := t']> (tb_tasks (live h)) ->
  task_wf id t' -> settled (status t') = false -> tb_attempts l' = tb_attempts (live h) ->
  (forall e, is_Some (tb_deposits l' !! e) -> is_Some (tb_deposits (live h) !! e)) -> touched id t' (with_live h l').
Proof.
  intros [HS HR] Hs Hn Et Hwf Hu Ha Hd.
  destruct (fresh_reaches h l' id t' HR Hs Hn Et Hu Ha Hd) as [S1 R1].
  assert (Hre : arrived (with_live h l')) by (split; [by etrans|done]).
  split_and!; [|cbn; by rewrite Et, lookup_insert_eq|by apply Hwf|done]. split; [apply Hre|].
  destruct R1 as [R1 R2 R3]. split; [done..|]. intros i u Hi Hset _. eapply R3; [exact Hi|done|apply not_elem_of_nil].
Qed.

Lemma save_task_frame t (d : TaskBoard) :
  tb_tasks (restore_task d t) = <[t_id t := t]> (tb_tasks d) /\ tb_attempts (restore_task d t) = tb_attempts d /\
  forall e, is_Some (tb_deposits d !! e) -> is_Some (tb_deposits (restore_task d t) !! e).
Proof. by split_and!. Qed.

(** A task that is not settled may miss the disk. *)
Lemma safe_save {A} id commits t (a : A) :
  settled (status t) = false \/ commits = true ->
  safe (touched id t) (_ ← write commits (fun d => restore_task d t); mret a) (fun _ => arrived).
Proof.
  intros Hc. eapply safe_bind; [eapply safe_write; [intros Hs; destruct Hc; congruence|intros d; apply save_task_frame]|].
  intros ?. apply serves_ret.
Qed.

Lemma serves_posted id n c create t0 commits :
  t_id t0 = id -> status t0 = Open -> (forall tb, create tb = (put_task tb id t0, t0)) ->
  (forall tb, tb_tasks tb !! id = None -> board_step tb (put_task tb id t0)) ->
  safe (fresh_task id)
    (task ← operate (fun tb => let '(tb, t) := create tb in
                               '(tb, t) ← apply_min_reputation tb t n; apply_capabilities tb t c);
     _ ← write commits (fun d => restore_task d task);
     mret task) (fun _ => arrived).
Proof.
  intros Hid Hst Hcr Hstep. eapply safe_bind; [by eapply safe_post|]. intros t h h' o [Ht Hs] E.
  eapply (safe_save id commits t t); [by left|exact Ht|exact E].
Qed.

Ltac check := first
  [ apply safe_require; [done || apply fresh_arrived|]
  | apply safe_answered; [done || apply fresh_arrived|intros ? _]
  | apply safe_looked; [done || apply fresh_arrived|intros ?] ].

Lemma create_task_serves commits balance id now pk p :
  safe (fresh_task id) (handle_create_task commits balance id now pk p) (fun _ => arrived).
Proof.
  unfold handle_create_task. repeat check. eapply serves_posted; [..|intros tb; reflexivity|]; [done..|].
  intros tb Hn. by apply (bs_create tb id now pk (ct_description p) (ct_bounty p)).
Qed.
Lemma create_consensus_task_serves commits cap balance id now created pk p :
  safe (fresh_task id) (handle_create_consensus_task commits cap balance id now created pk p) (fun _ => arrived).
Proof.
  unfold handle_create_consensus_task. repeat check. eapply serves_posted; [..|intros tb; reflexivity|]; [done..|].
  intros tb Hn. by apply (bs_create_consensus tb id created pk (cc_description p) (cc_bounty p)).
Qed.

(** *** Reserving *)
Lemma reserve_serves id now created pk amount for_ : serves (reserve true id now created pk amount for_).
Proof.
  intros h h' o [HS HR] E. unfold reserve in E. cbn in E. injection E as <- <-.
  destruct (reserve_reaches h (reserve_escrow (fun id => verifying_key (derive id)) (live h) id created pk amount for_
    (now + minutes ESCROW_RESERVATION_TTL_MINUTES)%Z).2 HR) as [S1 R1].
  - exact (bs_reserve (live h) (fun id => verifying_key (derive id)) id created pk amount for_ _).
  - split; [by etrans|done].
Qed.

Ltac reserves := intros; repeat check; apply reserve_serves.
Lemma create_task_escrow_serves id now created pk p : serves (handle_create_task_escrow true id now created pk p).
Proof. unfold handle_create_task_escrow. reserves. Qed.
Lemma create_consensus_task_escrow_serves cap id now created pk p :
  serves (handle_create_consensus_task_escrow true cap id now created pk p).
Proof. unfold handle_create_consensus_task_escrow. reserves. Qed.
Lemma create_disputable_task_escrow_serves id now created pk p :
  serves (handle_create_disputable_task_escrow true id now created pk p).
Proof. unfold handle_create_disputable_task_escrow. reserves. Qed.
Lemma create_exchange_deposit_serves id now created pk : serves (handle_create_exchange_deposit true id now created pk).
Proof. apply reserve_serves. Qed.

(** *** Staged changes *)
Lemma stage_task_serves commits id f :
  local_to id f -> (forall l l', f l = Ok l' -> board_step l l') ->
  (forall l l', board_wf l -> f l = Ok l' -> exists t', single l id t' l') -> serves (stage_task commits id f).
Proof.
  intros Hl Hs Hone h h' o [HS HR] E. pose proof (so_live _ _ (rd_ok _ _ HR)) as Hwf.
  pose proof (stage_task_spec commits id f h Hl Hwf (fun l l' Hw He => proj1 (board_step_keeps _ _ (Hs _ _ He) Hw))) as Hsp.
  destruct (f (live h)) as [l'|e|] eqn:Ef; [|rewrite Hsp in E; injection E as <- <-; by split..].
  destruct Hsp as (t' & -> & Hid & Hst). rewrite Hst in E.
  destruct commits; injection E as <- <-; [|by split].
  destruct (Hone _ _ Hwf Ef) as [t2 Hsg]. assert (t2 = t') as ->.
  { pose proof (sg_tasks _ _ _ _ Hsg) as Et. apply (f_equal (lookup id)) in Et. cbn in Et. rewrite !lookup_insert_eq in Et. congruence. }
  destruct (single_reaches _ _ _ _ HR (Hs _ _ Ef) Hsg) as [Hr1 _].
  eapply reaches_trans; [split; [exact HS|exact HR]|]. intros _. eapply reaches_trans; [exact Hr1|]. intros Hr2.
  by apply (write_reaches [] id t' _ _ Hr2); [apply lookup_insert_eq|..].
Qed.

Lemma cancel_task_serves commits refund pk url id : serves (handle_cancel_task commits refund pk url id).
Proof.
  unfold handle_cancel_task. repeat check. apply safe_then.
  { apply stage_task_serves; [apply cancel_local|intros l; apply bs_cancel|intros l l' _; apply cancel_single]. }
  intros t. apply safe_then; [|intros ?; apply serves_ret]. apply safe_aside. intros h h' [] E.
  apply bind_Ok in E as (h1 & E & [= <-]). by eapply refund_closed_aside.
Qed.
Lemma refund_serves refund id : serves (call (fun h => h ← refund_closed_task_escrow refund h id; Ok (h, tt))).
Proof.
  apply safe_aside. intros h h' [] E. apply bind_Ok in E as (h1 & E & [= <-]). by eapply refund_closed_aside.
Qed.
Lemma settle_serves pay id :
  all_or_none (se_commits (pay 0%nat)) -> serves (call (fun h => try_settle_verified_task pay h id)).
Proof. intros Hp. apply safe_call. intros h h' a. eauto using try_settle_reaches. Qed.

Lemma close_task_serves commits refund now pk url id : serves (handle_close_task commits refund now pk url id).
Proof.
  unfold handle_close_task. repeat check. apply safe_then.
  { apply stage_task_serves; [apply close_local|intros l; apply bs_close_contest|intros l l' _; apply close_single]. }
  intros t. apply safe_then; [|intros ?; apply serves_ret]. case_decide; [apply refund_serves|apply serves_ret].
Qed.
Lemma pick_answer_serves commits pay now pk url id answerer :
  all_or_none (se_commits (pay 0%nat)) -> serves (handle_pick_answer commits pay now pk url id answerer).
Proof.
  intros Hp. unfold handle_pick_answer. do 2 check. apply safe_then.
  { apply stage_task_serves; [apply pick_local|intros l; apply bs_pick|intros l l' Hw; by apply pick_single]. }
  intros ?. apply safe_then; [by apply settle_serves|]. intros ?. eapply safe_weaken; [done| |by apply safe_look].
  by intros ? ? [].
Qed.

(** *** Claiming and answering *)
Lemma claim_task_serves commits now pk url id : serves (handle_claim_task commits now pk url id).
Proof.
  unfold handle_claim_task. check. eapply safe_bind.
  { apply (safe_operate h0 id _ (fun a t' => a = t' /\ settled (status t') = false)). intros l l' a Hwf E. inv_ok. simplify_eq.
    match goal with F : (if is_consensus _ then _ else _) = Ok _ |- _ => rename F into Hop end.
    assert (board_step l l' /\ exists t', single l id t' l' /\ settled (status t') = false) as (Hs & t' & Hsg & Hu).
    { destruct (is_consensus _); split; [eapply bs_join; exact Hop|by eapply join_single|eapply bs_claim; exact Hop|by eapply claim_single]. }
    match goal with F : tb_tasks l' !! id = Some _ |- _ => rename F into Hl end.
    split; [done|]. exists t'. split; [done|]. split; [|done]. rewrite (sg_tasks _ _ _ _ Hsg), lookup_insert_eq in Hl. congruence. }
  intros t h h' o (t' & Ht & -> & Hs) E. eapply (safe_save id commits); [by left|exact Ht|exact E].
Qed.

Lemma put_back tb id t t' : board_wf tb -> tb_tasks tb !! id = Some t -> restore_task (put_task tb id t') t = tb.
Proof.
  intros Hwf Ht. unfold restore_task, put_task. cbn. rewrite (wf_id _ _ (Hwf _ _ Ht)), insert_insert_eq, (insert_id (tb_tasks tb) id t Ht).
  by destruct tb.
Qed.
Lemma contest_answer_put tb id who ans now tb' : submit_contest_answer tb id who ans now = Ok tb' -> exists t', tb' = put_task tb id t'.
Proof. unfold submit_contest_answer. intros E. inv_ok. repeat (case_match; inv_ok); subst; eexists; reflexivity. Qed.

(** The live board takes back what it had when the answer's write failed. *)
Lemma submit_disputable_serves commits now id pk ans : serves (submit_disputable_task commits now id pk ans).
Proof.
  intros h h' o [HS HR] E. unfold submit_disputable_task, look, operate, mbind, desk_bind in E. cbv beta iota in E.
  destruct (submit_contest_answer (live h) id pk ans now) as [l'|e|] eqn:Eo; [|by injection E as <- <-..].
  cbn in E. destruct (contest_answer_single _ _ _ _ _ _ Eo) as (t' & Hsg & Hu).
  pose proof (sg_tasks _ _ _ _ Hsg) as Et. rewrite Et, lookup_insert_eq in E. cbn in E.
  destruct (single_reaches h l' id t' HR (bs_contest_answer _ _ _ _ _ _ Eo) Hsg) as [Hr1 Hr2]. specialize (Hr2 Hu).
  destruct commits.
  - cbn in E. injection E as <- <-. eapply reaches_trans; [split; [exact HS|exact HR]|]. intros _.
    eapply reaches_trans; [exact Hr1|]. intros Hr3.
    apply (write_reaches [] id t' _ _ Hr3); try done; cbn; [by rewrite Et, lookup_insert_eq|].
    pose proof (proj1 (board_step_keeps _ _ (bs_contest_answer _ _ _ _ _ _ Eo) (so_live _ _ (rd_ok _ _ HR)))) as Hwf'.
    rewrite (wf_id id t'); [done|]. apply Hwf'. by rewrite Et, lookup_insert_eq.
  - destruct (sg_task _ _ _ _ Hsg) as (t & Ht & _). rewrite Ht in E. cbn in E. injection E as <- <-.
    destruct (contest_answer_put _ _ _ _ _ _ Eo) as [t2 ->]. rewrite put_back by (done || apply (so_live _ _ (rd_ok _ _ HR))).
    destruct h. by split.
Qed.

(** *** Confirming *)
Lemma apply_settings_attempts tb id n c tb' : apply_settings tb id n c = Ok tb' -> tb_attempts tb' = tb_attempts tb.
Proof.
  unfold apply_settings, set_min_reputation, set_capabilities. intros E. inv_ok.
  repeat (case_match; inv_ok; simplify_eq); done.
Qed.
Lemma confirm_escrow_attempts tb eid id amount now created tb' t' :
  confirm_escrow tb eid id amount now created = Ok (tb', t') -> tb_attempts tb' = tb_attempts tb.
Proof.
  unfold confirm_escrow. intros E. inv_ok. simplify_eq. cbn.
  destruct (purpose _); cbn in *; inv_ok; try done; by match goal with F : apply_settings _ _ _ _ = Ok _ |- _ => apply apply_settings_attempts in F; rewrite F end.
Qed.
Lemma confirm_task_escrow_serves commits balance task_id now created pk url eid :
  safe (fresh_task task_id) (handle_confirm_task_escrow commits balance task_id now created pk url eid) (fun _ => arrived).
Proof.
  unfold handle_confirm_task_escrow. repeat check.
  apply (safe_bind _ _ _ (fun a h => touched task_id a.1 h /\ settled (status a.1) = false)).
  2: { intros [t d] h h' o [Ht Hs] E. revert h h' o Ht E. apply safe_bind with (R := fun _ => arrived); [|intros ?; apply serves_ret].
       cbn [fst] in Hs. apply (safe_write h0 task_id t); [congruence|]. intros x. split_and!; [done..|].
       intros e He. by apply (put_deposit_aside (restore_task x t) d). }
  intros h h' o [[HS HR] Hn] E. unfold operate in E. pose proof (confirm_escrow_shape (live h) eid task_id) as Hsh.
  match type of E with context [confirm_escrow _ _ _ ?x ?n ?c] => specialize (Hsh x n c);
    destruct (confirm_escrow (live h) eid task_id x n c) as [[l' t']|e|] eqn:Eo end; [|by injection E as <- <-..].
  destruct Hsh as (d & t0 & Hd & _ & _ & _ & Hi & Ed & Et & Hwf & _ & Hf).
  cbn in E. rewrite Ed, lookup_insert_eq in E. cbn in E. injection E as <- <-. cbn [fst].
  assert (Hopen : status t' = Open).
  { injection Hf as _ _ _ _ _ ->. unfold intended_task in Hi. by destruct (purpose d); simplify_eq. }
  split; [|by rewrite Hopen]. apply touched_fresh; try done; [by eapply bs_confirm_escrow|by rewrite Hopen|by eapply confirm_escrow_attempts|].
  intros e. rewrite Ed. destruct (decide (e = eid)) as [->|Hne]; [eauto|by rewrite lookup_insert_ne].
Qed.

Lemma save_task_deposit_frame t d (x : TaskBoard) :
  tb_tasks (save_task_and_deposit t d x) = <[t_id t := t]> (tb_tasks x) /\
  tb_attempts (save_task_and_deposit t d x) = tb_attempts x /\
  forall e, is_Some (tb_deposits x !! e) -> is_Some (tb_deposits (save_task_and_deposit t d x) !! e).
Proof. split_and!; [done..|]. intros e He. by apply (put_deposit_aside (restore_task x t) d). Qed.

Lemma attach_dispute_serves commits refund now eid amount : serves (attach_dispute commits refund now eid amount).
Proof.
  intros h h' o [HS HR] E. unfold attach_dispute in E.
  destruct (confirm_dispute_bond (live h) eid amount now) as [[l' t']|e|] eqn:Eo.
  - destruct (bond_single _ _ _ _ _ _ (so_live _ _ (rd_ok _ _ HR)) Eo) as [Hsg Hu].
    destruct (single_reaches h l' _ t' HR (bs_confirm_bond _ _ _ _ _ _ Eo) Hsg) as [[S1 R1] Hr2].
    destruct (Hr2 Hu) as [_ R2].
    assert (Ht : touched (t_id t') t' (with_live h l')).
    { split_and!; [split; [by etrans|done]|cbn; by rewrite (sg_tasks _ _ _ _ Hsg), lookup_insert_eq|done|]. split; [by etrans|done]. }
    unfold change, look, mbind at 1 2, desk_bind at 1 2 in E. cbn in E.
    destruct (tb_deposits l' !! eid) as [d|]; cbn in E; [|injection E as <- <-; by apply Ht].
    eapply (safe_bind h0 (touched (t_id t') t') (write commits (save_task_and_deposit t' d)) (fun _ => arrived) (fun _ => mret t') (fun _ => arrived));
      [|intros ?; apply serves_ret|exact Ht|exact E].
    apply safe_write; [congruence|]. intros x. apply save_task_deposit_frame.
  - destruct e; try (by injection E as <- <-). match type of E with ?m h = _ => enough (Hm : serves m) by (eapply (Hm h h' o); [by split|exact E]) end.
    check. apply safe_then; [|intros ?; eapply safe_weaken; [..|by apply safe_answer]; [done|by intros ? ? []]].
    case_match; [|apply serves_ret]. apply safe_aside. intros x y [] Ex. apply bind_Ok in Ex as (z & Ex & [= <-]).
    by eapply refund_escrow_aside.
  - by injection E as <- <-.
Qed.
Lemma confirm_dispute_escrow_serves commits balance refund now pk url id eid :
  serves (handle_confirm_dispute_escrow commits balance refund now pk url id eid).
Proof. unfold handle_confirm_dispute_escrow. repeat check. apply attach_dispute_serves. Qed.

Lemma confirm_exchange_deposit_serves commits balance sweep now pk url eid :
  serves (handle_confirm_exchange_deposit commits balance sweep now pk url eid).
Proof.
  unfold handle_confirm_exchange_deposit. repeat check. match goal with |- context [let '(_, _) := ?p in _] => destruct p as [who [acct d]] end.
  intros h h' o [HS HR] E. unfold write, change, mbind at 1 2, desk_bind at 1 2 in E. destruct commits; [cbn in E|by injection E as <- <-].
  match type of E with ?m ?x = _ => enough (Hm : serves m /\ arrived x) by exact (proj1 Hm x h' o (proj2 Hm) E) end.
  split.
  - apply safe_then; [|intros ?; apply serves_ret]. apply safe_aside. intros x y b. apply sweep_exchange_deposit_aside.
  - eapply reaches_trans; [split; [exact HS|exact HR]|]. intros _. apply aside_reaches; [done|].
    destruct (put_deposit_aside (live h) d) as (T1 & A1 & D1), (put_deposit_aside (disk h) d) as (T2 & A2 & D2).
    split; [done|]. split; [done|]. intros Hc e. cbn. destruct (decide (pd_id d = e)) as [<-|Hne].
    + rewrite !lookup_insert_eq. eauto.
    + rewrite !lookup_insert_ne by done. apply Hc.
Qed.

(** *** Verdicts *)
Lemma save_reputation_frame t pk r (x : TaskBoard) :
  tb_tasks (save_task_and_reputation t pk r x) = <[t_id t := t]> (tb_tasks x) /\
  tb_attempts (save_task_and_reputation t pk r x) = tb_attempts x /\
  forall e, is_Some (tb_deposits x !! e) -> is_Some (tb_deposits (save_task_and_reputation t pk r x) !! e).
Proof. by split_and!. Qed.
Lemma save_batch_frame t l (x : TaskBoard) :
  tb_tasks (save_task_and_reputation_batch true x t l) = <[t_id t := t]> (tb_tasks x) /\
  tb_attempts (save_task_and_reputation_batch true x t l) = tb_attempts x /\
  forall e, is_Some (tb_deposits x !! e) -> is_Some (tb_deposits (save_task_and_reputation_batch true x t l) !! e).
Proof. unfold save_task_and_reputation_batch. destruct (batch_frame l (restore_task x t)) as (-> & -> & ->). by split_and!. Qed.

Lemma persisted_serves {A} id t f (g : desk A) :
  (forall x, tb_tasks (f x) = <[t_id t := t]> (tb_tasks x) /\ tb_attempts (f x) = tb_attempts x /\
     forall e, is_Some (tb_deposits x !! e) -> is_Some (tb_deposits (f x) !! e)) ->
  serves g -> safe (touched id t) (_ ← write true f; g) (fun _ => arrived).
Proof. intros Hf Hg. apply safe_bind with (R := fun _ => arrived); [|by intros ?]. by apply safe_write. Qed.

(** A look that succeeds. *)
Lemma safe_read {A B} (P : Hub -> Prop) (g : TaskBoard -> A) (f : A -> desk B) Q :
  (forall a, safe P (f a) Q) -> safe P (look (fun tb => Ok (g tb)) ≫= f) Q.
Proof. intros Hf h h' o HP E. exact (Hf (g (live h)) h h' o HP E). Qed.

(** An operation on the task it returns, which its save then writes. *)
Lemma safe_operated {A B} id (task : A -> Task) (f : TaskBoard -> outcome BoardError (TaskBoard * A)) (k : A -> desk B) Q :
  (forall l l' a, board_wf l -> f l = Ok (l', a) -> board_step l l' /\ exists t', single l id t' l' /\ task a = t') ->
  (forall a, safe (touched id (task a)) (k a) Q) -> safe arrived (operate f ≫= k) Q.
Proof.
  intros Hf Hk. eapply safe_bind; [by apply (safe_operate h0 id f (fun a t' => task a = t'))|].
  intros a h h' o (t' & Ht & <-). by apply Hk.
Qed.

Lemma submit_hash_match_serves pay id pk hash :
  all_or_none (se_commits (pay 0%nat)) -> serves (submit_hash_match_task true pay id pk hash).
Proof.
  intros Hp. apply (safe_operated id snd).
  { intros l l' [v t] Hwf E. inv_ok. simplify_eq.
    match goal with F : submit l id pk hash = Ok ?x |- _ => destruct x as [l1 v1]; rename F into Hop end. inv_ok. simplify_eq.
    split; [by eapply bs_submit|]. destruct (submit_single _ _ _ _ _ _ Hop) as [t' Hsg]. exists t'. split; [done|]. cbn.
    match goal with F : tb_tasks l' !! id = Some _ |- _ => rewrite (sg_tasks _ _ _ _ Hsg), lookup_insert_eq in F; congruence end. }
  intros [v t]. apply safe_bind with (R := fun _ => arrived).
  { apply safe_read. intros r. apply safe_write; [done|]. intros x. apply save_reputation_frame. }
  intros ?. destruct v; [|apply serves_ret]. apply safe_then; [by apply settle_serves|]. intros ?. apply serves_ret.
Qed.

Lemma current_task_serves id : serves (current_task id).
Proof. eapply safe_weaken; [done| |by apply safe_look]. by intros ? ? []. Qed.

Lemma submit_consensus_serves pay refund now id pk output :
  all_or_none (se_commits (pay 0%nat)) -> serves (submit_consensus_task true pay refund now id pk output).
Proof.
  intros Hp. apply (safe_operated id snd).
  { intros l l' [v t] Hwf E. inv_ok. simplify_eq.
    match goal with F : submit_consensus_answer l id pk output now = Ok ?x |- _ => destruct x as [l1 v1]; rename F into Hop end.
    inv_ok. simplify_eq. split; [by eapply bs_consensus_answer|].
    destruct (consensus_answer_single _ _ _ _ _ _ _ Hwf Hop) as [t' Hsg]. exists t'. split; [done|]. cbn.
    match goal with F : tb_tasks l' !! id = Some _ |- _ => rewrite (sg_tasks _ _ _ _ Hsg), lookup_insert_eq in F; congruence end. }
  intros [v t]. apply safe_bind with (R := fun _ => arrived).
  { apply safe_read. intros r. apply safe_write; [done|]. intros x. apply save_batch_frame. }
  intros ?. case_match; [apply serves_ret|]. apply safe_then; [by apply settle_serves|]. intros ?.
  apply safe_then; [case_decide; [apply refund_serves|apply serves_ret]|]. intros ?. case_match; [|apply serves_ret].
  repeat case_match. apply safe_then; [apply current_task_serves|]. intros ?. apply serves_ret.
Qed.

Lemma submit_task_serves pay refund now hash pk url id output :
  all_or_none (se_commits (pay 0%nat)) -> serves (handle_submit_task true pay refund now hash pk url id output).
Proof.
  intros Hp. unfold handle_submit_task. repeat check. case_match.
  - by apply submit_hash_match_serves.
  - by apply submit_consensus_serves.
  - apply submit_disputable_serves.
Qed.

Lemma resolve_dispute_serves pay bond pk url id res :
  all_or_none (se_commits (pay 0%nat)) -> serves (handle_resolve_dispute true pay bond pk url id res).
Proof.
  intros Hp. unfold handle_resolve_dispute. repeat check. eapply safe_bind.
  { apply (safe_operate h0 id _ (fun _ _ => True)). intros l l' wl Hwf E. split; [by eapply bs_resolve_dispute|].
    destruct (resolve_dispute_single _ _ _ _ _ Hwf E) as [t' Hsg]. eauto. }
  intros [w loser] h h' o (t' & Ht & _) E. pose proof Ht as (_ & Hl & _).
  unfold look, mbind at 1, desk_bind at 1 in E. rewrite Hl in E. cbn [expect mbind outcome_bind] in E.
  match type of E with ?m h = _ => enough (Hm : safe (touched id t') m (fun _ => arrived)) by exact (Hm h h' o Ht E) end.
  apply persisted_serves; [intros x; apply save_reputation_frame|]. apply safe_then; [by apply settle_serves|]. intros ?.
  apply safe_then; [|intros ?; apply current_task_serves]. apply safe_aside. intros x y b. apply settle_dispute_bond_aside.
Qed.

(** *** Withdrawing *)
Lemma journal_serves commits p : serves (journal commits p).
Proof.
  intros h h' o [HS HR] E. unfold journal in E. destruct (prepare commits h p) as [[h1 q]| |] eqn:Ep; injection E as <- <-; [|done..].
  eapply reaches_trans; [split; [exact HS|exact HR]|]. intros _. apply aside_reaches; [done|by eapply prepare_aside].
Qed.
Lemma dispatch_serves commits p : serves (dispatch commits p).
Proof.
  intros h h' o [HS HR] E. unfold dispatch in E. destruct (send commits h p) as [h1| |] eqn:Ep; injection E as <- <-; [|done..].
  eapply reaches_trans; [split; [exact HS|exact HR]|]. intros _. apply aside_reaches; [done|by eapply send_aside].
Qed.
Lemma withdraw_serves env key pk debit : serves (handle_withdraw env key pk debit).
Proof.
  unfold handle_withdraw. repeat check. apply safe_then; [apply journal_serves|]. intros ?.
  apply safe_then; [apply dispatch_serves|]. intros ?. check. apply serves_ret.
Qed.
End serves.

Create HintDb desk.
#[export] Hint Resolve create_task_serves create_consensus_task_serves create_task_escrow_serves
  create_consensus_task_escrow_serves create_disputable_task_escrow_serves create_exchange_deposit_serves
  confirm_task_escrow_serves confirm_dispute_escrow_serves confirm_exchange_deposit_serves claim_task_serves
  close_task_serves pick_answer_serves cancel_task_serves submit_task_serves resolve_dispute_serves withdraw_serves : desk.

(** ** Requests *)
Inductive Request : Type :=
| CreateTask (commits : bool) (balance : option N) (id : Uuid) (now : DateTime) (p : CreateTaskPayload)
| CreateConsensusTask (commits : bool) (cap : N) (balance : option N) (id : Uuid) (now created : DateTime)
    (p : CreateConsensusTaskPayload)
| CreateTaskEscrow (commits : bool) (id : Uuid) (now created : DateTime) (p : CreateTaskPayload)
| CreateConsensusTaskEscrow (commits : bool) (cap : N) (id : Uuid) (now created : DateTime)
    (p : CreateConsensusTaskPayload)
| CreateDisputableTaskEscrow (commits : bool) (id : Uuid) (now created : DateTime) (p : EscrowDisputableTaskPayload)
| CreateExchangeDeposit (commits : bool) (id : Uuid) (now created : DateTime)
| ConfirmTaskEscrow (commits : bool) (balance : PublicKey -> option N) (task_id : Uuid) (now created : DateTime)
    (url_id escrow_id : Uuid)
| ConfirmDisputeEscrow (commits : bool) (balance : PublicKey -> option N) (refund : DisburseEnv) (now : DateTime)
    (url_id task_id escrow_id : Uuid)
| ConfirmExchangeDeposit (commits : bool) (balance : PublicKey -> option N) (sweep : DisburseEnv) (now : DateTime)
    (url_id escrow_id : Uuid)
| ClaimTask (commits : bool) (now : DateTime) (url_id task_id : Uuid)
| CloseTask (commits : bool) (refund : DisburseEnv) (now : DateTime) (url_id task_id : Uuid)
| PickAnswer (commits : bool) (pay : nat -> SubmitEnv) (now : DateTime) (url_id task_id : Uuid)
    (answerer : option PublicKey)
| CancelTask (commits : bool) (refund : DisburseEnv) (url_id task_id : Uuid)
| SubmitTask (commits : bool) (pay : nat -> SubmitEnv) (refund : DisburseEnv) (now : DateTime)
    (hash : string -> Hash) (url_id task_id : Uuid) (output : string)
| ResolveDispute (commits : bool) (pay : nat -> SubmitEnv) (bond : DisburseEnv) (url_id task_id : Uuid)
    (result : DisputeResolution)
| Withdraw (env : WithdrawEnv) (custody_key : PrivateKey) (debit : N).

Section requests.
Context `{Primitives, HubKeys, TagForm}.

Definition ignore {A} (m : desk A) : desk unit := _ ← m; mret tt.
(** The route's handler, for the key that signed. *)
Definition serve (pk : PublicKey) (r : Request) : desk unit :=
  match r with
  | CreateTask c b id now p => ignore (handle_create_task c b id now pk p)
  | CreateConsensusTask c cap b id now created p => ignore (handle_create_consensus_task c cap b id now created pk p)
  | CreateTaskEscrow c id now created p => ignore (handle_create_task_escrow c id now created pk p)
  | CreateConsensusTaskEscrow c cap id now created p =>
      ignore (handle_create_consensus_task_escrow c cap id now created pk p)
  | CreateDisputableTaskEscrow c id now created p => ignore (handle_create_disputable_task_escrow c id now created pk p)
  | CreateExchangeDeposit c id now created => ignore (handle_create_exchange_deposit c id now created pk)
  | ConfirmTaskEscrow c b id now created url e => ignore (handle_confirm_task_escrow c b id now created pk url e)
  | ConfirmDisputeEscrow c b refund now url id e => ignore (handle_confirm_dispute_escrow c b refund now pk url id e)
  | ConfirmExchangeDeposit c b sweep now url e => ignore (handle_confirm_exchange_deposit c b sweep now pk url e)
  | ClaimTask c now url id => ignore (handle_claim_task c now pk url id)
  | CloseTask c refund now url id => ignore (handle_close_task c refund now pk url id)
  | PickAnswer c pay now url id a => ignore (handle_pick_answer c pay now pk url id a)
  | CancelTask c refund url id => ignore (handle_cancel_task c refund pk url id)
  | SubmitTask c pay refund now hash url id out => ignore (handle_submit_task c pay refund now hash pk url id out)
  | ResolveDispute c pay bond url id res => ignore (handle_resolve_dispute c pay bond pk url id res)
  | Withdraw env key debit => ignore (handle_withdraw env key pk debit)
  end.






(** The operation on the live board and on disk, or nothing. *)
Definition atomic (commits : bool) (h : Hub) (id : Uuid) (f : TaskBoard -> outcome BoardError TaskBoard) : Prop :=
  match f (live h) with
  | Ok l => exists t, l = put_task (live h) id t /\
      stage_task commits id f h =
        if commits then (with_boards h l (put_task (disk h) id t), Ok t) else (h, Err ApiInternal)
  | Err e => stage_task commits id f h = (h, Err (api_error e))
  | Panic => stage_task commits id f h = (h, Panic)
  end.
Lemma local_atomic commits h id f :
  board_wf (live h) -> local_to id f -> (forall l l', f l = Ok l' -> board_step l l') -> atomic commits h id f.
Proof.
  intros Hwf Hl Hs. pose proof (stage_task_spec commits id f h Hl Hwf
    (fun l l' Hw He => proj1 (board_step_keeps _ _ (Hs _ _ He) Hw))) as Hsp.
  unfold atomic. destruct (f (live h)); [|done..]. destruct Hsp as (t & ? & _ & ?). eauto.
Qed.

(** C31: Closing a contest, picking an answer and cancelling, each run on a staged copy of
    one task, are the board's own operation on the live board and on disk together
    when the write commits, and change nothing when it fails or the operation is
    refused. *)
Theorem staged_requests_are_atomic commits h :
  board_wf (live h) ->
  (forall id pk now, atomic commits h id (fun b => close_contest b id pk now)) /\
  (forall id pk who now, atomic commits h id (fun b => pick_answer b id pk who now)) /\
  (forall id, atomic commits h id (fun b => cancel_task b id)).
Proof.
  intros Hwf. split_and!; intros; apply local_atomic; eauto using close_local, pick_local, cancel_local, bs_close_contest, bs_pick, bs_cancel.
Qed.

(** ** Confirmation of an escrow *)
Lemma confirm_task_escrow_eq commits balance task_id now created pk e h :
  handle_confirm_task_escrow commits balance task_id now created pk e e h =
  match tb_deposits (live h) !! e with
  | None => (h, Err ApiNotFound)
  | Some d =>
      if bool_decide (depositor d = pk) then
        match balance (deposit_pubkey d) with
        | None => (h, Err ApiInternal)
        | Some amount =>
            match confirm_escrow (live h) e task_id amount now created with
            | Ok (l, t) =>
                match tb_deposits l !! e with
                | Some d' => if commits then (with_boards h l (save_task_and_deposit t d' (disk h)), Ok t)
                             else (with_live h l, Err ApiInternal)
                | None => (h, Panic)
                end
            | Err e => (h, Err (api_error e))
            | Panic => (h, Panic)
            end
        end
      else (h, Err ApiForbidden)
  end.
Proof.
  unfold handle_confirm_task_escrow, mbind, desk_bind, look, answer, own_deposit, operate, write, guard_ok. cbn. rewrite N.eqb_refl.
  destruct (tb_deposits (live h) !! e) as [d|]; [cbn|done]. case_bool_decide; [cbn|done].
  destruct (balance (deposit_pubkey d)) as [amount|]; [cbn|done].
  destruct (confirm_escrow (live h) e task_id amount now created) as [[l t]| |]; [cbn|done..].
  destruct (tb_deposits l !! e); [cbn|done]. by destruct commits.
Qed.

(** A deposit that is consumed is confirmed by nobody. *)
Lemma consumed_refuses commits balance task_id now created pk e d h h' t :
  tb_deposits (live h) !! e = Some d -> pd_status d <> Reserved ->
  handle_confirm_task_escrow commits balance task_id now created pk e e h = (h', Ok t) -> False.
Proof.
  intros Hd Hs. rewrite confirm_task_escrow_eq, Hd. repeat case_match; try done.
  match goal with F : confirm_escrow _ _ _ ?x ?n ?c = Ok (_, ?u) |- _ =>
    pose proof (confirm_escrow_shape (live h) e task_id x n c) as Hsh; rewrite F in Hsh end.
  destruct Hsh as (d2 & ? & Hd2 & ? & _). congruence.
Qed.

(** A confirmation of an escrow that is acknowledged leaves its task and the consumed
    deposit live and on disk, and no later confirmation of that escrow, before or
    after a restart, succeeds. *)
Theorem confirmed_escrow_is_spent commits balance task_id now created pk e h h' t :
  map_Forall (fun id d => pd_id d = id) (tb_deposits (live h)) ->
  handle_confirm_task_escrow commits balance task_id now created pk e e h = (h', Ok t) ->
  escrow_id t = Some e /\
  (forall b, b = live h' \/ b = disk h' ->
     tb_tasks b !! task_id = Some t /\ exists d, tb_deposits b !! e = Some d /\ pd_status d = Consumed) /\
  forall h2, h2 = h' \/ h2 = rebooted h' (outbox h') ->
    forall commits' balance' id' now' created' pk' h3 t',
      handle_confirm_task_escrow commits' balance' id' now' created' pk' e e h2 <> (h3, Ok t').
Proof.
  intros Hkeys. rewrite confirm_task_escrow_eq. intros E.
  destruct (tb_deposits (live h) !! e) as [d0|] eqn:Hd0; [|done]. destruct (bool_decide _); [|done].
  destruct (balance _) as [amount|]; [|done]. pose proof (confirm_escrow_shape (live h) e task_id amount now created) as Hsh.
  destruct (confirm_escrow (live h) e task_id amount now created) as [[l u]| |]; [|done..].
  destruct Hsh as (d & t0 & Hd & _ & _ & _ & _ & Ed & Et & Hwf & He & _). rewrite Ed, lookup_insert_eq in E.
  destruct commits; [|done]. injection E as <- <-.
  assert (Hb : forall b, b = l \/ b = save_task_and_deposit u (set_deposit_status Consumed d) (disk h) -> 
     tb_tasks b !! task_id = Some u /\ exists d, tb_deposits b !! e = Some d /\ pd_status d = Consumed).
  { intros b [->| ->]; [rewrite Et, Ed, !lookup_insert_eq; eauto|]. cbn. rewrite (wf_id _ _ Hwf), (Hkeys e d Hd), !lookup_insert_eq. eauto. }
  split; [done|]. split; [exact Hb|]. intros h2 Hh2 c' b' id' now' cr' pk' h3 t' E'.
  assert (Hc : exists d, tb_deposits (live h2) !! e = Some d /\ pd_status d = Consumed).
  { destruct Hh2 as [->| ->]; apply Hb; [by left|by right]. }
  destruct Hc as (dc & Hdc & Hs). eapply consumed_refuses; [exact Hdc|by rewrite Hs|exact E'].
Qed.
(** *** A confirmation that does not reach the disk *)
Lemma settings_not_Err tb id m c e : apply_settings tb id m c <> Err e.
Proof.
  unfold apply_settings. destruct (0 <? m); [destruct (set_min_reputation tb id m) as [tb1| |]|];
    cbn; try done; case_decide; try done; by destruct (set_capabilities _ _ _).
Qed.

(** Whether an escrow can be confirmed depends on its deposit, the amount and
    the time, and on nothing else of the board. *)
Lemma confirm_escrow_again tb tb' e d id id' amount now created now' created' r :
  tb_deposits tb !! e = Some d -> confirm_escrow tb e id amount now created = Ok r ->
  tb_deposits tb' !! e = Some d -> (now' <= expires_at d)%Z ->
  exists l t, confirm_escrow tb' e id' amount now' created' = Ok (l, t).
Proof.
  intros Hd Hc Hd' Hn. pose proof (confirm_escrow_shape tb e id amount now created) as Hs. rewrite Hc in Hs. destruct r as [l0 u0].
  destruct Hs as (d1 & t0 & Hd1 & Hst & Ha & _ & Hi & _). replace d1 with d in * by congruence. clear d1 Hd1 Hc.
  pose proof (confirm_escrow_shape tb' e id' amount now' created') as Hs'.
  destruct (confirm_escrow tb' e id' amount now' created') as [[l u]|err|] eqn:Ec; [eauto|exfalso|done].
  unfold confirm_escrow in Ec. rewrite Hd' in Ec. cbn in Ec. unfold check_deposit in Ec. rewrite bool_decide_eq_true_2 in Ec by done.
  rewrite (proj2 (Z.ltb_ge _ _) Hn), (proj2 (N.ltb_ge _ _) Ha) in Ec. cbn in Ec.
  unfold intended_task in Hi. destruct (purpose d); cbn in Ec; try done.
  all: match type of Ec with context [apply_settings ?b ?i ?m ?c] =>
         pose proof (settings_not_Err b i m c) as Hne; destruct (apply_settings b i m c) as [tb2|e2|]; cbn in Ec; [|by apply (Hne e2)|done] end.
  all: by destruct (tb_tasks tb2 !! id').
Qed.

Lemma claim_task_eq commits now pk id h h' t :
  handle_claim_task commits now pk id id h = (h', Ok t) ->
  exists t0 l, tb_tasks (live h) !! id = Some t0 /\ (escrow_id t, bounty t, t_id t) = (escrow_id t0, bounty t0, t_id t0) /\
    commits = true /\ h' = with_boards h l (restore_task (disk h) t).
Proof.
  unfold handle_claim_task, mbind, desk_bind, operate, write. rewrite N.eqb_refl. cbn. intros E.
  destruct (tb_tasks (live h) !! id) as [t0|] eqn:Ht; [cbn in E|done].
  destruct (if is_consensus t0 then _ else _) as [l| |] eqn:El; [cbn in E|done..].
  destruct (tb_tasks l !! id) as [t1|] eqn:Et; [cbn in E|done]. destruct commits; [|done]. injection E as <- <-.
  exists t0, l. split_and!; [done| |done|done].
  assert (Hg : exists t', tb_tasks l = <[id := t']> (tb_tasks (live h)) /\
    (escrow_id t', bounty t', t_id t') = (escrow_id t0, bounty t0, t_id t0)).
  { destruct (is_consensus t0); unfold join_consensus_task, claim_task in El; rewrite Ht in El; cbn in El; inv_ok; subst l;
      eexists; (split; [reflexivity|]); repeat case_match; done. }
  destruct Hg as (t' & Hl & Hf). rewrite Hl, lookup_insert_eq in Et. by injection Et as <-.
Qed.

(** C38: For any escrow that its depositor may confirm, reserved live and on disk: when
    the write of the confirmation fails the request is refused but the task stays
    live; once anyone claims that task its write puts the task alone on disk; after a
    restart the depositor confirms the same escrow again, at any time before it
    expires, and both tasks, with the same bounty, are live and on disk backed by the
    one escrow, no transaction having been sent. *)
Theorem failed_confirmation_funds_two_tasks h e d balance amount id1 id2 now1 created1 now2 now3 created3 l t0 agent h2 t1 :
  tb_deposits (live h) !! e = Some d -> tb_deposits (disk h) !! e = Some d ->
  balance (deposit_pubkey d) = Some amount -> confirm_escrow (live h) e id1 amount now1 created1 = Ok (l, t0) ->
  handle_claim_task true now2 agent id1 id1 (with_live h l) = (h2, Ok t1) ->
  id2 <> id1 -> (now3 <= expires_at d)%Z ->
  handle_confirm_task_escrow false balance id1 now1 created1 (depositor d) e e h = (with_live h l, Err ApiInternal) /\
  exists h3 t2,
    handle_confirm_task_escrow true balance id2 now3 created3 (depositor d) e e (rebooted h2 (outbox h2)) = (h3, Ok t2) /\
    (forall b, b = live h3 \/ b = disk h3 -> tb_tasks b !! id1 = Some t1 /\ tb_tasks b !! id2 = Some t2) /\
    escrow_id t1 = Some e /\ escrow_id t2 = Some e /\ bounty t1 = bounty t2 /\ outbox h3 = outbox h.
Proof.
  intros Hd Hdd Hbal Hc Hcl Hne Hnow. rewrite confirm_task_escrow_eq, Hd, bool_decide_eq_true_2, Hbal, Hc by done.
  pose proof (confirm_escrow_shape (live h) e id1 amount now1 created1) as Hs1. rewrite Hc in Hs1.
  destruct Hs1 as (d1 & u1 & Hd1 & _ & _ & _ & Hi1 & Ed1 & Et1 & Hwf1 & He1 & Hf1). replace d1 with d in * by congruence.
  rewrite Ed1, lookup_insert_eq. split; [done|].
  destruct (claim_task_eq _ _ _ _ _ _ _ Hcl) as (t0' & l2 & Ht0 & Hf & _ & ->). cbn in Ht0. rewrite Et1, lookup_insert_eq in Ht0.
  injection Ht0 as <-. cbn [live disk outbox with_boards with_live] in *.
  rewrite confirm_task_escrow_eq. cbn [rebooted live disk with_boards with_live restore_task tb_deposits put_task with_tasks].
  rewrite Hdd, bool_decide_eq_true_2, Hbal by done.
  destruct (confirm_escrow_again (live h) (restore_task (disk h) t1) e d id1 id2 amount now1 created1 now3 created3 _ Hd Hc Hdd Hnow) as (l3 & t2 & Hc3).
  rewrite Hc3. pose proof (confirm_escrow_shape (restore_task (disk h) t1) e id2 amount now3 created3) as Hs3. rewrite Hc3 in Hs3.
  destruct Hs3 as (d3 & u3 & Hd3 & _ & _ & _ & Hi3 & Ed3 & Et3 & Hwf3 & He3 & Hf3). cbn in Hd3. replace d3 with d in * by congruence.
  rewrite Ed3, lookup_insert_eq. eexists _, t2. split; [done|].
  assert (Hid : t_id t1 = id1) by (rewrite <-(wf_id _ _ Hwf1); congruence).
  split_and!; [|congruence|done| |done].
  - intros b [->| ->]; cbn.
    + rewrite Et3, lookup_insert_ne, lookup_insert_eq by done. cbn. by rewrite Hid, lookup_insert_eq.
    + rewrite (wf_id _ _ Hwf3), lookup_insert_ne, lookup_insert_eq by done. by rewrite Hid, lookup_insert_eq.
  - assert (bounty t0 = bounty u1 /\ bounty t2 = bounty u3) as [E1 E3] by (split; congruence).
    assert (bounty u1 = bounty u3) by (unfold intended_task in Hi1, Hi3; destruct (purpose d); simplify_eq; done). congruence.
Qed.
End requests.

(** * ToyDesk: requests of a concrete hub

    A request and a pass of the sweep while a payout is in flight; a contest
    closed; and an escrow confirmed twice, once its first confirmation failed to
    reach the disk. *)

From S2P Require Import ToyBoard ToySettle.

Module ToyDesk.
Import Crypto.Toy.

#[export] Instance tags : TagForm := {| normalise s := s |}.

Definition after {A} (r : Hub * outcome ApiError A) : Hub := r.1.
Definition got (r : Hub * outcome ApiError Task) : Task := match r.2 with Ok t => t | _ => new_task 0 0 [] "" 0 (HashMatch 0) end.



(** ** A staged change *)
Lemma staged_requests_are_atomic_witness :
  stage_task false 8 (fun b => cancel_task b 8) desk1 = (desk1, Err ApiConflict).
Proof.
  destruct (staged_requests_are_atomic false desk1 ltac:(apply desk1_ok)) as (_ & _ & H). specialize (H 8).
  unfold atomic in H. vm_compute in H |- *. exact H.
Defined.

(** ** One escrow, two tasks *)
Definition funded0 : Hub := Eval vm_compute in after (serve [3] (CreateTaskEscrow true 50 0 0 (mkCreateTask "sum" 100 (Some 7) 0 ∅)) (mkHub new_board new_board 10 [])).
Definition balance_of (n : N) : PublicKey -> option N := fun _ => Some n.

Lemma confirmed_escrow_is_spent_witness :
  exists h t, handle_confirm_task_escrow true (balance_of 2000) 51 5 5 [3] 50 50 funded0 = (h, Ok t) /\
    forall id h3 t', handle_confirm_task_escrow true (balance_of 2000) id 6 7 [3] 50 50 (rebooted h (outbox h)) <> (h3, Ok t').
Proof.
  eexists _, _. split; [vm_compute; reflexivity|]. intros id h3 t'.
  refine (proj2 (proj2 (confirmed_escrow_is_spent true (balance_of 2000) 51 5 5 [3] 50 funded0 _ _ _ _)) _ _ true (balance_of 2000) id 6%Z 7%Z [3] h3 t');
    [|vm_compute; reflexivity|right; reflexivity].
  apply (bool_decide_unpack _). vm_compute. exact I.
Defined.

Definition funded_deposit : PendingDeposit := Eval vm_compute in
  default (mkDeposit 0 [] [] None 0 FundExchangeAccount Refunded 0 0) (tb_deposits (live funded0) !! 50).
Definition unwritten : TaskBoard * Task := Eval vm_compute in
  match confirm_escrow (live funded0) 50 51 2000 5 5 with Ok r => r | _ => (new_board, task_of new_board 0) end.
Definition claimed_hub : Hub := Eval vm_compute in after (handle_claim_task true 6 [4] 51 51 (with_live funded0 unwritten.1)).

Lemma failed_confirmation_funds_two_tasks_witness :
  exists h3 t1 t2,
    handle_confirm_task_escrow true (balance_of 2000) 52 7 8 [3] 50 50 (rebooted claimed_hub (outbox claimed_hub)) = (h3, Ok t2) /\
    tb_tasks (live h3) !! 51 = Some t1 /\ tb_tasks (live h3) !! 52 = Some t2 /\
    escrow_id t1 = Some 50 /\ escrow_id t2 = Some 50.
Proof.
  destruct (failed_confirmation_funds_two_tasks funded0 50 funded_deposit (balance_of 2000) 2000 51 52 5 5 6 7 8
    unwritten.1 unwritten.2 [4] claimed_hub (task_of (live claimed_hub) 51)) as (_ & h3 & t2 & E & Hb & H1 & H2 & _).
  1-5: vm_compute; reflexivity.
  - discriminate.
  - vm_compute. discriminate.
  - destruct (Hb (live h3) (or_introl eq_refl)) as [Hb1 Hb2]. exists h3, (task_of (live claimed_hub) 51), t2.
    split; [exact E|]. split; [exact Hb1|]. split; [exact Hb2|]. split; [exact H1|exact H2].
Defined.
End ToyDesk.
