(* ===== verification/Reconcile.v ===== *)
(** * Reconcile: the check of a restored board

    Models [hub/src/reconcile.rs]: what the hub looks for in the board it has
    just read back from its store, before it serves anything from it. A
    finding's text is kept as the values it is formatted from. Definitions, and
    what each finding means. *)

From S2P Require Import Prelude Types BoardTypes Exchange Tasks Board Payouts.

(** ** Findings: [Disagreement], [Finding], [Report] *)
Inductive Disagreement : Type :=
| OrphanedConsumedDeposit
| LockedBalanceWithNoOpenOrder
| SubmittedTaskWithNoPayoutAttempt.
#[export] Instance Disagreement_eq_dec : EqDecision Disagreement.
Proof. solve_decision. Defined.

(** [Disagreement::label] *)
Definition label (d : Disagreement) : string :=
  match d with
  | OrphanedConsumedDeposit => "orphaned_consumed_deposit"
  | LockedBalanceWithNoOpenOrder => "locked_balance_with_no_open_order"
  | SubmittedTaskWithNoPayoutAttempt => "submitted_task_with_no_payout_attempt"
  end.

(** The arguments of the [format!] of a finding. *)
Inductive Detail : Type :=
| DepositDetail (id : Uuid) (purpose : string) (required : N) (who : PublicKey)
| AccountDetail (who : PublicKey) (locked_base locked_compute : N)
| TaskDetail (id : Uuid) (bounty : N).

Record Finding := mkFinding { f_kind : Disagreement; detail : Detail }.

(** [Report::count] *)
Definition count (findings : list Finding) (k : Disagreement) : nat :=
  length (base.filter (fun f => f_kind f = k) findings).

(** [purpose_label] *)
Definition purpose_label (p : EscrowPurpose) : string :=
  match p with
  | FundHashMatchTask _ => "hash-match task"
  | FundConsensusTask _ => "consensus task"
  | FundDisputableTask _ => "disputable task"
  | DisputeBond _ _ => "dispute bond"
  | FundExchangeAccount => "exchange deposit"
  end.

(** ** The checks *)

(** The bond a task's dispute names. *)
Definition bond_of (t : Task) : option Uuid :=
  match kind t with Disputable d => d_bond_escrow_id <$> dispute d | _ => None end.

(** The [let claimed = match &deposit.purpose]. *)
Definition claimed (tb : TaskBoard) (d : PendingDeposit) : bool :=
  match purpose d with
  | FundHashMatchTask _ | FundConsensusTask _ | FundDisputableTask _ =>
      existsb (fun t => bool_decide (escrow_id t = Some (pd_id d))) (btree_values (tb_tasks tb))
  | DisputeBond task_id _ =>
      match tb_tasks tb !! task_id with
      | Some t => bool_decide (bond_of t = Some (pd_id d))
      | None => false
      end
  | FundExchangeAccount =>
      existsb (fun e : PublicKey * ExchangeAccount => bool_decide (e.1 = depositor d))
        (btree_iter (tb_accounts tb))
  end.

(** [check_orphaned_consumed_deposits] *)
Definition check_orphaned_consumed_deposits (tb : TaskBoard) (findings : list Finding) : list Finding :=
  foldl (fun findings d =>
    if negb (bool_decide (pd_status d = Consumed)) then findings
    else if claimed tb d then findings
    else findings ++ [mkFinding OrphanedConsumedDeposit
           (DepositDetail (pd_id d) (purpose_label (purpose d)) (required_amount d) (depositor d))])
    findings (btree_values (tb_deposits tb)).

(** [check_locked_balances_without_open_orders] *)
Definition has_open_order (tb : TaskBoard) (pk : PublicKey) : bool :=
  existsb (fun o => bool_decide (o_owner o = pk) && bool_decide (o_status o = OrderOpen))
    (btree_values (tb_orders tb)).
Definition check_locked_balances_without_open_orders (tb : TaskBoard) (findings : list Finding)
    : list Finding :=
  foldl (fun findings (e : PublicKey * ExchangeAccount) =>
    let '(pk, a) := e in
    if (locked_base a =? 0) && (locked_compute a =? 0) then findings
    else if has_open_order tb pk then findings
    else findings ++ [mkFinding LockedBalanceWithNoOpenOrder
           (AccountDetail pk (locked_base a) (locked_compute a))])
    findings (btree_iter (tb_accounts tb)).

(** [check_submitted_tasks_without_payout_attempts] *)
Definition check_submitted_tasks_without_payout_attempts (tb : TaskBoard) (findings : list Finding)
    : list Finding :=
  let attempts := outstanding_payout_attempts tb in
  foldl (fun findings t =>
    if negb (bool_decide (status t = Submitted)) then findings
    else if existsb (fun a => pa_task_id a =? t_id t) attempts then findings
    else findings ++ [mkFinding SubmittedTaskWithNoPayoutAttempt (TaskDetail (t_id t) (bounty t))])
    findings (btree_values (tb_tasks tb)).

(** [reconcile] *)
Definition reconcile (tb : TaskBoard) : list Finding :=
  let findings := check_orphaned_consumed_deposits tb [] in
  let findings := check_locked_balances_without_open_orders tb findings in
  check_submitted_tasks_without_payout_attempts tb findings.

(** ** What a finding means *)

(** A deposit that funded something no record refers to. *)
Definition orphaned (tb : TaskBoard) (d : PendingDeposit) : Prop :=
  pd_status d = Consumed /\
  match purpose d with
  | DisputeBond task_id _ => ~ exists t, tb_tasks tb !! task_id = Some t /\ bond_of t = Some (pd_id d)
  | FundExchangeAccount => tb_accounts tb !! depositor d = None
  | _ => forall i t, tb_tasks tb !! i = Some t -> escrow_id t <> Some (pd_id d)
  end.
Definition unjustified (tb : TaskBoard) (pk : PublicKey) (a : ExchangeAccount) : Prop :=
  (locked_base a <> 0 \/ locked_compute a <> 0) /\
  forall i o, tb_orders tb !! i = Some o -> o_owner o = pk -> o_status o <> OrderOpen.
Definition forgotten (tb : TaskBoard) (t : Task) : Prop :=
  status t = Submitted /\ forall k a, tb_attempts tb !! k = Some a -> pa_task_id a <> t_id t.

Definition findings_of (tb : TaskBoard) (f : Finding) : Prop :=
  match f_kind f with
  | OrphanedConsumedDeposit => exists e d, tb_deposits tb !! e = Some d /\ orphaned tb d /\
      detail f = DepositDetail (pd_id d) (purpose_label (purpose d)) (required_amount d) (depositor d)
  | LockedBalanceWithNoOpenOrder => exists pk a, tb_accounts tb !! pk = Some a /\ unjustified tb pk a /\
      detail f = AccountDetail pk (locked_base a) (locked_compute a)
  | SubmittedTaskWithNoPayoutAttempt => exists i t, tb_tasks tb !! i = Some t /\ forgotten tb t /\
      detail f = TaskDetail (t_id t) (bounty t)
  end.

Section report.
Implicit Types (tb : TaskBoard) (d : PendingDeposit).

(** A loop that appends a finding for some of the records. *)
Lemma elem_of_report {A} (skip : A -> bool) (mk : A -> Finding) (step : list Finding -> A -> list Finding) f :
  (forall acc x, step acc x = if skip x then acc else acc ++ [mk x]) ->
  forall l acc, f ∈ foldl step acc l <-> f ∈ acc \/ exists x, x ∈ l /\ skip x = false /\ f = mk x.
Proof.
  intros Hstep l. induction l as [|x l IH]; intros acc; cbn [foldl].
  - split; [by left|]. intros [?|(x & Hx & _)]; [done|by apply not_elem_of_nil in Hx].
  - rewrite IH, Hstep. setoid_rewrite elem_of_cons. destruct (skip x) eqn:E.
    + split; [naive_solver|]. intros [?|(y & [->|Hy] & Hs & ->)]; [by left|congruence|eauto].
    + rewrite elem_of_app, list_elem_of_singleton. naive_solver.
Qed.

Lemma claimed_spec tb d : pd_status d = Consumed -> claimed tb d = false <-> orphaned tb d.
Proof.
  intros Hs. unfold orphaned, claimed.
  assert (Htask : existsb (fun t => bool_decide (escrow_id t = Some (pd_id d))) (btree_values (tb_tasks tb)) = false
            <-> forall i t, tb_tasks tb !! i = Some t -> escrow_id t <> Some (pd_id d)).
  { rewrite <-not_true_iff_false, existsb_elem. split.
    - intros Hn i t Ht He. apply Hn. exists t. rewrite elem_of_btree_values, bool_decide_eq_true. eauto.
    - intros Hn (t & Ht & He). apply elem_of_btree_values in Ht as [i Hi]. apply bool_decide_eq_true in He.
      by eapply Hn. }
  destruct (purpose d) as [i|i|i|task_id reason|]; try (by rewrite Htask; naive_solver).
  - destruct (tb_tasks tb !! task_id) as [t|]; [|naive_solver]. rewrite bool_decide_eq_false. naive_solver.
  - rewrite <-not_true_iff_false, existsb_elem, eq_None_not_Some. split.
    + intros Hn. split; [done|]. intros [a Ha]. apply Hn. exists (depositor d, a).
      rewrite elem_of_btree_iter, bool_decide_eq_true. done.
    + intros [_ Hn] ([pk a] & Ha & Hp). apply elem_of_btree_iter in Ha. apply bool_decide_eq_true in Hp.
      cbn in *. subst pk. apply Hn. eauto.
Qed.

Lemma has_open_order_spec tb pk :
  has_open_order tb pk = false <->
  forall i o, tb_orders tb !! i = Some o -> o_owner o = pk -> o_status o <> OrderOpen.
Proof.
  unfold has_open_order. rewrite <-not_true_iff_false, existsb_elem. split.
  - intros Hn i o Ho Hw Hs. apply Hn. exists o. rewrite elem_of_btree_values, andb_true_iff, !bool_decide_eq_true.
    eauto.
  - intros Hn (o & Ho & Hb). apply elem_of_btree_values in Ho as [i Hi].
    apply andb_true_iff in Hb as [Hw Hs]. apply bool_decide_eq_true in Hw, Hs. by eapply Hn.
Qed.

Lemma elem_of_outstanding tb a :
  a ∈ outstanding_payout_attempts tb <-> exists k, tb_attempts tb !! k = Some a.
Proof. unfold outstanding_payout_attempts. rewrite sort_by_perm. apply elem_of_btree_values. Qed.

Lemma tracked_spec tb t :
  existsb (fun a => pa_task_id a =? t_id t) (outstanding_payout_attempts tb) = false <->
  forall k a, tb_attempts tb !! k = Some a -> pa_task_id a <> t_id t.
Proof.
  rewrite <-not_true_iff_false, existsb_elem. setoid_rewrite N.eqb_eq. setoid_rewrite elem_of_outstanding.
  naive_solver.
Qed.

(** The report holds a finding exactly for the records that deserve one. *)
Lemma elem_of_reconcile tb f : f ∈ reconcile tb <-> findings_of tb f.
Proof.
  unfold reconcile, check_submitted_tasks_without_payout_attempts, check_locked_balances_without_open_orders,
    check_orphaned_consumed_deposits.
  rewrite (elem_of_report (fun t => negb (bool_decide (status t = Submitted)) ||
      existsb (fun a => pa_task_id a =? t_id t) (outstanding_payout_attempts tb))
    (fun t => mkFinding SubmittedTaskWithNoPayoutAttempt (TaskDetail (t_id t) (bounty t))))
    by (intros; by destruct (bool_decide _), (existsb _ _)).
  rewrite (elem_of_report (fun e : PublicKey * ExchangeAccount =>
      ((locked_base e.2 =? 0) && (locked_compute e.2 =? 0)) || has_open_order tb e.1)
    (fun e => mkFinding LockedBalanceWithNoOpenOrder (AccountDetail e.1 (locked_base e.2) (locked_compute e.2))))
    by (intros acc [pk a]; cbn; by destruct (_ && _), (has_open_order _ _)).
  rewrite (elem_of_report (fun d => negb (bool_decide (pd_status d = Consumed)) || claimed tb d)
    (fun d => mkFinding OrphanedConsumedDeposit
       (DepositDetail (pd_id d) (purpose_label (purpose d)) (required_amount d) (depositor d))))
    by (intros; by destruct (bool_decide _), (claimed _ _)).
  setoid_rewrite orb_false_iff. setoid_rewrite negb_false_iff. setoid_rewrite bool_decide_eq_true.
  setoid_rewrite elem_of_btree_values. split.
  - intros [[[Hf|(d & [e Hd] & [Hs Hc] & ->)]|([pk a] & Ha & [Hz Ho] & ->)]|(t & [i Ht] & [Hs Hk] & ->)]; cbn.
    + by apply not_elem_of_nil in Hf.
    + exists e, d. rewrite <-claimed_spec; done.
    + apply elem_of_btree_iter in Ha. exists pk, a. split; [done|]. split; [|done].
      split; [|by apply has_open_order_spec]. cbn in Hz. apply andb_false_iff in Hz as [Hz|Hz];
        apply N.eqb_neq in Hz; auto.
    + exists i, t. split; [done|]. split; [|done]. split; [done|by apply tracked_spec].
  - destruct f as [k dt]. unfold findings_of. cbn. destruct k.
    + intros (e & d & Hd & Ho & ->). left. left. right. exists d. split; [eauto|]. pose proof Ho as [Hs _].
      split; [|done]. split; [done|by apply claimed_spec].
    + intros (pk & a & Ha & [Hz Ho] & ->). left. right. exists (pk, a). rewrite elem_of_btree_iter. cbn.
      split; [done|]. split; [|done]. split; [|by apply has_open_order_spec].
      apply andb_false_iff. rewrite !N.eqb_neq. tauto.
    + intros (i & t & Ht & [Hs Hk] & ->). right. exists t. split; [eauto|]. split; [|done].
      split; [done|by apply tracked_spec].
Qed.
End report.
