(* ===== verification/ReconcileInv.v ===== *)
(** * ReconcileInv: what keeps a board in agreement with itself

    [agreed] is the state in which every consumed deposit is referred to, every
    lock has its order and every submitted task its attempts. The lemmas of this
    file show what each operation of the board does to the records those three
    facts are about. *)

From S2P Require Import Prelude Types BoardTypes Exchange Tasks Board Payouts BoardInv BoardStep PayoutStep BoardTheorems ExchangeInv Reconcile.

(** ** Agreement *)
Definition backed (tb : TaskBoard) (d : PendingDeposit) : Prop :=
  match purpose d with
  | DisputeBond task_id _ => exists t, tb_tasks tb !! task_id = Some t /\ bond_of t = Some (pd_id d)
  | FundExchangeAccount => is_Some (tb_accounts tb !! depositor d)
  | _ => exists i t, tb_tasks tb !! i = Some t /\ escrow_id t = Some (pd_id d)
  end.

Definition deposits_agree (tb : TaskBoard) : Prop :=
  forall e d, tb_deposits tb !! e = Some d -> pd_id d = e /\ (pd_status d = Consumed -> backed tb d).

(** Every leg a submitted task still owes is being waited for. *)
Definition tracked (tb : TaskBoard) : Prop :=
  forall i t r x, tb_tasks tb !! i = Some t -> status t = Submitted -> (r, x) ∈ owed_payouts t ->
    is_Some (tb_attempts tb !! (i, r)).
(** An attempt is filed under its leg. *)
Definition attempts_filed (tb : TaskBoard) : Prop :=
  map_Forall (fun k a => (pa_task_id a, pa_recipient a) = k) (tb_attempts tb).

Record agreed (tb : TaskBoard) : Prop := {
  ag_wf : board_wf tb;
  ag_deposits : deposits_agree tb;
  ag_book : book_ok tb;
  ag_filed : attempts_filed tb;
  ag_tracked : tracked tb
}.

(** ** A board in agreement has nothing to report *)
Lemma backed_not_orphaned tb d : backed tb d -> ~ orphaned tb d.
Proof.
  unfold backed, orphaned. destruct (purpose d); try (intros (i' & t & Ht & He) [_ Hn]; by eapply Hn).
  - by intros Hb [_ Hn].
  - intros [a Ha] [_ Hn]. congruence.
Qed.

Lemma need_positive need (orders : gmap Uuid Order) pk :
  map_sum (need_of need pk) orders <> 0 ->
  exists i o, orders !! i = Some o /\ o_owner o = pk /\ need o <> 0.
Proof.
  induction orders as [|i o m Hi IH] using map_ind; [by rewrite map_sum_empty|].
  rewrite map_sum_insert by done. intros Hn. destruct (decide (need_of need pk o = 0)) as [E|E].
  - destruct IH as (j & o' & Hj & Hrest); [lia|]. exists j, o'. rewrite lookup_insert_ne by congruence. done.
  - exists i, o. rewrite lookup_insert_eq. unfold need_of in E. by case_decide.
Qed.

Lemma lock_has_order tb pk a :
  book_ok tb -> tb_accounts tb !! pk = Some a -> ~ unjustified tb pk a.
Proof.
  intros Hb Ha [Hl Hn].
  assert (Hacct : acct (tb_accounts tb) pk = a) by (unfold acct; by rewrite Ha).
  pose proof (lo_base _ _ (bo_ledger _ Hb) pk) as B. pose proof (lo_compute _ _ (bo_ledger _ Hb) pk) as C.
  rewrite Hacct in B, C. rewrite B, C in Hl.
  assert (exists need, (need = base_need \/ need = compute_need) /\ map_sum (need_of need pk) (tb_orders tb) <> 0)
    as (need & Hneed & Hs) by (destruct Hl; eauto).
  destruct (need_positive _ _ _ Hs) as (i & o & Ho & Hw & Hz). eapply Hn; [exact Ho|done|].
  destruct Hneed as [-> | ->]; unfold base_need, compute_need in Hz; by destruct (o_side o), (o_status o).
Qed.

Lemma tracked_not_forgotten tb i t :
  board_wf tb -> attempts_filed tb -> tracked tb -> tb_tasks tb !! i = Some t -> ~ forgotten tb t.
Proof.
  intros Hwf Hf Htr Ht [Hs Hn]. pose proof (Hwf i t Ht) as Hw.
  assert (Ho : owed_payouts t <> []) by (eapply wf_owes_something; [done|by rewrite Hs]).
  destruct (owed_payouts t) as [|[r x] l] eqn:Eo; [done|].
  destruct (Htr i t r x Ht Hs) as [a Ha]; [rewrite Eo; by left|].
  pose proof (Hf _ _ Ha) as Hk. cbn in Hk. injection Hk as Hk _. eapply Hn; [exact Ha|]. by rewrite (wf_id _ _ Hw).
Qed.

Lemma submitted_silent tb l :
  board_wf tb -> attempts_filed tb -> tracked tb -> check_submitted_tasks_without_payout_attempts tb l = l.
Proof.
  intros Hwf Hf Htr. unfold check_submitted_tasks_without_payout_attempts.
  assert (Hall : Forall (fun t => exists i, tb_tasks tb !! i = Some t) (btree_values (tb_tasks tb))).
  { apply Forall_forall. intros t. by rewrite elem_of_btree_values. }
  induction Hall as [|t ts [i Ht] _ IH]; [done|]. cbn.
  destruct (bool_decide_reflect (status t = Submitted)) as [Hs|Hs]; cbn; [|exact IH].
  destruct (existsb _ (outstanding_payout_attempts tb)) eqn:E; [exact IH|].
  exfalso. apply (tracked_not_forgotten tb i t Hwf Hf Htr Ht). split; [done|exact (proj1 (tracked_spec tb t) E)].
Qed.

Lemma agreed_reconciles tb : agreed tb -> reconcile tb = [].
Proof.
  intros [Hwf Hd Hb Hf Htr]. destruct (reconcile tb) as [|f l] eqn:E; [done|]. exfalso.
  assert (Hin : f ∈ reconcile tb) by (rewrite E; by left). apply elem_of_reconcile in Hin.
  destruct f as [[] dt]; unfold findings_of in Hin; cbn in Hin.
  - destruct Hin as (e & d & Hl & Ho & _). apply Hd in Hl as [_ Hbk].
    eapply backed_not_orphaned; [apply Hbk, Ho|exact Ho].
  - destruct Hin as (pk & a & Ha & Hu & _). by eapply lock_has_order.
  - destruct Hin as (i & t & Ht & Hfg & _). by eapply tracked_not_forgotten.
Qed.

(** ** What an operation of the board leaves alone *)

(** The change of one task. *)
Definition tame (t t' : Task) : Prop :=
  (status t' = Submitted -> status t = Submitted) /\ forall b, bond_of t = Some b -> bond_of t' = Some b.

Record orderly (tb tb' : TaskBoard) : Prop := {
  or_accounts : tb_accounts tb' = tb_accounts tb;
  or_orders : tb_orders tb' = tb_orders tb;
  or_submits : forall i t', tb_tasks tb' !! i = Some t' -> status t' = Submitted ->
    exists t, tb_tasks tb !! i = Some t /\ status t = Submitted;
  or_bonds : forall i t b, tb_tasks tb !! i = Some t -> bond_of t = Some b ->
    exists t', tb_tasks tb' !! i = Some t' /\ bond_of t' = Some b;
  or_deposits : forall e d, tb_deposits tb' !! e = Some d -> pd_status d = Consumed -> tb_deposits tb !! e = Some d;
  or_ids : map_Forall (fun e d => pd_id d = e) (tb_deposits tb) -> map_Forall (fun e d => pd_id d = e) (tb_deposits tb');
  or_attempts : tb_attempts tb' ⊆ tb_attempts tb
}.

Lemma tame_refl t : tame t t.
Proof. by split. Qed.
Lemma orderly_refl tb : orderly tb tb.
Proof. split; eauto. Qed.
Lemma orderly_trans tb1 tb2 tb3 : orderly tb1 tb2 -> orderly tb2 tb3 -> orderly tb1 tb3.
Proof.
  intros [A1 O1 S1 B1 D1 I1 F1] [A2 O2 S2 B2 D2 I2 F2]. split; [congruence..| | |eauto|eauto|by etrans].
  - intros i t' Ht Hs. destruct (S2 i t' Ht Hs) as (t & Ht2 & Hs2). eauto.
  - intros i t b Ht Hb. destruct (B1 i t b Ht Hb) as (t2 & Ht2 & Hb2). eauto.
Qed.

(** Only other tables change. *)
Lemma orderly_aside tb tb' :
  tb_accounts tb' = tb_accounts tb -> tb_orders tb' = tb_orders tb -> tb_tasks tb' = tb_tasks tb ->
  tb_deposits tb' = tb_deposits tb -> tb_attempts tb' ⊆ tb_attempts tb -> orderly tb tb'.
Proof. intros Ea Eo Et Ed Ea'. split; rewrite ?Et, ?Ed; eauto. Qed.
Lemma orderly_put tb tb1 id t t' :
  orderly tb tb1 -> tb_tasks tb1 !! id = Some t -> tame t t' -> orderly tb (put_task tb1 id t').
Proof.
  intros Ho Ht [Hs Hb]. eapply orderly_trans; [exact Ho|]. split; cbn; try done.
  - intros i u Hu Hsu. destruct (decide (i = id)) as [->|Hne].
    + rewrite lookup_insert_eq in Hu. injection Hu as <-. eauto.
    + rewrite lookup_insert_ne in Hu by done. eauto.
  - intros i u b Hu Hbu. destruct (decide (i = id)) as [->|Hne].
    + rewrite lookup_insert_eq. replace u with t in Hbu by congruence. eauto.
    + rewrite lookup_insert_ne by done. eauto.
Qed.
Lemma orderly_new tb id t :
  tb_tasks tb !! id = None -> status t <> Submitted -> orderly tb (put_task tb id t).
Proof.
  intros Hn Hs. split; cbn; try done.
  - intros i u Hu Hsu. destruct (decide (i = id)) as [->|Hne].
    + rewrite lookup_insert_eq in Hu. congruence.
    + rewrite lookup_insert_ne in Hu by done. eauto.
  - intros i u b Hu Hbu. rewrite lookup_insert_ne by congruence. eauto.
Qed.
Lemma orderly_sweep f tb : (forall t t', f t = Some t' -> tame t t') -> orderly tb (sweep f tb).1.
Proof.
  intros Hf. assert (Ht : forall t, tame t (default t (f t))).
  { intros t. destruct (f t) eqn:E; [by apply Hf|apply tame_refl]. }
  split; cbn; try done.
  - intros i t'. rewrite lookup_fmap. intros (t & Hl & ->)%fmap_Some Hs. exists t. split; [done|exact (proj1 (Ht t) Hs)].
  - intros i t b Hl Hb. rewrite lookup_fmap, Hl. cbn. eexists. split; [done|exact (proj2 (Ht t) b Hb)].
Qed.
Lemma orderly_failure tb tb1 pk tb' : add_failure tb1 pk = Ok tb' -> orderly tb tb1 -> orderly tb tb'.
Proof. unfold add_failure. intros Ha. inv_ok. subst. intros Hc. eapply orderly_trans; [exact Hc|by apply orderly_aside]. Qed.
Lemma orderly_earning tb tb1 pk amount b tb' : add_earning tb1 pk amount b = Ok tb' -> orderly tb tb1 -> orderly tb tb'.
Proof. unfold add_earning. intros Ha. inv_ok. subst. intros Hc. eapply orderly_trans; [exact Hc|by apply orderly_aside]. Qed.
Lemma orderly_deposit tb e d :
  pd_status d <> Consumed ->
  (map_Forall (fun e d => pd_id d = e) (tb_deposits tb) -> pd_id d = e) ->
  orderly tb (with_deposits tb (<[e := d]> (tb_deposits tb))).
Proof.
  intros Hs Hi. split; cbn; eauto.
  - intros e' d' Hl Hc. destruct (decide (e' = e)) as [->|Hne].
    + rewrite lookup_insert_eq in Hl. congruence.
    + by rewrite lookup_insert_ne in Hl.
  - intros Hids. apply map_Forall_insert_2; auto.
Qed.

(** Changes that keep the kind of a task, or only the dispute's bond. *)
Lemma tame_kind t t' : kind t' = kind t -> (status t' = Submitted -> status t = Submitted) -> tame t t'.
Proof. intros Hk Hs. split; [done|]. unfold bond_of. by rewrite Hk. Qed.
Lemma tame_consensus t t' c : kind t = Consensus c -> (status t' = Submitted -> status t = Submitted) -> tame t t'.
Proof. intros Hk Hs. split; [done|]. unfold bond_of. by rewrite Hk. Qed.
Lemma tame_disputable t t' d d' :
  kind t = Disputable d -> kind t' = Disputable d' -> dispute d' = dispute d ->
  (status t' = Submitted -> status t = Submitted) -> tame t t'.
Proof. intros Hk Hk' Hd Hs. split; [done|]. unfold bond_of. by rewrite Hk, Hk', Hd. Qed.

Create HintDb orderly.
#[export] Hint Resolve orderly_refl orderly_failure orderly_earning orderly_put orderly_new tame_refl : orderly.

(** Close the goal that a task's change is [tame]. *)
Ltac tame := first
  [ by apply tame_kind | by eapply tame_consensus; [eassumption|] | by eapply tame_disputable; [eassumption|..] ].
#[export] Hint Extern 2 (tame _ _) => tame : orderly.

Lemma orderly_failures l : forall tb tb1 tb', ofold add_failure tb1 l = Ok tb' -> orderly tb tb1 -> orderly tb tb'.
Proof. induction l as [|b l IH]; intros tb tb1 tb' Ho Hc; cbn in Ho; inv_ok; [by subst|]. eauto with orderly. Qed.
Lemma orderly_resolve_consensus tb tb1 id tb' :
  resolve_consensus tb1 id = Ok tb' -> orderly tb tb1 -> orderly tb tb'.
Proof.
  unfold resolve_consensus. intros Hr Hc. eapply orderly_trans; [exact Hc|].
  repeat case_match; inv_ok; subst; eauto with orderly. eapply orderly_put.
  - eapply orderly_failures; [eassumption|apply orderly_refl].
  - match goal with F : ofold _ _ _ = Ok _ |- _ => apply add_failures_tasks in F; rewrite F end. eassumption.
  - tame.
Qed.
#[export] Hint Resolve orderly_resolve_consensus : orderly.

Ltac orderly_run f := unfold f; intros; inv_ok; repeat (case_match; inv_ok); simplify_eq; eauto with orderly.

Lemma set_min_reputation_orderly tb id n tb' : set_min_reputation tb id n = Ok tb' -> orderly tb tb'.
Proof. orderly_run set_min_reputation. Qed.
Lemma set_capabilities_orderly tb id c tb' : set_capabilities tb id c = Ok tb' -> orderly tb tb'.
Proof. orderly_run set_capabilities. Qed.
Lemma cancel_task_orderly tb id tb' : cancel_task tb id = Ok tb' -> orderly tb tb'.
Proof. orderly_run cancel_task. Qed.
Lemma claim_task_orderly tb id who deadline tb' : claim_task tb id who deadline = Ok tb' -> orderly tb tb'.
Proof. orderly_run claim_task. Qed.
Lemma join_consensus_task_orderly tb id who now tb' : join_consensus_task tb id who now = Ok tb' -> orderly tb tb'.
Proof. orderly_run join_consensus_task. Qed.
Lemma submit_orderly tb id who h tb' b : submit tb id who h = Ok (tb', b) -> orderly tb tb'.
Proof. orderly_run submit. Qed.
Lemma submit_contest_answer_orderly tb id who ans now tb' :
  submit_contest_answer tb id who ans now = Ok tb' -> orderly tb tb'.
Proof. orderly_run submit_contest_answer. Qed.
Lemma close_contest_orderly tb id who now tb' : close_contest tb id who now = Ok tb' -> orderly tb tb'.
Proof. orderly_run close_contest. Qed.
Lemma pick_answer_orderly tb id caller who now tb' : pick_answer tb id caller who now = Ok tb' -> orderly tb tb'.
Proof. orderly_run pick_answer. Qed.
Lemma submit_consensus_answer_orderly tb id who ans now tb' b :
  submit_consensus_answer tb id who ans now = Ok (tb', b) -> orderly tb tb'.
Proof. orderly_run submit_consensus_answer. Qed.
Lemma resolve_dispute_orderly tb id res tb' wl : resolve_dispute tb id res = Ok (tb', wl) -> orderly tb tb'.
Proof.
  unfold resolve_dispute. intros Hr. inv_ok. destruct (kind _) as [| |d] eqn:Hk; inv_ok.
  match type of Hr with (let '(_, _) := ?p in _) = _ => destruct p as [w l] end. inv_ok. simplify_eq.
  eapply orderly_put; [eapply orderly_failure; [eassumption|apply orderly_refl]| |].
  - match goal with F : add_failure _ _ = Ok _ |- _ => unfold add_failure in F; inv_ok; subst end. eassumption.
  - split; [done|]. unfold bond_of. rewrite Hk. cbn. by match goal with H : dispute _ = Some _ |- _ => rewrite H end.
Qed.

Lemma pay_leg_tame t r k full credited t' :
  pay_leg t r = Ok (LegPaid k full credited) -> kind t' = k ->
  (status t' = Submitted -> status t = Submitted) -> tame t t'.
Proof.
  unfold pay_leg. intros Hp <- Hs. destruct (kind t) as [h|c|d] eqn:Hk.
  - inv_ok. injection Hp as Hp. apply tame_kind; [congruence|done].
  - by eapply tame_consensus.
  - destruct (answers d) as [|a0 l0]; inv_ok; [injection Hp as Hp; apply tame_kind; [congruence|done]|].
    repeat match goal with p : nat * ContestAnswer |- _ => destruct p end. inv_ok.
    case_match; inv_ok; [done|]. simplify_eq. by eapply tame_disputable.
Qed.
Lemma mark_recipient_paid_orderly tb id r amount now tb' full :
  mark_recipient_paid tb id r amount now = Ok (tb', full) -> orderly tb tb'.
Proof.
  unfold mark_recipient_paid. intros Hm. inv_ok. destruct r2 as [|k f c]; inv_ok; simplify_eq; [apply orderly_refl|].
  eapply orderly_earning; [eassumption|]. eapply orderly_put; [apply orderly_refl|eassumption|].
  eapply pay_leg_tame; [eassumption|by destruct full|by destruct full].
Qed.
Lemma mark_escrow_refunded_orderly tb id tb' : mark_escrow_refunded tb id = Ok tb' -> orderly tb tb'.
Proof.
  unfold mark_escrow_refunded. intros Hm. inv_ok. subst. apply orderly_deposit; [done|]. intros Hi. cbn. by eapply Hi.
Qed.
Lemma credit_forfeited_bond_orderly tb pk amount tb' : credit_forfeited_bond tb pk amount = Ok tb' -> orderly tb tb'.
Proof. orderly_run credit_forfeited_bond. Qed.
Lemma reserve_escrow_orderly derive tb id now who amount for_ expires :
  orderly tb (reserve_escrow derive tb id now who amount for_ expires).1.
Proof. unfold reserve_escrow, put_deposit. cbn. by apply orderly_deposit. Qed.
Lemma resolve_expired_consensus_tasks_orderly tb now tb' ids :
  resolve_expired_consensus_tasks tb now = Ok (tb', ids) -> orderly tb tb'.
Proof.
  unfold resolve_expired_consensus_tasks. intros Hr. inv_ok. simplify_eq.
  match goal with F : ofold _ _ ?l = Ok _ |- _ => revert F; generalize l end. intros l.
  assert (H0 : orderly tb tb) by apply orderly_refl. revert H0. generalize tb at 2 3. revert tb'.
  induction l as [|b l IH]; intros tb' tb1 Hc Ho; cbn in Ho; inv_ok; [by subst|]. eauto with orderly.
Qed.
Lemma sweeps_tame now t t' :
  close_unclosed now t = Some t' \/ split_unpicked now t = Some t' \/ finalize_unchallenged now t = Some t' \/
  cancel_understaffed now t = Some t' \/ expire_claim now t = Some t' -> tame t t'.
Proof.
  unfold close_unclosed, split_unpicked, finalize_unchallenged, cancel_understaffed, expire_claim.
  intros [H|[H|[H|[H|H]]]]; repeat (case_match; try done); simplify_eq; tame.
Qed.
Lemma drop_attempts_rest ks : forall tb l,
  let tb' := (foldl drop_attempt (tb, l) ks).1 in
  tb_accounts tb' = tb_accounts tb /\ tb_orders tb' = tb_orders tb /\ tb_tasks tb' = tb_tasks tb /\
  tb_deposits tb' = tb_deposits tb /\ tb_attempts tb' ⊆ tb_attempts tb.
Proof.
  induction ks as [|k ks IH]; intros tb l; [done|].
  destruct (IH (clear_payout_attempt tb k.1 k.2).1 (l ++ option_list (payout_attempt tb k.1 k.2)))
    as (Ea & Eo & Et & Ed & Ep).
  do 4 (split; [assumption|]). etrans; [exact Ep|]. apply delete_subseteq.
Qed.
Lemma mark_payout_failed_orderly tb id tb' dropped : mark_payout_failed tb id = Ok (tb', dropped) -> orderly tb tb'.
Proof.
  unfold mark_payout_failed. intros Hm. inv_ok.
  match type of Hm with foldl _ (?tb1, []) ?ks = _ =>
    destruct (drop_attempts_rest ks tb1 []) as (Ea & Eo & Et & Ed & Ep); cbn zeta in *; rewrite Hm in Ea, Eo, Et, Ed, Ep end.
  cbn [fst] in *. eapply orderly_trans; [|by apply orderly_aside].
  eapply orderly_put; [apply orderly_refl|eassumption|tame].
Qed.

#[export] Hint Resolve set_min_reputation_orderly set_capabilities_orderly cancel_task_orderly claim_task_orderly
  join_consensus_task_orderly submit_orderly submit_contest_answer_orderly close_contest_orderly pick_answer_orderly
  submit_consensus_answer_orderly resolve_dispute_orderly mark_recipient_paid_orderly mark_escrow_refunded_orderly
  credit_forfeited_bond_orderly reserve_escrow_orderly resolve_expired_consensus_tasks_orderly
  mark_payout_failed_orderly : orderly.

(** ** Confirmations *)
Lemma apply_settings_orderly tb tb1 id m c tb' :
  apply_settings tb1 id m c = Ok tb' -> orderly tb tb1 -> orderly tb tb'.
Proof.
  unfold apply_settings. intros Ha Ho. inv_ok.
  assert (H1 : orderly tb r).
  { clear Ha. destruct (0 <? m); [|inv_ok; by subst]. destruct (set_min_reputation tb1 id m) as [x| |] eqn:E; inv_ok. subst.
    eapply orderly_trans; [exact Ho|by eapply set_min_reputation_orderly]. }
  case_decide; [inv_ok; by subst|]. destruct (set_capabilities r id c) as [x| |] eqn:E; inv_ok. subst.
  eapply orderly_trans; [exact H1|by eapply set_capabilities_orderly].
Qed.

Definition consumed (tb : TaskBoard) (e : Uuid) (d : PendingDeposit) : TaskBoard :=
  with_deposits tb (<[e := set_deposit_status Consumed d]> (tb_deposits tb)).

Lemma confirm_escrow_orderly tb id task_id amount now created tb' t :
  tb_tasks tb !! task_id = None -> confirm_escrow tb id task_id amount now created = Ok (tb', t) ->
  exists d, tb_deposits tb !! id = Some d /\ orderly (consumed tb id d) tb' /\
    tb_tasks tb' !! task_id = Some t /\ escrow_id t = Some id /\
    match purpose d with DisputeBond _ _ | FundExchangeAccount => False | _ => True end.
Proof.
  intros Hn. unfold confirm_escrow. intros Hc. inv_ok.
  match goal with F : tb_deposits tb !! id = Some ?x |- _ => exists x; split; [exact F|] end.
  simplify_eq. split_and!; [|by cbn; rewrite lookup_insert_eq|done|by destruct (purpose _)].
  eapply orderly_put; [|eassumption|apply tame_kind; done].
  destruct (purpose r); inv_ok; cbn in Hr2;
    (eapply apply_settings_orderly; [exact Hr2|apply orderly_new; [exact Hn|discriminate]]).
Qed.

Lemma confirm_dispute_bond_orderly tb eid amount now tb' t :
  confirm_dispute_bond tb eid amount now = Ok (tb', t) ->
  exists d task_id reason, tb_deposits tb !! eid = Some d /\ orderly (consumed tb eid d) tb' /\
    purpose d = DisputeBond task_id reason /\ tb_tasks tb' !! task_id = Some t /\ bond_of t = Some eid.
Proof.
  unfold confirm_dispute_bond. intros Hc. inv_ok.
  match goal with F : tb_deposits tb !! eid = Some ?x |- _ => rename x into d; rename F into Hd end.
  destruct (purpose d) as [| | |task_id reason|] eqn:Hp; inv_ok. simplify_eq. inv_ok.
  match goal with F : tb_tasks tb !! task_id = Some ?x |- _ => rename x into u; rename F into Hu end.
  destruct (kind u) as [| |f] eqn:Hk; inv_ok. simplify_eq.
  destruct (dispute _) eqn:Hdis; [done|].
  exists d, task_id, reason. split_and!; [done| |done|by cbn; rewrite lookup_insert_eq|done].
  match goal with |- orderly _ (with_deposits (put_task _ _ ?t') _) =>
    change (orderly (consumed tb eid d) (put_task (consumed tb eid d) task_id t')) end.
  eapply orderly_put; [apply orderly_refl|exact Hu|]. split; [done|]. unfold bond_of. by rewrite Hk, Hdis.
Qed.

(** Every step is of one of four forms. *)
Lemma board_step_cases tb tb' :
  board_step tb tb' ->
  orderly tb tb' \/ (exists a, tb' = record_payout_attempt tb a) \/
  exists e d, tb_deposits tb !! e = Some d /\ orderly (consumed tb e d) tb' /\
    (pd_id d = e -> backed tb' (set_deposit_status Consumed d)).
Proof.
  assert (Hside : forall tb1, tb_accounts tb1 = tb_accounts tb -> tb_orders tb1 = tb_orders tb ->
     tb_tasks tb1 = tb_tasks tb -> tb_deposits tb1 = tb_deposits tb -> tb_attempts tb1 ⊆ tb_attempts tb ->
     orderly tb tb1) by (intros; by apply orderly_aside).
  destruct 1; try (by left; eauto with orderly);
    try (left; apply orderly_sweep; intros t t' Hf; apply (sweeps_tame now); tauto);
    try (by left; apply Hside); try (by right; left; eauto).
  1-3: by left; apply orderly_new.
  - right. right. destruct (confirm_escrow_orderly _ _ _ _ _ _ _ _ H H0) as (d & Hd & Ho & Ht & He & Hp).
    exists id, d. split_and!; [done..|]. intros Hi. unfold backed. cbn.
    destruct (purpose d); try done; exists task_id, t; split; congruence.
  - right. right. destruct (confirm_dispute_bond_orderly _ _ _ _ _ _ H) as (d & task_id & reason & Hd & Ho & Hp & Ht & Hb).
    exists eid, d. split_and!; [done..|]. intros Hi. unfold backed. cbn. rewrite Hp. exists t. split; congruence.
  - left. apply Hside; try done. apply delete_subseteq.
Qed.

(** ** Every step of the board keeps the agreement *)
Lemma owed_shrinks t t' r x :
  evolves t t' -> settled (status t) = true -> (r, x) ∈ owed_payouts t' -> (r, x) ∈ owed_payouts t.
Proof.
  unfold owed_payouts. intros Hev Hs. rewrite !list_elem_of_filter. cbn. rewrite (ev_alloc _ _ Hev Hs).
  intros [Hp Hin]. split; [|done]. destruct (is_recipient_paid t r) eqn:E; [|done].
  by rewrite (ev_paid _ _ Hev r E) in Hp.
Qed.

Lemma record_attempt_rest tb a :
  tb_accounts (record_payout_attempt tb a) = tb_accounts tb /\ tb_orders (record_payout_attempt tb a) = tb_orders tb /\
  tb_deposits (record_payout_attempt tb a) = tb_deposits tb /\
  tb_attempts (record_payout_attempt tb a) = <[(pa_task_id a, pa_recipient a) := a]> (tb_attempts tb).
Proof. unfold record_payout_attempt. repeat case_match; done. Qed.

(** No attempt of a leg that is still owed is dropped. *)
Definition keeps_attempts (tb tb' : TaskBoard) : Prop :=
  forall i t r x, tb_tasks tb' !! i = Some t -> status t = Submitted -> (r, x) ∈ owed_payouts t ->
    is_Some (tb_attempts tb !! (i, r)) -> is_Some (tb_attempts tb' !! (i, r)).

(** *** Which operations touch the attempts

    Recording one, clearing one, and giving a task up; no other. *)
Definition same_attempts (tb tb' : TaskBoard) : Prop := tb_attempts tb' = tb_attempts tb.

Lemma add_failure_attempts tb pk tb' : add_failure tb pk = Ok tb' -> same_attempts tb tb'.
Proof. unfold add_failure. intros E. inv_ok. by subst. Qed.
Lemma add_earning_attempts tb pk amount c tb' : add_earning tb pk amount c = Ok tb' -> same_attempts tb tb'.
Proof. unfold add_earning. intros E. repeat (case_match; inv_ok); by subst. Qed.
Lemma failures_attempts l : forall tb tb', ofold add_failure tb l = Ok tb' -> same_attempts tb tb'.
Proof.
  unfold same_attempts. induction l as [|pk l IH]; intros tb tb' E; cbn in E; inv_ok; [by subst|].
  rewrite (IH _ _ E). by eapply add_failure_attempts.
Qed.
Lemma consensus_attempts tb id tb' : resolve_consensus tb id = Ok tb' -> same_attempts tb tb'.
Proof.
  unfold resolve_consensus, same_attempts. intros E. repeat case_match; inv_ok; subst; try done. cbn. by eapply failures_attempts.
Qed.
Lemma expired_consensus_attempts l : forall tb tb', ofold resolve_consensus tb l = Ok tb' -> same_attempts tb tb'.
Proof.
  unfold same_attempts. induction l as [|i l IH]; intros tb tb' E; cbn in E; inv_ok; [by subst|].
  rewrite (IH _ _ E). by eapply consensus_attempts.
Qed.
Lemma settings_attempts tb id m c tb' : apply_settings tb id m c = Ok tb' -> same_attempts tb tb'.
Proof.
  unfold apply_settings, set_min_reputation, set_capabilities, same_attempts. intros E. inv_ok.
  repeat (case_match; inv_ok; simplify_eq); done.
Qed.

Ltac attempts_run f := unfold f, same_attempts in *; inv_ok; repeat (case_match; inv_ok); simplify_eq; cbn in *;
  first
  [ done
  | match goal with F : add_failure _ _ = Ok _ |- _ => by rewrite (add_failure_attempts _ _ _ F) end
  | match goal with F : add_earning _ _ _ _ = Ok _ |- _ => by rewrite (add_earning_attempts _ _ _ _ _ F) end
  | match goal with F : resolve_consensus _ _ = Ok _ |- _ => by rewrite (consensus_attempts _ _ _ F) end
  | match goal with F : ofold resolve_consensus _ _ = Ok _ |- _ => by rewrite (expired_consensus_attempts _ _ _ F) end ].

Lemma board_step_attempts tb tb' :
  board_step tb tb' ->
  same_attempts tb tb' \/ (exists a, tb' = record_payout_attempt tb a) \/
  (exists id r, tb' = (clear_payout_attempt tb id r).1) \/ exists id dropped, mark_payout_failed tb id = Ok (tb', dropped).
Proof.
  destruct 1; try (by left); try (by right; left; eauto); try (by right; right; left; eauto); try (by do 3 right; eauto); left.
  - attempts_run set_min_reputation.
  - attempts_run set_capabilities.
  - attempts_run cancel_task.
  - unfold confirm_escrow in *. inv_ok. simplify_eq. unfold same_attempts. cbn.
    destruct (purpose _); inv_ok; cbn in *;
      match goal with F : apply_settings _ _ _ _ = Ok _ |- _ => by rewrite (settings_attempts _ _ _ _ _ F) end.
  - attempts_run confirm_dispute_bond.
  - attempts_run mark_escrow_refunded.
  - attempts_run claim_task.
  - attempts_run join_consensus_task.
  - attempts_run submit.
  - attempts_run submit_contest_answer.
  - attempts_run close_contest.
  - attempts_run pick_answer.
  - attempts_run submit_consensus_answer.
  - attempts_run resolve_dispute.
  - unfold credit_forfeited_bond in *. by eapply add_earning_attempts.
  - attempts_run resolve_expired_consensus_tasks.
  - attempts_run mark_recipient_paid.
Qed.

(** A task that reads [Submitted] read so before, or all it owes has just been recorded. *)
Lemma record_attempt_submitted tb a i t' :
  tb_tasks (record_payout_attempt tb a) !! i = Some t' -> status t' = Submitted ->
  (exists t, tb_tasks tb !! i = Some t /\ status t = Submitted) \/
  exists t, tb_tasks tb !! i = Some t /\ status t = Verified /\
    forall r x, (r, x) ∈ owed_payouts t -> is_Some (tb_attempts (record_payout_attempt tb a) !! (i, r)).
Proof.
  destruct (record_attempt_rest tb a) as (_ & _ & _ & Ea). rewrite Ea. clear Ea.
  unfold record_payout_attempt. set (tb1 := restore_payout_attempt tb a).
  destruct (unsubmitted_payouts tb1 (pa_task_id a)) as [|p l] eqn:Eu; [|eauto]. cbn.
  destruct (tb_tasks tb !! pa_task_id a) as [t|] eqn:Et; [|eauto].
  case_decide as Hv; [|eauto]. cbn. intros Hi Hs. destruct (decide (i = pa_task_id a)) as [->|Hne].
  - right. exists t. split_and!; [done..|]. intros r x Hr.
    destruct (<[(pa_task_id a, pa_recipient a):=a]> (tb_attempts tb) !! (pa_task_id a, r)) eqn:E; [eauto|].
    assert (Hin : (r, x) ∈ unsubmitted_payouts tb1 (pa_task_id a)).
    { unfold unsubmitted_payouts. cbn. rewrite Et. apply list_elem_of_filter. split; [exact E|].
      unfold pending_payouts. by rewrite Hv. }
    rewrite Eu in Hin. by apply not_elem_of_nil in Hin.
  - rewrite lookup_insert_ne in Hi by done. eauto.
Qed.

Lemma record_keeps_attempts tb a : keeps_attempts tb (record_payout_attempt tb a).
Proof.
  intros i t r x _ _ _ Hk. destruct (record_attempt_rest tb a) as (_ & _ & _ & ->).
  rewrite lookup_insert_is_Some. destruct (decide ((pa_task_id a, pa_recipient a) = (i, r))); auto.
Qed.

(** A leg that no submitted task owes. *)
Definition unowed (tb : TaskBoard) (id : Uuid) (r : PublicKey) : Prop :=
  forall t x, tb_tasks tb !! id = Some t -> status t = Submitted -> (r, x) ∉ owed_payouts t.
(** If the step is the clearing of an attempt, the leg is owed no longer. *)
Definition clears_unowed (tb tb' : TaskBoard) : Prop :=
  forall id r, is_Some (tb_attempts tb !! (id, r)) -> tb' = (clear_payout_attempt tb id r).1 -> unowed tb id r.

Lemma board_step_keeps_attempts tb tb' : board_step tb tb' -> clears_unowed tb tb' -> keeps_attempts tb tb'.
Proof.
  intros Hs Hc. destruct (board_step_attempts _ _ Hs) as [E|[[a ->]|[(id & r & ->)|(id & dropped & E)]]].
  - intros i t r x _ _ _. by rewrite E.
  - apply record_keeps_attempts.
  - intros i t q x Ht Hst Ho Hk. cbn in Ht |- *. rewrite lookup_delete_ne; [done|]. intros [= -> ->].
    by apply (Hc i q Hk eq_refl t x).
  - destruct (mark_payout_failed_shape _ _ _ _ E) as (u & _ & _ & Et & Ha). intros i t q x Ht Hst _ Hk. rewrite Ha. cbn.
    case_decide as Hi; [|done]. subst i. rewrite Et, lookup_insert_eq in Ht. by injection Ht as <-.
Qed.

Lemma board_step_submitted tb tb' :
  board_step tb tb' ->
  (forall i t', tb_tasks tb' !! i = Some t' -> status t' = Submitted ->
     exists t, tb_tasks tb !! i = Some t /\ status t = Submitted) \/
  exists a, tb' = record_payout_attempt tb a.
Proof.
  intros [Ho|[[a ->]|(e & d & _ & Ho & _)]]%board_step_cases; [left; apply Ho|eauto|left; apply Ho].
Qed.

Lemma board_step_tracked tb tb' :
  board_step tb tb' -> board_wf tb -> keeps_attempts tb tb' -> tracked tb -> tracked tb'.
Proof.
  intros Hs Hwf Hk Htr i t' r x Ht' Hst Hr.
  destruct (board_step_keeps _ _ Hs Hwf) as [_ Hev].
  assert (Hold : forall t, tb_tasks tb !! i = Some t -> status t = Submitted -> is_Some (tb_attempts tb' !! (i, r))).
  { intros t Ht Hss. destruct (Hev i t Ht) as (t2 & Ht2 & He). replace t2 with t' in He by congruence.
    apply (Hk i t' r x Ht' Hst Hr), (Htr i t r x Ht Hss). eapply owed_shrinks; [exact He|by rewrite Hss|done]. }
  destruct (board_step_submitted _ _ Hs) as [Ho|[a ->]]; [destruct (Ho i t' Ht' Hst) as (t & Ht & Hss); eauto|].
  destruct (record_attempt_submitted _ _ _ _ Ht' Hst) as [(t & Ht & Hss)|(t & Ht & Hv & Hall)]; [eauto|].
  destruct (Hev i t Ht) as (t2 & Ht2 & He). replace t2 with t' in He by congruence.
  apply (Hall r x). eapply owed_shrinks; [exact He|by rewrite Hv|done].
Qed.

Lemma board_step_filed tb tb' : board_step tb tb' -> attempts_filed tb -> attempts_filed tb'.
Proof.
  assert (Hsub : forall tb1, orderly tb1 tb' -> tb_attempts tb1 = tb_attempts tb -> attempts_filed tb -> attempts_filed tb').
  { intros tb1 Ho E Hf k a Ha. apply Hf. rewrite <-E. by eapply lookup_weaken; [|apply Ho]. }
  intros [Ho|[[a ->]|(e & d & _ & Ho & _)]]%board_step_cases Hf; [by eapply Hsub| |by eapply Hsub].
  unfold attempts_filed. destruct (record_attempt_rest tb a) as (_ & _ & _ & ->). by apply map_Forall_insert_2.
Qed.

(** What backs a deposit stays. *)
Lemma backed_mono tb tb' d :
  (forall i t, tb_tasks tb !! i = Some t -> exists t', tb_tasks tb' !! i = Some t' /\ escrow_id t' = escrow_id t) ->
  (forall i t b, tb_tasks tb !! i = Some t -> bond_of t = Some b -> exists t', tb_tasks tb' !! i = Some t' /\ bond_of t' = Some b) ->
  (forall pk, is_Some (tb_accounts tb !! pk) -> is_Some (tb_accounts tb' !! pk)) ->
  backed tb d -> backed tb' d.
Proof.
  intros Ht Hb Ha. unfold backed. destruct (purpose d); try (intros (j & t & Hj & He);
    destruct (Ht j t Hj) as (t' & Hj' & He'); exists j, t'; split; congruence).
  - intros (t & Hj & He). by eapply Hb.
  - apply Ha.
Qed.

Lemma orderly_agree tb tb' :
  orderly tb tb' -> board_evolves tb tb' -> deposits_agree tb -> deposits_agree tb'.
Proof.
  intros Ho Hev Hd e d Hl. split; [by eapply (or_ids _ _ Ho); [intros i x Hx; by apply Hd|]|].
  intros Hc. destruct (Hd e d) as [_ Hb]; [by eapply or_deposits|]. apply (backed_mono tb tb' d); [|apply Ho| |by apply Hb].
  - intros i t Ht. destruct (Hev i t Ht) as (t' & Ht' & He). exists t'. split; [done|apply He].
  - by rewrite (or_accounts _ _ Ho).
Qed.

Lemma board_step_deposits tb tb' : board_step tb tb' -> board_wf tb -> deposits_agree tb -> deposits_agree tb'.
Proof.
  intros Hs Hwf Hd. destruct (board_step_keeps _ _ Hs Hwf) as [_ Hev].
  assert (Hesc : forall i t, tb_tasks tb !! i = Some t -> exists t', tb_tasks tb' !! i = Some t' /\ escrow_id t' = escrow_id t).
  { intros i t Ht. destruct (Hev i t Ht) as (t' & Ht' & He). exists t'. split; [done|apply He]. }
  destruct (board_step_cases _ _ Hs) as [Ho|[[a ->]|(e & d & Hl & Ho & Hb)]]; [by eapply orderly_agree|..].
  - intros e d Hl. destruct (record_attempt_rest tb a) as (Ea & _ & Ed & _). rewrite Ed in Hl.
    destruct (Hd e d Hl) as [Hi Hb]. split; [done|]. intros Hc.
    apply (backed_mono tb); [done| |by rewrite Ea|by apply Hb].
    intros i t b Ht Hbo. unfold record_payout_attempt. case_match; [|eauto]. cbn.
    destruct (tb_tasks tb !! pa_task_id a) as [u|] eqn:Eu; [|eauto]. case_decide; [|eauto]. cbn.
    destruct (decide (i = pa_task_id a)) as [->|Hne]; [rewrite lookup_insert_eq|rewrite lookup_insert_ne by done; eauto].
    replace t with u in Hbo by congruence. eauto.
  - destruct (Hd e d Hl) as [Hi _]. intros e' d' Hl'. split.
    + eapply (or_ids _ _ Ho); [|exact Hl']. cbn. apply map_Forall_insert_2; [done|]. intros j x Hx. by apply Hd.
    + intros Hc. pose proof (or_deposits _ _ Ho e' d' Hl' Hc) as Hin. cbn in Hin.
      destruct (decide (e' = e)) as [->|Hne]; [rewrite lookup_insert_eq in Hin; injection Hin as <-; by apply Hb|].
      rewrite lookup_insert_ne in Hin by done.
      apply (backed_mono tb tb' d'); [done|apply (or_bonds _ _ Ho)|by rewrite (or_accounts _ _ Ho)|by apply (Hd e')].
Qed.

Lemma board_step_book tb tb' : board_step tb tb' -> book_ok tb -> book_ok tb'.
Proof.
  intros Hs [Hl Ho]. assert (tb_accounts tb' = tb_accounts tb /\ tb_orders tb' = tb_orders tb) as [Ea Eo].
  { destruct (board_step_cases _ _ Hs) as [O|[[a ->]|(e & d & _ & O & _)]]; [by split; apply O| |by split; apply O].
    by destruct (record_attempt_rest tb a) as (? & ? & _). }
  by split; rewrite ?Ea, ?Eo.
Qed.

Lemma board_step_agreed tb tb' : board_step tb tb' -> clears_unowed tb tb' -> agreed tb -> agreed tb'.
Proof.
  intros Hs Hk [Hwf Hd Hb Hf Htr]. destruct (board_step_keeps _ _ Hs Hwf) as [Hwf' _].
  split; [done|by eapply board_step_deposits|by eapply board_step_book|by eapply board_step_filed|].
  eapply board_step_tracked; eauto using board_step_keeps_attempts.
Qed.
