(* ===== verification/ReconcileTheorems.v ===== *)
(** * ReconcileTheorems: a hub that only ran its operations has nothing to report

    The marketplace, the exchange and the payment journal as one step relation on
    the live board: none of its histories makes [reconcile] report anything. And
    whatever the hub was doing when it stopped, the disk it comes back from has
    no submitted task that nothing waits for. *)

From S2P Require Import Prelude Types Crypto Transaction Spend BoardTypes Exchange ExchangeInv ExchangeTheorems Staging Tasks Board Payouts BoardInv BoardStep PayoutStep BoardTheorems Payments Wallets Settlement SettleInv SettleStep SettleTheorems Reconcile ReconcileInv.

(** ** The exchange *)
Lemma agreed_trade tb tb' :
  book_ok tb' -> tb_tasks tb' = tb_tasks tb -> tb_deposits tb' = tb_deposits tb -> tb_attempts tb' = tb_attempts tb ->
  (forall pk, is_Some (tb_accounts tb !! pk) -> is_Some (tb_accounts tb' !! pk)) -> agreed tb -> agreed tb'.
Proof.
  intros Hb Et Ed Ea Hacc [Hwf Hd _ Hf Htr]. split; [by unfold board_wf; rewrite Et| |done|..].
  - intros e d Hl. rewrite Ed in Hl. destruct (Hd e d Hl) as [Hi Hbk]. split; [done|]. intros Hc.
    apply (backed_mono tb); [by rewrite Et; eauto..|done|by apply Hbk].
  - by unfold attempts_filed; rewrite Ea.
  - unfold tracked. by rewrite Et, Ea.
Qed.

Lemma account_persists tb pk a k :
  is_Some (tb_accounts tb !! k) -> is_Some (tb_accounts (restore_exchange_account tb pk a) !! k).
Proof.
  intros Hk. cbn. destruct (decide (k = pk)) as [->|Hne]; [rewrite lookup_insert_eq; eauto|by rewrite lookup_insert_ne].
Qed.
Lemma accounts_persist l : forall tb k, is_Some (tb_accounts tb !! k) ->
  is_Some (tb_accounts (foldl (fun tb (e : PublicKey * ExchangeAccount) => restore_exchange_account tb e.1 e.2) tb l) !! k).
Proof. induction l as [|e l IH]; intros tb k Hk; [done|]. apply IH. by apply account_persists. Qed.

Lemma place_agreed live sink id tids pk side price quantity now live' order :
  agreed live -> tb_orders live !! id = None -> quantity <= U64_MAX ->
  handle_place_order live sink id tids pk side price quantity now = Ok (live', order) -> agreed live'.
Proof.
  intros Hag Hf Hq Hh. pose proof (staged_placement_spec live sink id tids pk side price quantity now (ag_book _ Hag) Hf Hq) as HS.
  assert (Hbook : book_ok live').
  { rewrite Hh in HS. destruct (place_order _ _ _ _ _ _ _ _) as [direct [[o tr]|e|]]; [|done|done].
    destruct HS as (l2 & d2 & fees & E & _ & _ & Hb & _). by injection E as <- _. }
  clear HS. unfold handle_place_order in Hh.
  destruct (place_order _ _ _ _ _ _ _ _) as [staged [[o tr]|e|]]; [|done|done]. inv_ok.
  destruct r as [st fees]. injection Hh as E ->. rewrite restore_accounts_only in E.
  apply (agreed_trade live); try done; subst live'.
  - cbn. by rewrite restore_trades_only, (restore_orders_only (restore_order live order)).
  - cbn. by rewrite restore_trades_only, (restore_orders_only (restore_order live order)).
  - cbn. by rewrite restore_trades_only, (restore_orders_only (restore_order live order)).
  - intros k Hk. cbn. apply accounts_persist. by rewrite restore_trades_only, (restore_orders_only (restore_order live order)).
Qed.

Lemma cancel_agreed live id pk live' order :
  agreed live -> handle_cancel_order live id pk = Ok (live', order) -> agreed live'.
Proof.
  intros Hag. unfold handle_cancel_order, get_order. intros Hc. inv_ok.
  match goal with F : tb_orders live !! id = Some ?x |- _ => rename x into o; rename F into Ho end.
  pose proof (ag_book _ Hag) as Hb. pose proof (lo_orders _ _ (bo_ledger _ Hb) id o Ho) as [Hid Hfl Hnt Hq].
  match goal with F : cancel_order _ _ _ = Ok ?p |- _ => destruct p as [st x]; rename F into Hx end. inv_ok.
  injection Hc as <- <-. unfold cancel_order in Hx. cbn in Hx. rewrite Hid, lookup_insert_eq in Hx. cbn in Hx.
  inv_ok. repeat match goal with H : bool_decide _ = true |- _ => apply bool_decide_eq_true in H end. subst pk.
  injection Hx as <- <-.
  match goal with F : sub64 _ _ = Ok _ |- _ => apply sub64_Ok in F as [-> _] end.
  match goal with F : o_status o = OrderOpen |- _ => rename F into Hop end.
  pose proof (cancel_ledger _ _ id o (bo_ledger _ Hb) Ho Hop) as Hl.
  match goal with F : match o_side o with _ => _ end = Ok ?s |- _ =>
    assert (Hacc : exchange_account s (o_owner o) = released o (exchange_account live (o_owner o))) end.
  { unfold released, base_need, compute_need. rewrite Hop.
    destruct (o_side o); inv_ok; unfold update_account in *; inv_ok; subst;
      repeat match goal with F : mul64 _ _ = Ok _ |- _ => apply mul64_Ok in F as [-> _] end;
      unfold unlock_base, unlock_compute in *; inv_ok; subst;
      repeat match goal with F : sub64 _ _ = Ok _ |- _ => apply sub64_Ok in F as [-> _] end;
      rewrite !exchange_account_acct; cbn; rewrite !acct_insert_eq; by rewrite N.sub_0_r. }
  rewrite Hacc. apply (agreed_trade live); try done.
  - split.
    + cbn. rewrite Hid, exchange_account_acct. exact Hl.
    + cbn. rewrite Hid. apply map_Forall_insert_2; [done|apply Hb].
  - intros k Hk. by apply account_persists.
Qed.

Lemma exchange_deposit_agreed tb id observed fee now tb' who credited :
  agreed tb -> roomy (base_total (tb_accounts tb) + observed) ->
  confirm_exchange_deposit tb id observed fee now = Ok (tb', (who, credited)) -> agreed tb'.
Proof.
  intros Hag Hr Hc. pose proof (exchange_deposit_credits_once _ _ _ _ _ _ _ _ (ag_book _ Hag) Hr Hc) as (Hb & _).
  unfold confirm_exchange_deposit in Hc. inv_ok. simplify_eq.
  match goal with F : tb_deposits tb !! id = Some ?x |- _ => rename x into d; rename F into Hd end.
  match goal with F : update_account _ _ _ = Ok _ |- _ => unfold update_account in F; inv_ok; subst tb' end.
  destruct Hag as [Hwf Hda _ Hf Htr]. split; [done| |done|done|done].
  destruct (Hda id d Hd) as [Hi _].
  intros e x Hl. cbn in Hl. destruct (decide (e = id)) as [->|Hne].
  - rewrite lookup_insert_eq in Hl. injection Hl as <-. split; [done|]. intros _. unfold backed. cbn.
    unfold is_exchange_deposit in *. destruct (purpose d); try done. rewrite lookup_insert_eq. eauto.
  - rewrite lookup_insert_ne in Hl by done. destruct (Hda e x Hl) as [Hie Hbk]. split; [done|]. intros Hcs.
    apply (backed_mono tb); [cbn; eauto..| |by apply Hbk]. intros k Hk. by apply (account_persists (with_deposits tb _)).
Qed.

(** ** The payment journal *)
Lemma agreed_orderly tb tb' :
  orderly tb tb' -> tb_tasks tb' = tb_tasks tb -> tb_attempts tb' = tb_attempts tb -> agreed tb -> agreed tb'.
Proof.
  intros Ho Et Ea [Hwf Hd [Hl Hop] Hf Htr]. split.
  - by unfold board_wf; rewrite Et.
  - eapply orderly_agree; [exact Ho| |done]. intros i t Ht. rewrite Et. exists t. split; [done|apply evolves_refl].
  - split; by rewrite ?(or_accounts _ _ Ho), ?(or_orders _ _ Ho).
  - by unfold attempts_filed; rewrite Ea.
  - unfold tracked. by rewrite Et, Ea.
Qed.

Lemma agreed_aside tb tb' :
  tb_accounts tb' = tb_accounts tb -> tb_orders tb' = tb_orders tb -> tb_tasks tb' = tb_tasks tb ->
  tb_deposits tb' = tb_deposits tb -> tb_attempts tb' = tb_attempts tb -> agreed tb -> agreed tb'.
Proof. intros Ea Eo Et Ed Ep. apply agreed_orderly; [apply orderly_aside|..]; try done. by rewrite Ep. Qed.

Lemma withdrawal_agreed tb pk a debited :
  agreed tb -> debited <= base_balance (exchange_account tb pk) - locked_base (exchange_account tb pk) ->
  a = with_base (exchange_account tb pk) (base_balance (exchange_account tb pk) - debited) ->
  agreed (restore_exchange_account tb pk a).
Proof.
  intros Hag Hle ->. pose proof (ag_book _ Hag) as Hb. apply (agreed_trade tb); try done.
  2: intros k; apply account_persists.
  set (a := with_base _ _).
  pose proof (account_total tb pk a base_balance eq_refl) as Tb.
  pose proof (account_total tb pk a compute_balance eq_refl) as Tc.
  pose proof (lo_base_backed _ _ (bo_ledger _ Hb) pk) as Bb.
  pose proof (lo_compute_backed _ _ (bo_ledger _ Hb) pk) as Bc. rewrite <-exchange_account_acct in Bb, Bc.
  pose proof (lo_base_room _ _ (bo_ledger _ Hb)) as Rb. pose proof (lo_compute_room _ _ (bo_ledger _ Hb)) as Rc.
  cbn in Tb, Tc. unfold roomy, base_total, compute_total, TAKER_FEE_BPS in *.
  apply book_ok_account; try done; unfold roomy, base_total, compute_total, TAKER_FEE_BPS; cbn; lia.
Qed.

Section journal.
Context `{Primitives}.

Lemma prepare_agreed commits h p h' p' : prepare commits h p = Ok (h', p') -> agreed (live h) -> agreed (live h').
Proof.
  unfold prepare. intros Hp Hag. inv_ok. destruct r0 as [account deposit]. inv_ok. injection Hp as <- _. cbn [live with_boards].
  set (p0 := set_scanned p _) in *.
  match goal with F : reservation _ _ = Ok _ |- _ => rename F into Hres end.
  match goal with |- agreed (put_payment ?tb _) => apply (agreed_aside tb); try done end.
  match goal with |- agreed (if _ then restore_faucet_grant ?tb _ _ else _) =>
    assert (Htb : agreed tb); [|by destruct (is_faucet p0); [apply (agreed_aside tb)|]] end.
  unfold reservation in Hres. destruct (p_purpose p0) as [|debited|e fb prev]; inv_ok; simplify_eq.
  - done.
  - match goal with F : (_ <=? _) = true |- _ => apply N.leb_le in F end.
    match goal with F : sub64 _ _ = Ok _ |- _ => apply sub64_Ok in F as [-> _] end. by eapply withdrawal_agreed.
  - apply (agreed_orderly (live h)); try done.
    match goal with F : tb_deposits _ !! e = Some ?d |- _ => destruct (ag_deposits _ Hag e d F) as [Hi _] end.
    by apply orderly_deposit.
Qed.

Lemma confirm_agreed commits h p h' : confirm commits h p = Ok h' -> agreed (live h) -> agreed (live h').
Proof.
  unfold confirm. intros Hc Hag. destruct (tb_payments (live h) !! p_id p) as [cur|]; [|by injection Hc as <-].
  case_decide; [by injection Hc as <-|]. inv_ok. destruct r as [deposit rep]. inv_ok. subst h'. cbn [live with_boards].
  set (p0 := set_payment_status cur PaymentConfirmed) in *.
  match goal with F : confirmation _ _ = Ok _ |- _ => rename F into Hres end.
  match goal with |- agreed (put_payment ?tb _) => apply (agreed_aside tb); try done end.
  match goal with |- agreed (match rep with Some r => restore_reputation ?tb _ _ | None => _ end) =>
    assert (Htb : agreed tb); [|by destruct rep; [apply (agreed_aside tb)|]] end.
  unfold confirmation in Hres. destruct (p_purpose p0) as [|debited|e fb prev]; inv_ok; simplify_eq; [done..|].
  apply (agreed_orderly (live h)); try done.
  match goal with F : tb_deposits _ !! e = Some ?d |- _ => destruct (ag_deposits _ Hag e d F) as [Hi _] end.
  by apply orderly_deposit.
Qed.

(** ** The life of a board

    Any operation of the board, on any arguments, but one: [clear_payout_attempt]
    on a leg that a submitted task still owes. Its only caller records the
    payment first. *)
Inductive market_step (tb : TaskBoard) : TaskBoard -> Prop :=
| mk_board tb' : board_step tb tb' -> clears_unowed tb tb' -> market_step tb tb'
| mk_place sink id tids pk side price quantity now tb' order :
    tb_orders tb !! id = None -> quantity <= U64_MAX ->
    handle_place_order tb sink id tids pk side price quantity now = Ok (tb', order) -> market_step tb tb'
| mk_cancel id pk tb' order : handle_cancel_order tb id pk = Ok (tb', order) -> market_step tb tb'
| mk_deposit id observed fee now tb' who credited :
    roomy (base_total (tb_accounts tb) + observed) ->
    confirm_exchange_deposit tb id observed fee now = Ok (tb', (who, credited)) -> market_step tb tb'
| mk_prepare commits h p h' p' : live h = tb -> prepare commits h p = Ok (h', p') -> market_step tb (live h')
| mk_confirm commits h p h' : live h = tb -> confirm commits h p = Ok h' -> market_step tb (live h').

Lemma market_step_agreed tb tb' : market_step tb tb' -> agreed tb -> agreed tb'.
Proof.
  intros [tb1 Hs Hk|sink id tids pk side price quantity now tb1 order Hn Hq Hh|id pk tb1 order Hh
         |id observed fee now tb1 who credited Hr Hh|commits h p h' p' <- Hp|commits h p h' <- Hp] Hag.
  - by eapply board_step_agreed.
  - by eapply place_agreed.
  - by eapply cancel_agreed.
  - by eapply exchange_deposit_agreed.
  - by eapply prepare_agreed.
  - by eapply confirm_agreed.
Qed.

Lemma agreed_new : agreed new_board.
Proof.
  split; try (by intros ? ?); try (by intros e d; cbn; rewrite lookup_empty); try (by intros i t r x; cbn; rewrite lookup_empty).
  split; [|done]. split; try done.
Qed.

Lemma market_reconciles tb :
  rtc market_step new_board tb -> reconcile tb = [].
Proof.
  intros Hs. apply agreed_reconciles. pose proof agreed_new as Hag. revert Hag.
  induction Hs as [tb|tb tb1 tb' Hs _ IH]; [done|]. intros Hag. apply IH. by eapply market_step_agreed.
Qed.

(** C14: Whatever sequence of marketplace operations, placed and cancelled orders,
    exchange deposits the ledger has room for and payments a board has been through
    since it was empty, where an attempt is cleared only once its leg is owed no
    longer (every caller records the payment first), reconciling it reports nothing:
    every consumed deposit is named by a task, a dispute or an account, every lock has
    an open order of its owner behind it, and every submitted task an attempt. *)
Theorem operations_leave_nothing_to_reconcile tb :
  rtc market_step new_board tb -> reconcile tb = [].
Proof. apply market_reconciles. Qed.

End journal.

(** The report holds a finding exactly for each consumed deposit nothing refers to, each
    account locked with no open order, and each submitted task without an attempt,
    with the identity of the record. *)
Theorem reconcile_reports_exactly tb f : f ∈ reconcile tb <-> findings_of tb f.
Proof. apply elem_of_reconcile. Qed.

(** ** The disk a hub comes back from *)
Section restart.
Context `{Primitives, HubKeys}.

(** What a settlement handler does to the disk: a task is the one of the live
    board, or is as before with its attempts. *)
Definition disk_follows (h h' : Hub) : Prop :=
  forall i, tb_tasks (disk h') !! i = tb_tasks (live h') !! i \/
    (tb_tasks (disk h') !! i = tb_tasks (disk h) !! i /\
     forall r, is_Some (tb_attempts (disk h) !! (i, r)) -> is_Some (tb_attempts (disk h') !! (i, r))).
Definition follows (h h' : Hub) : Prop :=
  board_wf (live h) -> tracked (live h) -> tracked (live h') /\ disk_follows h h'.

Lemma follows_refl h : follows h h.
Proof. intros _ Htr. split; [done|]. intros i. by right. Qed.

Lemma put_attempts_grow l m k : is_Some (m !! k) -> is_Some (put_attempts l m !! k).
Proof. intros Hk. destruct (put_attempts_lookup l m k) as [[-> _]|(a & _ & _ & ->)]; eauto. Qed.

Lemma recorded_tracked l : forall tb, board_wf tb -> tracked tb ->
  board_wf (foldl record_payout_attempt tb l) /\ tracked (foldl record_payout_attempt tb l).
Proof.
  induction l as [|a l IH]; intros tb Hwf Htr; [done|]. cbn [foldl].
  assert (Hs : board_step tb (record_payout_attempt tb a)) by constructor.
  destruct (board_step_keeps _ _ Hs Hwf) as [Hwf' _]. apply IH; [done|].
  eapply board_step_tracked; [exact Hs|done|apply record_keeps_attempts|done].
Qed.

Lemma saved_follow commits l d d' b i :
  save_attempts commits 0 d l = (d', b) ->
  tb_tasks d' !! i = tb_tasks d !! i /\
  forall r, is_Some (tb_attempts d !! (i, r)) -> is_Some (tb_attempts d' !! (i, r)).
Proof.
  intros Es. destruct (save_attempts_spec _ _ _ _ _ _ Es) as (n & Et & _ & Ea & _ & _). rewrite Et. split; [done|].
  intros r Hr. rewrite Ea. by apply put_attempts_grow.
Qed.

Lemma carry_out_follows env h id tx l h' r : carry_out env h id tx l = (h', r) -> follows h h'.
Proof.
  unfold carry_out. destruct (save_attempts _ _ _ _) as [d b] eqn:Es.
  destruct b; cbn; intros [= <- <-] Hwf Htr; (split; [|intros i; destruct (saved_follow _ _ _ _ _ i Es) as [Et Ha]]); try done.
  - by apply recorded_tracked.
  - destruct (recorded_tracked l _ Hwf Htr) as [Hwf' _]. cbn.
    destruct (tb_tasks (foldl record_payout_attempt (live h) l) !! id) as [t|] eqn:El; [|by right].
    unfold save_task. destruct (se_task_commits env); [|by right]. cbn.
    destruct (decide (i = t_id t)) as [->|Hne]; [|rewrite lookup_insert_ne by done; by right].
    rewrite lookup_insert_eq. left. by rewrite (wf_id _ _ (Hwf' _ _ El)), El.
  - by right.
Qed.

Lemma submit_task_payout_follows env h id sk src rs ch h' r :
  submit_task_payout env h id sk src rs ch = (h', r) -> follows h h'.
Proof.
  unfold submit_task_payout. destruct (plan_task_payout _ _ _ _ _ _ _) as [[tx l]|e|].
  - apply carry_out_follows.
  - intros [= <- _]. apply follows_refl.
  - intros [= <- _]. apply follows_refl.
Qed.
Lemma reported_follows h0 h r h' b :
  follows h0 h -> reported (h, r) = Ok (h', b) -> follows h0 h'.
Proof. unfold reported. destruct r; [by intros ? [= <- _]..|done]. Qed.

Lemma settle_one_payout_follows env h id r x h' b : settle_one_payout env h id r x = Ok (h', b) -> follows h h'.
Proof.
  unfold settle_one_payout, submit_bounty_payout.
  repeat (case_match; [|]); try (intros [= <- _]; apply follows_refl).
  destruct (submit_task_payout _ _ _ _ _ _ _) as [h1 o] eqn:E. intros Hr. eapply reported_follows; [|exact Hr].
  by eapply submit_task_payout_follows.
Qed.
Lemma settle_escrow_follows env h id d h' b : settle_escrow_funded_task env h id d = Ok (h', b) -> follows h h'.
Proof.
  unfold settle_escrow_funded_task. destruct (tb_tasks (live h) !! id) as [t|]; [|intros [= <- _]; apply follows_refl].
  destruct (owed_payouts t); [intros [= <- _]; apply follows_refl|].
  destruct (submit_task_payout _ _ _ _ _ _ _) as [h1 o] eqn:E. intros Hr. eapply reported_follows; [|exact Hr].
  by eapply submit_task_payout_follows.
Qed.

(** The board as it was: a write that did not commit is undone. *)
Lemma tracked_same tb tb' :
  tb_tasks tb' = tb_tasks tb -> (forall k, is_Some (tb_attempts tb !! k) -> is_Some (tb_attempts tb' !! k)) ->
  tracked tb -> tracked tb'.
Proof. intros Et Ha Htr i t r x. rewrite Et. intros Ht Hs Hr. by eapply Ha, Htr. Qed.

(** Dropping the attempts of one task that no longer waits for them. *)
Lemma dropped_follows h h' id t' (gone : PublicKey -> Prop) :
  tb_tasks (live h') = <[id := t']> (tb_tasks (live h)) -> tb_tasks (disk h') = <[id := t']> (tb_tasks (disk h)) ->
  (forall i r, (i = id -> gone r -> False) -> tb_attempts (live h') !! (i, r) = tb_attempts (live h) !! (i, r)) ->
  (forall i r, i <> id -> tb_attempts (disk h') !! (i, r) = tb_attempts (disk h) !! (i, r)) ->
  (status t' = Submitted -> forall r x, (r, x) ∈ owed_payouts t' -> ~ gone r /\ is_Some (tb_attempts (live h) !! (id, r))) ->
  follows h h'.
Proof.
  intros El Ed Al Ad Ho _ Htr. split.
  - intros i t r x. rewrite El. destruct (decide (i = id)) as [->|Hne].
    + rewrite lookup_insert_eq. intros [= <-] Hs Hr. destruct (Ho Hs r x Hr) as [Hg Ha].
      rewrite Al; [done|]. by intros _.
    + rewrite lookup_insert_ne by done. intros Ht Hs Hr. rewrite Al by done. by eapply Htr.
  - intros i. rewrite Ed, El. destruct (decide (i = id)) as [->|Hne]; [left; by rewrite !lookup_insert_eq|].
    right. rewrite lookup_insert_ne by done. split; [done|]. intros r. by rewrite Ad.
Qed.

(** A hub whose boards are as they were. *)
Lemma undone_follows h h' :
  tb_tasks (live h') = tb_tasks (live h) -> tb_attempts (live h') = tb_attempts (live h) -> disk h' = disk h ->
  follows h h'.
Proof.
  intros Et Ea Ed _ Htr. split; [apply (tracked_same (live h)); [done|by rewrite Ea|done]|].
  intros i. right. by rewrite Ed.
Qed.

Lemma confirmed_payout_follows commits now h id r amount h' b :
  legs_ok h -> tracked (live h) -> is_Some (payout_attempt (live h) id r) ->
  record_confirmed_payout commits now h id r amount = Ok (h', b) -> follows h h'.
Proof.
  intros Hok Htr Ha. unfold record_confirmed_payout.
  destruct (mark_recipient_paid _ _ _ _ _) as [[tb1 full]|e|] eqn:Em; [|intros [= <- <-]; apply follows_refl|done].
  destruct (mark_paid_facts _ _ _ _ _ _ _ (so_live _ _ Hok) Em) as (t & t' & Ht & Hs & Et & Hwf' & Hh & Hp & Howe & Ea & Ed).
  pose proof (mark_recipient_paid_orderly _ _ _ _ _ _ _ Em) as Hord.
  cbn [clear_payout_attempt fst with_attempts tb_tasks]. rewrite Et, lookup_insert_eq. cbn.
  destruct commits; cbn [save_confirmed_payout]; intros [= <- <-].
  - apply (dropped_follows _ _ id t' (fun q => q = r)); cbn; [done|by rewrite (wf_id _ _ Hwf')| | |].
    + intros i q Hq. rewrite Ea, delete_leg. case_decide as C; [|done]. destruct C as [C1 C2]. cbn in *. by destruct (Hq C1 C2).
    + intros i q Hne. rewrite (wf_id _ _ Hwf'), delete_leg. case_decide as C; [|done]. by destruct C.
    + intros Hst q x Hq. destruct (Howe q x Hq) as [Hq' Hne]. split; [done|].
      destruct (or_submits _ _ Hord id t') as (t0 & Ht0 & Hs0); [by rewrite Et, lookup_insert_eq|done|].
      replace t0 with t in Hs0 by congruence. by apply (Htr id t q x).
  - destruct (payout_attempt (live h) id r) as [a|] eqn:Eat; [|by destruct Ha].
    destruct (so_live_attempts _ _ Hok (id, r) a Eat) as [Hkey _].
    apply undone_follows; [| |done]; cbn; rewrite Ht; cbn; rewrite ?Et, ?Ea.
    + rewrite (wf_id _ _ (so_live _ _ Hok id t Ht)), insert_insert_eq. by apply insert_id.
    + rewrite Hkey. apply insert_delete_id, Eat.
Qed.

Lemma abandon_follows commits h a h' : legs_ok h -> abandon_payout commits h a = Ok h' -> follows h h'.
Proof.
  intros Hok. unfold abandon_payout. set (id := pa_task_id a).
  destruct (mark_payout_failed _ _) as [[tb1 dropped]|e|] eqn:Em; [|intros [= <-]; apply follows_refl|done].
  destruct (mark_payout_failed_shape _ _ _ _ Em) as (t & Ht & Hs & Et & Hatt).
  destruct (mark_payout_failed_dropped _ _ _ _ Em) as [Ed Hdrop].
  assert (Hid : t_id t = id) by (apply (wf_id _ _ (so_live _ _ Hok id t Ht))).
  rewrite Et, lookup_insert_eq. cbn.
  destruct commits; cbn [save_task_and_drop_payout_attempts]; intros [= <-].
  - set (ks := _ <$> dropped). destruct (clear_legs_frame ks (restore_task (disk h) (set_status t PayoutFailed))) as [F1 _].
    pose proof (dropped_on_disk h id dropped (set_status t PayoutFailed) Hok Hdrop) as Ad. fold ks in Ad.
    apply (dropped_follows _ _ id (set_status t PayoutFailed) (fun _ => True)); cbn; [done| | | |done].
    + etrans; [exact F1|]. cbn. by rewrite Hid.
    + intros i r Hr. rewrite Hatt. cbn. case_decide; [|done]. by destruct Hr.
    + intros i r Hne. etrans; [exact (Ad (i, r))|]. case_decide as C; [|done]. by destruct C.
  - destruct (restore_legs_frame dropped (restore_task tb1 t)) as (F1 & _ & F2).
    apply undone_follows; [| |done]; cbn; rewrite Ht; rewrite ?F1, ?F2; cbn.
    + rewrite Et, Hid, insert_insert_eq. by apply insert_id.
    + eapply restored_legs; [apply Hok|done|done].
Qed.

Lemma resend_follows env h a h' : resend_lost_payout env h a = Ok h' -> follows h h'.
Proof.
  unfold resend_lost_payout. destruct (tb_tasks (live h) !! pa_task_id a) as [t|]; [|intros [= <-]; apply follows_refl].
  case_match; [intros [= <-]; apply follows_refl|]. destruct (pa_transaction a) as [tx|].
  - intros Hs. inv_ok. destruct (save_attempts _ _ _ _) as [d b] eqn:Es.
    destruct b; cbn in Hs; injection Hs as <-; intros Hwf Htr; (split; [|intros i; right; by eapply saved_follow]); [|done].
    by apply recorded_tracked.
  - intros Hs. inv_ok. destruct r as [h1 b]. injection Hs as <-.
    destruct (funding (live h) t); [by eapply settle_escrow_follows|]. unfold submit_bounty_payout in *.
    destruct (submit_task_payout _ _ _ _ _ _ _) as [h2 o] eqn:E. eapply reported_follows; [|eassumption].
    by eapply submit_task_payout_follows.
Qed.

Lemma works_follow h h' : legs_ok h -> tracked (live h) -> works h h' -> follows h h'.
Proof.
  intros Hok Htr [env id t r x h1 b _ _ _ _ _ Hr|env id t e deposit h1 b _ _ _ _ _ _ _ Hr|env a h1 b _ Hr].
  - by eapply settle_one_payout_follows.
  - by eapply settle_escrow_follows.
  - unfold resolve_payout_attempt in Hr. repeat (case_match; try (injection Hr as <- _; apply follows_refl)).
    + match goal with F : negb _ = false |- _ => apply negb_false_iff, bool_decide_eq_true in F; rename F into Ha end.
      eapply confirmed_payout_follows; [done..| |exact Hr]. rewrite Ha. eauto.
    + inv_ok. injection Hr as <- _. by eapply abandon_follows.
    + inv_ok. injection Hr as <- _. by eapply resend_follows.
Qed.

(** ** Histories *)
Definition waits (h : Hub) : Prop := tracked (live h) /\ tracked (disk h).

Lemma agree_attempts l d k : settle_ok l d -> is_Some (tb_attempts l !! k) <-> is_Some (tb_attempts d !! k).
Proof.
  intros Hok. pose proof (so_agree _ _ Hok k) as E. unfold sent_tx in E.
  destruct (tb_attempts l !! k), (tb_attempts d !! k); cbn in E; try discriminate; split; eauto.
Qed.

Lemma follows_waits h h' : legs_ok h' -> board_wf (live h) -> follows h h' -> waits h -> waits h'.
Proof.
  intros Hok Hwf Hf [Hl Hd]. destruct (Hf Hwf Hl) as [Hl' Hdf]. split; [done|]. intros i t r x Ht Hs Hr.
  destruct (Hdf i) as [E|[E Ha]]; rewrite E in Ht; [|by eapply Ha, Hd].
  apply (agree_attempts (live h')); [done|]. by eapply Hl'.
Qed.

Lemma hub_step_waits h h' : hub_step h h' -> legs_ok h -> waits h -> waits h'.
Proof.
  intros Hs Hok Hw. pose proof (hub_step_keeps _ _ Hok Hs) as [Hok' _]. pose proof (so_live _ _ Hok) as Hwf.
  destruct Hs as [l' Hs Ha Hp|h1 El Al Ad Td Dl Hf|h1 Hwk|h1 Hwk|].
  - destruct Hw as [Hl Hd]. split; [|done]. eapply board_step_tracked; [exact Hs|done| |done].
    intros i t r x _ _ _ Hk. cbn. by rewrite Ha.
  - apply (follows_waits h); [done..| |done]. intros _ Htr. split; [apply (tracked_same (live h)); [done|by rewrite Al|done]|].
    intros i. destruct (Td i) as [E|E]; [right; by rewrite Ad|left; by rewrite El].
  - apply (follows_waits h); [done..| |done]. apply works_follow; [done|apply Hw|done].
  - destruct (works_keeps h h1 Hok Hwk) as [Hok1 _].
    assert (Hw1 : waits h1) by (apply (follows_waits h); [done..|apply works_follow; [done|apply Hw|done]|done]).
    split; apply Hw1.
  - split; apply Hw.
Qed.

Lemma filed_attempts tb : attempts_ok tb -> attempts_filed tb.
Proof. intros Hok k a Ha. by apply Hok. Qed.

(** C11: Over any history of board operations, settlements, confirmations, failed writes,
    crashes between a settlement's records and its send, and restarts, in which a task
    is settled only once it is on disk with its payouts fixed and the leg records of
    one escrow payout are written all or none, every task that reads Submitted, live
    or on the disk the hub would come back from, has a payout attempt that is being
    waited for: the boot check of the restored board reports none. *)
Theorem restart_forgets_no_payout h h' :
  legs_ok h -> waits h -> rtc hub_step h h' ->
  check_submitted_tasks_without_payout_attempts (disk h') [] = [] /\
  check_submitted_tasks_without_payout_attempts (live h') [] = [].
Proof.
  intros Hok Hw Hs. assert (legs_ok h' /\ waits h') as [Hok' [Hl Hd]].
  { revert Hok Hw. induction Hs as [h|h h1 h' Hs _ IH]; [done|]. intros Hok Hw. apply IH.
    - by apply (hub_step_keeps _ _ Hok Hs).
    - by eapply hub_step_waits. }
  split; apply submitted_silent; try done; try apply Hok'; apply filed_attempts, Hok'.
Qed.
End restart.

(** * ToyReconcile: a board that agrees with itself, and one that does not

    An escrowed task, an exchange deposit and a resting bid, reached by the hub's
    operations; a payout whose task reads [Submitted] when the hub goes down; and
    boards whose records disagree. *)

From S2P Require Import ToyBoard ToySettle.

Module ToyReconcile.
Import Crypto.Toy.

(** ** A market *)
Definition fair2 : TaskBoard := Eval vm_compute in
  (reserve_escrow (fun id => [90; id]) pot1 40 6 ann 50000 FundExchangeAccount 1000).1.
Definition fair3 : TaskBoard := Eval vm_compute in
  match confirm_exchange_deposit fair2 40 70000 1000 7 with Ok (tb, _) => tb | _ => fair2 end.
Definition fair4 : TaskBoard := Eval vm_compute in
  match handle_place_order fair3 [9] 50 (fun n => 60 + N.of_nat n) ann Buy 5 100 8 with Ok (tb, _) => tb | _ => fair3 end.

Lemma no_attempts_kept tb tb' : tb_attempts tb = ∅ -> clears_unowed tb tb'.
Proof. intros E id r. rewrite E, lookup_empty. by intros [? ?]. Qed.

Lemma operations_leave_nothing_to_reconcile_witness :
  reconcile fair4 = [] /\ pd_status <$> btree_values (tb_deposits fair4) = [Consumed; Consumed] /\
  locked_base (exchange_account fair4 ann) = 500.
Proof.
  split; [|split; by_run]. apply operations_leave_nothing_to_reconcile.
  apply (rtc_l _ _ pot0); [apply (mk_board _ pot0); [exact (bs_reserve new_board (fun id => [90; id]) 30 0 asker 1101
    (FundConsensusTask (mkConsensusIntent "q" 101 2 1000 60 0 ∅)) 1000)|by apply no_attempts_kept]|].
  apply (rtc_l _ _ pot1); [apply mk_board; [eapply (bs_confirm_escrow pot0 30 31 1101 5 5); by_run|by apply no_attempts_kept]|].
  apply (rtc_l _ _ fair2); [apply mk_board; [exact (bs_reserve pot1 (fun id => [90; id]) 40 6 ann 50000 FundExchangeAccount 1000)
    |by apply no_attempts_kept]|].
  apply (rtc_l _ _ fair3); [eapply (mk_deposit fair2 40 70000 1000 7); [vm_compute; discriminate|by_run]|].
  apply rtc_once. eapply (mk_place fair3 [9] 50 (fun n => 60 + N.of_nat n) ann Buy 5 100 8); [by_run|vm_compute; discriminate|by_run].
Defined.

(** ** Records that disagree *)
Definition lone_deposit : TaskBoard := with_tasks pot1 ∅.
Definition lone_lock : TaskBoard := with_orders fair4 ∅.
Definition lone_payout : TaskBoard := with_attempts (live desk3) ∅.

Example disagreements_are_reported :
  ((label ∘ f_kind) <$> reconcile lone_deposit, (label ∘ f_kind) <$> reconcile lone_lock,
   (label ∘ f_kind) <$> reconcile lone_payout) =
  (["orphaned_consumed_deposit"], ["locked_balance_with_no_open_order"],
   ["submitted_task_with_no_payout_attempt"]).
Proof. by_run. Qed.

(** ** A crash after the second leg was sent *)
Definition desk1b : Hub := Eval vm_compute in
  hub_of desk1 (settle_one_payout (mkSubmitEnv (Some [(false, mkOutput 8000 101 operator)]) (fun i => 600 + N.of_nat i) 30
    (fun _ => true) true true) desk1 8 ben 50).
Definition desk1c : Hub := Eval vm_compute in rebooted desk1b (outbox desk1).

Lemma desk0_waits : waits desk0.
Proof.
  assert (Htr : tracked cons6).
  { intros i t r x Ht Hs _. exfalso.
    assert (Hall : map_Forall (fun _ t => status t <> Submitted) (tb_tasks cons6))
      by (apply (bool_decide_unpack _); vm_compute; exact I). exact (Hall i t Ht Hs). }
  by split.
Qed.

Lemma desk1b_works : works desk1 desk1b.
Proof.
  eapply (wk_operator desk1 (mkSubmitEnv (Some [(false, mkOutput 8000 101 operator)]) (fun i => 600 + N.of_nat i) 30
    (fun _ => true) true true) 8 (task_of (live desk1) 8) ben 50 desk1b true); try by_run.
  - exists (task_of (disk desk1) 8). split; by_run.
  - apply (bool_decide_unpack _). vm_compute. exact I.
Qed.

Lemma restart_forgets_no_payout_witness :
  status (task_of (disk desk1c) 8) = Submitted /\
  check_submitted_tasks_without_payout_attempts (disk desk1c) [] = [] /\
  check_submitted_tasks_without_payout_attempts (live desk1c) [] = [].
Proof.
  split; [by_run|]. apply (restart_forgets_no_payout desk0 desk1c desk0_ok desk0_waits).
  apply (rtc_l _ _ desk1); [apply hs_work; exact (proj1 desk1_sends)|].
  apply rtc_once. exact (hs_crash desk1 desk1b desk1b_works).
Defined.
End ToyReconcile.
