(* ===== verification/RateLimit.v ===== *)
(** * RateLimit: per-network and per-key budgets

    Models [hub/src/rate_limit.rs]: the tiers of the routes, the fixed windows,
    the address a request is charged to behind trusted proxies, and the networks
    the faucet counts by. The table of windows is the [DashMap]; each call works
    on one entry at a time. *)

From S2P Require Import Prelude Types IpAddr.
From Stdlib Require Import Ascii.

(** ** Tiers *)
Definition WINDOW_SECONDS : Z := 60.
Definition MAX_REQUESTS_PER_WINDOW : N := 120.
Definition MAX_SIGNED_REQUESTS_PER_PUBKEY_PER_WINDOW : N := 60.

Inductive Tier : Type := Health | Metrics | Read | Write | Chain.
#[global] Instance Tier_eq_dec : EqDecision Tier.
Proof. solve_decision. Defined.

(** [Tier::max_per_window], [Tier::metric_index] *)
Definition tier_max (t : Tier) : N :=
  match t with
  | Health => 120
  | Metrics => 120
  | Read => MAX_REQUESTS_PER_WINDOW
  | Write => 60
  | Chain => 20
  end.
Definition metric_index (t : Tier) : nat :=
  match t with Health => 0 | Metrics => 1 | Read => 2 | Write => 3 | Chain => 4 end%nat.

(** [tier_for]: the method by name, the path's non-empty segments. *)
Definition segments_of (path : text) : list string :=
  to_string <$> base.filter (fun s => s <> []) (split "/"%char path).
Definition tier_for (method : string) (path : text) : Tier :=
  let segments := segments_of path in
  if bool_decide (method = "GET"%string) || bool_decide (method = "HEAD"%string)
  then match segments with
       | ["health"%string] => Health
       | ["metrics"%string] => Metrics
       | _ => Read
       end
  else match segments with
       | ["tasks"%string] | ["tasks"%string; "consensus"%string] => Chain
       | ["tasks"%string; "escrow"%string; _; "confirm"%string] => Chain
       | ["tasks"%string; _; "submit"%string] => Chain
       | ["tasks"%string; _; "close"%string] | ["tasks"%string; _; "pick"%string] => Chain
       | ["tasks"%string; _; "dispute"%string; "confirm"%string]
       | ["tasks"%string; _; "dispute"%string; "resolve"%string] => Chain
       | ["faucet"%string] => Chain
       | ["wallet"%string; "send"%string] => Chain
       | ["exchange"%string; "deposit"%string; _; "confirm"%string] | ["exchange"%string; "withdraw"%string] => Chain
       | _ => Write
       end.

(** ** Budgets *)
Inductive Bucket : Type := Ip (ip : IpAddr) (t : Tier) | Pubkey (key : string).
#[global] Instance Bucket_eq_dec : EqDecision Bucket.
Proof. solve_decision. Defined.

Definition encode_ip (ip : IpAddr) : N * N * N * N + list N :=
  match ip with V4 a b c d => inl (a, b, c, d) | V6 s => inr s end.
Definition decode_ip (x : N * N * N * N + list N) : IpAddr :=
  match x with inl (a, b, c, d) => V4 a b c d | inr s => V6 s end.
#[global] Instance IpAddr_countable : Countable IpAddr.
Proof. refine (inj_countable' encode_ip decode_ip _). by intros [a b c d|s]. Defined.
#[global] Instance Tier_countable : Countable Tier.
Proof.
  refine (inj_countable' metric_index
    (fun n => match n with 0 => Health | 1 => Metrics | 2 => Read | 3 => Write | _ => Chain end%nat) _).
  by intros [].
Defined.
#[global] Instance Bucket_countable : Countable Bucket.
Proof.
  refine (inj_countable' (fun b => match b with Ip ip t => inl (ip, t) | Pubkey k => inr k end)
    (fun x => match x with inl (ip, t) => Ip ip t | inr k => Pubkey k end) _).
  by intros [].
Defined.

(** [Bucket::max_per_window] *)
Definition bucket_max (b : Bucket) : N :=
  match b with
  | Ip _ t => tier_max t
  | Pubkey _ => MAX_SIGNED_REQUESTS_PER_PUBKEY_PER_WINDOW
  end.

Record Window := mkWindow { started_at : DateTime; w_count : N }.
Abbreviation RateLimitTable := (gmap Bucket Window).
Definition new_table : RateLimitTable := ∅.

Definition U32_LIMIT : N := 4294967296.

(** [check_and_record]; the count is a [u32]. *)
Definition check_and_record {E} (table : RateLimitTable) (bucket : Bucket) (now : DateTime)
    : outcome E (RateLimitTable * bool) :=
  let limit := bucket_max bucket in
  let entry := default (mkWindow now 0) (table !! bucket) in
  let entry := if (seconds WINDOW_SECONDS <? now - started_at entry)%Z then mkWindow now 0 else entry in
  if w_count entry + 1 <? U32_LIMIT
  then let entry := mkWindow (started_at entry) (w_count entry + 1) in
       Ok (<[bucket := entry]> table, w_count entry <=? limit)
  else Panic.

(** [cleanup] *)
Definition cleanup (table : RateLimitTable) (now : DateTime) : RateLimitTable :=
  base.filter (fun e : Bucket * Window => (now - seconds WINDOW_SECONDS < started_at e.2)%Z) table.

(** [charge_pubkey]: [false] is [QuotaExceeded]. *)
Definition charge_pubkey {E} (table : RateLimitTable) (key : string) (now : DateTime)
    : outcome E (RateLimitTable * bool) := check_and_record table (Pubkey key) now.

(** ** Networks *)

(** [prefix_of], [wide_prefix_of], [widen_prefix] *)
Definition prefix_of (ip : IpAddr) : string :=
  to_string match to_canonical ip with
            | V4 a b c _ => dec a ++ "."%char :: dec b ++ "."%char :: dec c ++ of_string ".0/24"
            | V6 s => hex (nth 0 s 0) ++ ":"%char :: hex (nth 1 s 0) ++ ":"%char :: hex (nth 2 s 0) ++
                      ":"%char :: hex (nth 3 s 0) ++ of_string "::/64"
            end.
Definition wide_prefix_of (ip : IpAddr) : string :=
  to_string match to_canonical ip with
            | V4 a b _ _ => dec a ++ "."%char :: dec b ++ of_string ".0.0/16"
            | V6 s => hex (nth 0 s 0) ++ ":"%char :: hex (nth 1 s 0) ++ ":"%char :: hex (nth 2 s 0) ++
                      of_string "::/48"
            end.
Definition widen_prefix (prefix : string) : option string :=
  '(address, _) ← split_once "/"%char (of_string prefix);
  wide_prefix_of <$> parse_ip address.

(** [limit_key] *)
Definition limit_key (ip : IpAddr) : IpAddr :=
  match to_canonical ip with
  | V4 a b c d => V4 a b c d
  | V6 s => V6 [nth 0 s 0; nth 1 s 0; nth 2 s 0; nth 3 s 0; 0; 0; 0; 0]
  end.

(** ** The client behind trusted proxies *)
Abbreviation TrustedProxies := (gset IpAddr).

(** [parse_trusted_proxies]: [None] is the [AddrParseError]. *)
Fixpoint parse_all (l : list text) : option (list IpAddr) :=
  match l with
  | [] => Some []
  | s :: l' => ip ← parse_ip s; rest ← parse_all l'; Some (ip :: rest)
  end.
Definition parse_trusted_proxies (spec : text) : option TrustedProxies :=
  list_to_set <$> parse_all (base.filter (fun s => s <> []) (trim <$> split ","%char spec)).

(** [parse_forwarded_entry] *)
Definition parse_forwarded_entry (entry : text) : option IpAddr :=
  let entry := trim entry in
  match parse_ip entry with
  | Some address => Some address
  | None =>
      match read_given_char "["%char entry with
      | Some rest => '(inside, _) ← split_once "]"%char rest; parse_ip inside
      | None =>
          '(host, port) ← split_once ":"%char entry;
          if contains ":"%char host || contains ":"%char port then None else parse_ip host
      end
  end.

(** The walk of [client_ip] over the reversed entries. *)
Fixpoint walk (peer : IpAddr) (trusted : TrustedProxies) (entries : list text) : IpAddr :=
  match entries with
  | [] => peer
  | entry :: rest =>
      match parse_forwarded_entry entry with
      | None => peer
      | Some address => if bool_decide (address ∈ trusted) then walk peer trusted rest else address
      end
  end.
(** [client_ip]; [headers] are the [x-forwarded-for] values that are text. *)
Definition client_ip (headers : list text) (connect_addr : IpAddr) (trusted : TrustedProxies) : IpAddr :=
  let peer := to_canonical connect_addr in
  if negb (bool_decide (peer ∈ trusted)) then peer
  else walk peer trusted (rev (headers ≫= split ","%char)).

(** [middleware]: the table after the charge, and the address for the handler,
    or [None] for a 429. *)
Definition middleware {E} (table : RateLimitTable) (trusted : TrustedProxies) (method : string) (path : text)
    (headers : list text) (connect_addr : IpAddr) (now : DateTime)
    : outcome E (RateLimitTable * option IpAddr) :=
  let ip := client_ip headers connect_addr trusted in
  let tier := tier_for method path in
  '(table, ok) ← check_and_record table (Ip (limit_key ip) tier) now;
  Ok (table, if ok : bool then Some ip else None).

(** * RateLimitTheorems: what the limits bound

    Over any run of requests and clean-ups, how much a client gets through in a
    window, and when one is refused; that a client cannot choose the address it
    is charged to; that a printed network can be widened. *)

(** ** Runs *)
Inductive event : Type := Request (b : Bucket) (at_ : DateTime) | Cleanup (at_ : DateTime).
Definition event_time (e : event) : DateTime := match e with Request _ t | Cleanup t => t end.

(** A decision, with the start of the window it fell in. *)
Record decision := mkDecision { d_bucket : Bucket; d_time : DateTime; d_start : DateTime; d_ok : bool }.

Definition serve (st : RateLimitTable * list decision) (e : event)
    : outcome False (RateLimitTable * list decision) :=
  match e with
  | Request b t =>
      '(table, ok) ← check_and_record st.1 b t;
      let s := match table !! b with Some w => started_at w | None => t end in
      Ok (table, st.2 ++ [mkDecision b t s ok])
  | Cleanup t => Ok (cleanup st.1 t, st.2)
  end.
Definition run (evs : list event) : outcome False (RateLimitTable * list decision) :=
  ofold serve (new_table, []) evs.

(** The clock does not run backwards. *)
Fixpoint ordered_from (now : DateTime) (evs : list event) : Prop :=
  match evs with
  | [] => True
  | e :: evs' => (now <= event_time e)%Z /\ ordered_from (event_time e) evs'
  end.
Definition ordered (evs : list event) : Prop :=
  match evs with [] => True | e :: _ => ordered_from (event_time e) evs end.

(** How many decisions of a log satisfy a property. *)
Definition tally (P : decision -> Prop) `{!forall d, Decision (P d)} (log : list decision) : N :=
  N.of_nat (length (base.filter P log)).

Abbreviation W := (seconds WINDOW_SECONDS).

Section bucket.
Context (b : Bucket).

Definition in_window (s : DateTime) (d : decision) : Prop := d_bucket d = b /\ d_start d = s.
Definition admitted_in (s : DateTime) (d : decision) : Prop := in_window s d /\ d_ok d = true.
#[global] Instance in_window_dec s d : Decision (in_window s d) := _.
#[global] Instance admitted_in_dec s d : Decision (admitted_in s d) := _.

(** The bucket's history at time [now]. *)
Record tracked (table : RateLimitTable) (log : list decision) (now : DateTime) : Prop := {
  tr_in : forall d, d ∈ log -> d_bucket d = b -> (d_start d <= d_time d <= d_start d + W)%Z;
  tr_apart : forall d d', d ∈ log -> d' ∈ log -> d_bucket d = b -> d_bucket d' = b ->
    d_start d = d_start d' \/ (d_start d + W <= d_start d')%Z \/ (d_start d' + W <= d_start d)%Z;
  tr_limit : forall s, tally (admitted_in s) log <= bucket_max b;
  tr_refused : forall i d, log !! i = Some d -> d_bucket d = b -> d_ok d = false ->
    bucket_max b < tally (in_window (d_start d)) (take (S i) log);
  tr_sorted : forall i j d d', log !! i = Some d -> log !! j = Some d' -> (i <= j)%nat -> (d_time d <= d_time d')%Z;
  tr_past : forall d, d ∈ log -> (d_time d <= now)%Z;
  tr_now : match table !! b with
           | Some w =>
               (started_at w <= now)%Z /\
               (forall d, d ∈ log -> d_bucket d = b -> d_start d = started_at w \/ (d_start d + W <= started_at w)%Z) /\
               tally (admitted_in (started_at w)) log <= w_count w <= tally (in_window (started_at w)) log
           | None => forall d, d ∈ log -> d_bucket d = b -> (d_start d + W <= now)%Z
           end
}.

Lemma tally_app (P : decision -> Prop) `{!forall d, Decision (P d)} l1 l2 : tally P (l1 ++ l2) = tally P l1 + tally P l2.
Proof. unfold tally. rewrite filter_app, length_app. lia. Qed.
Lemma tally_one (P : decision -> Prop) `{!forall d, Decision (P d)} d : tally P [d] = if decide (P d) then 1 else 0.
Proof. unfold tally. rewrite filter_cons, filter_nil. by case_decide. Qed.
Lemma tally_none (P : decision -> Prop) `{!forall d, Decision (P d)} l : (forall d, d ∈ l -> ~ P d) -> tally P l = 0.
Proof.
  intros Hn. unfold tally. destruct (base.filter P l) as [|d l'] eqn:E; [done|]. exfalso.
  assert (Hd : d ∈ base.filter P l) by (rewrite E; by left). apply list_elem_of_filter in Hd as [? ?]. by eapply Hn.
Qed.

Lemma tally_mono (P Q : decision -> Prop) `{!forall d, Decision (P d), !forall d, Decision (Q d)} l :
  (forall d, d ∈ l -> P d -> Q d) -> tally P l <= tally Q l.
Proof.
  induction l as [|d l IH]; intros Hpq; [done|]. change (d :: l) with ([d] ++ l). rewrite !tally_app, !tally_one.
  assert (tally P l <= tally Q l) by (apply IH; intros x Hx; apply Hpq; by right).
  pose proof (Hpq d ltac:(by left)). repeat case_decide; try lia. tauto.
Qed.

Lemma tracked_start now : tracked new_table [] now.
Proof.
  assert (Hn : forall d : decision, d ∈ [] -> False) by (intros d Hd; by apply not_elem_of_nil in Hd).
  split.
  - intros d Hd. by destruct (Hn d).
  - intros d d' Hd. by destruct (Hn d).
  - intros s. unfold tally. cbn. lia.
  - intros i d Hi. by rewrite lookup_nil in Hi.
  - intros i j d d' Hi. by rewrite lookup_nil in Hi.
  - intros d Hd. by destruct (Hn d).
  - unfold new_table. rewrite lookup_empty. intros d Hd. by destruct (Hn d).
Qed.

Lemma sorted_snoc (log : list decision) now x :
  (forall i j d d', log !! i = Some d -> log !! j = Some d' -> (i <= j)%nat -> (d_time d <= d_time d')%Z) ->
  (forall d, d ∈ log -> (d_time d <= now)%Z) -> (now <= d_time x)%Z ->
  forall i j d d', (log ++ [x]) !! i = Some d -> (log ++ [x]) !! j = Some d' -> (i <= j)%nat -> (d_time d <= d_time d')%Z.
Proof.
  intros Hs Hp Hx i j d d' Hi Hj Hij. apply lookup_snoc_Some in Hi as [[Li Hi]|[-> <-]]; apply lookup_snoc_Some in Hj as [[Lj Hj]|[-> <-]].
  - eauto.
  - specialize (Hp d (list_elem_of_lookup_2 _ _ _ Hi)). lia.
  - lia.
  - lia.
Qed.

(** Other buckets leave it alone. *)
Lemma tracked_other table log now table' d now' :
  tracked table log now -> (now <= now')%Z -> table' !! b = table !! b -> d_bucket d <> b -> d_time d = now' ->
  tracked table' (log ++ [d]) now'.
Proof.
  intros [T1 T2 T3 T6 T7 T4 T5] Hle E Hne Ht.
  assert (Hin : forall x, x ∈ log ++ [d] -> d_bucket x = b -> x ∈ log).
  { intros x Hx Hb. apply elem_of_app in Hx as [Hx|Hx]; [done|]. apply list_elem_of_singleton in Hx. congruence. }
  assert (Ha : forall s, tally (admitted_in s) (log ++ [d]) = tally (admitted_in s) log).
  { intros s. rewrite tally_app, tally_one, decide_False; [lia|]. by intros [[? _] _]. }
  assert (Hw : forall s, tally (in_window s) (log ++ [d]) = tally (in_window s) log).
  { intros s. rewrite tally_app, tally_one, decide_False; [lia|]. by intros [? _]. }
  split.
  - eauto.
  - eauto.
  - intros s. rewrite Ha. apply T3.
  - intros i x Hi Hb Hno. apply lookup_snoc_Some in Hi as [[Hlt Hi]|[_ ->]]; [|done].
    rewrite take_app_le by lia. auto.
  - apply (sorted_snoc log now); [done..|lia].
  - intros x Hx. apply elem_of_app in Hx as [Hx|Hx]; [specialize (T4 x Hx); lia|]. apply list_elem_of_singleton in Hx. subst. lia.
  - rewrite E. destruct (table !! b) as [w|].
    + destruct T5 as (A1 & A2 & A3). split; [lia|]. split; [eauto|]. by rewrite Ha, Hw.
    + intros x Hx Hb. specialize (T5 x (Hin x Hx Hb) Hb). lia.
Qed.

(** A request for the bucket, in the window that starts at [s]. *)
Lemma tracked_request table log now now' s n :
  tracked table log now -> (now <= now')%Z -> (s <= now' <= s + W)%Z ->
  (forall d, d ∈ log -> d_bucket d = b -> d_start d = s \/ (d_start d + W <= s)%Z) ->
  tally (admitted_in s) log <= n <= tally (in_window s) log ->
  tracked (<[b := mkWindow s (n + 1)]> table) (log ++ [mkDecision b now' s (n + 1 <=? bucket_max b)]) now'.
Proof.
  intros [T1 T2 T3 T6 T7 T4 T5] Hle Hs Hold [Hn1 Hn2]. set (d := mkDecision b now' s (n + 1 <=? bucket_max b)).
  assert (Ha : forall s', tally (admitted_in s') (log ++ [d]) =
            tally (admitted_in s') log + if decide (s' = s) then (if n + 1 <=? bucket_max b then 1 else 0) else 0).
  { intros s'. rewrite tally_app, tally_one. f_equal. unfold admitted_in, in_window. cbn.
    destruct (n + 1 <=? bucket_max b); repeat case_decide; naive_solver. }
  assert (Hw : tally (in_window s) (log ++ [d]) = tally (in_window s) log + 1).
  { rewrite tally_app, tally_one, decide_True; done. }
  assert (Hcap : forall s', tally (admitted_in s') (log ++ [d]) <= bucket_max b).
  { intros s'. rewrite Ha. case_decide as C; [subst s'|specialize (T3 s'); lia].
    destruct (N.leb_spec (n + 1) (bucket_max b)); [lia|]. specialize (T3 s). lia. }
  split.
  - intros x Hx Hb. apply elem_of_app in Hx as [Hx|Hx]; [auto|]. apply list_elem_of_singleton in Hx as ->. cbn. lia.
  - intros x y Hx Hy Hbx Hby. apply elem_of_app in Hx as [Hx|Hx]; apply elem_of_app in Hy as [Hy|Hy]; [auto|..];
      apply list_elem_of_singleton in Hy || apply list_elem_of_singleton in Hx.
    + subst y. destruct (Hold x Hx Hbx) as [E|E]; cbn; [by left|right; left; lia].
    + subst x. destruct (Hold y Hy Hby) as [E|E]; cbn; [by left|right; right; lia].
    + subst. apply list_elem_of_singleton in Hx as ->. by left.
  - exact Hcap.
  - intros i x Hi Hb Hno. apply lookup_snoc_Some in Hi as [[Hlt Hi]|[-> <-]]; [rewrite take_app_le by lia; auto|].
    rewrite take_ge by (rewrite length_app; cbn; lia). cbn in Hno |- *. rewrite Hw. apply N.leb_gt in Hno. lia.
  - by apply (sorted_snoc log now).
  - intros x Hx. apply elem_of_app in Hx as [Hx|Hx]; [specialize (T4 x Hx); lia|]. apply list_elem_of_singleton in Hx as ->. done.
  - rewrite lookup_insert_eq. cbn. split; [lia|]. split.
    + intros x Hx Hb. apply elem_of_app in Hx as [Hx|Hx]; [auto|]. apply list_elem_of_singleton in Hx as ->. by left.
    + rewrite Ha, Hw, decide_True by done. destruct (n + 1 <=? bucket_max b); lia.
Qed.

Lemma serve_tracked table log now e table' log' :
  tracked table log now -> (now <= event_time e)%Z -> serve (table, log) e = Ok (table', log') ->
  tracked table' log' (event_time e).
Proof.
  intros Htr Hle. destruct e as [c t|t]; cbn in *.
  - unfold check_and_record. set (w0 := default (mkWindow t 0) (table !! c)).
    set (w := if (W <? t - started_at w0)%Z then mkWindow t 0 else w0).
    destruct (w_count w + 1 <? U32_LIMIT); [|done]. cbn. rewrite lookup_insert_eq. cbn. intros [= <- <-].
    destruct (decide (c = b)) as [->|Hne]; [|apply (tracked_other table log now); try done; by rewrite lookup_insert_ne].
    assert (Hw : (started_at w <= t <= started_at w + W)%Z /\
      (forall d, d ∈ log -> d_bucket d = b -> d_start d = started_at w \/ (d_start d + W <= started_at w)%Z) /\
      tally (admitted_in (started_at w)) log <= w_count w <= tally (in_window (started_at w)) log).
    { assert (Hfresh : (forall d, d ∈ log -> d_bucket d = b -> (d_start d + W <= t)%Z) ->
        (t <= t <= t + W)%Z /\ (forall d, d ∈ log -> d_bucket d = b -> d_start d = t \/ (d_start d + W <= t)%Z) /\
        tally (admitted_in t) log <= 0 <= tally (in_window t) log).
      { intros Hp. split; [unfold WINDOW_SECONDS, seconds; lia|]. split; [auto|].
        rewrite tally_none; [lia|]. intros d Hd [[Hb Hs] _]. specialize (Hp d Hd Hb). unfold WINDOW_SECONDS, seconds in Hp. lia. }
      pose proof (tr_now _ _ _ Htr) as Hnow. unfold w, w0. destruct (table !! b) as [v|]; cbn.
      - destruct Hnow as (A1 & A2 & A3). destruct (Z.ltb_spec W (t - started_at v)) as [Hl|Hl]; cbn.
        + apply Hfresh. intros d Hd Hb. destruct (A2 d Hd Hb); unfold WINDOW_SECONDS, seconds in *; lia.
        + split; [lia|]. done.
      - destruct (Z.ltb_spec W (t - t)) as [Hl|Hl]; cbn; apply Hfresh; intros d Hd Hb; specialize (Hnow d Hd Hb); lia. }
    destruct Hw as (H1 & H2 & H3). by apply (tracked_request table log now).
  - intros [= <- <-]. destruct Htr as [T1 T2 T3 T6 T7 T4 T5]. split; try done.
    + intros d Hd. specialize (T4 d Hd). lia.
    + unfold cleanup. destruct (table !! b) as [v|] eqn:Ev.
      * destruct T5 as (A1 & A2 & A3). destruct (decide (t - W < started_at v)%Z) as [Hk|Hk].
        -- rewrite (map_lookup_filter_Some_2 _ _ b v) by done. split; [lia|done].
        -- rewrite map_lookup_filter_None_2 by (right; intros x Hx; replace x with v by congruence; exact Hk). intros d Hd Hb.
           destruct (A2 d Hd Hb); unfold WINDOW_SECONDS, seconds in *; lia.
      * rewrite map_lookup_filter_None_2 by (by left). intros d Hd Hb. specialize (T5 d Hd Hb). lia.
Qed.

Lemma run_tracked evs : forall table log now table' log',
  tracked table log now -> ordered_from now evs -> ofold serve (table, log) evs = Ok (table', log') ->
  exists now', tracked table' log' now'.
Proof.
  induction evs as [|e evs IH]; intros table log now table' log' Htr Ho Hr; cbn in Hr.
  - injection Hr as -> ->. eauto.
  - apply bind_Ok in Hr as ([t1 l1] & Hs & Hr). destruct Ho as [Hle Ho].
    eapply IH; [by eapply serve_tracked|done|done].
Qed.

(** The windows that meet an interval of one window's length are at most two. *)
Lemma interval_bound table log now a :
  tracked table log now ->
  tally (fun d => d_bucket d = b /\ d_ok d = true /\ (a <= d_time d < a + W)%Z) log <= 2 * bucket_max b.
Proof.
  intros Htr. pose (P := fun d => d_bucket d = b /\ d_ok d = true /\ (a <= d_time d < a + W)%Z).
  assert (Hhalf : forall (Q : decision -> Prop) `{!forall d, Decision (Q d)},
    (forall d d', d ∈ log -> d' ∈ log -> P d -> P d' -> Q d -> Q d' -> d_start d = d_start d') ->
    tally (fun d => P d /\ Q d) log <= bucket_max b).
  { intros Q HQ Hsame. destruct (base.filter (fun d => P d /\ Q d) log) as [|d0 l] eqn:E; [unfold tally; rewrite E; cbn; lia|].
    assert (Hd0 : d0 ∈ base.filter (fun d => P d /\ Q d) log) by (rewrite E; by left).
    apply list_elem_of_filter in Hd0 as [[HP0 HQ0] Hin0]. etrans; [|apply (tr_limit _ _ _ Htr (d_start d0))].
    apply tally_mono. intros d Hd [HP HQd]. split; [split; [apply HP|by apply Hsame]|apply HP]. }
  assert (Hsplit : tally P log <= tally (fun d => P d /\ (d_start d < a)%Z) log + tally (fun d => P d /\ (a <= d_start d)%Z) log).
  { clear. induction log as [|d l IH]; [done|]. change (d :: l) with ([d] ++ l). rewrite !tally_app, !tally_one.
    repeat case_decide; lia || (exfalso; lia || tauto || idtac). all: destruct (Z.lt_ge_cases (d_start d) a); tauto. }
  change (tally P log <= 2 * bucket_max b). etrans; [exact Hsplit|].
  assert (Hrange : forall d, d ∈ log -> P d -> (a - W <= d_start d < a + W)%Z).
  { intros d Hd (Hb & _ & Ht). pose proof (tr_in _ _ _ Htr d Hd Hb). lia. }
  assert (H1 : tally (fun d => P d /\ (d_start d < a)%Z) log <= bucket_max b).
  { apply (Hhalf (fun d => (d_start d < a)%Z)). intros d d' Hd Hd' HP HP' Q1 Q2. pose proof (Hrange d Hd HP). pose proof (Hrange d' Hd' HP').
    destruct (tr_apart _ _ _ Htr d d' Hd Hd' (proj1 HP) (proj1 HP')) as [?|[?|?]]; lia. }
  assert (H2 : tally (fun d => P d /\ (a <= d_start d)%Z) log <= bucket_max b).
  { apply (Hhalf (fun d => (a <= d_start d)%Z)). intros d d' Hd Hd' HP HP' Q1 Q2. pose proof (Hrange d Hd HP). pose proof (Hrange d' Hd' HP').
    destruct (tr_apart _ _ _ Htr d d' Hd Hd' (proj1 HP) (proj1 HP')) as [?|[?|?]]; lia. }
  lia.
Qed.

End bucket.

(** C24: Over any ordered run of requests and cleanups, no 60-second interval has more
    than twice a bucket's limit of accepted requests, and a request is refused only
    when more than the limit were made for that bucket in the 60 seconds up to it. *)
Theorem rate_limit_holds evs table log b :
  ordered evs -> run evs = Ok (table, log) ->
  (forall a, tally (fun d => d_bucket d = b /\ d_ok d = true /\ (a <= d_time d < a + W)%Z) log <= 2 * bucket_max b) /\
  (forall i d, log !! i = Some d -> d_bucket d = b -> d_ok d = false ->
     bucket_max b < tally (fun x => d_bucket x = b /\ (d_time d - W <= d_time x <= d_time d)%Z) (take (S i) log)).
Proof.
  intros Ho Hr. assert (Htr : exists now, tracked b table log now).
  { destruct evs as [|e evs]; [injection Hr as <- <-; exists 0%Z; apply tracked_start|].
    eapply run_tracked; [apply (tracked_start b (event_time e))|exact Ho|exact Hr]. }
  destruct Htr as [now Htr]. split; [intros a; by eapply interval_bound|].
  intros i d Hi Hb Hno. eapply N.lt_le_trans; [by eapply (tr_refused _ _ _ _ Htr)|]. apply tally_mono.
  intros x Hx [Hxb Hxs]. split; [done|].
  apply list_elem_of_lookup in Hx as [j Hj]. apply lookup_take_Some in Hj as [Hj Hlt].
  pose proof (tr_in _ _ _ _ Htr x (list_elem_of_lookup_2 _ _ _ Hj) Hxb).
  pose proof (tr_in _ _ _ _ Htr d (list_elem_of_lookup_2 _ _ _ Hi) Hb).
  pose proof (tr_sorted _ _ _ _ Htr j i x d Hj Hi ltac:(lia)). lia.
Qed.

(** ** The address a request is charged to *)
Lemma walk_past peer trusted ours rest :
  Forall (fun e => exists a, parse_forwarded_entry e = Some a /\ a ∈ trusted) ours ->
  walk peer trusted (ours ++ rest) = walk peer trusted rest.
Proof. induction 1 as [|e l (a & Ha & Hin) _ IH]; [done|]. cbn. rewrite Ha, bool_decide_eq_true_2 by done. exact IH. Qed.

(** The address a request is charged to is the connection's own unless that is a trusted
    proxy, and then the last forwarded address that is not a trusted proxy: nothing a
    client puts before the entry its proxy wrote changes it. *)
Theorem client_cannot_choose_its_address trusted connect_addr headers :
  let peer := to_canonical connect_addr in
  (peer ∉ trusted -> client_ip headers connect_addr trusted = peer) /\
  (peer ∈ trusted -> forall forged seen ours,
     (headers ≫= split ","%char) = forged ++ seen :: ours ->
     Forall (fun e => exists a, parse_forwarded_entry e = Some a /\ a ∈ trusted) ours ->
     (forall a, parse_forwarded_entry seen = Some a -> a ∉ trusted -> client_ip headers connect_addr trusted = a) /\
     (parse_forwarded_entry seen = None -> client_ip headers connect_addr trusted = peer)).
Proof.
  intros peer. unfold client_ip. fold peer. split.
  - intros Hn. by rewrite bool_decide_eq_false_2.
  - intros Hin forged seen ours E Hours. rewrite bool_decide_eq_true_2 by done. cbn [negb]. rewrite E.
    rewrite rev_app_distr. cbn [rev]. rewrite <-app_assoc. rewrite walk_past by (by apply Forall_rev).
    cbn [app walk]. split.
    + intros a Ha Hna. by rewrite Ha, bool_decide_eq_false_2.
    + intros Hn. by rewrite Hn.
Qed.

(** ** Networks *)
Lemma split_once_app c l r : c ∉ l -> split_once c (l ++ c :: r) = Some (l, r).
Proof.
  induction l as [|x l IH]; intros Hn; cbn; [by rewrite Ascii.eqb_refl|].
  apply not_elem_of_cons in Hn as [Hne Hn]. destruct (Ascii.eqb_spec x c) as [->|]; [done|]. by rewrite IH.
Qed.

(** Digits and separators, never a slash. *)
Lemma digits_no_slash radix fuel n : 2 <= radix <= 16 -> "/"%char ∉ digits radix fuel n.
Proof.
  intros Hr. assert (Hd : forall d, d < radix -> digit_char d <> "/"%char).
  { intros d Hd E. pose proof (to_digit_char radix d ltac:(lia) Hd) as H1. rewrite E in H1. discriminate H1. }
  revert n. induction fuel as [|fuel IH]; intros n; cbn; [apply not_elem_of_nil|]. destruct (n <? radix) eqn:E.
  - apply N.ltb_lt in E. rewrite list_elem_of_singleton. intros Hs. by apply (Hd n).
  - rewrite elem_of_app, list_elem_of_singleton. intros [Hs|Hs]; [by apply (IH (n / radix))|].
    apply (Hd (n mod radix)); [apply N.mod_lt; lia|done].
Qed.

Lemma canonical_wf ip : ip_wf ip -> ip_wf (to_canonical ip).
Proof.
  intros Hwf. unfold to_canonical. destruct ip as [a b c d|s]; [done|].
  repeat (case_match; try exact Hwf). subst. destruct Hwf as [_ Hall]. rewrite !Forall_cons in Hall.
  destruct Hall as (_ & _ & _ & _ & _ & _ & Hx & Hy & _). cbn.
  split_and!; try (apply N.mod_lt; lia); apply N.Div0.div_lt_upper_bound; lia.
Qed.

Lemma canonical_idem a b c d : to_canonical (V6 [a; b; c; d; 0; 0; 0; 0]) = V6 [a; b; c; d; 0; 0; 0; 0].
Proof. unfold to_canonical. by repeat case_match. Qed.

Lemma of_to_string l : of_string (to_string l) = l.
Proof. apply String.list_ascii_of_string_of_list_ascii. Qed.

(** The wider network read back from a recorded prefix is the wider network of the
    address. *)
Theorem widened_prefix_is_the_wide_prefix ip :
  ip_wf ip -> widen_prefix (prefix_of ip) = Some (wide_prefix_of ip).
Proof.
  intros Hwf. apply canonical_wf in Hwf. unfold widen_prefix, prefix_of. rewrite of_to_string.
  unfold wide_prefix_of at 2. destruct (to_canonical ip) as [a b c d|s]; cbn in Hwf.
  - destruct Hwf as (Ha & Hb & Hc & _).
    replace (dec a ++ "."%char :: dec b ++ "."%char :: dec c ++ of_string ".0/24") with
      ((dec a ++ "."%char :: dec b ++ "."%char :: dec c ++ "."%char :: dec 0) ++ "/"%char :: ["2"%char; "4"%char])
      by (repeat (rewrite <-?app_assoc; cbn [app]; f_equal)).
    rewrite split_once_app.
    + cbn [mbind option_bind]. rewrite parse_dotted by lia. done.
    + assert (Hs : forall n, "/"%char ∉ dec n) by (intros n; apply digits_no_slash; lia).
      rewrite ?elem_of_app, ?elem_of_cons, ?elem_of_app, ?elem_of_cons, ?elem_of_app, ?elem_of_cons.
      intros [H|[H|[H|[H|[H|[H|H]]]]]]; (discriminate H || by apply Hs in H).
  - destruct Hwf as [Hl Hall]. destruct s as [|s0 [|s1 [|s2 [|s3 rest]]]]; try discriminate Hl.
    rewrite !Forall_cons in Hall. destruct Hall as (H0 & H1 & H2 & H3 & _). cbn [nth].
    replace (hex s0 ++ ":"%char :: hex s1 ++ ":"%char :: hex s2 ++ ":"%char :: hex s3 ++ of_string "::/64") with
      ((hex s0 ++ ":"%char :: hex s1 ++ ":"%char :: hex s2 ++ ":"%char :: hex s3 ++ [":"%char; ":"%char]) ++
       "/"%char :: ["6"%char; "4"%char]) by (repeat (rewrite <-?app_assoc; cbn [app]; f_equal)).
    rewrite split_once_app.
    + cbn [mbind option_bind]. rewrite parse_elided by done. cbn [fmap option_fmap option_map].
      unfold wide_prefix_of. rewrite canonical_idem. done.
    + assert (Hs : forall n, "/"%char ∉ hex n) by (intros n; apply digits_no_slash; lia).
      rewrite ?elem_of_app, ?elem_of_cons, ?elem_of_app, ?elem_of_cons, ?elem_of_app, ?elem_of_cons, ?elem_of_app, ?elem_of_cons.
      intros [H|[H|[H|[H|[H|[H|[H|[H|[H|H]]]]]]]]]; (discriminate H || (by apply Hs in H) || by apply not_elem_of_nil in H).
Qed.

(** ** A concrete client *)
Module ToyLimits.
Definition alice : Bucket := Pubkey "a".
(** Sixty-one signed requests within a minute, a clean-up, and one more. *)
Definition burst : list event :=
  ((fun i => Request alice (seconds (Z.of_nat i))) <$> seq 0 61) ++ [Cleanup (seconds 61); Request alice (seconds 61)].
Definition burst_result : RateLimitTable * list decision := Eval vm_compute in
  match run burst with Ok r => r | _ => (∅, []) end.

Example burst_decisions : d_ok <$> burst_result.2 = replicate 60 true ++ [false; true].
Proof. vm_compute. reflexivity. Qed.

Lemma burst_ordered : ordered burst.
Proof. cbn. unfold seconds. lia. Qed.
Lemma burst_run : run burst = Ok (burst_result.1, burst_result.2).
Proof. vm_compute. reflexivity. Qed.

Lemma rate_limit_holds_witness :
  tally (fun d => d_bucket d = alice /\ d_ok d = true /\ (0 <= d_time d < 0 + W)%Z) burst_result.2 <= 2 * bucket_max alice.
Proof. exact (proj1 (rate_limit_holds burst burst_result.1 burst_result.2 alice burst_ordered burst_run) 0%Z). Defined.

Definition proxy : IpAddr := V4 127 0 0 1.
Lemma client_cannot_choose_its_address_witness :
  client_ip [of_string "6.6.6.6, 203.0.113.9:51234,127.0.0.1"] (V6 [0; 0; 0; 0; 0; 65535; 32512; 1]) {[proxy]} = V4 203 0 113 9.
Proof.
  destruct (client_cannot_choose_its_address {[proxy]} (V6 [0; 0; 0; 0; 0; 65535; 32512; 1])
    [of_string "6.6.6.6, 203.0.113.9:51234,127.0.0.1"]) as [_ H].
  destruct (H ltac:(apply (bool_decide_unpack _); vm_compute; exact I) [of_string "6.6.6.6"]
    (of_string " 203.0.113.9:51234") [of_string "127.0.0.1"] ltac:(vm_compute; reflexivity)) as [H1 _].
  - apply Forall_singleton. exists proxy. split; [vm_compute; reflexivity|]. apply (bool_decide_unpack _). vm_compute. exact I.
  - apply H1; [vm_compute; reflexivity|]. apply (bool_decide_unpack _). vm_compute. exact I.
Defined.

Lemma widened_prefix_is_the_wide_prefix_witness : widen_prefix "2001:db8:7:1f::/64" = Some "2001:db8:7::/48"%string.
Proof.
  apply (widened_prefix_is_the_wide_prefix (V6 [8193; 3512; 7; 31; 1; 2; 3; 4])).
  split; [reflexivity|]. repeat constructor.
Defined.
End ToyLimits.
