(* ===== verification/RouteMetrics.v ===== *)
(** * RouteMetrics: what the hub counts about its requests

    Models the request half of [hub/src/metrics.rs] (route templates, the latency
    histogram, the failure list and the order of a scrape), the part of the middleware
    of [rate_limit.rs] that feeds it, and the route table of [build_router] in
    [main.rs]. [&'static str] labels are strings; an atomic counter is a [u64] that wraps. *)

From Stdlib Require Import Ascii.
From S2P Require Import Prelude Types IpAddr RateLimit.

Open Scope string_scope.
Open Scope list_scope.

(** ** Labels *)
Definition static_method_name (method : string) : string :=
  if bool_decide (method ∈ ["GET"; "POST"; "HEAD"; "PUT"; "DELETE"; "PATCH"; "OPTIONS"]) then method else "OTHER".
Definition status_class_index (status : N) : nat :=
  match (status / 100)%N with 1%N => 0 | 2%N => 1 | 3%N => 2 | 4%N => 3 | _ => 4 end%nat.
Definition STATUS_CLASS_NAMES : list string := ["1xx"; "2xx"; "3xx"; "4xx"; "5xx"].

(** A path of the router or an arm of a [match] on segments: [None] takes any one. *)
Definition pattern : Type := list (option string).
Definition lit : list string -> pattern := fmap Some.
Fixpoint arm_matches (p : pattern) (segments : list string) : bool :=
  match p, segments with
  | [], [] => true
  | Some x :: p, s :: segments => String.eqb x s && arm_matches p segments
  | None :: p, _ :: segments => arm_matches p segments
  | _, _ => false
  end.
Fixpoint first_match {A} (table : list (pattern * A)) (segments : list string) : option A :=
  match table with
  | [] => None
  | (p, a) :: table => if arm_matches p segments then Some a else first_match table segments
  end.

(** The arms of [route_template], and the function. *)
Definition template_arms : list (pattern * string) :=
  [(lit ["health"], "/health");
   (lit ["metrics"], "/metrics");
   (lit ["tasks"], "/tasks");
   (lit ["tasks"; "consensus"], "/tasks/consensus");
   (lit ["tasks"; "escrow"], "/tasks/escrow");
   (lit ["tasks"; "consensus"; "escrow"], "/tasks/consensus/escrow");
   (lit ["tasks"; "disputable"; "escrow"], "/tasks/disputable/escrow");
   ([Some "tasks"; Some "escrow"; None; Some "confirm"], "/tasks/escrow/:id/confirm");
   ([Some "tasks"; None], "/tasks/:id");
   ([Some "tasks"; None; Some "claim"], "/tasks/:id/claim");
   ([Some "tasks"; None; Some "submit"], "/tasks/:id/submit");
   ([Some "tasks"; None; Some "cancel"], "/tasks/:id/cancel");
   ([Some "tasks"; None; Some "close"], "/tasks/:id/close");
   ([Some "tasks"; None; Some "pick"], "/tasks/:id/pick");
   ([Some "tasks"; None; Some "dispute"; Some "escrow"], "/tasks/:id/dispute/escrow");
   ([Some "tasks"; None; Some "dispute"; Some "confirm"], "/tasks/:id/dispute/confirm");
   ([Some "tasks"; None; Some "dispute"; Some "resolve"], "/tasks/:id/dispute/resolve");
   (lit ["payments"], "/payments");
   ([Some "payments"; None], "/payments/:id");
   (lit ["faucet"], "/faucet");
   (lit ["faucet"; "challenge"], "/faucet/challenge");
   ([Some "reputation"; None], "/reputation/:pubkey");
   (lit ["wallet"; "send"], "/wallet/send");
   ([Some "wallet"; None], "/wallet/:pubkey");
   (lit ["leaderboard"], "/leaderboard");
   (lit ["board"; "summary"], "/board/summary");
   (lit ["board"; "series"], "/board/series");
   (lit ["names"], "/names");
   (lit ["llms.txt"], "/llms.txt");
   (lit ["exchange"; "deposit"], "/exchange/deposit");
   ([Some "exchange"; Some "deposit"; None; Some "confirm"], "/exchange/deposit/:id/confirm");
   (lit ["exchange"; "orders"], "/exchange/orders");
   ([Some "exchange"; Some "orders"; None; Some "cancel"], "/exchange/orders/:id/cancel");
   ([Some "exchange"; Some "account"; None], "/exchange/account/:pubkey");
   (lit ["exchange"; "withdraw"], "/exchange/withdraw");
   (lit ["exchange"; "trades"], "/exchange/trades")].
Definition template_of (segments : list string) : string := default "other" (first_match template_arms segments).
Definition route_template (path : text) : string := template_of (segments_of path).

(** ** The histogram *)
Definition LATENCY_BUCKETS : list spec_float :=
  Eval vm_compute in
  (fun p : Z * Z => f64_div (f64_of p.1) (f64_of p.2)) <$>
  [(1, 1000); (25, 10000); (5, 1000); (1, 100); (25, 1000); (5, 100); (1, 10); (25, 100); (5, 10); (1, 1); (25, 10); (10, 1)]%Z.

Definition fetch_add (counter n : N) : N := ((counter + n) mod 2 ^ 64)%N.

Record RouteStats := mkRouteStats {
  buckets : list N; rs_count : N; micros_total : N; status_classes : list N
}.
Definition new_stats : RouteStats := mkRouteStats (replicate 12 0%N) 0 0 (replicate 5 0%N).
(** [RouteStats::observe] *)
Definition observe (s : RouteStats) (secs : spec_float) (status : N) : RouteStats :=
  mkRouteStats
    (zip_with (fun bucket bound => if SFleb secs bound then fetch_add bucket 1 else bucket) (buckets s) LATENCY_BUCKETS)
    (fetch_add (rs_count s) 1)
    (fetch_add (micros_total s) (f64_as_u64 (f64_mul secs (f64_of 1000000))))
    (alter (fun c => fetch_add c 1) (status_class_index status) (status_classes s)).

(** ** The table *)

(** A [RouteKey] is the template and the method. *)
Record Metrics := mkMetrics { routes : gmap (string * string) RouteStats; rate_limited_by_tier : list N }.
Definition new_metrics : Metrics := mkMetrics ∅ (replicate 5 0%N).
Definition observe_request (m : Metrics) (method template : string) (secs : spec_float) (status : N) : Metrics :=
  mkMetrics (<[(template, method) := observe (default new_stats (routes m !! (template, method))) secs status]> (routes m))
    (rate_limited_by_tier m).

(** The metrics of [middleware]: a request that is turned away, or served with a status. *)
Definition note_request (m : Metrics) (method : string) (path : text) (refused : bool) (secs : spec_float) (status : N) : Metrics :=
  let name := static_method_name method in
  let template := route_template path in
  if refused
  then observe_request
         (mkMetrics (routes m) (alter (fun c => fetch_add c 1) (metric_index (tier_for method path)) (rate_limited_by_tier m)))
         name template secs 429
  else observe_request m name template secs status.

(** [rows.sort_by]: by template, then method; [iter] is the order of the [DashMap]. *)
Definition row_before (a b : (string * string) * RouteStats) : bool :=
  if String.eqb a.1.1 b.1.1 then String.leb a.1.2 b.1.2 else String.leb a.1.1 b.1.1.
Definition sorted_rows (iter : gmap (string * string) RouteStats -> list ((string * string) * RouteStats)) (m : Metrics)
    : list ((string * string) * RouteStats) := sort_by row_before (iter (routes m)).

(** [request_failures] *)
Definition failures_of (row : (string * string) * RouteStats) : option (string * string * N * N) :=
  let client := nth 3 (status_classes row.2) 0%N in
  let server := nth 4 (status_classes row.2) 0%N in
  if (0 <? client)%N || (0 <? server)%N then Some (row.1.2, row.1.1, client, server) else None.
Definition failure_before (a b : string * string * N * N) : bool :=
  let '(m1, t1, _, _) := a in
  let '(m2, t2, _, _) := b in
  if String.eqb t1 t2 then String.leb m1 m2 else String.leb t1 t2.
Definition request_failures (iter : gmap (string * string) RouteStats -> list ((string * string) * RouteStats)) (m : Metrics)
    : list (string * string * N * N) := sort_by failure_before (omap failures_of (iter (routes m))).

(** The request samples of [render], in order. *)
Inductive Sample : Type :=
| RequestsTotal (template method class : string) (value : N)
| DurationBucket (template method : string) (le : option spec_float) (value : N)
| DurationSum (template method : string) (secs : spec_float)
| DurationCount (template method : string) (value : N).
Definition request_samples (row : (string * string) * RouteStats) : list Sample :=
  omap (fun p : string * N => if (0 <? p.2)%N then Some (RequestsTotal row.1.1 row.1.2 p.1 p.2) else None)
    (zip STATUS_CLASS_NAMES (status_classes row.2)).
Definition duration_samples (row : (string * string) * RouteStats) : list Sample :=
  zip_with (fun bucket bound => DurationBucket row.1.1 row.1.2 (Some bound) bucket) (buckets row.2) LATENCY_BUCKETS ++
  [DurationBucket row.1.1 row.1.2 None (rs_count row.2);
   DurationSum row.1.1 row.1.2 (f64_div (f64_of (Z.of_N (micros_total row.2))) (f64_of 1000000));
   DurationCount row.1.1 row.1.2 (rs_count row.2)].
Definition render_requests (iter : gmap (string * string) RouteStats -> list ((string * string) * RouteStats)) (m : Metrics) : list Sample :=
  let rows := sorted_rows iter m in
  (rows ≫= request_samples) ++ (rows ≫= duration_samples).

(** ** [build_router]: the paths it serves *)
Definition core_routes : list (string * pattern) :=
  [("/health", lit ["health"]); ("/admin/overview", lit ["admin"; "overview"]); ("/payments", lit ["payments"]);
   ("/payments/:id", [Some "payments"; None]); ("/metrics", lit ["metrics"]); ("/tasks", lit ["tasks"]);
   ("/tasks/consensus", lit ["tasks"; "consensus"]); ("/tasks/escrow", lit ["tasks"; "escrow"]);
   ("/tasks/consensus/escrow", lit ["tasks"; "consensus"; "escrow"]);
   ("/tasks/disputable/escrow", lit ["tasks"; "disputable"; "escrow"]);
   ("/tasks/escrow/:id/confirm", [Some "tasks"; Some "escrow"; None; Some "confirm"]);
   ("/tasks/:id", [Some "tasks"; None]); ("/tasks/:id/claim", [Some "tasks"; None; Some "claim"]);
   ("/tasks/:id/submit", [Some "tasks"; None; Some "submit"]); ("/tasks/:id/cancel", [Some "tasks"; None; Some "cancel"]);
   ("/tasks/:id/close", [Some "tasks"; None; Some "close"]); ("/tasks/:id/pick", [Some "tasks"; None; Some "pick"]);
   ("/tasks/:id/dispute/escrow", [Some "tasks"; None; Some "dispute"; Some "escrow"]);
   ("/tasks/:id/dispute/confirm", [Some "tasks"; None; Some "dispute"; Some "confirm"]);
   ("/tasks/:id/dispute/resolve", [Some "tasks"; None; Some "dispute"; Some "resolve"]);
   ("/faucet/challenge", lit ["faucet"; "challenge"]); ("/faucet", lit ["faucet"]);
   ("/reputation/:pubkey", [Some "reputation"; None]); ("/wallet/send", lit ["wallet"; "send"]);
   ("/wallet/:pubkey", [Some "wallet"; None]); ("/leaderboard", lit ["leaderboard"]);
   ("/board/summary", lit ["board"; "summary"]); ("/board/series", lit ["board"; "series"]); ("/names", lit ["names"]);
   ("/llms.txt", lit ["llms.txt"])].
Definition exchange_routes : list (string * pattern) :=
  [("/exchange/deposit", lit ["exchange"; "deposit"]);
   ("/exchange/deposit/:id/confirm", [Some "exchange"; Some "deposit"; None; Some "confirm"]);
   ("/exchange/orders", lit ["exchange"; "orders"]);
   ("/exchange/orders/:id/cancel", [Some "exchange"; Some "orders"; None; Some "cancel"]);
   ("/exchange/account/:pubkey", [Some "exchange"; Some "account"; None]);
   ("/exchange/withdraw", lit ["exchange"; "withdraw"]); ("/exchange/trades", lit ["exchange"; "trades"])].
Definition build_router (exchange_enabled : bool) : list (string * pattern) :=
  core_routes ++ if exchange_enabled then exchange_routes else [].

(** ** Templates *)
(** [p] has a literal where it first differs from [q] in kind: a router takes it first. *)
Fixpoint preferred (p q : pattern) : bool :=
  match p, q with
  | Some _ :: _, None :: _ => true
  | None :: _, Some _ :: _ => false
  | _ :: p, _ :: q => preferred p q
  | _, _ => false
  end.
(** Two patterns that no path matches both of. *)
Fixpoint apart (p q : pattern) : bool :=
  match p, q with
  | [], [] => false
  | Some x :: p, Some y :: q => negb (String.eqb x y) || apart p q
  | _ :: p, _ :: q => apart p q
  | _, _ => true
  end.
Lemma apart_sound p q segs : apart p q = true -> arm_matches p segs = true -> arm_matches q segs = true -> False.
Proof.
  revert q segs. induction p as [|[x|] p IH]; intros [|[y|] q] [|s segs]; cbn; try done; intros Ha Hp Hq;
    repeat match goal with F : _ && _ = true |- _ => apply andb_true_iff in F as [? F] end; try by eapply IH.
  apply orb_true_iff in Ha as [Ha|Ha]; [|by eapply IH].
  apply negb_true_iff, String.eqb_neq in Ha. destruct Ha.
  transitivity s; [|symmetry]; by apply String.eqb_eq.
Qed.
(** Every arm is preferred to the later ones that overlap it. *)
Fixpoint literal_first (arms : list (pattern * string)) : bool :=
  match arms with
  | [] => true
  | (p, _) :: arms => forallb (fun e => apart p e.1 || preferred p e.1) arms && literal_first arms
  end.
Lemma first_match_best arms segs p t :
  literal_first arms = true -> (p, t) ∈ arms -> arm_matches p segs = true ->
  exists q u, (q, u) ∈ arms /\ first_match arms segs = Some u /\ arm_matches q segs = true /\
    ((q, u) = (p, t) \/ preferred q p = true).
Proof.
  induction arms as [|[q u] arms IH]; cbn; [by intros _ ?%not_elem_of_nil|].
  intros [Hf Hl]%andb_true_iff Hin Hp. destruct (arm_matches q segs) eqn:Hq.
  - exists q, u. split; [by left|]. split; [done|]. split; [done|]. apply elem_of_cons in Hin as [->|Hin]; [by left|right].
    rewrite forallb_forall in Hf. specialize (Hf (p, t) (proj1 (list_elem_of_In _ _) Hin)). cbn in Hf.
    apply orb_true_iff in Hf as [Ha|Hlt]; [by destruct (apart_sound q p segs)|done].
  - apply elem_of_cons in Hin as [[= -> ->]|Hin]; [congruence|]. destruct (IH Hl Hin Hp) as (q' & u' & ? & ?). exists q', u'. split; [by right|done].
Qed.
Lemma first_match_none {A} (arms : list (pattern * A)) segs :
  first_match arms segs = None <-> forall p t, (p, t) ∈ arms -> arm_matches p segs = false.
Proof.
  induction arms as [|[q u] arms IH]; cbn; [split; [by intros _ p t ?%not_elem_of_nil|done]|].
  destruct (arm_matches q segs) eqn:Hq.
  - split; [done|]. intros Hall. specialize (Hall q u). rewrite Hall in Hq; [done|by left].
  - rewrite IH. split; [intros Hall p t [[= -> ->]|Hin]%elem_of_cons; [done|by apply (Hall p t)]|].
    intros Hall p t Hin. apply (Hall p t). by right.
Qed.

Definition ADMIN : string := "/admin/overview".
Lemma arms_are_routes p t : (p, t) ∈ template_arms <-> (t, p) ∈ build_router true /\ t <> ADMIN.
Proof.
  assert (H1 : Forall (fun e : pattern * string => (e.2, e.1) ∈ build_router true /\ e.2 <> ADMIN) template_arms)
    by (apply (bool_decide_unpack _); vm_compute; exact I).
  assert (H2 : Forall (fun e : string * pattern => e.1 = ADMIN \/ (e.2, e.1) ∈ template_arms) (build_router true))
    by (apply (bool_decide_unpack _); vm_compute; exact I).
  rewrite Forall_forall in H1. rewrite Forall_forall in H2. split; [by intros Hin%H1|]. intros [Hin Hne]. by destruct (H2 _ Hin) as [?|?].
Qed.

(** A path some served route other than the admin page matches is labelled with the
    template of a served route that matches it, that very route unless a more literal
    one matches too; and the label is other exactly when no such route matches. *)
Theorem served_routes_have_templates path :
  (forall exchange_enabled t p, (t, p) ∈ build_router exchange_enabled -> t <> ADMIN -> arm_matches p (segments_of path) = true ->
     exists q, (route_template path, q) ∈ build_router true /\ arm_matches q (segments_of path) = true /\
       (q = p /\ route_template path = t \/ preferred q p = true)) /\
  (route_template path = "other" <->
   forall t p, (t, p) ∈ build_router true -> t <> ADMIN -> arm_matches p (segments_of path) = false).
Proof.
  split.
  - intros ex t p Hin Hne Hm. assert (Hin' : (t, p) ∈ build_router true).
    { destruct ex; [done|]. unfold build_router in *. rewrite app_nil_r in Hin. apply elem_of_app. by left. }
    destruct (first_match_best template_arms (segments_of path) p t) as (q & u & Hq & Hf & Hmq & Hor);
      [vm_compute; reflexivity|by apply arms_are_routes|done|].
    exists q. unfold route_template, template_of. rewrite Hf. cbn. apply arms_are_routes in Hq as [Hq _]. split; [done|]. split; [done|].
    destruct Hor as [[= -> ->]|Hlt]; [by left|by right].
  - transitivity (first_match template_arms (segments_of path) = None).
    + unfold route_template, template_of. split; [|by intros ->]. destruct (first_match template_arms (segments_of path)) as [u|] eqn:E; [|done].
      cbn. intros ->. exfalso. revert E. unfold template_arms. generalize (segments_of path). intros segs.
      assert (Hno : Forall (fun e : pattern * string => e.2 <> "other") template_arms) by (apply (bool_decide_unpack _); vm_compute; exact I).
      change (first_match template_arms segs = Some "other" -> False). induction Hno as [|[q u] arms Hu _ IH]; cbn; [done|].
      destruct (arm_matches q segs); [intros [= ->]; done|done].
    + rewrite first_match_none. setoid_rewrite arms_are_routes. naive_solver.
Qed.

(** ** Counting a log of requests *)
Record Noted := mkNoted { nt_method : string; nt_path : text; nt_refused : bool; nt_secs : spec_float; nt_status : N }.
Definition noted (m : Metrics) (r : Noted) : Metrics :=
  note_request m (nt_method r) (nt_path r) (nt_refused r) (nt_secs r) (nt_status r).
Definition counted_log (l : list Noted) : Metrics := foldl noted new_metrics l.
Definition key_of (r : Noted) : string * string := (route_template (nt_path r), static_method_name (nt_method r)).
Definition outcome_of (r : Noted) : spec_float * N := (nt_secs r, if nt_refused r then 429%N else nt_status r).

(** What the counters of a route should say of its responses. *)
Definition wrapped (n : nat) : N := (N.of_nat n mod 2 ^ 64)%N.
Definition micros (s : spec_float) : N := f64_as_u64 (f64_mul s (f64_of 1000000)).
Definition within_bound (b : spec_float) (obs : list (spec_float * N)) : nat := length (base.filter (fun o => SFleb o.1 b = true) obs).
Definition in_class (c : nat) (obs : list (spec_float * N)) : nat := length (base.filter (fun o => status_class_index o.2 = c) obs).
Definition tally_stats (obs : list (spec_float * N)) : RouteStats :=
  mkRouteStats ((fun b => wrapped (within_bound b obs)) <$> LATENCY_BUCKETS) (wrapped (length obs))
    (sumN (micros ∘ fst <$> obs) mod 2 ^ 64)%N ((fun c => wrapped (in_class c obs)) <$> seq 0 5).
Definition responses (k : string * string) (l : list Noted) : list (spec_float * N) :=
  outcome_of <$> base.filter (fun r => key_of r = k) l.
Definition refused_in (t : nat) (l : list Noted) : nat :=
  length (base.filter (fun r => nt_refused r = true /\ metric_index (tier_for (nt_method r) (nt_path r)) = t) l).

Lemma fetch_add_wrapped n : fetch_add (wrapped n) 1 = wrapped (S n).
Proof. unfold fetch_add, wrapped. rewrite N.Div0.add_mod_idemp_l. f_equal. lia. Qed.
Lemma length_filter_snoc {A} (P : A -> Prop) `{!forall x, Decision (P x)} l x :
  length (base.filter P (l ++ [x])) = if decide (P x) then S (length (base.filter P l)) else length (base.filter P l).
Proof. rewrite filter_app, length_app. cbn. destruct (decide (P x)); cbn; lia. Qed.
Lemma class_index_bound status : (status_class_index status < 5)%nat.
Proof. unfold status_class_index. repeat case_match; lia. Qed.
(** Incrementing one of the counts. *)
Lemma alter_counts {A} (cls : A -> nat) (obs : list A) (o : A) n :
  alter (fun c => fetch_add c 1) (cls o) ((fun c => wrapped (length (base.filter (fun x => cls x = c) obs))) <$> seq 0 n) =
  (fun c => wrapped (length (base.filter (fun x => cls x = c) (obs ++ [o])))) <$> seq 0 n.
Proof.
  apply list_eq. intros i. rewrite list_lookup_alter. destruct (decide (cls o = i)) as [<-|Hne]; rewrite !list_lookup_fmap.
  - destruct (seq 0 n !! cls o) as [c|] eqn:E; [|done]. apply lookup_seq in E as [-> _]. cbn.
    by rewrite length_filter_snoc, decide_True, fetch_add_wrapped.
  - destruct (seq 0 n !! i) as [c|] eqn:E; [|done]. apply lookup_seq in E as [-> _]. cbn. by rewrite length_filter_snoc, decide_False.
Qed.

Lemma observe_tally obs o : observe (tally_stats obs) o.1 o.2 = tally_stats (obs ++ [o]).
Proof.
  unfold observe, tally_stats. f_equal; cbn [buckets rs_count micros_total status_classes].
  - generalize LATENCY_BUCKETS. intros bounds. induction bounds as [|b bounds IH]; [done|]. cbn [fmap list_fmap zip_with]. f_equal; [|apply IH].
    unfold within_bound. rewrite length_filter_snoc. destruct (SFleb o.1 b) eqn:E; [rewrite decide_True by done; apply fetch_add_wrapped|by rewrite decide_False].
  - rewrite fetch_add_wrapped, length_app. f_equal. cbn. lia.
  - unfold fetch_add. rewrite N.Div0.add_mod_idemp_l, fmap_app, sumN_app. change (sumN (micros ∘ fst <$> [o])) with (micros o.1 + 0)%N. by rewrite N.add_0_r.
  - apply (alter_counts (fun o => status_class_index o.2)).
Qed.
Lemma new_stats_tally : new_stats = tally_stats [].
Proof. vm_compute. reflexivity. Qed.

(** One request: its route's statistics, and the count of its tier when it was refused. *)
Lemma note_spec m r :
  routes (noted m r) = <[key_of r := observe (default new_stats (routes m !! key_of r)) (outcome_of r).1 (outcome_of r).2]> (routes m) /\
  rate_limited_by_tier (noted m r) =
    if nt_refused r then alter (fun c => fetch_add c 1) (metric_index (tier_for (nt_method r) (nt_path r))) (rate_limited_by_tier m)
    else rate_limited_by_tier m.
Proof. unfold noted, note_request, outcome_of. by destruct (nt_refused r). Qed.

Lemma responses_snoc k l r : responses k (l ++ [r]) = responses k l ++ if decide (key_of r = k) then [outcome_of r] else [].
Proof. unfold responses. rewrite filter_app, fmap_app. cbn. by destruct (decide (key_of r = k)). Qed.
Lemma refused_snoc l r n :
  (fun t => wrapped (refused_in t (l ++ [r]))) <$> seq 0 n =
  if nt_refused r then alter (fun c => fetch_add c 1) (metric_index (tier_for (nt_method r) (nt_path r))) ((fun t => wrapped (refused_in t l)) <$> seq 0 n)
  else (fun t => wrapped (refused_in t l)) <$> seq 0 n.
Proof.
  unfold refused_in. destruct (nt_refused r) eqn:Hr.
  - apply list_eq. intros i. rewrite list_lookup_alter.
    destruct (decide (metric_index (tier_for (nt_method r) (nt_path r)) = i)) as [<-|Hne]; rewrite !list_lookup_fmap.
    + destruct (seq 0 n !! _) as [c|] eqn:E; [|done]. apply lookup_seq in E as [-> _]. cbn. by rewrite length_filter_snoc, decide_True, fetch_add_wrapped.
    + destruct (seq 0 n !! i) as [c|] eqn:E; [|done]. apply lookup_seq in E as [-> _]. cbn. rewrite length_filter_snoc, decide_False; [done|]. by intros [_ ?].
  - apply list_fmap_ext. intros _ t _. rewrite length_filter_snoc, decide_False; [done|]. intros [? _]. congruence.
Qed.

(** After any log of requests, refused or served, the counters of each route are those of
    its responses (latencies within each bound, all of them, microseconds, status
    classes) and the counters of the tiers those of the refusals, all modulo 2^64; a
    route with no response has no row. *)
Theorem metrics_count_the_log l :
  (forall k, routes (counted_log l) !! k = match responses k l with [] => None | obs => Some (tally_stats obs) end) /\
  rate_limited_by_tier (counted_log l) = (fun t => wrapped (refused_in t l)) <$> seq 0 5.
Proof.
  induction l as [|r l [IHr IHt]] using rev_ind; [by split|]. unfold counted_log in *. rewrite foldl_app. cbn [foldl].
  destruct (note_spec (foldl noted new_metrics l) r) as [Hr Ht]. split.
  - intros k. rewrite Hr, responses_snoc. destruct (decide (key_of r = k)) as [<-|Hne].
    + rewrite lookup_insert_eq, IHr. destruct (responses (key_of r) l) as [|o obs] eqn:E; cbn [default app].
      * rewrite new_stats_tally. apply (f_equal Some), (observe_tally [] (outcome_of r)).
      * apply (f_equal Some), (observe_tally (o :: obs) (outcome_of r)).
    + rewrite lookup_insert_ne by done. by rewrite app_nil_r, IHr.
  - rewrite Ht, refused_snoc. by rewrite IHt.
Qed.

(** *** Cumulative buckets *)
Definition wider (a b : spec_float) : Prop := forall s, SFleb s a = true -> SFleb s b = true.
Lemma wider_finite m e m' e' :
  ((e < e')%Z \/ e = e' /\ (m <= m')%positive) -> wider (S754_finite false m e) (S754_finite false m' e').
Proof.
  intros Hle [[]|[]| |[] ms es]; unfold SFleb; cbn; try done.
  destruct (Z.compare_spec es e) as [->|Hlt|Hgt]; [|intros _|done].
  - destruct (Z.compare_spec e e') as [<-|Hlt|Hgt]; [|done|lia]. destruct Hle as [?|[_ Hle]]; [lia|].
    change (Pos.compare_cont Eq ms m) with (Pos.compare ms m). change (Pos.compare_cont Eq ms m') with (Pos.compare ms m').
    destruct (Pos.compare_spec ms m), (Pos.compare_spec ms m'); try done; lia.
  - destruct (Z.compare_spec es e') as [->|?|?]; [|done|lia]. lia.
Qed.
Lemma buckets_wider : StronglySorted wider LATENCY_BUCKETS.
Proof.
  assert (Ht : forall a b c, wider a b -> wider b c -> wider a c) by (unfold wider; auto).
  apply Sorted_StronglySorted; [exact Ht|].
  unfold LATENCY_BUCKETS. repeat (constructor; [|repeat constructor; apply wider_finite; (left; lia) || (right; split; [reflexivity|lia])]).
  constructor.
Qed.
Lemma within_wider a b obs : wider a b -> (within_bound a obs <= within_bound b obs)%nat.
Proof.
  intros Hw. unfold within_bound. induction obs as [|o obs IH]; [done|]. rewrite !filter_cons.
  destruct (decide (SFleb o.1 a = true)) as [Ha|Ha]; [rewrite decide_True by (by apply Hw); cbn; lia|].
  destruct (decide (SFleb o.1 b = true)); cbn; lia.
Qed.
Lemma wrapped_small n : (N.of_nat n < 2 ^ 64)%N -> wrapped n = N.of_nat n.
Proof. intros Hn. by apply N.mod_small. Qed.
Lemma classes_sum obs : sumN ((fun c => N.of_nat (in_class c obs)) <$> seq 0 5) = N.of_nat (length obs).
Proof.
  unfold in_class. induction obs as [|o obs IH]; [done|]. pose proof (class_index_bound o.2) as Hc. cbn [length seq fmap list_fmap] in *.
  rewrite !sumN_cons in *. rewrite !filter_cons. cbn [sumN foldr] in *.
  destruct (status_class_index o.2) as [|[|[|[|[|n]]]]]; repeat first [rewrite decide_True by lia|rewrite decide_False by lia]; cbn [length]; lia.
Qed.
Lemma responses_short k l : (length (responses k l) <= length l)%nat.
Proof. unfold responses. rewrite length_fmap. apply length_filter. Qed.

(** In every row of a log shorter than 2^64 the buckets never decrease, none exceeds the
    count, and the status classes add up to the count, which is not zero. *)
Theorem histogram_is_cumulative l k s :
  (N.of_nat (length l) < 2 ^ 64)%N -> routes (counted_log l) !! k = Some s ->
  StronglySorted N.le (buckets s) /\ Forall (fun n => (n <= rs_count s)%N) (buckets s) /\ sumN (status_classes s) = rs_count s /\
  (0 < rs_count s)%N.
Proof.
  intros Hl Hs. rewrite (proj1 (metrics_count_the_log l)) in Hs. pose proof (responses_short k l) as Hr.
  destruct (responses k l) as [|o obs'] eqn:E; [done|]. injection Hs as <-. set (obs := o :: obs') in *.
  assert (Hw : forall n, (n <= length obs)%nat -> wrapped n = N.of_nat n) by (intros n Hn; apply wrapped_small; lia).
  assert (Hb : forall b, (within_bound b obs <= length obs)%nat) by (intros b; apply length_filter).
  unfold tally_stats. cbn [buckets rs_count status_classes]. rewrite (Hw (length obs)) by done. split_and!.
  - pose proof buckets_wider as Hsort. induction Hsort as [|a bounds Hsort IH Ha]; [constructor|]. rewrite fmap_cons. constructor; [exact IH|].
    apply Forall_fmap. eapply Forall_impl; [exact Ha|]. intros b Hwd. unfold compose. rewrite !Hw by apply Hb. pose proof (within_wider a b obs Hwd). lia.
  - apply Forall_fmap, Forall_forall. intros b _. unfold compose. rewrite Hw by apply Hb. pose proof (Hb b). lia.
  - rewrite <-classes_sum. f_equal. apply list_fmap_ext. intros _ c _. apply Hw, length_filter.
  - unfold obs. cbn. lia.
Qed.

(** ** The table stays small *)
Definition method_names : list string := ["GET"; "POST"; "HEAD"; "PUT"; "DELETE"; "PATCH"; "OPTIONS"; "OTHER"].
Definition template_names : list string := "other" :: (snd <$> template_arms).
Lemma method_name_listed method : static_method_name method ∈ method_names.
Proof.
  unfold static_method_name. case_bool_decide as Hm; [|apply (bool_decide_unpack _); vm_compute; exact I].
  change method_names with (["GET"; "POST"; "HEAD"; "PUT"; "DELETE"; "PATCH"; "OPTIONS"] ++ ["OTHER"]). apply elem_of_app. by left.
Qed.
Lemma template_listed path : route_template path ∈ template_names.
Proof.
  unfold route_template, template_of, template_names. destruct (first_match template_arms (segments_of path)) as [u|] eqn:E; [right|by left]. cbn [default id].
  revert E. generalize template_arms (segments_of path). intros arms segs. induction arms as [|[p t] arms IH]; cbn; [done|].
  destruct (arm_matches p segs); [intros [= ->]; by left|intros E; right; by apply IH].
Qed.

Lemma size_list_to_set_le `{Countable A} (l : list A) : (size (list_to_set l : gset A) <= length l)%nat.
Proof.
  induction l as [|x l IH]; [done|]. cbn [list_to_set length]. rewrite size_union_alt, size_singleton.
  pose proof (subseteq_size (list_to_set l ∖ {[x]} : gset A) (list_to_set l) ltac:(set_solver)). lia.
Qed.

(** Whatever methods and paths are requested, the table has at most 296 rows. *)
Theorem route_table_is_bounded l : (size (routes (counted_log l)) <= 296)%nat.
Proof.
  set (keys := list_to_set (list_prod template_names method_names) : gset (string * string)).
  assert (Hk : dom (routes (counted_log l)) ⊆ keys).
  { intros k Hk. apply elem_of_dom in Hk as [s Hs]. rewrite (proj1 (metrics_count_the_log l)) in Hs. unfold keys. apply elem_of_list_to_set.
    destruct (responses k l) as [|o obs] eqn:E; [done|]. assert (Ho : o ∈ responses k l) by (rewrite E; by left).
    apply list_elem_of_fmap in Ho as (r & _ & Hr). apply list_elem_of_filter in Hr as [<- _].
    apply list_elem_of_In, in_prod; apply list_elem_of_In; [apply template_listed|apply method_name_listed]. }
  apply subseteq_size in Hk. rewrite size_dom in Hk. etransitivity; [exact Hk|]. etransitivity; [apply size_list_to_set_le|]. vm_compute. lia.
Qed.

(** ** A scrape does not depend on the order of the map *)
Lemma leb_trans a b c : String.leb a b = true -> String.leb b c = true -> String.leb a c = true.
Proof. intros H1 H2. apply Is_true_eq_true. apply (transitivity (R := String.le) (y := b)); by apply Is_true_eq_left. Qed.
Lemma row_before_total a b : row_before a b = false -> row_before b a = true.
Proof.
  unfold row_before. destruct (String.eqb_spec a.1.1 b.1.1) as [->|Hne].
  - rewrite String.eqb_refl. destruct (String.leb_total a.1.2 b.1.2) as [->| ->]; done.
  - destruct (String.eqb_spec b.1.1 a.1.1) as [E|_]; [by rewrite E in Hne|]. destruct (String.leb_total a.1.1 b.1.1) as [->| ->]; done.
Qed.
Lemma row_before_trans a b c : row_before a b = true -> row_before b c = true -> row_before a c = true.
Proof.
  unfold row_before. destruct (String.eqb_spec a.1.1 b.1.1) as [Eab|Hab], (String.eqb_spec b.1.1 c.1.1) as [Ebc|Hbc].
  - rewrite Eab, Ebc, String.eqb_refl. apply leb_trans.
  - rewrite Eab. by destruct (String.eqb_spec b.1.1 c.1.1).
  - rewrite <-Ebc. by destruct (String.eqb_spec a.1.1 b.1.1).
  - intros H1 H2. destruct (String.eqb_spec a.1.1 c.1.1) as [Eac|_]; [|by eapply leb_trans].
    destruct Hab. apply String.leb_antisym; [done|by rewrite Eac].
Qed.
Lemma row_before_antisym a b : row_before a b = true -> row_before b a = true -> a.1 = b.1.
Proof.
  unfold row_before. destruct (String.eqb_spec a.1.1 b.1.1) as [E|Hne].
  - rewrite E, String.eqb_refl. intros H1 H2. destruct a as [[a1 a2] a3], b as [[b1 b2] b3]. cbn in *. subst. f_equal. by apply String.leb_antisym.
  - destruct (String.eqb_spec b.1.1 a.1.1) as [E|_]; [by rewrite E in Hne|]. intros H1 H2. destruct Hne. by apply String.leb_antisym.
Qed.

Lemma StronglySorted_keys_unique (l1 l2 : list ((string * string) * RouteStats)) :
  NoDup (fst <$> l1) -> l1 ≡ₚ l2 ->
  StronglySorted (fun a b => row_before a b = true) l1 -> StronglySorted (fun a b => row_before a b = true) l2 -> l1 = l2.
Proof.
  intros Hn Hp H1 H2. apply (StronglySorted_unique_strong (fun a b => row_before a b = true)); [|done|done|done].
  intros x1 x2 Hx1 Hx2 Hb1 Hb2. assert (Hx2' : x2 ∈ l1) by (by rewrite Hp).
  pose proof (row_before_antisym x1 x2 Hb1 Hb2) as Hk. destruct x1 as [k1 s1], x2 as [k2 s2]. cbn in Hk. subst k2. f_equal.
  apply list_elem_of_lookup in Hx1 as [i Hi], Hx2' as [j Hj].
  assert (i = j) as <-; [|congruence].
  apply (NoDup_lookup (fst <$> l1) i j k1); [done|by rewrite list_lookup_fmap, Hi|by rewrite list_lookup_fmap, Hj].
Qed.

(** The request samples of a scrape do not depend on the order in which the map is
    visited. *)
Theorem scrape_is_stable m iter iter' :
  (forall t, iter t ≡ₚ map_to_list t) -> (forall t, iter' t ≡ₚ map_to_list t) ->
  render_requests iter m = render_requests iter' m.
Proof.
  intros Hi Hi'. unfold render_requests. replace (sorted_rows iter' m) with (sorted_rows iter m); [done|]. unfold sorted_rows.
  assert (Hp : forall it, (forall t, it t ≡ₚ map_to_list t) -> sort_by row_before (it (routes m)) ≡ₚ map_to_list (routes m))
    by (intros it Hit; by rewrite sort_by_perm, Hit).
  apply StronglySorted_keys_unique; [|by rewrite !Hp|apply sort_by_sorted; [apply row_before_total|apply row_before_trans]..].
  rewrite (Hp iter Hi). apply NoDup_fst_map_to_list.
Qed.

(** The operator's list of failures has a row for exactly the routes with a 4xx or 5xx
    response, with the two counts. *)
Theorem failures_list_the_failed_routes l iter method template client server :
  (N.of_nat (length l) < 2 ^ 64)%N -> (forall t, iter t ≡ₚ map_to_list t) ->
  (method, template, client, server) ∈ request_failures iter (counted_log l) <->
  client = N.of_nat (in_class 3 (responses (template, method) l)) /\ server = N.of_nat (in_class 4 (responses (template, method) l)) /\
  (0 < client \/ 0 < server)%N.
Proof.
  intros Hl Hit. unfold request_failures. rewrite sort_by_perm, list_elem_of_omap.
  assert (Hw : forall k c, wrapped (in_class c (responses k l)) = N.of_nat (in_class c (responses k l))).
  { intros k c. apply wrapped_small. pose proof (responses_short k l).
    assert (in_class c (responses k l) <= length (responses k l))%nat by apply length_filter. lia. }
  assert (Hrow : forall k s, (k, s) ∈ iter (routes (counted_log l)) <-> responses k l <> [] /\ s = tally_stats (responses k l)).
  { intros k s. rewrite Hit, elem_of_map_to_list, (proj1 (metrics_count_the_log l)). destruct (responses k l); naive_solver. }
  unfold failures_of. split.
  - intros ([[t m] s] & Hin & Hf). apply Hrow in Hin as [_ ->]. cbn [fst snd tally_stats status_classes seq fmap list_fmap nth] in Hf.
    rewrite !Hw in Hf. destruct ((0 <? _)%N || (0 <? _)%N) eqn:E; [|done]. injection Hf as -> -> <- <-.
    split; [done|]. split; [done|]. apply orb_true_iff in E. by rewrite !N.ltb_lt in E.
  - intros (-> & -> & Hor). exists ((template, method), tally_stats (responses (template, method) l)). split.
    + apply Hrow. split; [|done]. intros E. rewrite E in Hor. cbn in Hor. lia.
    + cbn [fst snd tally_stats status_classes seq fmap list_fmap nth]. rewrite !Hw.
      replace ((0 <? _)%N || (0 <? _)%N) with true; [done|]. symmetry. apply orb_true_iff. by rewrite !N.ltb_lt.
Qed.
