(* ===== verification/Faucet.v ===== *)
(** * Faucet: proof-of-work challenges and the grants they buy

    Models [hub/src/faucet_pow.rs] (the puzzle, its price and the book of
    challenges), the challenge table of [hub/src/store.rs], and the faucet
    handlers of [hub/src/handlers.rs]. Definitions only.

    A book has a half in memory ([by_id], [outstanding]) and a half on disk
    ([ch_table]). Whether each write commits, the clock readings, fresh ids and
    nonces and the node's replies are arguments. A handler starts after
    [SignedEnvelope::verify], with the key it gave.

    A claim has two steps, because other claims run between them: everything up
    to the redemption, and what happens under [payout_lock]. *)

From S2P Require Import Prelude Types Crypto Spend BoardTypes Tasks Board Payouts Payments Wallets Settlement IpAddr RateLimit.
From Stdlib Require Import Ascii.

(** ** The price *)
Definition FAUCET_ACTION : string := "faucet".
Definition CHALLENGE_TTL_SECONDS : Z := 600.
Definition REDEEMED_RETENTION_SECONDS : Z := 3600.
Definition DEFAULT_EXPECTED_HASHES : N := 20000000.
Definition MAX_PREFIX_DOUBLINGS : N := 20.
Definition FAUCET_GRANT_AMOUNT : N := 50000000.
Definition FAUCET_BUDGET_WINDOW_SECONDS : Z := 24 * 60 * 60.

Definition target_for_expected_hashes (expected : N) : N := U256_MAX / N.max expected 1.

(** [u64::saturating_mul] *)
Definition saturating_mul (a b : N) : N := N.min (a * b) U64_MAX.

Definition expected_hashes_for_prefix {E} (base taken free step : N) : outcome E N :=
  if taken <? free then Ok base
  else
    doublings ← add64 1 ((taken - free) / N.max step 1);
    Ok (saturating_mul base (N.shiftl 1 (N.min doublings MAX_PREFIX_DOUBLINGS))).

Definition expected_hashes_for_target (target : N) : N :=
  if target =? 0 then U64_MAX
  else let expected := U256_MAX / target in
       if U64_MAX <? expected then U64_MAX else expected.

(** ** A challenge *)
Record Challenge := mkChallenge {
  ch_id : Uuid;
  ch_pubkey : string;
  server_nonce : string;
  ch_action : string;
  ch_target : N;
  issued_at : Z;
  expires_at : Z;
  ch_prefix : option string;
  redeemed_at : option Z
}.
Definition set_redeemed (c : Challenge) (at_ : Z) : Challenge :=
  mkChallenge (ch_id c) (ch_pubkey c) (server_nonce c) (ch_action c) (ch_target c) (issued_at c) (expires_at c)
    (ch_prefix c) (Some at_).

(** The text forms of a key ([Display for PublicKey], lower-case hexadecimal) and
    of an id ([Display for Uuid]). *)
Class TextForms := {
  key_text : PublicKey -> string;
  uuid_text : Uuid -> string
}.

Inductive RedemptionError : Type := Unknown | WrongKey | Expired | AlreadyRedeemed | Unsolved | NotRecorded.

Definition is_redeemed (c : Challenge) : bool := match redeemed_at c with Some _ => true | None => false end.
Definition is_expired_at (c : Challenge) (now : DateTime) : bool := (expires_at c <? timestamp_of now)%Z.

(** The last second a challenge matters. *)
Definition horizon (c : Challenge) : Z :=
  if is_redeemed c then (expires_at c + REDEEMED_RETENTION_SECONDS)%Z else expires_at c.

(** [str::str_bytes] of an ASCII string, and a [u64] as [{}] prints it. *)
Definition str_bytes (s : string) : list N := N_of_ascii <$> of_string s.
Definition dec64 (n : N) : string := to_string (digits 10 20 n).

Section challenges.
Context `{Primitives, TextForms}.

(** [Challenge::issue]; [nonce] is [hex::encode] of the 32 random bytes. *)
Definition issue (id : Uuid) (nonce : string) (pk : PublicKey) (target : N) (prefix : option string)
    (now : DateTime) : Challenge :=
  mkChallenge id (key_text pk) nonce FAUCET_ACTION target (timestamp_of now)
    (timestamp_of (now + seconds CHALLENGE_TTL_SECONDS)%Z) prefix None.

(** [Challenge::preimage], [is_solved_by] *)
Definition preimage (c : Challenge) (solution : N) : string :=
  (uuid_text (ch_id c) +:+ ":" +:+ server_nonce c +:+ ":" +:+ ch_pubkey c +:+ ":" +:+ ch_action c +:+ ":"
   +:+ dec64 solution)%string.
Definition is_solved_by (c : Challenge) (solution : N) : bool :=
  matches_target (hash_bytes (str_bytes (preimage c solution))) (ch_target c).

(** [validate] *)
Definition validate (c : Challenge) (pk : PublicKey) (solution : N) (now : DateTime)
    : outcome RedemptionError unit :=
  ensure bool_decide (ch_pubkey c = key_text pk) otherwise WrongKey;
  ensure negb (is_redeemed c) otherwise AlreadyRedeemed;
  ensure negb (is_expired_at c now) otherwise Expired;
  guard_ok (is_solved_by c solution) Unsolved.

(** ** The book *)
Record ChallengeBook := mkBook {
  by_id : gmap Uuid Challenge;
  outstanding : gmap string Uuid;
  ch_table : gmap Uuid Challenge;
  book_target : N
}.

(** [HubStore::save_faucet_challenge], [load_all_faucet_challenges],
    [prune_faucet_challenges] *)
Definition save_faucet_challenge (commits : bool) (t : gmap Uuid Challenge) (c : Challenge)
    : option (gmap Uuid Challenge) := if commits then Some (<[ch_id c := c]> t) else None.
Definition load_all_faucet_challenges (t : gmap Uuid Challenge) : list Challenge := btree_values t.
Definition prune_faucet_challenges (commits : bool) (t : gmap Uuid Challenge) (now_unix : Z)
    : gmap Uuid Challenge :=
  let stale := base.filter (fun c => (horizon c < now_unix)%Z) (load_all_faucet_challenges t) in
  if commits then foldl (fun t c => delete (ch_id c) t) t stale else t.

(** [ChallengeBook::restore] *)
Definition restore_one (now : DateTime) (b : ChallengeBook) (c : Challenge) : ChallengeBook :=
  if is_redeemed c
  then if (timestamp_of now <=? expires_at c + REDEEMED_RETENTION_SECONDS)%Z
       then mkBook (<[ch_id c := c]> (by_id b)) (outstanding b) (ch_table b) (book_target b)
       else b
  else if negb (is_expired_at c now)
       then mkBook (<[ch_id c := c]> (by_id b)) (<[ch_pubkey c := ch_id c]> (outstanding b)) (ch_table b)
              (book_target b)
       else b.
Definition restore (t : gmap Uuid Challenge) (target : N) (now : DateTime) : ChallengeBook :=
  foldl (restore_one now) (mkBook ∅ ∅ t target) (load_all_faucet_challenges t).

(** [ChallengeBook::issue_at_target], [ChallengeBook::issue] *)
Definition issue_at_target (commits : bool) (b : ChallengeBook) (id : Uuid) (nonce : string) (pk : PublicKey)
    (target : N) (prefix : option string) (now : DateTime) : outcome RedemptionError (ChallengeBook * Challenge) :=
  let c := issue id nonce pk target prefix now in
  t ← ok_or (save_faucet_challenge commits (ch_table b) c) NotRecorded;
  let kept := match outstanding b !! ch_pubkey c with
              | Some previous => delete previous (by_id b) | None => by_id b end in
  Ok (mkBook (<[ch_id c := c]> kept) (<[ch_pubkey c := ch_id c]> (outstanding b)) t (book_target b), c).
Definition issue_at_base (commits : bool) (b : ChallengeBook) (id : Uuid) (nonce : string) (pk : PublicKey)
    (now : DateTime) : outcome RedemptionError (ChallengeBook * Challenge) :=
  issue_at_target commits b id nonce pk (book_target b) None now.

(** [ChallengeBook::redeem] *)
Definition redeem (commits : bool) (b : ChallengeBook) (id : Uuid) (pk : PublicKey) (solution : N)
    (now : DateTime) : outcome RedemptionError (ChallengeBook * Challenge) :=
  entry ← ok_or (by_id b !! id) Unknown;
  _ ← validate entry pk solution now;
  let redeemed := set_redeemed entry (timestamp_of now) in
  t ← ok_or (save_faucet_challenge commits (ch_table b) redeemed) NotRecorded;
  Ok (mkBook (<[id := redeemed]> (by_id b)) (delete (ch_pubkey redeemed) (outstanding b)) t (book_target b),
      redeemed).

(** [ChallengeBook::network_of], [check] *)
Definition network_of (b : ChallengeBook) (id : Uuid) : option string := by_id b !! id ≫= ch_prefix.
Definition check (b : ChallengeBook) (id : Uuid) (pk : PublicKey) (solution : N) (now : DateTime)
    : outcome RedemptionError unit :=
  entry ← ok_or (by_id b !! id) Unknown;
  validate entry pk solution now.

(** [ChallengeBook::cleanup] *)
Definition cleanup (commits : bool) (b : ChallengeBook) (now : DateTime) : ChallengeBook :=
  let ts := timestamp_of now in
  let kept := base.filter (fun e : Uuid * Challenge => (ts <= horizon e.2)%Z) (by_id b) in
  mkBook kept (base.filter (fun e : string * Uuid => is_Some (kept !! e.2)) (outstanding b))
    (prune_faucet_challenges commits (ch_table b) ts) (book_target b).

End challenges.

(** ** The handlers *)
Record FaucetConfig := mkFaucetConfig {
  faucet_expected_hashes : N;
  faucet_free_grants_per_prefix : N;
  faucet_pow_doubling_grants : N;
  faucet_daily_grants : N;
  faucet_network_share_percent : N
}.

(** The refusals of the two routes. *)
Inductive FaucetError : Type :=
| AlreadyGranted
| BudgetExhausted
| ShareExhausted (wide : string)
| Refused (e : RedemptionError)
| Unfunded (replacement : option Challenge)
| NotSent.

Record FaucetHub := mkFaucetHub { fh_hub : Hub; fh_book : ChallengeBook }.
Definition with_book (s : FaucetHub) (b : ChallengeBook) : FaucetHub := mkFaucetHub (fh_hub s) b.
Definition with_hub (s : FaucetHub) (h : Hub) : FaucetHub := mkFaucetHub h (fh_book s).

Definition cutoff_at (now : DateTime) : Z := timestamp_of (now - seconds FAUCET_BUDGET_WINDOW_SECONDS)%Z.

Section handlers.
Context `{Primitives, HubKeys, TextForms} (cfg : FaucetConfig).

(** [faucet_difficulty_for] *)
Definition faucet_difficulty_for {E} (tb : TaskBoard) (prefix : option string) (now : DateTime) : outcome E N :=
  match prefix with
  | None => Ok (faucet_expected_hashes cfg)
  | Some prefix =>
      expected_hashes_for_prefix (faucet_expected_hashes cfg)
        (faucet_granted_from_prefix_since tb prefix (cutoff_at now))
        (faucet_free_grants_per_prefix cfg) (faucet_pow_doubling_grants cfg)
  end.

(** [faucet_budget_remaining], [faucet_budget_exhausted] *)
Definition faucet_budget_remaining (tb : TaskBoard) (now : DateTime) : N :=
  faucet_daily_grants cfg - faucet_granted_since tb (cutoff_at now).
Definition faucet_budget_exhausted (tb : TaskBoard) (now : DateTime) : outcome FaucetError unit :=
  guard_ok (0 <? faucet_budget_remaining tb now) BudgetExhausted.

(** [faucet_network_share_exhausted] *)
Definition share_allowed : N :=
  N.max (saturating_mul (faucet_daily_grants cfg) (faucet_network_share_percent cfg) / 100) 1.
Definition faucet_network_share_exhausted (tb : TaskBoard) (prefix : option string) (now : DateTime)
    : outcome FaucetError unit :=
  match prefix with
  | None => Ok tt
  | Some prefix =>
      if 100 <=? faucet_network_share_percent cfg then Ok tt
      else match widen_prefix prefix with
           | None => Ok tt
           | Some wide =>
               guard_ok (faucet_granted_from_wide_prefix_since widen_prefix tb wide (cutoff_at now) <? share_allowed)
                 (ShareExhausted wide)
           end
  end.

(** [operator_can_fund_a_grant]: the node's answer, if it gave one. *)
Definition operator_can_fund_a_grant (balance : option N) : bool :=
  match balance with
  | Some balance => FAUCET_GRANT_AMOUNT + HUB_TRANSACTION_FEE <=? balance
  | None => true
  end.

(** [is_insufficient_funds] *)
Definition is_insufficient_funds (e : SettleError) : bool :=
  match e with CannotFund (InsufficientFunds _ _) => true | _ => false end.

Definition refused {A} (r : outcome RedemptionError A) : outcome FaucetError A :=
  match r with Ok a => Ok a | Err e => Err (Refused e) | Panic => Panic end.

(** [GrantUnfunded], [grant_unfunded]; the message and the retry time are not
    modelled. *)
Inductive GrantUnfunded : Type :=
| BeforeRedemption
| AfterRedemption (prefix : option string) (target : N).
Record IssueEnv := mkIssueEnv {
  ie_id : Uuid; ie_nonce : string; ie_now : DateTime; ie_commits : bool
}.
Definition grant_unfunded (e : IssueEnv) (s : FaucetHub) (pk : PublicKey) (when : GrantUnfunded)
    : FaucetHub * FaucetError :=
  match when with
  | BeforeRedemption => (s, Unfunded None)
  | AfterRedemption prefix target =>
      match issue_at_target (ie_commits e) (fh_book s) (ie_id e) (ie_nonce e) pk target prefix (ie_now e) with
      | Ok (b, c) => (with_book s b, Unfunded (Some c))
      | _ => (s, Unfunded None)
      end
  end.

(** [faucet_challenge] *)
Definition faucet_challenge (e : IssueEnv) (budget_now share_now price_now : DateTime) (s : FaucetHub)
    (pk : PublicKey) (client_ip : option IpAddr) : outcome FaucetError (FaucetHub * Challenge) :=
  let tb := live (fh_hub s) in
  ensure can_claim_faucet tb pk otherwise AlreadyGranted;
  _ ← faucet_budget_exhausted tb budget_now;
  let prefix := prefix_of <$> client_ip in
  _ ← faucet_network_share_exhausted tb prefix share_now;
  expected ← faucet_difficulty_for tb prefix price_now;
  '(b, c) ← refused (issue_at_target (ie_commits e) (fh_book s) (ie_id e) (ie_nonce e) pk
               (target_for_expected_hashes expected) prefix (ie_now e));
  Ok (with_book s b, c).

(** [faucet_claim] up to the redemption. *)
Record RedeemEnv := mkRedeemEnv {
  re_check_now : DateTime;
  re_balance : option N;
  re_budget_now : DateTime;
  re_share_now : DateTime;
  re_redeem_now : DateTime;
  re_commits : bool
}.
Definition claim_redeem (e : RedeemEnv) (s : FaucetHub) (pk : PublicKey) (challenge_id : Uuid) (solution : N)
    : outcome FaucetError (FaucetHub * Challenge) :=
  let tb := live (fh_hub s) in
  _ ← refused (check (fh_book s) challenge_id pk solution (re_check_now e));
  ensure operator_can_fund_a_grant (re_balance e) otherwise Unfunded None;
  ensure can_claim_faucet tb pk otherwise AlreadyGranted;
  _ ← faucet_budget_exhausted tb (re_budget_now e);
  _ ← faucet_network_share_exhausted tb (network_of (fh_book s) challenge_id) (re_share_now e);
  '(b, redeemed) ← refused (redeem (re_commits e) (fh_book s) challenge_id pk solution (re_redeem_now e));
  Ok (with_book s b, redeemed).

(** [faucet_claim] under [payout_lock]: the state is returned with the error too,
    since a refusal may have issued a replacement. *)
Record GrantEnv := mkGrantEnv {
  ge_budget_now : DateTime;
  ge_share_now : DateTime;
  ge_utxos : option (list Utxo);
  ge_fresh : nat -> Uuid;
  ge_issue : IssueEnv;
  ge_payment_id : Uuid;
  ge_created : DateTime;
  ge_submitted : DateTime;
  ge_prepare_commits : bool;
  ge_prefix_commits : bool;
  ge_send_commits : bool
}.

(** The [if let] after [prepare]: the network is noted in memory, and on disk
    when the write commits. *)
Definition note_prefix (commits : bool) (h : Hub) (pk : PublicKey) (prefix : option string) : Hub :=
  match prefix with
  | None => h
  | Some prefix =>
      with_boards h (record_faucet_grant_prefix (live h) pk prefix)
        (if commits then restore_faucet_grant_prefix (disk h) pk prefix else disk h)
  end.

Definition claim_grant (e : GrantEnv) (s : FaucetHub) (pk : PublicKey) (redeemed : Challenge)
    : FaucetHub * outcome FaucetError Payment :=
  let tb := live (fh_hub s) in
  if negb (can_claim_faucet tb pk) then (s, Err AlreadyGranted)
  else
    match (_ ← faucet_budget_exhausted tb (ge_budget_now e);
           faucet_network_share_exhausted tb (ch_prefix redeemed) (ge_share_now e)) with
    | Err x => (s, Err x)
    | Panic => (s, Panic)
    | Ok _ =>
        match build_payment_from_fresh tb (ge_utxos e) (ge_fresh e) operator_private_key operator_public_key
                [(pk, FAUCET_GRANT_AMOUNT)] operator_public_key with
        | Panic => (s, Panic)
        | Err x =>
            if is_insufficient_funds x
            then let '(s', err) := grant_unfunded (ge_issue e) s pk
                                     (AfterRedemption (ch_prefix redeemed) (ch_target redeemed)) in
                 (s', Err err)
            else (s, Err NotSent)
        | Ok tx =>
            let p := payment_new (ge_payment_id e) (ge_created e) (ge_submitted e) Faucet operator_public_key pk
                       FAUCET_GRANT_AMOUNT (Some tx) in
            match prepare (ge_prepare_commits e) (fh_hub s) p with
            | Panic => (s, Panic)
            | Err _ => (s, Err NotSent)
            | Ok (h, p) =>
                let h := note_prefix (ge_prefix_commits e) h (p_recipient p) (ch_prefix redeemed) in
                match send (ge_send_commits e) h p with
                | Ok h => (with_hub s h, Ok p)
                | _ => (with_hub s h, Panic)
                end
            end
        end
    end.

(** [faucet_claim] when no other request comes between its two steps. *)
Definition faucet_claim (re : RedeemEnv) (ge : GrantEnv) (s : FaucetHub) (pk : PublicKey) (challenge_id : Uuid)
    (solution : N) : FaucetHub * outcome FaucetError Payment :=
  match claim_redeem re s pk challenge_id solution with
  | Ok (s', redeemed) => claim_grant ge s' pk redeemed
  | Err x => (s, Err x)
  | Panic => (s, Panic)
  end.

End handlers.
