(* ===== verification/Admin.v ===== *)
(** * Admin: gauges, the operators' overview and its alerts

    Models [hub/src/admin.rs], [sample_gauges] and the timing of [sweep_loop] in
    [main.rs], and the admin check of [handlers.rs]. An alert is its severity and kind;
    its sentences are text. Keys are counted as keys: their hexadecimal form is
    injective. What the node answers and each clock reading are arguments. *)

From Stdlib Require Import Ascii.
From S2P Require Import Prelude Types Crypto Transaction Spend BoardTypes Exchange Tasks Board Payouts Payments IpAddr RateLimit Reconcile ReconcileTheorems Faucet RouteMetrics.

Open Scope N_scope.

Definition SWEEP_INTERVAL_MS : N := 60 * 1000.

(** ** Gauges *)
Record Gauges := mkGauges {
  payments_pending : N; payments_needs_review : N; payments_oldest_pending_seconds : N;
  faucet_grants : N; faucet_granted_units : N; faucet_budget_remaining : N;
  board_open_tasks : N; board_outstanding_payouts : N; board_oldest_payout_attempt_seconds : N;
  g_exchange_liabilities : N;
  chain_height : N; chain_observed_at_unix : N; chain_observation_failures : N;
  exchange_custody_balance : N; exchange_solvency_check_failures : N
}.
Definition no_gauges : Gauges := mkGauges 0 0 0 0 0 0 0 0 0 0 0 0 0 0 0.

(** [(now - then).num_seconds().max(0) as u64] *)
Definition age_seconds (now since : DateTime) : N := Z.to_N (Z.max (num_seconds (now - since)) 0).

(** [sample_gauges]: [tip] is the node's height with the clock read after it, [balance]
    the custody address's; [None] when the node does not answer. *)
Definition sample_gauges (faucet_daily_grants : N) (tb : TaskBoard) (now now_payments : DateTime)
    (tip : option (N * DateTime)) (balance : option N) (g : Gauges) : Gauges :=
  let grants := N.of_nat (size (tb_faucet_grants tb)) in
  let recent_grants := faucet_granted_since tb (cutoff_at now) in
  let payments := btree_values (tb_payments tb) in
  let attempts := outstanding_payout_attempts tb in
  mkGauges
    (N.of_nat (length (base.filter (fun p => p_status p = PaymentPending) payments)))
    (N.of_nat (length (base.filter (fun p => p_status p = PaymentNeedsReview) payments)))
    (foldr N.max 0 ((fun p => age_seconds now_payments (p_created_at p)) <$> base.filter (fun p => p_status p <> PaymentConfirmed) payments))
    grants (saturating_mul grants FAUCET_GRANT_AMOUNT) (faucet_daily_grants - recent_grants)
    (N.of_nat (length (base.filter (fun t => status t <> Paid /\ status t <> Closed) (btree_values (tb_tasks tb)))))
    (N.of_nat (length attempts))
    (from_option (fun a => age_seconds now (pa_submitted_at a)) 0 (head attempts))
    (exchange_liabilities tb)
    (match tip with Some (height, _) => height | None => chain_height g end)
    (match tip with Some (_, at_) => Z.to_N (Z.max (timestamp_of at_) 0) | None => chain_observed_at_unix g end)
    (match tip with Some _ => chain_observation_failures g | None => fetch_add (chain_observation_failures g) 1 end)
    (match balance with Some b => b | None => exchange_custody_balance g end)
    (match balance with Some _ => exchange_solvency_check_failures g | None => fetch_add (exchange_solvency_check_failures g) 1 end).

(** One turn of [sweep_loop], in milliseconds since some instant: when it started and
    how long the pass took. *)
Record SweepTiming := mkTiming {
  st_previous : option N; last_lag_ms : N; max_lag_ms : N; last_duration_ms : N; duration_ms_total : N; sweep_passes : N
}.
Definition no_timing : SweepTiming := mkTiming None 0 0 0 0 0.
Definition sweep_turn (s : SweepTiming) (pass : N * N) : SweepTiming :=
  let '(started, elapsed) := pass in
  let lag := match st_previous s with
             | Some previous => Some (started - previous - SWEEP_INTERVAL_MS)
             | None => None
             end in
  mkTiming (Some started) (default (last_lag_ms s) lag) (N.max (max_lag_ms s) (default 0 lag))
    elapsed (fetch_add (duration_ms_total s) elapsed) (fetch_add (sweep_passes s) 1).

(** ** The overview *)
Definition ACTIVITY_WINDOW_HOURS : Z := 24.
Definition MAX_NETWORK_ROWS : nat := 50.

Inductive Severity : Type := Critical | Warning.
Record Alert := mkAlert { a_severity : Severity; a_kind : string }.
Record NetworkRow := mkNetworkRow {
  nr_prefix : string; grants_in_window : N; grants_all_time : N; next_price_multiplier : N; share_of_budget : spec_float
}.
Record Agents := mkAgents { ag_known : N; funded_by_faucet : N; with_completed_work : N; with_failed_work : N; holding_balance : N }.
Record Work := mkWork {
  w_open : N; w_claimed : N; awaiting_settlement : N; w_paid : N; w_closed : N; w_payout_failed : N;
  w_exposure : N; exposure_ceiling : N
}.
Record AdminFaucet := mkAdminFaucet {
  granted_all_time : N; granted_in_window : N; granted_units_all_time : N; window_budget : N; window_remaining : N
}.
Record Money := mkMoney {
  custody_balance : N; m_liabilities : N; solvent : bool; m_pending : N; m_needs_review : N; m_oldest_pending : N;
  task_payouts_outstanding : N; task_payouts_oldest_seconds : N; operator_ready_outputs : N
}.
Record Integrity := mkIntegrity {
  burned_envelopes : N; replay_guard_degraded : bool; store_disagreements : list Finding; ledger_store_divergences : N
}.
Record Overview := mkOverview {
  chain_observation_age_seconds : N; o_agents : Agents; o_work : Work; o_faucet : AdminFaucet; o_money : Money;
  o_networks : list NetworkRow; o_integrity : Integrity
}.

(** [agents_of] *)
Definition agents_of (tb : TaskBoard) : Agents :=
  let count (P : Reputation -> bool) := N.of_nat (length (base.filter (fun e : PublicKey * Reputation => P e.2 = true) (map_to_list (tb_reputation tb)))) in
  mkAgents
    (N.of_nat (size (dom (tb_reputation tb) ∪ dom (tb_faucet_grants tb) ∪ dom (tb_accounts tb) : gset PublicKey)))
    (N.of_nat (size (tb_faucet_grants tb)))
    (count (fun r => 0 <? completed r)) (count (fun r => 0 <? failed r))
    (N.of_nat (length (base.filter (fun e : PublicKey * ExchangeAccount => 0 < base_balance e.2 \/ 0 < compute_balance e.2) (map_to_list (tb_accounts tb))))).

(** [work_of] *)
Definition count_task (w : Work) (t : Task) : Work :=
  match status t with
  | Open => mkWork (w_open w + 1) (w_claimed w) (awaiting_settlement w) (w_paid w) (w_closed w) (w_payout_failed w) (w_exposure w) (exposure_ceiling w)
  | Claimed => mkWork (w_open w) (w_claimed w + 1) (awaiting_settlement w) (w_paid w) (w_closed w) (w_payout_failed w) (w_exposure w) (exposure_ceiling w)
  | AwaitingDispute | Disputed | AwaitingPick | Verified | Submitted =>
      mkWork (w_open w) (w_claimed w) (awaiting_settlement w + 1) (w_paid w) (w_closed w) (w_payout_failed w) (w_exposure w) (exposure_ceiling w)
  | Paid => mkWork (w_open w) (w_claimed w) (awaiting_settlement w) (w_paid w + 1) (w_closed w) (w_payout_failed w) (w_exposure w) (exposure_ceiling w)
  | PayoutFailed => mkWork (w_open w) (w_claimed w) (awaiting_settlement w) (w_paid w) (w_closed w) (w_payout_failed w + 1) (w_exposure w) (exposure_ceiling w)
  | Closed => mkWork (w_open w) (w_claimed w) (awaiting_settlement w) (w_paid w) (w_closed w + 1) (w_payout_failed w) (w_exposure w) (exposure_ceiling w)
  end.
Definition work_of (tb : TaskBoard) (ceiling : N) : Work :=
  foldl count_task (mkWork 0 0 0 0 0 0 (consensus_exposure tb) ceiling) (btree_values (tb_tasks tb)).

(** [networks_of]; [rows] is the [BTreeMap], in the order of its keys *)
Definition network_before (a b : NetworkRow) : bool :=
  if grants_in_window b =? grants_in_window a
  then if grants_all_time b =? grants_all_time a then String.leb (nr_prefix a) (nr_prefix b)
       else grants_all_time b <? grants_all_time a
  else grants_in_window b <? grants_in_window a.
Definition network_row {E} (faucet_daily_grants free step : N) (e : string * (N * N)) : outcome E NetworkRow :=
  multiplier ← expected_hashes_for_prefix 1 e.2.1 free step;
  Ok (mkNetworkRow e.1 e.2.1 e.2.2 multiplier
        (f64_div (f64_of (Z.of_N e.2.1)) (f64_of (Z.of_N (N.max faucet_daily_grants 1))))).
Fixpoint network_rows {E} (faucet_daily_grants free step : N) (l : list (string * (N * N))) : outcome E (list NetworkRow) :=
  match l with
  | [] => Ok []
  | e :: l => r ← network_row faucet_daily_grants free step e; rows ← network_rows faucet_daily_grants free step l; Ok (r :: rows)
  end.
Definition networks_of {E} (tb : TaskBoard) (faucet_daily_grants free step : N) (cutoff : Z) : outcome E (list NetworkRow) :=
  rows ← network_rows faucet_daily_grants free step (map_to_list (faucet_grants_by_prefix tb cutoff));
  Ok (take MAX_NETWORK_ROWS (sort_by network_before rows)).

(** [alerts_for] *)
Definition alert_when (fires : bool) (s : Severity) (k : string) : list Alert := if fires then [mkAlert s k] else [].
Definition dominates (rows : list NetworkRow) : bool :=
  match rows with
  | busiest :: _ => SFleb (f64_div (f64_of 1) (f64_of 2)) (share_of_budget busiest) && (1 <? grants_in_window busiest)
  | [] => false
  end.
Definition alerts_for (o : Overview) : list Alert :=
  alert_when (negb (solvent (o_money o))) Critical "insolvent" ++
  alert_when (0 <? w_payout_failed (o_work o)) Critical "payout_failed" ++
  alert_when (0 <? m_needs_review (o_money o)) Critical "payments_need_review" ++
  alert_when (negb (bool_decide (store_disagreements (o_integrity o) = []))) Critical "store_disagreement" ++
  alert_when (0 <? burned_envelopes (o_integrity o)) Critical "burned_envelopes" ++
  alert_when (0 <? ledger_store_divergences (o_integrity o)) Critical "ledger_store_divergence" ++
  alert_when (replay_guard_degraded (o_integrity o)) Warning "replay_guard_degraded" ++
  alert_when (180 <? chain_observation_age_seconds o) Warning "chain_stale" ++
  alert_when (operator_ready_outputs (o_money o) <? 4) Warning "operator_wallet_flat" ++
  alert_when ((window_remaining (o_faucet o) =? 0) && (0 <? window_budget (o_faucet o))) Warning "faucet_budget_exhausted" ++
  alert_when (900 <? task_payouts_oldest_seconds (o_money o)) Warning "task_payout_stuck" ++
  alert_when (900 <? m_oldest_pending (o_money o)) Warning "payment_stuck" ++
  alert_when ((0 <? exposure_ceiling (o_work o)) && (exposure_ceiling (o_work o) / 5 * 4 <=? w_exposure (o_work o))) Warning "consensus_exposure_high" ++
  alert_when (dominates (o_networks o)) Warning "network_dominates_faucet".

(** [overview] and its alerts; the counters of other components are arguments. *)
Record AdminState := mkAdminState {
  ad_daily_grants : N; ad_free : N; ad_step : N; ad_max_exposure : N;
  ad_burned : N; ad_degraded : N; ad_divergences : N; ad_ready_outputs : N
}.
Definition overview {E} (a : AdminState) (g : Gauges) (tb : TaskBoard) (now : DateTime) : outcome E (Overview * list Alert) :=
  let cutoff := timestamp_of (now - seconds (ACTIVITY_WINDOW_HOURS * 3600))%Z in
  networks ← networks_of tb (ad_daily_grants a) (ad_free a) (ad_step a) cutoff;
  let granted := faucet_granted_since tb cutoff in
  let liabilities := exchange_liabilities tb in
  let o := mkOverview
    (if chain_observed_at_unix g =? 0 then 0 else Z.to_N (timestamp_of now mod 2 ^ 64) - chain_observed_at_unix g)
    (agents_of tb) (work_of tb (ad_max_exposure a))
    (mkAdminFaucet (N.of_nat (size (tb_faucet_grants tb))) granted (faucet_granted_units g) (ad_daily_grants a) (ad_daily_grants a - granted))
    (mkMoney (exchange_custody_balance g) liabilities (liabilities <=? exchange_custody_balance g) (payments_pending g) (payments_needs_review g)
       (payments_oldest_pending_seconds g) (board_outstanding_payouts g) (board_oldest_payout_attempt_seconds g) (ad_ready_outputs a))
    networks
    (mkIntegrity (ad_burned a) (0 <? ad_degraded a) (reconcile tb) (ad_divergences a)) in
  Ok (o, alerts_for o).

(** [require_admin] *)
Definition require_admin (operator_public_key : PublicKey) (admin_keys : list PublicKey) (pk : PublicKey) : bool :=
  bool_decide (pk = operator_public_key) || bool_decide (pk ∈ admin_keys).

(** ** Alerts *)
Lemma elem_of_alert_when b s k x : x ∈ alert_when b s k <-> b = true /\ x = mkAlert s k.
Proof. unfold alert_when. destruct b; [rewrite list_elem_of_singleton; naive_solver|]. split; [by intros ?%not_elem_of_nil|by intros [? _]]. Qed.

Ltac alert := unfold alerts_for; rewrite !elem_of_app, !elem_of_alert_when; naive_solver.
Lemma insolvent_alert o : mkAlert Critical "insolvent" ∈ alerts_for o <-> solvent (o_money o) = false.
Proof. rewrite <-negb_true_iff. alert. Qed.
Lemma disagreement_alert o : mkAlert Critical "store_disagreement" ∈ alerts_for o <-> store_disagreements (o_integrity o) <> [].
Proof. rewrite <-(bool_decide_eq_false (store_disagreements (o_integrity o) = [])), <-negb_true_iff. alert. Qed.
Lemma exposure_alert o :
  mkAlert Warning "consensus_exposure_high" ∈ alerts_for o <->
  (0 <? exposure_ceiling (o_work o)) && (exposure_ceiling (o_work o) / 5 * 4 <=? w_exposure (o_work o)) = true.
Proof. alert. Qed.

(** The warning on consensus exposure is raised whenever four fifths of the ceiling are
    promised, and never when more than sixteen fifths of a unit are missing to that;
    below a ceiling of five units it is raised with nothing promised. *)
Theorem exposure_alert_is_close o :
  let e := w_exposure (o_work o) in
  let c := exposure_ceiling (o_work o) in
  (0 < c -> 4 * c <= 5 * e -> mkAlert Warning "consensus_exposure_high" ∈ alerts_for o) /\
  (mkAlert Warning "consensus_exposure_high" ∈ alerts_for o -> 4 * c <= 5 * e + 16) /\
  (0 < c < 5 -> mkAlert Warning "consensus_exposure_high" ∈ alerts_for o).
Proof.
  cbv zeta. rewrite exposure_alert, andb_true_iff, N.ltb_lt, N.leb_le.
  generalize (exposure_ceiling (o_work o)) (w_exposure (o_work o)). intros c e.
  pose proof (N.div_mod' c 5). pose proof (N.mod_lt c 5 ltac:(done)).
  generalize dependent (c mod 5). generalize dependent (c / 5). intros. split_and!; intros; lia.
Qed.

(** ** Counting *)
Lemma count_task_total w t :
  let total w := w_open w + w_claimed w + awaiting_settlement w + w_paid w + w_closed w + w_payout_failed w in
  total (count_task w t) = total w + 1 /\ w_exposure (count_task w t) = w_exposure w /\ exposure_ceiling (count_task w t) = exposure_ceiling w.
Proof. unfold count_task. destruct (status t); cbn; lia. Qed.

(** The six counts of the overview add up to the tasks of the board, its exposure is the
    board's, and it shows a failed payout exactly when some task has one. *)
Theorem work_partitions_the_tasks tb ceiling :
  let w := work_of tb ceiling in
  w_open w + w_claimed w + awaiting_settlement w + w_paid w + w_closed w + w_payout_failed w = N.of_nat (size (tb_tasks tb)) /\
  w_exposure w = consensus_exposure tb /\
  (w_payout_failed w = 0 <-> forall i t, tb_tasks tb !! i = Some t -> status t <> PayoutFailed).
Proof.
  cbv zeta. unfold work_of. assert (Hsize : length (btree_values (tb_tasks tb)) = size (tb_tasks tb)).
  { unfold btree_values. by rewrite length_fmap, btree_iter_perm, length_map_to_list. }
  assert (Hgen : forall l w, let w' := foldl count_task w l in
    w_open w' + w_claimed w' + awaiting_settlement w' + w_paid w' + w_closed w' + w_payout_failed w' =
      w_open w + w_claimed w + awaiting_settlement w + w_paid w + w_closed w + w_payout_failed w + N.of_nat (length l) /\
    w_exposure w' = w_exposure w /\ (w_payout_failed w' = 0 <-> w_payout_failed w = 0 /\ Forall (fun t => status t <> PayoutFailed) l)).
  { induction l as [|t l IH]; intros w; [cbn; split_and!; [lia|done|naive_solver]|]. cbn [foldl length].
    destruct (IH (count_task w t)) as (E1 & E2 & E3). destruct (count_task_total w t) as (T1 & T2 & _).
    split_and!; [lia|congruence|]. rewrite E3, Forall_cons. unfold count_task. destruct (status t); cbn; naive_solver lia. }
  destruct (Hgen (btree_values (tb_tasks tb)) (mkWork 0 0 0 0 0 0 (consensus_exposure tb) ceiling)) as (E1 & E2 & E3).
  rewrite E1, E3, Hsize. split_and!; [cbn; lia|exact E2|]. rewrite Forall_forall. setoid_rewrite elem_of_btree_values. cbn. naive_solver.
Qed.

Lemma length_filter_dom {A} (P : PublicKey * A -> Prop) `{!forall x, Decision (P x)} (m : gmap PublicKey A) :
  (length (base.filter P (map_to_list m)) <= size (dom m))%nat.
Proof. rewrite size_dom, <-length_map_to_list. apply length_filter. Qed.

(** Funded, working, failing and holding agents are among the known ones, of which there
    are no more than records. *)
Theorem agents_are_known tb :
  let a := agents_of tb in
  funded_by_faucet a <= ag_known a /\ with_completed_work a <= ag_known a /\ with_failed_work a <= ag_known a /\ holding_balance a <= ag_known a /\
  ag_known a <= N.of_nat (size (tb_reputation tb) + size (tb_faucet_grants tb) + size (tb_accounts tb)).
Proof.
  cbv zeta. unfold agents_of. cbn [funded_by_faucet ag_known with_completed_work with_failed_work holding_balance].
  set (all := dom (tb_reputation tb) ∪ dom (tb_faucet_grants tb) ∪ dom (tb_accounts tb) : gset PublicKey).
  assert (H1 : (size (dom (tb_reputation tb)) <= size all)%nat) by (apply subseteq_size; set_solver).
  assert (H2 : (size (dom (tb_faucet_grants tb)) <= size all)%nat) by (apply subseteq_size; set_solver).
  assert (H3 : (size (dom (tb_accounts tb)) <= size all)%nat) by (apply subseteq_size; set_solver).
  split_and!.
  - rewrite size_dom in H2. lia.
  - pose proof (length_filter_dom (fun e : PublicKey * Reputation => (0 <? completed e.2) = true) (tb_reputation tb)). lia.
  - pose proof (length_filter_dom (fun e : PublicKey * Reputation => (0 <? failed e.2) = true) (tb_reputation tb)). lia.
  - pose proof (length_filter_dom (fun e : PublicKey * ExchangeAccount => 0 < base_balance e.2 \/ 0 < compute_balance e.2) (tb_accounts tb)). lia.
  - assert (Hu : forall X Y : gset PublicKey, (size (X ∪ Y) <= size X + size Y)%nat).
    { intros X Y. rewrite size_union_alt. pose proof (subseteq_size (Y ∖ X) Y ltac:(set_solver)). lia. }
    pose proof (Hu (dom (tb_reputation tb)) (dom (tb_faucet_grants tb))). pose proof (Hu (dom (tb_reputation tb) ∪ dom (tb_faucet_grants tb)) (dom (tb_accounts tb))).
    rewrite !size_dom in *. unfold all. lia.
Qed.

(** ** What the gauges say *)
Lemma age_anti now a b : (a <= b)%Z -> age_seconds now b <= age_seconds now a.
Proof.
  intros Hle. unfold age_seconds, num_seconds. pose proof (Z.quot_le_mono (now - b) (now - a) 1000000000 ltac:(lia) ltac:(lia)). lia.
Qed.

(** The gauges count the attempts that are out, and the age they give is the greatest of
    theirs, zero when there is none. *)
Theorem oldest_payout_is_the_oldest daily tb now now_payments tip balance g :
  let g' := sample_gauges daily tb now now_payments tip balance g in
  board_outstanding_payouts g' = N.of_nat (size (tb_attempts tb)) /\
  (forall k a, tb_attempts tb !! k = Some a -> age_seconds now (pa_submitted_at a) <= board_oldest_payout_attempt_seconds g') /\
  (board_oldest_payout_attempt_seconds g' = 0 \/
   exists k a, tb_attempts tb !! k = Some a /\ board_oldest_payout_attempt_seconds g' = age_seconds now (pa_submitted_at a)).
Proof.
  cbv zeta. cbn [sample_gauges board_outstanding_payouts board_oldest_payout_attempt_seconds].
  set (leb := fun a b => Z.leb (pa_submitted_at a) (pa_submitted_at b)).
  assert (Hp : outstanding_payout_attempts tb ≡ₚ btree_values (tb_attempts tb)) by apply sort_by_perm.
  assert (Hsize : length (btree_values (tb_attempts tb)) = size (tb_attempts tb)).
  { unfold btree_values. by rewrite length_fmap, btree_iter_perm, length_map_to_list. }
  assert (Hs : StronglySorted (fun a b => leb a b = true) (outstanding_payout_attempts tb)).
  { apply sort_by_sorted; unfold leb; intros *; lia. }
  assert (Hin : forall a, a ∈ outstanding_payout_attempts tb <-> exists k, tb_attempts tb !! k = Some a).
  { intros a. by rewrite Hp, elem_of_btree_values. }
  split; [by rewrite Hp, Hsize|]. destruct (outstanding_payout_attempts tb) as [|x l] eqn:E.
  - split; [|by left]. intros k a Ha. assert (a ∈ []) as ?%not_elem_of_nil by (apply Hin; by exists k). done.
  - cbn [head from_option]. split.
    + intros k a Ha. assert (Hx : a ∈ x :: l) by (apply Hin; by exists k). apply elem_of_cons in Hx as [->|Hx]; [done|].
      apply StronglySorted_inv in Hs as [_ Hf]. rewrite Forall_forall in Hf. apply age_anti. specialize (Hf a Hx). unfold leb in Hf. lia.
    + right. destruct (proj1 (Hin x) ltac:(by left)) as [k Hk]. by exists k, x.
Qed.

(** A custody balance that was never read is zero. *)
Definition unread (g : Gauges) (l : list (TaskBoard * DateTime * option (N * DateTime))) (daily : N) : Gauges :=
  foldl (fun g e => sample_gauges daily e.1.1 e.1.2 e.1.2 e.2 None g) g l.

(** While the node has never answered for the custody address, the overview says the hub
    is insolvent exactly when it owes anything. *)
Theorem unread_balance_reads_as_insolvent {E} daily l a tb now o alerts :
  overview (E := E) a (unread no_gauges l daily) tb now = Ok (o, alerts) ->
  (mkAlert Critical "insolvent" ∈ alerts <-> 0 < exchange_liabilities tb).
Proof.
  intros Ho. assert (Hz : exchange_custody_balance (unread no_gauges l daily) = 0).
  { unfold unread. assert (Hgen : forall g, exchange_custody_balance g = 0 ->
      exchange_custody_balance (foldl (fun g e => sample_gauges daily e.1.1 e.1.2 e.1.2 e.2 None g) g l) = 0); [|by apply Hgen].
    clear Ho. induction l as [|e l IH]; intros g Hg; [done|]. cbn [foldl]. apply IH. exact Hg. }
  unfold overview in Ho. apply bind_Ok in Ho as (networks & _ & Ho). injection Ho as <- <-. rewrite insolvent_alert.
  cbn [o_money solvent]. rewrite Hz, N.leb_gt. done.
Qed.

(** ** The sweep's lag *)
Fixpoint gaps (l : list N) : list N := match l with x :: (y :: _) as l' => (y - x - SWEEP_INTERVAL_MS) :: gaps l' | _ => [] end.
Lemma gaps_snoc l x y : gaps (l ++ [x; y]) = gaps (l ++ [x]) ++ [y - x - SWEEP_INTERVAL_MS].
Proof. induction l as [|z [|w l] IH]; [done|done|]. exact (f_equal (cons _) IH). Qed.

(** After any passes the worst lag is the greatest excess of a gap between starts over the
    interval, the last lag that of the last gap, and durations and passes are summed
    modulo 2^64. *)
Theorem sweep_timing_reports_the_passes passes :
  let s := foldl sweep_turn no_timing passes in
  max_lag_ms s = foldr N.max 0 (gaps passes.*1) /\ last_lag_ms s = default 0 (last (gaps passes.*1)) /\
  last_duration_ms s = default 0 (last passes.*2) /\ duration_ms_total s = sumN passes.*2 mod 2 ^ 64 /\
  sweep_passes s = N.of_nat (length passes) mod 2 ^ 64 /\ st_previous s = last passes.*1.
Proof.
  cbv zeta. induction passes as [|[started elapsed] passes IH] using rev_ind; [done|].
  rewrite foldl_app. cbn [foldl]. destruct (foldl sweep_turn no_timing passes) as [prev ll ml ld total n] eqn:E.
  cbn [max_lag_ms last_lag_ms last_duration_ms duration_ms_total sweep_passes st_previous sweep_turn] in *.
  destruct IH as (-> & -> & _ & -> & -> & ->). rewrite !fmap_app, !last_app, length_app, sumN_app. cbn [fmap list_fmap last].
  assert (Hmax : forall l x, foldr N.max 0 (l ++ [x]) = N.max (foldr N.max 0 l) x).
  { induction l as [|z l IHl]; intros x; cbn; [lia|]. rewrite IHl. lia. }
  split_and!; try done.
  1, 2: destruct passes as [|[p q] passes' _] using rev_ind; [reflexivity|]; rewrite fmap_app, <-app_assoc, last_app; cbn [fmap list_fmap last default app];
    rewrite gaps_snoc, ?Hmax, ?last_app; cbn; done.
  - unfold fetch_add. rewrite N.Div0.add_mod_idemp_l. f_equal. cbn. lia.
  - unfold fetch_add. rewrite N.Div0.add_mod_idemp_l. f_equal. cbn. lia.
Qed.

(** ** The network table *)
Section networks.
Context (tb : TaskBoard) (cutoff : Z).
Definition grants_of (p : string) (l : list (PublicKey * string)) : nat := length (base.filter (fun e => e.2 = p) l).
Definition recent_of (p : string) (l : list (PublicKey * string)) : nat :=
  length (base.filter (fun e => e.2 = p /\ granted_since tb cutoff e.1 = true) l).
Definition tally_prefix (rows : gmap string (N * N)) (e : PublicKey * string) : gmap string (N * N) :=
  let '(pk, prefix) := e in
  let '(recent, total) := default (0, 0) (rows !! prefix) in
  <[prefix := ((if granted_since tb cutoff pk then recent + 1 else recent), total + 1)]> rows.
Lemma tally_prefixes l p :
  foldl tally_prefix ∅ l !! p = if decide (grants_of p l = 0%nat) then None else Some (N.of_nat (recent_of p l), N.of_nat (grants_of p l)).
Proof.
  induction l as [|[pk q] l IH] using rev_ind; [done|]. rewrite foldl_app. cbn [foldl tally_prefix].
  unfold grants_of, recent_of in *. rewrite !length_filter_snoc. cbn [fst snd].
  destruct (decide (q = p)) as [->|Hne].
  - assert (Hrec : (length (base.filter (fun e : PublicKey * string => e.2 = p /\ granted_since tb cutoff e.1 = true) l) <=
                    length (base.filter (fun e : PublicKey * string => e.2 = p) l))%nat).
    { clear. induction l as [|e l IH]; [done|]. rewrite !filter_cons. repeat case_decide; cbn [length]; lia || naive_solver. }
    rewrite (decide_False (P := S _ = 0%nat)) by lia. rewrite IH. case_decide as Hz; cbn [default from_option id]; rewrite lookup_insert_eq;
      (destruct (granted_since tb cutoff pk); [rewrite decide_True by done|rewrite decide_False by naive_solver]);
      repeat f_equal; lia.
  - destruct (default (0, 0) (foldl tally_prefix ∅ l !! q)). rewrite lookup_insert_ne by done. rewrite (decide_False (P := q = p /\ _)) by (by intros [? _]). exact IH.
Qed.
End networks.

Lemma network_rows_elem {E} daily free step l rows r :
  network_rows (E := E) daily free step l = Ok rows -> r ∈ rows <-> exists e, e ∈ l /\ network_row (E := E) daily free step e = Ok r.
Proof.
  revert rows. induction l as [|e l IH]; intros rows; cbn [network_rows].
  - intros [= <-]. split; [by intros ?%not_elem_of_nil|]. by intros (e & ?%not_elem_of_nil & _).
  - intros (x & Hx & (rows' & Hr & E1)%bind_Ok)%bind_Ok. injection E1 as <-. rewrite elem_of_cons, (IH rows' Hr). split.
    + intros [->|(e' & ? & ?)]; [exists e; split; [by left|done]|exists e'; split; [by right|done]].
    + intros (e' & [->|Hin]%elem_of_cons & Hrow); [left; congruence|right; by exists e'].
Qed.
Lemma network_rows_row {E} daily free step l rows e :
  network_rows (E := E) daily free step l = Ok rows -> e ∈ l -> exists r, r ∈ rows /\ network_row (E := E) daily free step e = Ok r.
Proof.
  revert rows. induction l as [|x l IH]; intros rows; cbn [network_rows]; [by intros _ ?%not_elem_of_nil|].
  intros (y & Hy & (rows' & Hr & E1)%bind_Ok)%bind_Ok [->|Hin]%elem_of_cons; injection E1 as <-.
  - exists y. split; [by left|done].
  - destruct (IH rows' Hr Hin) as (r & ? & ?). exists r. split; [by right|done].
Qed.
Lemma network_row_fields {E} daily free step e r :
  network_row (E := E) daily free step e = Ok r -> nr_prefix r = e.1 /\ grants_in_window r = e.2.1 /\ grants_all_time r = e.2.2.
Proof. unfold network_row. intros (m & _ & E1)%bind_Ok. by injection E1 as <-. Qed.
Lemma network_before_total a b : network_before a b = false -> network_before b a = true.
Proof.
  unfold network_before. rewrite (N.eqb_sym (grants_in_window a)), (N.eqb_sym (grants_all_time a)).
  destruct (N.eqb_spec (grants_in_window b) (grants_in_window a)), (N.eqb_spec (grants_all_time b) (grants_all_time a)); try (rewrite N.ltb_ge, N.ltb_lt; lia).
  destruct (String.leb_total (nr_prefix a) (nr_prefix b)) as [->| ->]; done.
Qed.
Lemma network_before_spec a b :
  network_before a b = true <->
  grants_in_window b < grants_in_window a \/
  grants_in_window b = grants_in_window a /\
    (grants_all_time b < grants_all_time a \/ grants_all_time b = grants_all_time a /\ String.leb (nr_prefix a) (nr_prefix b) = true).
Proof.
  unfold network_before. destruct (N.eqb_spec (grants_in_window b) (grants_in_window a)), (N.eqb_spec (grants_all_time b) (grants_all_time a));
    rewrite ?N.ltb_lt; naive_solver lia.
Qed.
Lemma network_before_trans a b c : network_before a b = true -> network_before b c = true -> network_before a c = true.
Proof. rewrite !network_before_spec. pose proof (leb_trans (nr_prefix a) (nr_prefix b) (nr_prefix c)). naive_solver lia. Qed.

(** The network table has at most fifty rows, ranked, each with the grants the faucet's
    own count gives its network; a network with grants that is not in it is behind all
    of fifty. *)
Theorem network_table_is_the_head {E} tb daily free step cutoff rows :
  networks_of (E := E) tb daily free step cutoff = Ok rows ->
  (length rows <= MAX_NETWORK_ROWS)%nat /\ StronglySorted (fun a b => network_before a b = true) rows /\
  (forall r, r ∈ rows -> grants_in_window r = faucet_granted_from_prefix_since tb (nr_prefix r) cutoff) /\
  (forall p, (exists r, r ∈ rows /\ nr_prefix r = p) \/
     (forall pk, tb_faucet_prefixes tb !! pk <> Some p) \/
     length rows = MAX_NETWORK_ROWS /\ forall r, r ∈ rows -> faucet_granted_from_prefix_since tb p cutoff <= grants_in_window r).
Proof.
  intros (all & Hall & Hr)%bind_Ok. injection Hr as <-. set (sorted := sort_by network_before all).
  assert (Hs : StronglySorted (fun a b => network_before a b = true) sorted) by (apply sort_by_sorted; [apply network_before_total|apply network_before_trans]).
  assert (Hp : sorted ≡ₚ all) by apply sort_by_perm.
  assert (Hmap : forall p, faucet_grants_by_prefix tb cutoff !! p =
    if decide (grants_of p (btree_iter (tb_faucet_prefixes tb)) = 0%nat) then None
    else Some (faucet_granted_from_prefix_since tb p cutoff, N.of_nat (grants_of p (btree_iter (tb_faucet_prefixes tb))))) by (intros p; apply tally_prefixes).
  assert (Hwin : forall r, r ∈ all -> grants_in_window r = faucet_granted_from_prefix_since tb (nr_prefix r) cutoff).
  { intros r Hr. apply (network_rows_elem _ _ _ _ _ r Hall) in Hr as ([p [w t]] & Hin & (-> & -> & _)%network_row_fields).
    apply elem_of_map_to_list in Hin. rewrite Hmap in Hin. case_decide; [done|]. by injection Hin as <- _. }
  assert (Hsplit : forall r, r ∈ sorted -> r ∈ take MAX_NETWORK_ROWS sorted \/ r ∈ drop MAX_NETWORK_ROWS sorted).
  { intros r. rewrite <-(take_drop MAX_NETWORK_ROWS sorted) at 1. by rewrite elem_of_app. }
  split_and!.
  - rewrite length_take. lia.
  - rewrite <-(take_drop MAX_NETWORK_ROWS sorted) in Hs. by apply StronglySorted_app in Hs as (_ & ? & _).
  - intros r Hr. apply Hwin. rewrite <-Hp. by eapply elem_of_take in Hr as (? & ?%list_elem_of_lookup_2 & _).
  - intros p. destruct (decide (grants_of p (btree_iter (tb_faucet_prefixes tb)) = 0%nat)) as [Hz|Hz].
    + right. left. intros pk Hpk. apply length_zero_iff_nil in Hz.
      assert (Hf : (pk, p) ∈ base.filter (fun e : PublicKey * string => e.2 = p) (btree_iter (tb_faucet_prefixes tb))).
      { apply list_elem_of_filter. split; [done|]. by rewrite btree_iter_perm, elem_of_map_to_list. }
      unfold grants_of in Hz. rewrite Hz in Hf. by apply not_elem_of_nil in Hf.
    + destruct (network_rows_row _ _ _ _ _ (p, (faucet_granted_from_prefix_since tb p cutoff, N.of_nat (grants_of p (btree_iter (tb_faucet_prefixes tb))))) Hall)
        as (r & Hin & (Hpre & Hw & _)%network_row_fields); [apply elem_of_map_to_list; by rewrite Hmap, decide_False|]. cbn in Hpre, Hw.
      destruct (Hsplit r) as [Ht|Hd]; [by rewrite Hp|left; by exists r|right; right].
      rewrite <-(take_drop MAX_NETWORK_ROWS sorted) in Hs. apply StronglySorted_app in Hs as (Hcross & _ & _). split.
      * rewrite length_take. apply list_elem_of_lookup in Hd as (i & Hi%lookup_lt_Some). rewrite length_drop in Hi. lia.
      * intros r' Hr'. rewrite <-Hw. specialize (Hcross r' r Hr' Hd). apply network_before_spec in Hcross. lia.
Qed.

(** Building the overview never panics. *)
Theorem overview_is_built {E} a g tb now :
  N.of_nat (size (tb_faucet_prefixes tb)) < U64_MAX -> exists o alerts, overview (E := E) a g tb now = Ok (o, alerts).
Proof.
  intros Hsize. unfold overview, networks_of. cbv zeta. generalize (timestamp_of (now - seconds (ACTIVITY_WINDOW_HOURS * 3600))%Z). intros cutoff.
  assert (Hrows : forall l, Forall (fun e : string * (N * N) => e.2.1 < U64_MAX) l ->
    exists rows, network_rows (E := E) (ad_daily_grants a) (ad_free a) (ad_step a) l = Ok rows).
  { induction 1 as [|[p [w t]] l Hw _ [rows IH]]; [by exists []|]. cbn in Hw. cbn [network_rows]. unfold network_row, expected_hashes_for_prefix. cbn [fst snd].
    destruct (w <? ad_free a) eqn:Ew; [eexists; cbn; by rewrite IH|].
    assert (Hle : 1 + (w - ad_free a) / N.max (ad_step a) 1 <= U64_MAX).
    { pose proof (N.Div0.div_le_upper_bound (w - ad_free a) (N.max (ad_step a) 1) w ltac:(nia)). lia. }
    rewrite add64_fits by done. eexists. cbn. by rewrite IH. }
  destruct (Hrows (map_to_list (faucet_grants_by_prefix tb cutoff))) as [rows Hr].
  { apply Forall_forall. intros [p [w t]] Hin%elem_of_map_to_list. unfold faucet_grants_by_prefix in Hin.
    pose proof (tally_prefixes tb cutoff (btree_iter (tb_faucet_prefixes tb)) p) as Ht. unfold tally_prefix in Ht. rewrite Hin in Ht. case_decide; [done|].
    injection Ht as -> _. cbn. assert (recent_of tb cutoff p (btree_iter (tb_faucet_prefixes tb)) <= size (tb_faucet_prefixes tb))%nat; [|lia].
    unfold recent_of. etransitivity; [apply length_filter|]. by rewrite btree_iter_perm, length_map_to_list. }
  rewrite Hr. cbn. by eexists _, _.
Qed.

(** No history of marketplace operations, orders, deposits and payments makes the overview
    report a disagreement of the store. *)
Theorem operations_raise_no_store_alert `{Primitives} {E} a g tb now o alerts :
  rtc market_step new_board tb -> overview (E := E) a g tb now = Ok (o, alerts) ->
  mkAlert Critical "store_disagreement" ∉ alerts.
Proof.
  intros Hs Ho. unfold overview in Ho. apply bind_Ok in Ho as (networks & _ & Ho). injection Ho as <- <-.
  rewrite disagreement_alert. cbn [o_integrity store_disagreements]. rewrite (market_reconciles tb Hs). intros Hne. by apply Hne.
Qed.
