(* ===== verification/FaucetTheorems.v ===== *)
(** * FaucetTheorems: a challenge buys one grant, and grants are budgeted

    The book's steps under any interleaving, with crashes and restarts; the
    price of a challenge; and the rolling budgets of the handlers. *)

From S2P Require Import Prelude Types Crypto Spend BoardTypes Tasks Board Payouts Payments Settlement IpAddr RateLimit Faucet.

(** ** The price *)

(** The work quoted for a challenge is the work it was priced at. *)
Theorem quoted_work_is_the_price n :
  n <= U64_MAX -> expected_hashes_for_target (target_for_expected_hashes n) = N.max n 1.
Proof.
  intros Hn. unfold expected_hashes_for_target, target_for_expected_hashes.
  set (m := N.max n 1). assert (Hm : 1 <= m <= U64_MAX) by (unfold m, U64_MAX in *; lia).
  assert (Hbig : U64_MAX < U256_MAX / m).
  { apply N.lt_le_trans with (U256_MAX / U64_MAX); [by vm_compute|].
    apply N.div_le_compat_l. lia. }
  assert (E : U256_MAX / (U256_MAX / m) = m).
  { symmetry. apply (N.div_unique _ _ _ (U256_MAX mod m)).
    - pose proof (N.mod_lt U256_MAX m). lia.
    - pose proof (N.div_mod U256_MAX m). lia. }
  destruct (N.eqb_spec (U256_MAX / m) 0) as [E0|_]; [lia|].
  rewrite E. by destruct (N.ltb_spec U64_MAX m); [lia|].
Qed.

Lemma quoted_work_is_the_price_witness :
  expected_hashes_for_target (target_for_expected_hashes DEFAULT_EXPECTED_HASHES) = 20000000.
Proof. apply (quoted_work_is_the_price DEFAULT_EXPECTED_HASHES). by vm_compute. Defined.

(** The price is the base below the free grants, then doubles with every step of grants up
    to twenty times, never decreases, and saturates at the width of a u64. *)
Theorem price_curve (base free step : N) :
  base <= U64_MAX ->
  (forall taken, taken < free -> expected_hashes_for_prefix (E := FaucetError) base taken free step = Ok base) /\
  (forall taken, free <= taken < U64_MAX -> exists k,
     expected_hashes_for_prefix (E := FaucetError) base taken free step = Ok (N.min (base * 2 ^ k) U64_MAX) /\
     k = N.min (1 + (taken - free) / N.max step 1) 20) /\
  (forall t1 t2 p1 p2, t1 <= t2 ->
     expected_hashes_for_prefix (E := FaucetError) base t1 free step = Ok p1 ->
     expected_hashes_for_prefix (E := FaucetError) base t2 free step = Ok p2 -> p1 <= p2).
Proof.
  intros Hb.
  assert (Hlow : forall taken, taken < free -> expected_hashes_for_prefix (E := FaucetError) base taken free step = Ok base).
  { intros taken Ht. unfold expected_hashes_for_prefix. by apply N.ltb_lt in Ht as ->. }
  assert (Hhigh : forall taken p, free <= taken ->
            expected_hashes_for_prefix (E := FaucetError) base taken free step = Ok p ->
            p = N.min (base * 2 ^ N.min (1 + (taken - free) / N.max step 1) 20) U64_MAX).
  { intros taken p Ht. unfold expected_hashes_for_prefix. destruct (N.ltb_spec taken free); [lia|].
    intros Hp. inv_ok. apply add64_Ok in Hr as [-> _]. subst p. unfold saturating_mul.
    by rewrite N.shiftl_mul_pow2, N.mul_1_l. }
  split_and!; [exact Hlow| |].
  - intros taken [Ht Hm]. eexists. split; [|reflexivity]. unfold expected_hashes_for_prefix.
    destruct (N.ltb_spec taken free); [lia|]. rewrite add64_fits.
    + cbn. unfold saturating_mul. by rewrite N.shiftl_mul_pow2, N.mul_1_l.
    + pose proof (N.Div0.div_le_upper_bound (taken - free) (N.max step 1) (taken - free)). nia.
  - intros t1 t2 p1 p2 Hle H1 H2.
    assert (Hone : base <= base * 2 ^ N.min (1 + (t2 - free) / N.max step 1) 20).
    { pose proof (N.pow_nonzero 2 (N.min (1 + (t2 - free) / N.max step 1) 20)). nia. }
    destruct (N.lt_ge_cases t1 free), (N.lt_ge_cases t2 free).
    + rewrite Hlow in H1, H2 by lia. by simplify_eq.
    + rewrite Hlow in H1 by lia. apply Hhigh in H2; [|lia]. inv_ok. lia.
    + lia.
    + apply Hhigh in H1, H2; [|lia..]. subst.
      assert (Hd : (t1 - free) / N.max step 1 <= (t2 - free) / N.max step 1)
        by (apply N.Div0.div_le_mono; lia).
      assert (2 ^ N.min (1 + (t1 - free) / N.max step 1) 20 <= 2 ^ N.min (1 + (t2 - free) / N.max step 1) 20)
        by (apply N.pow_le_mono_r; lia).
      nia.
Qed.

Lemma price_curve_witness :
  exists k, expected_hashes_for_prefix (E := FaucetError) DEFAULT_EXPECTED_HASHES 12 5 5 =
            Ok (N.min (DEFAULT_EXPECTED_HASHES * 2 ^ k) U64_MAX) /\ k = N.min (1 + (12 - 5) / N.max 5 1) 20.
Proof.
  apply (price_curve DEFAULT_EXPECTED_HASHES 5 5); [by vm_compute|split; [lia|by vm_compute]].
Defined.

(** ** The book: one redemption per challenge *)

Inductive BookEvent : Type :=
| Issued (c : Challenge)
| Redeemed (id : Uuid) (pk : PublicKey) (solution : N) (now : DateTime).

Section book.
Context `{Primitives, TextForms}.

(** What can happen to a book, with what it shows: a challenge with an id that
    the table has not held, a redemption, the sweep, a restart. A refused
    request changes nothing. *)
Inductive book_step (used : gset Uuid) : ChallengeBook -> list BookEvent -> ChallengeBook -> Prop :=
| step_issue commits b id nonce pk target prefix now b' c :
    id ∉ used ->
    issue_at_target commits b id nonce pk target prefix now = Ok (b', c) ->
    book_step used b [Issued c] b'
| step_redeem commits b id pk solution now b' c :
    redeem commits b id pk solution now = Ok (b', c) ->
    book_step used b [Redeemed id pk solution now] b'
| step_cleanup commits b now : book_step used b [] (cleanup commits b now)
| step_restart b now : book_step used b [] (restore (ch_table b) (book_target b) now).

Definition ids_of (tr : list BookEvent) : gset Uuid :=
  list_to_set (omap (fun e => match e with Issued c => Some (ch_id c) | _ => None end) tr).
Definition redeemed_ids (tr : list BookEvent) : list Uuid :=
  omap (fun e => match e with Redeemed id _ _ _ => Some id | _ => None end) tr.

Inductive book_run : ChallengeBook -> list BookEvent -> ChallengeBook -> Prop :=
| run_nil b : book_run b [] b
| run_snoc b0 tr b ev b' :
    book_run b0 tr b -> book_step (ids_of tr) b ev b' -> book_run b0 (tr ++ ev) b'.

(** A record the book holds: issued in the trace, and marked exactly when its
    redemption is in the trace. *)
Definition genuine (tr : list BookEvent) (id : Uuid) (c : Challenge) : Prop :=
  ch_id c = id /\
  (exists c0, Issued c0 ∈ tr /\ ch_id c0 = id /\ ch_pubkey c = ch_pubkey c0 /\ ch_target c = ch_target c0 /\
     expires_at c = expires_at c0 /\ (forall s, is_solved_by c s = is_solved_by c0 s)) /\
  (id ∈ redeemed_ids tr -> is_redeemed c = true).
Definition book_ok (tr : list BookEvent) (b : ChallengeBook) : Prop :=
  map_Forall (genuine tr) (by_id b) /\ map_Forall (genuine tr) (ch_table b) /\
  (forall id, id ∈ redeemed_ids tr -> id ∈ ids_of tr).

Lemma elem_ids_of tr id : id ∈ ids_of tr <-> exists c, Issued c ∈ tr /\ ch_id c = id.
Proof.
  unfold ids_of. rewrite elem_of_list_to_set, list_elem_of_omap. split.
  - intros ([c|] & Hin & E); [|done]. injection E as <-. eauto.
  - intros (c & Hin & <-). exists (Issued c). done.
Qed.
Lemma redeemed_ids_app tr ev : redeemed_ids (tr ++ ev) = redeemed_ids tr ++ redeemed_ids ev.
Proof. apply omap_app. Qed.
Lemma ids_of_app tr ev : ids_of (tr ++ ev) = ids_of tr ∪ ids_of ev.
Proof. unfold ids_of. by rewrite omap_app, list_to_set_app_L. Qed.

Lemma genuine_more tr ev id c :
  id ∉ redeemed_ids ev -> genuine tr id c -> genuine (tr ++ ev) id c.
Proof.
  intros Hn (Hid & (c0 & Hin & Hc0) & Hred). split_and!; [done| |].
  - exists c0. split; [set_solver|done].
  - rewrite redeemed_ids_app, elem_of_app. intros [?|?]; auto.
Qed.

Lemma restore_fold_by_id now l b :
  (forall id c, by_id (foldl (restore_one now) b l) !! id = Some c ->
     by_id b !! id = Some c \/ (c ∈ l /\ ch_id c = id)) /\
  ch_table (foldl (restore_one now) b l) = ch_table b.
Proof.
  revert b. induction l as [|x l IH]; intros b; cbn; [auto|].
  destruct (IH (restore_one now b x)) as [IH1 IH2]. split.
  - intros id c Hc. apply IH1 in Hc as [Hc|[Hc <-]]; [|right; split; [by right|done]].
    revert Hc. unfold restore_one. repeat case_match; cbn; auto;
      (rewrite lookup_insert_Some; intros [[<- <-]|[_ ?]]; [right; split; [by left|done]|by left]).
  - rewrite IH2. unfold restore_one. by repeat case_match.
Qed.

Lemma prune_lookup commits t ts id c :
  prune_faucet_challenges commits t ts !! id = Some c -> t !! id = Some c.
Proof.
  unfold prune_faucet_challenges. destruct commits; [|done].
  generalize (base.filter (fun c => (horizon c < ts)%Z) (load_all_faucet_challenges t)) as l.
  intros l. revert t. induction l as [|x l IH]; intros t; cbn; [done|].
  intros Hc. apply IH in Hc. by apply lookup_delete_Some in Hc as [_ ?].
Qed.

Lemma book_step_ok used b ev b' tr :
  ids_of tr ⊆ used -> book_ok tr b -> book_step used b ev b' -> book_ok (tr ++ ev) b'.
Proof.
  intros Hused (Hm & Ht & Hids) Hstep. destruct Hstep as
    [commits b id nonce pk target prefix now b' c Hfresh E
    |commits b id pk solution now b' c E|commits b now|b now].
  - unfold issue_at_target in E. inv_ok. simplify_eq. unfold save_faucet_challenge in Hr.
    destruct commits; simplify_eq. cbn [by_id ch_table].
    assert (Hnew : genuine (tr ++ [Issued (issue id nonce pk target prefix now)]) id
                     (issue id nonce pk target prefix now)).
    { split_and!; [done| |].
      - exists (issue id nonce pk target prefix now). split; [set_solver|done].
      - rewrite redeemed_ids_app, elem_of_app. intros [Hx|Hx]; [apply Hids in Hx; set_solver|].
        cbn in Hx. by apply elem_of_nil in Hx. }
    assert (Hold : forall m : gmap Uuid Challenge, map_Forall (genuine tr) m ->
      map_Forall (genuine (tr ++ [Issued (issue id nonce pk target prefix now)])) m).
    { intros m Hm' i x Hx. apply genuine_more; [cbn; apply not_elem_of_nil|by apply Hm']. }
    split_and!.
    + apply map_Forall_insert_2; [exact Hnew|]. apply Hold. case_match; [|done].
      by apply map_Forall_delete.
    + apply map_Forall_insert_2; [exact Hnew|by apply Hold].
    + intros i. rewrite redeemed_ids_app, ids_of_app, elem_of_app. intros [Hi|Hi]; [set_solver|].
      cbn in Hi. by apply elem_of_nil in Hi.
  - unfold redeem in E. inv_ok. simplify_eq. unfold save_faucet_challenge in Hr1.
    destruct commits; simplify_eq. cbn [by_id ch_table].
    destruct (Hm _ _ Hr) as (Hid & (c0 & Hin & Hid0 & Hc0) & Hred). subst id.
    assert (Hnew : genuine (tr ++ [Redeemed (ch_id r) pk solution now]) (ch_id r)
                     (set_redeemed r (timestamp_of now))).
    { split_and!; [done| |done]. exists c0. destruct Hc0 as (?&?&?&Hs). split_and!; [set_solver|done..|].
      intros s. rewrite <-Hs. done. }
    assert (Hold : forall m : gmap Uuid Challenge, map_Forall (genuine tr) m -> forall i x, i <> ch_id r -> m !! i = Some x ->
      genuine (tr ++ [Redeemed (ch_id r) pk solution now]) i x).
    { intros m Hm' i x Hne Hx. apply genuine_more; [|by apply Hm']. cbn. rewrite list_elem_of_singleton. done. }
    split_and!.
    + intros i x. cbn. rewrite lookup_insert_Some. intros [[<- <-]|[Hne Hx]]; [exact Hnew|]. by apply (Hold _ Hm).
    + intros i x. cbn. rewrite lookup_insert_Some. intros [[<- <-]|[Hne Hx]]; [exact Hnew|]. by apply (Hold _ Ht).
    + intros i. rewrite redeemed_ids_app, ids_of_app, elem_of_app. intros [Hi|Hi]; [set_solver|].
      cbn in Hi. apply list_elem_of_singleton in Hi as ->. apply elem_of_union_l, elem_ids_of. eauto.
  - rewrite app_nil_r. split_and!; [| |done]; cbn.
    + intros i x Hx. apply map_lookup_filter_Some in Hx as [Hx _]. by apply Hm.
    + intros i x Hx. eapply Ht, prune_lookup, Hx.
  - rewrite app_nil_r. destruct (restore_fold_by_id now (load_all_faucet_challenges (ch_table b))
      (mkBook ∅ ∅ (ch_table b) (book_target b))) as [Hl Htab].
    split_and!; [| |done].
    + intros i x Hx. apply Hl in Hx as [Hx|[Hx <-]]; [cbn in Hx; by rewrite lookup_empty in Hx|].
      apply elem_of_btree_values in Hx as [k Hk]. pose proof (Ht _ _ Hk) as (E & _). subst k. by apply Ht.
    + unfold restore. rewrite Htab. exact Ht.
Qed.

Lemma redeem_facts commits b id pk solution now b' c :
  redeem commits b id pk solution now = Ok (b', c) ->
  exists e, by_id b !! id = Some e /\ ch_pubkey e = key_text pk /\ is_redeemed e = false /\
    (timestamp_of now <= expires_at e)%Z /\ is_solved_by e solution = true.
Proof.
  unfold redeem. intros E. inv_ok. unfold validate in Hr0. inv_ok.
  repeat match goal with
  | H : bool_decide _ = true |- _ => apply bool_decide_eq_true in H
  | H : negb _ = true |- _ => apply negb_true_iff in H
  end.
  exists r. split_and!; try done. by apply Z.ltb_ge.
Qed.

Lemma book_run_ok b tr b' : book_ok [] b -> book_run b tr b' -> book_ok tr b'.
Proof. intros Hb. induction 1 as [|b0 tr b ev b' _ IH Hs]; [done|]. eapply book_step_ok; eauto. Qed.

Lemma book_run_invariant (P : list BookEvent -> Prop) b0 :
  book_ok [] b0 -> P [] ->
  (forall tr b ev b', book_ok tr b -> book_step (ids_of tr) b ev b' -> P tr -> P (tr ++ ev)) ->
  forall tr b, book_run b0 tr b -> P tr.
Proof.
  intros Hb0 HP Hstep tr b. induction 1 as [|b0 tr b ev b' Hrun IH Hs]; [done|].
  eapply Hstep; eauto. by eapply book_run_ok.
Qed.

Lemma empty_book_ok target : book_ok [] (mkBook ∅ ∅ ∅ target).
Proof. split_and!; [apply map_Forall_empty..|]. intros id Hid. cbn in Hid. by apply elem_of_nil in Hid. Qed.

Lemma issued_ttl b0 tr b c :
  book_ok [] b0 -> book_run b0 tr b -> Issued c ∈ tr -> expires_at c = (issued_at c + CHALLENGE_TTL_SECONDS)%Z.
Proof.
  intros Hb0 Hrun. revert c.
  refine (book_run_invariant (fun tr => forall c, Issued c ∈ tr -> expires_at c = (issued_at c + CHALLENGE_TTL_SECONDS)%Z)
            b0 Hb0 _ _ tr b Hrun).
  { intros c Hin. by apply elem_of_nil in Hin. }
  clear tr b Hrun. intros tr b ev b' _ Hs IH c Hin. apply elem_of_app in Hin as [Hin|Hin]; [by apply IH|].
  destruct Hs as [commits b id nonce pk target' prefix now b' c' Hfresh E| | |];
    [|by apply list_elem_of_singleton in Hin|by apply elem_of_nil in Hin..].
  apply list_elem_of_singleton in Hin. injection Hin as ->. unfold issue_at_target in E. inv_ok. simplify_eq.
  cbn. unfold timestamp_of, seconds. rewrite Z.div_add by done. done.
Qed.

(** C22: Over any history of the challenge book (requests, redemptions, sweeps, failed
    writes, restarts) with fresh ids, no challenge is redeemed twice, and each
    redemption is by the key it was issued to, with a solution that meets the target
    it was issued at, within 600 seconds of its issue. *)
Theorem challenge_is_redeemed_once target tr b :
  book_run (mkBook ∅ ∅ ∅ target) tr b ->
  NoDup (redeemed_ids tr) /\
  forall id pk solution now, Redeemed id pk solution now ∈ tr ->
    exists c, Issued c ∈ tr /\ ch_id c = id /\ ch_pubkey c = key_text pk /\
      hash_bytes (str_bytes (preimage c solution)) <= ch_target c /\
      (timestamp_of now <= issued_at c + 600)%Z.
Proof.
  intros Hrun. assert (Hmain : NoDup (redeemed_ids tr) /\
    forall id pk solution now, Redeemed id pk solution now ∈ tr ->
      exists c, Issued c ∈ tr /\ ch_id c = id /\ ch_pubkey c = key_text pk /\
        hash_bytes (str_bytes (preimage c solution)) <= ch_target c /\ (timestamp_of now <= expires_at c)%Z).
  2: { destruct Hmain as [Hnd Hall]. split; [done|]. intros id pk s now Hin.
       destruct (Hall _ _ _ _ Hin) as (c & Hc & ? & ? & ? & Hx). exists c.
       rewrite (issued_ttl _ _ _ _ (empty_book_ok target) Hrun Hc) in Hx. done. }
  revert Hrun. generalize (empty_book_ok target) as Hb0. generalize (mkBook ∅ ∅ ∅ target) as b0.
  intros b0 Hb0. revert tr b. refine (book_run_invariant _ b0 Hb0 _ _).
  { split; [constructor|]. intros * Hin. by apply elem_of_nil in Hin. }
  intros tr b ev b' Hok Hs [Hnd Hall].
  destruct Hs as [commits b id nonce pk target' prefix now b' c Hfresh E
    |commits b id pk solution now b' c E|commits b now|b now].
  - rewrite redeemed_ids_app, app_nil_r. split; [done|]. intros id' pk' s' n' Hin.
    apply elem_of_app in Hin as [Hin|Hin]; [|by apply list_elem_of_singleton in Hin].
    destruct (Hall _ _ _ _ Hin) as (c' & ? & ?). exists c'. set_solver.
  - apply redeem_facts in E as (e & He & Hkey & Hun & Hexp & Hsol).
    destruct Hok as (Hm & _ & _). destruct (Hm _ _ He) as (Hid & (c0 & Hin0 & Hid0 & Hpk & Htg & Hx & Hs) & Hred).
    rewrite redeemed_ids_app. split.
    + apply NoDup_app. split_and!; [done| |apply NoDup_singleton].
      intros i Hi Hi'. apply list_elem_of_singleton in Hi' as ->. apply Hred in Hi. congruence.
    + intros id' pk' s' n' Hin. apply elem_of_app in Hin as [Hin|Hin].
      * destruct (Hall _ _ _ _ Hin) as (c' & ? & ?). exists c'. set_solver.
      * apply list_elem_of_singleton in Hin. simplify_eq. exists c0. split_and!; [set_solver|done|congruence| |].
        -- rewrite Hs in Hsol. unfold is_solved_by, matches_target in Hsol. by apply N.leb_le in Hsol.
        -- by rewrite <-Hx.
  - rewrite app_nil_r. done.
  - rewrite app_nil_r. done.
Qed.
End book.

(** ** The rolling budgets *)

Section counting.
Context {K A : Type} `{Countable K} {B : BTreeKey K}.

(** Entries of a map that satisfy [P], however they are listed. *)
Definition headcount (P : K * A -> Prop) `{!forall e, Decision (P e)} (m : gmap K A) : nat :=
  length (base.filter P (map_to_list m)).

Lemma headcount_insert (P : K * A -> Prop) `{!forall e, Decision (P e)} m k a :
  m !! k = None -> headcount P (<[k := a]> m) = ((if decide (P (k, a)) then 1 else 0) + headcount P m)%nat.
Proof.
  intros Hk. unfold headcount. rewrite (map_to_list_insert m k a Hk), filter_cons. by case_decide.
Qed.

Lemma headcount_mono (P Q : K * A -> Prop) `{!forall e, Decision (P e)} `{!forall e, Decision (Q e)} m :
  (forall k a, m !! k = Some a -> P (k, a) -> Q (k, a)) -> (headcount P m <= headcount Q m)%nat.
Proof.
  intros HPQ. unfold headcount.
  assert (Hin : forall e, e ∈ map_to_list m -> P e -> Q e).
  { intros [k a] He. apply HPQ. by apply elem_of_map_to_list. }
  revert Hin. generalize (map_to_list m) as l. induction l as [|e l IH]; intros Hin; [done|].
  rewrite !filter_cons. assert (IH' := IH (fun e' He' => Hin e' (list_elem_of_further _ _ _ He'))).
  pose proof (Hin e (list_elem_of_here _ _)). repeat case_decide; cbn; try lia. tauto.
Qed.

Lemma headcount_subseteq (P : K * A -> Prop) `{!forall e, Decision (P e)} (m1 m2 : gmap K A) :
  m1 ⊆ m2 -> (headcount P m1 <= headcount P m2)%nat.
Proof.
  intros Hs. apply submseteq_length, NoDup_submseteq; [apply NoDup_filter, NoDup_map_to_list|].
  intros [k a]. rewrite !list_elem_of_filter, !elem_of_map_to_list. intros [? ?]. split; [done|].
  by eapply lookup_weaken.
Qed.

Lemma headcount_btree (P : K * A -> Prop) `{!forall e, Decision (P e)} (m : gmap K A) :
  length (base.filter P (btree_iter m)) = headcount P m.
Proof. unfold headcount. by rewrite btree_iter_perm. Qed.
End counting.

Lemma of_nat_le (a b : nat) : (a <= b)%nat -> N.of_nat a <= N.of_nat b.
Proof. lia. Qed.

Lemma granted_since_headcount tb cutoff :
  faucet_granted_since tb cutoff = N.of_nat (headcount (fun e => Z.leb cutoff e.2 = true) (tb_faucet_grants tb)).
Proof.
  unfold faucet_granted_since, btree_values. rewrite filter_snd, length_fmap. f_equal. apply headcount_btree.
Qed.

Lemma wide_headcount tb wide cutoff :
  faucet_granted_from_wide_prefix_since widen_prefix tb wide cutoff =
  N.of_nat (headcount (fun e => widen_prefix e.2 = Some wide /\ granted_since tb cutoff e.1 = true) (tb_faucet_prefixes tb)).
Proof. unfold faucet_granted_from_wide_prefix_since. f_equal. apply headcount_btree. Qed.

(** A board within the budgets at every moment from [t] on: the whole budget,
    and each wider block's share of it. *)
Record within (cfg : FaucetConfig) (tb : TaskBoard) (t : DateTime) : Prop := {
  wi_budget now : (t <= now)%Z -> faucet_granted_since tb (cutoff_at now) <= faucet_daily_grants cfg;
  wi_share wide now : (t <= now)%Z -> faucet_network_share_percent cfg < 100 ->
    faucet_granted_from_wide_prefix_since widen_prefix tb wide (cutoff_at now) <= share_allowed cfg;
  wi_dom : dom (tb_faucet_prefixes tb) ⊆ dom (tb_faucet_grants tb)
}.

Record faucet_ok (cfg : FaucetConfig) (h : Hub) (t : DateTime) : Prop := {
  fo_live : within cfg (live h) t;
  fo_grants : tb_faucet_grants (disk h) = tb_faucet_grants (live h);
  fo_prefixes : tb_faucet_prefixes (disk h) ⊆ tb_faucet_prefixes (live h)
}.

Lemma cutoff_mono a b : (a <= b)%Z -> (cutoff_at a <= cutoff_at b)%Z.
Proof. intros Hab. unfold cutoff_at, timestamp_of. apply Z.div_le_mono; lia. Qed.

Lemma granted_since_mono tb c1 c2 : (c1 <= c2)%Z -> faucet_granted_since tb c2 <= faucet_granted_since tb c1.
Proof.
  intros Hc. rewrite !granted_since_headcount. apply of_nat_le, headcount_mono.
  intros k a _. cbn. rewrite !Z.leb_le. lia.
Qed.
Lemma granted_since_earlier tb c1 c2 pk : (c1 <= c2)%Z -> granted_since tb c2 pk = true -> granted_since tb c1 pk = true.
Proof. unfold granted_since. intros Hc. case_match; [|done]. rewrite !Z.leb_le. lia. Qed.
Lemma wide_mono tb wide c1 c2 : (c1 <= c2)%Z ->
  faucet_granted_from_wide_prefix_since widen_prefix tb wide c2 <= faucet_granted_from_wide_prefix_since widen_prefix tb wide c1.
Proof.
  intros Hc. rewrite !wide_headcount. apply of_nat_le, headcount_mono.
  intros k a _ [? Hg]. split; [done|]. by eapply granted_since_earlier.
Qed.

Lemma within_later cfg tb t t' : (t <= t')%Z -> within cfg tb t -> within cfg tb t'.
Proof. intros Ht [Hb Hs Hd]. split; [|intros wide|done]; intros now Hn; [apply Hb|apply Hs]; lia. Qed.

(** Fewer recorded networks count for no more. *)
Lemma within_fewer cfg tb tb' t :
  tb_faucet_grants tb' = tb_faucet_grants tb -> tb_faucet_prefixes tb' ⊆ tb_faucet_prefixes tb ->
  within cfg tb t -> within cfg tb' t.
Proof.
  intros Hg Hp [Hb Hs Hd]. split.
  - intros now Hn. rewrite granted_since_headcount, Hg, <-granted_since_headcount. by apply Hb.
  - intros wide now Hn H100. etransitivity; [|by apply (Hs wide now)]. rewrite !wide_headcount.
    apply of_nat_le. etransitivity; [|by apply (headcount_subseteq _ _ _ Hp)].
    apply headcount_mono. intros k a _. unfold granted_since. by rewrite Hg.
  - rewrite Hg. etransitivity; [|exact Hd]. by apply subseteq_dom.
Qed.

(** The board once a grant and its network are recorded. *)
Lemma within_grant cfg tb tb' pk prefix t budget_now share_now created :
  within cfg tb t -> (t <= budget_now)%Z -> (budget_now <= share_now)%Z -> (share_now <= created)%Z ->
  can_claim_faucet tb pk = true ->
  faucet_budget_exhausted cfg tb budget_now = Ok tt ->
  faucet_network_share_exhausted cfg tb prefix share_now = Ok tt ->
  tb_faucet_grants tb' = <[pk := timestamp_of created]> (tb_faucet_grants tb) ->
  tb_faucet_prefixes tb' = match prefix with Some p => <[pk := p]> (tb_faucet_prefixes tb) | None => tb_faucet_prefixes tb end ->
  within cfg tb' created.
Proof.
  intros [Hb Hs Hd] Hbn Hsn Hcr Hcan Hbud Hshare Hg Hp.
  assert (Hpk : tb_faucet_grants tb !! pk = None) by (unfold can_claim_faucet in Hcan; by destruct (_ !! pk)).
  assert (Hpp : tb_faucet_prefixes tb !! pk = None).
  { apply not_elem_of_dom. intros Hin. apply Hd, elem_of_dom in Hin. rewrite Hpk in Hin. by destruct Hin. }
  assert (Hsame : forall c k, k <> pk -> granted_since tb' c k = granted_since tb c k).
  { intros c k Hne. unfold granted_since. by rewrite Hg, lookup_insert_ne. }
  split.
  - intros now Hn. apply guard_Ok, N.ltb_lt in Hbud. unfold faucet_budget_remaining in Hbud.
    pose proof (granted_since_mono tb (cutoff_at budget_now) (cutoff_at now) (cutoff_mono budget_now now ltac:(lia))) as Hm.
    rewrite granted_since_headcount, Hg, headcount_insert by done. rewrite granted_since_headcount in Hm. case_decide; lia.
  - intros wide now Hn H100.
    assert (Hold : headcount (fun e => widen_prefix e.2 = Some wide /\ granted_since tb' (cutoff_at now) e.1 = true)
              (tb_faucet_prefixes tb) = headcount (fun e => widen_prefix e.2 = Some wide /\ granted_since tb (cutoff_at now) e.1 = true)
              (tb_faucet_prefixes tb)).
    { apply Nat.le_antisymm; apply headcount_mono; intros k a Hka; cbn; (rewrite Hsame; [done|congruence]). }
    rewrite wide_headcount, Hp. destruct prefix as [p|].
    + rewrite headcount_insert, Hold by done. cbn [fst snd]. pose proof (Hs wide now ltac:(lia) H100) as Hle.
      rewrite wide_headcount in Hle. case_decide as Hdec; [|lia]. destruct Hdec as [Hw _].
      unfold faucet_network_share_exhausted in Hshare. destruct (N.leb_spec 100 (faucet_network_share_percent cfg)); [lia|].
      rewrite Hw in Hshare. apply guard_Ok, N.ltb_lt in Hshare.
      pose proof (wide_mono tb wide (cutoff_at share_now) (cutoff_at now) (cutoff_mono share_now now ltac:(lia))) as Hm.
      rewrite (wide_headcount tb wide (cutoff_at now)) in Hm. lia.
    + rewrite Hold, <-wide_headcount. apply Hs; [lia|done].
  - rewrite Hg, Hp. destruct prefix; rewrite ?dom_insert_L; set_solver.
Qed.

Section budget.
Context `{Primitives, HubKeys, TextForms} (cfg : FaucetConfig).

Lemma prepare_grants commits h p h' p' :
  p_purpose p = Faucet -> prepare commits h p = Ok (h', p') ->
  p_recipient p' = p_recipient p /\ p_transaction p' = p_transaction p /\
  tb_faucet_grants (live h') = <[p_recipient p := timestamp_of (p_created_at p)]> (tb_faucet_grants (live h)) /\
  tb_faucet_grants (disk h') = <[p_recipient p := timestamp_of (p_created_at p)]> (tb_faucet_grants (disk h)) /\
  tb_faucet_prefixes (live h') = tb_faucet_prefixes (live h) /\
  tb_faucet_prefixes (disk h') = tb_faucet_prefixes (disk h).
Proof.
  intros Hp E. unfold prepare in E. inv_ok. destruct r0 as [account deposit]. unfold reservation in Hr0.
  cbn in Hr0. rewrite Hp in Hr0. inv_ok. simplify_eq. unfold save_payment_effects, apply_effects in Hr1.
  destruct commits; [|done]. inv_ok. subst r0. unfold is_faucet. cbn. rewrite Hp. cbn. done.
Qed.

Lemma note_prefix_effects commits h pk prefix :
  let h' := note_prefix commits h pk prefix in
  tb_faucet_grants (live h') = tb_faucet_grants (live h) /\
  tb_faucet_grants (disk h') = tb_faucet_grants (disk h) /\
  tb_faucet_prefixes (live h') =
    match prefix with Some p => <[pk := p]> (tb_faucet_prefixes (live h)) | None => tb_faucet_prefixes (live h) end /\
  (tb_faucet_prefixes (live h) !! pk = None -> tb_faucet_prefixes (disk h) ⊆ tb_faucet_prefixes (live h) ->
   tb_faucet_prefixes (disk h') ⊆ tb_faucet_prefixes (live h')).
Proof.
  unfold note_prefix. destruct prefix as [p|]; [|done]. destruct commits; cbn.
  - split_and!; [done..|]. intros _. apply insert_mono.
  - split_and!; [done..|]. intros Hn Hsub. etransitivity; [exact Hsub|]. by apply insert_subseteq.
Qed.

(** What a request under the lock does to the grants. *)
Lemma claim_grant_grants e s pk redeemed s' r t :
  claim_grant cfg e s pk redeemed = (s', r) ->
  (t <= ge_budget_now e)%Z -> (ge_budget_now e <= ge_share_now e)%Z -> (ge_share_now e <= ge_created e)%Z ->
  faucet_ok cfg (fh_hub s) t -> faucet_ok cfg (fh_hub s') (ge_created e).
Proof.
  intros E Hbn Hsn Hcr [Hl Hg Hp].
  assert (Hsame : forall b, faucet_ok cfg (fh_hub (with_book s b)) (ge_created e)).
  { intros b. split; [|done..]. eapply within_later, Hl. lia. }
  assert (Hs : faucet_ok cfg (fh_hub s) (ge_created e)) by apply (Hsame (fh_book s)).
  unfold claim_grant in E. destruct (can_claim_faucet _ pk) eqn:Hcan; cbn [negb] in E; [|by simplify_eq].
  destruct (faucet_budget_exhausted _ _ _) as [[]|x|] eqn:Hbud; cbn [mbind outcome_bind] in E; [|by simplify_eq..].
  destruct (faucet_network_share_exhausted _ _ _ _) as [[]|x|] eqn:Hsh; [|by simplify_eq..].
  destruct (build_payment_from_fresh _ _ _ _ _ _ _) as [tx|x|]; [| |by simplify_eq].
  2: { destruct (is_insufficient_funds x); [|by simplify_eq]. unfold grant_unfunded in E.
       destruct (issue_at_target _ _ _ _ _ _ _ _) as [[b c]|y|]; simplify_eq; auto. }
  destruct (prepare _ _ _) as [[h p]|x|] eqn:Hprep; [|by simplify_eq..].
  apply prepare_grants in Hprep as (Hrec & Htx & Hgl & Hgd & Hpl & Hpd); [|done]. cbn in Hrec, Htx, Hgl, Hgd.
  unfold send in E. rewrite Htx in E. injection E as <- <-. cbn. rewrite Hrec.
  destruct (note_prefix_effects (ge_prefix_commits e) h pk (ch_prefix redeemed)) as (Gl & Gd & Pl & Pd). rewrite Hpl in Pl. split.
  - eapply within_grant; [exact Hl|exact Hbn|exact Hsn|exact Hcr|exact Hcan|exact Hbud|exact Hsh| |].
    + cbn. by rewrite Gl, Hgl.
    + cbn. exact Pl.
  - cbn. rewrite Gl, Gd, Hgl, Hgd, Hg. done.
  - cbn. apply Pd; [|by rewrite Hpl, Hpd]. rewrite Hpl. apply not_elem_of_dom. intros Hin.
    apply (wi_dom _ _ _ Hl), elem_of_dom in Hin. unfold can_claim_faucet in Hcan. by destruct (_ !! pk), Hin.
Qed.

(** The faucet's requests under any interleaving, the sweep of its book, a
    restart, and the rest of the hub, which leaves the grants alone. The clock
    does not run backwards. *)
Inductive faucet_step : DateTime * FaucetHub -> DateTime * FaucetHub -> Prop :=
| fs_challenge t e budget_now share_now price_now s pk ip s' c :
    faucet_challenge cfg e budget_now share_now price_now s pk ip = Ok (s', c) -> faucet_step (t, s) (t, s')
| fs_redeem t e s pk id solution s' c :
    claim_redeem cfg e s pk id solution = Ok (s', c) -> faucet_step (t, s) (t, s')
| fs_grant t e s pk redeemed s' r :
    (t <= ge_budget_now e)%Z -> (ge_budget_now e <= ge_share_now e)%Z -> (ge_share_now e <= ge_created e)%Z ->
    claim_grant cfg e s pk redeemed = (s', r) -> faucet_step (t, s) (ge_created e, s')
| fs_cleanup t commits s now : faucet_step (t, s) (t, with_book s (cleanup commits (fh_book s) now))
| fs_elsewhere t t' s h' :
    (t <= t')%Z ->
    tb_faucet_grants (live h') = tb_faucet_grants (live (fh_hub s)) ->
    tb_faucet_grants (disk h') = tb_faucet_grants (disk (fh_hub s)) ->
    tb_faucet_prefixes (live h') = tb_faucet_prefixes (live (fh_hub s)) ->
    tb_faucet_prefixes (disk h') = tb_faucet_prefixes (disk (fh_hub s)) ->
    faucet_step (t, s) (t', with_hub s h')
| fs_restart t s now l :
    tb_faucet_grants l = tb_faucet_grants (disk (fh_hub s)) ->
    tb_faucet_prefixes l = tb_faucet_prefixes (disk (fh_hub s)) ->
    faucet_step (t, s) (t, mkFaucetHub (with_boards (fh_hub s) l (disk (fh_hub s)))
                             (restore (ch_table (fh_book s)) (book_target (fh_book s)) now)).

Lemma challenge_keeps_hub e n1 n2 n3 s pk ip s' c :
  faucet_challenge cfg e n1 n2 n3 s pk ip = Ok (s', c) -> fh_hub s' = fh_hub s.
Proof.
  unfold faucet_challenge. intros E. inv_ok.
  match goal with H : (let '(_, _) := ?r in _) = _ |- _ => destruct r; inv_ok; by simplify_eq end.
Qed.
Lemma redeem_keeps_hub e s pk id solution s' c :
  claim_redeem cfg e s pk id solution = Ok (s', c) -> fh_hub s' = fh_hub s.
Proof.
  unfold claim_redeem. intros E. inv_ok.
  match goal with H : (let '(_, _) := ?r in _) = _ |- _ => destruct r; inv_ok; by simplify_eq end.
Qed.

Lemma faucet_step_ok t s t' s' :
  faucet_ok cfg (fh_hub s) t -> faucet_step (t, s) (t', s') -> faucet_ok cfg (fh_hub s') t'.
Proof.
  intros Hok Hs. inversion Hs as [? ? ? ? ? ? ? ? ? ? E|? ? ? ? ? ? ? ? E| |
    |? ? ? ? ? Gl Gd Pl Pd|? ? ? l Gl Pl]; subst.
  - by rewrite (challenge_keeps_hub _ _ _ _ _ _ _ _ _ E).
  - by rewrite (redeem_keeps_hub _ _ _ _ _ _ _ E).
  - eapply claim_grant_grants; eauto.
  - done.
  - destruct Hok as [Hl Hg Hp]. split; cbn; [|congruence|by rewrite Pl, Pd].
    apply (within_later cfg _ t); [done|]. eapply within_fewer, Hl; [done|]. by rewrite Pl.
  - destruct Hok as [Hl Hg Hp]. split; cbn; [|congruence|by rewrite Pl].
    eapply within_fewer, Hl; [congruence|]. by rewrite Pl.
Qed.

Lemma faucet_run_ok x y :
  rtc faucet_step x y -> faucet_ok cfg (fh_hub x.2) x.1 -> faucet_ok cfg (fh_hub y.2) y.1.
Proof.
  induction 1 as [|[t1 s1] [t2 s2] z Hs _ IH]; [done|]. intros Hok. apply IH. by eapply faucet_step_ok.
Qed.

(** C23: Under any interleaving of faucet requests with restarts, on a clock that does not
    run backwards, the grants of the last 24 hours never exceed the daily budget, and
    those recorded for one wider network never exceed its share of it. *)
Theorem faucet_budgets_hold t0 s0 t s :
  tb_faucet_grants (live (fh_hub s0)) = ∅ -> tb_faucet_prefixes (live (fh_hub s0)) = ∅ ->
  tb_faucet_grants (disk (fh_hub s0)) = ∅ -> tb_faucet_prefixes (disk (fh_hub s0)) = ∅ ->
  rtc faucet_step (t0, s0) (t, s) ->
  forall now, (t <= now)%Z ->
    faucet_granted_since (live (fh_hub s)) (cutoff_at now) <= faucet_daily_grants cfg /\
    (faucet_network_share_percent cfg < 100 -> forall wide,
       faucet_granted_from_wide_prefix_since widen_prefix (live (fh_hub s)) wide (cutoff_at now) <=
       N.max (N.min (faucet_daily_grants cfg * faucet_network_share_percent cfg) U64_MAX / 100) 1).
Proof.
  intros Hg Hp Hgd Hpd Hrun now Hn.
  destruct (faucet_run_ok _ _ Hrun) as [[Hb Hs _] _ _]; [|split; [by apply Hb|intros; by apply Hs]].
  split; [split|cbn; congruence|cbn; by rewrite Hp, Hpd]; cbn.
  - intros now' _. rewrite granted_since_headcount, Hg. unfold headcount. rewrite map_to_list_empty. cbn. lia.
  - intros wide now' _ _. rewrite wide_headcount, Hp. unfold headcount. rewrite map_to_list_empty. cbn. lia.
  - by rewrite Hp, Hg.
Qed.
End budget.

(** ** A concrete faucet *)
Module ToyFaucet.
Import Crypto.Toy.

#[local] Instance forms : TextForms := {
  key_text pk := to_string ((fun b => Ascii.ascii_of_N b) <$> pk);
  uuid_text id := to_string (digits 10 40 id)
}.
#[local] Instance keys : HubKeys := {
  operator_private_key := [77];
  operator_public_key := [77];
  exchange_custody_public_key := [78];
  derive id := [90; id]
}.

Definition ann : PublicKey := [65].
Definition config : FaucetConfig := mkFaucetConfig 1 5 5 1 10.
Definition book0 : ChallengeBook := mkBook ∅ ∅ ∅ 7.
Definition board0 : TaskBoard := mkBoard ∅ ∅ ∅ ∅ ∅ ∅ ∅ ∅ ∅ ∅.
Definition start : FaucetHub := mkFaucetHub (mkHub board0 board0 10 []) book0.
Definition second (n : Z) : DateTime := seconds n.

Definition step {E} (b : FaucetHub) (r : outcome E (FaucetHub * Challenge)) : FaucetHub :=
  match r with Ok (b', _) => b' | _ => b end.
Definition asked : FaucetHub := Eval vm_compute in
  step start (faucet_challenge config (mkIssueEnv 1 "n" (second 100) true) (second 100) (second 100) (second 100)
    start ann (Some (V4 192 0 2 1))).
Definition puzzle : Challenge := Eval vm_compute in
  default (issue 0 "" [] 0 None 0) (by_id (fh_book asked) !! 1).
Definition redeeming : RedeemEnv := mkRedeemEnv (second 200) None (second 200) (second 200) (second 200) true.
Definition solved : FaucetHub := Eval vm_compute in step asked (claim_redeem config redeeming asked ann 1 42).
Definition granting : GrantEnv :=
  mkGrantEnv (second 201) (second 201) (Some [(false, mkOutput 60000000 9 [77])]) (fun i => 500 + N.of_nat i)
    (mkIssueEnv 2 "m" (second 201) true) 300 (second 202) (second 202) true true true.
Definition granted : FaucetHub := Eval vm_compute in (claim_grant config granting solved ann puzzle).1.

Lemma solved_run :
  book_run book0 [Issued puzzle; Redeemed 1 ann 42 (second 200)] (fh_book solved).
Proof.
  apply (run_snoc book0 [Issued puzzle] (fh_book asked) [Redeemed 1 ann 42 (second 200)]).
  - apply (run_snoc book0 [] book0 [Issued puzzle]); [constructor|].
    apply (step_issue _ true book0 1 "n" ann (target_for_expected_hashes 1) (Some "192.0.2.0/24"%string) (second 100));
      [set_solver|vm_compute; reflexivity].
  - eapply (step_redeem _ true (fh_book asked) 1 ann 42 (second 200)). vm_compute. reflexivity.
Qed.

Lemma challenge_is_redeemed_once_witness :
  NoDup (redeemed_ids [Issued puzzle; Redeemed 1 ann 42 (second 200)]) /\
  exists c, Issued c ∈ [Issued puzzle; Redeemed 1 ann 42 (second 200)] /\ ch_id c = 1.
Proof.
  destruct (challenge_is_redeemed_once 7 [Issued puzzle; Redeemed 1 ann 42 (second 200)] (fh_book solved) solved_run)
    as [Hnd Hall].
  split; [exact Hnd|]. destruct (Hall 1 ann 42 (second 200)) as (c & Hc & Hid & _); [right; left|].
  exists c. split; assumption.
Defined.

Lemma granted_run : rtc (faucet_step config) (second 0, start) (second 202, granted).
Proof.
  eapply rtc_l; [|eapply rtc_l; [|apply rtc_once]].
  - apply (fs_challenge config (second 0) (mkIssueEnv 1 "n" (second 100) true) (second 100) (second 100) (second 100)
             start ann (Some (V4 192 0 2 1)) asked puzzle). vm_compute. reflexivity.
  - eapply (fs_redeem config (second 0) redeeming asked ann 1 42 solved). vm_compute. reflexivity.
  - eapply (fs_grant config (second 0) granting solved ann puzzle granted); [done..|]. vm_compute. reflexivity.
Qed.

Lemma faucet_budgets_hold_witness :
  faucet_granted_since (live (fh_hub granted)) (cutoff_at (second 300)) = 1 /\
  faucet_granted_since (live (fh_hub granted)) (cutoff_at (second 300)) <= 1.
Proof.
  split; [vm_compute; reflexivity|].
  apply (faucet_budgets_hold config (second 0) start (second 202) granted
           eq_refl eq_refl eq_refl eq_refl granted_run (second 300)). vm_compute. discriminate.
Defined.

(** A challenge that a second one replaced is unknown until the hub restarts, and
    redeemable after it, beside the second one: the table on disk still held it. *)
Theorem replaced_challenge_returns_at_restart :
  exists b1 c1 b2 c2 b3 b4,
    issue_at_target true book0 1 "n" ann U256_MAX None (second 100) = Ok (b1, c1) /\
    issue_at_target true b1 2 "m" ann U256_MAX None (second 101) = Ok (b2, c2) /\
    redeem true b2 1 ann 42 (second 102) = Err Unknown /\
    let b := restore (ch_table b2) (book_target b2) (second 103) in
    redeem true b 1 ann 42 (second 104) = Ok (b3, set_redeemed c1 104) /\
    redeem true b3 2 ann 42 (second 105) = Ok (b4, set_redeemed c2 105).
Proof. repeat eexists; vm_compute; reflexivity. Qed.
End ToyFaucet.
