(* ===== verification/Tables.v ===== *)
(** * Tables: the hub's durable store

    Models [hub/src/store.rs]: the redb tables with their keys, the schema stamp,
    and every method of [HubStore] that writes or reads them. A write transaction
    commits whole or not at all; whether it does is an argument. A row's value is
    what ciborium makes of the record, of an abstract type [Row]; the class [Cbor]
    is writing and reading it. A [PublicKey] is its SEC1 bytes, so it is its own
    key; the bytes of a [Uuid] are [uuid_bytes]. Definitions only. *)

From S2P Require Import Prelude Types BoardTypes Payments Faucet.

(** ** Codecs *)
Class Cbor (Row A : Type) := {
  cbor : A -> Row;
  uncbor : Row -> option A;
  uncbor_cbor a : uncbor (cbor a) = Some a
}.
(** [Uuid::as_bytes] and [PublicKey::from_sec1_bytes]. The bytes of a uuid are of
    one width, so that what follows them in a key cannot be confused with them. *)
Class StoreKeys := {
  uuid_bytes : Uuid -> list N;
  from_sec1_bytes : list N -> option PublicKey;
  uuid_bytes_app a b x y : uuid_bytes a ++ x = uuid_bytes b ++ y -> a = b /\ x = y;
  from_sec1_bytes_sec1 pk : from_sec1_bytes pk = Some pk
}.

(** ** [HubStoreError] *)
Inductive HubStoreError : Type :=
| Redb
| Serialization
| BadPublicKey
| UnsupportedSchemaVersion (found expected : N)
| CorruptSchemaVersion.

(** ** The tables *)
Definition SCHEMA_VERSION_KEY : string := "schema_version".
Definition SCHEMA_VERSION : N := 5.

(** The tables whose values are serialized records. *)
Inductive TableName : Type :=
| TASKS_TABLE | REPUTATION_TABLE | FAUCET_CHALLENGES_TABLE | PENDING_DEPOSITS_TABLE
| EXCHANGE_ACCOUNTS_TABLE | ORDERS_TABLE | TRADES_TABLE | PAYOUT_ATTEMPTS_TABLE
| WITHDRAWAL_ATTEMPTS_TABLE | PAYMENTS_TABLE.
#[export] Instance TableName_eq_dec : EqDecision TableName.
Proof. solve_decision. Defined.

Record HubStore (Row : Type) := mkHubStore {
  records : TableName -> gmap (list N) Row;
  faucet_grants_table : gmap (list N) Z;
  faucet_grant_prefixes_table : gmap (list N) string;
  agent_names_table : gmap (list N) string;
  replay_guard_table : gmap (list N) Z;
  hub_meta_table : gmap string (list N)
}.
Arguments mkHubStore {Row} _ _ _ _ _ _.
Arguments records {Row} _ _.
Arguments faucet_grants_table {Row} _.
Arguments faucet_grant_prefixes_table {Row} _.
Arguments agent_names_table {Row} _.
Arguments replay_guard_table {Row} _.
Arguments hub_meta_table {Row} _.

(** [WithdrawalAttempt] of [board.rs]: a record of earlier versions. *)
Record WithdrawalAttempt := mkWithdrawal {
  wa_id : Uuid;
  wa_owner : PublicKey;
  wa_amount : N;
  wa_output_hash : Hash;
  wa_spent_inputs : list Hash;
  wa_source : PublicKey;
  wa_submitted_at : DateTime
}.

Section tables.
Context {Row : Type} {SK : StoreKeys}.
Context {C1 : Cbor Row Task} {C2 : Cbor Row Reputation} {C3 : Cbor Row PendingDeposit} {C4 : Cbor Row ExchangeAccount}
  {C5 : Cbor Row Order} {C6 : Cbor Row Trade} {C7 : Cbor Row Challenge} {C8 : Cbor Row PayoutAttempt}
  {C9 : Cbor Row WithdrawalAttempt} {C10 : Cbor Row Payment}.
Implicit Types (s : HubStore Row).

Definition with_records s (t : TableName) (m : gmap (list N) Row) : HubStore Row :=
  mkHubStore (fun t' => if decide (t' = t) then m else records s t') (faucet_grants_table s)
    (faucet_grant_prefixes_table s) (agent_names_table s) (replay_guard_table s) (hub_meta_table s).
Definition with_grants s m : HubStore Row :=
  mkHubStore (records s) m (faucet_grant_prefixes_table s) (agent_names_table s) (replay_guard_table s) (hub_meta_table s).
Definition with_prefixes s m : HubStore Row :=
  mkHubStore (records s) (faucet_grants_table s) m (agent_names_table s) (replay_guard_table s) (hub_meta_table s).
Definition with_names s m : HubStore Row :=
  mkHubStore (records s) (faucet_grants_table s) (faucet_grant_prefixes_table s) m (replay_guard_table s) (hub_meta_table s).
Definition with_replay s m : HubStore Row :=
  mkHubStore (records s) (faucet_grants_table s) (faucet_grant_prefixes_table s) (agent_names_table s) m (hub_meta_table s).
Definition with_hub_meta s m : HubStore Row :=
  mkHubStore (records s) (faucet_grants_table s) (faucet_grant_prefixes_table s) (agent_names_table s) (replay_guard_table s) m.

(** The file [Database::create] makes when there is none. *)
Definition no_file : HubStore Row := mkHubStore (fun _ => ∅) ∅ ∅ ∅ ∅ ∅.

(** ** Opening: [HubStore::open_or_create] *)
Definition hub_version s : outcome HubStoreError (option N) :=
  match hub_meta_table s !! SCHEMA_VERSION_KEY with
  | None => Ok None
  | Some bytes => if (length bytes =? 4)%nat then Ok (Some (be_val bytes)) else Err CorruptSchemaVersion
  end.
Definition stamp s : HubStore Row :=
  with_hub_meta s (<[SCHEMA_VERSION_KEY := be_bytes 4 SCHEMA_VERSION]> (hub_meta_table s)).
Definition open_or_create (commits : bool) s : outcome HubStoreError (HubStore Row) :=
  v ← hub_version s;
  s ← (match v with
       | Some found =>
           if SCHEMA_VERSION <? found then Err (UnsupportedSchemaVersion found SCHEMA_VERSION)
           else if found <? SCHEMA_VERSION then Ok (stamp s)
           else Ok s
       | None => Ok (stamp s)
       end);
  if commits then Ok s else Err Redb.

(** ** Transactions: [in_one_write_txn], [stage_record], [stage_delete] *)
Definition in_one_write_txn (commits : bool) (f : HubStore Row -> HubStore Row) s : outcome HubStoreError (HubStore Row) :=
  if commits then Ok (f s) else Err Redb.
Definition stage_record {A} {C : Cbor Row A} (t : TableName) (key : list N) (value : A) s : HubStore Row :=
  with_records s t (<[key := cbor value]> (records s t)).
Definition stage_delete (t : TableName) (key : list N) s : HubStore Row :=
  with_records s t (delete key (records s t)).
Definition payout_attempt_key (task_id : Uuid) (recipient : PublicKey) : list N := uuid_bytes task_id ++ recipient.

(** Rows staged one after the other. *)
Definition stage_all {B} (f : B -> HubStore Row -> HubStore Row) (l : list B) s : HubStore Row :=
  foldl (fun s b => f b s) s l.

(** ** Single records *)
Definition stage_task (t : Task) := stage_record TASKS_TABLE (uuid_bytes (t_id t)) t.
Definition stage_deposit (d : PendingDeposit) := stage_record PENDING_DEPOSITS_TABLE (uuid_bytes (pd_id d)) d.
Definition stage_reputation (e : PublicKey * Reputation) := stage_record REPUTATION_TABLE e.1 e.2.
Definition stage_account (e : PublicKey * ExchangeAccount) := stage_record EXCHANGE_ACCOUNTS_TABLE e.1 e.2.
Definition stage_order_row (o : Order) := stage_record ORDERS_TABLE (uuid_bytes (o_id o)) o.
Definition stage_trade (t : Trade) := stage_record TRADES_TABLE (uuid_bytes (tr_id t)) t.
Definition drop_attempt_row (k : Uuid * PublicKey) := stage_delete PAYOUT_ATTEMPTS_TABLE (payout_attempt_key k.1 k.2).

Definition save_task (commits : bool) s (t : Task) := in_one_write_txn commits (stage_task t) s.
Definition save_pending_deposit (commits : bool) s (d : PendingDeposit) := in_one_write_txn commits (stage_deposit d) s.
Definition save_reputation (commits : bool) s pk (r : Reputation) := in_one_write_txn commits (stage_reputation (pk, r)) s.
Definition save_exchange_account (commits : bool) s pk (a : ExchangeAccount) :=
  in_one_write_txn commits (stage_account (pk, a)) s.
Definition save_order (commits : bool) s (o : Order) := in_one_write_txn commits (stage_order_row o) s.
Definition save_trade (commits : bool) s (t : Trade) := in_one_write_txn commits (stage_trade t) s.
Definition save_payout_attempt (commits : bool) s (a : PayoutAttempt) :=
  in_one_write_txn commits
    (stage_record PAYOUT_ATTEMPTS_TABLE (payout_attempt_key (pa_task_id a) (pa_recipient a)) a) s.
Definition delete_payout_attempt (commits : bool) s (task_id : Uuid) (recipient : PublicKey) :=
  in_one_write_txn commits (drop_attempt_row (task_id, recipient)) s.
Definition save_withdrawal_attempt (commits : bool) s (w : WithdrawalAttempt) :=
  in_one_write_txn commits (stage_record WITHDRAWAL_ATTEMPTS_TABLE (uuid_bytes (wa_id w)) w) s.
Definition save_faucet_grant (commits : bool) s pk (granted_at : Z) :=
  in_one_write_txn commits (fun s => with_grants s (<[pk := granted_at]> (faucet_grants_table s))) s.
Definition save_faucet_grant_prefix (commits : bool) s pk (prefix : string) :=
  in_one_write_txn commits (fun s => with_prefixes s (<[pk := prefix]> (faucet_grant_prefixes_table s))) s.
Definition save_agent_name (commits : bool) s pk (name : string) :=
  in_one_write_txn commits (fun s => with_names s (<[pk := name]> (agent_names_table s))) s.

(** ** Batches: nothing to write is no transaction. *)
Definition save_batch {B} (f : B -> HubStore Row -> HubStore Row) (commits : bool) s (entries : list B) :=
  match entries with [] => Ok s | _ => in_one_write_txn commits (stage_all f entries) s end.
Definition save_reputation_batch := save_batch stage_reputation.
Definition save_exchange_account_batch := save_batch stage_account.
Definition save_agent_name_batch := save_batch (fun (e : PublicKey * string) s =>
  with_names s (<[e.1 := e.2]> (agent_names_table s))).

(** ** Records that share a commit *)
Definition save_task_and_deposit (commits : bool) s (t : Task) (d : PendingDeposit) :=
  in_one_write_txn commits (fun s => stage_deposit d (stage_task t s)) s.
Definition save_exchange_account_and_deposit (commits : bool) s pk (a : ExchangeAccount) (d : PendingDeposit) :=
  in_one_write_txn commits (fun s => stage_deposit d (stage_account (pk, a) s)) s.
Definition save_deposit_and_reputation (commits : bool) s (d : PendingDeposit) pk (r : Reputation) :=
  in_one_write_txn commits (fun s => stage_reputation (pk, r) (stage_deposit d s)) s.
Definition save_confirmed_payout (commits : bool) s (t : Task) (recipient : PublicKey) (r : Reputation)
    (compute_account : option ExchangeAccount) :=
  in_one_write_txn commits (fun s =>
    let s := stage_reputation (recipient, r) (stage_task t s) in
    let s := match compute_account with Some a => stage_account (recipient, a) s | None => s end in
    drop_attempt_row (t_id t, recipient) s) s.
Definition save_task_and_drop_payout_attempts (commits : bool) s (t : Task) (dropped : list (Uuid * PublicKey)) :=
  in_one_write_txn commits (fun s => stage_all drop_attempt_row dropped (stage_task t s)) s.
Definition save_task_and_reputation (commits : bool) s (t : Task) pk (r : Reputation) :=
  in_one_write_txn commits (fun s => stage_reputation (pk, r) (stage_task t s)) s.
Definition save_task_and_reputation_batch (commits : bool) s (t : Task) (entries : list (PublicKey * Reputation)) :=
  in_one_write_txn commits (fun s => stage_all stage_reputation entries (stage_task t s)) s.
Definition save_fill (commits : bool) s (orders : list Order) (trades : list Trade)
    (accounts : list (PublicKey * ExchangeAccount)) :=
  in_one_write_txn commits (fun s =>
    stage_all stage_account accounts (stage_all stage_trade trades (stage_all stage_order_row orders s))) s.
Definition save_order_and_account (commits : bool) s (o : Order) (owner : PublicKey) (a : ExchangeAccount) :=
  in_one_write_txn commits (fun s => stage_account (owner, a) (stage_order_row o s)) s.
Definition save_payment_effects (commits : bool) s (p : Payment) (account : option (PublicKey * ExchangeAccount))
    (deposit : option PendingDeposit) (rep : option (PublicKey * Reputation)) (faucet : bool) :=
  in_one_write_txn commits (fun s =>
    let s := stage_record PAYMENTS_TABLE (uuid_bytes (p_id p)) p s in
    let s := match account with Some e => stage_account e s | None => s end in
    let s := match deposit with Some d => stage_deposit d s | None => s end in
    let s := match rep with Some e => stage_reputation e s | None => s end in
    if faucet then with_grants s (<[p_recipient p := timestamp_of (p_created_at p)]> (faucet_grants_table s)) else s) s.

(** ** Reading back *)

(** [table.iter()?.map(..).collect()]: rows in the order of their keys, the first
    error ends it. *)
Fixpoint collect {A B} (f : A -> outcome HubStoreError B) (l : list A) : outcome HubStoreError (list B) :=
  match l with
  | [] => Ok []
  | a :: l' => b ← f a; rest ← collect f l'; Ok (b :: rest)
  end.
Definition load_values (A : Type) {C : Cbor Row A} (t : TableName) s : outcome HubStoreError (list A) :=
  collect (fun e : list N * Row => ok_or (uncbor e.2) Serialization) (btree_iter (records s t)).
Definition load_pairs (A : Type) {C : Cbor Row A} (t : TableName) s : outcome HubStoreError (list (PublicKey * A)) :=
  collect (fun e : list N * Row =>
    pk ← ok_or (from_sec1_bytes e.1) BadPublicKey;
    a ← ok_or (uncbor e.2) Serialization;
    Ok (pk, a)) (btree_iter (records s t)).
Definition load_plain {A} (m : gmap (list N) A) : outcome HubStoreError (list (PublicKey * A)) :=
  collect (fun e : list N * A => pk ← ok_or (from_sec1_bytes e.1) BadPublicKey; Ok (pk, e.2)) (btree_iter m).

Definition load_all_tasks : HubStore Row -> outcome HubStoreError (list Task) := load_values Task TASKS_TABLE.
Definition load_all_pending_deposits : HubStore Row -> outcome HubStoreError (list PendingDeposit) :=
  load_values PendingDeposit PENDING_DEPOSITS_TABLE.
Definition load_all_withdrawal_attempts : HubStore Row -> outcome HubStoreError (list WithdrawalAttempt) :=
  load_values WithdrawalAttempt WITHDRAWAL_ATTEMPTS_TABLE.
Definition load_all_payments : HubStore Row -> outcome HubStoreError (list Payment) := load_values Payment PAYMENTS_TABLE.
Definition load_all_orders : HubStore Row -> outcome HubStoreError (list Order) := load_values Order ORDERS_TABLE.
Definition load_all_trades : HubStore Row -> outcome HubStoreError (list Trade) := load_values Trade TRADES_TABLE.
Definition load_all_payout_attempts : HubStore Row -> outcome HubStoreError (list PayoutAttempt) :=
  load_values PayoutAttempt PAYOUT_ATTEMPTS_TABLE.
Definition load_all_reputation : HubStore Row -> outcome HubStoreError (list (PublicKey * Reputation)) :=
  load_pairs Reputation REPUTATION_TABLE.
Definition load_all_exchange_accounts : HubStore Row -> outcome HubStoreError (list (PublicKey * ExchangeAccount)) :=
  load_pairs ExchangeAccount EXCHANGE_ACCOUNTS_TABLE.
Definition load_all_faucet_grants_with_times s := load_plain (faucet_grants_table s).
Definition load_all_faucet_grant_prefixes s := load_plain (faucet_grant_prefixes_table s).
Definition load_all_agent_names s := load_plain (agent_names_table s).

(** ** Rows that are dropped when they can no longer matter *)
Definition record_seen_signature (commits : bool) s (signature : list N) (seen_at : Z) :=
  in_one_write_txn commits (fun s => with_replay s (<[signature := seen_at]> (replay_guard_table s))) s.
Definition load_recent_signatures s (cutoff : Z) : list (list N * Z) :=
  base.filter (fun e => (cutoff < e.2)%Z) (btree_iter (replay_guard_table s)).
Definition prune_seen_signatures (commits : bool) s (cutoff : Z) : outcome HubStoreError (HubStore Row * nat) :=
  let kept := base.filter (fun e : list N * Z => (cutoff < e.2)%Z) (replay_guard_table s) in
  s' ← in_one_write_txn commits (fun s => with_replay s kept) s;
  Ok (s', (size (replay_guard_table s) - size kept)%nat).
Definition save_challenge (commits : bool) s (c : Challenge) :=
  in_one_write_txn commits (stage_record FAUCET_CHALLENGES_TABLE (uuid_bytes (ch_id c)) c) s.
Definition prune_challenges (commits : bool) s (now : Z) : outcome HubStoreError (HubStore Row * nat) :=
  all ← load_values Challenge FAUCET_CHALLENGES_TABLE s;
  let stale := base.filter (fun c => (horizon c < now)%Z) all in
  match stale with
  | [] => Ok (s, 0%nat)
  | _ => s ← in_one_write_txn commits
               (stage_all (fun c => stage_delete FAUCET_CHALLENGES_TABLE (uuid_bytes (ch_id c))) stale) s;
         Ok (s, length stale)
  end.

End tables.
