(* ===== verification/Names.v ===== *)
(** * Names: display names of agents

    Models [hub/src/names.rs], [AppState::ensure_named] and the part of the hub's
    startup that reads names back: the pool of candidate names, drawing an unused
    one, the registry in memory and the table on disk. The word lists and the
    draws of the random generator are arguments; text is ASCII, as the word lists
    are. *)

From Stdlib Require Import Ascii String.
From S2P Require Import Prelude Types BoardTypes.

Definition MAX_NAME_LEN : nat := 15.
Definition RANDOM_PROBES : nat := 32.

(** ** The pool *)

(** [str::lines]: the text between line feeds, without a carriage return before
    one; a last empty line is not one. *)
Definition LF : ascii := "010"%char.
Definition CR : ascii := "013"%char.
Fixpoint strip_cr (l : list ascii) : list ascii :=
  match l with [] => [] | [c] => if ascii_dec c CR then [] else [c] | c :: l' => c :: strip_cr l' end.
Fixpoint split_lines (line : list ascii) (l : list ascii) : list (list ascii) :=
  match l with
  | [] => match line with [] => [] | _ => [rev line] end
  | c :: l' => if ascii_dec c LF then strip_cr (rev line) :: split_lines [] l' else split_lines (c :: line) l'
  end.
Definition lines (s : string) : list string :=
  string_of_list_ascii <$> split_lines [] (list_ascii_of_string s).

(** [str::trim] *)
Definition is_space (c : ascii) : bool :=
  let n := N_of_ascii c in ((9 <=? n) && (n <=? 13)) || (n =? 32).
Fixpoint trim_start (l : list ascii) : list ascii :=
  match l with c :: l' => if is_space c then trim_start l' else l | [] => [] end.
Definition trim (s : string) : string :=
  string_of_list_ascii (rev (trim_start (rev (trim_start (list_ascii_of_string s))))).

(** [Vec::dedup] *)
Fixpoint dedup (l : list string) : list string :=
  match l with
  | a :: (b :: _) as l' => if String.eqb a b then dedup l' else a :: dedup l'
  | _ => l
  end.

(** [words], [pool] *)
Definition words (sources : list string) : list string :=
  dedup (sort_by String.leb (base.filter (fun w => w <> EmptyString) (trim <$> (sources ≫= lines)))).
Definition pool (descriptor_sources subject_sources : list string) : list (string * string) :=
  let subjects := words subject_sources in
  words descriptor_sources ≫= fun d =>
    (fun s => (d, s)) <$> base.filter (fun s => (String.length d + String.length s <= MAX_NAME_LEN)%nat) subjects.

(** [char::to_uppercase] of an ASCII character, [render] *)
Definition to_uppercase (c : ascii) : ascii :=
  let n := N_of_ascii c in if (97 <=? n) && (n <=? 122) then ascii_of_N (n - 32) else c.
Definition capitalize (word : string) : string :=
  match word with String c rest => String (to_uppercase c) rest | EmptyString => EmptyString end.
Definition render (descriptor subject : string) : string :=
  String.append (capitalize descriptor) (capitalize subject).

(** ** The registry: [NameRegistry] *)
Record NameRegistry := mkRegistry {
  by_pubkey : gmap PublicKey string;
  taken : gset string;
  candidates : list (string * string)
}.
Definition registry_new (candidates : list (string * string)) : NameRegistry := mkRegistry ∅ ∅ candidates.
Definition restore_name (r : NameRegistry) (pk : PublicKey) (name : string) : NameRegistry :=
  mkRegistry (<[pk := name]> (by_pubkey r)) ({[name]} ∪ taken r) (candidates r).
Definition get_name (r : NameRegistry) (pk : PublicKey) : option string := by_pubkey r !! pk.

(** [self.candidates[i]] of a drawn index, if its name is free. *)
Definition try_candidate (r : NameRegistry) (i : nat) : option string :=
  match candidates r !! (i mod length (candidates r))%nat with
  | Some (d, s) => let name := render d s in if decide (name ∈ taken r) then None else Some name
  | None => None
  end.
Fixpoint first_free (r : NameRegistry) (idx : list nat) : option string :=
  match idx with
  | [] => None
  | i :: idx' => match try_candidate r i with Some name => Some name | None => first_free r idx' end
  end.
(** [NameRegistry::draw]; [rng k] is the [k]th draw, the last one the start of the scan. *)
Definition draw (rng : nat -> nat) (r : NameRegistry) : option string :=
  match candidates r with
  | [] => None
  | _ =>
      match first_free r (rng <$> seq 0 RANDOM_PROBES) with
      | Some name => Some name
      | None => let start := (rng RANDOM_PROBES mod length (candidates r))%nat in
                first_free r ((fun offset => start + offset)%nat <$> seq 0 (length (candidates r)))
      end
  end.
(** [NameRegistry::assign] *)
Definition assign (rng : nat -> nat) (r : NameRegistry) (pk : PublicKey) : NameRegistry * option (string * bool) :=
  match by_pubkey r !! pk with
  | Some name => (r, Some (name, false))
  | None => match draw rng r with
            | Some name => (restore_name r pk name, Some (name, true))
            | None => (r, None)
            end
  end.
Definition remaining (r : NameRegistry) : nat := (length (candidates r) - size (taken r))%nat.

(** ** Naming agents: [AppState::ensure_named] *)

(** The loop under the lock: the registry and the names it minted; agent [i] uses
    the draws [rng i]. *)
Fixpoint assign_all (rng : nat -> nat -> nat) (i : nat) (r : NameRegistry) (pks : list PublicKey)
    : NameRegistry * list (PublicKey * string) :=
  match pks with
  | [] => (r, [])
  | pk :: pks' =>
      let '(r1, o) := assign (rng i) r pk in
      let '(r2, fresh) := assign_all rng (S i) r1 pks' in
      (r2, match o with Some (name, true) => (pk, name) :: fresh | _ => fresh end)
  end.

(** The registry and the table of names on disk. *)
Record NameState := mkNames { registry : NameRegistry; name_table : gmap PublicKey string }.
Definition save_names (commits : bool) (t : gmap PublicKey string) (entries : list (PublicKey * string))
    : gmap PublicKey string := if commits then foldl (fun t e => <[e.1 := e.2]> t) t entries else t.
Definition ensure_named (rng : nat -> nat -> nat) (commits : bool) (st : NameState) (pks : list PublicKey) : NameState :=
  let '(r, fresh) := assign_all rng 0 (registry st) pks in
  mkNames r (save_names commits (name_table st) fresh).

(** Startup: the names on disk, then one for every agent of the board without. *)
Definition load_names (pool : list (string * string)) (rows : list (PublicKey * string)) : NameRegistry :=
  foldl (fun r e => restore_name r e.1 e.2) (registry_new pool) rows.
Definition backfill (rng : nat -> nat -> nat) (r : NameRegistry) (agents : list PublicKey)
    : NameRegistry * list (PublicKey * string) :=
  assign_all rng 0 r (base.filter (fun pk => get_name r pk = None) agents).

(** * NamesTheorems: an agent keeps its name and shares it with nobody

    Drawing finds a free name whenever there is one; the histories of the registry
    and its table through requests, failed writes and restarts. *)

(** ** Drawing *)
Section drawing.
Implicit Types (r : NameRegistry).

Definition free_name r (name : string) : Prop :=
  name ∉ taken r /\ exists d s, (d, s) ∈ candidates r /\ name = render d s.

Lemma try_candidate_Some r i name : try_candidate r i = Some name -> free_name r name.
Proof.
  unfold try_candidate. destruct (candidates r !! _) as [[d s]|] eqn:E; [|done]. case_decide as Ht; [done|].
  intros [= <-]. split; [done|]. exists d, s. split; [by eapply list_elem_of_lookup_2|done].
Qed.

Lemma first_free_Some r idx name : first_free r idx = Some name -> free_name r name.
Proof.
  induction idx as [|i idx IH]; cbn; [done|]. destruct (try_candidate r i) eqn:E; [|done].
  intros [= <-]. by eapply try_candidate_Some.
Qed.

Lemma first_free_None r idx :
  first_free r idx = None <-> forall i, i ∈ idx -> try_candidate r i = None.
Proof.
  induction idx as [|i idx IH]; cbn.
  - split; [|done]. intros _ i Hi. by apply not_elem_of_nil in Hi.
  - setoid_rewrite elem_of_cons. destruct (try_candidate r i) as [n|] eqn:E.
    + split; [done|]. intros H. rewrite H in E by (by left). done.
    + rewrite IH. split; [intros H j [->|Hj]; auto|auto].
Qed.

(** A wrapping scan visits every index. *)
Lemma scan_visits n start k :
  (k < n)%nat -> exists offset, offset ∈ seq 0 n /\ ((start mod n + offset) mod n = k)%nat.
Proof.
  intros Hk. assert (Hs : (start mod n < n)%nat) by (apply Nat.mod_upper_bound; lia).
  destruct (decide (start mod n <= k)%nat) as [Hle|Hgt].
  - exists (k - start mod n)%nat. rewrite elem_of_seq. split; [lia|]. rewrite Nat.mod_small by lia. lia.
  - exists (n + k - start mod n)%nat. rewrite elem_of_seq. split; [lia|].
    replace (start mod n + (n + k - start mod n))%nat with (k + 1 * n)%nat by lia.
    rewrite Nat.Div0.mod_add, Nat.mod_small by lia. done.
Qed.

(** A draw fails exactly when every candidate's name is taken. *)
Lemma draw_None rng r :
  draw rng r = None <-> forall d s, (d, s) ∈ candidates r -> render d s ∈ taken r.
Proof.
  split.
  - intros Hd d s Hin. unfold draw in Hd. apply list_elem_of_lookup in Hin as [k Hk].
    pose proof (lookup_lt_Some _ _ _ Hk) as Hlt.
    destruct (candidates r) as [|c cs] eqn:Ec; [done|].
    destruct (first_free r (rng <$> _)); [done|]. rewrite first_free_None in Hd.
    destruct (scan_visits (length (c :: cs)) (rng RANDOM_PROBES) k Hlt) as (offset & Ho & Em).
    assert (Ht : try_candidate r ((rng RANDOM_PROBES mod length (c :: cs)) + offset)%nat = None)
      by (apply Hd, list_elem_of_fmap; eauto).
    unfold try_candidate in Ht. rewrite Ec, Em, Hk in Ht. by case_decide.
  - intros Hall. destruct (draw rng r) as [name|] eqn:E; [|done]. exfalso.
    assert (Hf : free_name r name).
    { unfold draw in E. destruct (candidates r); [done|]. destruct (first_free r (rng <$> _)) eqn:E1.
      - injection E as <-. by eapply first_free_Some.
      - by eapply first_free_Some. }
    destruct Hf as [Hn (d & s & Hin & ->)]. by apply Hn, Hall.
Qed.

Lemma draw_Some rng r name : draw rng r = Some name -> free_name r name.
Proof.
  unfold draw. destruct (candidates r); [done|]. destruct (first_free r (rng <$> _)) eqn:E1.
  - intros [= <-]. by eapply first_free_Some.
  - apply first_free_Some.
Qed.
End drawing.

(** ** Lengths *)
Lemma append_length (a b : string) : String.length (String.append a b) = (String.length a + String.length b)%nat.
Proof. induction a as [|c a IH]; [done|]. change (S (String.length (String.append a b)) = S (String.length a + String.length b))%nat. by rewrite IH. Qed.
Lemma capitalize_length w : String.length (capitalize w) = String.length w.
Proof. by destruct w. Qed.
Lemma render_length d s : String.length (render d s) = (String.length d + String.length s)%nat.
Proof. unfold render. by rewrite append_length, !capitalize_length. Qed.
Lemma pool_fits ds ss d s :
  (d, s) ∈ pool ds ss -> (String.length (render d s) <= MAX_NAME_LEN)%nat.
Proof.
  unfold pool. rewrite list_elem_of_bind. intros (d' & Hin & _). apply list_elem_of_fmap in Hin as (s' & [= -> ->] & Hs).
  apply list_elem_of_filter in Hs as [Hle _]. by rewrite render_length.
Qed.

(** ** The registry *)
Record registry_ok (r : NameRegistry) : Prop := {
  rk_taken : forall pk n, by_pubkey r !! pk = Some n -> n ∈ taken r;
  rk_unique : forall pk pk' n, by_pubkey r !! pk = Some n -> by_pubkey r !! pk' = Some n -> pk = pk'
}.

Lemma restore_name_ok r pk n :
  registry_ok r -> (forall pk', by_pubkey r !! pk' = Some n -> pk' = pk) -> registry_ok (restore_name r pk n).
Proof.
  intros [Ht Hu] Hn. split; cbn.
  - intros q m. rewrite lookup_insert_Some. intros [[-> ->]|[_ Hq]]; [set_solver|]. apply Ht in Hq. set_solver.
  - intros q q' m. rewrite !lookup_insert_Some. intros [[-> ->]|[Hq Hm]] [[E1 E2]|[Hq' Hm']]; subst; eauto.
    + symmetry. auto.
Qed.

(** An assignment adds at most the agent it was asked for. *)
Lemma assign_spec rng r pk :
  registry_ok r ->
  let '(r', o) := assign rng r pk in
  registry_ok r' /\ candidates r' = candidates r /\ by_pubkey r ⊆ by_pubkey r' /\
  match o with
  | Some (n, fresh) => by_pubkey r' !! pk = Some n /\ by_pubkey r' = <[pk := n]> (by_pubkey r) /\
                       (fresh = true <-> by_pubkey r !! pk = None) /\ (fresh = true -> free_name r n)
  | None => r' = r /\ by_pubkey r !! pk = None /\ forall d s, (d, s) ∈ candidates r -> render d s ∈ taken r
  end.
Proof.
  intros Hok. unfold assign. destruct (by_pubkey r !! pk) as [n|] eqn:E.
  - split_and!; try done. by rewrite insert_id.
  - destruct (draw rng r) as [n|] eqn:Ed.
    + pose proof (draw_Some _ _ _ Ed) as Hf. split_and!; try done.
      * apply restore_name_ok; [done|]. intros q Hq. destruct Hf as [Hn _]. destruct Hn. by eapply rk_taken.
      * cbn. by apply insert_subseteq.
      * cbn. apply lookup_insert_eq.
    + split_and!; try done. by eapply draw_None.
Qed.

(** The names minted in a batch are those the registry now has. *)
Lemma assign_all_spec rng pks : forall i r,
  registry_ok r ->
  let '(r', fresh) := assign_all rng i r pks in
  registry_ok r' /\ candidates r' = candidates r /\ by_pubkey r ⊆ by_pubkey r' /\
  (forall pk n, (pk, n) ∈ fresh -> by_pubkey r' !! pk = Some n) /\
  (forall pk n, by_pubkey r' !! pk = Some n -> by_pubkey r !! pk = Some n \/
     exists d s, (d, s) ∈ candidates r /\ n = render d s).
Proof.
  induction pks as [|pk pks IH]; intros i r Hok; cbn.
  - split_and!; try done; [|by left]. intros pk n Hin. by apply not_elem_of_nil in Hin.
  - pose proof (assign_spec (rng i) r pk Hok) as Ha. destruct (assign (rng i) r pk) as [r1 o].
    destruct Ha as (Hok1 & Ec & Hsub & Ho). specialize (IH (S i) r1 Hok1).
    destruct (assign_all rng (S i) r1 pks) as [r2 fresh]. destruct IH as (Hok2 & Ec2 & Hsub2 & Hf & Hn).
    split_and!; [done|congruence|by etrans| |].
    + assert (Htail : forall q n, (q, n) ∈ fresh -> by_pubkey r2 !! q = Some n) by done.
      destruct o as [[n []]|]; [|done..]. intros q m [[= -> ->]|Hin]%elem_of_cons; [|by apply Hf].
      eapply lookup_weaken; [apply Ho|done].
    + intros q n Hq. destruct (Hn q n Hq) as [Hq1|(d & s & Hin & ->)]; [|right; exists d, s; by rewrite <-Ec].
      destruct o as [[m fr]|]; [|destruct Ho as [-> _]; by left].
      destruct Ho as (_ & Em & Hfr & Hfree). rewrite Em in Hq1. apply lookup_insert_Some in Hq1 as [[-> ->]|[_ Hq1]]; [|by left].
      destruct fr; [|destruct (by_pubkey r !! q) eqn:Eq].
      * right. destruct (Hfree eq_refl) as [_ (d & s & Hin & ->)]. eauto.
      * left. pose proof (lookup_weaken _ _ _ _ Eq Hsub) as E. rewrite Em, lookup_insert_eq in E. congruence.
      * discriminate (proj2 Hfr eq_refl).
Qed.

(** ** The table *)
Lemma saved_names_subset commits t m entries :
  t ⊆ m -> (forall pk n, (pk, n) ∈ entries -> m !! pk = Some n) -> save_names commits t entries ⊆ m.
Proof.
  intros Ht. destruct commits; [|done]. cbn. revert t Ht. induction entries as [|[pk n] l IH]; intros t Ht He; [done|].
  cbn. apply IH; [|intros q x Hin; apply He; by right]. apply insert_subseteq_l; [apply He; by left|done].
Qed.
Lemma saved_names_keep commits entries : forall t m pk n,
  t ⊆ m -> (forall pk n, (pk, n) ∈ entries -> m !! pk = Some n) ->
  t !! pk = Some n -> save_names commits t entries !! pk = Some n.
Proof.
  destruct commits; [|done]. cbn. induction entries as [|[q x] l IH]; intros t m pk n Ht He Hn; [done|]. cbn.
  apply (IH _ m).
  - apply insert_subseteq_l; [apply He; by left|done].
  - intros p y Hin. apply He. by right.
  - destruct (decide (pk = q)) as [->|Hne]; [|by rewrite lookup_insert_ne]. rewrite lookup_insert_eq. f_equal.
    assert (m !! q = Some x) by (apply He; by left). assert (m !! q = Some n) by (by eapply lookup_weaken). congruence.
Qed.

(** Rows read back are the table. *)
Lemma restore_rows l : forall r,
  by_pubkey (foldl (fun r e => restore_name r e.1 e.2) r l) = foldl (fun m e => <[e.1 := e.2]> m) (by_pubkey r) l /\
  candidates (foldl (fun r e => restore_name r e.1 e.2) r l) = candidates r /\
  (forall n, n ∈ taken (foldl (fun r e => restore_name r e.1 e.2) r l) <-> n ∈ taken r \/ n ∈ l.*2).
Proof.
  induction l as [|[pk n] l IH]; intros r; cbn [foldl].
  - split_and!; try done. intros n. rewrite fmap_nil. set_solver.
  - destruct (IH (restore_name r pk n)) as (Eb & Ec & Ht). split_and!; [done..|]. intros m.
    rewrite fmap_cons, elem_of_cons, (Ht m). cbn. set_solver.
Qed.

Lemma load_names_table (pool : list (string * string)) (t : gmap PublicKey string) :
  by_pubkey (load_names pool (btree_iter t)) = t /\ candidates (load_names pool (btree_iter t)) = pool /\
  (forall pk n, t !! pk = Some n -> n ∈ taken (load_names pool (btree_iter t))).
Proof.
  unfold load_names. destruct (restore_rows (btree_iter t) (registry_new pool)) as (Eb & Ec & Ht). split_and!; [|done|].
  - rewrite Eb. apply foldl_insert_perm, btree_iter_perm.
  - intros pk n Hn. apply Ht. right. apply list_elem_of_fmap. exists (pk, n). split; [done|]. by apply elem_of_btree_iter.
Qed.

(** ** Histories *)
Section histories.
Context (pool : list (string * string)).

(** A request that names agents, whose write may fail; and a restart, whose
    backfill has to be written for the hub to come up. *)
Inductive name_step (st : NameState) : NameState -> Prop :=
| ns_request rng commits pks : name_step st (ensure_named rng commits st pks)
| ns_restart rng agents r fresh :
    backfill rng (load_names pool (btree_iter (name_table st))) agents = (r, fresh) ->
    name_step st (mkNames r (save_names true (name_table st) fresh)).

Record names_ok (st : NameState) : Prop := {
  nk_registry : registry_ok (registry st);
  nk_table : name_table st ⊆ by_pubkey (registry st)
}.

Definition names_new : NameState := mkNames (registry_new pool) ∅.
Lemma names_new_ok : names_ok names_new.
Proof. split; [split; cbn; intros *; by rewrite lookup_empty|apply map_empty_subseteq]. Qed.

Lemma named_keeps st r rng pks r' fresh commits :
  registry_ok r -> name_table st ⊆ by_pubkey r -> assign_all rng 0 r pks = (r', fresh) ->
  names_ok (mkNames r' (save_names commits (name_table st) fresh)) /\
  name_table st ⊆ save_names commits (name_table st) fresh.
Proof.
  intros Hok Ht Ea. pose proof (assign_all_spec rng pks 0 r Hok) as Hs. rewrite Ea in Hs. destruct Hs as (Hok' & _ & Hsub & Hf & _).
  assert (Ht' : name_table st ⊆ by_pubkey r') by (by etrans). split.
  - split; [done|]. cbn. by apply saved_names_subset.
  - apply map_subseteq_spec. intros pk n Hn. by eapply saved_names_keep.
Qed.

Lemma name_step_keeps st st' :
  names_ok st -> name_step st st' -> names_ok st' /\ name_table st ⊆ name_table st'.
Proof.
  intros [Hr Ht] [rng commits pks|rng agents r fresh Hb].
  - unfold ensure_named. destruct (assign_all rng 0 (registry st) pks) as [r fresh] eqn:Ea. by eapply named_keeps.
  - destruct (load_names_table pool (name_table st)) as (Eb & _ & Htk).
    apply (named_keeps st (load_names pool (btree_iter (name_table st))) rng _ r fresh true) in Hb; [done| |by rewrite Eb].
    split; [by rewrite Eb|]. rewrite Eb. intros pk pk' n H1 H2.
    eapply (rk_unique _ Hr); by eapply lookup_weaken.
Qed.

(** Through requests, failed writes and restarts no two agents share a name, and a name
    that reached the disk is the agent's from then on. *)
Theorem names_are_unique_and_permanent st :
  rtc name_step names_new st ->
  (forall pk pk' n, get_name (registry st) pk = Some n -> get_name (registry st) pk' = Some n -> pk = pk') /\
  (forall pk n, name_table st !! pk = Some n -> get_name (registry st) pk = Some n) /\
  forall st', rtc name_step st st' -> forall pk n, name_table st !! pk = Some n ->
    get_name (registry st') pk = Some n /\ name_table st' !! pk = Some n.
Proof.
  assert (Hrun : forall a b, rtc name_step a b -> names_ok a -> names_ok b /\ name_table a ⊆ name_table b).
  { induction 1 as [|a b c Hs _ IH]; [done|]. intros Ha. destruct (name_step_keeps _ _ Ha Hs) as [Hb Hsub].
    destruct (IH Hb) as [Hc Hsub']. split; [done|by etrans]. }
  intros Hs. destruct (Hrun _ _ Hs names_new_ok) as [[Hr Ht] _]. split_and!.
  - apply Hr.
  - intros pk n Hn. by eapply lookup_weaken.
  - intros st' Hs' pk n Hn. destruct (Hrun _ _ Hs' ltac:(by split)) as [[Hr' Ht'] Hsub].
    assert (Hn' : name_table st' !! pk = Some n) by (by eapply lookup_weaken). split; [|done]. by eapply lookup_weaken.
Qed.
End histories.

(** Assigning a name fails only when every name of the pool is taken; it is idempotent,
    changes no other agent's name, and a new name is unused and within the length
    limit. *)
Theorem assign_finds_a_free_name ds ss rng r pk :
  registry_ok r -> candidates r = pool ds ss ->
  let '(r', o) := assign rng r pk in
  (o = None <-> get_name r pk = None /\ forall d s, (d, s) ∈ pool ds ss -> render d s ∈ taken r) /\
  (forall n fresh, o = Some (n, fresh) ->
     get_name r' pk = Some n /\ (assign rng r' pk).2 = Some (n, false) /\
     (fresh = false -> get_name r pk = Some n /\ r' = r) /\
     (fresh = true -> n ∉ taken r /\ (String.length n <= MAX_NAME_LEN)%nat)) /\
  forall pk' n, get_name r pk' = Some n -> get_name r' pk' = Some n.
Proof.
  intros Hok Ec. pose proof (assign_spec rng r pk Hok) as Ha. destruct (assign rng r pk) as [r' o] eqn:E.
  destruct Ha as (Hok' & _ & Hsub & Ho). unfold get_name. split_and!.
  - destruct o as [[n fresh]|].
    + split; [done|]. intros [Hn Hall]. destruct Ho as (_ & _ & Hfr & Hfree).
      destruct (Hfree (proj2 Hfr Hn)) as [Hni (d & s & Hin & ->)]. rewrite Ec in Hin. destruct Hni. by apply Hall.
    + rewrite <-Ec. split; [|done]. by destruct Ho as (_ & ? & ?).
  - intros n fresh ->. destruct Ho as (Hg & Em & Hfr & Hfree). split_and!; [done| | |].
    + unfold assign. by rewrite Hg.
    + intros ->. unfold assign in E. destruct (by_pubkey r !! pk); [by injection E as <- <-|].
      by destruct (draw rng r).
    + intros ->. destruct (Hfree eq_refl) as [Hni (d & s & Hin & ->)]. split; [done|]. rewrite Ec in Hin. by eapply pool_fits.
  - intros pk' n Hn. by eapply lookup_weaken.
Qed.

(** ** Witnesses: two descriptors, one subject, a failed write and a restart *)
Module Toy.
Definition descriptors : list string := ["swift
amber
"; " swift "].
Definition subjects : list string := ["owl"].
Definition toy_pool : list (string * string) := pool descriptors subjects.
Definition alice : PublicKey := [1].
Definition bob : PublicKey := [2].
Definition rng (i k : nat) : nat := (i + k)%nat.

Definition named : NameState := ensure_named rng true (names_new toy_pool) [alice].
Definition half_named : NameState := ensure_named rng false named [bob].

Lemma names_are_unique_and_permanent_witness :
  get_name (registry half_named) alice = Some "AmberOwl"%string /\ get_name (registry half_named) bob = Some "SwiftOwl"%string /\
  name_table half_named !! bob = None /\
  forall st', rtc (name_step toy_pool) half_named st' -> get_name (registry st') alice = Some "AmberOwl"%string.
Proof.
  split_and!; [by vm_compute..|]. intros st' Hs.
  refine (proj1 (proj2 (proj2 (names_are_unique_and_permanent toy_pool half_named _)) st' Hs alice "AmberOwl"%string _)).
  - apply (rtc_l _ _ named); [apply ns_request|]. apply rtc_once, ns_request.
  - by vm_compute.
Defined.

Lemma assign_finds_a_free_name_witness :
  (assign (rng 0) (registry named) bob).2 = Some ("SwiftOwl"%string, true) /\
  (assign (rng 0) (registry half_named) [3]).2 = None /\
  let '(r', o) := assign (rng 0) (registry named) bob in
  (o = None <-> get_name (registry named) bob = None /\
                forall d s, (d, s) ∈ pool descriptors subjects -> render d s ∈ taken (registry named)) /\
  (forall n fresh, o = Some (n, fresh) ->
     get_name r' bob = Some n /\ (assign (rng 0) r' bob).2 = Some (n, false) /\
     (fresh = false -> get_name (registry named) bob = Some n /\ r' = registry named) /\
     (fresh = true -> n ∉ taken (registry named) /\ (String.length n <= MAX_NAME_LEN)%nat)) /\
  forall pk' n, get_name (registry named) pk' = Some n -> get_name r' pk' = Some n.
Proof.
  split_and!; [by vm_compute..|].
  apply (assign_finds_a_free_name descriptors subjects (rng 0) (registry named) bob).
  - apply (name_step_keeps toy_pool (names_new toy_pool) named (names_new_ok toy_pool) (ns_request _ _ _ _ _)).
  - by vm_compute.
Defined.
End Toy.
