(* ===== verification/EscrowKey.v ===== *)
(** * EscrowKey: escrow deposit keys and the hub's key files

    Models [hub/src/escrow_key.rs] and the part of the hub's startup that reads or
    makes its key files ([load_or_generate_key], [key_generation_policy] and the
    first half of [main] in [hub/src/main.rs]). HKDF-SHA256 and the curve are the
    class [EscrowPrimitives]; a key file's bytes go through ciborium, the class
    [Cbor]. Files are a map from paths to contents; how a write ends is an argument. *)

From Stdlib Require Import Ascii String.
From S2P Require Import Prelude Types Crypto BoardTypes Tables.

Class EscrowPrimitives := {
  hkdf_sha256 : list N -> list N -> list N -> list N;
  from_fixed_bytes : list N -> option PrivateKey
}.

(** ** Derivation: [EscrowSecret::derive] *)
Definition byte_string (s : string) : list N := N_of_ascii <$> list_ascii_of_string s.
Definition SECRET_LEN : nat := 32.
Definition HKDF_SALT : list N := byte_string "itx-hub-escrow-secret-v1".
Definition HKDF_INFO_PREFIX : list N := byte_string "itx-hub-escrow-deposit-v1".
Definition COUNTERS : list N := N.of_nat <$> seq 0 256.

Section derivation.
Context `{EscrowPrimitives} `{StoreKeys}.
Definition derive_info (deposit_id : Uuid) (counter : N) : list N :=
  HKDF_INFO_PREFIX ++ uuid_bytes deposit_id ++ [counter].
Fixpoint derive_from {E} (secret : list N) (deposit_id : Uuid) (counters : list N) : outcome E PrivateKey :=
  match counters with
  | [] => Panic
  | counter :: rest =>
      match from_fixed_bytes (hkdf_sha256 HKDF_SALT secret (derive_info deposit_id counter)) with
      | Some key => Ok key
      | None => derive_from secret deposit_id rest
      end
  end.
Definition derive_key {E} (secret : list N) (deposit_id : Uuid) : outcome E PrivateKey :=
  derive_from secret deposit_id COUNTERS.
End derivation.

(** ** Files *)
Abbreviation Files := (gmap string (list N)).

(** How a write of a path ends; when it fails, the bytes that reached the file, or [None]
    when it could not be created. *)
Record WriteEnv := mkWrites {
  completes : string -> bool;
  reached : string -> option (list N);
  restricts : string -> bool
}.
Inductive KeyError : Type :=
| InvalidData (path : string)
| NotFound (path : string)
| WriteFailed (path : string)
| StoreAlreadyExists (missing : list string)
| MissingKeyMaterial (missing : list string).

Definition write_file (env : WriteEnv) (files : Files) (path : string) (bytes : list N) : Files * outcome KeyError unit :=
  if completes env path then (<[path := bytes]> files, Ok tt)
  else (match reached env path with Some bytes => <[path := bytes]> files | None => files end, Err (WriteFailed path)).

(** [EscrowSecret::load], [EscrowSecret::write_new_file] *)
Definition load_secret (files : Files) (path : string) : outcome KeyError (list N) :=
  match files !! path with
  | None => Err (NotFound path)
  | Some bytes => if (length bytes =? SECRET_LEN)%nat then Ok bytes else Err (InvalidData path)
  end.
Definition write_new_file (env : WriteEnv) (files : Files) (path : string) (secret : list N) : Files * outcome KeyError unit :=
  match files !! path with
  | Some _ => (files, Err (WriteFailed path))
  | None => write_file env files path secret
  end.

Section keys.
Context {C : Cbor (list N) PrivateKey}.

(** [PrivateKey::load_from_file], [load_or_generate_key] and, in its last step,
    [restrict_to_owner]; [fresh] is [PrivateKey::new_key]. *)
Definition load_from_file (files : Files) (path : string) : outcome KeyError PrivateKey :=
  match files !! path with
  | None => Err (NotFound path)
  | Some bytes => ok_or (uncbor bytes) (InvalidData path)
  end.
Definition load_or_generate_key (env : WriteEnv) (fresh : PrivateKey) (files : Files) (path : string)
    (generate_missing : bool) : Files * outcome KeyError PrivateKey :=
  match load_from_file files path with
  | Err (NotFound p) =>
      if generate_missing then
        match write_file env files path (cbor fresh) with
        | (files, Ok _) => (files, if restricts env path then Ok fresh else Err (WriteFailed path))
        | (files, Err e) => (files, Err e)
        | (files, Panic) => (files, Panic)
        end
      else (files, Err (NotFound p))
  | r => (files, r)
  end.
Definition load_or_generate_secret (env : WriteEnv) (fresh : list N) (files : Files) (path : string)
    (generate_missing : bool) : Files * outcome KeyError (list N) :=
  match load_secret files path with
  | Err (NotFound p) =>
      if generate_missing then
        match write_new_file env files path fresh with
        | (files, Ok _) => (files, Ok fresh)
        | (files, Err e) => (files, Err e)
        | (files, Panic) => (files, Panic)
        end
      else (files, Err (NotFound p))
  | r => (files, r)
  end.

(** [key_generation_policy] *)
Definition key_generation_policy (store_exists generate_keys : bool) (missing : list string) : outcome KeyError bool :=
  match missing with
  | [] => Ok false
  | _ => if store_exists then Err (StoreAlreadyExists missing)
         else if negb generate_keys then Err (MissingKeyMaterial missing)
         else Ok true
  end.

(** ** The key material a start works with: the first half of [main] *)
Record KeyPaths := mkPaths { operator_key_file : string; exchange_custody_key_file : string; escrow_secret_file : string }.
Record KeyMaterial := mkMaterial { operator_key : PrivateKey; custody_key : PrivateKey; escrow_secret : list N }.
Definition missing_key_files (files : Files) (p : KeyPaths) : list string :=
  base.filter (fun path => files !! path = None) [operator_key_file p; exchange_custody_key_file p; escrow_secret_file p].
Definition read_key_material (env : WriteEnv) (fresh : KeyMaterial) (p : KeyPaths) (generate : bool) (files : Files)
    : Files * outcome KeyError KeyMaterial :=
  let '(files, operator) := load_or_generate_key env (operator_key fresh) files (operator_key_file p) generate in
  match operator with
  | Err e => (files, Err e)
  | Panic => (files, Panic)
  | Ok operator =>
      let '(files, custody) := load_or_generate_key env (custody_key fresh) files (exchange_custody_key_file p) generate in
      match custody with
      | Err e => (files, Err e)
      | Panic => (files, Panic)
      | Ok custody =>
          let '(files, secret) := load_or_generate_secret env (escrow_secret fresh) files (escrow_secret_file p) generate in
          (files, secret ← secret; Ok (mkMaterial operator custody secret))
      end
  end.
Definition load_key_material (env : WriteEnv) (fresh : KeyMaterial) (p : KeyPaths) (store_exists generate_keys : bool)
    (files : Files) : Files * outcome KeyError KeyMaterial :=
  match key_generation_policy store_exists generate_keys (missing_key_files files p) with
  | Err e => (files, Err e)
  | Panic => (files, Panic)
  | Ok generate => read_key_material env fresh p generate files
  end.
End keys.

(** * EscrowTheorems: the hub's keys outlive its restarts

    A start never replaces a key file, makes one only for a hub that has no store
    yet, and what it made the next start reads back; deposits with different ids
    have different keys. *)

(** ** Key files *)
Section files.
Context {C : Cbor (list N) PrivateKey}.
Implicit Types (files : Files).

Lemma write_file_grows env files path bytes files' r :
  files !! path = None -> write_file env files path bytes = (files', r) ->
  files ⊆ files' /\ (r = Ok tt -> files' !! path = Some bytes).
Proof.
  intros Hn. unfold write_file. destruct (completes env path); intros [= <- <-].
  - split; [by apply insert_subseteq|]. intros _. by rewrite lookup_insert_eq.
  - split; [|done]. destruct (reached env path); [by apply insert_subseteq|done].
Qed.

Lemma load_from_file_mono files files' path k :
  files ⊆ files' -> load_from_file files path = Ok k -> load_from_file files' path = Ok k.
Proof.
  intros Hsub. unfold load_from_file. destruct (files !! path) eqn:E; [|done]. by rewrite (lookup_weaken _ _ _ _ E Hsub).
Qed.
Lemma load_secret_mono files files' path x :
  files ⊆ files' -> load_secret files path = Ok x -> load_secret files' path = Ok x.
Proof.
  intros Hsub. unfold load_secret. destruct (files !! path) eqn:E; [|done]. by rewrite (lookup_weaken _ _ _ _ E Hsub).
Qed.

(** What a step of the start leaves behind, for a way [load] to read the file. *)
Definition kept {A} (load : Files -> outcome KeyError A) (generate : bool) files files' (r : outcome KeyError A) : Prop :=
  files ⊆ files' /\ (files' <> files -> generate = true) /\ (forall a, r = Ok a -> load files' = Ok a).

Lemma kept_same {A} (load : Files -> outcome KeyError A) generate files r :
  load files = r -> kept load generate files files r.
Proof. intros <-. by split_and!. Qed.

Lemma load_or_generate_key_kept env fresh files path generate files' r :
  load_or_generate_key env fresh files path generate = (files', r) ->
  kept (fun f => load_from_file f path) generate files files' r.
Proof.
  unfold load_or_generate_key. destruct (load_from_file files path) as [k|[]|] eqn:E; try (intros [= <- <-]; by apply kept_same).
  assert (Hn : files !! path = None) by (unfold load_from_file, ok_or in E; by repeat case_match).
  destruct generate; [|intros [= <- <-]; by apply kept_same].
  destruct (write_file env files path (cbor fresh)) as [f w] eqn:Ew. destruct (write_file_grows _ _ _ _ _ _ Hn Ew) as [Hsub Hw].
  destruct w as [[]|e|]; intros [= <- <-]; split_and!; try done.
  intros a. destruct (restricts env path); [|done]. intros [= <-]. unfold load_from_file. rewrite Hw by done. cbn.
  by rewrite uncbor_cbor.
Qed.
Lemma load_or_generate_secret_kept env fresh files path generate files' r :
  length fresh = SECRET_LEN -> load_or_generate_secret env fresh files path generate = (files', r) ->
  kept (fun f => load_secret f path) generate files files' r.
Proof.
  intros Hlen. unfold load_or_generate_secret, write_new_file.
  destruct (load_secret files path) as [k|[]|] eqn:E; try (intros [= <- <-]; by apply kept_same).
  assert (Hn : files !! path = None) by (unfold load_secret in E; by repeat case_match).
  destruct generate; [|intros [= <- <-]; by apply kept_same]. rewrite Hn.
  destruct (write_file env files path fresh) as [f w] eqn:Ew. destruct (write_file_grows _ _ _ _ _ _ Hn Ew) as [Hsub Hw].
  destruct w as [[]|e|]; intros [= <- <-]; split_and!; try done.
  intros a [= <-]. unfold load_secret. rewrite Hw by done. by rewrite Hlen.
Qed.

(** Where every file reads back, a start only reads. *)
Lemma load_key_material_reads env fresh p store_exists generate_keys files keys :
  load_from_file files (operator_key_file p) = Ok (operator_key keys) ->
  load_from_file files (exchange_custody_key_file p) = Ok (custody_key keys) ->
  load_secret files (escrow_secret_file p) = Ok (escrow_secret keys) ->
  load_key_material env fresh p store_exists generate_keys files = (files, Ok keys).
Proof.
  intros Ho Hc He. assert (Hm : missing_key_files files p = []).
  { unfold missing_key_files. unfold load_from_file in Ho, Hc. unfold load_secret in He.
    rewrite !filter_cons_False, filter_nil; [done|intros E; by rewrite E in *..]. }
  unfold load_key_material, read_key_material, load_or_generate_key, load_or_generate_secret. rewrite Hm. cbn.
  rewrite Ho, Hc, He. by destruct keys.
Qed.

Lemma read_key_material_kept env fresh p generate files files' r :
  length (escrow_secret fresh) = SECRET_LEN -> read_key_material env fresh p generate files = (files', r) ->
  files ⊆ files' /\ (files' <> files -> generate = true) /\
  (forall keys, r = Ok keys ->
     load_from_file files' (operator_key_file p) = Ok (operator_key keys) /\
     load_from_file files' (exchange_custody_key_file p) = Ok (custody_key keys) /\
     load_secret files' (escrow_secret_file p) = Ok (escrow_secret keys)).
Proof.
  intros Hlen. unfold read_key_material.
  destruct (load_or_generate_key _ _ files _ _) as [f1 o1] eqn:E1. apply load_or_generate_key_kept in E1 as (S1 & G1 & L1).
  destruct o1 as [k1|e|]; [|intros [= <- <-]; by split_and!..].
  destruct (load_or_generate_key _ _ f1 _ _) as [f2 o2] eqn:E2. apply load_or_generate_key_kept in E2 as (S2 & G2 & L2).
  assert (G12 : f2 <> files -> generate = true)
    by (intros Hne; destruct (decide (f2 = f1)) as [->|]; auto).
  assert (S12 : files ⊆ f2) by (by etrans). destruct o2 as [k2|e|]; [|intros [= <- <-]; by split_and!..].
  destruct (load_or_generate_secret _ _ f2 _ _) as [f3 o3] eqn:E3. apply load_or_generate_secret_kept in E3 as (S3 & G3 & L3); [|done].
  intros [= <- <-]. split_and!; [by etrans|intros Hne; destruct (decide (f3 = f2)) as [->|]; auto|].
  intros keys Hk. destruct o3 as [k3|e|]; [|done..]. injection Hk as <-. cbn. split_and!; [|by eapply load_from_file_mono, L2|by apply L3].
  eapply load_from_file_mono; [exact S3|]. by eapply load_from_file_mono, L1.
Qed.

(** C16: A start leaves every key file that was there as it was, creates one only when
    there is no store and key generation was asked for, refuses to start a hub with a
    store whose keys are missing, and, when it succeeds, every later start loads the
    same keys whatever its flags. *)
Theorem keys_are_never_replaced env fresh p store_exists generate_keys files :
  length (escrow_secret fresh) = SECRET_LEN ->
  let '(files', r) := load_key_material env fresh p store_exists generate_keys files in
  (forall path bytes, files !! path = Some bytes -> files' !! path = Some bytes) /\
  (files' <> files -> store_exists = false /\ generate_keys = true) /\
  (forall keys, r = Ok keys -> forall env' fresh' store_exists' generate_keys',
     load_key_material env' fresh' p store_exists' generate_keys' files' = (files', Ok keys)) /\
  (store_exists = true -> missing_key_files files p <> [] ->
     files' = files /\ r = Err (StoreAlreadyExists (missing_key_files files p))).
Proof.
  intros Hlen. destruct (load_key_material _ _ _ _ _ _) as [files' r] eqn:E. unfold load_key_material, key_generation_policy in E.
  destruct (missing_key_files files p) as [|m ms] eqn:Em; [|destruct store_exists; [|destruct generate_keys]]; cbn in E.
  - apply read_key_material_kept in E as (S & G & L); [|done]. split_and!; [..|done].
    + intros path bytes Hp. by eapply lookup_weaken.
    + intros Hne. by apply G in Hne.
    + intros keys Hk env' fresh' se' gk'. by apply load_key_material_reads; apply L.
  - injection E as <- <-. by split_and!.
  - apply read_key_material_kept in E as (S & G & L); [|done]. split_and!; [..|done].
    + intros path bytes Hp. by eapply lookup_weaken.
    + done.
    + intros keys Hk env' fresh' se' gk'. by apply load_key_material_reads; apply L.
  - injection E as <- <-. by split_and!.
Qed.
End files.

(** ** Deposit keys *)
Section deposits.
Context `{EscrowPrimitives} `{StoreKeys}.

Lemma derive_info_inj a b c c' : derive_info a c = derive_info b c' -> a = b /\ c = c'.
Proof.
  unfold derive_info. intros E. apply app_inv_head in E. apply uuid_bytes_app in E as [-> E]. by injection E.
Qed.
Lemma derive_from_Ok {E} secret id counters k :
  derive_from (E := E) secret id counters = Ok k ->
  exists c, c ∈ counters /\ from_fixed_bytes (hkdf_sha256 HKDF_SALT secret (derive_info id c)) = Some k.
Proof.
  induction counters as [|c l IH]; cbn; [done|]. destruct (from_fixed_bytes _) as [k'|] eqn:Ek.
  - intros [= <-]. exists c. split; [by left|done].
  - intros Hk. destruct (IH Hk) as (c' & Hc & Ec). exists c'. split; [by right|done].
Qed.

(** Where HKDF and reading a scalar do not collide, two deposits with different ids never
    derive the same key. *)
Theorem deposits_have_their_own_keys (secret : list N) (a b : Uuid) (k : PrivateKey) :
  (forall x y, hkdf_sha256 HKDF_SALT secret x = hkdf_sha256 HKDF_SALT secret y -> x = y) ->
  (forall x y key, from_fixed_bytes x = Some key -> from_fixed_bytes y = Some key -> x = y) ->
  derive_key (E := KeyError) secret a = Ok k -> derive_key (E := KeyError) secret b = Ok k -> a = b.
Proof.
  intros Hh Hf Ha Hb. apply derive_from_Ok in Ha as (c & _ & Ha), Hb as (c' & _ & Hb).
  by destruct (derive_info_inj a b c c'); [eapply Hh, Hf|].
Qed.
End deposits.
