(* ===== verification/HubBoot.v ===== *)
(** * HubBoot: what a start of the hub reads back

    Models the second half of [main] in [hub/src/main.rs]: opening the store,
    restoring every table into a board, checking the escrow secret against it,
    turning withdrawals of earlier versions into payments for review, the
    reconciliation report, and names for the agents that have none.

    [StoreOp] is the hub's writes as data, one constructor per method of [HubStore]
    that changes what the board is restored from, with its meaning on the tables
    and on a board. *)

From S2P Require Import Prelude Types Crypto BoardTypes Board Exchange Payouts Payments Settlement Desk Sweep Reconcile Names EscrowKey Tables.

Inductive BootError : Type :=
| BootStore (e : HubStoreError)
| SecretMismatch (deposit : Uuid).

Definition from_store {A} (o : outcome HubStoreError A) : outcome BootError A :=
  match o with Ok a => Ok a | Err e => Err (BootStore e) | Panic => Panic end.

(** [TaskBoard::restore_pending_deposit] *)
Definition restore_pending_deposit (tb : TaskBoard) (d : PendingDeposit) : TaskBoard := put_deposit tb d.

Section boot.
Context `{Primitives, EscrowPrimitives} {Row : Type} {SK : StoreKeys}.
Context {C1 : Cbor Row Task} {C2 : Cbor Row Reputation} {C3 : Cbor Row PendingDeposit} {C4 : Cbor Row ExchangeAccount}
  {C5 : Cbor Row Order} {C6 : Cbor Row Trade} {C8 : Cbor Row PayoutAttempt}
  {C9 : Cbor Row WithdrawalAttempt} {C10 : Cbor Row Payment}.
Implicit Types (s : HubStore Row).

(** [validate_derived_deposit_keys] *)
Fixpoint validate_deposits (secret : list N) (l : list PendingDeposit) : outcome BootError unit :=
  match l with
  | [] => Ok tt
  | d :: l' =>
      key ← derive_key secret (pd_id d);
      ensure bool_decide (deposit_pubkey d = verifying_key key) otherwise SecretMismatch (pd_id d);
      validate_deposits secret l'
  end.
Definition validate_derived_deposit_keys (tb : TaskBoard) (secret : list N) : outcome BootError unit :=
  validate_deposits secret (base.filter (fun d => deposit_private_key d = None) (btree_values (tb_deposits tb))).

(** The tables, each restored in the order [main] reads them. *)
Definition load_board (secret : list N) s : outcome BootError TaskBoard :=
  payments ← from_store (load_all_payments s);
  let tb := foldl put_payment new_board payments in
  tasks ← from_store (load_all_tasks s);
  let tb := foldl restore_task tb tasks in
  reputation ← from_store (load_all_reputation s);
  let tb := foldl (fun tb e => restore_reputation tb e.1 e.2) tb reputation in
  grants ← from_store (load_all_faucet_grants_with_times s);
  let tb := foldl (fun tb e => restore_faucet_grant tb e.1 e.2) tb grants in
  prefixes ← from_store (load_all_faucet_grant_prefixes s);
  let tb := foldl (fun tb e => restore_faucet_grant_prefix tb e.1 e.2) tb prefixes in
  deposits ← from_store (load_all_pending_deposits s);
  let tb := foldl restore_pending_deposit tb deposits in
  _ ← validate_derived_deposit_keys tb secret;
  accounts ← from_store (load_all_exchange_accounts s);
  let tb := foldl (fun tb e => restore_exchange_account tb e.1 e.2) tb accounts in
  orders ← from_store (load_all_orders s);
  let tb := foldl restore_order tb orders in
  trades ← from_store (load_all_trades s);
  let tb := foldl restore_trade tb trades in
  attempts ← from_store (load_all_payout_attempts s);
  Ok (foldl restore_payout_attempt tb attempts).

(** ** Withdrawals of earlier versions *)
Definition legacy_payment (old : WithdrawalAttempt) : Payment :=
  mkPayment (wa_id old) (Withdrawal (wa_amount old)) (wa_source old) (wa_owner old) (wa_amount old) 1000 None
    (Some (wa_output_hash old)) (wa_spent_inputs old) (wa_submitted_at old) (wa_submitted_at old) 1 PaymentNeedsReview 0.
Fixpoint adopt_withdrawals (commits : Uuid -> bool) s (tb : TaskBoard) (l : list WithdrawalAttempt)
    : outcome BootError (HubStore Row * TaskBoard) :=
  match l with
  | [] => Ok (s, tb)
  | old :: l' =>
      match tb_payments tb !! wa_id old with
      | Some _ => adopt_withdrawals commits s tb l'
      | None =>
          let payment := legacy_payment old in
          s ← from_store (Tables.save_payment_effects (commits (wa_id old)) s payment None None None false);
          adopt_withdrawals commits s (put_payment tb payment) l'
      end
  end.

(** ** The start *)
Record BootEnv := mkBootEnv {
  opens : bool;
  adopts : Uuid -> bool;
  names_commit : bool;
  name_pool : list (string * string);
  name_rng : nat -> nat -> nat
}.
Record Booted := mkBooted {
  bt_store : HubStore Row;
  bt_board : TaskBoard;
  bt_findings : list Finding;
  bt_names : NameRegistry
}.
Definition boot (env : BootEnv) (secret : list N) s : outcome BootError Booted :=
  s ← from_store (Tables.open_or_create (opens env) s);
  tb ← load_board secret s;
  withdrawals ← from_store (load_all_withdrawal_attempts s);
  '(s, tb) ← adopt_withdrawals (adopts env) s tb withdrawals;
  let findings := reconcile tb in
  rows ← from_store (load_all_agent_names s);
  let '(names, backfilled) := backfill (name_rng env) (load_names (name_pool env) rows) (btree_iter (tb_reputation tb)).*1 in
  s ← from_store (save_agent_name_batch (names_commit env) s backfilled);
  Ok (mkBooted s tb findings names).

(** ** The hub's writes *)
Inductive StoreOp : Type :=
| SaveTask (t : Task)
| SavePendingDeposit (d : PendingDeposit)
| SaveReputationBatch (l : list (PublicKey * Reputation))
| SaveAccountBatch (l : list (PublicKey * ExchangeAccount))
| SavePayoutAttempt (a : PayoutAttempt)
| SaveFaucetGrantPrefix (pk : PublicKey) (prefix : string)
| SaveTaskAndDeposit (t : Task) (d : PendingDeposit)
| SaveAccountAndDeposit (pk : PublicKey) (a : ExchangeAccount) (d : PendingDeposit)
| SaveDepositAndReputation (d : PendingDeposit) (pk : PublicKey) (r : Reputation)
| SaveConfirmedPayout (t : Task) (recipient : PublicKey) (r : Reputation)
| SaveTaskAndDropAttempts (t : Task) (dropped : list (Uuid * PublicKey))
| SaveTaskAndReputation (t : Task) (pk : PublicKey) (r : Reputation)
| SaveTaskAndReputationBatch (t : Task) (l : list (PublicKey * Reputation))
| SaveFill (orders : list Order) (trades : list Trade) (accounts : list (PublicKey * ExchangeAccount))
| SaveOrderAndAccount (o : Order) (owner : PublicKey) (a : ExchangeAccount)
| SavePaymentEffects (p : Payment) (account : option ExchangeAccount) (deposit : option PendingDeposit)
    (rep : option Reputation) (faucet : bool)
| SaveWithdrawalAttempt (w : WithdrawalAttempt)
| SaveAgentNames (l : list (PublicKey * string)).

Definition save_op (commits : bool) (op : StoreOp) s : outcome HubStoreError (HubStore Row) :=
  match op with
  | SaveTask t => Tables.save_task commits s t
  | SavePendingDeposit d => Tables.save_pending_deposit commits s d
  | SaveReputationBatch l => save_reputation_batch commits s l
  | SaveAccountBatch l => save_exchange_account_batch commits s l
  | SavePayoutAttempt a => Tables.save_payout_attempt commits s a
  | SaveFaucetGrantPrefix pk prefix => save_faucet_grant_prefix commits s pk prefix
  | SaveTaskAndDeposit t d => Tables.save_task_and_deposit commits s t d
  | SaveAccountAndDeposit pk a d => Tables.save_exchange_account_and_deposit commits s pk a d
  | SaveDepositAndReputation d pk r => save_deposit_and_reputation commits s d pk r
  | SaveConfirmedPayout t recipient r => Tables.save_confirmed_payout commits s t recipient r None
  | SaveTaskAndDropAttempts t dropped => Tables.save_task_and_drop_payout_attempts commits s t dropped
  | SaveTaskAndReputation t pk r => Tables.save_task_and_reputation commits s t pk r
  | SaveTaskAndReputationBatch t l => Tables.save_task_and_reputation_batch commits s t l
  | SaveFill orders trades accounts => save_fill commits s orders trades accounts
  | SaveOrderAndAccount o owner a => save_order_and_account commits s o owner a
  | SavePaymentEffects p account deposit rep faucet =>
      Tables.save_payment_effects commits s p ((fun a => (p_recipient p, a)) <$> account) deposit
        ((fun r => (p_recipient p, r)) <$> rep) faucet
  | SaveWithdrawalAttempt w => save_withdrawal_attempt commits s w
  | SaveAgentNames l => save_agent_name_batch commits s l
  end.

(** What the same write does to the board that stands for the disk. *)
Definition restore_reputations (l : list (PublicKey * Reputation)) (d : TaskBoard) : TaskBoard :=
  foldl (fun d e => restore_reputation d e.1 e.2) d l.
Definition restore_accounts (l : list (PublicKey * ExchangeAccount)) (d : TaskBoard) : TaskBoard :=
  foldl (fun d e => restore_exchange_account d e.1 e.2) d l.
Definition on_board (op : StoreOp) (d : TaskBoard) : TaskBoard :=
  match op with
  | SaveTask t => Settlement.save_task true d t
  | SavePendingDeposit x => Desk.save_pending_deposit x d
  | SaveReputationBatch l => restore_reputations l d
  | SaveAccountBatch l => restore_accounts l d
  | SavePayoutAttempt a => default d (Settlement.save_payout_attempt true d a)
  | SaveFaucetGrantPrefix pk prefix => record_faucet_grant_prefix d pk prefix
  | SaveTaskAndDeposit t x => Desk.save_task_and_deposit t x d
  | SaveAccountAndDeposit pk a x => Desk.save_exchange_account_and_deposit pk a x d
  | SaveDepositAndReputation x pk r => restore_reputation (put_deposit d x) pk r
  | SaveConfirmedPayout t recipient r => default d (Settlement.save_confirmed_payout true d t recipient r)
  | SaveTaskAndDropAttempts t dropped => default d (Settlement.save_task_and_drop_payout_attempts true d t dropped)
  | SaveTaskAndReputation t pk r => Desk.save_task_and_reputation t pk r d
  | SaveTaskAndReputationBatch t l => Sweep.save_task_and_reputation_batch true d t l
  | SaveFill orders trades accounts =>
      restore_accounts accounts (foldl restore_trade (foldl restore_order d orders) trades)
  | SaveOrderAndAccount o owner a => restore_exchange_account (restore_order d o) owner a
  | SavePaymentEffects p account deposit rep faucet => apply_effects d p account deposit rep faucet
  | SaveWithdrawalAttempt _ | SaveAgentNames _ => d
  end.
Definition withdrawals_after (op : StoreOp) (m : gmap Uuid WithdrawalAttempt) : gmap Uuid WithdrawalAttempt :=
  match op with SaveWithdrawalAttempt w => <[wa_id w := w]> m | _ => m end.

(** A history: writes in order, each of which commits or leaves everything as it was. *)
Definition write_one (e : bool * StoreOp) s : HubStore Row :=
  match save_op e.1 e.2 s with Ok s' => s' | _ => s end.
Definition write_all (l : list (bool * StoreOp)) s : HubStore Row := foldl (fun s e => write_one e s) s l.
Definition disk_after (l : list (bool * StoreOp)) (d : TaskBoard) : TaskBoard :=
  foldl (fun d (e : bool * StoreOp) => if e.1 then on_board e.2 d else d) d l.
Definition owed_after (l : list (bool * StoreOp)) (m : gmap Uuid WithdrawalAttempt) : gmap Uuid WithdrawalAttempt :=
  foldl (fun m (e : bool * StoreOp) => if e.1 then withdrawals_after e.2 m else m) m l.

End boot.

(** * HubBootTheorems: a restart finds what was written

    The tables hold a board ([holds]); every write keeps that, on the tables and on
    the board alike; and a start reads that board back. *)

(** ** Key bytes are injective *)
Section keys.
Context {SK : StoreKeys}.
#[export] Instance uuid_bytes_inj : Inj (=) (=) uuid_bytes.
Proof. intros a b E. by destruct (uuid_bytes_app a b [] []) as [-> _]; [by rewrite !app_nil_r|]. Qed.
Definition attempt_row (k : Uuid * PublicKey) : list N := payout_attempt_key k.1 k.2.
#[export] Instance attempt_row_inj : Inj (=) (=) attempt_row.
Proof. intros [a x] [b y] E. by destruct (uuid_bytes_app a b x y E) as [-> ->]. Qed.
End keys.

(** ** Rows of a table *)
Section rows.
Context {Row A : Type} {C : Cbor Row A}.

Definition rows {K} `{Countable K} (f : K -> list N) (m : gmap K A) : gmap (list N) Row := kmap f (cbor <$> m).

Context {K : Type} `{Countable K} (f : K -> list N) {Hf : Inj (=) (=) f}.
Lemma rows_empty : rows f ∅ = ∅.
Proof. unfold rows. by rewrite fmap_empty, kmap_empty. Qed.
Lemma rows_insert m k a : <[f k := cbor a]> (rows f m) = rows f (<[k := a]> m).
Proof. unfold rows. by rewrite fmap_insert, (kmap_insert (M1 := gmap K) f). Qed.
Lemma rows_delete m k : delete (f k) (rows f m) = rows f (delete k m).
Proof. unfold rows. by rewrite fmap_delete, (kmap_delete (M1 := gmap K) f). Qed.

(** In the order of its bytes, a table is some order of the map's entries. *)
Lemma rows_iter m : exists l, l ≡ₚ map_to_list m /\ btree_iter (rows f m) = (fun e => (f e.1, cbor e.2)) <$> l.
Proof.
  assert (E : btree_iter (rows f m) ≡ₚ (fun e => (f e.1, cbor e.2)) <$> map_to_list m).
  { rewrite btree_iter_perm. unfold rows. rewrite (map_to_list_kmap f), map_to_list_fmap, <-list_fmap_compose.
    erewrite list_fmap_ext; [done|]. by intros ? [k a] _. }
  apply Permutation_map_inv in E as (l & El & Hl). by exists l.
Qed.
End rows.

Lemma collect_fmap {A B} (h : A -> B) (g : A -> outcome HubStoreError B) l :
  (forall a, g a = Ok (h a)) -> collect g l = Ok (h <$> l).
Proof. intros Hg. induction l as [|a l IH]; [done|]. cbn. by rewrite Hg, IH. Qed.
Lemma collect_via {A0 A B} (f : A0 -> A) (h : A0 -> B) (g : A -> outcome HubStoreError B) l :
  (forall a, g (f a) = Ok (h a)) -> collect g (f <$> l) = Ok (h <$> l).
Proof. intros Hg. induction l as [|a l IH]; [done|]. cbn. by rewrite Hg, IH. Qed.

(** Restoring one table assigns one field of the board. *)
Lemma foldl_field {B M} (get : TaskBoard -> M) (put : TaskBoard -> M -> TaskBoard) (step : M -> B -> M) :
  (forall tb, put tb (get tb) = tb) -> (forall tb x, get (put tb x) = x) -> (forall tb x y, put (put tb x) y = put tb y) ->
  forall l tb, foldl (fun tb b => put tb (step (get tb) b)) tb l = put tb (foldl step (get tb) l).
Proof.
  intros Hpg Hgp Hpp l. induction l as [|b l IH]; intros tb; cbn; [by rewrite Hpg|]. by rewrite IH, Hgp, Hpp.
Qed.

Definition keyed {K A} `{Countable K} (key : A -> K) (m : gmap K A) : Prop := forall k a, m !! k = Some a -> key a = k.
Lemma keyed_empty {K A} `{Countable K} (key : A -> K) : keyed key ∅.
Proof. intros k a Hk. by rewrite lookup_empty in Hk. Qed.
Lemma keyed_insert {K A} `{Countable K} (key : A -> K) m k a : keyed key m -> k = key a -> keyed key (<[k := a]> m).
Proof. intros Hm -> k' x [[<- <-]|[_ Hk]]%lookup_insert_Some; [done|by apply Hm]. Qed.
Lemma keyed_delete {K A} `{Countable K} (key : A -> K) m k : keyed key m -> keyed key (delete k m).
Proof. intros Hm k' a [_ Hk]%lookup_delete_Some. by apply Hm. Qed.

(** Values that carry their key rebuild their map, in any order. *)
Lemma keyed_rebuild {K A} `{Countable K} (key : A -> K) (m : gmap K A) l :
  keyed key m -> l ≡ₚ map_to_list m -> foldl (fun m a => <[key a := a]> m) ∅ l.*2 = m.
Proof.
  intros Hm Hl. etrans; [|exact (foldl_insert_perm m l Hl)]. generalize (∅ : gmap K A).
  assert (Hk : forall e, e ∈ l -> key e.2 = e.1) by (intros [k a]; rewrite Hl, elem_of_map_to_list; apply Hm).
  clear Hl. induction l as [|[k a] l IH]; intros m0; [done|]. cbn.
  assert (Ek : key a = k) by (apply (Hk (k, a)); by left). rewrite Ek. apply IH. intros e He. apply Hk. by right.
Qed.

Section fields.
Context {K A : Type} `{Countable K} (get : TaskBoard -> gmap K A) (put : TaskBoard -> gmap K A -> TaskBoard).
Hypothesis put_get : forall tb, put tb (get tb) = tb.
Hypothesis get_put : forall tb x, get (put tb x) = x.
Hypothesis put_put : forall tb x y, put (put tb x) y = put tb y.
Lemma restore_values (key : A -> K) (m : gmap K A) l tb :
  keyed key m -> l ≡ₚ map_to_list m -> get tb = ∅ ->
  foldl (fun tb a => put tb (<[key a := a]> (get tb))) tb l.*2 = put tb m.
Proof.
  intros Hm Hl E. rewrite (foldl_field get put (fun m a => <[key a := a]> m)) by done.
  rewrite E. by rewrite (keyed_rebuild key m l).
Qed.
Lemma restore_pairs (m : gmap K A) l tb :
  l ≡ₚ map_to_list m -> get tb = ∅ ->
  foldl (fun tb e => put tb (<[e.1 := e.2]> (get tb))) tb l = put tb m.
Proof.
  intros Hl E. rewrite (foldl_field get put (fun m e => <[e.1 := e.2]> m)) by done.
  rewrite E. by rewrite (foldl_insert_perm m l).
Qed.
End fields.

(** ** The tables hold a board *)
Section holding.
Context `{Primitives, EscrowPrimitives} {Row : Type} {SK : StoreKeys}.
Context {C1 : Cbor Row Task} {C2 : Cbor Row Reputation} {C3 : Cbor Row PendingDeposit} {C4 : Cbor Row ExchangeAccount}
  {C5 : Cbor Row Order} {C6 : Cbor Row Trade} {C8 : Cbor Row PayoutAttempt}
  {C9 : Cbor Row WithdrawalAttempt} {C10 : Cbor Row Payment}.
Implicit Types (s : HubStore Row) (d : TaskBoard) (w : gmap Uuid WithdrawalAttempt).

Definition attempt_key (a : PayoutAttempt) : Uuid * PublicKey := (pa_task_id a, pa_recipient a).

Record holds s d w : Prop := {
  hd_payments : records s PAYMENTS_TABLE = rows uuid_bytes (tb_payments d);
  hd_tasks : records s TASKS_TABLE = rows uuid_bytes (tb_tasks d);
  hd_reputation : records s REPUTATION_TABLE = rows id (tb_reputation d);
  hd_grants : faucet_grants_table s = tb_faucet_grants d;
  hd_prefixes : faucet_grant_prefixes_table s = tb_faucet_prefixes d;
  hd_deposits : records s PENDING_DEPOSITS_TABLE = rows uuid_bytes (tb_deposits d);
  hd_accounts : records s EXCHANGE_ACCOUNTS_TABLE = rows id (tb_accounts d);
  hd_orders : records s ORDERS_TABLE = rows uuid_bytes (tb_orders d);
  hd_trades : records s TRADES_TABLE = rows uuid_bytes (tb_trades d);
  hd_attempts : records s PAYOUT_ATTEMPTS_TABLE = rows attempt_row (tb_attempts d);
  hd_withdrawals : records s WITHDRAWAL_ATTEMPTS_TABLE = rows uuid_bytes w;
  hd_version : hub_meta_table s !! SCHEMA_VERSION_KEY = Some (be_bytes 4 Tables.SCHEMA_VERSION);
  hd_keyed : keyed p_id (tb_payments d) /\ keyed t_id (tb_tasks d) /\ keyed pd_id (tb_deposits d) /\
    keyed o_id (tb_orders d) /\ keyed tr_id (tb_trades d) /\ keyed attempt_key (tb_attempts d) /\ keyed wa_id w
}.

(** A staged row changes one table; the board follows in one field. *)
Ltac staged :=
  let Hs := fresh in intros Hs; destruct Hs; split; cbn;
  repeat match goal with E : records _ _ = _ |- _ => rewrite E; clear E end;
  try match goal with E : _ /\ _ |- _ => destruct_and! E; split_and! end;
  rewrite ?rows_insert, ?rows_delete by apply _; try (f_equal; done); eauto using keyed_insert, keyed_delete.

Lemma stage_task_holds s d w t : holds s d w -> holds (stage_task t s) (restore_task d t) w.
Proof. staged. Qed.
Lemma stage_deposit_holds s d w x : holds s d w -> holds (stage_deposit x s) (put_deposit d x) w.
Proof. staged. Qed.
Lemma stage_reputation_holds s d w e : holds s d w -> holds (stage_reputation e s) (restore_reputation d e.1 e.2) w.
Proof. destruct e as [pk r]. staged. exact (rows_insert id _ pk _). Qed.
Lemma stage_account_holds s d w e : holds s d w -> holds (stage_account e s) (restore_exchange_account d e.1 e.2) w.
Proof. destruct e as [pk a]. staged. exact (rows_insert id _ pk _). Qed.
Lemma stage_order_holds s d w o : holds s d w -> holds (stage_order_row o s) (restore_order d o) w.
Proof. staged. Qed.
Lemma stage_trade_holds s d w t : holds s d w -> holds (stage_trade t s) (restore_trade d t) w.
Proof. staged. Qed.
Lemma stage_attempt_holds s d w a : holds s d w ->
  holds (stage_record PAYOUT_ATTEMPTS_TABLE (payout_attempt_key (pa_task_id a) (pa_recipient a)) a s)
    (restore_payout_attempt d a) w.
Proof. staged. by rewrite <-(rows_insert attempt_row). Qed.
Lemma drop_attempt_holds s d w k : holds s d w -> holds (drop_attempt_row k s) (clear_payout_attempt d k.1 k.2).1 w.
Proof. destruct k as [id pk]. staged. by rewrite <-(rows_delete attempt_row). Qed.
Lemma stage_payment_holds s d w p : holds s d w ->
  holds (stage_record PAYMENTS_TABLE (uuid_bytes (p_id p)) p s) (put_payment d p) w.
Proof. staged. Qed.
Lemma stage_withdrawal_holds s d w x : holds s d w ->
  holds (stage_record WITHDRAWAL_ATTEMPTS_TABLE (uuid_bytes (wa_id x)) x s) d (<[wa_id x := x]> w).
Proof. staged. Qed.
Lemma stage_grant_holds s d w pk z : holds s d w ->
  holds (with_grants s (<[pk := z]> (faucet_grants_table s))) (restore_faucet_grant d pk z) w.
Proof. staged. Qed.
Lemma stage_prefix_holds s d w pk x : holds s d w ->
  holds (with_prefixes s (<[pk := x]> (faucet_grant_prefixes_table s))) (record_faucet_grant_prefix d pk x) w.
Proof. staged. Qed.
Lemma with_names_holds s d w m : holds s d w -> holds (with_names s m) d w.
Proof. staged. Qed.
Lemma stage_all_holds {B} (f : B -> HubStore Row -> HubStore Row) (g : TaskBoard -> B -> TaskBoard) w l :
  (forall s d b, holds s d w -> holds (f b s) (g d b) w) ->
  forall s d, holds s d w -> holds (stage_all f l s) (foldl g d l) w.
Proof. intros Hf. induction l as [|b l IH]; intros s d Hh; [done|]. by apply IH, Hf. Qed.

Lemma stage_reputation_pair s d w pk r : holds s d w -> holds (stage_reputation (pk, r) s) (restore_reputation d pk r) w.
Proof. apply (stage_reputation_holds s d w (pk, r)). Qed.
Lemma stage_account_pair s d w pk a : holds s d w -> holds (stage_account (pk, a) s) (restore_exchange_account d pk a) w.
Proof. apply (stage_account_holds s d w (pk, a)). Qed.
Lemma drop_attempt_pair s d w id pk : holds s d w -> holds (drop_attempt_row (id, pk) s) (clear_payout_attempt d id pk).1 w.
Proof. apply (drop_attempt_holds s d w (id, pk)). Qed.

Create HintDb store_rows.
#[local] Hint Resolve stage_reputation_pair stage_account_pair drop_attempt_pair stage_task_holds stage_deposit_holds stage_reputation_holds stage_account_holds
  stage_order_holds stage_trade_holds stage_attempt_holds drop_attempt_holds stage_payment_holds
  stage_withdrawal_holds stage_grant_holds stage_prefix_holds with_names_holds stage_all_holds : store_rows.

Lemma save_batch_true {B} (f : B -> HubStore Row -> HubStore Row) s l : save_batch f true s l = Ok (stage_all f l s).
Proof. by destruct l. Qed.
Lemma save_names_holds s d w l :
  holds s d w -> holds (stage_all (fun (e : PublicKey * string) s => with_names s (<[e.1 := e.2]> (agent_names_table s))) l s) d w.
Proof. revert s. induction l as [|e l IH]; intros s Hs; [done|]. by apply IH, with_names_holds. Qed.

(** A write that commits does to the board what it does to the tables. *)
Lemma save_op_holds op s d w :
  holds s d w -> exists s', save_op true op s = Ok s' /\ holds s' (on_board op d) (withdrawals_after op w).
Proof.
  intros Hh.
  destruct op; cbn -[stage_task stage_deposit stage_reputation stage_account stage_order_row stage_trade drop_attempt_row
      clear_payout_attempt];
    unfold Desk.save_pending_deposit, Desk.save_task_and_deposit, Desk.save_task_and_reputation,
      Desk.save_exchange_account_and_deposit, save_reputation_batch, save_exchange_account_batch, save_agent_name_batch, restore_reputations, restore_accounts;
    rewrite ?save_batch_true; eexists; split; try reflexivity; eauto 6 using save_names_holds with store_rows.
  - by repeat (apply stage_all_holds; [eauto with store_rows|]).
  - destruct faucet; [apply stage_grant_holds|]; destruct account, deposit, rep;
      cbn -[stage_deposit stage_reputation stage_account]; eauto 7 with store_rows.
Qed.

Lemma write_one_holds e s d w :
  holds s d w -> holds (write_one e s) (if e.1 then on_board e.2 d else d) (if e.1 then withdrawals_after e.2 w else w).
Proof.
  intros Hh. destruct e as [[] op]; unfold write_one; cbn -[save_op on_board withdrawals_after].
  - by destruct (save_op_holds op s d w Hh) as (s' & -> & Hs').
  - assert (E : save_op false op s = Ok s \/ save_op false op s = Err Redb)
      by (destruct op; cbn; auto; by destruct l; auto).
    by destruct E as [-> | ->].
Qed.

Lemma write_all_holds l : forall s d w,
  holds s d w -> holds (write_all l s) (disk_after l d) (owed_after l w).
Proof. induction l as [|e l IH]; intros s d w Hh; [done|]. by apply IH, write_one_holds. Qed.

Lemma empty_holds : holds (stamp no_file) new_board ∅.
Proof.
  split; cbn; rewrite ?rows_empty by apply _; done.
Qed.

(** ** Reading a table back *)
Lemma load_values_rows {A K} {C : Cbor Row A} `{Countable K} (f : K -> list N) `{!Inj (=) (=) f} (m : gmap K A) t s :
  records s t = rows f m -> exists l, l ≡ₚ map_to_list m /\ load_values A t s = Ok l.*2.
Proof.
  intros E. destruct (rows_iter f m) as (l & Hl & El). exists l. split; [done|].
  unfold load_values. rewrite E, El. apply collect_via. intros [k a]. cbn. by rewrite uncbor_cbor.
Qed.
Lemma load_pairs_rows {A} {C : Cbor Row A} (m : gmap PublicKey A) t s :
  records s t = rows id m -> exists l, l ≡ₚ map_to_list m /\ load_pairs A t s = Ok l.
Proof.
  intros E. destruct (rows_iter id m) as (l & Hl & El). exists l. split; [done|].
  unfold load_pairs. rewrite E, El. rewrite <-(list_fmap_id l) at 2. apply collect_via. intros [k a]. cbn.
  by rewrite from_sec1_bytes_sec1, uncbor_cbor.
Qed.
Lemma load_plain_rows {A} (m : gmap PublicKey A) : exists l, l ≡ₚ map_to_list m /\ load_plain m = Ok l.
Proof.
  exists (btree_iter m). split; [apply btree_iter_perm|]. unfold load_plain.
  rewrite <-(list_fmap_id (btree_iter m)) at 2. apply collect_fmap. intros [k a]. cbn. by rewrite from_sec1_bytes_sec1.
Qed.

(** ** The board comes back *)
Lemma validate_same tb tb' secret :
  tb_deposits tb = tb_deposits tb' -> validate_derived_deposit_keys tb secret = validate_derived_deposit_keys tb' secret.
Proof. unfold validate_derived_deposit_keys. by intros ->. Qed.

(** One table's rows, restored over a board whose field is empty. *)
Ltac restored :=
  intros; first [eapply restore_values | eapply restore_pairs]; try done; by intros [].
Lemma restored_payments m l tb : keyed p_id m -> l ≡ₚ map_to_list m -> tb_payments tb = ∅ ->
  foldl put_payment tb l.*2 = with_payments tb m.
Proof. restored. Qed.
Lemma restored_tasks m l tb : keyed t_id m -> l ≡ₚ map_to_list m -> tb_tasks tb = ∅ ->
  foldl restore_task tb l.*2 = with_tasks tb m.
Proof. restored. Qed.
Lemma restored_reputation m l tb : l ≡ₚ map_to_list m -> tb_reputation tb = ∅ ->
  foldl (fun tb e => restore_reputation tb e.1 e.2) tb l = with_reputation tb m.
Proof. restored. Qed.
Lemma restored_grants m l tb : l ≡ₚ map_to_list m -> tb_faucet_grants tb = ∅ ->
  foldl (fun tb e => restore_faucet_grant tb e.1 e.2) tb l = with_faucet_grants tb m.
Proof. restored. Qed.
Lemma restored_prefixes m l tb : l ≡ₚ map_to_list m -> tb_faucet_prefixes tb = ∅ ->
  foldl (fun tb e => restore_faucet_grant_prefix tb e.1 e.2) tb l = with_faucet_prefixes tb m.
Proof. restored. Qed.
Lemma restored_deposits m l tb : keyed pd_id m -> l ≡ₚ map_to_list m -> tb_deposits tb = ∅ ->
  foldl restore_pending_deposit tb l.*2 = with_deposits tb m.
Proof. restored. Qed.
Lemma restored_accounts m l tb : l ≡ₚ map_to_list m -> tb_accounts tb = ∅ ->
  foldl (fun tb e => restore_exchange_account tb e.1 e.2) tb l = with_accounts tb m.
Proof. restored. Qed.
Lemma restored_orders m l tb : keyed o_id m -> l ≡ₚ map_to_list m -> tb_orders tb = ∅ ->
  foldl restore_order tb l.*2 = with_orders tb m.
Proof. restored. Qed.
Lemma restored_trades m l tb : keyed tr_id m -> l ≡ₚ map_to_list m -> tb_trades tb = ∅ ->
  foldl restore_trade tb l.*2 = with_trades tb m.
Proof. restored. Qed.
Lemma restored_attempts m l tb : keyed attempt_key m -> l ≡ₚ map_to_list m -> tb_attempts tb = ∅ ->
  foldl restore_payout_attempt tb l.*2 = with_attempts tb m.
Proof. restored. Qed.

Lemma load_board_holds secret s d w :
  holds s d w -> load_board secret s = (validate_derived_deposit_keys d secret ≫= fun _ => Ok d).
Proof.
  intros [Hp Ht Hr Hg Hx Hd Ha Ho Htr Hpa _ _ (Kp & Kt & Kd & Ko & Ktr & Ka & _)]. unfold load_board.
  destruct (load_values_rows _ _ _ _ Hp) as (lp & Pp & Ep), (load_values_rows _ _ _ _ Ht) as (lt & Pt & Et),
    (load_pairs_rows _ _ _ Hr) as (lr & Pr & Er), (load_plain_rows (tb_faucet_grants d)) as (lg & Pg & Eg),
    (load_plain_rows (tb_faucet_prefixes d)) as (lx & Px & Ex), (load_values_rows _ _ _ _ Hd) as (ld & Pd & Ed),
    (load_pairs_rows _ _ _ Ha) as (la & Pa & Ea), (load_values_rows _ _ _ _ Ho) as (lo & Po & Eo),
    (load_values_rows _ _ _ _ Htr) as (ltr & Ptr & Etr), (load_values_rows _ _ _ _ Hpa) as (lpa & Ppa & Epa).
  unfold load_all_payments, load_all_tasks, load_all_reputation, load_all_faucet_grants_with_times,
    load_all_faucet_grant_prefixes, load_all_pending_deposits, load_all_exchange_accounts, load_all_orders,
    load_all_trades, load_all_payout_attempts.
  rewrite Ep, Et, Er, Hg, Eg, Hx, Ex, Ed, Ea, Eo, Etr, Epa. cbn [from_store mbind outcome_bind].
  rewrite (restored_payments _ _ _ Kp Pp), (restored_tasks _ _ _ Kt Pt), (restored_reputation _ _ _ Pr),
    (restored_grants _ _ _ Pg), (restored_prefixes _ _ _ Px), (restored_deposits _ _ _ Kd Pd) by done.
  rewrite (validate_same _ d) by done. destruct (validate_derived_deposit_keys d secret); try done. cbn.
  rewrite (restored_accounts _ _ _ Pa), (restored_orders _ _ _ Ko Po), (restored_trades _ _ _ Ktr Ptr),
    (restored_attempts _ _ _ Ka Ppa) by done.
  by destruct d.
Qed.

(** ** The escrow secret *)
Definition keys_match (secret : list N) d : Prop := forall id x,
  tb_deposits d !! id = Some x -> deposit_private_key x = None ->
  exists key, derive_key (E := BootError) secret (pd_id x) = Ok key /\ deposit_pubkey x = verifying_key key.

Lemma validate_deposits_spec secret l :
  validate_deposits secret l = Ok tt <->
  forall x, x ∈ l -> exists key, derive_key (E := BootError) secret (pd_id x) = Ok key /\ deposit_pubkey x = verifying_key key.
Proof.
  induction l as [|x l IH]; cbn -[derive_key].
  - split; [|done]. intros _ x Hx. by apply not_elem_of_nil in Hx.
  - setoid_rewrite elem_of_cons. destruct (derive_key secret (pd_id x)) as [key|e|] eqn:E; cbn -[derive_key].
    + case_bool_decide as Hk; cbn -[derive_key]; [rewrite IH|].
      * split; [|auto]. intros Hl y [->|Hy]; [by exists key|auto].
      * split; [done|]. intros Hl. destruct (Hl x) as (k & Ek & Hk'); [by left|]. congruence.
    + split; [done|]. intros Hl. destruct (Hl x) as (k & Ek & _); [by left|]. congruence.
    + split; [done|]. intros Hl. destruct (Hl x) as (k & Ek & _); [by left|]. congruence.
Qed.
Lemma validate_spec secret d : validate_derived_deposit_keys d secret = Ok tt <-> keys_match secret d.
Proof.
  unfold validate_derived_deposit_keys. rewrite validate_deposits_spec. unfold keys_match.
  setoid_rewrite list_elem_of_filter. setoid_rewrite elem_of_btree_values. naive_solver.
Qed.

(** ** Withdrawals of earlier versions *)
Definition with_legacy d (m : gmap Uuid Payment) : TaskBoard := with_payments d (tb_payments d ∪ m).
Lemma put_legacy d p : tb_payments d !! p_id p = None -> put_payment d p = with_legacy d {[p_id p := p]}.
Proof. intros Hn. unfold put_payment, with_legacy. by rewrite insert_union_singleton_r. Qed.
Lemma with_legacy_present d k p m : is_Some (tb_payments d !! k) -> with_legacy d (<[k := p]> m) = with_legacy d m.
Proof.
  intros [x Hx]. unfold with_legacy. f_equal. apply map_eq. intros j. rewrite !lookup_union.
  destruct (decide (j = k)) as [->|Hne]; [|by rewrite lookup_insert_ne]. rewrite Hx. by rewrite !union_Some_l.
Qed.
Lemma with_legacy_twice d m m' : with_legacy (with_legacy d m) m' = with_legacy d (m ∪ m').
Proof. unfold with_legacy. cbn. by rewrite (assoc_L (∪)). Qed.
Lemma with_legacy_empty d : with_legacy d ∅ = d.
Proof. unfold with_legacy. rewrite (right_id_L ∅ (∪)). by destruct d. Qed.

Lemma adopt_holds commits l : (forall id, commits id = true) -> forall s d w, holds s d w ->
  let d' := with_legacy d (list_to_map ((fun old => (wa_id old, legacy_payment old)) <$> l)) in
  exists s', adopt_withdrawals commits s d l = Ok (s', d') /\ holds s' d' w /\ agent_names_table s' = agent_names_table s.
Proof.
  intros Hc. induction l as [|old l IH]; intros s d w Hh; cbn -[Tables.save_payment_effects].
  - exists s. by rewrite with_legacy_empty.
  - destruct (tb_payments d !! wa_id old) as [p|] eqn:E.
    + rewrite with_legacy_present by done. by apply IH.
    + rewrite Hc. cbn. pose proof (stage_payment_holds s d w (legacy_payment old) Hh) as Hh'.
      destruct (IH _ _ _ Hh') as (s' & Es & Hs & Hn). rewrite put_legacy in Es, Hs by done.
      rewrite with_legacy_twice in Es, Hs. change (p_id (legacy_payment old)) with (wa_id old) in *. rewrite <-insert_union_singleton_l in Es, Hs.
      exists s'. rewrite put_legacy by done. split_and!; done.
Qed.

(** ** Names *)
Lemma assign_all_grows rng pks : forall i r pk n,
  by_pubkey r !! pk = Some n -> by_pubkey (assign_all rng i r pks).1 !! pk = Some n.
Proof.
  induction pks as [|q pks IH]; intros i r pk n Hn; [done|]. cbn.
  destruct (assign (rng i) r q) as [r1 o] eqn:E. specialize (IH (S i) r1 pk n).
  destruct (assign_all rng (S i) r1 pks) as [r2 fresh]. cbn in *. apply IH. unfold assign in E.
  destruct (by_pubkey r !! q) eqn:Eq; [by injection E as <- _|].
  destruct (draw (rng i) r); injection E as <- _; [|done]. cbn. rewrite lookup_insert_ne; [done|congruence].
Qed.

(** Every name of the pool is somebody's. *)
Definition names_full (pool : list (string * string)) (t : gmap PublicKey string) : Prop :=
  forall x y : string, (x, y) ∈ pool -> exists pk, t !! pk = Some (render x y).
(** A name that is taken is somebody's. *)
Definition taken_named (r : NameRegistry) : Prop := forall n, n ∈ taken r -> exists pk, by_pubkey r !! pk = Some n.
(** Every agent of the board has a name, or there is none left. *)
Definition all_named (pool : list (string * string)) (tb : TaskBoard) (t : gmap PublicKey string) : Prop :=
  forall pk, is_Some (tb_reputation tb !! pk) -> t !! pk = None -> names_full pool t.

Lemma load_names_rows pool t ln :
  ln ≡ₚ map_to_list t ->
  let r := load_names pool ln in
  by_pubkey r = t /\ candidates r = pool /\ taken_named r /\ (forall pk n, t !! pk = Some n -> n ∈ taken r).
Proof.
  intros Hp r. unfold r, load_names. destruct (restore_rows ln (registry_new pool)) as (Eb & Ec & Ht).
  assert (Et : by_pubkey (foldl (fun r e => restore_name r e.1 e.2) (registry_new pool) ln) = t)
    by (rewrite Eb; by apply foldl_insert_perm).
  split_and!; [done|done| |].
  - intros n Hn. apply Ht in Hn as [Hn|Hn]; [set_solver|]. rewrite Et. apply list_elem_of_fmap in Hn as ([pk m] & -> & Hin).
    exists pk. rewrite Hp in Hin. by apply elem_of_map_to_list in Hin.
  - intros pk n Hn. apply Ht. right. apply list_elem_of_fmap. exists (pk, n). split; [done|]. rewrite Hp. by apply elem_of_map_to_list.
Qed.

(** What naming agents adds to the registry is what it asks to be saved, and it
    leaves one without a name only when none is left. *)
Lemma assign_all_names rng pks : forall i r r' fresh,
  assign_all rng i r pks = (r', fresh) -> taken_named r ->
  candidates r' = candidates r /\ by_pubkey r' = foldl (fun m e => <[e.1 := e.2]> m) (by_pubkey r) fresh /\
  forall pk, pk ∈ pks -> by_pubkey r' !! pk = None -> names_full (candidates r) (by_pubkey r').
Proof.
  induction pks as [|q pks IH]; intros i r r' fresh E Ht; cbn in E.
  { injection E as <- <-. split_and!; try done. intros pk Hin. by apply not_elem_of_nil in Hin. }
  destruct (assign (rng i) r q) as [r1 o] eqn:Ea. pose proof (assign_all_grows rng pks (S i) r1) as Hg.
  destruct (assign_all rng (S i) r1 pks) as [r2 fr] eqn:Er. injection E as <- <-. cbn in Hg.
  unfold assign in Ea. destruct (by_pubkey r !! q) as [n|] eqn:Eq.
  - injection Ea as <- <-. destruct (IH _ _ _ _ Er Ht) as (Hc & Hb & Hn). split_and!; [done..|].
    intros pk [->|Hin]%elem_of_cons Hpk; [|by eapply Hn]. rewrite (Hg _ _ Eq) in Hpk. done.
  - destruct (draw (rng i) r) as [n|] eqn:Ed; injection Ea as <- <-.
    + destruct (IH _ _ _ _ Er) as (Hc & Hb & Hn).
      { intros m. cbn. rewrite elem_of_union, elem_of_singleton. intros [->|Hm]; [exists q; apply lookup_insert_eq|].
        destruct (Ht m Hm) as [pk Hpk]. exists pk. rewrite lookup_insert_ne; [done|congruence]. }
      split_and!; [done..|]. intros pk [->|Hin]%elem_of_cons Hpk; [|by eapply Hn].
      rewrite (Hg q n) in Hpk; [done|]. cbn. apply lookup_insert_eq.
    + destruct (IH _ _ _ _ Er Ht) as (Hc & Hb & Hn). split_and!; [done..|].
      intros pk [->|Hin]%elem_of_cons Hpk; [|by eapply Hn]. intros x y Hxy.
      destruct (Ht (render x y)) as [p Hp]; [by eapply draw_None|]. exists p. by apply Hg.
Qed.

(** With no name left, or nobody to name, nothing is minted. *)
Lemma assign_all_idle rng pks : forall i r,
  (forall pk, pk ∈ pks -> by_pubkey r !! pk = None) ->
  (pks = [] \/ forall x y : string, (x, y) ∈ candidates r -> render x y ∈ taken r) -> assign_all rng i r pks = (r, []).
Proof.
  induction pks as [|q pks IH]; intros i r Hn [E|Hf]; [done..|]. cbn. unfold assign. rewrite Hn by (by left).
  rewrite (proj2 (draw_None (rng i) r) Hf). rewrite IH; [done| |by right]. intros pk Hpk. apply Hn. by right.
Qed.

Lemma saved_name_table l : forall s,
  agent_names_table (stage_all (fun (e : PublicKey * string) s => with_names s (<[e.1 := e.2]> (agent_names_table s))) l s) =
  foldl (fun m e => <[e.1 := e.2]> m) (agent_names_table s) l.
Proof. induction l as [|e l IH]; intros s; [done|]. exact (IH (with_names s _)). Qed.

(** ** The start *)
Record boot_env_ok (env : BootEnv) : Prop := {
  be_opens : opens env = true;
  be_adopts : forall id, adopts env id = true;
  be_names : names_commit env = true
}.

Lemma open_holds s d w : holds s d w -> Tables.open_or_create true s = Ok s.
Proof. intros Hh. unfold Tables.open_or_create, hub_version. by rewrite (hd_version _ _ _ Hh). Qed.

Lemma legacy_payments w l :
  keyed wa_id w -> l ≡ₚ map_to_list w ->
  list_to_map ((fun old => (wa_id old, legacy_payment old)) <$> l.*2) = legacy_payment <$> w.
Proof.
  intros Hw Hl. rewrite <-list_fmap_compose, (list_fmap_ext _ (prod_map id legacy_payment)).
  - rewrite list_to_map_fmap. f_equal. rewrite <-(list_to_map_to_list w). apply list_to_map_proper; [|done].
    rewrite Hl. apply NoDup_fst_map_to_list.
  - intros i [k old] Hi. apply list_elem_of_lookup_2 in Hi. rewrite Hl, elem_of_map_to_list in Hi. cbn. by rewrite (Hw _ _ Hi).
Qed.

Lemma boot_holds env secret s d w :
  boot_env_ok env -> holds s d w -> validate_derived_deposit_keys d secret = Ok tt ->
  let d' := with_legacy d (legacy_payment <$> w) in
  exists b, boot env secret s = Ok b /\ bt_board b = d' /\ bt_findings b = reconcile d' /\ holds (bt_store b) d' w /\
    agent_names_table s ⊆ by_pubkey (bt_names b) /\ agent_names_table (bt_store b) = by_pubkey (bt_names b) /\
    all_named (name_pool env) d' (agent_names_table (bt_store b)).
Proof.
  intros Henv Hh Hv. unfold boot. rewrite (be_opens _ Henv).
  rewrite (open_holds _ _ _ Hh). cbn [from_store mbind outcome_bind].
  rewrite (load_board_holds secret s d w Hh), Hv. cbn [mbind outcome_bind].
  destruct (load_values_rows _ _ _ _ (hd_withdrawals _ _ _ Hh)) as (l & Pl & El).
  unfold load_all_withdrawal_attempts. rewrite El. cbn [from_store mbind outcome_bind].
  destruct (adopt_holds (adopts env) l.*2 (be_adopts _ Henv) s d w Hh) as (s' & Ea & Hh' & En).
  rewrite (legacy_payments w l) in Ea, Hh' by (done || apply Hh). rewrite Ea. cbn [mbind outcome_bind].
  destruct (load_plain_rows (agent_names_table s')) as (ln & Pn & Eln).
  unfold load_all_agent_names. rewrite Eln. cbn [from_store mbind outcome_bind].
  destruct (backfill _ _ _) as [names fresh] eqn:Eb. rewrite (be_names _ Henv). unfold save_agent_name_batch.
  rewrite save_batch_true. cbn [from_store mbind outcome_bind]. eexists. split; [reflexivity|]. cbn.
  destruct (load_names_rows (name_pool env) _ ln Pn) as (Hby & Hcand & Htn & _).
  unfold backfill in Eb. pose proof Eb as Hall. apply assign_all_names in Hall as (Hc & Hb & Hfull); [|done].
  rewrite Hby in Hb. rewrite Hcand in Hfull.
  assert (Htab : agent_names_table (stage_all (fun (e : PublicKey * string) s => with_names s (<[e.1 := e.2]> (agent_names_table s))) fresh s') = by_pubkey names)
    by (by rewrite saved_name_table, Hb).
  split_and!; [done..|by apply save_names_holds| |done|].
  - rewrite <-En. apply map_subseteq_spec. intros pk n Hn.
    pose proof (assign_all_grows (name_rng env) (base.filter (fun pk => get_name (load_names (name_pool env) ln) pk = None)
      (btree_iter (tb_reputation (with_legacy d (legacy_payment <$> w)))).*1) 0 (load_names (name_pool env) ln) pk n) as Hg.
    rewrite Eb in Hg. apply Hg. by rewrite Hby.
  - rewrite Htab. intros pk [rep Hrep] Hno. apply (Hfull pk); [|done]. apply list_elem_of_filter. split.
    + unfold get_name. destruct (by_pubkey (load_names (name_pool env) ln) !! pk) as [n|] eqn:E; [|done]. exfalso.
      pose proof (assign_all_grows (name_rng env) (base.filter (fun pk => get_name (load_names (name_pool env) ln) pk = None)
        (btree_iter (tb_reputation (with_legacy d (legacy_payment <$> w)))).*1) 0 _ pk n E) as Hg. rewrite Eb in Hg. cbn in Hg. congruence.
    + apply list_elem_of_fmap. exists (pk, rep). split; [done|]. by apply elem_of_btree_iter.
Qed.

(** ** A start that has nothing left to do *)
Lemma adopt_none commits l : forall s tb,
  Forall (fun old => is_Some (tb_payments tb !! wa_id old)) l -> adopt_withdrawals commits s tb l = Ok (s, tb).
Proof. induction l as [|old l IH]; intros s tb Hl; [done|]. apply Forall_cons in Hl as [[p Hp] Hl]. cbn. rewrite Hp. by apply IH. Qed.

Lemma boot_idle env secret s d w :
  opens env = true -> holds s d w -> validate_derived_deposit_keys d secret = Ok tt ->
  (forall id, is_Some (w !! id) -> is_Some (tb_payments d !! id)) -> all_named (name_pool env) d (agent_names_table s) ->
  exists b, boot env secret s = Ok b /\ bt_store b = s /\ bt_board b = d /\ bt_findings b = reconcile d /\
    by_pubkey (bt_names b) = agent_names_table s.
Proof.
  intros Hop Hh Hv Hw Hn. unfold boot. rewrite Hop, (open_holds _ _ _ Hh). cbn [from_store mbind outcome_bind].
  rewrite (load_board_holds secret s d w Hh), Hv. cbn [mbind outcome_bind].
  destruct (load_values_rows _ _ _ _ (hd_withdrawals _ _ _ Hh)) as (l & Pl & El).
  unfold load_all_withdrawal_attempts. rewrite El. cbn [from_store mbind outcome_bind]. rewrite adopt_none.
  2: { apply Forall_fmap, Forall_forall. intros [k old] Hin. rewrite Pl in Hin. apply elem_of_map_to_list in Hin. cbn.
       destruct (hd_keyed _ _ _ Hh) as (_ & _ & _ & _ & _ & _ & Hk). rewrite (Hk _ _ Hin). apply Hw. eauto. }
  cbn [mbind outcome_bind]. destruct (load_plain_rows (agent_names_table s)) as (ln & Pn & Eln).
  unfold load_all_agent_names. rewrite Eln. cbn [from_store mbind outcome_bind].
  destruct (load_names_rows (name_pool env) _ ln Pn) as (Hby & Hcand & _ & Htk).
  unfold backfill. rewrite assign_all_idle.
  - cbn. eexists. split; [reflexivity|]. by split_and!.
  - intros pk Hin. by apply list_elem_of_filter in Hin as [? _].
  - destruct (base.filter (fun pk => get_name (load_names (name_pool env) ln) pk = None) (btree_iter (tb_reputation d)).*1)
      as [|pk pks] eqn:Ep; [by left|right]. intros x y Hxy. rewrite Hcand in Hxy.
    assert (Hin : pk ∈ base.filter (fun pk => get_name (load_names (name_pool env) ln) pk = None) (btree_iter (tb_reputation d)).*1)
      by (rewrite Ep; by left).
    apply list_elem_of_filter in Hin as [Hno Hin]. apply list_elem_of_fmap in Hin as ([k rep] & -> & Hin).
    apply elem_of_btree_iter in Hin. unfold get_name in Hno. rewrite Hby in Hno.
    destruct (Hn k (mk_is_Some _ _ Hin) Hno x y Hxy) as [p Hp]. by eapply Htk.
Qed.

Lemma stamp_version s : hub_version (stamp s) = Ok (Some Tables.SCHEMA_VERSION).
Proof. unfold hub_version, stamp. cbn [hub_meta_table with_hub_meta]. by rewrite lookup_insert_eq. Qed.
Lemma open_stamped s : hub_version s = Ok (Some Tables.SCHEMA_VERSION) -> Tables.open_or_create true s = Ok s.
Proof. intros E. unfold Tables.open_or_create. by rewrite E. Qed.
Lemma hub_version_failed s :
  match hub_version s with
  | Ok _ => True
  | Err e => e = CorruptSchemaVersion /\ exists bytes, hub_meta_table s !! Tables.SCHEMA_VERSION_KEY = Some bytes /\ length bytes <> 4%nat
  | Panic => False
  end.
Proof.
  unfold hub_version. destruct (hub_meta_table s !! _) as [bytes|]; [|done].
  destruct (Nat.eqb_spec (length bytes) 4); [done|]. split; [done|by exists bytes].
Qed.

(** Opening the hub's store keeps every row and leaves it stamped with the current
    version, so that opening it again changes nothing; it fails only for a newer
    version, a corrupt stamp or a failed commit. *)
Theorem hub_store_opens_or_refuses commits s :
  match Tables.open_or_create commits s with
  | Ok s' =>
      commits = true /\ records s' = records s /\ faucet_grants_table s' = faucet_grants_table s /\
      faucet_grant_prefixes_table s' = faucet_grant_prefixes_table s /\ agent_names_table s' = agent_names_table s /\
      replay_guard_table s' = replay_guard_table s /\ hub_version s' = Ok (Some Tables.SCHEMA_VERSION) /\
      (forall found, hub_version s = Ok (Some found) -> found <= Tables.SCHEMA_VERSION) /\
      Tables.open_or_create true s' = Ok s'
  | Err (UnsupportedSchemaVersion found expected) =>
      hub_version s = Ok (Some found) /\ expected = Tables.SCHEMA_VERSION /\ expected < found
  | Err CorruptSchemaVersion =>
      exists bytes, hub_meta_table s !! Tables.SCHEMA_VERSION_KEY = Some bytes /\ length bytes <> 4%nat
  | Err e => e = Redb /\ commits = false
  | Panic => False
  end.
Proof.
  unfold Tables.open_or_create at 1. pose proof (hub_version_failed s) as Hv.
  destruct (hub_version s) as [[found|]|e|] eqn:Ev; cbn [mbind outcome_bind]; [| |by destruct Hv as [-> Hv]|done].
  - destruct (N.ltb_spec Tables.SCHEMA_VERSION found) as [Hlt|Hle]; [done|].
    destruct (N.ltb_spec found Tables.SCHEMA_VERSION) as [Hlt|Hge]; (destruct commits; [|done]).
    + split_and!; try done; [apply stamp_version|by intros ? [= <-]|apply open_stamped, stamp_version].
    + replace found with Tables.SCHEMA_VERSION in Ev by lia.
      split_and!; try done; [by intros ? [= <-]|by apply open_stamped].
  - destruct commits; [|done]. split_and!; try done; [apply stamp_version|apply open_stamped, stamp_version].
Qed.

(** C15: For a hub that opened a new store and then made any sequence of writes, each of
    which committed or failed, a start whose own writes commit (schema version,
    adopted withdrawals, backfilled names) succeeds exactly when every deposit without
    a stored key is the one the escrow secret derives; the board it restores is then
    the board those committed writes describe, with a payment for review added for
    each withdrawal of an earlier version, and saved names are kept. A second start
    with the same word lists, whatever it draws and whichever of its other writes
    would fail, comes up with the same board, report and names and leaves the store as
    it was. *)
Theorem restart_restores_the_disk env secret s0 l :
  boot_env_ok env -> Tables.open_or_create true no_file = Ok s0 ->
  let s := write_all l s0 in
  let d := disk_after l new_board in
  let d' := with_legacy d (legacy_payment <$> owed_after l ∅) in
  ((exists b, boot env secret s = Ok b) <-> keys_match secret d) /\
  forall b, boot env secret s = Ok b ->
    bt_board b = d' /\ bt_findings b = reconcile d' /\ (owed_after l ∅ = ∅ -> d' = d) /\
    (forall pk n, agent_names_table s !! pk = Some n -> get_name (bt_names b) pk = Some n) /\
    forall env', opens env' = true -> name_pool env' = name_pool env ->
      exists b', boot env' secret (bt_store b) = Ok b' /\ bt_store b' = bt_store b /\ bt_board b' = bt_board b /\
        bt_findings b' = bt_findings b /\ forall pk, get_name (bt_names b') pk = get_name (bt_names b) pk.
Proof.
  intros Henv Es0 s d d'. assert (Hh : holds s d (owed_after l ∅)).
  { apply write_all_holds. vm_compute in Es0. injection Es0 as <-. exact empty_holds. }
  assert (Hboot : forall b, boot env secret s = Ok b -> validate_derived_deposit_keys d secret = Ok tt).
  { intros b Eb. unfold boot in Eb. rewrite (be_opens _ Henv) in Eb.
    rewrite (open_holds _ _ _ Hh) in Eb. cbn [from_store mbind outcome_bind] in Eb. rewrite (load_board_holds _ _ _ _ Hh) in Eb.
    by destruct (validate_derived_deposit_keys d secret) as [[]| |]. }
  split; [split|].
  - intros [b Eb]. by eapply validate_spec, Hboot.
  - intros Hk. apply validate_spec in Hk. destruct (boot_holds env secret s d _ Henv Hh Hk) as (b & Eb & _). by exists b.
  - intros b Eb. pose proof (Hboot b Eb) as Hv.
    destruct (boot_holds env secret s d _ Henv Hh Hv) as (b1 & Eb1 & Hb & Hf & Hs & Hn & Htab & Hall).
    rewrite Eb in Eb1. injection Eb1 as <-. split_and!; [done..| | |].
    + intros Ew. unfold d'. by rewrite Ew, fmap_empty, with_legacy_empty.
    + intros pk n Hpk. by eapply lookup_weaken.
    + intros env' Hop Hpool. destruct (boot_idle env' secret (bt_store b) d' (owed_after l ∅) Hop Hs)
        as (b' & Eb' & Es & Ebd & Efs & En); [by rewrite (validate_same _ d)| |by rewrite Hpool|].
      { intros id Hid. unfold d'. cbn. apply lookup_union_is_Some. right. by rewrite lookup_fmap, fmap_is_Some. }
      exists b'. split_and!; [done|done|by rewrite Hb|by rewrite Hf|]. intros pk. unfold get_name. by rewrite En, Htab.
Qed.
End holding.

(** * ToyBoot: a concrete store, written and restarted

    A store whose rows are the records themselves; a hub that posts a task, takes a
    deposit, carries an old withdrawal, loses a write, and restarts. *)

Module ToyBoot.
Import Crypto.Toy.

Inductive Row : Type :=
| RowTask (t : Task) | RowReputation (r : Reputation) | RowDeposit (d : PendingDeposit) | RowAccount (a : ExchangeAccount)
| RowOrder (o : Order) | RowTrade (t : Trade) | RowAttempt (a : PayoutAttempt) | RowWithdrawal (w : WithdrawalAttempt)
| RowPayment (p : Payment).
#[export] Instance row_task : Cbor Row Task := {| cbor := RowTask; uncbor r := match r with RowTask t => Some t | _ => None end; uncbor_cbor a := eq_refl |}.
#[export] Instance row_reputation : Cbor Row Reputation := {| cbor := RowReputation; uncbor r := match r with RowReputation t => Some t | _ => None end; uncbor_cbor a := eq_refl |}.
#[export] Instance row_deposit : Cbor Row PendingDeposit := {| cbor := RowDeposit; uncbor r := match r with RowDeposit t => Some t | _ => None end; uncbor_cbor a := eq_refl |}.
#[export] Instance row_account : Cbor Row ExchangeAccount := {| cbor := RowAccount; uncbor r := match r with RowAccount t => Some t | _ => None end; uncbor_cbor a := eq_refl |}.
#[export] Instance row_order : Cbor Row Order := {| cbor := RowOrder; uncbor r := match r with RowOrder t => Some t | _ => None end; uncbor_cbor a := eq_refl |}.
#[export] Instance row_trade : Cbor Row Trade := {| cbor := RowTrade; uncbor r := match r with RowTrade t => Some t | _ => None end; uncbor_cbor a := eq_refl |}.
#[export] Instance row_attempt : Cbor Row PayoutAttempt := {| cbor := RowAttempt; uncbor r := match r with RowAttempt t => Some t | _ => None end; uncbor_cbor a := eq_refl |}.
#[export] Instance row_withdrawal : Cbor Row WithdrawalAttempt := {| cbor := RowWithdrawal; uncbor r := match r with RowWithdrawal t => Some t | _ => None end; uncbor_cbor a := eq_refl |}.
#[export] Instance row_payment : Cbor Row Payment := {| cbor := RowPayment; uncbor r := match r with RowPayment t => Some t | _ => None end; uncbor_cbor a := eq_refl |}.

Lemma toy_uuid_app (a b : Uuid) (x y : list N) : [a] ++ x = [b] ++ y -> a = b /\ x = y.
Proof. by intros [= -> ->]. Qed.
#[export] Instance toy_store_keys : StoreKeys := {|
  uuid_bytes a := [a]; from_sec1_bytes pk := Some pk; uuid_bytes_app := toy_uuid_app; from_sec1_bytes_sec1 pk := eq_refl |}.
#[export] Instance toy_escrow : EscrowPrimitives := {|
  hkdf_sha256 salt secret info := info; from_fixed_bytes b := Some b |}.
#[export] Instance toy_key_file : Cbor (list N) PrivateKey := {| cbor k := k; uncbor b := Some b; uncbor_cbor a := eq_refl |}.

Definition secret : list N := repeat 7 32.
Definition deposit_key (id : Uuid) : PrivateKey := match derive_key (E := KeyError) secret id with Ok k => k | _ => [] end.
Definition toy_task : Task := new_task 1 0 [9] "sum" 100 (HashMatch 7).
Definition toy_deposit : PendingDeposit :=
  mkDeposit 2 [3] (verifying_key (deposit_key 2)) None 2000 FundExchangeAccount Reserved 0 60.
Definition toy_withdrawal : WithdrawalAttempt := mkWithdrawal 5 [3] 40 77 [78] [8] 1.

Definition history : list (bool * StoreOp) :=
  [(true, SaveTask toy_task); (true, SavePendingDeposit toy_deposit);
   (true, SaveReputationBatch [([3], mkReputation 1 0 50); ([6], mkReputation 0 0 0)]); (true, SaveWithdrawalAttempt toy_withdrawal);
   (false, SaveOrderAndAccount (mkOrder 4 [3] Buy 1 1 0 OrderOpen 0) [3] (mkAccount 9 0 0 0));
   (true, SaveAgentNames [([3], "AmberOwl"%string)])].
Definition env : BootEnv := mkBootEnv true (fun _ => true) true [("swift", "owl")]%string (fun i k => (i + k)%nat).
(** The next start draws other names and could write nothing. *)
Definition env2 : BootEnv := mkBootEnv true (fun _ => false) false [("swift", "owl")]%string (fun i k => (i + 2 * k)%nat).
Definition restarted : outcome BootError Booted := boot env secret (write_all history (stamp no_file)).

Lemma restart_restores_the_disk_witness :
  exists b, restarted = Ok b /\ tb_tasks (bt_board b) !! 1 = Some toy_task /\ tb_orders (bt_board b) = ∅ /\
    tb_payments (bt_board b) !! 5 = Some (legacy_payment toy_withdrawal) /\ get_name (bt_names b) [3] = Some "AmberOwl"%string /\
    exists b', boot env2 secret (bt_store b) = Ok b' /\ bt_store b' = bt_store b /\ bt_board b' = bt_board b /\
      get_name (bt_names b') [6] = get_name (bt_names b) [6].
Proof.
  assert (Hd : tb_deposits (disk_after history new_board) = {[2 := toy_deposit]}) by reflexivity.
  destruct (restart_restores_the_disk (Row := Row) env secret (stamp no_file) history ltac:(by split) eq_refl) as [[_ Hok] Hb].
  destruct Hok as [b Eb].
  { intros id x. rewrite Hd. intros [<- <-]%lookup_singleton_Some _. by exists (deposit_key 2). }
  exists b. split; [exact Eb|]. destruct (Hb b Eb) as (E & _ & _ & Hn & H2). split_and!; rewrite ?E.
  1-3: by vm_compute.
  - apply Hn. by vm_compute.
  - destruct (H2 env2 eq_refl eq_refl) as (b' & Eb' & E1 & E2 & _ & En). exists b'. by rewrite <-E.
Defined.

Definition paths : KeyPaths := mkPaths "operator" "custody" "escrow".
Definition fresh : KeyMaterial := mkMaterial [1] [2] secret.
Definition writes : WriteEnv := mkWrites (fun _ => true) (fun _ => None) (fun _ => true).
Definition first_start : Files * outcome KeyError KeyMaterial := load_key_material writes fresh paths false true ∅.

Lemma keys_are_never_replaced_witness :
  first_start.2 = Ok fresh /\
  load_key_material writes (mkMaterial [5] [6] [7]) paths true true first_start.1 = (first_start.1, Ok fresh).
Proof.
  split; [by vm_compute|].
  pose proof (keys_are_never_replaced writes fresh paths false true ∅ eq_refl) as Hk.
  change (load_key_material writes fresh paths false true ∅) with first_start in Hk.
  destruct first_start as [files r] eqn:E. destruct Hk as (_ & _ & Hk & _). apply Hk.
  vm_compute in E. by injection E as _ <-.
Defined.

Lemma deposits_have_their_own_keys_witness : deposit_key 2 <> deposit_key 3.
Proof.
  intros E. assert (H : (2 : N) = 3); [|discriminate H].
  apply (deposits_have_their_own_keys secret 2 3 (deposit_key 2)); [done|by intros x y key [= ->] [= ->]|done|by rewrite E].
Defined.
End ToyBoot.
