(* ===== verification/Relay.v ===== *)
(** * Relay: a key's coins and spends relayed for it

    Models [GET /wallet] and [POST /wallet/send] of [hub/src/handlers.rs]: what the
    chain holds for a key, and a spend its owner signed input by input, which the hub
    checks, assembles and hands to a node. The envelope is checked by [Auth]; [pk] is
    the key it was signed with. What the node answered is an argument; a hash printed
    in hex is the hash, and the order of its hex text that of its bytes. *)

From S2P Require Import Prelude Types Crypto Transaction Spend Wire Auth BoardTypes Board Exchange Payments Wallets Settlement Desk.

Definition MAX_SEND_INPUTS : nat := 32.
Definition MAX_SEND_OUTPUTS : nat := 8.

(** [u64::saturating_add] *)
Definition saturating_add (a b : N) : N := N.min (a + b) U64_MAX.

Record WalletOutputDto := mkWalletOutput { wo_hash : Hash; wo_value : N; wo_pending : bool }.
Record WalletDto := mkWalletDto { wd_pubkey : PublicKey; wd_balance : N; wd_pending : N; wd_outputs : list WalletOutputDto }.

Record SendInput := mkSendInput { si_output : string; si_signature : string }.
Record SendOutput := mkSendOutput { so_pubkey : string; so_value : N }.
Record SendPayload := mkSend { sp_inputs : list SendInput; sp_outputs : list SendOutput }.
Record SendReceipt := mkReceipt { sr_tx_hash : Hash; sr_fee : N; sr_outputs : list (Hash * PublicKey * N) }.

Section relay.
Context `{Primitives, EnvelopeEnv}.

(** [parse_hex_pubkey], [parse_hash_field] *)
Definition parse_hex_pubkey (hex_str : string) : outcome ApiError PublicKey :=
  bytes ← ok_or (hex_decode hex_str) ApiBadRequest;
  ok_or (from_sec1_bytes bytes) ApiBadRequest.
Definition parse_hash_field (hex_str : string) : outcome ApiError Hash :=
  bytes ← ok_or (hex_decode hex_str) ApiBadRequest;
  ensure (length bytes =? 32)%nat otherwise ApiBadRequest;
  Ok (from_bytes bytes).

(** ** [get_wallet]: [wallet_dto] *)
Definition output_before (a b : WalletOutputDto) : bool :=
  (wo_value b <? wo_value a) || ((wo_value a =? wo_value b) && bytes_leb (as_bytes (wo_hash a)) (as_bytes (wo_hash b))).
Definition wallet_sum (pending : bool) (l : list WalletOutputDto) : N :=
  foldl (fun acc o => saturating_add acc (wo_value o)) 0 (base.filter (fun o => wo_pending o = pending) l).
Definition wallet_dto (pk : PublicKey) (utxos : list (bool * TransactionOutput)) : WalletDto :=
  let outputs := sort_by output_before ((fun u : bool * TransactionOutput =>
    mkWalletOutput (output_hash u.2) (value u.2) u.1) <$> utxos) in
  mkWalletDto pk (wallet_sum false outputs) (wallet_sum true outputs) outputs.
Definition get_wallet (fetched : PublicKey -> option (list (bool * TransactionOutput))) (pubkey_hex : string)
    : outcome ApiError WalletDto :=
  pk ← parse_hex_pubkey pubkey_hex;
  utxos ← ok_or (fetched pk) ApiUnavailable;
  Ok (wallet_dto pk utxos).

(** [NodeClient::fetch_utxos], of the node's reply if there was one. *)
Definition fetch_utxos (reply : option Message) : option (list (bool * TransactionOutput)) :=
  match reply with
  | Some (UTXOs utxos) => Some ((fun e : TransactionOutput * bool => (e.2, e.1)) <$> utxos)
  | _ => None
  end.

(** ** [send_coins] *)
Fixpoint parse_outputs (fresh : nat -> Uuid) (i : nat) (l : list SendOutput) : outcome ApiError (list TransactionOutput) :=
  match l with
  | [] => Ok []
  | o :: l' =>
      ensure negb (so_value o =? 0) otherwise ApiBadRequest;
      recipient ← parse_hex_pubkey (so_pubkey o);
      rest ← parse_outputs fresh (S i) l';
      Ok (mkOutput (so_value o) (fresh i) recipient :: rest)
  end.
Fixpoint parse_inputs (seen : list Hash) (l : list SendInput) : outcome ApiError (list (Hash * Signature)) :=
  match l with
  | [] => Ok []
  | i :: l' =>
      hash ← parse_hash_field (si_output i);
      ensure negb (bool_decide (hash ∈ seen)) otherwise ApiBadRequest;
      bytes ← ok_or (hex_decode (si_signature i)) ApiBadRequest;
      signature ← ok_or (signature_from_bytes bytes) ApiBadRequest;
      rest ← parse_inputs (hash :: seen) l';
      Ok ((hash, signature) :: rest)
  end.
(** The loop over the inputs: those built so far and their total. *)
Definition take_input (pk : PublicKey) (utxos : list (bool * TransactionOutput)) (outs : list TransactionOutput)
    (acc : list TransactionInput * N) (w : Hash * Signature) : outcome ApiError (list TransactionInput * N) :=
  match list_find (fun u : bool * TransactionOutput => output_hash u.2 = w.1) utxos with
  | None => Err ApiBadRequest
  | Some (_, (marked, output)) =>
      ensure negb marked otherwise ApiConflict;
      let input := mkInput w.1 w.2 in
      ensure verifies input outs pk otherwise ApiBadRequest;
      in_total ← ok_or (checked_add acc.2 (value output)) ApiBadRequest;
      Ok (acc.1 ++ [input], in_total)
  end.
Definition assemble_send (fresh : nat -> Uuid) (fetched : option (list (bool * TransactionOutput))) (pk : PublicKey)
    (payload : SendPayload) : outcome ApiError (Transaction * N) :=
  ensure negb (bool_decide (sp_inputs payload = [])) && (length (sp_inputs payload) <=? MAX_SEND_INPUTS)%nat
    otherwise ApiBadRequest;
  ensure negb (bool_decide (sp_outputs payload = [])) && (length (sp_outputs payload) <=? MAX_SEND_OUTPUTS)%nat
    otherwise ApiBadRequest;
  outs ← parse_outputs fresh 0 (sp_outputs payload);
  out_total ← ok_or (checked_sum (value <$> outs)) ApiBadRequest;
  wanted ← parse_inputs [] (sp_inputs payload);
  utxos ← ok_or fetched ApiUnavailable;
  '(ins, in_total) ← ofold (take_input pk utxos outs) ([], 0) wanted;
  ensure out_total <=? in_total otherwise ApiBadRequest;
  let fee := in_total - out_total in
  ensure HUB_TRANSACTION_FEE <=? fee otherwise ApiBadRequest;
  Ok (mkTransaction ins outs, fee).
(** What was handed to the node, and the answer; [delivered] is whether the node took it. *)
Definition send_coins (fresh : nat -> Uuid) (fetched : option (list (bool * TransactionOutput))) (delivered : bool)
    (pk : PublicKey) (payload : SendPayload) : option Transaction * outcome ApiError SendReceipt :=
  match assemble_send fresh fetched pk payload with
  | Ok (tx, fee) =>
      (Some tx,
       ensure delivered otherwise ApiUnavailable;
       Ok (mkReceipt (transaction_hash tx) fee ((fun o => (output_hash o, pubkey o, value o)) <$> outputs tx)))
  | Err e => (None, Err e)
  | Panic => (None, Panic)
  end.
End relay.

(** * RelayTheorems: a relayed spend is the owner's, and the node takes it

    What [send_coins] assembles from the node's own answer is accepted by that node's
    mempool, so the hub is never struck for it; and it pays what the caller signed. *)

From S2P Require Import Params Block Utxo Blockchain Mempool ChainSpec ChainTree ChainInv ChainStep ChainTheorems BlockStore Peers Node.

(** ** The outputs of a chain are filed under their hashes *)
Section keyed.
Context `{Primitives}.
Definition filed (u : Utxos) : Prop := forall h e, u !! h = Some e -> output_hash e.2 = h.

Lemma remove_inputs_filed hs : forall u, filed u -> filed (remove_inputs u hs).
Proof.
  induction hs as [|h hs IH]; intros u Hu; [done|]. apply IH. intros k e [_ Hk]%lookup_delete_Some. by apply Hu.
Qed.
Lemma insert_outputs_filed outs : forall u, filed u -> filed (insert_outputs u outs).
Proof.
  induction outs as [|o outs IH]; intros u Hu; [done|]. apply IH. intros k e [[<- <-]|[_ Hk]]%lookup_insert_Some; [done|by apply Hu].
Qed.
Lemma apply_transactions_filed txs : forall u, filed u -> filed (apply_transactions u txs).
Proof. induction txs as [|tx txs IH]; intros u Hu; [done|]. by apply IH, insert_outputs_filed, remove_inputs_filed. Qed.
Lemma replay_filed l : filed (replay l).
Proof.
  unfold replay. assert (Hu : filed ∅) by (intros h e; by rewrite lookup_empty). revert Hu. generalize (∅ : Utxos).
  induction l as [|b l IH]; intros u Hu; [done|]. by apply IH, apply_transactions_filed.
Qed.
Lemma same_outputs_filed u u' : same_outputs u u' -> filed u' -> filed u.
Proof.
  intros Hs Hu h e He. unfold same_outputs in Hs. assert (E : (snd <$> u') !! h = Some e.2) by (by rewrite <-Hs, lookup_fmap, He).
  rewrite lookup_fmap in E. apply fmap_Some in E as (e' & He' & ->). by apply Hu.
Qed.
End keyed.

(** ** A spend of unmarked coins is admitted *)
Section admission.
Context `{Primitives}.
Implicit Types (bc : Blockchain).

Lemma set_marks_unmarked hs h o : forall u, u !! h = Some (false, o) -> set_marks false u hs !! h = Some (false, o).
Proof.
  induction hs as [|k hs IH]; intros u Hu; [done|]. apply IH. unfold set_mark.
  destruct (decide (k = h)) as [->|Hne]; [by rewrite lookup_alter_eq, Hu|by rewrite lookup_alter_ne].
Qed.

Definition free_coin (u : Utxos) (outs : list TransactionOutput) (i : TransactionInput) (o : TransactionOutput) : Prop :=
  u !! prev_transaction_output_hash i = Some (false, o) /\ verifies i outs (pubkey o) = true.

Lemma admit_free_coins u outs ins coins : Forall2 (free_coin u outs) ins coins -> forall known,
  NoDup (prev_transaction_output_hash <$> ins) ->
  (forall h, h ∈ prev_transaction_output_hash <$> ins -> h ∉ known) ->
  exists known', ofold (admit_input u outs) known ins = Ok known'.
Proof.
  induction 1 as [|i o ins coins [Hu Hv] _ IH]; intros known Hnd Hk; cbn [ofold]; [by exists known|].
  rewrite fmap_cons in Hnd, Hk. apply NoDup_cons in Hnd as [Hi Hnd]. assert (E : admit_input u outs known i = Ok ({[prev_transaction_output_hash i]} ∪ known)).
  { unfold admit_input. rewrite Hu, Hv, decide_False; [done|]. apply Hk. by left. }
  rewrite E. cbn [mbind outcome_bind]. apply IH; [done|]. intros h Hh.
  apply not_elem_of_union. split; [apply not_elem_of_singleton; by intros ->|]. apply Hk. by right.
Qed.

Lemma fee_free_coins u outs ins coins : Forall2 (free_coin u outs) ins coins -> forall acc,
  acc + sumN (value <$> coins) <= U64_MAX ->
  ofold (E := BtcError) (fun acc i => e ← expect (u !! prev_transaction_output_hash i);
      ok_or (checked_add acc (value (e : bool * TransactionOutput).2)) InvalidTransaction) acc ins
  = Ok (acc + sumN (value <$> coins)).
Proof.
  induction 1 as [|i o ins coins [Hu Hv] _ IH]; intros acc Hle; cbn [ofold fmap list_fmap].
  - cbn. by rewrite N.add_0_r.
  - rewrite fmap_cons, sumN_cons in *. rewrite Hu. cbn [expect mbind outcome_bind]. unfold checked_add.
    rewrite (proj2 (N.leb_le _ _)) by (cbn; lia). cbn. rewrite IH by lia. f_equal. lia.
Qed.

Lemma input_total_free_coins u tx coins :
  Forall2 (free_coin u (outputs tx)) (inputs tx) coins -> input_total u tx = sumN (value <$> coins).
Proof.
  unfold input_total, spends. induction 1 as [|i o ins coins [Hu Hv] _ IH]; [done|]. rewrite !fmap_cons, !sumN_cons, IH.
  f_equal. unfold spent_value, spent_output. by rewrite Hu.
Qed.

Lemma conflicts_free_coins new_fee bc outs ins coins :
  Forall2 (free_coin (bc_utxos bc) outs) ins coins ->
  foldl (conflict_step new_fee) (bc, Ok ∅) ins = (bc, Ok ∅).
Proof. induction 1 as [|i o ins coins [Hu Hv] _ IH]; [done|]. cbn [foldl]. assert (E : conflict_step new_fee (bc, Ok ∅) i = (bc, Ok ∅)) by (unfold conflict_step; by rewrite Hu). by rewrite E. Qed.

Lemma free_coins_is_admitted now bc tx coins :
  mempool_ok bc -> NoDup (spends tx) -> Forall2 (free_coin (bc_utxos bc) (outputs tx)) (inputs tx) coins ->
  sumN (value <$> coins) <= U64_MAX -> output_total tx <= sumN (value <$> coins) ->
  exists bc', add_to_mempool now bc tx = (bc', Ok tt) /\ admitted now bc bc' tx.
Proof.
  intros Hok Hnd Hsp Hin Hout.
  assert (Hsp0 : Forall2 (free_coin (bc_utxos (cleanup_mempool now bc)) (outputs tx)) (inputs tx) coins).
  { eapply Forall2_impl; [exact Hsp|]. intros i o [Hu Hv]. split; [by apply set_marks_unmarked|done]. }
  pose proof (add_to_mempool_spec now bc tx) as Hspec.
  destruct (add_to_mempool now bc tx) as [bc' r] eqn:E. specialize (Hspec bc' r Hok eq_refl) as (_ & _ & Hp & Had).
  cut (r = Ok tt); [intros ->; exists bc'; split; [done|by apply Had]|]. revert E. unfold add_to_mempool.
  destruct (admit_free_coins _ _ _ _ Hsp0 ∅) as [known ->]; [done|set_solver|].
  assert (Hfee : transaction_fee (bc_utxos (cleanup_mempool now bc)) tx = Ok (sumN (value <$> coins) - output_total tx)).
  { unfold transaction_fee. rewrite (fee_free_coins _ _ _ _ Hsp0) by lia. cbn [mbind outcome_bind].
    rewrite checked_sum_spec, (proj2 (N.leb_le _ _)) by (unfold output_total in *; lia). fold (output_total tx).
    cbn [ok_or mbind outcome_bind]. rewrite (proj2 (N.ltb_ge _ _)) by lia. done. }
  rewrite Hfee, (conflicts_free_coins _ _ _ _ _ Hsp0). change (evict_indices (cleanup_mempool now bc) ∅) with (cleanup_mempool now bc).
  unfold conserves. rewrite Hfee. cbn [mbind outcome_bind].
  destruct (sort_mempool _) as [bc5|e|] eqn:Es; intros [= <- <-]; [done|by apply sort_mempool_no_err in Es|done].
Qed.
End admission.

(** ** What is assembled *)
Section assembling.
Context `{Primitives, EnvelopeEnv}.

(** The outputs are the payload's, in order. *)
Definition pays_as_asked (o : SendOutput) (out : TransactionOutput) : Prop :=
  value out = so_value o /\ parse_hex_pubkey (so_pubkey o) = Ok (pubkey out).
Lemma parse_outputs_Ok fresh l : forall i outs, parse_outputs fresh i l = Ok outs -> Forall2 pays_as_asked l outs.
Proof.
  induction l as [|o l IH]; intros i outs E; cbn -[parse_hex_pubkey] in E; [injection E as <-; constructor|].
  inv_ok. subst outs. constructor; [by split|by eapply IH].
Qed.

Lemma parse_inputs_Ok l : forall seen ws,
  parse_inputs seen l = Ok ws -> NoDup ws.*1 /\ forall h, h ∈ ws.*1 -> h ∉ seen.
Proof.
  induction l as [|i l IH]; intros seen ws E; cbn -[parse_hash_field] in E.
  - injection E as <-. split; [constructor|]. intros h Hh. by apply not_elem_of_nil in Hh.
  - inv_ok. subst ws. apply IH in Hr3 as [Hnd Hs]. rewrite fmap_cons. apply negb_true_iff, bool_decide_eq_false in Hr0. split.
    + apply NoDup_cons. split; [|done]. intros Hin. apply Hs in Hin. by apply Hin; left.
    + intros h [->|Hh]%elem_of_cons; [done|]. intros Hin. apply Hs in Hh. by apply Hh; right.
Qed.

Definition own_coin (pk : PublicKey) (utxos : list (bool * TransactionOutput)) (outs : list TransactionOutput)
    (w : Hash * Signature) (o : TransactionOutput) : Prop :=
  (false, o) ∈ utxos /\ output_hash o = w.1 /\ verifies (mkInput w.1 w.2) outs pk = true.

Lemma take_input_Ok pk utxos outs acc w ins t :
  take_input pk utxos outs acc w = Ok (ins, t) ->
  exists o, own_coin pk utxos outs w o /\ ins = acc.1 ++ [mkInput w.1 w.2] /\ t = acc.2 + value o /\ t <= U64_MAX.
Proof.
  unfold take_input. destruct (list_find _ utxos) as [[k [marked o]]|] eqn:Ef; [|done]. intros E. inv_ok. injection E as <- <-.
  apply list_find_Some in Ef as (Hk & Hh & _). cbn in Hh. destruct marked; [done|]. apply checked_add_Some in Hr1 as [-> Hle].
  exists o. split; [|by split_and!]. split_and!; [by eapply list_elem_of_lookup_2|done..].
Qed.
Lemma take_inputs_Ok pk utxos outs ws : forall acc ins t,
  ofold (take_input pk utxos outs) acc ws = Ok (ins, t) -> acc.2 <= U64_MAX ->
  exists coins, Forall2 (own_coin pk utxos outs) ws coins /\
    ins = acc.1 ++ ((fun w => mkInput w.1 w.2) <$> ws) /\ t = acc.2 + sumN (value <$> coins) /\ t <= U64_MAX.
Proof.
  induction ws as [|w ws IH]; intros acc ins t E Ha; cbn [ofold] in E.
  - injection E as ->. exists []. rewrite fmap_nil, app_nil_r. cbn. split_and!; [constructor|done|lia|done].
  - inv_ok. destruct r as [ins1 t1]. apply take_input_Ok in Hr as (o & Ho & -> & -> & Hle).
    destruct (IH _ _ _ E Hle) as (coins & Hc & -> & -> & Ht). exists (o :: coins). cbn [fst snd] in *.
    rewrite !fmap_cons, sumN_cons. split_and!; [by constructor|by rewrite <-app_assoc|lia|lia].
Qed.

Lemma assemble_send_Ok fresh utxos pk payload tx fee :
  assemble_send fresh (Some utxos) pk payload = Ok (tx, fee) ->
  exists ws coins, Forall2 (own_coin pk utxos (outputs tx)) ws coins /\ inputs tx = (fun w => mkInput w.1 w.2) <$> ws /\
    NoDup (spends tx) /\ Forall2 pays_as_asked (sp_outputs payload) (outputs tx) /\
    sumN (value <$> coins) <= U64_MAX /\ fee + output_total tx = sumN (value <$> coins) /\ HUB_TRANSACTION_FEE <= fee.
Proof.
  unfold assemble_send. intros E. inv_ok. destruct r5 as [ins t]. injection Hr4 as <-. inv_ok. injection E as <- <-.
  apply parse_outputs_Ok in Hr1. apply parse_inputs_Ok in Hr3 as [Hnd _].
  apply checked_sum_Some in Hr2 as [-> _]. apply take_inputs_Ok in Hr5 as (coins & Hc & -> & -> & Hle); [|done].
  apply N.leb_le in Hr4, Hr6. exists r3, coins. cbn [inputs outputs fst snd] in *. rewrite N.add_0_l in *.
  split_and!; try done.
  - unfold spends. cbn. rewrite <-list_fmap_compose. exact Hnd.
  - change (output_total _) with (sumN (value <$> r1)). lia.
Qed.
End assembling.

(** ** The composition *)
Section relayed.
Context `{CE : ChainEnv} {CL : ChainEnvLaws CE} {BC : BlockCodec} {EE : EnvelopeEnv}.
Context (U : Block -> Prop) (HU : collision_free U).
Context (iter : Utxos -> list (Hash * (bool * TransactionOutput))).
Hypothesis iter_perm : forall u, iter u ≡ₚ map_to_list u.

Lemma reachable_filed bc : reachable U bc -> filed (bc_utxos bc).
Proof.
  intros Hr. destruct (ci_follows U bc (reachable_inv U HU bc Hr)) as [a Ha].
  eapply same_outputs_filed; [apply Ha|apply replay_filed].
Qed.

Lemma fetched_coin env now id nodes n pk reply utxos m o :
  filed (bc_utxos (nd_chain n)) -> (handle_message env now id iter nodes n (FetchUTXOs pk)).2 = Ok (Answer reply) ->
  fetch_utxos (Some reply) = Some utxos -> (m, o) ∈ utxos ->
  bc_utxos (nd_chain n) !! output_hash o = Some (m, o) /\ pubkey o = pk.
Proof.
  intros Hf [= <-] [= <-] Hin. rewrite <-list_fmap_compose in Hin. apply list_elem_of_fmap in Hin as ([h [m' o']] & [= -> ->] & Hin).
  apply list_elem_of_filter in Hin as [Hpk Hin]. rewrite iter_perm, elem_of_map_to_list in Hin.
  split; [|done]. pose proof (Hf _ _ Hin) as E. cbn in E. by rewrite E.
Qed.

(** No block or transaction the node took in between touched the coins [tx] spends. *)
Definition untouched_since (tx : Transaction) (n later : Node) : Prop :=
  forall i, i ∈ inputs tx ->
    bc_utxos (nd_chain later) !! prev_transaction_output_hash i = bc_utxos (nd_chain n) !! prev_transaction_output_hash i.
Lemma still_free n later tx coins :
  untouched_since tx n later -> Forall2 (free_coin (bc_utxos (nd_chain n)) (outputs tx)) (inputs tx) coins ->
  Forall2 (free_coin (bc_utxos (nd_chain later)) (outputs tx)) (inputs tx) coins.
Proof.
  unfold untouched_since. intros Hs Hc. induction Hc as [|i o l coins [Hu Hv] _ IH]; [constructor|]. constructor.
  - split; [|done]. rewrite Hs by (by left). done.
  - apply IH. intros j Hj. apply Hs. by right.
Qed.

(** C35: Whatever a request to relay a spend says, a transaction the hub hands on spends
    only coins of the signing key that nothing else spent when the node listed them,
    each signed for exactly the outputs the request asked for, and leaves at least the
    network fee; and the node, in whatever state and at whatever clock the transaction
    reaches it, admits it to its mempool and does not strike the hub, provided no
    block or transaction it took since it listed the coins has spent or marked one of
    them. *)
Theorem relayed_spend_is_admitted env now id nodes n fresh pk payload reply delivered tx r :
  reachable U (nd_chain n) ->
  (handle_message env now id iter nodes n (FetchUTXOs pk)).2 = Ok (Answer reply) ->
  send_coins fresh (fetch_utxos (Some reply)) delivered pk payload = (Some tx, r) ->
  Forall2 pays_as_asked (sp_outputs payload) (outputs tx) /\
  (forall i, i ∈ inputs tx -> exists o, bc_utxos (nd_chain n) !! prev_transaction_output_hash i = Some (false, o) /\
     pubkey o = pk /\ verifies i (outputs tx) pk = true) /\
  output_total tx + HUB_TRANSACTION_FEE <= input_total (bc_utxos (nd_chain n)) tx /\
  forall env' now' id' nodes' later, reachable U (nd_chain later) -> untouched_since tx n later ->
  exists n', handle_message env' now' id' iter nodes' later (SubmitTransaction tx) = (n', Ok (Continue (Some (NewTransaction tx)))) /\
             (now', tx) ∈ bc_mempool (nd_chain n').
Proof.
  intros Hr Hreply Hs. pose proof (reachable_filed _ Hr) as Hf.
  destruct (fetch_utxos (Some reply)) as [utxos|] eqn:Eu; [|by injection Hreply as <-].
  assert (exists fee, assemble_send fresh (Some utxos) pk payload = Ok (tx, fee)) as [fee Ea].
  { unfold send_coins in Hs. destruct (assemble_send _ _ _ _) as [[tx' fee]| |]; [|done..]. injection Hs as <- _. eauto. }
  apply assemble_send_Ok in Ea as (ws & coins & Hc & Ei & Hnd & Ho & Hle & Hfee & Hmin).
  assert (Hsp : Forall2 (fun i o => free_coin (bc_utxos (nd_chain n)) (outputs tx) i o /\ pubkey o = pk) (inputs tx) coins).
  { rewrite Ei. apply Forall2_fmap_l. eapply Forall2_impl; [exact Hc|]. intros w o (Hin & Hh & Hv).
    destruct (fetched_coin env now id nodes n pk reply utxos false o Hf Hreply Eu Hin) as [Hu Hp].
    rewrite Hh in Hu. split; [|done]. split; [done|]. by rewrite Hp. }
  assert (Hsp1 : Forall2 (free_coin (bc_utxos (nd_chain n)) (outputs tx)) (inputs tx) coins)
    by (eapply Forall2_impl; [exact Hsp|]; by intros i o [? _]).
  split_and!; [done| |rewrite (input_total_free_coins _ _ _ Hsp1); lia|].
  - intros i Hi. apply list_elem_of_lookup in Hi as [k Hk]. destruct (Forall2_lookup_l _ _ _ _ _ Hsp Hk) as (o & _ & [Hu Hv] & Hp).
    exists o. rewrite <-Hp at 2. done.
  - intros env' now' id' nodes' later Hr' Hsame.
    destruct (free_coins_is_admitted now' (nd_chain later) tx coins) as (bc' & Em & Had); try done; [| |lia|].
    + apply (ci_mempool U), (reachable_inv U HU), Hr'.
    + by apply (still_free n).
    + exists (mkNode bc' (nd_store later)). cbn. rewrite Em. split; [done|]. apply Had.
Qed.
End relayed.

(** ** The wallet view *)
Section view.
Context `{Primitives}.

Lemma saturating_sum (l : list WalletOutputDto) : forall acc, acc <= U64_MAX ->
  foldl (fun acc o => saturating_add acc (wo_value o)) acc l = N.min (acc + sumN (wo_value <$> l)) U64_MAX.
Proof.
  induction l as [|o l IH]; intros acc Ha; cbn [foldl]; [cbn; lia|].
  rewrite IH by (unfold saturating_add; lia). rewrite fmap_cons, sumN_cons. unfold saturating_add. lia.
Qed.
Lemma output_before_total a b : output_before a b = false -> output_before b a = true.
Proof.
  unfold output_before. rewrite orb_true_iff, orb_false_iff, andb_true_iff, andb_false_iff, N.ltb_lt, N.ltb_ge, N.eqb_eq, N.eqb_neq.
  intros [Hle Hor]. destruct (decide (wo_value a < wo_value b)) as [|Hge]; [by left|right]. split; [lia|].
  destruct Hor as [Hne|Hf]; [lia|].
  by destruct (key_total (K := PublicKey) (as_bytes (wo_hash a)) (as_bytes (wo_hash b))) as [Ht|Ht];
    unfold key_leb, pubkey_key in Ht; [rewrite Ht in Hf|].
Qed.
Lemma output_before_trans a b c : output_before a b = true -> output_before b c = true -> output_before a c = true.
Proof.
  unfold output_before. rewrite !orb_true_iff, !andb_true_iff, !N.ltb_lt, !N.eqb_eq.
  intros [H1|[E1 H1]] [H2|[E2 H2]]; [left; lia..|]. right. split; [congruence|].
  exact (key_trans (K := PublicKey) _ _ _ H1 H2).
Qed.

(** The wallet view lists every coin the node reported, once, largest first and then by
    hash, and its balance and pending figures are the sums of the unmarked and the
    marked ones, saturating at the largest u64. *)
Theorem wallet_reports_every_coin pk utxos :
  let w := wallet_dto pk utxos in
  wd_outputs w ≡ₚ (fun u : bool * TransactionOutput => mkWalletOutput (output_hash u.2) (value u.2) u.1) <$> utxos /\
  StronglySorted (fun a b => output_before a b = true) (wd_outputs w) /\
  wd_balance w = N.min (sumN (wo_value <$> base.filter (fun o => wo_pending o = false) (wd_outputs w))) U64_MAX /\
  wd_pending w = N.min (sumN (wo_value <$> base.filter (fun o => wo_pending o = true) (wd_outputs w))) U64_MAX.
Proof.
  cbn -[saturating_add]. unfold wallet_sum. rewrite !saturating_sum by done. split_and!; [apply sort_by_perm| |done..].
  apply sort_by_sorted; [apply output_before_total|apply output_before_trans].
Qed.
End view.

(** * ToyRelay: a spend relayed to a concrete node *)

From Stdlib Require Import Ascii String.
From S2P Require Import ToyChain ConsensusTheorems ToyNode.

Module ToyRelay.
Import Crypto.Toy.

#[export] Instance toy_envelope : EnvelopeEnv := {
  hex_decode s := Some (N_of_ascii <$> list_ascii_of_string s);
  from_sec1_bytes b := Some b;
  signature_from_bytes b := Some b;
  to_rfc3339 t := EmptyString;
  string_bytes s := N_of_ascii <$> list_ascii_of_string s
}.
Definition text (bytes : list N) : string := string_of_list_ascii (ascii_of_N <$> bytes).

Definition node2 : Node := mkNode chain2 (mkStore ∅ ∅ None).
Definition send_to : SendPayload :=
  mkSend [mkSendInput (text (as_bytes (output_hash coin_a)))
            (text (signature (signed (output_hash coin_a) [mkOutput 4000000000 0 [3]] [1])))]
         [mkSendOutput (text [3]) 4000000000].
Definition reply_of (r : Node * outcome BtcError Reaction) : Message :=
  match r.2 with Ok (Answer m) => m | _ => DiscoverNodes end.
Definition persists : PersistEnv := mkPersist true true true.
Definition reply : Message := reply_of (handle_message persists (seconds 100) 7 map_to_list [] node2 (FetchUTXOs [1])).

(** Between the two questions the node has buffered a block that extends another branch. *)
Definition node3 : Node := mkNode chain3 (mkStore ∅ ∅ None).
Lemma chain3_reachable : reachable in_play chain3.
Proof.
  unfold reachable. transitivity chain2; [apply chain2_reachable|]. apply rtc_once. rewrite <-chain3_eq. by apply run_step, in_play_all.
Qed.

Lemma relayed_spend_is_admitted_witness :
  exists tx n', (send_coins (fun i => N.of_nat i) (fetch_utxos (Some reply)) true [1] send_to).1 = Some tx /\
    handle_message persists (seconds 105) 8 map_to_list [] node3 (SubmitTransaction tx)
      = (n', Ok (Continue (Some (NewTransaction tx)))).
Proof.
  destruct (send_coins (fun i => N.of_nat i) (fetch_utxos (Some reply)) true [1] send_to) as [o r] eqn:E.
  destruct o as [tx|]; [|exfalso; vm_compute in E; discriminate E].
  destruct (relayed_spend_is_admitted in_play in_play_collision_free map_to_list (fun u => reflexivity _)
    persists (seconds 100) 7 [] node2 (fun i => N.of_nat i) [1] send_to reply true tx r chain2_reachable) as (_ & _ & _ & Hadm).
  - vm_compute. reflexivity.
  - exact E.
  - destruct (Hadm persists (seconds 105) 8 [] node3) as (n' & Hn & _).
    + exact chain3_reachable.
    + intros i _. assert (Hu : bc_utxos chain3 = bc_utxos chain2) by (vm_compute; reflexivity). cbn [nd_chain node2 node3]. by rewrite Hu.
    + exists tx, n'. split; [reflexivity|exact Hn].
Defined.
End ToyRelay.
