(* ===== verification/Views.v ===== *)
(** * Views: listings and the leaderboard

    Models the read routes of [hub/src/handlers.rs]: [list_tasks], [get_task],
    [get_payment], [list_payments], [list_trades], [leaderboard] and [lookup_names].
    They answer from a board and change nothing but the names [ensure_named] hands
    out, which is modelled in [Names].

    A record that is printed into a DTO is the record itself; a key and its hex text
    have the same order. Trimming and lower case follow Unicode and are the class
    [TextForm]. *)

From S2P Require Import Prelude Types Crypto Transaction Spend Auth BoardTypes Exchange Tasks Board Payouts Payments Wallets Settlement Desk Faucet Names Relay.

Class TextForm := { str_trim : string -> string; to_lowercase : string -> string }.

(** [str::contains] *)
Fixpoint contains (needle hay : string) : bool :=
  String.prefix needle hay || match hay with EmptyString => false | String _ hay' => contains needle hay' end.

(** [skip(offset).take(limit)] *)
Definition page {A} (offset limit : nat) (l : list A) : list A := take limit (drop offset l).

(** ** Listings *)
Definition DEFAULT_TASKS_PAGE_SIZE : nat := 50.
Definition MAX_TASKS_PAGE_SIZE : nat := 200.
Definition DEFAULT_TRADES_PAGE_SIZE : nat := 50.
Definition MAX_TRADES_PAGE_SIZE : nat := 200.

Inductive StatusFilter : Type := AnyStatus | OnlyStatus (s : TaskStatus).
Record ListTasksQuery := mkListTasks {
  lq_offset : nat;
  lq_limit : option nat;
  lq_capability : option string;
  lq_status : option string
}.

Section listings.
Context `{Primitives, EnvelopeEnv, TextForm}.

Definition parse_status_filter (raw : string) : outcome ApiError StatusFilter :=
  let normalized := to_lowercase (str_trim raw) in
  if String.eqb normalized "all" then Ok AnyStatus
  else if String.eqb normalized "open" then Ok (OnlyStatus Open)
  else if String.eqb normalized "claimed" then Ok (OnlyStatus Claimed)
  else if String.eqb normalized "awaitingdispute" then Ok (OnlyStatus AwaitingDispute)
  else if String.eqb normalized "disputed" then Ok (OnlyStatus Disputed)
  else if String.eqb normalized "awaitingpick" then Ok (OnlyStatus AwaitingPick)
  else if String.eqb normalized "verified" then Ok (OnlyStatus Verified)
  else if String.eqb normalized "submitted" then Ok (OnlyStatus Submitted)
  else if String.eqb normalized "paid" then Ok (OnlyStatus Paid)
  else if String.eqb normalized "payoutfailed" then Ok (OnlyStatus PayoutFailed)
  else if String.eqb normalized "closed" then Ok (OnlyStatus Closed)
  else Err ApiBadRequest.

Definition carries (capability : option string) (t : Task) : bool :=
  match capability with Some tag => bool_decide (tag ∈ capabilities t) | None => true end.
(** The matching tasks, oldest first, and their page. *)
Definition matched_tasks (q : ListTasksQuery) (tb : TaskBoard) : outcome ApiError (list Task) :=
  filter ← (match lq_status q with None => Ok None | Some raw => f ← parse_status_filter raw; Ok (Some f) end);
  let tasks := match filter with
    | None | Some (OnlyStatus Open) => list_open_tasks tb
    | Some AnyStatus => btree_values (tb_tasks tb)
    | Some (OnlyStatus s) => base.filter (fun t => status t = s) (btree_values (tb_tasks tb))
    end in
  let tasks := sort_by (fun a b => (t_created_at a <=? t_created_at b)%Z) tasks in
  let capability_filter := (fun c => to_lowercase (str_trim c)) <$> lq_capability q in
  Ok (base.filter (fun t => carries capability_filter t = true) tasks).
Definition list_tasks (q : ListTasksQuery) (tb : TaskBoard) : outcome ApiError (nat * list Task) :=
  let limit := Nat.min (default DEFAULT_TASKS_PAGE_SIZE (lq_limit q)) MAX_TASKS_PAGE_SIZE in
  matched ← matched_tasks q tb;
  Ok (length matched, page (lq_offset q) limit matched).
Definition get_task (tb : TaskBoard) (id : Uuid) : outcome ApiError Task := ok_or (tb_tasks tb !! id) ApiNotFound.

Definition get_payment (tb : TaskBoard) (id : Uuid) : outcome ApiError Payment := ok_or (tb_payments tb !! id) ApiNotFound.
Definition newer_payment (a b : Payment) : bool :=
  (p_created_at b <? p_created_at a)%Z || ((p_created_at a =? p_created_at b)%Z && (p_id a <=? p_id b)).
Definition list_payments (recipient : string) (offset : nat) (limit : option nat) (tb : TaskBoard)
    : outcome ApiError (list Payment) :=
  pk ← parse_hex_pubkey recipient;
  let found := base.filter (fun p => p_recipient p = pk) (btree_values (tb_payments tb)) in
  Ok (page offset (Nat.min (default 50%nat limit) 200) (sort_by newer_payment found)).

Definition all_trades_newest_first (tb : TaskBoard) : list Trade :=
  sort_by (fun a b => (executed_at b <=? executed_at a)%Z) (btree_values (tb_trades tb)).
Definition list_trades (offset : nat) (limit : option nat) (tb : TaskBoard) : list Trade :=
  page offset (Nat.min (default DEFAULT_TRADES_PAGE_SIZE limit) MAX_TRADES_PAGE_SIZE) (all_trades_newest_first tb).

(** ** The leaderboard *)
Definition DEFAULT_LEADERBOARD_PAGE_SIZE : nat := 50.
Definition MAX_LEADERBOARD_PAGE_SIZE : nat := 50.
Inductive LeaderboardSort : Type := ByEarned | ByCompleted | ByFailed | ByNetWorth.
#[export] Instance LeaderboardSort_eq_dec : EqDecision LeaderboardSort.
Proof. solve_decision. Defined.
Record LeaderboardQuery := mkLeaderboardQuery {
  lb_offset : option nat;
  lb_limit : option nat;
  lb_q : option string;
  lb_sort : option string;
  lb_dir : option string
}.
Definition sort_parse (raw : option string) : LeaderboardSort :=
  match str_trim <$> raw with
  | Some s => if String.eqb s "completed" then ByCompleted
              else if String.eqb s "failed" then ByFailed
              else if String.eqb s "net_worth" then ByNetWorth
              else ByEarned
  | None => ByEarned
  end.
Definition sort_key (s : LeaderboardSort) (r : Reputation) : option N :=
  match s with
  | ByEarned => Some (total_earned r)
  | ByCompleted => Some (completed r)
  | ByFailed => Some (failed r)
  | ByNetWorth => None
  end.
Definition compare_for_ranking (left right : option N) (ascending : bool) : comparison :=
  match left, right with
  | Some l, Some r => if ascending then (l ?= r) else (r ?= l)
  | Some _, None => Lt
  | None, Some _ => Gt
  | None, None => Eq
  end.
Definition agent_matches (needle pubkey_hex : string) (name : option string) : bool :=
  contains needle (to_lowercase pubkey_hex)
  || match name with Some n => contains needle (to_lowercase n) | None => false end.

(** The comparator of the ranking, as the test [sort_by] makes: not after. [sweep] is the net
    worths of the field when it is ranked by them. *)
Definition figure (sort : LeaderboardSort) (sweep : option (gmap PublicKey N)) (e : PublicKey * Reputation) : option N :=
  match sweep with Some snapshot => snapshot !! e.1 | None => sort_key sort e.2 end.
Definition ranks_before (sort : LeaderboardSort) (sweep : option (gmap PublicKey N)) (ascending : bool)
    (a b : PublicKey * Reputation) : bool :=
  match compare_for_ranking (figure sort sweep a) (figure sort sweep b) ascending with
  | Lt => true
  | Gt => false
  | Eq => bytes_leb a.1 b.1
  end.
(** The whole field: [board.leaderboard(usize::MAX)], ranked again unless it already is. *)
Definition ranking (sort : LeaderboardSort) (snapshot : gmap PublicKey N) (ascending : bool) (tb : TaskBoard)
    : list (PublicKey * Reputation) :=
  let ranked := leaderboard tb (size (tb_reputation tb)) in
  let sweep := match sort with ByNetWorth => Some snapshot | _ => None end in
  if negb (bool_decide (sort = ByEarned)) || ascending then sort_by (ranks_before sort sweep ascending) ranked else ranked.

Record LeaderboardEntry := mkEntry { le_pubkey : PublicKey; le_rank : nat; le_reputation : Reputation }.
Definition leaderboard_field (q : LeaderboardQuery) (hex : PublicKey -> string) (snapshot : gmap PublicKey N)
    (names : NameRegistry) (tb : TaskBoard) : list LeaderboardEntry :=
  let needle := match str_trim <$> lb_q q with
    | Some n => if String.eqb n "" then None else Some (to_lowercase n)
    | None => None
    end in
  let ascending := bool_decide (str_trim <$> lb_dir q = Some "asc"%string) in
  let ranked := ranking (sort_parse (lb_sort q)) snapshot ascending tb in
  let entries := imap (fun index (e : PublicKey * Reputation) => mkEntry e.1 (index + 1) e.2) ranked in
  base.filter (fun e => match needle with
    | None => true
    | Some n => agent_matches n (hex (le_pubkey e)) (get_name names (le_pubkey e))
    end = true) entries.
Definition leaderboard_page (q : LeaderboardQuery) (hex : PublicKey -> string) (snapshot : gmap PublicKey N)
    (names : NameRegistry) (tb : TaskBoard) : nat * list LeaderboardEntry :=
  let limit := Nat.min (default DEFAULT_LEADERBOARD_PAGE_SIZE (lb_limit q)) MAX_LEADERBOARD_PAGE_SIZE in
  let matching := leaderboard_field q hex snapshot names tb in
  (length matching, page (default 0%nat (lb_offset q)) limit matching).

(** ** Names of a batch of keys *)
Definition MAX_NAMES_LOOKUP : nat := 64.
Definition lookup_names (names : NameRegistry) (keys : list string) : gmap string (option string) :=
  foldl (fun out hex =>
    let hex := str_trim hex in
    match parse_hex_pubkey hex with
    | Ok pk => <[hex := get_name names pk]> out
    | _ => out
    end) ∅ (take MAX_NAMES_LOOKUP (base.filter (fun s => str_trim s <> ""%string) keys)).
End listings.

(** * ViewTheorems: the leaderboard is one ranking, served in pages

    Whatever column ranks the field, the order is total; a search keeps the rank an
    agent has in the whole field; and consecutive pages are consecutive pieces. *)

(** ** Pages *)
Lemma pages_cover {A} (m : nat) (l : list A) k : concat ((fun i => page (i * m) m l) <$> seq 0 k) = take (k * m) l.
Proof.
  induction k as [|k IH]; [done|]. rewrite seq_S, fmap_app, concat_app, IH. cbn. rewrite app_nil_r. unfold page.
  replace (m + k * m)%nat with (k * m + m)%nat by lia. by rewrite take_take_drop.
Qed.

(** ** A stable sort of a sorted list sorts by both orders *)
Section stable.
Context {A : Type} (leb : A -> A -> bool) (R : A -> A -> Prop).
Hypothesis leb_total : forall x y, leb x y = false -> leb y x = true.
Hypothesis leb_trans : forall x y z, leb x y = true -> leb y z = true -> leb x z = true.

Definition then_by (x y : A) : Prop := leb x y = true /\ (leb y x = true -> R x y).

Lemma insert_by_stable x l :
  StronglySorted then_by l -> Forall (R x) l -> StronglySorted then_by (insert_by leb x l).
Proof.
  induction 1 as [|y l Hl IH Hy]; intros Hx; cbn; [by repeat constructor|]. apply Forall_cons in Hx as [Hxy Hx].
  destruct (leb x y) eqn:E.
  - constructor; [by constructor|]. constructor; [by split|].
    apply Forall_forall. intros z Hz. rewrite Forall_forall in Hy, Hx. destruct (Hy z Hz) as [Hyz _]. split; [by eapply leb_trans|].
    intros _. by apply Hx.
  - constructor; [by apply IH|]. apply Forall_forall. intros z Hz. rewrite (insert_by_perm leb) in Hz. apply elem_of_cons in Hz as [->|Hz].
    + split; [by apply leb_total|]. by rewrite E.
    + rewrite Forall_forall in Hy. by apply Hy.
Qed.
Lemma sort_by_stable l : StronglySorted R l -> StronglySorted then_by (sort_by leb l).
Proof.
  induction 1 as [|x l Hl IH Hx]; [constructor|].
  change (sort_by leb (x :: l)) with (insert_by leb x (sort_by leb l)). apply insert_by_stable; [done|].
  apply Forall_forall. intros z Hz. rewrite (sort_by_perm leb) in Hz. rewrite Forall_forall in Hx. by apply Hx.
Qed.
End stable.

Lemma StronglySorted_impl {A} (R S : A -> A -> Prop) l : (forall x y, R x y -> S x y) -> StronglySorted R l -> StronglySorted S l.
Proof. intros Hrs. induction 1 as [|x l Hl IH Hx]; constructor; [done|]. eapply Forall_impl; [exact Hx|]. auto. Qed.

Lemma sorted_lookup {A} (R : A -> A -> Prop) l :
  StronglySorted R l <-> forall i j x y, (i < j)%nat -> l !! i = Some x -> l !! j = Some y -> R x y.
Proof.
  split.
  - induction 1 as [|z l Hl IH Hz]; intros i j x y Hij Hi Hj; [done|]. destruct j as [|j]; [lia|]. cbn in Hj. destruct i as [|i]; cbn in Hi.
    + injection Hi as <-. rewrite Forall_forall in Hz. apply Hz. by eapply list_elem_of_lookup_2.
    + eapply (IH i j); [lia|done..].
  - induction l as [|z l IH]; intros Hl; constructor.
    + apply IH. intros i j x y Hij Hi Hj. apply (Hl (S i) (S j)); [lia|done..].
    + apply Forall_forall. intros y Hy. apply list_elem_of_lookup in Hy as [j Hj]. apply (Hl 0%nat (S j)); [lia|done..].
Qed.
Lemma sorted_filter {A} (R : A -> A -> Prop) (P : A -> Prop) `{!forall x, Decision (P x)} l :
  StronglySorted R l -> StronglySorted R (base.filter P l).
Proof.
  induction 1 as [|x l _ IH Hx]; [constructor|]. rewrite filter_cons. case_decide; [|done]. constructor; [done|].
  apply Forall_forall. intros y Hy. apply list_elem_of_filter in Hy as [_ Hy]. rewrite Forall_forall in Hx. by apply Hx.
Qed.

(** ** The order of the field *)
Section ranking.
Implicit Types (sort : LeaderboardSort) (a b : PublicKey * Reputation).

Lemma compare_flip l r asc : compare_for_ranking l r asc = CompOpp (compare_for_ranking r l asc).
Proof. destruct l as [l|], r as [r|]; try done. cbn. destruct asc; apply N.compare_antisym. Qed.
Lemma ranks_before_total sort sweep asc a b : ranks_before sort sweep asc a b = false -> ranks_before sort sweep asc b a = true.
Proof.
  unfold ranks_before. rewrite (compare_flip (figure sort sweep b)). destruct (compare_for_ranking _ _ asc); try done. cbn.
  destruct (key_total (K := PublicKey) a.1 b.1) as [Ht|Ht]; unfold key_leb, pubkey_key in Ht; by rewrite Ht.
Qed.
Lemma ranks_before_trans sort sweep asc a b c :
  ranks_before sort sweep asc a b = true -> ranks_before sort sweep asc b c = true -> ranks_before sort sweep asc a c = true.
Proof.
  unfold ranks_before, compare_for_ranking. pose proof (key_trans (K := PublicKey) a.1 b.1 c.1) as Hk. unfold key_leb, pubkey_key in Hk.
  destruct (figure sort sweep a) as [x|], (figure sort sweep b) as [y|], (figure sort sweep c) as [z|]; try done.
  destruct asc.
  - destruct (N.compare_spec x y), (N.compare_spec y z), (N.compare_spec x z); try done; auto; lia.
  - destruct (N.compare_spec y x), (N.compare_spec z y), (N.compare_spec z x); try done; auto; lia.
Qed.
Lemma ranks_before_antisym sort sweep asc a b :
  ranks_before sort sweep asc a b = true -> ranks_before sort sweep asc b a = true -> a.1 = b.1.
Proof.
  unfold ranks_before. rewrite (compare_flip (figure sort sweep b)). destruct (compare_for_ranking _ _ asc); try done.
  exact (key_antisym (K := PublicKey) a.1 b.1).
Qed.

Definition sweep_of sort (snapshot : gmap PublicKey N) : option (gmap PublicKey N) :=
  match sort with ByNetWorth => Some snapshot | _ => None end.

Lemma ranking_perm sort snapshot asc tb : ranking sort snapshot asc tb ≡ₚ map_to_list (tb_reputation tb).
Proof.
  assert (Hl : leaderboard tb (size (tb_reputation tb)) ≡ₚ map_to_list (tb_reputation tb)).
  { unfold leaderboard. rewrite take_ge; [by rewrite sort_by_perm, btree_iter_perm|].
    by rewrite sort_by_perm, btree_iter_perm, length_map_to_list. }
  unfold ranking. destruct (_ || _); [by rewrite sort_by_perm|done].
Qed.

Lemma ranking_sorted sort snapshot asc tb :
  StronglySorted (fun a b => ranks_before sort (sweep_of sort snapshot) asc a b = true) (ranking sort snapshot asc tb).
Proof.
  unfold ranking. fold (sweep_of sort snapshot). destruct (negb _ || asc) eqn:E.
  - apply sort_by_sorted; [apply ranks_before_total|apply ranks_before_trans].
  - apply orb_false_iff in E as [Es ->]. apply negb_false_iff, bool_decide_eq_true in Es. subst sort. unfold leaderboard.
    rewrite take_ge by (by rewrite sort_by_perm, btree_iter_perm, length_map_to_list).
    eapply StronglySorted_impl; [|apply (sort_by_stable _ entry_le); [| |apply btree_iter_sorted]].
    + intros x y [Hle Hr]. unfold ranks_before, figure. cbn. rewrite N.leb_le in Hle, Hr.
      destruct (N.compare_spec (total_earned y.2) (total_earned x.2)); [|done|lia]. apply Hr. lia.
    + intros x y Hf. rewrite N.leb_gt in Hf. apply N.leb_le. lia.
    + intros x y z. rewrite !N.leb_le. lia.
Qed.
End ranking.

(** ** The field and its pages *)
Section field.
Context `{TextForm}.

Lemma entries_lookup (l : list (PublicKey * Reputation)) i e :
  imap (fun index (e : PublicKey * Reputation) => mkEntry e.1 (index + 1) e.2) l !! i = Some e ->
  l !! i = Some (le_pubkey e, le_reputation e) /\ le_rank e = (i + 1)%nat.
Proof. rewrite list_lookup_imap. intros He. apply fmap_Some in He as ([pk r] & Hl & ->). done. Qed.

(** Whatever column, direction and search a query asks for, the entries it can see are in
    one total order with strictly increasing ranks and no agent twice, each rank is
    the agent's place in the whole field, without a search every agent is there, the
    reported total is their number, and consecutive pages are consecutive pieces of
    that list. *)
Theorem leaderboard_is_one_ranking q hex snapshot names tb :
  let sort := sort_parse (lb_sort q) in
  let asc := bool_decide (str_trim <$> lb_dir q = Some "asc"%string) in
  let field := leaderboard_field q hex snapshot names tb in
  let limit := Nat.min (default DEFAULT_LEADERBOARD_PAGE_SIZE (lb_limit q)) MAX_LEADERBOARD_PAGE_SIZE in
  StronglySorted (fun e e' => (le_rank e < le_rank e')%nat /\
    ranks_before sort (sweep_of sort snapshot) asc (le_pubkey e, le_reputation e) (le_pubkey e', le_reputation e') = true /\
    le_pubkey e <> le_pubkey e') field /\
  (forall e, e ∈ field -> tb_reputation tb !! le_pubkey e = Some (le_reputation e) /\
     ranking sort snapshot asc tb !! (le_rank e - 1)%nat = Some (le_pubkey e, le_reputation e)) /\
  (lb_q q = None -> forall pk r, tb_reputation tb !! pk = Some r -> exists rank, mkEntry pk rank r ∈ field) /\
  (leaderboard_page q hex snapshot names tb).1 = length field /\
  forall k, concat ((fun i => (leaderboard_page (mkLeaderboardQuery (Some (i * limit)%nat) (lb_limit q) (lb_q q) (lb_sort q) (lb_dir q))
                                 hex snapshot names tb).2) <$> seq 0 k) = take (k * limit) field.
Proof.
  cbv zeta. unfold leaderboard_page. cbn [fst snd lb_offset lb_limit lb_q lb_sort lb_dir default].
  set (limit := Nat.min _ _). pose proof (pages_cover limit (leaderboard_field q hex snapshot names tb)) as Hpages.
  split_and!; [| | |done|exact Hpages]; clear Hpages; unfold leaderboard_field;
    set (sort := sort_parse (lb_sort q)); set (asc := bool_decide _);
    set (ranked := ranking sort snapshot asc tb); pose proof (ranking_perm sort snapshot asc tb) as Hperm; fold ranked in Hperm.
  - apply sorted_filter, sorted_lookup. intros i j x y Hij Hi Hj. apply entries_lookup in Hi as [Hi ->], Hj as [Hj ->].
    split_and!; [lia| |].
    + eapply (proj1 (sorted_lookup _ _) (ranking_sorted sort snapshot asc tb)); [exact Hij|done..].
    + intros Epk. assert (Hnd : NoDup ranked.*1) by (rewrite Hperm; apply NoDup_fst_map_to_list).
      assert (i = j); [|lia]. eapply (NoDup_lookup _ _ _ (le_pubkey x) Hnd); rewrite list_lookup_fmap; [by rewrite Hi|by rewrite Hj, Epk].
  - intros e He. apply list_elem_of_filter in He as [_ He]. apply list_elem_of_lookup in He as [i Hi]. apply entries_lookup in Hi as [Hi ->].
    split; [|by replace (i + 1 - 1)%nat with i by lia]. apply list_elem_of_lookup_2 in Hi. by rewrite Hperm, elem_of_map_to_list in Hi.
  - intros -> pk r Hr. apply elem_of_map_to_list in Hr. rewrite <-Hperm in Hr. apply list_elem_of_lookup in Hr as [i Hi].
    exists (i + 1)%nat. apply list_elem_of_filter. split; [done|]. by apply (elem_of_lookup_imap_2 (fun index (e : PublicKey * Reputation) => mkEntry e.1 (index + 1) e.2) ranked (pk, r) i).
Qed.
End field.

(** ** The task list *)
Section tasks.
Context `{TextForm}.

Definition wants (q : ListTasksQuery) (t : Task) : Prop :=
  match lq_status q with
  | None => status t = Open
  | Some raw => match parse_status_filter raw with
                | Ok AnyStatus => True
                | Ok (OnlyStatus s) => status t = s
                | _ => False
                end
  end.

Lemma listed_tasks q tb l : matched_tasks q tb = Ok l ->
  (forall t, t ∈ l <-> (exists id, tb_tasks tb !! id = Some t) /\ wants q t /\
     carries ((fun c => to_lowercase (str_trim c)) <$> lq_capability q) t = true) /\
  StronglySorted (fun a b => (t_created_at a <= t_created_at b)%Z) l.
Proof.
  unfold matched_tasks. intros E. inv_ok. subst l. split.
  - intros t. rewrite list_elem_of_filter, (sort_by_perm _ _), <-elem_of_btree_values. unfold wants.
    enough (Hw : t ∈ (match r with None | Some (OnlyStatus Open) => list_open_tasks tb | Some AnyStatus => btree_values (tb_tasks tb)
                   | Some (OnlyStatus s) => base.filter (fun t => status t = s) (btree_values (tb_tasks tb)) end) <->
      t ∈ btree_values (tb_tasks tb) /\ wants q t) by (rewrite Hw; unfold wants; tauto).
    unfold wants. destruct (lq_status q) as [raw|]; inv_ok; [rewrite Hr0|]; subst.
    + destruct r0 as [|[]]; unfold list_open_tasks; rewrite ?list_elem_of_filter; tauto.
    + unfold list_open_tasks. rewrite list_elem_of_filter. tauto.
  - apply sorted_filter. eapply StronglySorted_impl; [|apply sort_by_sorted].
    + intros x y Hle. by apply Z.leb_le.
    + intros x y Hf. apply Z.leb_gt in Hf. apply Z.leb_le. lia.
    + intros x y z. rewrite !Z.leb_le. lia.
Qed.

(** A task list is exactly the tasks of the board with the wanted status and capability,
    oldest first; the reported total is their number and the page a piece of it within
    the page limit; an unknown status is a bad request. *)
Theorem task_pages_are_one_list q tb :
  match matched_tasks q tb with
  | Ok l =>
      (forall t, t ∈ l <-> (exists id, tb_tasks tb !! id = Some t) /\ wants q t /\
         carries ((fun c => to_lowercase (str_trim c)) <$> lq_capability q) t = true) /\
      StronglySorted (fun a b => (t_created_at a <= t_created_at b)%Z) l /\
      exists p, list_tasks q tb = Ok (length l, p) /\
        p = page (lq_offset q) (Nat.min (default DEFAULT_TASKS_PAGE_SIZE (lq_limit q)) MAX_TASKS_PAGE_SIZE) l /\
        (length p <= MAX_TASKS_PAGE_SIZE)%nat
  | Err e => e = ApiBadRequest /\ list_tasks q tb = Err ApiBadRequest
  | Panic => False
  end.
Proof.
  unfold list_tasks. destruct (matched_tasks q tb) as [l|e|] eqn:E; cbn [mbind outcome_bind].
  - destruct (listed_tasks q tb l E) as [Hin Hs]. split_and!; [done..|]. eexists. split; [reflexivity|]. split; [done|].
    unfold page. rewrite length_take. lia.
  - unfold matched_tasks in E. destruct (lq_status q) as [raw|]; [|done]. unfold parse_status_filter in E.
    repeat (destruct (String.eqb _ _); [done|]). by injection E as <-.
  - unfold matched_tasks in E. destruct (lq_status q) as [raw|]; [|done]. unfold parse_status_filter in E.
    by repeat (destruct (String.eqb _ _); [done|]).
Qed.
End tasks.
