(* ===== verification/Figures.v ===== *)
(** * Figures: the board summed up

    Models [summarize_board] and [series_for] of [hub/src/handlers.rs]: one pass over
    the tasks into buckets of time. Sums are [u64] under overflow checks. Bucket
    indices are computed in [f64], as in [F64]. A time is in
    nanoseconds, a bucket's in milliseconds. *)

From S2P Require Import Prelude Types Crypto Spend BoardTypes Exchange Tasks Board Payouts Payments Faucet Views.

Definition SUMMARY_BUCKETS : nat := 24.
Definition SUMMARY_WINDOWS_MS : list N := [3600000; 21600000; 86400000; 604800000; 2592000000; 7776000000].
Definition SUMMARY_DEFAULT_WINDOW_MS : N := 604800000.
Definition MAX_SERIES_BUCKETS : nat := 240.
Definition DEFAULT_SERIES_BUCKETS : nat := 96.
Definition MIN_SERIES_WINDOW_MS : N := 60000.
Definition MAX_SERIES_WINDOW_MS : N := 10 * 365 * 24 * 60 * 60 * 1000.

(** ** Time *)
Definition timestamp_millis (t : DateTime) : Z := (t / 1000000)%Z.
Definition I64_MAX : Z := 9223372036854775807.
Definition I64_MIN : Z := -9223372036854775808.
(** [i64::saturating_mul] *)
Definition saturating_mul (a b : Z) : Z := Z.max I64_MIN (Z.min (a * b) I64_MAX).

(** [bucket_of]: the bucket of an instant, if it lies in the window. *)
Definition bucket_of (start_ms end_ms : Z) (window_ms : N) (buckets : nat) (at_ : Z) : option nat :=
  if ((start_ms <=? at_) && (at_ <=? end_ms))%Z then
    let bucket_ms := f64_div (f64_of (Z.of_N window_ms)) (f64_of (Z.of_nat buckets)) in
    Some (N.to_nat (N.min (f64_as_u64 (f64_div (f64_of (at_ - start_ms)) bucket_ms)) (N.of_nat (buckets - 1))))
  else None.

Definition min_time (l : list DateTime) : option DateTime :=
  match l with [] => None | t :: l' => Some (foldl Z.min t l') end.
(** The smallest preset window that holds the board's age. *)
Definition preset_window (now : DateTime) (first_task_at : option DateTime) : N :=
  match first_task_at with
  | None => SUMMARY_DEFAULT_WINDOW_MS
  | Some oldest =>
      let span := Z.to_N (Z.max (Z.quot (now - oldest) 1000000) 0) in
      match list_find (fun w => span <= w) SUMMARY_WINDOWS_MS with
      | Some (_, w) => w
      | None => 7776000000
      end
  end.

(** ** Columns: a total and what of it fell in each bucket *)
Record Column := mkColumn { in_buckets : list N; in_total : N }.
Definition zeros (buckets : nat) : Column := mkColumn (replicate buckets 0) 0.

Section figures.
Context {E : Type}.
Definition note (x : N) (c : Column) : outcome E Column := n ← add64 (in_total c) x; Ok (mkColumn (in_buckets c) n).
Definition mark (b : nat) (x : N) (c : Column) : outcome E Column :=
  v ← expect (in_buckets c !! b); v ← add64 v x; Ok (mkColumn (<[b := v]> (in_buckets c)) (in_total c)).
Definition count (b : nat) (x : N) (c : Column) : outcome E Column := c ← mark b x c; note x c.
Definition mark_if (bucket : option nat) (x : N) (c : Column) : outcome E Column :=
  match bucket with Some b => mark b x c | None => Ok c end.

(** ** [series_for] *)
Record Series := mkSeries {
  posted : Column;
  posted_bounty : Column;
  open_tasks : N;
  open_bounty : Column;
  settled : Column;
  paid_bounty : Column;
  fees : Column;
  bucket_agents : list (gset PublicKey);
  window_agents : gset PublicKey
}.
Definition meet (b : nat) (pk : PublicKey) (s : Series) : outcome E Series :=
  agents ← expect (bucket_agents s !! b);
  Ok (mkSeries (posted s) (posted_bounty s) (open_tasks s) (open_bounty s) (settled s) (paid_bounty s) (fees s)
        (<[b := {[pk]} ∪ agents]> (bucket_agents s)) ({[pk]} ∪ window_agents s)).

(** The parts of one turn of the loop: what is on offer, what was posted, what was settled. *)
Definition series_open (bucket : option nat) (t : Task) (s : Series) : outcome E Series :=
  if bool_decide (status t = Open) then
    n ← add64 (open_tasks s) 1;
    c ← note (bounty t) (open_bounty s);
    c ← mark_if bucket (bounty t) c;
    Ok (mkSeries (posted s) (posted_bounty s) n c (settled s) (paid_bounty s) (fees s) (bucket_agents s) (window_agents s))
  else Ok s.
Definition series_posted (bucket : option nat) (t : Task) (s : Series) : outcome E Series :=
  match bucket with
  | None => Ok s
  | Some b =>
      p ← count b 1 (posted s);
      pb ← count b (bounty t) (posted_bounty s);
      meet b (poster t)
        (mkSeries p pb (open_tasks s) (open_bounty s) (settled s) (paid_bounty s) (fees s) (bucket_agents s) (window_agents s))
  end.
Definition leg_fees (t : Task) : outcome E N :=
  match paid_payouts t with
  | [] => Ok 0
  | legs => if bool_decide (is_Some (escrow_id t)) then Ok HUB_TRANSACTION_FEE
            else mul64 (N.of_nat (length legs)) HUB_TRANSACTION_FEE
  end.
Definition series_leg (b : nat) (s : Series) (leg : PublicKey * N) : outcome E Series :=
  c ← count b leg.2 (paid_bounty s);
  meet b leg.1
    (mkSeries (posted s) (posted_bounty s) (open_tasks s) (open_bounty s) (settled s) c (fees s) (bucket_agents s) (window_agents s)).
Definition series_settled (bucket : Z -> option nat) (t : Task) (s : Series) : outcome E Series :=
  match settled_at t with
  | None => Ok s
  | Some at_ =>
      match bucket (timestamp_millis at_) with
      | None => Ok s
      | Some b =>
          st ← count b 1 (settled s);
          fee ← leg_fees t;
          f ← count b fee (fees s);
          ofold (series_leg b)
            (mkSeries (posted s) (posted_bounty s) (open_tasks s) (open_bounty s) st (paid_bounty s) f (bucket_agents s) (window_agents s))
            (paid_payouts t)
      end
  end.
Definition series_task (bucket : Z -> option nat) (s : Series) (t : Task) : outcome E Series :=
  let posted_bucket := bucket (timestamp_millis (t_created_at t)) in
  s ← series_open posted_bucket t s;
  s ← series_posted posted_bucket t s;
  series_settled bucket t s.

Record SeriesQuery := mkSeriesQuery { sq_capability : option string; sq_window_ms : option N; sq_buckets : option nat }.
Record MarketSeries := mkMarketSeries {
  ms_window_ms : N;
  ms_buckets : nat;
  ms_start_ms : Z;
  ms_end_ms : Z;
  ms_series : Series;
  ms_agents_series : list N;
  ms_agents : N;
  ms_faucet : Column;
  ms_faucet_itx : N;
  ms_first_task_at : option DateTime
}.
Definition series_new (buckets : nat) : Series :=
  mkSeries (zeros buckets) (zeros buckets) 0 (zeros buckets) (zeros buckets) (zeros buckets) (zeros buckets)
    (replicate buckets ∅) ∅.
Definition in_market `{TextForm} (q : SeriesQuery) (t : Task) : bool :=
  match sq_capability q with
  | None => true
  | Some c => if String.eqb (str_trim c) "" then true else bool_decide (c ∈ capabilities t)
  end.
Definition series_for `{TextForm} (tasks : list Task) (faucet_grants : list Z) (now : DateTime) (q : SeriesQuery)
    : outcome E MarketSeries :=
  let matching := base.filter (fun t => in_market q t = true) tasks in
  let first_task_at := min_time (t_created_at <$> matching) in
  let window_ms := match sq_window_ms q with
    | Some requested => N.min (N.max requested MIN_SERIES_WINDOW_MS) MAX_SERIES_WINDOW_MS
    | None => preset_window now first_task_at
    end in
  let buckets := Nat.min (Nat.max (default DEFAULT_SERIES_BUCKETS (sq_buckets q)) 1) MAX_SERIES_BUCKETS in
  let end_ms := timestamp_millis now in
  let start_ms := (end_ms - Z.of_N window_ms)%Z in
  let bucket := bucket_of start_ms end_ms window_ms buckets in
  s ← ofold (series_task bucket) (series_new buckets) matching;
  faucet ← ofold (fun c granted_at => match bucket (saturating_mul granted_at 1000) with
                                      | Some b => count b 1 c
                                      | None => Ok c
                                      end) (zeros buckets) faucet_grants;
  Ok (mkMarketSeries window_ms buckets start_ms end_ms s ((fun a => N.of_nat (size a)) <$> bucket_agents s)
        (N.of_nat (size (window_agents s))) faucet
        (N.min (in_total faucet * FAUCET_GRANT_AMOUNT) U64_MAX) first_task_at).
Definition faucet_grant_times (tb : TaskBoard) : list Z := btree_values (tb_faucet_grants tb).
Definition board_series `{TextForm} (tb : TaskBoard) (now : DateTime) (q : SeriesQuery) : outcome E MarketSeries :=
  series_for (btree_values (tb_tasks tb)) (faucet_grant_times tb) now q.

(** ** [summarize_board] *)
Record KindRow := mkKindRow { kr_open : N; kr_open_bounty : N; kr_posted : Column }.
Record CapabilityRow := mkCapabilityRow { cr_row : KindRow; cr_bounty : Column }.
Record BoardTotals := mkTotals {
  bt_open_tasks : N;
  bt_open_bounty : N;
  bt_paid_tasks : N;
  bt_paid_bounty : N;
  bt_posted : Column
}.
Record BoardSummary := mkSummary {
  bs_first_task_at : option DateTime;
  bs_window_ms : N;
  bs_total_tasks : nat;
  bs_totals : BoardTotals;
  bs_hash_match : KindRow;
  bs_consensus : KindRow;
  bs_disputable : KindRow;
  bs_capabilities : list (string * CapabilityRow)
}.

Definition is_open (t : Task) : bool := bool_decide (status t = Open).
Definition is_paid (t : Task) : bool := bool_decide (status t = Paid).
Definition totals_task (bucket : option nat) (t : Task) (s : BoardTotals) : outcome E BoardTotals :=
  n ← (if is_open t then add64 (bt_open_tasks s) 1 else Ok (bt_open_tasks s));
  b ← (if is_open t then add64 (bt_open_bounty s) (bounty t) else Ok (bt_open_bounty s));
  m ← (if is_paid t then add64 (bt_paid_tasks s) 1 else Ok (bt_paid_tasks s));
  p ← (if is_paid t then add64 (bt_paid_bounty s) (bounty t) else Ok (bt_paid_bounty s));
  c ← mark_if bucket 1 (bt_posted s);
  Ok (mkTotals n b m p c).
Definition kind_task (bucket : option nat) (t : Task) (r : KindRow) : outcome E KindRow :=
  c ← note 1 (kr_posted r);
  n ← (if is_open t then add64 (kr_open r) 1 else Ok (kr_open r));
  b ← (if is_open t then add64 (kr_open_bounty r) (bounty t) else Ok (kr_open_bounty r));
  c ← mark_if bucket 1 c;
  Ok (mkKindRow n b c).
Definition capability_task (bucket : option nat) (t : Task) (r : CapabilityRow) : outcome E CapabilityRow :=
  row ← kind_task bucket t (cr_row r);
  c ← mark_if bucket (bounty t) (cr_bounty r);
  Ok (mkCapabilityRow row c).
Definition kind_row_new : KindRow := mkKindRow 0 0 (zeros SUMMARY_BUCKETS).
Definition capability_row_new : CapabilityRow := mkCapabilityRow kind_row_new (zeros SUMMARY_BUCKETS).

Record Summing := mkSumming {
  su_totals : BoardTotals;
  su_hash_match : KindRow;
  su_consensus : KindRow;
  su_disputable : KindRow;
  su_capabilities : gmap string CapabilityRow
}.
Definition summing_new : Summing :=
  mkSumming (mkTotals 0 0 0 0 (zeros SUMMARY_BUCKETS)) kind_row_new kind_row_new kind_row_new ∅.
Definition summary_task (bucket : Z -> option nat) (s : Summing) (t : Task) : outcome E Summing :=
  let b := bucket (timestamp_millis (t_created_at t)) in
  totals ← totals_task b t (su_totals s);
  h ← (match kind t with HashMatch _ => kind_task b t (su_hash_match s) | _ => Ok (su_hash_match s) end);
  c ← (match kind t with Consensus _ => kind_task b t (su_consensus s) | _ => Ok (su_consensus s) end);
  d ← (match kind t with Disputable _ => kind_task b t (su_disputable s) | _ => Ok (su_disputable s) end);
  caps ← ofold (fun m tag =>
      row ← capability_task b t (default capability_row_new (m !! tag)); Ok (<[tag := row]> m))
    (su_capabilities s) (elements (capabilities t));
  Ok (mkSumming totals h c d caps).

(** Biggest on offer first, ties by the tag. *)
Definition bigger (a b : string * CapabilityRow) : bool :=
  let '(ra, rb) := (cr_row a.2, cr_row b.2) in
  (kr_open_bounty rb <? kr_open_bounty ra)
  || ((kr_open_bounty ra =? kr_open_bounty rb)
      && ((kr_open rb <? kr_open ra) || ((kr_open ra =? kr_open rb) && String.leb a.1 b.1))).
Definition summarize_board (tasks : list Task) (now : DateTime) : outcome E BoardSummary :=
  let first_task_at := min_time (t_created_at <$> tasks) in
  let window_ms := preset_window now first_task_at in
  let end_ms := timestamp_millis now in
  let bucket := bucket_of (end_ms - Z.of_N window_ms) end_ms window_ms SUMMARY_BUCKETS in
  s ← ofold (summary_task bucket) summing_new tasks;
  Ok (mkSummary first_task_at window_ms (length tasks) (su_totals s) (su_hash_match s) (su_consensus s) (su_disputable s)
        (sort_by bigger (map_to_list (su_capabilities s)))).

End figures.

(** * FigureTheorems: the figures add up

    Every series has one entry per bucket and sums to its total; the totals are those
    of the tasks of the market that fall in the window; nothing overflows while the
    board's own money does not. *)

(** ** Columns *)
Lemma sumN_insert l b v x : l !! b = Some v -> sumN (<[b := v + x]> l) = sumN l + x.
Proof.
  revert b. induction l as [|a l IH]; intros [|b] Hb; try done; cbn [lookup list_lookup insert list_insert] in *.
  - injection Hb as ->. rewrite !sumN_cons. lia.
  - rewrite !sumN_cons, IH by done. lia.
Qed.
Lemma sumN_zeros n : sumN (replicate n 0) = 0.
Proof. induction n as [|n IH]; [done|]. cbn [replicate]. by rewrite sumN_cons, IH. Qed.

Record column_ok (n : nat) (c : Column) : Prop := {
  co_length : length (in_buckets c) = n;
  co_sum : sumN (in_buckets c) = in_total c
}.
Lemma zeros_ok n : column_ok n (zeros n).
Proof. split; cbn; [apply length_replicate|apply sumN_zeros]. Qed.

Section columns.
Context {E : Type}.
Lemma note_ok x c : in_total c + x <= U64_MAX -> note (E := E) x c = Ok (mkColumn (in_buckets c) (in_total c + x)).
Proof. intros Hle. unfold note. by rewrite add64_fits. Qed.
Lemma mark_ok b x c : (b < length (in_buckets c))%nat -> sumN (in_buckets c) + x <= U64_MAX ->
  exists l, mark (E := E) b x c = Ok (mkColumn l (in_total c)) /\ length l = length (in_buckets c) /\ sumN l = sumN (in_buckets c) + x.
Proof.
  intros Hb Hle. unfold mark. destruct (lookup_lt_is_Some_2 _ _ Hb) as [v Hv]. rewrite Hv. cbn [expect mbind outcome_bind].
  assert (Hvle : v <= sumN (in_buckets c)) by (apply sumN_le_elem; by eapply list_elem_of_lookup_2).
  rewrite add64_fits by lia. eexists. split; [reflexivity|]. split; [apply length_insert|by apply sumN_insert].
Qed.
Lemma count_ok n b x c : column_ok n c -> (b < n)%nat -> in_total c + x <= U64_MAX ->
  exists c', count (E := E) b x c = Ok c' /\ column_ok n c' /\ in_total c' = in_total c + x.
Proof.
  intros [Hl Hs] Hb Hle. unfold count. destruct (mark_ok b x c) as (l & -> & Hlen & Hsum); [by rewrite Hl|by rewrite Hs|]. cbn [mbind outcome_bind].
  rewrite note_ok by done. eexists. split; [reflexivity|]. cbn [in_buckets in_total]. split; [split; cbn [in_buckets in_total]; [by rewrite Hlen|by rewrite Hsum, Hs]|done].
Qed.
Lemma mark_if_ok bucket x c : (forall b, bucket = Some b -> (b < length (in_buckets c))%nat) -> sumN (in_buckets c) + x <= U64_MAX ->
  exists l, mark_if (E := E) bucket x c = Ok (mkColumn l (in_total c)) /\ length l = length (in_buckets c) /\
    sumN l = sumN (in_buckets c) + (if bool_decide (is_Some bucket) then x else 0).
Proof.
  intros Hb Hle. destruct bucket as [b|]; [apply mark_ok; [by apply Hb|done]|].
  exists (in_buckets c). destruct c. split_and!; [done..|]. cbn [bool_decide decide is_Some_dec]. by rewrite N.add_0_r.
Qed.
End columns.

(** The bucket of an instant is one of the window's, and it has one exactly in the window. *)
Lemma bucket_of_lt start end_ w n at_ b : (1 <= n)%nat -> bucket_of start end_ w n at_ = Some b -> (b < n)%nat.
Proof.
  intros Hn. unfold bucket_of. destruct (_ && _); [|done]. intros [= <-].
  assert (Hm : forall x, (N.to_nat (N.min x (N.of_nat (n - 1))) < n)%nat) by (intros; lia). apply Hm.
Qed.
Lemma bucket_of_window start end_ w n at_ : is_Some (bucket_of start end_ w n at_) <-> (start <= at_ <= end_)%Z.
Proof.
  unfold bucket_of. destruct (Z.leb_spec start at_), (Z.leb_spec at_ end_); cbn; split; try done; intros Hx; try lia;
    try (by eexists); by destruct Hx.
Qed.

(** ** Series *)
Section series.
Context {E : Type} (bucket : Z -> option nat) (n : nat).
Hypothesis bucket_lt : forall at_ b, bucket at_ = Some b -> (b < n)%nat.

Definition agents_ok (A : list (gset PublicKey)) (W : gset PublicKey) : Prop :=
  length A = n /\ forall pk, pk ∈ W <-> exists b X, A !! b = Some X /\ pk ∈ X.
Lemma agents_ok_new : agents_ok (replicate n ∅) ∅.
Proof.
  split; [apply length_replicate|]. intros pk. split; [by intros Hp%elem_of_empty|].
  intros (b & X & [-> _]%lookup_replicate & Hp). done.
Qed.
Lemma meet_agents b pk s : agents_ok (bucket_agents s) (window_agents s) -> (b < n)%nat ->
  exists A, meet (E := E) b pk s = Ok (mkSeries (posted s) (posted_bounty s) (open_tasks s) (open_bounty s) (settled s) (paid_bounty s)
    (fees s) A ({[pk]} ∪ window_agents s)) /\ agents_ok A ({[pk]} ∪ window_agents s).
Proof.
  intros [Hl Hw] Hb. unfold meet. destruct (lookup_lt_is_Some_2 (bucket_agents s) b) as [X HX]; [by rewrite Hl|]. rewrite HX.
  cbn [expect mbind outcome_bind]. eexists. split; [reflexivity|]. split; [by rewrite length_insert|].
  intros q. rewrite elem_of_union, elem_of_singleton, Hw. split.
  - intros [->|(b' & Y & HY & Hq)].
    + exists b, ({[pk]} ∪ X). split; [apply list_lookup_insert_eq; by rewrite Hl|set_solver].
    + destruct (decide (b' = b)) as [->|Hne].
      * exists b, ({[pk]} ∪ X). split; [apply list_lookup_insert_eq; by rewrite Hl|]. rewrite HX in HY. injection HY as <-. set_solver.
      * exists b', Y. by rewrite list_lookup_insert_ne.
  - intros (b' & Y & HY & Hq). apply list_lookup_insert_Some in HY as [(-> & <- & _)|[_ HY]]; [|right; by exists b', Y].
    apply elem_of_union in Hq as [->%elem_of_singleton|Hq]; [by left|right; by exists b', X].
Qed.

(** What one task adds. *)
Definition posted_in (t : Task) : bool := bool_decide (is_Some (bucket (timestamp_millis (t_created_at t)))).
Definition settled_in (t : Task) : bool :=
  match settled_at t with Some at_ => bool_decide (is_Some (bucket (timestamp_millis at_))) | None => false end.
Definition paid_of (t : Task) : N := sumN (paid_payouts t).*2.
Definition fee_of (t : Task) : N :=
  match paid_payouts t with
  | [] => 0
  | legs => if bool_decide (is_Some (escrow_id t)) then HUB_TRANSACTION_FEE else N.of_nat (length legs) * HUB_TRANSACTION_FEE
  end.
Definition weight (t : Task) : N := 1 + bounty t + paid_of t + fee_of t.
Definition tally (p : Task -> bool) (f : Task -> N) (l : list Task) : N := sumN ((fun t => if p t then f t else 0) <$> l).
Lemma tally_snoc p f l t : tally p f (l ++ [t]) = tally p f l + (if p t then f t else 0).
Proof. unfold tally. rewrite fmap_app, sumN_app. cbn. lia. Qed.
Lemma tally_le p f l : (forall t, f t <= weight t) -> tally p f l <= sumN (weight <$> l).
Proof.
  intros Hf. induction l as [|t l IH]; [done|]. unfold tally in *. rewrite !fmap_cons, !sumN_cons. specialize (Hf t).
  destruct (p t); lia.
Qed.

Record figures (l : list Task) (s : Series) : Prop := {
  fg_posted : column_ok n (posted s) /\ in_total (posted s) = tally posted_in (fun _ => 1) l;
  fg_bounty : column_ok n (posted_bounty s) /\ in_total (posted_bounty s) = tally posted_in bounty l;
  fg_open_tasks : open_tasks s = tally is_open (fun _ => 1) l;
  fg_open : length (in_buckets (open_bounty s)) = n /\ in_total (open_bounty s) = tally is_open bounty l;
  fg_open_in : sumN (in_buckets (open_bounty s)) = tally (fun t => is_open t && posted_in t) bounty l;
  fg_settled : column_ok n (settled s) /\ in_total (settled s) = tally settled_in (fun _ => 1) l;
  fg_paid : column_ok n (paid_bounty s) /\ in_total (paid_bounty s) = tally settled_in paid_of l;
  fg_fees : column_ok n (fees s) /\ in_total (fees s) = tally settled_in fee_of l;
  fg_agents : agents_ok (bucket_agents s) (window_agents s);
  fg_met : forall pk, pk ∈ window_agents s <->
    exists t, t ∈ l /\ (posted_in t = true /\ pk = poster t \/ settled_in t = true /\ pk ∈ (paid_payouts t).*1)
}.

Lemma figures_new : figures [] (series_new n).
Proof.
  split; cbn [series_new posted posted_bounty open_tasks open_bounty settled paid_bounty fees bucket_agents window_agents];
    try (split; [apply zeros_ok|done]); try done.
  - apply sumN_zeros.
  - apply agents_ok_new.
  - intros pk. split; [by intros Hp%elem_of_empty|]. intros (t & Ht & _). by apply not_elem_of_nil in Ht.
Qed.

Lemma weight_parts t : 1 <= weight t /\ bounty t <= weight t /\ paid_of t <= weight t /\ fee_of t <= weight t.
Proof. unfold weight. lia. Qed.

Lemma open_step l t s : figures l s -> sumN (weight <$> l) + weight t <= U64_MAX ->
  exists k c, series_open (E := E) (bucket (timestamp_millis (t_created_at t))) t s =
    Ok (mkSeries (posted s) (posted_bounty s) k c (settled s) (paid_bounty s) (fees s) (bucket_agents s) (window_agents s)) /\
    k = tally is_open (fun _ => 1) (l ++ [t]) /\ length (in_buckets c) = n /\ in_total c = tally is_open bounty (l ++ [t]) /\
    sumN (in_buckets c) = tally (fun t => is_open t && posted_in t) bounty (l ++ [t]).
Proof.
  intros Hf Hw. destruct (weight_parts t) as (W1 & W2 & _). rewrite !tally_snoc, <-(fg_open_tasks _ _ Hf), <-(proj2 (fg_open _ _ Hf)), <-(fg_open_in _ _ Hf).
  assert (B1 : open_tasks s <= sumN (weight <$> l)) by (rewrite (fg_open_tasks _ _ Hf); apply tally_le; intros; apply weight_parts).
  assert (B2 : in_total (open_bounty s) <= sumN (weight <$> l)) by (rewrite (proj2 (fg_open _ _ Hf)); apply tally_le; intros; apply weight_parts).
  assert (B3 : sumN (in_buckets (open_bounty s)) <= sumN (weight <$> l)) by (rewrite (fg_open_in _ _ Hf); apply tally_le; intros; apply weight_parts).
  unfold series_open, posted_in. fold (is_open t). destruct (is_open t); cbn [andb].
  - rewrite add64_fits by lia. cbn [mbind outcome_bind]. rewrite note_ok by lia. cbn [mbind outcome_bind].
    destruct (mark_if_ok (E := E) (bucket (timestamp_millis (t_created_at t))) (bounty t) (mkColumn (in_buckets (open_bounty s)) (in_total (open_bounty s) + bounty t)))
      as (lc & -> & Hl & Hs).
    + intros b Hb. cbn [in_buckets]. rewrite (proj1 (fg_open _ _ Hf)). by eapply bucket_lt.
    + cbn [in_buckets]. lia.
    + cbn [mbind outcome_bind]. eexists _, _. split; [reflexivity|]. cbn [in_buckets in_total] in *. rewrite Hl, (proj1 (fg_open _ _ Hf)). done.
  - exists (open_tasks s), (open_bounty s). rewrite !N.add_0_r. destruct s. split_and!; try done. apply (fg_open _ _ Hf).
Qed.

Lemma posted_step l t s : 
  column_ok n (posted s) /\ in_total (posted s) = tally posted_in (fun _ => 1) l ->
  column_ok n (posted_bounty s) /\ in_total (posted_bounty s) = tally posted_in bounty l ->
  agents_ok (bucket_agents s) (window_agents s) -> sumN (weight <$> l) + weight t <= U64_MAX ->
  exists p pb A, let W := (if posted_in t then {[poster t]} else ∅) ∪ window_agents s in
    series_posted (E := E) (bucket (timestamp_millis (t_created_at t))) t s =
      Ok (mkSeries p pb (open_tasks s) (open_bounty s) (settled s) (paid_bounty s) (fees s) A W) /\
    (column_ok n p /\ in_total p = tally posted_in (fun _ => 1) (l ++ [t])) /\
    (column_ok n pb /\ in_total pb = tally posted_in bounty (l ++ [t])) /\ agents_ok A W.
Proof.
  intros [Cp Tp] [Cb Tb] Ha Hw. destruct (weight_parts t) as (W1 & W2 & _). rewrite !tally_snoc, <-Tp, <-Tb.
  assert (B1 : in_total (posted s) <= sumN (weight <$> l)) by (rewrite Tp; apply tally_le; intros; apply weight_parts).
  assert (B2 : in_total (posted_bounty s) <= sumN (weight <$> l)) by (rewrite Tb; apply tally_le; intros; apply weight_parts).
  unfold series_posted, posted_in. destruct (bucket (timestamp_millis (t_created_at t))) as [b|] eqn:Eb.
  - rewrite bool_decide_eq_true_2 by done. pose proof (bucket_lt _ _ Eb) as Hb.
    destruct (count_ok (E := E) n b 1 (posted s) Cp Hb) as (p & -> & Cp' & Tp'); [lia|].
    destruct (count_ok (E := E) n b (bounty t) (posted_bounty s) Cb Hb) as (pb & -> & Cb' & Tb'); [lia|]. cbn [mbind outcome_bind].
    set (s1 := mkSeries p pb _ _ _ _ _ _ _). destruct (meet_agents b (poster t) s1 Ha Hb) as (A & -> & HA). by exists p, pb, A.
  - rewrite bool_decide_eq_false_2 by (by intros []). exists (posted s), (posted_bounty s), (bucket_agents s).
    cbv zeta. rewrite (left_id_L ∅ (∪)), !N.add_0_r. by destruct s.
Qed.

Lemma legs_step b legs : forall s,
  column_ok n (paid_bounty s) -> agents_ok (bucket_agents s) (window_agents s) -> (b < n)%nat ->
  in_total (paid_bounty s) + sumN legs.*2 <= U64_MAX ->
  exists c A, let W := list_to_set legs.*1 ∪ window_agents s in
    ofold (series_leg (E := E) b) s legs =
      Ok (mkSeries (posted s) (posted_bounty s) (open_tasks s) (open_bounty s) (settled s) c (fees s) A W) /\
    column_ok n c /\ in_total c = in_total (paid_bounty s) + sumN legs.*2 /\ agents_ok A W.
Proof.
  induction legs as [|[pk x] legs IH]; intros s Hc Ha Hb Hle.
  - exists (paid_bounty s), (bucket_agents s). cbv zeta. rewrite fmap_nil. cbn [list_to_set ofold]. rewrite (left_id_L ∅ (∪)).
    cbn. rewrite N.add_0_r. by destruct s.
  - rewrite !fmap_cons, sumN_cons in *. cbn [fst snd ofold] in *.
    destruct (count_ok (E := E) n b x (paid_bounty s) Hc Hb) as (c & Ec & Cc & Tc); [lia|].
    set (s1 := mkSeries (posted s) (posted_bounty s) (open_tasks s) (open_bounty s) (settled s) c (fees s) (bucket_agents s) (window_agents s)).
    destruct (meet_agents b pk s1 Ha Hb) as (A & Em & HA). set (s2 := mkSeries _ _ _ _ _ _ _ A _) in Em.
    assert (Es : series_leg (E := E) b s (pk, x) = Ok s2) by (unfold series_leg; cbn [fst snd]; rewrite Ec; exact Em).
    rewrite Es. cbn [mbind outcome_bind].
    destruct (IH s2 Cc HA Hb) as (c' & A' & -> & Cc' & Tc' & HA'); [cbn; lia|]. cbn [paid_bounty s2 s1] in *.
    exists c', A'. cbv zeta. replace (list_to_set (pk :: legs.*1) ∪ window_agents s) with (list_to_set legs.*1 ∪ window_agents s2).
    + split_and!; [done..|lia|done].
    + cbn. set_solver.
Qed.

Lemma leg_fees_fits t : fee_of t <= U64_MAX -> leg_fees (E := E) t = Ok (fee_of t).
Proof.
  unfold leg_fees, fee_of. destruct (paid_payouts t) as [|e legs]; [done|]. case_bool_decide; [done|]. intros Hle. by apply mul64_fits.
Qed.

Lemma settled_adds l t s :
  column_ok n (settled s) /\ in_total (settled s) = tally settled_in (fun _ => 1) l ->
  column_ok n (paid_bounty s) /\ in_total (paid_bounty s) = tally settled_in paid_of l ->
  column_ok n (fees s) /\ in_total (fees s) = tally settled_in fee_of l ->
  agents_ok (bucket_agents s) (window_agents s) -> sumN (weight <$> l) + weight t <= U64_MAX ->
  exists st c f A, let W := (if settled_in t then list_to_set (paid_payouts t).*1 else ∅) ∪ window_agents s in
    series_settled (E := E) bucket t s =
      Ok (mkSeries (posted s) (posted_bounty s) (open_tasks s) (open_bounty s) st c f A W) /\
    (column_ok n st /\ in_total st = tally settled_in (fun _ => 1) (l ++ [t])) /\
    (column_ok n c /\ in_total c = tally settled_in paid_of (l ++ [t])) /\
    (column_ok n f /\ in_total f = tally settled_in fee_of (l ++ [t])) /\ agents_ok A W.
Proof.
  intros [Cs Ts] [Cp Tp] [Cf Tf] Ha Hw. destruct (weight_parts t) as (W1 & _ & W3 & W4). rewrite !tally_snoc, <-Ts, <-Tp, <-Tf.
  assert (B1 : in_total (settled s) <= sumN (weight <$> l)) by (rewrite Ts; apply tally_le; intros; apply weight_parts).
  assert (B2 : in_total (paid_bounty s) <= sumN (weight <$> l)) by (rewrite Tp; apply tally_le; intros; apply weight_parts).
  assert (B3 : in_total (fees s) <= sumN (weight <$> l)) by (rewrite Tf; apply tally_le; intros; apply weight_parts).
  assert (Hsame : exists st c f A, let W := ∅ ∪ window_agents s in
    Ok s = Ok (mkSeries (posted s) (posted_bounty s) (open_tasks s) (open_bounty s) st c f A W) :> outcome E Series /\
    (column_ok n st /\ in_total st = in_total (settled s) + 0) /\ (column_ok n c /\ in_total c = in_total (paid_bounty s) + 0) /\
    (column_ok n f /\ in_total f = in_total (fees s) + 0) /\ agents_ok A W).
  { exists (settled s), (paid_bounty s), (fees s), (bucket_agents s). cbv zeta. rewrite (left_id_L ∅ (∪)), !N.add_0_r. by destruct s. }
  unfold series_settled, settled_in. destruct (settled_at t) as [at_|]; [|done].
  destruct (bucket (timestamp_millis at_)) as [b|] eqn:Eb; [|by rewrite bool_decide_eq_false_2 by (by intros [])].
  rewrite bool_decide_eq_true_2 by done. clear Hsame. pose proof (bucket_lt _ _ Eb) as Hb.
  destruct (count_ok (E := E) n b 1 (settled s) Cs Hb) as (st & -> & Cs' & Ts'); [lia|]. cbn [mbind outcome_bind].
  rewrite leg_fees_fits by lia. cbn [mbind outcome_bind].
  destruct (count_ok (E := E) n b (fee_of t) (fees s) Cf Hb) as (f & -> & Cf' & Tf'); [lia|]. cbn [mbind outcome_bind].
  set (s1 := mkSeries _ _ _ _ st _ f _ _).
  destruct (legs_step b (paid_payouts t) s1 Cp Ha Hb) as (c & A & -> & Cc & Tc & HA); [cbn; unfold paid_of in *; lia|].
  exists st, c, f, A. cbv zeta. split_and!; done.
Qed.

Lemma task_step l t s : figures l s -> sumN (weight <$> l) + weight t <= U64_MAX ->
  exists s', series_task (E := E) bucket s t = Ok s' /\ figures (l ++ [t]) s'.
Proof.
  intros Hf Hw. unfold series_task. destruct (open_step l t s Hf Hw) as (k & c & -> & Hk & Hcl & Hct & Hcs). cbn [mbind outcome_bind].
  set (s1 := mkSeries _ _ _ _ _ _ _ _ _).
  destruct (posted_step l t s1 (fg_posted _ _ Hf) (fg_bounty _ _ Hf) (fg_agents _ _ Hf) Hw) as (p & pb & A & -> & Hp & Hpb & HA).
  cbn [mbind outcome_bind]. set (s2 := mkSeries p _ _ _ _ _ _ _ _).
  destruct (settled_adds l t s2 (fg_settled _ _ Hf) (fg_paid _ _ Hf) (fg_fees _ _ Hf) HA Hw) as (st & pd & f & A' & -> & Hst & Hpd & Hfe & HA').
  eexists. split; [reflexivity|]. split; cbn [posted posted_bounty open_tasks open_bounty settled paid_bounty fees bucket_agents window_agents s1 s2]; try done.
  intros pk. rewrite !elem_of_union. setoid_rewrite elem_of_app. setoid_rewrite list_elem_of_singleton.
  rewrite (fg_met _ _ Hf pk). split.
  - intros [Hin|[Hin|(t' & Ht' & Hr)]].
    + exists t. split; [by right|]. right. destruct (settled_in t); [|by apply elem_of_empty in Hin]. by apply elem_of_list_to_set in Hin.
    + exists t. split; [by right|]. left. destruct (posted_in t); [|by apply elem_of_empty in Hin]. by apply elem_of_singleton in Hin.
    + exists t'. split; [by left|done].
  - intros (t' & [Ht'| ->] & Hr); [right; right; by exists t'|].
    destruct Hr as [[-> ->]|[-> Hr]]; [right; left; by apply elem_of_singleton|left; by apply elem_of_list_to_set].
Qed.

Lemma tasks_step ts : forall l s, figures l s -> sumN (weight <$> l ++ ts) <= U64_MAX ->
  exists s', ofold (series_task (E := E) bucket) s ts = Ok s' /\ figures (l ++ ts) s'.
Proof.
  induction ts as [|t ts IH]; intros l s Hf Hw; [by exists s; rewrite app_nil_r|]. cbn [ofold].
  rewrite cons_middle, app_assoc in Hw |- *. rewrite fmap_app, sumN_app in Hw.
  destruct (task_step l t s Hf) as (s' & -> & Hf'); [rewrite fmap_app, sumN_app in Hw; cbn in Hw; lia|].
  cbn [mbind outcome_bind]. apply IH; [done|]. by rewrite fmap_app, sumN_app.
Qed.

Lemma grants_step (gs : list Z) (at_ : Z -> Z) : forall c,
  column_ok n c -> in_total c + N.of_nat (length gs) <= U64_MAX ->
  exists c', ofold (E := E) (fun c g => match bucket (at_ g) with Some b => count b 1 c | None => Ok c end) c gs = Ok c' /\
    column_ok n c' /\ in_total c' = in_total c + N.of_nat (length (base.filter (fun g => is_Some (bucket (at_ g))) gs)).
Proof.
  induction gs as [|g gs IH]; intros c Hc Hle; cbn [ofold length] in *; [exists c; cbn; split_and!; [done..|lia]|].
  rewrite filter_cons. destruct (bucket (at_ g)) as [b|] eqn:Eb.
  - destruct (count_ok (E := E) n b 1 c Hc (bucket_lt _ _ Eb)) as (c1 & -> & Hc1 & Ht1); [lia|]. cbn [mbind outcome_bind].
    destruct (IH c1 Hc1) as (c' & -> & Hc' & Ht'); [lia|]. exists c'. rewrite decide_True by done. cbn [length]. split_and!; [done..|lia].
  - cbn [mbind outcome_bind]. destruct (IH c Hc) as (c' & -> & Hc' & Ht'); [lia|]. exists c'.
    rewrite decide_False by (by intros []). done.
Qed.
End series.

(** ** Distinct agents *)
Lemma size_cover (A : list (gset PublicKey)) : forall W : gset PublicKey,
  (forall pk, pk ∈ W -> exists X, X ∈ A /\ pk ∈ X) -> N.of_nat (size W) <= sumN ((fun a => N.of_nat (size a)) <$> A).
Proof.
  induction A as [|X A IH]; intros W HW.
  - assert (W ≡ ∅) as -> by (intros pk; split; [intros Hp; destruct (HW pk Hp) as (X & HX & _); by apply not_elem_of_nil in HX|set_solver]).
    by rewrite size_empty.
  - rewrite fmap_cons, sumN_cons. specialize (IH (W ∖ X)).
    assert (Hs : (size W <= size X + size (W ∖ X))%nat).
    { rewrite <-(size_union X (W ∖ X)) by set_solver. apply subseteq_size. intros pk Hp.
      destruct (decide (pk ∈ X)); set_solver. }
    assert (N.of_nat (size (W ∖ X)) <= sumN ((fun a => N.of_nat (size a)) <$> A)); [|lia].
    apply IH. intros pk Hp. apply elem_of_difference in Hp as [Hp Hx]. destruct (HW pk Hp) as (Y & [->|HY]%elem_of_cons & Hpy); [done|by exists Y].
Qed.
Lemma agents_series_bounds n A W : agents_ok n A W ->
  (forall k, k ∈ ((fun a : gset PublicKey => N.of_nat (size a)) <$> A) -> k <= N.of_nat (size W)) /\
  N.of_nat (size W) <= sumN ((fun a : gset PublicKey => N.of_nat (size a)) <$> A).
Proof.
  intros [Hl Hw]. split.
  - intros k Hk. apply list_elem_of_fmap in Hk as (X & -> & HX). apply list_elem_of_lookup in HX as [b HX].
    enough (size X <= size W)%nat by lia. apply subseteq_size. intros pk Hp. apply Hw. by exists b, X.
  - apply size_cover. intros pk Hp. apply Hw in Hp as (b & X & HX & Hp). exists X. split; [by eapply list_elem_of_lookup_2|done].
Qed.
Lemma sumN_filter_le {A} (f : A -> N) (P : A -> Prop) `{!forall x, Decision (P x)} l : sumN (f <$> base.filter P l) <= sumN (f <$> l).
Proof.
  induction l as [|x l IH]; [done|]. rewrite filter_cons. rewrite fmap_cons, sumN_cons. case_decide; [rewrite fmap_cons, sumN_cons|]; lia.
Qed.

(** ** The answer *)
Section answer.
Context {E : Type} `{TextForm}.

Lemma preset_window_pos now first : 0 < preset_window now first.
Proof.
  unfold preset_window. destruct first as [oldest|]; [|done]. destruct (list_find _ _) as [[i w]|] eqn:Ef; [|done].
  apply list_find_Some in Ef as (Hw & _ & _). apply list_elem_of_lookup_2 in Hw. unfold SUMMARY_WINDOWS_MS in Hw.
  repeat (apply elem_of_cons in Hw as [->|Hw]; [lia|]). by apply not_elem_of_nil in Hw.
Qed.

(** While the board's bounties, payouts and fees add up within u64, a market series is
    computed without overflow or a bucket out of range; every series has one entry per
    bucket and sums to its total, the totals are those of the market's tasks posted,
    open and settled in the window, and the distinct agents of the window lie between
    the largest bucket and the sum of the buckets. *)
Theorem series_add_up (tasks : list Task) (grants : list Z) (now : DateTime) (q : SeriesQuery) :
  sumN (weight <$> tasks) <= U64_MAX -> N.of_nat (length grants) <= U64_MAX ->
  exists ms, series_for (E := E) tasks grants now q = Ok ms /\
    let market := base.filter (fun t => in_market q t = true) tasks in
    let bucket := bucket_of (ms_start_ms ms) (ms_end_ms ms) (ms_window_ms ms) (ms_buckets ms) in
    (1 <= ms_buckets ms <= MAX_SERIES_BUCKETS)%nat /\ ms_end_ms ms = (ms_start_ms ms + Z.of_N (ms_window_ms ms))%Z /\
    (forall t, posted_in bucket t = true <-> (ms_start_ms ms <= timestamp_millis (t_created_at t) <= ms_end_ms ms)%Z) /\
    figures bucket (ms_buckets ms) market (ms_series ms) /\
    column_ok (ms_buckets ms) (ms_faucet ms) /\
    in_total (ms_faucet ms) = N.of_nat (length (base.filter (fun g => is_Some (bucket (saturating_mul g 1000))) grants)) /\
    length (ms_agents_series ms) = ms_buckets ms /\
    (forall k, k ∈ ms_agents_series ms -> k <= ms_agents ms) /\ ms_agents ms <= sumN (ms_agents_series ms).
Proof.
  intros Hw Hg. unfold series_for. set (market := base.filter _ tasks).
  set (window := match sq_window_ms q with Some _ => _ | None => _ end). set (buckets := Nat.min _ MAX_SERIES_BUCKETS).
  set (bucket := bucket_of _ _ window buckets). assert (Hn : (1 <= buckets <= MAX_SERIES_BUCKETS)%nat) by (unfold buckets, MAX_SERIES_BUCKETS; lia).
  assert (Hlt : forall at_ b, bucket at_ = Some b -> (b < buckets)%nat) by (intros at_ b Hb; eapply bucket_of_lt; [apply Hn|exact Hb]).
  destruct (tasks_step (E := E) bucket buckets Hlt market [] (series_new buckets) (figures_new bucket buckets)) as (s & -> & Hf).
  { etrans; [apply sumN_filter_le|exact Hw]. }
  cbn [mbind outcome_bind].
  destruct (grants_step (E := E) bucket buckets Hlt grants (fun g => saturating_mul g 1000) (zeros buckets) (zeros_ok buckets)) as (c & -> & Hc & Ht); [done|].
  cbn [mbind outcome_bind]. eexists. split; [reflexivity|].
  cbn [ms_window_ms ms_buckets ms_start_ms ms_end_ms ms_series ms_agents_series ms_agents ms_faucet].
  destruct (agents_series_bounds _ _ _ (fg_agents _ _ _ _ Hf)) as [Ha Hs].
  split_and!; [lia..| | |done|done| |done|done].
  - intros t. unfold posted_in. rewrite bool_decide_eq_true. apply bucket_of_window.
  - exact Hf.
  - rewrite length_fmap. apply (fg_agents _ _ _ _ Hf).
Qed.
End answer.

(** ** The summary *)
Section summary.
Context {E : Type} (bucket : Z -> option nat).
Hypothesis bucket_lt : forall at_ b, bucket at_ = Some b -> (b < SUMMARY_BUCKETS)%nat.

Record row_ok (p : Task -> bool) (l : list Task) (r : KindRow) : Prop := {
  ro_open : kr_open r = tally (fun t => p t && is_open t) (fun _ => 1) l;
  ro_bounty : kr_open_bounty r = tally (fun t => p t && is_open t) bounty l;
  ro_posted : in_total (kr_posted r) = tally p (fun _ => 1) l;
  ro_length : length (in_buckets (kr_posted r)) = SUMMARY_BUCKETS;
  ro_sum : sumN (in_buckets (kr_posted r)) = tally (fun t => p t && posted_in bucket t) (fun _ => 1) l
}.
Lemma add_if c a x : a + x <= U64_MAX -> (if c : bool then add64 (E := E) a x else Ok a) = Ok (a + (if c then x else 0)).
Proof. intros Hle. destruct c; [by apply add64_fits|by rewrite N.add_0_r]. Qed.

Lemma tally_bound p f l t : sumN (weight <$> l) + weight t <= U64_MAX -> (forall t, f t <= weight t) -> tally p f l + f t <= U64_MAX.
Proof. intros Hw Hf. pose proof (tally_le p f l Hf). specialize (Hf t). lia. Qed.
Lemma one_weight (t : Task) : 1 <= weight t.
Proof. apply weight_parts. Qed.
Lemma bounty_weight t : bounty t <= weight t.
Proof. apply weight_parts. Qed.
Hint Resolve one_weight bounty_weight : core.

(** A row takes a task of its own and is right without any other. *)
Lemma row_skip p l t r : row_ok p l r -> p t = false -> row_ok p (l ++ [t]) r.
Proof. intros [] Hp. split; rewrite ?tally_snoc, ?Hp; cbn [andb]; rewrite ?N.add_0_r; done. Qed.
Lemma row_step p l t r : row_ok p l r -> p t = true -> sumN (weight <$> l) + weight t <= U64_MAX ->
  exists r', kind_task (E := E) (bucket (timestamp_millis (t_created_at t))) t r = Ok r' /\ row_ok p (l ++ [t]) r'.
Proof.
  intros [Ho Hb Hp Hl Hs] Hpt Hw. unfold kind_task.
  rewrite note_ok by (rewrite Hp; exact (tally_bound p (fun _ => 1) l t Hw one_weight)). cbn [mbind outcome_bind].
  rewrite (add_if (is_open t) (kr_open r) 1) by (rewrite Ho; exact (tally_bound _ (fun _ => 1) l t Hw one_weight)). cbn [mbind outcome_bind].
  rewrite (add_if (is_open t) (kr_open_bounty r) (bounty t)) by (rewrite Hb; exact (tally_bound _ bounty l t Hw bounty_weight)). cbn [mbind outcome_bind].
  destruct (mark_if_ok (E := E) (bucket (timestamp_millis (t_created_at t))) 1 (mkColumn (in_buckets (kr_posted r)) (in_total (kr_posted r) + 1)))
    as (lc & -> & Hlc & Hsc).
  - intros b Hbk. cbn [in_buckets]. rewrite Hl. by eapply bucket_lt.
  - cbn [in_buckets]. rewrite Hs. exact (tally_bound _ (fun _ => 1) l t Hw one_weight).
  - cbn [mbind outcome_bind]. eexists. split; [reflexivity|]. cbn [in_buckets in_total] in *.
    split; cbn [kr_open kr_open_bounty kr_posted in_buckets in_total]; rewrite ?tally_snoc, ?Hpt; cbn [andb]; try congruence.
    rewrite Hsc, Hs. done.
Qed.
Lemma row_new p : row_ok p [] kind_row_new.
Proof. split; try done. Qed.

(** A task changes the row of its kind and of each of its capabilities. *)
Definition of_kind (k : nat) (t : Task) : bool :=
  match kind t with HashMatch _ => k =? 0 | Consensus _ => k =? 1 | Disputable _ => k =? 2 end%nat.
Definition tagged (tag : string) (t : Task) : bool := bool_decide (tag ∈ capabilities t).

Definition capability_ok (l : list Task) (tag : string) (o : option CapabilityRow) : Prop :=
  match o with
  | Some r => (exists t, t ∈ l /\ tag ∈ capabilities t) /\ row_ok (tagged tag) l (cr_row r) /\
      length (in_buckets (cr_bounty r)) = SUMMARY_BUCKETS /\
      sumN (in_buckets (cr_bounty r)) = tally (fun t => tagged tag t && posted_in bucket t) bounty l
  | None => forall t, t ∈ l -> tag ∉ capabilities t
  end.

Lemma tally_absent p f l : (forall t, t ∈ l -> p t = false) -> tally p f l = 0.
Proof.
  intros Hp. unfold tally. induction l as [|t l IH]; [done|]. rewrite fmap_cons, sumN_cons, Hp by (by left). rewrite IH; [done|].
  intros t' Ht'. apply Hp. by right.
Qed.
Lemma capability_start l tag o : capability_ok l tag o ->
  let r := default capability_row_new o in
  row_ok (tagged tag) l (cr_row r) /\ length (in_buckets (cr_bounty r)) = SUMMARY_BUCKETS /\
  sumN (in_buckets (cr_bounty r)) = tally (fun t => tagged tag t && posted_in bucket t) bounty l.
Proof.
  destruct o as [r|]; cbn [default capability_ok]; [by intros (_ & ? & ? & ?)|]. intros Hn.
  assert (Hf : forall t, t ∈ l -> tagged tag t = false) by (intros t Ht; apply bool_decide_eq_false_2; by apply Hn).
  split_and!; [split| |]; try done; symmetry; apply tally_absent; intros t Ht; rewrite (Hf t Ht); done.
Qed.
Lemma capability_step l t tag o : capability_ok l tag o -> tag ∈ capabilities t -> sumN (weight <$> l) + weight t <= U64_MAX ->
  exists r, capability_task (E := E) (bucket (timestamp_millis (t_created_at t))) t (default capability_row_new o) = Ok r /\
    capability_ok (l ++ [t]) tag (Some r).
Proof.
  intros Ho Htag Hw. destruct (capability_start l tag o Ho) as (Hr & Hl & Hs). set (r := default capability_row_new o) in *.
  assert (Htt : tagged tag t = true) by (by apply bool_decide_eq_true_2). unfold capability_task.
  destruct (row_step (tagged tag) l t (cr_row r) Hr Htt Hw) as (r' & -> & Hr'). cbn [mbind outcome_bind].
  destruct (mark_if_ok (E := E) (bucket (timestamp_millis (t_created_at t))) (bounty t) (cr_bounty r)) as (lc & -> & Hlc & Hsc).
  - intros b Hbk. rewrite Hl. by eapply bucket_lt.
  - rewrite Hs. exact (tally_bound _ bounty l t Hw bounty_weight).
  - cbn [mbind outcome_bind]. eexists. split; [reflexivity|]. cbn [capability_ok cr_row cr_bounty in_buckets].
    split_and!; [|done|cbn [in_buckets]; by rewrite Hlc|].
    + exists t. split; [apply elem_of_app; right; by apply list_elem_of_singleton|done].
    + cbn [in_buckets cr_bounty]. rewrite tally_snoc, Htt, Hsc, Hs. done.
Qed.

Record totals_ok (l : list Task) (s : BoardTotals) : Prop := {
  to_open : bt_open_tasks s = tally is_open (fun _ => 1) l;
  to_open_bounty : bt_open_bounty s = tally is_open bounty l;
  to_paid : bt_paid_tasks s = tally is_paid (fun _ => 1) l;
  to_paid_bounty : bt_paid_bounty s = tally is_paid bounty l;
  to_length : length (in_buckets (bt_posted s)) = SUMMARY_BUCKETS;
  to_sum : sumN (in_buckets (bt_posted s)) = tally (posted_in bucket) (fun _ => 1) l
}.
Lemma totals_step l t s : totals_ok l s -> sumN (weight <$> l) + weight t <= U64_MAX ->
  exists s', totals_task (E := E) (bucket (timestamp_millis (t_created_at t))) t s = Ok s' /\ totals_ok (l ++ [t]) s'.
Proof.
  intros [Ho Hb Hp Hq Hl Hs] Hw. unfold totals_task.
  rewrite (add_if (is_open t) (bt_open_tasks s) 1) by (rewrite Ho; exact (tally_bound _ (fun _ => 1) l t Hw one_weight)). cbn [mbind outcome_bind].
  rewrite (add_if (is_open t) (bt_open_bounty s) (bounty t)) by (rewrite Hb; exact (tally_bound _ bounty l t Hw bounty_weight)). cbn [mbind outcome_bind].
  rewrite (add_if (is_paid t) (bt_paid_tasks s) 1) by (rewrite Hp; exact (tally_bound _ (fun _ => 1) l t Hw one_weight)). cbn [mbind outcome_bind].
  rewrite (add_if (is_paid t) (bt_paid_bounty s) (bounty t)) by (rewrite Hq; exact (tally_bound _ bounty l t Hw bounty_weight)). cbn [mbind outcome_bind].
  destruct (mark_if_ok (E := E) (bucket (timestamp_millis (t_created_at t))) 1 (bt_posted s)) as (lc & -> & Hlc & Hsc).
  - intros b Hbk. rewrite Hl. by eapply bucket_lt.
  - rewrite Hs. exact (tally_bound _ (fun _ => 1) l t Hw one_weight).
  - cbn [mbind outcome_bind]. eexists. split; [reflexivity|].
    split; cbn [bt_open_tasks bt_open_bounty bt_paid_tasks bt_paid_bounty bt_posted in_buckets]; rewrite ?tally_snoc; [congruence..|].
    rewrite Hsc, Hs. done.
Qed.

(** The rows of the capabilities a task carries, one after the other. *)
Lemma tags_step l t tags : NoDup tags -> (forall tag, tag ∈ tags -> tag ∈ capabilities t) -> sumN (weight <$> l) + weight t <= U64_MAX ->
  forall m : gmap string CapabilityRow, (forall tag, tag ∈ tags -> capability_ok l tag (m !! tag)) ->
  exists m' : gmap string CapabilityRow, ofold (E := E) (fun (m : gmap string CapabilityRow) tag =>
      row ← capability_task (bucket (timestamp_millis (t_created_at t))) t (default capability_row_new (m !! tag)); Ok (<[tag := row]> m)) m tags = Ok m' /\
    forall tag, if bool_decide (tag ∈ tags) then capability_ok (l ++ [t]) tag (m' !! tag) else m' !! tag = m !! tag.
Proof.
  intros Hnd Hin Hw. induction Hnd as [|tag tags Hn _ IH]; intros m Hm; cbn [ofold].
  - exists m. split; [done|]. intros tag. by rewrite bool_decide_eq_false_2 by apply not_elem_of_nil.
  - destruct (capability_step l t tag (m !! tag)) as (r & -> & Hr); [apply Hm; by left|apply Hin; by left|done|]. cbn [mbind outcome_bind].
    destruct (IH ltac:(intros; apply Hin; by right) (<[tag := r]> m)) as (m' & -> & Hm').
    { intros tag' Ht'. rewrite lookup_insert_ne by (by intros ->). apply Hm. by right. }
    exists m'. split; [done|]. intros tag'. specialize (Hm' tag'). destruct (decide (tag' ∈ tag :: tags)) as [Hc|Hc].
    + rewrite bool_decide_eq_true_2 by done. apply elem_of_cons in Hc as [->|Hc]; [|by rewrite bool_decide_eq_true_2 in Hm'].
      rewrite bool_decide_eq_false_2, lookup_insert_eq in Hm' by done. by rewrite Hm'.
    + rewrite bool_decide_eq_false_2 by done. apply not_elem_of_cons in Hc as [Hne Hc].
      by rewrite bool_decide_eq_false_2, lookup_insert_ne in Hm' by done.
Qed.
Lemma capability_skip l t tag o : capability_ok l tag o -> tag ∉ capabilities t -> capability_ok (l ++ [t]) tag o.
Proof.
  intros Ho Hn. assert (Hf : tagged tag t = false) by (by apply bool_decide_eq_false_2). destruct o as [r|]; cbn [capability_ok] in *.
  - destruct Ho as ((t' & Ht' & Hc) & Hr & Hl & Hs). split_and!; [exists t'; split; [apply elem_of_app; by left|done]|by apply row_skip|done|].
    rewrite tally_snoc, Hf. cbn [andb]. by rewrite N.add_0_r.
  - intros t' [Ht'|Ht']%elem_of_app; [by apply Ho|]. apply list_elem_of_singleton in Ht' as ->. done.
Qed.

Record summing_ok (l : list Task) (s : Summing) : Prop := {
  so_totals : totals_ok l (su_totals s);
  so_hash_match : row_ok (of_kind 0) l (su_hash_match s);
  so_consensus : row_ok (of_kind 1) l (su_consensus s);
  so_disputable : row_ok (of_kind 2) l (su_disputable s);
  so_capabilities : forall tag, capability_ok l tag (su_capabilities s !! tag)
}.
Lemma summing_new_ok : summing_ok [] summing_new.
Proof.
  split; cbn [summing_new su_totals su_hash_match su_consensus su_disputable su_capabilities]; try apply row_new.
  - by split.
  - intros tag. rewrite lookup_empty. intros t Ht. by apply not_elem_of_nil in Ht.
Qed.
Lemma summary_step l t s : summing_ok l s -> sumN (weight <$> l) + weight t <= U64_MAX ->
  exists s', summary_task (E := E) bucket s t = Ok s' /\ summing_ok (l ++ [t]) s'.
Proof.
  intros [Ht Hh Hc Hd Hcap] Hw. unfold summary_task.
  destruct (totals_step l t _ Ht Hw) as (tot & -> & Ht'). cbn [mbind outcome_bind].
  assert (Hk : forall k r, row_ok (of_kind k) l r -> exists r',
    (if of_kind k t then kind_task (E := E) (bucket (timestamp_millis (t_created_at t))) t r else Ok r) = Ok r' /\ row_ok (of_kind k) (l ++ [t]) r').
  { intros k r Hr. destruct (of_kind k t) eqn:Ek; [by apply row_step|]. exists r. split; [done|by apply row_skip]. }
  destruct (Hk 0%nat _ Hh) as (h & Eh & Hh'), (Hk 1%nat _ Hc) as (c & Ec & Hc'), (Hk 2%nat _ Hd) as (d & Ed & Hd').
  unfold of_kind in Eh, Ec, Ed.
  destruct (tags_step l t (elements (capabilities t)) (NoDup_elements _) ltac:(intros; by apply elem_of_elements) Hw (su_capabilities s) ltac:(intros; apply Hcap))
    as (m & Em & Hm).
  exists (mkSumming tot h c d m). split.
  - destruct (kind t); cbn [Nat.eqb] in Eh, Ec, Ed; rewrite ?Eh, ?Ec, ?Ed; cbn [mbind outcome_bind]; rewrite Em; cbn [mbind outcome_bind];
      inv_ok; by subst.
  - split; cbn [su_totals su_hash_match su_consensus su_disputable su_capabilities]; try done. intros tag. specialize (Hm tag).
    case_bool_decide as Hin; [done|]. rewrite Hm. apply capability_skip; [done|]. by rewrite elem_of_elements in Hin.
Qed.
End summary.

Lemma summary_steps {E} bucket (Hlt : forall at_ b, bucket at_ = Some b -> (b < SUMMARY_BUCKETS)%nat) ts : forall l s,
  summing_ok bucket l s -> sumN (weight <$> l ++ ts) <= U64_MAX ->
  exists s', ofold (summary_task (E := E) bucket) s ts = Ok s' /\ summing_ok bucket (l ++ ts) s'.
Proof.
  induction ts as [|t ts IH]; intros l s Hs Hw; [by exists s; rewrite app_nil_r|]. cbn [ofold].
  rewrite cons_middle, app_assoc in Hw |- *. rewrite fmap_app, sumN_app in Hw.
  destruct (summary_step (E := E) bucket Hlt l t s Hs) as (s' & -> & Hs'); [rewrite fmap_app, sumN_app in Hw; cbn in Hw; lia|].
  cbn [mbind outcome_bind]. apply IH; [done|]. by rewrite fmap_app, sumN_app.
Qed.

(** The three kinds share out the board. *)
Lemma tally_kinds p f l : tally (fun t => of_kind 0 t && p t) f l + tally (fun t => of_kind 1 t && p t) f l +
  tally (fun t => of_kind 2 t && p t) f l = tally p f l.
Proof.
  unfold tally. induction l as [|t l IH]; [done|]. rewrite !fmap_cons, !sumN_cons. rewrite <-IH. unfold of_kind.
  destruct (kind t); cbn [Nat.eqb andb]; destruct (p t); lia.
Qed.
Lemma tally_all p f l : (forall t, p t = true) -> tally p f l = sumN (f <$> l).
Proof. intros Hp. unfold tally. f_equal. apply list_fmap_ext. intros i t _. by rewrite Hp. Qed.
Lemma tally_ext p p' f l : (forall t, p t = p' t) -> tally p f l = tally p' f l.
Proof. intros Hp. unfold tally. f_equal. apply list_fmap_ext. intros i t _. by rewrite Hp. Qed.
Lemma count_ones (l : list Task) : sumN ((fun _ => 1) <$> l) = N.of_nat (length l).
Proof. induction l as [|t l IH]; [done|]. rewrite fmap_cons, sumN_cons, IH. cbn [length]. lia. Qed.

(** While the board's bounties add up within u64, the summary is computed without
    overflow; the rows of the three kinds share out the totals and the board, and
    there is one row per capability some task carries, with the tasks and bounties of
    exactly those tasks. *)
Theorem summary_adds_up {E} (tasks : list Task) (now : DateTime) :
  sumN (weight <$> tasks) <= U64_MAX ->
  exists bs, summarize_board (E := E) tasks now = Ok bs /\
    let bucket := bucket_of (timestamp_millis now - Z.of_N (bs_window_ms bs)) (timestamp_millis now) (bs_window_ms bs) SUMMARY_BUCKETS in
    totals_ok bucket tasks (bs_totals bs) /\
    kr_open (bs_hash_match bs) + kr_open (bs_consensus bs) + kr_open (bs_disputable bs) = bt_open_tasks (bs_totals bs) /\
    kr_open_bounty (bs_hash_match bs) + kr_open_bounty (bs_consensus bs) + kr_open_bounty (bs_disputable bs) = bt_open_bounty (bs_totals bs) /\
    in_total (kr_posted (bs_hash_match bs)) + in_total (kr_posted (bs_consensus bs)) + in_total (kr_posted (bs_disputable bs))
      = N.of_nat (bs_total_tasks bs) /\
    NoDup (bs_capabilities bs).*1 /\
    (forall tag, capability_ok bucket tasks tag ((list_to_map (bs_capabilities bs) : gmap string CapabilityRow) !! tag)).
Proof.
  intros Hw. unfold summarize_board. set (window := preset_window _ _).
  set (bucket := bucket_of _ _ window SUMMARY_BUCKETS).
  assert (Hlt : forall at_ b, bucket at_ = Some b -> (b < SUMMARY_BUCKETS)%nat).
  { intros at_ b Hb. eapply bucket_of_lt; [|exact Hb]. unfold SUMMARY_BUCKETS. lia. }
  destruct (summary_steps (E := E) bucket Hlt tasks [] summing_new (summing_new_ok bucket) Hw) as (s & -> & [Ht Hh Hc Hd Hcap]).
  cbn [mbind outcome_bind]. eexists. split; [reflexivity|].
  cbn [bs_window_ms bs_totals bs_hash_match bs_consensus bs_disputable bs_capabilities bs_total_tasks app] in *.
  assert (Hp : sort_by bigger (map_to_list (su_capabilities s)) ≡ₚ map_to_list (su_capabilities s)) by apply sort_by_perm.
  split_and!; [done| | | |rewrite Hp; apply NoDup_fst_map_to_list|].
  - rewrite (ro_open _ _ _ _ Hh), (ro_open _ _ _ _ Hc), (ro_open _ _ _ _ Hd), (to_open _ _ _ Ht). apply tally_kinds.
  - rewrite (ro_bounty _ _ _ _ Hh), (ro_bounty _ _ _ _ Hc), (ro_bounty _ _ _ _ Hd), (to_open_bounty _ _ _ Ht). apply tally_kinds.
  - rewrite (ro_posted _ _ _ _ Hh), (ro_posted _ _ _ _ Hc), (ro_posted _ _ _ _ Hd), <-count_ones, <-(tally_all (fun _ => true)) by done.
    rewrite <-(tally_kinds (fun _ => true)). rewrite !(tally_ext (fun t => of_kind _ t && true) _ _ _ (fun t => andb_true_r _)). done.
  - intros tag. assert (Hnd : NoDup (sort_by bigger (map_to_list (su_capabilities s))).*1) by (rewrite Hp; apply NoDup_fst_map_to_list).
    rewrite (list_to_map_proper _ _ Hnd Hp), list_to_map_to_list. apply Hcap.
Qed.

(** * ToyViews: figures of a small board *)

Module ToyViews.
#[export] Instance ascii_text : TextForm := {| str_trim s := s; to_lowercase s := s |}.

Definition hour : Z := 3600 * 1000000000.
Definition posted_at (id : Uuid) (at_ : DateTime) (tags : gset string) : Task :=
  mkTask id "sum" 100 (HashMatch 7) [9] Open None None 0 at_ 0 None None tags None.
Definition small_board : list Task :=
  [posted_at 1 hour {["python"]}; posted_at 2 (90 * hour) {["python"; "art"]}; posted_at 3 (100 * hour) ∅].
Definition python_day : SeriesQuery := mkSeriesQuery (Some "python"%string) (Some 86400000) (Some 24%nat).

Lemma series_add_up_witness :
  exists ms, series_for (E := unit) small_board [360000%Z; 5%Z] (100 * hour) python_day = Ok ms /\
    in_total (posted (ms_series ms)) = 1 /\ in_total (open_bounty (ms_series ms)) = 200 /\
    sumN (in_buckets (posted_bounty (ms_series ms))) = 100 /\ ms_agents ms = 1 /\ in_total (ms_faucet ms) = 1.
Proof.
  destruct (series_add_up (E := unit) small_board [360000%Z; 5%Z] (100 * hour) python_day) as (ms & E & _); [vm_compute; discriminate..|].
  exists ms. split; [exact E|]. vm_compute in E. injection E as <-. by vm_compute.
Defined.

Lemma summary_adds_up_witness :
  exists bs, summarize_board (E := unit) small_board (100 * hour) = Ok bs /\
    bt_open_bounty (bs_totals bs) = 300 /\ kr_open (bs_hash_match bs) = 3 /\ (bs_capabilities bs).*1 = ["python"; "art"]%string.
Proof.
  destruct (summary_adds_up (E := unit) small_board (100 * hour)) as (bs & E & _); [vm_compute; discriminate|].
  exists bs. split; [exact E|]. vm_compute in E. injection E as <-. by vm_compute.
Defined.
End ToyViews.
