(* ===== verification/NodeClient.v ===== *)
(** * NodeClient: the hub's pooled connections to a node

    Models [hub/src/node_client.rs]: the calls the hub makes of a node, the pool of
    idle connections they share, and the semaphore that bounds how many run at once.

    A call is an [async fn]: it gives way to the others at every [await]. Its body is
    a program over the actions it awaits ([Action]); [perform] is what one action does
    to the client's shared state, and [exec] one step of the whole: of a call, of a
    caller that hangs up, or of a node. A stream the call owns is closed when the call
    lets go of it, which the bodies write out as [Drop].

    What the network does is a choice of the step: a dial or a write fails or not, a
    read fails, a time limit runs out. A node answers what it reads in order, and only
    the messages of [replies]. *)

From S2P Require Import Prelude Types Crypto Params Wire Blockchain Mempool BlockStore Node.

Definition MAX_POOLED_CONNECTIONS : nat := 8.
(** In seconds. *)
Definition NODE_CONNECT_TIMEOUT : N := 5.
Definition NODE_REQUEST_TIMEOUT : N := 20.

(** ** Programs *)
Notation Stream := nat (only parsing).
Inductive Operation : Type := Connecting (address : string) | NodeRequest | NodeSubmission.
Inductive NodeError : Type :=
| TimedOut (op : Operation)
| Unreachable (address : string)
| HandshakeFailed (address : string) (e : HandshakeError)
| BrokenStream
| NoAddresses
| UnexpectedResponse (m : Message).

(** The counters of [Metrics] the client moves. *)
Inductive Counter : Type :=
| node_connections_opened | node_connections_reused | node_connections_retried
| node_pool_saturation_waits | node_pool_wait_ms_total | node_connect_failures | node_timeouts.
#[global] Instance Counter_eq_dec : EqDecision Counter.
Proof. solve_decision. Defined.

(** What a call awaits, or does to what it shares. [Start limit] arms a timer and
    [Elapsed] asks whether it has run out. *)
Inductive Action : Type :=
| Now
| TryAcquire
| Acquire
| Take
| Put (address : string) (s : Stream)
| Adopt (address : string)
| Connect (address : string)
| Drop (s : Stream)
| Write (s : Stream) (m : Message)
| Read (s : Stream)
| Start (limit : N)
| Elapsed
| Count (c : Counter) (n : N).

Definition Res (a : Action) : Type :=
  match a with
  | Now => DateTime
  | TryAcquire | Elapsed | Write _ _ => bool
  | Acquire => N
  | Take => option (string * Stream)
  | Connect _ => option Stream
  | Read _ => option Message
  | Put _ _ | Adopt _ | Drop _ | Start _ | Count _ _ => unit
  end.

Inductive Prog (A : Type) : Type :=
| Ret (x : A)
| Act (a : Action) (k : Res a -> Prog A).
Arguments Ret {A} x.
Arguments Act {A} a k.

Fixpoint then_ {A B} (p : Prog A) (k : A -> Prog B) : Prog B :=
  match p with
  | Ret x => k x
  | Act a c => Act a (fun r => then_ (c r) k)
  end.
Definition act (a : Action) : Prog (Res a) := Act a Ret.

Declare Scope prog_scope.
Delimit Scope prog_scope with prog.
Notation "'let!' x := p 'in' q" := (then_ p (fun x => q)) (at level 200, x name, p at level 100, q at level 200) : prog_scope.
Notation "'do!' p ; q" := (then_ p (fun _ => q)) (at level 200, p at level 100, q at level 200) : prog_scope.
(** The [?] operator. *)
Notation "'let?' x := p 'in' q" :=
  (then_ p (fun r => match r with inr x => q | inl e => Ret (inl e) end))
  (at level 200, x name, p at level 100, q at level 200) : prog_scope.
Open Scope prog_scope.

(** ** Time limits: [within]

    A future that is abandoned drops the streams it opened. *)
Definition opens (a : Action) : Res a -> list Stream -> list Stream :=
  match a with
  | Connect _ => fun r l => match r with Some s => s :: l | None => l end
  | Drop s => fun _ l => base.filter (fun x => x <> s) l
  | _ => fun _ l => l
  end.
Definition drop_all {A} (l : list Stream) (p : Prog A) : Prog A :=
  foldr (fun s q => Act (Drop s) (fun _ => q)) p l.
Definition give_up_on {T} (op : Operation) (opened : list Stream) : Prog (NodeError + T) :=
  drop_all opened (Act (Count node_timeouts 1) (fun _ => Ret (inl (TimedOut op)))).
Fixpoint timed {T} (op : Operation) (opened : list Stream) (p : Prog (NodeError + T)) : Prog (NodeError + T) :=
  match p with
  | Ret r => Ret r
  | Act a k => Act Elapsed (fun late : bool =>
      if late then give_up_on op opened
      else Act a (fun r => timed op (opens a r opened) (k r)))
  end.
Definition within {T} (limit : N) (op : Operation) (p : Prog (NodeError + T)) : Prog (NodeError + T) :=
  Act (Start limit) (fun _ => timed op [] p).

(** ** The client *)
Record NodeClient := mkNodeClient {
  addresses : list string;
  connect_timeout : N;
  request_timeout : N
}.
(** [NodeClient::new], but for the pool, which is [boot_pool] below. *)
Definition new_client (l : list string) : NodeClient := mkNodeClient l NODE_CONNECT_TIMEOUT NODE_REQUEST_TIMEOUT.

(** [perform_handshake_initiator]: what it makes of the reply, and its exchange. *)
Definition read_ack (received_at : DateTime) (reply : option Message) : HandshakeError + Z :=
  match reply with
  | None => inl Network
  | Some (HelloAck magic version accepted timestamp) =>
      if negb accepted || negb (magic =? PROTOCOL_MAGIC) || negb (version =? PROTOCOL_VERSION)
      then inl (Incompatible magic version)
      else inr (timestamp - received_at)%Z
  | Some _ => inl UnexpectedMessage
  end.
Definition handshake_initiator (s : Stream) : Prog (HandshakeError + Z) :=
  let! now := act Now in
  let! sent := act (Write s (hello now)) in
  if negb sent then Ret (inl Network)
  else
    let! received_at := act Now in
    let! reply := act (Read s) in
    Ret (read_ack received_at reply).

(** The future of [connect_one], without its limit. *)
Definition dial (address : string) : Prog (NodeError + Stream) :=
  let! o := act (Connect address) in
  match o with
  | None => Ret (inl (Unreachable address))
  | Some s =>
      let! r := handshake_initiator s in
      match r with
      | inr _ => Ret (inr s)
      | inl e => do! act (Drop s); Ret (inl (HandshakeFailed address e))
      end
  end.
Definition connect_one (c : NodeClient) (address : string) : Prog (NodeError + Stream) :=
  within (connect_timeout c) (Connecting address) (dial address).

Fixpoint connect_from (c : NodeClient) (l : list string) (last_err : option NodeError)
    : Prog (NodeError + string * Stream) :=
  match l with
  | [] =>
      do! act (Count node_connect_failures 1);
      Ret (inl (default NoAddresses last_err))
  | address :: l' =>
      let! r := connect_one c address in
      match r with
      | inr s =>
          do! act (Count node_connections_opened 1);
          do! act (Adopt address);
          Ret (inr (address, s))
      | inl e => connect_from c l' (Some e)
      end
  end.
Definition connect (c : NodeClient) : Prog (NodeError + string * Stream) :=
  connect_from c (addresses c) None.

Definition acquire_permit : Prog unit :=
  let! free := act TryAcquire in
  if free : bool then Ret tt
  else
    do! act (Count node_pool_saturation_waits 1);
    let! waited := act Acquire in
    do! act (Count node_pool_wait_ms_total waited);
    Ret tt.

Definition exchange (c : NodeClient) (s : Stream) (m : Message) : Prog (NodeError + Message) :=
  within (request_timeout c) NodeRequest
    (let! sent := act (Write s m) in
     if negb sent then Ret (inl BrokenStream)
     else
       let! reply := act (Read s) in
       Ret (match reply with Some r => inr r | None => inl BrokenStream end)).

(** The second half of [request]: on a connection of its own. *)
Definition request_fresh (c : NodeClient) (m : Message) : Prog (NodeError + Message) :=
  let? conn := connect c in
  let! r := exchange c conn.2 m in
  match r with
  | inr reply => do! act (Put conn.1 conn.2); Ret (inr reply)
  | inl e => do! act (Drop conn.2); Ret (inl e)
  end.
Definition request (c : NodeClient) (m : Message) : Prog (NodeError + Message) :=
  do! acquire_permit;
  let! pooled := act Take in
  match pooled with
  | Some (address, s) =>
      let! r := exchange c s m in
      match r with
      | inr reply =>
          do! act (Count node_connections_reused 1);
          do! act (Put address s);
          Ret (inr reply)
      | inl _ =>
          do! act (Count node_connections_retried 1);
          do! act (Drop s);
          request_fresh c m
      end
  | None => request_fresh c m
  end.

(** [NodeClient::send] *)
Definition client_send (c : NodeClient) (m : Message) : Prog (NodeError + unit) :=
  do! acquire_permit;
  let? conn := connect c in
  let! r := within (request_timeout c) NodeSubmission
    (let! sent := act (Write conn.2 m) in
     Ret (if sent : bool then inr tt else inl BrokenStream)) in
  match r with
  | inr _ => do! act (Put conn.1 conn.2); Ret (inr tt)
  | inl e => do! act (Drop conn.2); Ret (inl e)
  end.

(** ** The calls *)
Inductive Op : Type :=
| OpChainTip
| OpFetchUtxos (pk : PublicKey)
| OpBalance (pk : PublicKey)
| OpFetchBlocks (start count : N)
| OpSubmit (tx : Transaction).
Inductive Answered : Type :=
| IsTip (height : N)
| AreUtxos (l : list (bool * TransactionOutput))
| IsBalance (n : N)
| AreBlocks (l : list Block)
| IsSent.

Definition op_message (o : Op) : Message :=
  match o with
  | OpChainTip => AskChainTip
  | OpFetchUtxos pk | OpBalance pk => FetchUTXOs pk
  | OpFetchBlocks start count => FetchBlocks start count
  | OpSubmit tx => SubmitTransaction tx
  end.

(** What each call makes of the node's reply. *)
Definition fetched_utxos (m : Message) : outcome NodeError (list (bool * TransactionOutput)) :=
  match m with
  | UTXOs utxos => Ok ((fun e => (e.2, e.1)) <$> utxos)
  | other => Err (UnexpectedResponse other)
  end.
Definition read_reply (o : Op) (m : Message) : outcome NodeError Answered :=
  match o with
  | OpChainTip =>
      match m with
      | ChainTip height _ => Ok (IsTip height)
      | other => Err (UnexpectedResponse other)
      end
  | OpFetchUtxos _ => utxos ← fetched_utxos m; Ok (AreUtxos utxos)
  | OpBalance _ =>
      utxos ← fetched_utxos m;
      total ← expect (checked_sum ((fun e => value e.2) <$> base.filter (fun e : bool * TransactionOutput => e.1 = false) utxos));
      Ok (IsBalance total)
  | OpFetchBlocks _ _ =>
      match m with
      | Blocks blocks => Ok (AreBlocks blocks)
      | other => Err (UnexpectedResponse other)
      end
  | OpSubmit _ => Ok IsSent
  end.
(** [chain_tip], [fetch_utxos], [balance], [fetch_blocks], [submit_transaction] *)
Definition call (c : NodeClient) (o : Op) : Prog (outcome NodeError Answered) :=
  match o with
  | OpSubmit tx =>
      let! r := client_send c (SubmitTransaction tx) in
      Ret (match r with inr _ => Ok IsSent | inl e => Err e end)
  | _ =>
      let! r := request c (op_message o) in
      Ret (match r with inr m => read_reply o m | inl e => Err e end)
  end.

(** ** What the calls share *)

(** A stream: where it goes, what has been written on it, and what is under way. An
    entry [(t, m)] on the way to the node is [m], written by the call [t]; on the way
    back, [(t, m, r)] is the reply [r] to it. *)
Record Sock := mkSock {
  peer : string;
  written : list Message;
  to_node : list (nat * Message);
  from_node : list (nat * Message * Message);
  serving : bool
}.
(** [Pool]: the idle connections, and the semaphore with its queue. A permit released
    while a call waits goes to the one that has waited longest. *)
Record Pool := mkPool {
  address : option string;
  connections : list Stream;
  permits : nat;
  waiting : list nat;
  granted : list nat
}.

(** What a call holds: its streams, each with what was last done on it. *)
Inductive Condition : Type := AtRest | Awaiting (m : Message) | Spoiled.
Record Held := mkHeld { h_peer : string; h_condition : Condition; h_sent : option nat }.
Record Local := mkLocal {
  own : gmap Stream Held;
  heard : list (nat * Message * Message);
  permit : bool;
  slot : bool
}.
Record Running := mkRunning { tk_op : Op; tk_prog : Prog (outcome NodeError Answered); tk_local : Local }.
Record Completion := mkCompletion {
  c_task : nat; c_op : Op; c_heard : list (nat * Message * Message); c_result : outcome NodeError Answered
}.
Record World := mkWorld {
  pool : Pool;
  socks : gmap Stream Sock;
  next_stream : Stream;
  tasks : gmap nat Running;
  next_task : nat;
  metrics : Counter -> N;
  finished : list Completion
}.

Definition with_pool (p : Pool) (w : World) : World :=
  mkWorld p (socks w) (next_stream w) (tasks w) (next_task w) (metrics w) (finished w).
Definition with_socks (m : gmap Stream Sock) (w : World) : World :=
  mkWorld (pool w) m (next_stream w) (tasks w) (next_task w) (metrics w) (finished w).
Definition with_tasks (m : gmap nat Running) (w : World) : World :=
  mkWorld (pool w) (socks w) (next_stream w) m (next_task w) (metrics w) (finished w).

(** [Pool::take]: the stream is popped before the address is read. *)
Definition pool_take (w : World) : World * option (string * Stream) :=
  let p := pool w in
  match last (connections p) with
  | None => (w, None)
  | Some s =>
      let rest := take (pred (length (connections p))) (connections p) in
      let p' := mkPool (address p) rest (permits p) (waiting p) (granted p) in
      match address p with
      | None => (with_socks (delete s (socks w)) (with_pool p' w), None)
      | Some a => (with_pool p' w, Some (a, s))
      end
  end.
(** [Pool::put] *)
Definition pool_put (a : string) (s : Stream) (w : World) : World :=
  let p := pool w in
  if decide (address p = Some a)
  then with_pool (mkPool (address p) (connections p ++ [s]) (permits p) (waiting p) (granted p)) w
  else with_socks (delete s (socks w)) w.
(** [Pool::adopt] *)
Definition close_all (l : list Stream) (m : gmap Stream Sock) : gmap Stream Sock := foldr delete m l.
Definition pool_adopt (a : string) (w : World) : World :=
  let p := pool w in
  if decide (address p = Some a) then w
  else with_socks (close_all (connections p) (socks w))
         (with_pool (mkPool (Some a) [] (permits p) (waiting p) (granted p)) w).

(** The semaphore. *)
Definition try_acquire (w : World) : World * bool :=
  let p := pool w in
  match permits p with
  | O => (w, false)
  | S n => (with_pool (mkPool (address p) (connections p) n (waiting p) (granted p)) w, true)
  end.
(** [Some true]: the permit is taken; [Some false]: queued; [None]: still queued. *)
Definition poll_acquire (t : nat) (w : World) : option (World * bool) :=
  let p := pool w in
  if decide (t ∈ granted p)
  then Some (with_pool (mkPool (address p) (connections p) (permits p) (waiting p)
                          (base.filter (fun x => x <> t) (granted p))) w, true)
  else if decide (t ∈ waiting p) then None
  else match try_acquire w with
       | (w', true) => Some (w', true)
       | _ => Some (with_pool (mkPool (address p) (connections p) (permits p) (waiting p ++ [t]) (granted p)) w, false)
       end.
Definition release (w : World) : World :=
  let p := pool w in
  match waiting p with
  | [] => with_pool (mkPool (address p) (connections p) (S (permits p)) [] (granted p)) w
  | t :: l => with_pool (mkPool (address p) (connections p) (permits p) l (t :: granted p)) w
  end.
(** A call that hangs up in the queue, or with a permit it has not picked up. *)
Definition leave_queue (t : nat) (w : World) : World :=
  let p := pool w in
  let p' := mkPool (address p) (connections p) (permits p)
              (base.filter (fun x => x <> t) (waiting p)) (base.filter (fun x => x <> t) (granted p)) in
  if decide (t ∈ granted p) then release (with_pool p' w) else with_pool p' w.

(** ** One action *)

(** The messages a node answers. *)
Definition replies (m : Message) : bool :=
  match m with
  | Hello _ _ _ | FetchUTXOs _ | FetchTemplate _ | ValidateTemplate _ | DiscoverNodes | AskChainTip
  | FetchBlocks _ _ => true
  | _ => false
  end.

Record Choice := mkChoice { ok : bool; clock : Z; elapsed : N }.

(** What the action leaves the call holding, as the call knows it. *)
Definition set_own (m : gmap Stream Held) (l : Local) : Local := mkLocal m (heard l) (permit l) (slot l).
Definition after (t : nat) (a : Action) : Res a -> Local -> Local :=
  match a with
  | TryAcquire => fun r l => mkLocal (own l) (heard l) (r || permit l) (slot l)
  | Acquire => fun _ l => mkLocal (own l) (heard l) true (slot l)
  | Take => fun r l =>
      mkLocal (match r with Some (a, s) => <[s := mkHeld a AtRest None]> (own l) | None => own l end)
        (heard l) (permit l) true
  | Put _ s => fun _ l => mkLocal (delete s (own l)) (heard l) (permit l) false
  | Drop s => fun _ l => set_own (delete s (own l)) l
  | Connect a => fun r l =>
      match r with Some s => set_own (<[s := mkHeld a AtRest (Some O)]> (own l)) l | None => l end
  | Write s m => fun r l =>
      set_own (alter (fun h => mkHeld (h_peer h)
        (if r : bool then if replies m then Awaiting m else AtRest else Spoiled)
        (if r : bool then S <$> h_sent h else h_sent h)) s (own l)) l
  | Read s => fun r l =>
      match r, h_condition <$> own l !! s with
      | Some x, Some (Awaiting m) =>
          mkLocal (alter (fun h => mkHeld (h_peer h) AtRest (h_sent h)) s (own l)) (heard l ++ [(t, m, x)])
            (permit l) (slot l)
      | _, _ => set_own (alter (fun h => mkHeld (h_peer h) Spoiled (h_sent h)) s (own l)) l
      end
  | _ => fun _ l => l
  end.

Definition upd_sock (f : Sock -> Sock) (s : Stream) (w : World) : World := with_socks (alter f s (socks w)) w.
Definition write_on (t : nat) (m : Message) (k : Sock) : Sock :=
  mkSock (peer k) (written k ++ [m]) (if serving k then to_node k ++ [(t, m)] else to_node k) (from_node k) (serving k).
Definition pop_reply (k : Sock) : Sock := mkSock (peer k) (written k) (to_node k) (tail (from_node k)) (serving k).
Definition new_sock (a : string) : Sock := mkSock a [] [] [] true.

(** [None]: the action is pending. A write on a stream the node has closed succeeds;
    a read of one yields what the node had sent, then fails. *)
Definition perform (t : nat) (ch : Choice) (w : World) (a : Action) : option (World * option (Res a)) :=
  match a return option (World * option (Res a)) with
  | Now => Some (w, Some (clock ch))
  | TryAcquire => let '(w', r) := try_acquire w in Some (w', Some r)
  | Acquire => '(w', got) ← poll_acquire t w; Some (w', if got : bool then Some (elapsed ch) else None)
  | Take => let '(w', r) := pool_take w in Some (w', Some r)
  | Put ad s => Some (pool_put ad s w, Some tt)
  | Adopt ad => Some (pool_adopt ad w, Some tt)
  | Connect ad =>
      if ok ch
      then let s := next_stream w in
           Some (mkWorld (pool w) (<[s := new_sock ad]> (socks w)) (S s) (tasks w) (next_task w) (metrics w) (finished w),
                 Some (Some s))
      else Some (w, Some None)
  | Drop s => Some (with_socks (delete s (socks w)) w, Some tt)
  | Write s m => if ok ch then Some (upd_sock (write_on t m) s w, Some true) else Some (w, Some false)
  | Read s =>
      k ← socks w !! s;
      if ok ch
      then match from_node k with
           | e :: _ => Some (upd_sock pop_reply s w, Some (Some e.2))
           | [] => if serving k then None else Some (w, Some None)
           end
      else Some (w, Some None)
  | Start _ => Some (w, Some tt)
  | Elapsed => Some (w, Some (ok ch))
  | Count c n =>
      Some (mkWorld (pool w) (socks w) (next_stream w) (tasks w) (next_task w)
              (fun c' => if decide (c' = c) then (metrics w c + n) mod 2 ^ 64 else metrics w c') (finished w), Some tt)
  end.
(** The entry a successful read took off its stream. *)
Definition taken_entry (w : World) (a : Action) (ch : Choice) : list (nat * Message * Message) :=
  match a with
  | Read s => if ok ch then from_option (fun k => take 1 (from_node k)) [] (socks w !! s) else []
  | _ => []
  end.

(** ** The whole *)
Inductive Event : Type :=
| Spawn (o : Op)
| Run (t : nat) (ch : Choice)
| Finish (t : nat)
| Cancel (t : nat)
| NodeAnswers (s : Stream) (r : Message)
| NodeSkips (s : Stream)
| NodeCloses (s : Stream).

(** What a call still holds when it ends is closed, and its permit released. *)
Definition let_go (t : nat) (l : Local) (w : World) : World :=
  let w := with_socks (close_all (map_to_list (own l)).*1 (socks w)) (with_tasks (delete t (tasks w)) w) in
  if permit l then release w else w.
Definition empty_local : Local := mkLocal ∅ [] false false.

Definition exec (c : NodeClient) (e : Event) (w : World) : option World :=
  match e with
  | Spawn o =>
      let t := next_task w in
      Some (mkWorld (pool w) (socks w) (next_stream w) (<[t := mkRunning o (call c o) empty_local]> (tasks w)) (S t)
              (metrics w) (finished w))
  | Run t ch =>
      tk ← tasks w !! t;
      match tk_prog tk with
      | Ret _ => None
      | Act a k =>
          '(w', r) ← perform t ch w a;
          match r with
          | None => Some w'
          | Some r =>
              let l := after t a r (tk_local tk) in
              let l := mkLocal (own l) (heard (tk_local tk) ++ taken_entry w a ch) (permit l) (slot l) in
              Some (with_tasks (<[t := mkRunning (tk_op tk) (k r) l]> (tasks w')) w')
          end
      end
  | Finish t =>
      tk ← tasks w !! t;
      match tk_prog tk with
      | Act _ _ => None
      | Ret r =>
          let w' := let_go t (tk_local tk) w in
          Some (mkWorld (pool w') (socks w') (next_stream w') (tasks w') (next_task w') (metrics w')
                  (finished w' ++ [mkCompletion t (tk_op tk) (heard (tk_local tk)) r]))
      end
  | Cancel t =>
      tk ← tasks w !! t;
      Some (leave_queue t (let_go t (tk_local tk) w))
  | NodeAnswers s r =>
      k ← socks w !! s;
      match to_node k with
      | (t, m) :: l =>
          if serving k && replies m
          then Some (upd_sock (fun k => mkSock (peer k) (written k) l (from_node k ++ [(t, m, r)]) true) s w)
          else None
      | [] => None
      end
  | NodeSkips s =>
      k ← socks w !! s;
      match to_node k with
      | _ :: l => Some (upd_sock (fun k => mkSock (peer k) (written k) l (from_node k) (serving k)) s w)
      | [] => None
      end
  | NodeCloses s =>
      k ← socks w !! s;
      Some (upd_sock (fun k => mkSock (peer k) (written k) [] (from_node k) false) s w)
  end.

Definition boot_pool (size : nat) : World :=
  mkWorld (mkPool None [] (Nat.max size 1) [] []) ∅ O ∅ O (fun _ => 0) [].
Inductive reachable (c : NodeClient) (size : nat) : World -> Prop :=
| reachable_boot : reachable c size (boot_pool size)
| reachable_step e w w' : reachable c size w -> exec c e w = Some w' -> reachable c size w'.
