(* ===== verification/NodeClientInv.v ===== *)
(** * NodeClientLogic: what a call relies on and what it leaves

    A small program logic for the calls of [NodeClient]. [needs] is what a call must
    hold for an action, [after] what the action leaves it holding; [wp] says that
    every action of a program finds what it needs, whatever the network answers, and
    that the program ends with its postcondition. Each call meets its specification
    [leaves]. *)

From S2P Require Import Prelude Types Crypto Params Wire Blockchain Mempool BlockStore Node NodeClient.

Definition is_hello (m : Message) : bool := match m with Hello _ _ _ => true | _ => false end.

(** [reads]: the call only asks, and so never dials while a connection is idle. *)
Definition needs (reads : bool) (a : Action) (l : Local) : Prop :=
  match a with
  | TryAcquire | Acquire => permit l = false /\ own l = ∅
  | Take => permit l = true /\ slot l = false /\ own l = ∅
  | Connect _ => permit l = true /\ own l = ∅ /\ (reads = true -> slot l = true)
  | Adopt _ => permit l = true
  | Put ad s => exists n, own l !! s = Some (mkHeld ad AtRest n) /\ n <> Some O /\ (reads = true -> slot l = true)
  | Drop s => is_Some (own l !! s)
  | Write s m => exists ad n, own l !! s = Some (mkHeld ad AtRest n) /\
      is_hello m = bool_decide (n = Some O) /\ (replies m = false -> n = Some 1%nat)
  | Read s => exists ad m n, own l !! s = Some (mkHeld ad (Awaiting m) n)
  | _ => True
  end.
(** A stream the pool or the system hands out is not one the call has. *)
Definition fresh (a : Action) (l : Local) : Res a -> Prop :=
  match a with
  | Take => fun r => match r with Some (_, s) => own l !! s = None | None => True end
  | Connect _ => fun r => match r with Some s => own l !! s = None | None => True end
  | _ => fun _ => True
  end.

Fixpoint wp {A} (reads : bool) (t : nat) (p : Prog A) (Φ : A -> Local -> Prop) (l : Local) : Prop :=
  match p with
  | Ret x => Φ x l
  | Act a k => needs reads a l /\ forall r, fresh a l r -> wp reads t (k r) Φ (after t a r l)
  end.

Section rules.
Context (reads : bool) (t : nat).

Lemma wp_then {A B} (p : Prog A) (k : A -> Prog B) Φ l :
  wp reads t p (fun x => wp reads t (k x) Φ) l -> wp reads t (then_ p k) Φ l.
Proof. revert l. induction p as [x|a c IH]; intros l; [done|]. intros [? Hk]. split; [done|]. intros r Hr. apply IH, Hk, Hr. Qed.

Lemma wp_mono {A} (p : Prog A) Φ Ψ l :
  (forall x l', Φ x l' -> Ψ x l') -> wp reads t p Φ l -> wp reads t p Ψ l.
Proof. intros HΦ. revert l. induction p as [x|a c IH]; intros l; cbn; [apply HΦ|]. intros [? Hk]. split; [done|]. intros r Hr. apply IH, Hk, Hr. Qed.

(** A program under a time limit: before each action it may be given up. *)
Lemma wp_timed {T} op opened a (k : Res a -> Prog (NodeError + T)) Φ l :
  wp reads t (give_up_on op opened) Φ l ->
  wp reads t (Act a (fun r => timed op (opens a r opened) (k r))) Φ l ->
  wp reads t (timed op opened (Act a k)) Φ l.
Proof. intros Hu Hk. split; [done|]. by intros [|] _. Qed.

(** The states a call goes through: with no stream, and with one. *)
Definition bare (hd : list (nat * Message * Message)) (pm sl : bool) : Local := mkLocal ∅ hd pm sl.
Definition one (s : Stream) (h : Held) (hd : list (nat * Message * Message)) (pm sl : bool) : Local :=
  mkLocal {[s := h]} hd pm sl.

Lemma wp_now {A} (k : DateTime -> Prog A) Φ l : (forall n, wp reads t (k n) Φ l) -> wp reads t (Act Now k) Φ l.
Proof. intros H. split; [done|]. intros n _. apply H. Qed.
Lemma wp_start {A} lim (k : unit -> Prog A) Φ l : wp reads t (k tt) Φ l -> wp reads t (Act (Start lim) k) Φ l.
Proof. intros H. split; [done|]. by intros [] _. Qed.
Lemma wp_count {A} x n (k : unit -> Prog A) Φ l : wp reads t (k tt) Φ l -> wp reads t (Act (Count x n) k) Φ l.
Proof. intros H. split; [done|]. by intros [] _. Qed.
Lemma wp_adopt {A} ad (k : unit -> Prog A) Φ l :
  permit l = true -> wp reads t (k tt) Φ l -> wp reads t (Act (Adopt ad) k) Φ l.
Proof. intros Hp H. split; [done|]. by intros [] _. Qed.
Lemma wp_take {A} (k : option (string * Stream) -> Prog A) Φ hd :
  wp reads t (k None) Φ (bare hd true true) ->
  (forall ad s, wp reads t (k (Some (ad, s))) Φ (one s (mkHeld ad AtRest None) hd true true)) ->
  wp reads t (Act Take k) Φ (bare hd true false).
Proof. intros Hn Hs. split; [done|]. intros [[ad s]|] _; [apply Hs|apply Hn]. Qed.
Lemma wp_connect {A} ad (k : option Stream -> Prog A) Φ hd sl :
  (reads = true -> sl = true) ->
  wp reads t (k None) Φ (bare hd true sl) ->
  (forall s, wp reads t (k (Some s)) Φ (one s (mkHeld ad AtRest (Some O)) hd true sl)) ->
  wp reads t (Act (Connect ad) k) Φ (bare hd true sl).
Proof. intros Hsl Hn Hs. split; [done|]. intros [s|] _; [apply Hs|apply Hn]. Qed.
Lemma wp_drop {A} s h (k : unit -> Prog A) Φ hd pm sl :
  wp reads t (k tt) Φ (bare hd pm sl) -> wp reads t (Act (Drop s) k) Φ (one s h hd pm sl).
Proof.
  intros H. split; [exists h; cbn; apply lookup_singleton_eq|]. intros [] _. cbn. unfold set_own. cbn.
  by rewrite delete_singleton_eq.
Qed.
Lemma wp_put {A} s ad n (k : unit -> Prog A) Φ hd pm sl :
  n <> Some O -> (reads = true -> sl = true) ->
  wp reads t (k tt) Φ (bare hd pm false) ->
  wp reads t (Act (Put ad s) k) Φ (one s (mkHeld ad AtRest n) hd pm sl).
Proof.
  intros Hn Hs H. split; [exists n; cbn; by rewrite lookup_singleton_eq|]. intros [] _. cbn.
  by rewrite delete_singleton_eq.
Qed.
Lemma wp_write {A} s m ad n (k : bool -> Prog A) Φ hd pm sl :
  is_hello m = bool_decide (n = Some O) -> (replies m = false -> n = Some 1%nat) ->
  wp reads t (k true) Φ (one s (mkHeld ad (if replies m then Awaiting m else AtRest) (S <$> n)) hd pm sl) ->
  wp reads t (k false) Φ (one s (mkHeld ad Spoiled n) hd pm sl) ->
  wp reads t (Act (Write s m) k) Φ (one s (mkHeld ad AtRest n) hd pm sl).
Proof.
  intros Hh Hr Ht Hf. split; [exists ad, n; cbn; by rewrite lookup_singleton_eq|].
  intros b _. cbn [after]. unfold set_own. cbn [one own heard permit slot]. rewrite alter_singleton_eq. by destruct b.
Qed.
Lemma wp_read {A} s m ad n (k : option Message -> Prog A) Φ hd pm sl :
  (forall r, wp reads t (k (Some r)) Φ (one s (mkHeld ad AtRest n) (hd ++ [(t, m, r)]) pm sl)) ->
  wp reads t (k None) Φ (one s (mkHeld ad Spoiled n) hd pm sl) ->
  wp reads t (Act (Read s) k) Φ (one s (mkHeld ad (Awaiting m) n) hd pm sl).
Proof.
  intros Hs Hn. split; [exists ad, m, n; cbn; by rewrite lookup_singleton_eq|].
  intros r _. cbn [after]. unfold set_own. cbn [one own heard permit slot]. rewrite lookup_singleton_eq. cbn.
  rewrite !alter_singleton_eq. destruct r; [apply Hs|apply Hn].
Qed.
End rules.

Section calls.
Context (c : NodeClient) (t : nat).

Lemma wp_acquire_permit reads Φ : Φ tt (bare [] true false) -> wp reads t acquire_permit Φ empty_local.
Proof.
  intros H. split; [done|]. intros [|] _; [done|].
  apply wp_count. split; [done|]. intros n _. by apply wp_count.
Qed.

(** An exchange ends with the reply to its own message, or with an error. *)
Lemma wp_exchange reads s m ad n hd pm sl Φ :
  replies m = true -> is_hello m = false -> n <> Some O ->
  (forall r, Φ (inr r) (one s (mkHeld ad AtRest (S <$> n)) (hd ++ [(t, m, r)]) pm sl)) ->
  (forall e h, Φ (inl e) (one s h hd pm sl)) ->
  wp reads t (exchange c s m) Φ (one s (mkHeld ad AtRest n) hd pm sl).
Proof.
  intros Hm Hh Hn Hr He. apply wp_start, wp_timed; [by apply wp_count, He|].
  apply wp_write; [by rewrite bool_decide_eq_false_2|congruence| |apply He]. rewrite Hm.
  apply wp_timed; [by apply wp_count, He|]. apply wp_read; [apply Hr|apply He].
Qed.

(** What a completed handshake leaves heard. *)
Definition greeted (hd : list (nat * Message * Message)) : Prop :=
  exists now received ack z, hd = [(t, hello now, ack)] /\ read_ack received (Some ack) = inr z.

(** A dial ends with a stream that has carried the handshake alone, or with none. *)
Lemma wp_connect_one reads ad hd sl Φ :
  (reads = true -> sl = true) ->
  (forall s hd', greeted hd' -> Φ (inr s) (one s (mkHeld ad AtRest (Some 1%nat)) (hd ++ hd') true sl)) ->
  (forall e hd', Φ (inl e) (bare (hd ++ hd') true sl)) ->
  wp reads t (connect_one c ad) Φ (bare hd true sl).
Proof.
  intros Hsl Hs He.
  assert (Hg : forall s h op, wp reads t (give_up_on op [s]) Φ (one s h hd true sl)).
  { intros s h op. apply wp_drop, wp_count. rewrite <- (app_nil_r hd). apply He. }
  assert (Hn : forall op, wp reads t (give_up_on op []) Φ (bare hd true sl)).
  { intros op. apply wp_count. rewrite <- (app_nil_r hd). apply He. }
  assert (Hd : forall s h e, wp reads t (timed (Connecting ad) [s] (Act (Drop s) (fun _ => Ret (inl e)))) Φ (one s h hd true sl)).
  { intros s h e. apply wp_timed; [apply Hg|]. apply wp_drop. rewrite <- (app_nil_r hd). apply He. }
  apply wp_start, wp_timed; [apply Hn|]. apply wp_connect; [done| |].
  { rewrite <- (app_nil_r hd). apply He. }
  intros s. apply wp_timed; [apply Hg|]. apply wp_now. intros now. apply wp_timed; [apply Hg|].
  apply wp_write; [done|done| |apply Hd]. apply wp_timed; [apply Hg|]. apply wp_now. intros received.
  apply wp_timed; [apply Hg|]. apply wp_read; [|apply Hd].
  intros r. change (opens (Read s) (Some r) (opens Now received (opens (Write s (hello now)) true (opens Now now [s])))) with [s].
  cbn [then_]. destruct (read_ack received (Some r)) as [e|z] eqn:E; cbn [then_ act].
  - apply wp_timed; [|apply wp_drop, He]. apply wp_drop, wp_count, He.
  - apply Hs. by exists now, received, r, z.
Qed.

Lemma wp_connect_from reads l : forall last_err hd sl Φ,
  (reads = true -> sl = true) ->
  (forall ad s hd' g, greeted g -> Φ (inr (ad, s)) (one s (mkHeld ad AtRest (Some 1%nat)) (hd' ++ g) true sl)) ->
  (forall e hd', Φ (inl e) (bare hd' true sl)) ->
  wp reads t (connect_from c l last_err) Φ (bare hd true sl).
Proof.
  induction l as [|ad l IH]; intros last_err hd sl Φ Hsl Hs He; [by apply wp_count, He|].
  apply wp_then, wp_connect_one; [done| |].
  - intros s g Hg. apply wp_count, wp_adopt; [done|]. by apply Hs.
  - intros e hd'. by apply IH.
Qed.

(** What a call leaves: no stream, and for a question the reply to it. *)
Definition reads_only (o : Op) : bool := match o with OpSubmit _ => false | _ => true end.
Definition concluded (o : Op) (r : outcome NodeError Answered) (hd : list (nat * Message * Message)) : Prop :=
  (exists e, r = Err e) \/
  if reads_only o
  then exists hd' m, hd = hd' ++ [(t, op_message o, m)] /\ r = read_reply o m
  else r = Ok IsSent /\ exists hd' g, hd = hd' ++ g /\ greeted g.
Definition leaves (o : Op) (r : outcome NodeError Answered) (l : Local) : Prop :=
  own l = ∅ /\ permit l = true /\ concluded o r (heard l).

Definition answered (m : Message) (r : NodeError + Message) (l : Local) : Prop :=
  own l = ∅ /\ permit l = true /\ forall x, r = inr x -> exists hd, heard l = hd ++ [(t, m, x)].

Lemma wp_request_fresh m hd :
  replies m = true -> is_hello m = false ->
  wp true t (request_fresh c m) (answered m) (bare hd true true).
Proof.
  intros Hm Hh. apply wp_then, wp_connect_from; [done| |by intros].
  intros ad s hd' g _. apply wp_then, wp_exchange; [done..| |].
  - intros r. apply wp_put; [done..|]. split; [done|]. split; [done|]. intros x [= <-]. eauto.
  - intros e h. by apply wp_drop.
Qed.
Lemma wp_request m : replies m = true -> is_hello m = false -> wp true t (request c m) (answered m) empty_local.
Proof.
  intros Hm Hh. apply wp_then, wp_acquire_permit. apply wp_take; [by apply wp_request_fresh|].
  intros ad s. apply wp_then, wp_exchange; [done..| |].
  - intros r. apply wp_count, wp_put; [done..|]. split; [done|]. split; [done|]. intros x [= <-]. eauto.
  - intros e h. by apply wp_count, wp_drop, wp_request_fresh.
Qed.

Lemma wp_submit tx :
  wp false t (client_send c (SubmitTransaction tx))
    (fun r l => own l = ∅ /\ permit l = true /\ forall x, r = inr x -> exists hd g, heard l = hd ++ g /\ greeted g) empty_local.
Proof.
  apply wp_then, wp_acquire_permit. apply wp_then, wp_connect_from; [done| |by intros].
  intros ad s hd g Hg. apply wp_then, wp_start, wp_timed; [by apply wp_count, wp_drop|].
  apply wp_write; [done|done| |by apply wp_drop].
  apply wp_put; [done..|]. split; [done|]. split; [done|]. intros _ _. eauto.
Qed.

(** Each call does what the logic asks and leaves what it should. *)
Lemma wp_call o : wp (reads_only o) t (call c o) (leaves o) empty_local.
Proof.
  destruct o as [|pk|pk|start count|tx]; (apply wp_then; eapply wp_mono; [|first [by apply wp_request|by apply wp_submit]]);
    intros r l (Ho & Hp & Hr); (split; [done|split; [done|]]); destruct r as [e|x]; [by left; eauto|..];
    try (by left; eauto); right; cbn [reads_only op_message]; edestruct Hr as [hd Hhd]; eauto.
Qed.
End calls.

(** * NodeClientInv: the invariant of the pool

    What holds of the client's shared state between any two steps: every stream is
    idle in the pool or held by one call, an idle stream goes to the pool's node and
    has no reply under way, and what a call believes of a stream it holds is so. *)

(** ** Streams *)
Definition silent (l : list (nat * Message)) : Prop := Forall (fun e => replies e.2 = false) l.
Definition at_rest (k : Sock) : Prop := from_node k = [] /\ silent (to_node k).
Definition awaits (t : nat) (m : Message) (k : Sock) : Prop :=
  at_rest k \/
  (from_node k = [] /\ exists l, silent l /\ to_node k = l ++ [(t, m)]) \/
  (to_node k = [] /\ exists r, from_node k = [(t, m, r)]).
Definition in_condition (t : nat) (x : Condition) (k : Sock) : Prop :=
  match x with AtRest => at_rest k | Awaiting m => awaits t m k | Spoiled => True end.
Record matches (t : nat) (h : Held) (k : Sock) : Prop := {
  m_peer : peer k = h_peer h;
  m_sent : match h_sent h with Some n => length (written k) = n | None => written k <> [] end;
  m_condition : in_condition t (h_condition h) k
}.
(** A greeting comes first, and what no reply is due to comes right after it. *)
Record written_ok (l : list Message) : Prop := {
  w_hello m : l !! O = Some m -> is_hello m = true;
  w_silent i m : l !! i = Some m -> replies m = false -> i = 1%nat
}.

Record streams_ok (ad : option string) (conns : list Stream) (sk : gmap Stream Sock) (nx : Stream)
    (H : nat -> Stream -> Held -> Prop) : Prop := {
  so_idle s : s ∈ conns -> exists k, sk !! s = Some k /\ ad = Some (peer k) /\ at_rest k /\ written k <> [];
  so_nodup : NoDup conns;
  so_held t s h : H t s h -> s ∉ conns /\ exists k, sk !! s = Some k /\ matches t h k;
  so_one t1 t2 s h1 h2 : H t1 s h1 -> H t2 s h2 -> t1 = t2;
  so_socks s k : sk !! s = Some k ->
    (s < nx)%nat /\ written_ok (written k) /\ (s ∈ conns \/ exists t h, H t s h)
}.

Section streams.
Context (ad : option string) (conns : list Stream) (sk : gmap Stream Sock) (nx : Stream) (H : nat -> Stream -> Held -> Prop).
Hypothesis (OK : streams_ok ad conns sk nx H).

Lemma so_equiv H' : (forall t s h, H t s h <-> H' t s h) -> streams_ok ad conns sk nx H'.
Proof.
  intros E. destruct OK as [A B C D F]. split; [done|done|..].
  - intros t s h Hh. eapply C, E, Hh.
  - intros t1 t2 s h1 h2 ?%E ?%E. eauto.
  - intros s k Hk. destruct (F s k Hk) as (? & ? & [?|(t & h & ?%E)]); eauto 8.
Qed.

(** A change of one stream that leaves it idle, or held by a call that still
    believes what is so. *)
Lemma so_alter f s :
  (forall k, peer (f k) = peer k) -> (forall k, at_rest k -> at_rest (f k)) -> (forall k, written (f k) = written k) ->
  (forall k t x, in_condition t x k -> in_condition t x (f k)) ->
  streams_ok ad conns (alter f s sk) nx H.
Proof.
  intros Hp Hr Hw Hc. destruct OK as [A B C D F].
  assert (L : forall x k, sk !! x = Some k -> exists k', alter f s sk !! x = Some k' /\ (k' = k \/ k' = f k)).
  { intros x k Hk. destruct (decide (x = s)) as [->|].
    - exists (f k). rewrite lookup_alter_eq, Hk. eauto.
    - exists k. rewrite lookup_alter_ne by done. eauto. }
  split; [|done| |done|].
  - intros x Hx. destruct (A x Hx) as (k & Hk & Ha & Hi & Hn). destruct (L _ _ Hk) as (k' & Hk' & [->| ->]); [eauto|].
    exists (f k). rewrite Hp, Hw. eauto.
  - intros t x h Hh. destruct (C _ _ _ Hh) as [Hx (k & Hk & Hm)]. split; [done|].
    destruct (L _ _ Hk) as (k' & Hk' & [->| ->]); [eauto|]. exists (f k). split; [done|].
    destruct Hm as [M1 M2 M3]. split; [by rewrite Hp|by rewrite Hw|by apply Hc].
  - intros x k' Hk'. assert (exists k, sk !! x = Some k /\ (k' = k \/ k' = f k)) as (k & Hk & E).
    { destruct (decide (x = s)) as [->|].
      - rewrite lookup_alter_eq in Hk'. apply fmap_Some in Hk' as (k & ? & ->). eauto.
      - rewrite lookup_alter_ne in Hk' by done. eauto. }
    assert (written k' = written k) as -> by (destruct E as [->| ->]; [done|apply Hw]). by apply (F x).
Qed.

(** The pool hands out its last connection. *)
Lemma so_take t s rest a :
  conns = rest ++ [s] -> ad = Some a ->
  streams_ok ad rest sk nx (fun t' s' h => H t' s' h \/ (t' = t /\ s' = s /\ h = mkHeld a AtRest None)).
Proof.
  intros -> ->. destruct OK as [A B C D F].
  apply NoDup_app in B as (B1 & B2 & _).
  assert (Hs : s ∈ rest ++ [s]) by set_solver.
  split.
  - intros x Hx. apply A. set_solver.
  - done.
  - intros t' s' h [Hh|(-> & -> & ->)].
    + destruct (C _ _ _ Hh) as [Hx Hk]. split; [set_solver|done].
    + split; [set_solver|]. destruct (A s Hs) as (k & Hk & [= E] & Hi & Hn). exists k. by split.
  - intros t1 t2 x h1 h2 [H1|(-> & -> & ->)] [H2|(-> & ? & ->)]; subst; [by eauto|..|done].
    + destruct (C _ _ _ H1) as [? _]. done.
    + destruct (C _ _ _ H2) as [? _]. done.
  - intros x k Hk. destruct (F x k Hk) as (? & ? & [Hx|(t' & h & ?)]); (split; [done|]); (split; [done|]).
    + apply elem_of_app in Hx as [?|?%list_elem_of_singleton]; [by left|]. subst. right. exists t, (mkHeld a AtRest None). by right.
    + right. eauto.
Qed.

(** A call lets go of a stream. *)
Lemma so_drop s : s ∉ conns ->
  streams_ok ad conns (delete s sk) nx (fun t' s' h => H t' s' h /\ s' <> s).
Proof.
  intros Hs. destruct OK as [A B C D F]. split.
  - intros x Hx. rewrite lookup_delete_ne by (intros ->; done). by apply A.
  - done.
  - intros t x h [Hh Hx]. rewrite lookup_delete_ne by done. eauto.
  - intros t1 t2 x h1 h2 [? ?] [? ?]. eauto.
  - intros x k [Hx Hk]%lookup_delete_Some. destruct (F x k Hk) as (? & ? & [?|(t' & h & ?)]); eauto 10.
Qed.
Lemma so_put t s a n :
  H t s (mkHeld a AtRest n) -> n <> Some O -> ad = Some a ->
  streams_ok ad (conns ++ [s]) sk nx (fun t' s' h => H t' s' h /\ s' <> s).
Proof.
  intros Hh Hn ->. destruct OK as [A B C D F].
  destruct (C _ _ _ Hh) as [Hs (k & Hk & [M1 M2 M3])]. cbn in *. split.
  - intros x [Hx| ->%list_elem_of_singleton]%elem_of_app; [by apply A|]. exists k. split; [done|]. split; [by rewrite M1|].
    split; [done|]. destruct n as [[|n]|]; [done|by intros E; rewrite E in M2|done].
  - apply NoDup_app. split; [done|]. split; [set_solver|apply NoDup_singleton].
  - intros t' x h [Hx Hne]. destruct (C _ _ _ Hx) as [? ?]. split; [set_solver|done].
  - intros t1 t2 x h1 h2 [? ?] [? ?]. eauto.
  - intros x k' Hk'. destruct (F x k' Hk') as (? & ? & Hx). split; [done|]. split; [done|].
    destruct (decide (x = s)) as [->|]; [left; set_solver|]. destruct Hx as [?|(t' & h & ?)]; [left; set_solver|right; eauto].
Qed.

Lemma lookup_close_all (l : list Stream) (m : gmap Stream Sock) x :
  close_all l m !! x = if decide (x ∈ l) then None else m !! x.
Proof.
  induction l as [|s l IH]; [done|]. unfold close_all in *. cbn [foldr]. rewrite lookup_delete.
  destruct (decide (s = x)) as [->|Hne].
  - rewrite decide_True by set_solver. done.
  - rewrite IH. destruct (decide (x ∈ l)); [rewrite decide_True by set_solver|rewrite decide_False by set_solver]; done.
Qed.

(** The pool moves to another node. *)
Lemma so_adopt a : streams_ok (Some a) [] (close_all conns sk) nx H.
Proof.
  destruct OK as [A B C D F]. split; [set_solver|by apply NoDup_nil| |done|].
  - intros t s h Hh. destruct (C _ _ _ Hh) as [Hs Hk]. split; [set_solver|]. by rewrite lookup_close_all, decide_False.
  - intros s k Hk. rewrite lookup_close_all in Hk. case_decide; [done|].
    destruct (F s k Hk) as (? & ? & [?|?]); [done|]. eauto.
Qed.
(** A call ends: what it held is closed. *)
Lemma so_close t (o : gmap Stream Held) :
  (forall s h, o !! s = Some h -> H t s h) -> (forall s h, H t s h -> o !! s = Some h) ->
  streams_ok ad conns (close_all (map_to_list o).*1 sk) nx (fun t' s h => H t' s h /\ t' <> t).
Proof.
  intros Hio Hoi. destruct OK as [A B C D F].
  assert (E : forall s, s ∈ (map_to_list o).*1 <-> exists h, H t s h).
  { intros s. rewrite list_elem_of_fmap. split.
    - intros ([x h] & -> & Hx%elem_of_map_to_list). eauto.
    - intros [h Hh]. exists (s, h). split; [done|]. by apply elem_of_map_to_list, Hoi. }
  split.
  - intros s Hs. rewrite lookup_close_all, decide_False; [by apply A|]. intros [h Hh]%E. by destruct (C _ _ _ Hh).
  - done.
  - intros t' s h [Hh Hne]. rewrite lookup_close_all, decide_False; [by eapply C|]. intros [h' Hh']%E. by destruct Hne; eapply D.
  - intros t1 t2 s h1 h2 [? _] [? _]. eauto.
  - intros s k Hk. rewrite lookup_close_all in Hk. destruct (decide _) as [|Hs]; [done|].
    destruct (F s k Hk) as (? & ? & [?|(t' & h & Hh)]); [eauto|]. split; [done|]. split; [done|]. right. exists t', h. split; [done|].
    intros ->. apply Hs, E. eauto.
Qed.

(** A dial opens a stream of its own. *)
Lemma so_connect t a :
  streams_ok ad conns (<[nx := new_sock a]> sk) (S nx)
    (fun t' s' h => H t' s' h \/ (t' = t /\ s' = nx /\ h = mkHeld a AtRest (Some O))).
Proof.
  destruct OK as [A B C D F].
  assert (Hnx : sk !! nx = None).
  { destruct (sk !! nx) as [k|] eqn:E; [|done]. destruct (F _ _ E) as [? _]. lia. }
  assert (L : forall x k, sk !! x = Some k -> <[nx := new_sock a]> sk !! x = Some k).
  { intros x k Hk. rewrite lookup_insert_ne; congruence. }
  assert (Hc : nx ∉ conns). { intros Hx. destruct (A _ Hx) as (k & Hk & _). congruence. }
  assert (Hf : forall t' h, ~ H t' nx h). { intros t' h Hh. destruct (C _ _ _ Hh) as [_ (k & Hk & _)]. congruence. }
  split; [|done|..].
  - intros s Hs. destruct (A s Hs) as (k & Hk & ?). eauto.
  - intros t' s h [Hh|(-> & -> & ->)].
    + destruct (C _ _ _ Hh) as [? (k & Hk & ?)]. eauto.
    + split; [done|]. exists (new_sock a). rewrite lookup_insert_eq. split; [done|]. split; [done|done|]. split; [done|constructor].
  - intros t1 t2 s h1 h2 [H1|(-> & -> & ->)] [H2|(-> & E2 & ->)]; subst; [by eauto|by destruct (Hf _ _ H1)|by destruct (Hf _ _ H2)|done].
  - intros s k Hk. destruct (decide (s = nx)) as [->|Hne].
    + rewrite lookup_insert_eq in Hk. injection Hk as <-. split; [lia|]. split; [by split|]. right. exists t, (mkHeld a AtRest (Some O)). by right.
    + rewrite lookup_insert_ne in Hk by done. destruct (F s k Hk) as (? & ? & [?|(t' & h & ?)]); (split; [lia|]); eauto 8.
Qed.

(** A call works on a stream it holds. *)
Lemma so_work t s h h' f k :
  H t s h -> sk !! s = Some k -> matches t h' (f k) -> written_ok (written (f k)) ->
  streams_ok ad conns (alter f s sk) nx (fun t' s' g => (H t' s' g /\ s' <> s) \/ (t' = t /\ s' = s /\ g = h')).
Proof.
  intros Hh Hk Hm Hw. destruct OK as [A B C D F].
  destruct (C _ _ _ Hh) as [Hs _]. split.
  - intros x Hx. rewrite lookup_alter_ne by (intros ->; done). by apply A.
  - done.
  - intros t' x g [[Hx Hne]|(-> & -> & ->)].
    + rewrite lookup_alter_ne by done. by eapply C.
    + split; [done|]. exists (f k). by rewrite lookup_alter_eq, Hk.
  - intros t1 t2 x h1 h2 [[? ?]|(-> & -> & ->)] [[? ?]|(-> & ? & ->)]; subst; by eauto.
  - intros x k' Hk'. destruct (decide (x = s)) as [->|].
    + rewrite lookup_alter_eq, Hk in Hk'. injection Hk' as <-. destruct (F _ _ Hk) as [? _]. split; [done|]. split; [done|].
      right. exists t, h'. by right.
    + rewrite lookup_alter_ne in Hk' by done. destruct (F _ _ Hk') as (? & ? & [?|(t' & g & ?)]); eauto 10.
Qed.
End streams.

(** ** The invariant *)
Definition holds (ts : gmap nat Running) (t : nat) (s : Stream) (h : Held) : Prop :=
  exists tk, ts !! t = Some tk /\ own (tk_local tk) !! s = Some h.
Record world_ok (w : World) : Prop := {
  wo_streams : streams_ok (address (pool w)) (connections (pool w)) (socks w) (next_stream w) (holds (tasks w));
  wo_tasks t tk : tasks w !! t = Some tk ->
    (t < next_task w)%nat /\ wp (reads_only (tk_op tk)) t (tk_prog tk) (leaves t (tk_op tk)) (tk_local tk);
  wo_done c : c ∈ finished w -> concluded (c_task c) (c_op c) (c_result c) (c_heard c)
}.

(** The holders once the call [t] holds [o]. *)
Definition holds_with (ts : gmap nat Running) (t : nat) (o : gmap Stream Held) (t' : nat) (s : Stream) (h : Held) : Prop :=
  (t' = t /\ o !! s = Some h) \/ (t' <> t /\ holds ts t' s h).
Lemma holds_insert ts t tk t' s h : holds (<[t := tk]> ts) t' s h <-> holds_with ts t (own (tk_local tk)) t' s h.
Proof.
  unfold holds_with, holds. destruct (decide (t' = t)) as [->|Hne].
  - rewrite lookup_insert_eq. naive_solver.
  - rewrite lookup_insert_ne by done. naive_solver.
Qed.

Definition streams_of (w : World) (H : nat -> Stream -> Held -> Prop) : Prop :=
  streams_ok (address (pool w)) (connections (pool w)) (socks w) (next_stream w) H.

Section actions.
Context (w : World) (t : nat) (tk : Running).
Hypothesis (OK : world_ok w) (Ht : tasks w !! t = Some tk).
Notation l := (tk_local tk).

Lemma holds_now t' s h : holds (tasks w) t' s h <-> holds_with (tasks w) t (own l) t' s h.
Proof.
  unfold holds_with, holds. destruct (decide (t' = t)) as [->|Hne]; [|naive_solver].
  rewrite Ht. naive_solver.
Qed.
Lemma own_holds s h : own l !! s = Some h -> holds (tasks w) t s h.
Proof. intros Hs. by exists tk. Qed.

Lemma streams_same w' :
  address (pool w') = address (pool w) -> connections (pool w') = connections (pool w) -> socks w' = socks w ->
  next_stream w' = next_stream w -> streams_of w' (holds_with (tasks w) t (own l)).
Proof.
  intros E1 E2 E3 E4. unfold streams_of. rewrite E1, E2, E3, E4.
  eapply so_equiv; [apply OK|]. apply holds_now.
Qed.

Lemma take_streams w' r :
  own l = ∅ -> pool_take w = (w', r) -> streams_of w' (holds_with (tasks w) t (own (after t Take r l))).
Proof.
  intros Ho. unfold pool_take. destruct (last (connections (pool w))) as [s|] eqn:El.
  2: { intros [= <- <-]. by apply streams_same. }
  apply last_Some in El as [rest El].
  pose proof (wo_streams _ OK) as S.
  assert (take (pred (length (connections (pool w)))) (connections (pool w)) = rest) as ->.
  { rewrite El, length_app, Nat.add_1_r. cbn. by rewrite take_app_length. }
  destruct (address (pool w)) as [a|] eqn:Ea.
  - intros [= <- <-]. cbn. unfold streams_of. cbn. eapply so_equiv.
    + eapply so_take; [exact S|exact El|done].
    + intros t' s' h. unfold holds_with. cbn. rewrite holds_now. unfold holds_with. rewrite Ho, insert_empty, lookup_singleton_Some. naive_solver.
  - exfalso. destruct (so_idle _ _ _ _ _ S s) as (k & _ & E & _); [rewrite El; set_solver|congruence].
Qed.

Lemma put_streams s a n :
  own l !! s = Some (mkHeld a AtRest n) -> n <> Some O ->
  streams_of (pool_put a s w) (holds_with (tasks w) t (delete s (own l))).
Proof.
  intros Hs Hn. pose proof (own_holds _ _ Hs) as Hh.
  assert (E : forall t' s' h, (holds (tasks w) t' s' h /\ s' <> s) <-> holds_with (tasks w) t (delete s (own l)) t' s' h).
  { intros t' s' h. rewrite holds_now. unfold holds_with. rewrite lookup_delete_Some.
    split; [naive_solver|]. intros [?|[Hne Hx]]; [naive_solver|]. split; [auto|]. intros ->.
    destruct Hne. eapply (so_one _ _ _ _ _ (wo_streams _ OK)); eauto. }
  unfold pool_put. destruct (decide (address (pool w) = Some a)) as [Ea|Ea]; unfold streams_of; cbn; (eapply so_equiv; [|exact E]).
  - eapply so_put; [apply OK|exact Hh|done|done].
  - eapply so_drop; [apply OK|]. by destruct (so_held _ _ _ _ _ (wo_streams _ OK) _ _ _ Hh).
Qed.

Lemma drop_streams s :
  is_Some (own l !! s) -> streams_of (with_socks (delete s (socks w)) w) (holds_with (tasks w) t (delete s (own l))).
Proof.
  intros [h0 Hs]. pose proof (own_holds _ _ Hs) as Hh. unfold streams_of. cbn. eapply so_equiv.
  - eapply so_drop; [apply OK|]. by destruct (so_held _ _ _ _ _ (wo_streams _ OK) _ _ _ Hh).
  - intros t' s' h. cbn beta. rewrite holds_now. unfold holds_with. rewrite lookup_delete_Some.
    split; [naive_solver|]. intros [?|[Hne Hx]]; [naive_solver|]. split; [auto|]. intros ->.
    destruct Hne. eapply (so_one _ _ _ _ _ (wo_streams _ OK)); eauto.
Qed.

Lemma adopt_streams a : streams_of (pool_adopt a w) (holds_with (tasks w) t (own l)).
Proof.
  unfold pool_adopt. case_decide; [by apply streams_same|]. unfold streams_of. cbn.
  eapply so_equiv; [eapply so_adopt, OK|]. apply holds_now.
Qed.

Lemma not_held_elsewhere s h t' h' :
  own l !! s = Some h -> holds (tasks w) t' s h' -> t' = t.
Proof. intros Hs Hh. eapply (so_one _ _ _ _ _ (wo_streams _ OK)); [exact Hh|]. by apply own_holds. Qed.

(** Work on a stream the call holds. *)
Lemma work_streams s h h' f k :
  own l !! s = Some h -> socks w !! s = Some k -> matches t h' (f k) -> written_ok (written (f k)) ->
  streams_of (upd_sock f s w) (holds_with (tasks w) t (<[s := h']> (own l))).
Proof.
  intros Hs Hk Hm Hw. unfold streams_of. cbn. eapply so_equiv.
  - eapply (so_work _ _ _ _ _ (wo_streams _ OK) t s h h'); [by apply own_holds|done..].
  - intros t' s' g. cbn beta. rewrite holds_now. unfold holds_with. rewrite lookup_insert_Some. split.
    + intros [[[?|?] ?]|?]; naive_solver.
    + intros [(-> & [[<- <-]|[? ?]])|[Hne Hx]]; [naive_solver..|]. left. split; [naive_solver|].
      intros ->. apply Hne. eapply not_held_elsewhere; eauto.
Qed.

Lemma connect_streams a :
  own l = ∅ ->
  streams_ok (address (pool w)) (connections (pool w)) (<[next_stream w := new_sock a]> (socks w)) (S (next_stream w))
    (holds_with (tasks w) t {[next_stream w := mkHeld a AtRest (Some O)]}).
Proof.
  intros Ho. eapply so_equiv; [eapply so_connect, OK|]. intros t' s' h. cbn beta. rewrite holds_now. unfold holds_with.
  rewrite Ho, lookup_singleton_Some. naive_solver.
Qed.

Lemma alter_insert_own (f : Held -> Held) s h : own l !! s = Some h -> alter f s (own l) = <[s := f h]> (own l).
Proof. intros Hs. apply map_eq. intros x. destruct (decide (x = s)) as [->|]; [by rewrite lookup_alter_eq, lookup_insert_eq, Hs|]. by rewrite lookup_alter_ne, lookup_insert_ne. Qed.

Lemma held_sock s h : own l !! s = Some h -> exists k, socks w !! s = Some k /\ matches t h k /\ written_ok (written k).
Proof.
  intros Hs. destruct (so_held _ _ _ _ _ (wo_streams _ OK) t s h) as [_ (k & Hk & Hm)]; [by apply own_holds|].
  exists k. split; [done|]. split; [done|]. by destruct (so_socks _ _ _ _ _ (wo_streams _ OK) s k Hk) as (_ & ? & _).
Qed.

Lemma write_streams s m ad n :
  own l !! s = Some (mkHeld ad AtRest n) -> is_hello m = bool_decide (n = Some O) -> (replies m = false -> n = Some 1%nat) ->
  streams_of (upd_sock (write_on t m) s w) (holds_with (tasks w) t (own (after t (Write s m) true l))).
Proof.
  intros Hs Hh Hr. cbn [after set_own own]. rewrite (alter_insert_own _ _ _ Hs). cbn [h_peer h_sent].
  destruct (held_sock _ _ Hs) as (k & Hk & [M1 M2 [M3 M4]] & [W1 W2]). cbn in *.
  eapply work_streams; [exact Hs|exact Hk| |].
  - split; cbn; [done| |].
    + destruct n as [n|]; cbn; [rewrite length_app; cbn; lia|]. by destruct (written k).
    + destruct (replies m) eqn:Em; cbn.
      * destruct (serving k) eqn:Es; [right; left; cbn; rewrite Es; eauto|left; split; cbn; rewrite ?Es; done].
      * split; cbn; [done|]. destruct (serving k); [|done]. apply Forall_app. split; [done|]. by repeat constructor.
  - cbn. split.
    + intros m' Hm'. destruct (written k) as [|x xs] eqn:Ew; [|by apply W1].
      cbn in Hm'. injection Hm' as <-. rewrite Hh. apply bool_decide_eq_true. destruct n as [n|]; [cbn in M2; by subst|done].
    + intros i m' [Hi|[Hi Hm']]%lookup_app_Some Hq; [by eapply W2|].
      apply list_lookup_singleton_Some in Hm' as [Hi' <-]. apply Hr in Hq. subst n. cbn in M2. lia.
Qed.
(** A stream that failed is only to be dropped. *)
Lemma spoil_streams s h :
  own l !! s = Some h ->
  streams_of w (holds_with (tasks w) t (alter (fun h => mkHeld (h_peer h) Spoiled (h_sent h)) s (own l))).
Proof.
  intros Hs. rewrite (alter_insert_own _ _ _ Hs). destruct (held_sock _ _ Hs) as (k & Hk & [M1 M2 _] & Hw).
  assert (E : socks w = alter id s (socks w)).
  { apply map_eq. intros x. destruct (decide (x = s)) as [->|]; [|by rewrite lookup_alter_ne].
    rewrite lookup_alter_eq. by destruct (socks w !! s). }
  unfold streams_of. rewrite E. apply (work_streams s h _ id k); done.
Qed.
Lemma read_streams s m ad n k e rest :
  own l !! s = Some (mkHeld ad (Awaiting m) n) -> socks w !! s = Some k -> from_node k = e :: rest ->
  e.1 = (t, m) /\
  streams_of (upd_sock pop_reply s w) (holds_with (tasks w) t (own (after t (Read s) (Some e.2) l))).
Proof.
  intros Hs Hk He. destruct (held_sock _ _ Hs) as (k' & Hk' & [M1 M2 M3] & Hw). simplify_eq.
  cbn in M3. destruct M3 as [[M _]|[[M _]|[Mt [r Mr]]]]; [congruence..|]. rewrite He in Mr. injection Mr as -> ->.
  split; [done|]. cbn [after]. rewrite Hs. cbn [fmap option_fmap option_map h_condition own].
  rewrite (alter_insert_own _ _ _ Hs). eapply work_streams; [exact Hs|exact Hk| |exact Hw].
  split; cbn; [done|done|]. split; cbn; [by rewrite He|]. rewrite Mt. constructor.
Qed.
End actions.
