(* ===== verification/NodeClientStep.v ===== *)
(** * NodeClientStep: every step keeps the invariant

    [world_ok] holds in every reachable state, whatever the network does and whichever
    caller hangs up when. *)

From S2P Require Import Prelude Types Crypto Params Wire Blockchain Mempool BlockStore Node NodeClient NodeClientInv.

(** Two states that differ in the semaphore and the counters only. *)
Record same_but_permits (w w' : World) : Prop := {
  sb_address : address (pool w') = address (pool w);
  sb_connections : connections (pool w') = connections (pool w);
  sb_socks : socks w' = socks w;
  sb_next : next_stream w' = next_stream w;
  sb_tasks : tasks w' = tasks w;
  sb_next_task : next_task w' = next_task w;
  sb_finished : finished w' = finished w
}.
#[export] Instance same_but_permits_refl : Reflexive same_but_permits.
Proof. by intros w. Qed.
#[export] Instance same_but_permits_trans : Transitive same_but_permits.
Proof. intros a b c [] []. split; congruence. Qed.

Lemma try_acquire_same w : same_but_permits w (try_acquire w).1.
Proof. unfold try_acquire. by destruct (permits (pool w)). Qed.
Lemma poll_acquire_same t w w' got : poll_acquire t w = Some (w', got) -> same_but_permits w w'.
Proof.
  unfold poll_acquire. case_decide; [by intros [= <- <-]|]. case_decide; [done|].
  pose proof (try_acquire_same w) as Hs. destruct (try_acquire w) as [w1 [|]]; by intros [= <- <-].
Qed.
Lemma release_same w : same_but_permits w (release w).
Proof. unfold release. by destruct (waiting (pool w)). Qed.
Lemma leave_queue_same t w : same_but_permits w (leave_queue t w).
Proof. unfold leave_queue. case_decide; [|done]. etransitivity; [|apply release_same]. done. Qed.
Lemma let_go_same t l w :
  same_but_permits (with_socks (close_all (map_to_list (own l)).*1 (socks w)) (with_tasks (delete t (tasks w)) w)) (let_go t l w).
Proof. unfold let_go. destruct (permit l); [apply release_same|done]. Qed.

Lemma same_ok w w' : same_but_permits w w' -> world_ok w -> world_ok w'.
Proof.
  intros [E1 E2 E3 E4 E5 E6 E7] [A B C]. split.
  - by rewrite E1, E2, E3, E4, E5.
  - intros t tk. rewrite E5, E6. apply B.
  - intros c. rewrite E7. apply C.
Qed.

(** ** One action of a call *)
Lemma perform_frame t ch w a w' r :
  perform t ch w a = Some (w', r) -> tasks w' = tasks w /\ next_task w' = next_task w /\ finished w' = finished w.
Proof.
  destruct a; cbn; try (by intros [= <- <-]).
  - destruct (try_acquire w) as [w1 b] eqn:E. intros [= <- <-]. pose proof (try_acquire_same w) as []. by rewrite E in *.
  - destruct (poll_acquire t w) as [[w1 got]|] eqn:E; [|done]. intros [= <- <-]. by apply poll_acquire_same in E as [].
  - unfold pool_take. destruct (last _); [|by intros [= <- <-]]. destruct (address (pool w)); by intros [= <- <-].
  - unfold pool_put. case_decide; by intros [= <- <-].
  - unfold pool_adopt. case_decide; by intros [= <- <-].
  - destruct (ok ch); by intros [= <- <-].
  - destruct (ok ch); by intros [= <- <-].
  - destruct (socks w !! s) as [k|]; [|done]. cbn. destruct (ok ch); [|by intros [= <- <-]].
    destruct (from_node k); [destruct (serving k); [done|]|]; by intros [= <- <-].
Qed.

(** The answer is one the logic allows, what the call holds is as the logic says, and
    what it heard is what was under way. *)
Lemma perform_ok w t tk a k ch w' r :
  world_ok w -> tasks w !! t = Some tk -> needs (reads_only (tk_op tk)) a (tk_local tk) ->
  tk_prog tk = Act a k -> perform t ch w a = Some (w', Some r) ->
  fresh a (tk_local tk) r /\
  heard (after t a r (tk_local tk)) = heard (tk_local tk) ++ taken_entry w a ch /\
  streams_of w' (holds_with (tasks w) t (own (after t a r (tk_local tk)))).
Proof.
  intros OK Ht Hn _ Hp. pose proof (streams_same w t tk OK Ht) as Hsame.
  destruct a; cbn [needs perform fresh taken_entry] in *; rewrite ?app_nil_r.
  - simplify_eq. split; [done|]. split; [done|]. by apply Hsame.
  - destruct (try_acquire w) as [w1 b] eqn:E. simplify_eq. pose proof (try_acquire_same w) as [E1 E2 E3 E4 _ _ _].
    rewrite E in *. split; [done|]. split; [done|]. by apply Hsame.
  - destruct (poll_acquire t w) as [[w1 [|]]|] eqn:E; simplify_eq/=. apply poll_acquire_same in E as [E1 E2 E3 E4 _ _ _].
    split; [done|]. split; [done|]. by apply Hsame.
  - destruct (pool_take w) as [w1 x] eqn:E. simplify_eq. destruct Hn as (_ & _ & Ho). split.
    { destruct r as [[ad s]|]; [|done]. by rewrite Ho. }
    split; [done|]. by eapply take_streams.
  - simplify_eq. destruct Hn as (n & Hs & Hn & _). split; [done|]. split; [done|]. by eapply put_streams.
  - simplify_eq. split; [done|]. split; [done|]. by eapply adopt_streams.
  - destruct Hn as (_ & Ho & _). destruct (ok ch); simplify_eq.
    + rewrite Ho. split; [done|]. split; [done|]. cbn. rewrite Ho, insert_empty. by apply (connect_streams w t tk).
    + split; [done|]. split; [done|]. by apply Hsame.
  - simplify_eq. split; [done|]. split; [done|]. by eapply drop_streams.
  - destruct Hn as (ad & n & Hs & Hh & Hr). destruct (ok ch); simplify_eq.
    + split; [done|]. split; [done|]. by eapply write_streams.
    + split; [done|]. split; [done|]. by eapply spoil_streams.
  - destruct Hn as (ad & m & n & Hs).
    destruct (socks w !! s) as [kk|] eqn:Hk; [|done]. cbn in Hp.
    destruct (ok ch); [destruct (from_node kk) as [|e rest] eqn:He; [destruct (serving kk); [done|]|]|]; simplify_eq/=.
    + rewrite He, app_nil_r. split; [done|]. split; [done|]. by eapply spoil_streams.
    + destruct (read_streams w t tk OK Ht s m ad n kk e rest Hs Hk He) as [E1 E2]. split; [done|]. split; [|exact E2].
      rewrite He, Hs. destruct e as [[? ?] ?]. cbn in *. by simplify_eq.
    + rewrite app_nil_r. split; [done|]. split; [done|]. by eapply spoil_streams.
  - simplify_eq. split; [done|]. split; [done|]. by apply Hsame.
  - simplify_eq. split; [done|]. split; [done|]. by apply Hsame.
  - simplify_eq. split; [done|]. split; [done|]. by apply Hsame.
Qed.

Lemma perform_pending t ch w a w' : perform t ch w a = Some (w', None) -> a = Acquire /\ poll_acquire t w = Some (w', false).
Proof.
  destruct a; cbn; try done.
  - by destruct (try_acquire w).
  - destruct (poll_acquire t w) as [[w1 [|]]|] eqn:E; intros H; by simplify_eq/=.
  - by destruct (pool_take w).
  - by destruct (ok ch).
  - by destruct (ok ch).
  - destruct (socks w !! s) as [k|]; [|done]. cbn. destruct (ok ch); [|done]. destruct (from_node k); [|done]. by destruct (serving k).
Qed.

Lemma run_ok w t ch c w' : world_ok w -> exec c (Run t ch) w = Some w' -> world_ok w'.
Proof.
  intros OK. cbn. destruct (tasks w !! t) as [tk|] eqn:Ht; [|done]. cbn.
  destruct (tk_prog tk) as [x|a k] eqn:Hp; [done|]. destruct (perform t ch w a) as [[w1 r]|] eqn:E; [|done]. cbn.
  destruct (perform_frame _ _ _ _ _ _ E) as (F1 & F2 & F3).
  destruct (wo_tasks _ OK t tk Ht) as [Hlt Hwp]. rewrite Hp in Hwp. destruct Hwp as [Hn Hk].
  destruct r as [r|]; intros [= <-].
  - destruct (perform_ok w t tk a k ch w1 r) as (Hf & Hh & Hs); [done..|]. split; cbn; rewrite ?F1, ?F2, ?F3.
    + eapply so_equiv; [exact Hs|]. intros t' s h. rewrite holds_insert. done.
    + intros t' tk'. destruct (decide (t' = t)) as [->|]; [|rewrite lookup_insert_ne by done; apply OK].
      rewrite lookup_insert_eq. intros [= <-]. split; [done|]. cbn. rewrite <- Hh.
      specialize (Hk r Hf). by destruct (after t a r (tk_local tk)).
    + apply OK.
  - apply perform_pending in E as [_ E]. eapply same_ok; [by eapply poll_acquire_same|done].
Qed.

(** ** The end of a call *)
Lemma let_go_ok w t tk : world_ok w -> tasks w !! t = Some tk -> world_ok (let_go t (tk_local tk) w).
Proof.
  intros OK Ht. eapply same_ok; [apply let_go_same|]. split; cbn.
  - eapply so_equiv.
    + eapply (so_close _ _ _ _ _ (wo_streams _ OK) t).
      * intros s h Hs. by exists tk.
      * intros s h (tk' & Htk & Hs). by simplify_eq.
    + intros t' s h. unfold holds. setoid_rewrite lookup_delete_Some. naive_solver.
  - intros t' tk' [_ Hk]%lookup_delete_Some. by apply OK.
  - apply OK.
Qed.

(** ** The node *)
Lemma node_answers_ok w s k t m l r :
  world_ok w -> socks w !! s = Some k -> to_node k = (t, m) :: l -> replies m = true ->
  world_ok (upd_sock (fun k => mkSock (peer k) (written k) l (from_node k ++ [(t, m, r)]) true) s w).
Proof.
  intros OK Hk Ht Hm. destruct OK as [A B C]. split; [|done..]. cbn.
  assert (Hr : ~ at_rest k). { intros [_ H]. rewrite Ht in H. apply Forall_cons_1 in H as [H _]. cbn in H. congruence. }
  assert (Hi : s ∉ connections (pool w)). { intros H. destruct (so_idle _ _ _ _ _ A s H) as (k' & Hk' & _ & ? & _). by simplify_eq. }
  destruct (so_socks _ _ _ _ _ A s k Hk) as (_ & Hw & [?|(t' & h & Hh)]); [done|].
  destruct (so_held _ _ _ _ _ A t' s h Hh) as [_ (k' & Hk' & [M1 M2 M3])]. simplify_eq.
  eapply so_equiv; [eapply (so_work _ _ _ _ _ A t' s h h _ k); [done|done| |done]|].
  - split; cbn; [done|done|]. destruct (h_condition h) as [|q|]; [done| |done].
    destruct M3 as [?|[(Hf & l' & Hl & El)|(Hf & _)]]; [done| |congruence].
    rewrite Ht in El. destruct l' as [|[x y] l'].
    + injection El as -> -> ->. right. right. cbn. rewrite Hf. split; [done|]. by exists r.
    + injection El as <- <- _. apply Forall_cons_1 in Hl as [Hl _]. cbn in Hl. congruence.
  - intros t1 s1 h1. cbn beta. split; [|].
    + intros [[? ?]|(-> & -> & ->)]; done.
    + intros H1. destruct (decide (s1 = s)) as [->|]; [|by left]. right.
      assert (t1 = t') as -> by (eapply (so_one _ _ _ _ _ A); eauto). split; [done|]. split; [done|].
      destruct H1 as (tk1 & E1 & E1'), Hh as (tk2 & E2 & E2'). by simplify_eq.
Qed.

Lemma node_skips_ok w s k e l :
  world_ok w -> socks w !! s = Some k -> to_node k = e :: l ->
  world_ok (upd_sock (fun k => mkSock (peer k) (written k) (tail (to_node k)) (from_node k) (serving k)) s w).
Proof.
  intros OK _ _. destruct OK as [A B C]. split; [|done..]. cbn. clear B C.
  assert (Hsil : forall l, silent l -> silent (tail l)) by (intros x Hx; destruct x; [done|]; by apply Forall_cons_1 in Hx as [_ ?]).
  assert (Hrest : forall k, at_rest k -> at_rest (mkSock (peer k) (written k) (tail (to_node k)) (from_node k) (serving k))).
  { intros q [H1 H2]. split; [done|]. cbn. auto. }
  eapply so_alter; [exact A|done|exact Hrest|done|].
  intros q t x. destruct x as [|m|]; cbn; [apply Hrest| |done].
  intros [H|[(Hf & l' & Hl & El)|(Ht & r & Hf)]]; [left; by apply Hrest|..].
  - destruct l' as [|y l'].
    + left. split; cbn; [done|]. rewrite El. constructor.
    + right. left. cbn. rewrite El. cbn. split; [done|]. exists l'. split; [|done]. by apply Forall_cons_1 in Hl as [_ ?].
  - right. right. cbn. rewrite Ht. eauto.
Qed.
Lemma node_closes_ok w s :
  world_ok w -> world_ok (upd_sock (fun k => mkSock (peer k) (written k) [] (from_node k) false) s w).
Proof.
  intros [A B C]. split; [|done..]. cbn.
  assert (Hrest : forall k, at_rest k -> at_rest (mkSock (peer k) (written k) [] (from_node k) false)).
  { intros q [H1 H2]. split; [done|constructor]. }
  eapply so_alter; [exact A|done|exact Hrest|done|].
  intros q t x. destruct x as [|m|]; cbn; [apply Hrest| |done].
  intros [H|[(Hf & l' & Hl & El)|(Ht & r & Hf)]]; [left; by apply Hrest|..].
  - left. split; [done|constructor].
  - right. right. eauto.
Qed.

Lemma exec_ok c e w w' : world_ok w -> exec c e w = Some w' -> world_ok w'.
Proof.
  intros OK. destruct e as [o|t ch|t|t|s r|s|s]; [|by apply run_ok|..]; cbn.
  - intros [= <-]. split; cbn; [| |apply OK].
    + eapply so_equiv; [apply OK|]. intros t s h. rewrite holds_insert. unfold holds_with. cbn.
      assert (Hno : forall t' s h, holds (tasks w) t' s h -> t' <> next_task w).
      { intros t' s' h' (tk & Htk & _) ->. destruct (wo_tasks _ OK _ _ Htk). lia. }
      setoid_rewrite lookup_empty. split; [by eauto|]. by intros [[_ ?]|[_ ?]].
    + intros t tk. destruct (decide (t = next_task w)) as [->|].
      * rewrite lookup_insert_eq. intros [= <-]. split; [lia|]. apply wp_call.
      * rewrite lookup_insert_ne by done. intros Htk. destruct (wo_tasks _ OK _ _ Htk). split; [lia|done].
  - destruct (tasks w !! t) as [tk|] eqn:Ht; [|done]. cbn. destruct (tk_prog tk) as [x|] eqn:Hp; [|done]. intros [= <-].
    pose proof (let_go_ok w t tk OK Ht) as [A B C]. split; cbn; [done|done|].
    intros y [Hy| ->%list_elem_of_singleton]%elem_of_app; [by apply C|]. cbn.
    destruct (wo_tasks _ OK t tk Ht) as [_ Hwp]. rewrite Hp in Hwp. apply Hwp.
  - destruct (tasks w !! t) as [tk|] eqn:Ht; [|done]. cbn. intros [= <-].
    eapply same_ok; [apply leave_queue_same|]. by apply let_go_ok.
  - destruct (socks w !! s) as [k|] eqn:Hk; [|done]. cbn. destruct (to_node k) as [|[t m] l] eqn:Hl; [done|].
    destruct (serving k && replies m) eqn:E; [|done]. apply andb_true_iff in E as [_ E]. intros [= <-]. by eapply node_answers_ok.
  - destruct (socks w !! s) as [k|] eqn:Hk; [|done]. cbn. destruct (to_node k) as [|e l] eqn:Hl; [done|]. intros [= <-].
    pose proof (node_skips_ok w s k e l OK Hk Hl) as H. unfold upd_sock in *.
    erewrite (alter_ext _ _ (socks w)); [exact H|]. intros x Hx. cbn in *. simplify_eq. by rewrite Hl.
  - destruct (socks w !! s) as [k|]; [|done]. intros [= <-]. by apply node_closes_ok.
Qed.

Lemma boot_ok size : world_ok (boot_pool size).
Proof.
  split; cbn; [|by intros t tk ?%lookup_empty_Some|set_solver].
  split; [set_solver|by apply NoDup_nil|..].
  - by intros t s h (tk & ?%lookup_empty_Some & _).
  - by intros t1 t2 s h1 h2 (tk & ?%lookup_empty_Some & _).
  - by intros s k ?%lookup_empty_Some.
Qed.
Lemma reachable_ok c size w : reachable c size w -> world_ok w.
Proof. induction 1; [apply boot_ok|by eapply exec_ok]. Qed.

(** * NodeClientPermits: the semaphore, and the connections it bounds

    Permits are neither lost nor made: those free, those granted and not picked up,
    and those calls hold add up to the size of the pool. While the hub only asks, the
    connections it keeps are bounded by the same number. *)

Record sem_ok (size : N) (p : Pool) (held : N) (Q : nat -> Prop) : Prop := {
  se_sum : N.of_nat (permits p) + N.of_nat (length (granted p)) + held = size;
  se_full : waiting p <> [] -> permits p = O;
  se_nodup : NoDup (granted p ++ waiting p);
  se_queued t : t ∈ granted p ++ waiting p -> Q t
}.

Lemma sem_mono size p held Q Q' :
  (forall t, t ∈ granted p ++ waiting p -> Q t -> Q' t) -> sem_ok size p held Q -> sem_ok size p held Q'.
Proof. intros H [A B C D]. split; auto. Qed.

Lemma without_id (t : nat) (l : list nat) : t ∉ l -> base.filter (fun x => x <> t) l = l.
Proof.
  induction l as [|x l IH]; intros H; [done|].
  rewrite filter_cons_True by (intros ->; set_solver). f_equal. set_solver.
Qed.
Lemma length_without (t : nat) (l : list nat) : NoDup l -> t ∈ l -> S (length (base.filter (fun x => x <> t) l)) = length l.
Proof.
  intros Hn [l' Hp]%elem_of_Permutation. rewrite Hp. rewrite Hp in Hn. apply NoDup_cons in Hn as [Hn _].
  rewrite filter_cons_False by (intros H; by apply H). cbn. by rewrite without_id.
Qed.

Lemma sem_release size w held Q :
  sem_ok size (pool w) (held + 1) Q -> sem_ok size (pool (release w)) held Q.
Proof.
  intros [A B C D]. unfold release. destruct (waiting (pool w)) as [|t l] eqn:E.
  - split; cbn; rewrite ?app_nil_r in *; [lia|done|done|done].
  - split; cbn.
    + lia.
    + intros _. by apply B.
    + revert C. by rewrite <- Permutation_middle.
    + intros x Hx. apply D. set_solver.
Qed.

Lemma sem_leave size t w held Q :
  sem_ok size (pool w) held Q -> sem_ok size (pool (leave_queue t w)) held (fun x => Q x /\ x <> t).
Proof.
  intros [A B C D]. unfold leave_queue. set (p' := mkPool _ _ _ _ _).
  apply NoDup_app in C as (C1 & C2 & C3).
  assert (H : forall h, N.of_nat (permits (pool w)) + N.of_nat (length (granted p')) + h = size ->
              sem_ok size p' h (fun x => Q x /\ x <> t)).
  { intros h Hh. split; cbn.
    - done.
    - intros Hw. apply B. intros E. apply Hw. by rewrite E.
    - apply NoDup_app. split; [by apply NoDup_filter|]. split; [|by apply NoDup_filter].
      intros x. rewrite !list_elem_of_filter. naive_solver.
    - intros x. rewrite elem_of_app, !list_elem_of_filter. intros Hx. split; [apply D; set_solver|naive_solver]. }
  case_decide as Ht.
  - apply sem_release. apply H. cbn. pose proof (length_without t _ C1 Ht). lia.
  - apply H. cbn. by rewrite without_id.
Qed.

Lemma sem_try size w w' held Q :
  sem_ok size (pool w) held Q -> try_acquire w = (w', true) -> sem_ok size (pool w') (held + 1) Q.
Proof.
  intros [A B C D]. unfold try_acquire. destruct (permits (pool w)) as [|n] eqn:E; [done|]. intros [= <-].
  split; cbn; [lia| |done|done]. intros Hw. by apply B in Hw.
Qed.
Lemma sem_poll size t w w' (got : bool) held (Q : nat -> Prop) :
  sem_ok size (pool w) held Q -> Q t -> poll_acquire t w = Some (w', got) ->
  sem_ok size (pool w') (if got then held + 1 else held) Q /\ (got = true -> t ∉ granted (pool w') ++ waiting (pool w')).
Proof.
  intros Hok Ht. pose proof Hok as [A B C D]. pose proof C as C'. apply NoDup_app in C' as (C1 & C2 & C3). unfold poll_acquire.
  case_decide as Hg; [|case_decide as Hw; [done|]].
  - intros [= <- <-]. cbn. split.
    + split; cbn; [pose proof (length_without t _ C1 Hg); lia|done| |].
      * apply NoDup_app. split; [by apply NoDup_filter|]. split; [|done]. intros x [? Hx]%list_elem_of_filter. by apply C2.
      * intros x. rewrite elem_of_app, list_elem_of_filter. intros Hx. apply D. set_solver.
    + intros _. rewrite elem_of_app, list_elem_of_filter. intros [[? ?]|?]; [done|]. by eapply C2.
  - destruct (try_acquire w) as [w1 [|]] eqn:E; intros [= <- <-].
    + split; [by eapply sem_try|]. intros _. unfold try_acquire in E. destruct (permits (pool w)); [done|].
      injection E as <-. cbn. set_solver.
    + split; [|done]. unfold try_acquire in E. destruct (permits (pool w)) eqn:Ep; [|done]. split; cbn.
      * lia.
      * done.
      * rewrite app_assoc. apply NoDup_app. split; [done|]. split; [set_solver|apply NoDup_singleton].
      * intros x. rewrite app_assoc, elem_of_app, list_elem_of_singleton. intros [?| ->]; auto.
Qed.

(** ** In the whole *)
Definition one_if (b : bool) : N := if b then 1 else 0.
Definition holders (ts : gmap nat Running) : N := map_sum (fun tk => one_if (permit (tk_local tk))) ts.
Definition slots (ts : gmap nat Running) : N := map_sum (fun tk => one_if (slot (tk_local tk))) ts.
Definition queued (ts : gmap nat Running) (t : nat) : Prop :=
  exists tk k, ts !! t = Some tk /\ permit (tk_local tk) = false /\ tk_prog tk = Act Acquire k.
Definition permits_ok (size : nat) (w : World) : Prop :=
  sem_ok (N.of_nat (Nat.max size 1)) (pool w) (holders (tasks w)) (queued (tasks w)).

Lemma queued_other ts t tk x : x <> t -> queued ts x -> queued (<[t := tk]> ts) x.
Proof. intros Hne (tk' & k & H & ?). exists tk', k. by rewrite lookup_insert_ne. Qed.
Lemma queued_delete ts t x : x <> t -> queued ts x -> queued (delete t ts) x.
Proof. intros Hne (tk' & k & H & ?). exists tk', k. by rewrite lookup_delete_ne. Qed.

Lemma after_read_permit t s r l : permit (after t (Read s) r l) = permit l.
Proof. cbn. destruct r; [|done]. by destruct (h_condition <$> _) as [[]|]. Qed.
Lemma after_read_slot t s r l : slot (after t (Read s) r l) = slot l.
Proof. cbn. destruct r; [|done]. by destruct (h_condition <$> _) as [[]|]. Qed.

(** What an action does to the semaphore and to the caller's permit. *)
Lemma perform_permits w t tk a k ch w' r size :
  permits_ok size w -> tasks w !! t = Some tk -> tk_prog tk = Act a k -> needs (reads_only (tk_op tk)) a (tk_local tk) ->
  perform t ch w a = Some (w', Some r) ->
  sem_ok (N.of_nat (Nat.max size 1)) (pool w')
    (holders (tasks w) + one_if (permit (after t a r (tk_local tk))) - one_if (permit (tk_local tk)))
    (fun x => queued (tasks w) x /\ x <> t).
Proof.
  intros OK Ht Hp Hn. unfold permits_ok in OK. pose proof (map_sum_lookup_le (fun tk => one_if (permit (tk_local tk))) _ _ _ Ht) as Hle. cbn in Hle.
  fold (holders (tasks w)) in Hle.
  assert (Hnot : a <> Acquire -> forall x, queued (tasks w) x -> queued (tasks w) x /\ x <> t).
  { intros Hacq x Hx. split; [done|]. intros ->. destruct Hx as (tk' & k' & H1 & _ & H2). simplify_eq.
    rewrite Hp in H2. apply Hacq. congruence. }
  assert (Hsame : forall p, a <> Acquire -> permits p = permits (pool w) -> granted p = granted (pool w) -> waiting p = waiting (pool w) ->
     sem_ok (N.of_nat (Nat.max size 1)) p (holders (tasks w)) (fun x => queued (tasks w) x /\ x <> t)).
  { intros p Ha E1 E2 E3. destruct OK as [A B C D]. split; rewrite ?E1, ?E2, ?E3; auto. }
  destruct a; cbn [perform] in *; intros Hr; try (cbn [after set_own permit]; rewrite N.add_sub);
    try (simplify_eq; by apply Hsame).
  - destruct (try_acquire w) as [w1 b] eqn:E. simplify_eq. destruct Hn as [Hn _]. cbn [after permit]. rewrite Hn. cbn [one_if].
    rewrite N.sub_0_r, orb_false_r. destruct r; cbn [one_if].
    + eapply sem_mono; [|by eapply sem_try]. intros x _. by apply Hnot.
    + unfold try_acquire in E. destruct (permits (pool w)) in E |- *; [|discriminate]. injection E as <-. rewrite N.add_0_r. by apply Hsame.
  - cbn in *. destruct Hn as [Hn _].
    destruct (poll_acquire t w) as [[w1 [|]]|] eqn:E; simplify_eq/=.
    eapply sem_poll in E as [E1 E2]; [|exact OK|by exists tk, k]. rewrite Hn. cbn.
    rewrite N.sub_0_r. eapply sem_mono; [|exact E1]. intros x Hx Hq. split; [done|]. intros ->. by apply E2.
  - unfold pool_take in Hr. destruct (last _); [destruct (address (pool w))|]; simplify_eq; by apply Hsame.
  - unfold pool_put in Hr. case_decide; simplify_eq; by apply Hsame.
  - unfold pool_adopt in Hr. case_decide; simplify_eq; by apply Hsame.
  - destruct (ok ch); simplify_eq; cbn [after set_own permit]; rewrite N.add_sub; by apply Hsame.
  - destruct (ok ch); simplify_eq; by apply Hsame.
  - destruct (socks w !! s) as [kk|]; [|done]. cbn in Hr.
    assert (pool w' = pool w) as ->.
    { destruct (ok ch); [destruct (from_node kk); [destruct (serving kk)|]|]; by simplify_eq/=. }
    rewrite after_read_permit, N.add_sub. by apply Hsame.
Qed.

Lemma holders_set ts t tk tk' :
  ts !! t = Some tk ->
  holders (<[t := tk']> ts) = holders ts + one_if (permit (tk_local tk')) - one_if (permit (tk_local tk)).
Proof.
  intros Ht. pose proof (map_sum_update (fun tk => one_if (permit (tk_local tk))) ts t tk tk' Ht) as H. cbn in H.
  unfold holders. lia.
Qed.
Lemma let_go_permits size t tk w :
  permits_ok size w -> tasks w !! t = Some tk ->
  sem_ok (N.of_nat (Nat.max size 1)) (pool (let_go t (tk_local tk) w)) (holders (delete t (tasks w))) (queued (tasks w)).
Proof.
  intros OK Ht. unfold permits_ok, holders in *. rewrite (map_sum_delete _ _ _ _ Ht) in OK. unfold let_go.
  destruct (permit (tk_local tk)); cbn in OK.
  - apply sem_release. cbn. by rewrite N.add_comm.
  - cbn. exact OK.
Qed.
Lemma let_go_tasks t l w : tasks (let_go t l w) = delete t (tasks w).
Proof. by destruct (let_go_same t l w) as []. Qed.

Lemma exec_permits c e w w' size : world_ok w -> permits_ok size w -> exec c e w = Some w' -> permits_ok size w'.
Proof.
  intros W OK. destruct e as [o|t ch|t|t|s r|s|s]; cbn.
  - intros [= <-]. unfold permits_ok in *. cbn. assert (Hno : tasks w !! next_task w = None).
    { destruct (tasks w !! next_task w) as [tk|] eqn:E; [|done]. destruct (wo_tasks _ W _ _ E). lia. }
    unfold holders. rewrite map_sum_insert by done. cbn. eapply sem_mono; [|exact OK].
    intros x _ Hx. apply queued_other; [|done]. intros ->. destruct Hx as (tk & k & H & _). congruence.
  - destruct (tasks w !! t) as [tk|] eqn:Ht; [|done]. cbn. destruct (tk_prog tk) as [x|a k] eqn:Hp; [done|].
    destruct (perform t ch w a) as [[w1 r]|] eqn:E; [|done]. cbn.
    destruct (perform_frame _ _ _ _ _ _ E) as (F1 & F2 & F3).
    destruct (wo_tasks _ W t tk Ht) as [_ Hwp]. rewrite Hp in Hwp. destruct Hwp as [Hn _].
    destruct r as [r|]; intros [= <-]; unfold permits_ok; cbn; rewrite F1.
    + rewrite (holders_set _ _ _ _ Ht). cbn. eapply sem_mono; [|by eapply perform_permits].
      intros x _ [Hx Hne]. by apply queued_other.
    + apply perform_pending in E as [-> E]. eapply sem_poll in E as [E _]; [exact E|exact OK|].
      exists tk, k. destruct Hn as [Hn _]. done.
  - destruct (tasks w !! t) as [tk|] eqn:Ht; [|done]. cbn. destruct (tk_prog tk) as [x|] eqn:Hp; [|done]. intros [= <-].
    unfold permits_ok. cbn [pool tasks]. rewrite let_go_tasks. eapply sem_mono; [|by apply let_go_permits].
    intros y _ Hy. apply queued_delete; [|done]. intros ->. destruct Hy as (tk' & k & H1 & _ & H2). simplify_eq. congruence.
  - destruct (tasks w !! t) as [tk|] eqn:Ht; [|done]. cbn. intros [= <-]. unfold permits_ok.
    destruct (leave_queue_same t (let_go t (tk_local tk) w)) as [_ _ _ _ -> _ _]. rewrite let_go_tasks.
    eapply sem_mono; [|by apply sem_leave, let_go_permits]. intros y _ [Hy Hne]. by apply queued_delete.
  - destruct (socks w !! s) as [k|]; [|done]. cbn. destruct (to_node k) as [|[t m] l]; [done|].
    destruct (serving k && replies m); [|done]. by intros [= <-].
  - destruct (socks w !! s) as [k|]; [|done]. cbn. destruct (to_node k) as [|e l]; [done|]. by intros [= <-].
  - destruct (socks w !! s) as [k|]; [|done]. by intros [= <-].
Qed.
Lemma reachable_permits c size w : reachable c size w -> permits_ok size w.
Proof.
  induction 1 as [|e w w' Hw IH He].
  - split; cbn; [|done|by apply NoDup_nil|set_solver]. unfold holders. rewrite map_sum_empty. lia.
  - eapply exec_permits; [by eapply reachable_ok|done|done].
Qed.

(** ** Connections while the hub only asks *)
Record local_ok (l : Local) : Prop := {
  lo_permit : slot l = true -> permit l = true;
  lo_own : own l <> ∅ -> slot l = true;
  lo_size : (size (own l) <= 1)%nat
}.
(** Every call under way is a question. *)
Definition asking (w : World) : Prop := forall t tk, tasks w !! t = Some tk -> reads_only (tk_op tk) = true.
Record conns_ok (n : nat) (w : World) : Prop := {
  co_local t tk : tasks w !! t = Some tk -> local_ok (tk_local tk);
  co_sum : N.of_nat (length (connections (pool w))) + slots (tasks w) <= N.of_nat (Nat.max n 1)
}.

Lemma size_alter {A} (f : A -> A) s (m : gmap nat A) : size (alter f s m) = size m.
Proof. rewrite <- !size_dom. by rewrite dom_alter. Qed.
Lemma alter_empty_iff {A} (f : A -> A) s (m : gmap nat A) : alter f s m <> ∅ -> m <> ∅.
Proof. intros H ->. apply H. apply map_eq. intros i. rewrite lookup_empty. destruct (decide (i = s)) as [->|]; [by rewrite lookup_alter_eq, lookup_empty|by rewrite lookup_alter_ne, lookup_empty]. Qed.

Lemma after_local_ok t a r l : needs true a l -> local_ok l -> local_ok (after t a r l).
Proof.
  intros Hn [A B C]. destruct a; cbn [after needs] in *; try done.
  - split; cbn; [|done|done]. intros H. apply A in H. by rewrite H, orb_true_r.
  - destruct Hn as (H1 & H2 & H3). split; cbn; [done|done|]. rewrite H3. destruct r as [[? ?]|]; [|cbn; rewrite map_size_empty; lia].
    rewrite insert_empty, map_size_singleton. lia.
  - destruct Hn as (n & Hs & _ & Hsl). split; cbn; [done| |].
    + intros H. exfalso. apply H. apply map_empty. intros x. rewrite lookup_delete_None.
      destruct (decide (s = x)); [by left|right]. destruct (own l !! x) as [h|] eqn:E; [|done].
      rewrite <- (insert_delete_id _ _ _ Hs), map_size_insert_None in C by apply lookup_delete_eq.
      assert (size (delete s (own l)) = 0)%nat as H0 by lia. apply map_size_empty_iff in H0.
      assert (delete s (own l) !! x = Some h) as H1 by (by rewrite lookup_delete_ne). by rewrite H0 in H1.
    + rewrite map_size_delete, Hs. lia.
  - destruct Hn as (H1 & H2 & H3). destruct r as [s|]; [|done]. split; cbn; [done|auto|]. rewrite H2, insert_empty, map_size_singleton. lia.
  - split; cbn; [done| |].
    + intros H. apply B. intros E. apply H. by rewrite E, delete_empty.
    + destruct Hn as [h Hs]. rewrite map_size_delete, Hs. lia.
  - split; cbn; [done| |by rewrite size_alter]. intros H%alter_empty_iff. auto.
  - assert (E : forall l', slot l' = slot l -> permit l' = permit l -> (exists f, own l' = alter f s (own l)) -> local_ok l').
    { intros l' E1 E2 [f E3]. split; rewrite ?E1, ?E2, ?E3; [done| |by rewrite size_alter]. intros H%alter_empty_iff. auto. }
    apply E; [apply after_read_slot|apply after_read_permit|].
    cbn. destruct r; [destruct (h_condition <$> _) as [[]|]|]; cbn; eauto.
Qed.

Lemma perform_conns w t l a ch w' r :
  needs true a l -> perform t ch w a = Some (w', Some r) ->
  N.of_nat (length (connections (pool w'))) + one_if (slot (after t a r l)) <=
    N.of_nat (length (connections (pool w))) + one_if (slot l) \/
  connections (pool w') = [].
Proof.
  intros Hn. destruct a; cbn [perform needs] in *; intros Hp; try (simplify_eq; left; cbn; lia).
  - destruct (try_acquire w) as [w1 b] eqn:E. simplify_eq. left. pose proof (try_acquire_same w) as [_ E2 _ _ _ _ _].
    rewrite E in E2. cbn in *. rewrite E2. lia.
  - destruct (poll_acquire t w) as [[w1 [|]]|] eqn:E; simplify_eq/=. apply poll_acquire_same in E as [_ E2 _ _ _ _ _]. left. rewrite E2. lia.
  - destruct Hn as (_ & Hs & _). unfold pool_take in Hp. destruct (last (connections (pool w))) as [s|] eqn:El.
    + left. apply last_Some in El as [rest El].
      assert (length (connections (pool w')) = length rest) as ->.
      { destruct (address (pool w)); simplify_eq/=; rewrite El, length_take, length_app; cbn; lia. }
      rewrite El, length_app, Hs. cbn. lia.
    + right. simplify_eq. by apply last_None in El.
  - destruct Hn as (n & _ & _ & Hs). specialize (Hs eq_refl). left. unfold pool_put in Hp. cbn. rewrite Hs.
    case_decide; simplify_eq; cbn; rewrite ?length_app; cbn; lia.
  - left. unfold pool_adopt in Hp. case_decide; simplify_eq; cbn; lia.
  - left. destruct (ok ch); simplify_eq; cbn; lia.
  - left. destruct (ok ch); simplify_eq; cbn; lia.
  - left. rewrite after_read_slot. destruct (socks w !! s) as [k|]; [|done]. cbn in Hp.
    assert (pool w' = pool w) as -> by (destruct (ok ch); [destruct (from_node k); [destruct (serving k)|]|]; by simplify_eq/=).
    lia.
Qed.

Lemma slots_le_holders ts : (forall t tk, ts !! t = Some tk -> local_ok (tk_local tk)) -> slots ts <= holders ts.
Proof.
  intros H. apply map_sum_mono. intros t tk Ht. destruct (H t tk Ht) as [Hp _ _].
  destruct (slot (tk_local tk)); [by rewrite Hp|]. cbn. lia.
Qed.

Lemma let_go_conns n t l w : conns_ok n w -> conns_ok n (let_go t l w).
Proof.
  intros [A B]. destruct (let_go_same t l w) as [_ E2 _ _ E5 _ _]. cbn in *. split.
  - rewrite E5. intros x tk [_ Hx]%lookup_delete_Some. eauto.
  - rewrite E2, E5. pose proof (map_sum_delete_le (fun tk => one_if (slot (tk_local tk))) (tasks w) t). unfold slots in *. lia.
Qed.
Lemma same_conns n w w' : same_but_permits w w' -> conns_ok n w -> conns_ok n w'.
Proof. intros [_ E2 _ _ E5 _ _] [A B]. split; rewrite ?E2, ?E5; done. Qed.

Lemma run_conns n c t ch w w' :
  world_ok w -> permits_ok n w -> asking w -> conns_ok n w -> exec c (Run t ch) w = Some w' -> conns_ok n w'.
Proof.
  intros W P Q [A B] E. pose proof (exec_permits _ _ _ _ _ W P E) as [P' _ _ _]. revert E. cbn.
  destruct (tasks w !! t) as [tk|] eqn:Ht; [|done]. cbn. destruct (tk_prog tk) as [x|a k] eqn:Hp; [done|].
  destruct (perform t ch w a) as [[w1 r]|] eqn:E; [|done]. cbn.
  destruct (perform_frame _ _ _ _ _ _ E) as (F1 & F2 & F3).
  destruct (wo_tasks _ W t tk Ht) as [_ Hwp]. rewrite Hp, (Q _ _ Ht) in Hwp. destruct Hwp as [Hn _].
  destruct r as [r|]; intros Hw; [|apply perform_pending in E as [_ E]; apply poll_acquire_same in E; simplify_eq; by eapply same_conns].
  assert (HL : forall x y, tasks w' !! x = Some y -> local_ok (tk_local y)).
  { injection Hw as <-. cbn. rewrite F1. intros x y. destruct (decide (x = t)) as [->|]; [|rewrite lookup_insert_ne by done; eauto].
    rewrite lookup_insert_eq. intros [= <-]. destruct (after_local_ok t a r _ Hn (A _ _ Ht)) as [L1 L2 L3]. by split. }
  split; [exact HL|]. pose proof (slots_le_holders _ HL) as Hle.
  destruct (perform_conns w t _ a ch w1 r Hn E) as [Hc|Hc].
  - injection Hw as <-. cbn in *. rewrite F1 in *.
    pose proof (map_sum_update (fun tk => one_if (slot (tk_local tk))) (tasks w) t tk
      (mkRunning (tk_op tk) (k r) (mkLocal (own (after t a r (tk_local tk))) (heard (tk_local tk) ++ taken_entry w a ch)
         (permit (after t a r (tk_local tk))) (slot (after t a r (tk_local tk))))) Ht) as Hu.
    cbn in Hu. unfold slots in *. lia.
  - injection Hw as <-. cbn [pool tasks with_tasks] in *. rewrite Hc. cbn [length]. lia.
Qed.

Lemma exec_conns n c e w w' :
  world_ok w -> permits_ok n w -> asking w -> conns_ok n w -> exec c e w = Some w' -> conns_ok n w'.
Proof.
  intros W P Q C. destruct e as [o|t ch|t|t|s r|s|s]; [|by apply run_conns|..]; cbn.
  - intros [= <-]. destruct C as [A B]. split; cbn.
    + intros t tk. destruct (decide (t = next_task w)) as [->|]; [|rewrite lookup_insert_ne by done; eauto].
      rewrite lookup_insert_eq. intros [= <-]. split; cbn; [done|done|]. rewrite map_size_empty. lia.
    + pose proof (map_sum_insert_le (fun tk => one_if (slot (tk_local tk))) (tasks w) (next_task w) (mkRunning o (call c o) empty_local)) as H.
      cbn in H. unfold slots in *. lia.
  - destruct (tasks w !! t) as [tk|] eqn:Ht; [|done]. cbn. destruct (tk_prog tk); [|done]. intros [= <-].
    by destruct (let_go_conns n t (tk_local tk) w C).
  - destruct (tasks w !! t) as [tk|] eqn:Ht; [|done]. cbn. intros [= <-].
    eapply same_conns; [apply leave_queue_same|]. by apply let_go_conns.
  - destruct (socks w !! s) as [k|]; [|done]. cbn. destruct (to_node k) as [|[t m] l]; [done|].
    destruct (serving k && replies m); [|done]. intros [= <-]. by destruct C.
  - destruct (socks w !! s) as [k|]; [|done]. cbn. destruct (to_node k) as [|e l]; [done|]. intros [= <-]. by destruct C.
  - destruct (socks w !! s) as [k|]; [|done]. intros [= <-]. by destruct C.
Qed.

(** The states of a hub that submits nothing. *)
Inductive asking_run (c : NodeClient) (n : nat) : World -> Prop :=
| asking_boot : asking_run c n (boot_pool n)
| asking_step e w w' : asking_run c n w -> (forall tx, e <> Spawn (OpSubmit tx)) -> exec c e w = Some w' -> asking_run c n w'.

Lemma asking_reachable c n w : asking_run c n w -> reachable c n w.
Proof. induction 1; [apply reachable_boot|by eapply reachable_step]. Qed.

Lemma exec_asking c e w w' : asking w -> (forall tx, e <> Spawn (OpSubmit tx)) -> exec c e w = Some w' -> asking w'.
Proof.
  intros Q He. destruct e as [o|t ch|t|t|s r|s|s]; cbn.
  - intros [= <-] t tk. cbn. destruct (decide (t = next_task w)) as [->|]; [|rewrite lookup_insert_ne by done; apply Q].
    rewrite lookup_insert_eq. intros [= <-]. cbn. destruct o; try done. by destruct (He tx).
  - destruct (tasks w !! t) as [tk|] eqn:Ht; [|done]. cbn. destruct (tk_prog tk) as [x|a k] eqn:Hp; [done|].
    destruct (perform t ch w a) as [[w1 r]|] eqn:E; [|done]. cbn. destruct (perform_frame _ _ _ _ _ _ E) as (F1 & _ & _).
    destruct r as [r|]; intros [= <-] x y; cbn; rewrite F1; [|apply Q].
    destruct (decide (x = t)) as [->|]; [|rewrite lookup_insert_ne by done; apply Q]. rewrite lookup_insert_eq. intros [= <-]. cbn. by eapply Q.
  - destruct (tasks w !! t) as [tk|] eqn:Ht; [|done]. cbn. destruct (tk_prog tk) as [z|]; [|done]. intros [= <-] x y. cbn.
    rewrite let_go_tasks. intros [_ Hx]%lookup_delete_Some. eauto.
  - destruct (tasks w !! t) as [tk|] eqn:Ht; [|done]. cbn. intros [= <-] x y.
    destruct (leave_queue_same t (let_go t (tk_local tk) w)) as [_ _ _ _ -> _ _]. rewrite let_go_tasks.
    intros [_ Hx]%lookup_delete_Some. eauto.
  - destruct (socks w !! s) as [k|]; [|done]. cbn. destruct (to_node k) as [|[t m] l]; [done|].
    destruct (serving k && replies m); [|done]. by intros [= <-].
  - destruct (socks w !! s) as [k|]; [|done]. cbn. destruct (to_node k) as [|e l]; [done|]. by intros [= <-].
  - destruct (socks w !! s) as [k|]; [|done]. by intros [= <-].
Qed.

Lemma asking_conns c n w : asking_run c n w -> asking w /\ conns_ok n w.
Proof.
  induction 1 as [|e w w' Hw [IH1 IH2] Hne He].
  - split; [intros t tk; cbn; by intros ?%lookup_empty_Some|]. split; cbn; [by intros t tk ?%lookup_empty_Some|].
    unfold slots. rewrite map_sum_empty. lia.
  - apply asking_reachable in Hw. split; [by eapply exec_asking|].
    eapply exec_conns; [by eapply reachable_ok|by eapply reachable_permits|done..].
Qed.
