(* ===== verification/NodeClientTheorems.v ===== *)
(** * NodeClientTheorems: what the hub can rely on of its node client

    Replies reach the call that asked; a submission goes on a connection of its own,
    after a handshake; the pool holds connections to one node; permits are conserved;
    the time limits of a call add up to less than the sweep's interval. While the hub
    only asks, the pool's size bounds its connections; every submission adds one. *)

From S2P Require Import Prelude Types Crypto Params Wire Blockchain Mempool BlockStore Node NodeClient NodeClientInv NodeClientStep.

(** [main::SWEEP_INTERVAL_SECONDS] *)
Definition SWEEP_INTERVAL_SECONDS : N := 60.

(** ** Time limits *)

(** The limits a program arms, along any of its runs, add up to at most [b]. *)
Definition cost (a : Action) : N := match a with Start limit => limit | _ => 0 end.
Fixpoint spends {A} (p : Prog A) (b : N) : Prop :=
  match p with
  | Ret _ => True
  | Act a k => cost a <= b /\ forall r, spends (k r) (b - cost a)
  end.

Lemma spends_mono {A} (p : Prog A) b b' : b <= b' -> spends p b -> spends p b'.
Proof. revert b b'. induction p as [x|a k IH]; intros b b' Hb; [done|]. intros [H1 H2]. split; [lia|]. intros r. eapply IH; [|apply H2]. lia. Qed.
Lemma spends_then {A B} (p : Prog A) (k : A -> Prog B) b b' :
  spends p b -> (forall x, spends (k x) b') -> spends (then_ p k) (b + b').
Proof.
  revert b. induction p as [x|a c IH]; intros b Hp Hk.
  - eapply spends_mono; [|apply Hk]. lia.
  - destruct Hp as [H1 H2]. split; [lia|]. intros r. replace (b + b' - cost a) with (b - cost a + b') by lia. by apply IH.
Qed.
Lemma spends_drop_all {A} l (p : Prog A) b : spends p b -> spends (drop_all l p) b.
Proof. intros Hp. induction l as [|s l IH]; [done|]. split; [cbn; lia|]. intros []. cbn. by rewrite N.sub_0_r. Qed.
Lemma spends_timed {T} op (p : Prog (NodeError + T)) b : forall l, spends p b -> spends (timed op l p) b.
Proof.
  revert b. induction p as [x|a k IH]; intros b l; [done|]. intros [H1 H2]. split; [cbn; lia|]. cbn [cost]. rewrite N.sub_0_r.
  intros [|].
  - apply spends_drop_all. split; [cbn; lia|done].
  - split; [done|]. intros r. by apply IH.
Qed.
Lemma spends_within {T} limit op (p : Prog (NodeError + T)) : spends p 0 -> spends (within limit op p) limit.
Proof. intros Hp. split; [done|]. intros []. cbn. rewrite N.sub_diag. by apply spends_timed. Qed.

(** No limit of its own. *)
Ltac spends0 := cbn; repeat (split; [lia|intro]); try done; repeat (case_match; cbn; repeat (split; [lia|intro]); try done).

Section limits.
Context (c : NodeClient).

Lemma spends_exchange s m : spends (exchange c s m) (request_timeout c).
Proof. apply spends_within. spends0. Qed.
Lemma spends_connect_from l e : spends (connect_from c l e) (N.of_nat (length l) * connect_timeout c).
Proof.
  revert e. induction l as [|a l IH]; intros e; [spends0|].
  replace (N.of_nat (length (a :: l)) * connect_timeout c) with (connect_timeout c + N.of_nat (length l) * connect_timeout c) by (cbn; lia).
  apply spends_then.
  - apply spends_within. spends0.
  - intros [e'|s]; [apply IH|]. cbn. split; [lia|]. intros _. split; [lia|done].
Qed.
Lemma spends_request_fresh m : spends (request_fresh c m) (N.of_nat (length (addresses c)) * connect_timeout c + request_timeout c).
Proof.
  apply spends_then; [apply spends_connect_from|]. intros [e|conn]; [done|]. rewrite <- (N.add_0_r (request_timeout c)).
  apply spends_then; [apply spends_exchange|]. intros [e|r]; spends0.
Qed.
Lemma spends_acquire : spends acquire_permit 0.
Proof. spends0. Qed.
Lemma spends_request m :
  spends (request c m) (2 * request_timeout c + N.of_nat (length (addresses c)) * connect_timeout c).
Proof.
  rewrite <- (N.add_0_l (2 * _ + _)). apply spends_then; [apply spends_acquire|]. intros _.
  split; [cbn; lia|]. cbn [cost]. rewrite N.sub_0_r. intros [[a s]|]; cbn [then_ act].
  - eapply spends_mono; [|apply spends_then; [apply spends_exchange|]].
    2: { intros [e|r]; cbn [then_ act]; [|spends0]. split; [cbn; lia|]. intros []. cbn [then_ act]. split; [cbn; lia|]. intros []. cbn [then_ cost]. rewrite !N.sub_0_r. apply spends_request_fresh. }
    lia.
  - eapply spends_mono; [|apply spends_request_fresh]. lia.
Qed.
Lemma spends_submit m :
  spends (client_send c m) (request_timeout c + N.of_nat (length (addresses c)) * connect_timeout c).
Proof.
  rewrite <- (N.add_0_l (_ + _)). apply spends_then; [apply spends_acquire|]. intros _.
  rewrite N.add_comm. apply spends_then; [apply spends_connect_from|]. intros [e|conn]; [done|].
  eapply spends_mono; [|eapply (spends_then _ _ _ 0); [apply spends_within; spends0|]]; [lia|].
  intros [e|r]; spends0.
Qed.
End limits.

(** With up to three addresses the time limits a call arms add up to less than the
    interval of the sweep, whatever happens on the way (the wait for a permit is not
    limited). *)
Theorem calls_end_before_the_next_sweep l o :
  (length l <= 3)%nat ->
  exists limit, spends (call (new_client l) o) limit /\ limit < SWEEP_INTERVAL_SECONDS.
Proof.
  intros Hl. exists (40 + N.of_nat (length l) * 5). split; [|unfold SWEEP_INTERVAL_SECONDS; lia].
  assert (Hr : forall m, spends (request (new_client l) m) (40 + N.of_nat (length l) * 5)) by (intros m; apply spends_request).
  rewrite <- (N.add_0_r (40 + _)).
  destruct o; apply spends_then; try apply Hr; try done.
  eapply spends_mono; [|apply spends_submit]. cbn. unfold NODE_REQUEST_TIMEOUT, NODE_CONNECT_TIMEOUT. lia.
Qed.

Example calls_end_before_the_next_sweep_witness :
  exists limit, spends (call (new_client ["a"; "b"; "c"]%string) OpChainTip) limit /\ limit < SWEEP_INTERVAL_SECONDS.
Proof. apply (calls_end_before_the_next_sweep ["a"; "b"; "c"]%string OpChainTip). cbn. lia. Defined.

(** ** The pool *)

(** C12: Whatever the network does, and whatever nodes that answer a message at most once
    and in the order they read them reply, however calls interleave and whichever
    callers hang up, a question the hub has put to a node ends with an error or with
    what it makes of the last reply it read, and that reply is the node's answer to
    this very question of this very call, never one left in a pooled connection. *)
Theorem replies_reach_their_caller c size w x :
  reachable c size w -> x ∈ finished w -> reads_only (c_op x) = true ->
  (exists e, c_result x = Err e) \/
  exists hd m, c_heard x = hd ++ [(c_task x, op_message (c_op x), m)] /\ c_result x = read_reply (c_op x) m.
Proof.
  intros Hw Hx Hr. destruct (wo_done _ (reachable_ok _ _ _ Hw) x Hx) as [H|H]; [by left|]. rewrite Hr in H. by right.
Qed.

(** C13: In every state the client can reach, a transaction is only ever the second
    message on its connection, after a greeting, so it is never written to a
    connection that has been idle; and a submission that reports success has read the
    node's acceptance of the handshake on the way. *)
Theorem submissions_have_their_own_connection c size w :
  reachable c size w ->
  (forall s k i tx, socks w !! s = Some k -> written k !! i = Some (SubmitTransaction tx) ->
     i = 1%nat /\ exists magic version t, written k !! O = Some (Hello magic version t)) /\
  (forall x tx, x ∈ finished w -> c_op x = OpSubmit tx -> (forall e, c_result x <> Err e) ->
     exists hd now received ack z,
       c_heard x = hd ++ [(c_task x, hello now, ack)] /\ read_ack received (Some ack) = inr z).
Proof.
  intros Hw. apply reachable_ok in Hw. split.
  - intros s k i tx Hk Hi. destruct (so_socks _ _ _ _ _ (wo_streams _ Hw) s k Hk) as (_ & [W1 W2] & _).
    pose proof (W2 _ _ Hi eq_refl) as ->. split; [done|].
    destruct (written k) as [|m l] eqn:E; [done|]. specialize (W1 m eq_refl). destruct m; try done. by eexists _, _, _.
  - intros x tx Hx Ho He. destruct (wo_done _ Hw x Hx) as [[e H]|H]; [by destruct (He e)|]. rewrite Ho in H.
    destruct H as (_ & hd & g & Hhd & now & received & ack & z & -> & Hz). by exists hd, now, received, ack, z.
Qed.

(** The idle connections of the pool are distinct, go to the one node it last reached, and
    have no reply on its way; every open stream is either idle or held by exactly one
    call. *)
Theorem pool_holds_one_nodes_streams c size w :
  reachable c size w ->
  NoDup (connections (pool w)) /\
  (forall s, s ∈ connections (pool w) ->
     exists k, socks w !! s = Some k /\ address (pool w) = Some (peer k) /\ from_node k = [] /\
       forall t m, (t, m) ∈ to_node k -> replies m = false) /\
  (forall s k, socks w !! s = Some k ->
     (s ∈ connections (pool w) /\ forall t h, ~ holds (tasks w) t s h) \/
     (s ∉ connections (pool w) /\ exists t, forall t', (exists h, holds (tasks w) t' s h) <-> t' = t)).
Proof.
  intros Hw. apply reachable_ok, wo_streams in Hw. destruct Hw as [A B C D F]. split; [done|]. split.
  - intros s Hs. destruct (A s Hs) as (k & Hk & Ha & [R1 R2] & _). exists k. split; [done|]. split; [done|]. split; [done|].
    intros t m Hm. by apply (proj1 (Forall_forall _ _) R2 _ Hm).
  - intros s k Hk. destruct (F s k Hk) as (_ & _ & [Hs|(t & h & Hh)]).
    + left. split; [done|]. intros t h Hh. by destruct (C _ _ _ Hh).
    + right. destruct (C _ _ _ Hh) as [Hs _]. split; [done|]. exists t. intros t'. split; [|intros ->; eauto].
      intros [h' Hh']. by eapply D.
Qed.

(** The permits free, granted and held always add up to the size of the pool, and a permit
    is free only when no call waits for one. *)
Theorem permits_are_conserved c size w :
  reachable c size w ->
  N.of_nat (permits (pool w)) + N.of_nat (length (granted (pool w))) + holders (tasks w) = N.of_nat (Nat.max size 1) /\
  (waiting (pool w) <> [] -> permits (pool w) = O).
Proof. intros Hw. by destruct (reachable_permits _ _ _ Hw). Qed.

(** As long as the hub only asks, the idle connections and those calls hold never
    outnumber the size of the pool, under any interleaving, failures, failovers and
    cancellations. *)
Theorem questions_bound_the_connections c size w :
  asking_run c size w ->
  N.of_nat (length (connections (pool w))) + map_sum (fun tk => N.of_nat (base.size (own (tk_local tk)))) (tasks w)
    <= N.of_nat (Nat.max size 1).
Proof.
  intros Hw. apply asking_conns in Hw as [_ [A B]].
  assert (map_sum (fun tk => N.of_nat (base.size (own (tk_local tk)))) (tasks w) <= slots (tasks w)); [|lia].
  apply map_sum_mono. intros t tk Ht. destruct (A t tk Ht) as [_ L2 L3].
  destruct (decide (own (tk_local tk) = ∅)) as [->|Hne]; [rewrite map_size_empty; lia|]. rewrite (L2 Hne). cbn. lia.
Qed.

(** ** The two sides of the protocol *)

Section protocol.
Context `{P : Primitives} {CE : ChainEnv} {BC : BlockCodec} {MC : MessageCodec} {ML : CodecLaws MC}.

(** The node's message handler answers only the messages the client expects an answer to. *)
Theorem node_answers_questions_only env now id iter nodes n m n' r :
  handle_message env now id iter nodes n m = (n', Ok (Answer r)) -> replies m = true.
Proof.
  unfold handle_message. destruct m; try done; intros Ha; exfalso.
  all: repeat (case_match; simplify_eq/=); congruence.
Qed.

(** What the client makes of a reply is what the handshake makes of its bytes. *)
Lemma read_ack_of_bytes received m rest :
  fits m ->
  perform_handshake_initiator received (Wire.send m ++ rest) =
    match read_ack received (Some m) with inl e => Err e | inr z => Ok (z, rest) end.
Proof.
  intros Hf. unfold perform_handshake_initiator. rewrite recieve_send by done. cbn.
  destruct m; try done. by destruct (negb _ || _ || _).
Qed.
End protocol.

(** ** Submissions *)

Fixpoint exec_all (c : NodeClient) (l : list Event) (w : World) : option World :=
  match l with
  | [] => Some w
  | e :: l' => w' ← exec c e w; exec_all c l' w'
  end.
Lemma exec_all_reachable c size l w w' : reachable c size w -> exec_all c l w = Some w' -> reachable c size w'.
Proof.
  revert w. induction l as [|e l IH]; intros w Hw; cbn; [by intros [= <-]|].
  destruct (exec c e w) as [w1|] eqn:E; [|done]. cbn. apply IH. by eapply reachable_step.
Qed.

Section growth.
Context (node : string) (tx : Transaction).
Notation c := (new_client [node]).
Definition go : Choice := mkChoice true 0%Z 0.
Definition wait : Choice := mkChoice false 0%Z 0.
Definition accepted : Message := HelloAck PROTOCOL_MAGIC PROTOCOL_VERSION true 0%Z.

(** One submission, with nothing going wrong. *)
Definition dial_events (t : nat) (s : Stream) : list Event :=
  [Spawn (OpSubmit tx); Run t go; Run t go; Run t wait; Run t go; Run t wait; Run t go; Run t wait; Run t go;
   NodeAnswers s accepted; Run t wait; Run t go; Run t wait; Run t go].
Definition submit_events (t : nat) : list Event :=
  [Run t go; Run t go; Run t go; Run t wait; Run t go; Run t go; Finish t].

(** Idle, with [n] connections. *)
Definition idle_with (size n : nat) (w : World) : Prop :=
  tasks w = ∅ /\ length (connections (pool w)) = n /\ permits (pool w) = S size /\ waiting (pool w) = [] /\
  granted (pool w) = [] /\ (n = O \/ address (pool w) = Some node).

Lemma exec_cons e l w w1 (Q : World -> Prop) :
  exec c e w = Some w1 -> (exists w', exec_all c l w1 = Some w' /\ Q w') -> exists w', exec_all c (e :: l) w = Some w' /\ Q w'.
Proof. intros E (w' & H & Hq). exists w'. cbn. by rewrite E. Qed.
Lemma exec_run w t op a k l ch w1 r :
  tasks w = {[t := mkRunning op (Act a k) l]} -> perform t ch w a = Some (w1, Some r) ->
  exec c (Run t ch) w =
    Some (with_tasks {[t := mkRunning op (k r) (mkLocal (own (after t a r l)) (heard l ++ taken_entry w a ch)
                                       (permit (after t a r l)) (slot (after t a r l)))]} w1).
Proof.
  intros Ht Hp. cbn. rewrite Ht, lookup_singleton_eq. cbn. rewrite Hp. cbn.
  destruct (perform_frame _ _ _ _ _ _ Hp) as (-> & _ & _). by rewrite Ht, insert_singleton_eq.
Qed.

(** Adopting the node the pool goes to, or goes to first. *)
Definition adopted (w : World) : World :=
  let p := pool w in
  with_pool (mkPool (Some node) (connections p) (permits p) (waiting p) (granted p)) w.
Lemma adopt_same w : length (connections (pool w)) = O \/ address (pool w) = Some node -> pool_adopt node w = adopted w.
Proof.
  intros H. unfold pool_adopt, adopted. destruct w as [[ad conns perm wt gr] sk nx ts nt mt fin]. cbn in *.
  case_decide; [by subst|]. destruct H as [H|]; [|done]. by destruct conns.
Qed.

Ltac world := unfold adopted, with_tasks, with_pool, with_socks, upd_sock; cbn [with_tasks with_pool with_socks upd_sock pool socks next_stream tasks next_task metrics finished
  address connections permits waiting granted ok clock elapsed go wait then_ timed act opens within negb
  after set_own own heard permit slot taken_entry app empty_local try_acquire call client_send connect connect_from connect_one
  acquire_permit addresses new_client dial handshake_initiator].
Ltac run := eapply exec_cons; [eapply exec_run; [reflexivity|world; reflexivity]|world].

Lemma submission_adds_one size n w : idle_with size n w ->
  exists w', exec_all c (dial_events (next_task w) (next_stream w) ++ submit_events (next_task w)) w = Some w' /\ idle_with size (S n) w'.
Proof.
  intros (Ht & Hc & Hp & Hw & Hg & Ha). destruct w as [[ad conns perm wt gr] sk nx ts nt mt fin]. cbn in Ht, Hc, Hp, Hw, Hg, Ha. subst. world.
  unfold dial_events, submit_events. cbn [app].
  eapply exec_cons; [reflexivity|]. world. rewrite insert_empty.
  run. run. run. run. run. run. run. run.
  eapply exec_cons.
  { cbn [exec socks]. rewrite lookup_alter_eq, lookup_insert_eq. reflexivity. }
  world. run. run. run.
  eapply exec_cons.
  { eapply exec_run; [reflexivity|]. cbn [perform socks]. rewrite lookup_alter_eq, lookup_alter_eq, lookup_insert_eq. reflexivity. }
  world. rewrite lookup_alter_eq, lookup_insert_eq. cbn [fmap option_fmap option_map h_condition hello replies].
  world. run.
  eapply exec_cons.
  { eapply exec_run; [reflexivity|]. cbn [perform]. rewrite adopt_same by (cbn; tauto). reflexivity. }
  world. run. run. run. cbn [fst snd].
  eapply exec_cons.
  { eapply exec_run; [reflexivity|]. cbn [perform]. unfold pool_put. rewrite decide_True by done. reflexivity. }
  world. eapply exec_cons.
  { cbn [exec tasks]. rewrite lookup_singleton_eq. reflexivity. }
  eexists. split; [reflexivity|].
  unfold idle_with, let_go, release. cbn [tk_local permit orb pool waiting with_tasks with_socks with_pool tasks socks
    connections permits granted address].
  split; [apply delete_singleton_eq|]. split; [rewrite length_app; cbn; lia|]. split; [done|]. split; [done|]. split; [done|]. by right.
Qed.

(** Every submission leaves one more idle connection: for any size of the pool and any
    number there is a state with no call under way and that many connections in the
    pool. *)
Theorem submissions_outgrow_the_pool size n :
  exists w, reachable c size w /\ tasks w = ∅ /\ length (connections (pool w)) = n.
Proof.
  assert (exists w, reachable c size w /\ idle_with (pred (Nat.max size 1)) n w) as (w & Hw & Hi & Hn & _); [|by exists w].
  induction n as [|n (w & Hw & Hi)].
  - exists (boot_pool size). split; [apply reachable_boot|]. split; [done|]. split; [done|]. split; [cbn; lia|]. split; [done|]. split; [done|]. by left.
  - destruct (submission_adds_one _ _ _ Hi) as (w' & Hs & Hi'). exists w'. split; [|done]. by eapply exec_all_reachable.
Qed.
End growth.

(** * ToyNodeClient: a run of the node client

    Two questions and a submission that interleave on one client, with an idle stream
    the node has closed: the theorems of [NodeClientTheorems] at states of that run. *)

Module ToyNodeClient.
Definition toy_client : NodeClient := new_client ["one"; "two"]%string.
Definition toy_spend : Transaction := mkTransaction [] [].

(** A dial that is answered; an exchange that is. *)
Definition dials (t : nat) (s : Stream) : list Event :=
  [Run t go; Run t wait; Run t go; Run t wait; Run t go; Run t wait; Run t go; NodeAnswers s accepted;
   Run t wait; Run t go; Run t wait; Run t go; Run t go; Run t go].
Definition asks (t : nat) (s : Stream) (r : Message) : list Event :=
  [Run t go; Run t wait; Run t go; NodeAnswers s r; Run t wait; Run t go; Run t go].

(** A first question dials, is answered, and leaves its connection in the pool. *)
Definition first_question : list Event :=
  [Spawn OpChainTip; Run 0 go; Run 0 go] ++ dials 0 0 ++ asks 0 0 (ChainTip 7 9) ++ [Finish 0].
(** A second one takes it, while a submission starts; the node closes the stream under
    the question, which asks again: the first address is down and the second answers. *)
Definition second_question : list Event :=
  [Spawn OpChainTip; Spawn (OpSubmit toy_spend); Run 1 go; Run 2 go; Run 1 go; NodeCloses 0; Run 1 go; Run 1 wait; Run 1 go;
   Run 1 wait; Run 1 go; Run 1 go; Run 1 go; Run 1 go; Run 1 wait; Run 1 wait] ++
  dials 1 1 ++ asks 1 1 (ChainTip 8 10) ++ [Finish 1].
(** The submission reaches the first address again, and the pool moves back to it. *)
Definition submission : list Event :=
  dials 2 2 ++ [Run 2 go; Run 2 wait; Run 2 go; Run 2 go; Finish 2].

Definition after_run (n : nat) (l : list Event) : World := default (boot_pool n) (exec_all toy_client l (boot_pool n)).
Definition toy_questions : World := after_run 2 (first_question ++ second_question).
Definition toy_world : World := after_run 2 (first_question ++ second_question ++ submission).

Lemma after_run_reachable n l : reachable toy_client n (after_run n l).
Proof.
  unfold after_run. destruct (exec_all toy_client l (boot_pool n)) as [w|] eqn:E; [|apply reachable_boot].
  eapply exec_all_reachable; [apply reachable_boot|exact E].
Qed.
Lemma asking_all c n l w w' :
  asking_run c n w -> Forall (fun e => forall tx, e <> Spawn (OpSubmit tx)) l -> exec_all c l w = Some w' -> asking_run c n w'.
Proof.
  revert w. induction l as [|e l IH]; intros w Hw Hl; cbn; [by intros [= <-]|]. apply Forall_cons_1 in Hl as [He Hl].
  destruct (exec c e w) as [w1|] eqn:E; [|done]. cbn. apply IH; [|done]. by eapply asking_step.
Qed.
Lemma after_run_asking n l : Forall (fun e => forall tx, e <> Spawn (OpSubmit tx)) l -> asking_run toy_client n (after_run n l).
Proof.
  intros Hl. unfold after_run. destruct (exec_all toy_client l (boot_pool n)) as [w|] eqn:E; [|apply asking_boot].
  eapply asking_all; [apply asking_boot|exact Hl|exact E].
Qed.

Lemma toy_world_reachable : reachable toy_client 2 toy_world.
Proof. apply (after_run_reachable 2). Qed.

(** The second question, which was asked twice. *)
Definition asked_twice : Completion :=
  mkCompletion 1 OpChainTip
    [(1%nat, hello 0, accepted); (1%nat, AskChainTip, ChainTip 8 10)] (Ok (IsTip 8)).
Lemma asked_twice_finished : asked_twice ∈ finished toy_world.
Proof. vm_compute. set_solver. Qed.

Lemma replies_reach_their_caller_witness :
  exists hd m, c_heard asked_twice = hd ++ [(1%nat, AskChainTip, m)] /\ c_result asked_twice = read_reply OpChainTip m.
Proof.
  destruct (replies_reach_their_caller toy_client 2 toy_world asked_twice) as [[e He]|H].
  - exact toy_world_reachable.
  - apply asked_twice_finished.
  - reflexivity.
  - discriminate He.
  - exact H.
Defined.

Lemma submissions_have_their_own_connection_witness :
  exists k, socks toy_world !! 2%nat = Some k /\ written k !! 1%nat = Some (SubmitTransaction toy_spend) /\
    exists magic version t, written k !! O = Some (Hello magic version t).
Proof.
  destruct (submissions_have_their_own_connection toy_client 2 toy_world toy_world_reachable) as [H _].
  destruct (socks toy_world !! 2%nat) as [k|] eqn:E; [|exfalso; vm_compute in E; discriminate E].
  exists k. split; [done|]. assert (Hk : written k !! 1%nat = Some (SubmitTransaction toy_spend)).
  { vm_compute in E. injection E as <-. reflexivity. }
  split; [exact Hk|]. exact (proj2 (H 2%nat k 1%nat toy_spend E Hk)).
Defined.

Lemma pool_holds_one_nodes_streams_witness :
  connections (pool toy_world) = [2%nat] /\
  exists k, socks toy_world !! 2%nat = Some k /\ address (pool toy_world) = Some (peer k).
Proof.
  split; [vm_compute; reflexivity|].
  destruct (pool_holds_one_nodes_streams toy_client 2 toy_world toy_world_reachable) as (_ & H & _).
  destruct (H 2%nat) as (k & H1 & H2 & _); [|exists k; exact (conj H1 H2)].
  vm_compute. apply list_elem_of_here.
Defined.

Lemma questions_bound_the_connections_witness :
  connections (pool (after_run 1 first_question)) = [0%nat] /\
  N.of_nat (length (connections (pool (after_run 1 first_question)))) +
    map_sum (fun tk => N.of_nat (base.size (own (tk_local tk)))) (tasks (after_run 1 first_question)) <= 1.
Proof.
  split; [vm_compute; reflexivity|].
  apply (questions_bound_the_connections toy_client 1 (after_run 1 first_question)).
  apply after_run_asking. unfold first_question, dials, asks. cbn [app]. repeat constructor; discriminate.
Defined.
End ToyNodeClient.
