(* ===== verification/Miner.v ===== *)
(** * Miner: searching for blocks

    Models [miner/src/main.rs]: the links to the nodes with their backoff, the mining
    threads, and the loop that fetches templates and submits what the threads found.
    The threads and the loop share the template, the [mining] flag and a channel; they
    interleave at every access to one of them, which is one step of [miner_step]. What a
    node answers, and the clock, are arguments of the step. Durations are in
    nanoseconds, as [DateTime] is. *)

From S2P Require Import Prelude Types Crypto Params Block Wire.

Definition STEPS_PER_CALL : nat := N.to_nat 2000000.
Definition RECONNECT_BACKOFF_START : Z := seconds 1.
Definition RECONNECT_BACKOFF_MAX : Z := seconds 30.

(** [thread_start_nonce]; the product fits for any number of threads there can be. *)
Definition thread_start_nonce (thread_index : nat) (steps : nat) : N := N.of_nat thread_index * N.of_nat steps.

(** ** Links *)
Record NodeLink := mkLink {
  link_address : string;
  connected_ : bool;
  backoff : Z;
  next_attempt : DateTime
}.
(** [NodeLink::new] *)
Definition new_link (now : DateTime) (address : string) : NodeLink := mkLink address false RECONNECT_BACKOFF_START now.

(** How one use of a link goes: the clock when it is used, whether the dial is
    answered if there is one, and the clock when that is known. *)
Record Dial := mkDial { asked_at : DateTime; answers : bool; known_at : DateTime }.

(** [NodeLink::connected]: the link after it, and whether it was dialled. *)
Definition connected (d : Dial) (l : NodeLink) : NodeLink * bool :=
  if connected_ l then (l, false)
  else if (asked_at d <? next_attempt l)%Z then (l, false)
  else if answers d then (mkLink (link_address l) true RECONNECT_BACKOFF_START (next_attempt l), true)
  else (mkLink (link_address l) false (Z.min (backoff l * 2) RECONNECT_BACKOFF_MAX) (known_at d + backoff l)%Z, true).
(** [NodeLink::disconnect] *)
Definition disconnect (now : DateTime) (l : NodeLink) : NodeLink := mkLink (link_address l) false (backoff l) now.

(** ** Threads *)

Section mining.
Context `{Primitives}.

(** Where a thread is in the loop of [spawn_mining_thread]. *)
Inductive Thread : Type :=
| AtTop
| Cloning
| Searching (b : Block)
| Found (b : Block)
| Sent.

Definition with_nonce (n : N) (b : Block) : Block :=
  mkBlock (mkHeader (timestamp (header b)) n (prev_block_hash (header b)) (merkle_root (header b)) (target (header b)))
    (transactions b).
(** One call of [mine] on the cloned template. *)
Definition search (now : DateTime) (b : Block) : bool * Block :=
  let '(found, h) := mine now STEPS_PER_CALL (header b) in (found, mkBlock h (transactions b)).

(** Where the loop of [Miner::run] is. *)
Inductive Main : Type :=
| Selecting
| Swapping (b : Block)
| Starting
| Stopping
| Forgetting
| Submitting (b : Block) (next : nat)
| Finishing
| Draining.

Record Miner := mkMiner {
  links : list NodeLink;
  current_template : option Block;
  mining : bool;
  queue : list Block;
  threads : list Thread;
  main : Main;
  (** What the nodes sent as templates, and what they were sent. *)
  received : list Block;
  submitted : list (string * Block)
}.
(** [Miner::new]: every address is tried once, in order. *)
Definition start_miner (now : DateTime) (dials : list (string * Dial)) (thread_count : nat) : option Miner :=
  match dials with
  | [] => None
  | _ => Some (mkMiner ((fun e => (connected e.2 (new_link now e.1)).1) <$> dials) None false []
                (replicate thread_count AtTop) Selecting [] [])
  end.

Definition set_links (l : list NodeLink) (m : Miner) : Miner :=
  mkMiner l (current_template m) (mining m) (queue m) (threads m) (main m) (received m) (submitted m).
Definition set_template (t : option Block) (m : Miner) : Miner :=
  mkMiner (links m) t (mining m) (queue m) (threads m) (main m) (received m) (submitted m).
Definition set_mining (b : bool) (m : Miner) : Miner :=
  mkMiner (links m) (current_template m) b (queue m) (threads m) (main m) (received m) (submitted m).
Definition set_queue (q : list Block) (m : Miner) : Miner :=
  mkMiner (links m) (current_template m) (mining m) q (threads m) (main m) (received m) (submitted m).
Definition set_thread (i : nat) (t : Thread) (m : Miner) : Miner :=
  mkMiner (links m) (current_template m) (mining m) (queue m) (<[i := t]> (threads m)) (main m) (received m) (submitted m).
Definition set_main (x : Main) (m : Miner) : Miner :=
  mkMiner (links m) (current_template m) (mining m) (queue m) (threads m) x (received m) (submitted m).

(** [spawn_mining_thread]: one access to what is shared, or one search. A thread that
    finds [mining] unset sleeps and looks again. *)
Definition thread_step (i : nat) (now : DateTime) (m : Miner) : option Miner :=
  t ← threads m !! i;
  Some match t with
  | AtTop => if mining m then set_thread i Cloning m else m
  | Cloning =>
      match current_template m with
      | Some b => set_thread i (Searching (with_nonce (thread_start_nonce i STEPS_PER_CALL) b)) m
      | None => set_thread i AtTop m
      end
  | Searching b =>
      let '(found, b') := search now b in
      set_thread i (if found then Found b' else AtTop) m
  | Found b => set_queue (queue m ++ [b]) (set_thread i Sent m)
  | Sent => set_mining false (set_thread i AtTop m)
  end.

(** ** The loop *)

(** [fetch_template], up to the swap: [reply] is what the exchange brought. *)
Definition fetch_template (d : Dial) (reply : option Message) (now : DateTime) (m : Miner) : option Miner :=
  link ← links m !! O;
  let link := (connected d link).1 in
  let m := set_links (<[O := link]> (links m)) m in
  if negb (connected_ link) then Some (set_main Stopping m)
  else match reply with
  | Some (Template b) =>
      let m := set_main (Swapping b) m in
      Some (mkMiner (links m) (current_template m) (mining m) (queue m) (threads m) (main m) (received m ++ [b]) (submitted m))
  | _ => Some (set_main Stopping (set_links (<[O := disconnect now link]> (links m)) m))
  end.
(** One turn of the loop of [submit_block]: [sent] says whether the write finished in
    time. *)
Definition submit_to (n : nat) (b : Block) (d : Dial) (sent : bool) (now : DateTime) (m : Miner) : Miner :=
  match links m !! n with
  | None => set_main Finishing m
  | Some link =>
      let link := (connected d link).1 in
      let m := set_main (Submitting b (S n)) (set_links (<[n := link]> (links m)) m) in
      if negb (connected_ link) then m
      else if sent
      then mkMiner (links m) (current_template m) (mining m) (queue m) (threads m) (main m) (received m)
             (submitted m ++ [(link_address link, b)])
      else set_links (<[n := disconnect now link]> (links m)) m
  end.

Inductive MinerEvent : Type :=
| ThreadSteps (i : nat) (now : DateTime)
| Ticks (d : Dial) (reply : option Message) (now : DateTime)
| Receives
| Continues (d : Dial) (sent : bool) (now : DateTime).

Definition miner_step (e : MinerEvent) (m : Miner) : option Miner :=
  match e, main m with
  | ThreadSteps i now, _ => thread_step i now m
  | Ticks d reply now, Selecting => fetch_template d reply now m
  | Receives, Selecting =>
      match queue m with
      | b :: q => Some (set_main (Submitting b O) (set_queue q m))
      | [] => None
      end
  | Continues _ _ _, Swapping b => Some (set_main Starting (set_template (Some b) m))
  | Continues _ _ _, Starting => Some (set_main Selecting (set_mining true m))
  | Continues _ _ _, Stopping => Some (set_main Forgetting (set_mining false m))
  | Continues _ _ _, Forgetting => Some (set_main Selecting (set_template None m))
  | Continues d sent now, Submitting b n => Some (submit_to n b d sent now m)
  | Continues _ _ _, Finishing => Some (set_main Draining (set_mining false m))
  | Continues _ _ _, Draining =>
      match queue m with
      | _ :: q => Some (set_queue q m)
      | [] => Some (set_main Selecting m)
      end
  | _, _ => None
  end.

Inductive mined (m0 : Miner) : Miner -> Prop :=
| mined_start : mined m0 m0
| mined_step e m m' : mined m0 m -> miner_step e m = Some m' -> mined m0 m'.
End mining.

(** * MinerTheorems: what a miner submits

    Every block a miner hands to a node is a template a node sent it, solved; a pass
    of all threads covers one window of nonces without a gap; the backoff of a link
    stays in its bounds and a link is never dialled early. A solved template is
    accepted by the node it came from as long as that node's tip is not ahead of its
    clock. *)

From S2P Require Import Transaction Utxo Blockchain Mempool ChainSpec ChainTree ChainInv ChainStep ChainTheorems ConsensusTheorems BlockStore Peers Node.

Section mining.
Context `{P : Primitives}.

(** [b] is the template [t] with a nonce (and, where the nonces ran out, a time) that
    meets the target. *)
Definition same_but_nonce (t b : Block) : Prop :=
  transactions b = transactions t /\ prev_block_hash (header b) = prev_block_hash (header t) /\
  merkle_root (header b) = merkle_root (header t) /\ target (header b) = target (header t).
Definition solves (t b : Block) : Prop :=
  same_but_nonce t b /\ matches_target (header_hash (header b)) (target (header b)) = true.

Lemma mine_loop_spec now steps : forall h found h',
  mine_loop now steps h = (found, h') ->
  prev_block_hash h' = prev_block_hash h /\ merkle_root h' = merkle_root h /\ target h' = target h /\
  (found = true -> matches_target (header_hash h') (target h') = true).
Proof.
  induction steps as [|n IH]; intros h found h'; cbn; [by intros [= <- <-]|].
  assert (E : prev_block_hash (next_nonce now h) = prev_block_hash h /\ merkle_root (next_nonce now h) = merkle_root h /\
              target (next_nonce now h) = target h) by (unfold next_nonce; by destruct (checked_add _ _)).
  destruct E as (E1 & E2 & E3).
  destruct (matches_target (header_hash (next_nonce now h)) (target (next_nonce now h))) eqn:Em; [intros [= <- <-]; by rewrite E1, E2, E3 in *|].
  intros Hl. apply IH in Hl as (H1 & H2 & H3 & H4). split_and!; [congruence..|done].
Qed.
Lemma search_spec now b found b' :
  search now b = (found, b') -> same_but_nonce b b' /\ (found = true -> solves b b').
Proof.
  unfold search, mine. destruct (matches_target (header_hash (header b)) (target (header b))) eqn:Em.
  - intros [= <- <-]. split; [done|]. intros _. split; [done|]. exact Em.
  - destruct (mine_loop now STEPS_PER_CALL (header b)) as [f h] eqn:El. intros [= <- <-].
    apply mine_loop_spec in El as (E1 & E2 & E3 & E4). split; [done|]. intros ->. split; [done|]. by apply E4.
Qed.

(** ** What is under way *)
Definition candidate (m : Miner) (b : Block) : Prop := exists t, t ∈ received m /\ same_but_nonce t b.
Definition solved (m : Miner) (b : Block) : Prop := exists t, t ∈ received m /\ solves t b.
Definition thread_ok (m : Miner) (t : Thread) : Prop :=
  match t with Searching b => candidate m b | Found b => solved m b | _ => True end.
Definition main_ok (m : Miner) : Prop :=
  match main m with
  | Swapping b => b ∈ received m
  | Starting => is_Some (current_template m)
  | Forgetting => mining m = false
  | Submitting b _ => solved m b
  | _ => True
  end.
Record miner_ok (m : Miner) : Prop := {
  mo_template b : current_template m = Some b -> b ∈ received m;
  mo_mining : mining m = true -> is_Some (current_template m);
  mo_queue b : b ∈ queue m -> solved m b;
  mo_threads t : t ∈ threads m -> thread_ok m t;
  mo_main : main_ok m;
  mo_submitted x : x ∈ submitted m -> solved m x.2
}.

Lemma elem_of_set {A} (i : nat) (x y : A) (l : list A) : x ∈ <[i := y]> l -> x = y \/ x ∈ l.
Proof.
  intros Hx. apply list_elem_of_lookup_1 in Hx as [j Hj]. destruct (decide (i = j)) as [->|].
  - destruct (decide (j < length l)%nat).
    + rewrite list_lookup_insert_eq in Hj by done. left. congruence.
    + rewrite list_insert_ge in Hj by lia. right. by eapply list_elem_of_lookup_2.
  - rewrite list_lookup_insert_ne in Hj by done. right. by eapply list_elem_of_lookup_2.
Qed.

Lemma thread_step_ok i now m m' : miner_ok m -> thread_step i now m = Some m' -> miner_ok m' /\ received m' = received m.
Proof.
  intros [A B C D E F]. unfold thread_step. destruct (threads m !! i) as [t|] eqn:Ht; [|done]. cbn.
  pose proof (D t (list_elem_of_lookup_2 _ _ _ Ht)) as Ht'.
  assert (S : forall t', thread_ok m t' -> miner_ok (set_thread i t' m)).
  { intros t' Hok. split; cbn; try done. intros x [->|Hx]%elem_of_set; [done|]. by apply D. }
  destruct t as [| |b|b|]; intros [= <-].
  - split; [|by destruct (mining m)]. destruct (mining m) eqn:Em; [by apply S|]. by split; rewrite ?Em.
  - destruct (current_template m) as [b|] eqn:Et; (split; [|done]); apply S; [|done]. exists b. split; [by apply A|done].
  - destruct (search now b) as [found b'] eqn:Es. split; [|done]. apply S. apply search_spec in Es as [_ Es].
    destruct found; [|done]. destruct Ht' as (t & H1 & T1 & T2 & T3 & T4). destruct (Es eq_refl) as [(S1 & S2 & S3 & S4) S5].
    exists t. split; [done|]. split; [|done]. split_and!; congruence.
  - split; [|done]. destruct (S Sent I) as [A' B' C' D' E' F']. split; cbn in *; try done.
    intros x [?| ->%list_elem_of_singleton]%elem_of_app; [by apply C|done].
  - split; [|done]. destruct (S AtTop I) as [A' B' C' D' E' F']. split; cbn in *; try done.
    revert E. unfold main_ok. cbn. by destruct (main m).
Qed.

Lemma miner_step_ok e m m' : miner_ok m -> miner_step e m = Some m' -> miner_ok m'.
Proof.
  intros OK. destruct e as [i now|d reply now| |d sent now]; cbn.
  - intros Hs. by apply thread_step_ok in Hs as [? _].
  - pose proof OK as [A B C D E F]. destruct (main m) eqn:Em; try done. unfold fetch_template.
    destruct (links m !! O) as [link|]; [|done]. cbn.
    assert (Hl : forall l x, main_ok (set_main x (set_links l m)) -> miner_ok (set_main x (set_links l m))) by (intros l x Hx; by split).
    destruct (connected_ (connected d link).1); cbn; [|intros [= <-]; by apply Hl].
    destruct reply as [[]|]; try (intros [= <-]; by apply (Hl _ Stopping)).
    intros [= <-]. assert (Hsub : forall x, x ∈ received m -> x ∈ received m ++ [b]) by set_solver.
    split; cbn.
    + intros x Hx. apply Hsub. by apply A.
    + done.
    + intros x Hx. destruct (C x Hx) as (t & ? & ?). exists t. auto.
    + intros t Ht. specialize (D t Ht). destruct t; try done; destruct D as (t & ? & ?); exists t; cbn; auto.
    + unfold main_ok. cbn. set_solver.
    + intros x Hx. destruct (F x Hx) as (t & ? & ?). exists t. auto.
  - pose proof OK as [A B C D E F]. destruct (main m) eqn:Em; try done. destruct (queue m) as [|b q] eqn:Eq; [done|].
    intros [= <-]. split; cbn; try done.
    + intros x Hx. apply C. set_solver.
    + apply C. set_solver.
  - pose proof OK as [A B C D E F]. unfold main_ok in E. destruct (main m) as [|b| | | |b n| |] eqn:Em; try done.
    + intros [= <-]. split; cbn; try done; by intros x [= <-].
    + intros [= <-]. by split.
    + intros [= <-]. by split.
    + intros [= <-]. split; cbn; try done. intros Hm. congruence.
    + intros [= <-]. unfold submit_to. destruct (links m !! n) as [link|]; [|by split].
      destruct (connected_ (connected d link).1); cbn; [|by split].
      destruct sent; [|by split]. split; cbn; try done.
      intros x [?| ->%list_elem_of_singleton]%elem_of_app; [by apply F|done].
    + intros [= <-]. by split.
    + destruct (queue m) as [|b q] eqn:Eq; intros [= <-].
      * split; cbn; try done. by rewrite Eq.
      * split; cbn; try done; [intros x Hx; apply C; set_solver|]. unfold main_ok. cbn. by rewrite Em.
Qed.
End mining.

Section submissions.
Context `{P : Primitives}.

Lemma start_miner_ok now dials n m : start_miner now dials n = Some m -> miner_ok m.
Proof.
  unfold start_miner. destruct dials as [|d l]; [done|]. intros [= <-]. split; cbn; try done; try set_solver.
  intros t Ht. apply elem_of_replicate in Ht as [-> _]. done.
Qed.
Lemma mined_ok m0 m : miner_ok m0 -> mined m0 m -> miner_ok m.
Proof. intros H0. induction 1; [done|by eapply miner_step_ok]. Qed.

(** However the threads and the loop interleave and whatever the nodes answer, every block
    the miner submits is a template some node sent it with a nonce that meets its
    target, and mining is on only while there is a template. *)
Theorem submitted_blocks_are_solved_templates now dials n m0 m :
  start_miner now dials n = Some m0 -> mined m0 m ->
  (forall a b, (a, b) ∈ submitted m -> exists t, t ∈ received m /\ solves t b) /\
  (mining m = true -> is_Some (current_template m)).
Proof.
  intros H0 Hm. destruct (mined_ok m0 m (start_miner_ok _ _ _ _ H0) Hm) as [_ B _ _ _ F]. split; [|done].
  intros a b Hx. apply (F (a, b) Hx).
Qed.

(** ** The nonces of one pass *)
Definition solution (b : Block) (n : N) : bool :=
  matches_target (header_hash (header (with_nonce n b))) (target (header b)).

Lemma mine_loop_first now b steps : forall n,
  n + N.of_nat steps <= U64_MAX ->
  (exists k, n < k <= n + N.of_nat steps /\ solution b k = true) ->
  exists k, n < k <= n + N.of_nat steps /\ mine_loop now steps (header (with_nonce n b)) = (true, header (with_nonce k b)).
Proof.
  induction steps as [|s IH]; intros n Hn (k & Hk & Hs); [lia|]. cbn [mine_loop].
  assert (Hnext : next_nonce now (header (with_nonce n b)) = header (with_nonce (n + 1) b)).
  { unfold next_nonce. cbn. rewrite checked_add_fits by lia. done. }
  rewrite Hnext. destruct (matches_target (header_hash (header (with_nonce (n + 1) b))) (target (header (with_nonce (n + 1) b)))) eqn:E.
  - exists (n + 1). split; [lia|done].
  - destruct (IH (n + 1)) as (k' & Hk' & Hm); [lia| |exists k'; split; [lia|done]].
    exists k. split; [|done]. assert (k <> n + 1); [|lia]. intros ->. unfold solution in Hs. cbn in *. congruence.
Qed.
Lemma mine_first now b steps n :
  n + N.of_nat steps <= U64_MAX ->
  (exists k, n <= k <= n + N.of_nat steps /\ solution b k = true) ->
  exists k, n <= k <= n + N.of_nat steps /\ mine now steps (header (with_nonce n b)) = (true, header (with_nonce k b)).
Proof.
  intros Hn (k & Hk & Hs). unfold mine.
  destruct (matches_target (header_hash (header (with_nonce n b))) (target (header (with_nonce n b)))) eqn:E.
  - exists n. split; [lia|done].
  - destruct (mine_loop_first now b steps n Hn) as (k' & Hk' & Hm); [|exists k'; split; [lia|done]].
    exists k. split; [|done]. assert (k <> n); [|lia]. intros ->. unfold solution in Hs. cbn in *. congruence.
Qed.
Lemma mine_loop_within now b steps : forall n h,
  n + N.of_nat steps <= U64_MAX -> mine_loop now steps (header (with_nonce n b)) = (true, h) ->
  exists k, n <= k <= n + N.of_nat steps /\ h = header (with_nonce k b).
Proof.
  induction steps as [|s IH]; intros n h Hn; [done|]. cbn [mine_loop].
  assert (Hnext : next_nonce now (header (with_nonce n b)) = header (with_nonce (n + 1) b)).
  { unfold next_nonce. cbn. rewrite checked_add_fits by lia. done. }
  rewrite Hnext. case_match.
  - intros [= <-]. exists (n + 1). split; [lia|done].
  - intros Hm. destruct (IH (n + 1) h) as (k & Hk & ->); [lia|done|]. exists k. split; [lia|done].
Qed.

Lemma window_of steps count n :
  (0 < count)%nat -> n <= N.of_nat count * N.of_nat steps ->
  exists i, (i < count)%nat /\ N.of_nat i * N.of_nat steps <= n <= N.of_nat i * N.of_nat steps + N.of_nat steps.
Proof.
  intros Hc Hn. induction count as [|c IH]; [lia|].
  destruct (decide (N.of_nat c * N.of_nat steps <= n)) as [Hle|Hgt].
  - exists c. split; [lia|]. nia.
  - destruct c as [|c]; [cbn in *; lia|]. destruct IH as (i & Hi & Hr); [lia|lia|]. exists i. split; [lia|done].
Qed.

Lemma pass_covers now b steps count n :
  (0 < count)%nat -> N.of_nat count * N.of_nat steps <= U64_MAX ->
  n <= N.of_nat count * N.of_nat steps -> solution b n = true ->
  exists i k, (i < count)%nat /\
    mine now steps (header (with_nonce (thread_start_nonce i steps) b)) = (true, header (with_nonce k b)).
Proof.
  intros Hc Hf Hn Hs. destruct (window_of steps count n Hc Hn) as (i & Hi & Hr).
  destruct (mine_first now b steps (thread_start_nonce i steps)) as (k & _ & Hm); [unfold thread_start_nonce; nia| |by exists i, k].
  exists n. split; [exact Hr|done].
Qed.
Lemma pass_within now b steps i h :
  N.of_nat (S i) * N.of_nat steps <= U64_MAX ->
  mine now steps (header (with_nonce (thread_start_nonce i steps) b)) = (true, h) ->
  exists k, N.of_nat i * N.of_nat steps <= k <= N.of_nat (S i) * N.of_nat steps /\ h = header (with_nonce k b).
Proof.
  intros Hf. unfold mine. assert (Hw : thread_start_nonce i steps + N.of_nat steps = N.of_nat (S i) * N.of_nat steps) by (unfold thread_start_nonce; nia).
  case_match.
  - intros [= <-]. eexists. split; [|done]. unfold thread_start_nonce in *. lia.
  - intros Hm. apply mine_loop_within in Hm as (k & Hk & ->); [|lia]. exists k. split; [|done]. unfold thread_start_nonce in *. lia.
Qed.

(** One pass of all threads over a template finds a block whenever some nonce up to the
    number of threads times the steps of a call solves it, and what a thread finds is
    a solution from its own window. *)
Theorem threads_cover_one_window now b count :
  (0 < count)%nat -> N.of_nat count * N.of_nat STEPS_PER_CALL <= U64_MAX ->
  (forall n, n <= N.of_nat count * N.of_nat STEPS_PER_CALL -> solution b n = true ->
     exists i b', (i < count)%nat /\
       search now (with_nonce (thread_start_nonce i STEPS_PER_CALL) b) = (true, b')) /\
  (forall i b', (i < count)%nat -> search now (with_nonce (thread_start_nonce i STEPS_PER_CALL) b) = (true, b') ->
     exists k, b' = with_nonce k b /\ solution b k = true /\
       N.of_nat i * N.of_nat STEPS_PER_CALL <= k <= N.of_nat (S i) * N.of_nat STEPS_PER_CALL).
Proof.
  unfold search. generalize STEPS_PER_CALL. intros steps Hc Hf. split.
  - intros n Hn Hs. destruct (pass_covers now b steps count n Hc Hf Hn Hs) as (i & k & Hi & Hm).
    eexists i, _. split; [done|]. by rewrite Hm.
  - intros i b' Hi Hs. destruct (mine now steps _) as [found h] eqn:Hm. injection Hs as -> <-.
    destruct (pass_within now b steps i h) as (k & Hk & ->); [nia|done|]. exists k. split; [done|]. split; [|done].
    revert Hm. unfold mine. case_match eqn:E.
    + intros [= Hh]. unfold solution. assert (k = thread_start_nonce i steps) as -> by congruence. done.
    + intros Hm. apply mine_loop_spec in Hm as (_ & _ & _ & Hm). by apply Hm.
Qed.
End submissions.

(** ** Links *)

(** The dials among a run of uses of a link, none of them answered. *)
Fixpoint dialled (l : list Dial) (k : NodeLink) : list Dial :=
  match l with
  | [] => []
  | d :: l' => let '(k', tried) := connected d k in if tried then d :: dialled l' k' else dialled l' k'
  end.
(** The wait after the [i]-th failure in a row. *)
Definition wait_after (i : nat) : Z := Z.min (seconds (2 ^ Z.of_nat i)) RECONNECT_BACKOFF_MAX.

Lemma wait_after_S i : Z.min (wait_after i * 2) RECONNECT_BACKOFF_MAX = wait_after (S i).
Proof.
  unfold wait_after, RECONNECT_BACKOFF_MAX, seconds. rewrite Nat2Z.inj_succ, Z.pow_succ_r by lia. lia.
Qed.

Lemma dialled_spaced l : forall i k,
  Forall (fun d => answers d = false) l -> connected_ k = false -> backoff k = wait_after i ->
  (forall d, dialled l k !! O = Some d -> (next_attempt k <= asked_at d)%Z) /\
  (forall j d e, dialled l k !! j = Some d -> dialled l k !! S j = Some e ->
     (known_at d + wait_after (i + j) <= asked_at e)%Z).
Proof.
  induction l as [|d l IH]; intros i k Hl Hk Hb; [done|]. apply Forall_cons_1 in Hl as [Hd Hl].
  cbn [dialled]. unfold connected. rewrite Hk, Hd. destruct (Z.ltb_spec (asked_at d) (next_attempt k)) as [Hlt|Hge].
  - by apply IH.
  - destruct (IH (S i) (mkLink (link_address k) false (Z.min (backoff k * 2) RECONNECT_BACKOFF_MAX) (known_at d + backoff k)%Z))
      as [H1 H2]; [done|done|by cbn; rewrite Hb, wait_after_S|]. cbn [next_attempt] in H1. split.
    + cbn. intros x [= <-]. lia.
    + intros j x y Hx Hy. destruct j as [|j].
      * cbn in Hx. injection Hx as <-. apply H1 in Hy. rewrite Nat.add_0_r, <- Hb. lia.
      * rewrite Nat.add_succ_r. by apply (H2 j).
Qed.

(** Between two dials of a node that does not answer lie at least 1, 2, 4, 8, 16 and then
    30 seconds, counted from when the failure is known. *)
Theorem failed_dials_back_off now address l i d e :
  Forall (fun d => answers d = false) l ->
  dialled l (new_link now address) !! i = Some d -> dialled l (new_link now address) !! S i = Some e ->
  (known_at d + Z.min (seconds (2 ^ Z.of_nat i)) (seconds 30) <= asked_at e)%Z.
Proof. intros Hl Hd He. by destruct (dialled_spaced l 0 (new_link now address) Hl) as [_ H]; [..|apply (H i)]. Qed.

(** ** The node the template came from *)
Section node.
Context `{CE : ChainEnv} {CL : ChainEnvLaws CE}.
Context (U : Block -> Prop) (HU : collision_free U).
Implicit Types (bc : Blockchain) (b t : Block).

Lemma ofold_no_err {E A B} (f : A -> B -> outcome E A) l : (forall a x e, f a x <> Err e) -> forall a e, ofold f a l <> Err e.
Proof.
  intros Hf. induction l as [|x l IH]; intros a e; cbn; [done|]. destruct (f a x) as [a'|e'|] eqn:E'; cbn; [apply IH| |done].
  by destruct (Hf a x e').
Qed.

Lemma accepted_on_tip now bc b :
  chain_inv U bc -> U b -> prev_block_hash (header b) = tip_hash bc -> check_extending_tip now bc b = Ok tt ->
  exists bc', add_block now bc b = (bc', Ok tt).
Proof.
  intros Hci Hu Hprev Hc. destruct (add_block now bc b) as [bc' r] eqn:E.
  pose proof (add_block_ok U HU now bc b bc' r Hci Hu E) as (Hnp & _). exists bc'. f_equal.
  unfold add_block in E. rewrite (add_block_fuel_step) in E. unfold add_one in E. rewrite decide_True in E by done.
  unfold add_block_extending_tip in E. rewrite Hc in E. cbn [mbind outcome_bind] in E.
  destruct (ci_follows _ _ Hci) as [a Hf].
  pose proof (extending_tip_valid U HU bc a b now Hf Hu Hprev Hc) as Hv.
  destruct (commit_extending_ok U HU bc a b now Hci Hf Hu Hv) as (bc1 & Hcm & _). rewrite Hcm in E. cbn zeta in E.
  match type of E with context [ofold ?f ?a ?l] => destruct (ofold f a l) as [bc2|e|] eqn:Eo end.
  - by simplify_eq.
  - exfalso. eapply ofold_no_err; [|exact Eo]. intros x o e'. cbn beta. destruct (add_block_fuel _ _ _ o) as [? []]; done.
  - by simplify_eq.
Qed.

(** For a solved template only the two checks of its time are left. *)
Lemma solved_template_checks now fresh_id bc pk t b now' tip :
  reachable U bc ->
  NoDup (concat (spends <$> (bc_mempool bc).*2)) ->
  Forall (tx_authorised (bc_utxos bc)) (bc_mempool bc).*2 ->
  Forall (fun tx => output_total tx <= input_total (bc_utxos bc) tx) (bc_mempool bc).*2 ->
  create_block_template now fresh_id bc pk = Ok t -> solves t b ->
  last (bc_active bc) = Some (block_hash tip) -> bc_blocks bc !! block_hash tip = Some tip ->
  prev_block_hash (header b) = tip_hash bc /\
  check_extending_tip now' bc b =
    (_ ← check_timestamp now' bc (timestamp (header b));
     guard_ok (Z.ltb (timestamp (header tip)) (timestamp (header b))) InvalidBlock).
Proof.
  intros Hr Hnd Hau Hco Ht [(S1 & S2 & S3 & S4) S5] Hlast Htip.
  destruct (template_valid U HU now fresh_id bc pk Hr Hnd Hau Hco) as (x & Hx & V1 & V2 & V3 & V4 & V5).
  rewrite Ht in Hx. injection Hx as <-. split; [congruence|].
  unfold check_extending_tip.
  rewrite (bool_decide_eq_false_2 (bc_active bc = [])) by (intros E; rewrite E in Hlast; done).
  cbn [andb negb guard_ok mbind outcome_bind].
  rewrite S4, V5, N.eqb_refl. cbn [guard_ok mbind outcome_bind].
  rewrite S4, V5 in S5. rewrite S5. cbn [guard_ok mbind outcome_bind].
  assert (check_block_size b = Ok tt) as ->. { unfold check_block_size in *. by rewrite S1. }
  cbn [mbind outcome_bind]. destruct (check_timestamp now' bc (timestamp (header b))) as [[]|e|]; [|done..].
  cbn [mbind outcome_bind]. rewrite S1, V3. cbn [mbind outcome_bind]. rewrite S3, N.eqb_refl. cbn [guard_ok mbind outcome_bind].
  rewrite Hlast, Htip. cbn [expect mbind outcome_bind].
  destruct (Z.ltb (timestamp (header tip)) (timestamp (header b))); [|done]. cbn [guard_ok mbind outcome_bind].
  revert V1. unfold verify_transactions. rewrite S1. destruct b, t. cbn in *. by subst.
Qed.

(** C32: A block template the node builds from a reachable state whose pending
    transactions are authorised, conserve value and do not conflict, once a miner has
    found a nonce for it, is accepted by that node, provided it is later than the
    node's tip and not more than two hours ahead of its adjusted clock. *)
Theorem solved_template_is_accepted now fresh_id bc pk t b now' tip :
  reachable U bc ->
  NoDup (concat (spends <$> (bc_mempool bc).*2)) ->
  Forall (tx_authorised (bc_utxos bc)) (bc_mempool bc).*2 ->
  Forall (fun tx => output_total tx <= input_total (bc_utxos bc) tx) (bc_mempool bc).*2 ->
  create_block_template now fresh_id bc pk = Ok t -> solves t b -> U b ->
  last (bc_active bc) = Some (block_hash tip) -> bc_blocks bc !! block_hash tip = Some tip ->
  (timestamp (header tip) < timestamp (header b))%Z ->
  (timestamp (header b) <= now' + bc_time_offset bc + seconds MAX_FUTURE_BLOCK_DRIFT_SECONDS)%Z ->
  exists bc', add_block now' bc b = (bc', Ok tt).
Proof.
  intros Hr Hnd Hau Hco Ht Hs Hu Hlast Htip Hlt Hle.
  destruct (solved_template_checks now fresh_id bc pk t b now' tip) as [Hp Hc]; [done..|].
  apply accepted_on_tip; [by apply reachable_inv|done|done|]. rewrite Hc. unfold check_timestamp.
  rewrite (proj2 (Z.leb_le _ _) Hle). cbn [guard_ok mbind outcome_bind]. by rewrite (proj2 (Z.ltb_lt _ _) Hlt).
Qed.

(** C40: A template built while the node's tip is not older than the node's clock (the tip
    may be up to two hours ahead) is rejected once solved: the node closes the miner's
    connection and strikes it for the block it asked for. *)
Theorem tip_ahead_of_the_clock_strikes_the_miner {BC : BlockCodec} env iter nodes store now fresh_id id bc pk t b now' tip :
  reachable U bc ->
  NoDup (concat (spends <$> (bc_mempool bc).*2)) ->
  Forall (tx_authorised (bc_utxos bc)) (bc_mempool bc).*2 ->
  Forall (fun tx => output_total tx <= input_total (bc_utxos bc) tx) (bc_mempool bc).*2 ->
  create_block_template now fresh_id bc pk = Ok t -> solves t b ->
  last (bc_active bc) = Some (block_hash tip) -> bc_blocks bc !! block_hash tip = Some tip ->
  (timestamp (header b) <= timestamp (header tip))%Z ->
  handle_message env now' id iter nodes (mkNode bc store) (SubmitTemplate b) = (mkNode bc store, Ok (Close (Some false))).
Proof.
  intros Hr Hnd Hau Hco Ht Hs Hlast Htip Hge.
  destruct (solved_template_checks now fresh_id bc pk t b now' tip) as [Hp Hc]; [done..|].
  assert (Hce : check_extending_tip now' bc b = Err InvalidBlock).
  { rewrite Hc. unfold check_timestamp. destruct (Z.leb _ _); [|done]. cbn [guard_ok mbind outcome_bind].
    rewrite (proj2 (Z.ltb_ge _ _) Hge). done. }
  assert (Ha : add_block now' bc b = (bc, Err InvalidBlock)).
  { unfold add_block. rewrite add_block_fuel_step. unfold add_one. rewrite decide_True by done.
    unfold add_block_extending_tip. by rewrite Hce. }
  cbn [handle_message nd_chain]. unfold accept_block. cbn [nd_chain nd_store]. by rewrite Ha.
Qed.
End node.

(** * ToyMiner: a miner at work

    A run in which a thread finds a block of a template that has been dropped in the
    meantime, and the theorems of [MinerTheorems] on concrete inputs. *)

From S2P Require Import ToyChain ToyNode.

Module ToyMiner.
Import Crypto.Toy.

Definition up : Dial := mkDial 0 true 0.
Definition down : Dial := mkDial 0 false 0.

Fixpoint steps_of (l : list MinerEvent) (m : Miner) : option Miner :=
  match l with
  | [] => Some m
  | e :: l' => m' ← miner_step e m; steps_of l' m'
  end.
Lemma steps_mined m0 l m m' : mined m0 m -> steps_of l m = Some m' -> mined m0 m'.
Proof.
  revert m. induction l as [|e l IH]; intros m Hm; cbn; [by intros [= <-]|].
  destruct (miner_step e m) as [m1|] eqn:E; [|done]. cbn. apply IH. by eapply mined_step.
Qed.

Definition miner0 : Miner :=
  mkMiner [mkLink "node" true RECONNECT_BACKOFF_START 0] None false [] [AtTop; AtTop] Selecting [] [].
Lemma miner0_starts : start_miner 0 [("node"%string, up)] 2 = Some miner0.
Proof. reflexivity. Qed.

(** The template arrives, both threads take it, and the first one is still at work
    when the node goes away: the template is dropped. *)
Definition losing_the_node : list MinerEvent :=
  [Ticks up (Some (Template block_a)) 0; Continues up true 0; Continues up true 0;
   ThreadSteps 0 0; ThreadSteps 0 0; Ticks up None 0; Continues up true 0; Continues up true 0].
(** The thread finds a block of it; it is taken from the channel and submitted once the
    node answers again. *)
Definition finding_a_block : list MinerEvent :=
  [ThreadSteps 0 0; ThreadSteps 0 0; Receives; Continues up true 0; Continues up true 0; Continues up true 0].

Definition run_from (m : Miner) (l : list MinerEvent) : Miner := default m (steps_of l m).
Definition without_node : Miner := run_from miner0 losing_the_node.
Definition node_back : Miner := run_from without_node finding_a_block.

Lemma run_from_mined m0 m l : mined m0 m -> mined m0 (run_from m l).
Proof. intros Hm. unfold run_from. destruct (steps_of l m) as [m'|] eqn:E; [|done]. by eapply steps_mined. Qed.

(** A thread at work when the node goes away still delivers: the template has been dropped
    and mining is off, and with no new template received the block of the old one is
    submitted when the node answers again. *)
Theorem stale_block_is_submitted :
  exists m1 m2 b,
    mined miner0 m1 /\ main m1 = Selecting /\ current_template m1 = None /\ mining m1 = false /\
    mined m1 m2 /\ received m2 = received m1 /\ submitted m1 = [] /\ submitted m2 = [("node"%string, b)].
Proof.
  exists without_node, node_back, block_a.
  split; [apply run_from_mined, mined_start|]. split; [vm_compute; reflexivity|]. split; [vm_compute; reflexivity|].
  split; [vm_compute; reflexivity|]. split; [apply run_from_mined, mined_start|].
  split; [vm_compute; reflexivity|]. split; vm_compute; reflexivity.
Qed.

Lemma submitted_blocks_are_solved_templates_witness :
  exists t, t ∈ received node_back /\ solves t block_a.
Proof.
  destruct (submitted_blocks_are_solved_templates 0 [("node"%string, up)] 2 miner0 node_back miner0_starts) as [Hs _].
  - apply run_from_mined. apply (run_from_mined miner0 miner0 losing_the_node (mined_start miner0)).
  - apply (Hs "node"%string block_a). vm_compute. apply list_elem_of_here.
Defined.

Lemma threads_cover_one_window_witness :
  exists i b', (i < 2)%nat /\ search 0 (with_nonce (thread_start_nonce i STEPS_PER_CALL) block_a) = (true, b').
Proof.
  destruct (threads_cover_one_window 0 block_a 2) as [Hc _]; [lia|vm_compute; discriminate|].
  apply (Hc 0); vm_compute; [discriminate|reflexivity].
Defined.

Lemma failed_dials_back_off_witness :
  let l := [mkDial 0 false 5; mkDial 6 false 6; mkDial (seconds 2) false (seconds 3); mkDial (seconds 6) false (seconds 6)] in
  dialled l (new_link 0 "node") = [mkDial 0 false 5; mkDial (seconds 2) false (seconds 3); mkDial (seconds 6) false (seconds 6)] /\
  (seconds 3 + Z.min (seconds (2 ^ 1)) (seconds 30) <= seconds 6)%Z.
Proof.
  split; [vm_compute; reflexivity|].
  apply (failed_dials_back_off 0 "node"
    [mkDial 0 false 5; mkDial 6 false 6; mkDial (seconds 2) false (seconds 3); mkDial (seconds 6) false (seconds 6)] 1
    (mkDial (seconds 2) false (seconds 3)) (mkDial (seconds 6) false (seconds 6))).
  - repeat constructor.
  - vm_compute. reflexivity.
  - vm_compute. reflexivity.
Defined.

Lemma chain1_reachable : reachable in_play chain1.
Proof. eapply rtc_once. rewrite <- chain1_eq. apply run_step, in_play_all. Qed.
Lemma solved_template_is_accepted_witness : exists bc', add_block (seconds 100) chain1 block_a = (bc', Ok tt).
Proof.
  apply (solved_template_is_accepted in_play in_play_collision_free (seconds 16) 1 chain1 [1] block_a block_a (seconds 100) genesis).
  - exact chain1_reachable.
  - apply NoDup_nil_2.
  - exact (Forall_nil_2 _).
  - exact (Forall_nil_2 _).
  - vm_compute. reflexivity.
  - split; [repeat split; reflexivity|vm_compute; reflexivity].
  - apply in_play_all.
  - vm_compute. reflexivity.
  - vm_compute. reflexivity.
  - vm_compute. reflexivity.
  - vm_compute. discriminate.
Defined.

(** The node's clock reads 10 s and its tip is of 16 s. *)
Definition early : Block := Eval vm_compute in
  match create_block_template (seconds 10) 1 chain2 [1] with Ok b => b | _ => block_a end.
Lemma tip_ahead_of_the_clock_strikes_the_miner_witness :
  handle_message good (seconds 12) 0 map_to_list [] (mkNode chain2 empty_store) (SubmitTemplate early)
    = (mkNode chain2 empty_store, Ok (Close (Some false))).
Proof.
  apply (tip_ahead_of_the_clock_strikes_the_miner in_play in_play_collision_free good map_to_list [] empty_store (seconds 10) 1 0
    chain2 [1] early early (seconds 12) block_a).
  - exact chain2_reachable.
  - apply NoDup_nil_2.
  - exact (Forall_nil_2 _).
  - exact (Forall_nil_2 _).
  - vm_compute. reflexivity.
  - split; [repeat split; reflexivity|vm_compute; reflexivity].
  - vm_compute. reflexivity.
  - vm_compute. reflexivity.
  - vm_compute. discriminate.
Defined.
End ToyMiner.
