(* ===== verification/WalletCore.v ===== *)
(** * WalletCore: the terminal wallet

    Models [wallet/src/core.rs]: the outputs the wallet knows of, the fee it computes
    in [f64], and the payment it builds. The map of outputs is a skip list, visited in
    the order of its keys: [iter]. What a node replied, fresh ids, and the key the size
    model is sampled with are arguments. *)

From S2P Require Import Prelude Types Crypto Transaction Spend Wire.

Record LoadedKey := mkLoadedKey { lk_public : PublicKey; lk_private : PrivateKey }.
Inductive FeeType : Type := Fixed | Percent | PerByte.
Record FeeConfig := mkFeeConfig { fee_type : FeeType; fee_value : spec_float }.
Record TransactionSizeModel := mkSizeModel { size_base : N; size_per_input : N; size_per_output : N }.

Inductive WalletError : Type :=
| WalletInsufficientFunds
| WalletDisconnected
| WalletUnexpectedResponse
| RecipientNotFound
| RecipientNotLoaded.

(** [UtxoStore] *)
Record UtxoStore := mkUtxoStore {
  my_keys : list LoadedKey;
  utxos_of : gmap PublicKey (list (bool * TransactionOutput))
}.

Section wallet.
Context `{Primitives}.

(** ** Fees *)

(** [transaction_size_model]: one input and one output, each measured on its own. *)
Definition sample_input (sample_hash : Hash) (key : PrivateKey) : TransactionInput :=
  mkInput sample_hash (sign_output sample_hash key).
Definition sample_output (id : Uuid) (key : PrivateKey) : TransactionOutput := mkOutput 0 id (verifying_key key).
Definition transaction_size_model (sample_hash : Hash) (key : PrivateKey) (id : Uuid)
    : outcome WalletError TransactionSizeModel :=
  let base := serialized_size (mkTransaction [] []) in
  per_input ← sub64 (serialized_size (mkTransaction [sample_input sample_hash key] [])) base;
  per_output ← sub64 (serialized_size (mkTransaction [] [sample_output id key])) base;
  Ok (mkSizeModel base per_input per_output).
Definition estimated_transaction_size (model : TransactionSizeModel) (num_inputs num_outputs : N) : outcome WalletError N :=
  i ← mul64 num_inputs (size_per_input model);
  o ← mul64 num_outputs (size_per_output model);
  a ← add64 (size_base model) i;
  add64 a o.

(** [FeeConfig::calculate_fee] *)
Definition calculate_fee (model : TransactionSizeModel) (c : FeeConfig) (amount num_inputs num_outputs : N)
    : outcome WalletError N :=
  match fee_type c with
  | Fixed => Ok (f64_as_u64 (fee_value c))
  | Percent => Ok (f64_as_u64 (f64_div (f64_mul (f64_of (Z.of_N amount)) (fee_value c)) (f64_of 100)))
  | PerByte =>
      size ← estimated_transaction_size model num_inputs num_outputs;
      Ok (f64_as_u64 (f64_mul (f64_of (Z.of_N size)) (fee_value c)))
  end.

(** ** The outputs the wallet knows of *)

(** [Core::fetch_utxos]: one exchange per key, the first failure ending it with the
    keys before it refreshed. *)
Fixpoint fetch_keys (keys : list LoadedKey) (replies : list (option Message)) (store : UtxoStore)
    : UtxoStore * outcome WalletError unit :=
  match keys with
  | [] => (store, Ok tt)
  | k :: keys' =>
      match replies with
      | Some (UTXOs utxos) :: replies' =>
          fetch_keys keys' replies'
            (mkUtxoStore (my_keys store) (<[lk_public k := (fun e => (e.2, e.1)) <$> utxos]> (utxos_of store)))
      | Some _ :: _ => (store, Err WalletUnexpectedResponse)
      | _ => (store, Err WalletDisconnected)
      end
  end.
Definition wallet_fetch (replies : list (option Message)) (store : UtxoStore) : UtxoStore * outcome WalletError unit :=
  fetch_keys (my_keys store) replies store.

(** [Core::get_balance] *)
Definition get_balance (iter : gmap PublicKey (list (bool * TransactionOutput)) -> list (PublicKey * list (bool * TransactionOutput)))
    (store : UtxoStore) : outcome WalletError N :=
  ofold (fun balance e => s ← expect (checked_sum ((fun u => value u.2) <$> e.2)); add64 balance s) 0 (iter (utxos_of store)).

(** ** Paying *)
Record Selection := mkSelection { selected : list (Hash * PrivateKey); input_sum : N }.

(** The selection loops: [true] is [break 'select]. *)
Fixpoint select_outputs (fee_for : N -> outcome WalletError N) (amount : N) (keys : list LoadedKey) (pk : PublicKey)
    (utxos : list (bool * TransactionOutput)) (s : Selection) : outcome WalletError (bool * Selection) :=
  match utxos with
  | [] => Ok (false, s)
  | (true, _) :: rest => select_outputs fee_for amount keys pk rest s
  | (false, utxo) :: rest =>
      fee ← fee_for (N.of_nat (length (selected s)));
      needed ← add64 amount fee;
      if needed <=? input_sum s then Ok (true, s)
      else
        key ← expect (snd <$> list_find (fun k => lk_public k = pk) keys);
        sum ← add64 (input_sum s) (value utxo);
        select_outputs fee_for amount keys pk rest
          (mkSelection (selected s ++ [(output_hash utxo, lk_private key)]) sum)
  end.
Fixpoint select_entries (fee_for : N -> outcome WalletError N) (amount : N) (keys : list LoadedKey)
    (entries : list (PublicKey * list (bool * TransactionOutput))) (s : Selection) : outcome WalletError Selection :=
  match entries with
  | [] => Ok s
  | (pk, utxos) :: rest =>
      '(stop, s) ← select_outputs fee_for amount keys pk utxos s;
      if stop : bool then Ok s else select_entries fee_for amount keys rest s
  end.

(** [Core::create_transaction]; [fresh i] is the [i]-th new id. *)
Definition create_transaction (model : TransactionSizeModel) (c : FeeConfig) (fresh : nat -> Uuid)
    (iter : gmap PublicKey (list (bool * TransactionOutput)) -> list (PublicKey * list (bool * TransactionOutput)))
    (store : UtxoStore) (recipient : PublicKey) (amount : N) : outcome WalletError Transaction :=
  let fee_for n := calculate_fee model c amount n 2 in
  s ← select_entries fee_for amount (my_keys store) (iter (utxos_of store)) (mkSelection [] 0);
  fee ← fee_for (N.of_nat (length (selected s)));
  total_amount ← add64 amount fee;
  ensure negb (input_sum s <? total_amount) otherwise WalletInsufficientFunds;
  outs ← (if total_amount <? input_sum s
          then first ← expect (head (my_keys store));
               Ok [mkOutput amount (fresh 0%nat) recipient; mkOutput (input_sum s - total_amount) (fresh 1%nat) (lk_public first)]
          else Ok [mkOutput amount (fresh 0%nat) recipient]);
  Ok (mkTransaction ((fun e => signed e.1 outs e.2) <$> selected s) outs).

(** [Core::send_transaction_async], up to the send: the contact by its name, then its
    key from its file. *)
Definition prepare_payment (model : TransactionSizeModel) (c : FeeConfig) (fresh : nat -> Uuid) iter (store : UtxoStore)
    (contacts : list (string * option PublicKey)) (recipient : string) (amount : N) : outcome WalletError Transaction :=
  found ← ok_or (list_find (fun r => r.1 = recipient) contacts) RecipientNotFound;
  key ← ok_or found.2.2 RecipientNotLoaded;
  create_transaction model c fresh iter store key amount.
End wallet.

(** * WalletCoreTheorems: what the wallet pays

    A payment the wallet builds is exact and signed by the owner of each coin; it is
    refused only when every coin together does not cover it; and as long as the node
    has not been asked again, two payments spend the same coins. *)

Section wallet.
Context `{P : Primitives} {PL : PrimitiveLaws P}.
Implicit Types (store : UtxoStore).

(** The coins nothing has spoken for, in the order they are visited, each with the key
    it was reported under. *)
Definition free_of (entry : PublicKey * list (bool * TransactionOutput)) : list (PublicKey * TransactionOutput) :=
  pair entry.1 <$> free_outputs entry.2.
Definition free_coins (entries : list (PublicKey * list (bool * TransactionOutput))) : list (PublicKey * TransactionOutput) :=
  concat (free_of <$> entries).
Definition worth (l : list (PublicKey * TransactionOutput)) : N := sumN ((fun e => value e.2) <$> l).

(** A selected coin goes with the private key of the first pair whose public key it
    was reported under. *)
Definition picks (keys : list LoadedKey) (e : PublicKey * TransactionOutput) (x : Hash * PrivateKey) : Prop :=
  x.1 = output_hash e.2 /\ exists i k, list_find (fun k => lk_public k = e.1) keys = Some (i, k) /\ x.2 = lk_private k.

Section selecting.
Context (fee_for : N -> outcome WalletError N) (amount : N) (keys : list LoadedKey).

Definition covered (s : Selection) : Prop :=
  exists fee, fee_for (N.of_nat (length (selected s))) = Ok fee /\ amount + fee <= input_sum s.

Lemma select_outputs_spec pk us : forall s stop s',
  select_outputs fee_for amount keys pk us s = Ok (stop, s') ->
  exists taken rest new, free_of (pk, us) = taken ++ rest /\ selected s' = selected s ++ new /\ Forall2 (picks keys) taken new /\
    input_sum s' = input_sum s + worth taken /\ (if stop then covered s' else rest = []).
Proof.
  induction us as [|[m o] us IH]; intros s stop s'; cbn [select_outputs].
  { intros [= <- <-]. exists [], [], []. unfold worth. cbn. rewrite app_nil_r. split_and!; [done|done|constructor|lia|done]. }
  unfold free_of in *. cbn [fst snd] in *. rewrite free_cons. destruct m; [apply IH|]. intros Hs. inv_ok.
  match goal with F : add64 amount ?f = Ok _ |- _ => apply add64_Ok in F as [-> _] end.
  match goal with F : fee_for _ = Ok ?f |- _ => rename F into Hf; rename f into fee end.
  destruct (N.leb_spec (amount + fee) (input_sum s)) as [Hle|Hlt].
  { inv_ok. simplify_eq. exists [], (pair pk <$> (o :: free_outputs us)), []. unfold worth. cbn. rewrite app_nil_r.
    split_and!; [done|done|constructor|lia|]. by exists fee. }
  inv_ok. match goal with F : add64 (input_sum s) _ = Ok _ |- _ => apply add64_Ok in F as [-> _] end.
  match goal with F : snd <$> _ = Some ?k |- _ => apply fmap_Some in F as ([i k'] & Hk & ->) end.
  apply IH in Hs as (taken & rest & new & Hfree & Hsel & Hp & Hsum & Hend). cbn [selected input_sum fst snd] in *.
  exists ((pk, o) :: taken), rest, ((output_hash o, lk_private k') :: new).
  split_and!; [cbn; by rewrite Hfree|by rewrite Hsel, <- app_assoc| | |done].
  - constructor; [|done]. split; [done|]. by exists i, k'.
  - rewrite Hsum. unfold worth. rewrite fmap_cons, sumN_cons. cbn. lia.
Qed.

Lemma select_entries_spec entries : forall s s',
  select_entries fee_for amount keys entries s = Ok s' ->
  exists taken rest new, free_coins entries = taken ++ rest /\ selected s' = selected s ++ new /\ Forall2 (picks keys) taken new /\
    input_sum s' = input_sum s + worth taken /\ (covered s' \/ rest = []).
Proof.
  induction entries as [|[pk us] entries IH]; intros s s'; cbn [select_entries].
  { intros [= <-]. exists [], [], []. unfold worth. cbn. rewrite app_nil_r. split_and!; [done|done|constructor|lia|by right]. }
  intros Hs. inv_ok. match goal with F : select_outputs _ _ _ _ _ _ = Ok ?r |- _ => destruct r as [stop s1]; rename F into H1 end.
  apply select_outputs_spec in H1 as (t1 & r1 & n1 & F1 & S1 & P1 & V1 & E1).
  unfold free_coins. rewrite fmap_cons, concat_cons, F1. destruct stop.
  { inv_ok. simplify_eq. exists t1, (r1 ++ free_coins entries), n1. unfold free_coins. rewrite <- app_assoc. split_and!; [done..|by left]. }
  subst r1. rewrite app_nil_r. apply IH in Hs as (t2 & r2 & n2 & F2 & S2 & P2 & V2 & E2).
  exists (t1 ++ t2), r2, (n1 ++ n2). unfold free_coins in F2. rewrite F2. unfold worth in *. rewrite fmap_app, sumN_app.
  split_and!; [by rewrite app_assoc|by rewrite S2, S1, app_assoc|by apply Forall2_app|lia|done].
Qed.
End selecting.

(** What a built payment is made of. *)
Lemma create_spec model c fresh iter store recipient amount tx :
  create_transaction model c fresh iter store recipient amount = Ok tx ->
  exists taken rest new fee,
    free_coins (iter (utxos_of store)) = taken ++ rest /\ Forall2 (picks (my_keys store)) taken new /\
    calculate_fee model c amount (N.of_nat (length taken)) 2 = Ok fee /\ amount + fee <= worth taken /\
    inputs tx = (fun e => signed e.1 (outputs tx) e.2) <$> new /\
    exists change, outputs tx = mkOutput amount (fresh 0%nat) recipient :: change /\
      (worth taken = amount + fee /\ change = [] \/
       exists first, amount + fee < worth taken /\ head (my_keys store) = Some first /\
         change = [mkOutput (worth taken - (amount + fee)) (fresh 1%nat) (lk_public first)]).
Proof.
  unfold create_transaction. intros Hc. inv_ok.
  match goal with F : select_entries _ _ _ _ _ = Ok ?s |- _ => apply select_entries_spec in F as (taken & rest & new & F1 & F2 & F3 & F4 & _); rename s into sel end.
  match goal with F : add64 _ ?f = Ok _ |- _ => apply add64_Ok in F as [-> _]; rename f into fee end.
  match goal with F : negb _ = true |- _ => apply negb_true_iff, N.ltb_ge in F; rename F into Hge end.
  cbn [selected input_sum app] in F2, F4. rewrite N.add_0_l in F4.
  match goal with F : calculate_fee _ _ _ _ _ = Ok _ |- _ => rewrite F2, <- (Forall2_length _ _ _ F3) in F; rename F into Hfee end.
  exists taken, rest, new, fee. rewrite F4 in *. split; [done|]. split; [done|]. split; [done|]. split; [done|]. subst tx. cbn [inputs outputs].
  split; [by rewrite F2|]. destruct (N.ltb_spec (amount + fee) (worth taken)) as [Hlt|Hle].
  - inv_ok. subst. eexists. split; [done|]. right. match goal with F : head _ = Some ?k |- _ => exists k end. done.
  - inv_ok. subst. exists []. split; [done|]. left. split; [lia|done].
Qed.

(** A payment the wallet builds spends the first of its coins nothing has spoken for,
    worth exactly its outputs plus the fee for that many inputs; it pays the recipient
    the amount and the rest to the wallet's first key, and every input verifies under
    the key its coin was reported under. *)
Theorem wallet_payment_is_exact model c fresh iter store recipient amount tx :
  Forall (fun k => lk_public k = verifying_key (lk_private k)) (my_keys store) ->
  create_transaction model c fresh iter store recipient amount = Ok tx ->
  exists taken rest fee,
    free_coins (iter (utxos_of store)) = taken ++ rest /\ spends tx = (fun e => output_hash e.2) <$> taken /\
    calculate_fee model c amount (N.of_nat (length taken)) 2 = Ok fee /\
    worth taken = output_total tx + fee /\
    (exists change, ((fun o => (pubkey o, value o)) <$> outputs tx) = (recipient, amount) :: change /\
       (change = [] \/ exists first, head (my_keys store) = Some first /\ change = [(lk_public first, worth taken - (amount + fee))])) /\
    Forall2 (fun i e => verifies i (outputs tx) e.1 = true) (inputs tx) taken.
Proof.
  intros Hk Hc. apply create_spec in Hc as (taken & rest & new & fee & F1 & F2 & F3 & F4 & F5 & change & F6 & F7).
  exists taken, rest, fee. split; [done|]. split; [|split; [done|split; [|split]]].
  - unfold spends. rewrite F5, <- list_fmap_compose. clear -F2. induction F2 as [|e x l l' [Hp _] _ IH]; [done|].
    cbn. by rewrite <- IH, Hp.
  - unfold output_total. rewrite F6, fmap_cons, sumN_cons. cbn.
    destruct F7 as [[? ->]|(first & Hlt & _ & ->)]; cbn; lia.
  - rewrite F6. destruct F7 as [[_ ->]|(first & _ & Hf & ->)]; cbn; [by exists []; split; [|left]|].
    eexists. split; [done|]. right. by exists first.
  - rewrite F5. apply Forall2_fmap_l. apply Forall2_flip. eapply Forall2_impl; [exact F2|].
    intros [pk o] [h key] [Hh (i & k & Hfind & Hkey)]. cbn in *. subst.
    apply list_find_Some in Hfind as (Hi & <- & _). rewrite Forall_lookup in Hk. rewrite (Hk _ _ Hi). apply ecdsa_sound.
Qed.

Section totality.
Context (fee_for : N -> outcome WalletError N) (amount : N) (keys : list LoadedKey).
Hypothesis (fees : forall n, exists fee, fee_for n = Ok fee /\ amount + fee <= U64_MAX).

Definition known (pk : PublicKey) : Prop := exists k, k ∈ keys /\ lk_public k = pk.
Lemma known_found pk : known pk -> exists x, list_find (fun k => lk_public k = pk) keys = Some x.
Proof.
  intros (k & Hk & E). destruct (list_find (fun k => lk_public k = pk) keys) as [x|] eqn:Ef; [eauto|].
  rewrite list_find_None, Forall_forall in Ef. by destruct (Ef k Hk).
Qed.

Lemma select_outputs_total pk us : known pk -> forall s,
  input_sum s + worth (free_of (pk, us)) <= U64_MAX -> exists r, select_outputs fee_for amount keys pk us s = Ok r.
Proof.
  intros Hk. unfold free_of, worth. cbn [fst snd]. induction us as [|[m o] us IH]; intros s Hs; cbn [select_outputs]; [eauto|].
  rewrite free_cons in Hs. destruct m; [by apply IH|]. rewrite fmap_cons, fmap_cons, sumN_cons in Hs. cbn in Hs.
  destruct (fees (N.of_nat (length (selected s)))) as (fee & -> & Hfit). cbn [mbind outcome_bind].
  rewrite (add64_fits amount fee) by done. cbn [mbind outcome_bind]. destruct (N.leb_spec (amount + fee) (input_sum s)); [eauto|].
  destruct (known_found pk Hk) as [[j k] ->]. cbn [fmap option_fmap option_map snd expect mbind outcome_bind].
  rewrite (add64_fits (input_sum s)) by lia. cbn [mbind outcome_bind]. apply IH. cbn. lia.
Qed.
Lemma select_entries_total entries : Forall (fun e => known e.1) entries -> forall s,
  input_sum s + worth (free_coins entries) <= U64_MAX -> exists r, select_entries fee_for amount keys entries s = Ok r.
Proof.
  induction 1 as [|[pk us] entries Hk _ IH]; intros s Hs; cbn [select_entries]; [eauto|].
  unfold free_coins, worth in *. rewrite fmap_cons, concat_cons, fmap_app, sumN_app in Hs.
  destruct (select_outputs_total pk us Hk s) as ([stop s1] & E); [unfold worth; lia|]. rewrite E. cbn [mbind outcome_bind].
  destruct stop; [eauto|]. apply IH. apply select_outputs_spec in E as (t1 & r1 & n1 & F1 & _ & _ & V1 & ->).
  rewrite app_nil_r in F1. unfold worth in V1. rewrite <- F1 in V1. lia.
Qed.
End totality.

(** While fees and coins add up within u64 and every coin's key is loaded, the wallet
    builds the payment or says the funds are insufficient, and then all its coins
    together do not cover the amount and the fee for spending them all. *)
Theorem wallet_refuses_only_for_want_of_funds model c fresh iter store recipient amount :
  let coins := free_coins (iter (utxos_of store)) in
  (forall n, exists fee, calculate_fee model c amount n 2 = Ok fee /\ amount + fee <= U64_MAX) ->
  Forall (fun e => known (my_keys store) e.1) (iter (utxos_of store)) -> my_keys store <> [] -> worth coins <= U64_MAX ->
  (exists tx, create_transaction model c fresh iter store recipient amount = Ok tx) \/
  create_transaction model c fresh iter store recipient amount = Err WalletInsufficientFunds /\
    exists fee, calculate_fee model c amount (N.of_nat (length coins)) 2 = Ok fee /\ worth coins < amount + fee.
Proof.
  intros coins Hfee Hkeys Hne Hfit. unfold create_transaction.
  destruct (select_entries_total (fun n => calculate_fee model c amount n 2) amount (my_keys store) Hfee _ Hkeys (mkSelection [] 0))
    as [s Hs]; [cbn [input_sum]; rewrite N.add_0_l; exact Hfit|]. rewrite Hs. cbn [mbind outcome_bind].
  apply select_entries_spec in Hs as (taken & rest & new & F1 & F2 & F3 & F4 & F5). cbn [selected input_sum app] in F2, F4. rewrite N.add_0_l in F4.
  destruct (Hfee (N.of_nat (length (selected s)))) as (fee & Hf & Hle). rewrite Hf. cbn [mbind outcome_bind].
  rewrite add64_fits by done. cbn [mbind outcome_bind].
  destruct (N.ltb_spec (input_sum s) (amount + fee)) as [Hlt|Hge]; cbn [negb].
  - right. split; [done|]. destruct F5 as [(fee' & Hf' & Hc)|Hr].
    { exfalso. rewrite Hf in Hf'. injection Hf' as <-. lia. }
    subst rest. rewrite app_nil_r in F1. exists fee. rewrite F2, <- (Forall2_length _ _ _ F3), <- F1 in Hf. split; [done|].
    unfold coins. rewrite F1, <- F4. done.
  - left. destruct (amount + fee <? input_sum s); [|cbn; eauto]. destruct (my_keys store) as [|k l]; [done|]. cbn. eauto.
Qed.

(** Any two payments the wallet builds from one refresh spend a coin in common. *)
Theorem unrefreshed_wallet_spends_the_same_coins model c fresh fresh' iter store r r' a a' tx tx' :
  create_transaction model c fresh iter store r a = Ok tx ->
  create_transaction model c fresh' iter store r' a' = Ok tx' ->
  0 < a -> 0 < a' ->
  exists h, h ∈ spends tx /\ h ∈ spends tx'.
Proof.
  intros H1 H2 Ha Ha'.
  apply create_spec in H1 as (t1 & r1 & n1 & f1 & F1 & P1 & _ & L1 & I1 & _).
  apply create_spec in H2 as (t2 & r2 & n2 & f2 & F2 & P2 & _ & L2 & I2 & _).
  assert (Hs : forall tx n, inputs tx = (fun e => signed e.1 (outputs tx) e.2) <$> n -> spends tx = n.*1).
  { intros x n E. unfold spends. by rewrite E, <- list_fmap_compose. }
  rewrite (Hs _ _ I1), (Hs _ _ I2).
  destruct t1 as [|e1 t1]; [unfold worth in L1; cbn in L1; lia|]. destruct t2 as [|e2 t2]; [unfold worth in L2; cbn in L2; lia|].
  assert (e1 = e2) as -> by (rewrite F1 in F2; cbn in F2; congruence).
  apply Forall2_cons_inv_l in P1 as (x1 & l1 & [E1 _] & _ & ->). apply Forall2_cons_inv_l in P2 as (x2 & l2 & [E2 _] & _ & ->).
  exists x1.1. cbn. split; [apply list_elem_of_here|]. rewrite E1, <- E2. apply list_elem_of_here.
Qed.

(** ** Refreshing *)
Lemma fetch_keys_ok keys : forall replies store store',
  fetch_keys keys replies store = (store', Ok tt) ->
  my_keys store' = my_keys store /\ (forall k, k ∈ keys -> is_Some (utxos_of store' !! lk_public k)) /\
  (forall pk, is_Some (utxos_of store !! pk) -> is_Some (utxos_of store' !! pk)) /\
  (forall pk l, utxos_of store' !! pk = Some l ->
     utxos_of store !! pk = Some l \/
     exists k us, k ∈ keys /\ lk_public k = pk /\ Some (UTXOs us) ∈ replies /\ l = (fun e => (e.2, e.1)) <$> us).
Proof.
  induction keys as [|k keys IH]; intros replies store store'; cbn [fetch_keys].
  { intros [= <-]. split; [done|]. split; [set_solver|]. split; [done|]. auto. }
  destruct replies as [|[[]|] replies]; try done. intros Hf. apply IH in Hf as (E1 & E2 & E3 & E4). cbn in *.
  split; [done|]. split; [|split].
  - intros x [->|Hx]%elem_of_cons; [|by apply E2]. apply E3. rewrite lookup_insert_eq. eauto.
  - intros pk Hpk. apply E3. destruct (decide (lk_public k = pk)) as [->|]; [by rewrite lookup_insert_eq; eauto|by rewrite lookup_insert_ne].
  - intros pk l Hl. apply E4 in Hl as [Hl|(k' & us & ? & ? & ? & ?)].
    + apply lookup_insert_Some in Hl as [[<- <-]|[_ Hl]]; [|by left]. right. exists k, utxos. split; [apply list_elem_of_here|].
      split; [done|]. split; [apply list_elem_of_here|done].
    + right. exists k', us. split; [by apply list_elem_of_further|]. split; [done|]. split; [by apply list_elem_of_further|done].
Qed.

(** After a refresh that succeeds every key has the outputs of one of the node's replies,
    each with its mark, and the wallet has outputs under no other key. *)
Theorem refreshed_wallet_holds_what_the_node_said replies keys store' :
  wallet_fetch replies (mkUtxoStore keys ∅) = (store', Ok tt) ->
  (forall k, k ∈ keys -> exists us, Some (UTXOs us) ∈ replies /\
     utxos_of store' !! lk_public k = Some ((fun e => (e.2, e.1)) <$> us)) /\
  (forall pk, is_Some (utxos_of store' !! pk) -> known keys pk).
Proof.
  unfold wallet_fetch. cbn [my_keys]. intros Hf. apply fetch_keys_ok in Hf as (_ & E2 & _ & E4). cbn in *. split.
  - intros k Hk. destruct (E2 k Hk) as [l Hl]. destruct (E4 _ _ Hl) as [Hn|(k' & us & _ & _ & Hus & ->)]; [by rewrite lookup_empty in Hn|].
    exists us. done.
  - intros pk [l Hl]. destruct (E4 _ _ Hl) as [Hn|(k & us & Hk & <- & _)]; [by rewrite lookup_empty in Hn|]. by exists k.
Qed.
End wallet.
