(* ===== verification/WalletPay.v ===== *)
(** * WalletPay: paying once, by hand

    Models [wallet/src/pay.rs]: the refusals before anything is sent, the payment, and
    what the command concludes from the node's silence and from the chain. What the
    world answers to each thing the command does is [PayWorld]; what it does is the
    list of its [PayAction]s. *)

From Stdlib Require Import Ascii.
From S2P Require Import Prelude Types Crypto Transaction Spend Wire Auth IpAddr.

Definition DEFAULT_FEE : N := 1000.

(** ** Endpoints *)
Definition same_endpoint (a b : text) : bool :=
  match parse_socket_addr (trim a), parse_socket_addr (trim b) with
  | Some x, Some y => bool_decide (to_canonical x.1 = to_canonical y.1) && (x.2 =? y.2)
  | _, _ => bool_decide (trim a = trim b)
  end.

(** ** The command *)
Record PayArgs := mkPayArgs {
  node : text; to : string; amount : N; fee : N; hub_addr : text; wait_seconds : N; yes : bool; force : bool
}.

(** How reading for the reject window ended. *)
Inductive RejectWindow : Type := Silence | Broke (e : DeError) | Spoke (m : Message).
(** One poll: whether the node was reached, its reply, and whether the deadline has
    passed since. *)
Record Poll := mkPoll { poll_dial : bool; poll_reply : option Message; late : bool }.
Record PayWorld := mkPayWorld {
  hub_listens : bool;
  from_key : option PrivateKey;
  dial_ok : bool;
  my_reply : option Message;
  recipient_reply : option Message;
  prompt : option string;
  send_ok : bool;
  window : RejectWindow;
  polls : list Poll
}.

Inductive PayAction : Type :=
| Probed (address : text)
| DialledNode
| Asked (pk : PublicKey)
| Submitted (tx : Transaction).
Inductive PayEnd : Type :=
| Refused
| Failed
| NothingSent
| Rejected
| InMempool
| StillWaiting
| Polling
| PaidOut (now : N)
| PayPanic.

Definition flip_utxos (l : list (TransactionOutput * bool)) : list (bool * TransactionOutput) := (fun e => (e.2, e.1)) <$> l.
Definition reply_utxos (reply : option Message) : option (list (bool * TransactionOutput)) :=
  match reply with Some (UTXOs l) => Some (flip_utxos l) | _ => None end.
(** [balance_of]: every output, spoken for or not. *)
Definition balance_of (utxos : list (bool * TransactionOutput)) : option N := checked_sum ((fun e => value e.2) <$> utxos).

Section pay.
Context `{Primitives, EnvelopeEnv}.

(** [parse_pubkey] *)
Definition parse_pubkey (hex_str : string) : option PublicKey :=
  bytes ← hex_decode (to_string (trim (of_string hex_str))); from_sec1_bytes bytes.

(** The loop at the end: each poll dials, asks for the recipient, and looks; the polls
    of [l] are the ones that have happened. *)
Fixpoint poll_loop (recipient : PublicKey) (before amount : N) (l : list Poll) (done : list PayAction) : list PayAction * PayEnd :=
  match l with
  | [] => (done, Polling)
  | p :: l' =>
      let done := done ++ [DialledNode] in
      if negb (poll_dial p) then (done, Failed)
      else
        let done := done ++ [Asked recipient] in
        match reply_utxos (poll_reply p) with
        | None => (done, Failed)
        | Some utxos =>
            match balance_of utxos, checked_add before amount with
            | Some now, Some goal => if goal <=? now then (done, PaidOut now)
                                     else if late p then (done, StillWaiting)
                                     else poll_loop recipient before amount l' done
            | _, _ => (done, PayPanic)
            end
        end
  end.

(** From the reject window on. *)
Definition conclude (args : PayArgs) (w : PayWorld) (recipient : PublicKey) (before : N) (done : list PayAction)
    : list PayAction * PayEnd :=
  match window w with
  | Broke e => (done, if is_benign_disconnect e then Rejected else Failed)
  | Silence | Spoke _ =>
      if wait_seconds args =? 0 then (done, InMempool)
      else poll_loop recipient before (amount args) (polls w) done
  end.

(** [run]; [fresh] are the new ids of the payment. *)
Definition run (fresh : nat -> Uuid) (args : PayArgs) (w : PayWorld) : list PayAction * PayEnd :=
  if same_endpoint (hub_addr args) (node args) then ([], Refused)
  else
    let done := [Probed (hub_addr args)] in
    if hub_listens w && negb (force args) then (done, Refused)
    else match from_key w, parse_pubkey (to args) with
    | Some key, Some recipient =>
        let from := verifying_key key in
        if bool_decide (recipient = from) || (amount args =? 0) then (done, Refused)
        else
          let done := done ++ [DialledNode] in
          if negb (dial_ok w) then (done, Failed)
          else
            let done := done ++ [Asked from] in
            match reply_utxos (my_reply w) with
            | None => (done, Failed)
            | Some utxos =>
                match balance_of (base.filter (fun e => e.1 = false) utxos), balance_of (base.filter (fun e => e.1 = true) utxos) with
                | Some _, Some _ =>
                    let done := done ++ [Asked recipient] in
                    match reply_utxos (recipient_reply w) with
                    | None => (done, Failed)
                    | Some theirs =>
                        match balance_of theirs with
                        | None => (done, PayPanic)
                        | Some before =>
                            match build_payment fresh utxos key recipient (amount args) (fee args) from with
                            | Panic => (done, PayPanic)
                            | Err _ => (done, Failed)
                            | Ok tx =>
                                match (if yes args then Some true
                                       else option_map (fun answer => bool_decide (to_string (trim (of_string answer)) ∈ ["y"; "Y"; "yes"]%string)) (prompt w)) with
                                | None => (done, Failed)
                                | Some false => (done, NothingSent)
                                | Some true =>
                                    if negb (send_ok w) then (done, Failed)
                                    else conclude args w recipient before (done ++ [Submitted tx])
                                end
                            end
                        end
                    end
                | _, _ => (done, PayPanic)
                end
            end
    | _, _ => (done, Failed)
    end.
End pay.

(** * WalletPayTheorems: what paying by hand may do

    Before a coin moves every guard has passed, one transaction is sent at most, the
    address probed is never spelled as the node's, and "PAID" is only said after the
    recipient's reported balance rose by the amount. *)

(** ** Endpoints *)
(** Being one endpoint is an equivalence of addresses, across the ones that parse and the
    ones that do not. *)
Theorem same_endpoint_is_an_equivalence : Equivalence (fun a b => same_endpoint a b = true).
Proof.
  split.
  - intros a. unfold same_endpoint. destruct (parse_socket_addr (trim a)); [|by apply bool_decide_eq_true].
    rewrite N.eqb_refl, bool_decide_eq_true_2; done.
  - intros a b. unfold same_endpoint. destruct (parse_socket_addr (trim a)), (parse_socket_addr (trim b));
      rewrite ?andb_true_iff, ?bool_decide_eq_true, ?N.eqb_eq; intuition congruence.
  - intros a b c. unfold same_endpoint.
    destruct (parse_socket_addr (trim a)) eqn:Ea, (parse_socket_addr (trim b)) eqn:Eb, (parse_socket_addr (trim c)) eqn:Ec;
      rewrite ?andb_true_iff, ?bool_decide_eq_true, ?N.eqb_eq; intuition congruence.
Qed.

(** A name is not resolved: the node's own address, by name, counts as another. *)
(** The same address written as a v4-mapped one, with blanks or with zero groups spelled
    out is recognised; written as a name it is not. *)
Theorem a_name_hides_the_nodes_address :
  same_endpoint (of_string "localhost:9000") (of_string "127.0.0.1:9000") = false /\
  same_endpoint (of_string "[::ffff:127.0.0.1]:9000") (of_string " 127.0.0.1:9000 ") = true /\
  same_endpoint (of_string "[::1]:9000") (of_string "[0:0::1]:9000") = true.
Proof. by vm_compute. Qed.

Section pay.
Context `{P : Primitives, EnvelopeEnv}.
Implicit Types (w : PayWorld) (args : PayArgs).

Definition sent (a : PayAction) : option Transaction := match a with Submitted tx => Some tx | _ => None end.
Definition probed (a : PayAction) : option text := match a with Probed x => Some x | _ => None end.
(** An action that neither sends nor probes. *)
Definition asks (a : PayAction) : Prop := sent a = None /\ probed a = None.

Lemma asks_omap l : Forall asks l -> omap sent l = [] /\ omap probed l = [].
Proof. induction 1 as [|a l [E1 E2] _ [IH1 IH2]]; [done|]. cbn. by rewrite E1, E2. Qed.

Lemma poll_loop_spec recipient before amount l : forall done,
  exists more, (poll_loop recipient before amount l done).1 = done ++ more /\ Forall asks more /\
    match (poll_loop recipient before amount l done).2 with
    | PaidOut now => before + amount <= now /\ exists p us, p ∈ l /\ poll_reply p = Some (UTXOs us) /\ now = sumN (value <$> us.*1)
    | StillWaiting => exists p, p ∈ l /\ late p = true
    | Polling => Forall (fun p => late p = false) l
    | Failed | PayPanic => True
    | _ => False
    end.
Proof.
  induction l as [|p l IH]; intros done; cbn [poll_loop]; [exists []; rewrite app_nil_r; by repeat constructor|].
  assert (Ha : Forall asks [DialledNode; Asked recipient]) by (repeat constructor).
  destruct (poll_dial p); cbn [negb]; [|exists [DialledNode]; split; [done|]; by split; [apply Forall_singleton|]].
  rewrite <- (app_assoc done). cbn [app].
  destruct (reply_utxos (poll_reply p)) as [us|] eqn:Er; [|by exists [DialledNode; Asked recipient]].
  destruct (balance_of us) as [now|] eqn:Eb; [|by exists [DialledNode; Asked recipient]].
  destruct (checked_add before amount) as [goal|] eqn:Eg; [|by exists [DialledNode; Asked recipient]].
  destruct (N.leb_spec goal now) as [Hle|_].
  - eexists. split; [done|]. split; [done|]. cbn. apply checked_add_Some in Eg as [-> _]. split; [done|].
    unfold reply_utxos in Er. destruct (poll_reply p) as [[]|] eqn:Ep; try done. injection Er as <-.
    exists p, utxos. split; [apply list_elem_of_here|]. split; [done|].
    apply checked_sum_Some in Eb as [-> _]. unfold flip_utxos. by rewrite <- !list_fmap_compose.
  - destruct (late p) eqn:El; [eexists; split; [done|]; split; [done|]; exists p; split; [apply list_elem_of_here|done]|].
    destruct (IH (done ++ [DialledNode; Asked recipient])) as (more & E & Hm & He).
    exists ([DialledNode; Asked recipient] ++ more). rewrite E, app_assoc. split; [done|]. split; [by apply Forall_app|].
    destruct (poll_loop _ _ _ _ _).2; try done.
    + destruct He as (q & Hq & ?). exists q. split; [by apply list_elem_of_further|done].
    + by constructor.
    + destruct He as (? & q & us' & Hq & ?). split; [done|]. exists q, us'. split; [by apply list_elem_of_further|done].
Qed.

Lemma conclude_spec args w recipient before done :
  exists more, (conclude args w recipient before done).1 = done ++ more /\ Forall asks more /\
    match (conclude args w recipient before done).2 with
    | PaidOut now => (forall e, window w <> Broke e) /\ before + amount args <= now /\
        exists p us, p ∈ polls w /\ poll_reply p = Some (UTXOs us) /\ now = sumN (value <$> us.*1)
    | Rejected => exists e, window w = Broke e /\ is_benign_disconnect e = true
    | NothingSent | Refused => False
    | _ => True
    end.
Proof.
  assert (Hp : exists more, (poll_loop recipient before (amount args) (polls w) done).1 = done ++ more /\ Forall asks more /\
    match (poll_loop recipient before (amount args) (polls w) done).2 with
    | PaidOut now => before + amount args <= now /\
        exists p us, p ∈ polls w /\ poll_reply p = Some (UTXOs us) /\ now = sumN (value <$> us.*1)
    | Rejected | NothingSent | Refused => False
    | _ => True
    end).
  { destruct (poll_loop_spec recipient before (amount args) (polls w) done) as (more & E & Hm & He).
    exists more. split; [done|]. split; [done|]. by destruct (poll_loop _ _ _ _ _).2. }
  destruct Hp as (more & E & Hm & He). unfold conclude. destruct (window w) as [|e|m] eqn:Ew.
  2:{ exists []. rewrite app_nil_r. split; [done|]. split; [constructor|]. cbn. destruct (is_benign_disconnect e) eqn:Eb; [by exists e|done]. }
  all: destruct (wait_seconds args =? 0); [exists []; rewrite app_nil_r; by repeat constructor|].
  all: exists more; split; [done|]; split; [done|]; by destruct (poll_loop _ _ _ _ _).2.
Qed.

(** What must hold before the command may send [tx]. *)
Record cleared (fresh : nat -> Uuid) args w (tx : Transaction) (before : N) : Prop := {
  cl_endpoint : same_endpoint (hub_addr args) (node args) = false;
  cl_interlock : hub_listens w = false \/ force args = true;
  cl_amount : amount args <> 0;
  cl_payment : exists key recipient us,
    from_key w = Some key /\ parse_pubkey (to args) = Some recipient /\ recipient <> verifying_key key /\
    my_reply w = Some (UTXOs us) /\ build_payment fresh (flip_utxos us) key recipient (amount args) (fee args) (verifying_key key) = Ok tx;
  cl_before : exists theirs, recipient_reply w = Some (UTXOs theirs) /\ before = sumN (value <$> theirs.*1);
  cl_consent : yes args = true \/ exists answer, prompt w = Some answer /\ to_string (trim (of_string answer)) ∈ ["y"; "Y"; "yes"]%string
}.

Lemma reply_utxos_Some reply us : reply_utxos reply = Some us -> exists l, reply = Some (UTXOs l) /\ us = flip_utxos l.
Proof. destruct reply as [[]|]; try done. intros [= <-]. eauto. Qed.
Lemma balance_flip l b : balance_of (flip_utxos l) = Some b -> b = sumN (value <$> l.*1).
Proof. intros E. apply checked_sum_Some in E as [-> _]. unfold flip_utxos. by rewrite <- !list_fmap_compose. Qed.

Ltac nothing := left; cbn; split_and!; [done|set_solver|set_solver|done].

(** Either nothing was sent, and the command did not conclude that anything was, or
    every guard has passed and what follows the one submission is [conclude]. *)
Lemma run_cases fresh args w :
  (omap sent (run fresh args w).1 = [] /\ omap probed (run fresh args w).1 ⊆ [hub_addr args] /\
   (run fresh args w).2 ∈ [Refused; Failed; NothingSent; PayPanic] /\
   (same_endpoint (hub_addr args) (node args) = true -> (run fresh args w).1 = [])) \/
  exists done tx recipient before, omap sent done = [] /\ omap probed done = [hub_addr args] /\ cleared fresh args w tx before /\
    run fresh args w = conclude args w recipient before (done ++ [Submitted tx]).
Proof.
  unfold run. destruct (same_endpoint (hub_addr args) (node args)) eqn:E1; [nothing|].
  destruct (hub_listens w && negb (force args)) eqn:E2; [nothing|].
  destruct (from_key w) as [key|] eqn:E3; [|nothing].
  destruct (parse_pubkey (to args)) as [recipient|] eqn:E4; [|nothing].
  destruct (bool_decide (recipient = verifying_key key) || (amount args =? 0)) eqn:E5; [nothing|].
  destruct (dial_ok w); [|nothing]. cbn [negb].
  destruct (reply_utxos (my_reply w)) as [us|] eqn:E6; [|nothing].
  destruct (balance_of (base.filter (fun e => e.1 = false) us)); [|nothing].
  destruct (balance_of (base.filter (fun e => e.1 = true) us)); [|nothing].
  destruct (reply_utxos (recipient_reply w)) as [theirs|] eqn:E7; [|nothing].
  destruct (balance_of theirs) as [before|] eqn:E8; [|nothing].
  destruct (build_payment _ _ _ _ _ _ _) as [tx|x|] eqn:E9; [|nothing|nothing].
  destruct (if yes args then _ else _) as [[]|] eqn:E10; [|nothing|nothing].
  destruct (send_ok w); [|nothing]. cbn [negb].
  right. eexists _, tx, recipient, before. split; [|split; [|split; [|reflexivity]]]; [done|done|].
  apply reply_utxos_Some in E6 as (l & E6 & ->). apply reply_utxos_Some in E7 as (l' & E7 & ->).
  apply orb_false_iff in E5 as [E5%bool_decide_eq_false E5'%N.eqb_neq]. apply balance_flip in E8.
  split; [done| |done| | |].
  - destruct (hub_listens w), (force args); auto.
  - exists key, recipient, l. done.
  - exists l'. done.
  - destruct (yes args); [by left|right]. destruct (prompt w) as [answer|]; [|done]. exists answer. split; [done|].
    cbn in E10. injection E10 as E10. by apply bool_decide_eq_true in E10.
Qed.

(** Whatever the node, the hub and the operator do, the command sends nothing or exactly
    one transaction; and then the two addresses differ, no hub listens or the operator
    forced it, the amount is not zero, the recipient is another key, the operator
    agreed, and the transaction is the exact payment built from the outputs the node
    reported unspoken for. *)
Theorem hand_payment_is_guarded fresh args w :
  omap sent (run fresh args w).1 = [] \/
  exists tx before, omap sent (run fresh args w).1 = [tx] /\ cleared fresh args w tx before.
Proof.
  destruct (run_cases fresh args w) as [(E & _)|(done & tx & recipient & before & E1 & _ & Hc & ->)]; [by left|right].
  exists tx, before. split; [|done]. destruct (conclude_spec args w recipient before (done ++ [Submitted tx])) as (more & -> & Hm & _).
  apply asks_omap in Hm as [Hm _]. by rewrite !omap_app, E1, Hm.
Qed.

(** The only address the command opens and drops a bare connection to is the hub's as
    given, and only when it is not the node's. *)
Theorem only_the_hubs_address_is_probed fresh args w address :
  Probed address ∈ (run fresh args w).1 -> address = hub_addr args /\ same_endpoint address (node args) = false.
Proof.
  intros Ha. assert (Hin : address ∈ omap probed (run fresh args w).1) by (apply list_elem_of_omap; by exists (Probed address)).
  destruct (run_cases fresh args w) as [(_ & E & _ & Hn)|(done & tx & recipient & before & _ & E & Hc & Hr)].
  - assert (address = hub_addr args) as -> by set_solver. split; [done|].
    destruct (same_endpoint _ _); [|done]. rewrite Hn in Ha by done. set_solver.
  - rewrite Hr in Hin. destruct (conclude_spec args w recipient before (done ++ [Submitted tx])) as (more & E2 & Hm & _).
    apply asks_omap in Hm as [_ Hm]. rewrite E2, !omap_app, E, Hm in Hin.
    assert (address = hub_addr args) as -> by set_solver. split; [done|by destruct Hc].
Qed.

(** PAID is only printed after one transaction was sent and not rejected, when the node
    reported the recipient a balance of at least the one before plus the amount. *)
Theorem paid_is_said_when_the_balance_rose fresh args w done now :
  run fresh args w = (done, PaidOut now) ->
  exists tx before p us, omap sent done = [tx] /\ cleared fresh args w tx before /\ (forall e, window w <> Broke e) /\
    p ∈ polls w /\ poll_reply p = Some (UTXOs us) /\ now = sumN (value <$> us.*1) /\ before + amount args <= now.
Proof.
  intros Hr. destruct (run_cases fresh args w) as [(_ & _ & E & _)|(done' & tx & recipient & before & E1 & _ & Hc & E)].
  { rewrite Hr in E. set_solver. }
  rewrite Hr in E. destruct (conclude_spec args w recipient before (done' ++ [Submitted tx])) as (more & E2 & Hm & He).
  rewrite <- E in E2, He. cbn in E2, He. destruct He as (Hw & Hle & p & us & Hp & Hq & Hn).
  exists tx, before, p, us. apply asks_omap in Hm as [Hm _]. by rewrite E2, !omap_app, E1, Hm.
Qed.
End pay.
