(* ===== verification/ToyWallet.v ===== *)
(** * ToyWallet: the wallet against a concrete node

    A wallet with one key and one coin on the chain of [ToyChain]: a payment the node
    admits, and a second one made before the wallet has asked the node again. *)

From S2P Require Import Prelude Types Crypto Params Transaction Spend Block Utxo Blockchain Mempool ChainSpec ChainInv ChainTheorems ToyChain ConsensusTheorems Wire BlockStore Peers Node ToyNode WalletCore.

Import Crypto.Toy.

Definition wallet_keys : list LoadedKey := [mkLoadedKey [1] [1]].
Definition toy_model : TransactionSizeModel :=
  match transaction_size_model 9 [8] 0 with Ok m => m | _ => mkSizeModel 0 0 0 end.
(** Five per byte. *)
Definition toy_fee : FeeConfig := mkFeeConfig PerByte (f64_of 5).
Definition toy_fresh (i : nat) : Uuid := 100 + N.of_nat i.

Definition asked (n : Node) : option Message :=
  match (handle_message good (seconds 100) 0 map_to_list [] n (FetchUTXOs [1])).2 with Ok (Answer m) => Some m | _ => None end.
Definition refreshed (n : Node) : UtxoStore := (wallet_fetch [asked n] (mkUtxoStore wallet_keys ∅)).1.
Definition paying (store : UtxoStore) (to : PublicKey) (amount : N) : Transaction :=
  match create_transaction toy_model toy_fee toy_fresh map_to_list store to amount with Ok tx => tx | _ => mkTransaction [] [] end.

Definition toy_node : Node := mkNode chain2 empty_store.
Definition toy_store : UtxoStore := Eval vm_compute in refreshed toy_node.
Definition pay_one : Transaction := Eval vm_compute in paying toy_store [3] 1000.
Definition pay_two : Transaction := Eval vm_compute in paying toy_store [4] 2000.

Lemma pay_one_built : create_transaction toy_model toy_fee toy_fresh map_to_list toy_store [3] 1000 = Ok pay_one.
Proof. vm_compute. reflexivity. Qed.
Lemma pay_two_built : create_transaction toy_model toy_fee toy_fresh map_to_list toy_store [4] 2000 = Ok pay_two.
Proof. vm_compute. reflexivity. Qed.

(** The node admits the wallet's first payment and closes the connection with a strike on
    the second one built before the next refresh. *)
Theorem second_payment_is_struck :
  exists n1 n2,
    handle_message good (seconds 100) 0 map_to_list [] toy_node (SubmitTransaction pay_one)
      = (n1, Ok (Continue (Some (NewTransaction pay_one)))) /\
    handle_message good (seconds 100) 0 map_to_list [] n1 (SubmitTransaction pay_two) = (n2, Ok (Close (Some false))).
Proof.
  eexists _, _. split; (etransitivity; [apply surjective_pairing|f_equal; vm_compute; reflexivity]).
Qed.

Lemma wallet_payment_is_exact_witness :
  exists taken rest fee,
    free_coins (map_to_list (utxos_of toy_store)) = taken ++ rest /\ worth taken = output_total pay_one + fee.
Proof.
  destruct (wallet_payment_is_exact toy_model toy_fee toy_fresh map_to_list toy_store [3] 1000 pay_one) as (taken & rest & fee & H1 & _ & _ & H2 & _).
  - repeat constructor.
  - exact pay_one_built.
  - exists taken, rest, fee. exact (conj H1 H2).
Defined.

Lemma unrefreshed_wallet_spends_the_same_coins_witness : exists h, h ∈ spends pay_one /\ h ∈ spends pay_two.
Proof.
  apply (unrefreshed_wallet_spends_the_same_coins toy_model toy_fee toy_fresh toy_fresh map_to_list toy_store [3] [4] 1000 2000).
  - exact pay_one_built.
  - exact pay_two_built.
  - reflexivity.
  - reflexivity.
Defined.

(** With a fixed fee nothing can overflow here. *)
Lemma wallet_refuses_only_for_want_of_funds_witness :
  create_transaction toy_model (mkFeeConfig Fixed (f64_of 500)) toy_fresh map_to_list toy_store [3] 5000000000
    = Err WalletInsufficientFunds.
Proof.
  destruct (wallet_refuses_only_for_want_of_funds toy_model (mkFeeConfig Fixed (f64_of 500)) toy_fresh map_to_list toy_store [3] 5000000000)
    as [[tx Htx]|[He _]].
  - intros n. exists 500. split; vm_compute; [reflexivity|discriminate].
  - vm_compute. constructor; [|constructor]. exists (mkLoadedKey [1] [1]). split; [apply list_elem_of_here|reflexivity].
  - discriminate.
  - vm_compute. discriminate.
  - exfalso. vm_compute in Htx. discriminate Htx.
  - exact He.
Defined.

Lemma refreshed_wallet_holds_what_the_node_said_witness :
  exists us, Some (UTXOs us) ∈ [asked toy_node] /\ utxos_of (refreshed toy_node) !! [1] = Some ((fun e => (e.2, e.1)) <$> us).
Proof.
  destruct (refreshed_wallet_holds_what_the_node_said [asked toy_node] wallet_keys (refreshed toy_node)) as [H _].
  - unfold refreshed. etransitivity; [apply surjective_pairing|f_equal; vm_compute; reflexivity].
  - apply (H (mkLoadedKey [1] [1])). apply list_elem_of_here.
Defined.

(** * ToyPay: one payment by hand

    The coin of [ToyWallet] paid by hand: the node stays silent, and the second poll
    shows the recipient's output. *)

From S2P Require Import Auth IpAddr Relay WalletPay.
Import ToyRelay.

Import Crypto.Toy.

Definition pay_args : PayArgs :=
  mkPayArgs (of_string "127.0.0.1:9000") "3" 1000 DEFAULT_FEE (of_string "127.0.0.1:9100") 180 false false.
Definition pay_world (id : Uuid) : PayWorld :=
  mkPayWorld false (Some [1]) true (asked toy_node) (Some (UTXOs [])) (Some "y"%string) true Silence
    [mkPoll true (Some (UTXOs [])) false; mkPoll true (Some (UTXOs [(mkOutput 1000 id [51], false)])) false].
Definition pay_run (id : Uuid) : list PayAction := Eval vm_compute in (run toy_fresh pay_args (pay_world id)).1.

Lemma pay_run_ends id : run toy_fresh pay_args (pay_world id) = (pay_run id, PaidOut 1000).
Proof. vm_compute. reflexivity. Qed.

Lemma paid_is_said_when_the_balance_rose_witness : exists tx, omap sent (pay_run 100) = [tx].
Proof.
  destruct (paid_is_said_when_the_balance_rose toy_fresh pay_args (pay_world 100) (pay_run 100) 1000 (pay_run_ends 100))
    as (tx & _ & _ & _ & H & _).
  exists tx. exact H.
Defined.

Lemma only_the_hubs_address_is_probed_witness :
  same_endpoint (of_string "127.0.0.1:9100") (of_string "127.0.0.1:9000") = false.
Proof.
  apply (only_the_hubs_address_is_probed toy_fresh pay_args (pay_world 100) (of_string "127.0.0.1:9100")).
  rewrite (pay_run_ends 100). apply list_elem_of_here.
Defined.

(** PAID is printed although the output that raised the balance is none of the
    transaction's. *)
Theorem anothers_payment_reads_as_paid :
  exists tx, omap sent (pay_run 7) = [tx] /\ (7 : Uuid) ∉ (unique_id <$> outputs tx) /\
    run toy_fresh pay_args (pay_world 7) = (pay_run 7, PaidOut 1000).
Proof.
  eexists. split; [vm_compute; reflexivity|]. split; [|exact (pay_run_ends 7)].
  cbn. intros H. repeat (apply elem_of_cons in H as [H|H]; [discriminate H|]). by apply elem_of_nil in H.
Qed.
